(* ===== verification/_CoqProject ===== *)
-Q . S2P
Prelude.v
GoText.v
Sha256.v
Runes.v
Names.v
AuditEncoding.v
AuditOrdering.v
AuditRegistry.v
Tables.v
Tree.v
TreeInv.v
TreeFacts.v
Trash.v
TrashFacts.v
StoreMachine.v
StoreProps.v
BatchMove.v
BatchPaths.v
BatchPlan.v
BatchApply.v
BatchProps.v
TrashProps.v
Identity.v
Tags.v
TagProps.v
Listing.v
Walk.v
WalkProps.v
VaultMachine.v
VaultProps.v
Blobs.v
Versions.v
VersionFacts.v
VersionProps.v
Ingest.v
IngestFacts.v
ContentMachine.v
IngestProps.v
ModelInput.v
Chunking.v
ChunkFacts.v
ChunkTokens.v
ChunkFit.v
ChunkEvidence.v
Generation.v
GenerationProps.v
LittleEndian.v
Heap.v
VectorSet.v
VectorSetProps.v
VectorIndex.v
VectorSearch.v
VectorIndexFacts.v
VectorIndexOpen.v
VectorIndexProps.v
Fusion.v
FusionProps.v
SearchText.v
Retrieval.v
RetrievalProps.v
Jobs.v
JsonText.v
Consent.v
ConsentProps.v
Rendition.v
RenditionRows.v
RenditionJobs.v
RenditionRowFacts.v
RenditionJobFacts.v
RenditionDelete.v
RenditionExample.v
RenditionProps.v
RenditionPublish.v
RenditionBuild.v
RenditionBuildFacts.v
Lexical.v
LexicalFacts.v
LexicalProps.v
LexicalReaders.v
LexicalQueue.v
