(* ===== verification/Prelude.v ===== *)
(** * Docbank verification: root file

    Docbank keeps documents as content-addressed bytes under a virtual file
    tree in one SQLite database, keeps an audited history of what happened to
    them, cuts their extracted text into inputs for embedding models, and
    searches them.  This library models the decision-making core of the Go
    program and proves it correct.  Every file quotes the Go file it models in
    its own header; this one says how they fit together.

    ** Conventions

    - An operation that returns a value and an error is a function into
      [result E A] (below).  The constructors of [E] are the errors a caller can
      tell apart ([errors.Is]); the text that [fmt.Errorf] adds is not modelled.
    - A Go string is [string], a list of bytes.  A rune is its UTF-8 encoding.
    - An [int] or [int64] is [Z] (or [nat] for lengths and indexes); where the
      code can overflow the wrap-around or the checked addition is written out.
    - A table is a finite map from its primary key to a [Record] with the
      columns of [internal/store/schema.sql], or a list when rows repeat; one
      transaction is a function [db → res (A * db)], whose state is dropped when
      it fails ([withStorageTx], [withLogicalTx]).
    - A Go map is a [gmap]; where a [range] loop over one could be visible its
      order is a parameter, and a theorem says that it does not show.
    - A loop whose recursion is not structural carries fuel, and running out is
      an error of its own; the bounds are listed below and every use has a
      theorem that its fuel is enough.

    ** Foundations

    - [Prelude]: results, checks, monadic folds and the shared list lemmas.
    - [GoText]: package strings, strconv and utf8 on byte strings, three-way
      comparisons with their laws, and the
      interface [Normalizer] to golang.org/x/text (Unicode NFC) with its
      documented laws.
    - [Sha256]: the interface of crypto/sha256 and the executable FIPS 180-4
      function as its instance, pinned by test vectors.
    - [Runes]: decoding, counting and slicing by runes.  [LittleEndian]: fixed-width little-endian words.  [Heap]: the
      sifting of container/heap.  [JsonText]: JSON strings and string lists, and
      that their text determines them.

    ** Names and the audited record (internal/store/names.go, internal/audit)

    [Names] has [NormalizeName] and the family of collision suffixes
    ([splitSuffix], [suffixedName], [parseSuffix]), and zero-padded decimals.  [AuditEncoding] is the
    canonical byte encoding of audit records (encoding.go), [AuditOrdering] the
    order of their collections (ordering.go), [AuditRegistry] the table of record
    kinds with [Validate] and [Encode] (registry.go).  Their theorems: the
    encoding is a prefix code, two records share their bytes exactly when they
    are equal up to the order of fields, [Validate] accepts exactly the
    registered shapes, a validated record always encodes, an ordered collection
    has one accepted arrangement.

    ** The tree (internal/store/node.go, write.go, trash.go)

    [Tables] has the relational state and the SQL statement forms with the
    unique indexes and cascades of schema.sql.  [Tree] has paths, directory and
    file nodes and moves; [Trash] has trashing, restoring and emptying; [Listing]
    has the listings.  [TreeInv] is the invariant (one root, directory parents,
    no cycles, live parents of live nodes, unique live names) with the lemmas
    that carry it through the statements.  [TreeFacts] and [TrashFacts]
    are the components' lemmas; [StoreMachine] lists the handlers as commands of
    a state machine, [StoreProps] and [TrashProps] prove its properties: every
    reachable state is
    a tree, a failed command changes nothing, each handler's effect on every
    branch, trash and restore are inverse, restoring always succeeds, paths and
    nodes name each other, listings are complete and ordered.

    ** Batch moves (internal/store/batch_move.go)

    [BatchMove] has the planner, its in-memory checks and the application under
    staging names.  [BatchPaths] (paths and topologies), [BatchPlan] (the planned
    and the final tree) and [BatchApply] build up to [BatchProps.BatchMove_refines]:
    the command implements the simultaneous relocation of its sources.

    ** Tree walks (internal/store/walk.go)

    [Walk] has the frontier table, the seeks, the pages and its
    invariant; [WalkProps] that the pages, under any pattern of
    interrupted requests, tile the sorted listing of the subtree, within bounds.

    ** Identities, tags (internal/store/identity.go, tag.go)

    [Identity]: version-4 UUIDs.  [Tags] has definitions, assignments and their
    listings, [TagProps] their receipts and effects.  [VaultMachine] and
    [VaultProps] put tree and tags into one state machine.

    ** Content (internal/store/physical_storage.go, version.go, ingest.go, ...)

    [Blobs] registers written bytes and decides what is authorized to be read;
    [Versions] has file creation, replacement, reversion, confirmation, the
    watched synchronisation and the histories; [Ingest] the records of where a
    file came from, their digests and the import transaction with the choice of
    a free name and the rule that recognizes what was imported before.
    [VersionFacts], [VersionProps], [IngestFacts] and
    [IngestProps] hold their theorems, [ContentMachine] the machine of all
    commands with the invariants of its reachable states and the properties at
    work on a sample vault.

    ** Embedding inputs (document/input_contract.go, chunking.go, generation.go)

    [ModelInput] has the envelopes text is sent to a model in and the prediction
    of rendered lengths, which is exact.
    [Chunking] has tokenization of evidence, the fitter with its work budget,
    overlap and truncation; [Generation] the sealed result and its validators,
    and the checks that evidence passes before (evidence_codec.go).
    [ChunkFacts] is a small logic for the fitter's monad; [ChunkTokens],
    [ChunkFit] and [ChunkEvidence] lead to
    [GenerationProps]: generation ends, loses no text, overlaps by the declared
    tokens, keeps every limit, and what it builds passes the validators.

    ** Retrieval (document/embedding/retrieval.go, internal/retrieval)

    [Fusion] collects candidates from a paged source and fuses two lanes by
    reciprocal rank with IEEE 754 scores; [FusionProps]: what it
    accepts, what it returns, and that the order of map iteration does not show.
    [SearchText] has the full-text query (internal/store/search.go), which input
    cannot escape.  [Retrieval] fuses documents under ordinal keys and makes the
    reports of a search; [RetrievalProps] proves that this is
    a plain merge by score and identity and that pages tile one ranking.

    ** Vector sets and the vector index (document/vector_set.go, internal/vectorindex)

    [VectorSet] builds, encodes and decodes the vectors of one document, with
    [float32] values as their IEEE 754 bits ([VectorSetProps]:
    both round trips).  [VectorIndex] has manifests, the build of a generation,
    its binary file and the exhaustive search (generation.go);
    [VectorIndexFacts] and [VectorIndexOpen] its lemmas;
    [VectorIndexProps] proves that a file reads back as it was built, that it
    has one representation and that untrusted bytes never make the opening
    panic, although every slice of the decoder can; [VectorSearch] that a search returns the best rows in order.  That
    theorem is about measures that are numbers and rows that are distinct.

    ** Processing consent (internal/store/consent.go)

    [Consent] has grants, revocations, the initial consent of a configured
    policy and the authorization of one provider call, over their tables;
    [ConsentProps] what
    an authorization decides, that a revocation is final and that a configured
    policy stays authorized, with the egress fence as steps of the
    calls in flight and the revocations that wait for them.

    ** Rendition jobs (internal/store/rendition_jobs.go, gc.go, processing_catalog.go)

    [Rendition] has the states, the captured artifact policy, the digests that
    name a shared build, the purge suppressions and the roots that keep builds
    and generations reachable under fencing tokens (gc.go); [RenditionRows] the rows with the [SET] clause of every statement and the
    validator of exported jobs (processing_metadata.go); [RenditionJobs] every
    command of the queue: enqueue and restart, claim, renewal, work, the
    provider boundary, retry and failure, staging and publication.
    [RenditionRowFacts] and [RenditionJobFacts] carry the invariant of the
    tables through them; [RenditionDelete] has what the deletion of versions and
    the purge of derivatives do to waiters, jobs and roots
    (rendition_delete.go), and what this keeps; [RenditionExample] is a catalog
    that satisfies the queue's interface, with one job on it.  [RenditionProps]
    is the machine of all commands and both deletions: its reachable states,
    with the two ways in which they can be invalid (a restart over a sealed
    snapshot, and a deletion that drops the roots of staged work), fencing of
    superseded claims as long as their job exists, quarantine of ambiguous
    calls.  [RenditionPublish] proves what a
    publication decides for every waiter, and what the restart of a collected
    job leaves behind.  The machine's callers are disciplined, as the worker
    (internal/processing/rendition_worker.go) and the collector are: a call is
    started fresh or resumed, the collector keeps what active roots name.

    ** Rendition catalog and lexical generations (processing_catalog.go, search.go)

    [RenditionBuild] has the immutable build aggregate: its validators, the
    tables of its artifacts, units and lexical segments, staging and loading.
    [Lexical] has the full-text projection: generations with their digests and
    the shared index, attachments and rendition heads, publication (with the
    embedding heads it revokes, all that is seen of the embedding catalog), the
    supersession and collection of generations, the deletion of versions,
    readers' leases, and the search page: names before contents, the filters,
    the text cache before the first publication.  FTS5 is its answer to a query:
    a predicate on texts and ranks.  [RenditionBuildFacts] proves that a
    staged build reads back as its canonical form, and for which reasons staging
    is refused; [LexicalFacts] has the invariant of the tables and
    [LexicalProps] their machine: what decides a publication, what a generation
    contains, what is collected, that every build loads as it was staged, and
    that a search returns exactly one page of what matches.  [LexicalReaders] interleaves leases with these transactions: what
    is leased stays as it was read.  [LexicalQueue] shows that these tables are a
    catalog for the rendition queue, and with both together that what a job
    publishes is found at every live node whose current version it is.

    ** Background jobs (internal/jobs/supervisor.go)

    [Jobs] has the supervisor as steps under its mutex, with the theorems that
    shutdown is final and completes, and the bound on stored errors.

    ** Interfaces

    Components meet through classes: [Normalizer], [Sha256], [Tokenizer],
    [ContractCodec] and [GenerationCodec] (canonical JSON), [TextQueue] and
    [RenditionTables] (tables of other components that a content change
    touches), [Kit] (the hash syntax and pack flags of the pack store),
    [AuditedTree], [AuditedTags], [AuditedContent], [AuditedIngest] and
    [AuditedBatch] (the variants of mutations that also write audit evidence,
    with the law that they keep the invariants), [MapRange] and [FusionRange]
    (order of map iteration), [ScopedPageSource] and [SearchBackend] (what a
    search calls), [RenditionContracts] (execution identities and snapshots of
    the document package), [CatalogDocuments] (canonical JSON and the legacy
    plain-text profile) and [RenditionCatalog] with its laws (builds, heads and
    lexical generations, as the rendition queue uses them), which [LexicalQueue]
    implements by the tables of the store.  Each has an instance in the files
    that hold witnesses.

    ** Bounds and fuel

    Ancestry, descent, path, free-name and tagged-path loops run for at most one
    more than the number of nodes; the choice of an import name for one more than
    the siblings and the taken ordinals together; nesting of audit values for
    [maxValueDepth] levels; [pathFor] and [visit] of a batch for the size of the
    topology; a page of a walk for its size; trimming and decoding for the length
    of the string; a binary search for the width of its interval; the generation
    loop for the runes of the evidence; collection for the wanted candidates;
    sifting in a heap for its length; the check of an opened index's rows for
    their number.

    ** Not modelled

    Error texts; the SQLite engine itself (that a statement means its relational
    reading is assumed; integer columns do not overflow); deferred foreign keys;
    the storage summary triggers; connections, locks, files, processes and
    networks; defensive clones, which are invisible on immutable values.
    [filepath.Base] is modelled for slash-separated paths.  Claim epochs and
    fences are incremented without a bound, and a compiler's fused multiply-add
    in the sums of a vector search is not modelled.  Of the search
    (internal/store/search.go) the normalization of its options, the page of a
    search without words, the explained and the semantic candidates are not
    modelled, nor is the tokenizer and the ranking of FTS5; a search reads one
    state of the tables.  Of the deletion of versions (rendition_delete.go) the
    jobs and roots of embeddings are left out.  Left for
    later, in order: the JSON form of audit records (internal/audit/json.go),
    the audited variants of the mutations and the validation of audit histories
    (internal/store/audit_*.go), the embedding job queue, garbage collection and
    version pruning, evidence normalization (document/normalize.go, and of
    evidence_codec.go all but the checks of texts and headings), metadata export and import.  Out of scope: the providers'
    HTTP clients, the HTTP API and its client, the terminal and web interfaces,
    media inspection, configuration and the command line. *)
From stdpp Require Export base option list strings gmap sorting pretty.
From Stdlib Require Export ZArith NArith Lia Ascii.
From Stdlib Require String.

(** ** Results

Go functions that return a value and an error are modelled by [result E A];
the error type [E] enumerates the sentinels a caller can observe through
[errors.Is]. The message text that [fmt.Errorf] adds is not modelled. *)
Inductive result (E A : Type) : Type :=
  | Ok (a : A)
  | Err (e : E).
Arguments Ok {E A} a.
Arguments Err {E A} e.

#[export] Instance result_ret {E} : MRet (result E) := λ A a, Ok a.
#[export] Instance result_bind {E} : MBind (result E) :=
  λ A B f m, match m with Ok a => f a | Err e => Err e end.
#[export] Instance result_fmap {E} : FMap (result E) :=
  λ A B f m, match m with Ok a => Ok (f a) | Err e => Err e end.
#[export] Instance result_throw {E} : MThrow E (result E) := λ A e, Err e.

#[export] Instance result_eq_dec {E A} `{EqDecision E, EqDecision A} :
  EqDecision (result E A).
Proof. solve_decision. Defined.

Definition is_Ok {E A} (r : result E A) : bool :=
  match r with Ok _ => true | Err _ => false end.

(** [check b e] is Go's [if !b { return e }]. *)
Definition check {E} (b : bool) (e : E) : result E unit :=
  if b then Ok tt else Err e.

(** [from_lookup o e] is the [sql.ErrNoRows] (or missing map key) pattern. *)
Definition from_lookup {E A} (o : option A) (e : E) : result E A :=
  match o with Some a => Ok a | None => Err e end.

(** Left fold with early exit: a [for] loop whose body can return an error. *)
Fixpoint foldM {E A B} (f : B → A → result E B) (b : B) (l : list A) : result E B :=
  match l with
  | [] => Ok b
  | a :: l => b' ← f b a; foldM f b' l
  end.

(** Map with early exit. *)
Fixpoint mapR {E A B} (f : A → result E B) (l : list A) : result E (list B) :=
  match l with
  | [] => Ok []
  | a :: l => b ← f a; bs ← mapR f l; Ok (b :: bs)
  end.

Section result_lemmas.
Context {E A B C : Type}.
Implicit Types (m : result E A) (e : E).

Lemma Ok_inj a b : Ok (E:=E) (A:=A) a = Ok b → a = b.
Proof. congruence. Qed.

Lemma Err_inj e1 e2 : Err (E:=E) (A:=A) e1 = Err e2 → e1 = e2.
Proof. congruence. Qed.

Lemma bind_Ok_iff m (f : A → result E B) b :
  m ≫= f = Ok b ↔ ∃ a, m = Ok a ∧ f a = Ok b.
Proof. destruct m; simpl; naive_solver. Qed.

Lemma bind_Err_iff m (f : A → result E B) e :
  m ≫= f = Err e ↔ m = Err e ∨ ∃ a, m = Ok a ∧ f a = Err e.
Proof. destruct m; simpl; naive_solver. Qed.

Lemma fmap_Ok_iff m (f : A → B) b :
  f <$> m = Ok b ↔ ∃ a, m = Ok a ∧ b = f a.
Proof. destruct m; simpl; naive_solver. Qed.

Lemma check_Ok_iff b e u : check (E:=E) b e = Ok u ↔ b = true.
Proof. destruct b, u; simpl; naive_solver. Qed.

Lemma check_Err_iff b e e' : check b e = Err e' ↔ b = false ∧ e = e'.
Proof. destruct b; simpl; naive_solver. Qed.

Lemma from_lookup_Ok_iff (o : option A) e a :
  from_lookup o e = Ok a ↔ o = Some a.
Proof. destruct o; simpl; naive_solver. Qed.

Lemma from_lookup_Err_iff (o : option A) e e' :
  from_lookup o e = Err e' ↔ o = None ∧ e = e'.
Proof. destruct o; simpl; naive_solver. Qed.

Lemma bind_assoc m (f : A → result E B) (g : B → result E C) :
  (m ≫= f) ≫= g = m ≫= (λ a, f a ≫= g).
Proof. by destruct m. Qed.
End result_lemmas.

(** A guard before the rest of a body. *)
Lemma check_bind_iff {E B} b (e : E) (k : result E B) x :
  (_ ← check b e; k) = Ok x ↔ b = true ∧ k = Ok x.
Proof. destruct b; simpl; naive_solver. Qed.

Lemma check_bind_true {E B} b (e : E) (k : result E B) : b = true → (_ ← check b e; k) = k.
Proof. by intros ->. Qed.

(** An invariant of the loop body is an invariant of the loop. *)
Lemma foldM_inv {E A B} (P : B → Prop) (f : B → A → result E B) l :
  (∀ b a b', a ∈ l → P b → f b a = Ok b' → P b') →
  ∀ b b', P b → foldM f b l = Ok b' → P b'.
Proof.
  induction l as [|a l IH]; intros Hstep b b' HP Hf; simplify_eq/=; [done|].
  apply bind_Ok_iff in Hf as (b1 & Hb1 & Hf).
  eapply IH; [|eapply Hstep; [left|done|done]|done].
  intros; eapply Hstep; [by right|done|done].
Qed.

Lemma foldM_app {E A B} (f : B → A → result E B) b l1 l2 :
  foldM f b (l1 ++ l2) = (b' ← foldM f b l1; foldM f b' l2).
Proof.
  revert b; induction l1 as [|a l1 IH]; intros b; [done|].
  simpl. destruct (f b a); simpl; [apply IH|done].
Qed.

Lemma mapR_Forall2 {E A B} (f : A → result E B) l l' :
  mapR f l = Ok l' ↔ Forall2 (λ a b, f a = Ok b) l l'.
Proof.
  revert l'; induction l as [|a l IH]; intros l'; simpl.
  - split; [intros [= <-]; constructor|inversion 1; done].
  - rewrite bind_Ok_iff. setoid_rewrite bind_Ok_iff. setoid_rewrite IH.
    split.
    + intros (b & Hb & bs & Hbs & [= <-]). by constructor.
    + inversion 1; subst. eauto 10.
Qed.

(** [res_inv] opens every success or failure hypothesis on [result]. *)
Ltac res_inv1 :=
  match goal with
  | H : Ok _ = Ok _ |- _ => apply Ok_inj in H
  | H : Err _ = Err _ |- _ => apply Err_inj in H
  | H : Ok _ = Err _ |- _ => discriminate H
  | H : Err _ = Ok _ |- _ => discriminate H
  | H : mret _ = Ok _ |- _ => unfold mret, result_ret in H
  | H : mbind _ _ = Ok _ |- _ =>
      let a := fresh "a" in let Ha := fresh "H" in
      apply bind_Ok_iff in H as (a & Ha & H)
  | H : _ <$> _ = Ok _ |- _ =>
      let a := fresh "a" in let Ha := fresh "H" in
      apply fmap_Ok_iff in H as (a & Ha & H)
  | H : check _ _ = Ok _ |- _ => apply check_Ok_iff in H
  | H : from_lookup _ _ = Ok _ |- _ => apply from_lookup_Ok_iff in H
  | H : from_lookup _ _ = Err _ |- _ =>
      let Ha := fresh "H" in apply from_lookup_Err_iff in H as [H Ha]
  | H : check _ _ = Err _ |- _ =>
      let Ha := fresh "H" in apply check_Err_iff in H as [H Ha]
  end.
Ltac res_inv := repeat res_inv1; subst.
Ltac res_simpl := repeat res_inv1; simplify_eq/=.

(** ** Hint database of the development *)
Create HintDb docbank.
#[export] Hint Rewrite @length_app @length_take @length_drop : docbank.

(** ** Generic list lemmas *)

Lemma Forall2_eq_l {A} (l l' : list A) : Forall2 eq l l' → l = l'.
Proof. induction 1; by subst. Qed.

Lemma head_filter_Some {A} (P : A → Prop) `{∀ x, Decision (P x)} (l : list A) x :
  head (filter P l) = Some x → P x ∧ x ∈ l.
Proof.
  intros Hh. destruct (filter P l) as [|y l'] eqn:Hf; simplify_eq/=.
  assert (x ∈ filter P l) as Hin by (rewrite Hf; by left).
  by rewrite list_elem_of_filter in Hin.
Qed.

Lemma head_filter_None {A} (P : A → Prop) `{∀ x, Decision (P x)} (l : list A) :
  head (filter P l) = None → ∀ x, x ∈ l → ¬ P x.
Proof.
  intros Hh x Hx HP. destruct (filter P l) as [|y l'] eqn:Hf; simplify_eq/=.
  assert (x ∈ filter P l) as Hin by (by apply list_elem_of_filter).
  rewrite Hf in Hin. by apply elem_of_nil in Hin.
Qed.

Lemma take_drop_app {A} (l1 l2 : list A) :
  take (length l1) (l1 ++ l2) = l1 ∧ drop (length l1) (l1 ++ l2) = l2.
Proof. by rewrite take_app_length, drop_app_length. Qed.

Lemma NoDup_fmap_inj {A B} (f : A → B) (l : list A) x y :
  NoDup (f <$> l) → x ∈ l → y ∈ l → f x = f y → x = y.
Proof.
  induction l as [|a l IH]; [by intros _ ?%elem_of_nil|].
  rewrite fmap_cons. intros [Ha Hnd]%NoDup_cons Hx Hy Hf.
  apply elem_of_cons in Hx as [->|Hx], Hy as [->|Hy]; auto.
  - destruct Ha. rewrite Hf. by apply list_elem_of_fmap_2.
  - destruct Ha. rewrite <- Hf. by apply list_elem_of_fmap_2.
Qed.

Lemma NoDup_fmap_filter {A B} (f : A → B) (P : A → Prop) `{∀ x, Decision (P x)} l :
  NoDup (f <$> l) → NoDup (f <$> filter P l).
Proof.
  induction l as [|x l IH]; [done|]. rewrite fmap_cons. intros [Hx Hnd]%NoDup_cons.
  rewrite filter_cons. case_decide; [|by apply IH]. rewrite fmap_cons. apply NoDup_cons. split; [|by apply IH].
  intros (y & Hy & [_ Hin]%list_elem_of_filter)%list_elem_of_fmap. apply Hx. rewrite Hy.
  by apply list_elem_of_fmap_2.
Qed.

Lemma list_filter_id {A} (Q : A → Prop) `{∀ x, Decision (Q x)} (l : list A) :
  (∀ x, x ∈ l → Q x) → filter Q l = l.
Proof.
  induction l as [|a l IH]; intros Hl; [done|]. rewrite filter_cons_True by (apply Hl; by left).
  f_equal. apply IH. intros; apply Hl; by right.
Qed.
