(* ===== verification/GoText.v ===== *)
(** * Go strings

    A Go string is a sequence of bytes: it is modelled by [string], each
    [ascii] a byte.  This file models the functions of Go's standard packages
    [strings], [unicode/utf8], [unicode] and [strconv] that the source uses,
    and the interface to the third-party normalizer.

    What makes a three-way comparison a total order, how comparisons of parts
    combine, and sorting and selecting by one. *)
From stdpp Require Import sorting.
From S2P Require Import Prelude.

(** [int64] addition, and [int] on a 64-bit platform. *)
Definition int_add (a b : Z) : Z := ((a + b + 2 ^ 63) mod 2 ^ 64 - 2 ^ 63)%Z.

(** ** Slicing *)

Notation slen := String.length.

(** [name[:i]] *)
Fixpoint stake (i : nat) (s : string) : string :=
  match i, s with
  | S i, String a s => String a (stake i s)
  | _, _ => ""
  end.

(** [name[i:]] *)
Fixpoint sdrop (i : nat) (s : string) : string :=
  match i, s with
  | 0, _ => s
  | S i, String _ s => sdrop i s
  | S _, "" => ""
  end.

Lemma stake_sdrop i s : stake i s +:+ sdrop i s = s.
Proof.
  revert s; induction i as [|i IH]; intros [|a s]; try done.
  change (String a (stake i s +:+ sdrop i s) = String a s). by rewrite IH.
Qed.
Lemma slen_app s t : slen (s +:+ t) = slen s + slen t.
Proof. induction s as [|a s IH]; [done|]. exact (f_equal S IH). Qed.
Lemma stake_app s t : stake (slen s) (s +:+ t) = s.
Proof. induction s as [|a s IH]; [by destruct t|]. exact (f_equal (String a) IH). Qed.
Lemma sdrop_app s t : sdrop (slen s) (s +:+ t) = t.
Proof. induction s as [|a s IH]; [by destruct t|]. exact IH. Qed.
Lemma slen_sdrop i s : slen (sdrop i s) = slen s - i.
Proof.
  revert s; induction i as [|i IH]; intros [|a s]; simpl; done || apply IH.
Qed.
Lemma slen_stake i s : slen (stake i s) = Nat.min i (slen s).
Proof.
  revert s; induction i as [|i IH]; intros [|a s]; simpl; try done. by rewrite IH.
Qed.
Lemma sapp_nil_r s : s +:+ "" = s.
Proof. induction s as [|a s IH]; [done|]. exact (f_equal (String a) IH). Qed.
Lemma sapp_assoc s t u : s +:+ (t +:+ u) = (s +:+ t) +:+ u.
Proof. induction s as [|a s IH]; [done|]. exact (f_equal (String a) IH). Qed.
Lemma sapp_cons a s t : String a s +:+ t = String a (s +:+ t).
Proof. done. Qed.
Lemma sapp_inv_l s t u : s +:+ t = s +:+ u → t = u.
Proof. apply String.app_inj. Qed.
Lemma sapp_inv_r s t u : s +:+ u = t +:+ u → s = t.
Proof.
  intros H. assert (slen s = slen t) as Hl.
  { pose proof (f_equal slen H) as Hl. rewrite !slen_app in Hl. lia. }
  pose proof (stake_app s u) as H1. rewrite H, Hl, stake_app in H1. done.
Qed.
#[export] Hint Rewrite slen_app stake_app sdrop_app slen_sdrop slen_stake
  sapp_nil_r : docbank.

(** ** package strings *)

Fixpoint mem_byte (c : ascii) (s : string) : bool :=
  match s with
  | "" => false
  | String a s => Ascii.eqb a c || mem_byte c s
  end.

(** [strings.ContainsAny] for a set of ASCII bytes. *)
Definition ContainsAny (s : string) (cs : list ascii) : bool :=
  existsb (λ c, mem_byte c s) cs.

Definition HasPrefix (s p : string) : bool := String.prefix p s.

Definition HasSuffix (s suf : string) : bool :=
  (slen suf <=? slen s)%nat && String.eqb (sdrop (slen s - slen suf) s) suf.

(** [strings.LastIndex s "c"] for a one-byte separator, [None] for -1. *)
Fixpoint LastIndexByte (s : string) (c : ascii) : option nat :=
  match s with
  | "" => None
  | String a s =>
      match LastIndexByte s c with
      | Some i => Some (S i)
      | None => if Ascii.eqb a c then Some 0 else None
      end
  end.

(** [strings.Split] / [strings.SplitSeq] for a one-byte separator. *)
Fixpoint SplitByte (c : ascii) (s : string) : list string :=
  match s with
  | "" => [""]
  | String a s =>
      if Ascii.eqb a c then "" :: SplitByte c s
      else match SplitByte c s with
           | h :: t => String a h :: t
           | [] => [String a ""]
           end
  end.

(** [strings.Join] *)
Definition Join (segs : list string) (sep : string) : string := String.concat sep segs.

(** [strings.TrimSuffix] *)
Definition TrimSuffix (s suf : string) : string :=
  if HasSuffix s suf then stake (slen s - slen suf) s else s.

Lemma HasPrefix_spec s p : HasPrefix s p = true ↔ ∃ r, s = p +:+ r.
Proof.
  unfold HasPrefix. revert s; induction p as [|a p IH]; intros s.
  - split; [intros _; exists s; reflexivity|by destruct s].
  - destruct s as [|b s]; simpl; [split; [done|intros [r Hr]; discriminate]|].
    destruct (Ascii.ascii_dec a b) as [->|Hab].
    + rewrite IH. split; intros [r Hr]; exists r.
      * by rewrite Hr.
      * rewrite sapp_cons in Hr. congruence.
    + split; [done|]. intros [r Hr]. rewrite sapp_cons in Hr. congruence.
Qed.

Lemma HasSuffix_spec s suf : HasSuffix s suf = true ↔ ∃ r, s = r +:+ suf.
Proof.
  unfold HasSuffix. rewrite andb_true_iff, Nat.leb_le, String.eqb_eq. split.
  - intros [Hle Hd]. exists (stake (slen s - slen suf) s).
    rewrite <- Hd at 2. by rewrite stake_sdrop.
  - intros [r ->]. rewrite slen_app. split; [lia|].
    replace (slen r + slen suf - slen suf)%nat with (slen r) by lia.
    by rewrite sdrop_app.
Qed.

Lemma mem_byte_app c s t : mem_byte c (s +:+ t) = mem_byte c s || mem_byte c t.
Proof.
  induction s as [|a s IH]; [done|]. rewrite sapp_cons. simpl.
  by rewrite IH, orb_assoc.
Qed.

Lemma LastIndexByte_spec s c i :
  LastIndexByte s c = Some i →
  (i < slen s)%nat ∧ sdrop i s = String c (sdrop (S i) s) ∧ mem_byte c (sdrop (S i) s) = false.
Proof.
  revert i; induction s as [|a s IH]; intros i; simpl; [done|].
  destruct (LastIndexByte s c) as [j|] eqn:Hj; intros ?; simplify_eq/=.
  - destruct (IH j eq_refl) as (? & ? & ?). auto with lia.
  - destruct (Ascii.eqb_spec a c) as [->|]; simplify_eq/=.
    split_and!; [lia|done|]. clear IH.
    induction s as [|b s IH]; [done|]. simpl in *.
    destruct (LastIndexByte s c); [done|].
    destruct (Ascii.eqb_spec b c); simpl; [done|auto].
Qed.

Lemma LastIndexByte_None s c : LastIndexByte s c = None ↔ mem_byte c s = false.
Proof.
  induction s as [|a s IH]; simpl; [done|].
  destruct (LastIndexByte s c) eqn:?.
  - destruct (mem_byte c s); [|naive_solver]. by rewrite orb_true_r.
  - destruct (mem_byte c s); [naive_solver|]. rewrite orb_false_r.
    by destruct (Ascii.eqb a c).
Qed.

Lemma SplitByte_nonempty c s : SplitByte c s ≠ [].
Proof. destruct s as [|a s]; simpl; [done|]. repeat case_match; done. Qed.

Lemma SplitByte_nomem c s : mem_byte c s = false → SplitByte c s = [s].
Proof.
  induction s as [|a s IH]; simpl; [done|]. intros [Ha Hs]%orb_false_iff.
  by rewrite Ha, IH.
Qed.

Lemma SplitByte_app c s t :
  mem_byte c s = false → SplitByte c (s +:+ String c t) = s :: SplitByte c t.
Proof.
  induction s as [|a s IH]; intros Hs.
  - simpl. by rewrite Ascii.eqb_refl.
  - rewrite sapp_cons. simpl in *. apply orb_false_iff in Hs as [Ha Hs].
    by rewrite Ha, (IH Hs).
Qed.

(** ** package unicode/utf8 *)

(** [utf8.ValidString]: the accept table of the standard library.  The first
    byte fixes the ranges of the continuation bytes that must follow. *)
Definition utf8_start (a : ascii) : option (list (N * N)) :=
  let b := N_of_ascii a in
  if (b <? 0x80)%N then Some []
  else if (b <? 0xC2)%N then None
  else if (b <? 0xE0)%N then Some [(0x80, 0xBF)]%N
  else if (b =? 0xE0)%N then Some [(0xA0, 0xBF); (0x80, 0xBF)]%N
  else if (b =? 0xED)%N then Some [(0x80, 0x9F); (0x80, 0xBF)]%N
  else if (b <? 0xF0)%N then Some [(0x80, 0xBF); (0x80, 0xBF)]%N
  else if (b =? 0xF0)%N then Some [(0x90, 0xBF); (0x80, 0xBF); (0x80, 0xBF)]%N
  else if (b <? 0xF4)%N then Some [(0x80, 0xBF); (0x80, 0xBF); (0x80, 0xBF)]%N
  else if (b =? 0xF4)%N then Some [(0x80, 0x8F); (0x80, 0xBF); (0x80, 0xBF)]%N
  else None.

Fixpoint valid_from (pending : list (N * N)) (s : string) : bool :=
  match s, pending with
  | "", [] => true
  | "", _ :: _ => false
  | String a s, (lo, hi) :: pending =>
      (lo <=? N_of_ascii a)%N && (N_of_ascii a <=? hi)%N && valid_from pending s
  | String a s, [] =>
      match utf8_start a with
      | Some pending => valid_from pending s
      | None => false
      end
  end.

Definition ValidString (s : string) : bool := valid_from [] s.

Lemma valid_from_app p s t :
  valid_from p s = true → ValidString t = true → valid_from p (s +:+ t) = true.
Proof.
  intros Hs Ht. revert p Hs; induction s as [|a s IH]; intros [|[lo hi] p] Hs;
    rewrite ?sapp_cons; simpl in *; try done.
  - destruct (utf8_start a); [|done]. by apply IH.
  - apply andb_true_iff in Hs as [-> Hs]. by apply IH.
Qed.

Lemma ValidString_app s t :
  ValidString s = true → ValidString t = true → ValidString (s +:+ t) = true.
Proof. apply valid_from_app. Qed.

(** [strings.ContainsFunc(name, unicode.IsControl)] on valid UTF-8: the runes
    of category Cc are U+0000..U+001F, U+007F and U+0080..U+009F, the last
    encoded as 0xC2 followed by 0x80..0x9F.  In valid UTF-8 the byte 0xC2 is
    always a first byte. *)
Fixpoint ContainsControl (s : string) : bool :=
  match s with
  | "" => false
  | String a s =>
      let b := N_of_ascii a in
      ((b <? 0x20) || (b =? 0x7F))%N
      || match s with
         | String a' _ => ((b =? 0xC2) && (0x80 <=? N_of_ascii a') && (N_of_ascii a' <=? 0x9F))%N
         | "" => false
         end
      || ContainsControl s
  end.

(** ** package strconv *)

Fixpoint digits_from (acc : Z) (s : string) : option Z :=
  match s with
  | "" => Some acc
  | String a s =>
      match Ascii.is_nat a with
      | Some d => digits_from (10 * acc + Z.of_nat d) s
      | None => None
      end
  end.

Definition int_min : Z := -2 ^ 63.
Definition int_max : Z := 2 ^ 63 - 1.

(** [strconv.Atoi] on a 64-bit platform: an optional sign, then decimal
    digits, the value within int64; [None] stands for a returned error. *)
Definition Atoi (s : string) : option Z :=
  let '(neg, body) :=
    match s with
    | String "+" r => (false, r)
    | String "-" r => (true, r)
    | _ => (false, s)
    end in
  match body with
  | "" => None
  | _ =>
      match digits_from 0 body with
      | Some v =>
          let v := if neg : bool then (- v)%Z else v in
          if ((int_min <=? v) && (v <=? int_max))%Z then Some v else None
      | None => None
      end
  end.

(** [fmt.Sprintf("%d", n)] *)
Definition Itoa (n : Z) : string := pretty n.

(** ** golang.org/x/text/unicode/norm

    The normalizer is third-party code: [nfc] is a parameter of the model and
    the laws below are documented behaviour of Normalization Form C (UAX 15):
    it is idempotent, keeps valid UTF-8 valid, leaves ASCII alone, its fixed
    points are closed under substrings that respect code points, and there is
    a normalization boundary before every ASCII character. *)
Definition is_ascii (a : ascii) : bool := (N_of_ascii a <? 0x80)%N.

Fixpoint all_chars (P : ascii → bool) (s : string) : bool :=
  match s with "" => true | String a s => P a && all_chars P s end.
Notation all_ascii := (all_chars is_ascii).

Class Normalizer := {
  nfc : string → string;
  nfc_idem s : nfc (nfc s) = nfc s;
  nfc_valid s : ValidString s = true → ValidString (nfc s) = true;
  nfc_ascii s : all_ascii s = true → nfc s = s;
  nfc_substring s t :
    ValidString s = true → ValidString t = true → nfc (s +:+ t) = s +:+ t →
    nfc s = s ∧ nfc t = t;
  nfc_boundary s a t :
    is_ascii a = true → nfc s = s → nfc (String a t) = String a t →
    nfc (s +:+ String a t) = s +:+ String a t;
}.

(** The identity satisfies the laws; it agrees with NFC on ASCII input. *)
Definition ascii_normalizer : Normalizer.
Proof. by refine {| nfc := λ s, s |}. Defined.

(** A valid string can be cut before an ASCII character. *)
Lemma valid_from_cut p s a t :
  Forall (λ r : N * N, (0x80 <= r.1)%N) p → is_ascii a = true →
  valid_from p (s +:+ String a t) = true →
  valid_from p s = true ∧ ValidString (String a t) = true.
Proof.
  intros Hp Ha. revert p Hp; induction s as [|b s IH]; intros p Hp Hv.
  { destruct p as [|[lo hi] p]; [done|]. exfalso.
    apply Forall_cons in Hp as [Hlo _]. unfold is_ascii in Ha. simpl in *.
    rewrite !andb_true_iff, N.leb_le in Hv. apply N.ltb_lt in Ha. lia. }
  rewrite sapp_cons in Hv. destruct p as [|[lo hi] p]; simpl in Hv |- *.
  - destruct (utf8_start b) as [p|] eqn:Hb; [|done]. apply IH; [|done].
    unfold utf8_start in Hb. repeat case_match; simplify_eq; repeat constructor; simpl; lia.
  - apply andb_true_iff in Hv as [-> Hv]. apply Forall_cons in Hp as [_ Hp]. by apply IH.
Qed.

Lemma ValidString_cut s a t :
  is_ascii a = true → ValidString (s +:+ String a t) = true →
  ValidString s = true ∧ ValidString (String a t) = true.
Proof. apply valid_from_cut. constructor. Qed.

Lemma all_ascii_valid s : all_ascii s = true → ValidString s = true.
Proof.
  unfold ValidString. induction s as [|a s IH]; simpl; [done|].
  intros [Ha Hs]%andb_true_iff. unfold utf8_start, is_ascii in *. rewrite Ha. auto.
Qed.

Lemma all_chars_app P s t : all_chars P (s +:+ t) = all_chars P s && all_chars P t.
Proof. induction s as [|a s IH]; rewrite ?sapp_cons; simpl; [done|]. by rewrite IH, andb_assoc. Qed.

Lemma all_chars_mem P c s : P c = false → all_chars P s = true → mem_byte c s = false.
Proof.
  intros Hc. induction s as [|a s IH]; simpl; [done|]. intros [Ha Hs]%andb_true_iff.
  rewrite (IH Hs), orb_false_r. destruct (Ascii.eqb_spec a c); congruence.
Qed.

(** * Comparison functions *)

(** A comparison that is a strict total order on the values satisfying [P]. *)
Record cmp_laws {A} (P : A → Prop) (cmp : A → A → comparison) : Prop := {
  cmp_refl x : P x → cmp x x = Eq;
  cmp_eq x y : P x → P y → cmp x y = Eq → x = y;
  cmp_flip x y : P x → P y → cmp y x = CompOpp (cmp x y);
  cmp_trans x y z : P x → P y → P z → cmp x y = Lt → cmp y z = Lt → cmp x z = Lt;
}.

Lemma cmp_laws_weaken {A} (P Q : A → Prop) cmp : (∀ x, Q x → P x) → cmp_laws P cmp → cmp_laws Q cmp.
Proof. intros HQ [Hr He Hf Ht]. split; eauto. Qed.

Lemma Z_compare_laws : cmp_laws (λ _, True) Z.compare.
Proof.
  split.
  - intros x _. apply Z.compare_refl.
  - intros x y _ _. apply Z.compare_eq.
  - intros x y _ _. apply Z.compare_antisym.
  - intros x y z _ _ _. rewrite !Z.compare_lt_iff. lia.
Qed.

Lemma string_compare_refl s : String.compare s s = Eq.
Proof. induction s as [|a s IH]; simpl; [done|]. unfold Ascii.compare. by rewrite N.compare_refl. Qed.

Lemma string_compare_laws : cmp_laws (λ _, True) String.compare.
Proof.
  split.
  - intros x _. apply string_compare_refl.
  - intros x y _ _. apply String.compare_eq_iff.
  - intros x y _ _. apply String.compare_antisym.
  - intros x y z _ _ _ Hxy Hyz. assert (String.le x z) as Hle.
    { transitivity y; unfold String.le, String.leb; by rewrite ?Hxy, ?Hyz. }
    unfold String.le, String.leb in Hle. destruct (String.compare x z) eqn:Hxz; [|done|done].
    apply String.compare_eq_iff in Hxz as ->. rewrite String.compare_antisym, Hxy in Hyz. discriminate.
Qed.

(** Lexicographic order of pairs. *)
Definition pair_compare {A B} (c1 : A → A → comparison) (c2 : B → B → comparison) (p q : A * B) : comparison :=
  match c1 p.1 q.1 with Eq => c2 p.2 q.2 | c => c end.

Lemma pair_compare_laws {A B} (P : A → Prop) (Q : B → Prop) c1 c2 :
  cmp_laws P c1 → cmp_laws Q c2 → cmp_laws (λ p, P p.1 ∧ Q p.2) (pair_compare c1 c2).
Proof.
  intros [R1 E1 F1 T1] [R2 E2 F2 T2]. unfold pair_compare. split.
  - intros [a b] [Ha Hb]. cbn in *. rewrite R1 by done. by apply R2.
  - intros [a b] [a' b'] [Ha Hb] [Ha' Hb']. cbn in *. destruct (c1 a a') eqn:H; [|done|done].
    apply E1 in H as ->; [|done|done]. by intros ->%E2.
  - intros [a b] [a' b'] [Ha Hb] [Ha' Hb']. cbn in *. rewrite (F1 a a') by done.
    destruct (c1 a a') eqn:H; cbn; [by apply F2|done|done].
  - intros [a b] [a' b'] [a'' b''] [Ha Hb] [Ha' Hb'] [Ha'' Hb'']. cbn in *.
    destruct (c1 a a') eqn:H; [|intros _|done].
    + apply E1 in H as ->; [|done|done]. destruct (c1 a' a''); [by eauto|done|done].
    + destruct (c1 a' a'') eqn:H'; [|intros _|done].
      * apply E1 in H' as ->; [|done|done]. by rewrite H.
      * by rewrite (T1 a a' a'').
Qed.

Lemma pair_total_laws {A B} (c1 : A → A → comparison) (c2 : B → B → comparison) :
  cmp_laws (λ _, True) c1 → cmp_laws (λ _, True) c2 → cmp_laws (λ _, True) (pair_compare c1 c2).
Proof.
  intros H1 H2. apply (cmp_laws_weaken (λ _, True ∧ True)); [done|].
  exact (pair_compare_laws (λ _, True) (λ _, True) _ _ H1 H2).
Qed.

(** A comparison through an injective key. *)
Lemma key_compare_laws {A K} (f : A → K) (P : K → Prop) (Q : A → Prop) cmp :
  cmp_laws P cmp → (∀ x, Q x → P (f x)) → (∀ x y, Q x → Q y → f x = f y → x = y) →
  cmp_laws Q (λ x y, cmp (f x) (f y)).
Proof.
  intros [Hr He Hf Ht] HP Hinj. split.
  - auto.
  - intros x y Hx Hy H. apply Hinj; auto.
  - auto.
  - intros x y z Hx Hy Hz. apply Ht; auto.
Qed.

Lemma flip_compare_laws {A} (P : A → Prop) cmp : cmp_laws P cmp → cmp_laws P (λ x y, cmp y x).
Proof.
  intros [Hr He Hf Ht]. split; [auto| |auto|eauto].
  intros x y Hx Hy H. symmetry. auto.
Qed.
