(* ===== verification/Sha256.v ===== *)
(** * SHA-256

    [crypto/sha256] of Go's standard library.  The store names content and
    facts by SHA-256 digests; its theorems hold for every function with
    thirty-two byte results (class [Sha256]), and [fips_sha256] is the instance
    the program runs, the algorithm of FIPS 180-4. *)
From S2P Require Import Prelude.

Class Sha256 := {
  Sum256 : list ascii → list ascii;
  Sum256_length m : length (Sum256 m) = 32%nat;
}.

Module FIPS.
Definition word (n : N) : N := N.land n 0xFFFFFFFF.
Definition add32 (a b : N) : N := word (a + b).
Definition rotr (k x : N) : N := N.lor (N.shiftr x k) (word (N.shiftl x (32 - k))).
Definition not32 (x : N) : N := N.lxor x 0xFFFFFFFF.

(** The constants of the standard: the first thirty-two bits of the fractional
    parts of the cube roots, and of the square roots, of the first primes. *)
Definition prime (n : nat) : bool :=
  forallb (λ d, negb (n mod d =? 0)%nat) (seq 2 (n - 2)).
Definition primes (below : nat) : list N := N.of_nat <$> filter (λ n, prime n = true) (seq 2 (below - 2)).
Fixpoint cube_root (bits : nat) (root n : N) : N :=
  match bits with
  | O => root
  | S bits =>
      let next := (root + 2 ^ N.of_nat bits)%N in
      cube_root bits (if (next ^ 3 <=? n)%N then next else root) n
  end.
Definition round_constants : list N :=
  Eval vm_compute in (λ p, word (cube_root 36 0 (p * 2 ^ 96))) <$> primes 312.
Definition state0 : list N :=
  Eval vm_compute in (λ p, word (N.sqrt (p * 2 ^ 64))) <$> primes 20.

(** Big-endian byte strings. *)
Definition be_bytes (len : nat) (n : N) : list ascii :=
  (λ i, ascii_of_N (N.land (N.shiftr n (8 * N.of_nat i)) 0xFF)) <$> rev (seq 0 len).
Definition be_value (b : list ascii) : N := fold_left (λ n a, 256 * n + N_of_ascii a)%N b 0%N.

(** The message with its padding: one bit, zeros, and the length in bits. *)
Definition padded (m : list ascii) : list ascii :=
  m ++ "128"%char
    :: replicate (63 - (length m + 8) mod 64) "000"%char
    ++ be_bytes 8 (8 * N.of_nat (length m)).

Fixpoint groups (size fuel : nat) (b : list ascii) : list (list ascii) :=
  match fuel, b with
  | S fuel, _ :: _ => take size b :: groups size fuel (drop size b)
  | _, _ => []
  end.

(** The message schedule, most recent word first. *)
Fixpoint extend (n : nat) (w : list N) : list N :=
  match n with
  | 0 => w
  | S n =>
      let at_ i := nth i w 0%N in
      let s0 := (let x := at_ 14 in N.lxor (N.lxor (rotr 7 x) (rotr 18 x)) (N.shiftr x 3)) in
      let s1 := (let x := at_ 1 in N.lxor (N.lxor (rotr 17 x) (rotr 19 x)) (N.shiftr x 10)) in
      extend n (add32 (add32 (at_ 15) s0) (add32 (at_ 6) s1) :: w)
  end.

Definition sha_round (st : list N) (kw : N * N) : list N :=
  match st with
  | [a; b; c; d; e; f; g; h] =>
      let s1 := N.lxor (N.lxor (rotr 6 e) (rotr 11 e)) (rotr 25 e) in
      let ch := N.lxor (N.land e f) (N.land (not32 e) g) in
      let t1 := add32 (add32 (add32 h s1) ch) (add32 kw.1 kw.2) in
      let s0 := N.lxor (N.lxor (rotr 2 a) (rotr 13 a)) (rotr 22 a) in
      let maj := N.lxor (N.lxor (N.land a b) (N.land a c)) (N.land b c) in
      [add32 t1 (add32 s0 maj); a; b; c; add32 d t1; e; f; g]
  | _ => st
  end.

Definition sha_block (st : list N) (block : list ascii) : list N :=
  let w0 := be_value <$> groups 4 16 block in
  let w := rev (extend 48 (rev w0)) in
  zip_with add32 st (fold_left sha_round (zip round_constants w) st).

Definition sha256 (m : list ascii) : list ascii :=
  let p := padded m in
  let st := fold_left sha_block (groups 64 (length p) p) state0 in
  take 32 (mjoin (be_bytes 4 <$> st) ++ replicate 32 "000"%char).

Lemma sha256_length m : length (sha256 m) = 32.
Proof. unfold sha256. rewrite length_take, length_app, length_replicate. lia. Qed.

(** The test vectors of FIPS 180-4: the empty message and "abc". *)
Example sha256_empty :
  be_value (sha256 []) = 0xe3b0c44298fc1c149afbf4c8996fb92427ae41e4649b934ca495991b7852b855%N.
Proof. vm_compute. reflexivity. Qed.
Example sha256_abc :
  be_value (sha256 (String.list_ascii_of_string "abc"))
  = 0xba7816bf8f01cfea414140de5dae2223b00361a396177a9cb410ff61f20015ad%N.
Proof. vm_compute. reflexivity. Qed.
End FIPS.

#[export] Instance fips_sha256 : Sha256 :=
  {| Sum256 := FIPS.sha256; Sum256_length := FIPS.sha256_length |}.
