(* ===== verification/Runes.v ===== *)
(** * Runes

    [unicode/utf8] as the document packages use it: decoding a string rune by
    rune, counting runes, the byte offsets a [for range] over a string visits,
    and the conversions between strings and rune slices.  A rune is modelled
    by its UTF-8 encoding. *)
From S2P Require Import Prelude GoText.

(** The continuation bytes announced by a first byte are all present and in
    range. *)
Fixpoint continues (pending : list (N * N)) (s : string) : bool :=
  match pending, s with
  | [], _ => true
  | (lo, hi) :: pending, String a s =>
      (lo <=? N_of_ascii a)%N && (N_of_ascii a <=? hi)%N && continues pending s
  | _ :: _, "" => false
  end.

(** U+FFFD, which stands for every byte that starts no valid rune. *)
Definition RuneError : string :=
  String (ascii_of_N 0xEF) (String (ascii_of_N 0xBF) (String (ascii_of_N 0xBD) "")).

(** [utf8.DecodeRuneInString]: the rune and the number of bytes it takes. *)
Definition DecodeRuneInString (s : string) : string * nat :=
  match s with
  | "" => (RuneError, 0)
  | String a s' =>
      match utf8_start a with
      | Some pending =>
          if continues pending s' then (stake (S (length pending)) s, S (length pending))
          else (RuneError, 1)
      | None => (RuneError, 1)
      end
  end.

(** Decoding the whole string; [fuel] bounds the number of runes, and the
    length of the string is always enough. *)
Fixpoint decode_fuel (fuel : nat) (s : string) : list (string * nat) :=
  match fuel, s with
  | S fuel, String _ _ =>
      let r := DecodeRuneInString s in r :: decode_fuel fuel (sdrop r.2 s)
  | _, _ => []
  end.
Definition decode (s : string) : list (string * nat) := decode_fuel (slen s) s.

(** [[]rune(s)] *)
Definition to_runes (s : string) : list string := (decode s).*1.
(** [string(runes)] *)
Definition of_runes (rs : list string) : string := String.concat "" rs.
(** [utf8.RuneCountInString] *)
Definition RuneCountInString (s : string) : nat := length (decode s).

(** The byte offset of rune [k], or of the end of the string. *)
Definition byte_offset (s : string) (k : nat) : nat := sum_list (take k (decode s)).*2.
(** The offsets that [for byteIndex := range s] visits. *)
Definition range_offsets (s : string) : list nat :=
  byte_offset s <$> seq 0 (RuneCountInString s).

(** ** Decoding step by step *)

Lemma slen_zero s : slen s = 0 → s = "".
Proof. by destruct s. Qed.

Lemma sdrop_sdrop i j s : sdrop i (sdrop j s) = sdrop (j + i) s.
Proof.
  revert s; induction j as [|j IH]; intros s; [done|].
  destruct s as [|a s]; simpl; [by destruct i|apply IH].
Qed.

Lemma stake_add i j s : stake (i + j) s = stake i s +:+ stake j (sdrop i s).
Proof.
  revert s; induction i as [|i IH]; intros [|a s]; simpl; try done; [by destruct j|].
  by rewrite sapp_cons, IH.
Qed.

Lemma stake_all i s : slen s ≤ i → stake i s = s.
Proof.
  revert s; induction i as [|i IH]; intros [|a s] H; simpl in *; try done; [lia|].
  by rewrite IH by lia.
Qed.

Lemma continues_length p s : continues p s = true → length p ≤ slen s.
Proof.
  revert s; induction p as [|[lo hi] p IH]; intros [|a s]; simpl; try done; try lia.
  intros [_ H]%andb_true_iff. apply IH in H. lia.
Qed.

Lemma DecodeRune_size a s :
  1 ≤ (DecodeRuneInString (String a s)).2 ≤ slen (String a s).
Proof.
  simpl. destruct (utf8_start a) as [p|]; [|simpl; lia].
  destruct (continues p s) eqn:H; simpl; [|lia].
  apply continues_length in H. lia.
Qed.

Lemma decode_fuel_enough n m s :
  slen s ≤ n → slen s ≤ m → decode_fuel n s = decode_fuel m s.
Proof.
  revert m s; induction n as [|n IH]; intros [|m] [|a s] Hn Hm; simpl in Hn, Hm; try done; try lia.
  pose proof (DecodeRune_size a s) as Hsz. cbn [decode_fuel]. f_equal.
  simpl in Hsz. apply IH; rewrite slen_sdrop; simpl in *; lia.
Qed.

Lemma decode_nil : decode "" = [].
Proof. done. Qed.

Lemma decode_cons s :
  s ≠ "" → decode s = DecodeRuneInString s :: decode (sdrop (DecodeRuneInString s).2 s).
Proof.
  destruct s as [|a s]; [done|]. intros _. unfold decode at 1.
  pose proof (DecodeRune_size a s) as Hsz. change (slen (String a s)) with (S (slen s)) in *.
  cbn [decode_fuel]. f_equal. apply decode_fuel_enough; [|done].
  rewrite slen_sdrop. simpl in *. lia.
Qed.

Lemma decode_ind (P : string → Prop) :
  P "" →
  (∀ s, s ≠ "" → 0 < (DecodeRuneInString s).2 ≤ slen s →
     P (sdrop (DecodeRuneInString s).2 s) → P s) →
  ∀ s, P s.
Proof.
  intros H0 HS s. remember (slen s) as n eqn:Hn.
  revert s Hn; induction n as [n IH] using lt_wf_ind; intros [|a s] ->; [done|].
  pose proof (DecodeRune_size a s) as Hsz. apply HS; [done|lia|].
  apply (IH (slen (sdrop (DecodeRuneInString (String a s)).2 (String a s)))); [|done].
  rewrite slen_sdrop. simpl in *; lia.
Qed.

(** ** Offsets *)

Lemma byte_offset_0 s : byte_offset s 0 = 0.
Proof. done. Qed.

Lemma byte_offset_S s k :
  s ≠ "" →
  byte_offset s (S k) = (DecodeRuneInString s).2 + byte_offset (sdrop (DecodeRuneInString s).2 s) k.
Proof. intros Hs. unfold byte_offset. by rewrite (decode_cons s Hs). Qed.

Lemma byte_offset_all s k : RuneCountInString s ≤ k → byte_offset s k = slen s.
Proof.
  unfold RuneCountInString. revert k; induction s as [|s Hs Hsz IH] using decode_ind; intros k Hk.
  - unfold byte_offset. by rewrite decode_nil, take_nil.
  - rewrite (decode_cons s Hs) in Hk. destruct k as [|k]; simpl in Hk; [lia|].
    rewrite byte_offset_S, IH, slen_sdrop by (done || lia). lia.
Qed.

Lemma byte_offset_lt s i j :
  i < j → i < RuneCountInString s → byte_offset s i < byte_offset s j.
Proof.
  unfold RuneCountInString.
  revert i j; induction s as [|s Hs Hsz IH] using decode_ind; intros i j Hij Hi; [simpl in Hi; lia|].
  rewrite (decode_cons s Hs) in Hi. destruct j as [|j]; [lia|].
  rewrite (byte_offset_S s j Hs). destruct i as [|i]; [rewrite byte_offset_0; lia|].
  rewrite byte_offset_S by done. simpl in Hi. specialize (IH i j ltac:(lia) ltac:(lia)). lia.
Qed.

Lemma byte_offset_le s i j : i ≤ j → byte_offset s i ≤ byte_offset s j.
Proof.
  intros Hij. destruct (decide (i = j)) as [->|]; [done|].
  destruct (decide (i < RuneCountInString s)).
  - apply Nat.lt_le_incl, byte_offset_lt; lia.
  - rewrite !byte_offset_all; lia.
Qed.

Lemma byte_offset_bound s k : byte_offset s k ≤ slen s.
Proof.
  rewrite <- (byte_offset_all s (k + RuneCountInString s)) by lia.
  apply byte_offset_le. lia.
Qed.

Lemma decode_sdrop s k : decode (sdrop (byte_offset s k) s) = drop k (decode s).
Proof.
  revert k; induction s as [|s Hs Hsz IH] using decode_ind; intros k.
  - unfold byte_offset. by rewrite decode_nil, take_nil, drop_nil.
  - destruct k as [|k]; [by rewrite byte_offset_0; destruct s|].
    rewrite byte_offset_S, <- sdrop_sdrop by done. rewrite IH.
    by rewrite (decode_cons s Hs).
Qed.

Lemma byte_offset_sdrop s i k :
  byte_offset (sdrop (byte_offset s i) s) k = byte_offset s (i + k) - byte_offset s i.
Proof.
  unfold byte_offset at 1. rewrite decode_sdrop. unfold byte_offset.
  rewrite <- (take_take_drop (decode s) i k), fmap_app, sum_list_with_app. lia.
Qed.

(** A prefix that ends between two runes decodes to a prefix of the runes. *)
Lemma continues_stake p n s :
  length p ≤ n → continues p (stake n s) = continues p s.
Proof.
  revert n s; induction p as [|[lo hi] p IH]; intros [|n] [|a s] Hn; simpl in *; try done; [lia|].
  by rewrite IH by lia.
Qed.

Lemma continues_stake_false p n s : continues p s = false → continues p (stake n s) = false.
Proof.
  revert n s; induction p as [|[lo hi] p IH]; intros [|n] [|a s]; simpl; try done.
  intros [->|H]%andb_false_iff; [done|]. rewrite (IH n s H). apply andb_false_r.
Qed.

Lemma stake_stake i j s : i ≤ j → stake i (stake j s) = stake i s.
Proof.
  revert j s; induction i as [|i IH]; intros [|j] [|a s] H; simpl; try done; [lia|].
  by rewrite IH by lia.
Qed.

Lemma sdrop_stake i j s : sdrop i (stake (i + j) s) = stake j (sdrop i s).
Proof.
  revert s; induction i as [|i IH]; intros s; [done|].
  destruct s as [|a s]; simpl; [by destruct j|apply IH].
Qed.

Lemma DecodeRune_stake s n :
  (DecodeRuneInString s).2 ≤ n → s ≠ "" → 0 < n →
  DecodeRuneInString (stake n s) = DecodeRuneInString s.
Proof.
  destruct s as [|a s]; [done|]. destruct n as [|n]; [lia|]. intros Hn _ _.
  cbn [DecodeRuneInString stake] in *. destruct (utf8_start a) as [p|]; [|done].
  destruct (continues p s) eqn:Hc; simpl in Hn.
  - rewrite continues_stake, Hc by lia. by rewrite stake_stake by lia.
  - by rewrite continues_stake_false.
Qed.

Lemma decode_stake s k : decode (stake (byte_offset s k) s) = take k (decode s).
Proof.
  revert k; induction s as [|s Hs Hsz IH] using decode_ind; intros k.
  - unfold byte_offset. by rewrite decode_nil, take_nil.
  - destruct k as [|k]; [by rewrite byte_offset_0; destruct s|].
    rewrite byte_offset_S by done. rewrite decode_cons.
    2:{ intros H%(f_equal slen). rewrite slen_stake in H. simpl in H. lia. }
    rewrite DecodeRune_stake by (done || lia).
    rewrite sdrop_stake, IH. by rewrite (decode_cons s Hs).
Qed.

(** [s[i:j]] *)
Definition slice (s : string) (i j : nat) : string := stake (j - i) (sdrop i s).

Lemma slen_slice s i j : i ≤ j ≤ slen s → slen (slice s i j) = j - i.
Proof. intros H. unfold slice. rewrite slen_stake, slen_sdrop. lia. Qed.

Lemma decode_slice s a b :
  a ≤ b → decode (slice s (byte_offset s a) (byte_offset s b)) = take (b - a) (drop a (decode s)).
Proof.
  intros Hab. unfold slice. rewrite <- decode_sdrop, <- decode_stake, byte_offset_sdrop.
  by replace (a + (b - a)) with b by lia.
Qed.

Lemma RuneCount_slice s a b :
  a ≤ b ≤ RuneCountInString s →
  RuneCountInString (slice s (byte_offset s a) (byte_offset s b)) = b - a.
Proof.
  unfold RuneCountInString. intros H. rewrite decode_slice by lia.
  rewrite length_take, length_drop. lia.
Qed.

(** ** Valid strings *)

Lemma valid_from_continues p s :
  valid_from p s = true →
  continues p s = true ∧ ValidString (sdrop (length p) s) = true.
Proof.
  revert s; induction p as [|[lo hi] p IH]; intros [|a s]; simpl; try done.
  intros [-> H]%andb_true_iff. by apply IH.
Qed.

(** Every rune of a valid string is its own bytes. *)
Lemma to_runes_valid s : ValidString s = true → of_runes (to_runes s) = s.
Proof.
  unfold to_runes, of_runes. induction s as [|s Hs Hsz IH] using decode_ind; intros Hv; [done|].
  rewrite (decode_cons s Hs), fmap_cons.
  destruct s as [|a s]; [done|]. unfold ValidString in Hv. cbn [valid_from] in Hv.
  cbn [DecodeRuneInString] in *. destruct (utf8_start a) as [p|]; [|done].
  apply valid_from_continues in Hv as [Hc Hv]. rewrite Hc in *. simpl in IH.
  specialize (IH Hv). cbn [fst snd].
  transitivity (stake (S (length p)) (String a s) +:+ sdrop (S (length p)) (String a s));
    [|apply stake_sdrop].
  cbn [sdrop]. rewrite <- IH at 2. destruct (decode (sdrop (length p) s)) as [|r rs]; simpl.
  - by rewrite sapp_nil_r.
  - by rewrite !sapp_cons.
Qed.

Lemma concat_nil_cons r rs : String.concat "" (r :: rs) = r +:+ String.concat "" rs.
Proof. destruct rs; simpl; [by rewrite sapp_nil_r|done]. Qed.

(** A slice of the runes of a valid string is the slice of its bytes. *)
Lemma of_runes_slice s a b :
  ValidString s = true → a ≤ b ≤ RuneCountInString s →
  of_runes (take (b - a) (drop a (to_runes s))) = slice s (byte_offset s a) (byte_offset s b).
Proof.
  unfold to_runes, of_runes, RuneCountInString.
  revert a b; induction s as [|s Hs Hsz IH] using decode_ind; intros a b Hv Hab.
  { simpl in *. by replace a with 0 by lia; replace b with 0 by lia. }
  assert ((DecodeRuneInString s).1 = stake (DecodeRuneInString s).2 s ∧
    ValidString (sdrop (DecodeRuneInString s).2 s) = true) as [Hr Hv'].
  { destruct s as [|c s]; [done|]. unfold ValidString in Hv. cbn [valid_from] in Hv.
    cbn [DecodeRuneInString]. destruct (utf8_start c) as [p|]; [|done].
    apply valid_from_continues in Hv as [-> Hv]. done. }
  rewrite (decode_cons s Hs) in Hab |- *. simpl in Hab.
  destruct b as [|b]; [by replace a with 0 by lia; rewrite byte_offset_0; unfold slice|].
  destruct a as [|a].
  - rewrite byte_offset_S, byte_offset_0 by done. specialize (IH 0 b Hv' ltac:(lia)).
    rewrite byte_offset_0 in IH. unfold slice in *. rewrite !Nat.sub_0_r in *.
    rewrite stake_add. change (sdrop 0 s) with s. cbn [drop fmap list_fmap take].
    rewrite concat_nil_cons. f_equal; [done|]. exact IH.
  - rewrite !byte_offset_S by done. specialize (IH a b Hv' ltac:(lia)).
    unfold slice in *. rewrite <- sdrop_sdrop.
    replace ((DecodeRuneInString s).2 + byte_offset (sdrop (DecodeRuneInString s).2 s) b -
      ((DecodeRuneInString s).2 + byte_offset (sdrop (DecodeRuneInString s).2 s) a))
      with (byte_offset (sdrop (DecodeRuneInString s).2 s) b -
        byte_offset (sdrop (DecodeRuneInString s).2 s) a) by lia.
    exact IH.
Qed.

(** A slice of a valid string between two runes is valid. *)
Lemma continues_valid p s :
  continues p s = true → valid_from p (stake (length p) s) = true.
Proof.
  revert s; induction p as [|[lo hi] p IH]; intros [|a s]; simpl; try done.
  intros [-> H]%andb_true_iff. by apply IH.
Qed.

Lemma decode_valid s :
  s ≠ "" → ValidString s = true →
  ValidString (stake (DecodeRuneInString s).2 s) = true ∧
  ValidString (sdrop (DecodeRuneInString s).2 s) = true.
Proof.
  intros Hs Hv. destruct s as [|c s]; [done|]. unfold ValidString in Hv. cbn [valid_from] in Hv.
  cbn [DecodeRuneInString]. destruct (utf8_start c) as [p|] eqn:Hp; [|done].
  apply valid_from_continues in Hv as [Hc Hv]. rewrite Hc. split; [|done].
  unfold ValidString. cbn [snd stake valid_from]. rewrite Hp. by apply continues_valid.
Qed.

Lemma ValidString_sdrop s k : ValidString s = true → ValidString (sdrop (byte_offset s k) s) = true.
Proof.
  revert k; induction s as [|s Hs Hsz IH] using decode_ind; intros k Hv; [by destruct (byte_offset "" k)|].
  destruct k as [|k]; [by rewrite byte_offset_0|].
  rewrite byte_offset_S, <- sdrop_sdrop by done. by apply IH, decode_valid.
Qed.

Lemma ValidString_stake s k : ValidString s = true → ValidString (stake (byte_offset s k) s) = true.
Proof.
  revert k; induction s as [|s Hs Hsz IH] using decode_ind; intros k Hv; [by destruct (byte_offset "" k)|].
  destruct k as [|k]; [by rewrite byte_offset_0|].
  rewrite byte_offset_S, stake_add by done. apply decode_valid in Hv as [Hv1 Hv2]; [|done].
  apply ValidString_app; auto.
Qed.

Lemma ValidString_slice s a b :
  a ≤ b → ValidString s = true → ValidString (slice s (byte_offset s a) (byte_offset s b)) = true.
Proof.
  intros Hab Hv. unfold slice. apply (ValidString_sdrop s a) in Hv.
  replace (byte_offset s b - byte_offset s a)
    with (byte_offset (sdrop (byte_offset s a) s) (b - a)).
  { by apply ValidString_stake. }
  rewrite byte_offset_sdrop. f_equal. f_equal. lia.
Qed.
