(* ===== verification/Names.v ===== *)
(** * Node names (internal/store/names.go, errors.go)

    Name validation, the collision-suffix family of a name, and path
    splitting (internal/store/node.go, [splitPath]).

    Lengths of printed numbers, and that zero-padded decimals of one width
    compare as strings the way their values compare. *)
From S2P Require Import Prelude GoText.

(** ** Error sentinels *)

(** The sentinels of internal/store/errors.go that the modelled operations
    return.  [ErrOther] is an error that wraps none of them.  The last two are
    not Go errors: [Panics] is a run-time panic and [Diverges] the answer of a
    loop of the model that ran out of fuel. *)
Inductive store_error :=
  | ErrNotFound
  | ErrExists
  | ErrNotDir
  | ErrNotFile
  | ErrCycle
  | ErrInvalidName
  | ErrInvalidTag
  | ErrNotTrashed
  | ErrIsRoot
  | ErrStaleRevision
  | ErrVersionNodeMismatch
  | ErrVersionAlreadyCurrent
  | ErrInvalidBatchMove
  | ErrAuditMutationUnsupported
  | ErrPhysicalAuthorityMissing
  | ErrProvenanceMismatch
  | ErrOther
  | Panics
  | Diverges.

#[export] Instance store_error_eq_dec : EqDecision store_error.
Proof. solve_decision. Defined.

Notation res := (result store_error).

(** ** NormalizeName *)

Definition NUL : ascii := "000"%char.

Definition NormalizeName `{Normalizer} (name : string) : res string :=
  _ ← check (ValidString name) ErrInvalidName;
  let name := nfc name in
  if String.eqb name "" then Err ErrInvalidName
  else if String.eqb name "." || String.eqb name ".." then Err ErrInvalidName
  else if ContainsAny name ["/"%char; NUL] then Err ErrInvalidName
  else Ok name.

(** ** Collision suffixes *)

Definition splitSuffix (name : string) : string * string :=
  match LastIndexByte name "."%char with
  | None | Some 0 => (name, "")
  | Some i => (stake i name, sdrop i name)
  end.

Definition suffixedName (base ext : string) (n : Z) : string :=
  if (n =? 1)%Z then base +:+ ext
  else base +:+ " (" +:+ Itoa n +:+ ")" +:+ ext.

(** A run-time panic: the slice expression [name[lo:hi]] with [lo > hi]. *)
Inductive go_panic := SliceBoundsOutOfRange.

(** [Ok (Some n)] is Go's [(n, true)], [Ok None] is [(0, false)]. *)
Definition parseSuffix (name base ext : string) : result go_panic (option Z) :=
  if String.eqb name (base +:+ ext) then Ok (Some 1%Z)
  else if negb (HasPrefix name (base +:+ " (")) || negb (HasSuffix name (")" +:+ ext))
  then Ok None
  else
    let lo := (slen base + 2)%nat in
    let hi := (slen name - slen ext - 1)%nat in
    if (hi <? lo)%nat then Err SliceBoundsOutOfRange
    else match Atoi (stake (hi - lo) (sdrop lo name)) with
         | None => Ok None
         | Some n => if (n <? 2)%Z then Ok None else Ok (Some n)
         end.

(** ** splitPath *)

Definition splitPath (path : string) : list string :=
  filter (λ seg, seg ≠ "") (SplitByte "/"%char path).

(** ** Lemmas: NormalizeName *)

(** What a name that passed [NormalizeName] looks like. *)
Definition name_ok (name : string) : Prop :=
  name ≠ "" ∧ name ≠ "." ∧ name ≠ ".." ∧
  mem_byte "/"%char name = false ∧ mem_byte NUL name = false.

Lemma NormalizeName_Ok_iff `{Normalizer} name name' :
  NormalizeName name = Ok name' ↔
  ValidString name = true ∧ name' = nfc name ∧ name_ok name'.
Proof.
  unfold NormalizeName, name_ok, ContainsAny. simpl.
  destruct (ValidString name); simpl; [|naive_solver].
  destruct (String.eqb_spec (nfc name) ""); [naive_solver|].
  destruct (String.eqb_spec (nfc name) "."); [naive_solver|].
  destruct (String.eqb_spec (nfc name) ".."); [naive_solver|]. simpl.
  destruct (mem_byte "/"%char (nfc name)) eqn:?, (mem_byte NUL (nfc name)) eqn:?;
    naive_solver congruence.
Qed.

Lemma NormalizeName_error `{Normalizer} name e :
  NormalizeName name = Err e → e = ErrInvalidName.
Proof.
  unfold NormalizeName. destruct (ValidString name); simpl; [|naive_solver].
  repeat case_match; naive_solver.
Qed.

Lemma NormalizeName_name_ok `{Normalizer} name name' :
  NormalizeName name = Ok name' → name_ok name'.
Proof. rewrite NormalizeName_Ok_iff. naive_solver. Qed.

Lemma NormalizeName_fixed `{Normalizer} name name' :
  NormalizeName name = Ok name' → NormalizeName name' = Ok name'.
Proof.
  rewrite !NormalizeName_Ok_iff. intros (Hv & -> & Hok).
  rewrite nfc_idem. auto using nfc_valid.
Qed.

(** ** Lemmas: suffixes *)

Lemma splitSuffix_app name base ext :
  splitSuffix name = (base, ext) → base +:+ ext = name.
Proof.
  unfold splitSuffix. destruct (LastIndexByte name _) as [[|i]|]; intros [= <- <-];
    first [apply sapp_nil_r | apply (stake_sdrop (S i))].
Qed.

Lemma splitSuffix_ext name base ext :
  splitSuffix name = (base, ext) →
  ext = "" ∨ (base ≠ "" ∧ ∃ e, ext = String "."%char e ∧ mem_byte "."%char e = false).
Proof.
  unfold splitSuffix. destruct (LastIndexByte name _) as [[|i]|] eqn:Hi;
    intros [= <- <-]; [by left| |by left].
  right. apply LastIndexByte_spec in Hi as (Hlt & Hd & Hm).
  split; [|by eauto]. intros Hs. apply (f_equal slen) in Hs.
  change (slen (stake (S i) name) = 0) in Hs. rewrite slen_stake in Hs. lia.
Qed.

Lemma digit_cases (P : N → Prop) d :
  (d < 10)%N → P 0%N → P 1%N → P 2%N → P 3%N → P 4%N → P 5%N → P 6%N → P 7%N →
  P 8%N → P 9%N → P d.
Proof.
  intros. assert (d = 0 ∨ d = 1 ∨ d = 2 ∨ d = 3 ∨ d = 4 ∨ d = 5 ∨ d = 6 ∨ d = 7
    ∨ d = 8 ∨ d = 9)%N by lia. naive_solver.
Qed.

Lemma pretty_N_char_digit d :
  (d < 10)%N → Ascii.is_nat (pretty_N_char d) = Some (N.to_nat d).
Proof. intros Hd. pattern d. by apply (digit_cases _ d Hd). Qed.

Lemma digits_from_pretty_N_go x s :
  ∃ k, (0 ≤ k)%Z ∧ ∀ acc,
    digits_from acc (pretty_N_go x s) = digits_from (acc * 10 ^ k + Z.of_N x) s.
Proof.
  revert s; induction (N.lt_wf_0 x) as [x _ IH]; intros s.
  destruct (decide (x = 0)%N) as [->|Hx].
  { exists 0%Z. split; [done|]. intros acc. rewrite pretty_N_go_0.
    f_equal. change (10 ^ 0)%Z with 1%Z. lia. }
  rewrite pretty_N_go_step by lia.
  destruct (IH (x `div` 10)%N ltac:(by apply N.div_lt; lia)
    (String (pretty_N_char (x `mod` 10)) s)) as (k & Hk & Heq).
  exists (k + 1)%Z. split; [lia|]. intros acc. rewrite Heq. simpl.
  rewrite pretty_N_char_digit by (apply N.mod_lt; lia).
  f_equal. rewrite Z.pow_add_r by lia. pose proof (N.div_mod x 10 ltac:(done)). nia.
Qed.

Lemma pretty_N_go_head x s :
  (0 < x)%N ∨ (∃ d s', (d < 10)%N ∧ s = String (pretty_N_char d) s') →
  ∃ d r, (d < 10)%N ∧ pretty_N_go x s = String (pretty_N_char d) r.
Proof.
  revert s; induction (N.lt_wf_0 x) as [x _ IH]; intros s Hx.
  destruct (decide (x = 0)%N) as [->|Hx0].
  { destruct Hx as [?|(d & s' & ? & ->)]; [lia|]. rewrite pretty_N_go_0. eauto. }
  rewrite pretty_N_go_step by lia. apply IH; [apply N.div_lt; lia|].
  right. exists (x `mod` 10)%N, s. split; [apply N.mod_lt; lia|done].
Qed.

Lemma Itoa_head n : (0 ≤ n)%Z → ∃ d r, (d < 10)%N ∧ Itoa n = String (pretty_N_char d) r.
Proof.
  intros Hn. unfold Itoa, pretty, pretty_Z. destruct n as [|p|p]; [|..|lia].
  { by exists 0%N, "". }
  unfold pretty, pretty_positive, pretty, pretty_N. simpl.
  apply pretty_N_go_head. left. lia.
Qed.

Lemma digits_from_Itoa n : (0 ≤ n)%Z → digits_from 0 (Itoa n) = Some n.
Proof.
  intros Hn. unfold Itoa, pretty, pretty_Z. destruct n as [|p|p]; [done|..|lia].
  unfold pretty, pretty_positive, pretty, pretty_N. simpl.
  destruct (digits_from_pretty_N_go (N.pos p) "") as (k & _ & ->). simpl.
  done.
Qed.

Lemma Atoi_Itoa n : (0 ≤ n ≤ int_max)%Z → Atoi (Itoa n) = Some n.
Proof.
  intros Hn. pose proof (digits_from_Itoa n ltac:(lia)) as Hd.
  destruct (Itoa_head n ltac:(lia)) as (d & r & Hd10 & Hr).
  assert (Atoi (Itoa n) = match digits_from 0 (Itoa n) with
    | Some v => if ((int_min <=? v) && (v <=? int_max))%Z then Some v else None
    | None => None end) as ->.
  { rewrite Hr. pattern d. by apply (digit_cases _ d Hd10). }
  rewrite Hd. rewrite (proj2 (Z.leb_le _ _)), (proj2 (Z.leb_le _ _));
    unfold int_min, int_max in *; try lia; done.
Qed.

#[export] Instance Itoa_inj : Inj (=) (=) Itoa.
Proof. unfold Itoa. apply _. Qed.

(** Two different ordinals never render to the same candidate name. *)
Lemma suffixedName_inj base ext n m :
  suffixedName base ext n = suffixedName base ext m → n = m.
Proof.
  assert (∀ k, base +:+ ext = base +:+ " (" +:+ Itoa k +:+ ")" +:+ ext → False) as Hne.
  { intros k Hk%sapp_inv_l. apply (f_equal slen) in Hk.
    rewrite !slen_app in Hk. simpl in Hk. lia. }
  unfold suffixedName. destruct (Z.eqb_spec n 1), (Z.eqb_spec m 1); subst; try done.
  - by intros ?%Hne.
  - intros H. symmetry in H. by apply Hne in H.
  - intros H%sapp_inv_l%sapp_inv_l. rewrite !sapp_assoc in H.
    apply sapp_inv_r in H. apply sapp_inv_r in H. by apply (inj Itoa).
Qed.

Lemma parseSuffix_ok_or_panic name base ext :
  parseSuffix name base ext = Err SliceBoundsOutOfRange ↔
  (∃ r, name = base +:+ " (" +:+ r) ∧ (∃ r, name = r +:+ ")" +:+ ext) ∧
  (slen name < slen base + slen ext + 3)%nat ∧ name ≠ base +:+ ext.
Proof.
  unfold parseSuffix. destruct (String.eqb_spec name (base +:+ ext)) as [|Hne].
  { naive_solver. }
  assert ((∃ r, name = base +:+ " (" +:+ r) ↔ HasPrefix name (base +:+ " (") = true) as ->.
  { rewrite HasPrefix_spec. by setoid_rewrite sapp_assoc at 1. }
  assert ((∃ r, name = r +:+ ")" +:+ ext) ↔ HasSuffix name (")" +:+ ext) = true) as ->.
  { by rewrite HasSuffix_spec. }
  destruct (HasPrefix _ _) eqn:Hp; simpl; [|naive_solver].
  destruct (HasSuffix _ _) eqn:Hs; simpl; [|naive_solver].
  apply HasPrefix_spec in Hp as [r1 Hr1]. apply HasSuffix_spec in Hs as [r2 Hr2].
  apply (f_equal slen) in Hr1, Hr2. rewrite !slen_app in Hr1, Hr2. simpl in Hr1, Hr2.
  destruct (Nat.ltb_spec (slen name - slen ext - 1) (slen base + 2)).
  - split; [intros _|done]. split_and!; [done..|lia|done].
  - repeat case_match; split; try done; lia || naive_solver lia.
Qed.

(** ** Canonical names

    The names stored in the tree: the fixed points of [NormalizeName]. *)
Definition canonical_name `{Normalizer} (name : string) : Prop :=
  NormalizeName name = Ok name.

#[export] Instance canonical_name_dec `{Normalizer} name : Decision (canonical_name name).
Proof. unfold canonical_name. apply _. Defined.

Lemma canonical_name_iff `{Normalizer} name :
  canonical_name name ↔ ValidString name = true ∧ nfc name = name ∧ name_ok name.
Proof. unfold canonical_name. rewrite NormalizeName_Ok_iff. naive_solver. Qed.

Lemma NormalizeName_canonical `{Normalizer} name name' :
  NormalizeName name = Ok name' → canonical_name name'.
Proof. apply NormalizeName_fixed. Qed.

Definition is_digit_char (a : ascii) : bool :=
  (0x30 <=? N_of_ascii a)%N && (N_of_ascii a <=? 0x39)%N.

Lemma Itoa_digits n : (0 ≤ n)%Z → all_chars is_digit_char (Itoa n) = true.
Proof.
  assert (∀ x s, all_chars is_digit_char s = true →
    all_chars is_digit_char (pretty_N_go x s) = true) as Hgo.
  { intros x; induction (N.lt_wf_0 x) as [x _ IH]; intros s Hs.
    destruct (decide (x = 0)%N) as [->|Hx]; [by rewrite pretty_N_go_0|].
    rewrite pretty_N_go_step by lia. apply IH; [apply N.div_lt; lia|]. simpl.
    rewrite Hs, andb_true_r. generalize (x `mod` 10)%N (N.mod_lt x 10 ltac:(done)).
    intros d Hd. pattern d. by apply (digit_cases _ d Hd). }
  intros Hn. unfold Itoa, pretty, pretty_Z. destruct n as [|p|p]; [done|..|lia].
  unfold pretty, pretty_positive, pretty, pretty_N. simpl. by apply Hgo.
Qed.

Lemma digits_ascii s : all_chars is_digit_char s = true → all_ascii s = true.
Proof.
  induction s as [|a s IH]; simpl; [done|]. unfold is_digit_char, is_ascii.
  rewrite !andb_true_iff, !N.leb_le. intros [Ha Hs]. split; [apply N.ltb_lt; lia|auto].
Qed.

(** Every member of the suffix family of a canonical name is canonical. *)
Lemma suffixedName_canonical `{Normalizer} name n :
  canonical_name name → (1 ≤ n)%Z →
  canonical_name (suffixedName (splitSuffix name).1 (splitSuffix name).2 n).
Proof.
  intros Hc Hn. destruct (splitSuffix name) as [base ext] eqn:Hsp. simpl.
  pose proof (splitSuffix_app _ _ _ Hsp) as Happ. unfold suffixedName.
  destruct (Z.eqb_spec n 1); [by subst|].
  rewrite canonical_name_iff in Hc |- *. destruct Hc as (Hv & Hnfc & Hok).
  set (mid := Itoa n). assert (all_chars is_digit_char mid = true) as Hdig
    by (apply Itoa_digits; lia).
  assert (ValidString base = true ∧ ValidString ext = true) as [Hvb Hve].
  { destruct (splitSuffix_ext _ _ _ Hsp) as [->|(_ & e & -> & _)].
    - rewrite sapp_nil_r in Happ. by subst.
    - rewrite <- Happ in Hv. by apply ValidString_cut in Hv. }
  assert (nfc base = base ∧ nfc ext = ext) as [Hnb Hne]
    by (apply nfc_substring; [done..|by rewrite Happ]).
  assert (all_ascii (" (" +:+ mid +:+ ")") = true) as Hmid.
  { rewrite !all_chars_app. by rewrite (digits_ascii _ Hdig). }
  assert (nfc ((" (" +:+ mid +:+ ")") +:+ ext) = (" (" +:+ mid +:+ ")") +:+ ext) as Htail.
  { destruct (splitSuffix_ext _ _ _ Hsp) as [->|(_ & e & -> & _)].
    - rewrite sapp_nil_r. by apply nfc_ascii.
    - apply nfc_boundary; [done|by apply nfc_ascii|done]. }
  rewrite <- !sapp_assoc in Htail. split_and!.
  - repeat (apply ValidString_app; [by first [done | apply all_ascii_valid, digits_ascii]|]).
    done.
  - by apply (nfc_boundary base " "%char).
  - destruct Hok as (? & ? & ? & Hsl & Hnul). rewrite <- Happ in Hsl, Hnul.
    rewrite mem_byte_app, orb_false_iff in Hsl, Hnul.
    assert (∀ s, 4 ≤ slen s → name_ok s ↔ mem_byte "/"%char s = false ∧ mem_byte NUL s = false)
      as Hlong.
    { intros s Hs. unfold name_ok. split; [naive_solver|]. intros [??].
      split_and!; try done; intros ->; simpl in Hs; lia. }
    destruct (Itoa_head n ltac:(lia)) as (d & r & _ & Hr).
    apply Hlong.
    + unfold mid. rewrite Hr, !slen_app. simpl. lia.
    + rewrite !mem_byte_app.
      rewrite (all_chars_mem is_digit_char "/"%char mid), (all_chars_mem is_digit_char NUL mid)
        by done.
      destruct Hsl as [-> ->], Hnul as [-> ->]. done.
Qed.

(** Splitting a slash-separated path gives back its segments. *)
Lemma splitPath_Join segs :
  Forall (λ s, s ≠ "" ∧ mem_byte "/"%char s = false) segs →
  splitPath ("/" +:+ Join segs "/") = segs.
Proof.
  intros Hs. unfold splitPath.
  change (SplitByte "/"%char ("/" +:+ Join segs "/"))
    with ("" :: SplitByte "/"%char (Join segs "/")).
  rewrite filter_cons_False by naive_solver.
  induction segs as [|s segs IH]; [done|].
  apply Forall_cons in Hs as [[Hne Hm] Hs]. destruct segs as [|s' segs].
  - change (Join [s] "/") with s. rewrite SplitByte_nomem by done.
    by rewrite filter_cons_True.
  - change (Join (s :: s' :: segs) "/") with (s +:+ String "/"%char (Join (s' :: segs) "/")).
    rewrite SplitByte_app, filter_cons_True by done. f_equal. by apply IH.
Qed.

Lemma splitPath_segments path seg :
  seg ∈ splitPath path → seg ≠ "" ∧ mem_byte "/"%char seg = false.
Proof.
  unfold splitPath. rewrite list_elem_of_filter. intros [Hne Hin]. split; [done|].
  revert seg Hne Hin. induction path as [|a path IH]; simpl; intros seg Hne Hin.
  { by apply list_elem_of_singleton in Hin as ->. }
  destruct (Ascii.eqb_spec a "/"%char) as [->|Ha].
  - apply elem_of_cons in Hin as [->|Hin]; [done|auto].
  - destruct (SplitByte "/"%char path) as [|s l] eqn:Hsp; [by apply SplitByte_nonempty in Hsp|].
    apply elem_of_cons in Hin as [->|Hin]; [|apply IH; [done|by right]].
    simpl. rewrite (proj2 (Ascii.eqb_neq _ _) Ha). simpl.
    destruct (decide (s = "")) as [->|]; [done|]. apply IH; [done|by left].
Qed.

(** ** Properties *)

(** [NormalizeName] returns a name exactly for valid UTF-8 whose NFC form
    is non-empty, is neither dot segment and contains no slash or NUL; what it
    returns is that form, which a second call leaves unchanged, and its only
    error is [ErrInvalidName]. *)
Theorem NormalizeName_sound `{Normalizer} name :
  match NormalizeName name with
  | Ok n => ValidString name = true ∧ n = nfc name ∧ name_ok n ∧ NormalizeName n = Ok n
  | Err e => e = ErrInvalidName ∧ ¬ (ValidString name = true ∧ name_ok (nfc name))
  end.
Proof.
  destruct (NormalizeName name) as [n|e] eqn:Hn.
  - pose proof Hn as Hfix. apply NormalizeName_fixed in Hfix.
    apply NormalizeName_Ok_iff in Hn. naive_solver.
  - split; [by eapply NormalizeName_error|]. intros [Hv Hok].
    assert (NormalizeName name = Ok (nfc name)) by (by apply NormalizeName_Ok_iff).
    congruence.
Qed.

(** Reading a candidate name back never panics. *)
Lemma parseSuffix_suffixedName_returns base ext n e :
  parseSuffix (suffixedName base ext n) base ext ≠ Err e.
Proof.
  destruct e. intros (_ & _ & Hlen & Hne)%parseSuffix_ok_or_panic.
  unfold suffixedName in *. destruct (Z.eqb_spec n 1); [done|].
  rewrite !slen_app in Hlen. simpl in Hlen. lia.
Qed.

(** Reading the ordinal back from a generated collision name returns the
    ordinal it was generated with, for every split of a name into base and
    extension and every positive ordinal a Go [int] holds. *)
Theorem parseSuffix_suffixedName base ext n :
  (1 ≤ n ≤ int_max)%Z →
  parseSuffix (suffixedName base ext n) base ext = Ok (Some n).
Proof.
  intros Hn. destruct (parseSuffix _ _ _) as [o|[]] eqn:Hp.
  - revert Hp. unfold parseSuffix, suffixedName.
    destruct (Z.eqb_spec n 1) as [->|Hn1].
    { rewrite (proj2 (String.eqb_eq _ _) eq_refl). by intros [= <-]. }
    rewrite (proj2 (String.eqb_neq _ _)).
    2:{ intros Hk%sapp_inv_l. apply (f_equal slen) in Hk.
        rewrite !slen_app in Hk. simpl in Hk. lia. }
    rewrite (proj2 (HasPrefix_spec _ (base +:+ " ("))), (proj2 (HasSuffix_spec _ (")" +:+ ext)));
      [|exists (base +:+ " (" +:+ Itoa n); by rewrite !sapp_assoc
       |exists (Itoa n +:+ ")" +:+ ext); by rewrite !sapp_assoc].
    simpl.
    assert (slen (base +:+ " (" +:+ Itoa n +:+ ")" +:+ ext)
            = slen base + 2 + slen (Itoa n) + 1 + slen ext)%nat as Hlen
      by (rewrite !slen_app; simpl; lia).
    rewrite Hlen. case_match eqn:Hlt; [apply Nat.ltb_lt in Hlt; lia|].
    replace (slen base + 2 + slen (Itoa n) + 1 + slen ext - slen ext - 1 - (slen base + 2))%nat
      with (slen (Itoa n)) by lia.
    replace (slen base + 2)%nat with (slen (base +:+ " (")) by (rewrite slen_app; simpl; lia).
    rewrite (sapp_assoc base), sdrop_app, stake_app.
    rewrite Atoi_Itoa by lia. rewrite (proj2 (Z.ltb_ge _ _)) by lia. by intros [= <-].
  - by apply parseSuffix_suffixedName_returns in Hp.
Qed.

Lemma parseSuffix_suffixedName_witness :
  suffixedName "report" ".pdf" 12 = "report (12).pdf" ∧
  parseSuffix (suffixedName "report" ".pdf" 12) "report" ".pdf" = Ok (Some 12%Z).
Proof. split; [reflexivity|apply parseSuffix_suffixedName; vm_compute; by split]. Defined.

(** [parseSuffix] panics exactly on the names that start with the base and
    the opening mark and end with the closing mark and the extension while
    being too short to hold both: the two tests overlap and the slice bounds
    cross.  A sibling named "a).x (" makes the import of "a).x.x (" panic. *)
Theorem parseSuffix_panics_iff name base ext :
  parseSuffix name base ext = Err SliceBoundsOutOfRange ↔
  (∃ r, name = base +:+ " (" +:+ r) ∧ (∃ r, name = r +:+ ")" +:+ ext) ∧
  (slen name < slen base + slen ext + 3)%nat ∧ name ≠ base +:+ ext.
Proof. apply parseSuffix_ok_or_panic. Qed.

(** Two names a user may create make [parseSuffix] panic, so the error
    path of the previous property is reachable from the ingest of a file. *)
Theorem parseSuffix_panic_reachable `{Normalizer} :
  canonical_name "a).x (" ∧ canonical_name "a).x.x (" ∧
  let '(base, ext) := splitSuffix "a).x.x (" in
  parseSuffix "a).x (" base ext = Err SliceBoundsOutOfRange.
Proof.
  rewrite !canonical_name_iff, !nfc_ascii by done.
  vm_compute. repeat split; discriminate.
Qed.

(** * Decimal renderings *)

Lemma pretty_N_go_length x s k :
  (x < 10 ^ N.of_nat k)%N → slen (pretty_N_go x s) ≤ k + slen s.
Proof.
  revert x s; induction k as [|k IH]; intros x s Hx.
  { assert (x = 0)%N as -> by (simpl in Hx; lia). by rewrite pretty_N_go_0. }
  destruct (decide (x = 0)%N) as [->|Hx0]; [rewrite pretty_N_go_0; lia|].
  rewrite pretty_N_go_step by lia. etrans; [apply IH|simpl; lia].
  rewrite Nat2N.inj_succ, N.pow_succ_r' in Hx. apply N.Div0.div_lt_upper_bound. lia.
Qed.

Lemma Itoa_length n k :
  (0 <= Z.of_nat n < 10 ^ Z.of_nat (S k))%Z → slen (Itoa (Z.of_nat n)) ≤ S k.
Proof.
  intros [_ Hn]. unfold Itoa, pretty, pretty_Z. destruct (Z.of_nat n) as [|p|p] eqn:Hp; [simpl; lia|..|lia].
  unfold pretty, pretty_positive, pretty, pretty_N. simpl.
  etrans; [apply (pretty_N_go_length _ _ (S k))|simpl; lia].
  apply N2Z.inj_lt. rewrite N2Z.inj_pow, nat_N_Z. exact Hn.
Qed.

(** ** Padding *)

Definition zeros (n : nat) : string := String.string_of_list_ascii (replicate n "0"%char).

(** [fmt.Sprintf("%0wd", n)] for a non-negative [n]. *)
Definition pad_zero (w n : nat) : string :=
  zeros (w - slen (Itoa (Z.of_nat n))) +:+ Itoa (Z.of_nat n).

Lemma slen_zeros n : slen (zeros n) = n.
Proof. unfold zeros. induction n as [|n IH]; [done|]. exact (f_equal S IH). Qed.

Lemma slen_pad_zero w n : (Z.of_nat n < 10 ^ Z.of_nat (S w))%Z → slen (pad_zero (S w) n) = S w.
Proof. intros Hn. unfold pad_zero. rewrite slen_app, slen_zeros. pose proof (Itoa_length n w ltac:(lia)). lia. Qed.

Lemma digits_from_zeros n s : digits_from 0 (zeros n +:+ s) = digits_from 0 s.
Proof. induction n as [|n IH]; [done|]. exact IH. Qed.

Lemma digits_from_pad_zero w n : digits_from 0 (pad_zero w n) = Some (Z.of_nat n).
Proof. unfold pad_zero. rewrite digits_from_zeros. apply digits_from_Itoa. lia. Qed.

#[export] Instance pad_zero_inj w : Inj (=) (=) (pad_zero w).
Proof. intros n m H%(f_equal (digits_from 0)). rewrite !digits_from_pad_zero in H. injection H as H. lia. Qed.

(** ** Order *)

Lemma is_nat_spec a d : Ascii.is_nat a = Some d → N_of_ascii a = (48 + N.of_nat d)%N ∧ d < 10.
Proof.
  destruct a as [[] [] [] [] [] [] [] []]; vm_compute; intros H; try discriminate H;
    injection H as <-; by split; [|lia].
Qed.

Lemma digits_from_bounds acc s x :
  digits_from acc s = Some x →
  (acc * 10 ^ Z.of_nat (slen s) <= x < (acc + 1) * 10 ^ Z.of_nat (slen s))%Z.
Proof.
  revert acc; induction s as [|a s IH]; intros acc; cbn [digits_from].
  { intros [= <-]. simpl. lia. }
  destruct (Ascii.is_nat a) as [d|] eqn:Hd; [|done]. intros H%IH. apply is_nat_spec in Hd as [_ Hd].
  change (slen (String a s)) with (S (slen s)). rewrite Nat2Z.inj_succ, Z.pow_succ_r by lia. nia.
Qed.

(** Digit strings of one length are ordered by value. *)
Lemma digits_from_mono acc s t x y :
  slen s = slen t → digits_from acc s = Some x → digits_from acc t = Some y →
  String.leb s t = true → (x <= y)%Z.
Proof.
  revert acc t; induction s as [|a s IH]; intros acc [|b t]; try done; cbn [digits_from].
  { intros _ [= <-] [= <-] _. lia. }
  intros [= Hl]. destruct (Ascii.is_nat a) as [d|] eqn:Ha; [|done].
  destruct (Ascii.is_nat b) as [e|] eqn:Hb; [|done]. intros Hx Hy.
  unfold String.leb. cbn [String.compare]. destruct (Ascii.compare a b) eqn:Hc; [| |done].
  - apply Ascii.compare_eq_iff in Hc as ->. assert (d = e) as -> by congruence. by apply (IH _ t Hl Hx Hy).
  - intros _. apply digits_from_bounds in Hx, Hy. apply is_nat_spec in Ha as [Ha _], Hb as [Hb _].
    change (N_of_ascii a < N_of_ascii b)%N in Hc. rewrite Hl in Hx.
    assert (d < e) by (clear -Hc Ha Hb; lia).
    pose proof (Z.pow_nonneg 10 (Z.of_nat (slen t))). nia.
Qed.

Lemma pad_zero_le w n m :
  (Z.of_nat n < 10 ^ Z.of_nat (S w))%Z → (Z.of_nat m < 10 ^ Z.of_nat (S w))%Z →
  String.le (pad_zero (S w) n) (pad_zero (S w) m) → n ≤ m.
Proof.
  intros Hn Hm Hle. apply Nat2Z.inj_le.
  eapply (digits_from_mono 0 (pad_zero (S w) n) (pad_zero (S w) m)).
  - by rewrite !slen_pad_zero.
  - apply digits_from_pad_zero.
  - apply digits_from_pad_zero.
  - by apply Is_true_true_1.
Qed.
