(* ===== verification/AuditEncoding.v ===== *)
(** * Canonical audit encoding (internal/audit/encoding.go)

    The values and records of the audited history, their constructors and
    the byte encoding whose SHA-256 names every piece of audit evidence.

    The encoding is a prefix code: it can be read back without a separator, so
    equal bytes come from equal records, up to the order in which their fields
    were listed; and it does not depend on that order. *)
From S2P Require Import Prelude GoText.

Notation bytes := (list ascii).

(** Every failure of this package is an [errors.New] or [fmt.Errorf] value
    with no sentinel. *)
Inductive audit_error := AuditError.
Notation ares := (result audit_error).

(** ** Values and records *)

(** [Value]: the struct's [kind] tag selects which of its fields is used, so
    each tag is a constructor carrying that field.  [VRecord] holds the nested
    [Record] a [kindRecord] value points to. *)
Inductive Value :=
  | VAbsent
  | VFalse
  | VTrue
  | VUnsigned (unsigned : Z)
  | VSigned (signed : Z)
  | VBytes (data : bytes)
  | VText (data : bytes)
  | VTimestamp (data : bytes)
  | VUUID (data : bytes)
  | VDigest (data : bytes)
  | VList (items : list Value)
  | VRecord (kind : string) (fields : list (string * Value)).

(** [Field] is a name and a value. *)
Notation Field := (string * Value)%type.

Record AuditRecord := MkRecord { Kind : string; Fields : list Field }.

(** [byte(value.kind)] *)
Definition kind_tag (v : Value) : ascii :=
  match v with
  | VAbsent => "000" | VFalse => "001" | VTrue => "002" | VUnsigned _ => "003"
  | VSigned _ => "004" | VBytes _ => "005" | VText _ => "006" | VTimestamp _ => "007"
  | VUUID _ => "008" | VDigest _ => "009" | VList _ => "010" | VRecord _ _ => "011"
  end%char.

Definition bs (s : string) : bytes := String.list_ascii_of_string s.

(** ** Constructors *)

Definition Absent : Value := VAbsent.
Definition Bool (value : bool) : Value := if value then VTrue else VFalse.
Definition Unsigned (value : Z) : Value := VUnsigned value.
Definition Signed (value : Z) : Value := VSigned value.
Definition Bytes (value : bytes) : Value := VBytes value.

Definition Text (value : string) : ares Value :=
  if ValidString value then Ok (VText (bs value)) else Err AuditError.

Definition is_digit (a : ascii) : bool :=
  ((0x30 <=? N_of_ascii a) && (N_of_ascii a <=? 0x39))%N.

(** Two decimal digits at an offset, as [time.Parse] reads a fixed field. *)
Definition two_digits (s : bytes) (i : nat) : option Z :=
  match s !! i, s !! S i with
  | Some a, Some b =>
      if is_digit a && is_digit b
      then Some (10 * (Z.of_N (N_of_ascii a) - 48) + (Z.of_N (N_of_ascii b) - 48))%Z
      else None
  | _, _ => None
  end.

Definition days_in (year month : Z) : Z :=
  if (month =? 2)%Z
  then if ((year mod 4 =? 0) && (negb (year mod 100 =? 0) || (year mod 400 =? 0)))%Z
       then 29 else 28
  else if ((month =? 4) || (month =? 6) || (month =? 9) || (month =? 11))%Z then 30 else 31.

(** [time.Parse(timestampForm, value)] succeeds and formats back to [value]:
    the layout 2006-01-02T15:04:05.000000000Z has thirty bytes, fixed
    separators, and fields within the ranges of the calendar. *)
Definition timestamp_canonical (value : string) : bool :=
  let s := bs value in
  (slen value =? 30)%nat
  && bool_decide (s !! 4 = Some "-"%char) && bool_decide (s !! 7 = Some "-"%char)
  && bool_decide (s !! 10 = Some "T"%char) && bool_decide (s !! 13 = Some ":"%char)
  && bool_decide (s !! 16 = Some ":"%char) && bool_decide (s !! 19 = Some "."%char)
  && bool_decide (s !! 29 = Some "Z"%char)
  && forallb is_digit (take 9 (drop 20 s))
  && match two_digits s 0, two_digits s 2, two_digits s 5, two_digits s 8,
           two_digits s 11, two_digits s 14, two_digits s 17 with
     | Some c, Some y, Some mo, Some d, Some h, Some mi, Some sec =>
         ((1 <=? mo) && (mo <=? 12) && (1 <=? d) && (d <=? days_in (100 * c + y) mo)
          && (h <? 24) && (mi <? 60) && (sec <? 60))%Z
     | _, _, _, _, _, _, _ => false
     end.

Definition Timestamp (value : string) : ares Value :=
  if timestamp_canonical value then Ok (VTimestamp (bs value)) else Err AuditError.

Definition is_lower_hex_byte (a : ascii) : bool :=
  let c := N_of_ascii a in
  (((0x30 <=? c) && (c <=? 0x39)) || ((0x61 <=? c) && (c <=? 0x66)))%N.

Definition isLowerHex (value : bytes) : bool := forallb is_lower_hex_byte value.

Definition hex_digit (a : ascii) : N :=
  let c := N_of_ascii a in
  if (c <=? 0x39)%N then (c - 0x30)%N else (c - 0x61 + 10)%N.

(** [hex.Decode] on lowercase hexadecimal input. *)
Fixpoint hex_decode (s : bytes) : bytes :=
  match s with
  | a :: b :: s => ascii_of_N (16 * hex_digit a + hex_digit b) :: hex_decode s
  | _ => []
  end.

Definition is_uuid_dash (i : nat) : bool :=
  (i =? 8)%nat || (i =? 13)%nat || (i =? 18)%nat || (i =? 23)%nat.

(** The loop of [parseUUIDv4] that drops the four separators and refuses any
    other dash. *)
Fixpoint uuid_compact (i : nat) (s : bytes) : ares bytes :=
  match s with
  | [] => Ok []
  | a :: s =>
      if is_uuid_dash i then uuid_compact (S i) s
      else if Ascii.eqb a "-" then Err AuditError
      else c ← uuid_compact (S i) s; Ok (a :: c)
  end.

Definition nibble (b : bytes) (i : nat) (shift : N) : N :=
  N.shiftr (N_of_ascii (default "000"%char (b !! i))) shift.

Definition parseUUIDv4 (value : string) : ares bytes :=
  let s := bs value in
  _ ← check ((length s =? 36)%nat
             && bool_decide (s !! 8 = Some "-"%char) && bool_decide (s !! 13 = Some "-"%char)
             && bool_decide (s !! 18 = Some "-"%char) && bool_decide (s !! 23 = Some "-"%char))
            AuditError;
  compact ← uuid_compact 0 s;
  _ ← check ((length compact =? 32)%nat && isLowerHex compact) AuditError;
  let parsed := hex_decode compact in
  _ ← check ((nibble parsed 6 4 =? 4) && (nibble parsed 8 6 =? 2))%N AuditError;
  Ok parsed.

Definition UUID (value : string) : ares Value :=
  parsed ← parseUUIDv4 value; Ok (VUUID parsed).

(** [Digest] takes a fixed 32-byte array. *)
Definition Digest (value : bytes) : Value := VDigest value.

Definition DigestHex (value : string) : ares Value :=
  _ ← check ((slen value =? 64)%nat && isLowerHex (bs value)) AuditError;
  Ok (VDigest (hex_decode (bs value))).

Definition List (values : list Value) : Value := VList values.
Definition Nested (record : AuditRecord) : Value := VRecord (Kind record) (Fields record).

(** ** Byte encoding *)

Definition encodingDomain : string := "docbank-audit".
Definition encodingVersion : Z := 1.
Definition maxValueDepth : nat := 64.

(** [binary.BigEndian] over [k] bytes. *)
Fixpoint big_endian (k : nat) (n : Z) : bytes :=
  match k with
  | 0 => []
  | S k => big_endian k (n / 256) ++ [ascii_of_N (Z.to_N (n mod 256))]
  end.

Definition appendUint64 (value : Z) : bytes := big_endian 8 value.

(** Two's complement. *)
Definition appendInt64 (value : Z) : bytes := big_endian 8 (value mod 2 ^ 64).

Definition appendFrame (value : bytes) : bytes :=
  appendUint64 (Z.of_nat (length value)) ++ value.

Definition token_start (a : ascii) : bool :=
  ((0x61 <=? N_of_ascii a) && (N_of_ascii a <=? 0x7A))%N.

Definition token_char (a : ascii) : bool :=
  token_start a || is_digit a || Ascii.eqb a "_".

Definition validToken (value : string) : bool :=
  match bs value with
  | [] => false
  | a :: s => token_start a && forallb token_char s
  end.

(** The comparison of [slices.SortFunc]: fields by name. *)
Definition field_le {A} (f g : string * A) : Prop := String.le f.1 g.1.
#[export] Instance field_le_dec {A} : RelDecision (@field_le A).
Proof. intros f g. unfold field_le. apply _. Defined.

Definition sort_fields {A} (fields : list (string * A)) : list (string * A) :=
  merge_sort field_le fields.

(** The loop over the sorted fields that rejects bad and duplicate names. *)
Fixpoint check_names (previous : option string) (names : list string) : ares unit :=
  match names with
  | [] => Ok tt
  | name :: names =>
      _ ← check (validToken name) AuditError;
      _ ← check (negb (bool_decide (previous = Some name))) AuditError;
      check_names (Some name) names
  end.

(** The body of [appendRecord] after its depth check; [encode] is
    [appendValue] at the record's depth. *)
Definition append_record_with (encode : Value → ares bytes)
    (kind : string) (fields : list Field) : ares bytes :=
  _ ← check (validToken kind) AuditError;
  let fields := sort_fields fields in
  _ ← check_names None (fields.*1);
  body ← mapR (λ f : Field, v ← encode f.2; Ok (appendFrame (bs f.1) ++ v)) fields;
  Ok (appendFrame (bs encodingDomain) ++ appendUint64 encodingVersion
      ++ appendFrame (bs kind) ++ appendUint64 (Z.of_nat (length fields))
      ++ concat body).

(** [appendValue] returns the bytes it appends.  Go counts [depth] up and
    fails when it exceeds [maxValueDepth]; here [levels] is
    [maxValueDepth + 1 - depth], so level 0 is that failure. *)
Fixpoint appendValue (levels : nat) (value : Value) : ares bytes :=
  match levels with
  | 0 => Err AuditError
  | S deeper =>
      body ←
        match value with
        | VAbsent | VFalse | VTrue => Ok []
        | VUnsigned n => Ok (appendUint64 n)
        | VSigned z => Ok (appendInt64 z)
        | VBytes data | VText data | VTimestamp data => Ok (appendFrame data)
        | VUUID data =>
            _ ← check (length data =? 16)%nat AuditError; Ok data
        | VDigest data =>
            _ ← check (length data =? 32)%nat AuditError; Ok data
        | VList items =>
            encoded ← mapR (appendValue deeper) items;
            Ok (appendUint64 (Z.of_nat (length items)) ++ concat encoded)
        | VRecord kind fields =>
            _ ← check (negb (deeper =? 0)%nat) AuditError;
            nested ← append_record_with (appendValue deeper) kind fields;
            Ok (appendFrame nested)
        end;
      Ok (kind_tag value :: body)
  end.

(** [appendRecord] at [depth = maxValueDepth + 1 - levels]. *)
Definition appendRecord (levels : nat) (record : AuditRecord) : ares bytes :=
  _ ← check (negb (levels =? 0)%nat) AuditError;
  append_record_with (appendValue levels) (Kind record) (Fields record).

Definition encodeCanonical (record : AuditRecord) : ares bytes :=
  appendRecord (S maxValueDepth) record.

(** * Facts about the canonical audit encoding *)

#[global] Arguments appendFrame : simpl never.
#[global] Arguments appendUint64 : simpl never.
#[global] Arguments appendInt64 : simpl never.
#[global] Arguments bs : simpl never.

(** ** Normal forms *)

(** [canon] sorts the fields of every record inside a value. *)
Fixpoint canon (v : Value) : Value :=
  match v with
  | VList items => VList (map canon items)
  | VRecord kind fields =>
      VRecord kind (sort_fields (map (λ f : Field, (f.1, canon f.2)) fields))
  | v => v
  end.

Definition canon_field (f : Field) : Field := (f.1, canon f.2).

Definition canon_record (r : AuditRecord) : AuditRecord :=
  MkRecord (Kind r) (sort_fields (map canon_field (Fields r))).

(** Two values are the same evidence when they differ only in field order. *)
#[export] Instance value_equiv : Equiv Value := λ v w, canon v = canon w.
#[export] Instance value_equivalence : Equivalence (≡@{Value}).
Proof. split; unfold equiv, value_equiv; repeat intro; congruence. Qed.
#[export] Instance record_equiv : Equiv AuditRecord := λ r s, canon_record r = canon_record s.
#[export] Instance record_equivalence : Equivalence (≡@{AuditRecord}).
Proof. split; unfold equiv, record_equiv; repeat intro; congruence. Qed.

(** What Go's types and the exported constructors guarantee of a value. *)
Fixpoint value_wf (v : Value) : bool :=
  match v with
  | VUnsigned n => (0 <=? n)%Z && (n <? 2 ^ 64)%Z
  | VSigned z => (- 2 ^ 63 <=? z)%Z && (z <? 2 ^ 63)%Z
  | VUUID data => (length data =? 16)%nat
  | VDigest data => (length data =? 32)%nat
  | VList items => forallb value_wf items
  | VRecord _ fields => forallb (λ f : Field, value_wf f.2) fields
  | _ => true
  end.
Definition record_wf (r : AuditRecord) : bool :=
  forallb (λ f : Field, value_wf f.2) (Fields r).

(** The length of a Go slice is an [int]. *)
Definition small (b : bytes) : Prop := (Z.of_nat (length b) < 2 ^ 64)%Z.

Lemma small_app b c : small (b ++ c) → small b ∧ small c.
Proof. unfold small. rewrite length_app. lia. Qed.

(** ** Sorting fields *)

#[export] Instance field_le_total {A} : Total (@field_le A).
Proof. intros f g. apply String.le_total. Qed.
#[export] Instance field_le_trans {A} : Transitive (@field_le A).
Proof. intros f g h. unfold field_le. apply String.le_po. Qed.

Section merge_sort_map.
Context {A B : Type} (g : A → B) (RA : relation A) (RB : relation B).
Context `{!RelDecision RA, !RelDecision RB}.
Context (HR : ∀ x y, RA x y ↔ RB (g x) (g y)).

Lemma list_merge_map l1 l2 :
  list_merge RB (map g l1) (map g l2) = map g (list_merge RA l1 l2).
Proof.
  revert l2; induction l1 as [|x1 l1 IH1]; intros l2.
  { simpl. by rewrite !list_merge_nil_l. }
  induction l2 as [|x2 l2 IH2]; [done|].
  simpl map. rewrite !list_merge_cons.
  destruct (decide (RA x1 x2)) as [H|H];
    destruct (decide (RB (g x1) (g x2))) as [H'|H']; rewrite HR in H; try done;
    cbn [map]; f_equal.
  - apply (IH1 (x2 :: l2)).
  - apply IH2.
Qed.

Lemma merge_list_to_stack_map st l :
  merge_list_to_stack RB (map (option_map (map g)) st) (map g l) =
  map (option_map (map g)) (merge_list_to_stack RA st l).
Proof.
  revert l; induction st as [|[l'|] st IH]; intros l; simpl; try done.
  f_equal. rewrite <- IH. f_equal. apply list_merge_map.
Qed.

Lemma merge_stack_map st :
  merge_stack RB (map (option_map (map g)) st) = map g (merge_stack RA st).
Proof.
  induction st as [|[l'|] st IH]; simpl; try done.
  rewrite IH. apply list_merge_map.
Qed.

Lemma merge_sort_map l : merge_sort RB (map g l) = map g (merge_sort RA l).
Proof.
  unfold merge_sort. change (@nil (option (list B))) with
    (map (option_map (map g)) (@nil (option (list A)))).
  generalize (@nil (option (list A))) as st.
  induction l as [|x l IH]; intros st; simpl; [apply merge_stack_map|].
  rewrite <- IH. f_equal. apply (merge_list_to_stack_map _ [x]).
Qed.
End merge_sort_map.

Lemma sort_fields_map {A B} (g : A → B) (fields : list (string * A)) :
  sort_fields (map (λ f, (f.1, g f.2)) fields) =
  map (λ f, (f.1, g f.2)) (sort_fields fields).
Proof. apply merge_sort_map. by intros [] []. Qed.

Lemma sort_fields_perm {A} (fields : list (string * A)) :
  sort_fields fields ≡ₚ fields.
Proof. apply merge_sort_Permutation. Qed.

Lemma sort_fields_sorted {A} (fields : list (string * A)) :
  Sorted String.le (sort_fields fields).*1.
Proof.
  apply (Sorted_fmap fst field_le); [by intros ???|]. apply Sorted_merge_sort. apply _.
Qed.

Lemma sort_fields_length {A} (fields : list (string * A)) :
  length (sort_fields fields) = length fields.
Proof. by rewrite sort_fields_perm. Qed.

Lemma NoDup_fst_eq {A} (l : list (string * A)) f g :
  NoDup l.*1 → f ∈ l → g ∈ l → f.1 = g.1 → f = g.
Proof.
  induction l as [|h l IH]; simpl; [by intros _ ?%elem_of_nil|].
  intros [Hh Hnd]%NoDup_cons Hf Hg Heq.
  apply elem_of_cons in Hf as [->|Hf], Hg as [->|Hg]; auto.
  - destruct Hh. rewrite Heq. by apply list_elem_of_fmap_2.
  - destruct Hh. rewrite <- Heq. by apply list_elem_of_fmap_2.
Qed.

Lemma sort_fields_unique {A} (l1 l2 : list (string * A)) :
  NoDup l1.*1 → l1 ≡ₚ l2 → sort_fields l1 = sort_fields l2.
Proof.
  intros Hnd Hp. apply (StronglySorted_unique_strong field_le).
  - intros f g Hf Hg Hfg Hgf. rewrite sort_fields_perm in Hf, Hg.
    eapply NoDup_fst_eq; [done|done|by rewrite Hp|].
    by apply (anti_symm String.le).
  - apply StronglySorted_merge_sort; apply _.
  - apply StronglySorted_merge_sort; apply _.
  - by rewrite !sort_fields_perm.
Qed.

Lemma check_names_ok prev names :
  Sorted String.le names → (∀ p, prev = Some p → HdRel String.le p names) →
  check_names prev names = Ok tt →
  NoDup names ∧ (∀ p, prev = Some p → p ∉ names) ∧ Forall (λ n, validToken n = true) names.
Proof.
  revert prev; induction names as [|n names IH]; intros prev Hs Hp Hc.
  { split_and!; [constructor|by intros ?? ?%elem_of_nil|constructor]. }
  simpl in Hc. destruct (validToken n) eqn:Hv; [|done]. simpl in Hc.
  case_bool_decide as Hne; [done|]. simpl in Hc.
  apply Sorted_inv in Hs as [Hs Hhd].
  destruct (IH (Some n) Hs ltac:(by intros ? [= <-]) Hc) as (Hnd & Hnin & Hall).
  split_and!.
  - constructor; [by apply Hnin|done].
  - intros p -> [->|Hin]%elem_of_cons; [done|].
    assert (StronglySorted String.le names) as Hss by (apply Sorted_StronglySorted; [apply _|done]).
    specialize (Hp p eq_refl). inversion Hp; subst.
    assert (String.le n p) as Hnp.
    { destruct names as [|m names]; [by apply elem_of_nil in Hin|].
      inversion Hhd; subst. apply elem_of_cons in Hin as [->|Hin]; [done|].
      inversion Hss as [|?? _ Hf]; subst. rewrite Forall_forall in Hf.
      trans m; [done|]. by apply Hf. }
    apply Hne. f_equal. by apply (anti_symm String.le).
  - by constructor.
Qed.

Lemma check_names_NoDup {A} (fields : list (string * A)) :
  check_names None (sort_fields fields).*1 = Ok tt →
  NoDup fields.*1 ∧ Forall (λ n, validToken n = true) fields.*1.
Proof.
  intros (Hnd & _ & Hall)%check_names_ok; [|apply sort_fields_sorted|done].
  by rewrite sort_fields_perm in Hnd, Hall.
Qed.

(** The converse: distinct valid names always pass the check. *)
Lemma check_names_complete prev names :
  NoDup names → (∀ p, prev = Some p → p ∉ names) →
  Forall (λ n, validToken n = true) names → check_names prev names = Ok tt.
Proof.
  revert prev; induction names as [|n names IH]; intros prev Hnd Hp Hall; [done|].
  apply NoDup_cons in Hnd as [Hn Hnd]. apply Forall_cons in Hall as [Hv Hall].
  simpl. rewrite Hv. simpl. rewrite bool_decide_eq_false_2.
  - apply IH; [done| |done]. by intros ? [= <-].
  - intros ->. by apply (Hp n eq_refl); left.
Qed.

(** ** Integers and frames *)

Lemma length_big_endian k n : length (big_endian k n) = k.
Proof.
  revert n; induction k as [|k IH]; intros n; simpl; [done|].
  rewrite length_app, IH. simpl. lia.
Qed.

Lemma big_endian_inj k n m :
  (0 ≤ n < 256 ^ Z.of_nat k)%Z → (0 ≤ m < 256 ^ Z.of_nat k)%Z →
  big_endian k n = big_endian k m → n = m.
Proof.
  revert n m; induction k as [|k IH]; intros n m Hn Hm; simpl big_endian.
  { change (256 ^ Z.of_nat 0)%Z with 1%Z in *. lia. }
  intros [Hhi Hlo]%app_inj_2; [|done]. injection Hlo as Hlo.
  pose proof (Z.mod_pos_bound n 256 ltac:(done)).
  pose proof (Z.mod_pos_bound m 256 ltac:(done)).
  apply (f_equal N_of_ascii) in Hlo. rewrite !N_ascii_embedding in Hlo by lia.
  assert (256 ^ Z.of_nat (S k) = 256 * 256 ^ Z.of_nat k)%Z as Hpow.
  { rewrite Nat2Z.inj_succ, Z.pow_succ_r; lia. }
  apply IH in Hhi.
  - pose proof (Z.div_mod n 256 ltac:(done)). pose proof (Z.div_mod m 256 ltac:(done)). lia.
  - split; [by apply Z.div_pos; lia|apply Z.div_lt_upper_bound; lia].
  - split; [by apply Z.div_pos; lia|apply Z.div_lt_upper_bound; lia].
Qed.

#[global] Opaque big_endian.

Lemma appendUint64_prefix n m (r s : bytes) :
  (0 ≤ n < 2 ^ 64)%Z → (0 ≤ m < 2 ^ 64)%Z →
  appendUint64 n ++ r = appendUint64 m ++ s → n = m ∧ r = s.
Proof.
  intros Hn Hm. unfold appendUint64, appendInt64.
  intros [He Hr]%app_inj_1; [|by rewrite !length_big_endian].
  split; [|done]. by apply (big_endian_inj 8).
Qed.

Lemma appendInt64_prefix n m (r s : bytes) :
  (- 2 ^ 63 ≤ n < 2 ^ 63)%Z → (- 2 ^ 63 ≤ m < 2 ^ 63)%Z →
  appendInt64 n ++ r = appendInt64 m ++ s → n = m ∧ r = s.
Proof.
  intros Hn Hm. unfold appendUint64, appendInt64.
  intros [He Hr]%app_inj_1; [|by rewrite !length_big_endian].
  split; [|done].
  apply big_endian_inj in He; [|apply Z.mod_pos_bound; lia..].
  pose proof (Z.div_mod n (2 ^ 64) ltac:(done)). pose proof (Z.div_mod m (2 ^ 64) ltac:(done)).
  nia.
Qed.

Lemma appendFrame_prefix (b c r s : bytes) :
  small b → small c → appendFrame b ++ r = appendFrame c ++ s → b = c ∧ r = s.
Proof.
  unfold appendFrame, small. intros Hb Hc. rewrite <- !app_assoc.
  intros [Hl He]%appendUint64_prefix; [|lia..].
  apply app_inj_1 in He; [done|lia].
Qed.

Lemma small_frame b : small (appendFrame b) → small b.
Proof. by intros [_ ?]%small_app. Qed.

Lemma bs_inj s t : bs s = bs t → s = t.
Proof.
  intros H. rewrite <- (String.string_of_list_ascii_of_string s),
    <- (String.string_of_list_ascii_of_string t). unfold bs in H. by rewrite H.
Qed.

(** Reading back a sequence of items with a prefix code. *)
Lemma concat_prefix {A} (enc1 enc2 : A → ares bytes) (R : A → A → Prop) l1 l2 bs1 bs2 r s :
  (∀ x y b c t u, x ∈ l1 → y ∈ l2 → enc1 x = Ok b → enc2 y = Ok c →
     small b → small c → b ++ t = c ++ u → R x y ∧ t = u) →
  mapR enc1 l1 = Ok bs1 → mapR enc2 l2 = Ok bs2 → length l1 = length l2 →
  small (concat bs1) → small (concat bs2) →
  concat bs1 ++ r = concat bs2 ++ s → Forall2 R l1 l2 ∧ r = s.
Proof.
  revert l2 bs1 bs2; induction l1 as [|x l1 IH]; intros [|y l2] bs1 bs2 Hpre H1 H2 Hlen Hs1 Hs2 He;
    try discriminate; simplify_eq/=; [done|].
  res_inv. simpl in *.
  apply small_app in Hs1 as [? ?], Hs2 as [? ?]. rewrite <- !app_assoc in He.
  eapply Hpre in He as [HR He]; [|by left|by left|done..].
  eapply IH in He as [HR' He]; [by split; [constructor|]| |done..].
  intros. eapply Hpre; [by right|by right|done..].
Qed.

Lemma concat_length_ge {A} (enc : A → ares bytes) l bss :
  (∀ x b, x ∈ l → enc x = Ok b → 0 < length b) →
  mapR enc l = Ok bss → length l ≤ length (concat bss).
Proof.
  revert bss; induction l as [|x l IH]; intros bss Henc H; simplify_eq/=; [lia|].
  res_simpl. rewrite length_app.
  assert (length l ≤ length (concat a0)) by (apply IH; [|done]; eauto using list_elem_of_further).
  assert (0 < length a) by (apply (Henc x); [by left|done]). lia.
Qed.

(** ** The prefix property *)

Section record_prefix.
Context (enc1 enc2 : Value → ares bytes) (f1 f2 : list Field).
Context (Hpre : ∀ x y b c t u,
  x ∈ f1 → y ∈ f2 → enc1 x.2 = Ok b → enc2 y.2 = Ok c →
  small b → small c → b ++ t = c ++ u → x.2 ≡ y.2 ∧ t = u).

Lemma append_record_prefix k1 k2 b1 b2 r s :
  append_record_with enc1 k1 f1 = Ok b1 → append_record_with enc2 k2 f2 = Ok b2 →
  small b1 → small b2 → b1 ++ r = b2 ++ s →
  k1 = k2 ∧ sort_fields (map canon_field f1) = sort_fields (map canon_field f2) ∧ r = s.
Proof.
  unfold append_record_with. intros H1 H2 Hs1 Hs2 He. res_inv.
  rewrite <- !app_assoc in He. apply app_inv_head, app_inv_head in He.
  repeat match goal with
    | H : small (_ ++ _) |- _ => apply small_app in H as [??]
  end.
  apply appendFrame_prefix in He as [Hk He]; [|by apply small_frame..].
  assert (∀ (enc : Value → ares bytes) fs body,
    mapR (λ f : Field, v ← enc f.2; Ok (appendFrame (bs f.1) ++ v)) fs = Ok body →
    small (concat body) → (Z.of_nat (length fs) < 2 ^ 64)%Z) as Hcount.
  { intros enc fs body Hm Hsm. unfold small in Hsm.
    apply concat_length_ge in Hm; [lia|]. intros. res_inv.
    unfold appendFrame, appendUint64. rewrite !length_app, length_big_endian. lia. }
  apply appendUint64_prefix in He as [Hlen He]; [|split; [lia|by eapply Hcount]..].
  eapply (concat_prefix _ _ (λ x y, canon_field x = canon_field y)) in He as [HF ->];
    [|clear He|done|done|lia|done|done].
  - split_and!; [by apply bs_inj| |done]. unfold canon_field.
    rewrite !sort_fields_map. by apply Forall2_eq_l, Forall2_fmap_2.
  - intros x y b c t u Hx Hy Hb Hc Hsb Hsc Heq. rewrite sort_fields_perm in Hx, Hy.
    cbv beta in Hb, Hc. res_inv. apply small_app in Hsb as [? ?], Hsc as [? ?].
    rewrite <- !app_assoc in Heq.
    apply appendFrame_prefix in Heq as [Hn Heq]; [|by apply small_frame..].
    edestruct Hpre as [Hv Ht]; [exact Hx|exact Hy|done..|].
    split; [|done]. unfold canon_field. f_equal; [by apply bs_inj|exact Hv].
Qed.
End record_prefix.

Lemma appendValue_nonempty n v b : appendValue n v = Ok b → 0 < length b.
Proof. destruct n; simpl; [done|]. intros. res_inv. simpl. lia. Qed.

Lemma value_wf_items items : forallb value_wf items = true → ∀ v, v ∈ items → value_wf v = true.
Proof. rewrite forallb_forall. intros H v ?%list_elem_of_In. auto. Qed.

Lemma record_wf_fields fields :
  forallb (λ f : Field, value_wf f.2) fields = true → ∀ f, f ∈ fields → value_wf f.2 = true.
Proof. rewrite forallb_forall. intros H f ?%list_elem_of_In. auto. Qed.

Lemma appendValue_prefix n m v w b c r s :
  appendValue n v = Ok b → appendValue m w = Ok c → value_wf v = true → value_wf w = true →
  small b → small c → b ++ r = c ++ s → v ≡ w ∧ r = s.
Proof.
  revert m v w b c r s; induction n as [|n IH]; intros m v w b c r s Hv Hw Wv Ww Hb Hc He;
    [done|]. destruct m as [|m]; [done|]. simpl in Hv, Hw. res_inv.
  apply (small_app [_]) in Hb as [_ Hb], Hc as [_ Hc].
  rewrite <- !app_comm_cons in He. injection He as Htag He.
  destruct v, w; try discriminate Htag; res_inv; simpl in Wv, Ww;
    rewrite ?andb_true_iff, ?Z.leb_le, ?Z.ltb_lt, ?Nat.eqb_eq in *.
  - done.
  - done.
  - done.
  - apply appendUint64_prefix in He as [-> ->]; [done|lia..].
  - apply appendInt64_prefix in He as [-> ->]; [done|lia..].
  - apply appendFrame_prefix in He as [-> ->]; [done|by apply small_frame..].
  - apply appendFrame_prefix in He as [-> ->]; [done|by apply small_frame..].
  - apply appendFrame_prefix in He as [-> ->]; [done|by apply small_frame..].
  - apply app_inj_1 in He as [-> ->]; [done|lia].
  - apply app_inj_1 in He as [-> ->]; [done|lia].
  - assert (∀ k its body, mapR (appendValue k) its = Ok body → small (concat body) →
      (Z.of_nat (length its) < 2 ^ 64)%Z) as Hcount.
    { intros k its body Hm Hsm. unfold small in Hsm.
      apply concat_length_ge in Hm; [lia|]. intros. by eapply appendValue_nonempty. }
    rewrite <- !app_assoc in He. apply small_app in Hb as [_ Hb], Hc as [_ Hc].
    apply appendUint64_prefix in He as [Hlen He]; [|split; [lia|by eapply Hcount]..].
    eapply (concat_prefix _ _ (≡)) in He as [HF ->]; [| |done|done|lia|done|done].
    + split; [|done]. unfold equiv, value_equiv. simpl. f_equal.
      apply Forall2_eq_l, Forall2_fmap_2, HF.
    + intros x y b c t u Hx Hy Hxb Hyc Hsb Hsc Heq.
      apply (IH m x y b c); eauto using value_wf_items.
  - apply appendFrame_prefix in He as [-> ->]; [|by apply small_frame..].
    assert (∀ x y b c t u, x ∈ fields → y ∈ fields0 →
      appendValue n x.2 = Ok b → appendValue m y.2 = Ok c →
      small b → small c → b ++ t = c ++ u → x.2 ≡ y.2 ∧ t = u) as Hpre.
    { intros x y b c t u Hx Hy Hxb Hyc Hsb Hsc Heq.
      apply (IH m x.2 y.2 b c); eauto using record_wf_fields. }
    eapply append_record_prefix with (r := []) (s := []) in Hpre as (-> & Hf & _);
      [|done|done|by apply small_frame..|done].
    split; [|done]. unfold equiv, value_equiv. simpl. f_equal. exact Hf.
Qed.

(** ** The encoding depends on the normal form only *)

Lemma ares_Err {A} (r : ares A) : is_Ok r = false → r = Err AuditError.
Proof. by destruct r as [|[]]. Qed.

Lemma append_record_perm enc kind (f1 f2 : list Field) :
  f1 ≡ₚ f2 → append_record_with enc kind f1 = append_record_with enc kind f2.
Proof.
  intros Hp. unfold append_record_with.
  destruct (decide (NoDup f1.*1)) as [Hnd|Hnd].
  { by rewrite (sort_fields_unique f1 f2). }
  assert (∀ f : list Field, ¬ NoDup f.*1 →
    check_names None (sort_fields f).*1 = Err AuditError) as Herr.
  { intros f Hf. apply ares_Err.
    destruct (check_names _ _) as [[]|] eqn:Hc; [|done].
    by apply check_names_NoDup in Hc as [? _]. }
  rewrite !Herr; [done|by rewrite <- Hp|done].
Qed.

Lemma mapR_ext {E A B} (f g : A → result E B) l :
  (∀ x, x ∈ l → f x = g x) → mapR f l = mapR g l.
Proof.
  induction l as [|x l IH]; intros Hfg; [done|]. simpl.
  rewrite (Hfg x) by left. rewrite IH; [done|]. intros; apply Hfg; by right.
Qed.

Lemma mapR_map {E A B C} (g : A → B) (f : B → result E C) l :
  mapR f (map g l) = mapR (λ x, f (g x)) l.
Proof. induction l as [|x l IH]; [done|]. simpl. by rewrite IH. Qed.

Lemma append_record_map enc kind (g : Value → Value) fields :
  (∀ f, f ∈ fields → enc (g f.2) = enc f.2) →
  append_record_with enc kind (map (λ f : Field, (f.1, g f.2)) fields) =
  append_record_with enc kind fields.
Proof.
  intros Henc. unfold append_record_with. rewrite sort_fields_map.
  assert ((map (λ f : Field, (f.1, g f.2)) (sort_fields fields)).*1 = (sort_fields fields).*1)
    as -> by (rewrite <- list_fmap_compose; done).
  rewrite mapR_map, length_map.
  destruct (check (validToken kind) _) as [[]|]; [cbn|done].
  destruct (check_names _ _) as [[]|]; [cbn|done].
  rewrite (mapR_ext _ (λ f : Field, v ← enc f.2; Ok (appendFrame (bs f.1) ++ v))); [done|].
  intros f Hf. rewrite sort_fields_perm in Hf. cbn [fst snd]. by rewrite Henc.
Qed.

Lemma appendValue_canon n v : appendValue n (canon v) = appendValue n v.
Proof.
  revert v; induction n as [|n IH]; intros v; [done|].
  destruct v; try done; cbn [canon appendValue].
  - rewrite mapR_map, length_map. by rewrite (mapR_ext _ (appendValue n)) by auto.
  - rewrite (append_record_perm _ _ (sort_fields _) _ (sort_fields_perm _)).
    rewrite append_record_map by auto. done.
Qed.

(** Equivalent records encode alike. *)
#[export] Instance encodeCanonical_proper : Proper ((≡) ==> (=)) encodeCanonical.
Proof.
  assert (∀ r, encodeCanonical (canon_record r) = encodeCanonical r) as Hc.
  { intros [k fs]. unfold encodeCanonical, appendRecord. cbn [canon_record Kind Fields].
    rewrite (append_record_perm _ _ (sort_fields _) _ (sort_fields_perm _)).
    unfold canon_field. rewrite append_record_map; [done|]. intros. apply appendValue_canon. }
  intros r s Hrs. rewrite <- (Hc r), <- (Hc s). by rewrite Hrs.
Qed.

Lemma encodeCanonical_prefix r s b c t u :
  encodeCanonical r = Ok b → encodeCanonical s = Ok c →
  record_wf r = true → record_wf s = true → small b → small c →
  b ++ t = c ++ u → r ≡ s ∧ t = u.
Proof.
  unfold encodeCanonical, appendRecord. intros Hb Hc Hr Hs Hsb Hsc He. res_inv.
  destruct r as [k1 f1], s as [k2 f2]. cbn [Kind Fields] in *.
  edestruct (append_record_prefix (appendValue 65) (appendValue 65) f1 f2) as (-> & Hf & ->);
    [|exact Hb|exact Hc|done..|].
  - intros x y b' c' t' u' Hx Hy Hxb Hyc Hsb' Hsc' He'.
    apply (appendValue_prefix 65 65 x.2 y.2 b' c'); eauto using record_wf_fields.
  - split; [|done]. unfold equiv, record_equiv, canon_record. cbn [Kind Fields]. by rewrite Hf.
Qed.

(** ** Properties *)

(** C27: the canonical encoding is a complete invariant of a record: two
    records that encode produce the same bytes exactly when they are equal up
    to the order in which their fields (at every depth) were listed. *)
Theorem encodeCanonical_complete_invariant r s b c :
  record_wf r = true → record_wf s = true →
  encodeCanonical r = Ok b → encodeCanonical s = Ok c → small b → small c →
  b = c ↔ r ≡ s.
Proof.
  intros Hr Hs Hb Hc Hsb Hsc. split.
  - intros ->. by eapply (encodeCanonical_prefix r s c c [] []).
  - intros Hrs%encodeCanonical_proper. congruence.
Qed.

Definition sample_record_1 : AuditRecord :=
  MkRecord "sample" [("b", VUnsigned 258); ("a", VList [VTrue; VRecord "in" [("y", VAbsent); ("x", VSigned (-1))]])].
Definition sample_record_2 : AuditRecord :=
  MkRecord "sample" [("a", VList [VTrue; VRecord "in" [("x", VSigned (-1)); ("y", VAbsent)]]); ("b", VUnsigned 258)].

Definition sample_bytes : bytes :=
  match encodeCanonical sample_record_1 with Ok b => b | Err _ => [] end.

Lemma encodeCanonical_complete_invariant_witness :
  sample_bytes = sample_bytes ↔ sample_record_1 ≡ sample_record_2.
Proof. apply encodeCanonical_complete_invariant; vm_compute; reflexivity. Defined.

(** the encoding is self-delimiting: whatever follows the bytes of a
    record, a reader recovers the record and the rest, so concatenated
    evidence can never be read in two ways. *)
Theorem encodeCanonical_self_delimiting r s b c t u :
  record_wf r = true → record_wf s = true →
  encodeCanonical r = Ok b → encodeCanonical s = Ok c → small b → small c →
  b ++ t = c ++ u → r ≡ s ∧ b = c ∧ t = u.
Proof.
  intros Hr Hs Hb Hc Hsb Hsc He.
  destruct (encodeCanonical_prefix r s b c t u) as [Hrs ->]; try done.
  split_and!; [done| |done]. apply encodeCanonical_proper in Hrs. congruence.
Qed.

Lemma encodeCanonical_self_delimiting_witness :
  sample_record_1 ≡ sample_record_2 ∧ sample_bytes = sample_bytes ∧ bs "rest" = bs "rest".
Proof.
  apply encodeCanonical_self_delimiting; try (vm_compute; reflexivity).
Defined.
