(* ===== verification/AuditOrdering.v ===== *)
(** * Canonical collection order (internal/audit/ordering.go)

    The sort and uniqueness keys of the ordered collections inside audit
    records, their comparison, and the check that a collection is sorted and
    free of duplicates. *)
From S2P Require Import Prelude GoText AuditEncoding.

(** ** Policies and keys *)

Inductive collectionPolicy :=
  | collectionNone
  | collectionUnsigned
  | collectionAllocatedNodeID
  | collectionNodeID
  | collectionVersion
  | collectionAttachedRecord
  | collectionWitness
  | collectionTopologyChange
  | collectionPathEffect
  | collectionWitnessChange
  | collectionAttachedChange
  | collectionEvent
  | collectionBaselineBinding.

Inductive orderPartKind := orderUnsigned | orderBytes.

(** [orderPart]: the kind, whether a value is present, and the two fields the
    kind selects from. *)
Record orderPart := MkPart {
  part_kind : orderPartKind;
  present : bool;
  unsigned : Z;
  data : bytes;
}.

#[export] Instance orderPartKind_eq_dec : EqDecision orderPartKind.
Proof. solve_decision. Defined.
#[export] Instance orderPart_eq_dec : EqDecision orderPart.
Proof. solve_decision. Defined.

(** [sort] and [unique]; a nil slice is [None]. *)
Record collectionKey := MkKey {
  sort_key : option (list orderPart);
  unique_key : option (list orderPart);
}.

Definition unsignedPart (value : Value) : orderPart :=
  MkPart orderUnsigned true (match value with VUnsigned n => n | _ => 0 end) [].
Definition dataPart (value : bytes) : orderPart := MkPart orderBytes true 0 value.
Definition absentPart (kind : orderPartKind) : orderPart := MkPart kind false 0 [].

(** ** Reading fields *)

(** [recordField]: the first field of that name. *)
Definition recordField (record : AuditRecord) (name : string) : ares Value :=
  match list_find (λ f : Field, f.1 = name) (Fields record) with
  | Some (_, f) => Ok f.2
  | None => Err AuditError
  end.

Definition collectionRecord (value : Value) : ares AuditRecord :=
  match value with
  | VRecord kind fields => Ok (MkRecord kind fields)
  | _ => Err AuditError
  end.

Definition recordNested (record : AuditRecord) (name : string) : ares AuditRecord :=
  value ← recordField record name; collectionRecord value.

Definition recordUnsignedPart (record : AuditRecord) (name : string) : ares orderPart :=
  value ← recordField record name;
  match value with
  | VUnsigned _ => Ok (unsignedPart value)
  | _ => Err AuditError
  end.

Definition recordOptionalUnsignedPart (record : AuditRecord) (name : string) : ares orderPart :=
  value ← recordField record name;
  match value with
  | VAbsent => Ok (absentPart orderUnsigned)
  | VUnsigned _ => Ok (unsignedPart value)
  | _ => Err AuditError
  end.

Definition recordDataPart (record : AuditRecord) (name : string) : ares orderPart :=
  value ← recordField record name;
  match value with
  | VBytes d | VText d | VUUID d | VDigest d => Ok (dataPart d)
  | _ => Err AuditError
  end.

Definition recordOptionalDataPart (record : AuditRecord) (name : string) : ares orderPart :=
  value ← recordField record name;
  match value with
  | VAbsent => Ok (absentPart orderBytes)
  | VBytes d | VText d | VUUID d | VDigest d => Ok (dataPart d)
  | _ => Err AuditError
  end.

Definition recordNestedPart (record : AuditRecord) (name : string) : ares orderPart :=
  value ← recordField record name;
  match value with
  | VAbsent => Ok (absentPart orderBytes)
  | _ =>
      nested ← collectionRecord value;
      encoded ← encodeCanonical nested;
      Ok (dataPart encoded)
  end.

(** ** Keys per policy *)

Definition sorted_by (parts : list orderPart) : collectionKey := MkKey (Some parts) None.

Definition nodeIDCollectionKey (item : Value) : ares collectionKey :=
  record ← collectionRecord item;
  part ← recordUnsignedPart record "node_id";
  Ok (sorted_by [part]).

Definition versionCollectionKey (item : Value) : ares collectionKey :=
  record ← collectionRecord item;
  nodeID ← recordUnsignedPart record "node_id";
  versionID ← recordDataPart record "version_id";
  Ok (sorted_by [nodeID; versionID]).

(** [attachedRecordIdentity] *)
Definition attachedRecordIdentity (record : AuditRecord) : ares bytes :=
  identity ←
    (if String.eqb (Kind record) "ingest" then
       ingestID ← recordField record "ingest_id";
       Ok (MkRecord "ingest_identity" [("ingest_id", ingestID)])
     else if String.eqb (Kind record) "provenance" then
       value ← recordField record "identity";
       Ok (MkRecord "provenance_identity_ref" [("identity", value)])
     else if String.eqb (Kind record) "tag_assignment" then
       tagID ← recordField record "tag_id";
       nodeID ← recordField record "node_id";
       Ok (MkRecord "tag_assignment_identity" [("tag_id", tagID); ("node_id", nodeID)])
     else if String.eqb (Kind record) "tag_definition" then
       tagID ← recordField record "tag_id";
       Ok (MkRecord "tag_definition_identity" [("tag_id", tagID)])
     else if String.eqb (Kind record) "derivative_purge_suppression" then
       source ← recordField record "source_sha256";
       profile ← recordField record "profile_fingerprint";
       build ← recordField record "build_id";
       Ok (MkRecord "derivative_purge_suppression_identity"
             [("source_sha256", source); ("profile_fingerprint", profile); ("build_id", build)])
     else Err AuditError);
  encodeCanonical identity.

Definition attachedRecordCollectionKey (item : Value) : ares collectionKey :=
  record ← collectionRecord item;
  identity ← attachedRecordIdentity record;
  Ok (sorted_by [dataPart (bs (Kind record)); dataPart identity]).

Definition witnessCollectionKey (item : Value) : ares collectionKey :=
  record ← collectionRecord item;
  nodeID ← recordUnsignedPart record "node_id";
  generation ← recordDataPart record "generation_operation_id";
  Ok (sorted_by [nodeID; generation]).

Definition topologyChangeCollectionKey (item : Value) : ares collectionKey :=
  record ← collectionRecord item;
  nodeID ← recordUnsignedPart record "node_id";
  pre ← recordNestedPart record "pre";
  post ← recordNestedPart record "post";
  Ok (MkKey (Some [nodeID; pre; post]) (Some [nodeID])).

Definition pathEffectCollectionKey (item : Value) : ares collectionKey :=
  record ← collectionRecord item;
  scopeID ← recordDataPart record "scope_id";
  memberID ← recordUnsignedPart record "member_node_id";
  oldState ← recordNested record "old";
  newState ← recordNested record "new";
  oldPath ← recordDataPart oldState "path";
  newPath ← recordDataPart newState "path";
  oldCode ← recordDataPart oldState "state";
  newCode ← recordDataPart newState "state";
  Ok (MkKey (Some [scopeID; memberID; oldPath; newPath; oldCode; newCode])
            (Some [scopeID; memberID])).

Definition witnessChangeCollectionKey (item : Value) : ares collectionKey :=
  record ← collectionRecord item;
  nodeID ← recordUnsignedPart record "node_id";
  generation ← recordDataPart record "generation_operation_id";
  action ← recordDataPart record "action";
  Ok (sorted_by [nodeID; generation; action]).

Definition attachedChangeCollectionKey (item : Value) : ares collectionKey :=
  record ← collectionRecord item;
  recordKind ← recordDataPart record "record_kind";
  identity ← recordNestedPart record "stable_identity";
  Ok (sorted_by [recordKind; identity]).

Definition eventCollectionKey (item : Value) : ares collectionKey :=
  record ← collectionRecord item;
  nodeID ← recordUnsignedPart record "node_id";
  eventKind ← recordDataPart record "event_kind";
  scopeID ← recordDataPart record "scope_id";
  targetID ← recordOptionalUnsignedPart record "target_node_id";
  attachmentKind ← recordOptionalDataPart record "attachment_kind";
  attachmentIdentity ← recordNestedPart record "attachment_identity";
  Ok (sorted_by [nodeID; eventKind; scopeID; targetID; attachmentKind; attachmentIdentity]).

Definition baselineBindingCollectionKey (item : Value) : ares collectionKey :=
  record ← collectionRecord item;
  scopeID ← recordDataPart record "scope_id";
  targetID ← recordUnsignedPart record "target_node_id";
  digest ← recordDataPart record "baseline_digest";
  Ok (sorted_by [scopeID; targetID; digest]).

Definition collectionKeyFor (policy : collectionPolicy) (item : Value) : ares collectionKey :=
  match policy with
  | collectionUnsigned => Ok (sorted_by [unsignedPart item])
  | collectionAllocatedNodeID => Ok (MkKey None (Some [unsignedPart item]))
  | collectionNodeID => nodeIDCollectionKey item
  | collectionVersion => versionCollectionKey item
  | collectionAttachedRecord => attachedRecordCollectionKey item
  | collectionWitness => witnessCollectionKey item
  | collectionTopologyChange => topologyChangeCollectionKey item
  | collectionPathEffect => pathEffectCollectionKey item
  | collectionWitnessChange => witnessChangeCollectionKey item
  | collectionAttachedChange => attachedChangeCollectionKey item
  | collectionEvent => eventCollectionKey item
  | collectionBaselineBinding => baselineBindingCollectionKey item
  | collectionNone => Ok (MkKey None None)
  end.

(** ** Comparison *)

(** [bytes.Compare] *)
Fixpoint bytes_compare (a b : bytes) : comparison :=
  match a, b with
  | [], [] => Eq
  | [], _ :: _ => Lt
  | _ :: _, [] => Gt
  | x :: a, y :: b =>
      match N.compare (N_of_ascii x) (N_of_ascii y) with
      | Eq => bytes_compare a b
      | c => c
      end
  end.

Definition compareOrderPart (l r : orderPart) : comparison :=
  if negb (Bool.eqb (present l) (present r))
  then (if present l then Gt else Lt)
  else if negb (present l) then Eq
  else match part_kind l with
       | orderUnsigned => Z.compare (unsigned l) (unsigned r)
       | orderBytes => bytes_compare (data l) (data r)
       end.

(** [compareOrderKey left right] indexes [right] by the positions of [left]; the two keys
    of one policy have the same length. *)
Fixpoint compareOrderKey (ls rs : list orderPart) : comparison :=
  match ls, rs with
  | l :: ls, r :: rs =>
      match compareOrderPart l r with
      | Eq => compareOrderKey ls rs
      | c => c
      end
  | _, _ => Eq
  end.

Definition encodeOrderPart (part : orderPart) : bytes :=
  match part_kind part with orderUnsigned => "000" | orderBytes => "001" end%char ::
  (if negb (present part) then ["000"%char]
   else "001"%char ::
        match part_kind part with
        | orderUnsigned => appendUint64 (unsigned part)
        | orderBytes => appendFrame (data part)
        end).

Definition encodeOrderKey (parts : list orderPart) : bytes :=
  concat (map encodeOrderPart parts).

(** ** validateCollection *)

Definition key_parts (key : collectionKey) : list orderPart := default [] (sort_key key).

(** [unique := key.unique; if unique == nil { unique = key.sort }] *)
Definition key_unique (key : collectionKey) : list orderPart :=
  match unique_key key with Some u => u | None => key_parts key end.

(** The loop over the items; [seen] is the set of encoded unique keys and
    [previous] the sort key of the item before. *)
Fixpoint validate_items (policy : collectionPolicy) (seen : list bytes)
    (previous : option (list orderPart)) (items : list Value) : ares unit :=
  match items with
  | [] => Ok tt
  | item :: items =>
      key ← collectionKeyFor policy item;
      let encodedUnique := encodeOrderKey (key_unique key) in
      _ ← check (negb (bool_decide (encodedUnique ∈ seen))) AuditError;
      _ ← check (match sort_key key, previous with
                 | Some k, Some p =>
                     match compareOrderKey p k with Gt => false | _ => true end
                 | _, _ => true
                 end) AuditError;
      validate_items policy (encodedUnique :: seen) (sort_key key) items
  end.

Definition validateCollection (items : list Value) (policy : collectionPolicy) : ares unit :=
  match policy with
  | collectionNone => Ok tt
  | _ => validate_items policy [] None items
  end.

(** ** Facts *)

Lemma bytes_compare_laws : cmp_laws (λ _, True) bytes_compare.
Proof.
  split.
  - intros x _. induction x as [|a x IH]; [done|]. simpl. by rewrite N.compare_refl.
  - intros x y _ _. revert y; induction x as [|a x IH]; intros [|b y]; simpl; try done.
    destruct (N.compare_spec (N_of_ascii a) (N_of_ascii b)) as [Hab| |]; try done.
    intros ->%IH. f_equal. rewrite <- (ascii_N_embedding a), <- (ascii_N_embedding b).
    by rewrite Hab.
  - intros x y _ _. revert y; induction x as [|a x IH]; intros [|b y]; simpl; try done.
    rewrite (N.compare_antisym (N_of_ascii a) (N_of_ascii b)).
    destruct (N.compare (N_of_ascii a) (N_of_ascii b)); simpl; [apply IH|done..].
  - intros x y z _ _ _. revert y z; induction x as [|a x IH]; intros [|b y] [|c z]; simpl; try done.
    destruct (N.compare_spec (N_of_ascii a) (N_of_ascii b)) as [Hab|Hab|Hab];
      destruct (N.compare_spec (N_of_ascii b) (N_of_ascii c)) as [Hbc|Hbc|Hbc];
      destruct (N.compare_spec (N_of_ascii a) (N_of_ascii c)) as [Hac|Hac|Hac];
      try done; try lia. apply IH.
Qed.

(** The parts the package builds: only the field of the part's kind is set. *)
Definition part_norm (k : orderPartKind) (p : orderPart) : Prop :=
  part_kind p = k ∧
  (present p = false → p = absentPart k) ∧
  (present p = true → k = orderUnsigned → p = MkPart orderUnsigned true (unsigned p) []) ∧
  (present p = true → k = orderBytes → p = dataPart (data p)).

Lemma compareOrderPart_laws k : cmp_laws (part_norm k) compareOrderPart.
Proof.
  pose proof bytes_compare_laws as [Br Be Bf Bt].
  assert (∀ p, part_norm k p → p = absentPart k ∨
    (k = orderUnsigned ∧ ∃ n, p = MkPart orderUnsigned true n []) ∨
    (k = orderBytes ∧ ∃ d, p = dataPart d)) as Hcase.
  { intros p (Hk & H1 & H2 & H3). destruct (present p); [right|left; auto].
    destruct k; [left|right]; eauto. }
  split.
  - intros x Hx. destruct (Hcase x Hx) as [->|[(-> & n & ->)|(-> & d & ->)]]; [done| |];
      unfold compareOrderPart; simpl; [apply Z.compare_refl|by apply Br].
  - intros x y Hx Hy.
    destruct (Hcase x Hx) as [->|[(-> & n & ->)|(-> & d & ->)]],
      (Hcase y Hy) as [->|[(? & m & ->)|(? & e & ->)]]; try done;
      unfold compareOrderPart; simpl.
    + by intros ->%Z.compare_eq.
    + by intros ->%Be.
  - intros x y Hx Hy.
    destruct (Hcase x Hx) as [->|[(-> & n & ->)|(-> & d & ->)]],
      (Hcase y Hy) as [->|[(? & m & ->)|(? & e & ->)]]; try done;
      unfold compareOrderPart; simpl; [apply Z.compare_antisym|by apply Bf].
  - intros x y z Hx Hy Hz.
    destruct (Hcase x Hx) as [->|[(-> & n & ->)|(-> & d & ->)]],
      (Hcase y Hy) as [->|[(? & m & ->)|(? & e & ->)]],
      (Hcase z Hz) as [->|[(? & o & ->)|(? & g & ->)]]; try done;
      unfold compareOrderPart; simpl; rewrite ?Z.compare_lt_iff; [lia|by apply Bt].
Qed.

Definition key_norm (shape : list orderPartKind) (parts : list orderPart) : Prop :=
  Forall2 part_norm shape parts.

Lemma compareOrderKey_laws shape : cmp_laws (key_norm shape) compareOrderKey.
Proof.
  induction shape as [|k shape [IHr IHe IHf IHt]].
  { split; intros; repeat match goal with H : key_norm [] _ |- _ => apply Forall2_nil_inv_l in H; subst end; done. }
  pose proof (compareOrderPart_laws k) as [Pr Pe Pf Pt].
  split.
  - intros [|x xs] Hx; [by inversion Hx|]. apply Forall2_cons in Hx as [Hx Hxs].
    simpl. rewrite Pr by done. by apply IHr.
  - intros [|x xs] [|y ys] Hx Hy; try (by inversion Hx); try (by inversion Hy).
    apply Forall2_cons in Hx as [Hx Hxs], Hy as [Hy Hys]. simpl.
    destruct (compareOrderPart x y) eqn:Hc; [|done..]. apply Pe in Hc as ->; [|done..].
    intros ->%IHe; done.
  - intros [|x xs] [|y ys] Hx Hy; try (by inversion Hx); try (by inversion Hy).
    apply Forall2_cons in Hx as [Hx Hxs], Hy as [Hy Hys]. simpl.
    rewrite Pf by done. destruct (compareOrderPart x y); simpl; [by apply IHf|done..].
  - intros [|x xs] [|y ys] [|z zs] Hx Hy Hz;
      try (by inversion Hx); try (by inversion Hy); try (by inversion Hz).
    apply Forall2_cons in Hx as [Hx Hxs], Hy as [Hy Hys], Hz as [Hz Hzs]. simpl.
    destruct (compareOrderPart x y) eqn:H1, (compareOrderPart y z) eqn:H2; try done.
    + apply Pe in H1 as ->; [|done..]. apply Pe in H2 as ->; [|done..].
      rewrite Pr by done. by apply IHt.
    + apply Pe in H1 as ->; [|done..]. by rewrite H2.
    + apply Pe in H2 as ->; [|done..]. by rewrite H1.
    + by rewrite (Pt x y z).
Qed.

(** The kinds of the sort key of an ordered policy, and how many of its parts
    form the uniqueness key. *)
Definition policy_shape (policy : collectionPolicy) : option (list orderPartKind * nat) :=
  let U := orderUnsigned in let B := orderBytes in
  match policy with
  | collectionNone | collectionAllocatedNodeID => None
  | collectionUnsigned | collectionNodeID => Some ([U], 1)
  | collectionVersion | collectionWitness => Some ([U; B], 2)
  | collectionAttachedRecord | collectionAttachedChange => Some ([B; B], 2)
  | collectionTopologyChange => Some ([U; B; B], 1)
  | collectionPathEffect => Some ([B; U; B; B; B; B], 2)
  | collectionWitnessChange => Some ([U; B; B], 3)
  | collectionEvent => Some ([U; B; B; U; B; B], 6)
  | collectionBaselineBinding => Some ([B; U; B], 3)
  end.

Lemma part_norm_unsigned v : part_norm orderUnsigned (unsignedPart v).
Proof. by split_and!. Qed.
Lemma part_norm_data d : part_norm orderBytes (dataPart d).
Proof. by split_and!. Qed.
Lemma part_norm_absent k : part_norm k (absentPart k).
Proof. by split_and!. Qed.
#[export] Hint Resolve part_norm_unsigned part_norm_data part_norm_absent : docbank.

Lemma recordUnsignedPart_norm r n p : recordUnsignedPart r n = Ok p → part_norm orderUnsigned p.
Proof. unfold recordUnsignedPart. intros. res_inv. destruct a; res_inv; auto with docbank. Qed.
Lemma recordOptionalUnsignedPart_norm r n p :
  recordOptionalUnsignedPart r n = Ok p → part_norm orderUnsigned p.
Proof.
  unfold recordOptionalUnsignedPart. intros. res_inv. destruct a; res_inv; auto with docbank.
Qed.
Lemma recordDataPart_norm r n p : recordDataPart r n = Ok p → part_norm orderBytes p.
Proof. unfold recordDataPart. intros. res_inv. destruct a; res_inv; auto with docbank. Qed.
Lemma recordOptionalDataPart_norm r n p :
  recordOptionalDataPart r n = Ok p → part_norm orderBytes p.
Proof.
  unfold recordOptionalDataPart. intros. res_inv. destruct a; res_inv; auto with docbank.
Qed.
Lemma recordNestedPart_norm r n p : recordNestedPart r n = Ok p → part_norm orderBytes p.
Proof.
  unfold recordNestedPart. intros. res_inv. destruct a; res_inv; auto with docbank.
Qed.
#[export] Hint Resolve recordUnsignedPart_norm recordOptionalUnsignedPart_norm
  recordDataPart_norm recordOptionalDataPart_norm recordNestedPart_norm : docbank.

(** Every policy builds keys of its own shape. *)
Lemma collectionKeyFor_shape policy shape ulen item key :
  policy_shape policy = Some (shape, ulen) → collectionKeyFor policy item = Ok key →
  sort_key key = Some (key_parts key) ∧ key_norm shape (key_parts key) ∧
  key_unique key = take ulen (key_parts key).
Proof.
  unfold key_norm, key_unique, key_parts.
  destruct policy; simpl; intros [= <- <-];
    unfold nodeIDCollectionKey, versionCollectionKey, attachedRecordCollectionKey,
      witnessCollectionKey, topologyChangeCollectionKey, pathEffectCollectionKey,
      witnessChangeCollectionKey, attachedChangeCollectionKey, eventCollectionKey,
      baselineBindingCollectionKey; intros; res_inv; simpl;
    (split_and!; [done| |done]);
    repeat first [apply Forall2_nil_2 | apply Forall2_cons_2]; eauto with docbank.
Qed.

Section collection.
Context (policy : collectionPolicy) (shape : list orderPartKind) (ulen : nat).
Context (Hshape : policy_shape policy = Some (shape, ulen)).

Definition key_ordered (k1 k2 : collectionKey) : Prop :=
  compareOrderKey (key_parts k1) (key_parts k2) ≠ Gt.

Lemma validate_items_spec seen previous items :
  (validate_items policy seen previous items = Ok tt) ↔
  ∃ keys, mapR (collectionKeyFor policy) items = Ok keys ∧
    NoDup (map (λ k, encodeOrderKey (key_unique k)) keys) ∧
    (∀ k, k ∈ keys → encodeOrderKey (key_unique k) ∉ seen) ∧
    Sorted key_ordered keys ∧
    (∀ p k, previous = Some p → head keys = Some k → compareOrderKey p (key_parts k) ≠ Gt).
Proof.
  revert seen previous; induction items as [|item items IH]; intros seen previous; simpl.
  { split; [intros _|done]. exists []. split_and!; try done; try constructor.
    by intros ? ?%elem_of_nil. }
  destruct (collectionKeyFor policy item) as [key|] eqn:Hkey; simpl; [|naive_solver].
  destruct (collectionKeyFor_shape _ _ _ _ _ Hshape Hkey) as (Hsort & Hnorm & Huniq).
  rewrite Hsort.
  case_bool_decide as Hseen; simpl.
  { split; [done|]. intros (keys & Hk & _ & Hs & _). res_inv.
    destruct (Hs key); [by left|done]. }
  rewrite bind_Ok_iff. setoid_rewrite check_Ok_iff. setoid_rewrite IH.
  split.
  - intros ([] & Hcmp & keys & Hk & Hnd & Hs & Hsorted & Hhd).
    exists (key :: keys). rewrite Hk. simpl. split_and!; [done| | | |].
    + constructor; [|done]. intros (k & Heq & Hin)%list_elem_of_In%in_map_iff.
      apply list_elem_of_In in Hin. apply (Hs k Hin). rewrite <- Heq. by left.
    + intros k [->|Hin]%elem_of_cons; [done|]. specialize (Hs k Hin).
      intros ?. apply Hs. by right.
    + constructor; [done|]. destruct keys as [|k keys]; constructor.
      by apply (Hhd _ k).
    + intros p k -> [= <-]. destruct (compareOrderKey p _); done.
  - intros (keys & Hk & Hnd & Hs & Hsorted & Hhd). res_inv.
    inversion Hnd as [|? ? Hnin Hnd']; subst. apply Sorted_inv in Hsorted as [Hsorted Hhdrel].
    exists tt. split.
    { destruct previous as [p|]; [|done]. specialize (Hhd p key eq_refl eq_refl).
      by destruct (compareOrderKey p _). }
    exists a. split_and!; [done..| | |].
    + intros k Hin [Heq|Hk']%elem_of_cons.
      * apply Hnin. rewrite <- Heq. apply list_elem_of_In, in_map_iff. exists k.
        by rewrite <- list_elem_of_In.
      * apply (Hs k); [by right|done].
    + done.
    + intros p k [= <-] Hh. destruct a as [|k' a]; simplify_eq/=. by inversion Hhdrel.
Qed.

Lemma validateCollection_spec items :
  validateCollection items policy = Ok tt ↔
  ∃ keys, mapR (collectionKeyFor policy) items = Ok keys ∧
    NoDup (map (λ k, encodeOrderKey (key_unique k)) keys) ∧ Sorted key_ordered keys.
Proof.
  assert (validateCollection items policy = validate_items policy [] None items) as ->
    by (destruct policy; done).
  rewrite validate_items_spec. split.
  - intros (keys & ? & ? & _ & ? & _). eauto.
  - intros (keys & ? & ? & ?). exists keys. split_and!; try done.
    by intros ? _ ?%elem_of_nil.
Qed.

(** The key of an item, when it has one. *)
Definition key_of (item : Value) : option collectionKey :=
  match collectionKeyFor policy item with Ok k => Some k | Err _ => None end.

Definition item_ordered (x y : Value) : Prop :=
  ∃ kx ky, key_of x = Some kx ∧ key_of y = Some ky ∧ key_ordered kx ky.

Lemma key_of_norm x k : key_of x = Some k → key_norm shape (key_parts k).
Proof.
  unfold key_of. destruct (collectionKeyFor policy x) eqn:Hk; [|done]. intros [= <-].
  by eapply collectionKeyFor_shape.
Qed.

#[local] Instance item_ordered_trans : Transitive item_ordered.
Proof.
  intros x y z (kx & ky & Hx & Hy & Hxy) (ky' & kz & Hy' & Hz & Hyz). simplify_eq.
  exists kx, kz. split_and!; [done..|]. unfold key_ordered in *.
  apply key_of_norm in Hx, Hy, Hz. destruct (compareOrderKey_laws shape) as [Lr Le Lf Lt].
  destruct (compareOrderKey (key_parts kx) (key_parts ky)) eqn:H1; [| |done].
  { apply Le in H1 as ->; done. }
  destruct (compareOrderKey (key_parts ky) (key_parts kz)) eqn:H2; [| |done].
  { apply Le in H2 as <-; [|done..]. by rewrite H1. }
  by rewrite (Lt _ (key_parts ky)).
Qed.

Lemma keys_sorted items keys :
  mapR (collectionKeyFor policy) items = Ok keys → Sorted key_ordered keys →
  Sorted item_ordered items.
Proof.
  revert keys; induction items as [|x items IH]; intros keys Hk Hs; [constructor|].
  simpl in Hk. res_inv. apply Sorted_inv in Hs as [Hs Hhd].
  constructor; [by eapply IH|]. destruct items as [|y items]; [constructor|].
  simpl in H0. res_inv. inversion Hhd; subst. constructor.
  exists a, a1. unfold key_of. by rewrite H, H1.
Qed.

Lemma keys_of_items items keys :
  mapR (collectionKeyFor policy) items = Ok keys → map key_of items = map Some keys.
Proof.
  revert keys; induction items as [|x items IH]; intros keys Hk; simpl in Hk; res_inv; [done|].
  simpl. unfold key_of at 1. rewrite H. by f_equal; apply IH.
Qed.

Lemma item_ordered_antisym items keys x y :
  mapR (collectionKeyFor policy) items = Ok keys →
  NoDup (map (λ k, encodeOrderKey (key_unique k)) keys) →
  x ∈ items → y ∈ items → item_ordered x y → item_ordered y x → x = y.
Proof.
  intros Hk Hnd Hx Hy (kx & ky & Hkx & Hky & Hxy) (ky' & kx' & Hky' & Hkx' & Hyx). simplify_eq.
  set (f := λ i, (λ k, encodeOrderKey (key_unique k)) <$> key_of i).
  apply (NoDup_fmap_inj f items); [|done..|].
  - apply keys_of_items in Hk.
    assert (f <$> items = Some <$> map (λ k, encodeOrderKey (key_unique k)) keys) as ->.
    { clear -Hk. revert keys Hk. unfold f. induction items as [|i items IH]; intros [|k keys] Hk;
        simplify_eq/=; [done|]. f_equal; [|by apply IH]. by match goal with H : key_of _ = _ |- _ => rewrite H end. }
    apply NoDup_fmap; [apply _|done].
  - unfold f. rewrite Hkx, Hky. simpl. do 2 f_equal.
    assert (key_parts kx = key_parts ky) as Hparts.
    { destruct (compareOrderKey_laws shape) as [_ Le Lf _]. unfold key_ordered in *.
      pose proof (key_of_norm _ _ Hkx). pose proof (key_of_norm _ _ Hky).
      apply Le; [done..|]. rewrite Lf in Hyx by done.
      by destruct (compareOrderKey (key_parts kx) (key_parts ky)). }
    unfold key_of in *. destruct (collectionKeyFor policy x) eqn:Hcx; [|done].
    destruct (collectionKeyFor policy y) eqn:Hcy; [|done]. simplify_eq/=.
    apply (collectionKeyFor_shape _ _ _ _ _ Hshape) in Hcx as (_ & _ & ->), Hcy as (_ & _ & ->).
    by rewrite Hparts.
Qed.

Lemma validateCollection_unique_order items1 items2 :
  items1 ≡ₚ items2 → validateCollection items1 policy = Ok tt →
  validateCollection items2 policy = Ok tt → items1 = items2.
Proof.
  rewrite !validateCollection_spec.
  intros Hp (keys1 & Hk1 & Hnd1 & Hs1) (keys2 & Hk2 & Hnd2 & Hs2).
  apply (StronglySorted_unique_strong item_ordered); [| | |done].
  - intros x y Hx Hy. rewrite <- Hp in Hy. exact (item_ordered_antisym _ _ _ _ Hk1 Hnd1 Hx Hy).
  - apply Sorted_StronglySorted; [apply _|exact (keys_sorted _ _ Hk1 Hs1)].
  - apply Sorted_StronglySorted; [apply _|exact (keys_sorted _ _ Hk2 Hs2)].
Qed.
End collection.

(** ** Properties *)

(** an ordered collection has one canonical order: two lists with the same
    items that both pass [validateCollection] under a policy with a sort key
    are the same list. *)
Theorem validateCollection_canonical policy items1 items2 :
  policy ≠ collectionNone → policy ≠ collectionAllocatedNodeID →
  items1 ≡ₚ items2 →
  validateCollection items1 policy = Ok tt → validateCollection items2 policy = Ok tt →
  items1 = items2.
Proof.
  intros Hn Ha Hp. destruct (policy_shape policy) as [[shape ulen]|] eqn:Hs.
  - by eapply validateCollection_unique_order.
  - by destruct policy.
Qed.

Lemma validateCollection_canonical_witness :
  [VUnsigned 3; VUnsigned 7] = [VUnsigned 3; VUnsigned 7].
Proof.
  apply (validateCollection_canonical collectionUnsigned); [discriminate|discriminate|reflexivity|
    vm_compute; reflexivity|vm_compute; reflexivity].
Defined.

(** What [validateCollection] accepts under a policy with a sort key:
    every item has a key, the keys ascend (equal sort keys allowed), and no
    two items share a uniqueness key. *)
Theorem validateCollection_accepts policy items :
  policy ≠ collectionNone → policy ≠ collectionAllocatedNodeID →
  validateCollection items policy = Ok tt ↔
  ∃ keys, mapR (collectionKeyFor policy) items = Ok keys ∧
    NoDup (map (λ k, encodeOrderKey (key_unique k)) keys) ∧ Sorted key_ordered keys.
Proof.
  intros Hn Ha. destruct (policy_shape policy) as [[shape ulen]|] eqn:Hs.
  - by eapply validateCollection_spec.
  - by destruct policy.
Qed.

Lemma validateCollection_accepts_witness :
  ∃ keys, mapR (collectionKeyFor collectionUnsigned) [VUnsigned 3; VUnsigned 7] = Ok keys ∧
    NoDup (map (λ k, encodeOrderKey (key_unique k)) keys) ∧ Sorted key_ordered keys.
Proof.
  apply (validateCollection_accepts collectionUnsigned [VUnsigned 3; VUnsigned 7]);
    [discriminate|discriminate|vm_compute; reflexivity].
Defined.
