(* ===== verification/AuditRegistry.v ===== *)
(** * The metadata-v1 record registry (internal/audit/registry.go)

    The record kinds the audited history may contain, the shape each kind
    must have, and [Validate] and [Encode].

    What [Validate] accepts, exactly, and that whatever it accepts can be
    encoded. *)
From S2P Require Import Prelude GoText AuditEncoding AuditOrdering.

Inductive schemaType :=
  | typeAbsent | typeBool | typeUnsigned | typeSigned | typeBytes | typeText
  | typeTimestamp | typeUUID | typeDigest | typeList | typeRecord.

#[export] Instance schemaType_eq_dec : EqDecision schemaType.
Proof. solve_decision. Defined.

(** The [listElement] pointer is an option. *)
Inductive valueRule := MkRule {
  typeOf : schemaType;
  is_optional : bool;
  textValues : list string;
  recordKinds : list string;
  listElement : option valueRule;
  listPolicy : collectionPolicy;
}.

Record fieldRule := MkField { field_name : string; field_rule : valueRule }.
Record recordSchema := MkSchema { schema_fields : list fieldRule }.

Definition simple (t : schemaType) : valueRule := MkRule t false [] [] None collectionNone.

Definition mk_optional (rule : valueRule) : valueRule :=
  MkRule (typeOf rule) true (textValues rule) (recordKinds rule) (listElement rule)
    (listPolicy rule).

Definition field (name : string) (rule : valueRule) : fieldRule := MkField name rule.
Definition schema (fields : list fieldRule) : recordSchema := MkSchema fields.

Definition textEnum (values : list string) : valueRule :=
  MkRule typeText false values [] None collectionNone.
Definition recordOf (kinds : list string) : valueRule :=
  MkRule typeRecord false [] kinds None collectionNone.
Definition listOf (element : valueRule) : valueRule :=
  MkRule typeList false [] [] (Some element) collectionNone.
Definition orderedListOf (element : valueRule) (policy : collectionPolicy) : valueRule :=
  let rule := listOf element in
  MkRule (typeOf rule) (is_optional rule) (textValues rule) (recordKinds rule)
    (listElement rule) policy.

Definition absentRule := simple typeAbsent.
Definition boolRule := simple typeBool.
Definition unsignedRule := simple typeUnsigned.
Definition bytesRule := simple typeBytes.
Definition textRule := simple typeText.
Definition timestampRule := simple typeTimestamp.
Definition uuidRule := simple typeUUID.
Definition digestRule := simple typeDigest.
Definition optionalUnsigned := mk_optional unsignedRule.
Definition optionalBytes := mk_optional bytesRule.
Definition optionalText := mk_optional textRule.
Definition optionalTimestamp := mk_optional timestampRule.
Definition optionalUUID := mk_optional uuidRule.
Definition optionalDigest := mk_optional digestRule.

Definition attachedRecordRule : valueRule :=
  recordOf ["ingest"; "provenance"; "tag_assignment"; "tag_definition";
    "derivative_purge_suppression"].
Definition attachedIdentityRule : valueRule :=
  recordOf ["ingest_identity"; "provenance_identity_ref"; "tag_assignment_identity";
    "tag_definition_identity"; "derivative_purge_suppression_identity"].
Definition eventAttachmentIdentityRule : valueRule :=
  recordOf ["provenance_identity_ref"; "tag_assignment_identity"; "tag_definition_identity"].
Definition attachedRecordKindRule : valueRule :=
  textEnum ["ingest"; "provenance"; "tag_assignment"; "tag_definition";
    "derivative_purge_suppression"].
Definition eventPayloadRule : valueRule :=
  recordOf ["content_version"; "path_state"; "provenance"; "tag_assignment";
    "tag_definition"; "topology_node"].
Definition eventKindRule : valueRule :=
  textEnum ["audit_enroll"; "audit_inherit"; "content_create"; "content_replace";
    "content_revert"; "node_create"; "node_path"; "provenance_add"; "provenance_supersede";
    "tag_assign"; "tag_define"; "tag_delete"; "tag_rename"; "tag_unassign"].
Definition originRule : valueRule := textEnum ["api"; "cli"; "import"; "job"].

Definition recordSchemas_state : list (string * recordSchema) := [
  ("unknown_origin", schema [
    field "node_id" unsignedRule;
    field "parent_id" absentRule;
    field "name" optionalBytes]);
  ("known_origin", schema [
    field "node_id" unsignedRule;
    field "parent_id" unsignedRule;
    field "name" bytesRule]);
  ("topology_node", schema [
    field "node_id" unsignedRule;
    field "parent_id" optionalUnsigned;
    field "name" bytesRule;
    field "node_kind" (textEnum ["file"; "dir"]);
    field "state" (textEnum ["live"; "trash"; "tombstone"]);
    field "origin" (mk_optional (recordOf ["known_origin"; "unknown_origin"]));
    field "created_at" timestampRule;
    field "modified_at" timestampRule;
    field "trashed_at" optionalTimestamp]);
  ("content_version", schema [
    field "version_id" uuidRule;
    field "node_id" unsignedRule;
    field "blob_hash" digestRule;
    field "size" unsignedRule;
    field "media_type" optionalText;
    field "recorded_at" timestampRule;
    field "node_revision" unsignedRule;
    field "introduced_operation_id" uuidRule;
    field "transition_kind" (textEnum ["content_create"; "content_replace"; "content_revert"]);
    field "source_version_id" optionalUUID]);
  ("tag_definition", schema [
    field "tag_id" uuidRule;
    field "name" textRule]);
  ("tag_assignment", schema [
    field "tag_id" uuidRule;
    field "node_id" unsignedRule]);
  ("derivative_purge_suppression", schema [
    field "source_sha256" digestRule;
    field "profile_fingerprint" digestRule;
    field "build_id" digestRule;
    field "purged_at" timestampRule;
    field "active" boolRule;
    field "superseded_at" optionalTimestamp;
    field "superseding_build_id" optionalDigest]);
  ("derivative_purge_suppression_identity", schema [
    field "source_sha256" digestRule;
    field "profile_fingerprint" digestRule;
    field "build_id" digestRule]);
  ("ingest", schema [
    field "ingest_id" uuidRule;
    field "started_at" timestampRule;
    field "source_kind" textRule;
    field "source_desc" bytesRule]);
  ("provenance_identity", schema [
    field "node_id" unsignedRule;
    field "ingest_id" uuidRule;
    field "original_path" optionalBytes;
    field "original_mtime" optionalTimestamp;
    field "supersedes" optionalDigest]);
  ("provenance", schema [
    field "identity" digestRule;
    field "node_id" unsignedRule;
    field "ingest_id" uuidRule;
    field "original_path" optionalBytes;
    field "original_mtime" optionalTimestamp;
    field "supersedes" optionalDigest])
].

Definition recordSchemas_events : list (string * recordSchema) := [
  ("tag_definition_identity", schema [
    field "tag_id" uuidRule]);
  ("tag_assignment_identity", schema [
    field "tag_id" uuidRule;
    field "node_id" unsignedRule]);
  ("ingest_identity", schema [
    field "ingest_id" uuidRule]);
  ("provenance_identity_ref", schema [
    field "identity" digestRule]);
  ("event_identity", schema [
    field "operation_id" uuidRule;
    field "event_ordinal" unsignedRule]);
  ("member_state", schema [
    field "node_id" unsignedRule;
    field "node_revision" unsignedRule;
    field "current_version_id" optionalUUID]);
  ("member_state_change", schema [
    field "node_id" unsignedRule;
    field "prior_revision" unsignedRule;
    field "resulting_revision" unsignedRule;
    field "prior_current_version_id" optionalUUID;
    field "resulting_current_version_id" optionalUUID]);
  ("witnessed_state", schema [
    field "node" (recordOf ["topology_node"])]);
  ("witness", schema [
    field "node_id" unsignedRule;
    field "generation_operation_id" uuidRule;
    field "state_digest" digestRule]);
  ("baseline_binding", schema [
    field "scope_id" uuidRule;
    field "target_node_id" unsignedRule;
    field "baseline_digest" digestRule]);
  ("topology_change", schema [
    field "node_id" unsignedRule;
    field "pre" (mk_optional (recordOf ["topology_node"]));
    field "post" (mk_optional (recordOf ["topology_node"]))]);
  ("path_state", schema [
    field "path" bytesRule;
    field "state" (textEnum ["live"; "trash"; "tombstone"])]);
  ("path_effect", schema [
    field "scope_id" uuidRule;
    field "member_node_id" unsignedRule;
    field "old" (recordOf ["path_state"]);
    field "new" (recordOf ["path_state"])]);
  ("witness_change", schema [
    field "node_id" unsignedRule;
    field "generation_operation_id" uuidRule;
    field "action" (textEnum ["create"; "retire"]);
    field "state_digest" optionalDigest]);
  ("attached_metadata_change", schema [
    field "record_kind" attachedRecordKindRule;
    field "stable_identity" attachedIdentityRule;
    field "pre" (mk_optional attachedRecordRule);
    field "post" (mk_optional attachedRecordRule)]);
  ("audit_event", schema [
    field "event_id" digestRule;
    field "operation_id" uuidRule;
    field "node_id" unsignedRule;
    field "event_kind" eventKindRule;
    field "scope_id" uuidRule;
    field "target_node_id" optionalUnsigned;
    field "attachment_kind" (mk_optional (textEnum ["provenance"; "tag_assignment"; "tag_definition"]));
    field "attachment_identity" (mk_optional eventAttachmentIdentityRule);
    field "source_version_id" optionalUUID;
    field "event_ordinal" unsignedRule;
    field "recorded_at" timestampRule;
    field "prior_node_revision" unsignedRule;
    field "resulting_node_revision" unsignedRule;
    field "prior_current_version_id" optionalUUID;
    field "resulting_current_version_id" optionalUUID;
    field "origin" originRule;
    field "agent_label" optionalText;
    field "pre" (mk_optional eventPayloadRule);
    field "post" (mk_optional eventPayloadRule);
    field "topology_delta" optionalDigest;
    field "baseline_digest" optionalDigest])
].

Definition recordSchemas_evidence : list (string * recordSchema) := [
  ("enrollment_baseline", schema [
    field "vault_id" uuidRule;
    field "scope_id" uuidRule;
    field "target_node_id" unsignedRule;
    field "operation_id" uuidRule;
    field "cause" textRule;
    field "members" (orderedListOf unsignedRule collectionUnsigned);
    field "member_states" (orderedListOf (recordOf ["member_state"]) collectionNodeID);
    field "nodes" (orderedListOf (recordOf ["topology_node"]) collectionNodeID);
    field "versions" (orderedListOf (recordOf ["content_version"]) collectionVersion);
    field "attachments" (orderedListOf attachedRecordRule collectionAttachedRecord);
    field "witnesses" (orderedListOf (recordOf ["witness"]) collectionWitness)]);
  ("topology_genesis", schema [
    field "vault_id" uuidRule;
    field "lineage_id" uuidRule;
    field "nodes" (orderedListOf (recordOf ["topology_node"]) collectionNodeID)]);
  ("attached_metadata_genesis", schema [
    field "vault_id" uuidRule;
    field "lineage_id" uuidRule;
    field "records" (orderedListOf attachedRecordRule collectionAttachedRecord)]);
  ("topology_delta", schema [
    field "operation_id" uuidRule;
    field "changes" (orderedListOf (recordOf ["topology_change"]) collectionTopologyChange)]);
  ("path_effect_list", schema [
    field "operation_id" uuidRule;
    field "topology_delta" digestRule;
    field "effects" (orderedListOf (recordOf ["path_effect"]) collectionPathEffect)]);
  ("witness_change_list", schema [
    field "operation_id" uuidRule;
    field "changes" (orderedListOf (recordOf ["witness_change"]) collectionWitnessChange)]);
  ("attached_metadata_delta", schema [
    field "operation_id" uuidRule;
    field "changes" (orderedListOf (recordOf ["attached_metadata_change"]) collectionAttachedChange)]);
  ("event", schema [
    field "event" (recordOf ["audit_event"])]);
  ("canonical_mutation", schema [
    field "vault_id" uuidRule;
    field "operation_sequence" unsignedRule;
    field "operation_id" uuidRule;
    field "grouping_id" optionalUUID;
    field "recorded_at" timestampRule;
    field "origin" originRule;
    field "agent_label" optionalText;
    field "events" (orderedListOf (recordOf ["audit_event"]) collectionEvent);
    field "member_state_changes" (orderedListOf (recordOf ["member_state_change"]) collectionNodeID);
    field "baselines" (orderedListOf (recordOf ["baseline_binding"]) collectionBaselineBinding);
    field "topology_delta" optionalDigest;
    field "path_effect_count" unsignedRule;
    field "path_effect_digest" optionalDigest;
    field "witness_change_count" unsignedRule;
    field "witness_change_digest" optionalDigest;
    field "attached_metadata_change_count" unsignedRule;
    field "attached_metadata_change_digest" optionalDigest]);
  ("scope_chain_entry", schema [
    field "vault_id" uuidRule;
    field "scope_id" uuidRule;
    field "entry_count" unsignedRule;
    field "previous_head" optionalDigest;
    field "mutation_hash" digestRule]);
  ("allocation_genesis", schema [
    field "vault_id" uuidRule;
    field "lineage_id" uuidRule;
    field "previous_head" optionalDigest;
    field "node_id_high_water" unsignedRule;
    field "operation_sequence_high_water" unsignedRule;
    field "topology_count" unsignedRule;
    field "topology_digest" digestRule;
    field "attached_metadata_count" unsignedRule;
    field "attached_metadata_digest" digestRule]);
  ("allocation_entry", schema [
    field "vault_id" uuidRule;
    field "lineage_id" uuidRule;
    field "previous_head" digestRule;
    field "operation_sequence" unsignedRule;
    field "operation_id" uuidRule;
    field "allocated_node_ids" (orderedListOf unsignedRule collectionAllocatedNodeID);
    field "node_id_high_water" unsignedRule;
    field "operation_sequence_high_water" unsignedRule;
    field "has_audited_mutation" boolRule;
    field "mutation_hash" optionalDigest;
    field "has_topology_change" boolRule;
    field "topology_delta" optionalDigest;
    field "has_witness_change" boolRule;
    field "witness_change_count" unsignedRule;
    field "witness_change_digest" optionalDigest;
    field "has_attached_metadata_change" boolRule;
    field "attached_metadata_change_count" unsignedRule;
    field "attached_metadata_change_digest" optionalDigest]);
  ("preview_token", schema [
    field "secret" bytesRule;
    field "vault_id" uuidRule;
    field "scope_id" uuidRule;
    field "target_node_id" unsignedRule;
    field "baseline_digest" digestRule;
    field "preview_generation" unsignedRule;
    field "operation_id" uuidRule;
    field "lineage_id" uuidRule;
    field "topology_genesis_digest" optionalDigest;
    field "attached_metadata_genesis_digest" optionalDigest])
].

Definition recordSchemas : list (string * recordSchema) :=
  recordSchemas_state ++ recordSchemas_events ++ recordSchemas_evidence.

(** Map lookup in [recordSchemas]. *)
Definition lookup_schema (kind : string) : option recordSchema :=
  snd ∘ snd <$> list_find (λ s : string * recordSchema, s.1 = kind) recordSchemas.

(** ** Validation *)

Definition acceptsKind (rule : valueRule) (value : Value) : bool :=
  match typeOf rule, value with
  | typeBool, (VFalse | VTrue) => true
  | typeUnsigned, VUnsigned _ => true
  | typeSigned, VSigned _ => true
  | typeBytes, VBytes _ => true
  | typeText, VText _ => true
  | typeTimestamp, VTimestamp _ => true
  | typeUUID, VUUID _ => true
  | typeDigest, VDigest _ => true
  | typeList, VList _ => true
  | typeRecord, VRecord _ _ => true
  | typeAbsent, VAbsent => true
  | _, _ => false
  end.

(** The first loop of [validateRecord]: the [provided] map. *)
Definition provide (provided : gmap string Value) (actual : Field) : ares (gmap string Value) :=
  _ ← check (validToken actual.1) AuditError;
  _ ← check (negb (bool_decide (is_Some (provided !! actual.1)))) AuditError;
  Ok (<[actual.1 := actual.2]> provided).

(** The second loop: each registered field is present, valid and removed. *)
Definition consume (validate : valueRule → Value → ares unit)
    (provided : gmap string Value) (expected : fieldRule) : ares (gmap string Value) :=
  actual ← from_lookup (provided !! field_name expected) AuditError;
  _ ← validate (field_rule expected) actual;
  Ok (delete (field_name expected) provided).

(** [validateRecord] after its depth check; [validate] is [validateValue] at
    the record's depth. *)
Definition validate_record_with (validate : valueRule → Value → ares unit)
    (kind : string) (fields : list Field) : ares unit :=
  schema ← from_lookup (lookup_schema kind) AuditError;
  provided ← foldM provide ∅ fields;
  rest ← foldM (consume validate) provided (schema_fields schema);
  check (bool_decide (rest = ∅)) AuditError.

Fixpoint for_each {A} (f : A → ares unit) (l : list A) : ares unit :=
  match l with
  | [] => Ok tt
  | a :: l => _ ← f a; for_each f l
  end.

(** As in [appendValue], [levels] is [maxValueDepth + 1 - depth].  A list rule
    always has an element rule ([listOf] is its only constructor); Go would
    dereference nil otherwise. *)
Fixpoint validateValue (levels : nat) (rule : valueRule) (value : Value) : ares unit :=
  match levels with
  | 0 => Err AuditError
  | S deeper =>
      match value with
      | VAbsent =>
          check (is_optional rule || bool_decide (typeOf rule = typeAbsent)) AuditError
      | _ =>
          _ ← check (negb (bool_decide (typeOf rule = typeAbsent))) AuditError;
          _ ← check (acceptsKind rule value) AuditError;
          match value with
          | VText data =>
              check (bool_decide (textValues rule = [])
                     || bool_decide (data ∈ bs <$> textValues rule)) AuditError
          | VList items =>
              element ← from_lookup (listElement rule) AuditError;
              _ ← for_each (validateValue deeper element) items;
              validateCollection items (listPolicy rule)
          | VRecord kind fields =>
              _ ← check (bool_decide (kind ∈ recordKinds rule)) AuditError;
              _ ← check (negb (deeper =? 0)%nat) AuditError;
              validate_record_with (validateValue deeper) kind fields
          | _ => Ok tt
          end
      end
  end.

Definition validateRecord (levels : nat) (record : AuditRecord) : ares unit :=
  _ ← check (negb (levels =? 0)%nat) AuditError;
  validate_record_with (validateValue levels) (Kind record) (Fields record).

Definition Validate (record : AuditRecord) : ares unit :=
  validateRecord (S maxValueDepth) record.

Definition Encode (record : AuditRecord) : ares bytes :=
  _ ← Validate record;
  encodeCanonical record.

(** * Facts about the record registry *)

Lemma for_each_Ok_iff {A} (f : A → ares unit) l :
  for_each f l = Ok tt ↔ ∀ a, a ∈ l → f a = Ok tt.
Proof.
  induction l as [|a l IH]; simpl; [set_solver|].
  rewrite bind_Ok_iff. setoid_rewrite IH. split.
  - intros ([] & Ha & Hl) b [->|Hb]%elem_of_cons; auto.
  - intros H. exists tt. split; [apply H; by left|]. intros; apply H; by right.
Qed.

Lemma union_insert_fresh {A} (m1 m2 : gmap string A) i x :
  m1 !! i = None → m1 ∪ <[i:=x]> m2 = <[i:=x]> m1 ∪ m2.
Proof. intros H. by rewrite <- insert_union_l, <- insert_union_r. Qed.

(** The [provided] map holds exactly the record's fields. *)
Lemma provide_Ok_iff fields (m m' : gmap string Value) :
  foldM provide m fields = Ok m' ↔
  Forall (λ n, validToken n = true) fields.*1 ∧ NoDup fields.*1 ∧
  (∀ n, n ∈ fields.*1 → m !! n = None) ∧ m' = list_to_map fields ∪ m.
Proof.
  revert m; induction fields as [|[n v] fields IH]; intros m; simpl.
  { rewrite (left_id ∅ (∪)). split; [intros [= ->]|intros (_ & _ & _ & ->); done].
    split_and!; [constructor|constructor|by intros ? ?%elem_of_nil|done]. }
  unfold provide at 1; simpl. rewrite bind_Ok_iff, Forall_cons, NoDup_cons.
  setoid_rewrite IH. split.
  - intros (m1 & Hm1 & HF & Hnd & Hfresh & ->).
    apply bind_Ok_iff in Hm1 as ([] & Hv & Hm1). apply bind_Ok_iff in Hm1 as ([] & H1 & Hm1).
    apply Ok_inj in Hm1 as <-. rewrite check_Ok_iff in Hv, H1.
    rewrite negb_true_iff, bool_decide_eq_false, <- eq_None_not_Some in H1.
    assert (n ∉ fields.*1) as Hn.
    { intros Hn. apply Hfresh in Hn. by rewrite lookup_insert_eq in Hn. }
    split_and!; try done.
    + intros k [->|Hk]%elem_of_cons; [done|]. apply Hfresh in Hk as Hk'.
      rewrite lookup_insert_ne in Hk'; [done|]. by intros <-.
    + by apply union_insert_fresh, not_elem_of_list_to_map_1.
  - intros ([Hv HF] & [Hn Hnd] & Hfresh & ->).
    exists (<[n:=v]> m). unfold provide; simpl. rewrite Hv, (Hfresh n) by by left. simpl.
    split_and!; try done.
    + intros k Hk. rewrite lookup_insert_ne by (intros ->; done). apply Hfresh. by right.
    + by symmetry; apply union_insert_fresh, not_elem_of_list_to_map_1.
Qed.

(** The registered fields are all present, valid, and removed. *)
Lemma consume_Ok_iff validate expected (m m' : gmap string Value) :
  foldM (consume validate) m expected = Ok m' ↔
  NoDup (field_name <$> expected) ∧
  (∀ e, e ∈ expected → ∃ v, m !! field_name e = Some v ∧ validate (field_rule e) v = Ok tt) ∧
  m' = filter (λ kv, kv.1 ∉ field_name <$> expected) m.
Proof.
  revert m; induction expected as [|e expected IH]; intros m; simpl.
  { rewrite map_filter_id by (intros; apply not_elem_of_nil).
    split; [intros [= ->]|by intros (_ & _ & ->)]. by split_and!; [constructor|set_solver|]. }
  unfold consume at 1; simpl. rewrite bind_Ok_iff, NoDup_cons. setoid_rewrite IH.
  assert (filter (λ kv : string * Value, kv.1 ∉ field_name <$> expected)
            (delete (field_name e) m) =
          filter (λ kv : string * Value, kv.1 ∉ field_name e :: (field_name <$> expected)) m)
    as Hfil.
  { apply map_eq; intros k. apply option_eq; intros v.
    rewrite !map_lookup_filter_Some, lookup_delete_Some. simpl. set_solver. }
  split.
  - intros (m1 & Hm1 & Hnd & He & ->).
    apply bind_Ok_iff in Hm1 as (v & Hv & Hm1). apply bind_Ok_iff in Hm1 as ([] & Hok & Hm1).
    apply Ok_inj in Hm1 as <-. apply from_lookup_Ok_iff in Hv.
    split_and!; [|done| |done].
    + intros Hin. apply list_elem_of_fmap in Hin as (e' & Hn & He').
      apply He in He' as (v' & Hv' & _). by rewrite <- Hn, lookup_delete_eq in Hv'.
    + intros e' [->|He']%elem_of_cons; [by eauto|].
      apply He in He' as (v' & Hv' & Hok'). apply lookup_delete_Some in Hv' as [_ Hv']. eauto.
  - intros ([Hn Hnd] & He & ->). destruct (He e) as (v & Hv & Hok); [by left|].
    exists (delete (field_name e) m). unfold consume; simpl. rewrite Hv. simpl. rewrite Hok. simpl.
    split_and!; try done. intros e' He'. destruct (He e') as (v' & Hv' & Hok'); [by right|].
    exists v'. rewrite lookup_delete_ne; [done|]. intros Heq. apply Hn. rewrite Heq.
    by apply list_elem_of_fmap_2.
Qed.

(** The declarative shape: the record's field names are the schema's, each
    once, and each value obeys its rule. *)
Definition has_shape (validate : valueRule → Value → ares unit)
    (kind : string) (fields : list Field) : Prop :=
  ∃ schema, lookup_schema kind = Some schema ∧
    fields.*1 ≡ₚ field_name <$> schema_fields schema ∧
    (∀ e v, e ∈ schema_fields schema → (field_name e, v) ∈ fields →
            validate (field_rule e) v = Ok tt).

(** Every registered kind and field name is a token, and no schema names a
    field twice. *)
Definition schema_sane (s : string * recordSchema) : bool :=
  validToken s.1 && bool_decide (NoDup (field_name <$> schema_fields s.2))
  && forallb (λ e, validToken (field_name e)) (schema_fields s.2).

Lemma recordSchemas_sane : forallb schema_sane recordSchemas = true.
Proof. vm_compute. reflexivity. Qed.

Lemma lookup_schema_sane kind s : lookup_schema kind = Some s → schema_sane (kind, s) = true.
Proof.
  unfold lookup_schema. intros Hl. apply fmap_Some in Hl as ([i [k s']] & Hf & ->).
  apply list_find_Some in Hf as (Hi & Hk & _). simpl in *. subst k.
  pose proof recordSchemas_sane as Hall. rewrite forallb_forall in Hall.
  apply Hall, list_elem_of_In, (list_elem_of_lookup_2 _ _ _ Hi).
Qed.

Lemma validate_record_with_iff validate kind fields :
  validate_record_with validate kind fields = Ok tt ↔ has_shape validate kind fields.
Proof.
  unfold validate_record_with, has_shape. rewrite bind_Ok_iff.
  apply exist_proper; intros schema. rewrite from_lookup_Ok_iff.
  split; intros [Hs H]; (split; [done|]); pose proof (lookup_schema_sane _ _ Hs) as Hsane;
    unfold schema_sane in Hsane; rewrite !andb_true_iff, bool_decide_eq_true in Hsane;
    destruct Hsane as [[_ Hnd] Htok]; simpl in *.
  - res_inv. apply provide_Ok_iff in H0 as (_ & Hndf & _ & ->).
    rewrite (right_id ∅ (∪)) in H1. apply consume_Ok_iff in H1 as (_ & Hall & ->).
    rewrite bool_decide_eq_true in H. split.
    + apply NoDup_Permutation; [done|done|]. intros n. split; intros Hn.
      * apply list_elem_of_fmap in Hn as ([n' v] & -> & Hn). simpl.
        destruct (decide (n' ∈ field_name <$> schema_fields schema)) as [|Hno]; [done|].
        assert (filter (λ kv : string * Value, kv.1 ∉ field_name <$> schema_fields schema)
                  (list_to_map fields : gmap string Value) !! n' = Some v) as Hf.
        { apply map_lookup_filter_Some. split; [by apply elem_of_list_to_map_1|done]. }
        by rewrite H, lookup_empty in Hf.
      * apply list_elem_of_fmap in Hn as (e & -> & He). apply Hall in He as (v & Hv & _).
        apply elem_of_list_to_map_2 in Hv. by apply (list_elem_of_fmap_2 fst) in Hv.
    + intros e v He Hv. destruct (Hall e He) as (v' & Hv' & Hok).
      apply (elem_of_list_to_map_1 (M:=gmap string)) in Hv; [|done].
      rewrite Hv in Hv'. by simplify_eq.
  - destruct H as [Hperm Hok].
    assert (NoDup fields.*1) as Hndf by (by rewrite Hperm).
    assert (foldM provide ∅ fields = Ok (list_to_map fields)) as ->.
    { apply provide_Ok_iff. split_and!; [|done| |by rewrite (right_id ∅ (∪))].
      - rewrite Hperm, Forall_fmap, Forall_forall. intros e He.
        rewrite forallb_forall in Htok. by apply Htok, list_elem_of_In.
      - intros; apply lookup_empty. }
    simpl. assert (∀ m', m' = filter (λ kv : string * Value,
        kv.1 ∉ field_name <$> schema_fields schema) (list_to_map fields : gmap string Value) →
      foldM (consume validate) (list_to_map fields) (schema_fields schema) = Ok m') as Hc.
    { intros m' ->. apply consume_Ok_iff. split_and!; [done| |done].
      intros e He. assert (field_name e ∈ fields.*1) as Hin.
      { rewrite Hperm. by apply list_elem_of_fmap_2. }
      apply list_elem_of_fmap in Hin as ([n v] & Hn & Hv). simpl in Hn. subst n.
      exists v. split; [by apply elem_of_list_to_map_1|eauto]. }
    rewrite (Hc ∅); [done|]. symmetry. apply map_empty; intros n.
    apply map_lookup_filter_None. right. intros v Hv%elem_of_list_to_map_2 Hno.
    apply Hno. simpl. rewrite <- Hperm. by apply (list_elem_of_fmap_2 fst) in Hv.
Qed.

Lemma mapR_total {E A B} (f : A → result E B) l :
  (∀ a, a ∈ l → is_Ok (f a) = true) → ∃ l', mapR f l = Ok l'.
Proof.
  induction l as [|a l IH]; intros H; simpl; [eauto|].
  destruct (f a) as [b|] eqn:Hb; [|specialize (H a); rewrite Hb in H; by discriminate H; left].
  destruct IH as [l' ->]; [intros; apply H; by right|]. simpl. eauto.
Qed.

Lemma append_shaped_record validate encode kind fields :
  has_shape validate kind fields →
  (∀ e f, f ∈ fields → validate (field_rule e) f.2 = Ok tt → is_Ok (encode f.2) = true) →
  ∃ b, append_record_with encode kind fields = Ok b.
Proof.
  intros (schema & Hs & Hperm & Hok) Henc.
  apply lookup_schema_sane in Hs. unfold schema_sane in Hs.
  rewrite !andb_true_iff, bool_decide_eq_true in Hs. destruct Hs as [[Hk Hnd] Htok].
  simpl in *. unfold append_record_with. rewrite Hk. simpl.
  assert (check_names None (sort_fields fields).*1 = Ok tt) as ->.
  { apply check_names_complete.
    - by rewrite sort_fields_perm, Hperm.
    - done.
    - rewrite sort_fields_perm, Hperm, Forall_fmap, Forall_forall. intros e He.
      rewrite forallb_forall in Htok. by apply Htok, list_elem_of_In. }
  simpl. destruct (mapR_total (λ f : Field, v ← encode f.2; Ok (appendFrame (bs f.1) ++ v))
    (sort_fields fields)) as [l ->]; [|simpl; eauto].
  intros [n v] Hf. rewrite sort_fields_perm in Hf. simpl.
  assert (n ∈ field_name <$> schema_fields schema) as Hn.
  { rewrite <- Hperm. by apply (list_elem_of_fmap_2 fst) in Hf. }
  apply list_elem_of_fmap in Hn as (e & -> & He).
  specialize (Henc e _ Hf (Hok e v He Hf)). simpl in Henc. by destruct (encode v).
Qed.

Lemma appendValue_validated levels rule v :
  validateValue levels rule v = Ok tt → value_wf v = true →
  is_Ok (appendValue levels v) = true.
Proof.
  revert rule v; induction levels as [|levels IH]; intros rule v Hv Hs; [done|].
  simpl in Hv. destruct v; try done.
  - simpl in Hs. simpl. by rewrite Hs.
  - simpl in Hs. simpl. by rewrite Hs.
  - res_inv. destruct a2. rewrite for_each_Ok_iff in H2. simpl in Hs.
    rewrite forallb_forall in Hs. simpl.
    destruct (mapR_total (appendValue levels) items) as [l ->]; [|done].
    intros v Hv'. eapply IH; [by apply H2|]. by apply Hs, list_elem_of_In.
  - res_inv. apply validate_record_with_iff in Hv. simpl in Hs.
    rewrite forallb_forall in Hs. simpl. rewrite H2. simpl.
    destruct (append_shaped_record _ (appendValue levels) _ _ Hv) as [b ->]; [|done].
    intros e f Hf Hok. eapply IH; [done|]. by apply (Hs f), list_elem_of_In.
Qed.

Lemma appendRecord_S n r :
  appendRecord (S n) r = append_record_with (appendValue (S n)) (Kind r) (Fields r).
Proof. done. Qed.

(** ** Properties *)

(** [Validate] accepts a record exactly when its kind is registered, its
    fields are a permutation of the registered ones (each once, none missing,
    none extra) and every field's value satisfies its registered rule. *)
Theorem Validate_iff_shape r :
  Validate r = Ok tt ↔ has_shape (validateValue (S maxValueDepth)) (Kind r) (Fields r).
Proof. apply validate_record_with_iff. Qed.

(** C28: every record [Validate] accepts can be encoded: no nested depth, token
    or duplicate-name failure of the encoder is left once validation passed,
    so [Encode] fails exactly on the records [Validate] rejects. *)
Theorem Encode_succeeds_iff_valid r :
  record_wf r = true →
  is_Ok (Encode r) = is_Ok (Validate r).
Proof.
  unfold record_wf. intros Hs. unfold Encode. destruct (Validate r) as [[]|] eqn:Hv; [|done]. simpl.
  apply validate_record_with_iff in Hv.
  unfold encodeCanonical. rewrite appendRecord_S.
  destruct (append_shaped_record _ (appendValue (S maxValueDepth)) _ _ Hv) as [b Hb].
  - intros e f Hf Hok. eapply appendValue_validated; [exact Hok|].
    rewrite forallb_forall in Hs. by apply (Hs f), list_elem_of_In.
  - by rewrite Hb.
Qed.

Definition sample_assignment : AuditRecord :=
  MkRecord "tag_assignment" [("tag_id", VUUID (repeat "007"%char 16)); ("node_id", Unsigned 7)].

Lemma Encode_succeeds_iff_valid_witness :
  is_Ok (Encode sample_assignment) = is_Ok (Validate sample_assignment)
  ∧ is_Ok (Validate sample_assignment) = true.
Proof.
  split; [apply Encode_succeeds_iff_valid; vm_compute; reflexivity|vm_compute; reflexivity].
Defined.
