(* ===== verification/Tables.v ===== *)
(** * The relational state of the store (internal/store/schema.sql)

    The tables the tree, tag and version operations read and write, and the
    SQL statement forms those operations use: insertion and update under the
    unique indexes of the schema, selection, and the cascade of a deletion.
    The database engine is SQLite; its statements are modelled by their
    documented meaning, one row at a time where a constraint is checked per
    row. *)
From S2P Require Import Prelude GoText Names.

(** ** Rows *)

Inductive node_kind := dir | file.
#[export] Instance node_kind_eq_dec : EqDecision node_kind.
Proof. solve_decision. Defined.

(** A row of [nodes]; the id is the table's key.  NULL is [None]. *)
Record node_row := MkNodeRow {
  parent_id : option Z;
  name : string;
  kind : node_kind;
  current_version_id : option string;
  revision : Z;
  created_at : string;
  modified_at : string;
  trashed_at : option string;
  trash_parent : option Z;
  trash_name : option string;
}.
#[export] Instance node_row_eq_dec : EqDecision node_row.
Proof. solve_decision. Defined.

Inductive transition := content_create | content_replace | content_revert.
#[export] Instance transition_eq_dec : EqDecision transition.
Proof. solve_decision. Defined.

(** A row of [content_versions], keyed by [version_id]. *)
Record version_row := MkVersionRow {
  v_node_id : Z;
  v_blob_hash : string;
  v_size : Z;
  v_mime_type : option string;
  v_recorded_at : string;
  v_node_revision : Z;
  v_operation_id : string;
  v_transition_kind : transition;
  v_source_version_id : option string;
}.
#[export] Instance version_row_eq_dec : EqDecision version_row.
Proof. solve_decision. Defined.

(** A row of [tags], keyed by [id]. *)
Record tag_row := MkTagRow { t_name : string; t_revision : Z }.
#[export] Instance tag_row_eq_dec : EqDecision tag_row.
Proof. solve_decision. Defined.

(** The tables.  [node_seq] is the AUTOINCREMENT counter of [nodes];
    [audit_active] says whether [audit_authority] has its row. *)
Record db := MkDb {
  nodes : gmap Z node_row;
  node_seq : Z;
  versions : gmap string version_row;
  checksums : gmap string string;
  tags : gmap string tag_row;
  node_tags : gset (Z * string);
  audit_active : bool;
}.

Definition with_nodes (d : db) (ns : gmap Z node_row) : db :=
  MkDb ns (node_seq d) (versions d) (checksums d) (tags d) (node_tags d) (audit_active d).

(** ** Unique indexes of [nodes] *)

(** [live_sibling_names]: NULL parents are distinct in a SQLite index. *)
Definition live_key (r : node_row) : option (Z * string) :=
  match trashed_at r, parent_id r with
  | None, Some p => Some (p, name r)
  | _, _ => None
  end.

(** Two rows that cannot coexist: same live key, or two NULL parents
    ([one_root]). *)
Definition clash (r s : node_row) : bool :=
  bool_decide (is_Some (live_key r) ∧ live_key r = live_key s)
  || bool_decide (parent_id r = None ∧ parent_id s = None).

Definition clashes (ns : gmap Z node_row) (i : Z) (r : node_row) : bool :=
  existsb (λ js : Z * node_row, negb (js.1 =? i)%Z && clash r js.2) (map_to_list ns).

(** ** Statements on [nodes]

    A statement that trips a unique index yields [None]; the whole statement
    is then undone. *)

(** [UPDATE nodes SET ... WHERE id = i] *)
Definition update_row (f : node_row → node_row) (i : Z) (ns : gmap Z node_row) :
    option (gmap Z node_row) :=
  match ns !! i with
  | None => Some ns
  | Some r => if clashes ns i (f r) then None else Some (<[i := f r]> ns)
  end.

Fixpoint update_rows (f : node_row → node_row) (ids : list Z) (ns : gmap Z node_row) :
    option (gmap Z node_row) :=
  match ids with
  | [] => Some ns
  | i :: ids => ns ← update_row f i ns; update_rows f ids ns
  end.

Definition matching (P : Z → node_row → bool) (ns : gmap Z node_row) : list Z :=
  fst <$> filter (λ ir : Z * node_row, P ir.1 ir.2 = true) (map_to_list ns).

(** [UPDATE nodes SET ... WHERE P]: the rows are chosen first, then changed
    one at a time. *)
Definition update_where (P : Z → node_row → bool) (f : node_row → node_row)
    (ns : gmap Z node_row) : option (gmap Z node_row) :=
  update_rows f (matching P ns) ns.

(** [INSERT INTO nodes]: the next AUTOINCREMENT id. *)
Definition insert_node (r : node_row) (d : db) : option (db * Z) :=
  let id := (node_seq d + 1)%Z in
  if clashes (nodes d) id r then None
  else Some (MkDb (<[id := r]> (nodes d)) id (versions d) (checksums d) (tags d)
               (node_tags d) (audit_active d), id).

(** Ids of the rows satisfying a condition (a SELECT without an order). *)
Definition select (P : node_row → bool) (ns : gmap Z node_row) : list Z :=
  matching (λ _, P) ns.

(** A recursive CTE over child links: the seed rows, then the children of the
    rows found, as long as they satisfy [P].  Every round descends one level,
    so as many rounds as there are rows suffice on a tree. *)
Fixpoint descend (P : node_row → bool) (ns : gmap Z node_row) (fuel : nat) (ids : list Z) :
    list Z :=
  match fuel with
  | 0 => []
  | S fuel =>
      match ids with
      | [] => []
      | _ => ids ++ descend P ns fuel
               (select (λ r, match parent_id r with
                             | Some p => bool_decide (p ∈ ids) && P r
                             | None => false
                             end) ns)
      end
  end.

Definition subtree (P : node_row → bool) (ns : gmap Z node_row) (id : Z) : list Z :=
  descend P ns (S (size ns)) (if bool_decide (is_Some (ns !! id)) then [id] else []).

Arguments subtree : simpl never.

(** The recursive CTE over parent links: the row of [id], then its parent's,
    up to the root. *)
Fixpoint ancestry (ns : gmap Z node_row) (fuel : nat) (id : Z) : list (Z * node_row) :=
  match fuel with
  | 0 => []
  | S fuel =>
      match ns !! id with
      | None => []
      | Some r =>
          (id, r) :: match parent_id r with Some p => ancestry ns fuel p | None => [] end
      end
  end.

(** The rows a [DELETE] of [ids] removes: the rows named and, by ON DELETE
    CASCADE on [parent_id], everything below them. *)
Definition doomed (ns : gmap Z node_row) (ids : list Z) : list Z :=
  descend (λ _, true) ns (S (size ns)) ids.

Arguments doomed : simpl never.

(** ON DELETE SET NULL on [trash_parent]. *)
Definition forget_origin (gone : list Z) (r : node_row) : node_row :=
  MkNodeRow (parent_id r) (name r) (kind r) (current_version_id r) (revision r)
    (created_at r) (modified_at r) (trashed_at r)
    (match trash_parent r with
     | Some p => if bool_decide (p ∈ gone) then None else Some p
     | None => None
     end) (trash_name r).

(** [DELETE FROM nodes WHERE id IN ids], with the foreign-key actions of
    [nodes], [content_versions] and [node_tags]. *)
Definition delete_nodes (ids : list Z) (d : db) : db :=
  let gone := doomed (nodes d) ids in
  MkDb (forget_origin gone <$> filter (λ ir, ir.1 ∉ gone) (nodes d)) (node_seq d)
    (filter (λ iv, v_node_id iv.2 ∉ gone) (versions d)) (checksums d) (tags d)
    (filter (λ nt, nt.1 ∉ gone) (node_tags d)) (audit_active d).

(** [LIMIT limit OFFSET offset] *)
Definition page {A} (limit offset : Z) (l : list A) : list A :=
  take (Z.to_nat limit) (drop (Z.to_nat offset) l).

(** ** Transactions *)

(** [withStorageTx]: the function runs on the current state; an error rolls
    the state back. *)
Definition withStorageTx {A} (fn : db → res (db * A)) (d : db) : db * res A :=
  match fn d with
  | Ok (d', a) => (d', Ok a)
  | Err e => (d, Err e)
  end.

(** [withLogicalTx] refuses to run once audit authority exists. *)
Definition withLogicalTx {A} (fn : db → res (db * A)) : db → db * res A :=
  withStorageTx (λ d, if audit_active d then Err ErrAuditMutationUnsupported else fn d).

(** ** Facts about the statements *)

Definition set_where (P : Z → node_row → bool) (f : node_row → node_row)
    (ns : gmap Z node_row) : gmap Z node_row :=
  map_imap (λ i r, Some (if P i r then f r else r)) ns.

Lemma lookup_set_where P f ns i :
  set_where P f ns !! i = (λ r, if P i r then f r else r) <$> ns !! i.
Proof. unfold set_where. rewrite map_lookup_imap. by destruct (ns !! i). Qed.

Lemma elem_of_matching P ns i :
  i ∈ matching P ns ↔ ∃ r, ns !! i = Some r ∧ P i r = true.
Proof.
  unfold matching. rewrite list_elem_of_fmap. setoid_rewrite list_elem_of_filter.
  setoid_rewrite elem_of_map_to_list'. split.
  - intros ([j r] & -> & ? & ?). simpl in *. eauto.
  - intros (r & ? & ?). by exists (i, r).
Qed.

Lemma NoDup_matching P ns : NoDup (matching P ns).
Proof.
  unfold matching. pose proof (NoDup_fst_map_to_list ns) as Hnd.
  induction (map_to_list ns) as [|a l IH]; [constructor|].
  apply NoDup_cons in Hnd as [Ha Hnd]. rewrite filter_cons. case_decide; [|by apply IH].
  rewrite fmap_cons. apply NoDup_cons. split; [|by apply IH].
  intros Hin. apply Ha. apply list_elem_of_fmap in Hin as (b & -> & Hb).
  apply list_elem_of_filter in Hb as [_ Hb]. by apply list_elem_of_fmap_2.
Qed.

Lemma clashes_false ns i r :
  clashes ns i r = false ↔ ∀ j s, ns !! j = Some s → j ≠ i → clash r s = false.
Proof.
  unfold clashes. rewrite <- not_true_iff_false, existsb_exists. split.
  - intros Hno j s Hj Hne. apply not_true_iff_false. intros Hc. apply Hno.
    exists (j, s). split; [by apply list_elem_of_In, elem_of_map_to_list|].
    simpl. rewrite Hc, andb_true_r, negb_true_iff. by apply Z.eqb_neq.
  - intros Hno ([j s] & Hin & Hc). apply list_elem_of_In, elem_of_map_to_list in Hin.
    simpl in Hc. apply andb_true_iff in Hc as [Hne Hc].
    apply negb_true_iff, Z.eqb_neq in Hne. rewrite (Hno j s) in Hc; done.
Qed.

Lemma clash_sym r s : clash r s = clash s r.
Proof.
  unfold clash. f_equal; apply bool_decide_ext; [|tauto].
  split; intros [[? H] Heq]; rewrite Heq in *; eauto.
Qed.

Lemma clash_true r s :
  clash r s = true ↔
  (∃ k, live_key r = Some k ∧ live_key s = Some k) ∨ (parent_id r = None ∧ parent_id s = None).
Proof.
  unfold clash. rewrite orb_true_iff, !bool_decide_eq_true. split.
  - intros [[[k Hk] Heq]|H]; [left|by right]. exists k. split; congruence.
  - intros [(k & Hr & Hs)|H]; [left|by right]. split; [by exists k|congruence].
Qed.

Lemma live_key_Some r p n :
  live_key r = Some (p, n) ↔ trashed_at r = None ∧ parent_id r = Some p ∧ name r = n.
Proof.
  unfold live_key. destruct (trashed_at r), (parent_id r); split; intros; destruct_and?;
    simplify_eq/=; auto.
Qed.

Lemma update_rows_Some f ids ns ns' :
  update_rows f ids ns = Some ns' → NoDup ids →
  ∀ i, ns' !! i = if bool_decide (i ∈ ids) then f <$> ns !! i else ns !! i.
Proof.
  revert ns; induction ids as [|j ids IH]; intros ns Hu Hnd i.
  { by injection Hu as <-. }
  apply NoDup_cons in Hnd as [Hj Hnd]. simpl in Hu.
  destruct (update_row f j ns) as [ns1|] eqn:H1; [|done]. simpl in Hu.
  rewrite (IH _ Hu Hnd i). unfold update_row in H1.
  destruct (ns !! j) as [r|] eqn:Hr.
  - destruct (clashes _ _ _); [done|]. injection H1 as <-.
    destruct (decide (i = j)) as [->|Hne].
    + rewrite lookup_insert_eq, Hr. rewrite (bool_decide_eq_false_2 (j ∈ ids)) by done.
      by rewrite bool_decide_eq_true_2 by (by left).
    + rewrite lookup_insert_ne by done. erewrite bool_decide_ext; [done|].
      rewrite elem_of_cons. naive_solver.
  - injection H1 as <-. destruct (decide (i = j)) as [->|Hne].
    + rewrite Hr. by repeat case_bool_decide.
    + erewrite bool_decide_ext; [done|]. rewrite elem_of_cons. naive_solver.
Qed.

(** A statement that succeeds changes exactly the chosen rows. *)
Lemma update_where_Some P f ns ns' :
  update_where P f ns = Some ns' → ns' = set_where P f ns.
Proof.
  intros Hu. apply map_eq. intros i. rewrite lookup_set_where.
  rewrite (update_rows_Some _ _ _ _ Hu (NoDup_matching P ns)).
  case_bool_decide as Hi; rewrite elem_of_matching in Hi.
  - destruct Hi as (r & -> & HP). simpl. by rewrite HP.
  - destruct (ns !! i) as [r|] eqn:Hr; [|done]. simpl.
    destruct (P i r) eqn:HP; [|done]. naive_solver.
Qed.

(** A statement succeeds when no changed row can clash with another row, in
    its old or in its new form. *)
Lemma update_where_ok P f ns :
  (∀ i j ri rj, i ≠ j → ns !! i = Some ri → ns !! j = Some rj → P i ri = true →
     clash (f ri) rj = false ∧ (P j rj = true → clash (f ri) (f rj) = false)) →
  update_where P f ns = Some (set_where P f ns).
Proof.
  intros Hno. destruct (update_where P f ns) as [ns'|] eqn:Hu.
  { by rewrite (update_where_Some _ _ _ _ Hu). }
  exfalso. revert Hu. unfold update_where.
  assert (∀ ids cur,
    (∀ i, i ∈ ids → ∃ r, ns !! i = Some r ∧ cur !! i = Some r ∧ P i r = true) → NoDup ids →
    (∀ j s, cur !! j = Some s → ∃ r, ns !! j = Some r ∧ (s = r ∨ (P j r = true ∧ s = f r))) →
    update_rows f ids cur ≠ None) as Hgen.
  { induction ids as [|i ids IH]; intros cur Hids Hnd Hcur; [done|].
    apply NoDup_cons in Hnd as [Hi Hnd]. simpl.
    destruct (Hids i) as (r & Hr & Hc & HP); [by left|]. unfold update_row. rewrite Hc.
    rewrite (proj2 (clashes_false cur i (f r))).
    - simpl. apply IH; [|done|].
      + intros k Hk. destruct (Hids k) as (rk & ? & ? & ?); [by right|].
        exists rk. rewrite lookup_insert_ne by (by intros ->). done.
      + intros j s Hj. apply lookup_insert_Some in Hj as [[<- <-]|[_ Hj]]; [eauto|auto].
    - intros j s Hj Hne. destruct (Hcur j s Hj) as (rj & Hrj & [->|[HPj ->]]);
        destruct (Hno i j r rj) as [Ha Hb]; auto. }
  apply Hgen; [|apply NoDup_matching|].
  - intros i Hi. apply elem_of_matching in Hi as (r & ? & ?). eauto.
  - eauto.
Qed.
