(* ===== verification/Tree.v ===== *)
(** * The virtual tree (internal/store/node.go, write.go)

    Reading nodes and paths, creating directories and files, and moving nodes.
    Every function named [...Tx] runs inside a transaction: it takes the state
    the transaction sees and returns the state it leaves. *)
From S2P Require Import Prelude GoText Names Tables.

(** ** Nodes *)

Record Node := MkNode {
  ID : Z;
  ParentID : option Z;
  Name : string;
  NodeKind : node_kind;
  CurrentVersionID : string;
  BlobHash : string;
  MD5 : string;
  Size : Z;
  MimeType : string;
  Revision : Z;
  CreatedAt : string;
  ModifiedAt : string;
  TrashedAt : option string;
}.

Definition IsDir (n : Node) : bool := bool_decide (NodeKind n = dir).

(** The left join of [nodeFrom]: the current version's row, if it belongs to
    the node. *)
Definition current_version (d : db) (id : Z) (r : node_row) : option version_row :=
  v ← current_version_id r;
  cv ← versions d !! v;
  if (v_node_id cv =? id)%Z then Some cv else None.

(** The columns of [nodeCols], with their COALESCE defaults. *)
Definition scanNode (d : db) (id : Z) (r : node_row) : Node :=
  let cv := current_version d id r in
  MkNode id (parent_id r) (name r) (kind r) (default "" (current_version_id r))
    (default "" (v_blob_hash <$> cv))
    (default "" (cv ← cv; checksums d !! v_blob_hash cv))
    (default 0%Z (v_size <$> cv)) (default "" (cv ← cv; v_mime_type cv))
    (revision r) (created_at r) (modified_at r) (trashed_at r).

Definition nodeByIDTx (d : db) (id : Z) : res Node :=
  r ← from_lookup (nodes d !! id) ErrNotFound;
  Ok (scanNode d id r).

Definition is_live (r : node_row) : bool := bool_decide (trashed_at r = None).

(** [WHERE parent_id = ? AND name = ? AND trashed_at IS NULL] *)
Definition live_child (p : Z) (nm : string) (r : node_row) : bool :=
  bool_decide (parent_id r = Some p) && bool_decide (name r = nm) && is_live r.

Definition childByName (d : db) (dirID : Z) (nm : string) : res Node :=
  id ← from_lookup (head (select (live_child dirID nm) (nodes d))) ErrNotFound;
  nodeByIDTx d id.

Definition liveDirTx (d : db) (id : Z) : res Node :=
  n ← nodeByIDTx d id;
  if bool_decide (TrashedAt n ≠ None) then Err ErrNotFound
  else if negb (IsDir n) then Err ErrNotDir
  else Ok n.

(** The result of a statement, with the error its failure is reported as. *)
Definition exec (d : db) (ns : option (gmap Z node_row)) (e : store_error) : res db :=
  from_lookup (with_nodes d <$> ns) e.

Definition is_id (id : Z) (i : Z) (r : node_row) : bool := (i =? id)%Z.

Definition bump (now : string) (r : node_row) : node_row :=
  MkNodeRow (parent_id r) (name r) (kind r) (current_version_id r) (revision r + 1)
    (created_at r) now (trashed_at r) (trash_parent r) (trash_name r).

Definition bumpRevisionTx (d : db) (id : Z) (now : string) : res db :=
  exec d (update_where (is_id id) (bump now) (nodes d)) ErrOther.

(** ** Paths *)

(** [COALESCE('/' || GROUP_CONCAT(name, '/'), '/')] over the ancestry, topmost
    first, without the root. *)
Definition pathOf (d : db) (id : Z) : string :=
  let rows := ancestry (nodes d) (S (size (nodes d))) id in
  let named := filter (λ ir : Z * node_row, parent_id ir.2 ≠ None) rows in
  let path := match reverse ((λ ir : Z * node_row, name ir.2) <$> named) with
              | [] => "/"
              | names => "/" +:+ Join names "/"
              end in
  if String.eqb path "/" || String.eqb path "" then "/" else path.

Section tree.
Context `{Normalizer} (rootID : Z).

Definition nodeByPath (d : db) (path : string) : res Node :=
  root ← nodeByIDTx d rootID;
  foldM (λ n seg, seg ← NormalizeName seg; childByName d (ID n) seg)
    root (splitPath path).

(** [NodeView]: the path is empty when the node is trashed. *)
Definition nodeViewForNode (d : db) (n : Node) : Node * string :=
  (n, match TrashedAt n with Some _ => "" | None => pathOf d (ID n) end).

Definition NodeViewByID (d : db) (id : Z) : res (Node * string) :=
  n ← nodeByIDTx d id; Ok (nodeViewForNode d n).

Definition NodeViewByPath (d : db) (path : string) : res (Node * string) :=
  n ← nodeByPath d path; Ok (nodeViewForNode d n).

Definition Path (d : db) (id : Z) : res string :=
  _ ← nodeByIDTx d id; Ok (pathOf d id).

(** ** Creating directories *)

Definition new_row (p : Z) (nm : string) (k : node_kind) (v : option string) (now : string) :
    node_row :=
  MkNodeRow (Some p) nm k v 1 now now None None None.

Definition mkdirTx (d : db) (parentID : Z) (nm recordedAt : string) : res (db * Node) :=
  _ ← liveDirTx d parentID;
  '(d, id) ← from_lookup (insert_node (new_row parentID nm dir None recordedAt) d) ErrExists;
  d ← bumpRevisionTx d parentID recordedAt;
  n ← nodeByIDTx d id;
  Ok (d, n).

End tree.

(** ** The audited variants

    Once [audit_authority] has its row, mutations take the audited path, which
    wraps the same tree operation between a membership check and the
    recording of evidence.  The evidence tables are not part of this model:
    the audited functions are the interface below, and the clients use no more
    of it than the law that it keeps the tree well formed. *)
Class AuditedTree := {
  loadAuditedNodeAuthority : db → Z → res unit;
  persistAuditedNodeCreation : db → Node → Node → Node → res db;
  moveAuditedTx : db → Z → Z → string → Z → res (db * Node);
  trashAuditedTx : db → Node → Z → res (db * Node * string);
  restoreAuditedTx : db → Node → Z → res (db * Node);
}.

(** A vault that refuses every audited mutation. *)
Definition refusing_audit : AuditedTree := {|
  loadAuditedNodeAuthority := λ _ _, Err ErrAuditMutationUnsupported;
  persistAuditedNodeCreation := λ _ _ _ _, Err ErrAuditMutationUnsupported;
  moveAuditedTx := λ _ _ _ _ _, Err ErrAuditMutationUnsupported;
  trashAuditedTx := λ _ _ _, Err ErrAuditMutationUnsupported;
  restoreAuditedTx := λ _ _ _, Err ErrAuditMutationUnsupported;
|}.

Section operations.
Context `{Normalizer} `{AuditedTree} (rootID : Z).

(** The value of [nowRFC3339()] is the argument [now]. *)
Definition mkdirNodeTx (d : db) (parentID : Z) (nm now : string) : res (db * Node) :=
  if negb (audit_active d) then mkdirTx d parentID nm now
  else
    priorParent ← liveDirTx d parentID;
    _ ← loadAuditedNodeAuthority d parentID;
    '(d, created) ← mkdirTx d parentID nm now;
    resultingParent ← nodeByIDTx d parentID;
    d ← persistAuditedNodeCreation d priorParent resultingParent created;
    Ok (d, created).

Definition MkdirWithPath (parentID : Z) (nm now : string) (d : db) :
    db * res (Node * string) :=
  match NormalizeName nm with
  | Err e => (d, Err e)
  | Ok nm =>
      withStorageTx (λ d,
        '(d, created) ← mkdirNodeTx d parentID nm now;
        Ok (d, (created, pathOf d (ID created)))) d
  end.

Definition Mkdir (parentID : Z) (nm now : string) (d : db) : db * res Node :=
  let '(d, r) := MkdirWithPath parentID nm now d in (d, fst <$> r).

Definition MkdirPath (path now : string) (d : db) : db * res (Node * string) :=
  let plan :=
    _ ← check (HasPrefix path "/") ErrInvalidName;
    segments ← mapR NormalizeName (splitPath path);
    nm ← from_lookup (last segments) ErrExists;
    Ok ("/" +:+ Join (removelast segments) "/", nm) in
  match plan with
  | Err e => (d, Err e)
  | Ok (parentPath, nm) =>
      withStorageTx (λ d,
        parent ← nodeByPath rootID d parentPath;
        '(d, created) ← mkdirNodeTx d (ID parent) nm now;
        Ok (d, (created, pathOf d (ID created)))) d
  end.

(** [EnsureDir] reads and writes in separate transactions; [env] is what
    other connections do to the store between them. *)
Definition EnsureDir (env : db → db) (parentID : Z) (nm now : string) (d : db) :
    db * res Node :=
  let as_dir (next : Node) : res Node := if IsDir next then Ok next else Err ErrNotDir in
  match NormalizeName nm with
  | Err e => (d, Err e)
  | Ok nm =>
      match childByName d parentID nm with
      | Ok next => (d, as_dir next)
      | Err ErrNotFound =>
          let '(d, created) := Mkdir parentID nm now (env d) in
          match created with
          | Ok n => (d, Ok n)
          | Err ErrExists =>
              let d := env d in
              (d, next ← childByName d parentID nm; as_dir next)
          | Err e => (d, Err e)
          end
      | Err e => (d, Err e)
      end
  end.

(** The loop of [MkdirAll] over the segments. *)
Fixpoint ensure_all (env : db → db) (n : Node) (now : string) (segs : list string) (d : db) :
    db * res Node :=
  match segs with
  | [] => (d, Ok n)
  | seg :: segs =>
      let '(d, r) := EnsureDir env (ID n) seg now d in
      match r with
      | Ok n => ensure_all env n now segs d
      | Err e => (d, Err e)
      end
  end.

Definition MkdirAll (env : db → db) (path now : string) (d : db) : db * res Node :=
  match nodeByIDTx d rootID with
  | Err e => (d, Err e)
  | Ok root => ensure_all env root now (splitPath path) d
  end.

(** ** Moving *)

(** [isAncestorTx]: the loop up the parent links from [cur]. *)
Fixpoint isAncestor_from (ns : gmap Z node_row) (fuel : nat) (maybeAncestor cur : Z) :
    res bool :=
  match fuel with
  | 0 => Err Diverges
  | S fuel =>
      if (cur =? maybeAncestor)%Z then Ok true
      else
        r ← from_lookup (ns !! cur) ErrOther;
        match parent_id r with
        | None => Ok false
        | Some p => isAncestor_from ns fuel maybeAncestor p
        end
  end.

Definition isAncestorTx (d : db) (maybeAncestor candidate : Z) : res bool :=
  isAncestor_from (nodes d) (S (size (nodes d))) maybeAncestor candidate.

Definition UnconditionalRev : Z := -1.

(** [ifRev != UnconditionalRev && n.Revision != ifRev] *)
Definition stale (ifRev rev : Z) : bool :=
  negb (ifRev =? UnconditionalRev)%Z && negb (rev =? ifRev)%Z.

Definition set_location (p : Z) (nm now : string) (r : node_row) : node_row :=
  MkNodeRow (Some p) nm (kind r) (current_version_id r) (revision r + 1)
    (created_at r) now (trashed_at r) (trash_parent r) (trash_name r).

Definition moveAtTx (d : db) (id newParentID : Z) (newName : string) (ifRev : Z)
    (recordedAt : string) : res (db * Node) :=
  _ ← check (negb (id =? rootID)%Z) ErrIsRoot;
  newName ← NormalizeName newName;
  n ← nodeByIDTx d id;
  _ ← check (bool_decide (TrashedAt n = None)) ErrNotFound;
  _ ← check (negb (stale ifRev (Revision n))) ErrStaleRevision;
  _ ← liveDirTx d newParentID;
  (* [*n.ParentID] dereferences a nil pointer on a parentless node *)
  oldParent ← from_lookup (ParentID n) ErrOther;
  if (oldParent =? newParentID)%Z && String.eqb (Name n) newName then Ok (d, n)
  else
    inCycle ← isAncestorTx d id newParentID;
    _ ← check (negb inCycle) ErrCycle;
    d ← exec d (update_where (is_id id) (set_location newParentID newName recordedAt) (nodes d))
          ErrExists;
    d ← bumpRevisionTx d oldParent recordedAt;
    d ← (if negb (newParentID =? oldParent)%Z
         then bumpRevisionTx d newParentID recordedAt else Ok d);
    n ← nodeByIDTx d id;
    Ok (d, n).

Definition moveTx (d : db) (id newParentID : Z) (newName : string) (ifRev : Z) (now : string) :
    res (db * Node) :=
  moveAtTx d id newParentID newName ifRev now.

(** The branch on [auditAuthorityActiveTx] the move handlers share. *)
Definition moveActiveTx (d : db) (id newParentID : Z) (newName : string) (ifRev : Z)
    (now : string) : res (db * Node) :=
  if audit_active d then moveAuditedTx d id newParentID newName ifRev
  else moveTx d id newParentID newName ifRev now.

Definition Move (id newParentID : Z) (newName : string) (ifRev : Z) (now : string) (d : db) :
    db * res (Node * string) :=
  withStorageTx (λ d,
    '(d, moved) ← moveActiveTx d id newParentID newName ifRev now;
    Ok (d, (moved, pathOf d (ID moved)))) d.

Definition resolveMoveTargetTx (d : db) (destPath keepName : string) : res (Z * string) :=
  segs ← mapR NormalizeName (splitPath destPath);
  match nodeByPath rootID d destPath with
  | Ok dest => if IsDir dest then Ok (ID dest, keepName) else Err ErrExists
  | Err ErrNotFound =>
      nm ← from_lookup (last segs) ErrExists;
      parent ← nodeByPath rootID d ("/" +:+ Join (removelast segs) "/");
      Ok (ID parent, nm)
  | Err e => Err e
  end.

Definition moveNodeToPathTx (d : db) (src : Node) (ifRev : Z) (destPath now : string) :
    res (db * (Node * string)) :=
  _ ← check (negb (ID src =? rootID)%Z) ErrIsRoot;
  '(newParentID, newName) ← resolveMoveTargetTx d destPath (Name src);
  '(d, moved) ← moveActiveTx d (ID src) newParentID newName ifRev now;
  Ok (d, (moved, pathOf d (ID moved))).

Definition MovePathRevision (srcPath destPath : string) (ifRev : Z) (now : string) (d : db) :
    db * res (Node * string) :=
  withStorageTx (λ d,
    src ← nodeByPath rootID d srcPath;
    moveNodeToPathTx d src ifRev destPath now) d.

Definition MovePath (srcPath destPath now : string) (d : db) : db * res (Node * string) :=
  MovePathRevision srcPath destPath UnconditionalRev now d.

Definition MoveToPath (id ifRev : Z) (destPath now : string) (d : db) :
    db * res (Node * string) :=
  withStorageTx (λ d,
    src ← nodeByIDTx d id;
    moveNodeToPathTx d src ifRev destPath now) d.

End operations.
