(* ===== verification/TreeInv.v ===== *)
(** * The tree invariant

    What every state of the node table reachable by the store's operations
    satisfies, and the lemmas that carry it through the statements. *)
From S2P Require Import Prelude GoText Names Tables Tree.

(** ** Ancestry *)

(** [anc ns i l]: [l] is the chain of ids from [i] up to a parentless node. *)
Inductive anc (ns : gmap Z node_row) : Z → list Z → Prop :=
  | anc_root i r : ns !! i = Some r → parent_id r = None → anc ns i [i]
  | anc_step i r p l :
      ns !! i = Some r → parent_id r = Some p → anc ns p l → anc ns i (i :: l).

Lemma anc_fun ns i l l' : anc ns i l → anc ns i l' → l = l'.
Proof.
  intros Hl. revert l'. induction Hl as [i r Hi Hp|i r p l Hi Hp Hl IH]; intros l' Hl'.
  - inversion Hl'; simplify_eq; done.
  - inversion Hl'; simplify_eq. f_equal. auto.
Qed.

Lemma anc_head ns i l : anc ns i l → ∃ t, l = i :: t.
Proof. destruct 1; eauto. Qed.

Lemma anc_in ns i l j : anc ns i l → j ∈ l → is_Some (ns !! j).
Proof.
  induction 1; intros Hj; apply elem_of_cons in Hj as [->|Hj]; eauto.
  by apply elem_of_nil in Hj.
Qed.

(** Every suffix of a chain is the chain of its head. *)
Lemma anc_suffix ns i l j : anc ns i l → j ∈ l → ∃ k t, l = k ++ j :: t ∧ anc ns j (j :: t).
Proof.
  induction 1 as [i r Hi Hp|i r p l Hi Hp Hl IH]; intros Hj.
  - apply list_elem_of_singleton in Hj as ->. exists [], []. split; [done|].
    by eapply anc_root.
  - apply elem_of_cons in Hj as [->|Hj].
    + exists [], l. split; [done|]. by eapply anc_step.
    + destruct (IH Hj) as (k & t & -> & Ht). by exists (i :: k), t.
Qed.

Lemma anc_NoDup ns i l : anc ns i l → NoDup l.
Proof.
  induction 1 as [i r Hi Hp|i r p l Hi Hp Hl IH]; [apply NoDup_singleton|].
  apply NoDup_cons. split; [|done]. intros Hin.
  destruct (anc_suffix _ _ _ _ Hl Hin) as (k & t & -> & Ht).
  pose proof (anc_fun _ _ _ _ Ht (anc_step _ _ _ _ _ Hi Hp Hl)) as Heq.
  apply (f_equal length) in Heq. simpl in Heq. rewrite length_app in Heq. simpl in Heq. lia.
Qed.

Lemma anc_length ns i l : anc ns i l → (length l ≤ size ns)%nat.
Proof.
  intros Hl. assert (list_to_set l ⊆ (dom ns : gset Z)) as Hsub.
  { intros j Hj. apply elem_of_list_to_set in Hj. apply elem_of_dom. by eapply anc_in. }
  apply subseteq_size in Hsub. rewrite size_dom in Hsub.
  by rewrite (size_list_to_set _ (anc_NoDup _ _ _ Hl)) in Hsub.
Qed.

(** Chains survive when no row on them changes its parent. *)
Lemma anc_keep ns ns' i l :
  anc ns i l →
  (∀ j r, j ∈ l → ns !! j = Some r → ∃ r', ns' !! j = Some r' ∧ parent_id r' = parent_id r) →
  anc ns' i l.
Proof.
  induction 1 as [i r Hi Hp|i r p l Hi Hp Hl IH]; intros Hk;
    destruct (Hk i r) as (r' & Hi' & Hp'); [by left|done| |by left|done|].
  - eapply anc_root; [done|congruence].
  - eapply anc_step; [done|by rewrite Hp'|]. apply IH. intros; apply Hk; [by right|done].
Qed.

(** Moving [id] below [p] keeps every chain, when [id] is not above [p]. *)
Lemma anc_reparent ns ns' id p lp :
  anc ns p lp → id ∉ lp →
  (∀ j r, ns !! j = Some r → ∃ r', ns' !! j = Some r' ∧
     parent_id r' = if decide (j = id) then Some p else parent_id r) →
  ∀ i l, anc ns i l → ∃ l', anc ns' i l'.
Proof.
  intros Hlp Hid Hns i l.
  assert (anc ns' p lp) as Hlp'.
  { eapply anc_keep; [done|]. intros j r Hj Hr. destruct (Hns j r Hr) as (r' & ? & Hp).
    rewrite decide_False in Hp by (by intros ->). eauto. }
  induction 1 as [i r Hi Hp|i r q l Hi Hp Hl [l' IH]];
    destruct (Hns i r Hi) as (r' & Hi' & Hp'); case_decide; subst;
    eauto using anc_root, anc_step.
  - eexists. eapply anc_root; [done|congruence].
  - eexists. eapply anc_step; [done|by rewrite Hp'|done].
Qed.

(** The executable walks follow the chain. *)
Lemma ancestry_anc ns i l fuel :
  anc ns i l → (length l ≤ fuel)%nat → (ancestry ns fuel i).*1 = l ∧
  Forall (λ ir, ns !! ir.1 = Some ir.2) (ancestry ns fuel i).
Proof.
  intros Hl. revert fuel.
  induction Hl as [i r Hi Hp|i r p l Hi Hp Hl IH]; intros [|fuel] Hf; simpl in *; try lia;
    rewrite Hi, Hp; simpl.
  - auto.
  - destruct (IH fuel) as [Hf1 Hf2]; [lia|]. split; [f_equal; exact Hf1|by constructor].
Qed.

Lemma isAncestor_from_anc ns m i l fuel :
  anc ns i l → (length l ≤ fuel)%nat →
  isAncestor_from ns fuel m i = Ok (bool_decide (m ∈ l)).
Proof.
  intros Hl. revert fuel.
  induction Hl as [i r Hi Hp|i r p l Hi Hp Hl IH]; intros [|fuel] Hf; simpl in *; try lia;
    (destruct (Z.eqb_spec i m) as [->|Hne]; [by rewrite bool_decide_eq_true_2 by (by left)|]);
    rewrite Hi; simpl; rewrite Hp.
  - rewrite bool_decide_eq_false_2; [done|]. rewrite list_elem_of_singleton. congruence.
  - rewrite IH by lia. f_equal. apply bool_decide_ext. rewrite elem_of_cons. naive_solver.
Qed.

(** ** The invariant *)

Section invariant.
Context `{Normalizer} (root : Z).

Record tree_wf (d : db) : Prop := {
  wf_root : ∃ r, nodes d !! root = Some r ∧ parent_id r = None ∧ kind r = dir ∧
                 trashed_at r = None ∧ name r = "";
  wf_only_root i r : nodes d !! i = Some r → parent_id r = None → i = root;
  (** parents exist and are directories *)
  wf_parent i r p : nodes d !! i = Some r → parent_id r = Some p →
    ∃ pr, nodes d !! p = Some pr ∧ kind pr = dir;
  (** no cycles: every node hangs below a parentless one *)
  wf_anc i : is_Some (nodes d !! i) → ∃ l, anc (nodes d) i l;
  (** a live node is no trash root and sits below a live one *)
  wf_live i r : nodes d !! i = Some r → trashed_at r = None → trash_name r = None;
  wf_live_parent i r p pr : nodes d !! i = Some r → trashed_at r = None →
    parent_id r = Some p → nodes d !! p = Some pr → trashed_at pr = None;
  (** a trashed node that is no trash root went with its parent *)
  wf_trashed i r st : nodes d !! i = Some r → trashed_at r = Some st → trash_name r = None →
    ∃ p pr, parent_id r = Some p ∧ nodes d !! p = Some pr ∧ trashed_at pr = Some st;
  (** a trash root is parked below the root *)
  wf_trash_root i r nm : nodes d !! i = Some r → trash_name r = Some nm →
    parent_id r = Some root;
  (** names are unique among the siblings that are not trash roots *)
  wf_unique i j r s p : nodes d !! i = Some r → nodes d !! j = Some s →
    parent_id r = Some p → parent_id s = Some p → name r = name s →
    trash_name r = None → trash_name s = None → i = j;
  wf_ids i : is_Some (nodes d !! i) → (0 < i ≤ node_seq d)%Z;
  wf_revision i r : nodes d !! i = Some r → (1 ≤ revision r)%Z;
  wf_kind i r : nodes d !! i = Some r → kind r = file ↔ is_Some (current_version_id r);
  wf_name i r : nodes d !! i = Some r → i ≠ root → canonical_name (name r);
  wf_trash_name i r nm : nodes d !! i = Some r → trash_name r = Some nm → canonical_name nm;
}.

Implicit Types d : db.

Lemma wf_anc_root d : tree_wf d → anc (nodes d) root [root].
Proof. intros Hwf. destruct (wf_root _ Hwf) as (r & ? & ? & _). by eapply anc_root. Qed.

(** Ancestors of a live node are live. *)
Lemma wf_anc_live d i r l j s :
  tree_wf d → nodes d !! i = Some r → trashed_at r = None → anc (nodes d) i l →
  j ∈ l → nodes d !! j = Some s → trashed_at s = None.
Proof.
  intros Hwf Hi Ht Hl. revert r Hi Ht.
  induction Hl as [i r' Hi' Hp|i r' p l Hi' Hp Hl IH]; intros r Hi Ht Hj Hs; simplify_eq.
  - apply list_elem_of_singleton in Hj as ->. congruence.
  - apply elem_of_cons in Hj as [->|Hj]; [congruence|].
    destruct (wf_parent _ Hwf i r' p) as (pr & Hpr & _); [done..|].
    eapply (IH pr); [done| |done|done]. by eapply (wf_live_parent _ Hwf i r' p pr).
Qed.

(** No two rows of a well-formed table violate a unique index. *)
Lemma wf_no_clash d i j r s :
  tree_wf d → i ≠ j → nodes d !! i = Some r → nodes d !! j = Some s → clash r s = false.
Proof.
  intros Hwf Hne Hi Hj. apply not_true_iff_false. rewrite clash_true.
  intros [([p nm] & Hr & Hs)|[Hr Hs]].
  - apply live_key_Some in Hr as (? & ? & ?), Hs as (? & ? & ?). apply Hne.
    eapply (wf_unique _ Hwf i j r s p); try done; [congruence|by eapply wf_live..].
  - apply Hne. rewrite (wf_only_root _ Hwf i r), (wf_only_root _ Hwf j s); done.
Qed.

(** ** Changes that leave the shape of the tree alone *)

Definition same_shape (r r' : node_row) : Prop :=
  parent_id r' = parent_id r ∧ name r' = name r ∧ kind r' = kind r ∧
  (is_Some (current_version_id r') ↔ is_Some (current_version_id r)) ∧
  trashed_at r' = trashed_at r ∧ trash_name r' = trash_name r ∧ (revision r ≤ revision r')%Z.

Lemma tree_wf_shape d d' :
  tree_wf d → node_seq d' = node_seq d →
  (∀ i r', nodes d' !! i = Some r' → ∃ r, nodes d !! i = Some r ∧ same_shape r r') →
  (∀ i, is_Some (nodes d !! i) → is_Some (nodes d' !! i)) →
  tree_wf d'.
Proof.
  intros Hwf Hseq Hback Hdom.
  assert (∀ i r, nodes d !! i = Some r → ∃ r', nodes d' !! i = Some r' ∧ same_shape r r') as Hfwd.
  { intros i r Hi. destruct (Hdom i) as [r' Hr']; [eauto|].
    destruct (Hback i r' Hr') as (r0 & ? & ?). simplify_eq. eauto. }
  split.
  - destruct (wf_root _ Hwf) as (r & Hr & ? & ? & ? & ?).
    destruct (Hfwd _ _ Hr) as (r' & ? & Hs). exists r'. destruct Hs as (? & ? & ? & ? & ? & ? & ?).
    split_and!; congruence.
  - intros i r' Hr' Hp. destruct (Hback _ _ Hr') as (r & Hr & Hs & _).
    eapply (wf_only_root _ Hwf); [done|congruence].
  - intros i r' p Hr' Hp. destruct (Hback _ _ Hr') as (r & Hr & Hs & _).
    destruct (wf_parent _ Hwf i r p) as (pr & Hpr & Hk); [done|congruence|].
    destruct (Hfwd _ _ Hpr) as (pr' & ? & _ & _ & ? & _). exists pr'. split; congruence.
  - intros i [r' Hr']. destruct (Hback _ _ Hr') as (r & Hr & _).
    destruct (wf_anc _ Hwf i) as [l Hl]; [eauto|]. exists l.
    eapply anc_keep; [done|]. intros j s _ Hj. destruct (Hfwd _ _ Hj) as (s' & ? & ? & _). eauto.
  - intros i r' Hr' Ht. destruct (Hback _ _ Hr') as (r & Hr & ? & ? & ? & ? & ? & ? & ?).
    rewrite H5. eapply (wf_live _ Hwf); [done|congruence].
  - intros i r' p pr' Hr' Ht Hp Hpr'.
    destruct (Hback _ _ Hr') as (r & Hr & ? & ? & ? & ? & ? & ? & ?).
    destruct (Hback _ _ Hpr') as (pr & Hpr & ? & ? & ? & ? & Htp & ? & ?). rewrite Htp.
    eapply (wf_live_parent _ Hwf i r p pr); [done|congruence..|done].
  - intros i r' st Hr' Ht Hn.
    destruct (Hback _ _ Hr') as (r & Hr & ? & ? & ? & ? & ? & ? & ?).
    destruct (wf_trashed _ Hwf i r st) as (p & pr & ? & Hpr & ?); [done|congruence..|].
    destruct (Hfwd _ _ Hpr) as (pr' & ? & ? & ? & ? & ? & ? & ? & ?).
    exists p, pr'. split_and!; congruence.
  - intros i r' nm Hr' Hn. destruct (Hback _ _ Hr') as (r & Hr & ? & ? & ? & ? & ? & ? & ?).
    rewrite H0. eapply (wf_trash_root _ Hwf); [done|]. by rewrite <- H5.
  - intros i j r' s' p Hr' Hs' ? ? ? ? ?.
    destruct (Hback _ _ Hr') as (r & Hr & ? & ? & ? & ? & ? & ? & ?).
    destruct (Hback _ _ Hs') as (s & Hs & ? & ? & ? & ? & ? & ? & ?).
    eapply (wf_unique _ Hwf i j r s p); congruence.
  - intros i [r' Hr']. destruct (Hback _ _ Hr') as (r & Hr & _). rewrite Hseq.
    apply (wf_ids _ Hwf). eauto.
  - intros i r' Hr'. destruct (Hback _ _ Hr') as (r & Hr & ? & ? & ? & ? & ? & ? & ?).
    pose proof (wf_revision _ Hwf i r Hr). lia.
  - intros i r' Hr'. destruct (Hback _ _ Hr') as (r & Hr & ? & ? & Hk & Hc & ? & ? & ?).
    rewrite Hk, Hc. by apply (wf_kind _ Hwf i).
  - intros i r' Hr' Hne. destruct (Hback _ _ Hr') as (r & Hr & ? & Hnm & _). rewrite Hnm.
    by apply (wf_name _ Hwf i).
  - intros i r' nm Hr' Hn. destruct (Hback _ _ Hr') as (r & Hr & ? & ? & ? & ? & ? & ? & ?).
    eapply (wf_trash_name _ Hwf); [done|]. by rewrite <- H5.
Qed.

(** ** Changes that move one node

    [g] is what a transaction does to every row: it may reparent [id] below
    the directory [p], which is not below [id], and change names and trash
    marks.  The structural half of the invariant follows once and for all; the
    rest is left to the transaction. *)
Section edit.
Context (d d' : db) (g : Z → node_row → node_row) (id p : Z) (lp : list Z) (pr : node_row).
Context (Hwf : tree_wf d) (Hseq : node_seq d' = node_seq d).
Context (Hg : ∀ i, nodes d' !! i = g i <$> nodes d !! i).
Context (Hkeep : ∀ i r, nodes d !! i = Some r →
  kind (g i r) = kind r ∧ current_version_id (g i r) = current_version_id r ∧
  (revision r ≤ revision (g i r))%Z ∧
  parent_id (g i r) = if decide (i = id) then Some p else parent_id r).
Context (Hid : id ≠ root) (Hlp : anc (nodes d) p lp) (Hcyc : id ∉ lp).
Context (Hpr : nodes d !! p = Some pr) (Hdir : kind pr = dir).

Lemma edit_inv i r' : nodes d' !! i = Some r' → ∃ r, nodes d !! i = Some r ∧ r' = g i r.
Proof. rewrite Hg. destruct (nodes d !! i); naive_solver. Qed.

Lemma tree_wf_edit :
  (∀ r, nodes d !! root = Some r →
     trashed_at (g root r) = trashed_at r ∧ name (g root r) = name r) →
  (∀ i r, nodes d !! i = Some r → trashed_at (g i r) = None → trash_name (g i r) = None) →
  (∀ i r q qr, nodes d !! i = Some r → trashed_at (g i r) = None →
     parent_id (g i r) = Some q → nodes d !! q = Some qr → trashed_at (g q qr) = None) →
  (∀ i r st, nodes d !! i = Some r → trashed_at (g i r) = Some st → trash_name (g i r) = None →
     ∃ q qr, parent_id (g i r) = Some q ∧ nodes d !! q = Some qr ∧ trashed_at (g q qr) = Some st) →
  (∀ i r nm, nodes d !! i = Some r → trash_name (g i r) = Some nm →
     parent_id (g i r) = Some root ∧ canonical_name nm) →
  (∀ i j r s q, nodes d !! i = Some r → nodes d !! j = Some s →
     parent_id (g i r) = Some q → parent_id (g j s) = Some q → name (g i r) = name (g j s) →
     trash_name (g i r) = None → trash_name (g j s) = None → i = j) →
  (∀ i r, nodes d !! i = Some r → i ≠ root → canonical_name (name (g i r))) →
  tree_wf d'.
Proof.
  intros Hroot Hlive Hlp' Htr Htroot Huniq Hname.
  destruct (wf_root _ Hwf) as (rr & Hrr & Hrp & Hrk & Hrt & Hrn). split.
  - exists (g root rr). rewrite Hg, Hrr. destruct (Hroot _ Hrr) as [-> ->].
    destruct (Hkeep root rr Hrr) as (-> & _ & _ & ->). by rewrite decide_False by done.
  - intros i r' (r & Hr & ->)%edit_inv. destruct (Hkeep i r Hr) as (_ & _ & _ & ->).
    case_decide; [done|]. by apply (wf_only_root _ Hwf).
  - intros i r' q (r & Hr & ->)%edit_inv. destruct (Hkeep i r Hr) as (_ & _ & _ & ->).
    intros Hq. assert (∃ qr, nodes d !! q = Some qr ∧ kind qr = dir) as (qr & Hqr & Hk).
    { case_decide; [exists pr; naive_solver|]. exact (wf_parent _ Hwf i r q Hr Hq). }
    exists (g q qr). rewrite Hg, Hqr. split; [done|].
    by destruct (Hkeep q qr Hqr) as (-> & _).
  - intros i [r' (r & Hr & ->)%edit_inv]. destruct (wf_anc _ Hwf i) as [l Hl]; [eauto|].
    eapply (anc_reparent (nodes d)); [exact Hlp|exact Hcyc| |exact Hl].
    intros j s Hs. exists (g j s). rewrite Hg, Hs. split; [done|].
    by destruct (Hkeep j s Hs) as (_ & _ & _ & ->).
  - intros i r' (r & Hr & ->)%edit_inv. by apply Hlive.
  - intros i r' q qr' (r & Hr & ->)%edit_inv Ht Hq (qr & Hqr & ->)%edit_inv.
    exact (Hlp' i r q qr Hr Ht Hq Hqr).
  - intros i r' st (r & Hr & ->)%edit_inv Ht Hn.
    destruct (Htr i r st Hr Ht Hn) as (q & qr & ? & Hqr & ?).
    exists q, (g q qr). rewrite Hg, Hqr. done.
  - intros i r' nm (r & Hr & ->)%edit_inv Hn. exact (proj1 (Htroot i r nm Hr Hn)).
  - intros i j r' s' q (r & Hr & ->)%edit_inv (s & Hs & ->)%edit_inv.
    exact (Huniq i j r s q Hr Hs).
  - intros i [r' (r & Hr & ->)%edit_inv]. rewrite Hseq. apply (wf_ids _ Hwf). eauto.
  - intros i r' (r & Hr & ->)%edit_inv. destruct (Hkeep i r Hr) as (_ & _ & ? & _).
    pose proof (wf_revision _ Hwf i r Hr). lia.
  - intros i r' (r & Hr & ->)%edit_inv. destruct (Hkeep i r Hr) as (-> & -> & _).
    by apply (wf_kind _ Hwf i).
  - intros i r' (r & Hr & ->)%edit_inv. by apply Hname.
  - intros i r' nm (r & Hr & ->)%edit_inv Hn. exact (proj2 (Htroot i r nm Hr Hn)).
Qed.
End edit.

(** ** Insertion *)

Lemma tree_wf_insert d d' id p pr nm k v now :
  tree_wf d → insert_node (new_row p nm k v now) d = Some (d', id) →
  nodes d !! p = Some pr → kind pr = dir → trashed_at pr = None → canonical_name nm →
  (k = file ↔ is_Some v) →
  tree_wf d' ∧ nodes d !! id = None ∧ nodes d' = <[id := new_row p nm k v now]> (nodes d).
Proof.
  intros Hwf Hins Hpr Hkp Htp Hnm Hkv. unfold insert_node in Hins.
  destruct (clashes _ _ _) eqn:Hc; [done|]. injection Hins as <- <-.
  set (id := (node_seq d + 1)%Z) in *. set (r0 := new_row p nm k v now) in *.
  assert (nodes d !! id = None) as Hfresh.
  { destruct (nodes d !! id) eqn:He; [|done].
    destruct (wf_ids _ Hwf id) as [_ ?]; [by rewrite He|]. lia. }
  assert (∀ j s, nodes d !! j = Some s → j ≠ id) as Hne by (intros j s Hj ->; congruence).
  rewrite clashes_false in Hc. split_and!; [|done|done].
  assert (∀ i r, <[id := r0]> (nodes d) !! i = Some r →
    (i = id ∧ r = r0) ∨ (i ≠ id ∧ nodes d !! i = Some r)) as Hinv
    by (intros i r Hi; apply lookup_insert_Some in Hi; naive_solver).
  assert (∀ i r, nodes d !! i = Some r → <[id := r0]> (nodes d) !! i = Some r) as Hfwd
    by (intros i r Hi; rewrite lookup_insert_ne; [done|by apply not_eq_sym, (Hne i r)]).
  assert (∀ j s, nodes d !! j = Some s → parent_id s = Some p → name s = nm →
    trash_name s = None → False) as Hfree.
  { intros j s Hj Hp Hn Htn. destruct (trashed_at s) as [st|] eqn:Ht.
    - destruct (wf_trashed _ Hwf j s st) as (q & qr & ? & ? & ?); [done..|]. congruence.
    - specialize (Hc j s Hj (Hne _ _ Hj)). apply not_true_iff_false in Hc. apply Hc.
      apply clash_true. left. exists (p, nm). split; [done|]. by apply live_key_Some. }
  destruct (wf_root _ Hwf) as (rr & Hrr & ? & ? & ? & ?). split; simpl.
  - exists rr. auto.
  - intros i r [[-> ->]|[_ Hi]]%Hinv; [done|]. by apply (wf_only_root _ Hwf).
  - intros i r q [[-> ->]|[_ Hi]]%Hinv Hq.
    + injection Hq as <-. eauto.
    + destruct (wf_parent _ Hwf i r q) as (qr & ? & ?); eauto.
  - assert (∀ i l, anc (nodes d) i l → anc (<[id := r0]> (nodes d)) i l) as Hmono.
    { intros i l Hl. eapply anc_keep; [done|]. eauto. }
    intros i [r [[-> ->]|[_ Hi]]%Hinv].
    + destruct (wf_anc _ Hwf p) as [l Hl]; [eauto|]. exists (id :: l).
      eapply anc_step; [apply lookup_insert_eq|done|auto].
    + destruct (wf_anc _ Hwf i) as [l Hl]; [eauto|]. eauto.
  - intros i r [[-> ->]|[_ Hi]]%Hinv; [done|]. by eapply (wf_live _ Hwf).
  - intros i r q qr [[-> ->]|[_ Hi]]%Hinv Ht Hq [[-> ->]|[_ Hqr]]%Hinv; try done.
    + injection Hq as <-. congruence.
    + by eapply (wf_live_parent _ Hwf i r q qr).
  - intros i r st [[-> ->]|[_ Hi]]%Hinv Ht Hn; [done|].
    destruct (wf_trashed _ Hwf i r st) as (q & qr & ? & ? & ?); eauto 10.
  - intros i r n [[-> ->]|[_ Hi]]%Hinv; [done|]. by eapply (wf_trash_root _ Hwf).
  - intros i j r s q [[-> ->]|[_ Hi]]%Hinv [[-> ->]|[_ Hj]]%Hinv Hp Hq Hn Hi' Hj'; [done|..].
    + injection Hp as <-. exfalso. by eapply Hfree.
    + injection Hq as <-. exfalso. by eapply Hfree.
    + by eapply (wf_unique _ Hwf i j r s q).
  - intros i [r [[-> ->]|[_ Hi]]%Hinv].
    + destruct (wf_ids _ Hwf root) as [? ?]; [eauto|]. lia.
    + destruct (wf_ids _ Hwf i) as [? ?]; [eauto|]. lia.
  - intros i r [[-> ->]|[_ Hi]]%Hinv; [simpl; lia|]. by eapply (wf_revision _ Hwf).
  - intros i r [[-> ->]|[_ Hi]]%Hinv; [done|]. by eapply (wf_kind _ Hwf).
  - intros i r [[-> ->]|[_ Hi]]%Hinv; [done|]. by eapply (wf_name _ Hwf).
  - intros i r n [[-> ->]|[_ Hi]]%Hinv; [done|]. by eapply (wf_trash_name _ Hwf).
Qed.

(** ** Statements *)

Lemma exec_Ok d P f e d' :
  exec d (update_where P f (nodes d)) e = Ok d' → d' = with_nodes d (set_where P f (nodes d)).
Proof.
  unfold exec. intros Hx. apply from_lookup_Ok_iff in Hx.
  destruct (update_where P f (nodes d)) eqn:Hu; [|done]. injection Hx as <-.
  by rewrite (update_where_Some _ _ _ _ Hu).
Qed.

Lemma lookup_set_id f ns id i :
  set_where (is_id id) f ns !! i = (λ r, if decide (i = id) then f r else r) <$> ns !! i.
Proof.
  rewrite lookup_set_where. unfold is_id. destruct (ns !! i); [|done]. simpl.
  destruct (Z.eqb_spec i id); by case_decide.
Qed.

Lemma bump_clash now r s : clash (bump now r) s = clash r s.
Proof. done. Qed.

(** A bump never fails, and keeps the invariant. *)
Lemma bumpRevisionTx_ok d id now :
  tree_wf d →
  bumpRevisionTx d id now = Ok (with_nodes d (set_where (is_id id) (bump now) (nodes d))) ∧
  tree_wf (with_nodes d (set_where (is_id id) (bump now) (nodes d))).
Proof.
  intros Hwf. split.
  - unfold bumpRevisionTx, exec. rewrite update_where_ok; [done|].
    intros i j ri rj Hne Hi Hj _. rewrite bump_clash. split.
    + exact (wf_no_clash d i j _ _ Hwf Hne Hi Hj).
    + intros _. rewrite clash_sym, bump_clash.
      exact (wf_no_clash d j i _ _ Hwf (not_eq_sym Hne) Hj Hi).
  - eapply tree_wf_shape; [done|done| |]; simpl.
    + intros i r'. rewrite lookup_set_id. destruct (nodes d !! i) as [r|]; [|done].
      intros [= <-]. exists r. split; [done|]. case_decide; repeat split; simpl; auto; lia.
    + intros i [r Hr]. rewrite lookup_set_id, Hr. by eexists.
Qed.

Lemma bumpRevisionTx_inv d id now d' :
  tree_wf d → bumpRevisionTx d id now = Ok d' →
  tree_wf d' ∧ d' = with_nodes d (set_where (is_id id) (bump now) (nodes d)).
Proof.
  intros Hwf Hb. destruct (bumpRevisionTx_ok d id now Hwf) as [Ho Hw].
  rewrite Ho in Hb. apply Ok_inj in Hb as <-. done.
Qed.

Lemma nodeByIDTx_Ok_iff d id n :
  nodeByIDTx d id = Ok n ↔ ∃ r, nodes d !! id = Some r ∧ n = scanNode d id r.
Proof.
  unfold nodeByIDTx. rewrite bind_Ok_iff. setoid_rewrite from_lookup_Ok_iff. split.
  - intros (r & Hr & Hn). apply Ok_inj in Hn. eauto.
  - intros (r & Hr & ->). by exists r.
Qed.

Lemma liveDirTx_Ok_iff d id n :
  liveDirTx d id = Ok n ↔
  ∃ r, nodes d !! id = Some r ∧ n = scanNode d id r ∧ trashed_at r = None ∧ kind r = dir.
Proof.
  unfold liveDirTx. rewrite bind_Ok_iff. setoid_rewrite nodeByIDTx_Ok_iff. split.
  - intros (n' & (r & Hr & ->) & Hn). simpl in Hn. case_bool_decide as Ht; [done|].
    unfold IsDir in Hn. simpl in Hn. case_bool_decide as Hk; [|done]. simpl in Hn.
    apply Ok_inj in Hn as <-. exists r. split_and!; by (done || apply dec_stable).
  - intros (r & Hr & -> & Ht & Hk). eexists. split; [by eauto|]. simpl.
    rewrite bool_decide_eq_false_2 by (by rewrite Ht; intros []). unfold IsDir. simpl.
    by rewrite bool_decide_eq_true_2.
Qed.

End invariant.
