(* ===== verification/TreeFacts.v ===== *)
(** * Facts about reading, creating and moving nodes

    The branches of [mkdirTx] and [moveAtTx], that both keep the tree
    invariant, and that paths and nodes name each other.

    [pathOf] and [nodeByPath] are inverse on live nodes; every path a lookup
    accepts is a spelling of the canonical path of the node it finds. *)
From S2P Require Import Prelude GoText Names Tables Tree TreeInv.

(** ** Lookup by name *)

Lemma live_child_true p nm r :
  live_child p nm r = true ↔ parent_id r = Some p ∧ name r = nm ∧ trashed_at r = None.
Proof. unfold live_child, is_live. rewrite !andb_true_iff, !bool_decide_eq_true. tauto. Qed.

Lemma elem_of_select P ns i : i ∈ select P ns ↔ ∃ r, ns !! i = Some r ∧ P r = true.
Proof. apply elem_of_matching. Qed.

(** Some live child of [p] is named [nm]. *)
Definition taken (ns : gmap Z node_row) (p : Z) (nm : string) : Prop :=
  ∃ i r, ns !! i = Some r ∧ parent_id r = Some p ∧ name r = nm ∧ trashed_at r = None.

Lemma taken_select ns p nm : taken ns p nm ↔ select (live_child p nm) ns ≠ [].
Proof.
  split.
  - intros (i & r & Hi & Hr). assert (i ∈ select (live_child p nm) ns) as Hin.
    { apply elem_of_select. exists r. by rewrite live_child_true. }
    intros He. rewrite He in Hin. by apply elem_of_nil in Hin.
  - destruct (select _ _) as [|i l] eqn:Hs; [done|]. intros _.
    assert (i ∈ select (live_child p nm) ns) as Hin by (rewrite Hs; left).
    apply elem_of_select in Hin as (r & Hi & Hr). rewrite live_child_true in Hr. by exists i, r.
Qed.

(** The ids from a node up to the root. *)
Definition chain (ns : gmap Z node_row) (i : Z) : list Z := (ancestry ns (S (size ns)) i).*1.
Arguments chain : simpl never.

#[export] Instance taken_dec ns p nm : Decision (taken ns p nm).
Proof.
  refine (cast_if (decide (select (live_child p nm) ns ≠ []))); by rewrite taken_select.
Defined.

Section facts.
Context `{Normalizer} (root : Z).
Notation tree_wf := (tree_wf root).

(** In a well-formed tree a name selects at most one live child. *)
Lemma childByName_Ok_iff d p nm n :
  tree_wf d →
  childByName d p nm = Ok n ↔
  ∃ i r, nodes d !! i = Some r ∧ n = scanNode d i r ∧
    parent_id r = Some p ∧ name r = nm ∧ trashed_at r = None.
Proof.
  intros Hwf. unfold childByName. rewrite bind_Ok_iff. setoid_rewrite nodeByIDTx_Ok_iff.
  setoid_rewrite from_lookup_Ok_iff. split.
  - intros (i & Hh & r & Hr & ->). exists i, r. split_and!; try done;
      (assert (i ∈ select (live_child p nm) (nodes d)) as Hin
         by (destruct (select _ _); [done|]; injection Hh as ->; left));
      apply elem_of_select in Hin as (r' & Hr' & Hc); rewrite live_child_true in Hc;
      assert (r' = r) as -> by congruence; tauto.
  - intros (i & r & Hr & -> & Hp & Hn & Ht). exists i. split; [|by exists r].
    assert (i ∈ select (live_child p nm) (nodes d)) as Hin.
    { apply elem_of_select. exists r. by rewrite live_child_true. }
    destruct (select (live_child p nm) (nodes d)) as [|j l] eqn:Hs; [by apply elem_of_nil in Hin|].
    simpl. f_equal. assert (j ∈ select (live_child p nm) (nodes d)) as Hj by (rewrite Hs; left).
    apply elem_of_select in Hj as (s & Hs' & Hc). apply live_child_true in Hc as (? & ? & ?).
    symmetry. eapply (wf_unique _ _ Hwf i j r s p); try done; [congruence|by eapply wf_live..].
Qed.

Lemma childByName_error d p nm e : childByName d p nm = Err e → e = ErrNotFound.
Proof.
  unfold childByName, nodeByIDTx. intros He. apply bind_Err_iff in He as [He|(i & _ & He)].
  - by apply from_lookup_Err_iff in He as [_ <-].
  - apply bind_Err_iff in He as [He|(r & _ & He)]; [by apply from_lookup_Err_iff in He as [_ <-]|].
    done.
Qed.

(** ** Creating a directory *)

(** [insert_node] fails exactly on a taken name. *)
Lemma insert_node_taken d p nm k v now :
  tree_wf d → insert_node (new_row p nm k v now) d = None ↔ taken (nodes d) p nm.
Proof.
  intros Hwf. unfold insert_node.
  destruct (clashes _ _ _) eqn:Hc; split; try done; intros Ht.
  - apply not_false_iff_true in Hc. destruct (decide (taken (nodes d) p nm)) as [|Hno]; [done|].
    destruct Hc. apply clashes_false. intros j s Hj _. apply not_true_iff_false.
    rewrite clash_true. intros [([q m] & Hr & Hs)|[? _]]; [|done]. injection Hr as <- <-.
    apply live_key_Some in Hs. apply Hno. exists j, s. tauto.
  - destruct Ht as (i & r & Hi & Hp & Hn & Ht). rewrite clashes_false in Hc.
    specialize (Hc i r Hi).
    destruct (wf_ids _ _ Hwf i) as [_ ?]; [eauto|].
    assert (clash (new_row p nm k v now) r = false) as Hf by (apply Hc; lia).
    apply not_true_iff_false in Hf. destruct Hf. apply clash_true. left. exists (p, nm).
    split; [done|]. by apply live_key_Some.
Qed.

Lemma mkdirTx_wf d p nm now d' n :
  tree_wf d → canonical_name nm → mkdirTx d p nm now = Ok (d', n) → tree_wf d'.
Proof.
  unfold mkdirTx. intros Hwf Hnm Hm.
  apply bind_Ok_iff in Hm as (pn & Hp & Hm). apply liveDirTx_Ok_iff in Hp as (pr & Hpr & _ & ? & ?).
  apply bind_Ok_iff in Hm as ([d1 id] & Hi & Hm). apply from_lookup_Ok_iff in Hi.
  eapply tree_wf_insert in Hi as (Hwf1 & _ & _); [|done..|by split; [done|intros []]].
  apply bind_Ok_iff in Hm as (d2 & Hb & Hm).
  apply (bumpRevisionTx_inv root) in Hb as [Hwf2 _]; [|done].
  apply bind_Ok_iff in Hm as (n' & _ & Hm). by apply Ok_inj in Hm as [= <- _].
Qed.

(** The reference behaviour of [mkdirTx]: which error, or the new table. *)
Definition mkdir_outcome (d : db) (p : Z) (nm now : string) : res (db * Node) :=
  match nodes d !! p with
  | None => Err ErrNotFound
  | Some pr =>
      if bool_decide (trashed_at pr ≠ None) then Err ErrNotFound
      else if bool_decide (kind pr = file) then Err ErrNotDir
      else if bool_decide (taken (nodes d) p nm) then Err ErrExists
      else
        let id := (node_seq d + 1)%Z in
        let row := new_row p nm dir None now in
        let d' := MkDb (<[id := row]> (<[p := bump now pr]> (nodes d))) id (versions d)
                    (checksums d) (tags d) (node_tags d) (audit_active d) in
        Ok (d', scanNode d' id row)
  end.

Lemma kind_not_file (k : node_kind) : k ≠ file ↔ k = dir.
Proof. by destruct k. Qed.

Lemma with_nodes_twice d ns ns' : with_nodes (with_nodes d ns) ns' = with_nodes d ns'.
Proof. done. Qed.

Lemma nodeByIDTx_cases d i :
  nodeByIDTx d i = match nodes d !! i with
                   | None => Err ErrNotFound
                   | Some r => Ok (scanNode d i r)
                   end.
Proof. unfold nodeByIDTx. by destruct (nodes d !! i). Qed.

Lemma liveDirTx_cases d p :
  liveDirTx d p =
  match nodes d !! p with
  | None => Err ErrNotFound
  | Some pr =>
      if bool_decide (trashed_at pr ≠ None) then Err ErrNotFound
      else if bool_decide (kind pr = file) then Err ErrNotDir
      else Ok (scanNode d p pr)
  end.
Proof.
  unfold liveDirTx, nodeByIDTx. destruct (nodes d !! p) as [pr|]; [|done]. simpl.
  case_bool_decide; [done|]. unfold IsDir. simpl. destruct (kind pr); done.
Qed.

Lemma mkdirTx_outcome d p nm now :
  tree_wf d → canonical_name nm → mkdirTx d p nm now = mkdir_outcome d p nm now.
Proof.
  intros Hwf Hnm. unfold mkdirTx, mkdir_outcome. rewrite liveDirTx_cases.
  destruct (nodes d !! p) as [pr|] eqn:Hp; [|done].
  case_bool_decide as Ht; [done|]. case_bool_decide as Hk; [done|]. simpl.
  apply kind_not_file in Hk.
  case_bool_decide as Htk.
  { by rewrite (proj2 (insert_node_taken d p nm dir None now Hwf) Htk). }
  rewrite <- (insert_node_taken d p nm dir None now Hwf) in Htk.
  destruct (insert_node _ d) as [[d1 id]|] eqn:Hi; [|done]. clear Htk. simpl.
  pose proof Hi as Hi'. eapply tree_wf_insert in Hi' as (Hwf1 & Hfresh & _);
    [|done..|by split; [done|intros []]].
  unfold insert_node in Hi. case_match; [done|]. injection Hi as <- <-.
  set (id := (node_seq d + 1)%Z) in *.
  rewrite (proj1 (bumpRevisionTx_ok root _ p now Hwf1)). simpl.
  assert (set_where (is_id p) (bump now) (<[id := new_row p nm dir None now]> (nodes d))
    = <[id := new_row p nm dir None now]> (<[p := bump now pr]> (nodes d))) as Heq.
  { apply map_eq. intros i. rewrite lookup_set_id.
    destruct (decide (i = id)) as [->|Hne].
    - rewrite !lookup_insert_eq. simpl. rewrite decide_False; [done|]. congruence.
    - rewrite !(lookup_insert_ne _ id) by done. destruct (decide (i = p)) as [->|Hne'].
      + by rewrite Hp, lookup_insert_eq.
      + rewrite (lookup_insert_ne _ p) by done. by destruct (nodes d !! i). }
  unfold with_nodes. simpl. rewrite Heq. unfold nodeByIDTx. simpl. by rewrite lookup_insert_eq.
Qed.

(** ** Moving a node *)

(** What a move does to the rows, once it has bumped the nodes [bumps]. *)
Definition moved_row (id : Z) (bumps : list Z) (newp : Z) (nm now : string) (i : Z)
    (r : node_row) : node_row :=
  if decide (i = id) then set_location newp nm now r
  else if decide (i ∈ bumps) then bump now r
  else r.

Definition move_outcome (d : db) (id newp : Z) (newName : string) (ifRev : Z) (now : string) :
    res (db * Node) :=
  if decide (id = root) then Err ErrIsRoot
  else
    nm ← NormalizeName newName;
    match nodes d !! id with
    | None => Err ErrNotFound
    | Some r =>
        if bool_decide (trashed_at r ≠ None) then Err ErrNotFound
        else if stale ifRev (revision r) then Err ErrStaleRevision
        else
          _ ← liveDirTx d newp;
          if decide (parent_id r = Some newp ∧ name r = nm) then Ok (d, scanNode d id r)
          else if decide (id ∈ chain (nodes d) newp)
          then Err ErrCycle
          else if bool_decide (taken (nodes d) newp nm) then Err ErrExists
          else
            let g := moved_row id [default 0%Z (parent_id r); newp] newp nm now in
            let d' := with_nodes d (map_imap (λ i r, Some (g i r)) (nodes d)) in
            Ok (d', scanNode d' id (g id r))
    end.

Lemma anc_ancestry d i l :
  anc (nodes d) i l → chain (nodes d) i = l.
Proof. intros Hl. apply ancestry_anc; [done|]. pose proof (anc_length _ _ _ Hl). lia. Qed.

Lemma isAncestorTx_anc d m i l :
  anc (nodes d) i l → isAncestorTx d m i = Ok (bool_decide (m ∈ l)).
Proof.
  intros Hl. unfold isAncestorTx. apply isAncestor_from_anc; [done|].
  pose proof (anc_length _ _ _ Hl). lia.
Qed.

(** A live row's location is free for it exactly when no other live child of
    the destination has the name. *)
Lemma move_taken d id r newp nm now :
  tree_wf d → nodes d !! id = Some r → trashed_at r = None →
  ¬ (parent_id r = Some newp ∧ name r = nm) →
  update_where (is_id id) (set_location newp nm now) (nodes d) =
  if bool_decide (taken (nodes d) newp nm) then None
  else Some (set_where (is_id id) (set_location newp nm now) (nodes d)).
Proof.
  intros Hwf Hr Ht Hne. case_bool_decide as Htk.
  - destruct (update_where _ _ _) as [ns'|] eqn:Hu; [|done]. exfalso.
    destruct Htk as (j & s & Hs & Hp & Hn & Hst).
    assert (j ≠ id) as Hj by (intros ->; simplify_eq; by apply Hne).
    assert (∀ ids ns, j ∉ ids → id ∈ ids → ns !! j = Some s → ns !! id = Some r → NoDup ids →
      update_rows (set_location newp nm now) ids ns = None) as Hgen.
    { clear -Hp Hn Hst Ht. induction ids as [|k ids IH]; intros ns Hj Hid Hs Hr Hnd;
        [by apply elem_of_nil in Hid|]. simpl. unfold update_row.
      apply NoDup_cons in Hnd as [Hk Hnd]. rewrite not_elem_of_cons in Hj. destruct Hj as [Hjk Hj].
      destruct (decide (k = id)) as [->|Hkid].
      - rewrite Hr. assert (clashes ns id (set_location newp nm now r) = true) as ->; [|done].
        apply not_false_iff_true. rewrite clashes_false. intros Hc.
        specialize (Hc j s Hs ltac:(done)). apply not_true_iff_false in Hc. apply Hc.
        apply clash_true. left. exists (newp, nm). split; [|by apply live_key_Some].
        apply live_key_Some. done.
      - apply elem_of_cons in Hid as [?|Hid]; [done|].
        destruct (ns !! k) as [rk|]; [|simpl; by apply IH].
        destruct (clashes _ _ _); [done|]. simpl.
        apply IH; [done|done|rewrite lookup_insert_ne; done..|done]. }
    unfold update_where in Hu. rewrite Hgen in Hu; [done| | |done|done|apply NoDup_matching].
    + rewrite elem_of_matching. intros (? & _ & Hid). unfold is_id in Hid. apply Z.eqb_eq in Hid.
      done.
    + apply elem_of_matching. exists r. unfold is_id. by rewrite Z.eqb_refl.
  - apply update_where_ok. intros i j ri rj Hij Hi Hj Hid. unfold is_id in *.
    apply Z.eqb_eq in Hid as ->. split.
    + apply not_true_iff_false. rewrite clash_true. intros [([q m] & Hk & Hk')|[? _]]; [|done].
      apply live_key_Some in Hk as (_ & [= <-] & <-), Hk' as (? & ? & ?).
      apply Htk. by exists j, rj.
    + intros Hji%Z.eqb_eq. congruence.
Qed.

Lemma set_where_map P f ns :
  set_where P f ns = map_imap (λ i r, Some (if P i r then f r else r)) ns.
Proof. done. Qed.

Lemma moved_row_bump (ns : gmap Z node_row) id bumps newp nm now q :
  q ≠ id → q ∉ bumps →
  set_where (is_id q) (bump now) (map_imap (λ i r, Some (moved_row id bumps newp nm now i r)) ns)
  = map_imap (λ i r, Some (moved_row id (bumps ++ [q]) newp nm now i r)) ns.
Proof.
  intros Hq Hqb. apply map_eq. intros i. rewrite lookup_set_id, !map_lookup_imap.
  destruct (ns !! i) as [s|]; [|done]. simpl. f_equal. unfold moved_row.
  destruct (decide (i = id)) as [->|]; [by rewrite decide_False by congruence|].
  destruct (decide (i = q)) as [->|].
  - rewrite (decide_False (P := q ∈ bumps)) by done.
    by rewrite decide_True by (apply elem_of_app; right; left).
  - destruct (decide (i ∈ bumps)); [rewrite decide_True by (apply elem_of_app; by left); done|].
    rewrite decide_False; [done|]. rewrite elem_of_app, list_elem_of_singleton. tauto.
Qed.

Section moved.
Context (d : db) (id oldp newp : Z) (bumps : list Z) (nm now : string).
Context (r pr : node_row) (lp : list Z).
Context (Hwf : tree_wf d) (Hr : nodes d !! id = Some r) (Ht : trashed_at r = None).
Context (Hold : parent_id r = Some oldp) (Hnm : canonical_name nm).
Context (Hpr : nodes d !! newp = Some pr) (Hpt : trashed_at pr = None) (Hpk : kind pr = dir).
Context (Hlp : anc (nodes d) newp lp) (Hcyc : id ∉ lp).
Context (Hfree : ¬ taken (nodes d) newp nm).

Let g := moved_row id bumps newp nm now.

Lemma moved_ids : id ≠ root ∧ oldp ≠ id ∧ newp ≠ id.
Proof using All.
  split_and!.
  - intros ->. destruct (wf_root _ _ Hwf) as (rr & ? & ? & _). congruence.
  - intros ->. destruct (wf_anc _ _ Hwf id) as [l Hl]; [eauto|].
    pose proof (anc_NoDup _ _ _ Hl) as Hnd.
    destruct (wf_parent _ _ Hwf id r id) as (? & _); [done..|].
    inversion Hl as [? ? Hi Hp|? ? p l' Hi Hp Hl']; simplify_eq.
    apply anc_head in Hl' as [t ->]. apply NoDup_cons in Hnd as [Hn _]. apply Hn. left.
  - intros ->. apply anc_head in Hlp as [t ->]. apply Hcyc. left.
Qed.

Lemma moved_row_fields i s :
  kind (g i s) = kind s ∧ current_version_id (g i s) = current_version_id s ∧
  (revision s ≤ revision (g i s))%Z ∧
  parent_id (g i s) = (if decide (i = id) then Some newp else parent_id s) ∧
  trashed_at (g i s) = trashed_at s ∧ trash_name (g i s) = trash_name s ∧
  name (g i s) = if decide (i = id) then nm else name s.
Proof using Type. unfold g, moved_row. repeat case_decide; simpl; split_and!; try done; lia. Qed.

Lemma tree_wf_moved : tree_wf (with_nodes d (map_imap (λ i r, Some (g i r)) (nodes d))).
Proof using All.
  destruct moved_ids as (Hidr & Hoi & Hni).
  assert (∀ i s, nodes d !! i = Some s → parent_id s = Some newp → trash_name s = None →
    name s ≠ nm) as Hno.
  { intros i s Hs Hp Htn Hn. apply Hfree. exists i, s. split_and!; try done.
    destruct (trashed_at s) as [st|] eqn:Hst; [|done].
    destruct (wf_trashed _ _ Hwf i s st) as (q & qr & ? & ? & ?); [done..|]. congruence. }
  assert (trash_name r = None) as Htn by exact (wf_live _ _ Hwf id r Hr Ht).
  eapply (tree_wf_edit root d _ g id newp lp pr); try done; simpl.
  - intros i. rewrite map_lookup_imap. by destruct (nodes d !! i).
  - intros i s _. destruct (moved_row_fields i s) as (? & ? & ? & ? & _). done.
  - intros s _. destruct (moved_row_fields root s) as (_ & _ & _ & _ & -> & _ & ->).
    by rewrite decide_False.
  - intros i s Hs. destruct (moved_row_fields i s) as (_ & _ & _ & _ & -> & -> & _).
    exact (wf_live _ _ Hwf i s Hs).
  - intros i s q qr Hs. destruct (moved_row_fields i s) as (_ & _ & _ & -> & -> & _ & _).
    destruct (moved_row_fields q qr) as (_ & _ & _ & _ & -> & _ & _).
    intros Hst Hq Hqr. case_decide; simplify_eq; [done|].
    exact (wf_live_parent _ _ Hwf i s q qr Hs Hst Hq Hqr).
  - intros i s st Hs. destruct (moved_row_fields i s) as (_ & _ & _ & -> & -> & -> & _).
    intros Hst Hsn. case_decide; [simplify_eq|].
    destruct (wf_trashed _ _ Hwf i s st Hs Hst Hsn) as (q & qr & ? & Hqr & ?).
    exists q, qr. by destruct (moved_row_fields q qr) as (_ & _ & _ & _ & -> & _).
  - intros i s n Hs. destruct (moved_row_fields i s) as (_ & _ & _ & -> & _ & -> & _).
    intros Hn. case_decide; [simplify_eq|].
    split; [by eapply (wf_trash_root _ _ Hwf)|by eapply (wf_trash_name _ _ Hwf)].
  - intros i j s t q Hs Hj. destruct (moved_row_fields i s) as (_ & _ & _ & -> & _ & -> & ->).
    destruct (moved_row_fields j t) as (_ & _ & _ & -> & _ & -> & ->).
    intros Hp Hq Hn Hsn Htn'. repeat case_decide; simplify_eq; try done.
    + exfalso. by apply (Hno j t).
    + exfalso. by apply (Hno i s).
    + exact (wf_unique _ _ Hwf i j s t q Hs Hj Hp Hq Hn Hsn Htn').
  - intros i s Hs Hi. destruct (moved_row_fields i s) as (_ & _ & _ & _ & _ & _ & ->).
    case_decide; [done|]. by apply (wf_name _ _ Hwf i).
Qed.
End moved.

(** The code's chain of early returns is the reference behaviour. *)
Lemma moveAtTx_outcome d id newp newName ifRev now :
  tree_wf d →
  moveAtTx root d id newp newName ifRev now = move_outcome d id newp newName ifRev now.
Proof.
  intros Hwf. unfold moveAtTx, move_outcome.
  case_decide as Hroot; [subst; by rewrite Z.eqb_refl|].
  rewrite (proj2 (Z.eqb_neq _ _)) by done. simpl.
  destruct (NormalizeName newName) as [nm|e] eqn:Hnm; [|done]. simpl.
  apply NormalizeName_canonical in Hnm. rewrite nodeByIDTx_cases.
  destruct (nodes d !! id) as [r|] eqn:Hr; [|done]. simpl.
  destruct (trashed_at r) as [st|] eqn:Ht; [done|]. simpl.
  destruct (stale ifRev (revision r)); [done|]. simpl.
  destruct (liveDirTx d newp) as [pn|e] eqn:Hp; [|done]. simpl.
  apply liveDirTx_Ok_iff in Hp as (pr & Hpr & _ & Hpt & Hpk).
  destruct (parent_id r) as [oldp|] eqn:Hold.
  2:{ destruct (Hroot (wf_only_root _ _ Hwf id r Hr Hold)). }
  simpl. destruct (wf_anc _ _ Hwf newp) as [lp Hlp]; [eauto|].
  rewrite (anc_ancestry _ _ _ Hlp), (isAncestorTx_anc _ _ _ _ Hlp).
  destruct (decide (Some oldp = Some newp ∧ name r = nm)) as [[[= ->] Hn]|Hne].
  { by rewrite Z.eqb_refl, Hn, String.eqb_refl. }
  assert ((oldp =? newp)%Z && String.eqb (name r) nm = false) as ->.
  { apply not_true_iff_false. rewrite andb_true_iff, Z.eqb_eq, String.eqb_eq.
    intros [Hp Hn]. apply Hne. by rewrite Hp, Hn. }
  simpl. case_decide as Hcyc; [by rewrite bool_decide_eq_true_2|].
  rewrite bool_decide_eq_false_2 by done. simpl. unfold exec.
  rewrite (move_taken d id r newp nm now Hwf Hr Ht) by (by rewrite Hold).
  case_bool_decide as Htk; [done|]. simpl.
  set (d1 := with_nodes d _).
  destruct (moved_ids d id oldp newp [] nm now r pr lp Hwf Hr Ht Hold Hnm Hpr Hpt Hpk Hlp Hcyc
    Htk) as (_ & Hoi & Hni).
  assert (∀ bumps, tree_wf (with_nodes d
    (map_imap (λ i r, Some (moved_row id bumps newp nm now i r)) (nodes d)))) as Hwf'.
  { intros bumps. by eapply (tree_wf_moved d id oldp newp bumps nm now r pr lp). }
  assert (d1 = with_nodes d (map_imap (λ i r, Some (moved_row id [] newp nm now i r)) (nodes d)))
    as Hd1.
  { unfold d1. f_equal. apply map_eq. intros i. rewrite lookup_set_id, map_lookup_imap.
    by destruct (nodes d !! i). }
  rewrite Hd1, (proj1 (bumpRevisionTx_ok root _ oldp now (Hwf' _))). simpl.
  rewrite moved_row_bump, with_nodes_twice by (done || apply not_elem_of_nil). simpl.
  assert (∀ bumps, (∀ i, i ∈ bumps ↔ i ∈ [oldp; newp]) →
    (n ← nodeByIDTx (with_nodes d
           (map_imap (λ i r, Some (moved_row id bumps newp nm now i r)) (nodes d))) id;
     Ok (with_nodes d
           (map_imap (λ i r, Some (moved_row id bumps newp nm now i r)) (nodes d)), n))
    = Ok (E := store_error) (with_nodes d
           (map_imap (λ i r, Some (moved_row id [oldp; newp] newp nm now i r)) (nodes d)),
          scanNode (with_nodes d
           (map_imap (λ i r, Some (moved_row id [oldp; newp] newp nm now i r)) (nodes d))) id
          (moved_row id [oldp; newp] newp nm now id r))) as Hend.
  { intros bumps Hb.
    assert (map_imap (λ i r, Some (moved_row id bumps newp nm now i r)) (nodes d)
      = map_imap (λ i r, Some (moved_row id [oldp; newp] newp nm now i r)) (nodes d)) as ->.
    { apply map_eq. intros i. rewrite !map_lookup_imap. destruct (nodes d !! i); [|done]. simpl.
      f_equal. unfold moved_row. specialize (Hb i). repeat case_decide; tauto. }
    rewrite nodeByIDTx_cases. simpl. by rewrite map_lookup_imap, Hr. }
  destruct (Z.eqb_spec newp oldp) as [->|Hno]; simpl.
  - apply Hend. intros i. rewrite !elem_of_cons. tauto.
  - rewrite (proj1 (bumpRevisionTx_ok root _ newp now (Hwf' _))). simpl.
    rewrite moved_row_bump, with_nodes_twice by (rewrite ?list_elem_of_singleton; done).
    by apply Hend.
Qed.

Lemma moveAtTx_wf d id newp newName ifRev now d' n :
  tree_wf d → moveAtTx root d id newp newName ifRev now = Ok (d', n) → tree_wf d'.
Proof.
  intros Hwf. rewrite moveAtTx_outcome by done. unfold move_outcome.
  case_decide as Hroot; [done|].
  destruct (NormalizeName newName) as [nm|e] eqn:Hnm; [|done]. simpl.
  apply NormalizeName_canonical in Hnm.
  destruct (nodes d !! id) as [r|] eqn:Hr; [|done].
  case_bool_decide as Ht; [done|]. destruct (stale _ _); [done|].
  destruct (liveDirTx d newp) as [pn|e] eqn:Hp; [|done]. simpl.
  apply liveDirTx_Ok_iff in Hp as (pr & Hpr & _ & Hpt & Hpk).
  case_decide; [by intros [= <- <-]|].
  destruct (wf_anc _ _ Hwf newp) as [lp Hlp]; [eauto|].
  rewrite (anc_ancestry _ _ _ Hlp). case_decide; [done|]. case_bool_decide; [done|].
  intros [= <- _]. destruct (parent_id r) as [oldp|] eqn:Hold.
  2:{ destruct (Hroot (wf_only_root _ _ Hwf id r Hr Hold)). }
  by eapply (tree_wf_moved d id oldp newp _ nm now r pr lp).
Qed.

End facts.

(** * Paths and nodes name each other *)

(** The segments of a node's display path: the names on the ancestry, topmost
    first, without the root's. *)
Definition named_rows (rows : list (Z * node_row)) : list string :=
  reverse ((λ ir : Z * node_row, name ir.2) <$>
    filter (λ ir : Z * node_row, parent_id ir.2 ≠ None) rows).

Definition path_segs (ns : gmap Z node_row) (i : Z) : list string :=
  named_rows (ancestry ns (S (size ns)) i).
Arguments path_segs : simpl never.

Lemma named_rows_cons i r rows :
  named_rows ((i, r) :: rows) =
  match parent_id r with None => named_rows rows | Some _ => named_rows rows ++ [name r] end.
Proof.
  unfold named_rows. destruct (parent_id r) eqn:Hp.
  - rewrite filter_cons_True by (simpl; by rewrite Hp). rewrite fmap_cons, reverse_cons. done.
  - rewrite filter_cons_False; [done|]. simpl. rewrite Hp. auto.
Qed.

Lemma ancestry_fuel ns i l f g :
  anc ns i l → (length l ≤ f)%nat → (length l ≤ g)%nat → ancestry ns f i = ancestry ns g i.
Proof.
  intros Hl. revert f g. induction Hl as [i r Hi Hp|i r p l Hi Hp Hl IH];
    intros [|f] [|g] Hf Hg; simpl in *; try lia; rewrite Hi, Hp; [done|].
  f_equal. apply IH; lia.
Qed.

Lemma path_segs_root ns i r : ns !! i = Some r → parent_id r = None → path_segs ns i = [].
Proof.
  intros Hi Hp. unfold path_segs. simpl. rewrite Hi, Hp, named_rows_cons, Hp. done.
Qed.

Lemma path_segs_step ns i r p l :
  ns !! i = Some r → parent_id r = Some p → anc ns p l →
  path_segs ns i = path_segs ns p ++ [name r].
Proof.
  intros Hi Hp Hl. unfold path_segs.
  assert (ancestry ns (S (size ns)) i = (i, r) :: ancestry ns (size ns) p) as ->
    by (simpl; by rewrite Hi, Hp).
  rewrite named_rows_cons, Hp. do 2 f_equal.
  pose proof (anc_length _ _ _ (anc_step _ _ _ _ _ Hi Hp Hl)) as Hlen. simpl in Hlen.
  eapply ancestry_fuel; [done|lia..].
Qed.

Lemma Join_snoc (l : list string) x :
  l ≠ [] → Join (l ++ [x]) "/" = Join l "/" +:+ ("/" +:+ x).
Proof.
  induction l as [|a [|b l] IH]; intros Hl; [done|done|].
  change (Join ((a :: b :: l) ++ [x]) "/") with (a +:+ ("/" +:+ Join ((b :: l) ++ [x]) "/")).
  change (Join (a :: b :: l) "/") with (a +:+ ("/" +:+ Join (b :: l) "/")).
  rewrite IH by done. by rewrite !sapp_assoc.
Qed.

Lemma Join_cons s segs : Join (s :: segs) "/" = "" → s = "".
Proof. destruct s; [done|]. destruct segs; done. Qed.

Section paths.
Context `{Normalizer} (root : Z).
Notation tree_wf := (tree_wf root).

Lemma path_segs_names d i s :
  tree_wf d → is_Some (nodes d !! i) → s ∈ path_segs (nodes d) i → canonical_name s.
Proof.
  intros Hwf Hi. destruct (wf_anc _ _ Hwf i Hi) as [l Hl]. clear Hi.
  induction Hl as [i r Hi Hp|i r p l Hi Hp Hl IH].
  - rewrite (path_segs_root _ _ _ Hi Hp). by intros ?%elem_of_nil.
  - rewrite (path_segs_step _ _ _ _ _ Hi Hp Hl), elem_of_app, list_elem_of_singleton.
    intros [?| ->]; [auto|]. apply (wf_name _ _ Hwf i); [done|]. intros ->.
    destruct (wf_root _ _ Hwf) as (rr & ? & ? & _). congruence.
Qed.

Lemma canonical_segment s : canonical_name s → s ≠ "" ∧ mem_byte "/"%char s = false.
Proof. rewrite canonical_name_iff. intros (_ & _ & ? & _ & _ & ? & _). done. Qed.

(** The display path is the joined segments. *)
Lemma pathOf_segs d i :
  tree_wf d → is_Some (nodes d !! i) →
  pathOf d i = "/" +:+ Join (path_segs (nodes d) i) "/".
Proof.
  intros Hwf Hi. pose proof (path_segs_names d i) as Hc. unfold pathOf.
  change (reverse _) with (path_segs (nodes d) i).
  destruct (path_segs (nodes d) i) as [|s segs]; [done|].
  destruct (String.eqb_spec ("/" +:+ Join (s :: segs) "/") "/") as [He|He].
  - exfalso. apply (sapp_inv_l "/" _ "") in He. apply Join_cons in He.
    destruct (canonical_segment s); [|done]. apply (Hc s); [done..|left].
  - destruct (String.eqb_spec ("/" +:+ Join (s :: segs) "/") ""); done.
Qed.

Lemma splitPath_pathOf d i :
  tree_wf d → is_Some (nodes d !! i) → splitPath (pathOf d i) = path_segs (nodes d) i.
Proof.
  intros Hwf Hi. rewrite pathOf_segs by done. apply splitPath_Join.
  apply Forall_forall. intros s Hs. by eapply canonical_segment, path_segs_names.
Qed.

Definition lookup_step (d : db) (n : Node) (seg : string) : res Node :=
  seg ← NormalizeName seg; childByName d (ID n) seg.

Lemma nodeByPath_fold d path rr :
  nodes d !! root = Some rr →
  nodeByPath root d path = foldM (lookup_step d) (scanNode d root rr) (splitPath path).
Proof. intros Hr. unfold nodeByPath. by rewrite nodeByIDTx_cases, Hr. Qed.

Lemma resolve_segs d i r rr :
  tree_wf d → nodes d !! root = Some rr → nodes d !! i = Some r → trashed_at r = None →
  foldM (lookup_step d) (scanNode d root rr) (path_segs (nodes d) i) = Ok (scanNode d i r).
Proof.
  intros Hwf Hrr Hi Ht. destruct (wf_anc _ _ Hwf i) as [l Hl]; [eauto|].
  revert r Hi Ht. induction Hl as [i r' Hi' Hp|i r' p l Hi' Hp Hl IH]; intros r Hi Ht;
    assert (r' = r) as -> by congruence.
  - rewrite (path_segs_root _ _ _ Hi Hp). simpl.
    rewrite (wf_only_root _ _ Hwf i r Hi Hp) in *. congruence.
  - rewrite (path_segs_step _ _ _ _ _ Hi Hp Hl), foldM_app.
    destruct (wf_parent _ _ Hwf i r p Hi Hp) as (pr & Hpr & _).
    rewrite (IH pr Hpr (wf_live_parent _ _ Hwf i r p pr Hi Ht Hp Hpr)). simpl.
    unfold lookup_step. assert (i ≠ root) as Hne.
    { intros ->. destruct (wf_root _ _ Hwf) as (? & ? & ? & _). congruence. }
    rewrite (wf_name _ _ Hwf i r Hi Hne). simpl.
    assert (childByName d p (name r) = Ok (scanNode d i r)) as ->; [|done].
    apply (childByName_Ok_iff root); [done|]. by exists i, r.
Qed.

(** What a successful lookup found. *)
Lemma lookup_segs d segs n rr :
  tree_wf d → nodes d !! root = Some rr →
  foldM (lookup_step d) (scanNode d root rr) segs = Ok n →
  ∃ r, nodes d !! ID n = Some r ∧ n = scanNode d (ID n) r ∧ trashed_at r = None ∧
    mapR NormalizeName segs = Ok (path_segs (nodes d) (ID n)).
Proof.
  intros Hwf Hrr. destruct (wf_root _ _ Hwf) as (rr' & Hrr' & Hp & _ & Ht & _).
  assert (rr' = rr) as -> by congruence. revert n.
  induction segs as [|seg segs IH] using rev_ind; intros n Hn.
  - apply Ok_inj in Hn as <-. exists rr. simpl.
    by rewrite (path_segs_root _ _ _ Hrr Hp).
  - rewrite foldM_app in Hn. apply bind_Ok_iff in Hn as (m & Hm & Hn).
    destruct (IH m Hm) as (rm & Hrm & _ & _ & Hmap). simpl in Hn.
    apply bind_Ok_iff in Hn as (n' & Hs & Hn). apply Ok_inj in Hn as ->.
    apply bind_Ok_iff in Hs as (seg' & Hseg & Hc).
    apply (childByName_Ok_iff root) in Hc as (i & r & Hi & -> & Hpi & Hni & Hti); [|done].
    exists r. simpl. split_and!; try done.
    destruct (wf_anc _ _ Hwf (ID m)) as [l Hl]; [eauto|].
    rewrite (path_segs_step _ _ _ _ _ Hi Hpi Hl).
    apply mapR_Forall2. apply Forall2_app; [by apply mapR_Forall2|].
    constructor; [congruence|constructor].
Qed.

Lemma nodeByPath_Ok_iff d path n :
  tree_wf d →
  nodeByPath root d path = Ok n ↔
  ∃ i r, nodes d !! i = Some r ∧ trashed_at r = None ∧ n = scanNode d i r ∧
    mapR NormalizeName (splitPath path) = Ok (path_segs (nodes d) i).
Proof.
  intros Hwf. destruct (wf_root _ _ Hwf) as (rr & Hrr & _).
  rewrite (nodeByPath_fold _ _ _ Hrr). split.
  - intros Hn. destruct (lookup_segs _ _ _ _ Hwf Hrr Hn) as (r & ? & ? & ? & ?).
    by exists (ID n), r.
  - intros (i & r & Hi & Ht & -> & Hm).
    rewrite <- (resolve_segs d i r rr Hwf Hrr Hi Ht).
    apply mapR_Forall2 in Hm. generalize (scanNode d root rr).
    assert (Forall canonical_name (path_segs (nodes d) i)) as Hc.
    { apply Forall_forall. intros s Hs. eapply path_segs_names; eauto. }
    revert Hm Hc. generalize (path_segs (nodes d) i) (splitPath path).
    induction 1 as [|s s' l l' Hs Hl IH]; intros Hc m; [done|].
    apply Forall_cons in Hc as [Hs' Hc]. simpl.
    assert (lookup_step d m s = lookup_step d m s') as -> by (unfold lookup_step; by rewrite Hs, Hs').
    destruct (lookup_step d m s'); simpl; [by apply IH|done].
Qed.

(** Display paths depend on the shape of the tree only. *)
Lemma path_segs_shape ns ns' i l :
  (∀ j, option_Forall2 same_shape (ns !! j) (ns' !! j)) → anc ns i l →
  path_segs ns' i = path_segs ns i.
Proof.
  intros Hshape. assert (∀ j r, ns !! j = Some r → ∃ r', ns' !! j = Some r' ∧
    parent_id r' = parent_id r ∧ name r' = name r) as Hfwd.
  { intros j r Hj. specialize (Hshape j). rewrite Hj in Hshape.
    inversion Hshape as [? r' (? & ? & _)|]; subst. eauto. }
  induction 1 as [i r Hi Hp|i r p l Hi Hp Hl IH];
    destruct (Hfwd i r Hi) as (r' & Hi' & Hp' & Hn').
  - rewrite (path_segs_root _ _ _ Hi Hp). by eapply path_segs_root; [|rewrite Hp'].
  - rewrite (path_segs_step _ _ _ _ _ Hi Hp Hl), <- IH, <- Hn'.
    eapply path_segs_step; [done|congruence|]. eapply anc_keep; [done|].
    intros j s _ Hs. destruct (Hfwd j s Hs) as (s' & ? & ? & _). eauto.
Qed.

Lemma pathOf_shape d d' i :
  tree_wf d → tree_wf d' → is_Some (nodes d !! i) →
  (∀ j, option_Forall2 same_shape (nodes d !! j) (nodes d' !! j)) →
  pathOf d' i = pathOf d i.
Proof.
  intros Hwf Hwf' Hi Hshape. assert (is_Some (nodes d' !! i)) as Hi'.
  { specialize (Hshape i). destruct Hi as [r Hr]. rewrite Hr in Hshape.
    inversion Hshape; subst; eauto. }
  rewrite !pathOf_segs by done. destruct (wf_anc _ _ Hwf i Hi) as [l Hl].
  by rewrite (path_segs_shape _ _ _ _ Hshape Hl).
Qed.

(** ** Properties *)

(** looking up the display path of a live node returns that node, in every
    well-formed tree. *)
Theorem nodeByPath_pathOf d i r :
  tree_wf d → nodes d !! i = Some r → trashed_at r = None →
  nodeByPath root d (pathOf d i) = Ok (scanNode d i r).
Proof.
  intros Hwf Hi Ht. apply nodeByPath_Ok_iff; [done|]. exists i, r. split_and!; try done.
  rewrite splitPath_pathOf by eauto. apply mapR_Forall2, Forall_Forall2_diag, Forall_forall.
  intros s Hs. eapply path_segs_names; eauto.
Qed.

(** A lookup only ever returns live nodes, and the path it was given is a
    spelling of the node's display path: the same segments up to Unicode
    normalization and repeated or trailing slashes. *)
Theorem nodeByPath_sound d path n :
  tree_wf d → nodeByPath root d path = Ok n →
  TrashedAt n = None ∧
  ∃ segs, mapR NormalizeName (splitPath path) = Ok segs ∧
    pathOf d (ID n) = "/" +:+ Join segs "/".
Proof.
  intros Hwf Hn. apply nodeByPath_Ok_iff in Hn as (i & r & Hi & Ht & -> & Hm); [|done].
  split; [done|]. eexists. split; [done|]. apply pathOf_segs; [done|eauto].
Qed.

End paths.
