(* ===== verification/Trash.v ===== *)
(** * The trash (internal/store/trash.go)

    Soft deletion of subtrees, restoration, and the emptying of the trash. *)
From S2P Require Import Prelude GoText Names Tables Tree.

(** ** Trashing *)

Definition mark_trashed (now : string) (r : node_row) : node_row :=
  MkNodeRow (parent_id r) (name r) (kind r) (current_version_id r) (revision r + 1)
    (created_at r) now (Some now) (trash_parent r) (trash_name r).

Definition detach (root : Z) (origin : Z) (nm : string) (r : node_row) : node_row :=
  MkNodeRow (Some root) (name r) (kind r) (current_version_id r) (revision r)
    (created_at r) (modified_at r) (trashed_at r) (Some origin) (Some nm).

Definition in_ids (ids : list Z) (i : Z) (r : node_row) : bool := bool_decide (i ∈ ids).

Section trash.
Context (rootID : Z).

Definition trashNodeTx (d : db) (n : Node) (now : string) : res db :=
  let id := ID n in
  let ids := subtree is_live (nodes d) id in
  d ← exec d (update_where (in_ids ids) (mark_trashed now) (nodes d)) ErrOther;
  (* [*n.ParentID] *)
  parent ← from_lookup (ParentID n) ErrOther;
  d ← exec d (update_where (is_id id) (detach rootID parent (Name n)) (nodes d)) ErrOther;
  bumpRevisionTx d parent now.

Context `{Normalizer} `{AuditedTree}.

Definition Trash (id ifRev : Z) (now : string) (d : db) : db * res (Node * string) :=
  if (id =? rootID)%Z then (d, Err ErrIsRoot)
  else withStorageTx (λ d,
    n ← nodeByIDTx d id;
    if audit_active d then
      '(d, trashed, origPath) ← trashAuditedTx d n ifRev;
      Ok (d, (trashed, origPath))
    else
      _ ← check (bool_decide (TrashedAt n = None)) ErrNotFound;
      _ ← check (negb (stale ifRev (Revision n))) ErrStaleRevision;
      let origPath := pathOf d id in
      d ← trashNodeTx d n now;
      trashed ← nodeByIDTx d id;
      Ok (d, (trashed, origPath))) d.

Definition TrashPathRevision (path : string) (ifRev : Z) (now : string) (d : db) :
    db * res (Node * string) :=
  withStorageTx (λ d,
    n ← nodeByPath rootID d path;
    _ ← check (negb (ID n =? rootID)%Z) ErrIsRoot;
    if audit_active d then
      '(d, trashed, origPath) ← trashAuditedTx d n ifRev;
      Ok (d, (trashed, origPath))
    else
      _ ← check (negb (stale ifRev (Revision n))) ErrStaleRevision;
      let origPath := pathOf d (ID n) in
      d ← trashNodeTx d n now;
      trashed ← nodeByIDTx d (ID n);
      Ok (d, (trashed, origPath))) d.

Definition TrashPath (path now : string) (d : db) : db * res (Node * string) :=
  TrashPathRevision path UnconditionalRev now d.

(** ** Restoring *)

(** The probe loop of [nextFreeNameTx]; [fuel] bounds the ordinals tried. *)
Fixpoint next_free (ns : gmap Z node_row) (p : Z) (base ext : string) (fuel : nat) (n : Z) :
    res string :=
  match fuel with
  | 0 => Err Diverges
  | S fuel =>
      let candidate := suffixedName base ext n in
      match select (live_child p candidate) ns with
      | [] => Ok candidate
      | _ => next_free ns p base ext fuel (n + 1)
      end
  end.

(** There are no more taken candidates than rows, so one probe more than
    there are rows always finds a free one. *)
Definition nextFreeNameTx (d : db) (parentID : Z) (nm : string) : res string :=
  let '(base, ext) := splitSuffix nm in
  next_free (nodes d) parentID base ext (S (size (nodes d))) 1.

Record restoreTarget := MkTarget {
  destID : Z;
  originParentID : option Z;
  originalName : string;
  finalName : string;
}.

Definition restoreTargetTx (d : db) (n : Node) : res restoreTarget :=
  r ← from_lookup (nodes d !! ID n) ErrOther;
  originalName ← from_lookup (trash_name r) ErrNotTrashed;
  destID ←
    match trash_parent r with
    | None => Ok rootID
    | Some origin =>
        match liveDirTx d origin with
        | Ok _ => Ok origin
        | Err (ErrNotFound | ErrNotDir) => Ok rootID
        | Err e => Err e
        end
    end;
  finalName ← nextFreeNameTx d destID originalName;
  Ok (MkTarget destID (trash_parent r) originalName finalName).

Definition reattach (p : Z) (nm now : string) (r : node_row) : node_row :=
  MkNodeRow (Some p) nm (kind r) (current_version_id r) (revision r + 1)
    (created_at r) now None None None.

Definition mark_restored (now : string) (r : node_row) : node_row :=
  MkNodeRow (parent_id r) (name r) (kind r) (current_version_id r) (revision r + 1)
    (created_at r) now None (trash_parent r) (trash_name r).

Definition has_stamp (stamp : string) (r : node_row) : bool :=
  bool_decide (trashed_at r = Some stamp).

Definition restoreNodeTx (d : db) (n : Node) (target : restoreTarget) (now : string) :
    res (db * Node) :=
  d ← exec d (update_where (is_id (ID n)) (reattach (destID target) (finalName target) now)
                (nodes d)) ErrOther;
  (* [*node.TrashedAt] *)
  stamp ← from_lookup (TrashedAt n) ErrOther;
  let ids := subtree (has_stamp stamp) (nodes d) (ID n) in
  d ← exec d (update_where (λ i r, in_ids ids i r && has_stamp stamp r) (mark_restored now)
                (nodes d)) ErrOther;
  d ← bumpRevisionTx d (destID target) now;
  n ← nodeByIDTx d (ID n);
  Ok (d, n).

Definition Restore (id ifRev : Z) (now : string) (d : db) : db * res (Node * string) :=
  withStorageTx (λ d,
    n ← nodeByIDTx d id;
    '(d, restored) ←
      (if audit_active d then restoreAuditedTx d n ifRev
       else
         _ ← check (bool_decide (TrashedAt n ≠ None)) ErrNotTrashed;
         _ ← check (negb (stale ifRev (Revision n))) ErrStaleRevision;
         target ← restoreTargetTx d n;
         restoreNodeTx d n target now);
    Ok (d, (restored, pathOf d (ID restored)))) d.

End trash.

(** ** Listing and emptying *)

Definition is_trash_root (r : node_row) : bool := bool_decide (trash_name r ≠ None).

Definition trash_stamp (d : db) (i : Z) : string :=
  default "" (r ← nodes d !! i; trashed_at r).

(** [ORDER BY trashed_at ASC, id ASC] *)
Definition oldest_first (d : db) (i j : Z) : Prop :=
  (trash_stamp d i ≠ trash_stamp d j ∧ String.le (trash_stamp d i) (trash_stamp d j))
  ∨ (trash_stamp d i = trash_stamp d j ∧ (i ≤ j)%Z).
#[export] Instance oldest_first_dec d : RelDecision (oldest_first d).
Proof. intros i j. unfold oldest_first. apply _. Defined.

(** [ORDER BY trashed_at DESC, id DESC] *)
Definition newest_first (d : db) (i j : Z) : Prop := oldest_first d j i.
#[export] Instance newest_first_dec d : RelDecision (newest_first d).
Proof. intros i j. unfold newest_first. apply _. Defined.

Definition maxTrashPageSize : Z := 1000.

Definition trash_roots (d : db) : list Z := select is_trash_root (nodes d).

(** [TrashedRootsPage]: one page and the number of roots. *)
Definition TrashedRootsPage (d : db) (limit offset : Z) : res (list Node * Z) :=
  if ((limit <? 1) || (maxTrashPageSize <? limit))%Z then Err ErrOther
  else if (offset <? 0)%Z then Err ErrOther
  else
    roots ← mapR (nodeByIDTx d)
              (page limit offset (merge_sort (newest_first d) (trash_roots d)));
    Ok (roots, Z.of_nat (length (trash_roots d))).

Record TrashEmptyResult := MkTrashEmpty {
  Candidates : Z;
  Deleted : Z;
  More : bool;
  Run : bool;
}.

(** Deleting the rendition records of content versions; their tables are not
    part of this model, which only sees whether the deletion succeeds. *)
Class RenditionTables := {
  deleteRenditionAuthorityForVersionsTx : db → list string → res unit;
}.

Section empty.
Context `{RenditionTables}.

(** The rows [selection] ranges over before its LIMIT, in order: the trash
    roots, at or before the cutoff if there is one. *)
Definition eligible_roots (d : db) (cutoff : option string) : list Z :=
  merge_sort (oldest_first d)
    (select (λ r, is_trash_root r &&
               match cutoff, trashed_at r with
               | None, _ => true
               | Some c, Some t => String.leb t c
               | Some _, None => false
               end) (nodes d)).

Definition bump_tag (t : tag_row) : tag_row := MkTagRow (t_name t) (t_revision t + 1).

(** [UPDATE tags SET revision = revision + 1 WHERE id IN (tags of doomed)] *)
Definition bump_tags_of (gone : list Z) (d : db) : db :=
  MkDb (nodes d) (node_seq d) (versions d) (checksums d)
    (map_imap (λ id t, Some (if bool_decide (set_Exists (λ nt, nt.2 = id ∧ nt.1 ∈ gone)
                                              (node_tags d))
                             then bump_tag t else t)) (tags d))
    (node_tags d) (audit_active d).

(** [trashEmpty] after the choice of the transaction: [cutoff] is the
    formatted [time.Now() - olderThan] of a positive age, and [maxRoots = 0]
    stands for no bound. *)
Definition trashEmptyTx (cutoff : option string) (maxRoots : Z) (run : bool) (d : db) :
    res (db * TrashEmptyResult) :=
  let all := eligible_roots d cutoff in
  let selection := if (0 <? maxRoots)%Z then take (Z.to_nat maxRoots) all else all in
  let candidates := Z.of_nat (length selection) in
  let more := (0 <? maxRoots)%Z && (maxRoots <? Z.of_nat (length all))%Z in
  if negb run then Ok (d, MkTrashEmpty candidates 0 more run)
  else
    let gone := doomed (nodes d) selection in
    let versionIDs :=
      merge_sort String.le
        (fst <$> filter (λ iv : string * version_row, v_node_id iv.2 ∈ gone)
                   (map_to_list (versions d))) in
    _ ← deleteRenditionAuthorityForVersionsTx d versionIDs;
    let d := bump_tags_of gone d in
    Ok (delete_nodes selection d, MkTrashEmpty candidates candidates more run).

Definition trashEmpty (cutoff : option string) (maxRoots : Z) (run : bool) (d : db) :
    db * res TrashEmptyResult :=
  (if run then withLogicalTx (trashEmptyTx cutoff maxRoots run)
   else withStorageTx (trashEmptyTx cutoff maxRoots run)) d.

Definition TrashEmptyBounded (cutoff : option string) (maxRoots : Z) (run : bool) (d : db) :
    db * res TrashEmptyResult :=
  if (maxRoots <=? 0)%Z then (d, Err ErrOther) else trashEmpty cutoff maxRoots run d.

End empty.
