(* ===== verification/TrashFacts.v ===== *)
(** * Facts about the trash

    Subtrees as chains of parent links, the smallest free name, and that
    trashing and restoring succeed and keep the tree invariant. *)
From S2P Require Import Prelude GoText Names Tables Tree TreeInv TreeFacts Trash.

(** ** Descent *)

(** [seg ns id i k]: following parent links from [i] through the rows [k]
    arrives at [id]. *)
Inductive seg (ns : gmap Z node_row) (id : Z) : Z → list Z → Prop :=
  | seg_here : seg ns id id []
  | seg_step i r p k :
      ns !! i = Some r → parent_id r = Some p → seg ns id p k → seg ns id i (i :: k).

Lemma seg_snoc ns c p r i k :
  seg ns c i k → ns !! c = Some r → parent_id r = Some p → seg ns p i (k ++ [c]).
Proof.
  intros Hs Hc Hp. induction Hs as [|i s q k Hi Hq Hs IH]; simpl.
  - eapply seg_step; [done|done|constructor].
  - by eapply seg_step.
Qed.

Lemma seg_last ns id i k :
  seg ns id i k →
  (k = [] ∧ i = id) ∨
  ∃ k' c r, k = k' ++ [c] ∧ ns !! c = Some r ∧ parent_id r = Some id ∧ seg ns c i k'.
Proof.
  induction 1 as [|i r p k Hi Hp Hs IH]; [by left|right].
  destruct IH as [[-> ->]|(k' & c & s & -> & Hc & Hpc & Hs')].
  - exists [], i, r. repeat split; [done|done|constructor].
  - exists (i :: k'), c, s. repeat split; try done. by eapply seg_step.
Qed.

Lemma seg_anc ns id i k l : seg ns id i k → anc ns id l → anc ns i (k ++ l).
Proof. induction 1; intros Hl; simpl; [done|]. eapply anc_step; eauto. Qed.

Lemma anc_seg ns id i l : anc ns i l → id ∈ l → ∃ k, seg ns id i k.
Proof.
  induction 1 as [i r Hi Hp|i r p l Hi Hp Hl IH]; intros Hid.
  - apply list_elem_of_singleton in Hid as ->. eexists; constructor.
  - apply elem_of_cons in Hid as [->|Hid]; [eexists; constructor|].
    destruct (IH Hid) as [k Hk]. eexists. by eapply seg_step.
Qed.

Lemma seg_keep ns ns' id i k :
  seg ns id i k →
  (∀ j r, j ∈ k → ns !! j = Some r → ∃ r', ns' !! j = Some r' ∧ parent_id r' = parent_id r) →
  seg ns' id i k.
Proof.
  induction 1 as [|i r p k Hi Hp Hs IH]; intros Hk; [constructor|].
  destruct (Hk i r) as (r' & Hi' & Hp'); [by left|done|].
  eapply seg_step; [done|by rewrite Hp'|]. apply IH. intros; apply Hk; [by right|done].
Qed.

(** On a chain that ends, the segment does not revisit its end. *)
Lemma seg_fresh ns id i k l : seg ns id i k → anc ns id l → id ∉ k.
Proof.
  intros Hs Hl. pose proof (anc_NoDup _ _ _ (seg_anc _ _ _ _ _ Hs Hl)) as Hnd.
  destruct (anc_head _ _ _ Hl) as [t ->]. apply NoDup_app in Hnd as (_ & Hd & _).
  intros Hin. apply (Hd id Hin). left.
Qed.

Definition row_satisfies (P : node_row → bool) (ns : gmap Z node_row) (j : Z) : Prop :=
  ∃ r, ns !! j = Some r ∧ P r = true.

Lemma elem_of_descend P ns fuel ids i :
  i ∈ descend P ns fuel ids ↔
  ∃ id k, id ∈ ids ∧ seg ns id i k ∧ Forall (row_satisfies P ns) k ∧ (length k < fuel)%nat.
Proof.
  revert i ids; induction fuel as [|fuel IH]; intros i ids.
  { simpl. split; [by intros ?%elem_of_nil|]. intros (? & ? & _ & _ & _ & ?). lia. }
  assert (∀ j, j ∈ ids ++ descend P ns fuel
      (select (λ r, match parent_id r with
                    | Some p => bool_decide (p ∈ ids) && P r | None => false end) ns) ↔
    j ∈ descend P ns (S fuel) ids) as <-.
  { destruct ids as [|x ids]; [|done]. intros j. simpl. split; [|by intros ?%elem_of_nil].
    rewrite IH. intros (c & k & Hc & _). apply elem_of_select in Hc as (r & _ & Hr).
    by destruct (parent_id r). }
  rewrite elem_of_app, IH. split.
  - intros [Hi|(c & k & Hc & Hs & Hk & Hf)].
    + exists i, []. split_and!; [done|constructor|constructor|simpl; lia].
    + apply elem_of_select in Hc as (r & Hr & Hc). destruct (parent_id r) as [p|] eqn:Hp; [|done].
      apply andb_true_iff in Hc as [Hc HP]. apply bool_decide_eq_true in Hc.
      exists p, (k ++ [c]). split_and!; [done|by eapply seg_snoc| |].
      * apply Forall_app. split; [done|]. constructor; [by exists r|constructor].
      * rewrite length_app. simpl. lia.
  - intros (id & k & Hid & Hs & Hk & Hf).
    destruct (seg_last _ _ _ _ Hs) as [[-> ->]|(k' & c & r & -> & Hc & Hp & Hs')]; [by left|right].
    apply Forall_app in Hk as [Hk Hck]. apply Forall_cons in Hck as [(r' & Hr' & HP) _].
    exists c, k'. split_and!; [|done|done|].
    + apply elem_of_select. exists r. split; [done|]. rewrite Hp.
      rewrite bool_decide_eq_true_2 by done. simpl. congruence.
    + rewrite length_app in Hf. simpl in Hf. lia.
Qed.

(** One round more than there are rows reaches the whole subtree. *)
Lemma elem_of_subtree P ns id i l :
  anc ns id l →
  i ∈ subtree P ns id ↔ ∃ k, seg ns id i k ∧ Forall (row_satisfies P ns) k.
Proof.
  intros Hl. unfold subtree. rewrite elem_of_descend.
  assert (is_Some (ns !! id)) as Hid.
  { destruct (anc_head _ _ _ Hl) as [t ->]. eapply anc_in; [done|left]. }
  rewrite bool_decide_eq_true_2 by done. split.
  - intros (id' & k & ->%list_elem_of_singleton & Hs & Hk & _). eauto.
  - intros (k & Hs & Hk). exists id, k. split_and!; [left|done|done|].
    pose proof (anc_length _ _ _ (seg_anc _ _ _ _ _ Hs Hl)) as Hlen.
    rewrite length_app in Hlen. lia.
Qed.

(** ** The smallest free name *)

Lemma next_free_Ok ns p base ext fuel n nm :
  next_free ns p base ext fuel n = Ok nm →
  ∃ m, (n ≤ m)%Z ∧ nm = suffixedName base ext m ∧ ¬ taken ns p nm ∧
    ∀ k, (n ≤ k < m)%Z → taken ns p (suffixedName base ext k).
Proof.
  revert n; induction fuel as [|fuel IH]; intros n Hn; simpl in Hn; [done|].
  destruct (select (live_child p (suffixedName base ext n)) ns) as [|i l] eqn:Hs.
  - apply Ok_inj in Hn as <-. exists n. split_and!; [lia|done| |intros; lia].
    rewrite taken_select, Hs. auto.
  - destruct (IH _ Hn) as (m & Hm & -> & Hfree & Htk). exists m.
    split_and!; [lia|done|done|]. intros k Hk. destruct (decide (k = n)) as [->|].
    + rewrite taken_select, Hs. done.
    + apply Htk. lia.
Qed.

(** Each taken candidate uses up a row, so the probe loop ends. *)
Lemma next_free_total ns p base ext fuel n used :
  NoDup used → (∀ i, i ∈ used → ∃ r k, ns !! i = Some r ∧ (k < n)%Z ∧
    name r = suffixedName base ext k) →
  (size ns < length used + fuel)%nat →
  ∃ nm, next_free ns p base ext fuel n = Ok nm.
Proof.
  revert n used; induction fuel as [|fuel IH]; intros n used Hnd Hused Hlen.
  { exfalso. assert (list_to_set used ⊆ (dom ns : gset Z)) as Hsub.
    { intros i Hi. apply elem_of_list_to_set, Hused in Hi as (r & _ & Hi & _).
      apply elem_of_dom. eauto. }
    apply subseteq_size in Hsub. rewrite size_dom, size_list_to_set in Hsub by done. lia. }
  simpl. destruct (select _ ns) as [|i l] eqn:Hs; [eauto|].
  assert (i ∈ select (live_child p (suffixedName base ext n)) ns) as Hi by (rewrite Hs; left).
  apply elem_of_select in Hi as (r & Hr & Hc). apply live_child_true in Hc as (_ & Hn & _).
  apply (IH (n + 1)%Z (i :: used)).
  - apply NoDup_cons. split; [|done]. intros (r' & k & Hr' & Hk & Hn')%Hused.
    assert (r' = r) as -> by congruence.
    rewrite Hn in Hn'. apply suffixedName_inj in Hn'. lia.
  - intros j [->|Hj]%elem_of_cons; [exists r, n; split_and!; [done|lia|done]|].
    destruct (Hused j Hj) as (s & k & ? & ? & ?). exists s, k. split_and!; [done|lia|done].
  - simpl. lia.
Qed.

Lemma nextFreeNameTx_total d p nm : ∃ free, nextFreeNameTx d p nm = Ok free.
Proof.
  unfold nextFreeNameTx. destruct (splitSuffix nm) as [base ext].
  apply (next_free_total _ _ _ _ _ _ []); [constructor|by intros ? ?%elem_of_nil|simpl; lia].
Qed.

Lemma nextFreeNameTx_Ok d p nm free :
  nextFreeNameTx d p nm = Ok free →
  ¬ taken (nodes d) p free ∧
  ∃ m, (1 ≤ m)%Z ∧ free = suffixedName (splitSuffix nm).1 (splitSuffix nm).2 m ∧
    ∀ k, (1 ≤ k < m)%Z →
      taken (nodes d) p (suffixedName (splitSuffix nm).1 (splitSuffix nm).2 k).
Proof.
  unfold nextFreeNameTx. destruct (splitSuffix nm) as [base ext]. cbn [fst snd].
  intros (m & ? & -> & ? & ?)%next_free_Ok. eauto.
Qed.

(** ** Trashing *)

Section facts.
Context `{Normalizer} (root : Z).
Notation tree_wf := (tree_wf root).

(** Everything below a live node other than the root is live. *)
Lemma seg_live d id r i k :
  tree_wf d → nodes d !! id = Some r → trashed_at r = None → id ≠ root →
  seg (nodes d) id i k → Forall (row_satisfies is_live (nodes d)) k.
Proof.
  intros Hwf Hid Ht Hroot Hs.
  assert (∀ j p k', seg (nodes d) id p k' → Forall (row_satisfies is_live (nodes d)) k' →
    ∀ s, nodes d !! j = Some s → parent_id s = Some p → row_satisfies is_live (nodes d) j) as Hup.
  { intros j p k' Hk' Hl s Hj Hp. exists s. split; [done|]. unfold is_live.
    apply bool_decide_eq_true. destruct (trashed_at s) as [st|] eqn:Hst; [|done]. exfalso.
    assert (∃ ps, nodes d !! p = Some ps ∧ trashed_at ps = None ∧ p ≠ root) as (ps & Hps & Hpt & Hpr).
    { inversion Hk' as [|? s' q ? Hq Hpq Hk'']; subst; [eauto|].
      apply Forall_cons in Hl as [(ps & Hps & Hpl) _]. exists ps. split_and!; [done| |].
      - by apply bool_decide_eq_true in Hpl.
      - intros ->. destruct (wf_root _ _ Hwf) as (? & ? & ? & _). congruence. }
    destruct (trash_name s) as [nm|] eqn:Hn.
    - pose proof (wf_trash_root _ _ Hwf j s nm Hj Hn). congruence.
    - destruct (wf_trashed _ _ Hwf j s st Hj Hst Hn) as (q & qr & ? & ? & ?). congruence. }
  induction Hs as [|i s p k Hi Hp Hs IH]; [constructor|].
  constructor; [|apply IH]. by eapply Hup.
Qed.

Lemma subtree_live d id r i :
  tree_wf d → nodes d !! id = Some r → trashed_at r = None → id ≠ root →
  i ∈ subtree is_live (nodes d) id ↔ ∃ k, seg (nodes d) id i k.
Proof.
  intros Hwf Hid Ht Hroot. destruct (wf_anc _ _ Hwf id) as [l Hl]; [eauto|].
  rewrite (elem_of_subtree _ _ _ _ _ Hl). split; [naive_solver|].
  intros [k Hk]. exists k. split; [done|]. by eapply seg_live.
Qed.

Lemma seg_root d id k : tree_wf d → seg (nodes d) id root k → id = root.
Proof.
  intros Hwf Hs. destruct (wf_root _ _ Hwf) as (rr & Hrr & Hp & _).
  inversion Hs; congruence.
Qed.

Definition trashed_row (id oldp : Z) (ids : list Z) (now : string) (i : Z) (r : node_row) :
    node_row :=
  if decide (i = id) then detach root oldp (name r) (mark_trashed now r)
  else if decide (i ∈ ids) then mark_trashed now r
  else r.

Section trashed.
Context (d : db) (id oldp : Z) (r : node_row) (now : string).
Context (Hwf : tree_wf d) (Hr : nodes d !! id = Some r) (Ht : trashed_at r = None).
Context (Hold : parent_id r = Some oldp).

Let ids := subtree is_live (nodes d) id.
Let g := trashed_row id oldp ids now.

Lemma trashed_not_root : id ≠ root.
Proof using All. intros ->. destruct (wf_root _ _ Hwf) as (? & ? & ? & _). congruence. Qed.

Lemma in_ids_seg i : i ∈ ids ↔ ∃ k, seg (nodes d) id i k.
Proof using All. eapply subtree_live; try done. apply trashed_not_root. Qed.

Lemma in_ids_id : id ∈ ids.
Proof using All. apply in_ids_seg. eexists. constructor. Qed.

Lemma in_ids_child i s p : nodes d !! i = Some s → parent_id s = Some p → p ∈ ids → i ∈ ids.
Proof using All. rewrite !in_ids_seg. intros Hi Hp [k Hk]. eexists. by eapply seg_step. Qed.

Lemma in_ids_parent i s : i ∈ ids → i ≠ id → nodes d !! i = Some s →
  ∃ p, parent_id s = Some p ∧ p ∈ ids.
Proof using All.
  rewrite in_ids_seg. intros [k Hk] Hne Hi. inversion Hk as [|? s' p ? Hi' Hp Hk']; [done|].
  exists p. split; [congruence|]. apply in_ids_seg. eauto.
Qed.

Lemma in_ids_live i s : i ∈ ids → nodes d !! i = Some s → trashed_at s = None.
Proof using All.
  rewrite in_ids_seg. intros [k Hk] Hi.
  pose proof (seg_live d id r i k Hwf Hr Ht trashed_not_root Hk) as Hl.
  inversion Hk as [|? s' p ? Hi' Hp Hk']; subst; [congruence|].
  apply Forall_cons in Hl as [(s'' & ? & Hs) _]. apply bool_decide_eq_true in Hs. congruence.
Qed.

Lemma root_not_in_ids : root ∉ ids.
Proof using All.
  rewrite in_ids_seg. intros [k Hk]. apply seg_root in Hk; [|done]. by apply trashed_not_root.
Qed.

Lemma tree_wf_trashed : tree_wf (with_nodes d (map_imap (λ i r, Some (g i r)) (nodes d))).
Proof using All.
  pose proof trashed_not_root as Hid. pose proof (wf_anc_root root d Hwf) as Hra.
  destruct (wf_root _ _ Hwf) as (rr & Hrr & _ & Hrk & Hrt & _).
  assert (∀ i s, i ≠ id → trash_name (g i s) = trash_name s ∧ parent_id (g i s) = parent_id s ∧
    name (g i s) = name s) as Hne.
  { intros i s Hi. unfold g, trashed_row. rewrite decide_False by done. by case_decide. }
  assert (∀ i s, trashed_at (g i s) = if decide (i ∈ ids) then Some now else trashed_at s) as Htg.
  { intros i s. unfold g, trashed_row. destruct (decide (i = id)) as [->|].
    - by rewrite decide_True by apply in_ids_id.
    - by case_decide. }
  assert (∀ s, parent_id (g id s) = Some root ∧ trash_name (g id s) = Some (name s) ∧
    name (g id s) = name s) as Hgid by (intros s; unfold g, trashed_row; by rewrite decide_True).
  eapply (tree_wf_edit root d _ g id root [root] rr); try done; simpl.
  - intros i. rewrite map_lookup_imap. by destruct (nodes d !! i).
  - intros i s _. unfold g, trashed_row. repeat case_decide; simpl; split_and!; try done; lia.
  - rewrite list_elem_of_singleton. done.
  - intros s _. rewrite Htg, (decide_False (P := root ∈ ids)) by apply root_not_in_ids.
    by destruct (Hne root s) as (_ & _ & ->).
  - intros i s Hs. rewrite Htg. case_decide as Hin; [done|]. intros Hst.
    destruct (Hne i s) as (-> & _ & _); [intros ->; by apply Hin, in_ids_id|].
    by apply (wf_live _ _ Hwf i).
  - intros i s q qr Hs. rewrite !Htg. case_decide as Hin; [done|]. intros Hst.
    destruct (Hne i s) as (_ & -> & _); [intros ->; by apply Hin, in_ids_id|]. intros Hq Hqr.
    rewrite decide_False; [by apply (wf_live_parent _ _ Hwf i s q qr)|].
    intros Hqin. apply Hin. by eapply in_ids_child.
  - intros i s st Hs. rewrite Htg. destruct (decide (i = id)) as [->|Hi].
    { destruct (Hgid s) as (_ & -> & _). done. }
    destruct (Hne i s Hi) as (-> & -> & _). case_decide as Hin; intros Hst Htn.
    + destruct (in_ids_parent i s Hin Hi Hs) as (p & Hp & Hpin).
      destruct (wf_parent _ _ Hwf i s p Hs Hp) as (pr & Hpr & _).
      exists p, pr. by rewrite Htg, decide_True.
    + destruct (wf_trashed _ _ Hwf i s st Hs Hst Htn) as (p & pr & Hp & Hpr & Hpt).
      exists p, pr. rewrite Htg, decide_False; [done|].
      intros Hpin. apply Hin. by eapply in_ids_child.
  - intros i s nm Hs. destruct (decide (i = id)) as [->|Hi].
    + destruct (Hgid s) as (-> & -> & _). intros [= <-]. split; [done|].
      by apply (wf_name _ _ Hwf id).
    + destruct (Hne i s Hi) as (-> & -> & _). intros Hn.
      split; [by eapply (wf_trash_root _ _ Hwf)|by eapply (wf_trash_name _ _ Hwf)].
  - intros i j s t q Hs Hj. destruct (decide (i = id)) as [->|Hi].
    { destruct (Hgid s) as (_ & -> & _). done. }
    destruct (decide (j = id)) as [->|Hji].
    { destruct (Hgid t) as (_ & -> & _). done. }
    destruct (Hne i s Hi) as (-> & -> & ->), (Hne j t Hji) as (-> & -> & ->).
    intros. by eapply (wf_unique _ _ Hwf i j s t q).
  - intros i s Hs Hi. assert (name (g i s) = name s) as ->; [|by apply (wf_name _ _ Hwf i)].
    destruct (decide (i = id)) as [->|Hi']; [by apply Hgid|by apply Hne].
Qed.

(** Neither statement can violate an index: trashed rows are outside the
    sibling index. *)
Lemma trashNodeTx_rows n :
  n = scanNode d id r →
  trashNodeTx root d n now =
  bumpRevisionTx (with_nodes d (map_imap (λ i r, Some (g i r)) (nodes d))) oldp now.
Proof using All.
  intros ->.
  assert (update_where (in_ids ids) (mark_trashed now) (nodes d)
    = Some (set_where (in_ids ids) (mark_trashed now) (nodes d))) as H1.
  { apply update_where_ok. intros i j ri rj Hij Hi Hj Hin. split; [|intros _];
      apply not_true_iff_false; rewrite clash_true; intros [(k & Hk & _)|[Hp Hq]]; try done;
      apply Hij; rewrite (wf_only_root _ _ Hwf i ri), (wf_only_root _ _ Hwf j rj); done. }
  assert (update_where (is_id id) (detach root oldp (name r))
            (set_where (in_ids ids) (mark_trashed now) (nodes d))
    = Some (set_where (is_id id) (detach root oldp (name r))
            (set_where (in_ids ids) (mark_trashed now) (nodes d)))) as H2.
  { apply update_where_ok. intros i j ri rj Hij Hi Hj Hin. unfold is_id in *.
    apply Z.eqb_eq in Hin as ->. rewrite lookup_set_where, Hr in Hi. injection Hi as <-.
    unfold in_ids. rewrite bool_decide_eq_true_2 by apply in_ids_id. split.
    - apply not_true_iff_false. rewrite clash_true. intros [(k & Hk & _)|[Hp _]]; done.
    - intros Hji%Z.eqb_eq. congruence. }
  unfold trashNodeTx, exec. cbn [ID scanNode ParentID Name].
  fold ids. rewrite H1. cbn. rewrite Hold. cbn. rewrite H2. cbn.
  do 2 f_equal. unfold with_nodes. f_equal. simpl. apply map_eq. intros i.
  rewrite lookup_set_id, lookup_set_where, map_lookup_imap.
  destruct (nodes d !! i) as [s|] eqn:Hi; [|done]. simpl. f_equal. unfold g, trashed_row, in_ids.
  destruct (decide (i = id)) as [->|].
  - rewrite bool_decide_eq_true_2 by apply in_ids_id. congruence.
  - by case_bool_decide; case_decide.
Qed.

Lemma trashNodeTx_ok n :
  n = scanNode d id r →
  ∃ d', trashNodeTx root d n now = Ok d' ∧ tree_wf d' ∧
    d' = with_nodes d (set_where (is_id oldp) (bump now)
           (map_imap (λ i r, Some (g i r)) (nodes d))).
Proof using All.
  intros Hn. rewrite trashNodeTx_rows by done.
  destruct (bumpRevisionTx_ok root _ oldp now tree_wf_trashed) as [Hb Hw]. rewrite Hb. eauto.
Qed.

End trashed.
(** ** Restoring *)

(** Everything below a trashed node carries its stamp and is no trash root. *)
Lemma seg_stamp d id r st i k :
  tree_wf d → nodes d !! id = Some r → trashed_at r = Some st →
  seg (nodes d) id i k →
  ∀ j, j ∈ k → ∃ s, nodes d !! j = Some s ∧ trashed_at s = Some st ∧ trash_name s = None.
Proof.
  intros Hwf Hid Ht Hs.
  induction Hs as [|i s p k Hi Hp Hs IH]; [by intros j ?%elem_of_nil|].
  intros j [->|Hj]%elem_of_cons; [|by apply IH].
  assert (∃ ps, nodes d !! p = Some ps ∧ trashed_at ps = Some st) as (ps & Hps & Hpt).
  { inversion Hs as [|? s' q k' Hp' Hq Hs']; subst; [eauto|].
    destruct (IH p) as (ps & ? & ? & _); [left|eauto]. }
  exists s. destruct (trash_name s) as [nm|] eqn:Hn.
  { pose proof (wf_trash_root _ _ Hwf i s nm Hi Hn) as Hroot.
    destruct (wf_root _ _ Hwf) as (rr & ? & _ & _ & ? & _). congruence. }
  destruct (trashed_at s) as [st'|] eqn:Hst.
  - destruct (wf_trashed _ _ Hwf i s st' Hi Hst Hn) as (q & qr & ? & ? & ?).
    split_and!; congruence.
  - pose proof (wf_live_parent _ _ Hwf i s p ps Hi Hst Hp Hps). congruence.
Qed.

Definition restored_row (id dest : Z) (nm : string) (ids : list Z) (now : string) (i : Z)
    (r : node_row) : node_row :=
  if decide (i = id) then reattach dest nm now r
  else if decide (i ∈ ids) then mark_restored now r
  else r.

Section restored.
Context (d : db) (id dest : Z) (r pr : node_row) (st nm now : string) (lp : list Z).
Context (Hwf : tree_wf d) (Hr : nodes d !! id = Some r) (Ht : trashed_at r = Some st).
Context (Hpr : nodes d !! dest = Some pr) (Hpt : trashed_at pr = None) (Hpk : kind pr = dir).
Context (Hlp : anc (nodes d) dest lp).
Context (Hnm : canonical_name nm) (Hfree : ¬ taken (nodes d) dest nm).

Let ns1 := set_where (is_id id) (reattach dest nm now) (nodes d).
Let ids := subtree (has_stamp st) ns1 id.
Let g := restored_row id dest nm ids now.

Lemma restored_not_root : id ≠ root.
Proof using All. intros ->. destruct (wf_root _ _ Hwf) as (? & ? & _ & _ & ? & _). congruence. Qed.

Lemma restored_not_above : id ∉ lp.
Proof using All.
  intros Hin. pose proof (wf_anc_live root d dest pr lp id r Hwf Hpr Hpt Hlp Hin Hr). congruence.
Qed.

Lemma lookup_ns1 i :
  ns1 !! i = (λ s, if decide (i = id) then reattach dest nm now s else s) <$> nodes d !! i.
Proof using Type. apply lookup_set_id. Qed.

Lemma ns1_keep i s : nodes d !! i = Some s → i ≠ id → ns1 !! i = Some s.
Proof using Type. intros Hi Hne. rewrite lookup_ns1, Hi. simpl. by rewrite decide_False. Qed.

Lemma ns1_anc i l : anc (nodes d) i l → ∃ l', anc ns1 i l'.
Proof using All.
  eapply anc_reparent; [exact Hlp|apply restored_not_above|].
  intros j s Hj. rewrite lookup_ns1, Hj. simpl. eexists. split; [done|]. by case_decide.
Qed.

Lemma seg_ns1 i k :
  seg (nodes d) id i k ↔ seg ns1 id i k.
Proof using All.
  destruct (wf_anc _ _ Hwf id) as [l Hl]; [eauto|].
  destruct (ns1_anc id l Hl) as [l' Hl'].
  split; intros Hs.
  - pose proof (seg_fresh _ _ _ _ _ Hs Hl) as Hid. eapply seg_keep; [done|].
    intros j s Hj Hsj. exists s. split; [|done]. apply ns1_keep; [done|]. by intros ->.
  - pose proof (seg_fresh _ _ _ _ _ Hs Hl') as Hid. eapply seg_keep; [done|].
    intros j s Hj Hsj. rewrite lookup_ns1 in Hsj. destruct (nodes d !! j) as [s'|]; [|done].
    exists s'. split; [done|]. simpl in Hsj. rewrite decide_False in Hsj by (by intros ->).
    congruence.
Qed.

Lemma in_rids_seg i : i ∈ ids ↔ ∃ k, seg (nodes d) id i k.
Proof using All.
  destruct (wf_anc _ _ Hwf id) as [l Hl]; [eauto|].
  destruct (ns1_anc id l Hl) as [l' Hl']. unfold ids.
  rewrite (elem_of_subtree _ _ _ _ _ Hl'). setoid_rewrite <- seg_ns1.
  split; [naive_solver|]. intros [k Hk]. exists k. split; [done|].
  apply Forall_forall. intros j Hj.
  destruct (seg_stamp d id r st i k Hwf Hr Ht Hk j Hj) as (s & Hs & Hst & _).
  exists s. split; [|by apply bool_decide_eq_true].
  apply ns1_keep; [done|]. intros ->. exact (seg_fresh _ _ _ _ _ Hk Hl Hj).
Qed.

Lemma in_rids_id : id ∈ ids.
Proof using All. apply in_rids_seg. eexists. constructor. Qed.

Lemma in_rids_child i s p : nodes d !! i = Some s → parent_id s = Some p → p ∈ ids → i ∈ ids.
Proof using All. rewrite !in_rids_seg. intros Hi Hp [k Hk]. eexists. by eapply seg_step. Qed.

Lemma in_rids_parent i s p : i ∈ ids → i ≠ id → nodes d !! i = Some s → parent_id s = Some p →
  p ∈ ids.
Proof using All.
  rewrite !in_rids_seg. intros [k Hk] Hne Hi Hp.
  inversion Hk as [|? s' q ? Hi' Hq Hk']; [done|]. simplify_eq. eauto.
Qed.

Lemma in_rids_row i s : i ∈ ids → i ≠ id → nodes d !! i = Some s →
  trashed_at s = Some st ∧ trash_name s = None.
Proof using All.
  rewrite in_rids_seg. intros [k Hk] Hne Hi.
  destruct (seg_stamp d id r st i k Hwf Hr Ht Hk i) as (s' & Hs' & ? & ?).
  - inversion Hk; [done|left].
  - split; congruence.
Qed.

Lemma in_rids_trashed i s : i ∈ ids → nodes d !! i = Some s → trashed_at s = Some st.
Proof using All.
  intros Hi Hs. destruct (decide (i = id)) as [->|Hne]; [congruence|].
  by eapply in_rids_row.
Qed.

Lemma dest_not_in_rids : dest ∉ ids.
Proof using All. intros Hin. pose proof (in_rids_trashed _ _ Hin Hpr). congruence. Qed.

Lemma restored_attached_child i s :
  nodes d !! i = Some s → parent_id s = Some dest → trash_name s = None → name s ≠ nm.
Proof using All.
  intros Hs Hp Hn Hnm'. apply Hfree. exists i, s. split_and!; try done.
  destruct (trashed_at s) as [st'|] eqn:Hst; [|done].
  destruct (wf_trashed _ _ Hwf i s st' Hs Hst Hn) as (q & qr & ? & ? & ?). congruence.
Qed.

Lemma restored_row_id s : g id s = reattach dest nm now s.
Proof using Type. unfold g, restored_row. by rewrite decide_True. Qed.

Lemma restored_row_other i s : i ≠ id →
  parent_id (g i s) = parent_id s ∧ name (g i s) = name s ∧ trash_name (g i s) = trash_name s ∧
  trashed_at (g i s) = if decide (i ∈ ids) then None else trashed_at s.
Proof using Type.
  intros Hi. unfold g, restored_row. rewrite decide_False by done. by case_decide.
Qed.

Lemma tree_wf_restored : tree_wf (with_nodes d (map_imap (λ i r, Some (g i r)) (nodes d))).
Proof using All.
  pose proof restored_not_root as Hid. pose proof dest_not_in_rids as Hdest.
  assert (dest ≠ id) as Hdi by (intros Heq; apply Hdest; rewrite Heq; apply in_rids_id).
  assert (root ∉ ids) as Hroot.
  { destruct (wf_root _ _ Hwf) as (rr & Hrr & _ & _ & ? & _). intros Hin.
    pose proof (in_rids_trashed _ _ Hin Hrr). congruence. }
  eapply (tree_wf_edit root d _ g id dest lp pr); try done; simpl.
  - intros i. rewrite map_lookup_imap. by destruct (nodes d !! i).
  - intros i s _. unfold g, restored_row. repeat case_decide; simpl; split_and!; try done; lia.
  - apply restored_not_above.
  - intros s _. destruct (restored_row_other root s) as (_ & -> & _ & ->); [congruence|].
    by rewrite decide_False.
  - intros i s Hs. destruct (decide (i = id)) as [->|Hi]; [by rewrite restored_row_id|].
    destruct (restored_row_other i s Hi) as (_ & _ & -> & ->). case_decide as Hin.
    + intros _. by apply (in_rids_row i s).
    + by apply (wf_live _ _ Hwf i).
  - intros i s q qr Hs. destruct (decide (i = id)) as [->|Hi].
    + rewrite restored_row_id. intros _ [= <-] Hqr.
      destruct (restored_row_other dest qr Hdi) as (_ & _ & _ & ->).
      rewrite decide_False by done. congruence.
    + destruct (restored_row_other i s Hi) as (-> & _ & _ & ->). intros Hst Hq Hqr.
      destruct (decide (q = id)) as [->|Hqi]; [by rewrite restored_row_id|].
      destruct (restored_row_other q qr Hqi) as (_ & _ & _ & ->).
      destruct (decide (q ∈ ids)) as [Hqin|Hqin]; [done|].
      destruct (decide (i ∈ ids)) as [Hin|Hin].
      * destruct Hqin. by eapply in_rids_parent.
      * by apply (wf_live_parent _ _ Hwf i s q qr).
  - intros i s st' Hs. destruct (decide (i = id)) as [->|Hi]; [by rewrite restored_row_id|].
    destruct (restored_row_other i s Hi) as (-> & _ & -> & ->).
    case_decide as Hin; [done|]. intros Hst Hn.
    destruct (wf_trashed _ _ Hwf i s st' Hs Hst Hn) as (q & qr & Hq & Hqr & Hqt).
    assert (q ∉ ids) as Hqin by (intros Hqin; apply Hin; by eapply in_rids_child).
    exists q, qr. split_and!; [done..|].
    destruct (restored_row_other q qr) as (_ & _ & _ & ->); [|by rewrite decide_False].
    intros Heq. apply Hqin. rewrite Heq. apply in_rids_id.
  - intros i s n Hs. destruct (decide (i = id)) as [->|Hi]; [by rewrite restored_row_id|].
    destruct (restored_row_other i s Hi) as (-> & _ & -> & _). intros Hn.
    split; [by eapply (wf_trash_root _ _ Hwf)|by eapply (wf_trash_name _ _ Hwf)].
  - intros i j s t q Hs Hj Hp Hq Hn Hsn Htn.
    destruct (decide (i = id)) as [->|Hi], (decide (j = id)) as [->|Hji]; [done|..].
    + rewrite restored_row_id in *. injection Hp as <-. exfalso.
      destruct (restored_row_other j t Hji) as (Ha & Hb & Hc & _).
      rewrite Ha, Hb, Hc in *. by apply (restored_attached_child j t).
    + rewrite restored_row_id in *. injection Hq as <-. exfalso.
      destruct (restored_row_other i s Hi) as (Ha & Hb & Hc & _).
      rewrite Ha, Hb, Hc in *. by apply (restored_attached_child i s).
    + destruct (restored_row_other i s Hi) as (Ha & Hb & Hc & _).
      destruct (restored_row_other j t Hji) as (Ha' & Hb' & Hc' & _).
      rewrite Ha, Hb, Hc, Ha', Hb', Hc' in *. by eapply (wf_unique _ _ Hwf i j s t q).
  - intros i s Hs Hi. destruct (decide (i = id)) as [->|Hii]; [by rewrite restored_row_id|].
    destruct (restored_row_other i s Hii) as (_ & -> & _). by apply (wf_name _ _ Hwf i).
Qed.

(** The reattachment cannot clash with a sibling: the name is free. *)
Lemma reattach_ok :
  update_where (is_id id) (reattach dest nm now) (nodes d) = Some ns1.
Proof using All.
  apply update_where_ok. intros i j ri rj Hij Hi Hj Hin. unfold is_id in *.
  apply Z.eqb_eq in Hin as ->. split; [|intros ?%Z.eqb_eq; congruence].
  apply not_true_iff_false. rewrite clash_true. intros [([q m] & Hk & Hk')|[? _]]; [|done].
  apply live_key_Some in Hk as (_ & [= <-] & <-), Hk' as (? & ? & ?).
  apply Hfree. by exists j, rj.
Qed.

(** Nor can the descendants: their sibling names were unique when they were
    trashed and nothing was created beside them since. *)
Lemma untrash_ok :
  update_where (λ i s, in_ids ids i s && has_stamp st s) (mark_restored now) ns1 =
  Some (map_imap (λ i s, Some (g i s)) (nodes d)).
Proof using All.
  rewrite update_where_ok.
  - f_equal. apply map_eq. intros i. rewrite lookup_set_where, lookup_ns1, map_lookup_imap.
    destruct (nodes d !! i) as [s|] eqn:Hi; [|done]. simpl. f_equal.
    unfold g, restored_row, in_ids. destruct (decide (i = id)) as [->|Hne].
    + unfold has_stamp. simpl. by rewrite andb_false_r.
    + case_bool_decide as Hin; [|by rewrite decide_False].
      destruct (in_rids_row i s Hin Hne Hi) as [Hst _].
      unfold has_stamp. by rewrite Hst, bool_decide_eq_true_2, decide_True.
  - intros i j ri rj Hij Hi Hj Hin. apply andb_true_iff in Hin as [Hin Hst].
    unfold in_ids in Hin. apply bool_decide_eq_true in Hin. apply bool_decide_eq_true in Hst.
    rewrite lookup_ns1 in Hi, Hj.
    destruct (nodes d !! i) as [s|] eqn:Hs; [|done]. destruct (nodes d !! j) as [t|] eqn:Htj; [|done].
    injection Hi as <-. injection Hj as <-.
    destruct (decide (i = id)) as [->|Hii]; [done|].
    destruct (in_rids_row i s Hin Hii Hs) as [Hsst Hsn].
    destruct (parent_id s) as [p|] eqn:Hp.
    2:{ destruct (wf_root _ _ Hwf) as (rr & ? & _ & _ & ? & _).
        pose proof (wf_only_root _ _ Hwf i s Hs Hp) as Heq. rewrite Heq in Hs. congruence. }
    pose proof (in_rids_parent i s p Hin Hii Hs Hp) as Hpin.
    assert (∀ t', (t' = (if decide (j = id) then reattach dest nm now t else t) ∧
                   trashed_at t' = None) ∨
                  (j ≠ id ∧ j ∈ ids ∧ t' = mark_restored now t) →
      clash (mark_restored now s) t' = false) as Hno.
    { intros t' Ht'. apply not_true_iff_false. rewrite clash_true.
      intros [([q m] & Hk & Hk')|[Hk _]]; [|simpl in Hk; congruence].
      apply live_key_Some in Hk as (_ & Hq & Hm), Hk' as (Hlt & Hq' & Hm'). simpl in Hq, Hm.
      assert (q = p) as -> by congruence.
      destruct Ht' as [[-> _]|(Hji & Hjin & ->)].
      - destruct (decide (j = id)) as [->|Hji].
        + injection Hq' as <-. by apply dest_not_in_rids.
        + destruct (wf_parent _ _ Hwf j t p Htj Hq') as (ps & Hps & _).
          pose proof (wf_live_parent _ _ Hwf j t p ps Htj Hlt Hq' Hps).
          pose proof (in_rids_trashed p ps Hpin Hps). congruence.
      - simpl in *. destruct (in_rids_row j t Hjin Hji Htj) as [_ Htn].
        apply Hij. eapply (wf_unique _ _ Hwf i j s t p); congruence. }
    split.
    + destruct (trashed_at (if decide (j = id) then reattach dest nm now t else t)) eqn:Hjt;
        [|by apply Hno; left].
      apply not_true_iff_false. rewrite clash_true.
      intros [([q m] & _ & Hk')|[Hk _]]; [|simpl in Hk; congruence].
      apply live_key_Some in Hk' as (? & _). congruence.
    + intros Hjin. apply andb_true_iff in Hjin as [Hjin Hjs].
      apply bool_decide_eq_true in Hjin. apply bool_decide_eq_true in Hjs.
      case_decide as Hji; [done|]. apply Hno. right. done.
Qed.

Lemma restoreNodeTx_ok n target :
  n = scanNode d id r → destID target = dest → finalName target = nm →
  let d1 := with_nodes d (set_where (is_id dest) (bump now)
              (map_imap (λ i r, Some (g i r)) (nodes d))) in
  restoreNodeTx d n target now = Ok (d1, scanNode d1 id (reattach dest nm now r)) ∧ tree_wf d1.
Proof using All.
  intros -> Hdest Hname d1.
  destruct (bumpRevisionTx_ok root _ dest now tree_wf_restored) as [Hb Hw]. split; [|done].
  unfold restoreNodeTx, exec. cbn [ID scanNode TrashedAt]. rewrite Hdest, Hname, reattach_ok.
  cbn. rewrite Ht. cbn. fold ids. rewrite untrash_ok. cbn.
  rewrite with_nodes_twice, Hb. cbn. rewrite nodeByIDTx_cases. cbn.
  assert (dest ≠ id) as Hdi by (intros Heq; apply dest_not_in_rids; rewrite Heq; apply in_rids_id).
  rewrite lookup_set_id, map_lookup_imap, Hr. cbn. rewrite decide_False by congruence.
  by rewrite restored_row_id.
Qed.

End restored.
End facts.
