(* ===== verification/StoreMachine.v ===== *)
(** * The store as a state machine

    The tree handlers as commands on the database, the states they reach from
    a freshly bootstrapped vault, and the invariant of those states.

    The handlers keep the invariant, a failed command changes nothing, and
    restoring always succeeds. *)
From S2P Require Import Prelude GoText Names Tables Tree TreeInv TreeFacts Trash TrashFacts.

(** ** Bootstrap (internal/store/store.go) *)

(** The part of [bootstrapTx] that concerns the tree: insert the root unless
    there is a parentless node, then look it up. *)
Definition bootstrapTx (now : string) (d : db) : res (db * Z) :=
  let parentless := select (λ r, bool_decide (parent_id r = None)) in
  d ← match parentless (nodes d) with
      | [] => from_lookup (fst <$> insert_node
                (MkNodeRow None "" dir None 1 now now None None None) d) ErrOther
      | _ => Ok d
      end;
  rootID ← from_lookup (head (parentless (nodes d))) ErrOther;
  Ok (d, rootID).

Definition empty_db : db := MkDb ∅ 0 ∅ ∅ ∅ ∅ false.

(** ** Commands *)

Inductive command :=
  | CMkdir (parentID : Z) (nm : string)
  | CMkdirPath (path : string)
  | CMkdirAll (path : string)
  | CMove (id newParentID : Z) (newName : string) (ifRev : Z)
  | CMovePath (src dest : string) (ifRev : Z)
  | CMoveToPath (id ifRev : Z) (dest : string)
  | CTrash (id ifRev : Z)
  | CTrashPath (path : string) (ifRev : Z)
  | CRestore (id ifRev : Z)
  | CTrashEmpty (cutoff : option string) (maxRoots : Z) (really : bool).

Section machine.
Context `{Normalizer} `{AuditedTree} `{RenditionTables} (root : Z).

Definition erase {A} (r : db * res A) : db * res unit := (r.1, (λ _, tt) <$> r.2).

Definition run (now : string) (c : command) (d : db) : db * res unit :=
  match c with
  | CMkdir p nm => erase (Mkdir p nm now d)
  | CMkdirPath path => erase (MkdirPath root path now d)
  | CMkdirAll path => erase (MkdirAll root id path now d)
  | CMove i p nm rev => erase (Move root i p nm rev now d)
  | CMovePath src dest rev => erase (MovePathRevision root src dest rev now d)
  | CMoveToPath i rev dest => erase (MoveToPath root i rev dest now d)
  | CTrash i rev => erase (Trash root i rev now d)
  | CTrashPath path rev => erase (TrashPathRevision root path rev now d)
  | CRestore i rev => erase (Restore root i rev now d)
  | CTrashEmpty cutoff n b => erase (trashEmpty cutoff n b d)
  end.

(** The states a vault goes through, command by command. *)
Inductive reachable (start : db) : db → Prop :=
  | reach_start : reachable start start
  | reach_step d now c : reachable start d → reachable start (run now c d).1.

End machine.

(** ** The laws of the audited variants *)

(** What the tree needs of the audited mutations. *)
Class AuditedTreeLaws `{Normalizer} (A : AuditedTree) (root : Z) := {
  persist_wf d n1 n2 n3 d' :
    tree_wf root d → persistAuditedNodeCreation d n1 n2 n3 = Ok d' → tree_wf root d';
  move_audited_wf d i p nm rev d' n :
    tree_wf root d → moveAuditedTx d i p nm rev = Ok (d', n) → tree_wf root d';
  trash_audited_wf d n rev d' n' path :
    tree_wf root d → trashAuditedTx d n rev = Ok (d', n', path) → tree_wf root d';
  restore_audited_wf d n rev d' n' :
    tree_wf root d → restoreAuditedTx d n rev = Ok (d', n') → tree_wf root d';
}.

#[export] Instance refusing_audit_laws `{Normalizer} root : AuditedTreeLaws refusing_audit root.
Proof. by split. Qed.

(** ** Deletion *)

Section deletion.
Context `{Normalizer} (root : Z).
Notation tree_wf := (tree_wf root).

Lemma elem_of_doomed d ids i :
  tree_wf d → (∀ id, id ∈ ids → is_Some (nodes d !! id)) →
  i ∈ doomed (nodes d) ids ↔ ∃ id k, id ∈ ids ∧ seg (nodes d) id i k.
Proof.
  intros Hwf Hids. unfold doomed. rewrite elem_of_descend. split.
  - intros (id & k & Hid & Hs & _). eauto.
  - intros (id & k & Hid & Hs). exists id, k. split_and!; [done|done| |].
    + clear Hid. induction Hs; constructor; [eexists; eauto|done].
    + destruct (wf_anc _ _ Hwf id) as [l Hl]; [by apply Hids|].
      pose proof (anc_length _ _ _ (seg_anc _ _ _ _ _ Hs Hl)) as Hlen.
      rewrite length_app in Hlen. lia.
Qed.

Lemma delete_nodes_wf d ids :
  tree_wf d → root ∉ ids → (∀ id, id ∈ ids → is_Some (nodes d !! id)) →
  tree_wf (delete_nodes ids d).
Proof.
  intros Hwf Hroot Hids. set (gone := doomed (nodes d) ids).
  assert (root ∉ gone) as Hrg.
  { unfold gone. rewrite elem_of_doomed by done. intros (id & k & Hid & Hs).
    apply (seg_root root) in Hs; [|done]. by subst. }
  assert (∀ i r p, nodes d !! i = Some r → parent_id r = Some p → i ∉ gone → p ∉ gone) as Hup.
  { intros i r p Hi Hp. unfold gone. rewrite !elem_of_doomed by done.
    intros Hn (id & k & Hid & Hs). apply Hn. exists id, (i :: k).
    split; [done|]. by eapply seg_step. }
  assert (∀ i r', nodes (delete_nodes ids d) !! i = Some r' → i ∉ gone ∧
    ∃ r, nodes d !! i = Some r ∧ r' = forget_origin gone r) as Hinv.
  { intros i r'. simpl. fold gone. rewrite lookup_fmap.
    destruct (filter _ _ !! i) as [r|] eqn:Hf; [|done]. intros [= <-].
    apply map_lookup_filter_Some in Hf as [? ?]. eauto. }
  assert (∀ i r, nodes d !! i = Some r → i ∉ gone →
    nodes (delete_nodes ids d) !! i = Some (forget_origin gone r)) as Hfwd.
  { intros i r Hi Hn. simpl. fold gone. rewrite lookup_fmap.
    assert (filter (λ ir : Z * node_row, ir.1 ∉ gone) (nodes d) !! i = Some r) as ->; [|done].
    by apply map_lookup_filter_Some. }
  destruct (wf_root _ _ Hwf) as (rr & Hrr & ? & ? & ? & ?). split.
  - exists (forget_origin gone rr). split_and!; try done. by apply Hfwd.
  - intros i r' (Hn & r & Hr & ->)%Hinv. exact (wf_only_root _ _ Hwf i r Hr).
  - intros i r' p (Hn & r & Hr & ->)%Hinv Hp. simpl in Hp.
    destruct (wf_parent _ _ Hwf i r p Hr Hp) as (pr & Hpr & ?).
    exists (forget_origin gone pr). split; [|done].
    apply Hfwd; [done|exact (Hup i r p Hr Hp Hn)].
  - intros i [r' (Hn & r & Hr & ->)%Hinv]. destruct (wf_anc _ _ Hwf i) as [l Hl]; [eauto|].
    exists l. clear r Hr. induction Hl as [i r Hi Hp|i r p l Hi Hp Hl IH].
    + eapply anc_root; [by apply Hfwd|done].
    + eapply anc_step; [by apply Hfwd|done|]. apply IH. exact (Hup i r p Hi Hp Hn).
  - intros i r' (Hn & r & Hr & ->)%Hinv. exact (wf_live _ _ Hwf i r Hr).
  - intros i r' p pr' (Hn & r & Hr & ->)%Hinv Ht Hp (_ & pr & Hpr & ->)%Hinv.
    exact (wf_live_parent _ _ Hwf i r p pr Hr Ht Hp Hpr).
  - intros i r' st (Hn & r & Hr & ->)%Hinv Ht Htn.
    destruct (wf_trashed _ _ Hwf i r st Hr Ht Htn) as (p & pr & Hp & Hpr & ?).
    exists p, (forget_origin gone pr). split_and!; try done.
    apply Hfwd; [done|exact (Hup i r p Hr Hp Hn)].
  - intros i r' nm (Hn & r & Hr & ->)%Hinv. exact (wf_trash_root _ _ Hwf i r nm Hr).
  - intros i j r' s' p (Hn & r & Hr & ->)%Hinv (_ & s & Hs & ->)%Hinv.
    exact (wf_unique _ _ Hwf i j r s p Hr Hs).
  - intros i [r' (Hn & r & Hr & ->)%Hinv]. apply (wf_ids _ _ Hwf). eauto.
  - intros i r' (Hn & r & Hr & ->)%Hinv. exact (wf_revision _ _ Hwf i r Hr).
  - intros i r' (Hn & r & Hr & ->)%Hinv. exact (wf_kind _ _ Hwf i r Hr).
  - intros i r' (Hn & r & Hr & ->)%Hinv. exact (wf_name _ _ Hwf i r Hr).
  - intros i r' nm (Hn & r & Hr & ->)%Hinv. exact (wf_trash_name _ _ Hwf i r nm Hr).
Qed.

(** [tree_wf] sees only the node table and its counter. *)
Lemma tree_wf_tables d d' :
  tree_wf d → nodes d' = nodes d → node_seq d' = node_seq d → tree_wf d'.
Proof. destruct d, d'; simpl; intros [] -> ->. by split. Qed.

End deletion.

(** * What every reachable state of the tree satisfies *)

Lemma withStorageTx_inv {A} (P : db → Prop) (fn : db → res (db * A)) d :
  P d → (∀ d' a, fn d = Ok (d', a) → P d') → P (withStorageTx fn d).1.
Proof. intros HP Hfn. unfold withStorageTx. destruct (fn d) as [[d' a]|]; simpl; eauto. Qed.

Lemma withStorageTx_error {A} (fn : db → res (db * A)) d d' e :
  withStorageTx fn d = (d', Err e) → d' = d.
Proof. unfold withStorageTx. destruct (fn d) as [[d1 a]|]; naive_solver. Qed.

Section handlers.
Context `{Normalizer} (A : AuditedTree) `{RenditionTables} (root : Z).
Context {Laws : AuditedTreeLaws A root}.
Notation tree_wf := (tree_wf root).

Lemma mkdirNodeTx_wf d p nm now d' n :
  tree_wf d → canonical_name nm → mkdirNodeTx d p nm now = Ok (d', n) → tree_wf d'.
Proof using Laws.
  intros Hwf Hnm. unfold mkdirNodeTx. destruct (negb (audit_active d)).
  - by apply mkdirTx_wf.
  - intros Hm. apply bind_Ok_iff in Hm as (prior & _ & Hm).
    apply bind_Ok_iff in Hm as (u & _ & Hm). apply bind_Ok_iff in Hm as ([d1 c] & Hc & Hm).
    apply bind_Ok_iff in Hm as (res' & _ & Hm). apply bind_Ok_iff in Hm as (d2 & Hp & Hm).
    apply Ok_inj in Hm as [= <- <-]. eapply persist_wf, Hp. by eapply mkdirTx_wf.
Qed.

Lemma MkdirWithPath_wf p nm now d : tree_wf d → tree_wf (MkdirWithPath p nm now d).1.
Proof using Laws.
  intros Hwf. unfold MkdirWithPath. destruct (NormalizeName nm) as [nm'|] eqn:Hn; [|done].
  apply withStorageTx_inv; [done|]. intros d' a Hf.
  apply bind_Ok_iff in Hf as ([d1 c] & Hc & Hf). apply Ok_inj in Hf as [= <- _].
  eapply mkdirNodeTx_wf, Hc; [done|]. by eapply NormalizeName_canonical.
Qed.

Lemma Mkdir_wf p nm now d : tree_wf d → tree_wf (Mkdir p nm now d).1.
Proof using Laws.
  intros Hwf. unfold Mkdir. pose proof (MkdirWithPath_wf p nm now d Hwf).
  by destruct (MkdirWithPath p nm now d).
Qed.

Lemma MkdirPath_wf path now d : tree_wf d → tree_wf (MkdirPath root path now d).1.
Proof using Laws.
  intros Hwf. unfold MkdirPath.
  destruct (check _ _ ≫= _) as [[parent nm]|] eqn:Hplan; [|done].
  apply withStorageTx_inv; [done|]. intros d' a Hf.
  apply bind_Ok_iff in Hf as (pn & _ & Hf).
  apply bind_Ok_iff in Hf as ([d1 c] & Hc & Hf). apply Ok_inj in Hf as [= <- _].
  eapply mkdirNodeTx_wf, Hc; [done|].
  apply bind_Ok_iff in Hplan as (u & _ & Hplan). apply bind_Ok_iff in Hplan as (segs & Hs & Hplan).
  apply bind_Ok_iff in Hplan as (nm' & Hl & Hplan). apply Ok_inj in Hplan as [= _ ->].
  apply from_lookup_Ok_iff, last_Some_elem_of in Hl. apply mapR_Forall2 in Hs.
  apply list_elem_of_lookup in Hl as [i Hi].
  destruct (Forall2_lookup_r _ _ _ _ _ Hs Hi) as (s & _ & Hsn).
  by eapply NormalizeName_canonical.
Qed.

(** Directory creation keeps the invariant whatever other connections do, as
    long as they keep it. *)
Lemma EnsureDir_wf env p nm now d :
  (∀ d, tree_wf d → tree_wf (env d)) → tree_wf d → tree_wf (EnsureDir env p nm now d).1.
Proof using Laws.
  intros Henv Hwf. unfold EnsureDir. destruct (NormalizeName nm) as [nm'|]; [|done].
  destruct (childByName d p nm') as [n|e]; [done|]. destruct e; try done.
  pose proof (Mkdir_wf p nm' now (env d) (Henv _ Hwf)) as Hm.
  destruct (Mkdir p nm' now (env d)) as [d' [n|e]]; [done|]. simpl in Hm.
  destruct e; simpl; auto.
Qed.

Lemma ensure_all_wf env n now segs d :
  (∀ d, tree_wf d → tree_wf (env d)) → tree_wf d → tree_wf (ensure_all env n now segs d).1.
Proof using Laws.
  intros Henv. revert n d; induction segs as [|seg segs IH]; intros n d Hwf; [done|]. simpl.
  pose proof (EnsureDir_wf env (ID n) seg now d Henv Hwf) as He.
  destruct (EnsureDir env (ID n) seg now d) as [d' [n'|e]]; [by apply IH|done].
Qed.

Lemma MkdirAll_wf env path now d :
  (∀ d, tree_wf d → tree_wf (env d)) → tree_wf d → tree_wf (MkdirAll root env path now d).1.
Proof using Laws.
  intros Henv Hwf. unfold MkdirAll. destruct (nodeByIDTx d root); [|done].
  by apply ensure_all_wf.
Qed.

Lemma moveActiveTx_wf d i p nm rev now d' n :
  tree_wf d → moveActiveTx root d i p nm rev now = Ok (d', n) → tree_wf d'.
Proof using Laws.
  intros Hwf. unfold moveActiveTx. destruct (audit_active d).
  - by apply move_audited_wf.
  - by apply moveAtTx_wf.
Qed.

Lemma moveNodeToPathTx_wf d src rev dest now d' a :
  tree_wf d → moveNodeToPathTx root d src rev dest now = Ok (d', a) → tree_wf d'.
Proof using Laws.
  intros Hwf Hm. unfold moveNodeToPathTx in Hm. apply bind_Ok_iff in Hm as (u & _ & Hm).
  apply bind_Ok_iff in Hm as ([p nm] & _ & Hm). apply bind_Ok_iff in Hm as ([d1 m] & Hm1 & Hm).
  apply Ok_inj in Hm as [= <- _]. by eapply moveActiveTx_wf.
Qed.

(** The rows [trashNodeTx] is called on are live and not the root. *)
Lemma trashNodeTx_wf d i r now d' :
  tree_wf d → nodes d !! i = Some r → trashed_at r = None → i ≠ root →
  trashNodeTx root d (scanNode d i r) now = Ok d' → tree_wf d'.
Proof.
  intros Hwf Hr Ht Hi Htr. destruct (parent_id r) as [p|] eqn:Hp.
  - destruct (trashNodeTx_ok root d i p r now Hwf Hr Ht Hp _ eq_refl) as (d1 & Hd1 & Hw & _).
    congruence.
  - destruct (Hi (wf_only_root _ _ Hwf i r Hr Hp)).
Qed.

Lemma Trash_wf i rev now d : tree_wf d → tree_wf (Trash root i rev now d).1.
Proof using Laws.
  intros Hwf. unfold Trash. destruct (Z.eqb_spec i root) as [|Hi]; [done|].
  apply withStorageTx_inv; [done|]. intros d' a Hf.
  apply bind_Ok_iff in Hf as (n & Hn & Hf). apply nodeByIDTx_Ok_iff in Hn as (r & Hr & ->).
  destruct (audit_active d).
  - apply bind_Ok_iff in Hf as ([[d1 n1] p1] & Ha & Hf). apply Ok_inj in Hf as [= <- _].
    by eapply trash_audited_wf.
  - apply bind_Ok_iff in Hf as (u & Ht & Hf). apply check_Ok_iff, bool_decide_eq_true in Ht.
    apply bind_Ok_iff in Hf as (u' & _ & Hf). apply bind_Ok_iff in Hf as (d1 & Htr & Hf).
    apply bind_Ok_iff in Hf as (n1 & _ & Hf). apply Ok_inj in Hf as [= <- _].
    by eapply trashNodeTx_wf.
Qed.

Lemma TrashPathRevision_wf path rev now d :
  tree_wf d → tree_wf (TrashPathRevision root path rev now d).1.
Proof using Laws.
  intros Hwf. unfold TrashPathRevision. apply withStorageTx_inv; [done|]. intros d' a Hf.
  apply bind_Ok_iff in Hf as (n & Hn & Hf).
  apply nodeByPath_Ok_iff in Hn as (i & r & Hr & Ht & -> & _); [|done].
  apply bind_Ok_iff in Hf as (u & Hroot & Hf). apply check_Ok_iff in Hroot.
  apply negb_true_iff, Z.eqb_neq in Hroot. destruct (audit_active d).
  - apply bind_Ok_iff in Hf as ([[d1 n1] p1] & Ha & Hf). apply Ok_inj in Hf as [= <- _].
    by eapply trash_audited_wf.
  - apply bind_Ok_iff in Hf as (u' & _ & Hf). apply bind_Ok_iff in Hf as (d1 & Htr & Hf).
    apply bind_Ok_iff in Hf as (n1 & _ & Hf). apply Ok_inj in Hf as [= <- _].
    by eapply trashNodeTx_wf.
Qed.

(** ** Restoring *)

(** What [restoreTargetTx] computes for a trash root; it cannot fail. *)
Lemma restoreTargetTx_ok d i r nm :
  tree_wf d → nodes d !! i = Some r → trash_name r = Some nm →
  ∃ dest pr free,
    restoreTargetTx root d (scanNode d i r) = Ok (MkTarget dest (trash_parent r) nm free) ∧
    nodes d !! dest = Some pr ∧ trashed_at pr = None ∧ kind pr = dir ∧
    nextFreeNameTx d dest nm = Ok free ∧ canonical_name free ∧ ¬ taken (nodes d) dest free ∧
    (dest = root ∨ trash_parent r = Some dest) ∧
    (∀ o orow, trash_parent r = Some o → nodes d !! o = Some orow → trashed_at orow = None →
       kind orow = dir → dest = o).
Proof.
  intros Hwf Hr Hn. unfold restoreTargetTx. cbn [ID scanNode]. rewrite Hr. cbn. rewrite Hn. cbn.
  destruct (wf_root _ _ Hwf) as (rr & Hrr & _ & Hrk & Hrt & _).
  assert (∃ dest pr, (match trash_parent r with
      | None => Ok root
      | Some origin =>
          match liveDirTx d origin with
          | Ok _ => Ok origin
          | Err (ErrNotFound | ErrNotDir) => Ok root
          | Err e => Err e
          end
      end : res Z) = Ok dest ∧ nodes d !! dest = Some pr ∧ trashed_at pr = None ∧ kind pr = dir ∧
      (dest = root ∨ trash_parent r = Some dest) ∧
      (∀ o orow, trash_parent r = Some o → nodes d !! o = Some orow → trashed_at orow = None →
         kind orow = dir → dest = o)) as (dest & pr & Hd & Hpr & Hpt & Hpk & Hor & Horig).
  { destruct (trash_parent r) as [o|] eqn:Ho.
    2:{ exists root, rr. split_and!; try done. by left. }
    destruct (liveDirTx d o) as [on|e] eqn:Hl.
    - apply liveDirTx_Ok_iff in Hl as (pr & ? & _ & ? & ?). exists o, pr.
      split_and!; try done; [by right|congruence].
    - exists root, rr. assert (e = ErrNotFound ∨ e = ErrNotDir) as He.
      { rewrite liveDirTx_cases in Hl. repeat case_match; naive_solver. }
      split_and!; [by destruct He as [-> | ->]|done|done|done|by left|].
      intros o' orow [= <-] Hor' Hot Hok. exfalso.
      rewrite liveDirTx_cases, Hor' in Hl. rewrite Hot, Hok in Hl. done. }
  rewrite Hd. cbn. destruct (nextFreeNameTx_total d dest nm) as [free Hfree]. rewrite Hfree. cbn.
  exists dest, pr, free. pose proof Hfree as Hf.
  apply nextFreeNameTx_Ok in Hf as (Hnt & m & Hm & Heq & _). split_and!; try done.
  rewrite Heq. apply suffixedName_canonical; [|done]. by eapply (wf_trash_name _ _ Hwf i r).
Qed.

Lemma restore_branch_ok d i r nm now :
  tree_wf d → nodes d !! i = Some r → trash_name r = Some nm →
  ∃ target d' n, restoreTargetTx root d (scanNode d i r) = Ok target ∧
    restoreNodeTx d (scanNode d i r) target now = Ok (d', n) ∧ tree_wf d' ∧ ID n = i.
Proof.
  intros Hwf Hr Hn.
  destruct (restoreTargetTx_ok d i r nm Hwf Hr Hn)
    as (dest & pr & free & Htarget & Hpr & Hpt & Hpk & _ & Hcan & Hfree & _).
  destruct (trashed_at r) as [st|] eqn:Ht.
  2:{ pose proof (wf_live _ _ Hwf i r Hr Ht). congruence. }
  destruct (wf_anc _ _ Hwf dest) as [lp Hlp]; [eauto|].
  destruct (restoreNodeTx_ok root d i dest r pr st free now lp Hwf Hr Ht Hpr Hpt Hpk Hlp Hcan
    Hfree (scanNode d i r) (MkTarget dest (trash_parent r) nm free) eq_refl eq_refl eq_refl)
    as [Ho Hw].
  eexists _, _, _. split_and!; [exact Htarget|exact Ho|exact Hw|done].
Qed.

Lemma restore_wf_branch d i r target now d' n :
  tree_wf d → nodes d !! i = Some r → restoreTargetTx root d (scanNode d i r) = Ok target →
  restoreNodeTx d (scanNode d i r) target now = Ok (d', n) → tree_wf d'.
Proof.
  intros Hwf Hr Ht Hn. destruct (trash_name r) as [nm|] eqn:Hnm.
  - destruct (restore_branch_ok d i r nm now Hwf Hr Hnm) as (t & d1 & n1 & Ht' & Hn' & Hw & _).
    congruence.
  - unfold restoreTargetTx in Ht. cbn [ID scanNode] in Ht. rewrite Hr in Ht. cbn in Ht.
    by rewrite Hnm in Ht.
Qed.

Lemma Restore_wf i rev now d : tree_wf d → tree_wf (Restore root i rev now d).1.
Proof using Laws.
  intros Hwf. unfold Restore. apply withStorageTx_inv; [done|]. intros d' a Hf.
  apply bind_Ok_iff in Hf as (n & Hn & Hf). apply nodeByIDTx_Ok_iff in Hn as (r & Hr & ->).
  apply bind_Ok_iff in Hf as ([d1 n1] & Ha & Hf). apply Ok_inj in Hf as [= <- _].
  destruct (audit_active d); [by eapply restore_audited_wf|].
  apply bind_Ok_iff in Ha as (u & _ & Ha). apply bind_Ok_iff in Ha as (u' & _ & Ha).
  apply bind_Ok_iff in Ha as (t & Ht & Ha). by eapply restore_wf_branch.
Qed.

(** ** Emptying the trash *)

Lemma eligible_roots_spec d cutoff i :
  i ∈ eligible_roots d cutoff → ∃ r, nodes d !! i = Some r ∧ is_trash_root r = true.
Proof.
  unfold eligible_roots. rewrite merge_sort_Permutation, elem_of_select.
  intros (r & Hr & Hb). apply andb_true_iff in Hb as [Hb _]. eauto.
Qed.

Lemma trashEmptyTx_wf cutoff n b d d' rep :
  tree_wf d → trashEmptyTx cutoff n b d = Ok (d', rep) → tree_wf d'.
Proof.
  intros Hwf Ht. unfold trashEmptyTx in Ht. destruct b; [|by apply Ok_inj in Ht as [= <- _]].
  apply bind_Ok_iff in Ht as (u & _ & Ht). apply Ok_inj in Ht as [= <- _].
  set (sel := if (0 <? n)%Z then _ else _).
  assert (∀ i, i ∈ sel → ∃ r, nodes d !! i = Some r ∧ is_trash_root r = true) as Hsel.
  { intros i Hi. apply (eligible_roots_spec d cutoff). unfold sel in Hi.
    destruct (0 <? n)%Z; [|done]. apply elem_of_take in Hi as (k & Hk & _).
    by eapply list_elem_of_lookup_2. }
  apply delete_nodes_wf; [by eapply tree_wf_tables| |].
  - intros Hr. destruct (Hsel _ Hr) as (r & Hrr & Htr). apply bool_decide_eq_true in Htr.
    destruct (wf_root _ _ Hwf) as (rr & Hrr' & _ & _ & Hrt & _).
    assert (r = rr) as -> by congruence. by rewrite (wf_live _ _ Hwf root rr Hrr Hrt) in Htr.
  - intros i Hi. destruct (Hsel _ Hi) as (r & ? & _). simpl. eauto.
Qed.

Lemma trashEmpty_wf cutoff n b d : tree_wf d → tree_wf (trashEmpty cutoff n b d).1.
Proof.
  intros Hwf. unfold trashEmpty, withLogicalTx. destruct b; apply withStorageTx_inv; try done.
  - intros d' a. destruct (audit_active d); [done|]. by apply trashEmptyTx_wf.
  - intros d' a. by apply trashEmptyTx_wf.
Qed.

Lemma erase_fst {B} (r : db * res B) : (erase r).1 = r.1.
Proof. done. Qed.

Lemma run_wf now c d : tree_wf d → tree_wf (run root now c d).1.
Proof using Laws.
  intros Hwf. destruct c; simpl.
  - by apply Mkdir_wf.
  - by apply MkdirPath_wf.
  - by apply MkdirAll_wf.
  - unfold Move. apply withStorageTx_inv; [done|]. intros d' a Hf.
    apply bind_Ok_iff in Hf as ([d1 m] & Hm & Hf). apply Ok_inj in Hf as [= <- _].
    by eapply moveActiveTx_wf.
  - unfold MovePathRevision. apply withStorageTx_inv; [done|]. intros d' a Hf.
    apply bind_Ok_iff in Hf as (s & _ & Hf). by eapply moveNodeToPathTx_wf.
  - unfold MoveToPath. apply withStorageTx_inv; [done|]. intros d' a Hf.
    apply bind_Ok_iff in Hf as (s & _ & Hf). by eapply moveNodeToPathTx_wf.
  - by apply Trash_wf.
  - by apply TrashPathRevision_wf.
  - by apply Restore_wf.
  - by apply trashEmpty_wf.
Qed.

End handlers.
