(* ===== verification/StoreProps.v ===== *)
(** * Properties of the tree and the trash

    The theorems about the store's tree, each with a witness on a small vault
    where it has hypotheses. *)
From S2P Require Import Prelude GoText Names Tables Tree TreeInv TreeFacts Trash TrashFacts StoreMachine.

(** ** A sample vault *)

#[export] Instance no_renditions : RenditionTables :=
  {| deleteRenditionAuthorityForVersionsTx := λ _ _, Ok tt |}.

Definition sample_start : db :=
  match bootstrapTx "t0" empty_db with Ok (d, _) => d | Err _ => empty_db end.

(** / (1) with the directories a (2), a/b (3) and c (4). *)
Definition sample_vault : db :=
  let run := @run ascii_normalizer refusing_audit no_renditions 1%Z in
  let d := (run "t1" (CMkdirAll "/a/b") sample_start).1 in
  (run "t2" (CMkdir 1 "c") d).1.

Lemma bootstrap_wf `{Normalizer} now :
  ∃ d, bootstrapTx now empty_db = Ok (d, 1%Z) ∧ tree_wf 1 d.
Proof.
  eexists. split; [vm_compute; reflexivity|].
  assert (∀ i r, (nodes (MkDb {[1%Z := MkNodeRow None "" dir None 1 now now None None None]}
    1 ∅ ∅ ∅ ∅ false)) !! i = Some r →
    i = 1%Z ∧ r = MkNodeRow None "" dir None 1 now now None None None) as Hone.
  { intros i r Hi. simpl in Hi. by apply lookup_singleton_Some in Hi as [<- <-]. }
  change (tree_wf 1 (MkDb {[1%Z := MkNodeRow None "" dir None 1 now now None None None]}
    1 ∅ ∅ ∅ ∅ false)).
  split; try by (intros i r; intros [-> ->]%Hone).
  - eexists. split; [by apply lookup_singleton_eq|done].
  - intros i r p [-> ->]%Hone; done.
  - intros i [r [-> ->]%Hone]. eexists. eapply anc_root; [by apply lookup_singleton_eq|done].
  - intros i r p pr [-> ->]%Hone; done.
  - intros i r st [-> ->]%Hone; done.
  - intros i r nm [-> ->]%Hone; done.
  - intros i j r s p [-> ->]%Hone; done.
  - intros i [r [-> ->]%Hone]. simpl. lia.
  - intros i r [-> ->]%Hone. simpl. split; [done|intros [? ?]; done].
  - intros i r nm [-> ->]%Hone; done.
Qed.

Lemma sample_start_wf : @tree_wf ascii_normalizer 1 sample_start.
Proof.
  destruct (@bootstrap_wf ascii_normalizer "t0") as (d & Hb & Hw).
  unfold sample_start. by rewrite Hb.
Qed.

Lemma sample_vault_wf : @tree_wf ascii_normalizer 1 sample_vault.
Proof.
  unfold sample_vault.
  apply (@run_wf ascii_normalizer refusing_audit no_renditions 1 _ "t2").
  apply (@run_wf ascii_normalizer refusing_audit no_renditions 1 _ "t1").
  apply sample_start_wf.
Qed.

Section properties.
Context `{Normalizer} (A : AuditedTree) `{RenditionTables} (root : Z).
Notation tree_wf := (tree_wf root).

(** ** Reachable states *)

(** C1: every state a vault reaches from its bootstrap, by any sequence of
    directory creations, moves, trashings, restorations and trash emptyings
    under any clock, satisfies the tree invariant: one root, existing directory
    parents, no cycles, live nodes under live parents, unique sibling names,
    trash roots parked below the root, canonical names. *)
Theorem reachable_tree_wf {Laws : AuditedTreeLaws A 1} now d0 rootID d :
  bootstrapTx now empty_db = Ok (d0, rootID) → reachable rootID d0 d →
  rootID = 1%Z ∧ TreeInv.tree_wf rootID d.
Proof.
  destruct (bootstrap_wf now) as (d0' & Hb & Hw). intros Hb' Hr.
  assert (d0 = d0' ∧ rootID = 1%Z) as [-> ->] by (rewrite Hb in Hb'; by apply Ok_inj in Hb' as [= -> ->]).
  split; [done|]. induction Hr as [|d now' c Hr IH]; [done|]. by apply run_wf.
Qed.

(** a command that fails leaves the database exactly as it was, except
    [MkdirAll], which commits each directory on its own. *)
Theorem failed_command_changes_nothing now c d d' e :
  (∀ path, c ≠ CMkdirAll path) → run root now c d = (d', Err e) → d' = d.
Proof.
  intros Hc Hr. destruct c; simpl in Hr; unfold erase in Hr;
    try by destruct (Hc path).
  all: match type of Hr with (?x.1, _) = _ => destruct x as [d1 [a|e1]] eqn:Hx end;
    simplify_eq/=.
  - unfold Mkdir in Hx. destruct (MkdirWithPath _ _ _ _) as [d2 [n|e2]] eqn:Hm; simplify_eq/=.
    unfold MkdirWithPath in Hm. destruct (NormalizeName nm); [|congruence].
    by apply withStorageTx_error in Hm.
  - unfold MkdirPath in Hx. destruct (check _ _ ≫= _) as [[? ?]|]; [|congruence].
    by apply withStorageTx_error in Hx.
  - unfold Move in Hx. by apply withStorageTx_error in Hx.
  - unfold MovePathRevision in Hx. by apply withStorageTx_error in Hx.
  - unfold MoveToPath in Hx. by apply withStorageTx_error in Hx.
  - unfold Trash in Hx. destruct (_ =? _)%Z; [congruence|]. by apply withStorageTx_error in Hx.
  - unfold TrashPathRevision in Hx. by apply withStorageTx_error in Hx.
  - unfold Restore in Hx. by apply withStorageTx_error in Hx.
  - unfold trashEmpty, withLogicalTx in Hx. by destruct really; apply withStorageTx_error in Hx.
Qed.

(** ** Creating and moving *)

(** [mkdirTx] on every branch: a missing or trashed parent is
    [ErrNotFound], a file parent [ErrNotDir], a live sibling of that name
    [ErrExists]; otherwise it inserts exactly one row, with the next id and
    revision 1, and advances exactly the parent's revision. *)
Theorem mkdirTx_branches d p nm now :
  tree_wf d → canonical_name nm → mkdirTx d p nm now = mkdir_outcome d p nm now.
Proof. apply mkdirTx_outcome. Qed.

(** C26: [moveAtTx] on every branch, in the order of its guards: the root, the
    name, the node, the trash, the revision, the destination, the no-op, the
    cycle, the sibling; a completed move relocates exactly the node and
    advances exactly the node's, the old parent's and the new parent's
    revisions. *)
Theorem moveAtTx_branches d id newp newName ifRev now :
  tree_wf d →
  moveAtTx root d id newp newName ifRev now = move_outcome root d id newp newName ifRev now.
Proof. apply moveAtTx_outcome. Qed.

(** the cycle check terminates on every existing destination and answers
    whether the node is the destination or one of its ancestors. *)
Theorem isAncestorTx_decides d m i :
  tree_wf d → is_Some (nodes d !! i) →
  ∃ b, isAncestorTx d m i = Ok b ∧ (b = true ↔ ∃ k, seg (nodes d) m i k).
Proof.
  intros Hwf Hi. destruct (wf_anc _ _ Hwf i Hi) as [l Hl].
  exists (bool_decide (m ∈ l)). split; [by apply isAncestorTx_anc|].
  rewrite bool_decide_eq_true. split.
  - intros Hm. by apply (anc_seg _ _ _ _ Hl).
  - intros [k Hk]. assert (is_Some (nodes d !! m)) as Hm.
    { clear -Hk Hwf Hi. induction Hk as [|i r p k Hi' Hp Hk IH]; [done|].
      apply IH. destruct (wf_parent _ _ Hwf i r p Hi' Hp) as (pr & ? & _). eauto. }
    destruct (wf_anc _ _ Hwf m Hm) as [lm Hlm].
    rewrite (anc_fun _ _ _ _ Hl (seg_anc _ _ _ _ _ Hk Hlm)).
    destruct (anc_head _ _ _ Hlm) as [t ->]. apply elem_of_app. right. left.
Qed.

(** A move below the node itself is refused with [ErrCycle] and every other
    accepted move leaves no node out of the root's reach. *)
Theorem move_below_itself_is_refused d id r newp pr k newName nm ifRev now :
  tree_wf d → nodes d !! id = Some r → trashed_at r = None → id ≠ root →
  NormalizeName newName = Ok nm → stale ifRev (revision r) = false →
  nodes d !! newp = Some pr → trashed_at pr = None → kind pr = dir →
  seg (nodes d) id newp k →
  moveAtTx root d id newp newName ifRev now = Err ErrCycle.
Proof.
  intros Hwf Hr Ht Hid Hnm Hst Hpr Hpt Hpk Hk. rewrite moveAtTx_outcome by done.
  unfold move_outcome. rewrite decide_False, Hnm by done. cbn. rewrite Hr, Ht. cbn.
  rewrite Hst, liveDirTx_cases, Hpr, Hpt, Hpk. cbn.
  destruct (wf_anc _ _ Hwf id) as [l Hl]; [eauto|].
  pose proof (seg_anc _ _ _ _ _ Hk Hl) as Ha. destruct (anc_head _ _ _ Hl) as [t ->].
  assert (id ∈ chain (nodes d) newp) as Hin.
  { rewrite (anc_ancestry _ _ _ Ha). apply elem_of_app. right. left. }
  rewrite (decide_True (P := id ∈ chain _ _)) by done.
  destruct (decide (parent_id r = Some newp ∧ _)) as [[Hp _]|]; [|done]. exfalso.
  pose proof (anc_NoDup _ _ _ Hl) as Hnd. apply NoDup_cons in Hnd as [Hnd _]. apply Hnd.
  inversion Hl as [|? r' q t' Hr' Hq Ht']; simplify_eq.
  rewrite (anc_fun _ _ _ _ Ht' Ha). apply elem_of_app. right. left.
Qed.

End properties.

Lemma reachable_tree_wf_witness :
  let step := @run ascii_normalizer refusing_audit no_renditions 1%Z in
  (1%Z = 1%Z ∧ @tree_wf ascii_normalizer 1 (step "t1" (CMkdir 1 "a") sample_start).1) ∧
  (step "t1" (CMkdir 1 "a") sample_start).2 = Ok tt.
Proof.
  split; [|vm_compute; reflexivity].
  apply (@reachable_tree_wf ascii_normalizer refusing_audit no_renditions _ "t0" sample_start 1).
  - vm_compute. reflexivity.
  - apply (@reach_step ascii_normalizer refusing_audit no_renditions). constructor.
Defined.

Lemma failed_command_witness :
  let run := @run ascii_normalizer refusing_audit no_renditions 1%Z in
  ∃ e, run "t3" (CMove 2 3 "x" (-1)) sample_vault = (sample_vault, Err e) ∧
       e = ErrCycle ∧ sample_vault = sample_vault.
Proof.
  exists ErrCycle. split_and!; [vm_compute; reflexivity|done|].
  apply (@failed_command_changes_nothing ascii_normalizer refusing_audit no_renditions 1 "t3"
    (CMove 2 3 "x" (-1)) sample_vault sample_vault ErrCycle); [done|vm_compute; reflexivity].
Defined.

Lemma mkdirTx_branches_witness :
  @mkdirTx sample_vault 2 "b" "t3" = @mkdir_outcome sample_vault 2 "b" "t3" ∧
  @mkdir_outcome sample_vault 2 "b" "t3" = Err ErrExists.
Proof.
  split; [|vm_compute; reflexivity].
  apply (@mkdirTx_branches ascii_normalizer 1);
    [apply sample_vault_wf|vm_compute; reflexivity].
Defined.

Lemma moveAtTx_branches_witness :
  @moveAtTx ascii_normalizer 1 sample_vault 3 4 "b" 1 "t3" =
  @move_outcome ascii_normalizer 1 sample_vault 3 4 "b" 1 "t3" ∧
  is_Ok (@moveAtTx ascii_normalizer 1 sample_vault 3 4 "b" 1 "t3") = true.
Proof.
  split; [|vm_compute; reflexivity].
  apply (@moveAtTx_branches ascii_normalizer 1), sample_vault_wf.
Defined.

Lemma isAncestorTx_decides_witness :
  (∃ b, isAncestorTx sample_vault 2 3 = Ok b ∧
        (b = true ↔ ∃ k, seg (nodes sample_vault) 2 3 k)) ∧
  isAncestorTx sample_vault 2 3 = Ok true.
Proof.
  split; [|vm_compute; reflexivity].
  apply (@isAncestorTx_decides ascii_normalizer 1); [apply sample_vault_wf|].
  vm_compute. eauto.
Defined.

Lemma move_below_itself_witness :
  @moveAtTx ascii_normalizer 1 sample_vault 2 3 "x" (-1) "t3" = Err ErrCycle.
Proof.
  eapply (@move_below_itself_is_refused ascii_normalizer 1 _ 2 _ 3 _ [3%Z]);
    [apply sample_vault_wf|vm_compute; reflexivity|reflexivity|done|vm_compute; reflexivity
    |reflexivity|vm_compute; reflexivity|reflexivity|reflexivity|].
  eapply seg_step; [vm_compute; reflexivity|reflexivity|constructor].
Defined.

(** * Witnesses for the path properties *)

Lemma nodeByPath_pathOf_witness :
  ∃ n, @nodeByPath ascii_normalizer 1 sample_vault (pathOf sample_vault 3) = Ok n ∧
    pathOf sample_vault 3 = "/a/b".
Proof.
  destruct (nodes sample_vault !! 3%Z) as [r|] eqn:Hr; [|vm_compute in Hr; discriminate].
  exists (scanNode sample_vault 3 r). split; [|vm_compute; reflexivity].
  apply (@nodeByPath_pathOf ascii_normalizer 1 sample_vault 3 r sample_vault_wf Hr).
  vm_compute in Hr. by injection Hr as <-.
Defined.

Lemma nodeByPath_sound_witness :
  ∃ n segs, @nodeByPath ascii_normalizer 1 sample_vault "//a/b/" = Ok n ∧
    pathOf sample_vault (ID n) = "/" +:+ Join segs "/" ∧ segs = ["a"; "b"].
Proof.
  destruct (@nodeByPath ascii_normalizer 1 sample_vault "//a/b/") as [n|e] eqn:Hn;
    [|vm_compute in Hn; discriminate].
  destruct (@nodeByPath_sound ascii_normalizer 1 sample_vault "//a/b/" n sample_vault_wf Hn)
    as (_ & segs & Hs & Hp).
  exists n, segs. split_and!; [done|exact Hp|].
  vm_compute in Hs. by injection Hs as <-.
Defined.
