(* ===== verification/BatchMove.v ===== *)
(** * Batch moves (internal/store/batch_move.go)

    A batch of up to a thousand moves is planned against one state of the tree,
    checked in memory, and applied under staging names in one transaction.  Go
    maps are finite maps; the order a [range] loop visits one in is left open
    by the language and is a parameter. *)
From stdpp Require Import sorting.
From S2P Require Import Prelude GoText Names Tables Tree.

(** [for k, v := range m]: every entry once, in some order. *)
Class MapRange := {
  range {A} : gmap Z A → list (Z * A);
  range_entries {A} (m : gmap Z A) : range m ≡ₚ map_to_list m;
}.

(** ** Data *)

Definition MaxBatchMoves : nat := 1000.

Record BatchMoveRequest := MkBatchMoveRequest {
  SourcePath : string;
  req_NodeID : Z;
  IfRevision : Z;
  DestinationPath : string;
}.

Record BatchMoveResult := MkBatchMoveResult {
  res_Node : Node;
  FromPath : string;
  res_Path : string;
}.

Record batchMoveNode := MkBatchNode {
  bn_id : Z;
  bn_parentID : option Z;
  bn_name : string;
  bn_kind : node_kind;
  bn_revision : Z;
}.

Record plannedBatchMove := MkPlannedMove {
  requestIndex : nat;
  pm_nodeID : Z;
  oldParentID : Z;
  newParentID : Z;
  newName : string;
  destinationPath : string;
  changed : bool;
}.

Record batchMovePlan := MkBatchPlan {
  plan_nodes : gmap Z batchMoveNode;
  priorPaths : gmap Z string;
  finalPaths : gmap Z string;
  moves : list plannedBatchMove;
  changedIDs : list Z;
  movedIDs : list Z;
  parentIDs : list Z;
  recordedAt : string;
}.

(** ** Topology and paths *)

Definition batch_node (id : Z) (r : node_row) : option batchMoveNode :=
  if is_live r then Some (MkBatchNode id (parent_id r) (name r) (kind r) (revision r)) else None.

Definition loadBatchMoveTopology (d : db) : gmap Z batchMoveNode :=
  map_imap batch_node (nodes d).

(** The recursive closure [pathFor] over the memo table [paths], with the
    planned [destinations] ([batchMovePaths] has none).  Each call but the last
    adds a node to [visiting]. *)
Fixpoint pathFor (ns : gmap Z batchMoveNode) (destinations : gmap Z string) (fuel : nat) (id : Z)
    (visiting : gset Z) (paths : gmap Z string) : res (string * gmap Z string) :=
  match fuel with
  | 0 => Err Diverges
  | S fuel =>
      match paths !! id with
      | Some path => Ok (path, paths)
      | None =>
      match destinations !! id with
      | Some destination => Ok (destination, <[id := destination]> paths)
      | None =>
          node ← from_lookup (ns !! id) ErrNotFound;
          if bool_decide (id ∈ visiting) then Err ErrCycle
          else match bn_parentID node with
          | None => Ok ("/", <[id := "/"]> paths)
          | Some p =>
              '(parent, paths) ← pathFor ns destinations fuel p ({[ id ]} ∪ visiting) paths;
              let path := TrimSuffix parent "/" +:+ "/" +:+ bn_name node in
              Ok (path, <[id := path]> paths)
          end
      end
      end
  end.

Section batch.
Context `{Normalizer} `{MapRange}.

(** The body of the [range] loop of [plannedBatchMovePaths]. *)
Definition plan_path (ns : gmap Z batchMoveNode) (destinations : gmap Z string)
    (acc : gmap Z string * gmap string Z) (e : Z * batchMoveNode) :
    res (gmap Z string * gmap string Z) :=
  let '(paths, pathIDs) := acc in
  '(path, paths) ← pathFor ns destinations (S (size ns)) e.1 ∅ paths;
  let prior := default 0%Z (pathIDs !! path) in
  _ ← check ((prior =? 0)%Z || (prior =? e.1)%Z) ErrExists;
  Ok (paths, <[path := e.1]> pathIDs).

Definition plannedBatchMovePaths (ns : gmap Z batchMoveNode) (mvs : list plannedBatchMove) :
    res (gmap Z string * gmap string Z) :=
  let destinations :=
    foldl (λ m mv, <[pm_nodeID mv := destinationPath mv]> m) ∅ mvs in
  foldM (plan_path ns destinations) (∅, ∅) (range ns).

Definition batchMovePaths (ns : gmap Z batchMoveNode) : res (gmap Z string) :=
  foldM (λ paths e, snd <$> pathFor ns ∅ (S (size ns)) e.1 ∅ paths) ∅ (range ns).

Definition canonicalBatchMovePath (value : string) : res string :=
  segments ← mapR NormalizeName (splitPath value);
  Ok ("/" +:+ Join segments "/").

Definition canonicalBatchMoveDestination (destination : string) : res string :=
  _ ← check (HasPrefix destination "/") ErrInvalidBatchMove;
  canonical ← canonicalBatchMovePath destination;
  _ ← check (negb (String.eqb canonical "/")) ErrIsRoot;
  Ok canonical.

(** ** Resolving sources *)

Definition resolveBatchMoveSource (request : BatchMoveRequest) (ns : gmap Z batchMoveNode)
    (pathIDs : gmap string Z) : res batchMoveNode :=
  let byPath := negb (String.eqb (SourcePath request) "") in
  let byID := negb (req_NodeID request =? 0)%Z in
  _ ← check (negb (Bool.eqb byPath byID)) ErrInvalidBatchMove;
  id ← (if byPath then
          _ ← check (HasPrefix (SourcePath request) "/") ErrInvalidBatchMove;
          canonical ← canonicalBatchMovePath (SourcePath request);
          let id := default 0%Z (pathIDs !! canonical) in
          _ ← check (negb (id =? 0)%Z) ErrNotFound;
          _ ← check (IfRevision request =? 0)%Z ErrInvalidBatchMove;
          Ok id
        else
          _ ← check (negb ((req_NodeID request <? 1)%Z || (IfRevision request <? 1)%Z))
                ErrInvalidBatchMove;
          Ok (req_NodeID request));
  node ← from_lookup (ns !! id) ErrNotFound;
  _ ← check (negb (byID && negb (bn_revision node =? IfRevision request)%Z)) ErrStaleRevision;
  Ok node.

(** The first loop of [planBatchMove]: its state is [seen] and the moves found
    so far.  [*source.parentID] dereferences nil on a parentless node. *)
Definition plan_source (rootID : Z) (initialNodes : gmap Z batchMoveNode) (pathIDs : gmap string Z)
    (acc : gset Z * list plannedBatchMove) (request : BatchMoveRequest) :
    res (gset Z * list plannedBatchMove) :=
  let '(seen, mvs) := acc in
  source ← resolveBatchMoveSource request initialNodes pathIDs;
  _ ← check (negb (bn_id source =? rootID)%Z) ErrIsRoot;
  _ ← check (negb (bool_decide (bn_id source ∈ seen))) ErrInvalidBatchMove;
  destination ← canonicalBatchMoveDestination (DestinationPath request);
  parent ← from_lookup (bn_parentID source) Panics;
  Ok ({[ bn_id source ]} ∪ seen,
      mvs ++ [MkPlannedMove (length mvs) (bn_id source) parent 0 "" destination false]).

Definition plan_sources (rootID : Z) (ns : gmap Z batchMoveNode) (paths : gmap Z string)
    (requests : list BatchMoveRequest) : res (list plannedBatchMove) :=
  let pathIDs := foldl (λ m (e : Z * string), <[e.2 := e.1]> m) ∅ (range paths) in
  snd <$> foldM (plan_source rootID ns pathIDs) (∅, []) requests.

(** ** Placing destinations *)

(** The second loop: [segments[len(segments)-1]] is out of range on the path
    of the root. *)
Definition plan_coordinates (initialNodes : gmap Z batchMoveNode) (finalPathIDs : gmap string Z)
    (acc : gmap Z batchMoveNode * list plannedBatchMove) (mv : plannedBatchMove) :
    res (gmap Z batchMoveNode * list plannedBatchMove) :=
  let '(ns, mvs) := acc in
  let segments := splitPath (destinationPath mv) in
  nm ← from_lookup (last segments) Panics;
  let parentPath := "/" +:+ Join (removelast segments) "/" in
  let parentID := default 0%Z (finalPathIDs !! parentPath) in
  parent ← from_lookup (initialNodes !! parentID) ErrNotFound;
  _ ← check (bool_decide (bn_kind parent = dir)) ErrNotDir;
  source ← from_lookup (initialNodes !! pm_nodeID mv) Panics;
  let moved := negb (oldParentID mv =? parentID)%Z || negb (String.eqb (bn_name source) nm) in
  let ns := if moved
            then alter (λ n, MkBatchNode (bn_id n) (Some parentID) nm (bn_kind n) (bn_revision n))
                   (pm_nodeID mv) ns
            else ns in
  Ok (ns, mvs ++ [MkPlannedMove (requestIndex mv) (pm_nodeID mv) (oldParentID mv) parentID nm
                    (destinationPath mv) moved]).

(** The sibling check; the key ["%d\x00%s"] is the pair it prints. *)
Definition check_sibling (ns : gmap Z batchMoveNode) (siblings : gmap (Z * string) Z)
    (e : Z * batchMoveNode) : res (gmap (Z * string) Z) :=
  match bn_parentID e.2 with
  | None => Ok siblings
  | Some p =>
      parent ← from_lookup (ns !! p) ErrNotFound;
      _ ← check (bool_decide (bn_kind parent = dir)) ErrNotDir;
      let prior := default 0%Z (siblings !! (p, bn_name e.2)) in
      _ ← check ((prior =? 0)%Z || (prior =? e.1)%Z) ErrExists;
      Ok (<[(p, bn_name e.2) := e.1]> siblings)
  end.

(** The closure [visit]: state 1 is in progress, state 2 is done. *)
Fixpoint visit (ns : gmap Z batchMoveNode) (fuel : nat) (id : Z) (states : gmap Z Z) :
    res (gmap Z Z) :=
  match fuel with
  | 0 => Err Diverges
  | S fuel =>
      let state := default 0%Z (states !! id) in
      if (state =? 1)%Z then Err ErrCycle
      else if (state =? 2)%Z then Ok states
      else
        let states := <[id := 1%Z]> states in
        states ← (match ns !! id ≫= bn_parentID with
                  | Some p => visit ns fuel p states
                  | None => Ok states
                  end);
        Ok (<[id := 2%Z]> states)
  end.

Definition validateBatchMoveTopology (ns : gmap Z batchMoveNode) : res unit :=
  _ ← foldM (check_sibling ns) ∅ (range ns);
  _ ← foldM (λ states e, visit ns (S (S (size ns))) e.1 states) ∅ (range ns);
  Ok tt.

Definition sortedBatchMoveIDs (s : gset Z) : list Z := merge_sort Z.le (elements s).

Definition changed_moves (mvs : list plannedBatchMove) : list plannedBatchMove :=
  filter (λ mv, changed mv = true) mvs.
Definition moved_set (mvs : list plannedBatchMove) : gset Z :=
  list_to_set (pm_nodeID <$> changed_moves mvs).
Definition parent_set (mvs : list plannedBatchMove) : gset Z :=
  list_to_set (oldParentID <$> changed_moves mvs) ∪ list_to_set (newParentID <$> changed_moves mvs).

Definition planBatchMove (rootID : Z) (d : db) (requests : list BatchMoveRequest) (now : string) :
    res batchMovePlan :=
  let initialNodes := loadBatchMoveTopology d in
  prior ← batchMovePaths initialNodes;
  mvs ← plan_sources rootID initialNodes prior requests;
  '(planned, finalPathIDs) ← plannedBatchMovePaths initialNodes mvs;
  '(ns, mvs) ← foldM (plan_coordinates initialNodes finalPathIDs) (initialNodes, []) mvs;
  _ ← validateBatchMoveTopology ns;
  final ← batchMovePaths ns;
  _ ← check (bool_decide (final = planned)) ErrOther;
  Ok (MkBatchPlan ns prior final mvs (sortedBatchMoveIDs (moved_set mvs ∪ parent_set mvs))
        (sortedBatchMoveIDs (moved_set mvs)) (sortedBatchMoveIDs (parent_set mvs)) now).

(** ** Applying *)

Definition temporaryName (id : Z) : string :=
  String (ascii_of_nat 0) "docbank-batch-" +:+ Itoa id.

Definition rename (nm : string) (r : node_row) : node_row :=
  MkNodeRow (parent_id r) nm (kind r) (current_version_id r) (revision r) (created_at r)
    (modified_at r) (trashed_at r) (trash_parent r) (trash_name r).

Definition stage_move (d : db) (id : Z) : res db :=
  exec d (update_where (is_id id) (rename (temporaryName id)) (nodes d)) ErrOther.

Definition apply_move (at_time : string) (d : db) (mv : plannedBatchMove) : res db :=
  if changed mv
  then exec d (update_where (is_id (pm_nodeID mv))
                 (set_location (newParentID mv) (newName mv) at_time) (nodes d)) ErrOther
  else Ok d.

Definition bump_parent (mvs : list plannedBatchMove) (at_time : string) (d : db) (id : Z) : res db :=
  if bool_decide (id ∈ moved_set mvs) then Ok d else bumpRevisionTx d id at_time.

Definition applyBatchMove (d : db) (plan : batchMovePlan) : res db :=
  d ← foldM stage_move d (movedIDs plan);
  d ← foldM (apply_move (recordedAt plan)) d (moves plan);
  foldM (bump_parent (moves plan) (recordedAt plan)) d (parentIDs plan).

(** A move's [requestIndex] is its position in [moves]. *)
Definition batchMoveResults (d : db) (plan : batchMovePlan) : res (list BatchMoveResult) :=
  mapR (λ mv,
    node ← nodeByIDTx d (pm_nodeID mv);
    Ok (MkBatchMoveResult node (default "" (priorPaths plan !! pm_nodeID mv))
          (pathOf d (pm_nodeID mv)))) (moves plan).

Definition batchMoveChangedPathIDs (plan : batchMovePlan) (members : gset Z) : res (list Z) :=
  ids ← foldM (λ ids (e : Z * string),
          _ ← check (0 <? e.1)%Z ErrOther;
          Ok (if bool_decide (e.1 ∈ members)
                 && negb (String.eqb e.2 (default "" (finalPaths plan !! e.1)))
              then ids ++ [e.1] else ids)) [] (range (priorPaths plan));
  Ok (merge_sort Z.le ids).

End batch.

(** ** The whole command

    The audited variant is an interface, see [AuditedTree]: what it reads
    before the moves (its snapshot fixes the time recorded) and what it writes
    after them. *)
Class AuditedBatch := {
  auditedBatchMoveSnapshot : Type;
  snapshot_recordedAt : auditedBatchMoveSnapshot → string;
  prepareAuditedBatchMove : db → batchMovePlan → res auditedBatchMoveSnapshot;
  persistAuditedBatchMove : db → auditedBatchMoveSnapshot → batchMovePlan → res db;
}.

Definition refusing_batch_audit : AuditedBatch := {|
  auditedBatchMoveSnapshot := unit;
  snapshot_recordedAt := λ _, "";
  prepareAuditedBatchMove := λ _ _, Err ErrAuditMutationUnsupported;
  persistAuditedBatchMove := λ _ _ _, Err ErrAuditMutationUnsupported;
|}.

Section command.
Context `{Normalizer} `{MapRange} `{AuditedBatch} (rootID : Z).

Definition recorded_at (at_time : string) (p : batchMovePlan) : batchMovePlan :=
  MkBatchPlan (plan_nodes p) (priorPaths p) (finalPaths p) (moves p) (changedIDs p) (movedIDs p)
    (parentIDs p) at_time.

Definition BatchMoveTx (requests : list BatchMoveRequest) (now : string) (d : db) :
    res (db * list BatchMoveResult) :=
  plan ← planBatchMove rootID d requests now;
  match movedIDs plan with
  | [] => results ← batchMoveResults d plan; Ok (d, results)
  | _ =>
      if audit_active d then
        snapshot ← prepareAuditedBatchMove d plan;
        let plan := recorded_at (snapshot_recordedAt snapshot) plan in
        d ← applyBatchMove d plan;
        d ← persistAuditedBatchMove d snapshot plan;
        results ← batchMoveResults d plan;
        Ok (d, results)
      else
        d ← applyBatchMove d plan;
        results ← batchMoveResults d plan;
        Ok (d, results)
  end.

Definition BatchMove (requests : list BatchMoveRequest) (now : string) (d : db) :
    db * res (list BatchMoveResult) :=
  if (length requests =? 0)%nat || (MaxBatchMoves <? length requests)%nat
  then (d, Err ErrInvalidBatchMove)
  else withStorageTx (BatchMoveTx requests now) d.

End command.
