(* ===== verification/BatchPaths.v ===== *)
(** * The paths of a planned batch

    Where every node ends up is a relation on the topology and the planned
    destinations; [pathFor], [batchMovePaths] and [plannedBatchMovePaths]
    compute it, whatever order they visit the nodes in.

    What a well-formed vault's live rows look like to the planner, and which
    node and destination a request names. *)
From S2P Require Import Prelude GoText Names Tables Tree TreeInv TreeFacts BatchMove.

(** ** Path strings *)

Definition path_string (segs : list string) : string := "/" +:+ Join segs "/".

Definition clean (segs : list string) : Prop :=
  Forall (λ s, s ≠ "" ∧ mem_byte "/"%char s = false) segs.

Lemma splitPath_path_string segs : clean segs → splitPath (path_string segs) = segs.
Proof. apply splitPath_Join. Qed.

Lemma path_string_inj segs segs' :
  clean segs → clean segs' → path_string segs = path_string segs' → segs = segs'.
Proof.
  intros Hs Hs' Heq. rewrite <- (splitPath_path_string _ Hs), Heq.
  by apply splitPath_path_string.
Qed.

Lemma HasSuffix_slash_clean s : s ≠ "" → mem_byte "/"%char s = false → HasSuffix s "/" = false.
Proof.
  intros _ Hm. apply not_true_iff_false. intros (r & ->)%HasSuffix_spec.
  rewrite mem_byte_app in Hm. simpl in Hm. by rewrite orb_true_r in Hm.
Qed.

(** [strings.TrimSuffix(parent, "/") + "/" + name] extends a path. *)
Lemma extend_path segs s :
  clean segs → TrimSuffix (path_string segs) "/" +:+ "/" +:+ s = path_string (segs ++ [s]).
Proof.
  intros Hc. destruct (decide (segs = [])) as [->|Hne]; [done|].
  unfold path_string. rewrite Join_snoc by done. unfold TrimSuffix.
  assert (HasSuffix ("/" +:+ Join segs "/") "/" = false) as ->; [|done].
  destruct (exists_last Hne) as (init & z & ->). apply Forall_app in Hc as [_ Hz].
  apply Forall_singleton in Hz as [Hz Hm]. apply not_true_iff_false.
  intros (r & Hr)%HasSuffix_spec.
  assert (∃ u, "/" +:+ Join (init ++ [z]) "/" = u +:+ "/" +:+ z) as [u Hu].
  { destruct (decide (init = [])) as [->|Hi]; [by exists ""|].
    rewrite Join_snoc by done. exists ("/" +:+ Join init "/"). by rewrite !sapp_assoc. }
  rewrite Hu in Hr. assert (HasSuffix (u +:+ "/" +:+ z) "/" = true) as Hs
    by (apply HasSuffix_spec; by exists r).
  assert (HasSuffix z "/" = true) as Hz'; [|by rewrite HasSuffix_slash_clean in Hz'].
  clear Hu Hr. destruct z as [|c z]; [done|].
  apply HasSuffix_spec in Hs as (r' & Hr'). apply HasSuffix_spec.
  assert (∀ (w v x : string), w +:+ v = x +:+ "/" → v ≠ "" → ∃ y, v = y +:+ "/") as Hcut.
  { clear. induction w as [|a w IH]; intros v x Hw Hv; [by exists x|].
    destruct x as [|b x]; [|injection Hw as _ Hw; eauto].
    rewrite sapp_cons in Hw. injection Hw as _ Hw. destruct w; [|done]. simpl in Hw. by subst. }
  rewrite sapp_assoc in Hr'. by eapply Hcut.
Qed.

(** ** Relocation

    [relocated T D i l segs]: when the nodes of [D] are put at the paths [D]
    gives and everything else keeps its name and parent, node [i] is found at
    [segs]; [l] is the chain of nodes that decide it. *)
Inductive relocated (T : gmap Z batchMoveNode) (D : gmap Z (list string)) :
    Z → list Z → list string → Prop :=
  | reloc_dest i b segs : T !! i = Some b → D !! i = Some segs → relocated T D i [i] segs
  | reloc_root i b : T !! i = Some b → D !! i = None → bn_parentID b = None → relocated T D i [i] []
  | reloc_step i b p l segs :
      T !! i = Some b → D !! i = None → bn_parentID b = Some p → relocated T D p l segs →
      relocated T D i (i :: l) (segs ++ [bn_name b]).

Section relocation.
Context (T : gmap Z batchMoveNode) (D : gmap Z (list string)).
Implicit Types (i j p : Z) (l : list Z) (segs : list string).

Lemma relocated_fun i l segs l' segs' :
  relocated T D i l segs → relocated T D i l' segs' → l = l' ∧ segs = segs'.
Proof.
  intros Hr. revert l' segs'.
  induction Hr as [i b s Hb Hd|i b Hb Hd Hp|i b p l s Hb Hd Hp Hr IH]; intros l' segs' Hr';
    inversion Hr'; simplify_eq; try done.
  match goal with H : relocated T D p _ _ |- _ => destruct (IH _ _ H) as [-> ->] end. done.
Qed.

Lemma relocated_in i l segs j : relocated T D i l segs → j ∈ l → is_Some (T !! j).
Proof.
  induction 1; intros Hj; apply elem_of_cons in Hj as [->|Hj]; eauto; by apply elem_of_nil in Hj.
Qed.

Lemma relocated_suffix i l segs j :
  relocated T D i l segs → j ∈ l → ∃ k t s, l = k ++ j :: t ∧ relocated T D j (j :: t) s.
Proof.
  induction 1 as [i b s Hb Hd|i b Hb Hd Hp|i b p l s Hb Hd Hp Hr IH]; intros Hj.
  - apply list_elem_of_singleton in Hj as ->. exists [], [], s. eauto using relocated.
  - apply list_elem_of_singleton in Hj as ->. exists [], [], []. eauto using relocated.
  - apply elem_of_cons in Hj as [->|Hj].
    + exists [], l. eauto using relocated.
    + destruct (IH Hj) as (k & t & s' & -> & Ht). by exists (i :: k), t, s'.
Qed.

Lemma relocated_NoDup i l segs : relocated T D i l segs → NoDup l.
Proof.
  induction 1 as [i b s Hb Hd|i b Hb Hd Hp|i b p l s Hb Hd Hp Hr IH]; [apply NoDup_singleton..|].
  apply NoDup_cons. split; [|done]. intros Hin.
  destruct (relocated_suffix _ _ _ _ Hr Hin) as (k & t & s' & -> & Ht).
  destruct (relocated_fun _ _ _ _ _ Ht (reloc_step _ _ _ _ _ _ _ Hb Hd Hp Hr)) as [Heq _].
  apply (f_equal length) in Heq. simpl in Heq. rewrite length_app in Heq. simpl in Heq. lia.
Qed.

Lemma relocated_length i l segs : relocated T D i l segs → (length l ≤ size T)%nat.
Proof.
  intros Hr. assert (list_to_set l ⊆ (dom T : gset Z)) as Hsub.
  { intros j Hj. apply elem_of_list_to_set in Hj. apply elem_of_dom. by eapply relocated_in. }
  apply subseteq_size in Hsub. rewrite size_dom in Hsub.
  by rewrite (size_list_to_set _ (relocated_NoDup _ _ _ Hr)) in Hsub.
Qed.

Lemma relocated_clean i l segs :
  map_Forall (λ _ s, clean s) D →
  (∀ j b, T !! j = Some b → bn_parentID b ≠ None → clean [bn_name b]) →
  relocated T D i l segs → clean segs.
Proof.
  intros HD HT. induction 1 as [i b s Hb Hd|i b Hb Hd Hp|i b p l s Hb Hd Hp Hr IH].
  - by eapply (HD i).
  - by apply Forall_nil.
  - apply Forall_app. split; [done|]. eapply HT; [done|]. by rewrite Hp.
Qed.

(** A node found without destinations is found with any. *)
Lemma relocated_total i l segs : relocated T ∅ i l segs → ∃ l' segs', relocated T D i l' segs'.
Proof.
  induction 1 as [i b s Hb Hd|i b Hb Hd Hp|i b p l s Hb Hd Hp Hr (l' & s' & IH)];
    [by rewrite lookup_empty in Hd|..]; destruct (D !! i) as [s0|] eqn:Hi; eauto using relocated.
Qed.
End relocation.

(** ** [pathFor] *)

Section pathFor.
Context (T : gmap Z batchMoveNode) (D : gmap Z (list string)).
Context (HD : map_Forall (λ _ s, clean s) D).
Context (HT : ∀ j b, T !! j = Some b → bn_parentID b ≠ None → clean [bn_name b]).

(** A memo table holds right answers only. *)
Definition memo (paths : gmap Z string) : Prop :=
  ∀ i s, paths !! i = Some s → ∃ l segs, relocated T D i l segs ∧ s = path_string segs.

Lemma memo_insert paths i l segs :
  memo paths → relocated T D i l segs → memo (<[i := path_string segs]> paths).
Proof.
  intros Hm Hr j s [[<- <-]|[_ Hj]]%lookup_insert_Some; [eauto|]. by apply Hm.
Qed.

Lemma pathFor_spec i l segs :
  relocated T D i l segs → ∀ fuel visiting paths,
  (length l ≤ fuel)%nat → memo paths → (∀ j, j ∈ l → j ∉ visiting) →
  ∃ paths', pathFor T (path_string <$> D) fuel i visiting paths = Ok (path_string segs, paths') ∧
    memo paths' ∧ paths ⊆ paths' ∧ is_Some (paths' !! i).
Proof.
  intros Hr. assert (∀ paths s, memo paths → paths !! i = Some s → s = path_string segs) as Hhit.
  { intros paths s Hm Hs. destruct (Hm _ _ Hs) as (l' & s' & Hr' & ->).
    by destruct (relocated_fun _ _ _ _ _ _ _ Hr Hr') as [_ ->]. }
  revert Hhit.
  induction Hr as [i b s Hb Hd|i b Hb Hd Hp|i b p l s Hb Hd Hp Hr IH];
    intros Hhit [|fuel] visiting paths Hf Hm Hv; simpl in Hf; try lia; cbn [pathFor];
    (destruct (paths !! i) as [s0|] eqn:Hi;
       [rewrite (Hhit _ _ Hm Hi); exists paths; split_and!; eauto|]);
    rewrite lookup_fmap, Hd; cbn.
  - eexists. split_and!; [done|by eapply memo_insert, reloc_dest|by apply insert_subseteq|].
    by rewrite lookup_insert_eq.
  - rewrite Hb. cbn. rewrite bool_decide_eq_false_2 by (apply Hv; left). rewrite Hp.
    eexists. split_and!; [done| |by apply insert_subseteq|by rewrite lookup_insert_eq].
    apply (memo_insert paths i [i] [] Hm). by eapply reloc_root.
  - rewrite Hb. cbn. rewrite bool_decide_eq_false_2 by (apply Hv; left). rewrite Hp.
    pose proof (relocated_NoDup _ _ _ _ _ (reloc_step _ _ _ _ _ _ _ Hb Hd Hp Hr)) as [Hni _]%NoDup_cons.
    destruct (IH) with (fuel := fuel) (visiting := {[ i ]} ∪ visiting) (paths := paths)
      as (paths' & -> & Hm' & Hsub & _); [|lia|done| |].
    { intros paths' s' Hm' Hs'. destruct (Hm' _ _ Hs') as (l' & s'' & Hr' & ->).
      by destruct (relocated_fun _ _ _ _ _ _ _ Hr Hr') as [_ ->]. }
    { intros j Hj. apply not_elem_of_union. split; [|apply Hv; by right].
      intros ->%elem_of_singleton. done. }
    cbn. rewrite extend_path.
    2: { eapply (relocated_clean T D); eauto. }
    eexists. split_and!; [done|by eapply memo_insert, reloc_step| |by rewrite lookup_insert_eq].
    apply insert_subseteq_r; done.
Qed.

(** The loop over the nodes. *)
Lemma pathFor_from_root i l segs paths :
  relocated T D i l segs → memo paths →
  ∃ paths', pathFor T (path_string <$> D) (S (size T)) i ∅ paths = Ok (path_string segs, paths') ∧
    memo paths' ∧ paths ⊆ paths' ∧ is_Some (paths' !! i).
Proof.
  intros Hr Hm. eapply pathFor_spec; [done| |done|].
  - pose proof (relocated_length _ _ _ _ _ Hr). lia.
  - intros j _. apply not_elem_of_empty.
Qed.
End pathFor.

(** ** The path tables *)

(** The complete table: the place of every node of [T]. *)
Record path_table (T : gmap Z batchMoveNode) (D : gmap Z (list string)) (P : gmap Z string) :
    Prop := {
  pt_dom i : is_Some (P !! i) ↔ is_Some (T !! i);
  pt_memo : memo T D P;
}.

Section tables.
Context `{MapRange} (T : gmap Z batchMoveNode) (D : gmap Z (list string)).
Context (HD : map_Forall (λ _ s, clean s) D).
Context (HT : ∀ j b, T !! j = Some b → bn_parentID b ≠ None → clean [bn_name b]).
Context (Htree : ∀ i, is_Some (T !! i) → ∃ l segs, relocated T ∅ i l segs).

Lemma elem_of_range {A} (m : gmap Z A) e : e ∈ range m ↔ m !! e.1 = Some e.2.
Proof. rewrite range_entries. destruct e. apply elem_of_map_to_list. Qed.

Lemma everywhere i : is_Some (T !! i) → ∃ l segs, relocated T D i l segs.
Proof using Htree. intros (l & s & Hr)%Htree. by eapply relocated_total. Qed.

Lemma path_table_lookup P i l segs :
  path_table T D P → relocated T D i l segs → P !! i = Some (path_string segs).
Proof.
  intros HP Hr. destruct (proj2 (pt_dom _ _ _ HP i)) as [s Hs].
  { eapply relocated_in; [done|]. destruct Hr; left. }
  destruct (pt_memo _ _ _ HP _ _ Hs) as (l' & s' & Hr' & ->).
  by destruct (relocated_fun _ _ _ _ _ _ _ Hr Hr') as [_ ->].
Qed.

Lemma path_table_inv P i s :
  path_table T D P → P !! i = Some s → ∃ l segs, relocated T D i l segs ∧ s = path_string segs.
Proof. intros HP Hs. by apply (pt_memo _ _ _ HP). Qed.

Lemma memo_dom P i : memo T D P → is_Some (P !! i) → is_Some (T !! i).
Proof.
  intros Hm [s Hs]. destruct (Hm _ _ Hs) as (l & segs & Hr & _).
  eapply relocated_in; [done|]. destruct Hr; left.
Qed.

Lemma batchMovePaths_loop es : ∀ paths,
  (∀ e, e ∈ es → T !! e.1 = Some e.2) → memo T D paths →
  ∃ paths', foldM (λ paths (e : Z * batchMoveNode),
      snd <$> pathFor T (path_string <$> D) (S (size T)) e.1 ∅ paths) paths es = Ok paths' ∧
    memo T D paths' ∧ paths ⊆ paths' ∧ ∀ e, e ∈ es → is_Some (paths' !! e.1).
Proof using HD HT Htree.
  induction es as [|e es IH]; intros paths Hes Hm.
  { exists paths. split_and!; try done. by intros e ?%elem_of_nil. }
  destruct (everywhere e.1) as (l & segs & Hr); [rewrite (Hes e) by (by left); done|].
  destruct (pathFor_from_root T D HD HT _ _ _ paths Hr Hm) as (paths1 & Hp1 & Hm1 & Hs1 & Hi1).
  destruct (IH paths1) as (paths2 & Hp2 & Hm2 & Hs2 & Hi2); [intros; apply Hes; by right|done|].
  exists paths2. cbn [foldM]. rewrite Hp1. cbn. split_and!; [exact Hp2|done|by etrans|].
  intros e' [->|He']%elem_of_cons; [|by apply Hi2].
  destruct Hi1 as [s Hs]. exists s. by eapply lookup_weaken.
Qed.
End tables.

Lemma batchMovePaths_table `{MapRange} (T : gmap Z batchMoveNode) :
  (∀ j b, T !! j = Some b → bn_parentID b ≠ None → clean [bn_name b]) →
  (∀ i, is_Some (T !! i) → ∃ l segs, relocated T ∅ i l segs) →
  ∃ P, batchMovePaths T = Ok P ∧ path_table T ∅ P.
Proof.
  intros HT Htree. unfold batchMovePaths.
  destruct (batchMovePaths_loop T ∅) with (es := range T) (paths := ∅ : gmap Z string)
    as (P & HP & Hm & _ & Hall); [done|done|done|by intros e ?%elem_of_range| |].
  { intros i s Hs. by rewrite lookup_empty in Hs. }
  exists P. rewrite fmap_empty in HP. split; [exact HP|]. split; [|done].
  intros i. split; [by eapply memo_dom|]. intros [b Hb].
  apply (Hall (i, b)). by apply elem_of_range.
Qed.

Lemma path_table_unique T D T' D' P P' :
  path_table T D P → path_table T' D' P' → (∀ i, is_Some (T !! i) ↔ is_Some (T' !! i)) →
  (∀ i l segs, relocated T D i l segs → ∃ l', relocated T' D' i l' segs) → P = P'.
Proof.
  intros HP HP' Hdom Hsame. apply map_eq. intros i. destruct (P !! i) as [s|] eqn:Hs.
  - destruct (path_table_inv _ _ _ _ _ HP Hs) as (l & segs & Hr & ->).
    destruct (Hsame _ _ _ Hr) as (l' & Hr'). symmetry. by eapply path_table_lookup.
  - destruct (P' !! i) eqn:Hs'; [|done]. exfalso.
    assert (is_Some (P !! i)) as [? ?]; [|congruence].
    apply (pt_dom _ _ _ HP), Hdom, (pt_dom _ _ _ HP'). eauto.
Qed.

(** The collision check of [plannedBatchMovePaths]. *)
Section planned.
Context `{MapRange} (T : gmap Z batchMoveNode) (D : gmap Z (list string)).
Context (HD : map_Forall (λ _ s, clean s) D).
Context (HT : ∀ j b, T !! j = Some b → bn_parentID b ≠ None → clean [bn_name b]).
Context (Htree : ∀ i, is_Some (T !! i) → ∃ l segs, relocated T ∅ i l segs).
Context (Hpos : ∀ i, is_Some (T !! i) → (0 < i)%Z).

Definition injective : Prop :=
  ∀ i j l l' segs, relocated T D i l segs → relocated T D j l' segs → i = j.

(** [ids] is the inverse of [paths] on the nodes visited. *)
Record visited (acc : gmap Z string * gmap string Z) (seen : list Z) : Prop := {
  vi_memo : memo T D acc.1;
  vi_ids s i : acc.2 !! s = Some i → i ∈ seen ∧ acc.1 !! i = Some s;
  vi_seen i : i ∈ seen → ∃ s, acc.1 !! i = Some s ∧ acc.2 !! s = Some i;
}.

Lemma plan_path_loop es : ∀ acc seen,
  (∀ e, e ∈ es → T !! e.1 = Some e.2) → visited acc seen →
  match foldM (plan_path T (path_string <$> D)) acc es with
  | Ok acc' => visited acc' (seen ++ es.*1)
  | Err e => e = ErrExists ∧ ¬ injective
  end.
Proof using HD HT Htree Hpos.
  induction es as [|e es IH]; intros [paths ids] seen Hes Hv.
  { simpl. by rewrite app_nil_r. }
  assert (is_Some (T !! e.1)) as He by (rewrite (Hes e) by (by left); done).
  destruct (everywhere T D Htree e.1 He) as (l & segs & Hr).
  destruct (pathFor_from_root T D HD HT _ _ _ paths Hr (vi_memo _ _ Hv))
    as (paths1 & Hp1 & Hm1 & Hs1 & [s1 Hi1]).
  assert (s1 = path_string segs) as ->.
  { destruct (Hm1 _ _ Hi1) as (l' & s' & Hr' & ->).
    by destruct (relocated_fun _ _ _ _ _ _ _ Hr Hr') as [_ ->]. }
  assert (foldM (plan_path T (path_string <$> D)) (paths, ids) (e :: es) =
    (acc' ← plan_path T (path_string <$> D) (paths, ids) e;
     foldM (plan_path T (path_string <$> D)) acc' es)) as -> by done.
  assert (plan_path T (path_string <$> D) (paths, ids) e =
    (_ ← check ((default 0%Z (ids !! path_string segs) =? 0)%Z
                || (default 0%Z (ids !! path_string segs) =? e.1)%Z) ErrExists;
     Ok (paths1, <[path_string segs := e.1]> ids))) as ->
    by (unfold plan_path; by rewrite Hp1).
  destruct (ids !! path_string segs) as [j|] eqn:Hj; cbn -[plan_path].
  - destruct (vi_ids _ _ Hv _ _ Hj) as [Hjs Hjp].
    destruct (vi_memo _ _ Hv _ _ Hjp) as (lj & sj & Hrj & Heq).
    assert (segs = sj) as <- by (apply path_string_inj; [exact (relocated_clean T D _ _ _ HD HT Hr)|
        exact (relocated_clean T D _ _ _ HD HT Hrj)|done]).
    pose proof (Hpos j (relocated_in _ _ _ _ _ j Hrj ltac:(by destruct Hrj; left))).
    destruct (Z.eqb_spec j 0); [lia|]. simpl. destruct (Z.eqb_spec j e.1) as [->|Hne].
    + cbn -[plan_path].
      assert (visited (paths1, <[path_string segs:=e.1]> ids) seen) as Hv1.
      { split; simpl; [done| |].
        - intros s i [[<- <-]|[_ Hi]]%lookup_insert_Some; [done|].
          destruct (vi_ids _ _ Hv _ _ Hi) as [? Hi']. split; [done|]. by eapply lookup_weaken.
        - intros i Hi. destruct (vi_seen _ _ Hv i Hi) as (s & Hs & Hs'). exists s.
          split; [by eapply lookup_weaken|]. rewrite insert_id; done. }
      pose proof (IH (paths1, <[path_string segs:=e.1]> ids) seen
        ltac:(intros; apply Hes; by right) Hv1) as HIH.
      destruct (foldM _ _ es) as [acc'|]; [|done]. destruct HIH as [? Hb Hc]. split; [done|..].
      * intros s i Hi. destruct (Hb s i Hi) as [Hin ?]. split; [|done].
        apply elem_of_app in Hin. rewrite elem_of_app, elem_of_cons. tauto.
      * intros i Hi. apply Hc. rewrite elem_of_app, elem_of_cons in Hi. apply elem_of_app.
        destruct Hi as [?|[->|?]]; auto.
    + cbn. split; [done|]. intros Hinj. by destruct Hne; apply (Hinj j e.1 lj l segs).
  - rewrite (cons_middle _ seen), app_assoc. apply IH; [intros; apply Hes; by right|].
    split; simpl; [done| |].
    + intros s i [[<- <-]|[_ Hi]]%lookup_insert_Some.
      * split; [apply elem_of_app; right; by left|done].
      * destruct (vi_ids _ _ Hv _ _ Hi) as [? Hi'].
        split; [apply elem_of_app; by left|by eapply lookup_weaken].
    + intros i [Hi| ->%list_elem_of_singleton]%elem_of_app.
      * destruct (vi_seen _ _ Hv i Hi) as (s & Hs & Hs'). exists s.
        split; [by eapply lookup_weaken|]. simpl in Hs'. rewrite lookup_insert_ne; [done|]. intros Heq. congruence.
      * exists (path_string segs). split; [done|by rewrite lookup_insert_eq].
Qed.

Lemma visited_injective acc seen :
  visited acc seen → (∀ i, is_Some (T !! i) → i ∈ seen) → injective.
Proof using HD HT.
  intros Hv Hall i j l l' segs Hi Hj.
  assert (∀ k lk, relocated T D k lk segs → acc.2 !! path_string segs = Some k) as Hk.
  { intros k lk Hk. destruct (vi_seen _ _ Hv k) as (s & Hs & Hs').
    { apply Hall. eapply relocated_in; [done|]. by destruct Hk; left. }
    destruct (vi_memo _ _ Hv _ _ Hs) as (l0 & s0 & Hr0 & ->).
    by destruct (relocated_fun _ _ _ _ _ _ _ Hk Hr0) as [_ ->]. }
  pose proof (Hk _ _ Hi). pose proof (Hk _ _ Hj). congruence.
Qed.
End planned.

(** [plannedBatchMovePaths] decides injectivity and, where it holds, gives the
    table and its inverse. *)
Lemma plannedBatchMovePaths_spec `{MapRange} T D mvs :
  map_Forall (λ _ s, clean s) D →
  (∀ j b, T !! j = Some b → bn_parentID b ≠ None → clean [bn_name b]) →
  (∀ i, is_Some (T !! i) → ∃ l segs, relocated T ∅ i l segs) →
  (∀ i, is_Some (T !! i) → (0 < i)%Z) →
  foldl (λ m mv, <[pm_nodeID mv := destinationPath mv]> m) ∅ mvs = path_string <$> D →
  match plannedBatchMovePaths T mvs with
  | Ok (P, ids) => path_table T D P ∧ injective T D ∧ ∀ s i, ids !! s = Some i ↔ P !! i = Some s
  | Err e => e = ErrExists ∧ ¬ injective T D
  end.
Proof.
  intros HD HT Htree Hpos Hdest. unfold plannedBatchMovePaths. rewrite Hdest.
  pose proof (plan_path_loop T D HD HT Htree Hpos (range T) (∅, ∅) []) as Hloop.
  destruct (foldM _ _ _) as [[P ids]|e].
  2: { apply Hloop; [by intros e' ?%elem_of_range|].
       split; simpl; intros *; rewrite ?lookup_empty; try done. by intros ?%elem_of_nil. }
  assert (visited T D (P, ids) ([] ++ (range T).*1)) as Hv.
  { apply Hloop; [by intros e' ?%elem_of_range|].
    split; simpl; intros *; rewrite ?lookup_empty; try done. by intros ?%elem_of_nil. }
  assert (∀ i, is_Some (T !! i) → i ∈ [] ++ (range T).*1) as Hall.
  { intros i [b Hb]. simpl. apply list_elem_of_fmap. exists (i, b).
    split; [done|]. by apply elem_of_range. }
  split_and!.
  - split; [|apply Hv]. intros i. split; [apply (memo_dom T D), Hv|]. intros Hi%Hall.
    destruct (vi_seen _ _ _ _ Hv i Hi) as (s & Hs & _). by exists s.
  - by eapply visited_injective.
  - intros s i. split; [intros Hi; by apply (vi_ids _ _ _ _ Hv) in Hi as [_ ?]|].
    intros Hs. destruct (vi_seen _ _ _ _ Hv i) as (s' & Hs' & ?).
    { apply Hall. eapply memo_dom; [apply Hv|]. by exists s. }
    simpl in *. congruence.
Qed.

(** ** The cycle check *)

Lemma visit_spec T i l segs : relocated T ∅ i l segs → ∀ fuel states,
  (length l ≤ fuel)%nat → (∀ j, j ∈ l → states !! j ≠ Some 1%Z) →
  (∀ j s, states !! j = Some s → s = 1%Z ∨ s = 2%Z) →
  ∃ states', visit T fuel i states = Ok states' ∧
    (∀ j s, states' !! j = Some s → s = 1%Z ∨ s = 2%Z) ∧
    ∀ j, states' !! j = Some 1%Z → states !! j = Some 1%Z.
Proof.
  intros Hr. pose proof (relocated_NoDup _ _ _ _ _ Hr) as Hnd. revert Hnd.
  induction Hr as [i b s Hb Hd|i b Hb Hd Hp|i b p l s Hb Hd Hp Hr IH];
    [by rewrite lookup_empty in Hd|..]; intros Hnd [|fuel] states Hf Hno H12; simpl in Hf; try lia;
    cbn [visit]; pose proof (Hno i ltac:(by left)) as Hi;
    (destruct (states !! i) as [st|] eqn:Hst;
      [destruct (H12 _ _ Hst) as [->| ->]; [done|exists states; by split_and!]|]); cbn -[visit];
    rewrite Hb; cbn -[visit]; rewrite Hp; cbn -[visit].
  - eexists. split_and!; [done|..]; intros j; rewrite insert_insert_eq.
    + intros s' [[_ <-]|[_ ?]]%lookup_insert_Some; eauto.
    + by intros [[_ ?]|[_ ?]]%lookup_insert_Some.
  - apply NoDup_cons in Hnd as [Hni Hnd]. destruct (IH Hnd fuel (<[i:=1%Z]> states)) as (st' & -> & H12' & Hkeep).
    { lia. }
    { intros j Hj. rewrite lookup_insert_ne by (by intros ->). apply Hno. by right. }
    { intros j s' [[_ <-]|[_ ?]]%lookup_insert_Some; eauto. }
    cbn. eexists. split_and!; [done|..]; intros j.
    + intros s' [[_ <-]|[_ ?]]%lookup_insert_Some; eauto.
    + intros [[_ ?]|[Hne Hj]]%lookup_insert_Some; [done|].
      apply Hkeep in Hj. by rewrite lookup_insert_ne in Hj.
Qed.

Lemma visit_loop T es : (∀ i, is_Some (T !! i) → ∃ l segs, relocated T ∅ i l segs) →
  (∀ e, e ∈ es → T !! e.1 = Some e.2) → ∀ states,
  (∀ j s, states !! j = Some s → s = 2%Z) →
  ∃ states', foldM (λ states (e : Z * batchMoveNode), visit T (S (S (size T))) e.1 states) states es =
    Ok states'.
Proof.
  intros Htree. induction es as [|e es IH]; intros Hes states H2; [by exists states|].
  destruct (Htree e.1) as (l & segs & Hr); [rewrite (Hes e) by (by left); done|].
  pose proof (relocated_length _ _ _ _ _ Hr) as Hlen.
  destruct (visit_spec _ _ _ _ Hr (S (S (size T))) states) as (st' & Hst & H12 & Hno); [lia|..].
  { by intros j _ Hj%H2. }
  { eauto. }
  cbn [foldM]. rewrite Hst. apply IH; [intros; apply Hes; by right|].
  intros j s Hj. destruct (H12 _ _ Hj) as [->|]; [|done]. by apply Hno, H2 in Hj.
Qed.

Lemma check_sibling_loop (T : gmap Z batchMoveNode) es :
  (∀ e, e ∈ es → T !! e.1 = Some e.2) →
  (∀ i b p, T !! i = Some b → bn_parentID b = Some p → ∃ pb, T !! p = Some pb ∧ bn_kind pb = dir) →
  (∀ i j b c p, T !! i = Some b → T !! j = Some c → bn_parentID b = Some p →
     bn_parentID c = Some p → bn_name b = bn_name c → i = j) → ∀ siblings,
  (∀ k i, siblings !! k = Some i →
     ∃ b, T !! i = Some b ∧ bn_parentID b = Some k.1 ∧ bn_name b = k.2) →
  ∃ siblings', foldM (check_sibling T) siblings es = Ok siblings'.
Proof.
  intros Hes Hpar Huniq. induction es as [|e es IH]; intros sib Hsib; [by exists sib|].
  assert (∃ sib', check_sibling T sib e = Ok sib' ∧ ∀ k i, sib' !! k = Some i →
     ∃ b, T !! i = Some b ∧ bn_parentID b = Some k.1 ∧ bn_name b = k.2) as (sib' & Hs & Hsib').
  { pose proof (Hes e ltac:(by left)) as He. unfold check_sibling.
    destruct (bn_parentID e.2) as [p|] eqn:Hp; [|by exists sib].
    destruct (Hpar _ _ _ He Hp) as (pb & Hpb & Hk). rewrite Hpb. simpl.
    rewrite bool_decide_eq_true_2 by done. simpl.
    assert ((default 0%Z (sib !! (p, bn_name e.2)) =? 0)%Z
      || (default 0%Z (sib !! (p, bn_name e.2)) =? e.1)%Z = true) as ->.
    { destruct (sib !! _) as [j|] eqn:Hj; [|done].
      destruct (Hsib _ _ Hj) as (b & Hb & Hbp & Hbn). simpl in *. apply orb_true_iff. right.
      apply Z.eqb_eq. by eapply Huniq. }
    eexists. split; [done|]. intros k i [[<- <-]|[_ ?]]%lookup_insert_Some; eauto. }
  cbn [foldM]. rewrite Hs. apply IH; [|done]. intros; apply Hes; by right.
Qed.

Lemma validateBatchMoveTopology_ok `{MapRange} (T : gmap Z batchMoveNode) :
  (∀ i, is_Some (T !! i) → ∃ l segs, relocated T ∅ i l segs) →
  (∀ i b p, T !! i = Some b → bn_parentID b = Some p → ∃ pb, T !! p = Some pb ∧ bn_kind pb = dir) →
  (∀ i j b c p, T !! i = Some b → T !! j = Some c → bn_parentID b = Some p →
     bn_parentID c = Some p → bn_name b = bn_name c → i = j) →
  validateBatchMoveTopology T = Ok tt.
Proof.
  intros Htree Hpar Huniq. unfold validateBatchMoveTopology.
  destruct (check_sibling_loop T (range T)) with (siblings := ∅ : gmap (Z * string) Z)
    as (? & ->); [by intros e ?%elem_of_range|done|done|by intros k i; rewrite lookup_empty|].
  destruct (visit_loop T (range T) Htree) with (states := ∅ : gmap Z Z) as (? & Hv);
    [by intros e ?%elem_of_range|by intros k i; rewrite lookup_empty|].
  cbn -[visit]. rewrite Hv. done.
Qed.

(** * The live topology and the requests of a batch *)

Section topology.
Context `{Normalizer} (root : Z).
Implicit Types (T : gmap Z batchMoveNode) (d : db).

Record topo_wf T : Prop := {
  tw_id i b : T !! i = Some b → bn_id b = i;
  tw_pos i : is_Some (T !! i) → (0 < i)%Z;
  tw_root : ∃ b, T !! root = Some b ∧ bn_parentID b = None;
  tw_only_root i b : T !! i = Some b → bn_parentID b = None → i = root;
  tw_parent i b p : T !! i = Some b → bn_parentID b = Some p →
    ∃ pb, T !! p = Some pb ∧ bn_kind pb = dir;
  tw_tree i : is_Some (T !! i) → ∃ l segs, relocated T ∅ i l segs;
  tw_unique i j b c p : T !! i = Some b → T !! j = Some c → bn_parentID b = Some p →
    bn_parentID c = Some p → bn_name b = bn_name c → i = j;
  tw_name i b : T !! i = Some b → bn_parentID b ≠ None → canonical_name (bn_name b);
}.

Definition as_batch_node (i : Z) (r : node_row) : batchMoveNode :=
  MkBatchNode i (parent_id r) (name r) (kind r) (revision r).

Lemma lookup_topology d i b :
  loadBatchMoveTopology d !! i = Some b ↔
  ∃ r, nodes d !! i = Some r ∧ trashed_at r = None ∧ b = as_batch_node i r.
Proof.
  unfold loadBatchMoveTopology. rewrite map_lookup_imap, bind_Some.
  unfold batch_node, is_live. split.
  - intros (r & Hr & Hb). case_bool_decide; [|done]. injection Hb as <-. eauto.
  - intros (r & Hr & Ht & ->). exists r. split; [done|]. by rewrite bool_decide_eq_true_2.
Qed.

Lemma canonical_clean s : canonical_name s → clean [s].
Proof. intros Hc. apply Forall_singleton. by apply canonical_segment. Qed.

Lemma canonical_clean_all segs : Forall canonical_name segs → clean segs.
Proof. intros Hc. eapply Forall_impl; [done|]. intros s. apply canonical_segment. Qed.

Lemma tw_clean T j b : topo_wf T → T !! j = Some b → bn_parentID b ≠ None → clean [bn_name b].
Proof. intros Hwf Hj Hp. by eapply canonical_clean, tw_name. Qed.

Lemma topology_relocated d i l :
  tree_wf root d → anc (nodes d) i l → ∀ r, nodes d !! i = Some r → trashed_at r = None →
  ∃ l' segs, relocated (loadBatchMoveTopology d) ∅ i l' segs.
Proof.
  intros Hwf. induction 1 as [i r' Hi Hp|i r' p l Hi Hp Hl IH]; intros r Hr Ht;
    assert (r' = r) as -> by congruence.
  - exists [i], []. eapply reloc_root; [apply lookup_topology; eauto|done|done].
  - destruct (wf_parent _ _ Hwf i r p) as (pr & Hpr & _); [done..|].
    destruct (IH pr Hpr) as (l' & s & Hs); [by eapply (wf_live_parent _ _ Hwf i r p pr)|].
    eexists _, _. eapply reloc_step; [apply lookup_topology; eauto|done|done|done].
Qed.

Lemma load_topo_wf d : tree_wf root d → topo_wf (loadBatchMoveTopology d).
Proof.
  intros Hwf. split.
  - by intros i b (r & Hr & Ht & ->)%lookup_topology.
  - intros i [b (r & Hr & Ht & ->)%lookup_topology]. by apply (wf_ids _ _ Hwf).
  - destruct (wf_root _ _ Hwf) as (r & Hr & Hp & _ & Ht & _). exists (as_batch_node root r).
    split; [apply lookup_topology; eauto|done].
  - intros i b (r & Hr & Ht & ->)%lookup_topology Hp. by eapply (wf_only_root _ _ Hwf).
  - intros i b p (r & Hr & Ht & ->)%lookup_topology Hp. simpl in Hp.
    destruct (wf_parent _ _ Hwf i r p) as (pr & Hpr & Hk); [done..|].
    exists (as_batch_node p pr). split; [|done]. apply lookup_topology. exists pr.
    split_and!; [done|by eapply (wf_live_parent _ _ Hwf i r p pr)|done].
  - intros i [b (r & Hr & Ht & ->)%lookup_topology].
    destruct (wf_anc _ _ Hwf i) as [l Hl]; [by exists r|]. by eapply topology_relocated.
  - intros i j b c p (r & Hr & Ht & ->)%lookup_topology (s & Hs & Ht' & ->)%lookup_topology.
    simpl. intros ???. eapply (wf_unique _ _ Hwf i j r s p); try done; by eapply (wf_live _ _ Hwf).
  - intros i b (r & Hr & Ht & ->)%lookup_topology Hp. simpl in *.
    apply (wf_name _ _ Hwf i); [done|]. intros ->. apply Hp.
    destruct (wf_root _ _ Hwf) as (r' & Hr' & Hp' & _). congruence.
Qed.

(** The rows of [ns] place their nodes where [T] does. *)
Lemma relocated_path_segs T (ns : gmap Z node_row) i l segs :
  (∀ i b, T !! i = Some b → ∃ r, ns !! i = Some r ∧ parent_id r = bn_parentID b ∧
     name r = bn_name b) →
  relocated T ∅ i l segs → anc ns i l ∧ path_segs ns i = segs.
Proof.
  intros Hns. induction 1 as [i b s Hb Hd|i b Hb Hd Hp|i b p l s Hb Hd Hp Hr [IHa IHs]];
    [by rewrite lookup_empty in Hd|..]; destruct (Hns _ _ Hb) as (r & Hr' & Hpr & Hnm).
  - split; [eapply anc_root; [done|congruence]|]. eapply path_segs_root; [done|congruence].
  - split; [eapply anc_step; [done|by rewrite Hpr|done]|].
    rewrite <- IHs, <- Hnm. eapply path_segs_step; [done|by rewrite Hpr|done].
Qed.

Lemma topology_path_segs d i l segs :
  relocated (loadBatchMoveTopology d) ∅ i l segs → path_segs (nodes d) i = segs.
Proof.
  intros Hr. eapply relocated_path_segs; [|done].
  intros j b (r & Hr' & _ & ->)%lookup_topology. by exists r.
Qed.

(** Live nodes have distinct paths. *)
Lemma topo_injective T : topo_wf T → injective T ∅.
Proof.
  intros Hwf i j l l' segs Hi. revert j l'.
  induction Hi as [i b s Hb Hd|i b Hb Hd Hp|i b p l s Hb Hd Hp Hr IH]; intros j l' Hj;
    [by rewrite lookup_empty in Hd|..];
    inversion Hj as [j0 c s0 Hc Hd'|j0 c Hc Hd' Hp'|j0 c q l0 s0 Hc Hd' Hp' Hr' E1 E2 Heq]; subst;
    try by rewrite lookup_empty in Hd'.
  - rewrite (tw_only_root _ Hwf _ _ Hb Hp). by rewrite (tw_only_root _ Hwf _ _ Hc Hp').
  - by destruct s0.
  - by destruct s.
  - apply app_inj_tail in Heq as [-> Hn]. rewrite <- (IH _ _ Hr') in Hp'.
    by eapply (tw_unique _ Hwf i j).
Qed.

(** ** What a request names *)

(** The live node a request names, by a spelling of its path or by its id at
    its current revision. *)
Definition batch_named d (req : BatchMoveRequest) (i : Z) : Prop :=
  ∃ r, nodes d !! i = Some r ∧ trashed_at r = None ∧
  ((SourcePath req ≠ "" ∧ req_NodeID req = 0%Z ∧ IfRevision req = 0%Z ∧
    HasPrefix (SourcePath req) "/" = true ∧
    mapR NormalizeName (splitPath (SourcePath req)) = Ok (path_segs (nodes d) i)) ∨
   (SourcePath req = "" ∧ req_NodeID req = i ∧ IfRevision req = revision r)).

(** A source is a named node other than the root. *)
Definition batch_source d (req : BatchMoveRequest) (i : Z) : Prop :=
  i ≠ root ∧ batch_named d req i.

(** A destination is an absolute path below the root. *)
Definition batch_dest (req : BatchMoveRequest) (segs : list string) : Prop :=
  HasPrefix (DestinationPath req) "/" = true ∧
  mapR NormalizeName (splitPath (DestinationPath req)) = Ok segs ∧ segs ≠ [].

Definition batch_request d (req : BatchMoveRequest) (sd : Z * list string) : Prop :=
  batch_source d req sd.1 ∧ batch_dest req sd.2.

Lemma mapR_NormalizeName_canonical l segs :
  mapR NormalizeName l = Ok segs → Forall canonical_name segs.
Proof.
  intros Hl%mapR_Forall2. induction Hl as [|s s' l l' Hs _ IH]; constructor; [|done].
  by eapply NormalizeName_canonical.
Qed.

Lemma batch_dest_canonical req segs : batch_dest req segs → Forall canonical_name segs.
Proof. intros (_ & Hm & _). by eapply mapR_NormalizeName_canonical. Qed.

Lemma batch_dest_fun req s s' : batch_dest req s → batch_dest req s' → s = s'.
Proof. intros (_ & ? & _) (_ & ? & _). congruence. Qed.

(** A request names at most one node. *)
Lemma batch_named_fun d req i j :
  tree_wf root d → batch_named d req i → batch_named d req j → i = j.
Proof.
  intros Hwf (r & Hr & Ht & Hi) (s & Hs & Ht' & Hj).
  destruct Hi as [(? & _ & _ & _ & Hm)|(? & <- & _)],
    Hj as [(? & _ & _ & _ & Hm')|(? & <- & _)]; try done.
  pose proof (load_topo_wf d Hwf) as Htw.
  assert (∀ k rk, nodes d !! k = Some rk → trashed_at rk = None →
    ∃ l, relocated (loadBatchMoveTopology d) ∅ k l (path_segs (nodes d) k)) as Hrel.
  { intros k rk Hk Hkt. destruct (tw_tree _ Htw k) as (l & sg & Hrel).
    - exists (as_batch_node k rk). apply lookup_topology. eauto.
    - exists l. by rewrite (topology_path_segs _ _ _ _ Hrel). }
  destruct (Hrel _ _ Hr Ht) as [l Hl], (Hrel _ _ Hs Ht') as [l' Hl'].
  rewrite Hm in Hm'. apply Ok_inj in Hm'. rewrite <- Hm' in Hl'.
  by eapply (topo_injective _ Htw).
Qed.

Lemma canonicalBatchMovePath_Ok_iff value s :
  canonicalBatchMovePath value = Ok s ↔
  ∃ segs, mapR NormalizeName (splitPath value) = Ok segs ∧ s = path_string segs.
Proof.
  unfold canonicalBatchMovePath. rewrite bind_Ok_iff. split.
  - intros (segs & Hs & Heq). apply Ok_inj in Heq as <-. eauto.
  - intros (segs & Hs & ->). eauto.
Qed.

Lemma canonicalBatchMoveDestination_spec req :
  match canonicalBatchMoveDestination (DestinationPath req) with
  | Ok s => ∃ segs, batch_dest req segs ∧ s = path_string segs
  | Err _ => ∀ segs, ¬ batch_dest req segs
  end.
Proof.
  unfold canonicalBatchMoveDestination, batch_dest.
  destruct (HasPrefix (DestinationPath req) "/"); [|naive_solver].
  cbn -[canonicalBatchMovePath].
  destruct (canonicalBatchMovePath (DestinationPath req)) as [s|e] eqn:Hc.
  - apply canonicalBatchMovePath_Ok_iff in Hc as (segs & Hm & ->). cbn.
    destruct (decide (segs = [])) as [->|Hne].
    { cbn. intros segs' (_ & ? & ?). congruence. }
    assert (String.eqb (path_string segs) "/" = false) as ->; [|cbn; eauto 10].
    apply String.eqb_neq. intros Heq. apply Hne.
    apply (path_string_inj segs []); [|by apply Forall_nil|exact Heq].
    by eapply canonical_clean_all, mapR_NormalizeName_canonical.
  - cbn. intros segs (_ & Hm & _). unfold canonicalBatchMovePath in Hc. rewrite Hm in Hc. done.
Qed.

(** ** Resolving requests *)

Lemma foldl_inverse (l : list (Z * string)) : ∀ m : gmap string Z,
  let m' := foldl (λ m (e : Z * string), <[e.2 := e.1]> m) m l in
  (∀ s i, m' !! s = Some i → (i, s) ∈ l ∨ m !! s = Some i) ∧
  (∀ s, s ∈ l.*2 ∨ is_Some (m !! s) → is_Some (m' !! s)).
Proof.
  induction l as [|[j t] l IH]; intros m m'.
  { split; [by right|]. intros s [?%elem_of_nil|?]; done. }
  destruct (IH (<[t := j]> m)) as [IH1 IH2]. split.
  - intros s i [Hin|[[-> ->]|[_ Hm]]%lookup_insert_Some]%IH1; [left; by right|left; by left|by right].
  - intros s Hs. apply IH2. rewrite fmap_cons, elem_of_cons in Hs. cbn in Hs.
    destruct (decide (s = t)) as [->|Hne]; [right; by rewrite lookup_insert_eq|].
    rewrite lookup_insert_ne by done. naive_solver.
Qed.

Context `{MapRange}.

Definition inverse (P : gmap Z string) : gmap string Z :=
  foldl (λ m (e : Z * string), <[e.2 := e.1]> m) ∅ (range P).

Lemma lookup_inverse P s i :
  (∀ i j t, P !! i = Some t → P !! j = Some t → i = j) →
  inverse P !! s = Some i ↔ P !! i = Some s.
Proof.
  intros Hinj. destruct (foldl_inverse (range P) ∅) as [H1' H2'].
  assert (∀ i s, inverse P !! s = Some i → P !! i = Some s) as Hsound.
  { intros j t [Hin|Hm]%H1'; [by apply elem_of_range in Hin|by rewrite lookup_empty in Hm]. }
  split; [apply Hsound|]. intros Hi. destruct (H2' s) as [j Hj].
  { left. apply list_elem_of_fmap. exists (i, s). split; [done|]. by apply elem_of_range. }
  rewrite (Hinj i j s); [exact Hj|done|by apply Hsound].
Qed.

(** What the planner knows of the paths before the batch. *)
Definition prior_paths d (P : gmap Z string) : Prop := path_table (loadBatchMoveTopology d) ∅ P.

Lemma prior_inverse d P segs i :
  tree_wf root d → prior_paths d P → clean segs →
  inverse P !! path_string segs = Some i ↔
  ∃ r, nodes d !! i = Some r ∧ trashed_at r = None ∧ path_segs (nodes d) i = segs.
Proof.
  intros Hwf HP Hc. pose proof (load_topo_wf d Hwf) as Htw.
  assert (∀ i l s, relocated (loadBatchMoveTopology d) ∅ i l s → clean s) as Hcl.
  { intros k l s. apply relocated_clean; [by intros ? ?; rewrite lookup_empty|].
    intros j b. by apply tw_clean. }
  rewrite lookup_inverse.
  - split.
    + intros Hi. destruct (path_table_inv _ _ _ _ _ HP Hi) as (l & s & Hr & Heq).
      assert (is_Some (loadBatchMoveTopology d !! i)) as [b Hb]
        by (eapply relocated_in; [done|]; destruct Hr; left).
      apply lookup_topology in Hb as (r & ? & ? & _). exists r. split_and!; [done..|].
      rewrite (topology_path_segs _ _ _ _ Hr). symmetry. apply path_string_inj; eauto.
    + intros (r & Hr & Ht & Hs). destruct (tw_tree _ Htw i) as (l & s & Hrel).
      { exists (as_batch_node i r). apply lookup_topology. eauto. }
      rewrite (topology_path_segs _ _ _ _ Hrel) in Hs. subst s. by eapply path_table_lookup.
  - intros k j t Hk Hj.
    destruct (path_table_inv _ _ _ _ _ HP Hk) as (l & s & Hr & Heq).
    destruct (path_table_inv _ _ _ _ _ HP Hj) as (l' & s' & Hr' & Heq'). subst t.
    apply path_string_inj in Heq'; [|by eapply Hcl..]. subst s'.
    by eapply (topo_injective _ Htw).
Qed.
End topology.
