(* ===== verification/BatchPlan.v ===== *)
(** * The plan of a batch

    [planBatchMove] accepts exactly the admissible batches: requests that name
    distinct nodes, destinations below directories of the final tree, and no
    two nodes at one path.  Its remaining checks (the cycle check, the sibling
    check, the comparison of path tables) never refuse what passed those.

    Once the destinations are known, the planner's final topology is again a
    tree, and every node of it stands where the relocation relation says. *)
From S2P Require Import Prelude GoText Names Tables Tree TreeInv TreeFacts BatchMove BatchPaths.

Section plan.
Context `{Normalizer} `{MapRange} (root : Z) (d : db) (P : gmap Z string).
Context (Hwf : tree_wf root d) (HP : prior_paths d P).
Notation T := (loadBatchMoveTopology d).

(** ** Sources *)

Lemma resolveBatchMoveSource_spec req :
  match resolveBatchMoveSource req T (inverse P) with
  | Ok b => ∃ r, nodes d !! bn_id b = Some r ∧ b = as_batch_node (bn_id b) r ∧
      batch_named d req (bn_id b)
  | Err _ => ∀ i, ¬ batch_named d req i
  end.
Proof using Hwf HP.
  unfold resolveBatchMoveSource, batch_named.
  destruct (String.eqb_spec (SourcePath req) "") as [Hsp|Hsp];
    destruct (Z.eqb_spec (req_NodeID req) 0) as [Hid|Hid]; cbn -[canonicalBatchMovePath].
  - intros i (r & Hr & _ & [(? & _)|(_ & Hi & _)]); [done|].
    destruct (wf_ids _ _ Hwf i) as [? _]; [by exists r|]. lia.
  - destruct ((req_NodeID req <? 1)%Z || (IfRevision req <? 1)%Z) eqn:Hpos; cbn.
    + intros i (r & Hr & _ & [(? & _)|(_ & Hi & Hrev)]); [done|].
      destruct (wf_ids _ _ Hwf i) as [? _]; [by exists r|].
      pose proof (wf_revision _ _ Hwf _ _ Hr).
      apply orb_true_iff in Hpos as [?%Z.ltb_lt|?%Z.ltb_lt]; lia.
    + destruct (T !! req_NodeID req) as [b|] eqn:Hb; cbn.
      * apply lookup_topology in Hb as (r & Hr & Ht & ->). cbn.
        destruct (Z.eqb_spec (revision r) (IfRevision req)); cbn; [by eauto 10|].
        intros i (r' & Hr' & _ & [(? & _)|(_ & <- & ?)]); congruence.
      * intros i (r & Hr & Ht & [(? & _)|(_ & Hi & _)]); [done|]. subst i.
        assert (T !! req_NodeID req = Some (as_batch_node (req_NodeID req) r)); [|congruence].
        apply lookup_topology. eauto.
  - destruct (HasPrefix (SourcePath req) "/") eqn:Hpre; [|naive_solver].
    cbn -[canonicalBatchMovePath].
    destruct (canonicalBatchMovePath (SourcePath req)) as [c|e] eqn:Hc; cbn.
    + apply canonicalBatchMovePath_Ok_iff in Hc as (segs & Hm & ->).
      assert (clean segs) as Hcl by (by eapply canonical_clean_all, mapR_NormalizeName_canonical).
      pose proof (λ i, prior_inverse root d P segs i Hwf HP Hcl) as Hinv.
      destruct (inverse P !! path_string segs) as [i|] eqn:Hi; cbn.
      * destruct (proj1 (Hinv i) eq_refl) as (r & Hr & Ht & Hs).
        destruct (wf_ids _ _ Hwf i) as [? _]; [by exists r|].
        destruct (Z.eqb_spec i 0); [lia|]. cbn.
        destruct (Z.eqb_spec (IfRevision req) 0); cbn; [|naive_solver].
        assert (T !! i = Some (as_batch_node i r)) as -> by (apply lookup_topology; eauto).
        cbn. subst segs. eauto 12.
      * intros i (r & Hr & Ht & [(_ & _ & _ & _ & Hm')|(? & _)]); [|done].
        assert (segs = path_segs (nodes d) i) as -> by congruence.
        assert (@None Z = Some i); [|done]. apply Hinv. eauto.
    + intros i (r & Hr & Ht & [(_ & _ & _ & _ & Hm')|(? & _)]); [|done].
      unfold canonicalBatchMovePath in Hc. rewrite Hm' in Hc. done.
  - naive_solver.
Qed.

Definition initial_move (k : nat) (sd : Z * list string) : plannedBatchMove :=
  MkPlannedMove k sd.1 (default 0%Z (T !! sd.1 ≫= bn_parentID)) 0 "" (path_string sd.2) false.

Lemma plan_source_spec req seen mvs :
  match plan_source root T (inverse P) (seen, mvs) req with
  | Ok (seen', mvs') => ∃ sd, batch_request root d req sd ∧ sd.1 ∉ seen ∧
      seen' = {[ sd.1 ]} ∪ seen ∧ mvs' = mvs ++ [initial_move (length mvs) sd]
  | Err _ => ∀ sd, batch_request root d req sd → sd.1 ∈ seen
  end.
Proof using Hwf HP.
  unfold plan_source, batch_request, batch_source.
  pose proof (resolveBatchMoveSource_spec req) as Hsrc.
  destruct (resolveBatchMoveSource req T (inverse P)) as [b|e];
    [|intros sd ((_ & Hn) & _); by destruct (Hsrc sd.1)].
  destruct Hsrc as (r & Hr & Hb & Hn). cbn -[canonicalBatchMoveDestination].
  pose proof (λ i Hi, batch_named_fun root d req i _ Hwf Hi Hn) as Hone.
  destruct (Z.eqb_spec (bn_id b) root) as [Hroot|Hroot]; cbn -[canonicalBatchMoveDestination].
  { intros sd ((Hne & Hn') & _). apply Hone in Hn'. congruence. }
  case_bool_decide as Hseen; cbn -[canonicalBatchMoveDestination].
  { intros sd ((_ & Hn') & _). apply Hone in Hn'. by rewrite Hn'. }
  pose proof (canonicalBatchMoveDestination_spec req) as Hd.
  destruct (canonicalBatchMoveDestination (DestinationPath req)) as [s|e]; cbn.
  2: { intros sd (_ & Hd'). by destruct (Hd sd.2). }
  destruct Hd as (segs & Hd & ->).
  destruct Hn as (r' & Hr' & Ht & Hn). assert (r' = r) as -> by congruence.
  assert (T !! bn_id b = Some b) as HTb by (rewrite Hb; apply lookup_topology; eauto).
  destruct (bn_parentID b) as [p|] eqn:Hp; cbn.
  - exists (bn_id b, segs). unfold initial_move, batch_named. cbn. rewrite HTb. cbn. rewrite Hp.
    split_and!; try done. eauto 10.
  - exfalso. apply Hroot. eapply (tw_only_root _ _ (load_topo_wf root d Hwf)); done.
Qed.

(** The state of the loop after the pairs [sds]. *)
Lemma plan_source_loop reqs : ∀ sds,
  match foldM (plan_source root T (inverse P)) (list_to_set sds.*1, imap initial_move sds) reqs with
  | Ok (_, mvs) => ∃ sds', Forall2 (batch_request root d) reqs sds' ∧
      (NoDup sds.*1 → NoDup (sds ++ sds').*1) ∧ mvs = imap initial_move (sds ++ sds')
  | Err _ => ∀ sds', Forall2 (batch_request root d) reqs sds' → ¬ NoDup (sds ++ sds').*1
  end.
Proof using Hwf HP.
  induction reqs as [|req reqs IH]; intros sds.
  { exists []. rewrite app_nil_r. split_and!; [constructor|done|done]. }
  cbn [foldM]. pose proof (plan_source_spec req (list_to_set sds.*1) (imap initial_move sds)) as Hstep.
  destruct (plan_source _ _ _ _ req) as [[seen mvs]|e]; cbn -[plan_source].
  - destruct Hstep as (sd & Hreq & Hnew & -> & ->).
    rewrite length_imap.
    assert (imap initial_move sds ++ [initial_move (length sds) sd] = imap initial_move (sds ++ [sd])) as ->.
    { rewrite imap_app. simpl. by rewrite Nat.add_0_r. }
    assert ({[sd.1]} ∪ list_to_set sds.*1 = (list_to_set (sds ++ [sd]).*1 : gset Z)) as ->.
    { rewrite fmap_app, list_to_set_app_L. simpl. set_solver. }
    pose proof (IH (sds ++ [sd])) as Hrest.
    destruct (foldM _ _ reqs) as [[seen' mvs']|e'].
    + destruct Hrest as (sds' & Hall & Hnd & ->). exists (sd :: sds').
      rewrite <- app_assoc in Hnd |- *. simpl in *. split_and!; [by constructor| |done].
      intros Hn. apply Hnd. rewrite fmap_app. apply NoDup_app. split_and!; [done| |apply NoDup_singleton].
      intros x Hx Hin%list_elem_of_singleton. subst x. apply Hnew. by apply elem_of_list_to_set.
    + intros sds' Hall Hnd. inversion Hall as [|? sd' ? sds0 Hreq' Hall']; subst.
      assert (sd' = sd) as ->.
      { destruct sd as [i s], sd' as [i' s'], Hreq as [Hs Hd], Hreq' as [Hs' Hd']. simpl in *.
        rewrite (batch_dest_fun _ _ _ Hd Hd'). f_equal.
        exact (batch_named_fun root d req _ _ Hwf (proj2 Hs') (proj2 Hs)). }
      apply (Hrest sds0 Hall'). rewrite <- app_assoc. exact Hnd.
  - intros sds' Hall Hnd. inversion Hall as [|? sd' ? sds0 Hreq' Hall']; subst.
    rewrite fmap_app in Hnd. apply NoDup_app in Hnd as (_ & Hdis & _).
    pose proof (Hstep _ Hreq') as Hin. rewrite elem_of_list_to_set in Hin.
    apply (Hdis _ Hin). rewrite fmap_cons. by left.
Qed.

Lemma plan_sources_spec reqs :
  match plan_sources root T P reqs with
  | Ok mvs => ∃ sds, Forall2 (batch_request root d) reqs sds ∧ NoDup sds.*1 ∧
      mvs = imap initial_move sds
  | Err _ => ∀ sds, Forall2 (batch_request root d) reqs sds → ¬ NoDup sds.*1
  end.
Proof using Hwf HP.
  pose proof (plan_source_loop reqs []) as Hloop. unfold plan_sources. cbn in Hloop |- *.
  change (foldl _ ∅ (range P)) with (inverse P).
  destruct (foldM _ _ reqs) as [[seen mvs]|e]; cbn; [|exact Hloop].
  destruct Hloop as (sds & ? & Hnd & ->). exists sds. split_and!; [done| |done].
  apply Hnd. constructor.
Qed.

(** The destinations handed to [plannedBatchMovePaths]. *)
Definition aims (sd : Z * list string) (mv : plannedBatchMove) : Prop :=
  pm_nodeID mv = sd.1 ∧ destinationPath mv = path_string sd.2.

Lemma initial_aims sds : Forall2 aims sds (imap initial_move sds).
Proof.
  assert (∀ f : nat → nat, Forall2 aims sds (imap (λ n, initial_move (f n)) sds)) as Hf.
  { induction sds as [|sd sds IH]; intros f; [constructor|]. constructor; [done|].
    apply (IH (λ n, f (S n))). }
  exact (Hf id).
Qed.

Lemma destinations_of sds mvs :
  Forall2 aims sds mvs → NoDup sds.*1 → ∀ m : gmap Z string,
  foldl (λ m mv, <[pm_nodeID mv := destinationPath mv]> m) m mvs =
  (path_string <$> (list_to_map sds : gmap Z (list string))) ∪ m.
Proof.
  induction 1 as [|[i s] mv sds mvs [Hi Hs] Ha IH]; intros Hnd m.
  { simpl. by rewrite fmap_empty, (left_id_L ∅ (∪)). }
  apply NoDup_cons in Hnd as [Hni Hnd]. simpl in *. rewrite Hi, Hs, (IH Hnd).
  rewrite fmap_insert, <- insert_union_l, insert_union_r; [done|].
  rewrite lookup_fmap. by rewrite (not_elem_of_list_to_map_1 sds i Hni).
Qed.

(** ** Destinations *)

(** The part of [plan_coordinates] that does not depend on its state. *)
Definition place (ids : gmap string Z) (mv : plannedBatchMove) : res plannedBatchMove :=
  let segments := splitPath (destinationPath mv) in
  nm ← from_lookup (last segments) Panics;
  let parentID := default 0%Z (ids !! ("/" +:+ Join (removelast segments) "/")) in
  parent ← from_lookup (T !! parentID) ErrNotFound;
  _ ← check (bool_decide (bn_kind parent = dir)) ErrNotDir;
  source ← from_lookup (T !! pm_nodeID mv) Panics;
  Ok (MkPlannedMove (requestIndex mv) (pm_nodeID mv) (oldParentID mv) parentID nm
        (destinationPath mv)
        (negb (oldParentID mv =? parentID)%Z || negb (String.eqb (bn_name source) nm))).

Definition relocate_node (ns : gmap Z batchMoveNode) (mv : plannedBatchMove) :
    gmap Z batchMoveNode :=
  if changed mv
  then alter (λ n, MkBatchNode (bn_id n) (Some (newParentID mv)) (newName mv) (bn_kind n)
                     (bn_revision n)) (pm_nodeID mv) ns
  else ns.

Lemma plan_coordinates_place ids ns mvs mv :
  plan_coordinates T ids (ns, mvs) mv =
  (mv' ← place ids mv; Ok (relocate_node ns mv', mvs ++ [mv'])).
Proof.
  unfold plan_coordinates, place. cbn zeta.
  destruct (last _); [|done]. cbn. destruct (T !! default _ _); [|done]. cbn.
  destruct (bool_decide _); [|done]. cbn. destruct (T !! pm_nodeID mv); done.
Qed.

Lemma plan_coordinates_loop ids mvs : ∀ ns acc,
  foldM (plan_coordinates T ids) (ns, acc) mvs =
  (mvs' ← mapR (place ids) mvs; Ok (foldl relocate_node ns mvs', acc ++ mvs')).
Proof.
  induction mvs as [|mv mvs IH]; intros ns acc.
  { simpl. by rewrite app_nil_r. }
  cbn [foldM mapR]. rewrite plan_coordinates_place. destruct (place ids mv) as [mv'|]; [|done].
  cbn -[plan_coordinates]. rewrite IH. destruct (mapR _ mvs) as [mvs'|]; [|done]. cbn.
  by rewrite <- app_assoc.
Qed.
End plan.

(** * The final topology of a batch *)

Section final.
Context `{Normalizer} `{MapRange} (root : Z) (d : db) (sds : list (Z * list string)).
Context (Hwf : tree_wf root d) (Hnd : NoDup sds.*1).
Notation T := (loadBatchMoveTopology d).
Notation D := (list_to_map sds : gmap Z (list string)).

(** What every pair of a resolved batch satisfies. *)
Definition sound_pair (sd : Z * list string) : Prop :=
  sd.1 ≠ root ∧ is_Some (T !! sd.1) ∧ sd.2 ≠ [] ∧ Forall canonical_name sd.2.
Context (Hsound : Forall sound_pair sds).

Lemma dest_iff i segs : D !! i = Some segs ↔ (i, segs) ∈ sds.
Proof using Hnd. symmetry. by apply elem_of_list_to_map. Qed.

Lemma dest_sound i segs : D !! i = Some segs → sound_pair (i, segs).
Proof using Hnd Hsound. intros Hi%dest_iff. by eapply Forall_forall in Hsound. Qed.

Lemma dests_clean : map_Forall (λ _ s, clean s) D.
Proof using Hnd Hsound.
  intros i s Hi. destruct (dest_sound _ _ Hi) as (_ & _ & _ & Hc). by apply canonical_clean_all.
Qed.

Lemma place_clean i l segs : relocated T D i l segs → clean segs.
Proof using Hnd Hsound Hwf.
  apply relocated_clean; [apply dests_clean|]. intros j b. eapply tw_clean. by apply load_topo_wf.
Qed.

Lemma place_canonical i l segs : relocated T D i l segs → Forall canonical_name segs.
Proof using Hnd Hsound Hwf.
  induction 1 as [i b s Hb Hd|i b Hb Hd Hp|i b p l s Hb Hd Hp Hr IH]; [|constructor|].
  - by destruct (dest_sound _ _ Hd) as (_ & _ & _ & ?).
  - apply Forall_app. split; [done|]. apply Forall_singleton.
    eapply (tw_name _ _ (load_topo_wf root d Hwf)); [done|]. by rewrite Hp.
Qed.

(** ** Placing the sources *)

(** A destination has a directory to stand in. *)
Definition has_parent (segs : list string) : Prop :=
  ∃ p l pb, relocated T D p l (removelast segs) ∧ T !! p = Some pb ∧ bn_kind pb = dir.

Record placed (sd : Z * list string) (mv : plannedBatchMove) (b : batchMoveNode) (l : list Z)
    (init : list string) : Prop := {
  pl_node : T !! sd.1 = Some b;
  pl_aims : aims sd mv;
  pl_old : bn_parentID b = Some (oldParentID mv);
  pl_segs : sd.2 = init ++ [newName mv];
  pl_parent : relocated T D (newParentID mv) l init;
  pl_dir : ∃ pb, T !! newParentID mv = Some pb ∧ bn_kind pb = dir;
  pl_changed : changed mv = negb (oldParentID mv =? newParentID mv)%Z
                            || negb (String.eqb (bn_name b) (newName mv));
}.
Definition placed_move sd mv : Prop := ∃ b l init, placed sd mv b l init.

Lemma removelast_snoc {A} (l : list A) x : removelast (l ++ [x]) = l.
Proof. apply removelast_last. Qed.

Context (ids : gmap string Z).
Context (Hids : ∀ segs p, clean segs → ids !! path_string segs = Some p ↔ ∃ l, relocated T D p l segs).

Lemma place_spec k sd :
  sd ∈ sds →
  match place d ids (initial_move d k sd) with
  | Ok mv => placed_move sd mv
  | Err _ => ¬ has_parent sd.2
  end.
Proof using Hwf Hnd Hsound Hids.
  intros Hin. pose proof Hsound as Hs. eapply Forall_forall in Hs as (Hroot & [b Hb] & Hne & Hc); [|done].
  pose proof (load_topo_wf root d Hwf) as Htw.
  destruct (exists_last Hne) as (init & nm & Hsd). unfold place, initial_move. cbn -[splitPath path_string].
  rewrite splitPath_path_string by by apply canonical_clean_all.
  rewrite Hsd, last_snoc, removelast_snoc. cbn -[path_string].
  fold (path_string init).
  assert (clean init) as Hci.
  { apply canonical_clean_all. rewrite Hsd in Hc. by apply Forall_app in Hc as [? _]. }
  pose proof (λ p, Hids init p Hci) as Hi. unfold has_parent. rewrite removelast_snoc.
  assert (T !! 0%Z = None) as HT0.
  { destruct (T !! 0%Z) eqn:HT0; [|done]. pose proof (tw_pos _ _ Htw 0%Z ltac:(eauto)). lia. }
  destruct (ids !! path_string init) as [p|] eqn:Hp; cbn -[path_string].
  - destruct (proj1 (Hi p) eq_refl) as [l Hl].
    assert (is_Some (T !! p)) as [pb Hpb] by (eapply relocated_in; [done|]; destruct Hl; left).
    rewrite Hpb. cbn -[path_string]. case_bool_decide as Hk; cbn -[path_string].
    + rewrite Hb. cbn -[path_string]. destruct (bn_parentID b) as [old|] eqn:Hold.
      * exists b, l, init. split; cbn; rewrite ?Hb; cbn; rewrite ?Hold; eauto. split; [done|]. by rewrite Hsd.
      * exfalso. apply Hroot. by eapply (tw_only_root _ _ Htw).
    + intros (p' & l' & pb' & Hl' & Hpb' & Hk'). assert (Some p = Some p') by (apply Hi; eauto).
      congruence.
  - rewrite HT0. cbn. intros (p' & l' & pb' & Hl' & _). assert (None = Some p'); [|done].
    apply Hi. eauto.
Qed.

Lemma place_loop sds' : (∀ sd, sd ∈ sds' → sd ∈ sds) → ∀ f : nat → nat,
  match mapR (place d ids) (imap (λ n, initial_move d (f n)) sds') with
  | Ok mvs => Forall2 placed_move sds' mvs
  | Err _ => ¬ ∀ sd, sd ∈ sds' → has_parent sd.2
  end.
Proof using Hwf Hnd Hsound Hids.
  induction sds' as [|sd sds' IH]; intros Hin f; [constructor|].
  cbn [imap mapR]. pose proof (place_spec (f 0) sd (Hin sd ltac:(by left))) as Hplace.
  destruct (place d ids _) as [mv|e]; cbn -[place]; [|intros Hall; apply Hplace, Hall; by left].
  specialize (IH ltac:(intros; apply Hin; by right) (λ n, f (S n))).
  change (imap _ sds') with (imap (λ n, initial_move d (f (S n))) sds').
  destruct (mapR _ _) as [mvs|e]; cbn; [by constructor|].
  intros Hall. apply IH. intros; apply Hall. by right.
Qed.
End final.

(** ** The final topology *)

Lemma relocate_other mvs : ∀ ns i,
  i ∉ pm_nodeID <$> mvs → foldl relocate_node ns mvs !! i = ns !! i.
Proof.
  induction mvs as [|mv mvs IH]; intros ns i Hi; [done|].
  rewrite fmap_cons, not_elem_of_cons in Hi. destruct Hi as [Hne Hi]. simpl.
  rewrite IH by done. unfold relocate_node. destruct (changed mv); [|done].
  by rewrite lookup_alter_ne.
Qed.

Lemma relocate_self mvs mv : ∀ ns,
  NoDup (pm_nodeID <$> mvs) → mv ∈ mvs →
  foldl relocate_node ns mvs !! pm_nodeID mv = relocate_node ns mv !! pm_nodeID mv.
Proof.
  induction mvs as [|mv' mvs IH]; intros ns Hnd Hin; [by apply elem_of_nil in Hin|].
  rewrite fmap_cons in Hnd. apply NoDup_cons in Hnd as [Hni Hnd]. simpl.
  apply elem_of_cons in Hin as [->|Hin]; [by apply relocate_other|]. rewrite IH by done.
  unfold relocate_node. assert (pm_nodeID mv' ≠ pm_nodeID mv) as Hne.
  { intros Heq. apply Hni. rewrite Heq. by apply list_elem_of_fmap_2. }
  destruct (changed mv), (changed mv'); rewrite ?lookup_alter_eq, ?lookup_alter_ne by done; done.
Qed.

Lemma Forall2_keys {A B C} (R : A → B → Prop) (f : A → C) (g : B → C) l k :
  Forall2 R l k → (∀ a b, R a b → g b = f a) → g <$> k = f <$> l.
Proof. intros Hall HR. induction Hall; [done|]. rewrite !fmap_cons. f_equal; auto. Qed.

Lemma Forall2_elem_l {A B} (R : A → B → Prop) l k a :
  Forall2 R l k → a ∈ l → ∃ b, b ∈ k ∧ R a b.
Proof.
  induction 1 as [|x y l k Hxy _ IH]; intros Ha; [by apply elem_of_nil in Ha|].
  apply elem_of_cons in Ha as [->|Ha]; [exists y; split; [by left|done]|].
  destruct (IH Ha) as (b & ? & ?). exists b. split; [by right|done].
Qed.

Section final_topology.
Context `{Normalizer} `{MapRange} (root : Z) (d : db) (sds : list (Z * list string)).
Context (mvs : list plannedBatchMove).
Context (Hwf : tree_wf root d) (Hnd : NoDup sds.*1) (Hsound : Forall (sound_pair root d) sds).
Context (Hmvs : Forall2 (placed_move d sds) sds mvs).
Notation T := (loadBatchMoveTopology d).
Notation D := (list_to_map sds : gmap Z (list string)).
Notation T' := (foldl relocate_node T mvs).

Lemma planned_ids : pm_nodeID <$> mvs = sds.*1.
Proof using Hmvs.
  eapply Forall2_keys; [done|]. intros sd mv (b & l & init & Hp). by destruct (pl_aims _ _ _ _ _ _ _ Hp).
Qed.

(** A node's row in the final topology. *)
Lemma final_other i : D !! i = None → T' !! i = T !! i.
Proof using Hmvs. intros Hi%not_elem_of_list_to_map. apply relocate_other. by rewrite planned_ids. Qed.

Lemma final_source i segs :
  D !! i = Some segs → ∃ mv b l init, mv ∈ mvs ∧ placed d sds (i, segs) mv b l init ∧
  T' !! i = Some (MkBatchNode (bn_id b) (Some (newParentID mv)) (newName mv) (bn_kind b) (bn_revision b)).
Proof using Hmvs Hnd.
  intros Hi%(dest_iff sds Hnd).
  destruct (Forall2_elem_l _ _ _ _ Hmvs Hi) as (mv & Hmv & b & l & init & Hp).
  exists mv, b, l, init. split_and!; [done..|].
  destruct (pl_aims _ _ _ _ _ _ _ Hp) as [Hid _]. simpl in Hid. rewrite <- Hid.
  rewrite relocate_self; [|by rewrite planned_ids|done]. unfold relocate_node.
  pose proof (pl_node _ _ _ _ _ _ _ Hp) as Hb. simpl in Hb. rewrite Hid.
  destruct (changed mv) eqn:Hc; [by rewrite lookup_alter_eq, Hb|].
  rewrite (pl_changed _ _ _ _ _ _ _ Hp) in Hc.
  apply orb_false_iff in Hc as [Hc1%negb_false_iff%Z.eqb_eq Hc2%negb_false_iff%String.eqb_eq].
  pose proof (pl_old _ _ _ _ _ _ _ Hp) as Hold.
  rewrite Hb, <- Hc1, <- Hc2, <- Hold. by destruct b.
Qed.

Lemma final_dom i : is_Some (T' !! i) ↔ is_Some (T !! i).
Proof using Hmvs Hnd.
  destruct (D !! i) as [segs|] eqn:Hi; [|by rewrite final_other].
  destruct (final_source _ _ Hi) as (mv & b & l & init & _ & Hp & ->).
  pose proof (pl_node _ _ _ _ _ _ _ Hp) as Hb. simpl in Hb. rewrite Hb. split; eauto.
Qed.

Lemma final_kind i b' : T' !! i = Some b' → ∃ b, T !! i = Some b ∧ bn_kind b' = bn_kind b ∧
  bn_id b' = bn_id b ∧ bn_revision b' = bn_revision b.
Proof using Hmvs Hnd.
  destruct (D !! i) as [segs|] eqn:Hi.
  - destruct (final_source _ _ Hi) as (mv & b & l & init & _ & Hp & ->). intros [= <-].
    exists b. split; [exact (pl_node _ _ _ _ _ _ _ Hp)|done].
  - rewrite final_other by done. eauto.
Qed.

(** The final parent of a node stands just above it. *)
Lemma final_parent i b' p :
  T' !! i = Some b' → bn_parentID b' = Some p →
  ∃ l lp sp, relocated T D p lp sp ∧ relocated T D i l (sp ++ [bn_name b']) ∧
    ∃ pb, T !! p = Some pb ∧ bn_kind pb = dir.
Proof using Hmvs Hnd Hwf.
  intros Hb' Hp. pose proof (load_topo_wf root d Hwf) as Htw.
  destruct (D !! i) as [segs|] eqn:Hi.
  - destruct (final_source _ _ Hi) as (mv & b & l & init & _ & Hpl & Heq). rewrite Heq in Hb'.
    injection Hb' as <-. injection Hp as <-. cbn. exists [i], l, init. split_and!.
    + by eapply pl_parent.
    + pose proof (pl_segs _ _ _ _ _ _ _ Hpl) as Hs. cbn in Hs. rewrite <- Hs.
      eapply reloc_dest; [|done]. exact (pl_node _ _ _ _ _ _ _ Hpl).
    + by eapply pl_dir.
  - rewrite final_other in Hb' by done.
    destruct (tw_parent _ _ Htw _ _ _ Hb' Hp) as (pb & Hpb & Hk).
    destruct (tw_tree _ _ Htw p) as (l0 & s0 & Hr0); [by exists pb|].
    destruct (relocated_total _ D _ _ _ Hr0) as (lp & sp & Hr).
    exists (i :: lp), lp, sp. split_and!; [done|by eapply reloc_step|eauto].
Qed.

Lemma final_relocated n : ∀ i l segs,
  (length segs ≤ n)%nat → relocated T D i l segs → ∃ l', relocated T' ∅ i l' segs.
Proof using Hmvs Hnd Hwf Hsound.
  induction n as [|n IH]; intros i l segs Hn Hr;
    inversion Hr as [j b s Hb Hd|j b Hb Hd Hp|j b p l0 s Hb Hd Hp Hr']; subst.
  - destruct (dest_sound root d sds Hnd Hsound _ _ Hd) as (_ & _ & Hne & _). simpl in Hne. destruct segs; [done|simpl in Hn; lia].
  - exists [i]. eapply reloc_root; [by rewrite final_other|done|done].
  - rewrite length_app in Hn. simpl in Hn. lia.
  - destruct (final_source _ _ Hd) as (mv & b' & l & init & _ & Hpl & Heq).
    pose proof (pl_segs _ _ _ _ _ _ _ Hpl) as Hs. cbn in Hs. subst segs.
    rewrite length_app in Hn. simpl in Hn.
    destruct (IH (newParentID mv) l init) as [l' Hl']; [lia|by eapply pl_parent|].
    eexists. eapply (reloc_step T' ∅ i _ _ _ _ Heq); [done|done|exact Hl'].
  - exists [i]. eapply reloc_root; [by rewrite final_other|done|done].
  - rewrite length_app in Hn. simpl in Hn.
    destruct (IH p l0 s) as [l' Hl']; [lia|done|].
    eexists. eapply reloc_step; [by rewrite final_other|done|done|done].
Qed.

Lemma final_topo_wf : injective T D → topo_wf root T'.
Proof using Hmvs Hnd Hwf Hsound.
  intros Hinj. pose proof (load_topo_wf root d Hwf) as Htw. split.
  - intros i b' (b & Hb & _ & -> & _)%final_kind. by eapply tw_id.
  - intros i Hi%final_dom. by eapply tw_pos.
  - destruct (tw_root _ _ Htw) as (b & Hb & Hp). exists b. split; [|done].
    rewrite final_other; [done|]. destruct (D !! root) eqn:Hr; [|done].
    by destruct (proj1 (dest_sound root d sds Hnd Hsound _ _ Hr)).
  - intros i b' Hb' Hp. destruct (D !! i) as [segs|] eqn:Hi.
    + destruct (final_source _ _ Hi) as (mv & b & l & init & _ & _ & Heq).
      rewrite Heq in Hb'. by injection Hb' as <-.
    + rewrite final_other in Hb' by done. by eapply tw_only_root.
  - intros i b' p Hb' Hp.
    destruct (final_parent _ _ _ Hb' Hp) as (_ & _ & _ & _ & _ & pb & Hpb & Hk).
    destruct (proj2 (final_dom p)) as [pb' Hpb']; [by exists pb|]. exists pb'. split; [done|].
    destruct (final_kind _ _ Hpb') as (b & ? & -> & _). congruence.
  - intros i Hi%final_dom. destruct (tw_tree _ _ Htw i Hi) as (l0 & s0 & Hr0).
    destruct (relocated_total _ D _ _ _ Hr0) as (l & s & Hr).
    destruct (final_relocated _ _ _ _ (le_n _) Hr) as [l' Hl']. eauto.
  - intros i j b c p Hb Hc Hpb Hpc Hn.
    destruct (final_parent _ _ _ Hb Hpb) as (l & lp & sp & Hlp & Hl & _).
    destruct (final_parent _ _ _ Hc Hpc) as (k & kp & tp & Hkp & Hk & _).
    destruct (relocated_fun _ _ _ _ _ _ _ Hlp Hkp) as [_ ->]. rewrite Hn in Hl.
    by eapply Hinj.
  - intros i b' Hb' Hp. destruct (bn_parentID b') as [p|] eqn:Hpp; [|done].
    destruct (final_parent _ _ _ Hb' Hpp) as (l & lp & sp & _ & Hl & _).
    apply (place_canonical root d sds Hwf Hnd Hsound), Forall_app in Hl as [_ Hc].
    exact (proj1 (Forall_singleton _ _) Hc).
Qed.
End final_topology.

(** ** Planning *)

(** The batches the planner is to accept. *)
Record admissible `{Normalizer} (root : Z) (d : db) (reqs : list BatchMoveRequest)
    (sds : list (Z * list string)) : Prop := {
  ad_requests : Forall2 (batch_request root d) reqs sds;
  ad_distinct : NoDup sds.*1;
  ad_injective : injective (loadBatchMoveTopology d) (list_to_map sds);
  ad_parents sd : sd ∈ sds → has_parent d sds sd.2;
}.

(** The plan it then makes. *)
Record plan_for (d : db) (now : string) (sds : list (Z * list string)) (plan : batchMovePlan) :
    Prop := {
  pf_moves : Forall2 (placed_move d sds) sds (moves plan);
  pf_prior : prior_paths d (priorPaths plan);
  pf_final : path_table (loadBatchMoveTopology d) (list_to_map sds) (finalPaths plan);
  pf_nodes : plan_nodes plan = foldl relocate_node (loadBatchMoveTopology d) (moves plan);
  pf_changed : changedIDs plan =
    sortedBatchMoveIDs (moved_set (moves plan) ∪ parent_set (moves plan));
  pf_moved : movedIDs plan = sortedBatchMoveIDs (moved_set (moves plan));
  pf_parents : parentIDs plan = sortedBatchMoveIDs (parent_set (moves plan));
  pf_time : recordedAt plan = now;
}.

Section plan_spec.
Context `{Normalizer} `{MapRange} (root : Z) (d : db) (Hwf : tree_wf root d).
Notation T := (loadBatchMoveTopology d).

Lemma requests_sound reqs sds :
  Forall2 (batch_request root d) reqs sds → Forall (sound_pair root d) sds.
Proof.
  induction 1 as [|req sd reqs sds [[Hroot Hn] Hd] _ IH]; constructor; [|done].
  destruct Hn as (r & Hr & Ht & _). split_and!; [done| |by destruct Hd as (_ & _ & ?)|].
  - exists (as_batch_node sd.1 r). apply lookup_topology. eauto.
  - by eapply batch_dest_canonical.
Qed.

Lemma requests_fun reqs sds sds' :
  Forall2 (batch_request root d) reqs sds → Forall2 (batch_request root d) reqs sds' → sds = sds'.
Proof using Hwf.
  intros Hs. revert sds'. induction Hs as [|req [i s] reqs sds [[_ Hi] Hd] _ IH]; intros sds' Hs';
    inversion Hs' as [|? [j t] ? ? [[_ Hj] Hd'] Hrest]; subst; [done|].
  f_equal; [|by apply IH]. simpl in *.
  rewrite (batch_dest_fun _ _ _ Hd Hd'). f_equal. exact (batch_named_fun root d req _ _ Hwf Hi Hj).
Qed.

Lemma planBatchMove_spec reqs now :
  match planBatchMove root d reqs now with
  | Ok plan => ∃ sds, admissible root d reqs sds ∧ plan_for d now sds plan
  | Err _ => ∀ sds, ¬ admissible root d reqs sds
  end.
Proof using Hwf.
  pose proof (load_topo_wf root d Hwf) as Htw.
  assert (∀ j b, T !! j = Some b → bn_parentID b ≠ None → clean [bn_name b]) as HT
    by (intros j b; by eapply tw_clean).
  unfold planBatchMove. cbn zeta.
  destruct (batchMovePaths_table T HT (tw_tree _ _ Htw)) as (P & -> & HP). cbn -[plan_sources].
  pose proof (plan_sources_spec root d P Hwf HP reqs) as Hsrc.
  destruct (plan_sources root T P reqs) as [mvs0|e]; cbn -[plannedBatchMovePaths].
  2: { intros sds Had. exact (Hsrc sds (ad_requests _ _ _ _ Had) (ad_distinct _ _ _ _ Had)). }
  destruct Hsrc as (sds & Hreq & Hnd & ->).
  pose proof (requests_sound _ _ Hreq) as Hsound.
  assert (∀ sds', admissible root d reqs sds' → sds' = sds) as Hone
    by (intros sds' Had; exact (requests_fun _ _ _ (ad_requests _ _ _ _ Had) Hreq)).
  pose proof (dests_clean root d sds Hnd Hsound) as HD.
  pose proof (plannedBatchMovePaths_spec T (list_to_map sds) (imap (initial_move d) sds) HD HT
    (tw_tree _ _ Htw) (tw_pos _ _ Htw)) as Hpl.
  rewrite (destinations_of sds _ (initial_aims d sds) Hnd), (right_id_L ∅ (∪)) in Hpl.
  specialize (Hpl eq_refl).
  destruct (plannedBatchMovePaths T _) as [[PP ids]|e]; cbn -[plan_coordinates].
  2: { intros sds' Had. rewrite (Hone _ Had) in Had. exact (proj2 Hpl (ad_injective _ _ _ _ Had)). }
  destruct Hpl as (HPP & Hinj & Hinv). rewrite plan_coordinates_loop.
  assert (∀ segs p, clean segs →
    ids !! path_string segs = Some p ↔ ∃ l, relocated T (list_to_map sds) p l segs) as Hids.
  { intros segs p Hc. rewrite Hinv. split.
    - intros Hp. destruct (path_table_inv _ _ _ _ _ HPP Hp) as (l & s & Hr & Heq). exists l.
      apply path_string_inj in Heq; [by subst|done|].
      exact (place_clean root d sds Hwf Hnd Hsound _ _ _ Hr).
    - intros [l Hr]. by eapply path_table_lookup. }
  pose proof (place_loop root d sds Hwf Hnd Hsound ids Hids sds (λ _ Hin, Hin) id) as Hplace.
  change (imap (λ n : nat, initial_move d (id n)) sds) with (imap (initial_move d) sds) in Hplace.
  destruct (mapR (place d ids) _) as [mvs|e]; cbn -[validateBatchMoveTopology batchMovePaths].
  2: { intros sds' Had. rewrite (Hone _ Had) in Had. apply Hplace. apply Had. }
  set (T' := foldl relocate_node T mvs).
  pose proof (final_topo_wf root d sds mvs Hwf Hnd Hsound Hplace Hinj) as Htw'. fold T' in Htw'.
  rewrite validateBatchMoveTopology_ok; [|apply Htw'|apply Htw'|apply Htw'].
  cbn -[batchMovePaths].
  destruct (batchMovePaths_table T') as (PF & -> & HPF); [|apply Htw'|].
  { intros j b. by eapply tw_clean. }
  cbn. assert (PF = PP) as ->.
  { symmetry. eapply path_table_unique; [exact HPP|exact HPF| |].
    - intros i. symmetry. by eapply final_dom.
    - intros i l segs Hr. by eapply final_relocated. }
  rewrite bool_decide_eq_true_2 by done. cbn. exists sds. split.
  - split; [done..|]. intros sd Hsd.
    destruct (Forall2_elem_l _ _ _ _ Hplace Hsd) as (mv & _ & b & l & init & Hp).
    destruct (pl_dir _ _ _ _ _ _ _ Hp) as (pb & Hpb & Hk).
    exists (newParentID mv), l, pb. rewrite (pl_segs _ _ _ _ _ _ _ Hp), removelast_snoc.
    split_and!; [by eapply pl_parent|done..].
  - by split.
Qed.
End plan_spec.
