(* ===== verification/BatchApply.v ===== *)
(** * Applying a batch

    Under staging names no statement of [applyBatchMove] can trip the unique
    index on live siblings, whatever the order of the moves; the rows it leaves
    form a well-formed tree again. *)
From S2P Require Import Prelude GoText Names Tables Tree TreeInv TreeFacts BatchMove BatchPaths BatchPlan.

(** ** Row-wise edits *)

Definition edit_rows (g : Z → node_row → node_row) (ns : gmap Z node_row) : gmap Z node_row :=
  map_imap (λ i r, Some (g i r)) ns.

Lemma lookup_edit_rows g ns i : edit_rows g ns !! i = g i <$> ns !! i.
Proof. unfold edit_rows. rewrite map_lookup_imap. by destruct (ns !! i). Qed.

Lemma edit_rows_edit g h ns : edit_rows h (edit_rows g ns) = edit_rows (λ i r, h i (g i r)) ns.
Proof. apply map_eq. intros i. rewrite !lookup_edit_rows. by destruct (ns !! i). Qed.

Lemma edit_rows_ext g h ns :
  (∀ i r, ns !! i = Some r → g i r = h i r) → edit_rows g ns = edit_rows h ns.
Proof.
  intros Heq. apply map_eq. intros i. rewrite !lookup_edit_rows.
  destruct (ns !! i) eqn:Hi; [|done]. simpl. f_equal. by apply Heq.
Qed.

Lemma edit_rows_id g ns : (∀ i r, ns !! i = Some r → g i r = r) → edit_rows g ns = ns.
Proof.
  intros Heq. apply map_eq. intros i. rewrite lookup_edit_rows.
  destruct (ns !! i) eqn:Hi; [|done]. simpl. f_equal. by apply Heq.
Qed.

(** [UPDATE ... WHERE id = ?] goes through when the new row clashes with none. *)
Lemma exec_id_ok d ns i f e :
  (∀ r j s, ns !! i = Some r → j ≠ i → ns !! j = Some s → clash (f r) s = false) →
  exec (with_nodes d ns) (update_where (is_id i) f ns) e =
  Ok (with_nodes d (edit_rows (λ j r, if decide (j = i) then f r else r) ns)).
Proof.
  intros Hno. unfold exec. rewrite update_where_ok.
  - simpl. f_equal. unfold with_nodes. simpl. f_equal. apply map_eq. intros j.
    by rewrite lookup_set_id, lookup_edit_rows.
  - intros k j rk rj Hne Hk Hj Hid. unfold is_id in *. apply Z.eqb_eq in Hid as ->.
    split; [by eapply Hno|]. intros Heq%Z.eqb_eq. by destruct Hne.
Qed.

Lemma with_nodes_with d ns ns' : with_nodes (with_nodes d ns) ns' = with_nodes d ns'.
Proof. done. Qed.

Lemma with_nodes_self d : with_nodes d (nodes d) = d.
Proof. by destruct d. Qed.

(** ** Staging names *)

Lemma temporaryName_inj i j : temporaryName i = temporaryName j → i = j.
Proof. intros Heq%sapp_inv_l. by apply (inj Itoa). Qed.

Lemma temporaryName_not_canonical `{Normalizer} i : ¬ canonical_name (temporaryName i).
Proof.
  intros (_ & _ & Hok)%canonical_name_iff. destruct Hok as (_ & _ & _ & _ & Hnul). discriminate.
Qed.

Definition find_move (mvs : list plannedBatchMove) (i : Z) : option plannedBatchMove :=
  head (filter (λ mv, pm_nodeID mv = i) mvs).

Lemma find_move_Some mvs i mv : find_move mvs i = Some mv → mv ∈ mvs ∧ pm_nodeID mv = i.
Proof. intros Hf. apply head_filter_Some in Hf as [? ?]. done. Qed.

Lemma find_move_None mvs i : find_move mvs i = None ↔ i ∉ pm_nodeID <$> mvs.
Proof.
  split.
  - intros Hf Hin. apply list_elem_of_fmap in Hin as (mv & -> & Hin).
    by apply (head_filter_None _ _ Hf mv).
  - intros Hni. destruct (find_move mvs i) as [mv|] eqn:Hf; [|done].
    apply find_move_Some in Hf as [Hin <-]. destruct Hni. by apply list_elem_of_fmap_2.
Qed.

Lemma find_move_cons mv mvs i :
  find_move (mv :: mvs) i = if decide (i = pm_nodeID mv) then Some mv else find_move mvs i.
Proof. unfold find_move. rewrite filter_cons. by repeat case_decide; subst. Qed.

(** ** The three passes *)

Lemma apply_move_changed now d mv :
  changed mv = true → apply_move now d mv =
  exec d (update_where (is_id (pm_nodeID mv)) (set_location (newParentID mv) (newName mv) now)
            (nodes d)) ErrOther.
Proof. unfold apply_move. by intros ->. Qed.

Lemma apply_move_unchanged now d mv : changed mv = false → apply_move now d mv = Ok d.
Proof. unfold apply_move. by intros ->. Qed.

Section apply.
Context `{Normalizer} (root : Z) (d : db) (Hwf : tree_wf root d) (now : string).

Definition staged (ids : list Z) (i : Z) (r : node_row) : node_row :=
  if decide (i ∈ ids) then rename (temporaryName i) r else r.

Lemma wf_name_or_root i r : nodes d !! i = Some r → parent_id r = None ∨ canonical_name (name r).
Proof using Hwf.
  intros Hi. destruct (decide (i = root)) as [->|Hne]; [left|right; by apply (wf_name _ _ Hwf i)].
  destruct (wf_root _ _ Hwf) as (r' & Hr' & Hp & _). congruence.
Qed.

Lemma stage_loop ids : ∀ done,
  foldM stage_move (with_nodes d (edit_rows (staged done) (nodes d))) ids =
  Ok (with_nodes d (edit_rows (staged (done ++ ids)) (nodes d))).
Proof using Hwf.
  induction ids as [|i ids IH]; intros done; [by rewrite app_nil_r|].
  cbn [foldM]. unfold stage_move. cbn [nodes with_nodes]. rewrite exec_id_ok.
  - cbn [mbind result_bind]. rewrite edit_rows_edit, (cons_middle i), app_assoc, <- IH.
    rewrite (edit_rows_ext _ (staged (done ++ [i]))); [done|]. intros j r _. unfold staged.
    repeat case_decide; subst; try done; set_solver.
  - intros r j s Hr Hne Hs. rewrite lookup_edit_rows in Hr, Hs.
    destruct (nodes d !! i) as [r0|] eqn:Hi; [|done]. destruct (nodes d !! j) as [s0|] eqn:Hj; [|done].
    injection Hr as <-. injection Hs as <-. apply not_true_iff_false. rewrite clash_true.
    assert (parent_id (staged done i r0) = parent_id r0) as Hpi by (unfold staged; by case_decide).
    assert (parent_id (staged done j s0) = parent_id s0) as Hpj by (unfold staged; by case_decide).
    intros [([p nm] & Hki & Hkj)|[Hni Hnj]].
    + apply live_key_Some in Hki as (_ & _ & <-), Hkj as (_ & Hp & Hn). cbn in Hn.
      unfold staged in Hn. case_decide.
      * cbn in Hn. by apply temporaryName_inj in Hn.
      * destruct (wf_name_or_root _ _ Hj) as [?|Hc]; [congruence|].
        rewrite Hn in Hc. by apply temporaryName_not_canonical in Hc.
    + cbn in Hni. rewrite Hpi in Hni. rewrite Hpj in Hnj. apply Hne.
      rewrite (wf_only_root _ _ Hwf _ _ Hi Hni). by apply (wf_only_root _ _ Hwf j s0).
Qed.

Definition located (mvs : list plannedBatchMove) (i : Z) (r : node_row) : node_row :=
  match find_move mvs i with
  | Some mv => set_location (newParentID mv) (newName mv) now r
  | None => r
  end.

(** The final topology: its entries are the live rows, relocated. *)
Context (cm : list plannedBatchMove) (T' : gmap Z batchMoveNode) (HT' : topo_wf root T').
Context (Hcm : NoDup (pm_nodeID <$> cm)) (Hch : Forall (λ mv, changed mv = true) cm).
Context (Hin : ∀ mv, mv ∈ cm → is_Some (T' !! pm_nodeID mv)).
Context (Hdom : ∀ i r, nodes d !! i = Some r → trashed_at r = None → is_Some (T' !! i)).
Context (Hlive : ∀ i b, T' !! i = Some b → ∃ r, nodes d !! i = Some r ∧ trashed_at r = None ∧
  kind r = bn_kind b ∧ parent_id (located cm i r) = bn_parentID b ∧
  name (located cm i r) = bn_name b).

Lemma find_move_in mvs mv :
  NoDup (pm_nodeID <$> mvs) → mv ∈ mvs → find_move mvs (pm_nodeID mv) = Some mv.
Proof.
  intros Hnd Hmv. destruct (find_move mvs (pm_nodeID mv)) as [mv'|] eqn:Hf.
  - apply find_move_Some in Hf as [Hmv' Heq]. f_equal. by eapply NoDup_fmap_inj.
  - apply find_move_None in Hf. destruct Hf. by apply list_elem_of_fmap_2.
Qed.

Lemma move_goal mv : mv ∈ cm → ∃ b, T' !! pm_nodeID mv = Some b ∧
  bn_parentID b = Some (newParentID mv) ∧ bn_name b = newName mv.
Proof using Hcm Hin Hlive.
  intros Hmv. destruct (Hin _ Hmv) as [b Hb]. destruct (Hlive _ _ Hb) as (r & _ & _ & _ & Hp & Hn).
  unfold located in Hp, Hn. rewrite (find_move_in _ _ Hcm Hmv) in Hp, Hn. by exists b.
Qed.

Lemma located_loop mvs : ∀ ns,
  NoDup (pm_nodeID <$> mvs) → (∀ mv, mv ∈ mvs → mv ∈ cm) →
  (∀ j s, ns !! j = Some s → trashed_at s = None → j ∉ pm_nodeID <$> mvs →
     ∃ b, T' !! j = Some b ∧ parent_id s = bn_parentID b ∧ name s = bn_name b) →
  (∀ j s, ns !! j = Some s → j ∈ pm_nodeID <$> mvs → name s = temporaryName j) →
  foldM (apply_move now) (with_nodes d ns) mvs = Ok (with_nodes d (edit_rows (located mvs) ns)).
Proof using Hcm Hin Hlive Hch HT'.
  induction mvs as [|mv mvs IH]; intros ns Hnd Hsub Hplaced Htmp.
  { cbn. by rewrite edit_rows_id. }
  rewrite fmap_cons in Hnd. apply NoDup_cons in Hnd as [Hni Hnd].
  destruct (move_goal mv) as (b & Hb & Hbp & Hbn); [apply Hsub; by left|].
  cbn [foldM]. rewrite (apply_move_changed _ _ mv).
  2: { eapply Forall_forall in Hch; [exact Hch|]. apply Hsub. by left. }
  cbn [nodes with_nodes]. rewrite exec_id_ok.
  - cbn [mbind result_bind]. rewrite IH; [|done|intros; apply Hsub; by right|..].
    + rewrite edit_rows_edit. do 2 f_equal. apply edit_rows_ext. intros i r _. unfold located.
      rewrite find_move_cons. case_decide as Hi; [subst i|done].
      by rewrite (proj2 (find_move_None _ _) Hni).
    + intros j s. rewrite lookup_edit_rows. destruct (ns !! j) as [s0|] eqn:Hj; [|done].
      intros [= <-] Ht Hjn. case_decide as Heq; [subst j; by exists b|].
      apply (Hplaced j s0 Hj Ht). rewrite fmap_cons, not_elem_of_cons. done.
    + intros j s. rewrite lookup_edit_rows. destruct (ns !! j) as [s0|] eqn:Hj; [|done].
      intros [= <-] Hjn. rewrite decide_False by (by intros ->).
      apply (Htmp j s0 Hj). rewrite fmap_cons. by right.
  - intros r j s Hr Hne Hs. apply not_true_iff_false. rewrite clash_true.
    intros [([p nm] & Hkr & Hks)|[Hno _]]; [|done].
    apply live_key_Some in Hkr as (_ & Hp & Hn), Hks as (Ht & Hsp & Hsn). cbn in Hp, Hn.
    injection Hp as <-. subst nm.
    destruct (decide (j ∈ pm_nodeID <$> mv :: mvs)) as [Hjn|Hjn].
    + rewrite (Htmp j s Hs Hjn), <- Hbn in Hsn. apply (temporaryName_not_canonical j).
      rewrite Hsn. apply (tw_name _ _ HT' _ _ Hb). by rewrite Hbp.
    + destruct (Hplaced j s Hs Ht Hjn) as (c & Hc & Hcp & Hcn). apply Hne. symmetry.
      eapply (tw_unique _ _ HT' _ _ _ _ _ Hb Hc Hbp); congruence.
Qed.

Lemma located_staged ids : (∀ i, i ∈ ids ↔ i ∈ pm_nodeID <$> cm) →
  edit_rows (located cm) (edit_rows (staged ids) (nodes d)) = edit_rows (located cm) (nodes d).
Proof.
  intros Hids. rewrite edit_rows_edit. apply edit_rows_ext. intros i r _. unfold located, staged.
  case_decide as Hi; [|done]. destruct (find_move cm i) eqn:Hf; [done|].
  apply find_move_None in Hf. by rewrite Hids in Hi.
Qed.

(** Staging and locating never fail. *)
Lemma stage_locate ids :
  (∀ i, i ∈ ids ↔ i ∈ pm_nodeID <$> cm) →
  (d ← foldM stage_move d ids; foldM (apply_move now) d cm) =
  Ok (with_nodes d (edit_rows (located cm) (nodes d))).
Proof using Hwf Hcm Hin Hlive Hch HT' Hdom.
  intros Hids. pose proof (stage_loop ids []) as Hst.
  rewrite (edit_rows_id (staged [])) in Hst
    by (intros i r _; unfold staged; rewrite decide_False; [done|apply not_elem_of_nil]).
  rewrite with_nodes_self in Hst. rewrite Hst. cbn [mbind result_bind app].
  rewrite located_loop; [by rewrite located_staged|done|done|..].
  - intros j s. rewrite lookup_edit_rows. destruct (nodes d !! j) as [s0|] eqn:Hj; [|done].
    intros [= <-] Ht Hjn. unfold staged in *.
    rewrite decide_False in Ht |- * by (by rewrite Hids). destruct (Hdom _ _ Hj Ht) as [b Hb].
    destruct (Hlive _ _ Hb) as (r & Hr & _ & _ & Hp & Hn). assert (r = s0) as -> by congruence.
    unfold located in Hp, Hn. rewrite (proj2 (find_move_None _ _) Hjn) in Hp, Hn. by exists b.
  - intros j s. rewrite lookup_edit_rows. destruct (nodes d !! j) as [s0|] eqn:Hj; [|done].
    intros [= <-] Hjn. unfold staged. by rewrite decide_True by (by apply Hids).
Qed.

(** ** The rows after the moves *)

Notation d1 := (with_nodes d (edit_rows (located cm) (nodes d))).

Lemma located_inv i r' : nodes d1 !! i = Some r' →
  ∃ r, nodes d !! i = Some r ∧ r' = located cm i r.
Proof. simpl. rewrite lookup_edit_rows. destruct (nodes d !! i); naive_solver. Qed.

Lemma located_fields i r :
  kind (located cm i r) = kind r ∧ current_version_id (located cm i r) = current_version_id r ∧
  trashed_at (located cm i r) = trashed_at r ∧ trash_name (located cm i r) = trash_name r ∧
  trash_parent (located cm i r) = trash_parent r ∧ created_at (located cm i r) = created_at r ∧
  (revision r ≤ revision (located cm i r))%Z.
Proof. unfold located. destruct (find_move cm i); simpl; split_and!; done || lia. Qed.

(** A row in the trash stays as it is. *)
Lemma located_trashed i r :
  nodes d !! i = Some r → trashed_at r ≠ None → located cm i r = r.
Proof using Hin Hlive.
  intros Hr Ht. unfold located. destruct (find_move cm i) as [mv|] eqn:Hf; [|done].
  apply find_move_Some in Hf as [Hmv <-]. destruct (Hin _ Hmv) as [b Hb].
  destruct (Hlive _ _ Hb) as (r' & Hr' & Ht' & _). congruence.
Qed.

Lemma located_live i r :
  nodes d !! i = Some r → trashed_at r = None →
  ∃ b, T' !! i = Some b ∧ kind r = bn_kind b ∧ parent_id (located cm i r) = bn_parentID b ∧
    name (located cm i r) = bn_name b.
Proof using Hlive Hdom.
  intros Hr Ht. destruct (Hdom _ _ Hr Ht) as [b Hb].
  destruct (Hlive _ _ Hb) as (r' & Hr' & _ & ? & ? & ?). assert (r' = r) as -> by congruence. eauto.
Qed.

(** Every parent link leads to a directory, live below the live. *)
Lemma located_parent i r p :
  nodes d !! i = Some r → parent_id (located cm i r) = Some p →
  ∃ pr, nodes d !! p = Some pr ∧ kind pr = dir ∧ (trashed_at r = None → trashed_at pr = None).
Proof using Hwf HT' Hin Hlive Hdom.
  intros Hr Hp. destruct (trashed_at r) as [st|] eqn:Ht.
  - rewrite (located_trashed _ _ Hr) in Hp by congruence.
    destruct (wf_parent _ _ Hwf _ _ _ Hr Hp) as (pr & ? & ?). by exists pr.
  - destruct (located_live _ _ Hr Ht) as (b & Hb & _ & Hpb & _). rewrite Hpb in Hp.
    destruct (tw_parent _ _ HT' _ _ _ Hb Hp) as (pb & Hpp & Hk).
    destruct (Hlive _ _ Hpp) as (pr & Hpr & Htp & Hkp & _). exists pr. split_and!; congruence.
Qed.

Lemma located_live_parent i r p :
  nodes d !! i = Some r → trashed_at r = None → parent_id (located cm i r) = Some p →
  ∀ j s, nodes d !! j = Some s → trash_name s = None → parent_id (located cm j s) = Some p →
  trashed_at s = None.
Proof using Hwf HT' Hin Hlive Hdom.
  intros Hr Ht Hp j s Hs Htn Hps. destruct (trashed_at s) as [st|] eqn:Hst; [|done]. exfalso.
  rewrite (located_trashed _ _ Hs) in Hps by congruence.
  destruct (wf_trashed _ _ Hwf j s st Hs Hst Htn) as (q & qr & Hq & Hqr & Hqt).
  destruct (located_parent _ _ _ Hr Hp) as (pr & Hpr & _ & Hlv). specialize (Hlv Ht). congruence.
Qed.

Lemma located_anc i l : anc (nodes d) i l → ∃ l', anc (nodes d1) i l'.
Proof using Hwf HT' Hin Hlive Hdom.
  assert (∀ i r, nodes d !! i = Some r → trashed_at r = None → ∃ l', anc (nodes d1) i l') as Hl.
  { intros j r Hr Ht. destruct (Hdom _ _ Hr Ht) as [b Hb].
    destruct (tw_tree _ _ HT' j) as (l' & segs & Hrel); [by exists b|]. exists l'.
    eapply relocated_path_segs; [|exact Hrel]. intros k c Hc.
    destruct (Hlive _ _ Hc) as (s & Hs & _ & _ & Hps & Hns). exists (located cm k s).
    simpl. by rewrite lookup_edit_rows, Hs. }
  induction 1 as [i r Hi Hp|i r p l' Hi Hp Hl' [l'' IH]];
    (destruct (trashed_at r) as [st|] eqn:Ht; [|by eapply Hl]);
    assert (nodes d1 !! i = Some r) as Hi1
      by (simpl; rewrite lookup_edit_rows, Hi; simpl; by rewrite (located_trashed _ _ Hi) by congruence).
  - eexists. by eapply anc_root.
  - eexists. by eapply anc_step.
Qed.

Lemma located_wf : tree_wf root d1.
Proof using Hwf HT' Hin Hlive Hdom.
  destruct (wf_root _ _ Hwf) as (rr & Hrr & Hrp & Hrk & Hrt & Hrn).
  assert (located cm root rr = rr) as Hroot.
  { unfold located. destruct (find_move cm root) as [mv|] eqn:Hf; [|done]. exfalso.
    destruct (located_live _ _ Hrr Hrt) as (b & Hb & _ & Hp & _). unfold located in Hp.
    rewrite Hf in Hp. cbn in Hp. destruct (tw_root _ _ HT') as (b' & Hb' & Hp'). congruence. }
  split.
  - exists rr. simpl. rewrite lookup_edit_rows, Hrr. simpl. by rewrite Hroot.
  - intros i r' (r & Hr & ->)%located_inv Hp. destruct (trashed_at r) as [st|] eqn:Ht.
    + rewrite (located_trashed _ _ Hr) in Hp by congruence. by apply (wf_only_root _ _ Hwf i r).
    + destruct (located_live _ _ Hr Ht) as (b & Hb & _ & Hpb & _). rewrite Hpb in Hp.
      by apply (tw_only_root _ _ HT' i b).
  - intros i r' p (r & Hr & ->)%located_inv Hp.
    destruct (located_parent _ _ _ Hr Hp) as (pr & Hpr & Hk & _). exists (located cm p pr).
    simpl. rewrite lookup_edit_rows, Hpr. by destruct (located_fields p pr) as (-> & _).
  - intros i [r' (r & Hr & ->)%located_inv]. destruct (wf_anc _ _ Hwf i) as [l Hl]; [by exists r|].
    by eapply located_anc.
  - intros i r' (r & Hr & ->)%located_inv. destruct (located_fields i r) as (_ & _ & -> & -> & _).
    by apply (wf_live _ _ Hwf i).
  - intros i r' p pr' (r & Hr & ->)%located_inv Ht Hp (pr & Hpr & ->)%located_inv.
    destruct (located_fields i r) as (_ & _ & Hti & _), (located_fields p pr) as (_ & _ & -> & _).
    destruct (located_parent _ _ _ Hr Hp) as (pr0 & Hpr0 & _ & Hl). rewrite Hti in Ht.
    specialize (Hl Ht). congruence.
  - intros i r' st (r & Hr & ->)%located_inv Ht Hn.
    destruct (located_fields i r) as (_ & _ & Hti & Hni & _). rewrite Hti in Ht. rewrite Hni in Hn.
    destruct (wf_trashed _ _ Hwf i r st Hr Ht Hn) as (p & pr & Hp & Hpr & Hpt).
    exists p, (located cm p pr). rewrite (located_trashed _ _ Hr) by congruence.
    simpl. rewrite lookup_edit_rows, Hpr. by destruct (located_fields p pr) as (_ & _ & -> & _).
  - intros i r' nm (r & Hr & ->)%located_inv. destruct (located_fields i r) as (_ & _ & _ & -> & _).
    intros Hn. rewrite (located_trashed _ _ Hr); [by eapply (wf_trash_root _ _ Hwf)|].
    intros Ht. pose proof (wf_live _ _ Hwf _ _ Hr Ht). congruence.
  - intros i j r' s' p (r & Hr & ->)%located_inv (s & Hs & ->)%located_inv Hp Hq Hn.
    destruct (located_fields i r) as (_ & _ & _ & -> & _), (located_fields j s) as (_ & _ & _ & -> & _).
    intros Hi Hj. destruct (trashed_at r) as [st|] eqn:Ht, (trashed_at s) as [st'|] eqn:Ht'.
    + rewrite (located_trashed _ _ Hr) in Hp, Hn by congruence.
      rewrite (located_trashed _ _ Hs) in Hq, Hn by congruence.
      by eapply (wf_unique _ _ Hwf i j r s p).
    + pose proof (located_live_parent _ _ _ Hs Ht' Hq _ _ Hr Hi Hp). congruence.
    + pose proof (located_live_parent _ _ _ Hr Ht Hp _ _ Hs Hj Hq). congruence.
    + destruct (located_live _ _ Hr Ht) as (b & Hb & _ & Hpb & Hnb).
      destruct (located_live _ _ Hs Ht') as (c & Hc & _ & Hpc & Hnc).
      eapply (tw_unique _ _ HT' i j b c p); congruence.
  - intros i [r' (r & Hr & ->)%located_inv]. apply (wf_ids _ _ Hwf). by exists r.
  - intros i r' (r & Hr & ->)%located_inv. pose proof (wf_revision _ _ Hwf _ _ Hr).
    destruct (located_fields i r) as (_ & _ & _ & _ & _ & _ & ?). lia.
  - intros i r' (r & Hr & ->)%located_inv. destruct (located_fields i r) as (-> & -> & _).
    by apply (wf_kind _ _ Hwf i).
  - intros i r' (r & Hr & ->)%located_inv Hne. destruct (trashed_at r) as [st|] eqn:Ht.
    + rewrite (located_trashed _ _ Hr) by congruence. by apply (wf_name _ _ Hwf i).
    + destruct (located_live _ _ Hr Ht) as (b & Hb & _ & _ & ->). apply (tw_name _ _ HT' _ _ Hb).
      intros Hp. by apply Hne, (tw_only_root _ _ HT' i b).
  - intros i r' nm (r & Hr & ->)%located_inv. destruct (located_fields i r) as (_ & _ & _ & -> & _).
    by apply (wf_trash_name _ _ Hwf i).
Qed.
End apply.

Lemma apply_changed now mvs : ∀ d,
  foldM (apply_move now) d mvs = foldM (apply_move now) d (changed_moves mvs).
Proof.
  unfold changed_moves. induction mvs as [|mv mvs IH]; intros d; [done|].
  rewrite filter_cons. case_decide as Hc.
  - cbn [foldM]. destruct (apply_move now d mv); [|done]. apply IH.
  - cbn [foldM]. rewrite apply_move_unchanged by (by destruct (changed mv)). apply IH.
Qed.

(** ** The parents' revisions *)

Lemma bump_loop `{Normalizer} root now mvs ids : ∀ d, tree_wf root d → NoDup ids →
  let g i r := if decide (i ∈ ids ∧ i ∉ moved_set mvs) then bump now r else r in
  foldM (bump_parent mvs now) d ids = Ok (with_nodes d (edit_rows g (nodes d))) ∧
  tree_wf root (with_nodes d (edit_rows g (nodes d))).
Proof.
  induction ids as [|i ids IH]; intros d Hwf Hnd g; subst g; cbn [foldM].
  { rewrite edit_rows_id; [by rewrite with_nodes_self|].
    intros i r _. rewrite decide_False; [done|]. intros [?%elem_of_nil _]. done. }
  apply NoDup_cons in Hnd as [Hni Hnd]. cbv zeta in IH.
  destruct (decide (i ∈ moved_set mvs)) as [Hm|Hm].
  - assert (bump_parent mvs now d i = Ok d) as ->
      by (unfold bump_parent; by rewrite bool_decide_eq_true_2).
    cbn [mbind result_bind]. destruct (IH d Hwf Hnd) as [Hrun Hw].
    rewrite (edit_rows_ext _ (λ j r, if decide (j ∈ ids ∧ j ∉ moved_set mvs) then bump now r else r));
      [by split|]. intros j r _. repeat case_decide; try done; exfalso; set_solver.
  - assert (bump_parent mvs now d i = bumpRevisionTx d i now) as ->
      by (unfold bump_parent; by rewrite bool_decide_eq_false_2).
    destruct (bumpRevisionTx_ok root d i now Hwf) as [-> Hw1]. cbn [mbind result_bind].
    destruct (IH _ Hw1 Hnd) as [Hrun Hw]. cbn [nodes with_nodes] in Hrun, Hw.
    assert (edit_rows (λ j r, if decide (j ∈ ids ∧ j ∉ moved_set mvs) then bump now r else r)
        (set_where (is_id i) (bump now) (nodes d)) =
      edit_rows (λ j r, if decide (j ∈ i :: ids ∧ j ∉ moved_set mvs) then bump now r else r)
        (nodes d)) as Heq.
    { apply map_eq. intros j. rewrite !lookup_edit_rows, lookup_set_id.
      destruct (nodes d !! j) as [r|]; [|done]. simpl. f_equal.
      repeat case_decide; subst; try done; exfalso; set_solver. }
    rewrite Heq in Hrun, Hw. by split.
Qed.
