(* ===== verification/BatchProps.v ===== *)
(** * The outcome of a batch

    An accepted plan is applied without failure, and the state it leaves is
    the relocation its requests describe.

    The command [BatchMove] against its specification, the simultaneous
    relocation of its sources, with two directories exchanging their names as
    the worked example. *)
From S2P Require Import Prelude GoText Names Tables Tree TreeInv TreeFacts BatchMove BatchPaths BatchPlan BatchApply Trash StoreMachine StoreProps.

(** ** What a batch is to do *)

(** A node whose own place, or one of whose entries, the batch changes. *)
Definition touched (ns ns' : gmap Z node_row) (i : Z) : Prop :=
  ∃ j r r', ns !! j = Some r ∧ ns' !! j = Some r' ∧
    (parent_id r, name r) ≠ (parent_id r', name r') ∧
    (i = j ∨ parent_id r = Some i ∨ parent_id r' = Some i).

Record batch_effect (d d' : db) (now : string) (sds : list (Z * list string))
    (results : list BatchMoveResult) : Prop := {
  (** only the node table changes, and no row comes or goes *)
  be_frame : d' = with_nodes d (nodes d');
  be_dom i : is_Some (nodes d' !! i) ↔ is_Some (nodes d !! i);
  (** a row keeps everything but its place; revisions count the touched rows *)
  be_keep i r r' : nodes d !! i = Some r → nodes d' !! i = Some r' →
    kind r' = kind r ∧ current_version_id r' = current_version_id r ∧
    created_at r' = created_at r ∧ trashed_at r' = trashed_at r ∧
    trash_parent r' = trash_parent r ∧ trash_name r' = trash_name r;
  be_touched i r r' : nodes d !! i = Some r → nodes d' !! i = Some r' →
    touched (nodes d) (nodes d') i → revision r' = (revision r + 1)%Z ∧ modified_at r' = now;
  be_untouched i r : nodes d !! i = Some r → ¬ touched (nodes d) (nodes d') i →
    nodes d' !! i = Some r;
  (** every live node stands where the simultaneous relocation puts it *)
  be_paths i r : nodes d !! i = Some r → trashed_at r = None →
    ∃ l segs, relocated (loadBatchMoveTopology d) (list_to_map sds) i l segs ∧
      pathOf d' i = path_string segs;
  (** the receipts *)
  be_results : Forall2 (λ sd res, ∃ r', nodes d' !! sd.1 = Some r' ∧
    res = MkBatchMoveResult (scanNode d' sd.1 r') (pathOf d sd.1) (path_string sd.2)) sds results;
}.

Lemma elem_of_sorted_ids (s : gset Z) i : i ∈ sortedBatchMoveIDs s ↔ i ∈ s.
Proof. unfold sortedBatchMoveIDs. rewrite merge_sort_Permutation. apply elem_of_elements. Qed.

Lemma NoDup_sorted_ids (s : gset Z) : NoDup (sortedBatchMoveIDs s).
Proof. unfold sortedBatchMoveIDs. rewrite merge_sort_Permutation. apply NoDup_elements. Qed.

Section outcome.
Context `{Normalizer} `{MapRange} (root : Z) (d : db) (now : string).
Context (reqs : list BatchMoveRequest) (sds : list (Z * list string)) (plan : batchMovePlan).
Context (Hwf : tree_wf root d) (Had : admissible root d reqs sds) (Hpl : plan_for d now sds plan).
Notation T := (loadBatchMoveTopology d).
Notation D := (list_to_map sds : gmap Z (list string)).
Notation mvs := (moves plan).
Notation cm := (changed_moves mvs).
Notation T' := (foldl relocate_node T mvs).

#[local] Lemma Hnd : NoDup sds.*1.
Proof using Had. apply Had. Qed.
#[local] Lemma Hsound : Forall (sound_pair root d) sds.
Proof using Had. eapply requests_sound, Had. Qed.
#[local] Lemma HT' : topo_wf root T'.
Proof using Hwf Had Hpl.
  apply (final_topo_wf root d sds); [done|apply Hnd|apply Hsound|apply Hpl|apply Had].
Qed.

Lemma mvs_NoDup : NoDup (pm_nodeID <$> mvs).
Proof using Had Hpl. rewrite (planned_ids d sds); [apply Hnd|apply Hpl]. Qed.

Lemma cm_NoDup : NoDup (pm_nodeID <$> cm).
Proof using Had Hpl. apply NoDup_fmap_filter, mvs_NoDup. Qed.

Lemma elem_of_cm mv : mv ∈ cm ↔ changed mv = true ∧ mv ∈ mvs.
Proof. unfold changed_moves. by rewrite list_elem_of_filter. Qed.

Lemma cm_changed : Forall (λ mv, changed mv = true) cm.
Proof. apply Forall_forall. by intros mv [? _]%elem_of_cm. Qed.

Lemma mv_placed mv : mv ∈ mvs → ∃ sd b l init, sd ∈ sds ∧ placed d sds sd mv b l init.
Proof using Hpl.
  intros Hmv. assert (∀ sds' ms, Forall2 (placed_move d sds) sds' ms → mv ∈ ms →
    ∃ sd b l init, sd ∈ sds' ∧ placed d sds sd mv b l init) as Hgen.
  { induction 1 as [|sd m sds' ms (b & l & init & Hp) _ IH]; intros Hin;
      [by apply elem_of_nil in Hin|].
    apply elem_of_cons in Hin as [->|Hin]; [exists sd, b, l, init; split; [by left|done]|].
    destruct (IH Hin) as (sd' & b' & l' & i' & ? & ?). exists sd', b', l', i'.
    split; [by right|done]. }
  eapply Hgen; [apply Hpl|done].
Qed.

Lemma mv_node mv : mv ∈ mvs → ∃ r, nodes d !! pm_nodeID mv = Some r ∧ trashed_at r = None ∧
  parent_id r = Some (oldParentID mv) ∧
  changed mv = negb (oldParentID mv =? newParentID mv)%Z || negb (String.eqb (name r) (newName mv)).
Proof using Hpl.
  intros Hmv. destruct (mv_placed _ Hmv) as (sd & b & l & init & _ & Hp).
  destruct (pl_aims _ _ _ _ _ _ _ Hp) as [Hid _].
  pose proof (pl_node _ _ _ _ _ _ _ Hp) as (r & Hr & Ht & Hb)%lookup_topology.
  pose proof (pl_old _ _ _ _ _ _ _ Hp) as Hold. pose proof (pl_changed _ _ _ _ _ _ _ Hp) as Hc.
  subst b. exists r. by rewrite Hid.
Qed.

Lemma cm_in mv : mv ∈ cm → is_Some (T' !! pm_nodeID mv).
Proof using Had Hpl.
  intros [_ Hmv]%elem_of_cm. apply (final_dom d sds mvs); [apply Hnd|apply Hpl|].
  destruct (mv_node _ Hmv) as (r & Hr & Ht & _). exists (as_batch_node (pm_nodeID mv) r).
  apply lookup_topology. eauto.
Qed.

Lemma T'_dom i r : nodes d !! i = Some r → trashed_at r = None → is_Some (T' !! i).
Proof using Had Hpl.
  intros Hr Ht. apply (final_dom d sds mvs); [apply Hnd|apply Hpl|].
  exists (as_batch_node i r). apply lookup_topology. eauto.
Qed.

Lemma T'_live i b : T' !! i = Some b → ∃ r, nodes d !! i = Some r ∧ trashed_at r = None ∧
  kind r = bn_kind b ∧ parent_id (located now cm i r) = bn_parentID b ∧
  name (located now cm i r) = bn_name b.
Proof using Had Hpl.
  intros Hb. destruct (D !! i) as [segs|] eqn:Hi.
  - destruct (final_source d sds mvs Hnd (pf_moves _ _ _ _ Hpl) _ _ Hi)
      as (mv & b0 & l & init & Hmv & Hp & Heq). rewrite Heq in Hb. injection Hb as <-. cbn.
    destruct (pl_aims _ _ _ _ _ _ _ Hp) as [Hid _]. simpl in Hid. subst i.
    pose proof (pl_node _ _ _ _ _ _ _ Hp) as (r & Hr & Ht & Hb0)%lookup_topology. simpl in Hr.
    exists r. subst b0. split_and!; try done; unfold located;
      (destruct (changed mv) eqn:Hc;
        [by rewrite (find_move_in _ _ cm_NoDup) by (by apply elem_of_cm)|]);
      (destruct (find_move cm (pm_nodeID mv)) as [mv'|] eqn:Hf;
        [apply find_move_Some in Hf as [[Hc' Hmv']%elem_of_cm Hid];
         pose proof (NoDup_fmap_inj _ _ _ _ mvs_NoDup Hmv' Hmv Hid); congruence|]);
      rewrite (pl_changed _ _ _ _ _ _ _ Hp) in Hc;
      apply orb_false_iff in Hc as [Hc1%negb_false_iff%Z.eqb_eq Hc2%negb_false_iff%String.eqb_eq];
      pose proof (pl_old _ _ _ _ _ _ _ Hp) as Hold; cbn in *; congruence.
  - rewrite (final_other d sds mvs (pf_moves _ _ _ _ Hpl) _ Hi) in Hb.
    apply lookup_topology in Hb as (r & Hr & Ht & ->). exists r. unfold located.
    rewrite (proj2 (find_move_None _ _)); [done|]. intros (mv & -> & [_ Hmv]%elem_of_cm)%list_elem_of_fmap.
    apply not_elem_of_list_to_map in Hi. apply Hi.
    rewrite <- (planned_ids d sds mvs) by apply Hpl. by apply list_elem_of_fmap_2.
Qed.

(** ** The rows a batch leaves *)

Definition final_row (i : Z) (r : node_row) : node_row :=
  match find_move cm i with
  | Some mv => set_location (newParentID mv) (newName mv) now r
  | None => if decide (i ∈ parent_set mvs) then bump now r else r
  end.
Notation d' := (with_nodes d (edit_rows final_row (nodes d))).

Lemma moved_iff i : i ∈ moved_set mvs ↔ i ∈ pm_nodeID <$> cm.
Proof. unfold moved_set. apply elem_of_list_to_set. Qed.

Lemma bumped_located i r :
  (if decide (i ∈ sortedBatchMoveIDs (parent_set mvs) ∧ i ∉ moved_set mvs)
   then bump now (located now cm i r) else located now cm i r) = final_row i r.
Proof.
  unfold located, final_row. destruct (find_move cm i) as [mv|] eqn:Hf.
  - rewrite decide_False; [done|]. intros [_ Hn]. apply Hn, moved_iff.
    apply find_move_Some in Hf as [? <-]. by apply list_elem_of_fmap_2.
  - apply find_move_None in Hf. rewrite <- moved_iff in Hf.
    apply decide_ext. rewrite elem_of_sorted_ids. tauto.
Qed.

(** Applying an accepted plan succeeds. *)
Lemma applyBatchMove_ok : applyBatchMove d plan = Ok d' ∧ tree_wf root d'.
Proof using Hwf Had Hpl.
  unfold applyBatchMove. rewrite (pf_moved _ _ _ _ Hpl), (pf_parents _ _ _ _ Hpl), (pf_time _ _ _ _ Hpl).
  pose proof (stage_locate root d Hwf now cm T' HT' cm_NoDup cm_changed cm_in T'_dom T'_live
    (sortedBatchMoveIDs (moved_set mvs))) as Hst.
  assert (∀ i, i ∈ sortedBatchMoveIDs (moved_set mvs) ↔ i ∈ pm_nodeID <$> cm) as Hids
    by (intros i; by rewrite elem_of_sorted_ids, moved_iff).
  specialize (Hst Hids). pose proof (located_wf root d Hwf now cm T' HT' cm_in T'_dom T'_live) as Hw1.
  destruct (foldM stage_move d _) as [ds|e]; [|discriminate]. cbn [mbind result_bind] in Hst |- *.
  rewrite apply_changed, Hst. cbn [mbind result_bind].
  destruct (bump_loop root now mvs _ _ Hw1 (NoDup_sorted_ids (parent_set mvs))) as [Hrun Hw].
  cbn [nodes with_nodes] in Hrun, Hw. rewrite edit_rows_edit in Hrun, Hw.
  rewrite (edit_rows_ext _ _ _ (λ i r _, bumped_located i r)) in Hrun, Hw.
  by split.
Qed.

Lemma lookup_final i : nodes d' !! i = final_row i <$> nodes d !! i.
Proof. apply lookup_edit_rows. Qed.

Lemma final_row_place i r :
  parent_id (final_row i r) = parent_id (located now cm i r) ∧
  name (final_row i r) = name (located now cm i r).
Proof. unfold final_row, located. destruct (find_move cm i); [done|]. by case_decide. Qed.

Lemma final_row_moved mv r :
  mv ∈ cm → final_row (pm_nodeID mv) r = set_location (newParentID mv) (newName mv) now r.
Proof using Had Hpl. intros Hmv. unfold final_row. by rewrite (find_move_in _ _ cm_NoDup Hmv). Qed.

(** A changed move changes its row's place. *)
Lemma cm_moves mv : mv ∈ cm → ∃ r, nodes d !! pm_nodeID mv = Some r ∧
  parent_id r = Some (oldParentID mv) ∧
  (parent_id r, name r) ≠ (Some (newParentID mv), newName mv).
Proof using Hpl.
  intros [Hc Hmv]%elem_of_cm. destruct (mv_node _ Hmv) as (r & Hr & _ & Hp & Hch).
  exists r. split_and!; [done..|]. rewrite Hp. intros [= Ho Hn]. rewrite Hch, Ho, Hn in Hc.
  by rewrite Z.eqb_refl, String.eqb_refl in Hc.
Qed.

Lemma touched_iff i :
  touched (nodes d) (nodes d') i ↔ i ∈ moved_set mvs ∪ parent_set mvs.
Proof using Had Hpl.
  unfold touched, parent_set. rewrite !elem_of_union, moved_iff, !elem_of_list_to_set. split.
  - intros (j & r & r' & Hr & Hr' & Hne & Hi). rewrite lookup_final, Hr in Hr'. injection Hr' as <-.
    destruct (final_row_place j r) as [Hp Hn]. unfold located in Hp, Hn.
    destruct (find_move cm j) as [mv|] eqn:Hf; [|exfalso; apply Hne; congruence].
    apply find_move_Some in Hf as [Hmv <-]. cbn in Hp, Hn.
    destruct (cm_moves _ Hmv) as (r0 & Hr0 & Hp0 & _). assert (r0 = r) as -> by congruence.
    destruct Hi as [->|[Hi|Hi]].
    + left. by apply list_elem_of_fmap_2.
    + right. left. apply list_elem_of_fmap. exists mv. split; [congruence|done].
    + right. right. apply list_elem_of_fmap. exists mv. split; [congruence|done].
  - intros Hi. assert (∃ mv, mv ∈ cm ∧ (i = pm_nodeID mv ∨ i = oldParentID mv ∨ i = newParentID mv))
      as (mv & Hmv & Hwhich).
    { rewrite !list_elem_of_fmap in Hi. naive_solver. }
    destruct (cm_moves _ Hmv) as (r & Hr & Hp & Hne).
    exists (pm_nodeID mv), r, (set_location (newParentID mv) (newName mv) now r).
    split_and!; [done| |done|].
    + rewrite lookup_final, Hr. simpl. by rewrite final_row_moved.
    + destruct Hwhich as [-> | [-> | ->]]; auto.
Qed.

Lemma final_paths i l segs :
  relocated T D i l segs → path_segs (nodes d') i = segs.
Proof using Hwf Had Hpl.
  intros Hr. destruct (final_relocated root d sds mvs Hwf Hnd Hsound (pf_moves _ _ _ _ Hpl)
    _ _ _ _ (le_n _) Hr) as [l' Hl'].
  eapply relocated_path_segs; [|exact Hl']. intros j b Hb.
  destruct (T'_live _ _ Hb) as (r & Hr' & _ & _ & Hp & Hn). exists (final_row j r).
  rewrite lookup_final, Hr'. destruct (final_row_place j r) as [-> ->]. done.
Qed.

Lemma final_pathOf i l segs : relocated T D i l segs → pathOf d' i = path_string segs.
Proof using Hwf Had Hpl.
  intros Hr. destruct applyBatchMove_ok as [_ Hw].
  rewrite (pathOf_segs root), (final_paths _ _ _ Hr); [done|done|].
  assert (is_Some (T !! i)) as [b Hb] by (eapply relocated_in; [done|]; destruct Hr; left).
  apply lookup_topology in Hb as (r & Hr' & _). rewrite lookup_final, Hr'. by eexists.
Qed.

Lemma prior_pathOf i r :
  nodes d !! i = Some r → trashed_at r = None → priorPaths plan !! i = Some (pathOf d i).
Proof using Hwf Hpl.
  intros Hr Ht. destruct (tw_tree _ _ (load_topo_wf root d Hwf) i) as (l & segs & Hrel).
  { exists (as_batch_node i r). apply lookup_topology. eauto. }
  rewrite (path_table_lookup _ _ _ _ _ _ (pf_prior _ _ _ _ Hpl) Hrel).
  rewrite (pathOf_segs root) by eauto. by rewrite (topology_path_segs _ _ _ _ Hrel).
Qed.

Lemma batchMoveResults_ok : ∃ results, batchMoveResults d' plan = Ok results ∧
  Forall2 (λ sd res, ∃ r', nodes d' !! sd.1 = Some r' ∧
    res = MkBatchMoveResult (scanNode d' sd.1 r') (pathOf d sd.1) (path_string sd.2)) sds results.
Proof using Hwf Had Hpl.
  unfold batchMoveResults.
  assert (∀ sds' ms, Forall2 (placed_move d sds) sds' ms → (∀ sd, sd ∈ sds' → sd ∈ sds) →
    ∃ results, mapR (λ mv, node ← nodeByIDTx d' (pm_nodeID mv);
      Ok (MkBatchMoveResult node (default "" (priorPaths plan !! pm_nodeID mv))
            (pathOf d' (pm_nodeID mv)))) ms = Ok results ∧
    Forall2 (λ sd res, ∃ r', nodes d' !! sd.1 = Some r' ∧
      res = MkBatchMoveResult (scanNode d' sd.1 r') (pathOf d sd.1) (path_string sd.2)) sds' results)
    as Hgen.
  { induction 1 as [|sd mv sds' ms (b & l & init & Hp) _ IH]; intros Hin; [by exists []|].
    destruct (pl_aims _ _ _ _ _ _ _ Hp) as [Hid _].
    pose proof (pl_node _ _ _ _ _ _ _ Hp) as HTb.
    pose proof HTb as (r & Hr & Ht & _)%lookup_topology.
    destruct IH as (results & Hres & Hall); [intros; apply Hin; by right|].
    assert (nodeByIDTx d' sd.1 = Ok (scanNode d' sd.1 (final_row sd.1 r))) as Hnode
      by (unfold nodeByIDTx; by rewrite lookup_final, Hr).
    cbn [mapR]. rewrite Hid, Hnode. cbn -[mapR scanNode pathOf]. rewrite Hres. eexists. split; [done|]. constructor; [|done].
    exists (final_row sd.1 r). rewrite lookup_final, Hr. split; [done|].
    rewrite (prior_pathOf _ _ Hr Ht). f_equal. symmetry. eapply eq_sym, final_pathOf.
    eapply reloc_dest; [done|]. apply (dest_iff sds Hnd). destruct sd. apply Hin. by left. }
  apply Hgen; [apply Hpl|done].
Qed.

Lemma final_row_keep i r :
  kind (final_row i r) = kind r ∧ current_version_id (final_row i r) = current_version_id r ∧
  created_at (final_row i r) = created_at r ∧ trashed_at (final_row i r) = trashed_at r ∧
  trash_parent (final_row i r) = trash_parent r ∧ trash_name (final_row i r) = trash_name r.
Proof. unfold final_row. destruct (find_move cm i); [done|]. by case_decide. Qed.

Lemma final_effect results :
  Forall2 (λ sd res, ∃ r', nodes d' !! sd.1 = Some r' ∧
    res = MkBatchMoveResult (scanNode d' sd.1 r') (pathOf d sd.1) (path_string sd.2)) sds results →
  batch_effect d d' now sds results.
Proof using Hwf Had Hpl.
  intros Hres. split; [done|..|exact Hres].
  - intros i. rewrite lookup_final. by rewrite fmap_is_Some.
  - intros i r r' Hr. rewrite lookup_final, Hr. intros [= <-]. apply final_row_keep.
  - intros i r r' Hr. rewrite lookup_final, Hr, touched_iff. intros [= <-] Hin. unfold final_row.
    destruct (find_move cm i) as [mv|] eqn:Hf; [done|]. rewrite decide_True; [done|].
    apply find_move_None in Hf. rewrite <- moved_iff in Hf. set_solver.
  - intros i r Hr. rewrite lookup_final, Hr, touched_iff. intros Hni. unfold final_row.
    apply not_elem_of_union in Hni as [Hm Hp]. rewrite moved_iff in Hm.
    rewrite (proj2 (find_move_None _ _) Hm). simpl. by rewrite decide_False.
  - intros i r Hr Ht. destruct (tw_tree _ _ (load_topo_wf root d Hwf) i) as (l0 & s0 & Hr0).
    { exists (as_batch_node i r). apply lookup_topology. eauto. }
    destruct (relocated_total _ D _ _ _ Hr0) as (l & segs & Hrel). exists l, segs.
    split; [done|]. by eapply final_pathOf.
Qed.

(** The transaction of an accepted plan in a vault without audit. *)
Lemma BatchMoveTx_accepted `{AuditedBatch} :
  planBatchMove root d reqs now = Ok plan → audit_active d = false →
  ∃ results, BatchMoveTx root reqs now d = Ok (d', results) ∧ tree_wf root d' ∧
    batch_effect d d' now sds results.
Proof using Hwf Had Hpl.
  intros Hplan Haud. destruct applyBatchMove_ok as [Happly Hw].
  destruct batchMoveResults_ok as (results & Hres & Hall).
  exists results. split_and!; [|done|by apply final_effect].
  unfold BatchMoveTx. rewrite Hplan. cbn [mbind result_bind].
  destruct (movedIDs plan) as [|i ids] eqn:Hids.
  - assert (d' = d) as Hd.
    { assert (cm = []) as Hcm.
      { destruct cm as [|mv ms] eqn:Hcm; [done|]. exfalso.
        rewrite (pf_moved _ _ _ _ Hpl) in Hids. assert (pm_nodeID mv ∈ ([] : list Z)) as Hin; [|by apply elem_of_nil in Hin].
        rewrite <- Hids, elem_of_sorted_ids, moved_iff, Hcm, fmap_cons. left. }
      rewrite edit_rows_id; [by destruct d|]. intros j r _. unfold final_row, parent_set.
      rewrite Hcm. cbn. rewrite decide_False; [done|]. set_solver. }
    rewrite Hd in Hres |- *. by rewrite Hres.
  - rewrite Haud, Happly. cbn [mbind result_bind]. by rewrite Hres.
Qed.
End outcome.

(** * Properties of batch moves *)

Section properties.
Context `{Normalizer} `{MapRange} `{AuditedBatch} (root : Z).

(** C4: [BatchMove] implements the simultaneous relocation of its sources.  Of
    one to a thousand requests it accepts exactly those that name distinct live
    nodes other than the root, whose destinations have a directory to stand in
    once everything is in its final place, and that put no two nodes at one
    path; it then leaves a well-formed tree in which every live node stands at
    its relocated path, only the rows moved and the directories they left or
    entered have advanced, by one revision each, and the receipts give the old
    and new paths.  The order of the requests, the order in which maps are
    visited, and names exchanged or handed on within the batch do not matter.
    Anything else is refused and changes nothing. *)
Theorem BatchMove_refines d requests now :
  tree_wf root d → audit_active d = false →
  match BatchMove root requests now d with
  | (d', Ok results) => ∃ sds, admissible root d requests sds ∧ tree_wf root d' ∧
      batch_effect d d' now sds results ∧ (1 ≤ length requests ≤ MaxBatchMoves)%nat
  | (d', Err _) => d' = d ∧ ((1 ≤ length requests ≤ MaxBatchMoves)%nat →
      ∀ sds, ¬ admissible root d requests sds)
  end.
Proof.
  intros Hwf Haud. unfold BatchMove.
  destruct (_ || _) eqn:Hlen.
  { split; [done|]. intros Hl. apply orb_true_iff in Hlen as [Hl0|Hl0];
      [apply Nat.eqb_eq in Hl0|apply Nat.ltb_lt in Hl0]; lia. }
  apply orb_false_iff in Hlen as [Hl0%Nat.eqb_neq Hl1%Nat.ltb_ge].
  pose proof (planBatchMove_spec root d Hwf requests now) as Hplan.
  unfold withStorageTx. destruct (planBatchMove root d requests now) as [plan|e] eqn:Hp.
  - destruct Hplan as (sds & Had & Hpf).
    destruct (BatchMoveTx_accepted root d now requests sds plan Hwf Had Hpf Hp Haud)
      as (results & Hrun & Hw & Heff). rewrite Hrun. exists sds. split_and!; try done. lia.
  - unfold BatchMoveTx. rewrite Hp. by split.
Qed.

End properties.

(** ** At work *)

#[export] Instance listed_range : MapRange := {|
  range := λ A m, map_to_list m;
  range_entries := λ A m, reflexivity (map_to_list m);
|}.

(** /a and /c exchange their names in one batch. *)
Definition swap : list BatchMoveRequest :=
  [MkBatchMoveRequest "/a" 0 0 "/c"; MkBatchMoveRequest "" 4 1 "/a"].

Definition swapped : db * res (list BatchMoveResult) :=
  @BatchMove ascii_normalizer listed_range refusing_batch_audit 1 swap "t9" sample_vault.

Lemma sample_vault_unaudited : audit_active sample_vault = false.
Proof. vm_compute. reflexivity. Qed.

Lemma swap_result :
  match swapped with
  | (d', Ok [a; c]) =>
      String.eqb (res_Path a) "/c" && String.eqb (FromPath c) "/c"
      && String.eqb (pathOf d' 3) "/c/b"
  | _ => false
  end = true.
Proof. vm_compute. reflexivity. Qed.

Lemma BatchMove_refines_witness :
  ∃ d' results sds, swapped = (d', Ok results) ∧ pathOf d' 3 = "/c/b" ∧
    @admissible ascii_normalizer 1 sample_vault swap sds ∧ @tree_wf ascii_normalizer 1 d'.
Proof.
  pose proof swap_result as Hs.
  pose proof (@BatchMove_refines ascii_normalizer listed_range refusing_batch_audit 1 sample_vault
    swap "t9" sample_vault_wf sample_vault_unaudited) as Hb.
  unfold swapped in *.
  destruct (@BatchMove ascii_normalizer listed_range refusing_batch_audit 1 swap "t9" sample_vault)
    as [d' [results|e]] eqn:Heq; [|discriminate Hs].
  destruct Hb as (sds & Had & Hw & _ & _).
  destruct results as [|a [|c [|x l]]]; [discriminate Hs..| |discriminate Hs].
  exists d', [a; c], sds. apply andb_true_iff in Hs as [_ Hs].
  exact (conj eq_refl (conj (proj1 (String.eqb_eq _ _) Hs) (conj Had Hw))).
Defined.
