(* ===== verification/TrashProps.v ===== *)
(** * Properties of trashing, restoring and emptying the trash *)
From S2P Require Import Prelude GoText Names Tables Tree TreeInv TreeFacts Trash TrashFacts StoreMachine StoreProps.

Section properties.
Context `{Normalizer} (root : Z).
Notation tree_wf := (tree_wf root).

(** The probe for a free name always ends, with the first member of the
    name's suffix family (the name itself, then ordinals 2, 3, ...) that no
    live sibling has. *)
Theorem nextFreeNameTx_smallest d p nm :
  ∃ m, (1 ≤ m)%Z ∧
    nextFreeNameTx d p nm = Ok (suffixedName (splitSuffix nm).1 (splitSuffix nm).2 m) ∧
    ¬ taken (nodes d) p (suffixedName (splitSuffix nm).1 (splitSuffix nm).2 m) ∧
    ∀ k, (1 ≤ k < m)%Z →
      taken (nodes d) p (suffixedName (splitSuffix nm).1 (splitSuffix nm).2 k).
Proof.
  destruct (nextFreeNameTx_total d p nm) as [free Hf]. pose proof Hf as Hf'.
  apply nextFreeNameTx_Ok in Hf as (Hfree & m & Hm & -> & Hk). eauto.
Qed.

(** The rows a trashing leaves. *)
Lemma trashed_lookup d i p r now j :
  tree_wf d → nodes d !! i = Some r → trashed_at r = None → parent_id r = Some p →
  set_where (is_id p) (bump now) (map_imap (λ j s, Some
    (trashed_row root i p (subtree is_live (nodes d) i) now j s)) (nodes d)) !! j =
  (λ s, if decide (j = p) then bump now s
        else trashed_row root i p (subtree is_live (nodes d) i) now j s) <$> nodes d !! j.
Proof.
  intros Hwf Hr Ht Hp. rewrite lookup_set_id, map_lookup_imap.
  destruct (nodes d !! j) as [s|] eqn:Hj; [|done]. simpl. f_equal. case_decide as Hjp; [|done].
  f_equal. subst j. unfold trashed_row.
  assert (p ∉ subtree is_live (nodes d) i) as Hpn.
  { rewrite (in_ids_seg root d i p r now Hwf Hr Ht Hp). intros [k Hk].
    destruct (wf_anc _ _ Hwf i) as [l Hl]; [eauto|].
    pose proof (seg_anc _ _ _ _ _ Hk Hl) as Ha.
    pose proof (anc_fun _ _ _ _ Hl (anc_step _ _ _ _ _ Hr Hp Ha)) as Heq.
    apply (f_equal length) in Heq. simpl in Heq. rewrite length_app in Heq. lia. }
  rewrite !decide_False; [done|done|]. intros ->. apply Hpn.
  by apply (in_ids_id root d i i r now Hwf Hr Ht Hp).
Qed.

(** Trashing a live node cannot fail and changes exactly the node, the
    nodes below it and its parent: the whole live subtree gets one stamp and
    one more revision, the top node also its origin, the old parent one more
    revision, and every other row stays as it was. *)
Theorem trashNodeTx_effect d i p r now :
  tree_wf d → nodes d !! i = Some r → trashed_at r = None → parent_id r = Some p →
  ∃ d', trashNodeTx root d (scanNode d i r) now = Ok d' ∧
    ∀ j s, nodes d !! j = Some s → ∃ s', nodes d' !! j = Some s' ∧
      ((∃ k, seg (nodes d) i j k) →
         trashed_at s' = Some now ∧ revision s' = (revision s + 1)%Z) ∧
      (j = i → parent_id s' = Some root ∧ trash_parent s' = Some p ∧
               trash_name s' = Some (name s)) ∧
      ((¬ ∃ k, seg (nodes d) i j k) → s' = if decide (j = p) then bump now s else s).
Proof.
  intros Hwf Hr Ht Hp.
  destruct (trashNodeTx_ok root d i p r now Hwf Hr Ht Hp _ eq_refl) as (d' & Htr & Hw & ->).
  eexists. split; [exact Htr|]. intros j s Hj.
  assert (∀ x, x ∈ subtree is_live (nodes d) i ↔ ∃ k, seg (nodes d) i x k) as Hids
    by exact (in_ids_seg root d i p r now Hwf Hr Ht Hp).
  cbn [nodes with_nodes]. rewrite (trashed_lookup d i p r now j Hwf Hr Ht Hp), Hj. simpl.
  eexists. split; [done|].
  assert (¬ ∃ k, seg (nodes d) i p k) as Hpn.
  { intros [k Hk]. destruct (wf_anc _ _ Hwf i) as [l Hl]; [eauto|].
    pose proof (seg_anc _ _ _ _ _ Hk Hl) as Ha.
    pose proof (anc_fun _ _ _ _ Hl (anc_step _ _ _ _ _ Hr Hp Ha)) as Heq.
    apply (f_equal length) in Heq. simpl in Heq. rewrite length_app in Heq. lia. }
  assert (i ≠ p) as Hip by (intros ->; apply Hpn; eexists; constructor).
  unfold trashed_row. split_and!.
  - intros Hs. rewrite decide_False by (by intros ->). case_decide; [done|].
    by rewrite decide_True by (by apply Hids).
  - intros ->. rewrite decide_False, decide_True by done. done.
  - intros Hs. case_decide; [done|]. rewrite decide_False.
    + by rewrite decide_False by (by rewrite Hids).
    + intros ->. apply Hs. eexists. constructor.
Qed.

Context (A : AuditedTree) `{RenditionTables}.

Lemma Restore_run d i r target rev now d' n :
  tree_wf d → audit_active d = false → nodes d !! i = Some r → trashed_at r ≠ None →
  stale rev (revision r) = false → restoreTargetTx root d (scanNode d i r) = Ok target →
  restoreNodeTx d (scanNode d i r) target now = Ok (d', n) → ID n = i →
  Restore root i rev now d = (d', Ok (n, pathOf d' i)).
Proof.
  intros Hwf Hact Hr Ht Hst Htarget Hres Hid. unfold Restore, withStorageTx.
  rewrite nodeByIDTx_cases, Hr. cbn. rewrite Hact, bool_decide_eq_true_2 by done.
  cbn. rewrite Hst. cbn. rewrite Htarget. cbn. rewrite Hres. cbn. by rewrite Hid.
Qed.

(** C24: restoring a trash root at its current revision always succeeds in an
    unaudited vault: the free name exists, neither statement can violate the
    sibling index (an error there would be reported as an internal failure),
    and the node returned is live at the path returned. *)
Theorem Restore_succeeds d i r nm rev now :
  tree_wf d → audit_active d = false → nodes d !! i = Some r → trash_name r = Some nm →
  stale rev (revision r) = false →
  ∃ d' n, Restore root i rev now d = (d', Ok (n, pathOf d' i)) ∧ ID n = i ∧
    TrashedAt n = None ∧ tree_wf d' ∧ nodeByPath root d' (pathOf d' i) = Ok n.
Proof.
  intros Hwf Hact Hr Hn Hst.
  destruct (restore_branch_ok root d i r nm now Hwf Hr Hn)
    as (target & d' & n & Htarget & Hres & Hw & Hid).
  exists d', n. assert (trashed_at r ≠ None) as Htr.
  { intros Ht. pose proof (wf_live _ _ Hwf i r Hr Ht). congruence. }
  pose proof (Restore_run d i r target rev now d' n Hwf Hact Hr Htr Hst Htarget Hres Hid) as HR.
  assert (∃ r', nodes d' !! i = Some r' ∧ n = scanNode d' i r' ∧ trashed_at r' = None)
    as (r' & Hr' & -> & Ht').
  { unfold restoreNodeTx in Hres. cbn [ID scanNode] in Hres.
    apply bind_Ok_iff in Hres as (d1 & H1 & Hres).
    apply bind_Ok_iff in Hres as (st & _ & Hres). apply bind_Ok_iff in Hres as (d2 & H2 & Hres).
    apply bind_Ok_iff in Hres as (d3 & H3 & Hres). apply bind_Ok_iff in Hres as (n' & Hn' & Hres).
    apply Ok_inj in Hres as [= <- <-]. apply nodeByIDTx_Ok_iff in Hn' as (r' & Hr' & ->).
    exists r'. split_and!; try done.
    apply exec_Ok in H1 as ->, H2 as ->. unfold bumpRevisionTx in H3. apply exec_Ok in H3 as ->.
    cbn [nodes with_nodes] in Hr'. rewrite lookup_set_id, lookup_set_where, lookup_set_id, Hr in Hr'.
    cbn in Hr'. rewrite !(decide_True (P := i = i)) in Hr' by done. apply Some_inj in Hr' as <-.
    by repeat case_match. }
  split_and!; try done. by apply nodeByPath_pathOf.
Qed.

(** A row after a trashing and a restoration that touched it: two revisions
    on, modified by the second, and, for the restored node, without origin. *)
Definition touched_twice (i : Z) (now : string) (j : Z) (s : node_row) : node_row :=
  MkNodeRow (parent_id s) (name s) (kind s) (current_version_id s) (revision s + 2)
    (created_at s) now (trashed_at s) (if decide (j = i) then None else trash_parent s)
    (trash_name s).

Lemma touched_twice_shape i now j s : same_shape s (touched_twice i now j s).
Proof. unfold same_shape. simpl. split_and!; try done; lia. Qed.

(** Everything the round trip needs about its two halves. *)
Section roundtrip.
Context (d : db) (i p : Z) (r pr : node_row) (now1 now2 : string).
Context (Hwf : tree_wf d) (Hact : audit_active d = false).
Context (Hr : nodes d !! i = Some r) (Ht : trashed_at r = None) (Hp : parent_id r = Some p).
Context (Hpr : nodes d !! p = Some pr) (Hpk : kind pr = dir) (Hpt : trashed_at pr = None).

Let ids := subtree is_live (nodes d) i.
Let row1 (j : Z) (s : node_row) : node_row :=
  if decide (j = p) then bump now1 s else trashed_row root i p ids now1 j s.

Lemma rt_ids j : j ∈ ids ↔ ∃ k, seg (nodes d) i j k.
Proof using All. exact (in_ids_seg root d i p r now1 Hwf Hr Ht Hp j). Qed.

Lemma rt_parent_outside : p ≠ i ∧ p ∉ ids.
Proof using All.
  assert (p ∉ ids) as Hn.
  { rewrite rt_ids. intros [k Hk]. destruct (wf_anc _ _ Hwf i) as [l Hl]; [eauto|].
    pose proof (seg_anc _ _ _ _ _ Hk Hl) as Ha.
    pose proof (anc_fun _ _ _ _ Hl (anc_step _ _ _ _ _ Hr Hp Ha)) as Heq.
    apply (f_equal length) in Heq. simpl in Heq. rewrite length_app in Heq. lia. }
  split; [|done]. intros Heq. apply Hn. rewrite Heq. apply rt_ids. eexists. constructor.
Qed.

Lemma rt_trash :
  ∃ d1, trashNodeTx root d (scanNode d i r) now1 = Ok d1 ∧ tree_wf d1 ∧
    audit_active d1 = false ∧ d1 = with_nodes d (nodes d1) ∧
    ∀ j, nodes d1 !! j = row1 j <$> nodes d !! j.
Proof using All.
  destruct (trashNodeTx_ok root d i p r now1 Hwf Hr Ht Hp _ eq_refl) as (d1 & Htr & Hw & Hd1).
  exists d1. split_and!; [done|done|by subst|by rewrite Hd1|]. intros j. rewrite Hd1. cbn [nodes with_nodes].
  by rewrite (trashed_lookup d i p r now1 j Hwf Hr Ht Hp).
Qed.

Lemma rt_row1 j s :
  row1 j s =
  MkNodeRow (if decide (j = i) then Some root else parent_id s) (name s) (kind s)
    (current_version_id s)
    (revision s + (if decide (j = p ∨ j ∈ ids) then 1 else 0)) (created_at s)
    (if decide (j = p ∨ j ∈ ids) then now1 else modified_at s)
    (if decide (j ∈ ids) then Some now1 else trashed_at s)
    (if decide (j = i) then Some p else trash_parent s)
    (if decide (j = i) then Some (name s) else trash_name s).
Proof using All.
  destruct rt_parent_outside as [Hpi Hpn]. assert (i ∈ ids) as Hi
    by (apply rt_ids; eexists; constructor).
  unfold row1, trashed_row. destruct (decide (j = p)) as [->|Hjp].
  { rewrite !(decide_True (P := p = p ∨ p ∈ ids)) by auto. rewrite !(decide_False (P := p = i)) by done.
    by rewrite !(decide_False (P := p ∈ ids)) by done. }
  destruct (decide (j = i)) as [->|Hji].
  { by rewrite !(decide_True (P := i = p ∨ i ∈ ids)), !(decide_True (P := i ∈ ids)) by auto. }
  destruct (decide (j ∈ ids)) as [Hj|Hj].
  - by rewrite !(decide_True (P := j = p ∨ j ∈ ids)) by auto.
  - rewrite !(decide_False (P := j = p ∨ j ∈ ids)) by tauto. destruct s; simpl. f_equal. lia.
Qed.

Context (d1 : db) (Hw1 : tree_wf d1) (Hact1 : audit_active d1 = false).
Context (Hd1 : ∀ j, nodes d1 !! j = row1 j <$> nodes d !! j).

Lemma rt_name_free : ¬ taken (nodes d1) p (name r).
Proof using All.
  intros (j & s1 & Hj & Hjp & Hjn & Hjt). rewrite Hd1 in Hj.
  destruct (nodes d !! j) as [s|] eqn:Hs; [|done]. injection Hj as <-.
  rewrite rt_row1 in Hjp, Hjn, Hjt. simpl in Hjp, Hjn, Hjt. destruct (decide (j = i)) as [->|Hji].
  - rewrite decide_True in Hjt; [done|]. apply rt_ids. eexists. constructor.
  - destruct (decide (j ∈ ids)); [done|]. apply Hji.
    exact (wf_unique _ _ Hwf j i s r p Hs Hr Hjp Hp Hjn (wf_live _ _ Hwf j s Hs Hjt)
      (wf_live _ _ Hwf i r Hr Ht)).
Qed.

Lemma rt_restore :
  ∃ d2 n2, Restore root i UnconditionalRev now2 d1 = (d2, Ok (n2, pathOf d2 i)) ∧ tree_wf d2 ∧
    d2 = with_nodes d1 (nodes d2) ∧
    ∀ j, nodes d2 !! j =
      (λ s, if decide (j = p ∨ j ∈ ids) then touched_twice i now2 j s else s) <$> nodes d !! j.
Proof using All.
  destruct rt_parent_outside as [Hpi Hpn]. assert (i ∈ ids) as Hii
    by (apply rt_ids; eexists; constructor).
  set (r1 := row1 i r). assert (nodes d1 !! i = Some r1) as Hr1 by (by rewrite Hd1, Hr).
  assert (r1 = detach root p (name r) (mark_trashed now1 r)) as Hr1eq.
  { unfold r1, row1, trashed_row. by rewrite decide_False, decide_True by done. }
  assert (nodes d1 !! p = Some (bump now1 pr)) as Hp1.
  { rewrite Hd1, Hpr. simpl. unfold row1. by rewrite decide_True. }
  assert (trash_name r1 = Some (name r)) as Hn1 by (by rewrite Hr1eq).
  destruct (restoreTargetTx_ok root d1 i r1 (name r) Hw1 Hr1 Hn1)
    as (dest & pr' & free & Htarget & Hpr' & Hpt' & Hpk' & Hnext & Hcan & Hfree & _ & Horig).
  assert (dest = p) as -> by (eapply (Horig p (bump now1 pr)); [by rewrite Hr1eq|done..]).
  assert (free = name r) as ->.
  { apply nextFreeNameTx_Ok in Hnext as (_ & m & Hm & -> & Hk).
    destruct (splitSuffix (name r)) as [base ext] eqn:Hsp. cbn [fst snd] in *.
    assert (suffixedName base ext 1 = name r) as H1 by (by apply splitSuffix_app).
    destruct (decide (m = 1%Z)) as [->|]; [done|]. exfalso. apply rt_name_free.
    rewrite <- H1. apply Hk. lia. }
  destruct (wf_anc _ _ Hw1 p) as [lp Hlp]; [eauto|].
  assert (trashed_at r1 = Some now1) as Ht1 by (by rewrite Hr1eq).
  destruct (restoreNodeTx_ok root d1 i p r1 pr' now1 (name r) now2 lp Hw1 Hr1 Ht1 Hpr' Hpt' Hpk'
    Hlp Hcan Hfree (scanNode d1 i r1) (MkTarget p (trash_parent r1) (name r) (name r))
    eq_refl eq_refl eq_refl) as [Hres Hw2].
  set (d2 := with_nodes d1 _) in Hres, Hw2.
  eexists d2, _. split; [|split; [exact Hw2|split; [done|]]].
  - eapply Restore_run; [exact Hw1|exact Hact1|exact Hr1|by rewrite Ht1|done|exact Htarget
      |exact Hres|done].
  - intros j. unfold d2. cbn [nodes with_nodes]. rewrite lookup_set_id, map_lookup_imap, Hd1.
    destruct (nodes d !! j) as [s|] eqn:Hs; [|done]. simpl. f_equal.
    assert (j ∈ subtree (has_stamp now1)
              (set_where (is_id i) (reattach p (name r) now2) (nodes d1)) i ↔ j ∈ ids) as Hids.
    { rewrite (in_rids_seg root d1 i p r1 pr' now1 (name r) now2 lp Hw1 Hr1 Ht1 Hpr' Hpt' Hpk'
        Hlp Hcan Hfree), rt_ids.
      assert (∀ x t, nodes d !! x = Some t → x ≠ i →
        ∃ t', nodes d1 !! x = Some t' ∧ parent_id t' = parent_id t) as Hkeep.
      { intros x t Hx Hxi. exists (row1 x t). rewrite Hd1, Hx. split; [done|].
        rewrite rt_row1. simpl. by rewrite decide_False. }
      split; intros [k Hk]; exists k.
      - destruct (wf_anc _ _ Hw1 i) as [l Hl]; [eauto|].
        pose proof (seg_fresh _ _ _ _ _ Hk Hl) as Hfr. eapply seg_keep; [done|].
        intros x t1 Hx Ht1'. rewrite Hd1 in Ht1'. destruct (nodes d !! x) as [t|] eqn:Hxt; [|done].
        exists t. split; [done|]. injection Ht1' as <-.
        rewrite rt_row1. simpl. by rewrite decide_False by (by intros ->).
      - destruct (wf_anc _ _ Hwf i) as [l Hl]; [eauto|].
        pose proof (seg_fresh _ _ _ _ _ Hk Hl) as Hfr. eapply seg_keep; [done|].
        intros x t Hx Hxt. apply Hkeep; [done|]. by intros ->. }
    pose proof (in_ids_live root d i p r now1 Hwf Hr Ht Hp j s) as Hlive.
    pose proof (wf_live _ _ Hwf i r Hr Ht) as Hn.
    unfold restored_row. rewrite rt_row1, !(decide_ext _ _ _ _ Hids).
    destruct (decide (j = i)) as [->|Hji]; [assert (s = r) as -> by congruence|];
    repeat case_decide; subst; try tauto; unfold touched_twice, bump, reattach, mark_restored;
      simpl; try rewrite (decide_True (P := i = i)) by done;
      try rewrite (decide_False (P := p = i)) by done;
      try rewrite (decide_False (P := j = i)) by done.
    all: first [destruct s|destruct r]; simpl in *; f_equal; solve [congruence|lia|symmetry; auto].
Qed.
End roundtrip.

(** C3: trashing a live node other than the root and restoring it gives the
    vault back: every row outside the node's subtree and its parent is the row
    it was, the rows of the subtree and the parent are two revisions on and
    modified by the restoration, with the parent, name, kind, current version,
    creation time and trash state they had, and no other table changed. *)
Theorem Trash_Restore_roundtrip d i r now1 now2 :
  tree_wf d → audit_active d = false → nodes d !! i = Some r → trashed_at r = None → i ≠ root →
  ∃ d1 n1 d2 n2,
    Trash root i UnconditionalRev now1 d = (d1, Ok (n1, pathOf d i)) ∧
    Restore root i UnconditionalRev now2 d1 = (d2, Ok (n2, pathOf d i)) ∧
    d2 = with_nodes d (nodes d2) ∧
    ∀ j, nodes d2 !! j =
      (λ s, if decide (Some j = parent_id r ∨ j ∈ subtree is_live (nodes d) i)
            then touched_twice i now2 j s else s) <$> nodes d !! j.
Proof.
  intros Hwf Hact Hr Ht Hi. destruct (parent_id r) as [p|] eqn:Hp.
  2:{ destruct (Hi (wf_only_root _ _ Hwf i r Hr Hp)). }
  destruct (wf_parent _ _ Hwf i r p Hr Hp) as (pr & Hpr & Hpk).
  pose proof (wf_live_parent _ _ Hwf i r p pr Hr Ht Hp Hpr) as Hpt.
  destruct (rt_trash d i p r pr now1 now2 Hwf Hact Hr Ht Hp Hpr Hpk Hpt)
    as (d1 & Htr & Hw1 & Hact1 & Heq1 & Hd1).
  destruct (rt_restore d i p r pr now1 now2 Hwf Hact Hr Ht Hp Hpr Hpk Hpt d1 Hw1 Hact1 Hd1)
    as (d2 & n2 & HR & Hw2 & Heq2 & Hrows).
  assert (pathOf d2 i = pathOf d i) as Hpath.
  { apply (pathOf_shape root); [done|done|eauto|]. intros j. rewrite Hrows.
    destruct (nodes d !! j) as [s|]; [|constructor]. constructor.
    case_decide; [apply touched_twice_shape|]. unfold same_shape. split_and!; try done; lia. }
  eexists d1, _, d2, n2. split_and!; [|by rewrite <- Hpath| |].
  - unfold Trash, withStorageTx. rewrite (proj2 (Z.eqb_neq _ _)) by done.
    rewrite nodeByIDTx_cases, Hr. cbn. rewrite Hact, bool_decide_eq_true_2 by done. cbn.
    rewrite Htr. cbn. rewrite nodeByIDTx_cases, Hd1, Hr. cbn. reflexivity.
  - by rewrite Heq2, Heq1.
  - intros j. rewrite Hrows. destruct (nodes d !! j) as [s|]; [|done]. simpl. f_equal.
    apply decide_ext. split; (intros [?|?]; [left; congruence|by right]).
Qed.

(** emptying the trash deletes exactly the selected trash roots and what
    hangs below them, so no live node is ever lost; every surviving row keeps
    everything but an origin that was deleted, and the report counts the
    selected roots, at most [maxRoots] of them when it is positive. *)
Theorem trashEmpty_effect d cutoff maxRoots d' rep :
  tree_wf d → trashEmpty cutoff maxRoots true d = (d', Ok rep) →
  ∃ selected, (∀ i, i ∈ selected → i ∈ eligible_roots d cutoff) ∧
    Candidates rep = Z.of_nat (length selected) ∧ Deleted rep = Candidates rep ∧
    ((0 < maxRoots)%Z → (Candidates rep ≤ maxRoots)%Z) ∧
    (∀ j, nodes d' !! j = None ↔
       nodes d !! j = None ∨ ∃ i k, i ∈ selected ∧ seg (nodes d) i j k) ∧
    (∀ j s, nodes d !! j = Some s → trashed_at s = None →
       ∃ s', nodes d' !! j = Some s' ∧ same_shape s s' ∧ revision s' = revision s).
Proof.
  intros Hwf. unfold trashEmpty, withLogicalTx, withStorageTx.
  destruct (audit_active d); [done|]. unfold trashEmptyTx. cbn [negb].
  destruct (deleteRenditionAuthorityForVersionsTx _ _) as [[]|e]; [|done]. cbn.
  set (all := eligible_roots d cutoff).
  set (selected := if (0 <? maxRoots)%Z then take (Z.to_nat maxRoots) all else all).
  intros [= <- <-]. exists selected. cbn.
  assert (∀ i, i ∈ selected → i ∈ all) as Hsel.
  { unfold selected. destruct (0 <? maxRoots)%Z; [|done]. intros i Hi.
    apply elem_of_take in Hi as (k & Hk & _). by eapply list_elem_of_lookup_2. }
  assert (∀ i, i ∈ selected → ∃ r, nodes d !! i = Some r ∧ is_trash_root r = true) as Hrow.
  { intros i Hi. by apply (eligible_roots_spec d cutoff), Hsel. }
  set (gone := doomed (nodes d) selected).
  assert (∀ j, j ∈ gone ↔ ∃ i k, i ∈ selected ∧ seg (nodes d) i j k) as Hgone.
  { intros j. unfold gone. apply (elem_of_doomed root); [done|].
    intros i Hi. destruct (Hrow i Hi) as (r & ? & _). eauto. }
  split_and!; [done|done|done| | |].
  - intros Hm. unfold selected. rewrite (proj2 (Z.ltb_lt _ _)) by done.
    rewrite length_take. lia.
  - intros j. rewrite lookup_fmap, fmap_None, map_lookup_filter_None. rewrite <- Hgone. split.
    + intros [Hn|Hn]; [by left|]. destruct (nodes d !! j) as [s|] eqn:Hj; [|by left].
      right. specialize (Hn s eq_refl). cbn in Hn. by apply dec_stable in Hn.
    + intros [Hn|Hn]; [by left|]. right. intros s _ Hs. by apply Hs.
  - intros j s Hj Ht. exists (forget_origin gone s). split; [|repeat split; simpl; auto; lia].
    rewrite lookup_fmap.
    assert (filter (λ ir : Z * node_row, ir.1 ∉ gone) (nodes d) !! j = Some s) as ->; [|done].
    apply map_lookup_filter_Some. split; [done|]. cbn. rewrite Hgone. intros (i & k & Hi & Hk).
    destruct (Hrow i Hi) as (r & Hr & Htr). apply bool_decide_eq_true in Htr.
    destruct (wf_anc _ _ Hwf i) as [l Hl]; [eauto|].
    destruct (anc_head _ _ _ Hl) as [t ->].
    assert (trashed_at r = None) as Hrt.
    { eapply (wf_anc_live root d j s _ i r Hwf Hj Ht (seg_anc _ _ _ _ _ Hk Hl)); [|done].
      apply elem_of_app. right. left. }
    pose proof (wf_live _ _ Hwf i r Hr Hrt). congruence.
Qed.

End properties.

(** ** Witnesses *)

Definition trashed_vault : db :=
  (@run ascii_normalizer refusing_audit no_renditions 1%Z "t5" (CTrash 2 UnconditionalRev) sample_vault).1.

Lemma trashed_vault_wf : @tree_wf ascii_normalizer 1 trashed_vault.
Proof.
  apply (@run_wf ascii_normalizer refusing_audit no_renditions 1 _ "t5"), sample_vault_wf.
Qed.

Lemma trashNodeTx_effect_witness :
  ∃ r d', nodes sample_vault !! 2%Z = Some r ∧
    trashNodeTx 1 sample_vault (scanNode sample_vault 2 r) "t5" = Ok d' ∧
    nodes d' !! 1%Z ≠ nodes sample_vault !! 1%Z.
Proof.
  destruct (nodes sample_vault !! 2%Z) as [r|] eqn:Hr; [|vm_compute in Hr; discriminate].
  destruct (@trashNodeTx_effect ascii_normalizer 1 sample_vault 2 1 r "t5") as (d' & Hd' & _);
    [apply sample_vault_wf|exact Hr|vm_compute in Hr; by injection Hr as <-
    |vm_compute in Hr; by injection Hr as <-|].
  exists r, d'. split_and!; [done|exact Hd'|]. vm_compute in Hr. injection Hr as <-.
  vm_compute in Hd'. injection Hd' as <-. vm_compute. discriminate.
Defined.

Lemma Restore_succeeds_witness :
  ∃ d' n, @Restore 1 refusing_audit 2 UnconditionalRev "t6" trashed_vault
            = (d', Ok (n, pathOf d' 2)) ∧ pathOf d' 2 = "/a".
Proof.
  destruct (nodes trashed_vault !! 2%Z) as [r|] eqn:Hr; [|vm_compute in Hr; discriminate].
  destruct (@Restore_succeeds ascii_normalizer 1 refusing_audit trashed_vault 2 r "a" UnconditionalRev "t6")
    as (d' & n & HR & _);
    [apply trashed_vault_wf|vm_compute; reflexivity|exact Hr
    |vm_compute in Hr; by injection Hr as <-|reflexivity|].
  exists d', n. split; [exact HR|]. vm_compute in HR. injection HR as <- _. vm_compute. reflexivity.
Defined.

Lemma Trash_Restore_roundtrip_witness :
  ∃ d1 n1 d2 n2,
    @Trash 1 refusing_audit 2 UnconditionalRev "t5" sample_vault = (d1, Ok (n1, "/a")) ∧
    @Restore 1 refusing_audit 2 UnconditionalRev "t6" d1 = (d2, Ok (n2, "/a")).
Proof.
  destruct (nodes sample_vault !! 2%Z) as [r|] eqn:Hr; [|vm_compute in Hr; discriminate].
  destruct (@Trash_Restore_roundtrip ascii_normalizer 1 refusing_audit no_renditions sample_vault
    2 r "t5" "t6") as (d1 & n1 & d2 & n2 & HT & HR & _);
    [apply sample_vault_wf|vm_compute; reflexivity|exact Hr
    |vm_compute in Hr; by injection Hr as <-|done|].
  exists d1, n1, d2, n2. split; [|exact HR]. exact HT.
Defined.

Lemma trashEmpty_effect_witness :
  ∃ d' rep, trashEmpty None 0 true trashed_vault = (d', Ok rep) ∧ Candidates rep = 1%Z ∧
    Deleted rep = Candidates rep ∧ nodes d' !! 3%Z = None.
Proof.
  destruct (trashEmpty None 0 true trashed_vault) as [d' [rep|e]] eqn:Ht;
    [|vm_compute in Ht; discriminate].
  exists d', rep. split; [done|].
  destruct (@trashEmpty_effect ascii_normalizer 1 _ trashed_vault None 0 d' rep
    trashed_vault_wf Ht) as (sel & _ & _ & Hdel & _).
  vm_compute in Ht. injection Ht as <- <-. split; [reflexivity|]. split; [exact Hdel|].
  vm_compute. reflexivity.
Defined.
