(* ===== verification/Identity.v ===== *)
(** * Version-4 UUIDs (internal/store/identity.go) *)
From S2P Require Import Prelude GoText Names AuditEncoding.

Definition hex_char (n : N) : ascii :=
  ascii_of_N (if (n <? 10)%N then 0x30 + n else 0x61 + (n - 10))%N.

(** [hex.Encode] *)
Fixpoint hex_encode (b : bytes) : bytes :=
  match b with
  | [] => []
  | a :: b => hex_char (N_of_ascii a / 16) :: hex_char (N_of_ascii a mod 16) :: hex_encode b
  end.

Definition set_byte (i : nat) (f : N → N) (b : bytes) : bytes :=
  alter (λ a, ascii_of_N (f (N_of_ascii a))) i b.

(** [newUUIDv4], on the sixteen bytes [rand.Read] produced. *)
Definition newUUIDv4 (random : bytes) : string :=
  let raw := set_byte 6 (λ n, N.lor (N.land n 0x0f) 0x40) random in
  let raw := set_byte 8 (λ n, N.lor (N.land n 0x3f) 0x80) raw in
  let part (i j : nat) := hex_encode (take (j - i) (drop i raw)) in
  String.string_of_list_ascii
    (part 0 4 ++ ["-"%char] ++ part 4 6 ++ ["-"%char] ++ part 6 8 ++ ["-"%char]
     ++ part 8 10 ++ ["-"%char] ++ part 10 16).

(** [hex.Decode] accepts both cases; [None] is an error. *)
Definition hex_value (a : ascii) : option N :=
  let c := N_of_ascii a in
  (if (0x30 <=? c) && (c <=? 0x39) then Some (c - 0x30)
   else if (0x61 <=? c) && (c <=? 0x66) then Some (c - 0x61 + 10)
   else if (0x41 <=? c) && (c <=? 0x46) then Some (c - 0x41 + 10)
   else None)%N.

Fixpoint hex_decode_any (s : bytes) : option bytes :=
  match s with
  | [] => Some []
  | [_] => None
  | a :: b :: s =>
      x ← hex_value a; y ← hex_value b; rest ← hex_decode_any s;
      Some (ascii_of_N (16 * x + y) :: rest)
  end.

(** The error carries no sentinel. *)
Definition validateUUIDv4 (value : string) : res unit :=
  let s := bs value in
  _ ← check ((length s =? 36)%nat
             && bool_decide (s !! 8 = Some "-"%char) && bool_decide (s !! 13 = Some "-"%char)
             && bool_decide (s !! 18 = Some "-"%char) && bool_decide (s !! 23 = Some "-"%char))
            ErrOther;
  let cut (i j : nat) := take (j - i) (drop i s) in
  let compact := cut 0 8 ++ cut 9 13 ++ cut 14 18 ++ cut 19 23 ++ cut 24 36 in
  raw ← from_lookup (hex_decode_any compact) ErrOther;
  _ ← check ((length raw =? 16)%nat && bool_decide (hex_encode raw = compact)) ErrOther;
  check ((nibble raw 6 4 =? 4) && (nibble raw 8 6 =? 2))%N ErrOther.

(** ** Facts *)

Lemma hex_value_char n : (n < 16)%N → hex_value (hex_char n) = Some n.
Proof.
  intros Hn. assert (n = 0 ∨ n = 1 ∨ n = 2 ∨ n = 3 ∨ n = 4 ∨ n = 5 ∨ n = 6 ∨ n = 7 ∨ n = 8
    ∨ n = 9 ∨ n = 10 ∨ n = 11 ∨ n = 12 ∨ n = 13 ∨ n = 14 ∨ n = 15)%N as Hc by lia.
  repeat destruct Hc as [->|Hc]; try reflexivity. by subst.
Qed.

Lemma hex_roundtrip b : hex_decode_any (hex_encode b) = Some b.
Proof.
  induction b as [|a b IH]; [done|]. simpl.
  pose proof (N_ascii_bounded a).
  rewrite !hex_value_char, IH by
    (first [apply N.mod_lt; done | apply N.div_lt_upper_bound; lia]). simpl.
  rewrite <- (N.div_mod (N_of_ascii a) 16) by done. by rewrite ascii_N_embedding.
Qed.

Lemma length_hex_encode b : length (hex_encode b) = (2 * length b)%nat.
Proof. induction b as [|a b IH]; simpl; lia. Qed.

Lemma hex_encode_app b c : hex_encode (b ++ c) = hex_encode b ++ hex_encode c.
Proof. induction b as [|a b IH]; [done|]. simpl. by rewrite IH. Qed.

Lemma list_16 (b : bytes) : length b = 16%nat → ∃ b0 b1 b2 b3 b4 b5 b6 b7 b8 b9 b10 b11 b12 b13 b14 b15,
  b = [b0; b1; b2; b3; b4; b5; b6; b7; b8; b9; b10; b11; b12; b13; b14; b15].
Proof.
  intros Hb. do 16 (destruct b as [|? b]; [done|]). destruct b; [|done]. repeat eexists.
Qed.

Lemma bs_of_list l : bs (String.string_of_list_ascii l) = l.
Proof. apply String.list_ascii_of_string_of_list_ascii. Qed.

(** The two bit patterns of a version-4 identity, for every byte. *)
Lemma version_nibble a :
  (N.shiftr (N_of_ascii (ascii_of_N (N.lor (N.land (N_of_ascii a) 0x0f) 0x40))) 4 =? 4)%N = true.
Proof. destruct a as [[] [] [] [] [] [] [] []]; reflexivity. Qed.

Lemma variant_nibble a :
  (N.shiftr (N_of_ascii (ascii_of_N (N.lor (N.land (N_of_ascii a) 0x3f) 0x80))) 6 =? 2)%N = true.
Proof. destruct a as [[] [] [] [] [] [] [] []]; reflexivity. Qed.

Lemma validate_hex_groups (raw : bytes) (g : string) :
  length raw = 16%nat →
  (nibble raw 6 4 =? 4)%N = true → (nibble raw 8 6 =? 2)%N = true →
  bs g = hex_encode (take 4 raw) ++ ["-"%char] ++ hex_encode (take 2 (drop 4 raw))
    ++ ["-"%char] ++ hex_encode (take 2 (drop 6 raw)) ++ ["-"%char]
    ++ hex_encode (take 2 (drop 8 raw)) ++ ["-"%char] ++ hex_encode (take 6 (drop 10 raw)) →
  validateUUIDv4 g = Ok tt.
Proof.
  intros Hl Hv Hr Hg. unfold validateUUIDv4. rewrite Hg.
  destruct (list_16 raw Hl) as (b0 & b1 & b2 & b3 & b4 & b5 & b6 & b7 & b8 & b9 & b10 & b11 & b12
    & b13 & b14 & b15 & ->).
  cbn [take drop hex_encode app length Nat.sub Nat.eqb]. rewrite !bool_decide_eq_true_2 by done.
  cbn [andb check mbind result_bind].
  match goal with |- context [hex_decode_any ?c] =>
    change c with (hex_encode [b0; b1; b2; b3; b4; b5; b6; b7; b8; b9; b10; b11; b12; b13; b14; b15])
  end.
  rewrite hex_roundtrip. cbn [from_lookup mbind result_bind].
  rewrite bool_decide_eq_true_2 by done. rewrite Hv, Hr. done.
Qed.

(** Every identity [newUUIDv4] can produce, whatever bytes the random
    source returns, passes [validateUUIDv4]. *)
Theorem newUUIDv4_valid random :
  length random = 16%nat → validateUUIDv4 (newUUIDv4 random) = Ok tt.
Proof.
  intros Hl. destruct (list_16 random Hl) as (b0 & b1 & b2 & b3 & b4 & b5 & b6 & b7 & b8 & b9 & b10
    & b11 & b12 & b13 & b14 & b15 & ->).
  set (v := ascii_of_N (N.lor (N.land (N_of_ascii b6) 0x0f) 0x40)).
  set (w := ascii_of_N (N.lor (N.land (N_of_ascii b8) 0x3f) 0x80)).
  apply (validate_hex_groups [b0; b1; b2; b3; b4; b5; v; b7; w; b9; b10; b11; b12; b13; b14; b15]).
  - done.
  - apply version_nibble.
  - apply variant_nibble.
  - unfold newUUIDv4. by rewrite bs_of_list.
Qed.

Lemma newUUIDv4_valid_witness :
  newUUIDv4 (repeat "255"%char 16) = "ffffffff-ffff-4fff-bfff-ffffffffffff" ∧
  validateUUIDv4 (newUUIDv4 (repeat "255"%char 16)) = Ok tt.
Proof. split; [vm_compute; reflexivity|apply newUUIDv4_valid; reflexivity]. Defined.
