(* ===== verification/Tags.v ===== *)
(** * Tags (internal/store/tag.go)

    Tag definitions and their assignment to nodes.  An assignment change is
    visible in two optimistic revisions: the tag's and the node's. *)
From S2P Require Import Prelude GoText Names Tables Tree Trash Identity TreeInv TreeFacts TrashFacts StoreMachine StoreProps.

(** [Tag]: a definition with its current number of assignments. *)
Record Tag := MkTag {
  TagID : string;
  TagName : string;
  TagRevision : Z;
  AssignmentCount : Z;
}.

Record TagAssignmentChange := MkChange {
  ChangeNode : Node;
  ChangePath : string;
  ChangeTag : Tag;
  Changed : bool;
}.

Definition with_tags (d : db) (ts : gmap string tag_row) : db :=
  MkDb (nodes d) (node_seq d) (versions d) (checksums d) ts (node_tags d) (audit_active d).
Definition with_node_tags (d : db) (nts : gset (Z * string)) : db :=
  MkDb (nodes d) (node_seq d) (versions d) (checksums d) (tags d) nts (audit_active d).

(** [COUNT(nt.node_id)] of the left join on [tag_id]. *)
Definition assignment_count (d : db) (id : string) : Z :=
  Z.of_nat (size (filter (λ nt : Z * string, nt.2 = id) (node_tags d))).

Definition scanTag (d : db) (id : string) (t : tag_row) : Tag :=
  MkTag id (t_name t) (t_revision t) (assignment_count d id).

Definition tagByIDTx (d : db) (id : string) : res Tag :=
  if negb (is_Ok (validateUUIDv4 id)) then Err ErrNotFound
  else
    t ← from_lookup (tags d !! id) ErrNotFound;
    Ok (scanTag d id t).

Definition TagByID (d : db) (id : string) : res Tag := tagByIDTx d id.

Section tags.
Context `{Normalizer}.

Definition NormalizeTagName (nm : string) : res string :=
  _ ← check (ValidString nm) ErrInvalidTag;
  let nm := nfc nm in
  if String.eqb nm "" then Err ErrInvalidTag
  else if ContainsControl nm then Err ErrInvalidTag
  else Ok nm.

(** The rows of [tags] with a name; UNIQUE makes them at most one. *)
Definition tags_named (ts : gmap string tag_row) (nm : string) : list string :=
  fst <$> filter (λ it : string * tag_row, t_name it.2 = nm) (map_to_list ts).

Definition TagByName (d : db) (nm : string) : res Tag :=
  nm ← NormalizeTagName nm;
  id ← from_lookup (head (tags_named (tags d) nm)) ErrNotFound;
  t ← from_lookup (tags d !! id) ErrNotFound;
  Ok (scanTag d id t).

(** [INSERT INTO tags]: the primary key and the UNIQUE name. *)
Definition insert_tag (id nm : string) (ts : gmap string tag_row) : option (gmap string tag_row) :=
  if bool_decide (is_Some (ts !! id)) || negb (bool_decide (tags_named ts nm = [])) then None
  else Some (<[id := MkTagRow nm 1]> ts).

(** The audited tag mutations; see [AuditedTree]. *)
Class AuditedTags := {
  persistAuditedTagCreation : db → Tag → res db;
  renameAuditedTagTx : db → Tag → string → res (db * Tag);
  deleteAuditedTagTx : db → Tag → res (db * Tag);
  changeAuditedTagAssignmentTx : db → string → Node → Z → bool → res (db * TagAssignmentChange);
}.

Context `{AuditedTags} (rootID : Z).

(** [id] is the identity [newUUIDv4] returned. *)
Definition CreateTag (id nm : string) (d : db) : db * res Tag :=
  match NormalizeTagName nm with
  | Err e => (d, Err e)
  | Ok nm =>
      let created := MkTag id nm 1 0 in
      withStorageTx (λ d,
        ts ← from_lookup (insert_tag id nm (tags d)) ErrExists;
        let d' := with_tags d ts in
        if negb (audit_active d) then Ok (d', created)
        else d' ← persistAuditedTagCreation d' created; Ok (d', created)) d
  end.

Definition checkTagRevision (tag : Tag) (expected : Z) : res unit :=
  check (negb (stale expected (TagRevision tag))) ErrStaleRevision.

Definition touchTaggedNodesTx (d : db) (tagID now : string) : res db :=
  exec d (update_where (λ i _, bool_decide ((i, tagID) ∈ node_tags d)) (bump now) (nodes d))
    ErrOther.

(** [UPDATE tags SET name = ?, revision = revision + 1 WHERE id = ?] *)
Definition renameTagDefinitionTx (d : db) (current : Tag) (nm : string) : res (db * Tag) :=
  ts ← match tags d !! TagID current with
       | None => Ok (tags d)
       | Some t =>
           if bool_decide (Forall (λ i, i = TagID current) (tags_named (tags d) nm))
           then Ok (<[TagID current := MkTagRow nm (t_revision t + 1)]> (tags d))
           else Err ErrExists
       end;
  Ok (with_tags d ts,
      MkTag (TagID current) nm (TagRevision current + 1) (AssignmentCount current)).

Definition renameTagTx (d : db) (current : Tag) (nm now : string) : res (db * Tag) :=
  '(d, renamed) ← renameTagDefinitionTx d current nm;
  d ← touchTaggedNodesTx d (TagID current) now;
  Ok (d, renamed).

Definition RenameTag (id : string) (ifRev : Z) (nm now : string) (d : db) : db * res Tag :=
  match NormalizeTagName nm with
  | Err e => (d, Err e)
  | Ok nm =>
      withStorageTx (λ d,
        current ← tagByIDTx d id;
        _ ← checkTagRevision current ifRev;
        if String.eqb (TagName current) nm then Ok (d, current)
        else if audit_active d then renameAuditedTagTx d current nm
        else renameTagTx d current nm now) d
  end.

(** [DELETE FROM tags WHERE id = ?], cascading to [node_tags]. *)
Definition deleteTagDefinitionTx (d : db) (tagID : string) : db :=
  with_node_tags (with_tags d (delete tagID (tags d)))
    (filter (λ nt : Z * string, nt.2 ≠ tagID) (node_tags d)).

Definition deleteTagTx (d : db) (current : Tag) (now : string) : res (db * Tag) :=
  d ← touchTaggedNodesTx d (TagID current) now;
  Ok (deleteTagDefinitionTx d (TagID current), current).

Definition DeleteTag (id : string) (ifRev : Z) (now : string) (d : db) : db * res Tag :=
  withStorageTx (λ d,
    current ← tagByIDTx d id;
    _ ← checkTagRevision current ifRev;
    if audit_active d then deleteAuditedTagTx d current
    else deleteTagTx d current now) d.

(** ** Assignments *)

Definition bump_tag_row (id : string) (ts : gmap string tag_row) : gmap string tag_row :=
  alter bump_tag id ts.

Definition changeTagAssignmentTx (d : db) (tagID : string) (node : Node) (ifRev : Z)
    (assign : bool) (recordedAt : string) : res (db * TagAssignmentChange) :=
  tag ← tagByIDTx d tagID;
  _ ← check (negb (stale ifRev (Revision node))) ErrStaleRevision;
  let present := bool_decide ((ID node, tagID) ∈ node_tags d) in
  let changed := Bool.eqb (negb present) assign in
  '(d, node', tag') ←
    (if changed then
       let nts := if assign then {[ (ID node, tagID) ]} ∪ node_tags d
                  else node_tags d ∖ {[ (ID node, tagID) ]} in
       let count := (if assign then AssignmentCount tag + 1 else AssignmentCount tag - 1)%Z in
       let d := with_tags (with_node_tags d nts) (bump_tag_row tagID (tags d)) in
       d ← bumpRevisionTx d (ID node) recordedAt;
       n ← nodeByIDTx d (ID node);
       Ok (d, n, MkTag (TagID tag) (TagName tag) (TagRevision tag + 1) count)
     else Ok (d, node, tag));
  let path := match TrashedAt node' with None => pathOf d (ID node) | Some _ => "" end in
  Ok (d, MkChange node' path tag' changed).

Definition changeActiveTx (d : db) (tagID : string) (node : Node) (ifRev : Z) (assign : bool)
    (now : string) : res (db * TagAssignmentChange) :=
  if audit_active d then changeAuditedTagAssignmentTx d tagID node ifRev assign
  else changeTagAssignmentTx d tagID node ifRev assign now.

Definition changeTagAssignment (tagID : string) (nodeID ifRev : Z) (assign : bool) (now : string)
    (d : db) : db * res TagAssignmentChange :=
  withStorageTx (λ d,
    node ← nodeByIDTx d nodeID;
    changeActiveTx d tagID node ifRev assign now) d.

Definition changeTagAssignmentPath (tagID path : string) (assign : bool) (now : string)
    (d : db) : db * res TagAssignmentChange :=
  withStorageTx (λ d,
    node ← nodeByPath rootID d path;
    changeActiveTx d tagID node UnconditionalRev assign now) d.

Definition AssignTag (tagID : string) (nodeID ifRev : Z) := changeTagAssignment tagID nodeID ifRev true.
Definition UnassignTag (tagID : string) (nodeID ifRev : Z) := changeTagAssignment tagID nodeID ifRev false.
Definition AssignTagPath (tagID path : string) := changeTagAssignmentPath tagID path true.
Definition UnassignTagPath (tagID path : string) := changeTagAssignmentPath tagID path false.

End tags.

(** ** Pages *)

Definition maxTagPageSize : Z := 1000.

Definition validateTagPage (limit offset : Z) : res unit :=
  if ((limit <? 1) || (maxTagPageSize <? limit))%Z then Err ErrOther
  else if (offset <? 0)%Z then Err ErrOther
  else Ok tt.

Definition tag_name_of (d : db) (id : string) : string := default "" (t_name <$> tags d !! id).

(** [ORDER BY t.name, t.id] *)
Definition tag_order (d : db) (i j : string) : Prop :=
  (tag_name_of d i ≠ tag_name_of d j ∧ String.le (tag_name_of d i) (tag_name_of d j))
  ∨ (tag_name_of d i = tag_name_of d j ∧ String.le i j).
#[export] Instance tag_order_dec d : RelDecision (tag_order d).
Proof. intros i j. unfold tag_order. apply _. Defined.

Definition scan_tags (d : db) (ids : list string) : list Tag :=
  omap (λ id, scanTag d id <$> tags d !! id) ids.

Definition Tags (d : db) (limit offset : Z) : res (list Tag * Z) :=
  _ ← validateTagPage limit offset;
  let all := merge_sort (tag_order d) (fst <$> map_to_list (tags d)) in
  Ok (scan_tags d (page limit offset all), Z.of_nat (length all)).

(** The tags joined with a node's assignments. *)
Definition tags_of_node (d : db) (nodeID : Z) : list string :=
  snd <$> filter (λ nt : Z * string, nt.1 = nodeID) (elements (node_tags d)).

Definition NodeTags (d : db) (nodeID limit offset : Z) : res (list Tag * Z) :=
  _ ← validateTagPage limit offset;
  _ ← check (bool_decide (is_Some (nodes d !! nodeID))) ErrNotFound;
  let all := merge_sort (tag_order d) (tags_of_node d nodeID) in
  Ok (scan_tags d (page limit offset all), Z.of_nat (length all)).

Definition nodes_of_tag (d : db) (tagID : string) : list Z :=
  merge_sort Z.le (fst <$> filter (λ nt : Z * string, nt.2 = tagID) (elements (node_tags d))).

Definition is_live_id (d : db) (i : Z) : bool :=
  match nodes d !! i with Some r => is_live r | None => false end.

(** The [ancestry] and [paths] tables of [taggedNodes]: follow the parents of a
    live node, prefixing names, and keep the path that reaches a parentless
    node; a trashed ancestor ends the walk without one. *)
Fixpoint tagged_path (ns : gmap Z node_row) (fuel : nat) (i : Z) (path : string) : option string :=
  match fuel with
  | 0 => None
  | S fuel =>
      match ns !! i with
      | None => None
      | Some r =>
          match parent_id r with
          | None => Some path
          | Some p =>
              match ns !! p with
              | Some pr =>
                  if is_live pr
                  then tagged_path ns fuel p
                         (if String.eqb (name pr) "" then "/" +:+ path
                          else name pr +:+ "/" +:+ path)
                  else None
              | None => None
              end
          end
      end
  end.

Definition taggedPath (d : db) (i : Z) (r : node_row) : string :=
  if is_live r
  then default "" (tagged_path (nodes d) (S (size (nodes d))) i
                     (if String.eqb (name r) "" then "/" else name r))
  else "".

(** [taggedNodes]: the page of (live) nodes, the live or whole total, and the
    number of trashed assignments left out. *)
Definition taggedNodes (d : db) (tagID : string) (limit offset : Z) (liveOnly : bool) :
    res (list (Node * string) * Z * Z) :=
  _ ← validateTagPage limit offset;
  _ ← check (is_Ok (validateUUIDv4 tagID)) ErrNotFound;
  _ ← check (bool_decide (is_Some (tags d !! tagID))) ErrNotFound;
  let matching := nodes_of_tag d tagID in
  let live := filter (λ i, is_live_id d i = true) matching in
  let chosen := page limit offset (if liveOnly then live else matching) in
  let rows := omap (λ i, r ← nodes d !! i;
                         Some (scanNode d i r, taggedPath d i r)) chosen in
  let total := Z.of_nat (length matching) in
  let liveTotal := Z.of_nat (length live) in
  Ok (rows, if liveOnly then liveTotal else total, if liveOnly then (total - liveTotal)%Z else 0%Z).

(** * Facts about tags *)

Section facts.
Context `{Normalizer}.

(** ** Names *)

Definition tag_name_ok (nm : string) : Prop := nm ≠ "" ∧ ContainsControl nm = false.

Lemma NormalizeTagName_Ok_iff nm nm' :
  NormalizeTagName nm = Ok nm' ↔ ValidString nm = true ∧ nm' = nfc nm ∧ tag_name_ok nm'.
Proof.
  unfold NormalizeTagName, tag_name_ok. destruct (ValidString nm); simpl; [|naive_solver].
  destruct (String.eqb_spec (nfc nm) ""); [naive_solver|].
  destruct (ContainsControl (nfc nm)) eqn:?; naive_solver congruence.
Qed.

(** ** The tag invariant *)

Record tags_wf (d : db) : Prop := {
  tw_ids id : is_Some (tags d !! id) → validateUUIDv4 id = Ok tt;
  tw_names i j t u : tags d !! i = Some t → tags d !! j = Some u → t_name t = t_name u → i = j;
  tw_canonical i t : tags d !! i = Some t → NormalizeTagName (t_name t) = Ok (t_name t);
  tw_revision i t : tags d !! i = Some t → (1 ≤ t_revision t)%Z;
  tw_assigned i tag : (i, tag) ∈ node_tags d → is_Some (nodes d !! i) ∧ is_Some (tags d !! tag);
}.

Lemma elem_of_tags_named ts nm id :
  id ∈ tags_named ts nm ↔ ∃ t, ts !! id = Some t ∧ t_name t = nm.
Proof.
  unfold tags_named. rewrite list_elem_of_fmap. setoid_rewrite list_elem_of_filter.
  setoid_rewrite elem_of_map_to_list'. split.
  - intros ([j t] & -> & ? & ?). simpl in *. eauto.
  - intros (t & ? & ?). by exists (id, t).
Qed.

Lemma tagByIDTx_Ok_iff d id tag :
  tagByIDTx d id = Ok tag ↔
  validateUUIDv4 id = Ok tt ∧ ∃ t, tags d !! id = Some t ∧ tag = scanTag d id t.
Proof.
  unfold tagByIDTx. destruct (validateUUIDv4 id) as [[]|e]; simpl; [|naive_solver].
  rewrite bind_Ok_iff. setoid_rewrite from_lookup_Ok_iff. split.
  - intros (t & Ht & Htag). apply Ok_inj in Htag as <-. split; [done|]. by exists t.
  - intros (_ & t & Ht & ->). by exists t.
Qed.

(** Adding or removing one assignment moves its tag's count by one. *)
Lemma count_union (s : gset (Z * string)) i tag :
  (i, tag) ∉ s →
  size (filter (λ nt : Z * string, nt.2 = tag) ({[ (i, tag) ]} ∪ s))
  = S (size (filter (λ nt : Z * string, nt.2 = tag) s)).
Proof.
  intros Hn.
  assert (filter (λ nt : Z * string, nt.2 = tag) ({[ (i, tag) ]} ∪ s)
          = {[ (i, tag) ]} ∪ filter (λ nt : Z * string, nt.2 = tag) s) as ->.
  { apply set_eq. intros x. rewrite elem_of_union, !elem_of_filter, elem_of_union.
    rewrite elem_of_singleton. naive_solver. }
  rewrite size_union; [by rewrite size_singleton|].
  apply disjoint_singleton_l. rewrite elem_of_filter. by intros [_ ?].
Qed.

Lemma count_difference (s : gset (Z * string)) i tag :
  (i, tag) ∈ s →
  S (size (filter (λ nt : Z * string, nt.2 = tag) (s ∖ {[ (i, tag) ]})))
  = size (filter (λ nt : Z * string, nt.2 = tag) s).
Proof.
  intros Hi. rewrite <- (count_union _ i tag) by set_solver. f_equal.
  rewrite <- union_difference_singleton_L by done. done.
Qed.

(** ** Changing an assignment *)

Context (root : Z).
Notation tree_wf := (tree_wf root).

(** The state after a real change. *)
Definition assigned (d : db) (tag : string) (i : Z) (assign : bool) (now : string) : db :=
  with_nodes
    (with_tags (with_node_tags d (if assign then {[ (i, tag) ]} ∪ node_tags d
                                  else node_tags d ∖ {[ (i, tag) ]}))
       (bump_tag_row tag (tags d)))
    (set_where (is_id i) (bump now) (nodes d)).

Lemma changeTagAssignmentTx_cases d tag i r t ifRev assign now :
  tree_wf d → nodes d !! i = Some r → validateUUIDv4 tag = Ok tt → tags d !! tag = Some t →
  changeTagAssignmentTx d tag (scanNode d i r) ifRev assign now =
  if stale ifRev (revision r) then Err ErrStaleRevision
  else if Bool.eqb (bool_decide ((i, tag) ∈ node_tags d)) assign then
    Ok (d, MkChange (scanNode d i r) (if is_live r then pathOf d i else "") (scanTag d tag t) false)
  else
    let d' := assigned d tag i assign now in
    Ok (d', MkChange (scanNode d' i (bump now r)) (if is_live r then pathOf d' i else "")
              (MkTag tag (t_name t) (t_revision t + 1)
                 (if assign then assignment_count d tag + 1 else assignment_count d tag - 1)) true).
Proof.
  intros Hwf Hr Hu Ht. unfold changeTagAssignmentTx, tagByIDTx. rewrite Hu. cbn. rewrite Ht. cbn.
  destruct (stale ifRev (revision r)); [done|]. cbn.
  assert (∀ b, Bool.eqb (negb b) assign = negb (Bool.eqb b assign)) as Hneg
    by (intros []; by destruct assign).
  rewrite Hneg. destruct (Bool.eqb (bool_decide _) assign); cbn.
  { unfold is_live. by destruct (trashed_at r). }
  set (dt := with_tags _ _).
  assert (tree_wf dt) as Hdt by (by eapply tree_wf_tables).
  rewrite (proj1 (bumpRevisionTx_ok root dt i now Hdt)). cbn.
  rewrite nodeByIDTx_cases. cbn. rewrite lookup_set_id, Hr. cbn.
  rewrite decide_True by done. cbn. unfold is_live. by destruct (trashed_at r).
Qed.

Lemma assigned_tree_wf d tag i assign now : tree_wf d → tree_wf (assigned d tag i assign now).
Proof.
  intros Hwf. unfold assigned. set (dt := with_tags _ _).
  assert (tree_wf dt) as Hdt by (by eapply tree_wf_tables).
  exact (proj2 (bumpRevisionTx_ok root dt i now Hdt)).
Qed.

Lemma assigned_count d tag i assign now :
  Bool.eqb (bool_decide ((i, tag) ∈ node_tags d)) assign = false →
  assignment_count (assigned d tag i assign now) tag =
  (if assign then assignment_count d tag + 1 else assignment_count d tag - 1)%Z.
Proof.
  unfold assignment_count, assigned. simpl. case_bool_decide as Hin; destruct assign; try done;
    intros _.
  - pose proof (count_difference (node_tags d) i tag Hin). lia.
  - rewrite count_union by done. lia.
Qed.

(** ** Renaming and deleting *)

Lemma touchTaggedNodesTx_ok d tag now :
  tree_wf d →
  touchTaggedNodesTx d tag now = Ok (with_nodes d
    (set_where (λ i _, bool_decide ((i, tag) ∈ node_tags d)) (bump now) (nodes d))) ∧
  tree_wf (with_nodes d
    (set_where (λ i _, bool_decide ((i, tag) ∈ node_tags d)) (bump now) (nodes d))).
Proof.
  intros Hwf. split.
  - unfold touchTaggedNodesTx, exec. rewrite update_where_ok; [done|].
    intros i j ri rj Hne Hi Hj _. rewrite bump_clash. split.
    + exact (wf_no_clash root d i j _ _ Hwf Hne Hi Hj).
    + intros _. rewrite clash_sym, bump_clash.
      exact (wf_no_clash root d j i _ _ Hwf (not_eq_sym Hne) Hj Hi).
  - eapply tree_wf_shape; [done|done| |]; simpl.
    + intros i r'. rewrite lookup_set_where. destruct (nodes d !! i) as [r|]; [|done].
      intros [= <-]. exists r. split; [done|].
      case_bool_decide; repeat split; simpl; auto; lia.
    + intros i [r Hr]. rewrite lookup_set_where, Hr. by eexists.
Qed.

Lemma NormalizeTagName_idem nm nm' :
  NormalizeTagName nm = Ok nm' → NormalizeTagName nm' = Ok nm'.
Proof.
  rewrite !NormalizeTagName_Ok_iff. intros (? & -> & ?).
  by rewrite nfc_idem, nfc_valid.
Qed.

Lemma TagByName_Ok_iff d nm tag :
  tags_wf d →
  TagByName d nm = Ok tag ↔
  ∃ nm' id t, NormalizeTagName nm = Ok nm' ∧ tags d !! id = Some t ∧ t_name t = nm' ∧
    tag = scanTag d id t.
Proof.
  intros Hwf. unfold TagByName. destruct (NormalizeTagName nm) as [nm'|e]; cbn; [|naive_solver].
  destruct (tags_named (tags d) nm') as [|id l] eqn:Hl; cbn.
  - split; [done|]. intros (? & id & t & [= <-] & Ht & Hn & _).
    assert (id ∈ tags_named (tags d) nm') as Hin by (apply elem_of_tags_named; eauto).
    rewrite Hl in Hin. by apply elem_of_nil in Hin.
  - assert (id ∈ tags_named (tags d) nm') as Hin by (rewrite Hl; left).
    apply elem_of_tags_named in Hin as (t & Ht & Hn). rewrite Ht. cbn. split.
    + intros Htag. apply Ok_inj in Htag as <-. by exists nm', id, t.
    + intros (? & id' & t' & [= <-] & Ht' & Hn' & ->).
      assert (id' = id) as -> by (eapply (tw_names d Hwf); [done..|congruence]).
      by simplify_eq.
Qed.

Lemma TagByName_missing d nm :
  tags_wf d → NormalizeTagName nm = Ok nm → (∀ id t, tags d !! id = Some t → t_name t ≠ nm) →
  TagByName d nm = Err ErrNotFound.
Proof.
  intros Hwf Hnm Hno. unfold TagByName. rewrite Hnm. cbn.
  destruct (tags_named (tags d) nm) as [|id l] eqn:Hl; [done|]. exfalso.
  assert (id ∈ tags_named (tags d) nm) as Hin by (rewrite Hl; left).
  apply elem_of_tags_named in Hin as (t & Ht & Hn). by eapply Hno.
Qed.

(** Changing node rows and the assignments within the tables' keys. *)
Lemma tags_wf_frame d d' :
  tags_wf d →
  tags d' = tags d → node_tags d' ⊆ node_tags d →
  (∀ i tag, (i, tag) ∈ node_tags d' → is_Some (nodes d !! i) → is_Some (nodes d' !! i)) →
  tags_wf d'.
Proof.
  intros [Hids Hnames Hcan Hrev Has] Ht Hn Hi. split; rewrite ?Ht; try done.
  intros i tag Hin. destruct (Has i tag (Hn _ Hin)) as [Hni ?]. split; [|done]. by eapply Hi.
Qed.

Definition touched (tag : string) (now : string) (d : db) : db :=
  with_nodes d (set_where (λ i _, bool_decide ((i, tag) ∈ node_tags d)) (bump now) (nodes d)).

Lemma set_where_Some P f ns i : is_Some (set_where P f ns !! i) ↔ is_Some (ns !! i).
Proof. by rewrite lookup_set_where, fmap_is_Some. Qed.

(** The states after a real renaming and after a deletion. *)
Definition renamed (d : db) (id nm : string) (t : tag_row) (now : string) : db :=
  touched id now (with_tags d (<[id := MkTagRow nm (t_revision t + 1)]> (tags d))).
Definition untagged (d : db) (id now : string) : db :=
  deleteTagDefinitionTx (touched id now d) id.

Lemma renamed_wf d id nm t now :
  tree_wf d → tags_wf d → tags d !! id = Some t → NormalizeTagName nm = Ok nm →
  (∀ j u, tags d !! j = Some u → t_name u = nm → j = id) →
  tree_wf (renamed d id nm t now) ∧ tags_wf (renamed d id nm t now).
Proof.
  intros Hwf [Hids Hnames Hcan Hrev Has] Ht Hnm Hfree. split.
  { apply touchTaggedNodesTx_ok. by eapply tree_wf_tables. }
  split; simpl.
  - intros j Hj. apply Hids. destruct (decide (j = id)) as [->|]; [by eexists|].
    by rewrite lookup_insert_ne in Hj.
  - intros i j ti tj [[<- <-]|[Hi Hti]]%lookup_insert_Some [[<- <-]|[Hj Htj]]%lookup_insert_Some Hn;
      simpl in Hn; [done| | |by eapply Hnames].
    + symmetry. by eapply Hfree.
    + by eapply Hfree.
  - intros i ti [[<- <-]|[_ Hti]]%lookup_insert_Some; [done|by eapply Hcan].
  - intros i ti [[<- <-]|[_ Hti]]%lookup_insert_Some; [|by eapply Hrev].
    simpl. pose proof (Hrev _ _ Ht). lia.
  - intros i tag Hin. destruct (Has i tag Hin) as [? ?]. rewrite set_where_Some.
    split; [done|]. destruct (decide (tag = id)) as [->|].
    + rewrite lookup_insert_eq. eauto.
    + by rewrite lookup_insert_ne.
Qed.

Lemma untagged_wf d id now :
  tree_wf d → tags_wf d → tree_wf (untagged d id now) ∧ tags_wf (untagged d id now).
Proof.
  intros Hwf [Hids Hnames Hcan Hrev Has]. split.
  { eapply tree_wf_tables; [apply (touchTaggedNodesTx_ok d id now Hwf)|done..]. }
  split; simpl.
  - intros j [t Ht]. apply lookup_delete_Some in Ht as [_ Ht]. eauto.
  - intros i j ti tj [_ ?]%lookup_delete_Some [_ ?]%lookup_delete_Some. by eapply Hnames.
  - intros i t [_ ?]%lookup_delete_Some. by eapply Hcan.
  - intros i t [_ ?]%lookup_delete_Some. by eapply Hrev.
  - intros i tag [Hne Hin]%elem_of_filter. simpl in Hne. rewrite set_where_Some.
    rewrite lookup_delete_ne by done. by apply Has.
Qed.

Lemma assigned_wf d tag i assign now :
  tree_wf d → tags_wf d → is_Some (nodes d !! i) → is_Some (tags d !! tag) →
  tags_wf (assigned d tag i assign now).
Proof.
  intros Hwf [Hids Hnames Hcan Hrev Has] Hi Htag.
  assert (∀ j t', bump_tag_row tag (tags d) !! j = Some t' →
    ∃ t, tags d !! j = Some t ∧ t_name t' = t_name t ∧ (t_revision t ≤ t_revision t')%Z) as Hinv.
  { intros j t'. unfold bump_tag_row. destruct (decide (j = tag)) as [->|].
    - rewrite lookup_alter_eq. destruct (tags d !! tag) as [t|]; [|done].
      intros [= <-]. exists t. simpl. split_and!; [done..|lia].
    - rewrite lookup_alter_ne by done. exists t'. split_and!; [done..|lia]. }
  split; simpl.
  - intros j [t (t0 & ? & _)%Hinv]. eauto.
  - intros j k t u (t0 & Ht & Hnt & _)%Hinv (u0 & Hu & Hnu & _)%Hinv Hn.
    eapply Hnames; [exact Ht|exact Hu|congruence].
  - intros j t (t0 & Ht & Hnt & _)%Hinv. rewrite Hnt. by eapply Hcan.
  - intros j t (t0 & Ht & _ & ?)%Hinv. pose proof (Hrev _ _ Ht). lia.
  - intros j u Hin. rewrite set_where_Some.
    assert (is_Some (nodes d !! j) ∧ is_Some (tags d !! u)) as [? ?].
    { destruct assign; [apply elem_of_union in Hin as [Hin|Hin]|apply elem_of_difference in Hin as [Hin _]];
        [|by apply Has..]. apply elem_of_singleton in Hin as [= -> ->]. done. }
    split; [done|]. unfold bump_tag_row. by rewrite lookup_alter_is_Some.
Qed.

(** ** The definition handlers *)

Lemma renameTagTx_cases d id t nm now :
  tree_wf d → tags_wf d → tags d !! id = Some t → NormalizeTagName nm = Ok nm →
  renameTagTx d (scanTag d id t) nm now =
  if bool_decide (Forall (λ j, j = id) (tags_named (tags d) nm))
  then Ok (renamed d id nm t now, scanTag (renamed d id nm t now) id (MkTagRow nm (t_revision t + 1)))
  else Err ErrExists.
Proof.
  intros Hwf Htw Ht Hnm. unfold renameTagTx, renameTagDefinitionTx. cbn. rewrite Ht. cbn.
  case_bool_decide as Hf; [|done]. cbn.
  rewrite (proj1 (touchTaggedNodesTx_ok _ id now (tree_wf_tables root d
    (with_tags d (<[id := MkTagRow nm (t_revision t + 1)]> (tags d))) Hwf eq_refl eq_refl))).
  done.
Qed.

Lemma deleteTagTx_cases d id t now :
  tree_wf d → deleteTagTx d (scanTag d id t) now = Ok (untagged d id now, scanTag d id t).
Proof.
  intros Hwf. unfold deleteTagTx. cbn. by rewrite (proj1 (touchTaggedNodesTx_ok d id now Hwf)).
Qed.

End facts.
