(* ===== verification/TagProps.v ===== *)
(** * Properties of tags

    Receipts and effects of the tag handlers, the invariant they keep, and the
    listings. *)
From S2P Require Import Prelude GoText Names Tables Tree TreeInv TreeFacts Trash TrashFacts Identity Tags StoreMachine StoreProps.

(** The audited tag mutations of a vault without audit authority are never
    reached; this instance refuses them. *)
Definition refusing_tag_audit : AuditedTags := {|
  persistAuditedTagCreation _ _ := Err ErrAuditMutationUnsupported;
  renameAuditedTagTx _ _ _ := Err ErrAuditMutationUnsupported;
  deleteAuditedTagTx _ _ := Err ErrAuditMutationUnsupported;
  changeAuditedTagAssignmentTx _ _ _ _ _ := Err ErrAuditMutationUnsupported;
|}.

Section props.
Context `{Normalizer} (A : AuditedTags) (root : Z).
Notation tree_wf := (tree_wf root).

(** Which assignments a change leaves. *)
Definition assignments_after (d : db) (i : Z) (tag : string) (assign : bool) (nt : Z * string) : Prop :=
  if decide (nt = (i, tag)) then assign = true else nt ∈ node_tags d.

Lemma assigned_node_tags d tag i assign now nt :
  nt ∈ node_tags (assigned d tag i assign now) ↔ assignments_after d i tag assign nt.
Proof.
  unfold assignments_after, assigned. simpl. destruct assign; case_decide; set_solver.
Qed.

(** assigning or unassigning a tag succeeds exactly when the node and the tag
    exist and the expected revision is current; the receipt it returns is what
    reading the tag, the node and its path back afterwards gives; exactly the
    one assignment is added or removed; a change that is already in place
    changes nothing, and a real one advances exactly the node's and the tag's
    revisions. *)
Theorem changeTagAssignment_receipt d tag i ifRev assign now :
  tree_wf d → audit_active d = false →
  let '(d', r) := changeTagAssignment tag i ifRev assign now d in
  (is_Ok r = true ↔ validateUUIDv4 tag = Ok tt ∧ is_Some (tags d !! tag) ∧
     ∃ row, nodes d !! i = Some row ∧ stale ifRev (revision row) = false) ∧
  ∀ c, r = Ok c →
    tagByIDTx d' tag = Ok (ChangeTag c) ∧
    NodeViewByID d' i = Ok (ChangeNode c, ChangePath c) ∧
    (∀ nt, nt ∈ node_tags d' ↔ assignments_after d i tag assign nt) ∧
    (Changed c = true ↔ node_tags d' ≠ node_tags d) ∧
    d' = if Changed c
         then with_nodes (with_tags (with_node_tags d (node_tags d')) (bump_tag_row tag (tags d)))
                (set_where (is_id i) (bump now) (nodes d))
         else d.
Proof.
  intros Hwf Haudit. unfold changeTagAssignment, withStorageTx.
  rewrite nodeByIDTx_cases. destruct (nodes d !! i) as [row|] eqn:Hr; cbn;
    [|split; [split; [done|naive_solver]|done]].
  unfold changeActiveTx. rewrite Haudit.
  destruct (tagByIDTx d tag) as [t0|e] eqn:Ht0.
  2:{ unfold changeTagAssignmentTx. rewrite Ht0. split; [|done]. split; [done|].
      intros (Hu & [t Ht] & _). unfold tagByIDTx in Ht0. rewrite Hu, Ht in Ht0. done. }
  apply tagByIDTx_Ok_iff in Ht0 as (Hu & t & Ht & _).
  rewrite (changeTagAssignmentTx_cases root d tag i row t ifRev assign now Hwf Hr Hu Ht).
  destruct (stale ifRev (revision row)) eqn:Hst.
  { split; [|done]. split; [done|]. intros (_ & _ & ? & ? & ?). congruence. }
  destruct (Bool.eqb _ assign) eqn:Hsame.
  - split; [naive_solver|]. intros c Hc. apply Ok_inj in Hc as <-. cbn.
    rewrite (proj2 (tagByIDTx_Ok_iff d tag _)) by (split; [done|by exists t]).
    split_and!; [done| | |naive_solver|done].
    + unfold NodeViewByID. rewrite nodeByIDTx_cases, Hr. cbn.
      unfold nodeViewForNode, is_live. cbn. by destruct (trashed_at row).
    + intros nt. unfold assignments_after. apply Bool.eqb_prop in Hsame as <-.
      case_decide as Hd; [subst|done]. by rewrite bool_decide_eq_true.
  - split; [naive_solver|]. intros c Hc. apply Ok_inj in Hc as <-. cbn.
    split_and!.
    + unfold tagByIDTx. rewrite Hu. cbn. unfold bump_tag_row. rewrite lookup_alter_eq, Ht. cbn.
      f_equal. unfold scanTag. f_equal. rewrite <- (assigned_count d tag i assign now Hsame). done.
    + unfold NodeViewByID. rewrite nodeByIDTx_cases. cbn. rewrite lookup_set_id, Hr. cbn.
      rewrite decide_True by done. cbn. unfold nodeViewForNode, is_live. cbn.
      by destruct (trashed_at row).
    + apply (assigned_node_tags d tag i assign now).
    + split; [|done]. intros _ Heq.
      pose proof (assigned_node_tags d tag i assign now (i, tag)) as Hin.
      unfold assignments_after, assigned in Hin. rewrite decide_True in Hin by done.
      cbn in Hin. rewrite Heq in Hin. case_bool_decide; destruct assign; naive_solver.
    + done.
Qed.

(** Renaming a tag refuses a name another tag holds, changing nothing; otherwise
    the tag answers to the new name (in any spelling) and no longer to the old
    one, with its revision advanced once and its assignments kept, every node
    it is assigned to is touched exactly once, and no other tag or node
    changes. *)
Theorem RenameTag_effect d id t ifRev nm nm' now :
  tree_wf d → tags_wf d → audit_active d = false → tags d !! id = Some t →
  stale ifRev (t_revision t) = false → NormalizeTagName nm = Ok nm' → t_name t ≠ nm' →
  let '(d', r) := RenameTag id ifRev nm now d in
  if decide (tags_named (tags d) nm' = []) then ∃ tag', r = Ok tag' ∧
    tagByIDTx d' id = Ok tag' ∧ TagByName d' nm = Ok tag' ∧
    TagByName d' (t_name t) = Err ErrNotFound ∧
    TagRevision tag' = (t_revision t + 1)%Z ∧
    (∀ j, j ≠ id → tags d' !! j = tags d !! j) ∧ node_tags d' = node_tags d ∧
    (∀ i, nodes d' !! i = (λ r, if decide ((i, id) ∈ node_tags d) then bump now r else r)
                          <$> nodes d !! i)
  else r = Err ErrExists ∧ d' = d.
Proof.
  intros Hwf Htw Haudit Ht Hst Hnm Hne.
  assert (validateUUIDv4 id = Ok tt) as Hu by (apply (tw_ids d Htw); eauto).
  pose proof (NormalizeTagName_idem _ _ Hnm) as Hnm'.
  unfold RenameTag. rewrite Hnm. unfold withStorageTx.
  rewrite (proj2 (tagByIDTx_Ok_iff d id _)) by (split; [done|by exists t]). cbn.
  unfold checkTagRevision. cbn. rewrite Hst. cbn.
  destruct (String.eqb_spec (t_name t) nm') as [|_]; [done|]. rewrite Haudit.
  rewrite (renameTagTx_cases root d id t nm' now Hwf Htw Ht Hnm').
  destruct (decide _) as [Hfree|Hheld].
  2:{ rewrite bool_decide_eq_false_2; [done|]. destruct (tags_named _ _) as [|j l] eqn:Hl; [done|].
      intros [Hj _]%Forall_cons. assert (j ∈ tags_named (tags d) nm') as Hin by (rewrite Hl; left).
      apply elem_of_tags_named in Hin as (u & Hu' & Hn). congruence. }
  - assert (∀ j u, tags d !! j = Some u → t_name u = nm' → j = id) as Hfr.
    { intros j u Hj Hn. assert (j ∈ tags_named (tags d) nm') as Hin by (apply elem_of_tags_named; eauto).
      rewrite Hfree in Hin. by apply elem_of_nil in Hin. }
    rewrite bool_decide_eq_true_2 by (rewrite Hfree; constructor).
    destruct (renamed_wf root d id nm' t now Hwf Htw Ht Hnm' Hfr) as [_ Htw'].
    assert (tags (renamed d id nm' t now) !! id = Some (MkTagRow nm' (t_revision t + 1))) as Hid
      by apply lookup_insert_eq.
    eexists. split_and!; [done| | | |done| |done|].
    + apply tagByIDTx_Ok_iff. split; [done|]. by eexists.
    + apply TagByName_Ok_iff; [done|]. eexists _, id, _. split_and!; done.
    + apply TagByName_missing; [done|by eapply (tw_canonical d Htw)|].
      intros j u Hj Hn. simpl in Hj. apply lookup_insert_Some in Hj as [[<- <-]|[Hji Hj]]; [done|].
      apply Hji. by eapply (tw_names d Htw); [exact Ht|exact Hj|].
    + intros j Hj. by apply lookup_insert_ne.
    + intros i. simpl. rewrite lookup_set_where. destruct (nodes d !! i); [|done]. simpl.
      by destruct (decide _); case_bool_decide.
Qed.

(** Deleting a tag answers its last state; afterwards the tag is unknown and
    assigned nowhere, every node it was assigned to has been touched exactly
    once, and every other tag, assignment and node is as before. *)
Theorem DeleteTag_effect d id t ifRev now :
  tree_wf d → tags_wf d → audit_active d = false → tags d !! id = Some t →
  stale ifRev (t_revision t) = false →
  let '(d', r) := DeleteTag id ifRev now d in
  r = tagByIDTx d id ∧ is_Ok r = true ∧
  tagByIDTx d' id = Err ErrNotFound ∧
  (∀ j, j ≠ id → tagByIDTx d' j = tagByIDTx d j) ∧
  (∀ i j, (i, j) ∈ node_tags d' ↔ (i, j) ∈ node_tags d ∧ j ≠ id) ∧
  (∀ i, nodes d' !! i = (λ r, if decide ((i, id) ∈ node_tags d) then bump now r else r)
                        <$> nodes d !! i).
Proof.
  intros Hwf Htw Haudit Ht Hst.
  assert (validateUUIDv4 id = Ok tt) as Hu by (apply (tw_ids d Htw); eauto).
  assert (tagByIDTx d id = Ok (scanTag d id t)) as Hid
    by (apply tagByIDTx_Ok_iff; split; [done|by exists t]).
  unfold DeleteTag, withStorageTx. rewrite Hid. cbn. unfold checkTagRevision. cbn. rewrite Hst, Haudit.
  cbn -[deleteTagTx]. rewrite (deleteTagTx_cases root d id t now Hwf). split_and!; try done.
  - unfold tagByIDTx. rewrite Hu. cbn. by rewrite lookup_delete_eq.
  - intros j Hj. unfold tagByIDTx. destruct (validateUUIDv4 j) as [[]|]; cbn; [|done].
    rewrite lookup_delete_ne by done. destruct (tags d !! j) as [u|]; cbn; [|done].
    unfold scanTag, assignment_count. cbn. do 4 f_equal. apply set_eq. intros nt.
    rewrite !elem_of_filter. naive_solver.
  - intros i j. cbn. rewrite elem_of_filter. naive_solver.
  - intros i. cbn. rewrite lookup_set_where. destruct (nodes d !! i); [|done]. simpl.
    by destruct (decide _); case_bool_decide.
Qed.

End props.
