(* ===== verification/Listing.v ===== *)
(** * Listings of the tree (internal/store/node.go)

    Node batches, the children of a directory and the documents beneath it,
    whole and by pages.

    Reading page after page yields the whole listing; the listings contain
    what they should, in the order they should. *)
From S2P Require Import Prelude GoText Names Tables Tree TreeInv TreeFacts Trash TrashFacts.

(** [NodeByID] *)
Definition NodeByID (d : db) (id : Z) : res Node := nodeByIDTx d id.

(** [slices.Compact]: drop repetitions of neighbours. *)
Fixpoint compact (l : list Z) : list Z :=
  match l with
  | [] => []
  | x :: l =>
      match l with
      | [] => [x]
      | y :: _ => if (x =? y)%Z then compact l else x :: compact l
      end
  end.

Definition maxNodeBatch : nat := 1000.

Definition NodesByID (d : db) (ids : list Z) : res (gmap Z Node) :=
  match ids with
  | [] => Ok ∅
  | _ =>
      let ids := compact (merge_sort Z.le ids) in
      if bool_decide (maxNodeBatch < length ids)%nat then Err ErrOther
      else if existsb (λ id, id <? 1)%Z ids then Err ErrOther
      else Ok (map_imap (λ i r, if bool_decide (i ∈ ids) then Some (scanNode d i r) else None)
                 (nodes d))
  end.

(** ** Children *)

Definition row_name (d : db) (i : Z) : string := default "" (name <$> nodes d !! i).
Definition row_is_file (d : db) (i : Z) : bool := bool_decide (kind <$> nodes d !! i = Some file).

(** [ORDER BY n.kind = 'file', n.name] *)
Definition child_order (d : db) (i j : Z) : Prop :=
  (row_is_file d i = false ∧ row_is_file d j = true)
  ∨ (row_is_file d i = row_is_file d j ∧ String.le (row_name d i) (row_name d j)).
#[export] Instance child_order_dec d : RelDecision (child_order d).
Proof. intros i j. unfold child_order. apply _. Defined.

(** [WHERE parent_id = ? AND trashed_at IS NULL] *)
Definition live_children (d : db) (dirID : Z) : list Z :=
  select (λ r, bool_decide (parent_id r = Some dirID) && is_live r) (nodes d).

Definition sorted_children (d : db) (dirID : Z) : list Z :=
  merge_sort (child_order d) (live_children d dirID).

Definition Children (d : db) (dirID : Z) : res (list Node) :=
  n ← NodeByID d dirID;
  _ ← check (IsDir n) ErrNotDir;
  mapR (nodeByIDTx d) (sorted_children d dirID).

Record DirectoryPageView := MkDirectoryPage {
  PageDirectory : Node * string;
  PageChildren : list Node;
  PageTotal : Z;
}.

(** The bounds and the directory checks the two page readers share. *)
Definition page_directory (d : db) (dirID limit offset : Z) : res (Node * string) :=
  _ ← check (negb ((limit <? 1) || (5000 <? limit))%Z) ErrOther;
  _ ← check (negb (offset <? 0)%Z) ErrOther;
  n ← nodeByIDTx d dirID;
  _ ← check (bool_decide (TrashedAt n = None)) ErrNotFound;
  _ ← check (IsDir n) ErrNotDir;
  Ok (nodeViewForNode d n).

Definition DirectoryChildrenPage (d : db) (dirID limit offset : Z) : res DirectoryPageView :=
  view ← page_directory d dirID limit offset;
  kids ← mapR (nodeByIDTx d) (page limit offset (sorted_children d dirID));
  Ok (MkDirectoryPage view kids (Z.of_nat (length (live_children d dirID)))).

Definition ChildrenPage (d : db) (dirID limit offset : Z) : res (list Node * Z) :=
  p ← DirectoryChildrenPage d dirID limit offset;
  Ok (PageChildren p, PageTotal p).

(** ** Documents *)

(** [CASE WHEN tree.path = '/' THEN '/' || name ELSE path || '/' || name] *)
Definition child_path (path nm : string) : string :=
  if String.eqb path "/" then "/" +:+ nm else path +:+ "/" +:+ nm.

Definition child_rows (ns : gmap Z node_row) (row : Z * string) : list (Z * string) :=
  (λ ir : Z * node_row, (ir.1, child_path row.2 (name ir.2))) <$>
    filter (λ ir : Z * node_row, parent_id ir.2 = Some row.1 ∧ trashed_at ir.2 = None)
      (map_to_list ns).

(** The recursive CTE [tree(id, path)], one level per round. *)
Fixpoint path_tree (ns : gmap Z node_row) (fuel : nat) (rows : list (Z * string)) :
    list (Z * string) :=
  match fuel with
  | 0 => []
  | S fuel =>
      match rows with
      | [] => []
      | _ => rows ++ path_tree ns fuel (rows ≫= child_rows ns)
      end
  end.

(** [ORDER BY tree.path COLLATE BINARY, n.id] *)
Definition path_order (x y : Z * string) : Prop :=
  (x.2 ≠ y.2 ∧ String.le x.2 y.2) ∨ (x.2 = y.2 ∧ (x.1 ≤ y.1)%Z).
#[export] Instance path_order_dec : RelDecision path_order.
Proof. intros x y. unfold path_order. apply _. Defined.

Definition document_rows (d : db) (dirID : Z) (path : string) : list (Z * string) :=
  filter (λ row : Z * string, row_is_file d row.1 = true)
    (path_tree (nodes d) (S (size (nodes d))) [(dirID, path)]).

Record DocumentPageView := MkDocumentPage {
  DocsDirectory : Node * string;
  Documents : list (string * Node);
  DocsTotal : Z;
}.

Definition document_entry (d : db) (row : Z * string) : res (string * Node) :=
  n ← nodeByIDTx d row.1; Ok (row.2, n).

(** A zero directory identifier stands for the vault root. *)
Definition DocumentPage (rootID : Z) (d : db) (dirID limit offset : Z) : res DocumentPageView :=
  let dirID := if (dirID =? 0)%Z then rootID else dirID in
  view ← page_directory d dirID limit offset;
  let rows := document_rows d dirID view.2 in
  docs ← mapR (document_entry d) (page limit offset (merge_sort path_order rows));
  Ok (MkDocumentPage view docs (Z.of_nat (length rows))).

(** * Facts about listings *)

(** ** Pages *)

(** A client reads [n] consecutive pages. *)
Definition read_pages {A} (fetch : Z → res (list A)) (limit : Z) (n : nat) : res (list A) :=
  pages ← mapR (λ k, fetch (limit * Z.of_nat k)%Z) (seq 0 n); Ok (concat pages).

Lemma page_step {A} (limit : Z) (n : nat) (l : list A) :
  (0 < limit)%Z →
  take (Z.to_nat limit * n) l ++ page limit (limit * Z.of_nat n) l = take (Z.to_nat limit * S n) l.
Proof.
  intros Hl. unfold page. replace (Z.to_nat (limit * Z.of_nat n)) with (Z.to_nat limit * n)%nat by lia.
  rewrite <- (take_drop (Z.to_nat limit * n) l) at 3. rewrite take_app, take_take, length_take.
  f_equal; [f_equal; lia|].
  destruct (decide (length l ≤ Z.to_nat limit * n)%nat).
  - by rewrite drop_ge, !take_nil by done.
  - f_equal. lia.
Qed.

Lemma read_pages_ok {A} (fetch : Z → res (list A)) (limit : Z) (l : list A) (n : nat) :
  (0 < limit)%Z → (∀ offset, (0 ≤ offset)%Z → fetch offset = Ok (page limit offset l)) →
  read_pages fetch limit n = Ok (take (Z.to_nat limit * n) l).
Proof.
  intros Hl Hf. unfold read_pages.
  assert (mapR (λ k : nat, fetch (limit * Z.of_nat k)%Z) (seq 0 n)
          = Ok ((λ k : nat, page limit (limit * Z.of_nat k) l) <$> seq 0 n)) as ->.
  { apply mapR_Forall2, Forall2_fmap_r, Forall_Forall2_diag, Forall_forall. intros k _. apply Hf. lia. }
  cbn. f_equal. induction n as [|n IH]; [by rewrite Nat.mul_0_r|].
  rewrite seq_S, fmap_app, concat_app, IH. cbn. rewrite app_nil_r. by apply page_step.
Qed.

Lemma read_pages_all {A} (fetch : Z → res (list A)) (limit : Z) (l : list A) (n : nat) :
  (0 < limit)%Z → (∀ offset, (0 ≤ offset)%Z → fetch offset = Ok (page limit offset l)) →
  (Z.of_nat (length l) ≤ limit * Z.of_nat n)%Z →
  read_pages fetch limit n = Ok l.
Proof. intros Hl Hf Hn. rewrite (read_pages_ok fetch limit l) by done. by rewrite take_ge by lia. Qed.

Lemma fmap_page {A B} (f : A → B) limit offset l : f <$> page limit offset l = page limit offset (f <$> l).
Proof. unfold page. by rewrite fmap_take, fmap_drop. Qed.

Lemma page_subseteq {A} limit offset (l : list A) : page limit offset l ⊆ l.
Proof. unfold page. intros x Hx. by eapply subseteq_drop, subseteq_take. Qed.

Lemma mapR_ok {A B} (f : A → res B) (g : A → B) l :
  (∀ x, x ∈ l → f x = Ok (g x)) → mapR f l = Ok (g <$> l).
Proof. intros Hf. apply mapR_Forall2, Forall2_fmap_r, Forall_Forall2_diag, Forall_forall, Hf. Qed.

(** ** Sorting *)

Section sorting.
Context {A : Type} (R : relation A) `{!RelDecision R, !Total R, !Transitive R}.

Lemma merge_sort_spec l :
  (∀ x, x ∈ merge_sort R l ↔ x ∈ l) ∧ (NoDup l → NoDup (merge_sort R l)) ∧
  StronglySorted R (merge_sort R l) ∧ length (merge_sort R l) = length l.
Proof.
  split_and!.
  - intros x. by rewrite merge_sort_Permutation.
  - by rewrite merge_sort_Permutation.
  - by apply StronglySorted_merge_sort.
  - by rewrite merge_sort_Permutation.
Qed.

(** Without ties the order is strict. *)
Lemma StronglySorted_strict (l : list A) :
  StronglySorted R l → NoDup l → StronglySorted (λ x y, R x y ∧ x ≠ y) l.
Proof.
  induction 1 as [|x l Hl IH Hx]; intros Hnd; [constructor|].
  apply NoDup_cons in Hnd as [Hn Hnd]. constructor; [by apply IH|].
  rewrite Forall_forall in *. intros y Hy. split; [by apply Hx|]. by intros ->.
Qed.

Lemma StronglySorted_map {B} (f : A → B) (S : relation B) (l : list A) :
  StronglySorted R l → (∀ x y, x ∈ l → y ∈ l → R x y → S (f x) (f y)) →
  StronglySorted S (f <$> l).
Proof.
  induction 1 as [|x l Hl IH Hx]; intros Hf; [constructor|]. cbn. constructor.
  - apply IH. intros; apply Hf; [by right..|done].
  - rewrite Forall_fmap. rewrite Forall_forall in *. intros y Hy. apply Hf; [by left|by right|auto].
Qed.
End sorting.

(** ** Node batches *)

Lemma elem_of_compact x l : x ∈ compact l ↔ x ∈ l.
Proof.
  induction l as [|y [|z l] IH]; [done|done|].
  cbn [compact] in *. destruct (Z.eqb_spec y z) as [->|].
  - rewrite IH, !elem_of_cons. tauto.
  - by rewrite !elem_of_cons, IH, elem_of_cons.
Qed.

Lemma compact_NoDup l : StronglySorted Z.le l → NoDup (compact l).
Proof.
  induction 1 as [|y l Hl IH Hy]; [constructor|]. destruct l as [|z l]; [apply NoDup_singleton|].
  change (NoDup (if (y =? z)%Z then compact (z :: l) else y :: compact (z :: l))).
  destruct (Z.eqb_spec y z) as [->|Hne]; [done|]. apply NoDup_cons. split; [|done]. rewrite elem_of_compact. intros Hin.
  apply Forall_cons in Hy as [Hyz _]. apply StronglySorted_inv in Hl as [_ Hz].
  rewrite Forall_forall in Hz. apply elem_of_cons in Hin as [?|Hin]; [done|].
  specialize (Hz _ Hin). lia.
Qed.

(** What is left of a batch: each requested identifier once. *)
Lemma compact_sort ids :
  (∀ x, x ∈ compact (merge_sort Z.le ids) ↔ x ∈ ids) ∧
  length (compact (merge_sort Z.le ids)) = size (list_to_set ids : gset Z).
Proof.
  assert (∀ x, x ∈ compact (merge_sort Z.le ids) ↔ x ∈ ids) as Hin.
  { intros x. rewrite elem_of_compact. by rewrite merge_sort_Permutation. }
  split; [done|]. rewrite <- (size_list_to_set (C:=gset Z)).
  - f_equal. apply set_eq. intros x. by rewrite !elem_of_list_to_set.
  - apply compact_NoDup, StronglySorted_merge_sort; apply _.
Qed.

(** ** Children *)

Section children.
Context `{Normalizer} (root : Z).
Notation tree_wf := (tree_wf root).

Definition some_row : node_row := MkNodeRow None "" dir None 0 "" "" None None None.

(** The node of an existing row. *)
Definition node_of (d : db) (i : Z) : Node := scanNode d i (default some_row (nodes d !! i)).

Lemma nodeByIDTx_node_of d i : is_Some (nodes d !! i) → nodeByIDTx d i = Ok (node_of d i).
Proof. intros [r Hr]. unfold node_of. by rewrite nodeByIDTx_cases, Hr. Qed.

Lemma IDs_node_of d (l : list Z) : ID <$> (node_of d <$> l) = l.
Proof. induction l as [|i l IH]; [done|]. cbn. by f_equal. Qed.

#[export] Instance child_order_total d : Total (child_order d).
Proof.
  intros i j. unfold child_order. destruct (row_is_file d i), (row_is_file d j); try tauto;
    destruct (total String.le (row_name d i) (row_name d j)); tauto.
Qed.

#[export] Instance child_order_trans d : Transitive (child_order d).
Proof.
  intros i j k. unfold child_order.
  intros [[? ?]|[? ?]] [[? ?]|[? ?]]; try (left; split; congruence).
  right. split; [congruence|]. by transitivity (row_name d j).
Qed.

Lemma elem_of_live_children d p i :
  i ∈ live_children d p ↔
  ∃ r, nodes d !! i = Some r ∧ parent_id r = Some p ∧ trashed_at r = None.
Proof.
  unfold live_children. rewrite elem_of_select. unfold is_live.
  split; intros (r & Hr & Hb); exists r; (split; [done|]).
  - apply andb_true_iff in Hb as [?%bool_decide_eq_true ?%bool_decide_eq_true]. done.
  - destruct Hb as [-> ->]. by rewrite !bool_decide_eq_true_2.
Qed.

Lemma elem_of_sorted_children d p i : i ∈ sorted_children d p ↔ i ∈ live_children d p.
Proof. apply merge_sort_spec; apply _. Qed.

(** Directories first, then by name; siblings never tie. *)
Definition listed_before (a b : Node) : Prop :=
  (IsDir a = true ∧ IsDir b = false) ∨
  (IsDir a = IsDir b ∧ String.le (Name a) (Name b) ∧ Name a ≠ Name b).

Lemma IsDir_node_of d i r :
  nodes d !! i = Some r → IsDir (node_of d i) = negb (row_is_file d i).
Proof.
  intros Hr. unfold IsDir, node_of, row_is_file. rewrite Hr. cbn.
  by destruct (kind r).
Qed.

Lemma Children_ok d p r :
  nodes d !! p = Some r → kind r = dir →
  Children d p = Ok (node_of d <$> sorted_children d p).
Proof.
  intros Hr Hk. unfold Children, NodeByID. rewrite nodeByIDTx_cases, Hr. cbn.
  unfold IsDir. cbn. rewrite bool_decide_eq_true_2 by done. cbn.
  apply mapR_ok. intros i (s & Hs & _)%elem_of_sorted_children%elem_of_live_children.
  apply nodeByIDTx_node_of. eauto.
Qed.

Lemma page_directory_ok d p r limit offset :
  nodes d !! p = Some r → kind r = dir → trashed_at r = None →
  (1 ≤ limit ≤ 5000)%Z → (0 ≤ offset)%Z →
  page_directory d p limit offset = Ok (scanNode d p r, pathOf d p).
Proof.
  intros Hr Hk Ht Hl Ho. unfold page_directory, IsDir.
  replace ((limit <? 1) || (5000 <? limit))%Z with false by lia.
  replace (offset <? 0)%Z with false by lia. cbn. rewrite nodeByIDTx_cases, Hr. cbn.
  rewrite Ht, Hk. cbn. rewrite bool_decide_eq_true_2 by done. cbn.
  unfold nodeViewForNode. cbn. by rewrite Ht.
Qed.

Lemma DirectoryChildrenPage_ok d p r limit offset :
  nodes d !! p = Some r → kind r = dir → trashed_at r = None →
  (1 ≤ limit ≤ 5000)%Z → (0 ≤ offset)%Z →
  DirectoryChildrenPage d p limit offset =
  Ok (MkDirectoryPage (scanNode d p r, pathOf d p)
        (page limit offset (node_of d <$> sorted_children d p))
        (Z.of_nat (length (sorted_children d p)))).
Proof.
  intros Hr Hk Ht Hl Ho. unfold DirectoryChildrenPage. rewrite (page_directory_ok d p r) by done.
  cbn. rewrite (mapR_ok _ (node_of d)).
  - cbn. rewrite fmap_page. do 3 f_equal. unfold sorted_children. by rewrite merge_sort_Permutation.
  - intros i Hi%page_subseteq. apply elem_of_sorted_children, elem_of_live_children in Hi as (s & Hs & _).
    apply nodeByIDTx_node_of. eauto.
Qed.

(** ** Documents *)

Lemma pathOf_root_iff d i :
  tree_wf d → is_Some (nodes d !! i) → pathOf d i = "/" ↔ path_segs (nodes d) i = [].
Proof.
  intros Hwf Hi. rewrite <- (splitPath_pathOf root d i) by done. split; [by intros ->|].
  intros Hs. rewrite (pathOf_segs root d i) by done. rewrite (splitPath_pathOf root) in Hs by done.
  by rewrite Hs.
Qed.

(** A child's display path extends its parent's. *)
Lemma pathOf_child d j r p :
  tree_wf d → nodes d !! j = Some r → parent_id r = Some p →
  pathOf d j = child_path (pathOf d p) (name r).
Proof.
  intros Hwf Hj Hp. destruct (wf_parent _ _ Hwf j r p Hj Hp) as (pr & Hpr & _).
  destruct (wf_anc _ _ Hwf p) as [l Hl]; [eauto|].
  pose proof (pathOf_root_iff d p Hwf (mk_is_Some _ _ Hpr)) as Hroot.
  rewrite (pathOf_segs root d j) by eauto. rewrite (path_segs_step _ _ _ _ _ Hj Hp Hl).
  unfold child_path. destruct (String.eqb_spec (pathOf d p) "/") as [He|He].
  - apply Hroot in He as ->. done.
  - rewrite (pathOf_segs root d p) by eauto. rewrite Join_snoc by tauto. by rewrite !sapp_assoc.
Qed.

Lemma elem_of_child_rows ns i q j p :
  (j, p) ∈ child_rows ns (i, q) ↔
  ∃ r, ns !! j = Some r ∧ parent_id r = Some i ∧ trashed_at r = None ∧ p = child_path q (name r).
Proof.
  unfold child_rows. rewrite list_elem_of_fmap. setoid_rewrite list_elem_of_filter.
  setoid_rewrite elem_of_map_to_list'. split.
  - intros ([j' r] & Heq & [? ?] & ?). simpl in *. simplify_eq. eauto.
  - intros (r & ? & ? & ? & ->). by exists (j, r).
Qed.

Definition path_rows (d : db) (rows : list (Z * string)) : Prop :=
  ∀ i q, (i, q) ∈ rows → is_Some (nodes d !! i) ∧ q = pathOf d i.

Lemma path_rows_children d rows :
  tree_wf d → path_rows d rows → path_rows d (rows ≫= child_rows (nodes d)).
Proof.
  intros Hwf Hrows j p. rewrite list_elem_of_bind.
  intros ([i q] & (r & Hj & Hp & _ & ->)%elem_of_child_rows & Hi). split; [eauto|].
  destruct (Hrows i q Hi) as [_ ->]. by rewrite (pathOf_child d j r i).
Qed.

Lemma elem_of_path_tree d fuel rows j p :
  tree_wf d → path_rows d rows →
  (j, p) ∈ path_tree (nodes d) fuel rows ↔
  ∃ i q k, (i, q) ∈ rows ∧ seg (nodes d) i j k ∧ Forall (row_satisfies is_live (nodes d)) k ∧
    (length k < fuel)%nat ∧ p = pathOf d j.
Proof.
  intros Hwf. revert rows; induction fuel as [|fuel IH]; intros rows Hrows.
  { simpl. split; [by intros ?%elem_of_nil|]. intros (? & ? & ? & _ & _ & _ & ? & _). lia. }
  assert (∀ x, x ∈ path_tree (nodes d) (S fuel) rows ↔
    x ∈ rows ++ path_tree (nodes d) fuel (rows ≫= child_rows (nodes d))) as ->.
  { destruct rows; [|done]. cbn. intros x. split; [by intros ?%elem_of_nil|]. by destruct fuel. }
  rewrite elem_of_app, IH by (by apply path_rows_children). split.
  - intros [Hj|(c & q & k & Hc & Hs & Hk & Hf & ->)].
    + exists j, p, []. split_and!; [done|constructor|constructor|simpl; lia|by eapply Hrows].
    + apply list_elem_of_bind in Hc as ([i q'] & (r & Hr & Hp & Ht & _)%elem_of_child_rows & Hi).
      exists i, q', (k ++ [c]). split_and!; [done|by eapply seg_snoc| | |done].
      * apply Forall_app. split; [done|]. constructor; [|constructor].
        exists r. split; [done|]. unfold is_live. by rewrite bool_decide_eq_true_2.
      * rewrite length_app. simpl. lia.
  - intros (i & q & k & Hi & Hs & Hk & Hf & ->).
    destruct (seg_last _ _ _ _ Hs) as [[-> ->]|(k' & c & r & -> & Hc & Hp & Hs')].
    { left. by destruct (Hrows i q Hi) as [_ <-]. }
    right. apply Forall_app in Hk as [Hk Hck]. apply Forall_cons in Hck as [(r' & Hr' & HP) _].
    exists c, (child_path q (name r)), k'. split_and!; [|done|done| |done].
    + apply list_elem_of_bind. exists (i, q). split; [|done]. apply elem_of_child_rows.
      exists r. split_and!; try done. apply bool_decide_eq_true in HP. congruence.
    + rewrite length_app in Hf. simpl in Hf. lia.
Qed.

Lemma NoDup_child_rows ns row : NoDup (child_rows ns row).*1.
Proof.
  unfold child_rows. rewrite <- list_fmap_compose.
  pose proof (NoDup_fst_map_to_list ns) as Hnd. cbn.
  induction (map_to_list ns) as [|[j r] l IH]; [constructor|].
  apply NoDup_cons in Hnd as [Hj Hnd]. rewrite filter_cons. case_decide; [|by apply IH].
  cbn. apply NoDup_cons. split; [|by apply IH].
  intros ([j' r'] & -> & [_ Hin]%list_elem_of_filter)%list_elem_of_fmap. apply Hj. cbn.
  by apply (list_elem_of_fmap_2 fst _ (j', r')).
Qed.

Lemma NoDup_children_rows ns rows :
  NoDup rows.*1 → NoDup (rows ≫= child_rows ns).*1.
Proof.
  induction rows as [|[i q] rows IH]; [constructor|]. intros [Hi Hnd]%NoDup_cons.
  cbn -[child_rows]. rewrite fmap_app, NoDup_app. split_and!; [apply NoDup_child_rows| |by apply IH].
  intros j ([? p] & -> & (r & Hr & Hp & _)%elem_of_child_rows)%list_elem_of_fmap Hj.
  apply list_elem_of_fmap in Hj as ([j' p'] & Hjj & Hin). cbn in Hjj, Hr. subst.
  apply list_elem_of_bind in Hin as ([i' q'] & (r' & Hr' & Hp' & _)%elem_of_child_rows & Hin).
  apply Hi. assert (i = i') as -> by congruence. by apply (list_elem_of_fmap_2 fst _ (i', q')).
Qed.

(** The rounds visit different depths, so no node is listed twice. *)
Lemma NoDup_path_tree d fuel n rows :
  tree_wf d → path_rows d rows → NoDup rows.*1 →
  (∀ i q, (i, q) ∈ rows → ∃ l, anc (nodes d) i l ∧ length l = n) →
  NoDup (path_tree (nodes d) fuel rows).*1.
Proof.
  intros Hwf. revert n rows; induction fuel as [|fuel IH]; intros n rows Hrows Hnd Hn; [constructor|].
  assert (∀ c q, (c, q) ∈ (rows ≫= child_rows (nodes d)) →
    ∃ l, anc (nodes d) c l ∧ length l = S n) as Hn'.
  { intros c q. rewrite list_elem_of_bind.
    intros ([i q'] & (r & Hr & Hp & _)%elem_of_child_rows & Hi).
    destruct (Hn i q' Hi) as (l & Hl & <-). exists (c :: l). split; [|done]. by eapply anc_step. }
  destruct rows as [|x rows]; [constructor|].
  set (rs := x :: rows) in *. change (NoDup (rs ++ path_tree (nodes d) fuel (rs ≫= child_rows (nodes d))).*1).
  rewrite fmap_app, NoDup_app. split_and!; [done| |].
  - intros i ([? q] & -> & Hi)%list_elem_of_fmap Hin.
    apply list_elem_of_fmap in Hin as ([j p] & Hij & Hin). cbn in Hij; subst.
    apply elem_of_path_tree in Hin as (c & q' & k & Hc & Hs & _); [|done|by apply path_rows_children].
    destruct (Hn _ _ Hi) as (l & Hl & Hlen), (Hn' _ _ Hc) as (l' & Hl' & Hlen').
    pose proof (anc_fun _ _ _ _ Hl (seg_anc _ _ _ _ _ Hs Hl')) as ->.
    rewrite length_app in Hlen. lia.
  - apply (IH (S n)); [by apply path_rows_children|by apply NoDup_children_rows|done].
Qed.

#[export] Instance path_order_total : Total path_order.
Proof.
  intros [i p] [j q]. unfold path_order. cbn. destruct (decide (p = q)) as [->|Hne].
  - destruct (total Z.le i j); tauto.
  - destruct (total String.le p q); [tauto|]. right. left. split; [congruence|done].
Qed.

#[export] Instance path_order_trans : Transitive path_order.
Proof.
  intros [i p] [j q] [k t]. unfold path_order. cbn.
  intros [[Hpq H1]|[-> H1]] [[Hqt H2]|[-> H2]]; [|by left..|right; split; [done|lia]].
  left. split; [|by transitivity q]. intros ->. apply Hpq. by apply (anti_symm String.le).
Qed.

(** Everything above a live node is live. *)
Lemma seg_live_up d p i r k :
  tree_wf d → nodes d !! i = Some r → trashed_at r = None → seg (nodes d) p i k →
  Forall (row_satisfies is_live (nodes d)) k.
Proof.
  intros Hwf Hi Ht Hs. revert r Hi Ht. induction Hs as [|i s q k Hi' Hq Hs IH]; intros r Hi Ht;
    [constructor|]. assert (s = r) as -> by congruence. constructor.
  - exists r. split; [done|]. by apply bool_decide_eq_true.
  - destruct (wf_parent _ _ Hwf i r q Hi Hq) as (qr & Hqr & _).
    apply (IH qr Hqr). exact (wf_live_parent _ _ Hwf i r q qr Hi Ht Hq Hqr).
Qed.

Lemma path_rows_seed d p : is_Some (nodes d !! p) → path_rows d [(p, pathOf d p)].
Proof. intros Hp i q [= -> ->]%list_elem_of_singleton. eauto. Qed.

Lemma elem_of_document_rows d p r i q :
  tree_wf d → nodes d !! p = Some r → kind r = dir →
  (i, q) ∈ document_rows d p (pathOf d p) ↔
  ∃ row k, nodes d !! i = Some row ∧ kind row = file ∧ trashed_at row = None ∧
    seg (nodes d) p i k ∧ q = pathOf d i.
Proof.
  intros Hwf Hr Hk. destruct (wf_anc _ _ Hwf p) as [lp Hlp]; [eauto|].
  unfold document_rows. rewrite list_elem_of_filter.
  rewrite elem_of_path_tree by (try apply path_rows_seed; eauto). unfold row_is_file. cbn. split.
  - intros (Hf%bool_decide_eq_true & i0 & q0 & k & [= -> ->]%list_elem_of_singleton & Hs & Hlive & _ & ->).
    destruct (nodes d !! i) as [row|] eqn:Hi; [|done]. injection Hf as Hf.
    exists row, k. split_and!; try done. inversion Hs as [|? ? ? k' Hi' Hp' Hs']; subst.
    + congruence.
    + apply Forall_cons in Hlive as [(r' & Hr' & Hb%bool_decide_eq_true) _]. congruence.
  - intros (row & k & Hi & Hf & Hlive & Hs & ->). rewrite Hi. cbn. rewrite Hf.
    split; [by apply bool_decide_eq_true|]. exists p, (pathOf d p), k.
    split_and!; [by left|done|by eapply seg_live_up| |done].
    pose proof (anc_length _ _ _ (seg_anc _ _ _ _ _ Hs Hlp)) as Hlen.
    rewrite length_app in Hlen. lia.
Qed.

Lemma NoDup_document_rows d p :
  tree_wf d → is_Some (nodes d !! p) → NoDup (document_rows d p (pathOf d p)).*1.
Proof.
  intros Hwf Hp. destruct (wf_anc _ _ Hwf p Hp) as [lp Hlp]. apply NoDup_fmap_filter.
  apply (NoDup_path_tree d _ (length lp)); [done|by apply path_rows_seed|apply NoDup_singleton|].
  intros i q [= -> ->]%list_elem_of_singleton. eauto.
Qed.

(** Live nodes with the same path are the same node. *)
Lemma pathOf_inj d i j r s :
  tree_wf d → nodes d !! i = Some r → nodes d !! j = Some s →
  trashed_at r = None → trashed_at s = None → pathOf d i = pathOf d j → i = j.
Proof.
  intros Hwf Hi Hj Hr Hs Hp. pose proof (resolve_segs root d i r) as Hri.
  pose proof (resolve_segs root d j s) as Hrj.
  destruct (wf_root _ _ Hwf) as (rr & Hrr & _). specialize (Hri rr Hwf Hrr Hi Hr).
  specialize (Hrj rr Hwf Hrr Hj Hs).
  rewrite <- (splitPath_pathOf root d i), Hp, (splitPath_pathOf root d j), Hrj in Hri by eauto.
  apply Ok_inj in Hri. by injection Hri.
Qed.

(** ** Properties *)

(** [Children] of a directory lists exactly its live children, each once,
    directories before files and each group in strictly ascending byte order
    of names. *)
Theorem Children_complete d p r :
  tree_wf d → nodes d !! p = Some r → kind r = dir →
  ∃ kids, Children d p = Ok kids ∧ NoDup (ID <$> kids) ∧ StronglySorted listed_before kids ∧
    ∀ n, n ∈ kids ↔ ∃ i row, nodes d !! i = Some row ∧ parent_id row = Some p ∧
                            trashed_at row = None ∧ n = scanNode d i row.
Proof.
  intros Hwf Hr Hk. exists (node_of d <$> sorted_children d p).
  destruct (merge_sort_spec (child_order d) (live_children d p)) as (Hin & Hnd & Hs & _).
  specialize (Hnd (NoDup_matching _ _)). fold (sorted_children d p) in *.
  split_and!; [by eapply Children_ok| | |].
  - by rewrite IDs_node_of.
  - eapply StronglySorted_map; [apply StronglySorted_strict; [exact Hs|exact Hnd]|].
    intros i j Hi Hj [Hle Hne]. apply Hin, elem_of_live_children in Hi as (ri & Hri & Hpi & Hti).
    apply Hin, elem_of_live_children in Hj as (rj & Hrj & Hpj & Htj).
    unfold listed_before. rewrite (IsDir_node_of d i ri), (IsDir_node_of d j rj) by done.
    unfold child_order in Hle. unfold node_of, row_name in *. rewrite Hri, Hrj in *. cbn in *.
    destruct Hle as [[-> ->]|[-> Hle]]; [by left|right]. split_and!; [done|done|].
    intros Hn. apply Hne. exact (wf_unique _ _ Hwf i j ri rj p Hri Hrj Hpi Hpj Hn
      (wf_live _ _ Hwf i ri Hri Hti) (wf_live _ _ Hwf j rj Hrj Htj)).
  - intros n. rewrite list_elem_of_fmap. split.
    + intros (i & -> & (row & Hrow & ? & ?)%Hin%elem_of_live_children). exists i, row.
      unfold node_of. by rewrite Hrow.
    + intros (i & row & Hrow & ? & ? & ->). exists i. split; [unfold node_of; by rewrite Hrow|].
      apply Hin, elem_of_live_children. eauto.
Qed.

(** Reading a live directory page by page, at any page size the reader
    accepts and with enough pages, yields [Children] exactly; every page
    reports the whole number of children and the directory's own path. *)
Theorem DirectoryChildrenPage_tiles d p r limit n :
  nodes d !! p = Some r → kind r = dir → trashed_at r = None → (1 ≤ limit ≤ 5000)%Z →
  ∃ kids, Children d p = Ok kids ∧
    (∀ offset, (0 ≤ offset)%Z → ∃ pg, DirectoryChildrenPage d p limit offset = Ok pg ∧
       PageTotal pg = Z.of_nat (length kids) ∧ PageDirectory pg = (scanNode d p r, pathOf d p)) ∧
    ((Z.of_nat (length kids) ≤ limit * Z.of_nat n)%Z →
     read_pages (λ offset, fst <$> ChildrenPage d p limit offset) limit n = Ok kids).
Proof.
  intros Hr Hk Ht Hl. exists (node_of d <$> sorted_children d p).
  split_and!; [by eapply Children_ok| |].
  - intros offset Ho. eexists. split; [by apply (DirectoryChildrenPage_ok d p r)|].
    cbn. by rewrite length_fmap.
  - intros Hn. apply read_pages_all; [lia| |done]. intros offset Ho. unfold ChildrenPage.
    by rewrite (DirectoryChildrenPage_ok d p r).
Qed.

(** [NodesByID] accepts at most a thousand distinct identifiers, all positive,
    and answers the current node of every one that exists, whatever the order
    and repetitions of the request, and nothing else. *)
Theorem NodesByID_lookup d ids :
  (is_Ok (NodesByID d ids) = true ↔
     size (list_to_set ids : gset Z) ≤ 1000 ∧ Forall (λ i, (1 ≤ i)%Z) ids)%nat ∧
  ∀ m, NodesByID d ids = Ok m →
    ∀ i, m !! i = if decide (i ∈ ids) then scanNode d i <$> nodes d !! i else None.
Proof.
  unfold NodesByID. destruct (compact_sort ids) as [Hin Hlen]. destruct ids as [|x l] eqn:Hids.
  { split; [split; [intros _; split; [vm_compute; lia|constructor]|done]|].
    intros m Hm i. apply Ok_inj in Hm as <-. by rewrite lookup_empty. }
  rewrite <- Hids in *. rewrite Hlen. unfold maxNodeBatch.
  assert (existsb (λ id, id <? 1)%Z (compact (merge_sort Z.le ids)) = false ↔
          Forall (λ i, (1 ≤ i)%Z) ids) as Hpos.
  { rewrite <- not_true_iff_false, existsb_exists, Forall_forall. split.
    - intros Hno i Hi. destruct (decide (1 ≤ i)%Z); [done|]. destruct Hno. exists i.
      split; [by apply list_elem_of_In, Hin|lia].
    - intros Hall (i & Hi & Hlt). apply list_elem_of_In, Hin, Hall in Hi. lia. }
  case_bool_decide as Hsz; [split; [split; [done|intros [? _]; lia]|done]|].
  destruct (existsb _ _); [split; [naive_solver|done]|]. split.
  { split; [intros _; split; [lia|by apply Hpos]|done]. }
  intros m Hm i. apply Ok_inj in Hm as <-.
  rewrite map_lookup_imap. destruct (nodes d !! i) as [r|]; cbn; [|by case_decide].
  case_decide as Hi; case_bool_decide as Hc; rewrite Hin in Hc; done.
Qed.

(** the document listing of a live directory contains exactly the live files
    at any depth below it, each once, with its display path, in strictly
    ascending byte order of paths; [DocumentPage] returns the asked slice of
    that listing and its whole length, and reading all pages yields all of
    it. *)
Theorem DocumentPage_documents d p r limit n :
  tree_wf d → nodes d !! p = Some r → kind r = dir → trashed_at r = None → (1 ≤ limit ≤ 5000)%Z →
  ∃ docs : list (string * Node),
    (∀ path m, (path, m) ∈ docs ↔ ∃ i row k, nodes d !! i = Some row ∧ kind row = file ∧
       trashed_at row = None ∧ seg (nodes d) p i k ∧ path = pathOf d i ∧ m = scanNode d i row) ∧
    StronglySorted (λ x y, String.le x.1 y.1 ∧ x.1 ≠ y.1) docs ∧
    (∀ offset, (0 ≤ offset)%Z →
       DocumentPage root d p limit offset =
       Ok (MkDocumentPage (scanNode d p r, pathOf d p) (page limit offset docs)
             (Z.of_nat (length docs)))) ∧
    ((Z.of_nat (length docs) ≤ limit * Z.of_nat n)%Z →
     read_pages (λ offset, Documents <$> DocumentPage root d p limit offset) limit n = Ok docs).
Proof.
  intros Hwf Hr Hk Ht Hl. set (rows := document_rows d p (pathOf d p)).
  set (entry := λ row : Z * string, (row.2, node_of d row.1)).
  destruct (merge_sort_spec path_order rows) as (Hin & Hnd & Hs & Hlen).
  assert (∀ i q, (i, q) ∈ merge_sort path_order rows ↔ ∃ row k, nodes d !! i = Some row ∧
    kind row = file ∧ trashed_at row = None ∧ seg (nodes d) p i k ∧ q = pathOf d i) as Hrows
    by (intros i q; rewrite Hin; by eapply elem_of_document_rows).
  assert (∀ offset, (0 ≤ offset)%Z → DocumentPage root d p limit offset =
    Ok (MkDocumentPage (scanNode d p r, pathOf d p)
      (page limit offset (entry <$> merge_sort path_order rows)) (Z.of_nat (length rows)))) as Hpage.
  { intros offset Ho. unfold DocumentPage. pose proof (wf_ids _ _ Hwf p (mk_is_Some _ _ Hr)).
    destruct (Z.eqb_spec p 0); [lia|]. rewrite (page_directory_ok d p r) by done. cbn. fold rows.
    rewrite (mapR_ok _ entry); [cbn; by rewrite fmap_page|].
    intros [i q] (row & k & Hi & _)%page_subseteq%Hrows. unfold document_entry. cbn.
    rewrite nodeByIDTx_node_of by eauto. done. }
  exists (entry <$> merge_sort path_order rows). rewrite length_fmap, Hlen. split_and!; [| |done|].
  - intros path m. rewrite list_elem_of_fmap. split.
    + intros ([i q] & [= -> ->] & (row & k & Hi & ? & ? & ? & ?)%Hrows). exists i, row, k.
      split_and!; try done. cbn. unfold node_of. by rewrite Hi.
    + intros (i & row & k & Hi & ? & ? & ? & -> & ->). exists (i, pathOf d i). split.
      * unfold entry, node_of. cbn. by rewrite Hi.
      * apply Hrows. exists row, k. done.
  - eapply StronglySorted_map; [apply StronglySorted_strict; [exact Hs|]|].
    + apply Hnd, (NoDup_fmap_1 fst). apply NoDup_document_rows; [done|eauto].
    + intros [i q] [j t] (ri & ki & Hi & _ & Hti & _ & ->)%Hrows
        (rj & kj & Hj & _ & Htj & _ & ->)%Hrows [Hle Hne]. cbn.
      destruct Hle as [[Hp Hle]|[Hp _]]; cbn in Hp; [done|]. destruct Hne.
      rewrite (pathOf_inj d i j ri rj) by done. done.
  - intros Hn. apply read_pages_all; [lia| |by rewrite length_fmap, Hlen].
    intros offset Ho. by rewrite Hpage.
Qed.

End children.
