(* ===== verification/Walk.v ===== *)
(** * Paged tree walks (internal/store/walk.go)

    A walker holds one snapshot of the tree and a frontier with the next
    candidate of every sibling list it has opened; each page pops the least
    candidates in path order.  The snapshot is the argument [d]; the frontier,
    a temporary table, is a list of rows kept under its primary key.

    String order and paths, the seeks of a walker, and the invariant of its
    frontier. *)
From stdpp Require Import sorting.
From S2P Require Import Prelude GoText Names Tables Tree Listing TreeInv TreeFacts.

Definition MaxWalkPageSize : Z := 5000.
Definition MaxWalkDepth : Z := 256.
Definition MaxWalkPathBytes : Z := 16 * 1024.

Record WalkEntry := MkWalkEntry { EntryPath : string; EntryNode : Node }.

Record WalkStats := MkWalkStats {
  SetupNodeReads : Z;
  Pages : Z;
  EntriesReturned : Z;
  LastPageRowsExamined : Z;
  LastPageIndexedSeeks : Z;
}.

(** A row of [walk_frontier]. *)
Record frontier_row := MkFrontier { f_path : string; f_node : Z; f_depth : Z }.

(** [w_open] is [tx != nil]. *)
Record Walker := MkWalker {
  w_frontier : list frontier_row;
  w_open : bool;
  w_pageSize : Z;
  w_includeTrashed : bool;
  w_rootID : Z;
  w_done : bool;
  w_stats : WalkStats;
}.

(** [len(s)] as an int. *)
Definition len (s : string) : Z := Z.of_nat (slen s).

Definition BeginWalk `{Normalizer} (rootID : Z) (d : db) (rootPath : string) (pageSize : Z)
    (includeTrashed : bool) : res Walker :=
  _ ← check (negb ((pageSize <? 1) || (MaxWalkPageSize <? pageSize)))%Z ErrOther;
  _ ← check (Z.of_nat (length (splitPath rootPath)) <=? MaxWalkDepth)%Z ErrOther;
  _ ← check (len rootPath <=? MaxWalkPathBytes)%Z ErrOther;
  root ← nodeByPath rootID d rootPath;
  let canonicalRoot := pathOf d (ID root) in
  let rootDepth := Z.of_nat (length (splitPath canonicalRoot)) in
  _ ← check (rootDepth <=? MaxWalkDepth)%Z ErrOther;
  _ ← check (len canonicalRoot <=? MaxWalkPathBytes)%Z ErrOther;
  Ok (MkWalker [MkFrontier canonicalRoot (ID root) rootDepth] true pageSize includeTrashed (ID root)
        false (MkWalkStats (2 * (rootDepth + 1)) 0 0 0 0)).

(** [ORDER BY f.path, f.node_id] *)
Definition frontier_order (x y : frontier_row) : Prop :=
  path_order (f_node x, f_path x) (f_node y, f_path y).
#[export] Instance frontier_order_dec : RelDecision frontier_order.
Proof. intros x y. unfold frontier_order. apply _. Defined.

Definition same_key (x y : frontier_row) : bool :=
  String.eqb (f_path x) (f_path y) && (f_node x =? f_node y)%Z.

Definition insert_frontier (row : frontier_row) (F : list frontier_row) : res (list frontier_row) :=
  if existsb (same_key row) F then Err ErrOther else Ok (row :: F).

(** [None] is [sql.ErrNoRows]; the join drops rows without a node. *)
Definition popFrontier (d : db) (F : list frontier_row) :
    option (WalkEntry * Z * list frontier_row) :=
  match merge_sort frontier_order (filter (λ f, is_Some (nodes d !! f_node f)) F) with
  | [] => None
  | f :: _ =>
      r ← nodes d !! f_node f;
      Some (MkWalkEntry (f_path f) (scanNode d (f_node f) r), f_depth f,
            filter (λ g, same_key f g = false) F)
  end.

(** [ORDER BY n.name, n.id] *)
Definition name_order (d : db) (i j : Z) : Prop :=
  path_order (i, row_name d i) (j, row_name d j).
#[export] Instance name_order_dec d : RelDecision (name_order d).
Proof. intros i j. unfold name_order. apply _. Defined.

(** [n.name > ?] *)
Definition name_after (nm after : string) : bool :=
  negb (String.eqb nm after) && bool_decide (String.le after nm).

(** [WHERE n.parent_id = ? AND ... ORDER BY n.name, n.id LIMIT 1] *)
Definition seek (d : db) (parentID : Z) (P : Z → node_row → bool) : option Z :=
  head (merge_sort (name_order d)
          (matching (λ i r, bool_decide (parent_id r = Some parentID) && P i r) (nodes d))).

Definition walkSeekQuery (d : db) (parentID : Z) (includeTrashed : bool) (afterName : string)
    (afterID : Z) (first : bool) : option Z :=
  if negb includeTrashed
  then seek d parentID (λ i r, is_live r && (first || name_after (name r) afterName))
  else if negb first
  then seek d parentID (λ i r, String.eqb (name r) afterName && (afterID <? i)%Z)
  else seek d parentID (λ i r, true).

Definition walkNextNameSeekQuery (d : db) (parentID : Z) (afterName : string) : option Z :=
  seek d parentID (λ i r, name_after (name r) afterName).

(** The row a seed finds and the number of seeks it took. *)
Definition seed_target (d : db) (includeTrashed : bool) (parentID : Z) (afterName : string)
    (afterID : Z) (first : bool) : option Z * Z :=
  match walkSeekQuery d parentID includeTrashed afterName afterID first with
  | Some id => (Some id, 1%Z)
  | None => if includeTrashed && negb first
            then (walkNextNameSeekQuery d parentID afterName, 2%Z) else (None, 1%Z)
  end.

(** The new frontier and the number of seeks. *)
Definition seedNext (d : db) (includeTrashed : bool) (F : list frontier_row) (parentID : Z)
    (parentPath : string) (depth : Z) (afterName : string) (afterID : Z) (first : bool) :
    res (list frontier_row * Z) :=
  match seed_target d includeTrashed parentID afterName afterID first with
  | (None, seeks) => Ok (F, seeks)
  | (Some id, seeks) =>
      _ ← check (depth <=? MaxWalkDepth)%Z ErrOther;
      let path := child_path parentPath (row_name d id) in
      _ ← check (len path <=? MaxWalkPathBytes)%Z ErrOther;
      F ← insert_frontier (MkFrontier path id depth) F;
      Ok (F, seeks)
  end.

(** [path[:strings.LastIndexByte(path, '/')]], or the root. *)
Definition parent_path (path : string) : string :=
  match LastIndexByte path "/"%char with
  | Some (S i) => stake (S i) path
  | _ => "/"
  end.

(** The body of the page loop after an entry is popped. *)
Definition expand (d : db) (w : Walker) (F : list frontier_row) (entry : WalkEntry) (depth : Z) :
    res (list frontier_row * Z) :=
  let n := EntryNode entry in
  '(F, seeks) ← (match ParentID n with
                 | Some p =>
                     if negb (ID n =? w_rootID w)%Z
                     then seedNext d (w_includeTrashed w) F p (parent_path (EntryPath entry)) depth
                            (Name n) (ID n) false
                     else Ok (F, 0%Z)
                 | None => Ok (F, 0%Z)
                 end);
  if IsDir n then
    '(F, more) ← seedNext d (w_includeTrashed w) F (ID n) (EntryPath entry) (depth + 1) "" 0 true;
    Ok (F, seeks + more)%Z
  else Ok (F, seeks).

(** What a page has gathered: entries, seeks, frontier, and whether the
    frontier ran out.  [cancelled] says at which checkpoints the context has
    ended. *)
Fixpoint fill_page (d : db) (w : Walker) (cancelled : Z → bool) (room : nat)
    (entries : list WalkEntry) (seeks : Z) (F : list frontier_row) :
    res (list WalkEntry * Z * list frontier_row * bool) :=
  match room with
  | 0 => Ok (entries, seeks, F, false)
  | S room =>
      _ ← check (negb (cancelled (Z.of_nat (length entries)))) ErrOther;
      match popFrontier d F with
      | None => Ok (entries, seeks, F, true)
      | Some (entry, depth, F) =>
          '(F, more) ← expand d w F entry depth;
          fill_page d w cancelled room (entries ++ [entry]) (seeks + more) F
      end
  end.

Inductive next_result := Entries (l : list WalkEntry) | EOF | NextErr (e : store_error).

(** A failed page is rolled back to its savepoint. *)
Definition Next (d : db) (ended : bool) (cancelled : Z → bool) (w : Walker) :
    Walker * next_result :=
  if ended then (w, NextErr ErrOther)
  else if w_done w || negb (w_open w) then (w, EOF)
  else
    match fill_page d w cancelled (Z.to_nat (w_pageSize w)) [] 0 (w_frontier w) with
    | Err e => (w, NextErr e)
    | Ok (entries, seeks, F, exhausted) =>
        let rows := Z.of_nat (length entries) in
        let s := w_stats w in
        let w := MkWalker F (w_open w) (w_pageSize w) (w_includeTrashed w) (w_rootID w) exhausted
                   (MkWalkStats (SetupNodeReads s) (Pages s + 1) (EntriesReturned s + rows) rows
                      seeks) in
        match entries with
        | [] => (w, EOF)
        | _ => (w, Entries entries)
        end
    end.

Definition Stats (w : option Walker) : WalkStats :=
  match w with Some w => w_stats w | None => MkWalkStats 0 0 0 0 0 end.

(** The transaction and its connection are released. *)
Definition Close (w : Walker) : Walker :=
  MkWalker (w_frontier w) false (w_pageSize w) (w_includeTrashed w) (w_rootID w) (w_done w)
    (w_stats w).

(** * What a tree walk visits, and in which order *)

(** ** Strings in byte order *)

Lemma le_cons a s t : String.le (String a s) (String a t) ↔ String.le s t.
Proof.
  unfold String.le, String.leb. cbn. unfold Ascii.compare. by rewrite N.compare_refl.
Qed.

Lemma le_app p s t : String.le (p +:+ s) (p +:+ t) ↔ String.le s t.
Proof. induction p as [|a p IH]; [done|]. rewrite !sapp_cons, le_cons. exact IH. Qed.

Lemma le_prefix p s : String.le p (p +:+ s).
Proof. rewrite <- (sapp_nil_r p) at 1. apply le_app. by destruct s. Qed.

(** What the children of a directory at [pp] have in front of their names. *)
Definition child_base (pp : string) : string := if String.eqb pp "/" then "/" else pp +:+ "/".

Lemma child_path_base pp nm : child_path pp nm = child_base pp +:+ nm.
Proof. unfold child_path, child_base. destruct (String.eqb pp "/"); [done|]. by rewrite <- sapp_assoc. Qed.

Lemma LastIndexByte_slash s nm :
  mem_byte "/"%char nm = false → LastIndexByte (s +:+ String "/" nm) "/"%char = Some (slen s).
Proof.
  intros Hm. induction s as [|a s IH].
  - simpl. by rewrite (proj2 (LastIndexByte_None nm _) Hm).
  - rewrite sapp_cons. simpl. by rewrite IH.
Qed.

Lemma parent_path_child pp nm :
  HasPrefix pp "/" = true → mem_byte "/"%char nm = false → parent_path (child_path pp nm) = pp.
Proof.
  intros (r & ->)%HasPrefix_spec Hm. rewrite child_path_base. unfold child_base, parent_path.
  destruct (String.eqb_spec ("/" +:+ r) "/") as [->|Hne].
  - change ("/" +:+ nm) with ("" +:+ String "/" nm). by rewrite LastIndexByte_slash.
  - rewrite <- sapp_assoc. change ("/" +:+ nm) with (String "/" nm).
    rewrite LastIndexByte_slash by done. change (slen ("/" +:+ r)) with (S (slen r)). cbn beta iota.
    apply (stake_app ("/" +:+ r)).
Qed.

#[export] Instance path_order_antisym : AntiSymm (=) path_order.
Proof.
  intros [i p] [j q]. unfold path_order. cbn. intros [[Hn H1]|[-> H1]] [[Hn' H2]|[Heq H2]]; try done.
  - destruct Hn. by apply (anti_symm String.le).
  - f_equal. lia.
Qed.

(** ** Least elements *)

Lemma head_sorted {A} (R : relation A) `{!RelDecision R, !Total R, !Transitive R} l :
  match head (merge_sort R l) with
  | Some x => x ∈ l ∧ ∀ y, y ∈ l → R x y
  | None => l = []
  end.
Proof.
  destruct (merge_sort_spec R l) as (Hin & _ & Hs & Hlen).
  destruct (merge_sort R l) as [|x k]; cbn.
  - by destruct l.
  - apply StronglySorted_inv in Hs as [_ Hx]. split; [apply Hin; by left|].
    intros y Hy. apply Hin, elem_of_cons in Hy as [->|Hy].
    + by destruct (total R x x).
    + by eapply Forall_forall in Hx.
Qed.

Lemma StronglySorted_snoc {A} (R : relation A) l x :
  StronglySorted R l → (∀ y, y ∈ l → R y x) → StronglySorted R (l ++ [x]).
Proof.
  induction 1 as [|a l Hl IH Ha]; intros Hx; [by repeat constructor|]. cbn. constructor.
  - apply IH. intros y Hy. apply Hx. by right.
  - apply Forall_app. split; [done|]. apply Forall_singleton, Hx. by left.
Qed.

Section walk.
Context `{Normalizer} (root : Z) (d : db) (Hwf : tree_wf root d).
Context (incl : bool) (rt : Z).

(** ** The nodes of a walk *)

Definition shown (r : node_row) : Prop := incl = true ∨ trashed_at r = None.

(** The walk's root and everything below it, the trash only if asked for. *)
Definition walked (j : Z) : Prop :=
  ∃ r l, nodes d !! j = Some r ∧ shown r ∧ anc (nodes d) j l ∧ rt ∈ l.

Definition walk_child (p j : Z) : Prop :=
  ∃ r, nodes d !! j = Some r ∧ parent_id r = Some p ∧ shown r.

Definition key (i : Z) : Z * string := (i, pathOf d i).
Definition before (i j : Z) : Prop := path_order (key i) (key j).

#[local] Instance before_dec : RelDecision before.
Proof. intros i j. unfold before. apply _. Defined.
#[local] Instance before_total : Total before.
Proof. intros i j. unfold before. apply (total path_order). Qed.
#[local] Instance before_trans : Transitive before.
Proof. intros i j k. unfold before. apply (transitivity (R := path_order)). Qed.
#[local] Instance before_antisym : AntiSymm (=) before.
Proof. intros i j Hij Hji. by pose proof (anti_symm path_order _ _ Hij Hji) as [= ]. Qed.

Lemma walked_child p j : walked p → walk_child p j → walked j ∧ j ≠ rt.
Proof.
  intros (r & l & Hr & Hs & Hl & Hin) (s & Hj & Hp & Hs').
  assert (anc (nodes d) j (j :: l)) as Ha by by eapply anc_step.
  split; [exists s, (j :: l); split_and!; try done; by right|].
  intros ->. by apply anc_NoDup, NoDup_cons in Ha as [? _].
Qed.

Lemma walked_parent j : walked j → j ≠ rt → ∃ p, walked p ∧ walk_child p j.
Proof using Hwf.
  intros (r & l & Hr & Hs & Hl & Hin) Hne.
  destruct Hl as [j r' Hr' Hp|j r' p l Hr' Hp Hl]; assert (r' = r) as -> by congruence.
  - by apply list_elem_of_singleton in Hin.
  - destruct (wf_parent _ _ Hwf j r p Hr Hp) as (pr & Hpr & _). exists p. split; [|by exists r].
    exists pr, l. split_and!; try done.
    + destruct Hs as [?|Ht]; [by left|]. right. by eapply (wf_live_parent _ _ Hwf j r p pr).
    + apply elem_of_cons in Hin as [->|?]; done.
Qed.

Lemma walked_row j : walked j → is_Some (nodes d !! j).
Proof. intros (r & l & Hr & _). by exists r. Qed.

Lemma walk_child_path p j r :
  nodes d !! j = Some r → parent_id r = Some p →
  pathOf d j = child_base (pathOf d p) +:+ name r.
Proof using Hwf. intros Hr Hp. rewrite <- child_path_base. by eapply pathOf_child. Qed.

Lemma child_name_clean p j r :
  nodes d !! j = Some r → parent_id r = Some p → name r ≠ "" ∧ mem_byte "/"%char (name r) = false.
Proof using Hwf.
  intros Hr Hp. apply canonical_segment, (wf_name _ _ Hwf j); [done|]. intros ->.
  destruct (wf_root _ _ Hwf) as (r' & Hr' & Hp' & _). congruence.
Qed.

(** A directory comes before its entries. *)
Lemma before_child p j : walk_child p j → before p j ∧ p ≠ j.
Proof using Hwf.
  intros (r & Hr & Hp & _). destruct (child_name_clean _ _ _ Hr Hp) as [Hn _].
  assert (pathOf d p ≠ pathOf d j) as Hne.
  { rewrite (walk_child_path _ _ _ Hr Hp). intros Heq. apply (f_equal slen) in Heq.
    rewrite slen_app in Heq. destruct (name r); [done|]. cbn in Heq.
    unfold child_base in Heq. destruct (String.eqb_spec (pathOf d p) "/") as [He|He].
    - rewrite He in Heq. cbn in Heq. lia.
    - rewrite slen_app in Heq. cbn in Heq. lia. }
  split; [|by intros ->]. left. cbn. split; [done|].
  rewrite (walk_child_path _ _ _ Hr Hp). unfold child_base.
  destruct (String.eqb_spec (pathOf d p) "/") as [->|He]; [apply le_prefix|].
  rewrite <- sapp_assoc. apply le_prefix.
Qed.

(** Siblings come in the order of their names. *)
Lemma before_sibling p i j ri rj :
  nodes d !! i = Some ri → nodes d !! j = Some rj → parent_id ri = Some p → parent_id rj = Some p →
  before i j ↔ name_order d i j.
Proof using Hwf.
  intros Hi Hj Hpi Hpj. unfold before, name_order, key, path_order, row_name. cbn.
  rewrite (walk_child_path _ _ _ Hi Hpi), (walk_child_path _ _ _ Hj Hpj), Hi, Hj, le_app. cbn.
  assert (child_base (pathOf d p) +:+ name ri = child_base (pathOf d p) +:+ name rj ↔ name ri = name rj)
    as ->; [|done].
  split; [apply sapp_inv_l|by intros ->].
Qed.

(** ** Seeks *)

#[local] Instance name_order_total : Total (name_order d).
Proof. intros i j. unfold name_order. apply (total path_order). Qed.
#[local] Instance name_order_trans : Transitive (name_order d).
Proof. intros i j k. unfold name_order. apply (transitivity (R := path_order)). Qed.

Lemma seek_spec p P :
  match seek d p P with
  | Some j => (∃ r, nodes d !! j = Some r ∧ parent_id r = Some p ∧ P j r = true) ∧
      ∀ k r, nodes d !! k = Some r → parent_id r = Some p → P k r = true → name_order d j k
  | None => ∀ k r, nodes d !! k = Some r → parent_id r = Some p → P k r = false
  end.
Proof.
  unfold seek. set (l := matching _ _).
  assert (∀ k, k ∈ l ↔ ∃ r, nodes d !! k = Some r ∧ parent_id r = Some p ∧ P k r = true) as Hl.
  { intros k. unfold l. rewrite elem_of_matching. setoid_rewrite andb_true_iff.
    setoid_rewrite bool_decide_eq_true. done. }
  pose proof (head_sorted (name_order d) l) as Hh.
  destruct (head _) as [j|].
  - destruct Hh as [Hj Hmin]. apply Hl in Hj. split; [done|]. intros k r Hk Hp HP.
    apply Hmin, Hl. eauto.
  - intros k r Hk Hp. destruct (P k r) eqn:HP; [|done].
    assert (k ∈ l) as Hin by (apply Hl; eauto). rewrite Hh in Hin. by apply elem_of_nil in Hin.
Qed.

Lemma name_after_true nm after : name_after nm after = true ↔ nm ≠ after ∧ String.le after nm.
Proof.
  unfold name_after. rewrite andb_true_iff, negb_true_iff, String.eqb_neq, bool_decide_eq_true. done.
Qed.

(** The first entry of a directory. *)
Lemma seed_first p :
  let '(found, seeks) := seed_target d incl p "" 0 true in
  seeks = 1%Z ∧
  match found with
  | Some j => walk_child p j ∧ ∀ k, walk_child p k → before j k
  | None => ∀ k, ¬ walk_child p k
  end.
Proof using Hwf.
  assert (∀ o, o = seek d p (λ i r, incl || is_live r) →
    match o with
    | Some j => walk_child p j ∧ ∀ k, walk_child p k → before j k
    | None => ∀ k, ¬ walk_child p k
    end) as Hgen.
  { intros o ->. pose proof (seek_spec p (λ i r, incl || is_live r)) as Hs.
    assert (∀ r, incl || is_live r = true ↔ shown r) as Hshown.
    { intros r. unfold shown, is_live. rewrite orb_true_iff, bool_decide_eq_true. done. }
    destruct (seek _ _ _) as [j|].
    - destruct Hs as [(r & Hj & Hp & HP) Hmin]. split; [exists r; by rewrite <- Hshown|].
      intros k (s & Hk & Hpk & Hsk). rewrite (before_sibling p j k r s) by done.
      eapply Hmin; [done|done|]. by apply Hshown.
    - intros k (s & Hk & Hpk & Hsk). apply Hshown in Hsk. by rewrite (Hs k s) in Hsk. }
  unfold seed_target, walkSeekQuery. destruct incl; cbn [negb andb].
  - specialize (Hgen _ eq_refl). cbn in Hgen. by destruct (seek _ _ _).
  - assert (seek d p (λ i r, is_live r && (true || name_after (name r) "")) =
      seek d p (λ i r, false || is_live r)) as ->.
    { unfold seek. do 2 f_equal. unfold matching. f_equal. apply list_filter_iff.
      intros [i r]. cbn. by rewrite andb_true_r. }
    specialize (Hgen _ eq_refl). by destruct (seek _ _ _).
Qed.

(** The entry after [i]. *)
Lemma seed_next p i ri :
  nodes d !! i = Some ri → parent_id ri = Some p → shown ri →
  let '(found, seeks) := seed_target d incl p (name ri) i false in
  (1 ≤ seeks ≤ 2)%Z ∧
  match found with
  | Some j => walk_child p j ∧ before i j ∧ i ≠ j ∧
      ∀ k, walk_child p k → before i k → i ≠ k → before j k
  | None => ∀ k, walk_child p k → before i k → i = k
  end.
Proof using Hwf.
  intros Hi Hp Hsh. assert (∀ k rk, nodes d !! k = Some rk → parent_id rk = Some p →
    before i k ↔ (name ri ≠ name rk ∧ String.le (name ri) (name rk)) ∨ (name ri = name rk ∧ (i ≤ k)%Z))
    as Hord.
  { intros k rk Hk Hpk. rewrite (before_sibling p i k ri rk) by done.
    unfold name_order, path_order, row_name. by rewrite Hi, Hk. }
  unfold seed_target, walkSeekQuery, walkNextNameSeekQuery. destruct (decide (incl = true)) as [Hin|Hin].
  - rewrite Hin. cbn [negb andb].
    assert (∀ r, shown r) as Hall by (intros r; by left).
    pose proof (seek_spec p (λ j r, String.eqb (name r) (name ri) && (i <? j)%Z)) as H1'.
    pose proof (seek_spec p (λ j r, name_after (name r) (name ri))) as H2'.
    assert (∀ k rk, String.eqb (name rk) (name ri) && (i <? k)%Z = true ↔ name rk = name ri ∧ (i < k)%Z)
      as Hsame by (intros k rk; by rewrite andb_true_iff, String.eqb_eq, Z.ltb_lt).
    destruct (seek d p _) as [j|].
    + split; [lia|]. destruct H1' as [(r & Hj & Hpj & HP) Hmin]. apply Hsame in HP as [Hn Hlt].
      split_and!; [by exists r|rewrite (Hord j r) by done; right; split; [done|lia]|lia|].
      intros k (rk & Hk & Hpk & _) Hb Hne. rewrite (before_sibling p j k r rk) by done.
      rewrite (Hord k rk) in Hb by done. destruct Hb as [[Hnn Hle]|[Heq Hle]].
      * left. unfold row_name. rewrite Hj, Hk. cbn. split; congruence.
      * eapply Hmin; [done|done|]. apply Hsame. split; [done|lia].
    + destruct (seek d p _) as [j|].
      * split; [lia|]. destruct H2' as [(r & Hj & Hpj & HP) Hmin]. apply name_after_true in HP as [Hn Hle].
        split_and!; [by exists r|rewrite (Hord j r) by done; left; split; [congruence|done]| |].
        { intros ->. congruence. }
        intros k (rk & Hk & Hpk & _) Hb Hne. rewrite (before_sibling p j k r rk) by done.
        rewrite (Hord k rk) in Hb by done. destruct Hb as [[Hnn Hle']|[Heq Hle']].
        -- eapply Hmin; [done|done|]. apply name_after_true. split; [congruence|done].
        -- exfalso. specialize (H1' k rk Hk Hpk). apply not_true_iff_false in H1'.
           apply H1', Hsame. split; [done|lia].
      * split; [lia|]. intros k (rk & Hk & Hpk & _) Hb. rewrite (Hord k rk) in Hb by done.
        destruct (decide (i = k)) as [|Hne]; [done|]. exfalso. destruct Hb as [[Hnn Hle']|[Heq Hle']].
        -- specialize (H2' k rk Hk Hpk). apply not_true_iff_false in H2'.
           apply H2', name_after_true. split; [congruence|done].
        -- specialize (H1' k rk Hk Hpk). apply not_true_iff_false in H1'.
           apply H1', Hsame. split; [done|lia].
  - apply not_true_is_false in Hin. rewrite Hin. cbn [negb andb orb].
    assert (∀ r, shown r ↔ trashed_at r = None) as Hlive.
    { intros r. unfold shown. rewrite Hin. naive_solver. }
    pose proof (seek_spec p (λ j r, is_live r && name_after (name r) (name ri))) as Hs.
    assert (∀ k rk, nodes d !! k = Some rk → parent_id rk = Some p → trashed_at rk = None → i ≠ k →
      before i k ↔ is_live rk && name_after (name rk) (name ri) = true) as Hafter.
    { intros k rk Hk Hpk Ht Hne. rewrite (Hord k rk), andb_true_iff, name_after_true by done.
      unfold is_live. rewrite bool_decide_eq_true. split.
      - intros [[??]|[Heq _]]; [by split_and!|]. exfalso. apply Hne.
        apply Hlive in Hsh. eapply (wf_unique _ _ Hwf i k ri rk p); try done; by eapply (wf_live _ _ Hwf).
      - intros (_ & ? & ?). left. split; congruence. }
    destruct (seek d p _) as [j|].
    + destruct Hs as [(r & Hj & Hpj & HP) Hmin]. split; [lia|].
      pose proof HP as [Ht%bool_decide_eq_true [Hn Hle]%name_after_true]%andb_true_iff.
      split_and!.
      * exists r. by rewrite Hlive.
      * apply (Hord j r Hj Hpj). left. split; congruence.
      * intros ->. congruence.
      * intros k (rk & Hk & Hpk & Hsk) Hb Hne. apply Hlive in Hsk.
        rewrite (before_sibling p j k r rk) by done. eapply Hmin; [done|done|].
        by rewrite <- (Hafter k rk).
    + split; [lia|]. intros k (rk & Hk & Hpk & Hsk) Hb. apply Hlive in Hsk.
      destruct (decide (i = k)) as [|Hne]; [done|]. exfalso.
      apply (Hafter k rk) in Hb; [|done..]. by rewrite (Hs k rk) in Hb.
Qed.

(** ** The frontier *)

Definition depth_of (i : Z) : Z := Z.of_nat (length (splitPath (pathOf d i))).
Definition row_of (i : Z) : frontier_row := MkFrontier (pathOf d i) i (depth_of i).

(** Every node of the walk is within the walker's bounds. *)
Definition within_limits : Prop :=
  ∀ j, walked j → (depth_of j ≤ MaxWalkDepth)%Z ∧ (len (pathOf d j) ≤ MaxWalkPathBytes)%Z.

(** [E] has been returned; [F] holds the ids on the frontier. *)
Record walk_inv (E F : list Z) : Prop := {
  wi_walked i : i ∈ E ++ F → walked i;
  wi_nodup : NoDup (E ++ F);
  wi_sorted : StronglySorted before E;
  wi_before e f : e ∈ E → f ∈ F → before e f;
  wi_root : rt ∈ E ++ F;
  wi_parent p j : j ∈ E ++ F → j ≠ rt → walk_child p j → p ∈ E;
  wi_one p i j : i ∈ F → j ∈ F → walk_child p i → walk_child p j → i = j;
  wi_cover p j : p ∈ E → walk_child p j → j ∉ E → ∃ f, f ∈ F ∧ walk_child p f ∧ before f j;
}.

Lemma before_refl i : before i i.
Proof. by destruct (total before i i). Qed.

(** Nothing ahead of the frontier is missing. *)
Lemma walk_covered E F j : walk_inv E F → walked j → j ∉ E → ∃ f, f ∈ F ∧ before f j.
Proof using Hwf.
  intros Hinv Hj. pose proof Hj as (r0 & l & _ & _ & Hl & _). clear r0.
  induction Hl as [j r Hr Hp|j r p l Hr Hp Hl IH]; intros Hni;
    (destruct (decide (j = rt)) as [->|Hne];
      [pose proof (wi_root _ _ Hinv) as [?|?]%elem_of_app; [done|exists rt; split; [done|apply before_refl]]|]);
    destruct (walked_parent _ Hj Hne) as (q & Hq & (r' & Hr' & Hpq & Hs)); assert (r' = r) as -> by congruence.
  - congruence.
  - assert (q = p) as -> by congruence. assert (walk_child p j) as Hc by by exists r.
    destruct (decide (p ∈ E)) as [Hin|Hin].
    + destruct (wi_cover _ _ Hinv p j Hin Hc Hni) as (f & ? & _ & ?). by exists f.
    + destruct (IH Hq Hin) as (f & Hf & Hb). exists f. split; [done|].
      etrans; [exact Hb|]. by apply before_child.
Qed.

Lemma walk_child_fun p q j : walk_child p j → walk_child q j → p = q.
Proof. intros (r & Hr & Hp & _) (s & Hs & Hq & _). congruence. Qed.

(** Popping a least entry and pushing its next sibling and first child. *)
Lemma walk_inv_step E F F' f sib kid :
  walk_inv E F → f ∈ F → (∀ g, g ∈ F → before f g) → (∀ g, g ∈ F' ↔ g ∈ F ∧ g ≠ f) → NoDup F' →
  match sib with
  | Some j => f ≠ rt ∧ ∃ p, walk_child p f ∧ walk_child p j ∧ before f j ∧ f ≠ j ∧
      ∀ k, walk_child p k → before f k → f ≠ k → before j k
  | None => f ≠ rt → ∀ p k, walk_child p f → walk_child p k → before f k → f = k
  end →
  match kid with
  | Some j => walk_child f j ∧ ∀ k, walk_child f k → before j k
  | None => ∀ k, ¬ walk_child f k
  end →
  let new := option_list sib ++ option_list kid in
  walk_inv (E ++ [f]) (new ++ F').
Proof using Hwf.
  intros Hinv Hf Hmin HF' HndF' Hsib Hkid new.
  assert (f ∉ E) as HfE.
  { intros Hin. pose proof (wi_nodup _ _ Hinv) as (_ & Hdis & _)%NoDup_app. by apply (Hdis f). }
  assert (walked f) as Hwf' by (apply (wi_walked _ _ Hinv), elem_of_app; by right).
  assert (∀ p, f ≠ rt → walk_child p f → p ∈ E) as Hpar.
  { intros p Hne Hc. apply (wi_parent _ _ Hinv p f); [apply elem_of_app; by right|done|done]. }
  assert (∀ j, before f j → f ≠ j → j ∉ E) as Hahead.
  { intros j Hb Hne Hin. apply Hne. apply (anti_symm before); [done|]. by apply (wi_before _ _ Hinv). }
  (* the two kinds of new rows *)
  assert (∀ j, j ∈ new → before f j ∧ f ≠ j ∧ walked j ∧ j ∉ F ∧ j ≠ rt ∧
    ((f ≠ rt ∧ ∃ p, walk_child p f ∧ walk_child p j ∧ sib = Some j) ∨ (walk_child f j ∧ kid = Some j))) as Hnew.
  { intros j [Hj|Hj]%elem_of_app.
    - destruct sib as [s|]; [|by apply elem_of_nil in Hj]. apply list_elem_of_singleton in Hj as ->.
      destruct Hsib as (Hne & p & Hpf & Hps & Hb & Hfs & _).
      destruct (walked_child p s) as [Hws Hsr]; [|done|].
      { apply (wi_walked _ _ Hinv), elem_of_app. left. by apply Hpar. }
      split_and!; try done.
      + intros Hin. by apply Hfs, (wi_one _ _ Hinv p).
      + left. split; [done|]. by exists p.
    - destruct kid as [c|]; [|by apply elem_of_nil in Hj]. apply list_elem_of_singleton in Hj as ->.
      destruct Hkid as [Hc _]. destruct (before_child _ _ Hc) as [Hb Hne].
      destruct (walked_child _ _ Hwf' Hc) as [Hwc Hcr].
      split_and!; try done; [|by right].
      intros Hin. apply HfE, (wi_parent _ _ Hinv f c); [apply elem_of_app; by right|done|done]. }
  assert (∀ p, walk_child p f → walk_child f p → False) as Hloop.
  { intros p [Hb Hne]%before_child [Hb' _]%before_child. by apply Hne, (anti_symm before). }
  assert (∀ p j, walk_child p f → walk_child p j → walk_child f j → False) as Hlevels.
  { intros p j Hc Hpj Hfj. rewrite (walk_child_fun _ _ _ Hpj Hfj) in Hc.
    by destruct (before_child _ _ Hc). }
  assert (NoDup new ∧ ∀ j, j ∈ new → j ∉ F') as [Hnn HnF'].
  { split; [|intros j Hj [Hin _]%HF'; by apply Hnew in Hj as (_ & _ & _ & ? & _)].
    unfold new. destruct sib as [s|], kid as [c|]; cbn; repeat constructor; try by intros ?%elem_of_nil.
    intros ->%list_elem_of_singleton. destruct Hsib as (_ & p & ? & ? & _), Hkid as [? _]. eauto. }
  split.
  - intros i. rewrite !elem_of_app, !list_elem_of_singleton.
    intros [[?| ->]|[Hi|Hi%HF']]; [|done|by apply Hnew in Hi as (_ & _ & ? & _)|];
      apply (wi_walked _ _ Hinv), elem_of_app; naive_solver.
  - pose proof (wi_nodup _ _ Hinv) as (HndE & Hdis & _)%NoDup_app.
    apply NoDup_app. split_and!.
    + apply NoDup_app. split_and!; [done| |apply NoDup_singleton].
      intros x Hx ->%list_elem_of_singleton. done.
    + intros x [Hx| ->%list_elem_of_singleton]%elem_of_app [Hn|Hn%HF']%elem_of_app.
      * apply Hnew in Hn as (Hb & Hne & _). by apply (Hahead x).
      * apply (Hdis x Hx). by destruct Hn.
      * by apply Hnew in Hn as (_ & ? & _).
      * by destruct Hn.
    + by apply NoDup_app.
  - apply StronglySorted_snoc; [apply Hinv|]. intros x Hx. by apply (wi_before _ _ Hinv).
  - intros e g. rewrite !elem_of_app, !list_elem_of_singleton.
    assert (∀ x, x ∈ new ∨ x ∈ F' → before f x) as Hafter.
    { intros x [Hx|[Hx _]%HF']; [by apply Hnew in Hx as (? & _)|by apply Hmin]. }
    intros [He| ->] Hg; [|by apply Hafter]. etrans; [|by apply Hafter]. by apply (wi_before _ _ Hinv).
  - pose proof (wi_root _ _ Hinv) as Hr. rewrite !elem_of_app, !list_elem_of_singleton in *.
    destruct Hr as [?|?]; [tauto|]. destruct (decide (rt = f)); [tauto|]. right. right. by apply HF'.
  - intros p j. rewrite !elem_of_app, !list_elem_of_singleton.
    assert (j ∈ E ++ F → j ≠ rt → walk_child p j → p ∈ E) as Hold by apply (wi_parent _ _ Hinv).
    rewrite elem_of_app in Hold. intros [[?| ->]|[Hj|[Hj _]%HF']] Hne Hc; [left; tauto..| |left; tauto].
    apply Hnew in Hj as (_ & _ & _ & _ & _ & [(Hfr & q & Hqf & Hqj & _)|[Hfj _]]).
    + left. rewrite (walk_child_fun _ _ _ Hc Hqj). by apply Hpar.
    + right. by apply (walk_child_fun _ _ j).
  - intros p i j. rewrite !elem_of_app. intros Hi Hj Hpi Hpj.
    assert (∀ x y, x ∈ new → y ∈ F' → walk_child p x → walk_child p y → x = y) as Hmix.
    { intros x y Hx [Hy Hyf]%HF' Hpx Hpy. exfalso.
      apply Hnew in Hx as (_ & _ & _ & _ & _ & [(Hfr & q & Hqf & Hqx & _)|[Hfx _]]).
      - rewrite <- (walk_child_fun _ _ _ Hpx Hqx) in Hqf. by apply Hyf, (wi_one _ _ Hinv p).
      - rewrite (walk_child_fun _ _ _ Hpx Hfx) in Hpy. destruct (walked_child _ _ Hwf' Hpy) as [_ ?].
        apply HfE, (wi_parent _ _ Hinv f y); [apply elem_of_app; by right|done|done]. }
    destruct Hi as [Hi|Hi], Hj as [Hj|Hj]; [|by apply Hmix|symmetry; by apply Hmix|].
    + apply Hnew in Hi as (_ & _ & _ & _ & _ & Hi), Hj as (_ & _ & _ & _ & _ & Hj).
      destruct Hi as [(_ & q & Hqf & Hqi & Hs)|[Hfi Hk]], Hj as [(_ & q' & Hqf' & Hqj & Hs')|[Hfj Hk']];
        try congruence; exfalso.
      * apply (Hlevels q j); [done| |done]. by rewrite (walk_child_fun _ _ _ Hqi Hpi).
      * apply (Hlevels q' i); [done| |done]. by rewrite (walk_child_fun _ _ _ Hqj Hpj).
    + apply HF' in Hi as [? _], Hj as [? _]. by apply (wi_one _ _ Hinv p).
  - intros p j. rewrite !elem_of_app, !list_elem_of_singleton. intros [Hp| ->] Hc Hni.
    + assert (j ∉ E ∧ j ≠ f) as [HjE Hjf] by tauto.
      destruct (wi_cover _ _ Hinv p j Hp Hc HjE) as (g & Hg & Hpg & Hb).
      destruct (decide (g = f)) as [->|Hgf].
      2: { exists g. rewrite elem_of_app, HF'. tauto. }
      assert (f ≠ rt) as Hfr.
      { destruct (walked_child p f) as [_ ?]; [|done|done]. apply (wi_walked _ _ Hinv), elem_of_app. by left. }
      destruct sib as [x|].
      * destruct Hsib as (_ & q & Hqf & Hqx & _ & _ & Hleast).
        rewrite (walk_child_fun _ _ _ Hqf Hpg) in Hqx, Hleast. exists x. split_and!; [|done|].
        { apply elem_of_app. left. apply elem_of_app. left. by left. }
        apply Hleast; [done|done|]. by intros ->.
      * exfalso. apply Hjf. symmetry. by apply (Hsib Hfr p j).
    + destruct kid as [c|]; [|by destruct (Hkid j)]. destruct Hkid as [Hfc Hleast].
      exists c. split_and!; [|done|by apply Hleast].
      apply elem_of_app. left. apply elem_of_app. right. by left.
Qed.
End walk.
