(* ===== verification/WalkProps.v ===== *)
(** * The pages of a walk

    One page step by step, and any sequence of page requests, interrupted ones
    included.

    The pages of a walk against the sorted listing of the whole subtree, under
    any pattern of interrupted requests, and the bounds every page keeps. *)
From stdpp Require Import sorting.
From S2P Require Import Prelude GoText Names Tables Tree TreeInv TreeFacts Listing Walk Trash StoreMachine StoreProps.

#[export] Instance frontier_order_total : Total frontier_order.
Proof. intros x y. unfold frontier_order. apply (total path_order). Qed.
#[export] Instance frontier_order_trans : Transitive frontier_order.
Proof. intros x y z. unfold frontier_order. apply (transitivity (R := path_order)). Qed.

Section pages.
Context `{Normalizer} (root : Z) (d : db) (Hwf : tree_wf root d).
Context (incl : bool) (rt : Z) (Hlim : within_limits d incl rt).
Notation walk_inv := (walk_inv d incl rt).
Notation walked := (walked d incl rt).
Notation before := (before d).

Definition rows_of (F : list frontier_row) : Prop := Forall (λ f, f = row_of d (f_node f)) F.
Definition entry_of (i : Z) : WalkEntry := MkWalkEntry (pathOf d i) (node_of d i).

Lemma walk_inv_perm E F F' : F ≡ₚ F' → walk_inv E F → walk_inv E F'.
Proof.
  intros Hp Hinv. assert (∀ x, x ∈ F' ↔ x ∈ F) as HF by (intros x; by rewrite Hp).
  split.
  - intros i. rewrite elem_of_app, HF, <- elem_of_app. apply Hinv.
  - rewrite <- Hp. apply Hinv.
  - apply Hinv.
  - intros e f He. rewrite HF. by apply Hinv.
  - rewrite elem_of_app, HF, <- elem_of_app. apply Hinv.
  - intros p j. rewrite elem_of_app, HF, <- elem_of_app. apply Hinv.
  - intros p i j. rewrite !HF. apply Hinv.
  - intros p j Hp' Hc Hj. destruct (wi_cover _ _ _ _ _ Hinv p j Hp' Hc Hj) as (f & Hf & ?).
    exists f. by rewrite HF.
Qed.

Lemma node_of_row i r : nodes d !! i = Some r → node_of d i = scanNode d i r.
Proof. intros Hr. unfold node_of. by rewrite Hr. Qed.

(** ** Popping *)

Lemma popFrontier_spec F :
  rows_of F → (∀ i, i ∈ f_node <$> F → walked i) → NoDup (f_node <$> F) →
  match popFrontier d F with
  | None => F = []
  | Some (entry, depth, F') => ∃ i, i ∈ f_node <$> F ∧ (∀ j, j ∈ f_node <$> F → before i j) ∧
      entry = entry_of i ∧ depth = depth_of d i ∧ rows_of F' ∧ NoDup (f_node <$> F') ∧
      ∀ j, j ∈ f_node <$> F' ↔ j ∈ f_node <$> F ∧ j ≠ i
  end.
Proof.
  intros Hrows Hw Hnd. unfold popFrontier.
  assert (filter (λ f, is_Some (nodes d !! f_node f)) F = F) as ->.
  { apply list_filter_id. intros f Hf. apply (walked_row d incl rt), Hw. by apply list_elem_of_fmap_2. }
  pose proof (head_sorted frontier_order F) as Hh. destruct (merge_sort frontier_order F) as [|f l].
  { exact Hh. }
  cbn in Hh. destruct Hh as [Hf Hmin]. pose proof Hrows as Hrows'. unfold rows_of in Hrows'.
  rewrite Forall_forall in Hrows'. pose proof (Hrows' f Hf) as Hfr.
  assert (f_node f ∈ f_node <$> F) as Hin by by apply list_elem_of_fmap_2.
  destruct (walked_row d incl rt _ (Hw _ Hin)) as [r Hr]. rewrite Hr. cbn.
  exists (f_node f). split_and!.
  - done.
  - intros j (g & -> & Hg)%list_elem_of_fmap. specialize (Hmin g Hg). unfold frontier_order in Hmin.
    rewrite Hfr, (Hrows' g Hg) in Hmin. exact Hmin.
  - unfold entry_of. rewrite (node_of_row _ _ Hr). f_equal. by rewrite Hfr.
  - by rewrite Hfr.
  - apply Forall_forall. intros g [_ Hg]%list_elem_of_filter. by apply Hrows'.
  - by apply NoDup_fmap_filter.
  - intros j. rewrite !list_elem_of_fmap. setoid_rewrite list_elem_of_filter. unfold same_key.
    split.
    + intros (g & -> & Hk & Hg). split; [by exists g|]. intros Heq.
      rewrite Heq, Z.eqb_refl, andb_true_r in Hk. apply String.eqb_neq in Hk. apply Hk.
      rewrite Hfr, (Hrows' g Hg). cbn. by rewrite Heq.
    + intros [(g & -> & Hg) Hne]. exists g. split_and!; [done| |done].
      apply andb_false_iff. right. apply Z.eqb_neq. congruence.
Qed.

(** ** Pushing *)

Lemma depth_child p j r :
  nodes d !! j = Some r → parent_id r = Some p → depth_of d j = (depth_of d p + 1)%Z.
Proof using Hwf.
  intros Hj Hp. destruct (wf_parent _ _ Hwf j r p Hj Hp) as (pr & Hpr & _).
  destruct (wf_anc _ _ Hwf p) as [l Hl]; [by exists pr|]. unfold depth_of.
  rewrite !(splitPath_pathOf root) by eauto. rewrite (path_segs_step _ _ _ _ _ Hj Hp Hl), length_app.
  cbn. lia.
Qed.

Lemma push_ok F p j r seeks nm id first :
  rows_of F → nodes d !! j = Some r → parent_id r = Some p → walked j → j ∉ f_node <$> F →
  seed_target d incl p nm id first = (Some j, seeks) →
  seedNext d incl F p (pathOf d p) (depth_of d j) nm id first = Ok (row_of d j :: F, seeks).
Proof using Hwf Hlim.
  intros Hrows Hj Hp Hw Hni Ht. unfold seedNext. rewrite Ht. cbv zeta.
  destruct (Hlim j Hw) as [Hd Hl].
  rewrite (proj2 (Z.leb_le _ _) Hd). cbn [check mbind result_bind].
  assert (child_path (pathOf d p) (row_name d j) = pathOf d j) as ->.
  { unfold row_name. rewrite Hj. symmetry. by eapply pathOf_child. }
  rewrite (proj2 (Z.leb_le _ _) Hl). cbn [check mbind result_bind]. unfold insert_frontier.
  assert (existsb (same_key (MkFrontier (pathOf d j) j (depth_of d j))) F = false) as ->; [|done].
  apply not_true_iff_false. rewrite existsb_exists. intros (g & Hg & Hk). apply Hni.
  apply andb_true_iff in Hk as [_ Hk%Z.eqb_eq]. cbn in Hk. subst j.
  apply list_elem_of_fmap_2. by apply list_elem_of_In.
Qed.

Lemma expand_ok w E F F' i :
  w_includeTrashed w = incl → w_rootID w = rt →
  walk_inv E (f_node <$> F) → i ∈ f_node <$> F → (∀ j, j ∈ f_node <$> F → before i j) →
  (∀ j, j ∈ f_node <$> F' ↔ j ∈ f_node <$> F ∧ j ≠ i) → NoDup (f_node <$> F') → rows_of F' →
  ∃ F'' seeks, expand d w F' (entry_of i) (depth_of d i) = Ok (F'', seeks) ∧ (seeks ≤ 3)%Z ∧
    rows_of F'' ∧ walk_inv (E ++ [i]) (f_node <$> F'').
Proof using Hwf Hlim.
  intros Hincl Hrt Hinv Hi Hmin HF' Hnd Hrows.
  assert (walked i) as Hw by (apply (wi_walked _ _ _ _ _ Hinv), elem_of_app; by right).
  pose proof Hw as (r & l & Hr & Hsh & _).
  assert (∃ sib seeks1, (if decide (i = rt) then seeks1 = 0%Z ∧ sib = None
    else ∃ p, parent_id r = Some p ∧ seed_target d incl p (name r) i false = (sib, seeks1)) ∧
    (0 ≤ seeks1 ≤ 2)%Z ∧
    match sib with
    | Some j => i ≠ rt ∧ ∃ p, walk_child d incl p i ∧ walk_child d incl p j ∧ before i j ∧ i ≠ j ∧
        ∀ k, walk_child d incl p k → before i k → i ≠ k → before j k
    | None => i ≠ rt → ∀ p k, walk_child d incl p i → walk_child d incl p k → before i k → i = k
    end) as (sib & seeks1 & Hs1 & Hb1 & Hsib).
  { destruct (decide (i = rt)) as [Heq|Hne].
    { exists None, 0%Z. split_and!; try done. }
    destruct (walked_parent root d Hwf incl rt i Hw Hne) as (p & _ & (r' & Hr' & Hp & _)).
    assert (r' = r) as -> by congruence.
    pose proof (seed_next root d Hwf incl p i r Hr Hp Hsh) as Hseed.
    destruct (seed_target d incl p (name r) i false) as [[j|] s] eqn:Hst; destruct Hseed as [Hbs Hseed].
    - exists (Some j), s. split_and!; [by exists p|lia|lia|done|]. exists p.
      split; [by exists r|]. exact Hseed.
    - exists None, s. split_and!; [by exists p|lia|lia|]. intros _ q k Hq.
      rewrite (walk_child_fun d incl q p i Hq) by by exists r. apply Hseed. }
  assert (∃ kid seeks2, (if decide (kind r = dir) then seed_target d incl i "" 0 true = (kid, seeks2)
    else seeks2 = 0%Z ∧ kid = None) ∧ (0 ≤ seeks2 ≤ 1)%Z ∧
    match kid with
    | Some j => walk_child d incl i j ∧ ∀ k, walk_child d incl i k → before j k
    | None => ∀ k, ¬ walk_child d incl i k
    end) as (kid & seeks2 & Hs2 & Hb2 & Hkid).
  { destruct (decide (kind r = dir)) as [Hk|Hk].
    - pose proof (seed_first root d Hwf incl i) as Hseed.
      destruct (seed_target d incl i "" 0 true) as [kid s]. destruct Hseed as [-> Hseed].
      exists kid, 1%Z. split_and!; done.
    - exists None, 0%Z. split_and!; try done. intros k (s & Hks & Hp & _).
      destruct (wf_parent _ _ Hwf k s i Hks Hp) as (r' & Hr' & Hk'). congruence. }
  pose proof (walk_inv_step root d Hwf incl rt E _ _ i sib kid Hinv Hi Hmin HF' Hnd Hsib Hkid) as Hstep.
  cbv zeta in Hstep. pose proof (wi_nodup _ _ _ _ _ Hstep) as (_ & _ & HndN)%NoDup_app.
  set (F1 := (row_of d <$> option_list sib) ++ F').
  set (F2 := (row_of d <$> option_list kid) ++ F1).
  exists F2, (seeks1 + seeks2)%Z.
  assert (rows_of F1 ∧ rows_of F2) as [HR1 HR2].
  { assert (∀ o G, rows_of G → rows_of ((row_of d <$> option_list o) ++ G)) as Hadd.
    { intros [j|] G HG; [by constructor|done]. }
    split; [by apply Hadd|]. by apply Hadd, Hadd. }
  split_and!; [|lia|done|].
  2: { eapply walk_inv_perm; [|exact Hstep]. unfold F2, F1. rewrite !fmap_app.
       destruct sib, kid; cbn; try done. apply perm_swap. }
  assert (∀ j, j ∈ option_list sib → j ∉ f_node <$> F') as Hsn.
  { intros j Hj Hin. pose proof HndN as (_ & Hdis & _)%NoDup_app. apply (Hdis j); [|done].
    apply elem_of_app. by left. }
  assert (∀ j, j ∈ option_list kid → j ∉ f_node <$> F1) as Hkn.
  { intros j Hj Hin. unfold F1 in Hin. rewrite fmap_app in Hin.
    pose proof HndN as ((_ & Hd1 & _)%NoDup_app & Hd2 & _)%NoDup_app.
    apply elem_of_app in Hin as [Hin|Hin].
    - apply (Hd1 j); [|done]. destruct sib as [x|]; [|by apply elem_of_nil in Hin].
      apply list_elem_of_singleton in Hin as ->. by left.
    - apply (Hd2 j); [|done]. apply elem_of_app. by right. }
  assert (∀ j, j ∈ option_list sib ++ option_list kid → walked j) as Hwn.
  { intros j Hj. apply (wi_walked _ _ _ _ _ Hstep). rewrite !elem_of_app. apply elem_of_app in Hj. tauto. }
  unfold expand. cbn [EntryNode EntryPath entry_of]. rewrite (node_of_row _ _ Hr).
  cbn [scanNode ParentID ID Name]. rewrite Hincl, Hrt.
  assert ((match parent_id r with
    | Some p => if negb (i =? rt)%Z
                then seedNext d incl F' p (parent_path (pathOf d i)) (depth_of d i) (name r) i false
                else Ok (F', 0%Z)
    | None => Ok (F', 0%Z)
    end) = Ok (F1, seeks1)) as ->.
  { destruct (decide (i = rt)) as [Heq|Hne].
    { destruct Hs1 as [-> ->]. rewrite (proj2 (Z.eqb_eq _ _) Heq). by destruct (parent_id r). }
    destruct Hs1 as (p & Hp & Hst). rewrite Hp, (proj2 (Z.eqb_neq _ _) Hne). cbn [negb].
    assert (parent_path (pathOf d i) = pathOf d p) as ->.
    { rewrite (pathOf_child root d i r p Hwf Hr Hp). apply parent_path_child.
      - destruct (wf_parent _ _ Hwf i r p Hr Hp) as (pr & Hpr & _).
        rewrite (pathOf_segs root) by eauto. apply HasPrefix_spec. eauto.
      - by apply (child_name_clean root d Hwf p i r). }
    destruct sib as [j|]; [|unfold seedNext; by rewrite Hst].
    destruct Hsib as (_ & q & Hqi & Hqj & _).
    assert (walk_child d incl p i) as Hpi by by exists r.
    rewrite (walk_child_fun d incl q p i Hqi Hpi) in Hqj. destruct Hqj as (rj & Hj & Hpj & _).
    assert (depth_of d i = depth_of d j) as ->
      by (rewrite (depth_child p i r), (depth_child p j rj); done).
    apply (push_ok F' p j rj); try done; [apply Hwn|apply Hsn]; set_solver. }
  cbn [mbind result_bind]. unfold IsDir. cbn [scanNode NodeKind].
  destruct (decide (kind r = dir)) as [Hk|Hk].
  - rewrite bool_decide_eq_true_2 by done.
    assert (seedNext d incl F1 i (pathOf d i) (depth_of d i + 1) "" 0 true = Ok (F2, seeks2)) as ->;
      [|done].
    destruct kid as [j|]; [|unfold seedNext; by rewrite Hs2].
    destruct Hkid as [(rj & Hj & Hpj & _) _]. rewrite <- (depth_child i j rj) by done.
    apply (push_ok F1 i j rj); try done; [apply Hwn|apply Hkn]; set_solver.
  - rewrite bool_decide_eq_false_2 by done. destruct Hs2 as [-> ->]. unfold F2. cbn.
    by rewrite Z.add_0_r.
Qed.

(** ** Filling a page *)

Lemma fill_page_spec w cancelled :
  w_includeTrashed w = incl → w_rootID w = rt → ∀ room E0 P F seeks,
  walk_inv (E0 ++ P) (f_node <$> F) → rows_of F →
  match fill_page d w cancelled room (entry_of <$> P) seeks F with
  | Ok (es, seeks', F', exhausted) => ∃ Q, es = entry_of <$> (P ++ Q) ∧
      walk_inv (E0 ++ P ++ Q) (f_node <$> F') ∧ rows_of F' ∧ (length Q ≤ room)%nat ∧
      (seeks' ≤ seeks + 3 * Z.of_nat (length Q))%Z ∧
      if exhausted then F' = [] else length Q = room
  | Err _ => ∃ k, cancelled k = true
  end.
Proof using Hwf Hlim.
  intros Hincl Hrt. induction room as [|room IH]; intros E0 P F seeks Hinv Hrows; cbn [fill_page].
  { exists []. rewrite !app_nil_r. split_and!; try done. cbn. lia. }
  destruct (cancelled _) eqn:Hc; cbn [negb check mbind result_bind]; [eauto|].
  pose proof (popFrontier_spec F Hrows) as Hpop.
  assert (∀ i, i ∈ f_node <$> F → walked i) as Hw.
  { intros i Hi. apply (wi_walked _ _ _ _ _ Hinv), elem_of_app. by right. }
  pose proof (wi_nodup _ _ _ _ _ Hinv) as (_ & _ & Hnd)%NoDup_app.
  specialize (Hpop Hw Hnd). destruct (popFrontier d F) as [[[entry depth] F']|].
  - destruct Hpop as (i & Hi & Hmin & -> & -> & Hrows' & Hnd' & HF').
    destruct (expand_ok w (E0 ++ P) F F' i Hincl Hrt Hinv Hi Hmin HF' Hnd' Hrows')
      as (F'' & s & -> & Hs & HR & Hinv'). cbn [mbind result_bind].
    rewrite <- app_assoc in Hinv'. specialize (IH E0 (P ++ [i]) F'' (seeks + s)%Z Hinv' HR).
    rewrite fmap_app in IH. cbn [fmap list_fmap] in IH.
    destruct (fill_page _ _ _ _ _ _ _) as [[[[es s'] G] ex]|e]; [|done].
    destruct IH as (Q & -> & HinvQ & HG & Hlen & Hsk & Hex). exists (i :: Q).
    rewrite <- !app_assoc in *. cbn in *. split_and!; try done; [lia|lia|].
    destruct ex; [done|lia].
  - subst F. exists []. rewrite !app_nil_r. split_and!; try done; cbn; lia.
Qed.
End pages.

(** * Properties of tree walks *)

(** ** The reference listing *)

(** All nodes of the subtree at once, sorted by path, then id. *)
Definition walk_listing (d : db) (incl : bool) (rt : Z) : list Z :=
  merge_sort (before d)
    (matching (λ i r, (incl || is_live r) &&
       bool_decide (rt ∈ (ancestry (nodes d) (S (size (nodes d))) i).*1)) (nodes d)).

(** A sequence of page requests; each says whether its context has ended and
    at which checkpoints it will. *)
Definition request : Type := bool * (Z → bool).

Fixpoint run_walk (d : db) (calls : list request) (w : Walker) : Walker * list next_result :=
  match calls with
  | [] => (w, [])
  | (ended, cancelled) :: calls =>
      let '(w, r) := Next d ended cancelled w in
      let '(w, rs) := run_walk d calls w in (w, r :: rs)
  end.

Definition page_of (r : next_result) : list WalkEntry :=
  match r with Entries l => l | _ => [] end.
Definition pages_of (rs : list next_result) : list WalkEntry := rs ≫= page_of.
Definition is_page (r : next_result) : bool := match r with Entries _ => true | _ => false end.
Definition pages_read (rs : list next_result) : nat := length (filter (λ r, is_page r = true) rs).

Definition interrupted (c : request) : Prop := c.1 = true ∨ ∃ k, c.2 k = true.

Section runs.
Context `{Normalizer} (root : Z) (d : db) (Hwf : tree_wf root d).
Context (incl : bool) (rt : Z) (Hlim : within_limits d incl rt).
Notation listing := (walk_listing d incl rt).

#[local] Existing Instances before_dec before_total before_trans before_antisym.

Lemma elem_of_walk_listing i : i ∈ listing ↔ walked d incl rt i.
Proof using Hwf.
  unfold walk_listing. rewrite merge_sort_Permutation, elem_of_matching. unfold walked, shown.
  setoid_rewrite andb_true_iff. setoid_rewrite orb_true_iff. unfold is_live.
  setoid_rewrite bool_decide_eq_true. split.
  - intros (r & Hr & Hs & Hin). destruct (wf_anc _ _ Hwf i) as [l Hl]; [by exists r|].
    destruct (ancestry_anc _ _ _ (S (size (nodes d))) Hl) as [Heq _];
      [pose proof (anc_length _ _ _ Hl); lia|]. rewrite Heq in Hin. eauto 10.
  - intros (r & l & Hr & Hs & Hl & Hin). exists r. split_and!; try done.
    destruct (ancestry_anc _ _ _ (S (size (nodes d))) Hl) as [-> _];
      [pose proof (anc_length _ _ _ Hl); lia|done].
Qed.

Lemma NoDup_walk_listing : NoDup listing.
Proof. unfold walk_listing. rewrite merge_sort_Permutation. apply NoDup_matching. Qed.

(** What has been returned is a prefix of the listing. *)
Lemma walk_prefix E F : walk_inv d incl rt E F → E = take (length E) listing.
Proof using Hwf.
  intros Hinv. assert (listing = E ++ merge_sort (before d) (filter (λ i, i ∉ E) listing)) as Heq.
  { pose proof (merge_sort_spec (before d)) as Hms.
    apply (StronglySorted_unique (before d)).
    - exact (proj1 (proj2 (proj2 (Hms _)))).
    - destruct (Hms (filter (λ i, i ∉ E) listing)) as (Hin & _ & Hs & _).
      assert (∀ l k, StronglySorted (before d) l → StronglySorted (before d) k →
        (∀ x y, x ∈ l → y ∈ k → before d x y) → StronglySorted (before d) (l ++ k)) as Happ.
      { clear. induction 1 as [|a l Hl IH Ha]; intros Hk Hx; [done|]. cbn. constructor.
        - apply IH; [done|]. intros x y Hxl. apply Hx. by right.
        - apply Forall_app. split; [done|]. apply Forall_forall. intros y Hy. apply Hx; [by left|done]. }
      apply Happ; [apply Hinv|done|]. intros x y Hx [HyE Hy]%Hin%list_elem_of_filter.
      apply elem_of_walk_listing in Hy.
      destruct (walk_covered root d Hwf incl rt E F y Hinv Hy HyE) as (f & Hf & Hb).
      etrans; [by apply (wi_before _ _ _ _ _ Hinv x f)|done].
    - rewrite merge_sort_Permutation. symmetry. apply NoDup_Permutation.
      + apply NoDup_app. split_and!; [by pose proof (wi_nodup _ _ _ _ _ Hinv) as (? & _)%NoDup_app| |].
        * intros x Hx [Hn _]%list_elem_of_filter. done.
        * apply NoDup_filter, NoDup_walk_listing.
      + apply NoDup_walk_listing.
      + intros x. rewrite elem_of_app, list_elem_of_filter, elem_of_walk_listing. split.
        * intros [Hx|[_ Hx]]; [|done]. apply (wi_walked _ _ _ _ _ Hinv), elem_of_app. by left.
        * intros Hx. destruct (decide (x ∈ E)); auto. }
  rewrite Heq. by rewrite take_app_length.
Qed.

Lemma walk_complete E : walk_inv d incl rt E [] → E = listing.
Proof using Hwf.
  intros Hinv. pose proof (walk_prefix _ _ Hinv) as Hp. rewrite Hp. apply take_ge.
  assert (listing ⊆+ E) as Hsub.
  { apply NoDup_submseteq; [apply NoDup_walk_listing|]. intros x Hx%elem_of_walk_listing.
    destruct (decide (x ∈ E)) as [|Hni]; [done|].
    destruct (walk_covered root d Hwf incl rt E [] x Hinv Hx Hni) as (f & Hf & _).
    by apply elem_of_nil in Hf. }
  by apply submseteq_length in Hsub.
Qed.

(** ** The walker's state between requests *)

Record walker_at (w : Walker) (size : nat) (E : list Z) : Prop := {
  wa_open : w_open w = true;
  wa_size : w_pageSize w = Z.of_nat size;
  wa_incl : w_includeTrashed w = incl;
  wa_root : w_rootID w = rt;
  wa_rows : rows_of d (w_frontier w);
  wa_inv : walk_inv d incl rt E (f_node <$> w_frontier w);
  wa_done : w_done w = true → w_frontier w = [];
}.

Lemma Next_spec w size E ended cancelled :
  (0 < size)%nat → walker_at w size E →
  match Next d ended cancelled w with
  | (w', Entries l) => ∃ Q, l = entry_of d <$> Q ∧ walker_at w' size (E ++ Q) ∧
      (length Q = size ∨ (length Q ≤ size)%nat ∧ E ++ Q = listing)
  | (w', EOF) => walker_at w' size E ∧ E = listing
  | (w', NextErr _) => w' = w ∧ interrupted (ended, cancelled)
  end.
Proof using Hwf Hlim.
  intros Hsz Hw. unfold Next, interrupted. destruct ended; [by auto|].
  pose proof Hw as [Hop Hps Hin Hrt Hrows Hinv Hdone]. rewrite Hop, orb_false_r.
  destruct (w_done w) eqn:Hd.
  { split; [exact Hw|]. rewrite (Hdone eq_refl) in Hinv. by apply walk_complete. }
  rewrite Hps, Nat2Z.id.
  pose proof (fill_page_spec root d Hwf incl rt Hlim w cancelled Hin Hrt size E [] (w_frontier w) 0) as Hfill.
  rewrite app_nil_r in Hfill. specialize (Hfill Hinv Hrows). cbn [fmap list_fmap] in Hfill.
  destruct (fill_page _ _ _ _ _ _ _) as [[[[es s] F'] ex]|e]; [|by auto].
  destruct Hfill as (Q & -> & HinvQ & HF' & Hlen & _ & Hex). rewrite app_nil_l in HinvQ |- *.
  assert (∀ st, walker_at (MkWalker F' true (Z.of_nat size) (w_includeTrashed w) (w_rootID w) ex st)
    size (E ++ Q)) as Hw' by (intros st; split; cbn; try done; by destruct ex).
  assert (F' = [] → E ++ Q = listing) as Hall.
  { intros ->. by apply walk_complete. }
  destruct Q as [|q Q].
  - rewrite (app_nil_r E) in *. cbn. split; [apply Hw'|]. destruct ex; [by apply Hall|].
    cbn in Hex. lia.
  - cbn [fmap list_fmap]. exists (q :: Q). split_and!; [done|apply Hw'|].
    destruct ex; [right; split; [done|by apply Hall]|by left].
Qed.

Lemma take_app_prefix {A} (l E Q : list A) n m :
  E = take n l → E ++ Q = take (length (E ++ Q)) l →
  length Q = m ∨ (length Q ≤ m)%nat ∧ E ++ Q = l → E ++ Q = take (n + m) l.
Proof.
  intros HE HQ [Hm|[Hm Heq]].
  - rewrite HQ. destruct (decide (n ≤ length l)%nat) as [Hn|Hn].
    + assert (length (E ++ Q) = n + m)%nat as ->; [|done].
      rewrite length_app, HE, length_take. lia.
    + assert (length l ≤ length (E ++ Q))%nat by (rewrite length_app, HE, length_take; lia).
      rewrite !take_ge by lia. done.
  - assert (length E ≤ n)%nat by (rewrite HE, length_take; lia).
    assert (length l = length E + length Q)%nat by (by rewrite <- Heq, length_app).
    rewrite Heq, take_ge; [done|lia].
Qed.

Lemma run_walk_spec size calls : (0 < size)%nat → ∀ w n,
  walker_at w size (take n listing) →
  let '(w', rs) := run_walk d calls w in
  walker_at w' size (take (n + size * pages_read rs) listing) ∧
  (entry_of d <$> take n listing) ++ pages_of rs =
    (entry_of d <$> take (n + size * pages_read rs) listing) ∧
  (EOF ∈ rs → take (n + size * pages_read rs) listing = listing) ∧
  Forall2 (λ c r, (∃ e, r = NextErr e) → interrupted c) calls rs.
Proof using Hwf Hlim.
  intros Hsz. induction calls as [|[ended cancelled] calls IH]; intros w n Hw; cbn [run_walk].
  { rewrite Nat.mul_0_r, Nat.add_0_r. cbn. rewrite app_nil_r. split_and!; try done.
    by intros ?%elem_of_nil. }
  pose proof (Next_spec w size _ ended cancelled Hsz Hw) as Hnext.
  destruct (Next d ended cancelled w) as [w1 r].
  assert (∃ n1, n1 = (n + size * (if is_page r then 1 else 0))%nat ∧
    walker_at w1 size (take n1 listing) ∧
    (entry_of d <$> take n listing) ++ page_of r = (entry_of d <$> take n1 listing) ∧
    (r = EOF → take n1 listing = listing) ∧ ((∃ e, r = NextErr e) → interrupted (ended, cancelled)))
    as (n1 & Hn1 & Hw1 & Hpg & Heof & Herr).
  { eexists. split; [reflexivity|]. destruct r as [l| |e]; cbn [is_page page_of].
    - destruct Hnext as (Q & -> & Hw1 & HQ). pose proof (walk_prefix _ _ (wa_inv _ _ _ Hw1)) as Hp.
      pose proof (take_app_prefix listing _ Q n size eq_refl Hp HQ) as Heq.
      rewrite Nat.mul_1_r, <- Heq, fmap_app. split_and!; try done. by intros [? ?].
    - destruct Hnext as [Hw1 Heq]. rewrite Nat.mul_0_r, Nat.add_0_r, app_nil_r.
      split_and!; try done. by intros [? ?].
    - destruct Hnext as [-> Hint]. rewrite Nat.mul_0_r, Nat.add_0_r, app_nil_r. by split_and!. }
  specialize (IH w1 n1 Hw1). destruct (run_walk d calls w1) as [w' rs].
  destruct IH as (Hw' & Hpages & Hend & Hall).
  assert (n + size * pages_read (r :: rs) = n1 + size * pages_read rs)%nat as ->.
  { unfold pages_read. rewrite filter_cons, Hn1.
    case_decide as Hpr; [rewrite Hpr|rewrite (not_true_is_false _ Hpr)]; cbn [length]; lia. }
  split_and!; [done| | |by constructor].
  - rewrite <- Hpages, <- Hpg. unfold pages_of. cbn. by rewrite app_assoc.
  - intros [Heq|Hin]%elem_of_cons; [|by apply Hend].
    assert (length listing ≤ n1)%nat as Hle.
    { pose proof (Heof (eq_sym Heq)) as Ht. apply (f_equal length) in Ht.
      rewrite length_take in Ht. lia. }
    rewrite take_ge; [done|lia].
Qed.
End runs.

Lemma BeginWalk_at `{Normalizer} root d path size incl w :
  tree_wf root d → BeginWalk root d path size incl = Ok w →
  (1 ≤ size ≤ MaxWalkPageSize)%Z ∧
  walker_at d incl (w_rootID w) w (Z.to_nat size) (take 0 (walk_listing d incl (w_rootID w))).
Proof.
  intros Hwf Hb. unfold BeginWalk in Hb. res_inv.
  match goal with H : negb _ = true |- _ => apply negb_true_iff, orb_false_iff in H as [Hs1 Hs2] end.
  apply Z.ltb_ge in Hs1, Hs2. split; [lia|].
  match goal with H : nodeByPath _ _ _ = Ok _ |- _ =>
    apply nodeByPath_Ok_iff in H as (i & r & Hr & Ht & -> & _); [|done] end.
  cbn [ID scanNode w_rootID]. rewrite take_0.
  destruct (wf_anc _ _ Hwf i) as [l Hl]; [by exists r|].
  assert (walked d incl i i) as Hi.
  { exists r, l. split_and!; [done|by right|done|]. destruct (anc_head _ _ _ Hl) as [t ->]. by left. }
  split; cbn; try done; [lia|by repeat constructor|]. split.
  - by intros j ->%list_elem_of_singleton.
  - apply NoDup_singleton.
  - constructor.
  - by intros e f ?%elem_of_nil.
  - by left.
  - by intros p j ->%list_elem_of_singleton.
  - by intros p j k ->%list_elem_of_singleton ->%list_elem_of_singleton.
  - by intros p j ?%elem_of_nil.
Qed.

(** ** Bounds *)

Definition short (f : frontier_row) : Prop := (len (f_path f) ≤ MaxWalkPathBytes)%Z.

Lemma seedNext_bounds d incl F p pp depth nm id first F' n :
  seedNext d incl F p pp depth nm id first = Ok (F', n) → Forall short F →
  Forall short F' ∧ (0 ≤ n ≤ if first then 1 else 2)%Z.
Proof.
  unfold seedNext. intros Hs HF.
  assert (0 ≤ (seed_target d incl p nm id first).2 ≤ if first then 1 else 2)%Z as Hn.
  { unfold seed_target. destruct (walkSeekQuery _ _ _ _ _ _); [by destruct first|].
    destruct incl, first; done. }
  destruct (seed_target d incl p nm id first) as [[j|] k]; cbn in Hn; res_inv; [|by simplify_eq].
  match goal with H : insert_frontier _ _ = Ok _ |- _ =>
    unfold insert_frontier in H; destruct (existsb _ _); [discriminate H|]; apply Ok_inj in H as <- end.
  simplify_eq. split; [|done]. constructor; [|done]. unfold short. cbn. by apply Z.leb_le.
Qed.

Lemma expand_bounds d w F e depth F' n :
  expand d w F e depth = Ok (F', n) → Forall short F → Forall short F' ∧ (0 ≤ n ≤ 3)%Z.
Proof.
  unfold expand. intros Hx HF. apply bind_Ok_iff in Hx as ([F1 n1] & H1 & Hx).
  assert (Forall short F1 ∧ (0 ≤ n1 ≤ 2)%Z) as [HF1 Hn1].
  { destruct (ParentID (EntryNode e)); [destruct (negb _)|].
    - by apply seedNext_bounds in H1.
    - by apply Ok_inj in H1 as [= <- <-].
    - by apply Ok_inj in H1 as [= <- <-]. }
  destruct (IsDir (EntryNode e)).
  - apply bind_Ok_iff in Hx as ([F2 n2] & H2 & Hx). apply Ok_inj in Hx as [= <- <-].
    apply seedNext_bounds in H2 as [? ?]; [split; [done|lia]|done].
  - apply Ok_inj in Hx as [= <- <-]. split; [done|lia].
Qed.

Definition entry_short (e : WalkEntry) : Prop := (len (EntryPath e) ≤ MaxWalkPathBytes)%Z.

Lemma popFrontier_bounds d F e depth F' :
  popFrontier d F = Some (e, depth, F') → Forall short F → entry_short e ∧ Forall short F'.
Proof.
  unfold popFrontier. intros Hp HF.
  destruct (merge_sort frontier_order _) as [|f l] eqn:Hm; [done|].
  assert (f ∈ F) as Hf.
  { assert (f ∈ merge_sort frontier_order (filter (λ f, is_Some (nodes d !! f_node f)) F)) as Hin
      by (rewrite Hm; left).
    rewrite merge_sort_Permutation in Hin. by apply list_elem_of_filter in Hin as [_ ?]. }
  destruct (nodes d !! f_node f) as [r|]; [|done]. cbn in Hp. injection Hp as <- _ <-.
  rewrite Forall_forall in HF. split; [exact (HF f Hf)|]. apply Forall_forall.
  intros g [_ Hg]%list_elem_of_filter. by apply HF.
Qed.

Lemma fill_page_bounds d w cancelled room : ∀ es seeks F es' seeks' F' ex,
  fill_page d w cancelled room es seeks F = Ok (es', seeks', F', ex) →
  Forall short F → Forall entry_short es →
  Forall short F' ∧ Forall entry_short es' ∧ (length es ≤ length es' ≤ length es + room)%nat ∧
  (seeks ≤ seeks' ≤ seeks + 3 * Z.of_nat (length es' - length es))%Z.
Proof.
  induction room as [|room IH]; intros es seeks F es' seeks' F' ex; cbn [fill_page].
  { intros Hx HF He. apply Ok_inj in Hx as [= <- <- <- <-]. split_and!; try done; lia. }
  intros Hx HF He. res_inv1. destruct (popFrontier d F) as [[[e depth] F1]|] eqn:Hp.
  - destruct (popFrontier_bounds _ _ _ _ _ Hp HF) as [Hes HF1].
    apply bind_Ok_iff in Hx as ([F2 n] & Hexp & Hx).
    destruct (expand_bounds _ _ _ _ _ _ _ Hexp HF1) as [HF2 Hn].
    destruct (IH _ _ _ _ _ _ _ Hx HF2) as (? & ? & Hl & Hs).
    { apply Forall_app. split; [done|]. by apply Forall_singleton. }
    rewrite length_app in Hl, Hs. cbn in Hl, Hs. split_and!; try done; lia.
  - apply Ok_inj in Hx as [= <- <- <- <-]. split_and!; try done; lia.
Qed.

(** What every request leaves true of the walker. *)
Record bounded (w : Walker) (size : Z) (total : nat) : Prop := {
  bd_size : w_pageSize w = size;
  bd_short : Forall short (w_frontier w);
  bd_total : EntriesReturned (w_stats w) = Z.of_nat total;
  bd_rows : (0 ≤ LastPageRowsExamined (w_stats w) ≤ size)%Z;
  bd_seeks : (0 ≤ LastPageIndexedSeeks (w_stats w) ≤ 3 * LastPageRowsExamined (w_stats w))%Z;
}.

Lemma Next_bounds d w size total ended cancelled w' r :
  (0 < size)%Z → bounded w size total → Next d ended cancelled w = (w', r) →
  bounded w' size (total + length (page_of r)) ∧
  (Z.of_nat (length (page_of r)) ≤ size)%Z ∧ Forall entry_short (page_of r).
Proof.
  intros Hsz Hb. unfold Next. destruct ended.
  { intros [= <- <-]. cbn. rewrite Nat.add_0_r. split_and!; try done. lia. }
  destruct (w_done w || negb (w_open w)).
  { intros [= <- <-]. cbn. rewrite Nat.add_0_r. split_and!; try done. lia. }
  destruct (fill_page _ _ _ _ _ _ _) as [[[[es s] F'] ex]|e] eqn:Hf.
  2: { intros [= <- <-]. cbn. rewrite Nat.add_0_r. split_and!; try done. lia. }
  apply fill_page_bounds in Hf as (HF' & Hes & Hlen & Hs); [|apply Hb|constructor].
  rewrite (bd_size _ _ _ Hb) in Hlen. cbn [length] in Hlen, Hs.
  intros Hr. assert (page_of r = es ∧ bounded w' size (total + length es)) as [-> Hb'].
  { assert (∀ o, bounded (MkWalker F' (w_open w) o (w_includeTrashed w) (w_rootID w) ex
      (MkWalkStats (SetupNodeReads (w_stats w)) (Pages (w_stats w) + 1)
        (EntriesReturned (w_stats w) + Z.of_nat (length es)) (Z.of_nat (length es)) s)) o
      (total + length es) ∨ o ≠ size) as Hall.
    { intros o. destruct (decide (o = size)) as [->|]; [left|by right]. split; cbn; try done.
      - rewrite (bd_total _ _ _ Hb). lia.
      - lia.
      - lia. }
    destruct (Hall (w_pageSize w)) as [Hw|Hne]; [|by destruct Hne; apply Hb].
    rewrite (bd_size _ _ _ Hb) in Hw, Hr.
    destruct es; injection Hr as <- <-; by split. }
  split_and!; try done. lia.
Qed.

Lemma run_walk_bounds d calls : ∀ w size total w' rs,
  (0 < size)%Z → bounded w size total → run_walk d calls w = (w', rs) →
  bounded w' size (total + length (pages_of rs)) ∧
  Forall (λ r, (Z.of_nat (length (page_of r)) ≤ size)%Z ∧ Forall entry_short (page_of r)) rs.
Proof.
  induction calls as [|[ended cancelled] calls IH]; intros w size total w' rs Hsz Hb; cbn [run_walk].
  { intros [= <- <-]. cbn. rewrite Nat.add_0_r. by split. }
  destruct (Next d ended cancelled w) as [w1 r] eqn:Hn.
  destruct (Next_bounds _ _ _ _ _ _ _ _ Hsz Hb Hn) as (Hb1 & Hr).
  destruct (run_walk d calls w1) as [w2 rs1] eqn:Hrun. intros [= <- <-].
  destruct (IH _ _ _ _ _ Hsz Hb1 Hrun) as [Hb2 Hrs]. split; [|by constructor].
  unfold pages_of in *. cbn. rewrite length_app, Nat.add_assoc. exact Hb2.
Qed.

Lemma BeginWalk_bounded `{Normalizer} root d path size incl w :
  BeginWalk root d path size incl = Ok w → (1 ≤ size ≤ MaxWalkPageSize)%Z ∧ bounded w size 0.
Proof.
  intros Hb. unfold BeginWalk in Hb. res_inv.
  match goal with H : negb _ = true |- _ => apply negb_true_iff, orb_false_iff in H as [Hs1 Hs2] end.
  apply Z.ltb_ge in Hs1, Hs2. split; [lia|].
  split; cbn; try done; [|lia]. constructor; [|constructor]. unfold short. cbn. by apply Z.leb_le.
Qed.

(** C39: a walk returns the whole subtree, each node once, in the order of path
    and id, cut into pages.  After any sequence of requests, some of them
    interrupted, the pages returned so far are the first entries of the sorted
    listing of the subtree at the pinned snapshot, [size] per page; the end is
    reported only when the whole listing has been returned; and only an
    interrupted request fails, leaving the walk where it was.  This holds for
    live walks and for walks that show the trash, on trees within the walker's
    depth and path bounds. *)
Theorem walk_pages_tile `{Normalizer} root d path size incl w calls :
  tree_wf root d → BeginWalk root d path size incl = Ok w →
  within_limits d incl (w_rootID w) →
  let '(w', rs) := run_walk d calls w in
  let listing := entry_of d <$> walk_listing d incl (w_rootID w) in
  pages_of rs = take (Z.to_nat size * pages_read rs) listing ∧
  (EOF ∈ rs → pages_of rs = listing) ∧
  Forall2 (λ c r, (∃ e, r = NextErr e) → interrupted c) calls rs.
Proof.
  intros Hwf Hb Hlim. destruct (BeginWalk_at _ _ _ _ _ _ Hwf Hb) as [Hsz Hw].
  pose proof (run_walk_spec root d Hwf incl (w_rootID w) Hlim (Z.to_nat size) calls ltac:(lia) w 0 Hw)
    as Hrun.
  destruct (run_walk d calls w) as [w' rs]. destruct Hrun as (_ & Hpages & Hend & Hall).
  rewrite take_0, Nat.add_0_l in *. cbn [fmap list_fmap app] in Hpages.
  split_and!; [|intros Hin; by rewrite Hpages, (Hend Hin)|done].
  by rewrite Hpages, fmap_take.
Qed.

(** no page can exhaust memory, whatever the tree: a walk has between one
    and five thousand entries a page, no page has more, no path in it is longer
    than sixteen kibibytes, a page costs at most three index seeks for every
    row it returns, and the statistics count exactly the entries returned. *)
Theorem walk_page_bounds `{Normalizer} root d path size incl w calls w' rs :
  BeginWalk root d path size incl = Ok w → run_walk d calls w = (w', rs) →
  (1 ≤ size ≤ MaxWalkPageSize)%Z ∧
  Forall (λ r, (Z.of_nat (length (page_of r)) ≤ size)%Z ∧ Forall entry_short (page_of r)) rs ∧
  (0 ≤ LastPageIndexedSeeks (w_stats w') ≤ 3 * LastPageRowsExamined (w_stats w'))%Z ∧
  (LastPageRowsExamined (w_stats w') ≤ size)%Z ∧
  EntriesReturned (w_stats w') = Z.of_nat (length (pages_of rs)).
Proof.
  intros Hb Hrun. destruct (BeginWalk_bounded _ _ _ _ _ _ Hb) as [Hsz Hbd].
  destruct (run_walk_bounds d calls w size 0 w' rs ltac:(lia) Hbd Hrun) as [Hbd' Hrs].
  split_and!; [lia|lia|done|apply Hbd'..].
Qed.

(** ** At work *)

Lemma within_limits_check `{Normalizer} root d incl rt :
  tree_wf root d →
  forallb (λ i, (depth_of d i <=? MaxWalkDepth)%Z && (len (pathOf d i) <=? MaxWalkPathBytes)%Z)
    (walk_listing d incl rt) = true → within_limits d incl rt.
Proof.
  intros Hwf Hall j Hj. apply (elem_of_walk_listing root d Hwf) in Hj.
  rewrite forallb_forall in Hall. apply list_elem_of_In, Hall, andb_true_iff in Hj as [??].
  by rewrite !Z.leb_le in *.
Qed.

(** A page of two, an interrupted request, the other two entries, the end. *)
Definition sample_walk : res Walker := @BeginWalk ascii_normalizer 1 sample_vault "/" 2 false.
Definition sample_requests : list request :=
  [(false, λ _, false); (false, λ k, (k =? 1)%Z); (false, λ _, false); (false, λ _, false)].

Lemma sample_walk_result :
  match sample_walk with
  | Ok w => (w_rootID w =? 1)%Z &&
      match run_walk sample_vault sample_requests w with
      | (_, [Entries p; NextErr _; Entries q; EOF]) =>
          bool_decide ((EntryPath <$> p ++ q) = ["/"; "/a"; "/a/b"; "/c"])
      | _ => false
      end
  | Err _ => false
  end = true.
Proof. vm_compute. reflexivity. Qed.

Lemma sample_walk_limits : @within_limits sample_vault false 1.
Proof.
  apply (@within_limits_check ascii_normalizer 1); [apply sample_vault_wf|vm_compute; reflexivity].
Qed.

Lemma walk_pages_tile_witness :
  ∃ w w' rs, sample_walk = Ok w ∧ run_walk sample_vault sample_requests w = (w', rs) ∧
    pages_of rs = take (2 * pages_read rs) (entry_of sample_vault <$> walk_listing sample_vault false 1).
Proof.
  pose proof sample_walk_result as Hres. unfold sample_walk in *.
  destruct (@BeginWalk ascii_normalizer 1 sample_vault "/" 2 false) as [w|e] eqn:Hw; [|discriminate Hres].
  apply andb_true_iff in Hres as [Hrt%Z.eqb_eq _].
  pose proof (@walk_pages_tile ascii_normalizer 1 sample_vault "/" 2 false w sample_requests
    sample_vault_wf Hw) as Ht. rewrite Hrt in Ht. specialize (Ht sample_walk_limits).
  destruct (run_walk sample_vault sample_requests w) as [w' rs] eqn:Hrun. destruct Ht as [Ht _].
  exists w, w', rs. exact (conj eq_refl (conj Hrun Ht)).
Defined.

Lemma walk_page_bounds_witness :
  ∃ w w' rs, sample_walk = Ok w ∧ run_walk sample_vault sample_requests w = (w', rs) ∧
    EntriesReturned (w_stats w') = Z.of_nat (length (pages_of rs)).
Proof.
  pose proof sample_walk_result as Hres. unfold sample_walk in *.
  destruct (@BeginWalk ascii_normalizer 1 sample_vault "/" 2 false) as [w|e] eqn:Hw; [|discriminate Hres].
  destruct (run_walk sample_vault sample_requests w) as [w' rs] eqn:Hrun.
  pose proof (@walk_page_bounds ascii_normalizer 1 sample_vault "/" 2 false w sample_requests w' rs Hw Hrun)
    as (_ & _ & _ & _ & Hb).
  exists w, w', rs. exact (conj eq_refl (conj Hrun Hb)).
Defined.
