(* ===== verification/VaultMachine.v ===== *)
(** * The vault as one state machine

    The tree and the tag handlers together, on a vault without audit
    authority, and the invariant their interleavings keep. *)
From S2P Require Import Prelude GoText Names Tables Tree TreeInv TreeFacts Trash TrashFacts Identity Tags StoreMachine StoreProps TagProps.

(** ** What the tree handlers leave alone *)

(** A row of the same kind and content, at a revision not older. *)
Definition same_content (r r' : node_row) : Prop :=
  kind r' = kind r ∧ current_version_id r' = current_version_id r ∧ (revision r ≤ revision r')%Z.

(** No version changes, no node disappears or changes content, and a new node
    has none. *)
Definition tracks (d d' : db) : Prop :=
  versions d' = versions d ∧
  (∀ i r, nodes d !! i = Some r → ∃ r', nodes d' !! i = Some r' ∧ same_content r r') ∧
  (∀ i r', nodes d' !! i = Some r' → nodes d !! i = None → current_version_id r' = None).

(** Nor does any tag or assignment. *)
Definition keeps (d d' : db) : Prop :=
  tags d' = tags d ∧ node_tags d' = node_tags d ∧ audit_active d' = audit_active d ∧ tracks d d'.

#[export] Instance tracks_preorder : PreOrder tracks.
Proof.
  split.
  - intros d. unfold tracks. split_and!; [done| |congruence]. intros i r Hi. exists r.
    split; [done|]. unfold same_content. split_and!; [done..|lia].
  - intros d1 d2 d3 (Hv & Hk & Hn) (Hv' & Hk' & Hn'). unfold tracks. split_and!; [congruence| |].
    + intros i r Hi. destruct (Hk i r Hi) as (r2 & Hi2 & ? & ? & ?).
      destruct (Hk' i r2 Hi2) as (r3 & Hi3 & ? & ? & ?). exists r3. split; [done|].
      unfold same_content. split_and!; [congruence..|lia].
    + intros i r' Hi Hnone. destruct (nodes d2 !! i) as [r2|] eqn:Hi2; [|by eapply Hn'].
      destruct (Hk' i r2 Hi2) as (r3 & Hi3 & _ & Hc & _). assert (r3 = r') as -> by congruence.
      rewrite Hc. by eapply Hn.
Qed.

#[export] Instance keeps_preorder : PreOrder keeps.
Proof.
  split; [by intros d; unfold keeps; split_and!|]. intros d1 d2 d3 (? & ? & ? & ?) (? & ? & ? & ?).
  unfold keeps. split_and!; [congruence..|by etransitivity].
Qed.

Lemma keeps_exists d d' i : keeps d d' → is_Some (nodes d !! i) → is_Some (nodes d' !! i).
Proof. intros (_ & _ & _ & _ & Hk & _) [r Hr]. destruct (Hk i r Hr) as (r' & ? & _). eauto. Qed.

(** An edit that keeps kind and content and does not lower the revision. *)
Definition content_edit (f : node_row → node_row) : Prop := ∀ r, same_content r (f r).

Lemma tracks_set_where d d' P f :
  content_edit f → versions d' = versions d → nodes d' = set_where P f (nodes d) → tracks d d'.
Proof.
  intros Hf Hv Hn. unfold tracks. rewrite Hn. split_and!; [done| |].
  - intros i r Hi. rewrite lookup_set_where, Hi. eexists. split; [done|].
    destruct (P i r); [apply Hf|]. unfold same_content. split_and!; [done..|lia].
  - intros i r' Hi Hnone. by rewrite lookup_set_where, Hnone in Hi.
Qed.

Lemma keeps_exec d P f e d' :
  content_edit f → exec d (update_where P f (nodes d)) e = Ok d' → keeps d d'.
Proof.
  intros Hf ->%exec_Ok. unfold keeps. split_and!; [done..|]. by eapply tracks_set_where.
Qed.

Ltac content_edit_tac := by (intros r; unfold same_content; cbn; split_and!; [done..|lia]).

Lemma content_edit_bump now : content_edit (bump now).
Proof. content_edit_tac. Qed.

Lemma keeps_bump d i now d' : bumpRevisionTx d i now = Ok d' → keeps d d'.
Proof. apply keeps_exec, content_edit_bump. Qed.

Lemma keeps_insert r d (e : store_error) d' i :
  current_version_id r = None → nodes d !! (node_seq d + 1)%Z = None →
  from_lookup (insert_node r d) e = Ok (d', i) → keeps d d'.
Proof.
  intros Hr Hfresh Hi%from_lookup_Ok_iff. unfold insert_node in Hi. destruct (clashes _ _ _); [done|].
  injection Hi as <- <-. unfold keeps, tracks. split_and!; [done..| |]; cbn.
  - intros j rj Hj. exists rj. rewrite lookup_insert_ne by congruence. split; [done|].
    unfold same_content. split_and!; [done..|lia].
  - intros j rj [[_ <-]|[_ Hj]]%lookup_insert_Some Hnone; [done|congruence].
Qed.

(** [keeps_steps] opens a successful transaction step by step and chains what
    its statements keep. *)
Ltac keeps_step :=
  match goal with
  | H : Ok _ = Ok _ |- _ => apply Ok_inj in H; try injection H as H; subst
  | H : Err _ = Ok _ |- _ => discriminate H
  | H : from_lookup (insert_node _ _) _ = Ok (_, _) |- _ =>
      apply keeps_insert in H; [|done|done]
  | H : exec _ (update_where _ _ _) _ = Ok _ |- _ => apply keeps_exec in H; [|content_edit_tac]
  | H : bumpRevisionTx _ _ _ = Ok _ |- _ => apply keeps_bump in H
  | H : mbind _ _ = Ok ?x |- _ =>
      let a := fresh "a" in let Ha := fresh "Ha" in
      apply bind_Ok_iff in H as (a & Ha & H)
  | H : (let '(_, _) := ?a in _) = Ok _ |- _ => destruct a
  | H : (if ?b then _ else _) = Ok _ |- _ => destruct b eqn:?
  end.
Ltac keeps_chain :=
  match goal with
  | |- keeps ?d ?d => reflexivity
  | H : keeps ?d ?x |- keeps ?d ?d' => transitivity x; [exact H|clear H; keeps_chain]
  end.
Ltac keeps_steps := repeat keeps_step; try keeps_chain.

Section machine.
Context `{Normalizer} (A : AuditedTree) (T : AuditedTags) `{RenditionTables} (root : Z).
Context {Laws : AuditedTreeLaws A root}.
Notation tree_wf := (tree_wf root).

(** The next identifier is unused. *)
Lemma next_id_fresh d : tree_wf d → nodes d !! (node_seq d + 1)%Z = None.
Proof.
  intros Hwf. destruct (nodes d !! (node_seq d + 1)%Z) as [r|] eqn:Hr; [|done].
  pose proof (wf_ids _ _ Hwf _ (mk_is_Some _ _ Hr)). lia.
Qed.

Lemma mkdirTx_keeps d p nm now d' n : tree_wf d → mkdirTx d p nm now = Ok (d', n) → keeps d d'.
Proof. intros Hwf%next_id_fresh Hm. unfold mkdirTx in Hm. keeps_steps. Qed.

Lemma moveAtTx_keeps d i p nm rev now d' n :
  moveAtTx root d i p nm rev now = Ok (d', n) → keeps d d'.
Proof. intros Hm. unfold moveAtTx in Hm. keeps_steps. Qed.

Lemma trashNodeTx_keeps d n now d' : trashNodeTx root d n now = Ok d' → keeps d d'.
Proof. intros Hm. unfold trashNodeTx in Hm. keeps_steps. Qed.

Lemma restoreNodeTx_keeps d n t now d' n' :
  restoreNodeTx d n t now = Ok (d', n') → keeps d d'.
Proof. intros Hm. unfold restoreNodeTx in Hm. keeps_steps. Qed.

Lemma withStorageTx_keeps {B} (fn : db → res (db * B)) d :
  (∀ d' b, fn d = Ok (d', b) → keeps d d') → keeps d (withStorageTx fn d).1.
Proof. apply (withStorageTx_inv (keeps d)). reflexivity. Qed.

Lemma mkdirNodeTx_keeps d p nm now d' n :
  tree_wf d → audit_active d = false → mkdirNodeTx d p nm now = Ok (d', n) → keeps d d'.
Proof. intros Hwf Ha. unfold mkdirNodeTx. rewrite Ha. by apply mkdirTx_keeps. Qed.

Lemma MkdirWithPath_keeps p nm now d :
  tree_wf d → audit_active d = false → keeps d (MkdirWithPath p nm now d).1.
Proof.
  intros Hwf Ha. unfold MkdirWithPath. destruct (NormalizeName nm); [|reflexivity].
  apply withStorageTx_keeps. intros d' b Hf. apply bind_Ok_iff in Hf as ([d1 n] & Hm & Hf).
  apply mkdirNodeTx_keeps in Hm; [|done|done]. keeps_steps.
Qed.

Lemma Mkdir_keeps p nm now d :
  tree_wf d → audit_active d = false → keeps d (Mkdir p nm now d).1.
Proof.
  intros Hwf Ha. unfold Mkdir. pose proof (MkdirWithPath_keeps p nm now d Hwf Ha).
  by destruct (MkdirWithPath p nm now d).
Qed.

Lemma EnsureDir_keeps p nm now d :
  tree_wf d → audit_active d = false → keeps d (EnsureDir id p nm now d).1.
Proof.
  intros Hwf Ha. unfold EnsureDir. destruct (NormalizeName nm) as [nm'|]; [|reflexivity].
  destruct (childByName d p nm') as [n|e]; [reflexivity|]. destruct e; try reflexivity.
  pose proof (Mkdir_keeps p nm' now d Hwf Ha) as Hm. unfold id.
  destruct (Mkdir p nm' now d) as [d' [n|e]]; [done|]. by destruct e.
Qed.

Lemma ensure_all_keeps n now segs d :
  tree_wf d → audit_active d = false → keeps d (ensure_all id n now segs d).1.
Proof using Laws.
  revert n d; induction segs as [|seg segs IH]; intros n d Hwf Ha; [reflexivity|]. simpl.
  pose proof (EnsureDir_keeps (ID n) seg now d Hwf Ha) as He.
  pose proof (EnsureDir_wf A root id (ID n) seg now d (λ _ h, h) Hwf) as Hwf'.
  destruct (EnsureDir id (ID n) seg now d) as [d' [n'|e]]; [|done]. simpl in He, Hwf'.
  transitivity d'; [done|]. apply IH; [done|]. destruct He as (_ & _ & -> & _). done.
Qed.

Lemma moveActiveTx_keeps d i p nm rev now d' n :
  audit_active d = false → moveActiveTx root d i p nm rev now = Ok (d', n) → keeps d d'.
Proof. intros Ha. unfold moveActiveTx. rewrite Ha. apply moveAtTx_keeps. Qed.

Lemma moveNodeToPathTx_keeps d src rev dest now d' a :
  audit_active d = false → moveNodeToPathTx root d src rev dest now = Ok (d', a) → keeps d d'.
Proof.
  intros Ha Hm. unfold moveNodeToPathTx in Hm. apply bind_Ok_iff in Hm as (u & _ & Hm).
  apply bind_Ok_iff in Hm as ([p nm] & _ & Hm). apply bind_Ok_iff in Hm as ([d1 m] & Hm1 & Hm).
  apply moveActiveTx_keeps in Hm1; [|done]. keeps_steps.
Qed.

(** Every tree command but the emptying of the trash keeps the tag tables. *)
Lemma run_keeps now c d :
  tree_wf d → audit_active d = false → (∀ cutoff n b, c ≠ CTrashEmpty cutoff n b) →
  keeps d (run root now c d).1.
Proof using Laws.
  intros Hwf Ha Hc. destruct c; simpl; [| | | | | | | | |by destruct (Hc cutoff maxRoots really)].
  - by apply Mkdir_keeps.
  - unfold MkdirPath. destruct (check _ _ ≫= _) as [[parent nm]|]; [|reflexivity].
    apply withStorageTx_keeps. intros d' b Hf. apply bind_Ok_iff in Hf as (pn & _ & Hf).
    apply bind_Ok_iff in Hf as ([d1 n] & Hm & Hf).
    apply mkdirNodeTx_keeps in Hm; [|done|done]. keeps_steps.
  - unfold MkdirAll. destruct (nodeByIDTx d root); [|reflexivity]. by apply ensure_all_keeps.
  - apply withStorageTx_keeps. intros d' b Hf. apply bind_Ok_iff in Hf as ([d1 n] & Hm & Hf).
    apply moveActiveTx_keeps in Hm; [|done]. keeps_steps.
  - apply withStorageTx_keeps. intros d' b Hf. apply bind_Ok_iff in Hf as (s & _ & Hf).
    by eapply moveNodeToPathTx_keeps.
  - apply withStorageTx_keeps. intros d' b Hf. apply bind_Ok_iff in Hf as (s & _ & Hf).
    by eapply moveNodeToPathTx_keeps.
  - unfold Trash. destruct (_ =? _)%Z; [reflexivity|]. apply withStorageTx_keeps.
    intros d' b Hf. rewrite Ha in Hf. apply bind_Ok_iff in Hf as (n & _ & Hf).
    apply bind_Ok_iff in Hf as (u & _ & Hf). apply bind_Ok_iff in Hf as (u' & _ & Hf).
    apply bind_Ok_iff in Hf as (d1 & Ht%trashNodeTx_keeps & Hf). keeps_steps.
  - apply withStorageTx_keeps. intros d' b Hf. rewrite Ha in Hf.
    apply bind_Ok_iff in Hf as (n & _ & Hf).
    apply bind_Ok_iff in Hf as (u & _ & Hf). apply bind_Ok_iff in Hf as (u' & _ & Hf).
    apply bind_Ok_iff in Hf as (d1 & Ht%trashNodeTx_keeps & Hf). keeps_steps.
  - apply withStorageTx_keeps. intros d' b Hf. rewrite Ha in Hf.
    apply bind_Ok_iff in Hf as (n & _ & Hf). apply bind_Ok_iff in Hf as ([d1 n1] & Hr & Hf).
    apply bind_Ok_iff in Hr as (u & _ & Hr). apply bind_Ok_iff in Hr as (u' & _ & Hr).
    apply bind_Ok_iff in Hr as (t & _ & Hr%restoreNodeTx_keeps). keeps_steps.
Qed.

(** ** The invariant *)

Record vault_wf (d : db) : Prop := {
  vw_tree : tree_wf d;
  vw_tags : tags_wf d;
  vw_unaudited : audit_active d = false;
}.

Lemma keeps_tags_wf d d' : keeps d d' → tags_wf d → tags_wf d'.
Proof.
  intros Hk Hw. pose proof Hk as (Ht & Hn & _). apply (tags_wf_frame d d' Hw Ht); [by rewrite Hn|].
  intros i tag _. by apply keeps_exists.
Qed.

Lemma bump_tags_of_inv gone d i t' :
  tags (bump_tags_of gone d) !! i = Some t' →
  ∃ t, tags d !! i = Some t ∧ t_name t' = t_name t ∧ (t_revision t ≤ t_revision t')%Z.
Proof.
  simpl. rewrite map_lookup_imap. destruct (tags d !! i) as [t|]; [|done]. intros [= <-].
  exists t. split; [done|]. case_bool_decide; simpl; split; [done|lia|done|lia].
Qed.

Lemma emptied_tags_wf d gone ids :
  tags_wf d → tags_wf (delete_nodes ids (bump_tags_of gone d)).
Proof.
  intros [Hids Hnames Hcan Hrev Has]. split.
  - intros i [t (t0 & ? & _)%bump_tags_of_inv]. eauto.
  - intros i j t u (t0 & Ht & Hnt & _)%bump_tags_of_inv (u0 & Hu & Hnu & _)%bump_tags_of_inv Hn.
    eapply Hnames; [exact Ht|exact Hu|congruence].
  - intros i t (t0 & Ht & Hn & _)%bump_tags_of_inv. rewrite Hn. by eapply Hcan.
  - intros i t (t0 & Ht & _ & ?)%bump_tags_of_inv. pose proof (Hrev _ _ Ht). lia.
  - intros i tag [Hgone Hin]%elem_of_filter. simpl in Hgone. destruct (Has i tag Hin) as [[r Hr] [t Ht]].
    split.
    + exists (forget_origin (doomed (nodes d) ids) r). simpl. rewrite lookup_fmap.
      assert (filter (λ ir : Z * node_row, ir.1 ∉ doomed (nodes d) ids) (nodes d) !! i = Some r)
        as ->; [|done]. by apply map_lookup_filter_Some.
    + simpl. rewrite map_lookup_imap, Ht. by eexists.
Qed.

Lemma trashEmpty_vault_wf cutoff n b d : vault_wf d → vault_wf (trashEmpty cutoff n b d).1.
Proof.
  intros Hv. pose proof (trashEmpty_wf root cutoff n b d (vw_tree d Hv)) as Hw.
  assert (∀ d' rep, trashEmptyTx cutoff n b d = Ok (d', rep) →
    tags_wf d' ∧ audit_active d' = false) as Hte.
  { intros d' rep Ht. unfold trashEmptyTx in Ht.
    destruct b; [|by apply Ok_inj in Ht as [= <- _]; destruct Hv].
    apply bind_Ok_iff in Ht as (u & _ & Ht). apply Ok_inj in Ht as [= <- _].
    split; [by apply emptied_tags_wf, vw_tags|by apply Hv]. }
  enough (tags_wf (trashEmpty cutoff n b d).1 ∧ audit_active (trashEmpty cutoff n b d).1 = false)
    by (split; tauto).
  unfold trashEmpty, withLogicalTx. destruct Hv as [_ Htw Hna].
  destruct b; (eapply withStorageTx_inv; [done|]); rewrite ?Hna; exact Hte.
Qed.

(** ** Tag commands *)

(** [VCreateTag] carries the sixteen bytes read from [crypto/rand]. *)
Inductive vault_command :=
  | VTree (c : command)
  | VCreateTag (random : list ascii) (nm : string)
  | VRenameTag (tag : string) (ifRev : Z) (nm : string)
  | VDeleteTag (tag : string) (ifRev : Z)
  | VAssign (tag : string) (nodeID ifRev : Z) (assign : bool)
  | VAssignPath (tag path : string) (assign : bool).

Definition vault_run (now : string) (c : vault_command) (d : db) : db * res unit :=
  match c with
  | VTree c => run root now c d
  | VCreateTag random nm => erase (CreateTag (newUUIDv4 random) nm d)
  | VRenameTag tag rev nm => erase (RenameTag tag rev nm now d)
  | VDeleteTag tag rev => erase (DeleteTag tag rev now d)
  | VAssign tag i rev assign => erase (changeTagAssignment tag i rev assign now d)
  | VAssignPath tag path assign => erase (changeTagAssignmentPath root tag path assign now d)
  end.

Definition entropy_ok (c : vault_command) : Prop :=
  match c with VCreateTag random _ => length random = 16%nat | _ => True end.

Inductive vault_reachable (start : db) : db → Prop :=
  | vault_start : vault_reachable start start
  | vault_step d now c :
      vault_reachable start d → entropy_ok c → vault_reachable start (vault_run now c d).1.

Lemma tagByIDTx_row d tag t :
  tagByIDTx d tag = Ok t → ∃ row, tags d !! tag = Some row ∧ t = scanTag d tag row.
Proof. intros (_ & row & ? & ->)%tagByIDTx_Ok_iff. eauto. Qed.

(** What a tag command does to a well-formed vault. *)
Definition advances (d d' : db) : Prop := vault_wf d' ∧ tracks d d'.

Lemma advances_refl d : vault_wf d → advances d d.
Proof. intros Hv. split; [done|reflexivity]. Qed.

Lemma touched_tracks d tag now : tracks d (touched tag now d).
Proof. by eapply tracks_set_where; [apply content_edit_bump| |]. Qed.

Lemma changeActiveTx_wf d tag i r ifRev assign now d' c :
  vault_wf d → nodes d !! i = Some r →
  changeActiveTx d tag (scanNode d i r) ifRev assign now = Ok (d', c) → advances d d'.
Proof.
  intros Hv Hr. pose proof Hv as [Hwf Htw Hna]. unfold changeActiveTx. rewrite Hna.
  destruct (tagByIDTx d tag) as [t0|e] eqn:Ht0.
  2:{ unfold changeTagAssignmentTx. by rewrite Ht0. }
  apply tagByIDTx_Ok_iff in Ht0 as (Hu & t & Ht & _).
  rewrite (changeTagAssignmentTx_cases root) with (t := t) by done.
  destruct (stale _ _); [done|]. destruct (Bool.eqb _ _); intros Hc; apply Ok_inj in Hc as [= <- _].
  - by apply advances_refl.
  - split; [split; [by apply assigned_tree_wf| |done]; eapply (assigned_wf root); eauto|].
    by eapply tracks_set_where; [apply content_edit_bump| |].
Qed.

Lemma insert_tag_wf d tag nm ts :
  vault_wf d → insert_tag tag nm (tags d) = Some ts → validateUUIDv4 tag = Ok tt →
  NormalizeTagName nm = Ok nm → vault_wf (with_tags d ts).
Proof.
  intros [Hwf [Hids Hnames Hcan Hrev Has] Hna] Hi Hu Hnm. unfold insert_tag in Hi.
  case_bool_decide as Hold; [done|]. case_bool_decide as Hfree; [|done]. injection Hi as <-.
  assert (∀ j t, tags d !! j = Some t → t_name t ≠ nm) as Hno.
  { intros j t Ht Hn. assert (j ∈ tags_named (tags d) nm) as Hin by (apply elem_of_tags_named; eauto).
    rewrite Hfree in Hin. by apply elem_of_nil in Hin. }
  split; [by eapply tree_wf_tables| |done]. split; simpl.
  - intros j [t [[<- <-]|[_ ?]]%lookup_insert_Some]; [done|eauto].
  - intros j k t u [[<- <-]|[_ Hj]]%lookup_insert_Some [[<- <-]|[_ Hk]]%lookup_insert_Some Hn;
      simpl in Hn; [done| | |by eapply Hnames].
    + by destruct (Hno _ _ Hk).
    + by destruct (Hno _ _ Hj).
  - intros j t [[<- <-]|[_ Ht]]%lookup_insert_Some; [done|by eapply Hcan].
  - intros j t [[<- <-]|[_ Ht]]%lookup_insert_Some; [done|by eapply Hrev].
  - intros j u Hin. destruct (Has j u Hin) as [? [t Ht]]. split; [done|].
    destruct (decide (u = tag)) as [->|]; [rewrite lookup_insert_eq; eauto|].
    rewrite lookup_insert_ne; eauto.
Qed.

Lemma tree_run_wf now c d : vault_wf d → vault_wf (run root now c d).1.
Proof using Laws.
  intros Hv. pose proof Hv as [Hwf Htw Hna].
  assert ((∃ cutoff n b, c = CTrashEmpty cutoff n b) ∨ ∀ cutoff n b, c ≠ CTrashEmpty cutoff n b)
    as [(cutoff & n & b & ->)|Hc] by (destruct c; naive_solver).
  { by apply trashEmpty_vault_wf. }
  pose proof (run_keeps now c d Hwf Hna Hc) as Hk. split; [by apply run_wf|by eapply keeps_tags_wf|].
  destruct Hk as (_ & _ & -> & _). done.
Qed.

Definition is_tree_command (c : vault_command) : bool :=
  match c with VTree _ => true | _ => false end.

Lemma tag_run_advances now c d :
  entropy_ok c → is_tree_command c = false → vault_wf d → advances d (vault_run now c d).1.
Proof.
  intros He Htree Hv. pose proof Hv as [Hwf Htw Hna]. pose proof (advances_refl d Hv) as Hrefl.
  destruct c as [c|random nm|tag rev nm|tag rev|tag i rev b|tag path b]; simpl; [done|..].
  - unfold CreateTag. destruct (NormalizeTagName nm) as [nm'|e] eqn:Hnm; [|done].
    apply withStorageTx_inv; [done|]. intros d' t Hf. apply bind_Ok_iff in Hf as (ts & Hts & Hf).
    apply from_lookup_Ok_iff in Hts. cbn in Hf. rewrite Hna in Hf. apply Ok_inj in Hf as [= <- _].
    split; [|change (tracks d d); reflexivity].
    eapply insert_tag_wf; [done|done|by apply newUUIDv4_valid|by eapply NormalizeTagName_idem].
  - unfold RenameTag. destruct (NormalizeTagName nm) as [nm'|e] eqn:Hnm; [|done].
    apply NormalizeTagName_idem in Hnm.
    apply withStorageTx_inv; [done|]. intros d' t Hf. apply bind_Ok_iff in Hf as (cur & Hcur & Hf).
    apply tagByIDTx_row in Hcur as (row & Hrow & ->). apply bind_Ok_iff in Hf as (u & _ & Hf).
    cbn -[renameTagTx] in Hf. destruct (String.eqb _ _); [by apply Ok_inj in Hf as [= <- _]|].
    rewrite Hna, (renameTagTx_cases root) in Hf by done. case_bool_decide as Hfree; [|done].
    apply Ok_inj in Hf as [= <- _]. rewrite Forall_forall in Hfree.
    split; [|exact (touched_tracks (with_tags d _) _ _)].
    destruct (renamed_wf root d tag nm' row now) as [? ?]; try done.
    intros j u' ? ?. apply Hfree, elem_of_tags_named. eauto.
  - unfold DeleteTag. apply withStorageTx_inv; [done|]. intros d' t Hf.
    apply bind_Ok_iff in Hf as (cur & Hcur & Hf).
    apply tagByIDTx_row in Hcur as (row & Hrow & ->). apply bind_Ok_iff in Hf as (u & _ & Hf).
    rewrite Hna, (deleteTagTx_cases root) in Hf by done. apply Ok_inj in Hf as [= <- _].
    split; [by split; [apply (untagged_wf root)..|]|]. apply touched_tracks.
  - unfold changeTagAssignment. apply withStorageTx_inv; [done|]. intros d' t Hf.
    apply bind_Ok_iff in Hf as (n & Hn & Hf). apply nodeByIDTx_Ok_iff in Hn as (r & Hr & ->). by eapply changeActiveTx_wf.
  - unfold changeTagAssignmentPath. apply withStorageTx_inv; [done|]. intros d' t Hf.
    apply bind_Ok_iff in Hf as (n & Hn & Hf). apply (nodeByPath_Ok_iff root) in Hn as (i & r & Hr & _ & -> & _); [|done].
    by eapply changeActiveTx_wf.
Qed.

Lemma vault_run_wf now c d : entropy_ok c → vault_wf d → vault_wf (vault_run now c d).1.
Proof using Laws.
  intros He Hv. destruct (is_tree_command c) eqn:Hc; [|by apply tag_run_advances].
  destruct c; try done. by apply tree_run_wf.
Qed.

(** ** Properties *)

Lemma bootstrap_vault_wf now d0 rootID :
  bootstrapTx now empty_db = Ok (d0, rootID) →
  rootID = 1%Z ∧ TreeInv.tree_wf 1 d0 ∧ tags_wf d0 ∧ audit_active d0 = false.
Proof.
  destruct (bootstrap_wf now) as (d & Hb & Hw). intros Hb'. rewrite Hb in Hb'.
  apply Ok_inj in Hb' as [= <- <-]. split_and!; [done|done| |].
  - assert (tags d = ∅ ∧ node_tags d = ∅) as [Ht Hn].
    { vm_compute in Hb. injection Hb as <-. done. }
    split; rewrite ?Ht; try done; [by intros ? [? ?]|]. intros i tag Hin. by rewrite Hn in Hin.
  - vm_compute in Hb. by injection Hb as <-.
Qed.

End machine.

(** From bootstrap, any interleaving of tree, trash and tag commands keeps the
    tree invariant and the tag invariant together: tag identities are valid
    UUIDs, tag names canonical and unique, every assignment joins an existing
    node to an existing tag. *)
Theorem reachable_vault_wf `{Normalizer} (A : AuditedTree) (T : AuditedTags) `{RenditionTables}
    {Laws : AuditedTreeLaws A 1} now d0 rootID d :
  bootstrapTx now empty_db = Ok (d0, rootID) → vault_reachable A T rootID d0 d →
  rootID = 1%Z ∧ TreeInv.tree_wf rootID d ∧ tags_wf d.
Proof.
  intros (-> & Hw & Htw & Hna)%bootstrap_vault_wf Hr. split; [done|].
  enough (vault_wf 1 d) as [? ? _] by done.
  induction Hr as [|d now' c Hr IH He]; [by split|]. by apply vault_run_wf.
Qed.

(** A vault with one tag on one directory. *)
Definition demo_tag_id : string := newUUIDv4 (repeat "255"%char 16).
Definition demo_commands : list vault_command := [
  VTree (CMkdirAll "/a/b");
  VCreateTag (repeat "255"%char 16) "urgent";
  VAssignPath demo_tag_id "/a/b" true].
Definition demo_run (d : db) (c : vault_command) : db :=
  (@vault_run ascii_normalizer refusing_audit refusing_tag_audit no_renditions 1 "t1" c d).1.
Definition demo_vault : db := foldl demo_run sample_start demo_commands.

Lemma demo_vault_reachable :
  @vault_reachable ascii_normalizer refusing_audit refusing_tag_audit no_renditions 1
    sample_start demo_vault.
Proof. repeat (apply vault_step; [|done]). apply vault_start. Qed.

Lemma demo_vault_wf :
  @tree_wf ascii_normalizer 1 demo_vault ∧ @tags_wf ascii_normalizer demo_vault.
Proof.
  enough (@vault_wf ascii_normalizer 1 demo_vault) as [? ? _] by done.
  destruct (@bootstrap_vault_wf ascii_normalizer "t0" sample_start 1) as (_ & Hw & Htw & Hna);
    [vm_compute; reflexivity|].
  assert (∀ d c, entropy_ok c → @vault_wf ascii_normalizer 1 d → @vault_wf ascii_normalizer 1 (demo_run d c))
    as Hstep by (intros; by apply vault_run_wf).
  unfold demo_vault, demo_commands. cbn [foldl]. do 3 (apply Hstep; [done|]). by split.
Qed.

Lemma reachable_vault_wf_witness :
  (1%Z = 1%Z ∧ @tree_wf ascii_normalizer 1 demo_vault ∧ @tags_wf ascii_normalizer demo_vault) ∧
  node_tags demo_vault = {[ (3%Z, demo_tag_id) ]}.
Proof.
  split; [|vm_compute; reflexivity].
  apply (@reachable_vault_wf ascii_normalizer refusing_audit refusing_tag_audit no_renditions _
    "t0" sample_start 1); [vm_compute; reflexivity|apply demo_vault_reachable].
Defined.
