(* ===== verification/VaultProps.v ===== *)
(** * Listings of tags and of tagged nodes *)
From S2P Require Import Prelude GoText Names Tables Tree TreeInv TreeFacts Trash TrashFacts Identity Tags StoreMachine StoreProps Listing VaultMachine TagProps.

Section listing.
Context `{Normalizer} (root : Z).
Notation tree_wf := (tree_wf root).

(** ** The path of a tagged node *)

Lemma Join_last_join (l : list string) a b :
  Join (l ++ [a +:+ ("/" +:+ b)]) "/" = Join (l ++ [a; b]) "/".
Proof.
  change [a; b] with ([a] ++ [b]). rewrite app_assoc. rewrite (Join_snoc (l ++ [a])) by (by destruct l).
  destruct (decide (l = [])) as [->|Hl]; [done|]. rewrite !Join_snoc by done. by rewrite !sapp_assoc.
Qed.

(** The upward walk of a live node below the root prefixes the names on its way. *)
Lemma tagged_path_up d i r p l fuel path :
  tree_wf d → nodes d !! i = Some r → trashed_at r = None → parent_id r = Some p →
  anc (nodes d) p l → (length l < fuel)%nat →
  tagged_path (nodes d) fuel i path = Some ("/" +:+ Join (path_segs (nodes d) p ++ [path]) "/").
Proof.
  intros Hwf Hi Ht Hp Hl. revert i r fuel path Hi Ht Hp.
  induction Hl as [p pr Hpr Hpp|p pr q l Hpr Hpq Hl IH]; intros i r fuel path Hi Ht Hp Hf;
    (destruct fuel as [|fuel]; [cbn in Hf; lia|]);
    pose proof (wf_live_parent _ _ Hwf i r p pr Hi Ht Hp Hpr) as Hpt;
    cbn [tagged_path]; rewrite Hi, Hp, Hpr; unfold is_live; rewrite Hpt; cbn [bool_decide decide_rel].
  - rewrite bool_decide_eq_true_2 by done. rewrite (path_segs_root _ _ _ Hpr Hpp).
    assert (p = root) as -> by (by eapply wf_only_root).
    destruct (wf_root _ _ Hwf) as (rr & Hrr & _ & _ & _ & Hn). assert (pr = rr) as -> by congruence.
    rewrite Hn. cbn in Hf. destruct fuel as [|fuel]; [lia|]. cbn [tagged_path]. by rewrite Hpr, Hpp.
  - rewrite bool_decide_eq_true_2 by done. assert (p ≠ root) as Hroot.
    { intros ->. destruct (wf_root _ _ Hwf) as (rr & Hrr & Hn & _). congruence. }
    destruct (String.eqb_spec (name pr) "") as [Hn|_].
    { pose proof (wf_name _ _ Hwf p pr Hpr Hroot) as Hc.
      destruct (canonical_segment (name pr)) as [? _]; done. }
    cbn in Hf. rewrite (IH p pr fuel _ Hpr Hpt Hpq) by lia.
    rewrite (path_segs_step _ _ _ _ _ Hpr Hpq Hl). rewrite Join_last_join, <- app_assoc. done.
Qed.

(** The path the tagged-node listing computes by walking up from the node is
    the display path of the node, for every live node; trashed nodes get
    none. *)
Theorem taggedPath_pathOf d i r :
  tree_wf d → nodes d !! i = Some r →
  taggedPath d i r = if is_live r then pathOf d i else "".
Proof.
  intros Hwf Hi. unfold taggedPath, is_live. case_bool_decide as Ht; [|done].
  rewrite (pathOf_segs root) by eauto. destruct (wf_anc _ _ Hwf i) as [l Hl]; [eauto|].
  pose proof (anc_length _ _ _ Hl) as Hlen.
  inversion Hl as [? r' Hi' Hp|? r' p l' Hi' Hp Hl']; subst; assert (r' = r) as -> by congruence.
  - rewrite (path_segs_root _ _ _ Hi Hp). cbn [tagged_path]. rewrite Hi, Hp.
    assert (i = root) as -> by (by eapply wf_only_root).
    destruct (wf_root _ _ Hwf) as (rr & Hrr & _ & _ & _ & Hn). assert (r = rr) as -> by congruence.
    by rewrite Hn.
  - destruct (String.eqb_spec (name r) "") as [Hn|_].
    { assert (i ≠ root) as Hne.
      { intros ->. destruct (wf_root _ _ Hwf) as (rr & Hrr & Hnp & _). congruence. }
      pose proof (wf_name _ _ Hwf i r Hi Hne) as Hc.
      destruct (canonical_segment (name r)) as [? _]; done. }
    cbn in Hlen. rewrite (tagged_path_up d i r p l') by (try done; lia).
    by rewrite (path_segs_step _ _ _ _ _ Hi Hp Hl').
Qed.

(** ** Pages of tags *)

#[export] Instance tag_order_total d : Total (tag_order d).
Proof.
  intros i j. unfold tag_order. destruct (decide (tag_name_of d i = tag_name_of d j)) as [He|Hne].
  - rewrite He. destruct (total String.le i j); tauto.
  - destruct (total String.le (tag_name_of d i) (tag_name_of d j)); [tauto|].
    right. left. split; [congruence|done].
Qed.

#[export] Instance tag_order_trans d : Transitive (tag_order d).
Proof.
  intros i j k. unfold tag_order. intros [[Hij H1]|[Hij H1]] [[Hjk H2]|[Hjk H2]].
  - left. split; [|by transitivity (tag_name_of d j)]. intros He. apply Hij.
    apply (anti_symm String.le); [done|]. by rewrite He.
  - left. rewrite <- Hjk. done.
  - left. rewrite Hij. done.
  - right. split; [congruence|by transitivity j].
Qed.

Lemma validateTagPage_ok limit offset :
  (1 ≤ limit ≤ maxTagPageSize)%Z → (0 ≤ offset)%Z → validateTagPage limit offset = Ok tt.
Proof.
  intros Hl Ho. unfold validateTagPage.
  replace ((limit <? 1) || (maxTagPageSize <? limit))%Z with false by lia.
  by replace (offset <? 0)%Z with false by lia.
Qed.

Definition tag_of (d : db) (id : string) : Tag := scanTag d id (default (MkTagRow "" 0) (tags d !! id)).

Lemma scan_tags_all d ids :
  (∀ id, id ∈ ids → is_Some (tags d !! id)) → scan_tags d ids = tag_of d <$> ids.
Proof.
  induction ids as [|id ids IH]; intros Hids; [done|].
  destruct (Hids id) as [t Ht]; [by left|]. rewrite fmap_cons, <- IH by (intros; apply Hids; by right).
  unfold scan_tags at 1, tag_of. cbn [omap list_omap]. by rewrite Ht.
Qed.

(** The order of a tag page, on the records returned. *)
Definition tag_before (a b : Tag) : Prop := String.le (TagName a) (TagName b) ∧ TagName a ≠ TagName b.

Lemma sorted_tags_strict d l :
  tags_wf d → (∀ id, id ∈ l → is_Some (tags d !! id)) → NoDup l → StronglySorted (tag_order d) l →
  StronglySorted tag_before (tag_of d <$> l).
Proof.
  intros Hwf Hl Hnd Hs. eapply StronglySorted_map; [by apply StronglySorted_strict|].
  intros i j Hi Hj [Ho Hne]. destruct (Hl i Hi) as [t Ht], (Hl j Hj) as [u Hu].
  unfold tag_before, tag_of. cbn. unfold tag_order, tag_name_of in Ho. rewrite Ht, Hu in *. cbn in *.
  assert (t_name t ≠ t_name u) as Hn by (intros Hn; apply Hne; by eapply (tw_names d Hwf)).
  tauto.
Qed.

(** A page reader whose pages are slices of a list of existing tags. *)
Definition tag_listing (d : db) (fetch : Z → Z → res (list Tag * Z)) (P : string → Prop) : Prop :=
  ∃ all : list Tag,
    (∀ t, t ∈ all ↔ P (TagID t) ∧ tagByIDTx d (TagID t) = Ok t) ∧
    StronglySorted tag_before all ∧
    (∀ limit offset, (1 ≤ limit ≤ maxTagPageSize)%Z → (0 ≤ offset)%Z →
       fetch limit offset = Ok (page limit offset all, Z.of_nat (length all))) ∧
    (∀ limit n, (1 ≤ limit ≤ maxTagPageSize)%Z → (Z.of_nat (length all) ≤ limit * Z.of_nat n)%Z →
       read_pages (λ offset, fst <$> fetch limit offset) limit n = Ok all).

Lemma tag_listing_ok d fetch (P : string → Prop) ids :
  tags_wf d → NoDup ids → (∀ id, id ∈ ids ↔ P id ∧ is_Some (tags d !! id)) →
  (∀ limit offset, (1 ≤ limit ≤ maxTagPageSize)%Z → (0 ≤ offset)%Z →
     fetch limit offset = Ok (scan_tags d (page limit offset (merge_sort (tag_order d) ids)),
                              Z.of_nat (length ids))) →
  tag_listing d fetch P.
Proof.
  intros Hwf Hnd Hids Hf. destruct (merge_sort_spec (tag_order d) ids) as (Hin & Hnd' & Hs & Hlen).
  assert (∀ id, id ∈ merge_sort (tag_order d) ids → is_Some (tags d !! id)) as Hex
    by (intros id Hid; by apply Hids, Hin).
  assert (∀ limit offset, (1 ≤ limit ≤ maxTagPageSize)%Z → (0 ≤ offset)%Z →
    fetch limit offset = Ok (page limit offset (tag_of d <$> merge_sort (tag_order d) ids),
      Z.of_nat (length (tag_of d <$> merge_sort (tag_order d) ids)))) as Hpage.
  { intros limit offset Hl Ho. rewrite Hf by done. rewrite length_fmap, Hlen, <- fmap_page.
    rewrite scan_tags_all; [done|]. intros id Hid%page_subseteq. by apply Hex. }
  exists (tag_of d <$> merge_sort (tag_order d) ids). split_and!; [|by apply sorted_tags_strict; auto|done|].
  - intros t. rewrite list_elem_of_fmap. setoid_rewrite Hin. setoid_rewrite Hids. split.
    + intros (id & -> & HP & [u Hu]). split; [done|]. apply tagByIDTx_Ok_iff. cbn. split.
      * apply (tw_ids d Hwf). eauto.
      * exists u. split; [done|]. unfold tag_of. by rewrite Hu.
    + intros (HP & (_ & u & Hu & Ht)%tagByIDTx_Ok_iff). exists (TagID t). split_and!; [|done|eauto].
      unfold tag_of. by rewrite Hu.
  - intros limit n Hl Hn. apply read_pages_all; [lia| |done].
    intros offset Ho. by rewrite Hpage.
Qed.

(** The tag listing and the tag listing of a node contain exactly the defined
    tags, respectively the node's, each once, in strictly ascending byte order
    of names; every page is a slice of the listing and reports its whole
    length; reading all pages yields all of it. *)
Theorem tag_pages d i :
  tags_wf d →
  tag_listing d (Tags d) (λ _, True) ∧
  (is_Some (nodes d !! i) → tag_listing d (NodeTags d i) (λ id, (i, id) ∈ node_tags d)).
Proof.
  intros Hwf. split.
  - apply (tag_listing_ok d _ _ (fst <$> map_to_list (tags d)) Hwf).
    + apply NoDup_fst_map_to_list.
    + intros id. rewrite list_elem_of_fmap. split.
      * intros ([? t] & -> & Ht%elem_of_map_to_list). eauto.
      * intros [_ [t Ht]]. exists (id, t). split; [done|]. by apply elem_of_map_to_list.
    + intros limit offset Hl Ho. unfold Tags. rewrite validateTagPage_ok by done. cbn.
      by rewrite (proj2 (proj2 (proj2 (merge_sort_spec (tag_order d) _)))).
  - intros Hi. apply (tag_listing_ok d _ _ (tags_of_node d i) Hwf).
    + unfold tags_of_node.
      assert (NoDup (filter (λ nt : Z * string, nt.1 = i) (elements (node_tags d)))) as Hnd
        by (apply NoDup_filter, NoDup_elements).
      assert (∀ nt, nt ∈ filter (λ nt : Z * string, nt.1 = i) (elements (node_tags d)) → nt.1 = i) as Hall
        by (intros nt Hnt; by apply list_elem_of_filter in Hnt as [? _]).
      revert Hnd Hall. generalize (filter (λ nt : Z * string, nt.1 = i) (elements (node_tags d))).
      induction l as [|[j s] l IH]; intros Hnd Hall; [constructor|]. rewrite fmap_cons.
      apply NoDup_cons in Hnd as [Hn Hnd]. apply NoDup_cons. split.
      * intros ([j' s'] & Hs & Hin)%list_elem_of_fmap. cbn in Hs. subst. apply Hn.
        pose proof (Hall (j, s') ltac:(left)). pose proof (Hall (j', s') ltac:(by right)).
        cbn in *. by subst.
      * apply IH; [done|]. intros nt Hnt. apply Hall. by right.
    + intros id. unfold tags_of_node. rewrite list_elem_of_fmap. split.
      * intros ([j s] & -> & [? Hin%elem_of_elements]%list_elem_of_filter). cbn in *. subst.
        split; [done|]. by apply (tw_assigned d Hwf _ _ Hin).
      * intros [Hin _]. exists (i, id). split; [done|]. apply list_elem_of_filter.
        split; [done|]. by apply elem_of_elements.
    + intros limit offset Hl Ho. unfold NodeTags. rewrite validateTagPage_ok by done. cbn.
      rewrite bool_decide_eq_true_2 by done. cbn.
      by rewrite (proj2 (proj2 (proj2 (merge_sort_spec (tag_order d) _)))).
Qed.

End listing.

(** * The tag and listing properties at work on the demonstration vault *)

Local Instance demo_audit : AuditedTags := refusing_tag_audit.
Local Instance demo_nfc : Normalizer := ascii_normalizer.

Lemma changeTagAssignment_receipt_witness :
  let '(d', r) := changeTagAssignment demo_tag_id 2 UnconditionalRev true "t2" demo_vault in
  (is_Ok r = true ↔ validateUUIDv4 demo_tag_id = Ok tt ∧ is_Some (tags demo_vault !! demo_tag_id) ∧
     ∃ row, nodes demo_vault !! 2%Z = Some row ∧ stale UnconditionalRev (revision row) = false) ∧
  ∀ c, r = Ok c →
    tagByIDTx d' demo_tag_id = Ok (ChangeTag c) ∧
    NodeViewByID d' 2 = Ok (ChangeNode c, ChangePath c) ∧
    (∀ nt, nt ∈ node_tags d' ↔ assignments_after demo_vault 2 demo_tag_id true nt) ∧
    (Changed c = true ↔ node_tags d' ≠ node_tags demo_vault) ∧
    d' = if Changed c
         then with_nodes (with_tags (with_node_tags demo_vault (node_tags d'))
                  (bump_tag_row demo_tag_id (tags demo_vault)))
                (set_where (is_id 2) (bump "t2") (nodes demo_vault))
         else demo_vault.
Proof.
  apply (changeTagAssignment_receipt refusing_tag_audit 1); [apply demo_vault_wf|].
  vm_compute. reflexivity.
Defined.

Lemma RenameTag_effect_witness :
  let '(d', r) := RenameTag demo_tag_id 2 "later" "t2" demo_vault in
  ∃ tag', r = Ok tag' ∧
    tagByIDTx d' demo_tag_id = Ok tag' ∧ TagByName d' "later" = Ok tag' ∧
    TagByName d' "urgent" = Err ErrNotFound.
Proof.
  assert (tags demo_vault !! demo_tag_id = Some (MkTagRow "urgent" 2)) as Ht
    by (vm_compute; reflexivity).
  pose proof (RenameTag_effect refusing_tag_audit 1 demo_vault demo_tag_id (MkTagRow "urgent" 2)
    2 "later" "later" "t2" (proj1 demo_vault_wf) (proj2 demo_vault_wf)
    ltac:(vm_compute; reflexivity) Ht eq_refl ltac:(vm_compute; reflexivity) ltac:(done)) as He.
  destruct (RenameTag _ _ _ _ _) as [d' r].
  rewrite decide_True in He by (vm_compute; reflexivity).
  destruct He as (tag' & Hr & H1 & H2 & H3 & _). exists tag'. done.
Defined.

Lemma DeleteTag_effect_witness :
  let '(d', r) := DeleteTag demo_tag_id 2 "t2" demo_vault in
  r = tagByIDTx demo_vault demo_tag_id ∧ is_Ok r = true ∧
  tagByIDTx d' demo_tag_id = Err ErrNotFound ∧
  (∀ j, j ≠ demo_tag_id → tagByIDTx d' j = tagByIDTx demo_vault j) ∧
  (∀ i j, (i, j) ∈ node_tags d' ↔ (i, j) ∈ node_tags demo_vault ∧ j ≠ demo_tag_id) ∧
  (∀ i, nodes d' !! i = (λ r, if decide ((i, demo_tag_id) ∈ node_tags demo_vault) then bump "t2" r else r)
                        <$> nodes demo_vault !! i).
Proof.
  apply (DeleteTag_effect refusing_tag_audit 1 demo_vault demo_tag_id (MkTagRow "urgent" 2));
    [apply demo_vault_wf|apply demo_vault_wf|vm_compute; reflexivity..].
Defined.

Lemma taggedPath_pathOf_witness :
  (∃ r, nodes demo_vault !! 3%Z = Some r ∧
     taggedPath demo_vault 3 r = if is_live r then pathOf demo_vault 3 else "") ∧
  pathOf demo_vault 3 = "/a/b".
Proof.
  split; [|vm_compute; reflexivity].
  eexists. split; [vm_compute; reflexivity|].
  apply (taggedPath_pathOf 1); [apply demo_vault_wf|vm_compute; reflexivity].
Defined.

Lemma tag_pages_witness :
  (tag_listing demo_vault (Tags demo_vault) (λ _, True) ∧
   (is_Some (nodes demo_vault !! 3%Z) →
    tag_listing demo_vault (NodeTags demo_vault 3) (λ id, (3%Z, id) ∈ node_tags demo_vault))) ∧
  is_Ok (NodeTags demo_vault 3 10 0) = true.
Proof. split; [|vm_compute; reflexivity]. apply tag_pages, demo_vault_wf. Defined.

Lemma Children_complete_witness :
  (∃ kids : list Node, Children sample_vault 1 = Ok kids ∧ NoDup (ID <$> kids) ∧
    StronglySorted listed_before kids ∧
    ∀ n, n ∈ kids ↔ ∃ i row, nodes sample_vault !! i = Some row ∧ parent_id row = Some 1%Z ∧
                            trashed_at row = None ∧ n = scanNode sample_vault i row) ∧
  ((λ kids : list Node, Name <$> kids) <$> Children sample_vault 1) = Ok ["a"; "c"].
Proof.
  split; [|vm_compute; reflexivity].
  eapply (Children_complete 1); [apply sample_vault_wf|vm_compute; reflexivity|reflexivity].
Defined.

Lemma DirectoryChildrenPage_tiles_witness :
  ∃ r kids, nodes sample_vault !! 1%Z = Some r ∧ Children sample_vault 1 = Ok kids ∧
    (∀ offset, (0 ≤ offset)%Z → ∃ pg, DirectoryChildrenPage sample_vault 1 1 offset = Ok pg ∧
       PageTotal pg = Z.of_nat (length kids) ∧
       PageDirectory pg = (scanNode sample_vault 1 r, pathOf sample_vault 1)) ∧
    ((Z.of_nat (length kids) ≤ 1 * Z.of_nat 2)%Z →
     read_pages (λ offset, fst <$> ChildrenPage sample_vault 1 1 offset) 1 2 = Ok kids).
Proof.
  destruct (nodes sample_vault !! 1%Z) as [r|] eqn:Hr; [|vm_compute in Hr; discriminate].
  assert (kind r = dir ∧ trashed_at r = None) as [Hk Ht]
    by (vm_compute in Hr; injection Hr as <-; done).
  destruct (DirectoryChildrenPage_tiles sample_vault 1 r 1 2 Hr Hk Ht ltac:(lia)) as (kids & H).
  by exists r, kids.
Defined.
