(* ===== verification/Blobs.v ===== *)
(** * The blob catalog (internal/store/physical_storage.go, write.go,
      content_checksums.go, blob_locations.go)

    Which content hashes are members of the vault, where their bytes are
    authorized to be read from, and the transaction step by which a write
    registers its bytes. *)
From S2P Require Import Prelude GoText Names Tables.

(** ** Tables *)

(** A row of [blob_locations], keyed by hash and store. *)
Record location := MkLocation {
  l_generation : string;
  l_kind : string;
  l_encoding : option string;
  l_stored_size : Z;
  l_pack_eligible : bool;
}.

(** A row of [blob_pack_entries], keyed by hash and store. *)
Record pack_entry := MkPackEntry {
  e_pack_id : string;
  e_pack_offset : Z;
  e_stored_len : Z;
  e_raw_len : Z;
  e_flags : Z;
  e_crc32c : Z;
}.

(** A row of [ingests], keyed by its id. *)
Record ingest_row := MkIngestRow {
  in_started_at : string;
  in_source_kind : string;
  in_source_desc : string;
}.
#[export] Instance ingest_row_eq_dec : EqDecision ingest_row.
Proof. solve_decision. Defined.

(** A row of [provenance], keyed by its identity. *)
Record provenance_row := MkProvenanceRow {
  pv_node_id : Z;
  pv_ingest_id : string;
  pv_original_path : string;
  pv_original_mtime : option string;
  pv_supersedes : option string;
}.
#[export] Instance provenance_row_eq_dec : EqDecision provenance_row.
Proof. solve_decision. Defined.

(** The tables a content write touches: the tree's and the catalog's.  [blobs]
    maps a hash to its logical size; [watch_sources] maps a watch and a source
    reference to the node, hash and size last accepted from it; [ingests] and
    [provenance] record where files came from. *)
Record catalog := MkCatalog {
  tables : db;
  blobs : gmap string Z;
  locations : gmap (string * string) location;
  pack_entries : gmap (string * string) pack_entry;
  watch_sources : gmap (string * string) (Z * string * Z);
  ingests : gmap string ingest_row;
  provenance : gmap string provenance_row;
  primaryStoreID : string;
}.

Definition with_tables (c : catalog) (d : db) : catalog :=
  MkCatalog d (blobs c) (locations c) (pack_entries c) (watch_sources c)
    (ingests c) (provenance c) (primaryStoreID c).
Definition with_blobs (c : catalog) (bs : gmap string Z) : catalog :=
  MkCatalog (tables c) bs (locations c) (pack_entries c) (watch_sources c)
    (ingests c) (provenance c) (primaryStoreID c).
Definition with_watch_sources (c : catalog) (ws : gmap (string * string) (Z * string * Z)) : catalog :=
  MkCatalog (tables c) (blobs c) (locations c) (pack_entries c) ws (ingests c) (provenance c)
    (primaryStoreID c).
Definition with_ingests (c : catalog) (runs : gmap string ingest_row) : catalog :=
  MkCatalog (tables c) (blobs c) (locations c) (pack_entries c) (watch_sources c)
    runs (provenance c) (primaryStoreID c).
Definition with_provenance (c : catalog) (ps : gmap string provenance_row) : catalog :=
  MkCatalog (tables c) (blobs c) (locations c) (pack_entries c) (watch_sources c)
    (ingests c) ps (primaryStoreID c).
(** [ON DELETE CASCADE]: the rows of a node that is gone go with it. *)
Definition cascade_nodes (c : catalog) (d : db) : catalog :=
  MkCatalog d (blobs c) (locations c) (pack_entries c)
    (filter (λ kw : (string * string) * (Z * string * Z), is_Some (nodes d !! kw.2.1.1)) (watch_sources c))
    (ingests c)
    (filter (λ ip : string * provenance_row, is_Some (nodes d !! pv_node_id ip.2)) (provenance c))
    (primaryStoreID c).
Definition with_checksums (c : catalog) (cs : gmap string string) : catalog :=
  let d := tables c in
  with_tables c
    (MkDb (nodes d) (node_seq d) (versions d) cs (tags d) (node_tags d) (audit_active d)).

(** What the code uses of the kit library: the syntax of SHA-256 names that
    [packstore.ParseHash] accepts, whether it reads a name back as spelled, and
    the compression bit of pack flags. *)
Class Kit := {
  parses_hash : string → bool;
  canonical_hash : string → bool;
  BlobCompressed : Z;
}.

(** ** Receipts *)

Record BlobPhysical := MkPhysical {
  Encoding : string;
  StoredBytes : Z;
  PackEligible : bool;
  PhysicalMD5 : string;
  Created : bool;
}.

Record PhysicalContent := MkContent {
  ContentKind : string;
  ContentEncoding : string;
  LogicalBytes : Z;
  ContentStoredBytes : Z;
  ContentPackEligible : bool;
}.

Definition maxPackEligibleBytes : Z := 64 * 2 ^ 20.
Definition looseEncodingRaw : string := "raw".
Definition looseEncodingZstd : string := "zstd".
Definition blobLocationKindLoose : string := "loose".

Definition is_lower_hex_char (c : ascii) : bool :=
  let n := N_of_ascii c in
  ((48 <=? n) && (n <=? 57))%N || ((97 <=? n) && (n <=? 102))%N.

(** Lower-case hexadecimal digits are their own lower case. *)
Definition validateAuxiliaryMD5 (value : string) : res unit :=
  check ((String.length value =? 32)%nat && forallb is_lower_hex_char (String.list_ascii_of_string value))
    ErrOther.

Definition normalizeBlobPhysical (size : Z) (physical : list BlobPhysical) : res BlobPhysical :=
  match physical with
  | _ :: _ :: _ => Err ErrOther
  | [] => Ok (MkPhysical looseEncodingRaw size (size <=? maxPackEligibleBytes)%Z "" false)
  | [p] =>
      _ ← (if String.eqb (PhysicalMD5 p) "" then Ok tt else validateAuxiliaryMD5 (PhysicalMD5 p));
      _ ← check (String.eqb (Encoding p) looseEncodingRaw
                 || String.eqb (Encoding p) looseEncodingZstd) ErrOther;
      _ ← check (0 <=? StoredBytes p)%Z ErrOther;
      _ ← check (negb (String.eqb (Encoding p) looseEncodingRaw
                       && negb (StoredBytes p =? size)%Z)) ErrOther;
      Ok p
  end.

Section blobs.
Context `{Kit}.

(** ** Reading authority *)

(** [scanPhysicalContent] on a row: the logical size with the joined location
    and pack entry. *)
Definition scanPhysicalContent (row : option (Z * option location * option pack_entry)) :
    res PhysicalContent :=
  '(logical, loc, entry) ← from_lookup row ErrNotFound;
  let eligible := default false (l_pack_eligible <$> loc) in
  match entry with
  | Some e =>
      _ ← check ((0 <=? e_flags e)%Z && (e_flags e <=? 255)%Z) ErrOther;
      let enc := if negb (Z.land (e_flags e) BlobCompressed =? 0)%Z then looseEncodingZstd
                 else looseEncodingRaw in
      Ok (MkContent "packed" enc logical (e_stored_len e) eligible)
  | None =>
      match loc with
      | Some l =>
          enc ← from_lookup (l_encoding l) ErrPhysicalAuthorityMissing;
          Ok (MkContent "loose" enc logical (l_stored_size l) eligible)
      | None => Err ErrPhysicalAuthorityMissing
      end
  end.

(** The row of [b LEFT JOIN l ON store LEFT JOIN i ON l]. *)
Definition content_row (c : catalog) (hash store : string) :
    option (Z * option location * option pack_entry) :=
  size ← blobs c !! hash;
  let loc := locations c !! (hash, store) in
  Some (size, loc, _ ← loc; pack_entries c !! (hash, store)).

Definition physicalContentTx (c : catalog) (hash : string) : res PhysicalContent :=
  scanPhysicalContent (content_row c hash (primaryStoreID c)).

(** A location that authorizes reads: loose in a known encoding, or packed with
    its mapping. *)
Definition authorizes (c : catalog) (hash store : string) (l : location) : bool :=
  (String.eqb (l_kind l) blobLocationKindLoose
   && match l_encoding l with
      | Some e => String.eqb e looseEncodingRaw || String.eqb e looseEncodingZstd
      | None => false
      end)
  || (String.eqb (l_kind l) "packed" && bool_decide (is_Some (pack_entries c !! (hash, store)))).

Definition authorized_stores (c : catalog) (hash : string) : list string :=
  (λ kl : (string * string) * location, kl.1.2) <$>
    filter (λ kl : (string * string) * location,
              kl.1.1 = hash ∧ authorizes c hash kl.1.2 kl.2 = true) (map_to_list (locations c)).

Definition requirePhysicalAuthorityTx (c : catalog) (hash : string) : res Z :=
  size ← from_lookup (blobs c !! hash) ErrNotFound;
  match authorized_stores c hash with
  | [] => Err ErrPhysicalAuthorityMissing
  | _ => Ok size
  end.

(** [ORDER BY] the primary store first, then by identity. *)
Definition store_order (primary : string) (s t : string) : Prop :=
  (s = primary ∧ t ≠ primary)
  ∨ ((s = primary ↔ t = primary) ∧ String.le s t).
#[export] Instance store_order_dec primary : RelDecision (store_order primary).
Proof. intros s t. unfold store_order. apply _. Defined.

Definition authorizedPhysicalContentTx (c : catalog) (hash : string) : res PhysicalContent :=
  _ ← requirePhysicalAuthorityTx c hash;
  match head (merge_sort (store_order (primaryStoreID c)) (authorized_stores c hash)) with
  | None => Err ErrPhysicalAuthorityMissing
  | Some store => scanPhysicalContent (content_row c hash store)
  end.

(** ** Registering bytes *)

(** [ensureBlobChecksumTx]: the insertion needs the parent row; a recorded
    checksum never changes. *)
Definition ensureBlobChecksumTx (c : catalog) (hash md5 : string) : res catalog :=
  if String.eqb md5 "" then Ok c
  else
    _ ← check (canonical_hash hash) ErrOther;
    _ ← validateAuxiliaryMD5 md5;
    c ← match checksums (tables c) !! hash with
        | Some _ => Ok c
        | None =>
            _ ← check (bool_decide (is_Some (blobs c !! hash))) ErrOther;
            Ok (with_checksums c (<[hash := md5]> (checksums (tables c))))
        end;
    stored ← from_lookup (checksums (tables c) !! hash) ErrOther;
    _ ← check (String.eqb stored md5) ErrOther;
    Ok c.

(** [generation] is the fresh identity of the location row. *)
Definition writeLooseLocationTx (c : catalog) (store hash generation : string)
    (physical : BlobPhysical) : res catalog :=
  _ ← check (0 <=? StoredBytes physical)%Z ErrOther;
  Ok (MkCatalog (tables c) (blobs c)
        (<[(hash, store) := MkLocation generation blobLocationKindLoose (Some (Encoding physical))
                              (StoredBytes physical) (PackEligible physical)]> (locations c))
        (delete (hash, store) (pack_entries c)) (watch_sources c)
    (ingests c) (provenance c) (primaryStoreID c)).

Definition EnsureBlobTx (c : catalog) (hash : string) (size : Z) (physical : list BlobPhysical)
    (generation : string) : res catalog :=
  storage ← normalizeBlobPhysical size physical;
  (* INSERT OR IGNORE also skips a row that violates CHECK (size >= 0) *)
  let inserted := negb (bool_decide (is_Some (blobs c !! hash))) && (0 <=? size)%Z in
  let c := if inserted then with_blobs c (<[hash := size]> (blobs c)) else c in
  c ← ensureBlobChecksumTx c hash (PhysicalMD5 storage);
  if inserted then writeLooseLocationTx c (primaryStoreID c) hash generation storage
  else
    recordedSize ← from_lookup (blobs c !! hash) ErrOther;
    _ ← check (recordedSize =? size)%Z ErrOther;
    match physicalContentTx c hash with
    | Err ErrPhysicalAuthorityMissing =>
        if Created storage then writeLooseLocationTx c (primaryStoreID c) hash generation storage
        else
          match requirePhysicalAuthorityTx c hash with
          | Ok _ => Ok c
          | Err e => Err e
          end
    | Err e => Err e
    | Ok current =>
        if String.eqb (ContentKind current) "packed"
           || (String.eqb (ContentEncoding current) (Encoding storage)
               && (ContentStoredBytes current =? StoredBytes storage)%Z)
        then Ok c
        else if negb (Created storage) then Err ErrOther
        else writeLooseLocationTx c (primaryStoreID c) hash generation storage
    end.

End blobs.

(** * Registering bytes is safe and repeatable *)

(** ** The catalog invariant *)

Definition known_encoding (e : string) : Prop := e = looseEncodingRaw ∨ e = looseEncodingZstd.

(** A location is loose in a known encoding, or packed and says nothing about
    encoding; a mapping only belongs to a packed location and its flags are one
    byte. *)
Record catalog_wf (c : catalog) : Prop := {
  cw_location h s l : locations c !! (h, s) = Some l →
    (l_kind l = "loose" ∧ ∃ e, l_encoding l = Some e ∧ known_encoding e) ∨
    (l_kind l = "packed" ∧ l_encoding l = None);
  cw_entry h s e l : pack_entries c !! (h, s) = Some e → locations c !! (h, s) = Some l →
    l_kind l = "packed";
  cw_flags h s e : pack_entries c !! (h, s) = Some e → (0 ≤ e_flags e ≤ 255)%Z;
}.

Section facts.
Context `{Kit}.

Lemma normalizeBlobPhysical_encoding size physical p :
  normalizeBlobPhysical size physical = Ok p → known_encoding (Encoding p).
Proof.
  unfold normalizeBlobPhysical. destruct physical as [|q [|? ?]]; [|intros Hn|done].
  - intros [= <-]. by left.
  - apply bind_Ok_iff in Hn as (u & _ & Hn). apply bind_Ok_iff in Hn as (u' & Hc & Hn).
    apply check_Ok_iff, orb_true_iff in Hc.
    apply bind_Ok_iff in Hn as (u2 & _ & Hn). apply bind_Ok_iff in Hn as (u3 & _ & Hn).
    apply Ok_inj in Hn as ->. destruct Hc as [Hc|Hc]; apply String.eqb_eq in Hc; [by left|by right].
Qed.

Lemma authorized_stores_nonempty c hash store l :
  locations c !! (hash, store) = Some l → authorizes c hash store l = true →
  authorized_stores c hash ≠ [].
Proof.
  intros Hl Ha Hnil. assert (store ∈ authorized_stores c hash) as Hin.
  { apply list_elem_of_fmap. exists ((hash, store), l). split; [done|].
    apply list_elem_of_filter. split; [done|]. by apply elem_of_map_to_list. }
  rewrite Hnil in Hin. by apply elem_of_nil in Hin.
Qed.

Lemma requirePhysicalAuthorityTx_ok c hash size store l :
  blobs c !! hash = Some size → locations c !! (hash, store) = Some l →
  authorizes c hash store l = true → requirePhysicalAuthorityTx c hash = Ok size.
Proof.
  intros Hb Hl Ha. unfold requirePhysicalAuthorityTx. rewrite Hb. cbn.
  pose proof (authorized_stores_nonempty c hash store l Hl Ha). by destruct (authorized_stores c hash).
Qed.

(** What [physicalContentTx] reads is authorized. *)
Lemma physicalContentTx_authorizes c hash p :
  catalog_wf c → physicalContentTx c hash = Ok p →
  ∃ size, blobs c !! hash = Some size ∧ requirePhysicalAuthorityTx c hash = Ok size.
Proof.
  intros Hwf. unfold physicalContentTx, scanPhysicalContent, content_row.
  destruct (blobs c !! hash) as [size|] eqn:Hb; [|done]. cbn.
  destruct (locations c !! (hash, primaryStoreID c)) as [l|] eqn:Hl; [|done]. cbn.
  intros Hp. exists size. split; [done|].
  apply (requirePhysicalAuthorityTx_ok c hash size (primaryStoreID c) l Hb Hl). unfold authorizes.
  destruct (pack_entries c !! (hash, primaryStoreID c)) as [e|] eqn:He.
  - rewrite (cw_entry c Hwf _ _ _ _ He Hl). rewrite bool_decide_eq_true_2 by eauto. by rewrite orb_true_r.
  - destruct (cw_location c Hwf _ _ _ Hl) as [[-> (enc & Henc & [-> | ->])]|[_ Henc]];
      rewrite Henc in *; done.
Qed.

(** ** The checksum step *)

(** The checksum a receipt names is on record. *)
Definition checksum_recorded (cs : gmap string string) (hash md5 : string) : Prop :=
  md5 = "" ∨ (canonical_hash hash = true ∧ validateAuxiliaryMD5 md5 = Ok tt ∧ cs !! hash = Some md5).

Lemma ensureBlobChecksumTx_settled c hash md5 :
  checksum_recorded (checksums (tables c)) hash md5 → ensureBlobChecksumTx c hash md5 = Ok c.
Proof.
  intros [->|(Hcan & Hmd & Hcs)]; [done|]. unfold ensureBlobChecksumTx. rewrite Hcan, Hmd, Hcs. cbn.
  destruct (String.eqb md5 ""); [done|]. rewrite Hcs. cbn. by rewrite String.eqb_refl.
Qed.

Lemma ensureBlobChecksumTx_Ok c hash md5 c' :
  ensureBlobChecksumTx c hash md5 = Ok c' →
  ∃ cs, c' = with_checksums c cs ∧ checksums (tables c) ⊆ cs ∧
    (∀ h, h ≠ hash → cs !! h = checksums (tables c) !! h) ∧ checksum_recorded cs hash md5.
Proof.
  assert (∀ x, with_checksums x (checksums (tables x)) = x) as Hid by (by intros [[] ? ? ? ?]).
  unfold ensureBlobChecksumTx. destruct (String.eqb_spec md5 ""); intros Hc.
  { apply Ok_inj in Hc as <-. exists (checksums (tables c)). rewrite Hid. by repeat split; [..|left]. }
  apply bind_Ok_iff in Hc as (u & Hcan & Hc). apply bind_Ok_iff in Hc as ([] & Hmd & Hc).
  apply bind_Ok_iff in Hc as (c1 & Hc1 & Hc). apply bind_Ok_iff in Hc as (stored & Hst & Hc).
  apply bind_Ok_iff in Hc as (u2 & Heq & Hc). apply Ok_inj in Hc as <-.
  apply check_Ok_iff in Hcan, Heq. apply String.eqb_eq in Heq as ->.
  apply from_lookup_Ok_iff in Hst.
  destruct (checksums (tables c) !! hash) eqn:Hh.
  - apply Ok_inj in Hc1 as <-. exists (checksums (tables c)). rewrite Hid.
    split_and!; [done|done|done|by right].
  - apply bind_Ok_iff in Hc1 as (u3 & _ & Hc1). apply Ok_inj in Hc1 as <-.
    eexists. split_and!; [done|by apply insert_subseteq| |by right].
    intros h Hne. by rewrite lookup_insert_ne.
Qed.

(** ** [EnsureBlobTx] *)

(** The catalog after the blob and checksum rows are in place, and after a
    loose location is written as well. *)
Definition member (c : catalog) (hash : string) (size : Z) (cs : gmap string string) : catalog :=
  with_checksums (with_blobs c (<[hash := size]> (blobs c))) cs.
Definition loose_written (c : catalog) (hash generation : string) (p : BlobPhysical) : catalog :=
  let key := (hash, primaryStoreID c) in
  MkCatalog (tables c) (blobs c)
    (<[key := MkLocation generation "loose" (Some (Encoding p)) (StoredBytes p) (PackEligible p)]>
       (locations c)) (delete key (pack_entries c)) (watch_sources c)
    (ingests c) (provenance c) (primaryStoreID c).

(** The catalog already authorizes bytes the receipt agrees with. *)
Definition settled (c : catalog) (hash : string) (p : BlobPhysical) : Prop :=
  (∃ cur, physicalContentTx c hash = Ok cur ∧
     String.eqb (ContentKind cur) "packed"
     || (String.eqb (ContentEncoding cur) (Encoding p)
         && (ContentStoredBytes cur =? StoredBytes p)%Z) = true) ∨
  (physicalContentTx c hash = Err ErrPhysicalAuthorityMissing ∧ Created p = false ∧
   ∃ size, requirePhysicalAuthorityTx c hash = Ok size).

Lemma EnsureBlobTx_shape c hash size physical generation c' :
  EnsureBlobTx c hash size physical generation = Ok c' →
  ∃ p cs, normalizeBlobPhysical size physical = Ok p ∧
    (blobs c !! hash = None ∨ blobs c !! hash = Some size) ∧
    checksums (tables c) ⊆ cs ∧ (∀ h, h ≠ hash → cs !! h = checksums (tables c) !! h) ∧
    checksum_recorded cs hash (PhysicalMD5 p) ∧
    let c1 := member c hash size cs in
    (c' = c1 ∧ settled c1 hash p) ∨ c' = loose_written c1 hash generation p.
Proof.
  intros He. unfold EnsureBlobTx in He. apply bind_Ok_iff in He as (p & Hp & He).
  apply bind_Ok_iff in He as (c1 & Hc1 & He).
  apply ensureBlobChecksumTx_Ok in Hc1 as (cs & -> & Hsub & Hoth & Hrec).
  exists p, cs. split; [done|].
  assert (∀ x y, writeLooseLocationTx x (primaryStoreID x) hash generation p = Ok y →
    y = loose_written x hash generation p) as Hw.
  { intros x y Hw. unfold writeLooseLocationTx in Hw. apply bind_Ok_iff in Hw as (u & _ & Hw).
    by apply Ok_inj in Hw as <-. }
  destruct (negb _ && _) eqn:Hins.
  - apply andb_true_iff in Hins as [Hins _]. apply negb_true_iff, bool_decide_eq_false in Hins.
    apply eq_None_not_Some in Hins. split_and!; [by left|done|done|done|]. right. by apply Hw.
  - apply bind_Ok_iff in He as (rec & Hr & He). apply from_lookup_Ok_iff in Hr. cbn in Hr.
    apply bind_Ok_iff in He as (u & Hsz & He). apply check_Ok_iff, Z.eqb_eq in Hsz as ->.
    assert (with_checksums c cs = member c hash size cs) as Hm.
    { unfold member. rewrite insert_id by done. by destruct c. }
    rewrite Hm in *. split_and!; [by right|done|done|done|].
    unfold settled. destruct (physicalContentTx (member c hash size cs) hash) as [cur|e] eqn:Hcur.
    + destruct (_ || _) eqn:Hmatch; [left; apply Ok_inj in He as <-; eauto|].
      destruct (Created p); cbn in He; [right; by apply Hw|done].
    + destruct e; try done. destruct (Created p); [right; by apply Hw|].
      destruct (requirePhysicalAuthorityTx _ hash) as [sz|] eqn:Hreq; [|done].
      apply Ok_inj in He as <-. left. split; [done|]. right. eauto.
Qed.

(** Everything but one blob's own rows is as before. *)
Record registered (c c' : catalog) (hash : string) (size : Z) : Prop := {
  rg_blob : blobs c' = <[hash := size]> (blobs c);
  rg_nodes : nodes (tables c') = nodes (tables c);
  rg_versions : versions (tables c') = versions (tables c);
  rg_watch : watch_sources c' = watch_sources c;
  rg_locations h s : h ≠ hash → locations c' !! (h, s) = locations c !! (h, s);
  rg_entries h s : h ≠ hash → pack_entries c' !! (h, s) = pack_entries c !! (h, s);
  rg_checksums : checksums (tables c) ⊆ checksums (tables c');
}.

Lemma shape_registered c hash size cs generation p c' :
  checksums (tables c) ⊆ cs →
  c' = member c hash size cs ∨ c' = loose_written (member c hash size cs) hash generation p →
  registered c c' hash size.
Proof.
  intros Hsub [-> | ->]; split; cbn; try done; intros h s Hh;
    by (rewrite lookup_insert_ne || rewrite lookup_delete_ne; congruence).
Qed.

Lemma loose_written_content c hash size generation p :
  blobs c !! hash = Some size →
  physicalContentTx (loose_written c hash generation p) hash =
  Ok (MkContent "loose" (Encoding p) size (StoredBytes p) (PackEligible p)).
Proof.
  intros Hb. unfold physicalContentTx, content_row. cbn. rewrite Hb. cbn.
  rewrite lookup_insert_eq, lookup_delete_eq. done.
Qed.

Lemma loose_written_wf c hash generation p :
  catalog_wf c → known_encoding (Encoding p) → catalog_wf (loose_written c hash generation p).
Proof.
  intros [Hl He Hf] Hp. split; cbn.
  - intros h s l [[[= <- <-] <-]|[_ Hs]]%lookup_insert_Some; [left; eauto|by eapply Hl].
  - intros h s e l [Hne Hs]%lookup_delete_Some [[? _]|[_ Hs']]%lookup_insert_Some; [done|by eapply He].
  - intros h s e [_ Hs]%lookup_delete_Some. by eapply Hf.
Qed.

(** A settled catalog is not changed by another registration. *)
Lemma EnsureBlobTx_settled c hash size physical generation p :
  normalizeBlobPhysical size physical = Ok p → blobs c !! hash = Some size →
  checksum_recorded (checksums (tables c)) hash (PhysicalMD5 p) → settled c hash p →
  EnsureBlobTx c hash size physical generation = Ok c.
Proof.
  intros Hp Hb Hc Hs. unfold EnsureBlobTx. rewrite Hp. cbn. rewrite Hb. cbn.
  rewrite ensureBlobChecksumTx_settled by done. cbn. rewrite Hb. cbn. rewrite Z.eqb_refl. cbn.
  destruct Hs as [(cur & -> & ->)|(-> & -> & sz & ->)]; done.
Qed.

Lemma EnsureBlobTx_catalog_wf c hash size physical generation c' :
  catalog_wf c → EnsureBlobTx c hash size physical generation = Ok c' → catalog_wf c'.
Proof.
  intros Hwf He. apply EnsureBlobTx_shape in He as (p & cs & Hp & _ & _ & _ & _ & Hs).
  cbn in Hs. assert (catalog_wf (member c hash size cs)) as Hwf1 by (destruct Hwf; by split).
  destruct Hs as [[-> _]| ->]; [done|]. apply loose_written_wf; [done|].
  by eapply normalizeBlobPhysical_encoding.
Qed.

Lemma EnsureBlobTx_sound c hash size physical generation c' :
  catalog_wf c → EnsureBlobTx c hash size physical generation = Ok c' →
  requirePhysicalAuthorityTx c' hash = Ok size ∧
  (∀ s, blobs c !! hash = Some s → s = size) ∧
  registered c c' hash size ∧ catalog_wf c'.
Proof.
  intros Hwf He. pose proof (EnsureBlobTx_catalog_wf _ _ _ _ _ _ Hwf He) as Hwf'.
  apply EnsureBlobTx_shape in He as (p & cs & Hp & Hb & Hsub & _ & _ & Hs).
  cbn in Hs. set (c1 := member c hash size cs) in *.
  assert (catalog_wf c1) as Hwf1 by (destruct Hwf; by split).
  assert (blobs c1 !! hash = Some size) as Hb1 by apply lookup_insert_eq.
  split_and!.
  - destruct Hs as [[-> [(cur & Hcur & _)|(_ & _ & sz & Hreq)]]| ->].
    + destruct (physicalContentTx_authorizes c1 hash cur Hwf1 Hcur) as (sz & Hsz & Hreq). congruence.
    + unfold requirePhysicalAuthorityTx in *. rewrite Hb1 in *. cbn in *.
      by destruct (authorized_stores c1 hash).
    + eapply requirePhysicalAuthorityTx_ok; [exact Hb1|by apply lookup_insert_eq|].
      unfold authorizes. cbn.
      by destruct (normalizeBlobPhysical_encoding _ _ _ Hp) as [-> | ->].
  - naive_solver.
  - apply (shape_registered c hash size cs generation p); [done|]. destruct Hs as [[? _]|?]; tauto.
  - done.
Qed.

(** After a registration the catalog is settled, and so is every catalog with
    the same rows: registering again changes nothing. *)
Lemma EnsureBlobTx_again c hash size physical generation generation' c1 c2 :
  EnsureBlobTx c hash size physical generation = Ok c1 →
  blobs c2 = blobs c1 → locations c2 = locations c1 → pack_entries c2 = pack_entries c1 →
  checksums (tables c2) = checksums (tables c1) → primaryStoreID c2 = primaryStoreID c1 →
  EnsureBlobTx c2 hash size physical generation' = Ok c2.
Proof.
  intros He Hbl Hl Hpe Hcs Hpr. apply EnsureBlobTx_shape in He as (p & cs & Hp & Hb & Hsub & _ & Hrec & Hs).
  cbn in Hs. set (m := member c hash size cs) in *.
  assert (blobs m !! hash = Some size) as Hb1 by apply lookup_insert_eq.
  apply (EnsureBlobTx_settled c2 hash size physical generation' p Hp).
  - rewrite Hbl. by destruct Hs as [[-> _]| ->].
  - rewrite Hcs. by destruct Hs as [[-> _]| ->].
  - assert (settled c1 hash p) as Hset.
    { destruct Hs as [[-> Hset]| ->]; [done|]. left. eexists.
      split; [by apply loose_written_content|]. cbn. by rewrite String.eqb_refl, Z.eqb_refl. }
    unfold settled, physicalContentTx, content_row, requirePhysicalAuthorityTx, authorized_stores,
      authorizes in *. by rewrite Hbl, Hl, Hpe, Hpr.
Qed.

(** ** Properties *)

(** C25: a successful [EnsureBlobTx] leaves the blob a member with exactly the given
    size and with authorized bytes, so that a version may refer to it; it
    touches no other blob's locations, mappings or checksum and no node or
    version, never changes a recorded size or checksum, and keeps the catalog
    well formed. *)
Theorem EnsureBlobTx_authorizes c hash size physical generation c' :
  catalog_wf c → EnsureBlobTx c hash size physical generation = Ok c' →
  requirePhysicalAuthorityTx c' hash = Ok size ∧
  (∀ s, blobs c !! hash = Some s → s = size) ∧
  registered c c' hash size ∧ catalog_wf c'.
Proof. apply EnsureBlobTx_sound. Qed.

(** Registration is idempotent: retrying the same write after it succeeded,
    with the same receipt and whatever fresh generation, changes nothing. *)
Theorem EnsureBlobTx_idempotent c hash size physical generation generation' c' :
  EnsureBlobTx c hash size physical generation = Ok c' →
  EnsureBlobTx c' hash size physical generation' = Ok c'.
Proof. intros He. by eapply EnsureBlobTx_again. Qed.

End facts.

(** ** Witnesses *)

Local Instance demo_kit : Kit := {| parses_hash := λ _, true; canonical_hash := λ _, true; BlobCompressed := 1 |}.
Definition demo_catalog : catalog := MkCatalog (MkDb ∅ 0 ∅ ∅ ∅ ∅ false) ∅ ∅ ∅ ∅ ∅ ∅ "primary".
Definition demo_receipt : list BlobPhysical := [MkPhysical "zstd" 3 true "" true].

Lemma demo_catalog_wf : catalog_wf demo_catalog.
Proof. by split. Qed.

Lemma EnsureBlobTx_authorizes_witness :
  ∃ c', EnsureBlobTx demo_catalog "h" 5 demo_receipt "g" = Ok c' ∧
    requirePhysicalAuthorityTx c' "h" = Ok 5%Z ∧
    (∀ s, blobs demo_catalog !! "h" = Some s → s = 5%Z) ∧
    registered demo_catalog c' "h" 5 ∧ catalog_wf c'.
Proof.
  eexists. split; [vm_compute; reflexivity|].
  eapply EnsureBlobTx_authorizes; [apply demo_catalog_wf|].
  instantiate (1 := "g"). instantiate (1 := demo_receipt). vm_compute. reflexivity.
Defined.

Lemma EnsureBlobTx_idempotent_witness :
  ∃ c', EnsureBlobTx demo_catalog "h" 5 demo_receipt "g" = Ok c' ∧
    EnsureBlobTx c' "h" 5 demo_receipt "g2" = Ok c'.
Proof.
  eexists. split; [vm_compute; reflexivity|].
  apply (EnsureBlobTx_idempotent demo_catalog _ _ _ "g"). vm_compute. reflexivity.
Defined.
