(* ===== verification/Versions.v ===== *)
(** * Content versions (internal/store/version.go, write.go)

    A file node keeps an append-only history of content versions.  Creating a
    file records the first one; replacing and reverting install a new head.
    The state is the catalog, because every write registers its bytes in the
    same transaction. *)
From S2P Require Import Prelude GoText Names Tables Tree Identity Blobs.

Record ContentVersion := MkVersion {
  VersionID : string;
  VNodeID : Z;
  VBlobHash : string;
  VMD5 : string;
  VSize : Z;
  VMimeType : string;
  VRecordedAt : string;
  VNodeRevision : Z;
  VOperationID : string;
  VTransitionKind : transition;
  VSourceVersionID : option string;
}.

Definition scanContentVersion (d : db) (id : string) (v : version_row) : ContentVersion :=
  MkVersion id (v_node_id v) (v_blob_hash v) (default "" (checksums d !! v_blob_hash v)) (v_size v)
    (default "" (v_mime_type v)) (v_recorded_at v) (v_node_revision v) (v_operation_id v)
    (v_transition_kind v) (v_source_version_id v).

(** [SELECT ... FROM content_versions WHERE version_id = ?] *)
Definition version_by_id (d : db) (id : string) : res ContentVersion :=
  v ← from_lookup (versions d !! id) ErrNotFound;
  Ok (scanContentVersion d id v).

Definition ContentVersionByID (d : db) (id : string) : res ContentVersion :=
  _ ← check (is_Ok (validateUUIDv4 id)) ErrNotFound;
  version_by_id d id.

Definition ContentVersionViewByID (d : db) (nodeID : Z) (versionID : string) :
    res (Node * ContentVersion) :=
  _ ← check (is_Ok (validateUUIDv4 versionID)) ErrNotFound;
  n ← nodeByIDTx d nodeID;
  v ← version_by_id d versionID;
  _ ← check (VNodeID v =? nodeID)%Z ErrNotFound;
  Ok (n, v).

(** ** The history of a node *)

Definition version_revision (d : db) (id : string) : Z :=
  default 0%Z (v_node_revision <$> versions d !! id).

(** [ORDER BY node_revision DESC, version_id] *)
Definition newest_version_first (d : db) (v w : string) : Prop :=
  (version_revision d w < version_revision d v)%Z
  ∨ (version_revision d v = version_revision d w ∧ String.le v w).
#[export] Instance newest_version_first_dec d : RelDecision (newest_version_first d).
Proof. intros v w. unfold newest_version_first. apply _. Defined.

Definition versions_of (d : db) (nodeID : Z) : list string :=
  fst <$> filter (λ iv : string * version_row, v_node_id iv.2 = nodeID) (map_to_list (versions d)).

Definition ContentVersions (d : db) (nodeID limit offset : Z) : res (list ContentVersion * Z) :=
  _ ← check (negb ((limit <? 1) || (1000 <? limit))%Z) ErrOther;
  _ ← check (negb (offset <? 0)%Z) ErrOther;
  r ← from_lookup (nodes d !! nodeID) ErrNotFound;
  _ ← check (bool_decide (kind r = file)) ErrNotFile;
  vs ← mapR (version_by_id d)
         (page limit offset (merge_sort (newest_version_first d) (versions_of d nodeID)));
  Ok (vs, Z.of_nat (length (versions_of d nodeID))).

(** ** Rows *)

(** [INSERT INTO content_versions]: keys, unique constraints, checks and
    immediate foreign keys. *)
Definition version_conflict (id : string) (v : version_row) (jw : string * version_row) : bool :=
  String.eqb jw.1 id
  || ((v_node_id jw.2 =? v_node_id v)%Z
      && ((v_node_revision jw.2 =? v_node_revision v)%Z
          || String.eqb (v_operation_id jw.2) (v_operation_id v))).

Definition version_checks (v : version_row) : bool :=
  (0 <=? v_size v)%Z && (0 <? v_node_revision v)%Z
  && Bool.eqb (bool_decide (v_transition_kind v = content_create)) (v_node_revision v =? 1)%Z
  && Bool.eqb (bool_decide (v_transition_kind v = content_revert))
       (bool_decide (v_source_version_id v ≠ None)).

Definition insert_version (c : catalog) (id : string) (v : version_row) : res catalog :=
  let d := tables c in
  _ ← check (negb (existsb (version_conflict id v) (map_to_list (versions d)))) ErrOther;
  _ ← check (version_checks v) ErrOther;
  _ ← check (bool_decide (is_Some (nodes d !! v_node_id v))) ErrOther;
  _ ← check (bool_decide (is_Some (blobs c !! v_blob_hash v))) ErrOther;
  Ok (with_tables c (MkDb (nodes d) (node_seq d) (<[id := v]> (versions d)) (checksums d)
        (tags d) (node_tags d) (audit_active d))).

Definition on_tables {A} (c : catalog) (m : res (db * A)) : res (catalog * A) :=
  '(d, a) ← m; Ok (with_tables c d, a).
Definition on_db (c : catalog) (m : res db) : res catalog := d ← m; Ok (with_tables c d).

(** [withStorageTx] over all the tables. *)
Definition withCatalogTx {A} (fn : catalog → res (catalog * A)) (c : catalog) :
    catalog * res A :=
  match fn c with
  | Ok (c', a) => (c', Ok a)
  | Err e => (c, Err e)
  end.

(** ** The environment of a content write *)

Record contentVersionOperation := MkOperation {
  versionID : string;
  operationID : string;
  recordedAt : string;
}.

(** From the bytes of two reads of [crypto/rand] and the clock. *)
Definition newContentVersionOperation (r1 r2 : list ascii) (now : string) : contentVersionOperation :=
  MkOperation (newUUIDv4 r1) (newUUIDv4 r2) now.

(** The derived-text queue; its tables are not part of this model, which only
    sees whether queueing succeeds. *)
Class TextQueue := {
  queueTextExtractionTx : catalog → string → string → string → res unit;
}.

(** The audited variants, see [AuditedTree]. *)
Class AuditedContent := {
  loadAuditedFileAuthority : catalog → Z → res unit;
  persistAuditedFileCreation : catalog → Node → Node → Node → ContentVersion → res catalog;
  installAuditedContentVersionTx :
    catalog → Node → string → Z → string → transition → option string → list BlobPhysical →
    res (catalog * (Node * ContentVersion));
  auditedMember : catalog → Z → bool;
}.

Record ContentWriteReceipt := MkReceipt {
  ReceiptNode : Node;
  ReceiptVersion : ContentVersion;
  ReceiptPhysical : PhysicalContent;
}.

Definition stored_mime (mimeType : string) : option string :=
  if String.eqb mimeType "" then None else Some mimeType.

Section operations.
Context `{Normalizer} `{Kit} `{TextQueue} `{AuditedContent}.

(** ** Creating files *)

Definition createFileWithOperationTx (c : catalog) (parentID : Z) (nm blobHash : string) (size : Z)
    (mimeType : string) (op : contentVersionOperation) (physical : list BlobPhysical)
    (generation : string) : res (catalog * (Node * ContentVersion)) :=
  _ ← check (ValidString mimeType) ErrOther;
  _ ← liveDirTx (tables c) parentID;
  c ← EnsureBlobTx c blobHash size physical generation;
  '(c, id) ← on_tables c
    (from_lookup (insert_node (new_row parentID nm file (Some (versionID op)) (recordedAt op))
                    (tables c)) ErrExists);
  c ← insert_version c (versionID op)
        (MkVersionRow id blobHash size (stored_mime mimeType) (recordedAt op) 1 (operationID op)
           content_create None);
  _ ← queueTextExtractionTx c (versionID op) blobHash mimeType;
  c ← on_db c (bumpRevisionTx (tables c) parentID (recordedAt op));
  created ← nodeByIDTx (tables c) id;
  version ← version_by_id (tables c) (versionID op);
  Ok (c, (created, version)).

Definition createFileTx (c : catalog) (parentID : Z) (nm blobHash : string) (size : Z)
    (mimeType : string) (op : contentVersionOperation) (physical : list BlobPhysical)
    (generation : string) : res (catalog * (Node * ContentVersion)) :=
  createFileWithOperationTx c parentID nm blobHash size mimeType op physical generation.

Definition CreateFileWithReceipt (parentID : Z) (nm blobHash : string) (size : Z)
    (mimeType : string) (op : contentVersionOperation) (physical : list BlobPhysical)
    (generation : string) (c : catalog) : catalog * res ContentWriteReceipt :=
  match NormalizeName nm with
  | Err e => (c, Err e)
  | Ok nm =>
      withCatalogTx (λ c,
        '(c, (n, v)) ←
          (if negb (audit_active (tables c)) then
             createFileTx c parentID nm blobHash size mimeType op physical generation
           else
             priorParent ← liveDirTx (tables c) parentID;
             _ ← loadAuditedFileAuthority c parentID;
             '(c, (n, v)) ← createFileWithOperationTx c parentID nm blobHash size mimeType op
                              physical generation;
             resultingParent ← nodeByIDTx (tables c) parentID;
             c ← persistAuditedFileCreation c priorParent resultingParent n v;
             Ok (c, (n, v)));
        p ← authorizedPhysicalContentTx c blobHash;
        Ok (c, MkReceipt n v p)) c
  end.

Definition CreateFile (parentID : Z) (nm blobHash : string) (size : Z) (mimeType : string)
    (op : contentVersionOperation) (physical : list BlobPhysical) (generation : string)
    (c : catalog) : catalog * res Node :=
  let '(c, r) := CreateFileWithReceipt parentID nm blobHash size mimeType op physical generation c in
  (c, ReceiptNode <$> r).

(** ** Installing a new head *)

Definition install_head (v : string) (rev : Z) (now : string) (r : node_row) : node_row :=
  MkNodeRow (parent_id r) (name r) (kind r) (Some v) rev (created_at r) now (trashed_at r)
    (trash_parent r) (trash_name r).

Definition installContentVersionWithOperationTx (c : catalog) (n : Node) (blobHash : string)
    (size : Z) (mimeType : string) (transitionKind : transition) (source : option string)
    (op : contentVersionOperation) : res (catalog * (Node * ContentVersion)) :=
  let newRevision := (Revision n + 1)%Z in
  c ← insert_version c (versionID op)
        (MkVersionRow (ID n) blobHash size (stored_mime mimeType) (recordedAt op) newRevision
           (operationID op) transitionKind source);
  _ ← queueTextExtractionTx c (versionID op) blobHash mimeType;
  c ← on_db c (exec (tables c)
        (update_where (is_id (ID n)) (install_head (versionID op) newRevision (recordedAt op))
           (nodes (tables c))) ErrOther);
  updated ← nodeByIDTx (tables c) (ID n);
  version ← version_by_id (tables c) (versionID op);
  Ok (c, (updated, version)).

Definition installContentVersionTx (c : catalog) (n : Node) (blobHash : string)
    (size : Z) (mimeType : string) (transitionKind : transition) (source : option string)
    (op : contentVersionOperation) : res (catalog * (Node * ContentVersion)) :=
  installContentVersionWithOperationTx c n blobHash size mimeType transitionKind source op.

(** [math.MaxInt64], the last revision a node can have. *)
Definition MaxInt64 : Z := 9223372036854775807.

Definition validateContentReplacementTarget (n : Node) (ifRev : Z) : res unit :=
  _ ← check (bool_decide (TrashedAt n = None)) ErrNotFound;
  _ ← check (negb (IsDir n)) ErrNotFile;
  _ ← check (negb (stale ifRev (Revision n))) ErrStaleRevision;
  check (negb (Revision n =? MaxInt64)%Z) ErrOther.

Definition CheckContentReplacementTarget (nodeID ifRev : Z) (c : catalog) : catalog * res unit :=
  withCatalogTx (λ c,
    n ← nodeByIDTx (tables c) nodeID;
    _ ← validateContentReplacementTarget n ifRev;
    if negb (audit_active (tables c)) then Ok (c, tt)
    else _ ← check (auditedMember c nodeID) ErrAuditMutationUnsupported; Ok (c, tt)) c.

Definition replaceContentTx (c : catalog) (n : Node) (ifRev : Z) (blobHash : string) (size : Z)
    (mimeType : string) (op : contentVersionOperation) (physical : list BlobPhysical)
    (generation : string) : res (catalog * (Node * ContentVersion)) :=
  _ ← validateContentReplacementTarget n ifRev;
  if audit_active (tables c) then
    installAuditedContentVersionTx c n blobHash size mimeType content_replace None physical
  else
    c ← EnsureBlobTx c blobHash size physical generation;
    installContentVersionTx c n blobHash size mimeType content_replace None op.

Definition ReplaceContentWithReceipt (nodeID ifRev : Z) (blobHash : string) (size : Z)
    (mimeType : string) (op : contentVersionOperation) (physical : list BlobPhysical)
    (generation : string) (c : catalog) : catalog * res ContentWriteReceipt :=
  if (size <? 0)%Z then (c, Err ErrOther)
  else if negb (ValidString mimeType) then (c, Err ErrOther)
  else
    withCatalogTx (λ c,
      n ← nodeByIDTx (tables c) nodeID;
      '(c, (n, v)) ← replaceContentTx c n ifRev blobHash size mimeType op physical generation;
      p ← authorizedPhysicalContentTx c blobHash;
      Ok (c, MkReceipt n v p)) c.

Definition ReplaceContent (nodeID ifRev : Z) (blobHash : string) (size : Z) (mimeType : string)
    (op : contentVersionOperation) (physical : list BlobPhysical) (generation : string)
    (c : catalog) : catalog * res (Node * ContentVersion) :=
  let '(c, r) := ReplaceContentWithReceipt nodeID ifRev blobHash size mimeType op physical generation c in
  (c, (λ r, (ReceiptNode r, ReceiptVersion r)) <$> r).

Definition RevertContent (nodeID ifRev : Z) (sourceVersionID : string)
    (op : contentVersionOperation) (c : catalog) :
    catalog * res (Node * ContentVersion * ContentVersion) :=
  if negb (is_Ok (validateUUIDv4 sourceVersionID)) then (c, Err ErrNotFound)
  else
    withCatalogTx (λ c,
      n ← nodeByIDTx (tables c) nodeID;
      _ ← validateContentReplacementTarget n ifRev;
      source ← version_by_id (tables c) sourceVersionID;
      _ ← check (VNodeID source =? nodeID)%Z ErrVersionNodeMismatch;
      _ ← check (negb (String.eqb (VersionID source) (CurrentVersionID n))) ErrVersionAlreadyCurrent;
      _ ← check (negb (Revision n + 1 <=? VNodeRevision source)%Z) ErrOther;
      catalogSize ← requirePhysicalAuthorityTx c (VBlobHash source);
      _ ← check (catalogSize =? VSize source)%Z ErrOther;
      '(c, (updated, version)) ←
        (if audit_active (tables c) then
           installAuditedContentVersionTx c n (VBlobHash source) (VSize source) (VMimeType source)
             content_revert (Some (VersionID source)) []
         else
           installContentVersionTx c n (VBlobHash source) (VSize source) (VMimeType source)
             content_revert (Some (VersionID source)) op);
      Ok (c, (updated, version, source))) c.

(** ** Confirming *)

Definition confirmContentWithReceiptTx (c : catalog) (n : Node) (ifRev : Z) (blobHash : string)
    (size : Z) (mimeType : string) (physical : list BlobPhysical) (generation : string) :
    res (catalog * ContentWriteReceipt) :=
  _ ← check (bool_decide (TrashedAt n = None)) ErrNotFound;
  _ ← check (negb (IsDir n)) ErrNotFile;
  _ ← check ((Revision n =? ifRev)%Z && String.eqb (BlobHash n) blobHash && (Size n =? size)%Z
             && String.eqb (MimeType n) mimeType) ErrStaleRevision;
  c ← EnsureBlobTx c blobHash size physical generation;
  v ← version_by_id (tables c) (CurrentVersionID n);
  p ← authorizedPhysicalContentTx c blobHash;
  Ok (c, MkReceipt n v p).

Definition ConfirmContentWithReceipt (nodeID ifRev : Z) (blobHash : string) (size : Z)
    (mimeType : string) (physical : list BlobPhysical) (generation : string) (c : catalog) :
    catalog * res ContentWriteReceipt :=
  if (size <? 0)%Z then (c, Err ErrOther)
  else if negb (ValidString mimeType) then (c, Err ErrOther)
  else
    withCatalogTx (λ c,
      n ← nodeByIDTx (tables c) nodeID;
      confirmContentWithReceiptTx c n ifRev blobHash size mimeType physical generation) c.

(** ** Watched sources *)

Definition watchSourceTx (c : catalog) (watchName sourceRef : string) : res (Z * string * Z) :=
  from_lookup (watch_sources c !! (watchName, sourceRef)) ErrNotFound.

Definition updateWatchSourceTx (c : catalog) (watchName sourceRef blobHash : string) (size : Z) :
    res catalog :=
  '(nodeID, _, _) ← watchSourceTx c watchName sourceRef;
  Ok (with_watch_sources c
        (<[(watchName, sourceRef) := (nodeID, blobHash, size)]> (watch_sources c))).

(** [path.Clean]: the stack holds the segments kept so far, innermost first. *)
Definition clean_step (rooted : bool) (stack : list string) (seg : string) : list string :=
  if String.eqb seg "" || String.eqb seg "." then stack
  else if String.eqb seg ".." then
    match stack with
    | top :: rest => if String.eqb top ".." then ".." :: stack else rest
    | [] => if rooted then [] else [".."]
    end
  else seg :: stack.

Definition path_Clean (p : string) : string :=
  let rooted := HasPrefix p "/" in
  let body := Join (reverse (foldl (clean_step rooted) [] (SplitByte "/"%char p))) "/" in
  if rooted then "/" +:+ body else if String.eqb body "" then "." else body.

Definition validateWatchSourceRecord (watchName sourceRef : string) (nodeID : Z) (blobHash : string)
    (size : Z) : bool :=
  negb (String.eqb watchName "") && negb (String.eqb sourceRef "") && (0 <? nodeID)%Z && (0 <=? size)%Z
  && ValidString watchName && ValidString sourceRef
  && negb (String.eqb sourceRef "." || HasPrefix sourceRef "/" || String.eqb sourceRef ".."
           || HasPrefix sourceRef "../" || negb (String.eqb (path_Clean sourceRef) sourceRef))
  && parses_hash blobHash.

Definition SyncWatchedContent (watchName sourceRef blobHash : string) (size : Z)
    (mimeType : string) (op : contentVersionOperation) (physical : list BlobPhysical)
    (generation : string) (c : catalog) : catalog * res (Node * option ContentVersion * bool) :=
  if negb (validateWatchSourceRecord watchName sourceRef 1 blobHash size) then (c, Err ErrOther)
  else if negb (ValidString mimeType) then (c, Err ErrOther)
  else
    withCatalogTx (λ c,
      '(nodeID, cursorHash, cursorSize) ← watchSourceTx c watchName sourceRef;
      n ← nodeByIDTx (tables c) nodeID;
      _ ← check (bool_decide (TrashedAt n = None)) ErrOther;
      _ ← validateContentReplacementTarget n UnconditionalRev;
      if String.eqb cursorHash blobHash && (cursorSize =? size)%Z then
        c ← EnsureBlobTx c blobHash size physical generation;
        _ ← (if negb (String.eqb (BlobHash n) blobHash)
             then _ ← requirePhysicalAuthorityTx c (BlobHash n); Ok tt else Ok tt);
        Ok (c, (n, None, false))
      else if String.eqb (BlobHash n) blobHash && (Size n =? size)%Z then
        c ← EnsureBlobTx c blobHash size physical generation;
        c ← updateWatchSourceTx c watchName sourceRef blobHash size;
        Ok (c, (n, None, false))
      else
        '(c, (updated, version)) ← replaceContentTx c n UnconditionalRev blobHash size mimeType op
                                     physical generation;
        c ← updateWatchSourceTx c watchName sourceRef blobHash size;
        Ok (c, (updated, Some version, true))) c.

End operations.
