(* ===== verification/VersionFacts.v ===== *)
(** * Facts about content histories *)
From S2P Require Import Prelude GoText Names Tables Tree TreeInv TreeFacts Trash TrashFacts StoreMachine Listing Identity Blobs Versions.

(** ** The history invariant *)

(** Every version belongs to an existing file at a revision the file has
    reached; a file's current version is its newest one; revisions are unique
    within a file; the first version creates; a reversion repeats an older
    version of the same file; and a version's bytes are a member of the vault
    with the version's size. *)
Record history_wf (c : catalog) : Prop := {
  hw_node v row : versions (tables c) !! v = Some row →
    ∃ r, nodes (tables c) !! v_node_id row = Some r ∧ kind r = file ∧
         (1 ≤ v_node_revision row ≤ revision r)%Z;
  hw_current i r v : nodes (tables c) !! i = Some r → current_version_id r = Some v →
    ∃ row, versions (tables c) !! v = Some row ∧ v_node_id row = i ∧
      ∀ w wrow, versions (tables c) !! w = Some wrow → v_node_id wrow = i →
        (v_node_revision wrow ≤ v_node_revision row)%Z;
  hw_unique v w row wrow : versions (tables c) !! v = Some row → versions (tables c) !! w = Some wrow →
    v_node_id row = v_node_id wrow → v_node_revision row = v_node_revision wrow → v = w;
  hw_create v row : versions (tables c) !! v = Some row →
    v_transition_kind row = content_create ↔ v_node_revision row = 1%Z;
  hw_revert v row : versions (tables c) !! v = Some row →
    v_transition_kind row = content_revert ↔ is_Some (v_source_version_id row);
  hw_source v row s : versions (tables c) !! v = Some row → v_source_version_id row = Some s →
    ∃ srow, versions (tables c) !! s = Some srow ∧ v_node_id srow = v_node_id row ∧
      (v_node_revision srow < v_node_revision row)%Z ∧ v_blob_hash srow = v_blob_hash row ∧
      v_size srow = v_size row ∧ v_mime_type srow = v_mime_type row;
  hw_blob v row : versions (tables c) !! v = Some row →
    blobs c !! v_blob_hash row = Some (v_size row);
  hw_size v row : versions (tables c) !! v = Some row → (0 ≤ v_size row)%Z;
  hw_mime v row : versions (tables c) !! v = Some row → v_mime_type row ≠ Some "";
}.

Lemma stored_mime_default m : m ≠ Some "" → stored_mime (default "" m) = m.
Proof.
  destruct m as [s|]; [|done]. intros Hs. unfold stored_mime. cbn.
  destruct (String.eqb_spec s "") as [->|]; done.
Qed.

Lemma default_stored_mime m : default "" (stored_mime m) = m.
Proof. unfold stored_mime. by destruct (String.eqb_spec m "") as [->|]. Qed.

Lemma stored_mime_not_empty m : stored_mime m ≠ Some "".
Proof. unfold stored_mime. destruct (String.eqb_spec m ""); congruence. Qed.

(** ** Authority over other blobs survives a registration *)

Lemma requirePhysicalAuthorityTx_Ok_iff c h size :
  requirePhysicalAuthorityTx c h = Ok size ↔
  blobs c !! h = Some size ∧
  ∃ store l, locations c !! (h, store) = Some l ∧ authorizes c h store l = true.
Proof.
  unfold requirePhysicalAuthorityTx. destruct (blobs c !! h) as [sz|]; cbn; [|naive_solver].
  assert (∀ s, s ∈ authorized_stores c h ↔ ∃ l, locations c !! (h, s) = Some l ∧ authorizes c h s l = true) as Hin.
  { intros s. unfold authorized_stores. rewrite list_elem_of_fmap. setoid_rewrite list_elem_of_filter.
    setoid_rewrite elem_of_map_to_list'. split.
    - intros ([[h' s'] l] & -> & [? ?] & ?). cbn in *. subst. eauto.
    - intros (l & ? & ?). by exists ((h, s), l). }
  destruct (authorized_stores c h) as [|s ss].
  - split; [done|]. intros (_ & s & l & Hl). assert (s ∈ @nil string) as ?%elem_of_nil by (apply Hin; eauto). done.
  - assert (s ∈ s :: ss) as (l & ? & ?)%Hin by left. split.
    + intros [= <-]. eauto.
    + by intros [[= ->] _].
Qed.

Lemma registered_authority c c' hash size h s :
  registered c c' hash size → h ≠ hash →
  requirePhysicalAuthorityTx c h = Ok s → requirePhysicalAuthorityTx c' h = Ok s.
Proof.
  intros Hr Hh. rewrite !requirePhysicalAuthorityTx_Ok_iff. intros (Hb & store & l & Hl & Ha).
  split; [rewrite (rg_blob _ _ _ _ Hr); by rewrite lookup_insert_ne|].
  exists store, l. rewrite (rg_locations _ _ _ _ Hr) by done. split; [done|].
  unfold authorizes in *. by rewrite (rg_entries _ _ _ _ Hr).
Qed.

(** ** Registration keeps the histories *)

Section facts.
Context `{Normalizer} `{Kit} `{TextQueue} (A : AuditedContent) (root : Z).
Notation tree_wf := (tree_wf root).

Lemma history_wf_blobs c c' :
  history_wf c → nodes (tables c') = nodes (tables c) → versions (tables c') = versions (tables c) →
  (∀ h s, blobs c !! h = Some s → blobs c' !! h = Some s) → history_wf c'.
Proof.
  intros [] Hn Hv Hb. split; rewrite ?Hn, ?Hv; try done. intros v row Hrow. eauto.
Qed.

Lemma EnsureBlobTx_tables c hash size physical generation c' :
  EnsureBlobTx c hash size physical generation = Ok c' →
  nodes (tables c') = nodes (tables c) ∧ node_seq (tables c') = node_seq (tables c) ∧
  versions (tables c') = versions (tables c) ∧ tags (tables c') = tags (tables c) ∧
  node_tags (tables c') = node_tags (tables c) ∧ audit_active (tables c') = audit_active (tables c) ∧
  watch_sources c' = watch_sources c ∧ blobs c' = <[hash := size]> (blobs c) ∧
  (∀ s, blobs c !! hash = Some s → s = size).
Proof.
  intros He. apply EnsureBlobTx_shape in He as (p & cs & _ & Hb & _ & _ & _ & Hs). cbn in Hs.
  destruct Hs as [[-> _]| ->]; cbn; split_and!; try done; naive_solver.
Qed.

Lemma EnsureBlobTx_wf c hash size physical generation c' :
  tree_wf (tables c) → history_wf c → EnsureBlobTx c hash size physical generation = Ok c' →
  tree_wf (tables c') ∧ history_wf c'.
Proof.
  intros Hwf Hh He. apply EnsureBlobTx_tables in He as (Hn & Hq & Hv & _ & _ & _ & _ & Hb & Hs). split.
  - by eapply (tree_wf_tables root).
  - apply (history_wf_blobs c); [done..|]. intros h s Hhs. rewrite Hb.
    destruct (decide (h = hash)) as [->|]; [|by rewrite lookup_insert_ne].
    rewrite lookup_insert_eq. f_equal. symmetry. by apply Hs.
Qed.

(** ** Installing a version *)

(** Random identities are fresh: the version's in the vault, the operation's
    in the file's history. *)
Definition fresh_operation (d : db) (i : Z) (op : contentVersionOperation) : Prop :=
  versions d !! versionID op = None ∧
  ∀ w wrow, versions d !! w = Some wrow → v_node_id wrow = i → v_operation_id wrow ≠ operationID op.

Definition with_version (c : catalog) (v : string) (row : version_row) : catalog :=
  let d := tables c in
  with_tables c (MkDb (nodes d) (node_seq d) (<[v := row]> (versions d)) (checksums d) (tags d)
    (node_tags d) (audit_active d)).

Lemma insert_version_ok c op row :
  fresh_operation (tables c) (v_node_id row) op → v_operation_id row = operationID op →
  (∀ w wrow, versions (tables c) !! w = Some wrow → v_node_id wrow = v_node_id row →
     v_node_revision wrow ≠ v_node_revision row) →
  version_checks row = true → is_Some (nodes (tables c) !! v_node_id row) →
  is_Some (blobs c !! v_blob_hash row) →
  insert_version c (versionID op) row = Ok (with_version c (versionID op) row).
Proof.
  intros [Hfresh Hop] Hoprow Hrev Hchecks Hn Hb. unfold insert_version.
  assert (existsb (version_conflict (versionID op) row) (map_to_list (versions (tables c))) = false) as ->.
  { apply not_true_iff_false. rewrite existsb_exists.
    intros ([w wrow] & Hin%list_elem_of_In%elem_of_map_to_list & Hc).
    unfold version_conflict in Hc. cbn in Hc. apply orb_true_iff in Hc as [Hc|Hc].
    - apply String.eqb_eq in Hc as ->. congruence.
    - apply andb_true_iff in Hc as [Hi%Z.eqb_eq Hc]. apply orb_true_iff in Hc as [Hc|Hc].
      + apply Z.eqb_eq in Hc. by eapply Hrev.
      + apply String.eqb_eq in Hc. eapply Hop; [done|done|congruence]. }
  cbn. rewrite Hchecks. cbn. rewrite !bool_decide_eq_true_2 by done. done.
Qed.

(** A new head on an existing file. *)
Definition installed (c : catalog) (i : Z) (r : node_row) (v : string) (row : version_row) : catalog :=
  let d := tables c in
  with_tables c
    (MkDb (<[i := install_head v (v_node_revision row) (v_recorded_at row) r]> (nodes d)) (node_seq d)
       (<[v := row]> (versions d)) (checksums d) (tags d) (node_tags d) (audit_active d)).

Definition head_row (i : Z) (r : node_row) (hash : string) (size : Z) (mime : option string)
    (k : transition) (source : option string) (op : contentVersionOperation) : version_row :=
  MkVersionRow i hash size mime (recordedAt op) (revision r + 1) (operationID op) k source.

Lemma install_head_where v rev now i r ns :
  ns !! i = Some r → set_where (is_id i) (install_head v rev now) ns = <[i := install_head v rev now r]> ns.
Proof.
  intros Hr. apply map_eq. intros j. rewrite lookup_set_id. destruct (decide (j = i)) as [->|Hne].
  - by rewrite lookup_insert_eq, Hr.
  - rewrite lookup_insert_ne by done. by destruct (ns !! j).
Qed.

Lemma installContentVersionTx_ok c i r hash size mimeType k source op :
  tree_wf (tables c) → history_wf c → nodes (tables c) !! i = Some r → kind r = file →
  fresh_operation (tables c) i op → is_Some (blobs c !! hash) → (0 ≤ size)%Z →
  k ≠ content_create → (k = content_revert ↔ is_Some source) →
  (∀ x, queueTextExtractionTx x (versionID op) hash mimeType = Ok tt) →
  let row := head_row i r hash size (stored_mime mimeType) k source op in
  let c' := installed c i r (versionID op) row in
  installContentVersionTx c (scanNode (tables c) i r) hash size mimeType k source op =
  Ok (c', (node_of (tables c') i, scanContentVersion (tables c') (versionID op) row)).
Proof.
  intros Hwf Hh Hr Hk Hfresh Hb Hsz Hnc Hsrc Hq row c'.
  pose proof (wf_revision _ _ Hwf i r Hr) as Hrev.
  unfold installContentVersionTx, installContentVersionWithOperationTx.
  assert (insert_version c (versionID op) row = Ok (with_version c (versionID op) row)) as Hins.
  { apply insert_version_ok; cbn; [done|done| | |eauto|done].
    - intros w wrow Hw Hwi. destruct (hw_node c Hh w wrow Hw) as (r' & Hr' & _ & Hle).
      rewrite Hwi in Hr'. assert (r' = r) as -> by congruence. lia.
    - unfold version_checks. cbn. replace (0 <=? size)%Z with true by lia.
      replace (0 <? revision r + 1)%Z with true by lia.
      replace (revision r + 1 =? 1)%Z with false by lia.
      rewrite (bool_decide_eq_false_2 (k = content_create)) by done. cbn.
      destruct Hsrc as [Hs1 Hs2]. destruct k; [done| |]; destruct source; cbn; try done.
      + by discriminate (Hs2 (mk_is_Some _ _ eq_refl)).
      + by destruct (Hs1 eq_refl). }
  cbn [ID Revision scanNode]. change (insert_version c (versionID op) _) with
    (insert_version c (versionID op) row). rewrite Hins. cbn -[exec update_where]. rewrite Hq. cbn -[exec update_where].
  rewrite update_where_ok.
  2:{ intros j j' rj rj' Hne Hj Hj' Hid. apply Z.eqb_eq in Hid as ->. cbn in Hj.
      assert (rj = r) as -> by congruence.
      assert (∀ s, clash (install_head (versionID op) (revision r + 1) (recordedAt op) r) s = clash r s)
        as Hcl by done.
      rewrite !Hcl. split; [exact (wf_no_clash _ _ _ _ _ _ Hwf Hne Hr Hj')|].
      intros Hj''%Z.eqb_eq. congruence. }
  cbn. rewrite (install_head_where _ _ _ i r), nodeByIDTx_cases by done. cbn.
  rewrite lookup_insert_eq. cbn. unfold version_by_id. cbn. rewrite lookup_insert_eq. cbn.
  unfold node_of. cbn. by rewrite lookup_insert_eq.
Qed.

Lemma installed_tree_wf c i r v row :
  tree_wf (tables c) → nodes (tables c) !! i = Some r → kind r = file →
  v_node_revision row = (revision r + 1)%Z → tree_wf (tables (installed c i r v row)).
Proof.
  intros Hwf Hr Hk Hrev. eapply (tree_wf_shape root); [exact Hwf|done| |]; cbn.
  - intros j r' [[<- <-]|[_ Hj]]%lookup_insert_Some.
    + exists r. split; [done|]. unfold same_shape. cbn. rewrite Hrev.
      assert (is_Some (current_version_id r)) as Hcur by (by apply (wf_kind _ _ Hwf i)).
      split_and!; try done; lia.
    + exists r'. split; [done|]. unfold same_shape. split_and!; try done; lia.
  - intros j [rj Hj]. destruct (decide (j = i)) as [->|]; [rewrite lookup_insert_eq; eauto|].
    rewrite lookup_insert_ne; eauto.
Qed.

(** A replacement, or a reversion to an older version of the same file. *)
Definition source_ok (c : catalog) (row : version_row) : Prop :=
  match v_source_version_id row with
  | None => v_transition_kind row = content_replace
  | Some s => v_transition_kind row = content_revert ∧
      ∃ srow, versions (tables c) !! s = Some srow ∧ v_node_id srow = v_node_id row ∧
        v_blob_hash srow = v_blob_hash row ∧ v_size srow = v_size row ∧
        v_mime_type srow = v_mime_type row
  end.

Lemma installed_history_wf c i r v row :
  tree_wf (tables c) → history_wf c → nodes (tables c) !! i = Some r → kind r = file →
  versions (tables c) !! v = None → v_node_id row = i → v_node_revision row = (revision r + 1)%Z →
  source_ok c row → blobs c !! v_blob_hash row = Some (v_size row) → (0 ≤ v_size row)%Z →
  v_mime_type row ≠ Some "" →
  history_wf (installed c i r v row).
Proof.
  intros Hwf Hh Hr Hk Hfresh Hi Hrev Hsrc Hb Hsz Hmime.
  pose proof (wf_revision _ _ Hwf i r Hr) as Hpos.
  assert (∀ w wrow, versions (tables c) !! w = Some wrow → v_node_id wrow = i →
    (v_node_revision wrow ≤ revision r)%Z) as Hold.
  { intros w wrow Hw Hwi. destruct (hw_node c Hh w wrow Hw) as (r' & Hr' & _ & ?).
    rewrite Hwi in Hr'. assert (r' = r) as -> by congruence. lia. }
  assert (v_transition_kind row ≠ content_create) as Hnc.
  { unfold source_ok in Hsrc. destruct (v_source_version_id row); [destruct Hsrc|]; congruence. }
  split; cbn.
  - intros w wrow [[<- <-]|[_ Hw]]%lookup_insert_Some.
    + rewrite Hi, lookup_insert_eq. eexists. split; [done|]. cbn. rewrite Hrev. split; [done|lia].
    + destruct (hw_node c Hh w wrow Hw) as (r' & Hr' & Hk' & Hle).
      destruct (decide (v_node_id wrow = i)) as [Hwi|Hne].
      * rewrite Hwi, lookup_insert_eq. eexists. split; [done|]. cbn. split; [done|].
        assert (r' = r) as -> by congruence. lia.
      * rewrite lookup_insert_ne by done. eauto.
  - intros j r' w [[<- <-]|[Hne Hj]]%lookup_insert_Some Hcur; cbn in *.
    + injection Hcur as <-. exists row. rewrite lookup_insert_eq. split_and!; [done|done|].
      intros x xrow [[<- <-]|[_ Hx]]%lookup_insert_Some Hxi; [lia|].
      specialize (Hold x xrow Hx Hxi). lia.
    + destruct (hw_current c Hh j r' w Hj Hcur) as (wrow & Hw & Hwj & Hmax).
      exists wrow. split_and!; [|done|].
      * rewrite lookup_insert_ne by congruence. done.
      * intros x xrow [[<- <-]|[_ Hx]]%lookup_insert_Some Hxj; [congruence|]. by eapply Hmax.
  - intros x w xrow wrow [[<- <-]|[_ Hx]]%lookup_insert_Some [[<- <-]|[_ Hw]]%lookup_insert_Some He Hre;
      [done| | |by eapply (hw_unique c Hh)].
    + specialize (Hold w wrow Hw ltac:(congruence)). lia.
    + specialize (Hold x xrow Hx ltac:(congruence)). lia.
  - intros w wrow [[<- <-]|[_ Hw]]%lookup_insert_Some; [|by eapply hw_create].
    rewrite Hrev. split; [done|lia].
  - intros w wrow [[<- <-]|[_ Hw]]%lookup_insert_Some; [|by eapply hw_revert].
    unfold source_ok in Hsrc. destruct (v_source_version_id row); [destruct Hsrc as [-> _]; split; eauto|].
    rewrite Hsrc. split; [done|by intros [? ?]].
  - intros w wrow s [[<- <-]|[_ Hw]]%lookup_insert_Some Hs.
    + unfold source_ok in Hsrc. rewrite Hs in Hsrc. destruct Hsrc as (_ & srow & Hsr & Hsi & ? & ? & ?).
      exists srow. rewrite lookup_insert_ne by congruence. split_and!; try done.
      rewrite Hi in Hsi. specialize (Hold s srow Hsr Hsi). lia.
    + destruct (hw_source c Hh w wrow s Hw Hs) as (srow & Hsr & ?). exists srow.
      rewrite lookup_insert_ne by congruence. done.
  - intros w wrow [[<- <-]|[_ Hw]]%lookup_insert_Some; [done|by eapply hw_blob].
  - intros w wrow [[<- <-]|[_ Hw]]%lookup_insert_Some; [done|by eapply hw_size].
  - intros w wrow [[<- <-]|[_ Hw]]%lookup_insert_Some; [done|by eapply hw_mime].
Qed.

(** ** What a successful write did *)

Lemma insert_version_Ok c v row c' :
  insert_version c v row = Ok c' →
  c' = with_version c v row ∧ versions (tables c) !! v = None ∧ version_checks row = true ∧
  is_Some (blobs c !! v_blob_hash row).
Proof.
  intros Hi. unfold insert_version in Hi. apply bind_Ok_iff in Hi as (u1 & Hc & Hi).
  apply bind_Ok_iff in Hi as (u2 & Hk & Hi). apply bind_Ok_iff in Hi as (u3 & _ & Hi).
  apply bind_Ok_iff in Hi as (u4 & Hb & Hi). apply Ok_inj in Hi as <-.
  apply check_Ok_iff in Hc, Hk, Hb. apply bool_decide_eq_true in Hb.
  split_and!; [done| |done|done]. destruct (versions (tables c) !! v) as [w|] eqn:Hv; [|done]. exfalso.
  apply negb_true_iff, not_true_iff_false in Hc. apply Hc, existsb_exists. exists (v, w).
  split; [by apply list_elem_of_In, elem_of_map_to_list|]. unfold version_conflict. cbn.
  by rewrite String.eqb_refl.
Qed.

Lemma version_checks_size row : version_checks row = true → (0 ≤ v_size row)%Z.
Proof. unfold version_checks. intros Hc. repeat apply andb_true_iff in Hc as [Hc _]. lia. Qed.

Lemma installContentVersionTx_Ok c i r hash size mimeType k source op c' a :
  nodes (tables c) !! i = Some r →
  installContentVersionTx c (scanNode (tables c) i r) hash size mimeType k source op = Ok (c', a) →
  c' = installed c i r (versionID op) (head_row i r hash size (stored_mime mimeType) k source op) ∧
  versions (tables c) !! versionID op = None ∧ (0 ≤ size)%Z.
Proof.
  intros Hr Hi. unfold installContentVersionTx, installContentVersionWithOperationTx in Hi.
  apply bind_Ok_iff in Hi as (c1 & Hc1 & Hi). apply insert_version_Ok in Hc1 as (-> & Hfresh & Hk & _).
  apply version_checks_size in Hk. cbn in Hk.
  apply bind_Ok_iff in Hi as (u & _ & Hi). apply bind_Ok_iff in Hi as (c2 & Hc2 & Hi).
  unfold on_db in Hc2. apply bind_Ok_iff in Hc2 as (d2 & Hd2%exec_Ok & Hc2). apply Ok_inj in Hc2 as <-.
  subst d2. cbn in Hi. apply bind_Ok_iff in Hi as (n & _ & Hi).
  apply bind_Ok_iff in Hi as (v & _ & Hi). apply Ok_inj in Hi as [= <- _].
  split_and!; [|done|done]. unfold installed, with_nodes, with_tables. cbn.
  by rewrite (install_head_where _ _ _ i r).
Qed.

(** A new file under [p]. *)
Definition file_row (i : Z) (hash : string) (size : Z) (mime : option string)
    (op : contentVersionOperation) : version_row :=
  MkVersionRow i hash size mime (recordedAt op) 1 (operationID op) content_create None.

Lemma createFileTx_Ok c p nm hash size mimeType op physical generation c' n v :
  tree_wf (tables c) → canonical_name nm →
  createFileTx c p nm hash size mimeType op physical generation = Ok (c', (n, v)) →
  ∃ c1 pr, EnsureBlobTx c hash size physical generation = Ok c1 ∧
    nodes (tables c) !! p = Some pr ∧ kind pr = dir ∧ trashed_at pr = None ∧
    ¬ taken (nodes (tables c)) p nm ∧
    let i := (node_seq (tables c) + 1)%Z in
    let row := file_row i hash size (stored_mime mimeType) op in
    nodes (tables c) !! i = None ∧ versions (tables c) !! versionID op = None ∧ (0 ≤ size)%Z ∧
    nodes (tables c') = <[i := new_row p nm file (Some (versionID op)) (recordedAt op)]>
                          (<[p := bump (recordedAt op) pr]> (nodes (tables c))) ∧
    node_seq (tables c') = i ∧ versions (tables c') = <[versionID op := row]> (versions (tables c)) ∧
    blobs c' = blobs c1 ∧ tags (tables c') = tags (tables c) ∧
    node_tags (tables c') = node_tags (tables c) ∧
    audit_active (tables c') = audit_active (tables c) ∧ watch_sources c' = watch_sources c ∧
    locations c' = locations c1 ∧ pack_entries c' = pack_entries c1 ∧ checksums (tables c') = checksums (tables c1) ∧
    tree_wf (tables c') ∧
    n = node_of (tables c') i ∧ v = scanContentVersion (tables c') (versionID op) row.
Proof.
  intros Hwf Hnm Hc. unfold createFileTx, createFileWithOperationTx in Hc.
  apply bind_Ok_iff in Hc as (u & _ & Hc). apply bind_Ok_iff in Hc as (pn & Hp & Hc).
  apply liveDirTx_Ok_iff in Hp as (pr & Hpr & _ & Hpt & Hpk).
  apply bind_Ok_iff in Hc as (c1 & Hc1 & Hc). exists c1, pr.
  destruct (EnsureBlobTx_tables _ _ _ _ _ _ Hc1) as (Hn1 & Hq1 & Hv1 & Ht1 & Hnt1 & Ha1 & Hw1 & Hb1 & _).
  assert (tree_wf (tables c1)) as Hwf1 by (by eapply (tree_wf_tables root)).
  apply bind_Ok_iff in Hc as ([c2 i] & Hc2 & Hc). unfold on_tables in Hc2.
  apply bind_Ok_iff in Hc2 as ([d2 i2] & Hd2 & Hc2). apply Ok_inj in Hc2 as [= <- ->].
  apply from_lookup_Ok_iff in Hd2.
  assert (¬ taken (nodes (tables c)) p nm) as Hfree.
  { rewrite <- Hn1, <- (insert_node_taken root) by exact Hwf1. by rewrite Hd2. }
  pose proof Hd2 as Hd2'. eapply (tree_wf_insert root) in Hd2' as (Hwf2 & Hfresh & Hn2);
    [|exact Hwf1|by rewrite Hn1|done|done|done|split; eauto].
  unfold insert_node in Hd2. destruct (clashes _ _ _); [done|]. injection Hd2 as <- <-.
  rewrite Hn1 in Hfresh. rewrite Hq1 in *. set (i := (node_seq (tables c) + 1)%Z) in *.
  apply bind_Ok_iff in Hc as (c3 & Hc3 & Hc). apply insert_version_Ok in Hc3 as (-> & Hvf & Hk & _).
  cbn in Hvf. rewrite Hv1 in Hvf. apply version_checks_size in Hk. cbn in Hk.
  apply bind_Ok_iff in Hc as (u' & _ & Hc). apply bind_Ok_iff in Hc as (c4 & Hc4 & Hc).
  unfold on_db in Hc4. apply bind_Ok_iff in Hc4 as (d4 & Hd4 & Hc4). apply Ok_inj in Hc4 as <-.
  set (d3 := tables (with_version _ _ _)) in Hd4.
  assert (tree_wf d3) as Hwf3 by (by eapply (tree_wf_tables root)).
  apply (bumpRevisionTx_inv root) in Hd4 as [Hwf4 ->]; [|done].
  apply bind_Ok_iff in Hc as (n' & Hn & Hc). apply bind_Ok_iff in Hc as (v' & Hv & Hc).
  apply Ok_inj in Hc as [= <- -> ->].
  assert (i ≠ p) as Hip by (intros <-; congruence).
  assert (set_where (is_id p) (bump (recordedAt op)) (nodes d3) =
    <[i := new_row p nm file (Some (versionID op)) (recordedAt op)]>
      (<[p := bump (recordedAt op) pr]> (nodes (tables c)))) as Hnodes.
  { cbn. rewrite Hn1. apply map_eq. intros j. rewrite lookup_set_id.
    destruct (decide (j = i)) as [->|Hji]; [rewrite !lookup_insert_eq; cbn; by rewrite decide_False|].
    rewrite !(lookup_insert_ne _ i) by done. destruct (decide (j = p)) as [->|Hjp].
    - rewrite lookup_insert_eq, Hpr. done.
    - rewrite lookup_insert_ne by done. by destruct (nodes (tables c) !! j). }
  cbn [tables with_tables nodes with_nodes] in *. rewrite Hnodes in *.
  change (<[i := new_row p nm file (Some (versionID op)) (recordedAt op)]> (nodes (tables c1)))
    with (nodes d3). rewrite Hnodes.
  split_and!; try done.
  - cbn. by rewrite Hv1.
  - unfold node_of. cbn. rewrite lookup_insert_eq. cbn.
    rewrite nodeByIDTx_cases in Hn. cbn in Hn. rewrite lookup_insert_eq in Hn. cbn in Hn.
    by apply Ok_inj in Hn as <-.
  - unfold version_by_id in Hv. cbn in Hv. rewrite lookup_insert_eq in Hv. cbn in Hv.
    by apply Ok_inj in Hv as <-.
Qed.

Lemma created_history_wf c c' i p pr nm v hash size mime op :
  tree_wf (tables c) → history_wf c → nodes (tables c) !! p = Some pr → kind pr = dir →
  nodes (tables c) !! i = None → versions (tables c) !! v = None → (0 ≤ size)%Z →
  nodes (tables c') = <[i := new_row p nm file (Some v) (recordedAt op)]>
                        (<[p := bump (recordedAt op) pr]> (nodes (tables c))) →
  versions (tables c') = <[v := file_row i hash size (stored_mime mime) op]> (versions (tables c)) →
  blobs c' !! hash = Some size → (∀ h s, blobs c !! h = Some s → blobs c' !! h = Some s) →
  history_wf c'.
Proof.
  intros Hwf Hh Hp Hk Hfresh Hvf Hsz Hn Hv Hb Hbs.
  assert (i ≠ p) as Hip by congruence.
  assert (∀ w wrow, versions (tables c) !! w = Some wrow → v_node_id wrow ≠ i ∧ v_node_id wrow ≠ p) as Hold.
  { intros w wrow Hw. destruct (hw_node c Hh w wrow Hw) as (r & Hr & Hf & _).
    split; intros He; congruence. }
  assert (current_version_id pr = None) as Hpcur.
  { destruct (current_version_id pr) as [x|] eqn:Hx; [|done].
    assert (kind pr = file) as Hkf by (apply (wf_kind _ _ Hwf p pr Hp); eauto). congruence. }
  split; rewrite ?Hn, ?Hv.
  - intros w wrow [[<- <-]|[_ Hw]]%lookup_insert_Some.
    + cbn. rewrite lookup_insert_eq. eexists. split; [done|]. cbn. split; [done|lia].
    + destruct (Hold w wrow Hw) as [H3 H4]. rewrite !lookup_insert_ne by done. by eapply hw_node.
  - intros j r w [[<- <-]|[Hji [[<- <-]|[Hjp Hj]]%lookup_insert_Some]]%lookup_insert_Some Hcur.
    + injection Hcur as <-. eexists. rewrite lookup_insert_eq. split_and!; [done|done|].
      intros x xrow [[<- <-]|[_ Hx]]%lookup_insert_Some Hxi; [cbn; lia|]. by destruct (Hold x xrow Hx).
    + cbn in Hcur. congruence.
    + destruct (hw_current c Hh j r w Hj Hcur) as (wrow & Hw & Hwj & Hmax).
      exists wrow. split_and!; [|done|].
      * rewrite lookup_insert_ne by congruence. done.
      * intros x xrow [[<- <-]|[_ Hx]]%lookup_insert_Some Hxj; [done|]. by eapply Hmax.
  - intros x w xrow wrow [[<- <-]|[_ Hx]]%lookup_insert_Some [[<- <-]|[_ Hw]]%lookup_insert_Some He Hre;
      [done| | |by eapply (hw_unique c Hh)].
    + destruct (Hold w wrow Hw) as [H3 _]. by destruct H3.
    + destruct (Hold x xrow Hx) as [H3 _]. by destruct H3.
  - intros w wrow [[<- <-]|[_ Hw]]%lookup_insert_Some; [done|by eapply hw_create].
  - intros w wrow [[<- <-]|[_ Hw]]%lookup_insert_Some; [|by eapply hw_revert].
    cbn. split; [done|by intros [? ?]].
  - intros w wrow s [[<- <-]|[_ Hw]]%lookup_insert_Some Hs; [done|].
    destruct (hw_source c Hh w wrow s Hw Hs) as (srow & Hsr & ?). exists srow.
    rewrite lookup_insert_ne by congruence. done.
  - intros w wrow [[<- <-]|[_ Hw]]%lookup_insert_Some; [done|]. apply Hbs. by eapply hw_blob.
  - intros w wrow [[<- <-]|[_ Hw]]%lookup_insert_Some; [done|by eapply hw_size].
  - intros w wrow [[<- <-]|[_ Hw]]%lookup_insert_Some; [apply stored_mime_not_empty|by eapply hw_mime].
Qed.

(** ** The invariant of a vault's content *)

Record content_wf (c : catalog) : Prop := {
  ct_tree : tree_wf (tables c);
  ct_history : history_wf c;
  ct_catalog : catalog_wf c;
  ct_unaudited : audit_active (tables c) = false;
}.

Lemma catalog_wf_rows c c' :
  catalog_wf c → locations c' = locations c → pack_entries c' = pack_entries c → catalog_wf c'.
Proof. intros [] Hl He. split; rewrite ?Hl, ?He; done. Qed.

Lemma EnsureBlobTx_content_wf c hash size physical generation c' :
  content_wf c → EnsureBlobTx c hash size physical generation = Ok c' →
  content_wf c' ∧ blobs c' !! hash = Some size ∧ (∀ h s, blobs c !! h = Some s → blobs c' !! h = Some s).
Proof.
  intros [Hwf Hh Hc Ha] He. destruct (EnsureBlobTx_wf _ _ _ _ _ _ Hwf Hh He) as [Hwf' Hh'].
  pose proof (EnsureBlobTx_catalog_wf _ _ _ _ _ _ Hc He) as Hc'.
  apply EnsureBlobTx_tables in He as (_ & _ & _ & _ & _ & Ha' & _ & Hb & Hs).
  split_and!; [split; congruence| |].
  - rewrite Hb. apply lookup_insert_eq.
  - intros h s Hhs. rewrite Hb. destruct (decide (h = hash)) as [->|]; [|by rewrite lookup_insert_ne].
    rewrite lookup_insert_eq. f_equal. symmetry. by apply Hs.
Qed.

Lemma createFileTx_content_wf c p nm hash size mimeType op physical generation c' a :
  content_wf c → canonical_name nm →
  createFileTx c p nm hash size mimeType op physical generation = Ok (c', a) → content_wf c'.
Proof.
  intros Hc Hnm Hf. destruct a as [n v].
  apply createFileTx_Ok in Hf as (c1 & pr & He & Hp & Hk & Hpt & Hfree & Hi & Hvf & Hsz & Hn & Hq & Hv
    & Hb & _ & _ & Ha & _ & Hl & Hpe & _ & Hwf' & _); [|apply Hc|done].
  destruct (EnsureBlobTx_content_wf _ _ _ _ _ _ Hc He) as (Hc1 & Hb1 & Hbs).
  destruct Hc as [Hwf Hh _ Hau]. split; [done| | |congruence].
  - eapply created_history_wf; [exact Hwf|exact Hh|exact Hp|exact Hk|exact Hi|exact Hvf|exact Hsz|exact Hn|exact Hv
      |by rewrite Hb|by rewrite Hb].
  - eapply catalog_wf_rows; [apply Hc1|done|done].
Qed.

Lemma installed_wf c i r hash size mime k source op :
  content_wf c → nodes (tables c) !! i = Some r → kind r = file →
  versions (tables c) !! versionID op = None → (0 ≤ size)%Z →
  source_ok c (head_row i r hash size (stored_mime mime) k source op) → blobs c !! hash = Some size →
  content_wf (installed c i r (versionID op) (head_row i r hash size (stored_mime mime) k source op)).
Proof.
  intros [Hwf Hh Hc Ha] Hr Hk Hfresh Hsz Hsrc Hb. split; [| | |done].
  - by apply installed_tree_wf.
  - apply installed_history_wf; try done. apply stored_mime_not_empty.
  - by eapply catalog_wf_rows.
Qed.

Lemma installed_content_wf c i r hash size mimeType k source op c' a :
  content_wf c → nodes (tables c) !! i = Some r → kind r = file →
  source_ok c (head_row i r hash size (stored_mime mimeType) k source op) →
  blobs c !! hash = Some size →
  installContentVersionTx c (scanNode (tables c) i r) hash size mimeType k source op = Ok (c', a) →
  content_wf c'.
Proof.
  intros Hc Hr Hk Hsrc Hb Hi.
  apply installContentVersionTx_Ok in Hi as (-> & Hfresh & Hsz); [|done]. by apply installed_wf.
Qed.

End facts.
