(* ===== verification/VersionProps.v ===== *)
(** * Properties of content histories *)
From S2P Require Import Prelude GoText Names Tables Tree TreeInv TreeFacts Trash TrashFacts StoreMachine Listing Identity Blobs Versions VersionFacts.

Section props.
Context `{Normalizer} `{Kit} `{TextQueue} (A : AuditedContent) (root : Z).
Notation tree_wf := (tree_wf root).
Notation content_wf := (content_wf root).

(** Queueing text extraction for a version never blocks the write. *)
Definition queue_accepts (v hash mime : string) : Prop :=
  ∀ x, queueTextExtractionTx x v hash mime = Ok tt.

Lemma validateContentReplacementTarget_ok d i r ifRev :
  trashed_at r = None → kind r = file → stale ifRev (revision r) = false →
  (revision r < MaxInt64)%Z →
  validateContentReplacementTarget (scanNode d i r) ifRev = Ok tt.
Proof.
  intros Ht Hk Hs Hm. unfold validateContentReplacementTarget, IsDir. cbn.
  rewrite Ht, Hk, Hs. cbn. by rewrite (proj2 (Z.eqb_neq _ _)) by lia.
Qed.

(** A node at the last revision keeps its content. *)
Lemma validateContentReplacementTarget_last d i r ifRev :
  trashed_at r = None → kind r = file → stale ifRev (revision r) = false →
  revision r = MaxInt64 →
  validateContentReplacementTarget (scanNode d i r) ifRev = Err ErrOther.
Proof.
  intros Ht Hk Hs Hm. unfold validateContentReplacementTarget, IsDir. cbn.
  rewrite Ht, Hk, Hs. cbn. by rewrite (proj2 (Z.eqb_eq _ _)).
Qed.

Lemma version_by_id_ok d v row :
  versions d !! v = Some row → version_by_id d v = Ok (scanContentVersion d v row).
Proof. intros Hv. unfold version_by_id. by rewrite Hv. Qed.

(** What a node shows of its content. *)
Definition content_of (n : Node) : string * Z * string := (BlobHash n, Size n, MimeType n).
Definition version_content (row : version_row) : string * Z * string :=
  (v_blob_hash row, v_size row, default "" (v_mime_type row)).

Lemma node_of_content c i r v row :
  nodes (tables c) !! i = Some r → current_version_id r = Some v →
  versions (tables c) !! v = Some row → v_node_id row = i →
  content_of (node_of (tables c) i) = version_content row.
Proof.
  intros Hr Hc Hv Hi. unfold content_of, node_of, scanNode, current_version. rewrite Hr. cbn.
  rewrite Hc. cbn. rewrite Hv. cbn. rewrite Hi, Z.eqb_refl. done.
Qed.

Lemma installed_content c i r v row :
  v_node_id row = i →
  content_of (node_of (tables (installed c i r v row)) i) = version_content row.
Proof.
  intros Hi. eapply node_of_content; [cbn; apply lookup_insert_eq|done|cbn; apply lookup_insert_eq|done].
Qed.

(** The catalog's answer for the new head, after a successful write. *)
Lemma replaceContentTx_ok c i r ifRev hash size mime op physical generation c1 :
  content_wf c → nodes (tables c) !! i = Some r → kind r = file → trashed_at r = None →
  stale ifRev (revision r) = false → (revision r < MaxInt64)%Z → fresh_operation (tables c) i op → (0 ≤ size)%Z →
  queue_accepts (versionID op) hash mime → EnsureBlobTx c hash size physical generation = Ok c1 →
  let row := head_row i r hash size (stored_mime mime) content_replace None op in
  let c' := installed c1 i r (versionID op) row in
  replaceContentTx c (scanNode (tables c) i r) ifRev hash size mime op physical generation =
  Ok (c', (node_of (tables c') i, scanContentVersion (tables c') (versionID op) row)).
Proof.
  intros Hc Hr Hk Ht Hst Hmax Hfr Hsz Hq He row c'. unfold replaceContentTx.
  rewrite validateContentReplacementTarget_ok by done. cbn. rewrite (ct_unaudited _ _ Hc), He.
  cbn [mbind result_bind].
  destruct (EnsureBlobTx_content_wf root _ _ _ _ _ _ Hc He) as (Hc1 & Hb & _).
  destruct (EnsureBlobTx_tables _ _ _ _ _ _ He) as (Hn1 & _ & Hv1 & _).
  assert (∀ k s, installContentVersionTx c1 (scanNode (tables c) i r) hash size mime k s op =
    installContentVersionTx c1 (scanNode (tables c1) i r) hash size mime k s op) as -> by done.
  apply (installContentVersionTx_ok root); try done.
  - apply Hc1.
  - apply Hc1.
  - by rewrite Hn1.
  - unfold fresh_operation. by rewrite Hv1.
Qed.

(** The handler's answer and the state it leaves. *)
Lemma ReplaceContent_ok c i r ifRev hash size mime op physical generation c1 p :
  content_wf c → nodes (tables c) !! i = Some r → kind r = file → trashed_at r = None →
  stale ifRev (revision r) = false → (revision r < MaxInt64)%Z → fresh_operation (tables c) i op → (0 ≤ size)%Z →
  ValidString mime = true → queue_accepts (versionID op) hash mime →
  EnsureBlobTx c hash size physical generation = Ok c1 →
  authorizedPhysicalContentTx c1 hash = Ok p →
  let row := head_row i r hash size (stored_mime mime) content_replace None op in
  let c' := installed c1 i r (versionID op) row in
  ReplaceContent i ifRev hash size mime op physical generation c =
    (c', Ok (node_of (tables c') i, scanContentVersion (tables c') (versionID op) row)).
Proof.
  intros Hc Hr Hk Ht Hst Hmax Hfr Hsz Hmime Hq He Hp row c'.
  pose proof (replaceContentTx_ok c i r ifRev hash size mime op physical generation c1
    Hc Hr Hk Ht Hst Hmax Hfr Hsz Hq He) as Hok. cbn zeta in Hok.
  unfold ReplaceContent, ReplaceContentWithReceipt, withCatalogTx.
  replace (size <? 0)%Z with false by lia. rewrite Hmime. cbn [negb].
  rewrite nodeByIDTx_cases, Hr. cbn -[replaceContentTx]. rewrite Hok. cbn.
  assert (authorizedPhysicalContentTx c' hash = authorizedPhysicalContentTx c1 hash) as Hpc by done.
  unfold c', row in Hpc. rewrite Hpc, Hp. done.
Qed.

(** replacing a live file's content at its current revision, with fresh
    identities and registered bytes, succeeds: the file then shows exactly the
    new hash, size and media type at the next revision, the history gains
    exactly one version and loses none, every other node is as before, and the
    vault stays well formed. *)
Theorem ReplaceContent_effect c i r ifRev hash size mime op physical generation c1 p :
  content_wf c → nodes (tables c) !! i = Some r → kind r = file → trashed_at r = None →
  stale ifRev (revision r) = false → (revision r < MaxInt64)%Z → fresh_operation (tables c) i op → (0 ≤ size)%Z →
  ValidString mime = true → queue_accepts (versionID op) hash mime →
  EnsureBlobTx c hash size physical generation = Ok c1 →
  authorizedPhysicalContentTx c1 hash = Ok p →
  ∃ c' n v, ReplaceContent i ifRev hash size mime op physical generation c = (c', Ok (n, v)) ∧
    NodeByID (tables c') i = Ok n ∧ content_of n = (hash, size, mime) ∧
    Revision n = (revision r + 1)%Z ∧ CurrentVersionID n = versionID op ∧
    version_by_id (tables c') (versionID op) = Ok v ∧ VNodeRevision v = Revision n ∧
    versions (tables c) ⊆ versions (tables c') ∧
    dom (versions (tables c')) = {[ versionID op ]} ∪ dom (versions (tables c)) ∧
    (∀ j, j ≠ i → nodes (tables c') !! j = nodes (tables c) !! j) ∧
    content_wf c'.
Proof.
  intros Hc Hr Hk Ht Hst Hmax Hfr Hsz Hmime Hq He Hp.
  pose proof (ReplaceContent_ok c i r ifRev hash size mime op physical generation c1 p
    Hc Hr Hk Ht Hst Hmax Hfr Hsz Hmime Hq He Hp) as Hok. cbn zeta in Hok.
  set (row := head_row i r hash size (stored_mime mime) content_replace None op) in *.
  set (c' := installed c1 i r (versionID op) row) in *.
  destruct (EnsureBlobTx_content_wf root _ _ _ _ _ _ Hc He) as (Hc1 & Hb & _).
  destruct (EnsureBlobTx_tables _ _ _ _ _ _ He) as (Hn1 & _ & Hv1 & _).
  assert (nodes (tables c') !! i = Some (install_head (versionID op) (revision r + 1) (recordedAt op) r)) as Hi'
    by (cbn; apply lookup_insert_eq).
  exists c', (node_of (tables c') i), (scanContentVersion (tables c') (versionID op) row).
  split_and!.
  - exact Hok.
  - apply nodeByIDTx_node_of. eauto.
  - unfold c'. rewrite installed_content by done. unfold version_content. cbn.
    by rewrite default_stored_mime.
  - unfold node_of. by rewrite Hi'.
  - unfold node_of. by rewrite Hi'.
  - apply version_by_id_ok. cbn. apply lookup_insert_eq.
  - unfold node_of. by rewrite Hi'.
  - cbn. rewrite Hv1. by apply insert_subseteq, Hfr.
  - cbn. rewrite Hv1. by rewrite dom_insert_L.
  - intros j Hj. cbn. rewrite Hn1. by rewrite lookup_insert_ne.
  - apply (installed_wf root); try done; [by rewrite Hn1|rewrite Hv1; apply Hfr].
Qed.

Lemma RevertContent_ok c i r ifRev s srow sz op :
  content_wf c → nodes (tables c) !! i = Some r → kind r = file → trashed_at r = None →
  stale ifRev (revision r) = false → (revision r < MaxInt64)%Z → fresh_operation (tables c) i op →
  validateUUIDv4 s = Ok tt → versions (tables c) !! s = Some srow → v_node_id srow = i →
  current_version_id r ≠ Some s → requirePhysicalAuthorityTx c (v_blob_hash srow) = Ok sz →
  queue_accepts (versionID op) (v_blob_hash srow) (default "" (v_mime_type srow)) →
  let row := head_row i r (v_blob_hash srow) (v_size srow) (v_mime_type srow) content_revert (Some s) op in
  let c' := installed c i r (versionID op) row in
  RevertContent i ifRev s op c =
    (c', Ok (node_of (tables c') i, scanContentVersion (tables c') (versionID op) row,
             scanContentVersion (tables c) s srow)) ∧
  content_wf c'.
Proof.
  intros Hc Hr Hk Ht Hst Hmax Hfr Hu Hs Hsi Hcur Hauth Hq row c'. pose proof Hc as [Hwf Hh Hcat Ha].
  pose proof (hw_blob c Hh s srow Hs) as Hb.
  assert (sz = v_size srow) as ->.
  { apply requirePhysicalAuthorityTx_Ok_iff in Hauth as [Hb' _]. congruence. }
  pose proof (stored_mime_default _ (hw_mime c Hh s srow Hs)) as Hmime.
  pose proof (hw_size c Hh s srow Hs) as Hsz.
  destruct (hw_node c Hh s srow Hs) as (r' & Hr' & _ & Hrev). rewrite Hsi in Hr'.
  assert (r' = r) as -> by congruence.
  assert (source_ok c row) as Hsrc by (split; [done|]; exists srow; done).
  split.
  - unfold RevertContent, withCatalogTx. rewrite Hu. cbn [negb is_Ok].
    rewrite nodeByIDTx_cases, Hr. cbn -[installContentVersionTx validateContentReplacementTarget].
    rewrite validateContentReplacementTarget_ok by done. cbn -[installContentVersionTx].
    rewrite (version_by_id_ok _ _ _ Hs). cbn -[installContentVersionTx]. rewrite Hsi, Z.eqb_refl.
    cbn -[installContentVersionTx].
    assert (String.eqb s (default "" (current_version_id r)) = false) as ->.
    { apply String.eqb_neq. intros ->. apply Hcur.
      assert (is_Some (current_version_id r)) as [x Hx] by (by apply (wf_kind _ _ Hwf i)).
      by rewrite Hx. }
    cbn -[installContentVersionTx]. replace (revision r + 1 <=? v_node_revision srow)%Z with false by lia.
    cbn -[installContentVersionTx]. rewrite Hauth. cbn -[installContentVersionTx].
    rewrite Z.eqb_refl. cbn -[installContentVersionTx]. rewrite Ha.
    pose proof (installContentVersionTx_ok root c i r (v_blob_hash srow) (v_size srow)
      (default "" (v_mime_type srow)) content_revert (Some s) op Hwf Hh Hr Hk Hfr) as Hok.
    cbn zeta in Hok. rewrite Hmime in Hok. unfold c', row.
    by rewrite Hok by (done || eauto).
  - assert (row = head_row i r (v_blob_hash srow) (v_size srow)
      (stored_mime (default "" (v_mime_type srow))) content_revert (Some s) op) as Hrow
      by (unfold row; by rewrite Hmime).
    unfold c'. rewrite Hrow. apply installed_wf; try done; [by apply Hfr|]. by rewrite <- Hrow.
Qed.

(** Reverting a live file to an older version of its own history, whose bytes
    are authorized, succeeds: the file shows exactly that version's hash, size
    and media type again under a new version that names its source; nothing in
    the history is rewritten. *)
Theorem RevertContent_effect c i r ifRev s srow sz op :
  content_wf c → nodes (tables c) !! i = Some r → kind r = file → trashed_at r = None →
  stale ifRev (revision r) = false → (revision r < MaxInt64)%Z → fresh_operation (tables c) i op →
  validateUUIDv4 s = Ok tt → versions (tables c) !! s = Some srow → v_node_id srow = i →
  current_version_id r ≠ Some s → requirePhysicalAuthorityTx c (v_blob_hash srow) = Ok sz →
  queue_accepts (versionID op) (v_blob_hash srow) (default "" (v_mime_type srow)) →
  ∃ c' n v source, RevertContent i ifRev s op c = (c', Ok (n, v, source)) ∧
    NodeByID (tables c') i = Ok n ∧ content_of n = version_content srow ∧
    Revision n = (revision r + 1)%Z ∧ CurrentVersionID n = versionID op ∧
    version_by_id (tables c') (versionID op) = Ok v ∧ VSourceVersionID v = Some s ∧
    version_by_id (tables c) s = Ok source ∧ version_by_id (tables c') s = Ok source ∧
    versions (tables c) ⊆ versions (tables c') ∧ content_wf c'.
Proof.
  intros Hc Hr Hk Ht Hst Hmax Hfr Hu Hs Hsi Hcur Hauth Hq.
  destruct (RevertContent_ok c i r ifRev s srow sz op Hc Hr Hk Ht Hst Hmax Hfr Hu Hs Hsi Hcur Hauth Hq)
    as [Hok Hwf']. cbn zeta in *.
  set (row := head_row _ _ _ _ _ _ _ _) in *. set (c' := installed c i r (versionID op) row) in *.
  assert (nodes (tables c') !! i = Some (install_head (versionID op) (revision r + 1) (recordedAt op) r)) as Hi'
    by (cbn; apply lookup_insert_eq).
  eexists c', _, _, _. split_and!; [exact Hok| | | | | |done|by apply version_by_id_ok| | |done].
  - apply nodeByIDTx_node_of. eauto.
  - unfold c'. by rewrite installed_content.
  - unfold node_of. by rewrite Hi'.
  - unfold node_of. by rewrite Hi'.
  - apply version_by_id_ok. cbn. apply lookup_insert_eq.
  - apply (version_by_id_ok (tables c')). cbn. rewrite lookup_insert_ne; [done|].
    intros He. destruct Hfr as [Hfr _]. congruence.
  - cbn. by apply insert_subseteq, Hfr.
Qed.

(** C21: a replacement can be undone: replacing a live file's content, at least
    two revisions short of the last one, with registered bytes and fresh
    identities, and then reverting to the version it had succeeds and gives the
    file back its hash, size and media type; all three versions stay on record,
    and the vault stays well formed.  A file at the last revision but one takes
    the replacement and refuses the reversion. *)
Theorem Replace_Revert_roundtrip c i r v0 row0 sz hash size mime op op2 physical generation c1 p :
  content_wf c → nodes (tables c) !! i = Some r → kind r = file → trashed_at r = None →
  (revision r < MaxInt64)%Z →
  current_version_id r = Some v0 → validateUUIDv4 v0 = Ok tt → versions (tables c) !! v0 = Some row0 →
  requirePhysicalAuthorityTx c (v_blob_hash row0) = Ok sz →
  fresh_operation (tables c) i op → fresh_operation (tables c) i op2 →
  versionID op ≠ versionID op2 → operationID op ≠ operationID op2 →
  (0 ≤ size)%Z → ValidString mime = true → (∀ v h m, queue_accepts v h m) →
  EnsureBlobTx c hash size physical generation = Ok c1 →
  authorizedPhysicalContentTx c1 hash = Ok p →
  ∃ c' n' x',
    ReplaceContent i (revision r) hash size mime op physical generation c = (c', Ok (n', x')) ∧
    if (Revision n' =? MaxInt64)%Z
    then RevertContent i (Revision n') v0 op2 c' = (c', Err ErrOther)
    else ∃ c'' n'' v'' src,
      RevertContent i (Revision n') v0 op2 c' = (c'', Ok (n'', v'', src)) ∧
      content_of n'' = content_of (node_of (tables c) i) ∧
      {[ v0; versionID op; versionID op2 ]} ⊆ dom (versions (tables c'')) ∧ content_wf c''.
Proof.
  intros Hc Hr Hk Ht Hmax Hcur Hu Hv0 Hauth Hfr Hfr2 Hne Hne2 Hsz Hm Hq He Hp.
  assert (stale (revision r) (revision r) = false) as Hst
    by (unfold stale; rewrite Z.eqb_refl; by rewrite andb_false_r).
  pose proof (ReplaceContent_ok c i r (revision r) hash size mime op physical generation c1 p
    Hc Hr Hk Ht Hst Hmax Hfr Hsz Hm (Hq _ _ _) He Hp) as Hrep. cbn zeta in Hrep.
  set (row := head_row i r hash size (stored_mime mime) content_replace None op) in *.
  set (c2 := installed c1 i r (versionID op) row) in *.
  assert (Revision (node_of (tables c2) i) = (revision r + 1)%Z) as Hrev
    by (unfold node_of; cbn; by rewrite lookup_insert_eq).
  destruct (EnsureBlobTx_content_wf root _ _ _ _ _ _ Hc He) as (Hc1 & Hb & _).
  destruct (EnsureBlobTx_tables _ _ _ _ _ _ He) as (Hn1 & _ & Hv1 & _).
  pose proof Hc as [Hwf Hh Hcat Ha].
  destruct (hw_current c Hh i r v0 Hr Hcur) as (row0' & Hrow0 & Hi0 & _).
  assert (row0' = row0) as -> by congruence.
  assert (content_wf c2) as Hc2 by (apply (installed_wf root); try done; [by rewrite Hn1|rewrite Hv1; apply Hfr]).
  assert (v0 ≠ versionID op) as Hv0ne by (intros ->; destruct Hfr; congruence).
  assert (requirePhysicalAuthorityTx c2 (v_blob_hash row0) = Ok sz) as Hauth2.
  { assert (requirePhysicalAuthorityTx c2 (v_blob_hash row0) = requirePhysicalAuthorityTx c1 (v_blob_hash row0))
      as -> by done.
    destruct (EnsureBlobTx_sound c hash size physical generation c1 Hcat He) as (Hau & Hsame & Hreg & _).
    destruct (decide (v_blob_hash row0 = hash)) as [Heq|Hneq]; [|by eapply registered_authority].
    rewrite Heq, Hau. f_equal. apply requirePhysicalAuthorityTx_Ok_iff in Hauth as [Hb0 _].
    rewrite Heq in Hb0. symmetry. by apply Hsame. }
  eexists c2, _, _. split; [exact Hrep|]. rewrite Hrev. destruct (Z.eqb_spec (revision r + 1) MaxInt64).
  { unfold RevertContent, withCatalogTx. rewrite Hu. cbn [negb is_Ok].
    rewrite nodeByIDTx_cases. cbn [tables c2 installed with_tables nodes]. rewrite lookup_insert_eq.
    cbn -[installContentVersionTx validateContentReplacementTarget].
    rewrite validateContentReplacementTarget_last; [done|done|done| |done]. cbn.
    unfold stale. rewrite Z.eqb_refl. by rewrite andb_false_r. }
  destruct (RevertContent_ok c2 i (install_head (versionID op) (revision r + 1) (recordedAt op) r)
    (Revision (node_of (tables c2) i)) v0 row0 sz op2) as [Hrev' Hwf'']; try done.
  - cbn. apply lookup_insert_eq.
  - rewrite Hrev. unfold stale. cbn. rewrite Z.eqb_refl. by rewrite andb_false_r.
  - cbn. lia.
  - split; cbn; rewrite Hv1.
    + rewrite lookup_insert_ne by done. apply Hfr2.
    + intros w wrow [[<- <-]|[_ Hw]]%lookup_insert_Some Hwi; [done|]. by eapply Hfr2.
  - cbn. rewrite Hv1, lookup_insert_ne by done. done.
  - cbn. congruence.
  - rewrite <- Hrev. eexists _, _, _, _. split_and!; [exact Hrev'| | |exact Hwf''].
    + rewrite installed_content by done. symmetry.
      exact (node_of_content c i r v0 row0 Hr Hcur Hv0 Hi0).
    + cbn. rewrite Hv1, !dom_insert_L. apply elem_of_dom_2 in Hv0. set_solver.
Qed.

(** What a successful replacement did. *)
Lemma replaceContentTx_Ok c i r ifRev hash size mime op physical generation c' a :
  content_wf c → nodes (tables c) !! i = Some r →
  replaceContentTx c (scanNode (tables c) i r) ifRev hash size mime op physical generation = Ok (c', a) →
  ∃ c1, kind r = file ∧ trashed_at r = None ∧ EnsureBlobTx c hash size physical generation = Ok c1 ∧
    versions (tables c) !! versionID op = None ∧ (0 ≤ size)%Z ∧
    c' = installed c1 i r (versionID op) (head_row i r hash size (stored_mime mime) content_replace None op) ∧
    content_wf c'.
Proof.
  intros Hc Hr Hrep. unfold replaceContentTx in Hrep. apply bind_Ok_iff in Hrep as (u & Hval & Hrep).
  unfold validateContentReplacementTarget in Hval. apply bind_Ok_iff in Hval as (u1 & Ht & Hval).
  apply bind_Ok_iff in Hval as (u2 & Hk & _). apply check_Ok_iff in Ht, Hk.
  apply bool_decide_eq_true in Ht. cbn in Ht.
  assert (kind r = file) as Hkf by (unfold IsDir in Hk; cbn in Hk; by destruct (kind r)).
  rewrite (ct_unaudited _ _ Hc) in Hrep. apply bind_Ok_iff in Hrep as (c1 & He & Hi).
  destruct (EnsureBlobTx_content_wf root _ _ _ _ _ _ Hc He) as (Hc1 & Hb & _).
  destruct (EnsureBlobTx_tables _ _ _ _ _ _ He) as (Hn1 & _ & Hv1 & _).
  assert (nodes (tables c1) !! i = Some r) as Hr1 by (by rewrite Hn1).
  change (scanNode (tables c) i r) with (scanNode (tables c) i r) in Hi.
  assert (∀ k s, installContentVersionTx c1 (scanNode (tables c) i r) hash size mime k s op =
    installContentVersionTx c1 (scanNode (tables c1) i r) hash size mime k s op) as Heq by done.
  rewrite Heq in Hi.
  pose proof (installed_content_wf root c1 i r hash size mime content_replace None op c' a
    Hc1 Hr1 Hkf eq_refl Hb Hi) as Hwf'.
  apply installContentVersionTx_Ok in Hi as (-> & Hf & Hsz); [|done]. rewrite Hv1 in Hf.
  exists c1. done.
Qed.

Lemma replaceContentTx_node c i r ifRev hash size mime op physical generation c' n v :
  content_wf c → nodes (tables c) !! i = Some r →
  replaceContentTx c (scanNode (tables c) i r) ifRev hash size mime op physical generation =
    Ok (c', (n, v)) →
  n = node_of (tables c') i ∧ content_of n = (hash, size, mime).
Proof.
  intros Hc Hr Hrep. pose proof Hrep as Hrep'.
  apply replaceContentTx_Ok in Hrep' as (c1 & _ & _ & _ & _ & _ & Hc' & _); [|done|done].
  unfold replaceContentTx in Hrep. apply bind_Ok_iff in Hrep as (u & _ & Hrep).
  rewrite (ct_unaudited _ _ Hc) in Hrep. apply bind_Ok_iff in Hrep as (c2 & _ & Hi).
  unfold installContentVersionTx, installContentVersionWithOperationTx in Hi.
  apply bind_Ok_iff in Hi as (c3 & _ & Hi). apply bind_Ok_iff in Hi as (u' & _ & Hi).
  apply bind_Ok_iff in Hi as (c4 & _ & Hi). apply bind_Ok_iff in Hi as (n' & Hn & Hi).
  apply bind_Ok_iff in Hi as (v' & _ & Hi). apply Ok_inj in Hi as [= -> -> _].
  assert (n = node_of (tables c') i) as Hnode.
  { rewrite nodeByIDTx_node_of in Hn; [by apply Ok_inj in Hn|]. rewrite Hc'. cbn.
    rewrite lookup_insert_eq. eauto. }
  split; [done|]. rewrite Hnode, Hc', installed_content by done. unfold version_content. cbn.
  by rewrite default_stored_mime.
Qed.

Lemma updateWatchSourceTx_Ok c w s hash size c' :
  updateWatchSourceTx c w s hash size = Ok c' →
  ∃ j h z, watch_sources c !! (w, s) = Some (j, h, z) ∧
    c' = with_watch_sources c (<[(w, s) := (j, hash, size)]> (watch_sources c)).
Proof.
  intros Hu. unfold updateWatchSourceTx in Hu. apply bind_Ok_iff in Hu as ([[j h] z] & Hw & Hu).
  apply from_lookup_Ok_iff in Hw. apply Ok_inj in Hu as <-. eauto.
Qed.

Lemma content_wf_watch c ws : content_wf c → content_wf (with_watch_sources c ws).
Proof. intros [Hw Hh Hl Ha]. split; [done| |by eapply catalog_wf_rows|done]. by eapply history_wf_blobs. Qed.

(** synchronising a watched source leaves its cursor at the bytes just seen and
    every other cursor alone.  When the source did not change since the last
    synchronisation, no node and no version changes, whatever content the node
    shows by now; when it did, the node shows the source's bytes afterwards,
    and a version was added exactly when it did not show them before. *)
Theorem SyncWatchedContent_effect c w s hash size mime op physical generation c' n v changed j ch cs r :
  content_wf c → watch_sources c !! (w, s) = Some (j, ch, cs) → nodes (tables c) !! j = Some r →
  SyncWatchedContent w s hash size mime op physical generation c = (c', Ok (n, v, changed)) →
  watch_sources c' = <[(w, s) := (j, hash, size)]> (watch_sources c) ∧
  content_wf c' ∧ ID n = j ∧ content_of n = content_of (node_of (tables c') j) ∧
  (changed = false → nodes (tables c') = nodes (tables c) ∧ versions (tables c') = versions (tables c)) ∧
  ((ch, cs) = (hash, size) → changed = false) ∧
  ((ch, cs) ≠ (hash, size) → BlobHash n = hash ∧ Size n = size ∧
     (changed = true ↔ (BlobHash (node_of (tables c) j), Size (node_of (tables c) j)) ≠ (hash, size))).
Proof.
  intros Hc Hw Hr Hs. pose proof Hc as [Hwf Hh Hcat Ha].
  assert (scanNode (tables c) j r = node_of (tables c) j) as Hnode by (unfold node_of; by rewrite Hr).
  unfold SyncWatchedContent in Hs. destruct (negb _); [done|]. destruct (negb _); [done|].
  unfold withCatalogTx, watchSourceTx in Hs. rewrite Hw in Hs. cbn [mbind result_bind from_lookup] in Hs.
  rewrite nodeByIDTx_cases, Hr in Hs. cbn [mbind result_bind from_lookup] in Hs.
  destruct (check _ ErrOther) as [u|] eqn:Hlive; cbn [mbind result_bind] in Hs; [|done].
  destruct (validateContentReplacementTarget _ _) as [u'|]; cbn [mbind result_bind] in Hs; [|done].
  assert (∀ c1, EnsureBlobTx c hash size physical generation = Ok c1 →
    content_wf c1 ∧ watch_sources c1 = watch_sources c ∧ nodes (tables c1) = nodes (tables c) ∧
    versions (tables c1) = versions (tables c)) as Hens.
  { intros c1 He. destruct (EnsureBlobTx_content_wf root _ _ _ _ _ _ Hc He) as (Hc1 & _).
    by destruct (EnsureBlobTx_tables _ _ _ _ _ _ He) as (Hn1 & _ & Hv1 & _ & _ & _ & Hw1 & _). }
  assert (∀ d, nodes d = nodes (tables c) → versions d = versions (tables c) →
    content_of (scanNode (tables c) j r) = content_of (node_of d j)) as Hsame.
  { intros d Hn Hv. unfold node_of, content_of, scanNode, current_version. by rewrite Hn, Hv, Hr. }
  destruct (_ && _) eqn:Hcur in Hs.
  - apply andb_true_iff in Hcur as [->%String.eqb_eq ->%Z.eqb_eq].
    destruct (EnsureBlobTx c hash size physical generation) as [c1|] eqn:He; cbn in Hs; [|done].
    destruct (Hens c1 eq_refl) as (Hc1 & Hw1 & Hn1 & Hv1).
    destruct (if negb _ then _ else _) as [[]|]; cbn in Hs; [|done]. injection Hs as <- <- <- <-.
    split_and!; [by rewrite Hw1, insert_id|done|done|by apply Hsame|done|done|done].
  - assert ((ch, cs) ≠ (hash, size)) as Hne.
    { intros [= -> ->]. by rewrite String.eqb_refl, Z.eqb_refl in Hcur. }
    destruct (_ && _) eqn:Hnow in Hs.
    + apply andb_true_iff in Hnow as [Hb%String.eqb_eq Hz%Z.eqb_eq].
      destruct (EnsureBlobTx c hash size physical generation) as [c1|] eqn:He; cbn in Hs; [|done].
      destruct (Hens c1 eq_refl) as (Hc1 & Hw1 & Hn1 & Hv1).
      destruct (updateWatchSourceTx c1 w s hash size) as [c2|] eqn:Hup; cbn in Hs; [|done].
      apply updateWatchSourceTx_Ok in Hup as (j' & h & z & Hj & ->). injection Hs as <- <- <- <-.
      rewrite Hw1 in *. assert (j' = j) as -> by congruence.
      split_and!; [done|by apply content_wf_watch|done|by apply Hsame|done|done|].
      intros _. split_and!; [done|done|]. rewrite <- Hnode, Hb, Hz. done.
    + destruct (replaceContentTx _ _ _ _ _ _ _ _ _) as [[c1 [n1 v1]]|] eqn:Hrep; cbn in Hs; [|done].
      destruct (updateWatchSourceTx c1 w s hash size) as [c2|] eqn:Hup; cbn in Hs; [|done].
      apply updateWatchSourceTx_Ok in Hup as (j' & h & z & Hj & ->). injection Hs as <- <- <- <-.
      pose proof (replaceContentTx_node _ _ _ _ _ _ _ _ _ _ _ _ _ Hc Hr Hrep) as (Hn1 & Hcont).
      apply replaceContentTx_Ok in Hrep as (c0 & _ & _ & He & _ & _ & Hc1 & Hwf'); [|done|done].
      destruct (Hens c0 He) as (_ & Hw0 & _ & _).
      assert (watch_sources c1 = watch_sources c) as Hw1 by (by rewrite Hc1).
      rewrite Hw1 in *. assert (j' = j) as -> by congruence.
      assert (BlobHash n1 = hash ∧ Size n1 = size) as [Hbh Hsz] by (by injection Hcont).
      subst n1.
      split_and!; [done|by apply content_wf_watch|by rewrite Hc1|done|done|done|].
      intros _. split_and!; [exact Hbh|exact Hsz|].
      rewrite <- Hnode. split; [|done]. intros _ He2.
      assert (BlobHash (scanNode (tables c) j r) = hash) as Hb by congruence.
      assert (Size (scanNode (tables c) j r) = size) as Hz by congruence.
      by rewrite Hb, Hz, String.eqb_refl, Z.eqb_refl in Hnow.
Qed.

End props.
