(* ===== verification/Ingest.v ===== *)
(** * Provenance facts (internal/store/provenance.go, metadata.go, ingest.go)

    Where a file came from is an immutable fact named by the SHA-256 digest of
    its canonical audit encoding.  This file holds the validators of ingest and
    provenance records and the computation of that name.

    Importing a durable blob as a file: the choice of a free name, the rule
    that recognizes a file already imported, and the single transaction that
    records file, version, provenance and watch together. *)
From S2P Require Import Prelude GoText Sha256 Names AuditEncoding AuditRegistry Tables Identity Blobs Versions Tree.

(** An error of the audit package wraps no sentinel of the store. *)
Definition audited {A} (m : ares A) : res A :=
  match m with Ok a => Ok a | Err AuditError => Err ErrOther end.

(** ** Times *)

(** [validateMetadataTime]: a UTC time in the fixed nine-digit form. *)
Definition validateMetadataTime (value : string) : res unit :=
  check (timestamp_canonical value) ErrOther.

(** [time.Parse(time.RFC3339Nano, value)] for a value that its UTC form
    reproduces: up to nine fractional digits without a trailing zero, then [Z].
    The result is the same instant in the nine-digit form. *)
Definition parse_rfc3339nano (value : string) : option string :=
  let s := bs value in
  let rest := drop 19 s in
  frac ← (match rest with
          | ["Z"%char] => Some []
          | "."%char :: rest =>
              let frac := take (length rest - 1) rest in
              if bool_decide (last rest = Some "Z"%char) && (1 <=? length frac)%nat
                 && (length frac <=? 9)%nat && negb (bool_decide (last frac = Some "0"%char))
              then Some frac else None
          | _ => None
          end);
  let padded := String.string_of_list_ascii
    (take 19 s ++ ["."%char] ++ frac ++ replicate (9 - length frac) "0"%char ++ ["Z"%char]) in
  if timestamp_canonical padded then Some padded else None.

Definition validateProvenanceTime (value : string) : res unit :=
  check (bool_decide (is_Some (parse_rfc3339nano value))) ErrOther.

(** ** Records *)

Section records.
Context `{Kit} `{Sha256}.

(** [Hash], on a record [Encode] accepts. *)
Definition Hash (record : AuditRecord) : ares bytes :=
  encoded ← AuditRegistry.Encode record; Ok (Sum256 encoded).

Definition hex_string (b : bytes) : string := String.string_of_list_ascii (hex_encode b).

Definition provenanceIdentity (value : provenance_row) : res string :=
  _ ← check (0 <? pv_node_id value)%Z ErrOther;
  ingestID ← audited (UUID (pv_ingest_id value));
  originalMTime ← (match pv_original_mtime value with
                   | None => Ok Absent
                   | Some mtime => t ← from_lookup (parse_rfc3339nano mtime) ErrOther;
                                   audited (Timestamp t)
                   end);
  supersedes ← (match pv_supersedes value with
                | None => Ok Absent
                | Some prior => audited (DigestHex prior)
                end);
  digest ← audited (Hash (MkRecord "provenance_identity" [
    ("node_id", Unsigned (pv_node_id value));
    ("ingest_id", ingestID);
    ("original_path", Bytes (bs (pv_original_path value)));
    ("original_mtime", originalMTime);
    ("supersedes", supersedes)]));
  Ok (hex_string digest).

Definition validateIngestRecord (id : string) (v : ingest_row) : res unit :=
  _ ← check (negb (String.eqb (in_source_kind v) "") && negb (String.eqb (in_source_desc v) "")) ErrOther;
  _ ← validateUUIDv4 id;
  _ ← check (ValidString (in_source_kind v)) ErrOther;
  _ ← check (ValidString (in_source_desc v)) ErrOther;
  validateMetadataTime (in_started_at v).

Definition validateProvenanceFields (v : provenance_row) : res unit :=
  _ ← check ((0 <? pv_node_id v)%Z && negb (String.eqb (pv_original_path v) "")) ErrOther;
  _ ← validateUUIDv4 (pv_ingest_id v);
  _ ← check (ValidString (pv_original_path v)) ErrOther;
  _ ← (match pv_original_mtime v with
       | Some mtime => validateProvenanceTime mtime
       | None => Ok tt
       end);
  match pv_supersedes v with
  | Some prior => check (parses_hash prior) ErrOther
  | None => Ok tt
  end.

Definition validateProvenanceRecord (identity : string) (v : provenance_row) : res unit :=
  _ ← check (negb (String.eqb identity "")) ErrOther;
  _ ← validateProvenanceFields v;
  _ ← check (parses_hash identity) ErrOther;
  want ← provenanceIdentity v;
  check (String.eqb identity want) ErrOther.

(** The order in which a Go map yields the three fields only decides which
    error is reported. *)
Definition validateProvenanceSourceFields (kind description reference mtime : string) : res unit :=
  _ ← check (negb (String.eqb kind "" || String.eqb description "" || String.eqb reference "")) ErrOther;
  _ ← check (ValidString kind && ValidString description && ValidString reference) ErrOther;
  if String.eqb mtime "" then Ok tt else validateProvenanceTime mtime.

End records.

(** ** The leaves of a node's provenance *)

(** No other fact supersedes it. *)
Definition active_fact (ps : gmap string provenance_row) (identity : string) : bool :=
  forallb (λ ip : string * provenance_row, negb (bool_decide (pv_supersedes ip.2 = Some identity)))
    (map_to_list ps).

(** [provenance AS p JOIN ingests AS i] restricted to the active facts of a
    node. *)
Definition active_provenance (c : catalog) (nodeID : Z) : list (provenance_row * ingest_row) :=
  omap (λ ip : string * provenance_row,
          if (pv_node_id ip.2 =? nodeID)%Z && active_fact (provenance c) ip.1
          then run ← ingests c !! pv_ingest_id ip.2; Some (ip.2, run)
          else None)
    (map_to_list (provenance c)).

Definition embeddedSourceKindPrefix : string := "embedded:".

Definition publicProvenanceSourceKind (kind : string) : string :=
  if HasPrefix kind embeddedSourceKindPrefix then sdrop (slen embeddedSourceKindPrefix) kind else kind.

Definition activeProvenanceMatchesTx (c : catalog) (nodeID : Z)
    (kind description reference mtime : string) : bool :=
  existsb (λ pr : provenance_row * ingest_row,
             String.eqb (in_source_kind pr.2) kind && String.eqb (in_source_desc pr.2) description
             && String.eqb (pv_original_path pr.1) reference
             && String.eqb (default "" (pv_original_mtime pr.1)) mtime)
    (active_provenance c nodeID).

(** * Ingest (internal/store/ingest.go, version.go *)

(** ** Runs *)

Record IngestRun := MkRun {
  runID : string;
  run_record : ingest_row;
  operationalWatch : bool;
}.

(** On the sixteen random bytes of the identity and the clock. *)
Definition beginIngest (sourceKind sourceDesc : string) (watch : bool) (random : bytes) (now : string) :
    res IngestRun :=
  let id := newUUIDv4 random in
  let record := MkIngestRow now sourceKind sourceDesc in
  _ ← validateIngestRecord id record;
  Ok (MkRun id record watch).

Definition BeginIngest (sourceKind sourceDesc : string) (random : bytes) (now : string) : res IngestRun :=
  beginIngest sourceKind sourceDesc (String.eqb sourceKind "watch") random now.

Definition BeginEmbeddedIngest (sourceKind sourceDesc : string) (random : bytes) (now : string) :
    res IngestRun :=
  _ ← check (negb (String.eqb sourceKind "")) ErrOther;
  _ ← check (ValidString sourceKind) ErrOther;
  beginIngest (embeddedSourceKindPrefix +:+ sourceKind) sourceDesc false random now.

(** [INSERT OR IGNORE INTO ingests], then the stored row must be the run's. *)
Definition ensureIngestRunTx (c : catalog) (run : IngestRun) : res (catalog * bool) :=
  _ ← validateIngestRecord (runID run) (run_record run);
  let inserted := negb (bool_decide (is_Some (ingests c !! runID run))) in
  let c := if inserted then with_ingests c (<[runID run := run_record run]> (ingests c)) else c in
  stored ← from_lookup (ingests c !! runID run) ErrOther;
  _ ← check (bool_decide (stored = run_record run)) ErrOther;
  Ok (c, inserted).

(** ** The idempotency rule *)

(** [filepath.Base] on a system whose separator is the slash. *)
Definition path_Base (p : string) : string :=
  if String.eqb p "" then "."
  else match last (splitPath p) with Some seg => seg | None => "/" end.

Section operations.
Context `{Normalizer} `{Kit} `{Sha256} `{TextQueue} `{AuditedContent}.

Definition sameOriginTx (c : catalog) (nodeID : Z) (nm : string) (allowUnknown : bool)
    (sourceKind : string) : bool :=
  let facts := active_provenance c nodeID in
  let from_here (pr : provenance_row * ingest_row) :=
    negb (HasPrefix (in_source_kind pr.2) embeddedSourceKindPrefix)
    && String.eqb (in_source_kind pr.2) sourceKind
    && match NormalizeName (path_Base (pv_original_path pr.1)) with
       | Ok origName => String.eqb origName nm
       | Err _ => false
       end in
  existsb from_here facts || (match facts with [] => true | _ => false end && allowUnknown).

(** [SELECT n.id, n.name, cv.blob_hash]: the live files of a directory with
    the content they show.  The statement has no order. *)
Definition live_files (c : catalog) (parentID : Z) : list (Z * string * string) :=
  omap (λ ir : Z * node_row,
          if bool_decide (parent_id ir.2 = Some parentID) && bool_decide (trashed_at ir.2 = None)
             && bool_decide (kind ir.2 = file)
          then v ← current_version_id ir.2; row ← versions (tables c) !! v;
               Some (ir.1, name ir.2, v_blob_hash row)
          else None)
    (map_to_list (nodes (tables c))).

(** One sibling: whether it carries the hash, and which ordinal it takes. *)
Definition scan_sibling (base ext blobHash : string)
    (acc : list (Z * bool) * list Z) (sib : Z * string * string) : res (list (Z * bool) * list Z) :=
  let '(sameHash, taken) := acc in
  let '(sibID, sibName, sibHash) := sib in
  match parseSuffix sibName base ext with
  | Err _ => Err Panics
  | Ok ordinal =>
      let inNameFamily := bool_decide (is_Some ordinal) in
      Ok (if String.eqb sibHash blobHash then sameHash ++ [(sibID, inNameFamily)] else sameHash,
          match ordinal with Some n => n :: taken | None => taken end)
  end.

(** The loop over the ordinals, from [n]: each one refused is a taken ordinal or
    the name of a row, so their number bounds the loop. *)
Fixpoint free_ordinal (ns : gmap Z node_row) (p : Z) (base ext : string) (taken : list Z)
    (fuel : nat) (n : Z) : res string :=
  match fuel with
  | 0 => Err Diverges
  | S fuel =>
      let candidate := suffixedName base ext n in
      if bool_decide (n ∈ taken) then free_ordinal ns p base ext taken fuel (n + 1)
      else match select (live_child p candidate) ns with
           | [] => Ok candidate
           | _ => free_ordinal ns p base ext taken fuel (n + 1)
           end
  end.

Inductive ingest_target :=
  | FreshName (nm : string)
  | AlreadyImported (id : Z).

Definition resolveIngestNameTx (c : catalog) (parentID : Z) (nm blobHash sourceKind : string) :
    res ingest_target :=
  let '(base, ext) := splitSuffix nm in
  '(sameHash, taken) ← foldM (scan_sibling base ext blobHash) ([], []) (live_files c parentID);
  match head (filter (λ cand : Z * bool, sameOriginTx c cand.1 nm cand.2 sourceKind = true) sameHash) with
  | Some cand => Ok (AlreadyImported cand.1)
  | None =>
      FreshName <$> free_ordinal (nodes (tables c)) parentID base ext taken
                      (S (length taken + size (nodes (tables c)))) 1
  end.

(** ** The transaction *)

(** Primary key, unique node and foreign key of [watch_sources]. *)
Definition insertWatchSourceTx (c : catalog) (watchName sourceRef : string) (nodeID : Z)
    (blobHash : string) (size : Z) : res catalog :=
  _ ← check (validateWatchSourceRecord watchName sourceRef nodeID blobHash size) ErrOther;
  _ ← check (negb (bool_decide (is_Some (watch_sources c !! (watchName, sourceRef))))) ErrOther;
  _ ← check (forallb (λ kw : (string * string) * (Z * string * Z), negb (kw.2.1.1 =? nodeID)%Z)
               (map_to_list (watch_sources c))) ErrOther;
  _ ← check (bool_decide (is_Some (nodes (tables c) !! nodeID))) ErrOther;
  Ok (with_watch_sources c
        (<[(watchName, sourceRef) := (nodeID, blobHash, size)]> (watch_sources c))).

(** Primary key and foreign keys of [provenance]; a fact without a
    predecessor trips neither the trigger nor the successor index. *)
Definition insert_provenance (c : catalog) (identity : string) (v : provenance_row) : res catalog :=
  _ ← check (negb (bool_decide (is_Some (provenance c !! identity)))) ErrOther;
  _ ← check (bool_decide (is_Some (nodes (tables c) !! pv_node_id v))) ErrOther;
  _ ← check (bool_decide (is_Some (ingests c !! pv_ingest_id v))) ErrOther;
  Ok (with_provenance c (<[identity := v]> (provenance c))).

(** The audited variant, see [AuditedTree]: what it writes after the file. *)
Class AuditedIngest := {
  persistAuditedNodeCreation :
    catalog → IngestRun → string → provenance_row → bool → contentVersionOperation →
    Node → Node → Node → ContentVersion → res catalog;
}.

(** A receipt whose version and physical content may be zero. *)
Definition ingest_receipt : Type := Node * option ContentVersion * option PhysicalContent.

Definition recorded_mtime (originalMtime : string) : option string :=
  if String.eqb originalMtime "" then None else Some originalMtime.

(** The exact variant only looks whether the name is taken. *)
Definition ingest_target_of (c : catalog) (exact : bool) (parentID : Z)
    (nm blobHash sourceKind : string) : res ingest_target :=
  if exact then
    match select (live_child parentID nm) (nodes (tables c)) with
    | [] => Ok (FreshName nm)
    | _ => Err ErrExists
    end
  else resolveIngestNameTx c parentID nm blobHash sourceKind.

(** The idempotent branch: the bytes are registered again, nothing else. *)
Definition adopt_imported (c : catalog) (id : Z) (blobHash : string) (size : Z)
    (completeReceipt : bool) (physical : list BlobPhysical) (generation : string) :
    res (catalog * (ingest_receipt * bool)) :=
  c ← EnsureBlobTx c blobHash size physical generation;
  n ← nodeByIDTx (tables c) id;
  if negb completeReceipt then Ok (c, (n, None, None, false))
  else
    v ← version_by_id (tables c) (CurrentVersionID n);
    p ← authorizedPhysicalContentTx c blobHash;
    Ok (c, (n, Some v, Some p, false)).

Context `{AuditedIngest}.

(** The creating branch. *)
Definition import_new (c : catalog) (run : IngestRun) (parentID : Z) (finalName blobHash : string)
    (size : Z) (mimeType originalPath : string) (originalMtime : option string)
    (completeReceipt : bool) (op : contentVersionOperation) (physical : list BlobPhysical)
    (generation : string) : res (catalog * (ingest_receipt * bool)) :=
  let active := audit_active (tables c) in
  prior ← (if active then
             prior ← liveDirTx (tables c) parentID;
             _ ← loadAuditedFileAuthority c parentID;
             Ok (Some prior)
           else Ok None);
  '(c, ingestAdded) ← ensureIngestRunTx c run;
  '(c, (n, v)) ← createFileWithOperationTx c parentID finalName blobHash size mimeType op physical
                   generation;
  let fact := MkProvenanceRow (ID n) (runID run) originalPath originalMtime None in
  identity ← provenanceIdentity fact;
  _ ← validateProvenanceRecord identity fact;
  c ← insert_provenance c identity fact;
  c ← (if operationalWatch run
       then insertWatchSourceTx c (in_source_desc (run_record run)) originalPath (ID n) blobHash size
       else Ok c);
  c ← (match prior with
       | Some prior =>
           resultingParent ← nodeByIDTx (tables c) parentID;
           persistAuditedNodeCreation c run identity fact ingestAdded op prior resultingParent n v
       | None => Ok c
       end);
  if completeReceipt then p ← authorizedPhysicalContentTx c blobHash; Ok (c, (n, Some v, Some p, true))
  else Ok (c, (n, Some v, None, true)).

Definition ingestFile (run : IngestRun) (parentID : Z) (nm blobHash : string) (size : Z)
    (mimeType originalPath originalMtime : string) (exact completeReceipt : bool)
    (op : contentVersionOperation) (physical : list BlobPhysical) (generation : string)
    (c : catalog) : catalog * res (ingest_receipt * bool) :=
  match (nm ← NormalizeName nm;
         _ ← validateIngestRecord (runID run) (run_record run);
         _ ← validateProvenanceFields
               (MkProvenanceRow 1 (runID run) originalPath (recorded_mtime originalMtime) None);
         Ok nm) with
  | Err e => (c, Err e)
  | Ok nm =>
      withCatalogTx (λ c,
        target ← ingest_target_of c exact parentID nm blobHash (in_source_kind (run_record run));
        match target with
        | AlreadyImported id =>
            adopt_imported c id blobHash size completeReceipt physical generation
        | FreshName finalName =>
            import_new c run parentID finalName blobHash size mimeType originalPath
              (recorded_mtime originalMtime) completeReceipt op physical generation
        end) c
  end.

Definition IngestFile (run : IngestRun) (parentID : Z) (nm blobHash : string) (size : Z)
    (mimeType originalPath originalMtime : string) (op : contentVersionOperation)
    (physical : list BlobPhysical) (generation : string) (c : catalog) : catalog * res (Node * bool) :=
  let '(c, r) := ingestFile run parentID nm blobHash size mimeType originalPath originalMtime
                   false false op physical generation c in
  (c, (λ ra : ingest_receipt * bool, (ra.1.1.1, ra.2)) <$> r).

Definition IngestFileExact (run : IngestRun) (parentID : Z) (nm blobHash : string) (size : Z)
    (mimeType originalPath originalMtime : string) (op : contentVersionOperation)
    (physical : list BlobPhysical) (generation : string) (c : catalog) : catalog * res Node :=
  let '(c, r) := ingestFile run parentID nm blobHash size mimeType originalPath originalMtime
                   true false op physical generation c in
  (c, (λ ra : ingest_receipt * bool, ra.1.1.1) <$> r).

Definition IngestFileExactWithReceipt (run : IngestRun) (parentID : Z) (nm blobHash : string) (size : Z)
    (mimeType originalPath originalMtime : string) (op : contentVersionOperation)
    (physical : list BlobPhysical) (generation : string) (c : catalog) : catalog * res ingest_receipt :=
  let '(c, r) := ingestFile run parentID nm blobHash size mimeType originalPath originalMtime
                   true true op physical generation c in
  (c, fst <$> r).

(** version.go *)
Definition ConfirmIngestedContentWithReceipt (nodeID ifRev : Z) (blobHash : string) (size : Z)
    (mimeType sourceKind sourceDescription sourceReference sourceModifiedAt : string)
    (physical : list BlobPhysical) (generation : string) (c : catalog) : catalog * res ContentWriteReceipt :=
  match (_ ← check (0 <=? size)%Z ErrOther;
         _ ← check (ValidString mimeType) ErrOther;
         validateProvenanceSourceFields sourceKind sourceDescription sourceReference sourceModifiedAt) with
  | Err e => (c, Err e)
  | Ok _ =>
      withCatalogTx (λ c,
        n ← nodeByIDTx (tables c) nodeID;
        '(c, receipt) ← confirmContentWithReceiptTx c n ifRev blobHash size mimeType physical generation;
        _ ← check (activeProvenanceMatchesTx c nodeID (embeddedSourceKindPrefix +:+ sourceKind)
                     sourceDescription sourceReference sourceModifiedAt) ErrProvenanceMismatch;
        Ok (c, receipt)) c
  end.

End operations.
