(* ===== verification/IngestFacts.v ===== *)
(** * Facts about the choice of an import name

    The scan of a directory's files, the loop over candidate names, and what
    [resolveIngestNameTx] answers.

    Every provenance fact and every watch names a file that exists; an import
    keeps that and touches nothing else of the catalog's sources. *)
From S2P Require Import Prelude GoText Sha256 Names AuditEncoding AuditRegistry Tables Tree TreeInv TreeFacts TrashFacts Identity Blobs Versions Ingest Listing VersionFacts.

(** ** The loop over candidate names *)

(** [n] is not the ordinal the loop may stop at. *)
Definition refused (ns : gmap Z node_row) (p : Z) (base ext : string) (tk : list Z) (n : Z) : Prop :=
  n ∈ tk ∨ taken ns p (suffixedName base ext n).

Lemma free_ordinal_Ok ns p base ext tk fuel n nm :
  free_ordinal ns p base ext tk fuel n = Ok nm →
  ∃ m, (n ≤ m)%Z ∧ nm = suffixedName base ext m ∧ ¬ refused ns p base ext tk m ∧
    ∀ k, (n ≤ k < m)%Z → refused ns p base ext tk k.
Proof.
  unfold refused. revert n; induction fuel as [|fuel IH]; intros n Hn; simpl in Hn; [done|].
  assert (refused ns p base ext tk n → free_ordinal ns p base ext tk fuel (n + 1) = Ok nm →
    ∃ m, (n ≤ m)%Z ∧ nm = suffixedName base ext m ∧ ¬ refused ns p base ext tk m ∧
      ∀ k, (n ≤ k < m)%Z → refused ns p base ext tk k) as Hnext.
  { intros Hr (m & Hm & -> & Hfree & Hall)%IH. exists m. split_and!; [lia|done|done|].
    intros k Hk. destruct (decide (k = n)) as [->|]; [done|]. apply Hall. lia. }
  case_bool_decide as Htk; [by apply Hnext; [left|]|].
  destruct (select (live_child p (suffixedName base ext n)) ns) as [|i l] eqn:Hs.
  - apply Ok_inj in Hn as <-. exists n. split_and!; [lia|done| |intros; lia].
    rewrite taken_select, Hs. naive_solver.
  - apply Hnext; [|done]. right. by rewrite taken_select, Hs.
Qed.

(** Each refused ordinal uses up a taken ordinal or a row. *)
Lemma free_ordinal_total ns p base ext tk fuel n rows ords :
  NoDup rows → NoDup ords →
  (∀ i, i ∈ rows → ∃ r k, ns !! i = Some r ∧ (k < n)%Z ∧ name r = suffixedName base ext k) →
  (∀ o, o ∈ ords → o ∈ tk ∧ (o < n)%Z) →
  (length tk + size ns < length rows + length ords + fuel)%nat →
  ∃ nm, free_ordinal ns p base ext tk fuel n = Ok nm.
Proof.
  revert n rows ords; induction fuel as [|fuel IH]; intros n rows ords Hnr Hno Hrows Hords Hlen.
  { exfalso. assert (list_to_set rows ⊆ (dom ns : gset Z)) as Hsub.
    { intros i Hi. apply elem_of_list_to_set, Hrows in Hi as (r & _ & Hi & _). apply elem_of_dom. eauto. }
    apply subseteq_size in Hsub. rewrite size_dom, size_list_to_set in Hsub by done.
    assert (ords ⊆+ tk) as Hsub2%submseteq_length by (apply NoDup_submseteq; [done|naive_solver]). lia. }
  assert (∀ i, i ∈ rows → ∃ r k, ns !! i = Some r ∧ (k < n + 1)%Z ∧ name r = suffixedName base ext k) as Hrows'.
  { intros i (r & k & ? & ? & ?)%Hrows. exists r, k. split_and!; [done|lia|done]. }
  assert (∀ o, o ∈ ords → o ∈ tk ∧ (o < n + 1)%Z) as Hords'.
  { intros o [? ?]%Hords. split; [done|lia]. }
  simpl. case_bool_decide as Htk.
  - apply (IH (n + 1)%Z rows (n :: ords)); [done| |done| |simpl; lia].
    + apply NoDup_cons. split; [|done]. intros [_ Hn]%Hords. lia.
    + intros o [->|Ho]%elem_of_cons; [split; [done|lia]|by apply Hords'].
  - destruct (select _ ns) as [|i l] eqn:Hs; [eauto|].
    assert (i ∈ select (live_child p (suffixedName base ext n)) ns) as Hi by (rewrite Hs; left).
    apply elem_of_select in Hi as (r & Hr & Hc). apply live_child_true in Hc as (_ & Hn & _).
    apply (IH (n + 1)%Z (i :: rows) ords); [|done| |done|simpl; lia].
    + apply NoDup_cons. split; [|done]. intros (r' & k & Hr' & Hk & Hn')%Hrows.
      assert (r' = r) as -> by congruence. rewrite Hn in Hn'. apply suffixedName_inj in Hn'. lia.
    + intros j [->|Hj]%elem_of_cons; [exists r, n; split_and!; [done|lia|done]|by apply Hrows'].
Qed.

(** ** The scan of the siblings *)

Lemma elem_of_live_files c p i nm h :
  (i, nm, h) ∈ live_files c p ↔
  ∃ r v row, nodes (tables c) !! i = Some r ∧ parent_id r = Some p ∧ trashed_at r = None ∧
    kind r = file ∧ name r = nm ∧ current_version_id r = Some v ∧
    versions (tables c) !! v = Some row ∧ v_blob_hash row = h.
Proof.
  unfold live_files. rewrite list_elem_of_omap. split.
  - intros ([j r] & Hj%elem_of_map_to_list & Hf). cbn [fst snd] in Hf.
    destruct (_ && _) eqn:Hc; [|done]. rewrite !andb_true_iff, !bool_decide_eq_true in Hc.
    destruct (current_version_id r) as [v|] eqn:Hv; [|done]. cbn in Hf.
    destruct (versions (tables c) !! v) as [row|] eqn:Hrow; [|done]. cbn in Hf. simplify_eq.
    exists r, v, row. naive_solver.
  - intros (r & v & row & Hi & Hp & Ht & Hk & <- & Hv & Hrow & <-). exists (i, r).
    split; [by apply elem_of_map_to_list|]. cbn. rewrite Hp, Ht, Hk, Hv. cbn. rewrite Hrow.
    by rewrite !bool_decide_true.
Qed.

(** What the scan collects from a list of siblings none of which panics. *)
Definition family (base ext nm : string) : bool :=
  match parseSuffix nm base ext with Ok (Some _) => true | _ => false end.
Definition same_hash (base ext hash : string) (sibs : list (Z * string * string)) : list (Z * bool) :=
  omap (λ s : Z * string * string,
          if String.eqb s.2 hash then Some (s.1.1, family base ext s.1.2) else None) sibs.
Definition parses (base ext : string) (s : Z * string * string) : Prop :=
  is_Ok (parseSuffix s.1.2 base ext) = true.

Lemma scan_siblings base ext hash sibs sh tk :
  (Forall (parses base ext) sibs →
    ∃ tk', foldM (scan_sibling base ext hash) (sh, tk) sibs = Ok (sh ++ same_hash base ext hash sibs, tk')
      ∧ ∀ n, n ∈ tk' ↔ n ∈ tk ∨ ∃ s, s ∈ sibs ∧ parseSuffix s.1.2 base ext = Ok (Some n)) ∧
  (∀ e, foldM (scan_sibling base ext hash) (sh, tk) sibs = Err e → e = Panics) ∧
  (∀ x, foldM (scan_sibling base ext hash) (sh, tk) sibs = Ok x → Forall (parses base ext) sibs).
Proof.
  revert sh tk; induction sibs as [|[[i nm] h] sibs IH]; intros sh tk.
  { cbn. split_and!; [|done|intros; constructor]. intros _. exists tk. rewrite app_nil_r.
    split; [done|]. intros n. split; [by left|]. intros [?|(s & Hs%elem_of_nil & _)]; done. }
  cbn [foldM scan_sibling]. destruct (parseSuffix nm base ext) as [o|e] eqn:Hp.
  2:{ cbn. split_and!; [|naive_solver|done]. intros [Hx _]%Forall_cons. unfold parses in Hx. cbn in Hx.
      by rewrite Hp in Hx. }
  set (sh1 := if String.eqb h hash then _ else sh). set (tk1 := match o with Some n => n :: tk | _ => tk end).
  destruct (IH sh1 tk1) as (Hok & Herr & Hall). cbn [mbind result_bind]. split_and!; [|done|].
  - intros [_ Hx]%Forall_cons. destruct (Hok Hx) as (tk' & -> & Htk'). exists tk'. split.
    + f_equal. f_equal. subst sh1. unfold same_hash. cbn [omap list_omap fst snd].
      destruct (String.eqb h hash); [|done]. rewrite <- app_assoc. cbn. unfold family. rewrite Hp.
      by destruct o.
    + intros n. rewrite Htk'. subst tk1. setoid_rewrite elem_of_cons. split.
      * intros [Hn|(s & Hs & Hps)]; [|right; exists s; auto].
        destruct o as [m|]; [|by left]. apply elem_of_cons in Hn as [->|Hn]; [|by left].
        right. exists (i, nm, h). auto.
      * intros [Hn|(s & [->|Hs] & Hps)]; [left| |right; eauto].
        -- destruct o; [by right|done].
        -- left. cbn in Hps. rewrite Hp in Hps. injection Hps as ->. left.
  - intros x Hx. constructor; [unfold parses; cbn; by rewrite Hp|by eapply Hall].
Qed.

Lemma elem_of_same_hash base ext hash sibs i b :
  (i, b) ∈ same_hash base ext hash sibs ↔ ∃ nm, (i, nm, hash) ∈ sibs ∧ b = family base ext nm.
Proof.
  unfold same_hash. rewrite list_elem_of_omap. split.
  - intros ([[j nm] h] & Hs & Hf). cbn in Hf. destruct (String.eqb_spec h hash) as [->|]; naive_solver.
  - intros (nm & Hs & ->). exists (i, nm, hash). cbn. by rewrite String.eqb_refl.
Qed.

(** ** [resolveIngestNameTx] *)

Section resolve.
Context `{Normalizer}.

(** An ordinal below the chosen one is the name of a live node, or some live
    file's name reads back as it. *)
Definition claimed (c : catalog) (p : Z) (base ext : string) (k : Z) : Prop :=
  taken (nodes (tables c)) p (suffixedName base ext k) ∨
  ∃ s, s ∈ live_files c p ∧ parseSuffix s.1.2 base ext = Ok (Some k).

(** What the answer says about the directory. *)
Definition resolved (c : catalog) (p : Z) (nm hash source : string) (t : ingest_target) : Prop :=
  let base := (splitSuffix nm).1 in
  let ext := (splitSuffix nm).2 in
  match t with
  | AlreadyImported i =>
      ∃ snm, (i, snm, hash) ∈ live_files c p ∧ sameOriginTx c i nm (family base ext snm) source = true
  | FreshName f =>
      (∀ i snm, (i, snm, hash) ∈ live_files c p →
         sameOriginTx c i nm (family base ext snm) source = false) ∧
      ∃ m, (1 ≤ m)%Z ∧ f = suffixedName base ext m ∧ ¬ taken (nodes (tables c)) p f ∧
        ∀ k, (1 ≤ k < m)%Z → claimed c p base ext k
  end.

Lemma resolve_spec c p nm hash source :
  (Forall (parses (splitSuffix nm).1 (splitSuffix nm).2) (live_files c p) →
     ∃ t, resolveIngestNameTx c p nm hash source = Ok t) ∧
  (∀ e, resolveIngestNameTx c p nm hash source = Err e → e = Panics) ∧
  (∀ t, resolveIngestNameTx c p nm hash source = Ok t →
     Forall (parses (splitSuffix nm).1 (splitSuffix nm).2) (live_files c p) ∧ resolved c p nm hash source t).
Proof.
  unfold resolveIngestNameTx, resolved. destruct (splitSuffix nm) as [base ext] eqn:Hsp. cbn [fst snd].
  destruct (scan_siblings base ext hash (live_files c p) [] []) as (Hok & Herr & Hall).
  destruct (foldM _ _ _) as [[sh tk]|e] eqn:Hscan; cbn [mbind result_bind].
  2:{ split_and!; [intros Hf; by destruct (Hok Hf) as (? & ? & _)|naive_solver|done]. }
  pose proof (Hall _ eq_refl) as Hpar. destruct (Hok Hpar) as (tk' & [= -> ->] & Htk). cbn [app].
  destruct (free_ordinal_total (nodes (tables c)) p base ext tk'
    (S (length tk' + size (nodes (tables c)))) 1 [] []) as (f & Hf); [constructor..| | |cbn; lia|].
  1,2: by intros ? ?%elem_of_nil.
  destruct (head (filter _ _)) as [[i b]|] eqn:Hh.
  - split_and!; [eauto|done|]. intros t [= <-]. split; [done|].
    apply head_filter_Some in Hh as [Ho (snm & Hs & ->)%elem_of_same_hash]. eauto.
  - rewrite Hf. cbn. split_and!; [eauto|done|]. intros t [= <-]. split; [done|].
    pose proof (head_filter_None _ _ Hh) as Hno. split.
    + intros i snm Hs. apply not_true_is_false.
      apply (Hno (i, family base ext snm)). apply elem_of_same_hash. eauto.
    + apply free_ordinal_Ok in Hf as (m & Hm & -> & Hfree & Hcl). exists m.
      split_and!; [done|done| |].
      * intros Ht. apply Hfree. by right.
      * intros k Hk. destruct (Hcl k Hk) as [[?%elem_of_nil|Hs]%Htk|Ht]; [done|by right|by left].
Qed.
End resolve.

(** * The invariant of ingest records, and what an import does *)

Section inv.
Context `{Sha256}.

Definition is_file (c : catalog) (i : Z) : Prop :=
  ∃ r, nodes (tables c) !! i = Some r ∧ kind r = file.

Record ingest_wf (c : catalog) : Prop := {
  iw_node id pv : provenance c !! id = Some pv → is_file c (pv_node_id pv);
  iw_run id pv : provenance c !! id = Some pv → is_Some (ingests c !! pv_ingest_id pv);
  iw_identity id pv : provenance c !! id = Some pv → provenanceIdentity pv = Ok id;
  iw_root id pv : provenance c !! id = Some pv → pv_supersedes pv = None;
  iw_watch key i h s : watch_sources c !! key = Some (i, h, s) → is_file c i ∧ (0 ≤ s)%Z;
  iw_unique k1 k2 w1 w2 : watch_sources c !! k1 = Some w1 → watch_sources c !! k2 = Some w2 →
    w1.1.1 = w2.1.1 → k1 = k2;
}.

Lemma ingest_wf_frame c c' :
  ingest_wf c → provenance c' = provenance c → watch_sources c' = watch_sources c →
  ingests c ⊆ ingests c' → (∀ i, is_file c i → is_file c' i) → ingest_wf c'.
Proof.
  intros [] Hp Hw Hi Hf. split; rewrite ?Hp, ?Hw; eauto.
  - intros id pv Hpv. destruct (iw_run0 id pv Hpv) as [run Hrun]. exists run. by eapply lookup_weaken.
  - intros key i h s Hs. destruct (iw_watch0 key i h s Hs). eauto.
Qed.

Lemma ingest_wf_cascade c d :
  ingest_wf c →
  (∀ i r r', nodes (tables c) !! i = Some r → nodes d !! i = Some r' → kind r' = kind r) →
  ingest_wf (cascade_nodes c d).
Proof.
  intros [] Hk.
  assert (∀ i, is_file c i → is_Some (nodes d !! i) → is_file (cascade_nodes c d) i) as Hf.
  { intros i (r & Hr & Hf) [r' Hr']. exists r'. split; [done|]. by rewrite (Hk i r r'). }
  split; cbn.
  - intros id pv [Hpv Hd]%map_lookup_filter_Some. eauto.
  - intros id pv [Hpv _]%map_lookup_filter_Some. eauto.
  - intros id pv [Hpv _]%map_lookup_filter_Some. eauto.
  - intros id pv [Hpv _]%map_lookup_filter_Some. eauto.
  - intros key i h s [Hs Hd]%map_lookup_filter_Some. cbn in Hd.
    destruct (iw_watch0 key i h s Hs). eauto.
  - intros k1 k2 w1 w2 [H1 _]%map_lookup_filter_Some [H2 _]%map_lookup_filter_Some. eauto.
Qed.

(** One more fact about a file, from a recorded run. *)
Lemma ingest_wf_fact c id pv :
  ingest_wf c → is_file c (pv_node_id pv) → is_Some (ingests c !! pv_ingest_id pv) →
  provenanceIdentity pv = Ok id → pv_supersedes pv = None →
  ingest_wf (with_provenance c (<[id := pv]> (provenance c))).
Proof.
  intros [] Hf Hr Hid Hs. split; cbn; [| | | |done|done].
  all: intros id' pv' [[<- <-]|[_ ?]]%lookup_insert_Some; eauto.
Qed.

(** One more watch, on a file no watch names. *)
Lemma ingest_wf_watch c key i h s :
  ingest_wf c → is_file c i → (0 ≤ s)%Z →
  (∀ k w, watch_sources c !! k = Some w → w.1.1 = i → k = key) →
  ingest_wf (with_watch_sources c (<[key := (i, h, s)]> (watch_sources c))).
Proof.
  intros [] Hf Hs Hu. split; cbn; [done..| |].
  - intros k j h' s' [[<- [= <- <- <-]]|[_ Hk]]%lookup_insert_Some; [by split|by eapply iw_watch0].
  - intros k1 k2 w1 w2 [[<- <-]|[Hn1 H1]]%lookup_insert_Some [[<- <-]|[Hn2 H2]]%lookup_insert_Some Hw;
      [done|..]; cbn in Hw.
    + symmetry. by eapply Hu.
    + by eapply Hu.
    + by eapply iw_unique0.
Qed.
End inv.

(** ** Registration and creation leave the sources alone *)

Section sources.
Context `{Normalizer} `{Kit} `{TextQueue} (root : Z).

Lemma EnsureBlobTx_sources c hash size physical generation c' :
  EnsureBlobTx c hash size physical generation = Ok c' →
  ingests c' = ingests c ∧ provenance c' = provenance c ∧ primaryStoreID c' = primaryStoreID c.
Proof.
  intros He. apply EnsureBlobTx_shape in He as (p & cs & _ & _ & _ & _ & _ & Hs). cbn in Hs.
  by destruct Hs as [[-> _]| ->].
Qed.

Lemma createFileTx_sources c p nm hash size mimeType op physical generation c' a :
  createFileTx c p nm hash size mimeType op physical generation = Ok (c', a) →
  ingests c' = ingests c ∧ provenance c' = provenance c ∧ primaryStoreID c' = primaryStoreID c.
Proof.
  unfold createFileTx, createFileWithOperationTx. intros Hc.
  apply bind_Ok_iff in Hc as (u & _ & Hc). apply bind_Ok_iff in Hc as (pn & _ & Hc).
  apply bind_Ok_iff in Hc as (c1 & Hc1%EnsureBlobTx_sources & Hc).
  apply bind_Ok_iff in Hc as ([c2 i] & Hc2 & Hc). unfold on_tables in Hc2.
  apply bind_Ok_iff in Hc2 as ([d2 j] & _ & Hc2). apply Ok_inj in Hc2 as [= <- _].
  apply bind_Ok_iff in Hc as (c3 & Hc3 & Hc). apply insert_version_Ok in Hc3 as (-> & _).
  apply bind_Ok_iff in Hc as (u' & _ & Hc). apply bind_Ok_iff in Hc as (c4 & Hc4 & Hc).
  unfold on_db in Hc4. apply bind_Ok_iff in Hc4 as (d4 & _ & Hc4). apply Ok_inj in Hc4 as <-.
  apply bind_Ok_iff in Hc as (n & _ & Hc). apply bind_Ok_iff in Hc as (v & _ & Hc).
  by apply Ok_inj in Hc as [= <- _].
Qed.
End sources.

(** ** The creating branch *)

Section import.
Context `{Normalizer} `{Kit} `{Sha256} `{TextQueue} `{AuditedContent} `{AuditedIngest} (root : Z).

Lemma ensureIngestRunTx_Ok c run c' b :
  ensureIngestRunTx c run = Ok (c', b) →
  c' = with_ingests c (<[runID run := run_record run]> (ingests c)) ∧
  (∀ r, ingests c !! runID run = Some r → r = run_record run).
Proof.
  unfold ensureIngestRunTx. intros He. apply bind_Ok_iff in He as (u & _ & He).
  apply bind_Ok_iff in He as (st & Hst & He). apply from_lookup_Ok_iff in Hst.
  apply bind_Ok_iff in He as (u1 & Heq & He). apply check_Ok_iff, bool_decide_eq_true in Heq as ->.
  apply Ok_inj in He as [= <- _]. case_bool_decide as Hin; cbn in *.
  - split; [|congruence]. rewrite insert_id by done. by destruct c.
  - split; [done|]. intros r Hr. destruct Hin. eauto.
Qed.

Lemma insert_provenance_Ok c id pv c' :
  insert_provenance c id pv = Ok c' →
  c' = with_provenance c (<[id := pv]> (provenance c)) ∧ provenance c !! id = None.
Proof.
  unfold insert_provenance. intros He. apply bind_Ok_iff in He as (u & Hid & He).
  apply check_Ok_iff, negb_true_iff, bool_decide_eq_false, eq_None_not_Some in Hid.
  apply bind_Ok_iff in He as (u1 & _ & He). apply bind_Ok_iff in He as (u2 & _ & He).
  by apply Ok_inj in He as <-.
Qed.

Lemma insertWatchSourceTx_Ok c watch ref i hash size c' :
  insertWatchSourceTx c watch ref i hash size = Ok c' →
  c' = with_watch_sources c (<[(watch, ref) := (i, hash, size)]> (watch_sources c)) ∧
  watch_sources c !! (watch, ref) = None ∧
  (∀ k w, watch_sources c !! k = Some w → w.1.1 ≠ i) ∧ (0 ≤ size)%Z.
Proof.
  unfold insertWatchSourceTx. intros He. apply bind_Ok_iff in He as (u & Hv & He).
  apply bind_Ok_iff in He as (u1 & Hk & He).
  apply check_Ok_iff, negb_true_iff, bool_decide_eq_false, eq_None_not_Some in Hk.
  apply bind_Ok_iff in He as (u2 & Hall & He). apply check_Ok_iff in Hall. rewrite forallb_forall in Hall.
  apply bind_Ok_iff in He as (u3 & _ & He). apply Ok_inj in He as <-. split_and!; [done|done| |].
  - intros k w Hw Hi. apply elem_of_map_to_list, list_elem_of_In, Hall in Hw. cbn in Hw.
    by rewrite Hi, Z.eqb_refl in Hw.
  - apply check_Ok_iff in Hv. unfold validateWatchSourceRecord in Hv.
    rewrite !andb_true_iff, Z.leb_le in Hv. tauto.
Qed.

(** The run is recorded before the file. *)
Definition run_recorded (c : catalog) (run : IngestRun) : catalog :=
  with_ingests c (<[runID run := run_record run]> (ingests c)).

Lemma import_new_Ok c run p f hash size mime path mt compl op ph g c' rc added :
  audit_active (tables c) = false →
  import_new c run p f hash size mime path mt compl op ph g = Ok (c', (rc, added)) →
  added = true ∧ (∀ r, ingests c !! runID run = Some r → r = run_record run) ∧
  ∃ c1 n v id,
    createFileTx (run_recorded c run) p f hash size mime op ph g = Ok (c1, (n, v)) ∧ rc.1.1 = n ∧
    let pv := MkProvenanceRow (ID n) (runID run) path mt None in
    let c2 := with_provenance c1 (<[id := pv]> (provenance c1)) in
    let key := (in_source_desc (run_record run), path) in
    provenanceIdentity pv = Ok id ∧ provenance c1 !! id = None ∧
    ((operationalWatch run = false ∧ c' = c2) ∨
     (operationalWatch run = true ∧ c' = with_watch_sources c2 (<[key := (ID n, hash, size)]> (watch_sources c1)) ∧
      watch_sources c1 !! key = None ∧ (0 ≤ size)%Z ∧
      ∀ k w, watch_sources c1 !! k = Some w → w.1.1 ≠ ID n)).
Proof.
  intros Ha. unfold import_new. rewrite Ha. intros Hi.
  apply bind_Ok_iff in Hi as (prior & Hp & Hi). apply Ok_inj in Hp as <-.
  apply bind_Ok_iff in Hi as ([c0 b] & Hrun & Hi). apply ensureIngestRunTx_Ok in Hrun as [-> Hsame].
  apply bind_Ok_iff in Hi as ([c1 [n v]] & Hc & Hi). apply bind_Ok_iff in Hi as (id & Hid & Hi).
  apply bind_Ok_iff in Hi as (u & _ & Hi). apply bind_Ok_iff in Hi as (c2 & Hc2 & Hi).
  apply insert_provenance_Ok in Hc2 as [-> Hfresh].
  apply bind_Ok_iff in Hi as (c3 & Hc3 & Hi). apply bind_Ok_iff in Hi as (c4 & Hc4 & Hi).
  apply Ok_inj in Hc4 as <-.
  assert (c3 = c' ∧ rc.1.1 = n ∧ added = true) as (-> & Hrc & ->).
  { destruct compl; [apply bind_Ok_iff in Hi as (pc & _ & Hi)|]; by apply Ok_inj in Hi as [= -> <- <-]. }
  split_and!; [done|done|]. exists c1, n, v, id. split_and!; [exact Hc|done|done|done|].
  destruct (operationalWatch run); [right|left].
  - apply insertWatchSourceTx_Ok in Hc3 as (-> & ? & ? & ?). done.
  - by apply Ok_inj in Hc3 as <-.
Qed.

Lemma run_recorded_wf c run :
  ingest_wf c → (∀ r, ingests c !! runID run = Some r → r = run_record run) → ingest_wf (run_recorded c run).
Proof.
  intros Hw Hs. apply (ingest_wf_frame c); try done. cbn. apply map_subseteq_spec. intros k r Hk.
  destruct (decide (k = runID run)) as [->|]; [|by rewrite lookup_insert_ne].
  rewrite lookup_insert_eq. f_equal. symmetry. by apply Hs.
Qed.

(** An import keeps the invariant of the sources. *)
Lemma import_new_ingest_wf c run p f hash size mime path mt compl op ph g c' rc :
  TreeInv.tree_wf root (tables c) → audit_active (tables c) = false → canonical_name f → ingest_wf c →
  import_new c run p f hash size mime path mt compl op ph g = Ok (c', rc) → ingest_wf c'.
Proof.
  intros Hwf Ha Hf Hw Hi. destruct rc as [rc added].
  apply import_new_Ok in Hi as (_ & Hsame & c1 & n & v & id & Hc & _ & Hid & Hfresh & Hend); [|done].
  pose proof (createFileTx_sources _ _ _ _ _ _ _ _ _ _ _ Hc) as (Hin & Hpv & _).
  apply (createFileTx_Ok root) in Hc
    as (c0 & pr & _ & Hp & Hk & _ & _ & Hi & _ & _ & Hn & _ & _ & _ & _ & _ & _ & Hws & _ & _ & _ & _ & Hnn & _);
    [|done|done].
  cbn [tables run_recorded with_ingests] in *. set (i := (node_seq (tables c) + 1)%Z) in *.
  assert (ID n = i) as Hni by (by rewrite Hnn).
  assert (is_file c1 i) as Hfile by (exists (new_row p f file (Some (versionID op)) (recordedAt op));
    rewrite Hn, lookup_insert_eq; done).
  assert (ingest_wf c1) as Hw1.
  { apply (ingest_wf_frame (run_recorded c run)); [by apply run_recorded_wf|done|done|by rewrite Hin|].
    intros j (r & Hr & Hkr). cbn in Hr. exists r. split; [|done]. rewrite Hn.
    rewrite !lookup_insert_ne; [done|congruence|]. intros <-. congruence. }
  assert (ingest_wf (with_provenance c1 (<[id := MkProvenanceRow (ID n) (runID run) path mt None]> (provenance c1))))
    as Hw2.
  { apply ingest_wf_fact; [done|by rewrite Hni|rewrite Hin; cbn; rewrite lookup_insert_eq; eauto|done|done]. }
  destruct Hend as [[_ ->]|(_ & -> & Hk1 & Hsz & Hu)]; [done|].
  apply (ingest_wf_watch (with_provenance c1 _)); [done|by rewrite Hni|done|].
  intros k w Hkw Hwi. cbn in Hkw. by apply Hu in Hkw.
Qed.
End import.
