(* ===== verification/ContentMachine.v ===== *)
(** * The whole vault as one state machine

    Tree, trash, tag, content and ingest commands interleave on the same tables;
    every state they reach from bootstrap satisfies all the invariants. *)
From S2P Require Import Prelude GoText Sha256 Names AuditEncoding Tables Tree TreeInv TreeFacts Trash TrashFacts Identity Tags StoreMachine StoreProps TagProps Listing VaultMachine Blobs Versions VersionFacts VersionProps Ingest IngestFacts.

Section machine.
Context `{Normalizer} `{Kit} `{Sha256} `{TextQueue} `{RenditionTables}.
Context (A : AuditedTree) (T : AuditedTags) (C : AuditedContent) (I : AuditedIngest) (root : Z).
Context {Laws : AuditedTreeLaws A root}.
Notation tree_wf := (tree_wf root).
Notation content_wf := (content_wf root).

(** ** Tree and tag commands keep the histories *)

Lemma history_wf_tracks c d' :
  tracks (tables c) d' → history_wf c → history_wf (with_tables c d').
Proof.
  intros (Hv & Hk & Hn) [Hnode Hcur Huniq Hcreate Hrevert Hsource Hblob Hsize Hmime].
  split; cbn; rewrite ?Hv; try done.
  - intros v row Hrow. destruct (Hnode v row Hrow) as (r & Hr & Hf & Hle).
    destruct (Hk _ r Hr) as (r' & Hr' & Hkr & _ & Hrev). exists r'. split_and!; [done|congruence|lia..].
  - intros i r' v Hi Hcv. destruct (nodes (tables c) !! i) as [r|] eqn:Hr.
    + destruct (Hk i r Hr) as (r2 & Hr2 & _ & Hc2 & _). assert (r2 = r') as -> by congruence.
      eapply Hcur; [exact Hr|congruence].
    + pose proof (Hn i r' Hi Hr). congruence.
Qed.

Lemma history_wf_deleted c ids gone :
  history_wf c → history_wf (with_tables c (delete_nodes ids (bump_tags_of gone (tables c)))).
Proof.
  intros [Hnode Hcur Huniq Hcreate Hrevert Hsource Hblob Hsize Hmime].
  set (dead := doomed (nodes (tables c)) ids).
  assert (∀ v row, versions (delete_nodes ids (bump_tags_of gone (tables c))) !! v = Some row ↔
    versions (tables c) !! v = Some row ∧ v_node_id row ∉ dead) as Hv.
  { intros v row. cbn. by rewrite map_lookup_filter_Some. }
  assert (∀ i r', nodes (delete_nodes ids (bump_tags_of gone (tables c))) !! i = Some r' →
    i ∉ dead ∧ ∃ r, nodes (tables c) !! i = Some r ∧ r' = forget_origin dead r) as Hninv.
  { intros i r'. cbn. rewrite lookup_fmap. destruct (filter _ _ !! i) as [r|] eqn:Hf; [|done].
    intros [= <-]. apply map_lookup_filter_Some in Hf as [? ?]. eauto. }
  assert (∀ i r, nodes (tables c) !! i = Some r → i ∉ dead →
    nodes (delete_nodes ids (bump_tags_of gone (tables c))) !! i = Some (forget_origin dead r)) as Hnfwd.
  { intros i r Hi Hd. cbn. rewrite lookup_fmap.
    assert (filter (λ ir : Z * node_row, ir.1 ∉ doomed (nodes (tables c)) ids) (nodes (tables c)) !! i = Some r)
      as ->; [|done]. by apply map_lookup_filter_Some. }
  set (d' := delete_nodes ids (bump_tags_of gone (tables c))) in *.
  split; cbn [tables blobs with_tables].
  - intros v row [Hrow Hd]%Hv. destruct (Hnode v row Hrow) as (r & Hr & Hf & Hle).
    exists (forget_origin dead r). split_and!; [by apply Hnfwd|done|apply Hle|apply Hle].
  - intros i r' v (Hd & r & Hr & ->)%Hninv Hcv. destruct (Hcur i r v Hr Hcv) as (row & Hrow & Hri & Hmax).
    exists row. split_and!; [apply Hv; split; [done|congruence]|done|].
    intros w wrow [Hw _]%Hv. by eapply Hmax.
  - intros v w row wrow [Hrow _]%Hv [Hwrow _]%Hv. by eapply Huniq.
  - intros v row [Hrow _]%Hv. by eapply Hcreate.
  - intros v row [Hrow _]%Hv. by eapply Hrevert.
  - intros v row s [Hrow Hd]%Hv Hs. destruct (Hsource v row s Hrow Hs) as (srow & Hsr & Hsi & Hrest).
    exists srow. split_and!; [apply Hv; split; [done|congruence]|done|apply Hrest..].
  - intros v row [Hrow _]%Hv. by eapply Hblob.
  - intros v row [Hrow _]%Hv. by eapply Hsize.
  - intros v row [Hrow _]%Hv. by eapply Hmime.
Qed.

(** ** Commands *)

(** The content commands carry the bytes read for their version and operation
    identities and the fresh location generation. *)
Inductive content_command :=
  | KVault (c : vault_command)
  | KCreateFile (parentID : Z) (nm hash : string) (size : Z) (mime : string)
      (r1 r2 : list ascii) (physical : list BlobPhysical) (generation : string)
  | KReplace (nodeID ifRev : Z) (hash : string) (size : Z) (mime : string)
      (r1 r2 : list ascii) (physical : list BlobPhysical) (generation : string)
  | KRevert (nodeID ifRev : Z) (source : string) (r1 r2 : list ascii)
  | KConfirm (nodeID ifRev : Z) (hash : string) (size : Z) (mime : string)
      (physical : list BlobPhysical) (generation : string)
  | KSync (watch ref hash : string) (size : Z) (mime : string)
      (r1 r2 : list ascii) (physical : list BlobPhysical) (generation : string)
  | KIngest (run : IngestRun) (parentID : Z) (nm hash : string) (size : Z)
      (mime path mtime : string) (exact receipt : bool)
      (r1 r2 : list ascii) (physical : list BlobPhysical) (generation : string)
  | KConfirmIngested (nodeID ifRev : Z) (hash : string) (size : Z)
      (mime source description reference mtime : string)
      (physical : list BlobPhysical) (generation : string).

Definition done_with {B} (r : catalog * res B) : catalog * res unit := (r.1, (λ _, tt) <$> r.2).

Definition content_run (now : string) (k : content_command) (c : catalog) : catalog * res unit :=
  match k with
  | KVault vc =>
      let '(d, r) := vault_run A T root now vc (tables c) in (cascade_nodes c d, r)
  | KCreateFile p nm hash size mime r1 r2 ph g =>
      done_with (CreateFile p nm hash size mime (newContentVersionOperation r1 r2 now) ph g c)
  | KReplace i rev hash size mime r1 r2 ph g =>
      done_with (ReplaceContent i rev hash size mime (newContentVersionOperation r1 r2 now) ph g c)
  | KRevert i rev src r1 r2 =>
      done_with (RevertContent i rev src (newContentVersionOperation r1 r2 now) c)
  | KConfirm i rev hash size mime ph g =>
      done_with (ConfirmContentWithReceipt i rev hash size mime ph g c)
  | KSync w ref hash size mime r1 r2 ph g =>
      done_with (SyncWatchedContent w ref hash size mime (newContentVersionOperation r1 r2 now) ph g c)
  | KIngest run p nm hash size mime path mtime exact receipt r1 r2 ph g =>
      done_with (ingestFile run p nm hash size mime path mtime exact receipt
                   (newContentVersionOperation r1 r2 now) ph g c)
  | KConfirmIngested i rev hash size mime source desc ref mtime ph g =>
      done_with (ConfirmIngestedContentWithReceipt i rev hash size mime source desc ref mtime ph g c)
  end.

Definition entropy (k : content_command) : Prop :=
  match k with KVault vc => entropy_ok vc | _ => True end.

Inductive content_reachable (start : catalog) : catalog → Prop :=
  | content_start : content_reachable start start
  | content_step c now k :
      content_reachable start c → entropy k → content_reachable start (content_run now k c).1.

(** ** The invariant *)

Record full_wf (c : catalog) : Prop := {
  fw_content : content_wf c;
  fw_tags : tags_wf (tables c);
  fw_ingest : ingest_wf c;
}.

Lemma full_wf_vault c : full_wf c → vault_wf root (tables c).
Proof. intros [[? _ _ ?] ? _]. by split. Qed.

(** No tree or tag command turns a file into a directory or back. *)
Lemma tracks_kind d d' i r r' :
  tracks d d' → nodes d !! i = Some r → nodes d' !! i = Some r' → kind r' = kind r.
Proof. intros (_ & Hk & _) Hr Hr'. destruct (Hk i r Hr) as (s & Hs & Hks & _). congruence. Qed.

Lemma trashEmpty_kind cutoff n b d i r r' :
  nodes d !! i = Some r → nodes (trashEmpty cutoff n b d).1 !! i = Some r' → kind r' = kind r.
Proof.
  intros Hr. assert (∀ x rep, trashEmptyTx cutoff n b d = Ok (x, rep) →
    nodes x !! i = Some r' → kind r' = kind r) as Hte.
  { intros x rep Ht. unfold trashEmptyTx in Ht. destruct b; [|apply Ok_inj in Ht as [= <- _]; congruence].
    apply bind_Ok_iff in Ht as (u & _ & Ht). apply Ok_inj in Ht as [= <- _]. cbn.
    rewrite lookup_fmap. destruct (filter _ _ !! i) as [s|] eqn:Hf; [|done]. intros [= <-].
    apply map_lookup_filter_Some in Hf as [Hf _]. cbn in *. congruence. }
  unfold trashEmpty, withLogicalTx.
  destruct b; (eapply (withStorageTx_inv (λ x, nodes x !! i = Some r' → kind r' = kind r)); [congruence|]).
  - intros x rep. destruct (audit_active d); [done|]. apply Hte.
  - apply Hte.
Qed.

Lemma history_wf_emptied c cutoff n b :
  history_wf c → history_wf (with_tables c (trashEmpty cutoff n b (tables c)).1).
Proof.
  intros Hh. assert (with_tables c (tables c) = c) as Hid by (by destruct c).
  assert (∀ x rep, trashEmptyTx cutoff n b (tables c) = Ok (x, rep) → history_wf (with_tables c x)) as Hte.
  { intros x rep Ht. unfold trashEmptyTx in Ht.
    destruct b; [|apply Ok_inj in Ht as [= <- _]; by rewrite Hid].
    apply bind_Ok_iff in Ht as (u & _ & Ht). apply Ok_inj in Ht as [= <- _].
    by apply history_wf_deleted. }
  unfold trashEmpty, withLogicalTx.
  destruct b; (eapply (withStorageTx_inv (λ x, history_wf (with_tables c x))); [by rewrite Hid|]).
  - intros x rep. destruct (audit_active (tables c)); [done|]. apply Hte.
  - apply Hte.
Qed.

(** Which commands are not an emptying of the trash. *)
Lemma vault_command_cases now vc d :
  entropy_ok vc → vault_wf root d →
  (∃ cutoff n b, vc = VTree (CTrashEmpty cutoff n b)) ∨ tracks d (vault_run A T root now vc d).1.
Proof using Laws.
  intros He Hv. pose proof Hv as [Hwf _ Ha].
  destruct (is_tree_command vc) eqn:Hvc; [|right; by apply (tag_run_advances A T root)].
  destruct vc as [tc| | | | |]; try done.
  assert ((∃ cutoff n b, tc = CTrashEmpty cutoff n b) ∨ ∀ cutoff n b, tc ≠ CTrashEmpty cutoff n b)
    as [(cutoff & n & b & ->)|Htc] by (destruct tc; naive_solver); [left; eauto|right].
  destruct (run_keeps A root now tc d Hwf Ha Htc) as (_ & _ & _ & Ht). exact Ht.
Qed.

Lemma vault_command_wf now vc c :
  entropy_ok vc → full_wf c → full_wf (cascade_nodes c (vault_run A T root now vc (tables c)).1).
Proof using Laws.
  intros He Hc. pose proof (full_wf_vault c Hc) as Hv.
  pose proof (vault_run_wf A T root now vc (tables c) He Hv) as Hv'.
  destruct Hc as [[Hwf Hh Hcat Ha] Htw Hiw]. set (d' := (vault_run A T root now vc (tables c)).1) in *.
  assert (history_wf (with_tables c d') ∧
    ∀ i r r', nodes (tables c) !! i = Some r → nodes d' !! i = Some r' → kind r' = kind r) as [Hh' Hk].
  { destruct (vault_command_cases now vc (tables c) He Hv) as [(cutoff & n & b & ->)|Ht].
    - split; [by apply history_wf_emptied|].
      intros i r r' Hr Hr'. exact (trashEmpty_kind cutoff n b (tables c) i r r' Hr Hr').
    - split; [by apply history_wf_tracks|intros; by eapply tracks_kind]. }
  split; [split|by apply Hv'|by apply ingest_wf_cascade]; try apply Hv'; [|by eapply catalog_wf_rows].
  by apply (history_wf_blobs (with_tables c d')).
Qed.

Lemma withCatalogTx_inv {B} (P : catalog → Prop) (fn : catalog → res (catalog * B)) c :
  P c → (∀ c' b, fn c = Ok (c', b) → P c') → P (withCatalogTx fn c).1.
Proof. intros HP Hfn. unfold withCatalogTx. destruct (fn c) as [[c' b]|]; simpl; eauto. Qed.

(** Tags and sources only depend on their own tables, on which nodes exist and
    on which are files. *)
Lemma full_wf_content c c' :
  full_wf c → content_wf c' → tags (tables c') = tags (tables c) →
  node_tags (tables c') = node_tags (tables c) →
  provenance c' = provenance c → watch_sources c' = watch_sources c → ingests c' = ingests c →
  (∀ i r, nodes (tables c) !! i = Some r → ∃ r', nodes (tables c') !! i = Some r' ∧ kind r' = kind r) →
  full_wf c'.
Proof.
  intros [_ Htw Hiw] Hc Ht Hn Hp Hw Hin Hi. split; [done| |].
  - apply (tags_wf_frame (tables c) _ Htw Ht); [by rewrite Hn|].
    intros i tag _ [r Hr]. destruct (Hi i r Hr) as (r' & ? & _). eauto.
  - apply (ingest_wf_frame c); [done..|by rewrite Hin|].
    intros i (r & Hr & Hk). destruct (Hi i r Hr) as (r' & ? & ?). exists r'. split; [done|congruence].
Qed.

Lemma ensured_full_wf c hash size physical generation c' :
  full_wf c → EnsureBlobTx c hash size physical generation = Ok c' → full_wf c'.
Proof.
  intros Hc He. destruct (EnsureBlobTx_content_wf root _ _ _ _ _ _ (fw_content c Hc) He) as (Hc1 & _).
  destruct (EnsureBlobTx_tables _ _ _ _ _ _ He) as (Hn & _ & _ & Ht & Hnt & _ & Hw & _).
  destruct (EnsureBlobTx_sources _ _ _ _ _ _ He) as (Hin & Hp & _).
  apply (full_wf_content c); try done. intros i r. rewrite Hn. eauto.
Qed.

Lemma installed_full_wf c c' i r v row :
  full_wf c → nodes (tables c) !! i = Some r → content_wf (installed c i r v row) →
  c' = installed c i r v row → full_wf c'.
Proof.
  intros Hc Hr Hc' ->. apply (full_wf_content c); try done. intros j s Hj. cbn.
  destruct (decide (j = i)) as [->|]; [rewrite lookup_insert_eq|rewrite lookup_insert_ne by done; eauto].
  eexists. split; [done|]. cbn. congruence.
Qed.

Lemma replaced_full_wf c i r rev hash size mime op physical generation c' a :
  full_wf c → nodes (tables c) !! i = Some r →
  replaceContentTx c (scanNode (tables c) i r) rev hash size mime op physical generation = Ok (c', a) →
  full_wf c'.
Proof.
  intros Hc Hr Hrep.
  destruct (replaceContentTx_Ok C root c i r rev hash size mime op physical generation c' a
    (fw_content c Hc) Hr Hrep) as (c1 & _ & _ & He & _ & _ & Hc' & Hwf').
  eapply installed_full_wf; [by eapply ensured_full_wf| |by rewrite <- Hc'|exact Hc'].
  by destruct (EnsureBlobTx_tables _ _ _ _ _ _ He) as (-> & _).
Qed.

Lemma created_full_wf c p nm hash size mime op physical generation c' a :
  full_wf c → canonical_name nm →
  createFileTx c p nm hash size mime op physical generation = Ok (c', a) → full_wf c'.
Proof.
  intros Hc Hnm Hf. pose proof (createFileTx_content_wf root _ _ _ _ _ _ _ _ _ _ _ (fw_content c Hc) Hnm Hf) as Hc'.
  pose proof (createFileTx_sources _ _ _ _ _ _ _ _ _ _ _ Hf) as (Hin & Hpv & _). destruct a as [n v].
  apply (createFileTx_Ok root) in Hf as (c1 & pr & _ & Hp & _ & _ & _ & Hi & _ & _ & Hn & _ & _ & _ & Ht & Hnt
    & _ & Hw & _); [|apply Hc|done].
  apply (full_wf_content c); try done. intros i r Hr. rewrite Hn.
  rewrite lookup_insert_ne by congruence. destruct (decide (i = p)) as [->|].
  - rewrite lookup_insert_eq. eexists. split; [done|]. cbn. congruence.
  - rewrite lookup_insert_ne by done. eauto.
Qed.

(** A change of the source tables alone. *)
Lemma full_wf_sources c c' :
  full_wf c → tables c' = tables c → blobs c' = blobs c → locations c' = locations c →
  pack_entries c' = pack_entries c → ingest_wf c' → full_wf c'.
Proof.
  intros [[Hwf Hh Hcat Ha] Htw _] Ht Hb Hl He Hi. split; [split|by rewrite Ht|done]; try by rewrite Ht.
  - apply (history_wf_blobs c); [done|by rewrite Ht..|by rewrite Hb].
  - by apply (catalog_wf_rows c).
Qed.

Lemma imported_full_wf c run p f hash size mime path mt compl op ph g c' rc :
  full_wf c → canonical_name f →
  import_new c run p f hash size mime path mt compl op ph g = Ok (c', rc) → full_wf c'.
Proof.
  intros Hc Hf Hi. pose proof (fw_content c Hc) as [Hwf Hh Hcat Ha].
  pose proof (import_new_ingest_wf root _ _ _ _ _ _ _ _ _ _ _ _ _ _ _ Hwf Ha Hf (fw_ingest c Hc) Hi) as Hiw.
  destruct rc as [rc added].
  apply import_new_Ok in Hi as (_ & Hsame & c1 & n & v & id & Hcr & _ & _ & _ & Hend); [|done].
  assert (full_wf c1) as Hc1.
  { eapply created_full_wf, Hcr; [|done]. apply (full_wf_sources c); try done.
    apply run_recorded_wf; [apply Hc|done]. }
  destruct Hend as [[_ ->]|(_ & -> & _)]; by apply (full_wf_sources c1).
Qed.

Lemma reverted_full_wf c i r source srow k op c' a :
  full_wf c → nodes (tables c) !! i = Some r → kind r = file →
  versions (tables c) !! source = Some srow → v_node_id srow = i →
  k = content_revert →
  installContentVersionTx c (scanNode (tables c) i r) (v_blob_hash srow) (v_size srow)
    (default "" (v_mime_type srow)) k (Some source) op = Ok (c', a) →
  full_wf c'.
Proof.
  intros Hc Hr Hk Hs Hsi -> Hi. pose proof (fw_content c Hc) as [Hwf Hh Hcat Ha].
  pose proof (stored_mime_default _ (hw_mime c Hh source srow Hs)) as Hmime.
  assert (content_wf c') as Hc'.
  { eapply (installed_content_wf root c i r); [by apply fw_content|done|done| |by eapply hw_blob|exact Hi].
    split; [done|]. exists srow. cbn. by rewrite Hmime. }
  apply installContentVersionTx_Ok in Hi as (Heq & _); [|done].
  eapply installed_full_wf; [exact Hc|exact Hr| |exact Heq]. by rewrite <- Heq.
Qed.

Lemma watch_full_wf c w ref hash size c' :
  full_wf c → (0 ≤ size)%Z → updateWatchSourceTx c w ref hash size = Ok c' → full_wf c'.
Proof.
  intros Hc Hsz (j & h & z & Hk & ->)%updateWatchSourceTx_Ok. apply (full_wf_sources c); try done.
  pose proof (fw_ingest c Hc) as Hi. apply ingest_wf_watch; [done|by eapply iw_watch|done|].
  intros k x Hx Hj. by eapply (iw_unique c Hi).
Qed.

Lemma synced_full_wf c w ref hash size mime op ph g c' b :
  full_wf c → (0 ≤ size)%Z →
  ('(nodeID, cursorHash, cursorSize) ← watchSourceTx c w ref;
   n ← nodeByIDTx (tables c) nodeID;
   _ ← check (bool_decide (TrashedAt n = None)) ErrOther;
   _ ← validateContentReplacementTarget n UnconditionalRev;
   if String.eqb cursorHash hash && (cursorSize =? size)%Z then
     c ← EnsureBlobTx c hash size ph g;
     _ ← (if negb (String.eqb (BlobHash n) hash)
          then _ ← requirePhysicalAuthorityTx c (BlobHash n); Ok tt else Ok tt);
     Ok (c, (n, None, false))
   else if String.eqb (BlobHash n) hash && (Size n =? size)%Z then
     c ← EnsureBlobTx c hash size ph g;
     c ← updateWatchSourceTx c w ref hash size;
     Ok (c, (n, None, false))
   else
     '(c, (updated, version)) ← replaceContentTx c n UnconditionalRev hash size mime op ph g;
     c ← updateWatchSourceTx c w ref hash size;
     Ok (c, (updated, Some version, true))) = Ok (c', b) →
  full_wf c'.
Proof.
  intros Hc Hsz Hf. apply bind_Ok_iff in Hf as ([[i ch] cs] & _ & Hf).
  apply bind_Ok_iff in Hf as (n & Hn & Hf). apply nodeByIDTx_Ok_iff in Hn as (r & Hr & ->).
  apply bind_Ok_iff in Hf as (u & _ & Hf). apply bind_Ok_iff in Hf as (u1 & _ & Hf).
  destruct (_ && _) in Hf; [|destruct (_ && _) in Hf].
  - apply bind_Ok_iff in Hf as (c1 & He & Hf). apply bind_Ok_iff in Hf as (u2 & _ & Hf).
    apply Ok_inj in Hf as [= <- _]. by eapply ensured_full_wf.
  - apply bind_Ok_iff in Hf as (c1 & He & Hf). apply bind_Ok_iff in Hf as (c2 & Hw & Hf).
    apply Ok_inj in Hf as [= <- _]. eapply watch_full_wf, Hw; [|done]. by eapply ensured_full_wf.
  - apply bind_Ok_iff in Hf as ([c1 [n1 v1]] & Hrep & Hf). apply bind_Ok_iff in Hf as (c2 & Hw & Hf).
    apply Ok_inj in Hf as [= <- _]. eapply watch_full_wf, Hw; [|done]. by eapply replaced_full_wf.
Qed.

Lemma confirmed_full_wf c n rev hash size mime ph g c' rc :
  full_wf c → confirmContentWithReceiptTx c n rev hash size mime ph g = Ok (c', rc) → full_wf c'.
Proof.
  intros Hc Hf. unfold confirmContentWithReceiptTx in Hf.
  apply bind_Ok_iff in Hf as (u & _ & Hf). apply bind_Ok_iff in Hf as (u1 & _ & Hf).
  apply bind_Ok_iff in Hf as (u2 & _ & Hf). apply bind_Ok_iff in Hf as (c1 & Hens & Hf).
  apply bind_Ok_iff in Hf as (v & _ & Hf). apply bind_Ok_iff in Hf as (pc & _ & Hf).
  apply Ok_inj in Hf as [= <- _]. by eapply ensured_full_wf.
Qed.

(** The name an import chooses is canonical. *)
Lemma ingest_target_canonical c exact p nm hash source f :
  canonical_name nm → ingest_target_of c exact p nm hash source = Ok (FreshName f) → canonical_name f.
Proof.
  intros Hnm. unfold ingest_target_of. destruct exact.
  { destruct (select _ _); [|done]. by intros [= <-]. }
  intros Hr. destruct (resolve_spec c p nm hash source) as (_ & _ & Hs).
  destruct (Hs _ Hr) as (_ & _ & m & Hm & -> & _). by apply suffixedName_canonical.
Qed.

Lemma ingested_full_wf c run p nm hash size mime path mtime exact receipt op ph g :
  full_wf c →
  full_wf (ingestFile run p nm hash size mime path mtime exact receipt op ph g c).1.
Proof.
  intros Hc. unfold ingestFile.
  destruct (NormalizeName nm) as [nm'|] eqn:Hnm; [|done]. cbn [mbind result_bind].
  destruct (validateIngestRecord _ _); [|done]. cbn [mbind result_bind].
  destruct (validateProvenanceFields _); [|done]. cbn [mbind result_bind].
  apply withCatalogTx_inv; [done|]. intros c' b Hf. apply bind_Ok_iff in Hf as ([f|i] & Ht & Hf).
  - eapply imported_full_wf, Hf; [done|]. eapply ingest_target_canonical, Ht. by eapply NormalizeName_canonical.
  - unfold adopt_imported in Hf. apply bind_Ok_iff in Hf as (c1 & Hens & Hf).
    apply bind_Ok_iff in Hf as (n & _ & Hf). destruct (negb receipt).
    + apply Ok_inj in Hf as [= <- _]. by eapply ensured_full_wf.
    + apply bind_Ok_iff in Hf as (v & _ & Hf). apply bind_Ok_iff in Hf as (pc & _ & Hf).
      apply Ok_inj in Hf as [= <- _]. by eapply ensured_full_wf.
Qed.

Lemma content_run_wf now k c : entropy k → full_wf c → full_wf (content_run now k c).1.
Proof using Laws.
  intros He Hc. destruct k as [vc|p nm hash size mime r1 r2 ph g|i rev hash size mime r1 r2 ph g
    |i rev src r1 r2|i rev hash size mime ph g|w ref hash size mime r1 r2 ph g
    |run p nm hash size mime path mtime exact receipt r1 r2 ph g
    |i rev hash size mime source desc ref mtime ph g]; cbn.
  - pose proof (vault_command_wf now vc c He Hc) as Hv. by destruct (vault_run A T root now vc (tables c)).
  - unfold CreateFile, CreateFileWithReceipt. destruct (NormalizeName nm) as [nm'|e] eqn:Hnm; [|done].
    set (fn := λ c : catalog, _). enough (full_wf (withCatalogTx fn c).1) by (by destruct (withCatalogTx fn c)).
    apply withCatalogTx_inv; [done|]. intros c' b Hf. subst fn. cbn beta in Hf.
    rewrite (ct_unaudited _ _ (fw_content c Hc)) in Hf. cbn [negb] in Hf.
    apply bind_Ok_iff in Hf as ([c1 [n v]] & Hcr & Hf). apply bind_Ok_iff in Hf as (pc & _ & Hf).
    apply Ok_inj in Hf as [= <- _]. eapply created_full_wf, Hcr; [done|]. by eapply NormalizeName_canonical.
  - unfold ReplaceContent, ReplaceContentWithReceipt. destruct (size <? 0)%Z; [done|].
    destruct (negb (ValidString mime)); [done|].
    set (fn := λ c : catalog, _). enough (full_wf (withCatalogTx fn c).1) by (by destruct (withCatalogTx fn c)).
    apply withCatalogTx_inv; [done|]. intros c' b Hf. subst fn. cbn beta in Hf.
    apply bind_Ok_iff in Hf as (n & Hn & Hf). apply nodeByIDTx_Ok_iff in Hn as (r & Hr & ->).
    apply bind_Ok_iff in Hf as ([c1 [n v]] & Hrep & Hf). apply bind_Ok_iff in Hf as (pc & _ & Hf).
    apply Ok_inj in Hf as [= <- _]. by eapply replaced_full_wf.
  - unfold RevertContent. destruct (negb _); [done|]. apply withCatalogTx_inv; [done|]. intros c' b Hf.
    apply bind_Ok_iff in Hf as (n & Hn & Hf). apply nodeByIDTx_Ok_iff in Hn as (r & Hr & ->).
    apply bind_Ok_iff in Hf as (u & Hval & Hf). apply bind_Ok_iff in Hf as (sv & Hsv & Hf).
    unfold version_by_id in Hsv. apply bind_Ok_iff in Hsv as (srow & Hs & Hsv).
    apply from_lookup_Ok_iff in Hs. apply Ok_inj in Hsv as <-.
    apply bind_Ok_iff in Hf as (u1 & Hi & Hf). apply check_Ok_iff, Z.eqb_eq in Hi. cbn in Hi.
    apply bind_Ok_iff in Hf as (u2 & _ & Hf). apply bind_Ok_iff in Hf as (u3 & _ & Hf).
    apply bind_Ok_iff in Hf as (sz & _ & Hf). apply bind_Ok_iff in Hf as (u4 & _ & Hf).
    rewrite (ct_unaudited _ _ (fw_content c Hc)) in Hf.
    apply bind_Ok_iff in Hf as ([c1 [n v]] & Hins & Hf). apply Ok_inj in Hf as [= <- _].
    assert (kind r = file) as Hkf.
    { unfold validateContentReplacementTarget in Hval. apply bind_Ok_iff in Hval as (v1 & _ & Hval).
      apply bind_Ok_iff in Hval as (v2 & Hk & _). apply check_Ok_iff in Hk.
      unfold IsDir in Hk. cbn in Hk. by destruct (kind r). }
    by eapply reverted_full_wf; [exact Hc|exact Hr|exact Hkf|exact Hs|exact Hi|reflexivity|exact Hins].
  - unfold ConfirmContentWithReceipt. destruct (size <? 0)%Z; [done|].
    destruct (negb (ValidString mime)); [done|]. apply withCatalogTx_inv; [done|]. intros c' b Hf.
    apply bind_Ok_iff in Hf as (n & _ & Hf). by eapply confirmed_full_wf.
  - unfold SyncWatchedContent. destruct (validateWatchSourceRecord _ _ _ _ _) eqn:Hv; [|done].
    destruct (ValidString mime); [|done]. cbn [negb fst done_with].
    apply withCatalogTx_inv; [done|]. intros c' b Hf. eapply synced_full_wf; [exact Hc| |exact Hf].
    unfold validateWatchSourceRecord in Hv.
    rewrite !andb_true_iff, Z.leb_le in Hv. tauto.
  - pose proof (ingested_full_wf c run p nm hash size mime path mtime exact receipt
      (newContentVersionOperation r1 r2 now) ph g Hc) as Hw. exact Hw.
  - unfold ConfirmIngestedContentWithReceipt, done_with. cbn [fst]. destruct (_ ≫= _); [|done].
    apply withCatalogTx_inv; [done|]. intros c' b Hf. apply bind_Ok_iff in Hf as (n & _ & Hf).
    apply bind_Ok_iff in Hf as ([c1 rc] & Hcf & Hf). apply bind_Ok_iff in Hf as (u & _ & Hf).
    apply Ok_inj in Hf as [= <- _]. by eapply confirmed_full_wf.
Qed.

End machine.

(** A vault opened on an empty database has an empty catalog. *)
Definition open_catalog (d : db) (primary : string) : catalog := MkCatalog d ∅ ∅ ∅ ∅ ∅ ∅ primary.

Lemma open_catalog_wf `{Normalizer} `{Sha256} now d0 rootID primary :
  bootstrapTx now empty_db = Ok (d0, rootID) →
  rootID = 1%Z ∧ full_wf 1 (open_catalog d0 primary).
Proof.
  intros Hb. destruct (bootstrap_vault_wf _ _ _ Hb) as (-> & Hw & Htw & Ha). split; [done|].
  assert (versions d0 = ∅ ∧ ∀ i r, nodes d0 !! i = Some r → current_version_id r = None) as [Hv Hn].
  { vm_compute in Hb. injection Hb as <-. split; [done|]. intros i r Hi.
    change (({[1%Z := MkNodeRow None "" dir None 1 now now None None None]} : gmap Z node_row) !! i
            = Some r) in Hi.
    by apply lookup_singleton_Some in Hi as [_ <-]. }
  split; [split|done|by split]; [done| |by split|done].
  split; cbn; rewrite ?Hv; try done.
  intros i r v Hi Hc. by rewrite (Hn i r Hi) in Hc.
Qed.

(** C2: from bootstrap, any interleaving of tree, trash, tag, content and ingest
    commands, with any blob receipts, keeps every invariant of the vault
    together: the tree, the tags, the content histories (every file's head is
    the newest of its versions, reversions repeat an older version, every
    version's bytes are a member of its size), the blob catalog and the sources
    (every provenance fact is named by its digest, comes from a recorded run and
    describes an existing file; every watch follows an existing file and no two
    watches the same one). *)
Theorem reachable_content_wf `{Normalizer} `{Kit} `{Sha256} `{TextQueue} `{RenditionTables}
    (A : AuditedTree) (T : AuditedTags) (C : AuditedContent) (I : AuditedIngest)
    {Laws : AuditedTreeLaws A 1} now d0 rootID primary c :
  bootstrapTx now empty_db = Ok (d0, rootID) →
  content_reachable A T C I rootID (open_catalog d0 primary) c →
  rootID = 1%Z ∧ TreeInv.tree_wf rootID (tables c) ∧ tags_wf (tables c) ∧ history_wf c ∧
  catalog_wf c ∧ ingest_wf c.
Proof.
  intros Hb Hr. destruct (open_catalog_wf now d0 rootID primary Hb) as [-> Hw]. split; [done|].
  enough (full_wf 1 c) as [[? ? ? _] ? ?] by done.
  induction Hr as [|c now' k Hr IH He]; [done|]. by apply content_run_wf.
Qed.

(** ** A vault with a file *)

#[export] Instance demo_queue : TextQueue := {| queueTextExtractionTx _ _ _ _ := Ok tt |}.
Definition refusing_content_audit : AuditedContent := {|
  loadAuditedFileAuthority _ _ := Err ErrAuditMutationUnsupported;
  persistAuditedFileCreation _ _ _ _ _ := Err ErrAuditMutationUnsupported;
  installAuditedContentVersionTx _ _ _ _ _ _ _ _ := Err ErrAuditMutationUnsupported;
  auditedMember _ _ := false;
|}.
Definition refusing_ingest_audit : AuditedIngest := {|
  persistAuditedNodeCreation _ _ _ _ _ _ _ _ _ _ := Err ErrAuditMutationUnsupported;
|}.
#[export] Instance vault_kit : Kit :=
  {| parses_hash := λ _, true; canonical_hash := λ _, true; BlobCompressed := 1 |}.

Definition demo_bytes (n : nat) : list ascii := repeat (Ascii.ascii_of_nat n) 16.

(** /docs (2) with the file /docs/a.txt (3), replaced once. *)
Definition demo_content_commands : list content_command := [
  KVault (VTree (CMkdirAll "/docs"));
  KCreateFile 2 "a.txt" "h1" 5 "text/plain" (demo_bytes 1) (demo_bytes 2) [] "g1";
  KReplace 3 1 "h2" 7 "text/plain" (demo_bytes 3) (demo_bytes 4) [] "g2"].

Definition demo_step (c : catalog) (k : content_command) : catalog :=
  (@content_run ascii_normalizer vault_kit fips_sha256 demo_queue no_renditions refusing_audit refusing_tag_audit
     refusing_content_audit refusing_ingest_audit 1 "t1" k c).1.
Definition file_vault : catalog :=
  foldl demo_step (open_catalog sample_start "primary") demo_content_commands.

Lemma demo_step_wf c k :
  entropy k → @full_wf ascii_normalizer fips_sha256 1 c → @full_wf ascii_normalizer fips_sha256 1 (demo_step c k).
Proof. intros. by apply content_run_wf. Qed.

Lemma start_wf : @full_wf ascii_normalizer fips_sha256 1 (open_catalog sample_start "primary").
Proof. apply (@open_catalog_wf ascii_normalizer fips_sha256 "t0" sample_start 1). vm_compute. reflexivity. Qed.

Lemma file_vault_wf : @full_wf ascii_normalizer fips_sha256 1 file_vault.
Proof. do 3 (apply demo_step_wf; [done|]). apply start_wf. Qed.

(** The same vault after a watch on "inbox" imported "note.txt" as /docs/note.txt
    (4) and saw new bytes. *)
Definition demo_run : IngestRun :=
  MkRun (newUUIDv4 (demo_bytes 9)) (MkIngestRow "2024-05-01T00:00:00.000000000Z" "watch" "inbox") true.
Definition demo_ingest_commands : list content_command := [
  KIngest demo_run 2 "note.txt" "h3" 4 "text/plain" "note.txt" "2024-04-30T12:00:00.5Z" true false
    (demo_bytes 10) (demo_bytes 11) [] "g3";
  KSync "inbox" "note.txt" "h4" 6 "text/plain" (demo_bytes 12) (demo_bytes 13) [] "g4"].
Definition ingest_vault : catalog := foldl demo_step file_vault demo_ingest_commands.

Lemma ingest_vault_wf : @full_wf ascii_normalizer fips_sha256 1 ingest_vault.
Proof. do 2 (apply demo_step_wf; [done|]). apply file_vault_wf. Qed.

Lemma reachable_content_wf_witness :
  (1%Z = 1%Z ∧ @tree_wf ascii_normalizer 1 (tables ingest_vault) ∧
   @tags_wf ascii_normalizer (tables ingest_vault) ∧ history_wf ingest_vault ∧ catalog_wf ingest_vault ∧
   @ingest_wf fips_sha256 ingest_vault) ∧
  size (versions (tables ingest_vault)) = 4%nat ∧ size (provenance ingest_vault) = 1%nat ∧
  watch_sources ingest_vault !! ("inbox", "note.txt") = Some (4%Z, "h4", 6%Z).
Proof.
  split; [|vm_compute; done].
  apply (@reachable_content_wf ascii_normalizer vault_kit fips_sha256 demo_queue no_renditions refusing_audit
    refusing_tag_audit refusing_content_audit refusing_ingest_audit _ "t0" sample_start 1 "primary").
  - vm_compute. reflexivity.
  - repeat (apply content_step; [|done]). apply content_start.
Defined.

(** * The content properties at work on a vault with a file *)

Local Instance content_nfc : Normalizer := ascii_normalizer.
Local Instance content_audit : AuditedContent := refusing_content_audit.

Lemma file_vault_content : content_wf 1 file_vault.
Proof. apply (fw_content 1 _ file_vault_wf). Qed.

(** The file /docs/a.txt and its two versions. *)
Definition demo_file : node_row := default some_row (nodes (tables file_vault) !! 3%Z).
Definition demo_v1 : string := newUUIDv4 (demo_bytes 1).
Definition demo_v2 : string := newUUIDv4 (demo_bytes 3).
Definition demo_row1 : version_row :=
  default (file_row 0 "" 0 None (MkOperation "" "" "")) (versions (tables file_vault) !! demo_v1).
Definition demo_op3 : contentVersionOperation := newContentVersionOperation (demo_bytes 5) (demo_bytes 6) "t3".
Definition demo_op4 : contentVersionOperation := newContentVersionOperation (demo_bytes 7) (demo_bytes 8) "t4".
Definition demo_row2 : version_row :=
  default (file_row 0 "" 0 None (MkOperation "" "" "")) (versions (tables file_vault) !! demo_v2).

Lemma demo_file_row : nodes (tables file_vault) !! 3%Z = Some demo_file.
Proof. vm_compute. reflexivity. Qed.
Lemma demo_row1_row : versions (tables file_vault) !! demo_v1 = Some demo_row1.
Proof. vm_compute. reflexivity. Qed.
Lemma demo_row2_row : versions (tables file_vault) !! demo_v2 = Some demo_row2.
Proof. vm_compute. reflexivity. Qed.

Lemma fresh_check d i op :
  versions d !! versionID op = None →
  forallb (λ vr : string * version_row, negb (String.eqb (v_operation_id vr.2) (operationID op)))
    (map_to_list (versions d)) = true →
  fresh_operation d i op.
Proof.
  intros Hv Hf. split; [done|]. intros w wrow Hw _ He. rewrite forallb_forall in Hf.
  apply elem_of_map_to_list, list_elem_of_In, Hf in Hw. cbn in Hw.
  by rewrite He, String.eqb_refl in Hw.
Qed.

Definition demo_registered : catalog :=
  match EnsureBlobTx file_vault "h3" 9 [] "g3" with Ok c => c | Err _ => file_vault end.

Lemma ReplaceContent_effect_witness :
  ∃ c' n v, ReplaceContent 3 UnconditionalRev "h3" 9 "text/plain" demo_op3 [] "g3" file_vault
      = (c', Ok (n, v)) ∧
    NodeByID (tables c') 3 = Ok n ∧ content_of n = ("h3", 9%Z, "text/plain") ∧
    Revision n = (revision demo_file + 1)%Z ∧ CurrentVersionID n = versionID demo_op3 ∧
    version_by_id (tables c') (versionID demo_op3) = Ok v ∧ VNodeRevision v = Revision n ∧
    versions (tables file_vault) ⊆ versions (tables c') ∧
    dom (versions (tables c')) = {[ versionID demo_op3 ]} ∪ dom (versions (tables file_vault)) ∧
    (∀ j, j ≠ 3%Z → nodes (tables c') !! j = nodes (tables file_vault) !! j) ∧
    content_wf 1 c'.
Proof.
  eapply (ReplaceContent_effect refusing_content_audit 1 file_vault 3 demo_file UnconditionalRev "h3" 9
    "text/plain" demo_op3 [] "g3" demo_registered);
    [exact file_vault_content|exact demo_file_row|reflexivity|reflexivity|reflexivity
    |vm_compute; reflexivity|apply fresh_check; vm_compute; reflexivity|lia|reflexivity|intros x; reflexivity
    |vm_compute; reflexivity|vm_compute; reflexivity].
Defined.

Lemma RevertContent_effect_witness :
  ∃ c' n v source, RevertContent 3 UnconditionalRev demo_v1 demo_op3 file_vault
      = (c', Ok (n, v, source)) ∧
    NodeByID (tables c') 3 = Ok n ∧ content_of n = version_content demo_row1 ∧
    Revision n = (revision demo_file + 1)%Z ∧ CurrentVersionID n = versionID demo_op3 ∧
    version_by_id (tables c') (versionID demo_op3) = Ok v ∧ VSourceVersionID v = Some demo_v1 ∧
    version_by_id (tables file_vault) demo_v1 = Ok source ∧ version_by_id (tables c') demo_v1 = Ok source ∧
    versions (tables file_vault) ⊆ versions (tables c') ∧ content_wf 1 c'.
Proof.
  eapply (RevertContent_effect refusing_content_audit 1 file_vault 3 demo_file UnconditionalRev demo_v1
    demo_row1 5 demo_op3);
    [exact file_vault_content|exact demo_file_row|reflexivity|reflexivity|reflexivity
    |vm_compute; reflexivity|apply fresh_check; vm_compute; reflexivity|vm_compute; reflexivity|exact demo_row1_row|reflexivity
    |vm_compute; discriminate|vm_compute; reflexivity|intros x; reflexivity].
Defined.

Lemma Replace_Revert_roundtrip_witness :
  ∃ c' n' x' c'' n'' v'' src,
    ReplaceContent 3 (revision demo_file) "h3" 9 "text/plain" demo_op3 [] "g3" file_vault
      = (c', Ok (n', x')) ∧
    RevertContent 3 (Revision n') demo_v2 demo_op4 c' = (c'', Ok (n'', v'', src)) ∧
    content_of n'' = content_of (node_of (tables file_vault) 3) ∧
    {[ demo_v2; versionID demo_op3; versionID demo_op4 ]} ⊆ dom (versions (tables c'')) ∧
    content_wf 1 c''.
Proof.
  unshelve epose proof (Replace_Revert_roundtrip refusing_content_audit 1 file_vault 3 demo_file
    demo_v2 demo_row2 7 "h3" 9 "text/plain" demo_op3 demo_op4 [] "g3" demo_registered _
    _ _ _ _ _ _ _ _ _ _ _ _ _ _ _ _ _ _) as (c' & n' & x' & Hrep & Hrev);
    [| exact file_vault_content|exact demo_file_row|reflexivity|reflexivity|reflexivity
    |vm_compute; reflexivity
    |vm_compute; reflexivity|exact demo_row2_row|vm_compute; reflexivity
    |apply fresh_check; vm_compute; reflexivity|apply fresh_check; vm_compute; reflexivity
    |vm_compute; discriminate|vm_compute; discriminate|lia|reflexivity|intros v h m x; reflexivity
    |vm_compute; reflexivity|vm_compute; reflexivity|].
  destruct (Revision n' =? MaxInt64)%Z eqn:Hn.
  - vm_compute in Hrep. injection Hrep as _ <- _. vm_compute in Hn. discriminate Hn.
  - destruct Hrev as (c'' & n'' & v'' & src & Hrev). exists c', n', x', c'', n'', v'', src.
    split; [exact Hrep|exact Hrev].
Defined.

(** The vault after the watched file /docs/note.txt was imported and then
    replaced by hand. *)
Definition watched_vault : catalog :=
  demo_step (demo_step file_vault
    (KIngest demo_run 2 "note.txt" "h3" 4 "text/plain" "note.txt" "" true false
       (demo_bytes 10) (demo_bytes 11) [] "g3"))
    (KReplace 4 1 "h5" 9 "text/plain" (demo_bytes 12) (demo_bytes 13) [] "g5").
Lemma watched_vault_content : content_wf 1 watched_vault.
Proof.
  apply (fw_content 1). do 2 (apply demo_step_wf; [exact I|]). apply file_vault_wf.
Qed.
Definition watched_file : node_row := default some_row (nodes (tables watched_vault) !! 4%Z).
Lemma watched_file_row : nodes (tables watched_vault) !! 4%Z = Some watched_file.
Proof. vm_compute. reflexivity. Qed.
Definition demo_sync : catalog * res (Node * option ContentVersion * bool) :=
  SyncWatchedContent "inbox" "note.txt" "h3" 4 "text/plain" demo_op3 [] "g9" watched_vault.

Lemma demo_sync_result :
  match demo_sync with
  | (_, Ok (n, None, false)) => String.eqb (BlobHash n) "h5"
  | _ => false
  end = true.
Proof. vm_compute. reflexivity. Qed.

(** An unchanged source does not undo the change made by hand. *)
Lemma SyncWatchedContent_effect_witness :
  ∃ c' n, demo_sync = (c', Ok (n, None, false)) ∧ BlobHash n = "h5" ∧
    watch_sources c' = <[("inbox", "note.txt") := (4%Z, "h3", 4%Z)]> (watch_sources watched_vault) ∧
    nodes (tables c') = nodes (tables watched_vault) ∧ versions (tables c') = versions (tables watched_vault).
Proof.
  pose proof demo_sync_result as Hd.
  destruct demo_sync as [c' [[[n [v|]] [|]]|e]] eqn:Hs; try discriminate Hd.
  apply String.eqb_eq in Hd.
  destruct (SyncWatchedContent_effect refusing_content_audit 1 watched_vault "inbox" "note.txt" "h3" 4 "text/plain"
    demo_op3 [] "g9" c' n None false 4 "h3" 4 watched_file
    watched_vault_content ltac:(vm_compute; reflexivity) watched_file_row Hs)
    as (Hw & _ & _ & _ & Hun & _).
  exists c', n. exact (conj eq_refl (conj Hd (conj Hw (Hun eq_refl)))).
Defined.

Lemma DocumentPage_documents_witness :
  ∃ r, nodes (tables file_vault) !! 1%Z = Some r ∧ ∃ docs : list (string * Node),
    (∀ path m, (path, m) ∈ docs ↔ ∃ i row k, nodes (tables file_vault) !! i = Some row ∧
       kind row = file ∧ trashed_at row = None ∧ seg (nodes (tables file_vault)) 1 i k ∧
       path = pathOf (tables file_vault) i ∧ m = scanNode (tables file_vault) i row) ∧
    StronglySorted (λ x y, String.le x.1 y.1 ∧ x.1 ≠ y.1) docs ∧
    (∀ offset, (0 ≤ offset)%Z →
       DocumentPage 1 (tables file_vault) 1 10 offset =
       Ok (MkDocumentPage (scanNode (tables file_vault) 1 r, pathOf (tables file_vault) 1)
             (page 10 offset docs) (Z.of_nat (length docs)))) ∧
    ((Z.of_nat (length docs) ≤ 10 * Z.of_nat 1)%Z →
     read_pages (λ offset, Documents <$> DocumentPage 1 (tables file_vault) 1 10 offset) 10 1 = Ok docs).
Proof.
  destruct (nodes (tables file_vault) !! 1%Z) as [r|] eqn:Hr; [|vm_compute in Hr; discriminate].
  assert (kind r = dir ∧ trashed_at r = None) as [Hk Ht]
    by (vm_compute in Hr; injection Hr as <-; done).
  exists r. split; [done|].
  apply (DocumentPage_documents 1 (tables file_vault) 1 r 10 1 (ct_tree _ _ file_vault_content) Hr Hk Ht).
  lia.
Defined.
