(* ===== verification/IngestProps.v ===== *)
(** * Ingest properties

    Importing the same file again is recognized; a name chosen for a new file
    is free. *)
From S2P Require Import Prelude GoText Sha256 Names AuditEncoding AuditRegistry Tables Tree TreeInv TreeFacts StoreProps Identity Listing Blobs Versions VersionFacts Ingest IngestFacts ContentMachine.

(** ** The leaves of a node's provenance *)

Lemma active_fact_true ps x :
  active_fact ps x = true ↔ ∀ id pv, ps !! id = Some pv → pv_supersedes pv ≠ Some x.
Proof.
  unfold active_fact. rewrite forallb_forall. split.
  - intros Hf id pv Hpv He. assert ((id, pv) ∈ map_to_list ps) as Hin by (by apply elem_of_map_to_list).
    apply list_elem_of_In, Hf in Hin. cbn in Hin. by rewrite bool_decide_true in Hin.
  - intros Hf [id pv] Hin%list_elem_of_In%elem_of_map_to_list. cbn.
    by rewrite bool_decide_false by (by eapply Hf).
Qed.

Lemma elem_of_active_provenance c j pv run :
  (pv, run) ∈ active_provenance c j ↔
  ∃ id, provenance c !! id = Some pv ∧ pv_node_id pv = j ∧ active_fact (provenance c) id = true ∧
    ingests c !! pv_ingest_id pv = Some run.
Proof.
  unfold active_provenance. rewrite list_elem_of_omap. split.
  - intros ([id pv'] & Hin%elem_of_map_to_list & Hf). cbn [fst snd] in Hf.
    destruct (_ && _) eqn:Hc; [|done]. apply andb_true_iff in Hc as [Hj%Z.eqb_eq Ha].
    destruct (ingests c !! pv_ingest_id pv') as [r|] eqn:Hr; [|done]. cbn in Hf. simplify_eq. eauto 10.
  - intros (id & Hpv & <- & Ha & Hr). exists (id, pv). split; [by apply elem_of_map_to_list|].
    cbn [fst snd]. rewrite Z.eqb_refl, Ha. cbn. by rewrite Hr.
Qed.

Section props.
Context `{Normalizer} `{Kit} `{Sha256} `{TextQueue}.

Lemma sameOriginTx_ext c c' j nm b source :
  (∀ pv run, (pv, run) ∈ active_provenance c j ↔ (pv, run) ∈ active_provenance c' j) →
  sameOriginTx c' j nm b source = sameOriginTx c j nm b source.
Proof.
  intros Hext. unfold sameOriginTx. f_equal.
  - apply eq_true_iff_eq. rewrite !existsb_exists. setoid_rewrite <- list_elem_of_In.
    split; intros ([pv run] & Hin & Hf); exists (pv, run); (split; [by apply Hext|done]).
  - f_equal. destruct (active_provenance c j) as [|[pv run] l], (active_provenance c' j) as [|[pv' run'] l'];
      try done; exfalso.
    + assert ((pv', run') ∈ @nil (provenance_row * ingest_row)) as ?%elem_of_nil by (apply Hext; left). done.
    + assert ((pv, run) ∈ @nil (provenance_row * ingest_row)) as ?%elem_of_nil by (apply Hext; left). done.
Qed.

(** ** After an import *)

Section again.
Context (c c1 c' : catalog) (run : IngestRun) (i p : Z) (f hash v id path : string) (size : Z).
Context (r pr : node_row) (row : version_row) (mt : option string).
Let pv := MkProvenanceRow i (runID run) path mt None.
Context (Hpr : nodes (tables c) !! p = Some pr) (Hpk : kind pr = dir).
Context (Hi : nodes (tables c) !! i = None) (Hv : versions (tables c) !! v = None).
Context (Hr : parent_id r = Some p ∧ name r = f ∧ kind r = file ∧ trashed_at r = None ∧ current_version_id r = Some v).
Context (Hrow : v_blob_hash row = hash).
Context (now : string).
Context (Hn : nodes (tables c') = <[i := r]> (<[p := bump now pr]> (nodes (tables c)))).
Context (Hvs : versions (tables c') = <[v := row]> (versions (tables c))).
Context (Hp' : provenance c' = <[id := pv]> (provenance c)) (Hid : provenance c !! id = None).
Context (Hin' : ingests c' = <[runID run := run_record run]> (ingests c)).
Context (Hsame : ∀ x, ingests c !! runID run = Some x → x = run_record run).
Context (Hw : ingest_wf c) (Hh : history_wf c).

Lemma imported_live_files j snm h :
  (j, snm, h) ∈ live_files c' p ↔ (j, snm, h) ∈ live_files c p ∨ (j, snm, h) = (i, f, hash).
Proof using Hpr Hpk Hi Hv Hr Hrow Hn Hvs Hh.
  rewrite !elem_of_live_files, Hn, Hvs. destruct Hr as (Hrp & Hrn & Hrk & Hrt & Hrv). split.
  - intros (s & w & wrow & [[<- <-]|[Hji [[<- <-]|[Hjp Hj]]%lookup_insert_Some]]%lookup_insert_Some
      & H3 & H4 & H5 & H6 & H7 & H8 & H9).
    + right. rewrite Hrv in H7. injection H7 as <-. rewrite lookup_insert_eq in H8. congruence.
    + cbn in H5. congruence.
    + left. exists s, w, wrow. split_and!; try done.
      rewrite lookup_insert_ne in H8; [done|]. intros <-.
      destruct (hw_current c Hh j s v Hj H7) as (x & Hx & _). congruence.
  - intros [(s & w & wrow & Hj & H3 & H4 & H5 & H6 & H7 & H8 & H9)|[= -> -> ->]].
    + exists s, w, wrow. split_and!; try done.
      * rewrite !lookup_insert_ne; [done|congruence|]. intros <-. congruence.
      * rewrite lookup_insert_ne; [done|congruence].
    + exists r, v, row. rewrite !lookup_insert_eq. done.
Qed.

(** The facts about the other nodes are as before, and the new node has the new
    one. *)
Lemma imported_active x : active_fact (provenance c') x = active_fact (provenance c) x.
Proof using Hp' Hid.
  apply eq_true_iff_eq. rewrite !active_fact_true, Hp'. split.
  - intros Hf y q Hy. apply (Hf y). rewrite lookup_insert_ne; [done|congruence].
  - intros Hf y q [[<- <-]|[_ Hy]]%lookup_insert_Some; [done|by eapply Hf].
Qed.

Lemma imported_origins j nm b source :
  j ≠ i → sameOriginTx c' j nm b source = sameOriginTx c j nm b source.
Proof using Hp' Hid Hin' Hsame Hw.
  intros Hj. apply sameOriginTx_ext. intros q rn. rewrite !elem_of_active_provenance.
  setoid_rewrite imported_active. rewrite Hp', Hin'. split.
  - intros (x & Hx & <- & Ha & Hrn). exists x. split_and!; [rewrite lookup_insert_ne; [done|congruence]|done..|].
    destruct (decide (pv_ingest_id q = runID run)) as [He|]; [|by rewrite lookup_insert_ne].
    rewrite He, lookup_insert_eq in *. f_equal. symmetry. by apply Hsame.
  - intros (x & [[<- <-]|[_ Hx]]%lookup_insert_Some & Hq & Ha & Hrn); [done|]. exists x. split_and!; [done..|].
    destruct (iw_run c Hw x q Hx) as [rn' Hrn']. rewrite Hrn'. f_equal.
    apply lookup_insert_Some in Hrn as [[He <-]|[_ Hrn]]; [|congruence].
    apply Hsame. by rewrite He.
Qed.

Lemma imported_origin nm b source :
  HasPrefix (in_source_kind (run_record run)) embeddedSourceKindPrefix = false →
  in_source_kind (run_record run) = source → NormalizeName (path_Base path) = Ok nm →
  sameOriginTx c' i nm b source = true.
Proof using Hp' Hid Hin' Hw.
  intros Hk <- Hnm. unfold sameOriginTx. apply orb_true_iff. left. apply existsb_exists.
  exists (pv, run_record run). split.
  - apply list_elem_of_In, elem_of_active_provenance. exists id. rewrite imported_active, Hp', Hin'.
    cbn. rewrite !lookup_insert_eq. split_and!; [done|done| |done].
    apply active_fact_true. intros y q Hy. rewrite (iw_root c Hw y q Hy). done.
  - cbn. by rewrite Hk, String.eqb_refl, Hnm, String.eqb_refl.
Qed.

(** The second import therefore recognizes the file, and no other. *)
Lemma imported_resolve nm source :
  HasPrefix (in_source_kind (run_record run)) embeddedSourceKindPrefix = false →
  in_source_kind (run_record run) = source → NormalizeName (path_Base path) = Ok nm →
  resolveIngestNameTx c p nm hash source = Ok (FreshName f) →
  resolveIngestNameTx c' p nm hash source = Ok (AlreadyImported i).
Proof using Hpr Hpk Hi Hv Hr Hrow Hn Hvs Hh Hp' Hid Hin' Hsame Hw.
  intros Hk Hs Hnm Hres. destruct (resolve_spec c p nm hash source) as (_ & _ & Hspec).
  destruct (Hspec _ Hres) as (Hpar & Hno & m & _ & Hf & _).
  destruct (resolve_spec c' p nm hash source) as (Hok & _ & Hspec').
  destruct Hok as [t Ht].
  { apply Forall_forall. intros [[j snm] h] [Hin|Hin]%imported_live_files.
    - by eapply Forall_forall in Hpar.
    - injection Hin as -> -> ->. unfold parses. cbn. rewrite Hf.
      destruct (parseSuffix _ _ _) eqn:Hp; [done|]. by apply parseSuffix_suffixedName_returns in Hp. }
  rewrite Ht. destruct (Hspec' _ Ht) as [_ Hr']. destruct t as [f'|j]; cbn in Hr'.
  - destruct Hr' as [Hno' _]. exfalso.
    assert ((i, f, hash) ∈ live_files c' p) as Hin by (apply imported_live_files; by right).
    apply Hno' in Hin. by rewrite imported_origin in Hin.
  - destruct Hr' as (snm & Hin & Ho). destruct (decide (j = i)) as [->|Hji]; [done|]. exfalso.
    apply imported_live_files in Hin as [Hin|Hin]; [|congruence].
    rewrite imported_origins in Ho by done. apply Hno in Hin. congruence.
Qed.
End again.

(** The run only lends its identity to the checks of a fact. *)
Lemma validateProvenanceFields_run run1 run2 path mt :
  validateIngestRecord (runID run2) (run_record run2) = Ok tt →
  validateProvenanceFields (MkProvenanceRow 1 (runID run1) path mt None) = Ok tt →
  validateProvenanceFields (MkProvenanceRow 1 (runID run2) path mt None) = Ok tt.
Proof.
  unfold validateIngestRecord, validateProvenanceFields. cbn [pv_node_id pv_original_path pv_ingest_id
    pv_original_mtime pv_supersedes]. intros Hr Hp.
  apply bind_Ok_iff in Hr as (u & _ & Hr). apply bind_Ok_iff in Hr as ([] & -> & _).
  apply bind_Ok_iff in Hp as (u1 & -> & Hp). apply bind_Ok_iff in Hp as (u2 & _ & Hp). exact Hp.
Qed.

(** ** The properties *)

Lemma adopt_imported_creates_nothing c id hash size complete physical generation c' receipt created :
  adopt_imported c id hash size complete physical generation = Ok (c', (receipt, created)) → created = false.
Proof.
  unfold adopt_imported. intros Ha. apply bind_Ok_iff in Ha as (c1 & _ & Ha). apply bind_Ok_iff in Ha as (n & _ & Ha).
  destruct (negb complete); [by injection Ha|]. apply bind_Ok_iff in Ha as (v & _ & Ha).
  apply bind_Ok_iff in Ha as (pc & _ & Ha). by injection Ha.
Qed.
(** C22: an import is idempotent: once a file was imported under its own base
    name, importing the same bytes under that name again, in any run of the
    same kind, adds nothing, reports the very node the first import created and
    leaves the whole catalog as it is.  (A run whose kind carries the mark of
    embedded sources is not a filesystem import.) *)
Theorem IngestFile_again (C : AuditedContent) (I : AuditedIngest) root c run run2 p nm hash size mime mime2
    path mtime op op2 physical generation generation2 c' n :
  TreeInv.tree_wf root (tables c) → history_wf c → ingest_wf c → audit_active (tables c) = false →
  NormalizeName (path_Base path) = NormalizeName nm →
  HasPrefix (in_source_kind (run_record run)) embeddedSourceKindPrefix = false →
  in_source_kind (run_record run2) = in_source_kind (run_record run) →
  validateIngestRecord (runID run2) (run_record run2) = Ok tt →
  IngestFile run p nm hash size mime path mtime op physical generation c = (c', Ok (n, true)) →
  IngestFile run2 p nm hash size mime2 path mtime op2 physical generation2 c' = (c', Ok (n, false)).
Proof.
  intros Hwf Hh Hw Ha Hbase Hemb Hkind Hrun2 Hfirst. unfold IngestFile, ingestFile in *.
  destruct (NormalizeName nm) as [nm'|e] eqn:Hnm; [|by injection Hfirst].
  cbn [mbind result_bind] in *. rewrite Hrun2. cbn [mbind result_bind].
  destruct (validateIngestRecord (runID run) _) as [[]|e] eqn:Hrun; [|by injection Hfirst].
  cbn [mbind result_bind] in *.
  destruct (validateProvenanceFields (MkProvenanceRow 1 (runID run) _ _ _)) as [[]|e] eqn:Hpv;
    [|by injection Hfirst].
  rewrite (validateProvenanceFields_run run run2) by done. cbn [mbind result_bind] in *.
  unfold withCatalogTx, ingest_target_of in *. cbn [mbind result_bind] in *.
  destruct (resolveIngestNameTx c p nm' hash _) as [t|e] eqn:Hres; [|by injection Hfirst].
  cbn [mbind result_bind] in Hfirst. destruct t as [f|j].
  2:{ exfalso. destruct (adopt_imported _ _ _ _ _ _ _) as [[x [rc b]]|e] eqn:Had; [|by injection Hfirst].
      apply adopt_imported_creates_nothing in Had as ->. by injection Hfirst. }
  destruct (import_new _ _ _ _ _ _ _ _ _ _ _ _ _) as [[x [[[n' v'] pc] b]]|e] eqn:Himp; [|by injection Hfirst].
  cbn [fmap result_fmap] in Hfirst. injection Hfirst as <- <- ->.
  apply import_new_Ok in Himp as (_ & Hsame & c1 & m & vv & id & Hcr & Hm & Hid & Hfresh & Hend); [|done].
  cbn in Hm. subst m.
  pose proof (createFileTx_sources _ _ _ _ _ _ _ _ _ _ _ Hcr) as (Hin & Hpvs & Hprim).
  pose proof (ingest_target_canonical c false _ _ _ _ _ (NormalizeName_canonical _ _ Hnm) Hres) as Hf.
  apply (createFileTx_Ok root) in Hcr
    as (c0 & pr & Hens & Hp & Hk & _ & _ & Hi & Hvf & _ & Hn & _ & Hv & Hb & _ & _ & _ & Hws & Hl & Hpe & Hcs
      & _ & Hnn & _); [|done|done].
  pose proof (EnsureBlobTx_sources _ _ _ _ _ _ Hens) as (_ & _ & Hprim0).
  cbn [tables run_recorded with_ingests ingests provenance] in *. set (i := (node_seq (tables c) + 1)%Z) in *.
  assert (ID n' = i) as Hni by (by rewrite Hnn). rewrite Hni in *.
  assert (tables x = tables c1 ∧ provenance x = <[id := MkProvenanceRow i (runID run) path (recorded_mtime mtime) None]>
            (provenance c) ∧ ingests x = ingests c1 ∧ blobs x = blobs c1 ∧ locations x = locations c1 ∧
          pack_entries x = pack_entries c1 ∧ primaryStoreID x = primaryStoreID c1) as (Hxt & Hxp & Hxi & Hxb & Hxl & Hxe & Hxpr).
  { rewrite <- Hpvs. by destruct Hend as [[_ ->]|(_ & -> & _)]. }
  rewrite Hkind. rewrite (imported_resolve c x run i p f hash (versionID op) id path
    (new_row p f file (Some (versionID op)) (recordedAt op)) pr (file_row i hash size (stored_mime mime) op)
    (recorded_mtime mtime)) with (now := recordedAt op); try done.
  2:{ by rewrite Hxt. }
  2:{ by rewrite Hxt. }
  2:{ congruence. }
  2:{ by rewrite Hxi, Hin. }
  cbn [mbind result_bind]. unfold adopt_imported.
  rewrite (EnsureBlobTx_again (run_recorded c run) hash size physical generation generation2 c0 x Hens);
    [|congruence..].
  cbn [mbind result_bind].
  rewrite (nodeByIDTx_node_of (tables x) i); [|rewrite Hxt, Hn, lookup_insert_eq; eauto].
  cbn [mbind result_bind negb fmap result_fmap]. rewrite Hnn, Hxt. done.
Qed.

(** C23: the choice of a name for an import panics exactly when [parseSuffix]
    panics on the name of a live file of the directory, and otherwise always
    comes to an answer: a file already imported only for a live file of the
    directory with those bytes and that origin; else a member of the name's
    suffix family that no live node has, all smaller members being names of live
    nodes or read off some live file's name. *)
Theorem resolveIngestNameTx_correct c p nm hash source :
  (resolveIngestNameTx c p nm hash source = Err Panics ↔
   Exists (λ s, ¬ parses (splitSuffix nm).1 (splitSuffix nm).2 s) (live_files c p)) ∧
  match resolveIngestNameTx c p nm hash source with
  | Ok t => resolved c p nm hash source t
  | Err e => e = Panics
  end.
Proof.
  destruct (resolve_spec c p nm hash source) as (Hok & Herr & Hspec).
  assert (∀ s, Decision (parses (splitSuffix nm).1 (splitSuffix nm).2 s)) as Hdec
    by (intros s; unfold parses; apply _).
  destruct (resolveIngestNameTx c p nm hash source) as [t|e].
  - destruct (Hspec t eq_refl) as [Hall Ht]. split; [|done]. split; [done|].
    intros Hex. by apply Exists_not_Forall in Hex.
  - rewrite (Herr e eq_refl). split; [|done]. split; [intros _|done].
    apply not_Forall_Exists; [apply _|]. intros Hall. by destruct (Hok Hall).
Qed.

End props.

(** ** At work *)

Definition fs_run (n : nat) : IngestRun :=
  MkRun (newUUIDv4 (demo_bytes n)) (MkIngestRow "2024-05-01T00:00:00.000000000Z" "cli" "scan") false.
Definition demo_import : catalog * res (Node * bool) :=
  @IngestFile ascii_normalizer vault_kit fips_sha256 demo_queue refusing_content_audit refusing_ingest_audit
    (fs_run 20) 2 "a.txt" "h7" 4 "text/plain" "/scan/a.txt" "2024-04-30T12:00:00Z"
    (newContentVersionOperation (demo_bytes 21) (demo_bytes 22) "t2") [] "g7" file_vault.

Lemma demo_import_result :
  match demo_import with
  | (_, Ok (n, true)) => String.eqb (Name n) "a (2).txt"
  | _ => false
  end = true.
Proof. vm_compute. reflexivity. Qed.

(** /docs/a.txt has other bytes, so the import is named "a (2).txt". *)
Lemma IngestFile_again_witness :
  ∃ c' n, demo_import = (c', Ok (n, true)) ∧ Name n = "a (2).txt" ∧
    @IngestFile ascii_normalizer vault_kit fips_sha256 demo_queue refusing_content_audit refusing_ingest_audit
      (fs_run 30) 2 "a.txt" "h7" 4 "text/html" "/scan/a.txt" "2024-04-30T12:00:00Z"
      (newContentVersionOperation (demo_bytes 31) (demo_bytes 32) "t3") [] "g8" c' = (c', Ok (n, false)).
Proof.
  pose proof demo_import_result as Hd. destruct demo_import as [c' [[n [|]]|e]] eqn:Hs; try discriminate Hd.
  apply String.eqb_eq in Hd. exists c', n. split; [done|]. split; [exact Hd|].
  pose proof file_vault_wf as Hf.
  apply (@IngestFile_again ascii_normalizer vault_kit fips_sha256 demo_queue refusing_content_audit
    refusing_ingest_audit 1 file_vault (fs_run 20) (fs_run 30) 2 "a.txt" "h7" 4 "text/plain" "text/html"
    "/scan/a.txt" "2024-04-30T12:00:00Z" (newContentVersionOperation (demo_bytes 21) (demo_bytes 22) "t2")
    (newContentVersionOperation (demo_bytes 31) (demo_bytes 32) "t3") [] "g7" "g8" c' n
    (ct_tree _ _ (fw_content _ _ Hf)) (ct_history _ _ (fw_content _ _ Hf)) (fw_ingest _ _ Hf)
    (ct_unaudited _ _ (fw_content _ _ Hf)));
    [reflexivity|reflexivity|reflexivity|vm_compute; reflexivity|exact Hs].
Defined.

(** A directory that already holds "a).b (" takes no import named "a).b.b (":
    the two ends [parseSuffix] cuts off overlap. *)
Definition overlap_vault : catalog :=
  demo_step file_vault
    (KIngest demo_run 2 "a).b (" "h3" 4 "text/plain" "note.txt" "" true false
       (demo_bytes 40) (demo_bytes 41) [] "g3").

Lemma resolveIngestNameTx_correct_witness :
  @resolveIngestNameTx ascii_normalizer overlap_vault 2 "a).b.b (" "h8" "cli" = Err Panics ∧
  @resolveIngestNameTx ascii_normalizer overlap_vault 2 "c.txt" "h8" "cli" = Ok (FreshName "c.txt").
Proof.
  split; [|vm_compute; reflexivity].
  destruct (@resolveIngestNameTx_correct ascii_normalizer overlap_vault 2 "a).b.b (" "h8" "cli")
    as [[_ Hpanic] _]. apply Hpanic.
  apply Exists_exists.
  destruct (filter (λ s : Z * string * string, s.1.2 = "a).b (") (live_files overlap_vault 2))
    as [|s l] eqn:Hs; [vm_compute in Hs; discriminate Hs|].
  assert (s ∈ s :: l) as Hin by left. rewrite <- Hs in Hin.
  apply list_elem_of_filter in Hin as [Hn Hin]. exists s. split; [exact Hin|].
  unfold parses. rewrite Hn. vm_compute. discriminate.
Defined.
