(* ===== verification/ModelInput.v ===== *)
(** * Model-input contracts

    [document/input_contract.go] and the context prefix of
    [document/chunking.go]: the envelopes through which document and query
    text reaches an embedding model, the reviewed built-in profiles, the
    validation of a sealed contract and the length computations that predict
    the size of a rendered input without building it.

    The predicted length of a rendered input is exact, an accepted template is
    filled exactly once, and what [NewModelInputContract] returns passes the
    validator of stored contracts. *)
From S2P Require Import Prelude GoText Sha256 Runes AuditEncoding Identity.

(** ** More of package strings *)

(** [strings.Index], [None] for -1. *)
Fixpoint Index (s sub : string) : option nat :=
  if HasPrefix s sub then Some 0
  else match s with
       | "" => None
       | String _ s => S <$> Index s sub
       end.

(** [strings.Contains] *)
Definition Contains (s sub : string) : bool :=
  match Index s sub with Some _ => true | None => false end.

(** [strings.Count] for a non-empty [sub]; every occurrence drops at least one
    byte, so the length of [s] bounds the number of rounds. *)
Fixpoint count_fuel (fuel : nat) (s sub : string) : nat :=
  match fuel with
  | 0 => 0
  | S fuel =>
      match Index s sub with
      | None => 0
      | Some i => S (count_fuel fuel (sdrop (i + slen sub) s) sub)
      end
  end.
Definition Count (s sub : string) : nat := count_fuel (S (slen s)) s sub.

(** [strings.Replace(s, old, new, 1)] *)
Definition Replace1 (s old new : string) : string :=
  match Index s old with
  | None => s
  | Some i => stake i s +:+ new +:+ sdrop (i + slen old) s
  end.

Lemma Index_Some s sub i :
  Index s sub = Some i → s = stake i s +:+ sub +:+ sdrop (i + slen sub) s.
Proof.
  assert (∀ t, HasPrefix t sub = true → t = sub +:+ sdrop (slen sub) t) as Hpre.
  { intros t [r ->]%HasPrefix_spec. by rewrite sdrop_app. }
  revert i; induction s as [|a s IH]; intros i; cbn [Index].
  - destruct (HasPrefix "" sub) eqn:Hp; [|done]. intros [= <-]. by apply Hpre.
  - destruct (HasPrefix (String a s) sub) eqn:Hp.
    + intros [= <-]. by apply Hpre.
    + intros (j & Hj & ->)%fmap_Some. cbn [stake sdrop Nat.add].
      rewrite sapp_cons. f_equal. by apply IH.
Qed.

Lemma Replace1_Some s old new i :
  Index s old = Some i → Replace1 s old new = stake i s +:+ new +:+ sdrop (i + slen old) s.
Proof. unfold Replace1. by intros ->. Qed.

(** ** The contract *)

Definition modelInputContractVersion : Z := 1.
Definition modelInputContentSlot : string := "{{content}}".

Record ModelInputEncoder := mkEncoder { Mode : string; Template : string }.
#[export] Instance ModelInputEncoder_eq_dec : EqDecision ModelInputEncoder.
Proof. solve_decision. Defined.
Definition zero_encoder : ModelInputEncoder := mkEncoder "" "".

Record ModelInputContract := mkContract {
  Version : Z;
  Profile : string;
  CompatibilityID : string;
  Document : ModelInputEncoder;
  Query : ModelInputEncoder;
  QueryInstruction : string;
  Fingerprint : string;
}.
#[export] Instance ModelInputContract_eq_dec : EqDecision ModelInputContract.
Proof. solve_decision. Defined.

(** [contract.Fingerprint = fp] on a copy. *)
Definition with_fingerprint (c : ModelInputContract) (fp : string) : ModelInputContract :=
  mkContract (Version c) (Profile c) (CompatibilityID c) (Document c) (Query c)
    (QueryInstruction c) fp.

Record ModelInputContractConfig := mkConfig {
  cfg_Profile : string;
  cfg_CompatibilityID : string;
  cfg_Document : ModelInputEncoder;
  cfg_Query : ModelInputEncoder;
  cfg_QueryInstruction : string;
}.

Record builtinModelInputProfile := mkBuiltin {
  compatibilityID : string;
  documentMode : string;
  documentPrefix : string;
  queryMode : string;
  queryPrefix : string;
  queryInstruction : bool;
  requiresInstruction : bool;
}.

Definition ModelInputProfileCustom : string := "custom/v1".

Definition builtinModelInputProfiles : gmap string builtinModelInputProfile :=
  list_to_map [
    ("openai-compatible/v1", mkBuiltin "openai-compatible/text/v1" "text" "" "text" "" false false);
    ("voyage/v1", mkBuiltin "voyage/document-query/v1" "document" "" "query" "" false false);
    ("mistral/v1", mkBuiltin "mistral/text/v1" "text" "" "text" "" false false);
    ("nomic/v1", mkBuiltin "nomic/search/v1" "text" "search_document: " "text" "search_query: " false false);
    ("e5/v1", mkBuiltin "e5/asymmetric/v1" "text" "passage: " "text" "query: " false false);
    ("bge-m3/v1", mkBuiltin "bge-m3/text/v1" "text" "" "text" "" false false);
    ("gte/v1", mkBuiltin "gte/text/v1" "text" "" "text" "" false false);
    ("qwen3/v1", mkBuiltin "qwen3/text/v1" "text" "" "text" "" true false);
    ("query-instruction/v1", mkBuiltin "query-instruction/text/v1" "text" "" "text" "" true true)].

Inductive contract_error :=
  | ErrEmptyContract | ErrCustomInstruction | ErrAlias | ErrUnknownProfile | ErrOverride
  | ErrInstruction | ErrVersion | ErrCompatibilityID | ErrMode | ErrTemplate | ErrSlot
  | ErrEncode | ErrFingerprint | ErrNotReviewed.
#[export] Instance contract_error_eq_dec : EqDecision contract_error.
Proof. solve_decision. Defined.

(** [canonical.Marshal] of a contract rests on [encoding/json/v2] and is a
    parameter; [None] is its error. *)
Class ContractCodec := marshal_contract : ModelInputContract → option string.

Definition lower_id_char (extra : list ascii) (a : ascii) : bool :=
  let n := N_of_ascii a in
  ((97 <=? n) && (n <=? 122))%N || ((48 <=? n) && (n <=? 57))%N || bool_decide (a ∈ extra).

(** The loop is over runes; a byte of a rune outside ASCII is no allowed
    character either, so the check on bytes is the same. *)
Definition validateCompatibilityID (value : string) : result contract_error () :=
  _ ← check (negb (String.eqb value "") && (slen value <=? 128)%nat) ErrCompatibilityID;
  check (all_chars (lower_id_char ["_"; "-"; "."; "/"]%char) value) ErrCompatibilityID.

Definition validateModelInputEncoder (encoder : ModelInputEncoder) : result contract_error () :=
  _ ← check (bool_decide (Mode encoder ∈ ["text"; "document"; "query"])) ErrMode;
  _ ← check (ValidString (Template encoder) && (slen (Template encoder) <=? 4096)%nat) ErrTemplate;
  check (Count (Template encoder) modelInputContentSlot =? 1)%nat ErrSlot.

Definition validateQueryInstruction (instruction : string) (required : bool) :
    result contract_error () :=
  _ ← check (negb (required && String.eqb instruction "")) ErrInstruction;
  if String.eqb instruction "" then Ok ()
  else check (ValidString instruction && (slen instruction <=? 4096)%nat
              && negb (ContainsAny instruction ["000"; "013"]%char)
              && negb (Contains instruction modelInputContentSlot)) ErrInstruction.

Definition newline : string := String "010" "".

Definition queryInstructionTemplate (instruction : string) : string :=
  if String.eqb instruction "" then modelInputContentSlot
  else "Instruct: " +:+ instruction +:+ newline +:+ "Query:" +:+ modelInputContentSlot.

Definition validateModelInputContractFields (contract : ModelInputContract) :
    result contract_error () :=
  _ ← check (Version contract =? modelInputContractVersion)%Z ErrVersion;
  if String.eqb (Profile contract) "" then
    check (String.eqb (CompatibilityID contract) ""
           && bool_decide (Document contract = zero_encoder)
           && bool_decide (Query contract = zero_encoder)
           && String.eqb (QueryInstruction contract) "") ErrEmptyContract
  else
    _ ← check (negb (String.eqb (Profile contract) ModelInputProfileCustom
                     && negb (String.eqb (QueryInstruction contract) ""))) ErrCustomInstruction;
    _ ← validateCompatibilityID (CompatibilityID contract);
    _ ← validateModelInputEncoder (Document contract);
    validateModelInputEncoder (Query contract).

Definition has_overrides (config : ModelInputContractConfig) : bool :=
  negb (String.eqb (cfg_CompatibilityID config) "")
  || negb (bool_decide (cfg_Document config = zero_encoder))
  || negb (bool_decide (cfg_Query config = zero_encoder)).

(** The switch of [NewModelInputContract] on the profile. *)
Definition resolve_profile (config : ModelInputContractConfig) :
    result contract_error ModelInputContract :=
  let base := mkContract modelInputContractVersion (cfg_Profile config) in
  if String.eqb (cfg_Profile config) "" then
    _ ← check (negb (has_overrides config || negb (String.eqb (cfg_QueryInstruction config) "")))
          ErrEmptyContract;
    Ok (base "" zero_encoder zero_encoder (cfg_QueryInstruction config) "")
  else if String.eqb (cfg_Profile config) ModelInputProfileCustom then
    _ ← check (String.eqb (cfg_QueryInstruction config) "") ErrCustomInstruction;
    Ok (base (cfg_CompatibilityID config) (cfg_Document config) (cfg_Query config)
          (cfg_QueryInstruction config) "")
  else
    match builtinModelInputProfiles !! cfg_Profile config with
    | None =>
        Err (if HasPrefix (cfg_Profile config) "alias:" then ErrAlias else ErrUnknownProfile)
    | Some builtin =>
        _ ← check (negb (has_overrides config)) ErrOverride;
        _ ← check (negb (negb (queryInstruction builtin)
                         && negb (String.eqb (cfg_QueryInstruction config) ""))) ErrInstruction;
        _ ← validateQueryInstruction (cfg_QueryInstruction config) (requiresInstruction builtin);
        Ok (base (compatibilityID builtin)
              (mkEncoder (documentMode builtin) (documentPrefix builtin +:+ modelInputContentSlot))
              (mkEncoder (queryMode builtin)
                 (queryPrefix builtin +:+ queryInstructionTemplate (cfg_QueryInstruction config)))
              (cfg_QueryInstruction config) "")
    end.

(** [sha256Hex] of [document/profile.go] *)
Definition sha256Hex `{Sha256} (value : string) : string :=
  String.string_of_list_ascii (hex_encode (Sum256 (bs value))).

Section sealed.
Context `{ContractCodec} `{Sha256}.

(** The fingerprint of a contract, computed with the field cleared. *)
Definition contract_fingerprint (contract : ModelInputContract) : result contract_error string :=
  encoded ← from_lookup (marshal_contract (with_fingerprint contract "")) ErrEncode;
  Ok (sha256Hex encoded).

Definition NewModelInputContract (config : ModelInputContractConfig) :
    result contract_error ModelInputContract :=
  contract ← resolve_profile config;
  _ ← validateModelInputContractFields contract;
  fp ← contract_fingerprint contract;
  Ok (with_fingerprint contract fp).

(** [contract != canonical] compares with the fingerprint cleared on both
    sides. *)
Definition is_reviewed (contract : ModelInputContract) (config : ModelInputContractConfig) : bool :=
  match NewModelInputContract config with
  | Ok canonical => bool_decide (with_fingerprint contract "" = with_fingerprint canonical "")
  | Err _ => false
  end.

Definition validateModelInputContract (contract : ModelInputContract) :
    result contract_error () :=
  _ ← validateModelInputContractFields contract;
  fp ← contract_fingerprint contract;
  _ ← check (String.eqb (Fingerprint contract) fp) ErrFingerprint;
  _ ← check (String.eqb (Profile contract) ModelInputProfileCustom
             || String.eqb (Profile contract) ""
             || is_reviewed contract
                  (mkConfig (Profile contract) "" zero_encoder zero_encoder
                     (QueryInstruction contract))) ErrNotReviewed;
  check (negb (String.eqb (Profile contract) "")
         || is_reviewed contract (mkConfig "" "" zero_encoder zero_encoder "")) ErrNotReviewed.
End sealed.

(** ** Rendering *)

Definition EncodeDocument (contract : ModelInputContract) (content : string) : string :=
  Replace1 (Template (Document contract)) modelInputContentSlot content.
Definition EncodeQuery (contract : ModelInputContract) (content : string) : string :=
  Replace1 (Template (Query contract)) modelInputContentSlot content.

(** [int64] values are [Z]; the two guards keep every sum in range. *)
Definition modelInputRenderedLength (encoder : ModelInputEncoder) (content : string) : option Z :=
  match Index (Template encoder) modelInputContentSlot with
  | None => None
  | Some contentOffset =>
      let length := Z.of_nat contentOffset in
      if (int_max - length <? Z.of_nat (slen content))%Z then None
      else
        let length := (length + Z.of_nat (slen content))%Z in
        let suffix := (Z.of_nat (slen (Template encoder)) - Z.of_nat contentOffset
                       - Z.of_nat (slen modelInputContentSlot))%Z in
        if (int_max - length <? suffix)%Z then None else Some (length + suffix)%Z
  end.

Record AttachmentContextSnapshot := mkAttachment { Title : string; Context_ : string }.
#[export] Instance AttachmentContextSnapshot_eq_dec : EqDecision AttachmentContextSnapshot.
Proof. solve_decision. Defined.
Definition no_attachment : AttachmentContextSnapshot := mkAttachment "" "".

Definition contextualizeDocumentInput (attachment : AttachmentContextSnapshot) (content : string) :
    string :=
  if bool_decide (attachment = no_attachment) then content
  else
    (if String.eqb (Title attachment) "" then ""
     else "Title: " +:+ Title attachment +:+ newline)
    +:+ (if String.eqb (Context_ attachment) "" then ""
         else "Context: " +:+ Context_ attachment +:+ newline)
    +:+ newline +:+ content.

Definition contextualizedDocumentByteLength (attachment : AttachmentContextSnapshot)
    (contentBytes : Z) : Z :=
  (contentBytes + Z.of_nat (slen (contextualizeDocumentInput attachment "")))%Z.

Definition contextualizedDocumentRuneLength (attachment : AttachmentContextSnapshot)
    (contentRunes : Z) : Z :=
  (contentRunes + Z.of_nat (RuneCountInString (contextualizeDocumentInput attachment "")))%Z.

Definition renderedDocumentByteLength (encoder : ModelInputEncoder)
    (attachment : AttachmentContextSnapshot) (contentBytes : Z) : Z :=
  if negb (Contains (Template encoder) modelInputContentSlot) then int_max
  else (Z.of_nat (slen (Template encoder)) - Z.of_nat (slen modelInputContentSlot)
        + contextualizedDocumentByteLength attachment contentBytes)%Z.

Definition renderedDocumentRuneLength (encoder : ModelInputEncoder)
    (attachment : AttachmentContextSnapshot) (contentRunes : Z) : Z :=
  (Z.of_nat (RuneCountInString (Template encoder))
   - Z.of_nat (RuneCountInString modelInputContentSlot)
   + contextualizedDocumentRuneLength attachment contentRunes)%Z.

(** * Correctness of the model-input contracts *)

(** ** Rendering *)

Lemma contextualize_app att content :
  contextualizeDocumentInput att content = contextualizeDocumentInput att "" +:+ content.
Proof.
  unfold contextualizeDocumentInput. case_bool_decide; [done|].
  by rewrite <- !sapp_assoc.
Qed.

Lemma Index_bound s sub i : Index s sub = Some i → i + slen sub ≤ slen s.
Proof.
  assert (∀ t, HasPrefix t sub = true → slen sub ≤ slen t) as Hpre.
  { intros t [r ->]%HasPrefix_spec. rewrite slen_app. lia. }
  revert i; induction s as [|a s IH]; intros i; cbn [Index];
    (destruct (HasPrefix _ sub) eqn:Hp; [intros [= <-]; by apply Hpre|]); [done|].
  intros (j & Hj & ->)%fmap_Some. apply IH in Hj. simpl. lia.
Qed.

Lemma Replace1_length s sub new i :
  Index s sub = Some i → slen (Replace1 s sub new) = slen s - slen sub + slen new.
Proof.
  intros Hi. rewrite (Replace1_Some _ _ _ _ Hi), !slen_app, slen_stake, slen_sdrop.
  apply Index_bound in Hi. lia.
Qed.

(** [renderedDocumentByteLength] predicts, without building it, the exact
    byte length of the rendered input: the template with the contextualized
    content in place of its slot. *)
Theorem renderedDocumentByteLength_exact contract att content :
  Contains (Template (Document contract)) modelInputContentSlot = true →
  Z.of_nat (slen (EncodeDocument contract (contextualizeDocumentInput att content)))
  = renderedDocumentByteLength (Document contract) att (Z.of_nat (slen content)).
Proof.
  unfold renderedDocumentByteLength, contextualizedDocumentByteLength, EncodeDocument. intros Hc.
  rewrite Hc. unfold Contains in Hc.
  destruct (Index (Template (Document contract)) modelInputContentSlot) as [i|] eqn:Hi; [|done].
  rewrite (Replace1_length _ _ _ _ Hi), contextualize_app, slen_app. apply Index_bound in Hi.
  cbn [negb]. lia.
Qed.

Definition sample_contract : ModelInputContract :=
  mkContract 1 ModelInputProfileCustom "e5/custom" (mkEncoder "text" "passage: {{content}}")
    (mkEncoder "text" "query: {{content}}") "" "".

Example renderedDocumentByteLength_exact_witness :
  Contains (Template (Document sample_contract)) modelInputContentSlot = true ∧
  Z.of_nat (slen (EncodeDocument sample_contract
    (contextualizeDocumentInput (mkAttachment "Contract" "signed copy") "body")))
  = renderedDocumentByteLength (Document sample_contract) (mkAttachment "Contract" "signed copy")
      (Z.of_nat (slen "body")).
Proof. split; [vm_compute; reflexivity|]. apply renderedDocumentByteLength_exact. vm_compute. reflexivity. Defined.

(** [modelInputRenderedLength] is that length too, and refuses exactly the
    templates without a slot and the lengths outside [int64]. *)
Theorem modelInputRenderedLength_exact enc content :
  (Z.of_nat (slen (Template enc)) <= int_max)%Z →
  modelInputRenderedLength enc content =
    let n := Z.of_nat (slen (Replace1 (Template enc) modelInputContentSlot content)) in
    if Contains (Template enc) modelInputContentSlot && (n <=? int_max)%Z then Some n else None.
Proof.
  unfold modelInputRenderedLength, Contains. intros Ht.
  destruct (Index (Template enc) modelInputContentSlot) as [i|] eqn:Hi; [|done].
  rewrite (Replace1_length _ _ _ _ Hi). apply Index_bound in Hi. cbn [andb].
  set (m := slen modelInputContentSlot) in *.
  repeat case_match; rewrite ?Z.ltb_lt, ?Z.ltb_ge, ?Z.leb_le, ?Z.leb_gt in *; try done; try lia.
  f_equal. lia.
Qed.

(** ** The slot *)

Lemma count_fuel_no_slot fuel s sub : 0 < fuel → count_fuel fuel s sub = 0 → Contains s sub = false.
Proof. destruct fuel; [lia|]. simpl. unfold Contains. by destruct (Index s sub). Qed.

(** An accepted encoder is a prefix, one slot and a suffix without a slot. *)
Lemma validateModelInputEncoder_split enc :
  validateModelInputEncoder enc = Ok () →
  ∃ pre suf, Template enc = pre +:+ modelInputContentSlot +:+ suf ∧
    Contains suf modelInputContentSlot = false ∧
    ValidString pre = true ∧ ValidString suf = true ∧
    ∀ x, Replace1 (Template enc) modelInputContentSlot x = pre +:+ x +:+ suf.
Proof.
  unfold validateModelInputEncoder. intros (u1 & _ & H)%bind_Ok_iff.
  apply bind_Ok_iff in H as (u2 & Hv%check_Ok_iff & Hc%check_Ok_iff).
  apply andb_true_iff in Hv as [Hv _]. apply Nat.eqb_eq in Hc. unfold Count in Hc.
  cbn [count_fuel] in Hc.
  destruct (Index (Template enc) modelInputContentSlot) as [i|] eqn:Hi; [|done].
  pose proof (Index_Some _ _ _ Hi) as Hs. injection Hc as Hc.
  eexists (stake i (Template enc)), _. split; [exact Hs|].
  rewrite Hs in Hv. change modelInputContentSlot with (String "{" "{content}}") in Hv at 1.
  rewrite sapp_cons in Hv. apply ValidString_cut in Hv as [Hv1 Hv2]; [|done].
  split_and!; [|done| |].
  - eapply count_fuel_no_slot; [|exact Hc]. destruct (Template enc); simpl in *; [done|lia].
  - exact Hv2.
  - intros x. by rewrite (Replace1_Some _ _ _ _ Hi).
Qed.

(** Text reaches the model exactly once: an accepted document template is
    a fixed prefix and suffix around the content, and two different contents
    are never rendered alike. *)
Theorem EncodeDocument_substitutes contract :
  validateModelInputEncoder (Document contract) = Ok () →
  (∃ pre suf, Contains suf modelInputContentSlot = false ∧
     ∀ x, EncodeDocument contract x = pre +:+ x +:+ suf) ∧
  (∀ x y, EncodeDocument contract x = EncodeDocument contract y → x = y).
Proof.
  intros (pre & suf & _ & Hsuf & _ & _ & Hr)%validateModelInputEncoder_split.
  split; [by exists pre, suf|]. intros x y. unfold EncodeDocument. rewrite !Hr.
  by intros ?%sapp_inv_l%sapp_inv_r.
Qed.

(** ** Contracts *)

(** The configuration a validator rebuilds from a contract. *)
Definition reviewed_config (c : ModelInputContract) : ModelInputContractConfig :=
  mkConfig (Profile c) "" zero_encoder zero_encoder (QueryInstruction c).

Lemma resolve_profile_reviewed config c :
  resolve_profile config = Ok c → Profile c ≠ ModelInputProfileCustom →
  resolve_profile (reviewed_config c) = Ok c ∧
  (Profile c = "" → reviewed_config c = mkConfig "" "" zero_encoder zero_encoder "").
Proof.
  unfold resolve_profile at 1. destruct (String.eqb_spec (cfg_Profile config) "") as [Hp|Hp].
  { intros (u & Hc%check_Ok_iff & [= <-])%bind_Ok_iff _.
    apply negb_true_iff, orb_false_iff in Hc as [_ Hq%negb_false_iff%String.eqb_eq].
    unfold reviewed_config. simpl. rewrite Hp, Hq. split; [reflexivity|done]. }
  destruct (String.eqb_spec (cfg_Profile config) ModelInputProfileCustom) as [Hcu|Hcu].
  { intros (u & _ & [= <-])%bind_Ok_iff. simpl. done. }
  destruct (builtinModelInputProfiles !! cfg_Profile config) as [builtin|] eqn:Hb; [|done].
  intros (u & _ & H)%bind_Ok_iff. apply bind_Ok_iff in H as (u' & Hq & H).
  apply bind_Ok_iff in H as (u'' & Hi & [= <-]). intros _. split; [|done].
  unfold reviewed_config, resolve_profile. cbn [Profile QueryInstruction cfg_Profile cfg_QueryInstruction].
  apply String.eqb_neq in Hp, Hcu. rewrite Hp, Hcu, Hb, Hq, Hi. reflexivity.
Qed.

Lemma is_reviewed_new `{ContractCodec} `{Sha256} config c0 fp c :
  resolve_profile config = Ok c0 → validateModelInputContractFields c0 = Ok () →
  contract_fingerprint c0 = Ok fp → c = with_fingerprint c0 fp → is_reviewed c config = true.
Proof.
  intros Hr Hf Hfp ->. unfold is_reviewed, NewModelInputContract.
  rewrite Hr. cbn [mbind result_bind]. rewrite Hf. cbn [mbind result_bind].
  rewrite Hfp. cbn [mbind result_bind]. by apply bool_decide_eq_true.
Qed.

(** A contract that [NewModelInputContract] returns is accepted when it is
    read back: its fields are valid, its fingerprint is that of its canonical
    form, and a built-in profile is exactly the reviewed one. *)
Theorem NewModelInputContract_valid `{ContractCodec} `{Sha256} config c :
  NewModelInputContract config = Ok c → validateModelInputContract c = Ok ().
Proof.
  unfold NewModelInputContract. intros (c0 & Hr & H1)%bind_Ok_iff.
  apply bind_Ok_iff in H1 as ([] & Hf & H1). apply bind_Ok_iff in H1 as (fp & Hfp & [= <-]).
  unfold validateModelInputContract.
  change (validateModelInputContractFields (with_fingerprint c0 fp))
    with (validateModelInputContractFields c0).
  change (contract_fingerprint (with_fingerprint c0 fp)) with (contract_fingerprint c0).
  rewrite Hf. cbn [mbind result_bind]. rewrite Hfp. cbn [mbind result_bind].
  cbn [Fingerprint with_fingerprint Profile QueryInstruction]. rewrite String.eqb_refl. cbn [check mbind result_bind].
  destruct (String.eqb_spec (Profile c0) ModelInputProfileCustom) as [Hcu|Hcu].
  { cbn [orb check mbind result_bind]. destruct (String.eqb_spec (Profile c0) "") as [He|]; [|done].
    rewrite He in Hcu. discriminate Hcu. }
  destruct (resolve_profile_reviewed config c0 Hr Hcu) as [Hrev Hempty].
  pose proof (is_reviewed_new _ c0 fp _ Hrev Hf Hfp eq_refl) as Hir. unfold reviewed_config in *.
  rewrite Hir, orb_true_r. cbn [check mbind result_bind].
  destruct (String.eqb_spec (Profile c0) "") as [He|]; [|done].
  rewrite <- (Hempty He), Hir. done.
Qed.

Section witnesses.
(** Any total encoding will do to show that the hypotheses can hold. *)
Let codec : ContractCodec := λ c, Some (CompatibilityID c +:+ Template (Document c)).
Definition e5_config : ModelInputContractConfig := mkConfig "e5/v1" "" zero_encoder zero_encoder "".
Definition e5_contract : ModelInputContract :=
  match @NewModelInputContract codec _ e5_config with Ok c => c | Err _ => sample_contract end.

Example NewModelInputContract_valid_witness :
  @NewModelInputContract codec fips_sha256 e5_config = Ok e5_contract ∧
  @validateModelInputContract codec fips_sha256 e5_contract = Ok ().
Proof.
  assert (@NewModelInputContract codec fips_sha256 e5_config = Ok e5_contract) as Hn
    by (vm_compute; reflexivity).
  exact (conj Hn (@NewModelInputContract_valid codec fips_sha256 e5_config e5_contract Hn)).
Defined.

Example EncodeDocument_substitutes_witness :
  validateModelInputEncoder (Document e5_contract) = Ok () ∧
  (∀ x y, EncodeDocument e5_contract x = EncodeDocument e5_contract y → x = y).
Proof.
  assert (validateModelInputEncoder (Document e5_contract) = Ok ()) as Hv by (vm_compute; reflexivity).
  exact (conj Hv (proj2 (EncodeDocument_substitutes e5_contract Hv))).
Defined.
End witnesses.
