(* ===== verification/Chunking.v ===== *)
(** * Chunking evidence into embedding inputs

    [document/tokenizer.go], [document/rune_tokenizer.go],
    [document/chunking.go] and the parts of [document/generation.go] it calls.
    Evidence units are tokenized one by one; runs of tokens become provider
    inputs that fit every limit; each probe is charged to a work budget.

    Rune, byte and token offsets that the code has validated to be
    non-negative are [nat]; what a tokenizer returns and the [int64] budgets
    and totals are [Z].  The fitter's [work] field is the state of the monad
    [M]; its token slice, which [advance] updates, is passed explicitly. *)
From S2P Require Import Prelude GoText Sha256 Runes AuditEncoding Identity ModelInput.

(** ** Errors *)

(** [ErrTokenizerLimit], [errProviderInputLimit] and [errContentTokenLimit]
    are tested with [errors.Is]; the others name the message returned.
    [Panic] is an index out of range and [OutOfFuel] a loop cut short: neither
    is ever returned (see [ChunkingProps]). *)
Inductive chunk_error :=
  | ErrTokenizerLimit | errProviderInputLimit | errContentTokenLimit
  | ErrTokenizerFailed | ErrNoTokens | ErrBoundaryNotContiguous | ErrBoundaryBounds
  | ErrBoundaryCover | ErrWorkBytes | ErrWorkTokens | ErrEmptyRange | ErrCrossUnits | ErrLeavesUnit
  | ErrIndivisible | ErrTruncationSearch | ErrNoRune | ErrNonMonotonic | ErrOverlapLost
  | ErrNoAdvance | ErrTooManyInputs | ErrAggregate | ErrIdentityChanged
  | ErrPolicy | ErrLimits | ErrEvidence | ErrSealing | Panic | OutOfFuel.
#[export] Instance chunk_error_eq_dec : EqDecision chunk_error.
Proof. solve_decision. Defined.

Definition fittingLimitError (e : chunk_error) : bool :=
  match e with errProviderInputLimit | errContentTokenLimit => true | _ => false end.

(** ** Tokenizers *)

Definition maxEmbeddingTokensPerGeneration : Z := 1000000.
Definition maxTokenizerIdentityBytes : nat := 128.

Record TokenizerIdentity := mkIdentity { id_Name : string; id_Revision : string }.
#[export] Instance TokenizerIdentity_eq_dec : EqDecision TokenizerIdentity.
Proof. solve_decision. Defined.

Record TokenBoundary := mkBoundary { tb_Start : Z; tb_End : Z }.

(** A tokenizer's own errors are not distinguished. *)
Inductive tokenizer_error := TokenizerLimit | TokenizerFailure.

(** The interface; nothing is assumed of an implementation. *)
Class Tokenizer := {
  Tokenizer_Identity : TokenizerIdentity;
  PrefixTokenCountsMonotonic : bool;
  Tokenize : string → Z → result tokenizer_error (list TokenBoundary);
}.

(** One round of the loop of [validateTokenBoundaries]. *)
Definition next_boundary (runeCount : nat) (expectedStart : Z) (token : TokenBoundary) :
    result chunk_error Z :=
  _ ← check (tb_Start token =? expectedStart)%Z ErrBoundaryNotContiguous;
  _ ← check ((tb_Start token <? tb_End token) && (tb_End token <=? Z.of_nat runeCount))%Z
        ErrBoundaryBounds;
  Ok (tb_End token).

Definition validateTokenBoundaries (tokens : list TokenBoundary) (runeCount : nat) (limit : Z) :
    result chunk_error () :=
  _ ← check (negb (length tokens =? 0)%nat) ErrNoTokens;
  _ ← check (Z.of_nat (length tokens) <=? limit)%Z ErrTokenizerLimit;
  expectedStart ← foldM (next_boundary runeCount) 0%Z tokens;
  check (expectedStart =? Z.of_nat runeCount)%Z ErrBoundaryCover.

(** [RuneTokenizer]: one token per rune. *)
Definition RuneTokenizer_Tokenize (text : string) (limit : Z) :
    result tokenizer_error (list TokenBoundary) :=
  let count := RuneCountInString text in
  if (limit <? Z.of_nat count)%Z then Err TokenizerLimit
  else Ok ((λ index, mkBoundary (Z.of_nat index) (Z.of_nat index + 1)) <$> seq 0 count).
#[export] Instance RuneTokenizer : Tokenizer := {|
  Tokenizer_Identity := mkIdentity "utf8-rune" "v1";
  PrefixTokenCountsMonotonic := true;
  Tokenize := RuneTokenizer_Tokenize;
|}.

(** ** Evidence, policies and results *)

Record EvidenceTextRange := mkRange { rng_Start : Z; rng_End : Z }.

(** The fields of [NormalizedEvidenceUnitV1] that chunking reads: the text
    ranges of its regions and, table by table, of its cells. *)
Record EvidenceUnit := mkUnit {
  HeadingPath : list string;
  UnitText : string;
  Regions : list EvidenceTextRange;
  Tables : list (list EvidenceTextRange);
}.

Definition TruncationPolicyReject : string := "reject_indivisible".
Definition TruncationPolicyTruncateIndivisible : string := "truncate_indivisible".
Definition maxEmbeddingChunkTokens : Z := 1000000.
Definition maxEmbeddingInputBytes : Z := 2 ^ 30.

Record EmbeddingChunkPolicy := mkChunkPolicy {
  ContextFingerprint : string;
  Formatter : string;
  MaxTokens : Z;
  OverlapTokens : Z;
  TokenizerName : string;
  TokenizerRevision : string;
  TruncationPolicy : string;
}.

Record InputPolicy := mkInputPolicy {
  Chunk : EmbeddingChunkPolicy;
  ModelInput_ : ModelInputContract;
  LexicalEvidenceFingerprint : string;
  MaxInputTokens : Z;
  MaxInputBytes : Z;
  AttachmentContext : option AttachmentContextSnapshot;
}.

Record GenerationLimits := mkLimits {
  MaxInputs : Z;
  MaxTotalContentTokens : Z;
  MaxTotalRenderedTokens : Z;
  MaxTotalContentBytes : Z;
  MaxTotalRenderedBytes : Z;
  MaxFittingWorkTokens : Z;
  MaxFittingWorkBytes : Z;
}.

Record ChunkSpan := mkSpan { UnitIndex : nat; CharStart : nat; CharEnd : nat }.
#[export] Instance ChunkSpan_eq_dec : EqDecision ChunkSpan.
Proof. solve_decision. Defined.

Record GeneratedEmbeddingInput := mkInput {
  Key : string;
  Content : string;
  Rendered : string;
  ContentTokens : Z;
  RenderedTokens : Z;
  Checksum : string;
  InputHeadingPath : list string;
  SourceSpan : ChunkSpan;
  Truncated : bool;
}.

(** ** Validation *)

Definition validateStableToken (value : string) (maxLength : nat) : result chunk_error () :=
  _ ← check (negb (String.eqb value "") && (slen value <=? maxLength)%nat) ErrPolicy;
  check (all_chars (lower_id_char ["_"; "-"; "."]%char) value) ErrPolicy.

Definition validateTokenizerIdentity (identity : TokenizerIdentity) : result chunk_error () :=
  _ ← validateStableToken (id_Name identity) maxTokenizerIdentityBytes;
  validateStableToken (id_Revision identity) maxTokenizerIdentityBytes.

(** [canonical.IsSHA256Hex] *)
Definition IsSHA256Hex (value : string) : bool :=
  (slen value =? 64)%nat && isLowerHex (bs value).
Definition validateFingerprint (value : string) : result chunk_error () :=
  check (IsSHA256Hex value) ErrPolicy.

Definition IsValidTruncationPolicy (policy : string) : bool :=
  String.eqb policy TruncationPolicyReject || String.eqb policy TruncationPolicyTruncateIndivisible.

(** An error of the contract package is a policy error here. *)
Definition as_policy_error {A} (m : result contract_error A) : result chunk_error A :=
  match m with Ok a => Ok a | Err _ => Err ErrPolicy end.

Definition declaredIdentity (policy : EmbeddingChunkPolicy) : TokenizerIdentity :=
  mkIdentity (TokenizerName policy) (TokenizerRevision policy).

Definition validateChunkPolicy (policy : EmbeddingChunkPolicy) : result chunk_error () :=
  _ ← check ((0 <? MaxTokens policy) && (MaxTokens policy <=? maxEmbeddingChunkTokens))%Z ErrPolicy;
  _ ← check ((0 <=? OverlapTokens policy) && (OverlapTokens policy <? MaxTokens policy))%Z ErrPolicy;
  _ ← as_policy_error (validateCompatibilityID (Formatter policy));
  _ ← validateTokenizerIdentity (declaredIdentity policy);
  _ ← check (IsValidTruncationPolicy (TruncationPolicy policy)) ErrPolicy;
  validateFingerprint (ContextFingerprint policy).

Definition validateProviderInputLimits (maxInputTokens maxInputBytes : Z) : result chunk_error () :=
  check ((1 <=? maxInputTokens) && (maxInputTokens <=? maxEmbeddingChunkTokens)
         && (1 <=? maxInputBytes) && (maxInputBytes <=? maxEmbeddingInputBytes))%Z ErrPolicy.

Definition maxAttachmentTitleBytes : nat := 512.
Definition maxAttachmentContextBytes : nat := N.to_nat 4096.

Definition validateAttachmentContextSnapshot `{Normalizer} (snapshot : AttachmentContextSnapshot) :
    result chunk_error () :=
  _ ← check (negb (String.eqb (Title snapshot) "" && String.eqb (Context_ snapshot) "")) ErrPolicy;
  let field value limit :=
    check (ValidString value && (slen value <=? limit)%nat
           && negb (ContainsAny value ["000"; "013"]%char) && String.eqb (nfc value) value) ErrPolicy in
  _ ← field (Title snapshot) maxAttachmentTitleBytes;
  field (Context_ snapshot) maxAttachmentContextBytes.

Definition validateInputPolicy `{Normalizer, Tokenizer, ContractCodec, Sha256} (policy : InputPolicy) :
    result chunk_error () :=
  _ ← validateChunkPolicy (Chunk policy);
  _ ← check (bool_decide (Tokenizer_Identity = declaredIdentity (Chunk policy))) ErrPolicy;
  _ ← validateProviderInputLimits (MaxInputTokens policy) (MaxInputBytes policy);
  _ ← as_policy_error (validateModelInputContract (ModelInput_ policy));
  _ ← check (negb (String.eqb (Profile (ModelInput_ policy)) "")) ErrPolicy;
  _ ← validateFingerprint (LexicalEvidenceFingerprint policy);
  match AttachmentContext policy with
  | Some snapshot => validateAttachmentContextSnapshot snapshot
  | None => Ok ()
  end.

Definition maxGeneratedInputs : Z := 100000.
Definition maxGenerationTotalTokens : Z := 10000000.
Definition maxGenerationTotalBytes : Z := 2 ^ 30.
Definition maxGenerationWorkTokens : Z := 100000000.
Definition maxGenerationWorkBytes : Z := 16 * 2 ^ 30.

Definition validateGenerationLimits (limits : GenerationLimits) : result chunk_error () :=
  let within '(value, limit) := ((1 <=? value) && (value <=? limit))%Z in
  _ ← check (within (MaxInputs limits, maxGeneratedInputs)) ErrLimits;
  check (forallb within [
    (MaxTotalContentTokens limits, maxGenerationTotalTokens);
    (MaxTotalRenderedTokens limits, maxGenerationTotalTokens);
    (MaxTotalContentBytes limits, maxGenerationTotalBytes);
    (MaxTotalRenderedBytes limits, maxGenerationTotalBytes);
    (MaxFittingWorkTokens limits, maxGenerationWorkTokens);
    (MaxFittingWorkBytes limits, maxGenerationWorkBytes)]) ErrLimits.

(** ** Aggregates *)

(** No sum is formed: [limit - current] is the only difference, and it is in
    range once the first four conditions hold. *)
Definition addWithinAggregate (current addition limit : Z) : bool :=
  ((0 <=? current) && (0 <=? addition) && (0 <=? limit) && (current <=? limit)
   && (addition <=? limit - current))%Z.

Record generationTotals := mkTotals {
  contentTokens : Z;
  renderedTokens : Z;
  contentBytes : Z;
  renderedBytes : Z;
}.
Definition zero_totals : generationTotals := mkTotals 0 0 0 0.

(** [generationTotals.add]; [None] for false, and then nothing is added. *)
Definition totals_add (totals : generationTotals) (input : GeneratedEmbeddingInput)
    (limit : generationTotals) : option generationTotals :=
  let cb := Z.of_nat (slen (Content input)) in
  let rb := Z.of_nat (slen (Rendered input)) in
  if addWithinAggregate (contentTokens totals) (ContentTokens input) (contentTokens limit)
     && addWithinAggregate (renderedTokens totals) (RenderedTokens input) (renderedTokens limit)
     && addWithinAggregate (contentBytes totals) cb (contentBytes limit)
     && addWithinAggregate (renderedBytes totals) rb (renderedBytes limit)
  then Some (mkTotals (contentTokens totals + ContentTokens input)
               (renderedTokens totals + RenderedTokens input)
               (contentBytes totals + cb) (renderedBytes totals + rb))
  else None.

Definition limit_totals (limits : GenerationLimits) : generationTotals :=
  mkTotals (MaxTotalContentTokens limits) (MaxTotalRenderedTokens limits)
    (MaxTotalContentBytes limits) (MaxTotalRenderedBytes limits).

(** [chunkLimits] has the fields of the totals. *)
Definition policyChunkLimits (policy : InputPolicy) : generationTotals :=
  mkTotals (MaxTokens (Chunk policy)) (MaxInputTokens policy)
    (MaxInputBytes policy) (MaxInputBytes policy).

(** ** The work budget and the monad of the fitter *)

Record fittingWorkBudget := mkWork { remainingTokens : Z; remainingBytes : Z }.

Definition boundedWorkTotal (parts : list Z) (limit : Z) : option Z :=
  foldl (λ total part, total ← total;
           if addWithinAggregate total part limit then Some (total + part)%Z else None)
    (Some 0%Z) parts.

(** Computations that read and spend the budget; an error keeps what was spent
    before it. *)
Definition M (A : Type) : Type := fittingWorkBudget → result chunk_error A * fittingWorkBudget.

Definition ret {A} (a : A) : M A := λ w, (Ok a, w).
Definition fail {A} (e : chunk_error) : M A := λ w, (Err e, w).
Definition bind {A B} (m : M A) (f : A → M B) : M B := λ w,
  match m w with
  | (Ok a, w) => f a w
  | (Err e, w) => (Err e, w)
  end.
Definition lift {A} (r : result chunk_error A) : M A := λ w, (r, w).
(** The error as a value: [if err == nil ... if !fittingLimitError(err) ...]. *)
Definition attempt {A} (m : M A) : M (result chunk_error A) := λ w,
  let '(r, w) := m w in (Ok r, w).

Declare Scope chunk_scope.
Delimit Scope chunk_scope with chunk.
Notation "'let*' x := m 'in' k" := (bind m (λ x, k))
  (at level 200, x binder, m at level 200, k at level 200, only parsing) : chunk_scope.
Open Scope chunk_scope.

Definition consume (byteParts tokenParts : list Z) : M () := λ w,
  match boundedWorkTotal byteParts (remainingBytes w) with
  | None => (Err ErrWorkBytes, w)
  | Some bytes =>
      match boundedWorkTotal tokenParts (remainingTokens w) with
      | None => (Err ErrWorkTokens, w)
      | Some tokens =>
          (Ok (), mkWork (remainingTokens w - tokens) (remainingBytes w - bytes))
      end
  end.

(** ** Tokenizing the evidence *)

Record embeddingToken := mkToken {
  unitIndex : nat;
  tok_start : nat;
  tok_end : nat;
  byteStart : nat;
  byteEnd : nat;
  unitEnd : nat;
}.

Definition set_byteStart (b : nat) (t : embeddingToken) : embeddingToken :=
  mkToken (unitIndex t) (tok_start t) (tok_end t) b (byteEnd t) (unitEnd t).
Definition set_byteEnd (b : nat) (t : embeddingToken) : embeddingToken :=
  mkToken (unitIndex t) (tok_start t) (tok_end t) (byteStart t) b (unitEnd t).

(** [naturalRuneEnds]: the keys of the returned map. *)
Definition naturalRuneEnds (unit : EvidenceUnit) (runeCount : nat) : gset Z :=
  let ranges := Regions unit ++
    omap (λ cells : list EvidenceTextRange,
            match cells with
            | [] => None
            | cell :: cells =>
                Some (foldl (λ r cell, mkRange (Z.min (rng_Start r) (rng_Start cell))
                                         (Z.max (rng_End r) (rng_End cell))) cell cells)
            end) (Tables unit) in
  {[ Z.of_nat runeCount ]} ∪ list_to_set (rng_Start <$> ranges) ∪ list_to_set (rng_End <$> ranges).

(** [tokens[i].f = b], a panic out of range. *)
Definition update (f : embeddingToken → embeddingToken) (i : nat) (tokens : list embeddingToken) :
    result chunk_error (list embeddingToken) :=
  match tokens !! i with
  | Some _ => Ok (alter f i tokens)
  | None => Err Panic
  end.

(** One round of [for byteIndex := range unit.Text]. *)
Definition locate_rune (st : list embeddingToken * nat * nat) (byteIndex : nat) :
    result chunk_error (list embeddingToken * nat * nat) :=
  let '(tokens, runeIndex, cursor) := st in
  current ← from_lookup (tokens !! cursor) Panic;
  if (runeIndex =? tok_end current)%nat then
    tokens ← update (set_byteEnd byteIndex) cursor tokens;
    tokens ← update (set_byteStart byteIndex) (S cursor) tokens;
    Ok (tokens, S runeIndex, S cursor)
  else Ok (tokens, S runeIndex, cursor).

(** The body of the loop over the units. *)
Definition tokenize_unit `{Tokenizer} (st : list embeddingToken * list bool)
    (indexed : nat * EvidenceUnit) : result chunk_error (list embeddingToken * list bool) :=
  let '(tokens, naturalEnds) := st in
  let '(index, unit) := indexed in
  let runeCount := RuneCountInString (UnitText unit) in
  if (runeCount =? 0)%nat then Ok st
  else
    let remaining := (maxEmbeddingTokensPerGeneration - Z.of_nat (length tokens))%Z in
    _ ← check (1 <=? remaining)%Z ErrTokenizerLimit;
    unitTokens ← match Tokenize (UnitText unit) remaining with
                 | Ok unitTokens => Ok unitTokens
                 | Err TokenizerLimit => Err ErrTokenizerLimit
                 | Err TokenizerFailure => Err ErrTokenizerFailed
                 end;
    _ ← validateTokenBoundaries unitTokens runeCount remaining;
    let base := length tokens in
    let unitEnd := (base + length unitTokens)%nat in
    let cuts := naturalRuneEnds unit runeCount in
    let tokens := tokens ++
      ((λ token, mkToken index (Z.to_nat (tb_Start token)) (Z.to_nat (tb_End token)) 0 0 unitEnd)
         <$> unitTokens) in
    let naturalEnds :=
      take (S base) (naturalEnds ++ replicate (S unitEnd - length naturalEnds) false)
      ++ ((λ token, bool_decide (tb_End token ∈ cuts)) <$> unitTokens) in
    let naturalEnds := <[unitEnd := true]> naturalEnds in
    '(tokens, _, _) ← foldM locate_rune (tokens, 0%nat, base) (range_offsets (UnitText unit));
    tokens ← update (set_byteEnd (slen (UnitText unit))) (unitEnd - 1) tokens;
    Ok (tokens, naturalEnds).

Definition tokenizeEvidence `{Tokenizer} (units : list EvidenceUnit) :
    result chunk_error (list embeddingToken * list bool) :=
  foldM tokenize_unit ([], []) (zip (seq 0 (length units)) units).

(** [naturalEnds[i]], a panic out of range. *)
Definition natural_at (naturalEnds : list bool) (i : nat) : result chunk_error bool :=
  from_lookup (naturalEnds !! i) Panic.

(** The descending searches of [chooseChunkEnd] and [preferNaturalFitEnd]:
    [n] candidates from [start + n] down to [start + 1]. *)
Fixpoint last_natural (naturalEnds : list bool) (start : nat) (allowed : nat → bool) (n : nat) :
    result chunk_error (option nat) :=
  match n with
  | 0 => Ok None
  | S n' =>
      let candidate := (start + n)%nat in
      natural ← natural_at naturalEnds candidate;
      if (natural && allowed candidate)%bool then Ok (Some candidate)
      else last_natural naturalEnds start allowed n'
  end.

Definition chooseChunkEnd (start total : nat) (budget overlap : Z) (naturalEnds : list bool) :
    result chunk_error nat :=
  let hardEnd := Nat.min total (start + Z.to_nat budget) in
  found ← last_natural naturalEnds start
    (λ candidate, (candidate =? total)%nat || (overlap <? Z.of_nat candidate - Z.of_nat start)%Z)
    (hardEnd - start);
  Ok (default hardEnd found).

Definition preferNaturalFitEnd (start fittedEnd : nat) (overlap : Z) (naturalEnds : list bool) :
    result chunk_error nat :=
  found ← last_natural naturalEnds start
    (λ candidate, (overlap <? Z.of_nat candidate - Z.of_nat start)%Z) (fittedEnd - start);
  Ok (default fittedEnd found).

(** [advanceRunes]; decoding at the end of the text takes no byte. *)
Fixpoint advanceRunes (text : string) (byteOffset runes : nat) : nat :=
  match runes with
  | 0 => byteOffset
  | S runes =>
      let size := (DecodeRuneInString (sdrop byteOffset text)).2 in
      advanceRunes text (byteOffset + size) runes
  end.

(** ** The fitter *)

Definition maxTruncationSearchRunes : nat := N.to_nat 4096.
Definition maxNonMonotonicFitChecks : nat := N.to_nat 4096.

(** The binary searches of [maximalByteFit], [tokenFit], [truncatedTokenFit]
    and [maximalTruncatedByteFit]: the loop [for low <= high] with 0 for "none
    fits".  The interval shrinks in every round, so [S (S high - low)] rounds
    are enough. *)
Fixpoint binary_search (fuel : nat) (probe : nat → M bool) (low high bestEnd : nat) : M nat :=
  if (high <? low)%nat then ret bestEnd
  else
    match fuel with
    | 0 => fail OutOfFuel
    | S fuel =>
        let candidate := (low + (high - low) / 2)%nat in
        let* fits := probe candidate in
        if fits : bool then binary_search fuel probe (candidate + 1) high candidate
        else binary_search fuel probe low (candidate - 1) bestEnd
    end.
Definition search_fuel (low high : nat) : nat := S (S high - low).

(** The linear searches of [tokenFit] and [truncatedTokenFit], [n] candidates
    from [low + n - 1] down to [low]. *)
Fixpoint search_down (probe : nat → M bool) (low n : nat) : M (option nat) :=
  match n with
  | 0 => ret None
  | S n =>
      let* fits := probe (low + n)%nat in
      if fits : bool then ret (Some (low + n)%nat) else search_down probe low n
  end.

(** [fmt.Sprintf("chunk-%06d-%s", ordinal, checksum[:min(12, len(checksum))])] *)
Definition pad6 (s : string) : string :=
  String.string_of_list_ascii (replicate (6 - slen s) "0"%char) +:+ s.
Definition generatedInputKey (ordinal : nat) (checksum : string) : string :=
  "chunk-" +:+ pad6 (Itoa (Z.of_nat ordinal)) +:+ "-" +:+ stake (Nat.min 12 (slen checksum)) checksum.

Record fittedInput := mkFitted {
  fit_input : GeneratedEmbeddingInput;
  contentBoundaries : list TokenBoundary;
  fit_end : nat;
  fit_truncated : bool;
}.

Section fitter.
Context `{Tokenizer} `{Sha256}.
Context (units : list EvidenceUnit) (naturalEnds : list bool) (policy : InputPolicy).

(** Fields that [newInputFitter] computes. *)
Definition monotonic : bool :=
  PrefixTokenCountsMonotonic
  && HasSuffix (Template (Document (ModelInput_ policy))) modelInputContentSlot.
Definition attachment : AttachmentContextSnapshot :=
  default no_attachment (AttachmentContext policy).

Definition tokenFrom (token : embeddingToken) (runeStart : nat) : result chunk_error embeddingToken :=
  unit ← from_lookup (units !! unitIndex token) Panic;
  Ok (mkToken (unitIndex token) runeStart (tok_end token)
        (advanceRunes (UnitText unit) (byteStart token) (runeStart - tok_start token))
        (byteEnd token) (unitEnd token)).

Definition tokenUntil (token : embeddingToken) (runeEnd : nat) : result chunk_error embeddingToken :=
  unit ← from_lookup (units !! unitIndex token) Panic;
  Ok (mkToken (unitIndex token) (tok_start token) runeEnd (byteStart token)
        (advanceRunes (UnitText unit) (byteStart token) (runeEnd - tok_start token))
        (unitEnd token)).

(** The source span, the content and the headings of a token range. *)
Definition tokenMetadata (tokens : list embeddingToken) :
    result chunk_error (ChunkSpan * string * list string) :=
  match tokens, last tokens with
  | first :: _, Some last =>
      _ ← check ((unitIndex first =? unitIndex last) && (unitIndex first <? length units)
                 && (tok_start first <? tok_end last))%nat ErrCrossUnits;
      unit ← from_lookup (units !! unitIndex first) Panic;
      _ ← check ((byteStart first <? byteEnd last) && (byteEnd last <=? slen (UnitText unit)))%nat
            ErrLeavesUnit;
      Ok (mkSpan (unitIndex first) (tok_start first) (tok_end last),
          slice (UnitText unit) (byteStart first) (byteEnd last), HeadingPath unit)
  | _, _ => Err ErrEmptyRange
  end.

(** [int64(tokens[len(tokens)-1].end - tokens[0].start)] *)
Definition content_runes (tokens : list embeddingToken) : Z :=
  match tokens, last tokens with
  | first :: _, Some last => Z.of_nat (tok_end last) - Z.of_nat (tok_start first)
  | _, _ => 0
  end.

Definition encoder : ModelInputEncoder := Document (ModelInput_ policy).

Definition fitsByteLimits (tokens : list embeddingToken) (limits : generationTotals) : M bool :=
  let* metadata := lift (tokenMetadata tokens) in
  let cb := Z.of_nat (slen metadata.1.2) in
  let* _ := consume [cb] [content_runes tokens] in
  if (contentBytes limits <? cb)%Z then ret false
  else ret (renderedDocumentByteLength encoder attachment cb <=? renderedBytes limits)%Z.

Definition countRenderedTokens (rendered : string) (limit : Z) : result chunk_error Z :=
  tokens ← match Tokenize rendered limit with
           | Ok tokens => Ok tokens
           | Err TokenizerLimit => Err ErrTokenizerLimit
           | Err TokenizerFailure => Err ErrTokenizerFailed
           end;
  _ ← validateTokenBoundaries tokens (RuneCountInString rendered) limit;
  Ok (Z.of_nat (length tokens)).

(** The exact tokenization of the content. *)
Definition content_tokens (content : string) (limit : Z) : result chunk_error (list TokenBoundary) :=
  match Tokenize content limit with
  | Err TokenizerLimit => Err errContentTokenLimit
  | Err TokenizerFailure => Err ErrTokenizerFailed
  | Ok boundaries =>
      match validateTokenBoundaries boundaries (RuneCountInString content) limit with
      | Ok _ => Ok boundaries
      | Err ErrTokenizerLimit => Err errContentTokenLimit
      | Err e => Err e
      end
  end.

(** The count of the rendered input against the provider's limits. *)
Definition rendered_tokens (rendered : string) (limits : generationTotals) : result chunk_error Z :=
  let counted := countRenderedTokens rendered (renderedTokens limits) in
  if bool_decide (counted = Err ErrTokenizerLimit)
     || (renderedBytes limits <? Z.of_nat (slen rendered))%Z
  then Err errProviderInputLimit else counted.

Definition make (tokens : list embeddingToken) (limits : generationTotals) (ordinal : nat) :
    M (GeneratedEmbeddingInput * list TokenBoundary) :=
  let* metadata := lift (tokenMetadata tokens) in
  let '(span, content, heading) := metadata in
  let cb := Z.of_nat (slen content) in
  let* _ := lift (check (negb ((contentBytes limits <? cb)
         || (renderedBytes limits <? renderedDocumentByteLength encoder attachment cb))%Z)
         errProviderInputLimit) in
  let cr := content_runes tokens in
  let* _ := consume
    [cb; contextualizedDocumentByteLength attachment cb; renderedDocumentByteLength encoder attachment cb]
    [cr; contextualizedDocumentRuneLength attachment cr; renderedDocumentRuneLength encoder attachment cr] in
  let* boundaries := lift (content_tokens content (contentTokens limits)) in
  let rendered := EncodeDocument (ModelInput_ policy) (contextualizeDocumentInput attachment content) in
  let* counted := lift (rendered_tokens rendered limits) in
  let checksum := sha256Hex rendered in
  ret (mkInput (generatedInputKey ordinal checksum) content rendered
         (Z.of_nat (length boundaries)) counted checksum heading span false, boundaries).

(** [make] as a test of the searches. *)
Definition try_make (tokens : list embeddingToken) (limits : generationTotals) (ordinal : nat) :
    M bool :=
  let* made := attempt (make tokens limits ordinal) in
  match made with
  | Ok _ => ret true
  | Err e => if fittingLimitError e then ret false else fail e
  end.

(** [tokens[i:j]], a panic out of range. *)
Definition token_range (tokens : list embeddingToken) (i j : nat) : M (list embeddingToken) :=
  lift (_ ← check ((i <=? j) && (j <=? length tokens))%nat Panic; Ok (take (j - i) (drop i tokens))).

Definition maximalByteFit (tokens : list embeddingToken) (start end_ : nat)
    (limits : generationTotals) : M nat :=
  binary_search (search_fuel (start + 1) end_)
    (λ candidate, let* range := token_range tokens start candidate in fitsByteLimits range limits)
    (start + 1) end_ 0.

Definition tokenFit (tokens : list embeddingToken) (start end_ : nat) (limits : generationTotals)
    (ordinal : nat) : M nat :=
  let probe := λ candidate,
    let* range := token_range tokens start candidate in try_make range limits ordinal in
  if monotonic then
    binary_search (search_fuel (start + 1) (end_ - 1)) probe (start + 1) (end_ - 1) 0
  else
    let lower := Nat.max (start + 1) (end_ - maxNonMonotonicFitChecks) in
    let* found := search_down probe lower (end_ - lower) in
    match found with
    | Some candidate => ret candidate
    | None => if (start + 1 <? lower)%nat then fail ErrNonMonotonic else ret 0
    end.

Definition maximalTruncatedByteFit (token : embeddingToken) (limits : generationTotals) : M nat :=
  binary_search (search_fuel (tok_start token + 1) (tok_end token - 1))
    (λ candidateEnd, let* t := lift (tokenUntil token candidateEnd) in fitsByteLimits [t] limits)
    (tok_start token + 1) (tok_end token - 1) 0.

Definition truncatedTokenFit (low high : nat) (prefix : nat → M (list embeddingToken))
    (limits : generationTotals) (ordinal : nat) : M nat :=
  let probe := λ candidateEnd, let* range := prefix candidateEnd in try_make range limits ordinal in
  if monotonic then binary_search (search_fuel low high) probe low high 0
  else
    let* found := search_down probe low (S high - low) in
    ret (default 0%nat found).

Definition truncate (token : embeddingToken) (limits : generationTotals) (ordinal : nat) :
    M (GeneratedEmbeddingInput * list TokenBoundary) :=
  let* _ := lift (check (tok_end token - tok_start token <=? maxTruncationSearchRunes)%nat
         ErrTruncationSearch) in
  let* byteEnd := maximalTruncatedByteFit token limits in
  if (byteEnd =? 0)%nat then fail ErrNoRune
  else
    let prefix := λ end_, let* t := lift (tokenUntil token end_) in ret [t] in
    let* made := attempt (let* range := prefix byteEnd in make range limits ordinal) in
    match made with
    | Ok made => ret made
    | Err e =>
        if negb (fittingLimitError e) then fail e
        else
          let* bestEnd := truncatedTokenFit (tok_start token + 1) (byteEnd - 1) prefix limits ordinal in
          if (bestEnd =? 0)%nat then fail ErrNoRune
          else let* range := prefix bestEnd in make range limits ordinal
    end.

Definition mark_truncated (input : GeneratedEmbeddingInput) : GeneratedEmbeddingInput :=
  mkInput (Key input) (Content input) (Rendered input) (ContentTokens input) (RenderedTokens input)
    (Checksum input) (InputHeadingPath input) (SourceSpan input) true.

Definition truncateOrReject (tokens : list embeddingToken) (start : nat)
    (limits : generationTotals) (ordinal : nat) : M fittedInput :=
  if String.eqb (TruncationPolicy (Chunk policy)) TruncationPolicyReject then fail ErrIndivisible
  else
    let* token := lift (from_lookup (tokens !! start) Panic) in
    let* made := truncate token limits ordinal in
    ret (mkFitted (mark_truncated made.1) made.2 (S start) true).

(** The loop over the one or two preferred cuts of [fit]; [None] when every
    candidate broke a limit. *)
Fixpoint try_candidates (tokens : list embeddingToken) (start : nat) (limits : generationTotals)
    (ordinal : nat) (candidates : list nat) : M (option fittedInput) :=
  match candidates with
  | [] => ret None
  | candidateEnd :: candidates =>
      let* range := token_range tokens start candidateEnd in
      let* made := attempt (make range limits ordinal) in
      match made with
      | Ok (input, boundaries) => ret (Some (mkFitted input boundaries candidateEnd false))
      | Err e =>
          if negb (fittingLimitError e) then fail e
          else try_candidates tokens start limits ordinal candidates
      end
  end.

Definition fit (tokens : list embeddingToken) (start end_ : nat) (limits : generationTotals)
    (ordinal : nat) : M fittedInput :=
  let* byteEnd := maximalByteFit tokens start end_ limits in
  if (byteEnd =? 0)%nat then truncateOrReject tokens start limits ordinal
  else
    let* preferred := lift (preferNaturalFitEnd start byteEnd (OverlapTokens (Chunk policy)) naturalEnds) in
    let* fitted := try_candidates tokens start limits ordinal
      (preferred :: if (preferred =? byteEnd)%nat then [] else [byteEnd]) in
    match fitted with
    | Some fitted => ret fitted
    | None =>
        let* bestEnd := tokenFit tokens start byteEnd limits ordinal in
        if (bestEnd =? 0)%nat then truncateOrReject tokens start limits ordinal
        else
          let* range := token_range tokens start bestEnd in
          let* made := make range limits ordinal in
          ret (mkFitted made.1 made.2 bestEnd false)
    end.

(** [for next < fitted.end && fitter.tokens[next].end <= desiredRuneStart] *)
Fixpoint skip_covered (n : nat) (tokens : list embeddingToken) (next desired : nat) :
    result chunk_error nat :=
  match n with
  | 0 => Ok next
  | S n =>
      token ← from_lookup (tokens !! next) Panic;
      if (tok_end token <=? desired)%nat then skip_covered n tokens (S next) desired else Ok next
  end.

(** The next start and the tokens with the source rune cursor moved. *)
Definition advance (tokens : list embeddingToken) (start : nat) (fitted : fittedInput) :
    result chunk_error (nat * list embeddingToken) :=
  let overlap := OverlapTokens (Chunk policy) in
  first ← from_lookup (tokens !! start) Panic;
  if fit_truncated fitted || (fit_end fitted =? unitEnd first)%nat || (overlap =? 0)%Z
  then Ok (fit_end fitted, tokens)
  else
    let count := Z.of_nat (length (contentBoundaries fitted)) in
    _ ← check (overlap <? count)%Z ErrOverlapLost;
    boundary ← from_lookup (contentBoundaries fitted !! Z.to_nat (count - overlap)) Panic;
    let desiredRuneStart :=
      (CharStart (SourceSpan (fit_input fitted)) + Z.to_nat (tb_Start boundary))%nat in
    _ ← check (tok_start first <? desiredRuneStart)%nat ErrNoAdvance;
    next ← skip_covered (fit_end fitted - start) tokens start desiredRuneStart;
    _ ← check (negb (next =? fit_end fitted)%nat) ErrNoAdvance;
    token ← from_lookup (tokens !! next) Panic;
    token ← tokenFrom token desiredRuneStart;
    Ok (next, <[next := token]> tokens).

(** The loop of [BuildEmbeddingInputs]. *)
Fixpoint generate (fuel : nat) (limits : GenerationLimits) (tokens : list embeddingToken)
    (start : nat) (inputs : list GeneratedEmbeddingInput) (totals : generationTotals) :
    M (list GeneratedEmbeddingInput * generationTotals) :=
  match tokens !! start with
  | None => ret (inputs, totals)
  | Some token =>
      match fuel with
      | 0 => fail OutOfFuel
      | S fuel =>
          let* _ := lift (check (negb (Z.of_nat (length inputs) =? MaxInputs limits)%Z) ErrTooManyInputs) in
          let* end_ := lift (chooseChunkEnd start (unitEnd token) (MaxTokens (Chunk policy))
                         (OverlapTokens (Chunk policy)) naturalEnds) in
          let* fitted := fit tokens start end_ (policyChunkLimits policy) (length inputs) in
          let* totals := lift (from_lookup (totals_add totals (fit_input fitted) (limit_totals limits))
                           ErrAggregate) in
          let* next := lift (advance tokens start fitted) in
          generate fuel limits next.2 next.1 (inputs ++ [fit_input fitted]) totals
      end
  end.
End fitter.

(** Every input moves the source rune cursor, so the number of runes bounds
    the number of rounds. *)
Definition evidence_runes (units : list EvidenceUnit) : nat :=
  sum_list (RuneCountInString ∘ UnitText <$> units).

(** [newInputFitter] and the loop of [BuildEmbeddingInputs]. *)
Definition generate_inputs `{Tokenizer} `{Sha256} (units : list EvidenceUnit) (policy : InputPolicy)
    (limits : GenerationLimits) (pretokenized : list embeddingToken * list bool) :
    result chunk_error (list GeneratedEmbeddingInput * generationTotals) :=
  (generate units pretokenized.2 policy (S (evidence_runes units)) limits pretokenized.1 0 [] zero_totals
    (mkWork (MaxFittingWorkTokens limits) (MaxFittingWorkBytes limits))).1.

(** The inputs of validated arguments. *)
Definition derive_inputs `{Tokenizer} `{Sha256} (units : list EvidenceUnit) (policy : InputPolicy)
    (limits : GenerationLimits) :
    result chunk_error (list GeneratedEmbeddingInput * generationTotals) :=
  pretokenized ← tokenizeEvidence units; generate_inputs units policy limits pretokenized.
