(* ===== verification/ChunkFacts.v ===== *)
(** * Facts about the input fitter

    A small logic for the fitter's monad: [spec m Q] says that a run of [m]
    yields a result with [Q] or one of the errors the code returns, never an
    index out of range or an exhausted loop, and that it only spends from the
    work budget.  Then what the searches, [make], [fit] and [advance]
    guarantee. *)
From S2P Require Import Prelude GoText Sha256 Runes AuditEncoding Identity ModelInput Chunking.

(** ** The logic *)

Definition benign (e : chunk_error) : Prop := e ≠ Panic ∧ e ≠ OutOfFuel.
#[export] Hint Extern 1 (benign _) => (split; discriminate) : docbank.

(** A result, or an error the code returns. *)
Definition safe {A} (r : result chunk_error A) (Q : A → Prop) : Prop :=
  match r with Ok a => Q a | Err e => benign e end.

(** [w'] is what is left of [w]. *)
Definition left_of (w w' : fittingWorkBudget) : Prop :=
  (0 <= remainingTokens w' <= remainingTokens w)%Z ∧ (0 <= remainingBytes w' <= remainingBytes w)%Z.
Definition budget_ok (w : fittingWorkBudget) : Prop :=
  (0 <= remainingTokens w)%Z ∧ (0 <= remainingBytes w)%Z.

Definition spec {A} (m : M A) (Q : A → Prop) : Prop :=
  ∀ w, budget_ok w → safe (m w).1 Q ∧ left_of w (m w).2.

Lemma left_of_refl w : budget_ok w → left_of w w.
Proof. unfold budget_ok, left_of. lia. Qed.
Lemma left_of_trans w1 w2 w3 : left_of w1 w2 → left_of w2 w3 → left_of w1 w3.
Proof. unfold left_of. lia. Qed.
Lemma left_of_ok w w' : left_of w w' → budget_ok w'.
Proof. unfold left_of, budget_ok. lia. Qed.

Lemma safe_mono {A} (r : result chunk_error A) (P Q : A → Prop) :
  safe r P → (∀ a, P a → Q a) → safe r Q.
Proof. destruct r; simpl; auto. Qed.

Lemma safe_bind {A B} (r : result chunk_error A) (f : A → result chunk_error B) P Q :
  safe r P → (∀ a, P a → safe (f a) Q) → safe (r ≫= f) Q.
Proof. destruct r; simpl; auto. Qed.

Lemma safe_check b e : benign e → safe (check b e) (λ _, b = true).
Proof. by destruct b. Qed.

Lemma safe_check_bind {B} b e (f : () → result chunk_error B) Q :
  benign e → (b = true → safe (f ()) Q) → safe (check b e ≫= f) Q.
Proof. destruct b; simpl; auto. Qed.

Lemma safe_lookup {A} (o : option A) a (Q : A → Prop) e :
  o = Some a → Q a → safe (from_lookup o e) Q.
Proof. by intros ->. Qed.

Lemma spec_mono {A} (m : M A) (P Q : A → Prop) :
  spec m P → (∀ a, P a → Q a) → spec m Q.
Proof. intros Hm HPQ w Hw. destruct (Hm w Hw) as [H1 H2]. split; [by eapply safe_mono|done]. Qed.

Lemma spec_ret {A} (a : A) (Q : A → Prop) : Q a → spec (ret a) Q.
Proof. intros Ha w Hw. split; [done|by apply left_of_refl]. Qed.

Lemma spec_fail {A} e (Q : A → Prop) : benign e → spec (fail e) Q.
Proof. intros He w Hw. split; [done|by apply left_of_refl]. Qed.

Lemma spec_lift {A} (r : result chunk_error A) Q : safe r Q → spec (lift r) Q.
Proof. intros Hr w Hw. split; [done|by apply left_of_refl]. Qed.

Lemma spec_bind {A B} (m : M A) (f : A → M B) P Q :
  spec m P → (∀ a, P a → spec (f a) Q) → spec (bind m f) Q.
Proof.
  intros Hm Hf w Hw. destruct (Hm w Hw) as [Hs Hl]. unfold bind.
  destruct (m w) as [[a|e] w']; simpl in *; [|done].
  destruct (Hf a Hs w' (left_of_ok _ _ Hl)) as [Hs' Hl'].
  split; [done|by eapply left_of_trans].
Qed.

Lemma spec_check {B} b e (f : () → M B) Q :
  benign e → (b = true → spec (f ()) Q) → spec (bind (lift (check b e)) f) Q.
Proof.
  intros He Hf. apply (spec_bind _ _ (λ _, b = true)).
  - by apply spec_lift, safe_check.
  - by intros [].
Qed.

Lemma spec_attempt {A} (m : M A) Q :
  spec m Q → spec (attempt m) (λ r, safe r Q).
Proof.
  intros Hm w Hw. destruct (Hm w Hw) as [Hs Hl]. unfold attempt.
  by destruct (m w) as [r w'].
Qed.

#[export] Hint Resolve spec_ret spec_fail spec_lift : docbank.

(** ** The budget *)

Lemma addWithinAggregate_iff c a l :
  addWithinAggregate c a l = true ↔ (0 ≤ c ∧ 0 ≤ a ∧ c + a ≤ l)%Z.
Proof. unfold addWithinAggregate. rewrite !andb_true_iff, !Z.leb_le. lia. Qed.

Lemma boundedWorkTotal_bounds parts limit total :
  boundedWorkTotal parts limit = Some total → (0 ≤ limit → 0 ≤ total ≤ limit)%Z.
Proof.
  unfold boundedWorkTotal. intros H Hl. revert H.
  assert (∀ acc, (∀ a, acc = Some a → 0 ≤ a ≤ limit)%Z →
    foldl (λ total part, total ← total;
      if addWithinAggregate total part limit then Some (total + part)%Z else None) acc parts = Some total
    → (0 ≤ total ≤ limit)%Z) as Hgen.
  { induction parts as [|p parts IH]; intros acc Hacc; simpl; [apply Hacc|]. apply IH.
    intros a. destruct acc as [t|]; simpl; [|done].
    destruct (addWithinAggregate t p limit) eqn:Hadd; [|done]. intros [= <-].
    apply addWithinAggregate_iff in Hadd. lia. }
  apply Hgen. intros a [= <-]. lia.
Qed.

Lemma consume_spec bytes tokens : spec (consume bytes tokens) (λ _, True).
Proof.
  intros w Hw. unfold consume.
  destruct (boundedWorkTotal bytes _) as [b|] eqn:Hb; [|split; [split; discriminate|by apply left_of_refl]].
  destruct (boundedWorkTotal tokens _) as [t|] eqn:Ht; [|split; [split; discriminate|by apply left_of_refl]].
  destruct Hw as [Hw1 Hw2]. apply boundedWorkTotal_bounds in Hb, Ht; [|done..].
  unfold left_of. simpl. split; [done|]. lia.
Qed.

(** ** The searches *)

Lemma binary_search_spec fuel probe low high best (P : nat → Prop) :
  S high - low < fuel → 1 ≤ low →
  (∀ c, low ≤ c ≤ high → spec (probe c) (λ b : bool, b = true → P c)) →
  (best ≠ 0 → P best) →
  spec (binary_search fuel probe low high best) (λ c, c ≠ 0 → P c).
Proof.
  revert low high best; induction fuel as [|fuel IH]; intros low high best Hfuel Hlow Hprobe Hbest; [lia|].
  cbn [binary_search]. destruct (Nat.ltb_spec high low); [by apply spec_ret|].
  assert (low ≤ low + (high - low) / 2 ≤ high) as Hc.
  { assert ((high - low) / 2 ≤ high - low) by (apply Nat.Div0.div_le_upper_bound; lia). lia. }
  set (c := low + (high - low) / 2) in *.
  eapply spec_bind; [by apply Hprobe|]. intros [] Hb.
  - apply IH; [lia|lia| |auto]. intros c' Hc'. apply Hprobe. lia.
  - apply IH; [lia|done| |done]. intros c' Hc'. apply Hprobe. lia.
Qed.

Lemma search_down_spec probe low n (P : nat → Prop) :
  (∀ c, low ≤ c < low + n → spec (probe c) (λ b : bool, b = true → P c)) →
  spec (search_down probe low n) (λ found, ∀ c, found = Some c → P c).
Proof.
  induction n as [|n IH]; intros Hprobe; cbn [search_down]; [by apply spec_ret|].
  eapply spec_bind; [apply Hprobe; lia|]. intros [] Hb.
  - apply spec_ret. intros c [= <-]. auto.
  - apply IH. intros c Hc. apply Hprobe. lia.
Qed.

Lemma last_natural_safe naturalEnds start allowed n :
  start + n < length naturalEnds →
  safe (last_natural naturalEnds start allowed n)
    (λ found, ∀ c, found = Some c → start < c ≤ start + n).
Proof.
  induction n as [|n IH]; intros Hn; cbn [last_natural]; [done|].
  eapply safe_bind with (P := λ _, True).
  { destruct (lookup_lt_is_Some_2 naturalEnds (start + S n)) as [b Hb]; [done|].
    by apply (safe_lookup _ b). }
  intros b _. destruct (b && allowed (start + S n)); [intros c [= <-]; lia|].
  eapply safe_mono; [apply IH; lia|]. intros found H c Hc. specialize (H c Hc). lia.
Qed.

Lemma chooseChunkEnd_safe start total budget overlap naturalEnds :
  start < total → total < length naturalEnds → (0 < budget)%Z →
  safe (chooseChunkEnd start total budget overlap naturalEnds) (λ c, start < c ≤ total).
Proof.
  intros Hs Ht Hb. unfold chooseChunkEnd.
  eapply safe_bind; [apply last_natural_safe; lia|]. intros [c|] H; simpl; [|lia].
  specialize (H c eq_refl). lia.
Qed.

Lemma preferNaturalFitEnd_safe start fittedEnd overlap naturalEnds :
  start < fittedEnd → fittedEnd < length naturalEnds →
  safe (preferNaturalFitEnd start fittedEnd overlap naturalEnds) (λ c, start < c ≤ fittedEnd).
Proof.
  intros Hs Ht. unfold preferNaturalFitEnd.
  eapply safe_bind; [apply last_natural_safe; lia|]. intros [c|] H; simpl; [|lia].
  specialize (H c eq_refl). lia.
Qed.

(** ** Token boundaries *)

(** The boundaries cut the range from [a] to [z] into non-empty pieces. *)
Fixpoint partitions (a z : Z) (bs : list TokenBoundary) : Prop :=
  match bs with
  | [] => a = z
  | b :: bs => tb_Start b = a ∧ (a < tb_End b)%Z ∧ partitions (tb_End b) z bs
  end.

Lemma partitions_le a z bs : partitions a z bs → (a + Z.of_nat (length bs) ≤ z)%Z.
Proof.
  revert a; induction bs as [|b bs IH]; intros a; simpl; [lia|].
  intros (Hs & He & Hp). apply IH in Hp. lia.
Qed.

Lemma partitions_lookup a z bs k b :
  partitions a z bs → bs !! k = Some b →
  (a + Z.of_nat k ≤ tb_Start b < tb_End b ∧ tb_End b ≤ z)%Z.
Proof.
  revert a k; induction bs as [|b' bs IH]; intros a k; [done|]. simpl.
  intros (Hs & He & Hp) Hk. destruct k as [|k]; simpl in Hk.
  - simplify_eq. apply partitions_le in Hp. lia.
  - specialize (IH _ _ Hp Hk). lia.
Qed.

Lemma next_boundary_iff rc a b z :
  next_boundary rc a b = Ok z ↔
  tb_Start b = a ∧ (tb_Start b < tb_End b ∧ tb_End b <= Z.of_nat rc)%Z ∧ z = tb_End b.
Proof.
  unfold next_boundary. split.
  - intros (u & Hs%check_Ok_iff & H)%bind_Ok_iff.
    apply bind_Ok_iff in H as (u' & He%check_Ok_iff & [= <-]).
    rewrite Z.eqb_eq in Hs. rewrite andb_true_iff, Z.ltb_lt, Z.leb_le in He. done.
  - intros (-> & [H1%Z.ltb_lt H2%Z.leb_le] & ->). rewrite Z.eqb_refl, H1, H2. done.
Qed.

Lemma next_boundary_fold rc a z bs :
  foldM (next_boundary rc) a bs = Ok z ∧ z = Z.of_nat rc ↔
  partitions a (Z.of_nat rc) bs ∧ z = Z.of_nat rc.
Proof.
  revert a; induction bs as [|b bs IH]; intros a; simpl.
  { split; [intros [[= ->] ->]; done|intros [-> ->]; done]. }
  rewrite bind_Ok_iff. split.
  - intros [(e & (Hs & [He1 He2] & ->)%next_boundary_iff & Hf) Hz].
    destruct (proj1 (IH (tb_End b)) (conj Hf Hz)) as [Hp _]. split_and!; [done|lia|done|done].
  - intros [(Hs & He & Hp) Hz]. split; [|done]. exists (tb_End b).
    destruct (proj2 (IH (tb_End b)) (conj Hp Hz)) as [Hf _]. split; [|done].
    apply next_boundary_iff. apply partitions_le in Hp. split_and!; [done|lia|lia|done].
Qed.

(** What [validateTokenBoundaries] accepts. *)
Lemma validateTokenBoundaries_iff bs rc limit u :
  validateTokenBoundaries bs rc limit = Ok u ↔
  bs ≠ [] ∧ (Z.of_nat (length bs) <= limit)%Z ∧ partitions 0 (Z.of_nat rc) bs.
Proof.
  unfold validateTokenBoundaries.
  pose proof (next_boundary_fold rc 0 (Z.of_nat rc) bs) as Hf. split.
  - intros (u1 & Hn%check_Ok_iff & H)%bind_Ok_iff.
    apply bind_Ok_iff in H as (u2 & Hl%check_Ok_iff & H).
    apply bind_Ok_iff in H as (z & Hz & Hr%check_Ok_iff).
    apply Z.eqb_eq in Hr as ->. apply Z.leb_le in Hl.
    split_and!; [by destruct bs|done|]. by apply Hf.
  - intros (Hn & Hl%Z.leb_le & Hp). destruct u.
    destruct (proj2 Hf (conj Hp eq_refl)) as [Hz _].
    rewrite Hl, Hz. destruct bs; [done|]. cbn [mbind result_bind check length Nat.eqb negb].
    by rewrite Z.eqb_refl.
Qed.

Lemma validateTokenBoundaries_safe bs rc limit :
  safe (validateTokenBoundaries bs rc limit) (λ _, validateTokenBoundaries bs rc limit = Ok tt).
Proof.
  destruct (validateTokenBoundaries bs rc limit) as [[]|e] eqn:H; [done|]. simpl.
  unfold validateTokenBoundaries in H.
  apply bind_Err_iff in H as [[_ <-]%check_Err_iff|(_ & _ & H)]; [by split|].
  apply bind_Err_iff in H as [[_ <-]%check_Err_iff|(_ & _ & H)]; [by split|].
  apply bind_Err_iff in H as [H|(z & _ & [_ <-]%check_Err_iff)]; [|by split].
  clear -H. revert H. generalize 0%Z. induction bs as [|b bs IH]; intros a H; [done|].
  simpl in H. apply bind_Err_iff in H as [H|(z & _ & H)]; [|by eapply IH].
  unfold next_boundary in H.
  apply bind_Err_iff in H as [[_ <-]%check_Err_iff|(_ & _ & H)]; [by split|].
  apply bind_Err_iff in H as [[_ <-]%check_Err_iff|(_ & _ & H)]; [by split|done].
Qed.

(** ** Exact inputs *)

Section fitter_facts.
Context `{Tokenizer} `{Sha256}.
Context (units : list EvidenceUnit) (naturalEnds : list bool) (policy : InputPolicy).

(** What [make] promises of an input built from a token range. *)
Record made_from (range : list embeddingToken) (limits : generationTotals) (ordinal : nat)
    (made : GeneratedEmbeddingInput * list TokenBoundary) (first final : embeddingToken)
    (unit : EvidenceUnit) : Prop := {
  mf_first : head range = Some first;
  mf_final : last range = Some final;
  mf_unit : units !! unitIndex first = Some unit;
  mf_span : SourceSpan made.1 = mkSpan (unitIndex first) (tok_start first) (tok_end final);
  mf_start : tok_start first < tok_end final;
  mf_content : Content made.1 = slice (UnitText unit) (byteStart first) (byteEnd final);
  mf_bytes : (Z.of_nat (slen (Content made.1)) <= contentBytes limits)%Z;
  mf_heading : InputHeadingPath made.1 = HeadingPath unit;
  mf_rendered : Rendered made.1 = EncodeDocument (ModelInput_ policy)
    (contextualizeDocumentInput (attachment policy) (Content made.1));
  mf_rendered_bytes : (Z.of_nat (slen (Rendered made.1)) <= renderedBytes limits)%Z;
  mf_checksum : Checksum made.1 = sha256Hex (Rendered made.1);
  mf_key : Key made.1 = generatedInputKey ordinal (Checksum made.1);
  mf_truncated : Truncated made.1 = false;
  mf_tokenized : Tokenize (Content made.1) (contentTokens limits) = Ok made.2;
  mf_boundaries : validateTokenBoundaries made.2 (RuneCountInString (Content made.1))
    (contentTokens limits) = Ok tt;
  mf_count : ContentTokens made.1 = Z.of_nat (length made.2);
  mf_rendered_tokens : (1 <= RenderedTokens made.1 <= renderedTokens limits)%Z;
}.

Lemma tokenMetadata_safe range :
  safe (tokenMetadata units range) (λ metadata, ∃ first final unit,
    head range = Some first ∧ last range = Some final ∧ units !! unitIndex first = Some unit ∧
    tok_start first < tok_end final ∧
    metadata = (mkSpan (unitIndex first) (tok_start first) (tok_end final),
                slice (UnitText unit) (byteStart first) (byteEnd final), HeadingPath unit)).
Proof.
  unfold tokenMetadata. destruct range as [|first range]; [by split|].
  destruct (last (first :: range)) as [final|] eqn:Hlast; [|by split].
  apply safe_check_bind; [by split|]. rewrite !andb_true_iff, !Nat.ltb_lt. intros [[_ Hu] Ht].
  destruct (lookup_lt_is_Some_2 units _ Hu) as [unit Hunit]. rewrite Hunit. simpl.
  apply safe_check_bind; [by split|]. intros _. simpl. by exists first, final, unit.
Qed.

Lemma countRenderedTokens_safe rendered limit :
  safe (countRenderedTokens rendered limit) (λ n, (1 <= n <= limit)%Z).
Proof.
  unfold countRenderedTokens. destruct (Tokenize rendered limit) as [bs|[]]; simpl; [|by split..].
  eapply safe_bind; [apply validateTokenBoundaries_safe|]. intros u Hv.
  apply validateTokenBoundaries_iff in Hv as (Hn & Hl & _).
  simpl. destruct bs; simpl in *; [done|lia].
Qed.

Lemma content_tokens_safe content limit :
  safe (content_tokens content limit) (λ bs, Tokenize content limit = Ok bs ∧
    validateTokenBoundaries bs (RuneCountInString content) limit = Ok tt).
Proof.
  unfold content_tokens. destruct (Tokenize content limit) as [bs|[]]; simpl; [|by split..].
  pose proof (validateTokenBoundaries_safe bs (RuneCountInString content) limit) as Hv.
  destruct (validateTokenBoundaries bs (RuneCountInString content) limit) as [[]|e] eqn:Hv';
    simpl in *; [done|].
  destruct e; try exact Hv; by split.
Qed.

Lemma rendered_tokens_safe rendered limits :
  safe (rendered_tokens rendered limits) (λ n,
    (1 <= n <= renderedTokens limits ∧ Z.of_nat (slen rendered) <= renderedBytes limits)%Z).
Proof.
  unfold rendered_tokens. pose proof (countRenderedTokens_safe rendered (renderedTokens limits)) as Hc.
  destruct (_ || _) eqn:Hb; [by split|]. apply orb_false_iff in Hb as [_ Hb%Z.ltb_ge].
  eapply safe_mono; [done|]. intros n Hn. split; done.
Qed.

Lemma make_spec range limits ordinal :
  spec (make units policy range limits ordinal)
    (λ made, ∃ first final unit, made_from range limits ordinal made first final unit).
Proof.
  unfold make. eapply spec_bind; [apply spec_lift, tokenMetadata_safe|].
  intros md (first & final & unit & Hh & Hl & Hu & Hlt & ->).
  apply spec_check; [by split|]. intros Hbytes.
  apply negb_true_iff, orb_false_iff in Hbytes as [Hb%Z.ltb_ge _].
  eapply spec_bind; [apply consume_spec|]. intros _ _.
  eapply spec_bind; [apply spec_lift, content_tokens_safe|]. intros bs [Htok Hval].
  eapply spec_bind; [apply spec_lift, rendered_tokens_safe|]. intros n [Hn Hr].
  apply spec_ret. exists first, final, unit. by constructor.
Qed.

Lemma fitsByteLimits_spec range limits :
  spec (fitsByteLimits units policy range limits) (λ _, True).
Proof.
  unfold fitsByteLimits. eapply spec_bind; [apply spec_lift, tokenMetadata_safe|].
  intros md _. eapply spec_bind; [apply consume_spec|]. intros _ _.
  case_match; by apply spec_ret.
Qed.

Lemma try_make_spec range limits ordinal :
  spec (try_make units policy range limits ordinal) (λ _, True).
Proof.
  unfold try_make. eapply spec_bind; [apply spec_attempt, make_spec|].
  intros [made|e] Hr; [by apply spec_ret|].
  case_match; [by apply spec_ret|by apply spec_fail].
Qed.

Lemma token_range_spec tokens i j :
  i ≤ j ≤ length tokens → spec (token_range tokens i j) (λ r, r = take (j - i) (drop i tokens)).
Proof.
  intros [Hij%Nat.leb_le Hj%Nat.leb_le]. unfold token_range. apply spec_lift. by rewrite Hij, Hj.
Qed.
End fitter_facts.
