(* ===== verification/ChunkTokens.v ===== *)
(** * Token ranges and fitted inputs

    The invariant of the pre-tokenized evidence, kept by [advance], and what
    [fit] returns for a range of it. *)
From S2P Require Import Prelude GoText Sha256 Runes AuditEncoding Identity ModelInput Chunking ChunkFacts.

(** ** Rune and byte offsets *)

Lemma advanceRunes_offset text i n :
  advanceRunes text (byte_offset text i) n = byte_offset text (i + n).
Proof.
  revert i; induction n as [|n IH]; intros i; cbn [advanceRunes]; [by rewrite Nat.add_0_r|].
  replace (byte_offset text i + (DecodeRuneInString (sdrop (byte_offset text i) text)).2)
    with (byte_offset text (S i)).
  { rewrite IH. f_equal. lia. }
  destruct (decide (sdrop (byte_offset text i) text = "")) as [He|Hne].
  - rewrite He. simpl. rewrite Nat.add_0_r.
    assert (RuneCountInString text ≤ i) as Hi.
    { unfold RuneCountInString. pose proof (decode_sdrop text i) as Hd. rewrite He in Hd.
      apply (f_equal length) in Hd. rewrite length_drop in Hd. simpl in Hd. lia. }
    rewrite !byte_offset_all by lia. done.
  - pose proof (byte_offset_sdrop text i 1) as Hd.
    rewrite byte_offset_S, byte_offset_0 in Hd by done.
    pose proof (byte_offset_le text i (i + 1)). replace (i + 1) with (S i) in * by lia. lia.
Qed.

Section tokens.
Context `{Tokenizer} `{Sha256}.
Context (units : list EvidenceUnit) (naturalEnds : list bool) (policy : InputPolicy).

Definition unit_runes (u : nat) : nat :=
  match units !! u with Some unit => RuneCountInString (UnitText unit) | None => 0 end.

(** A token is a non-empty range of runes of its unit with its byte range. *)
Record wf_token (t : embeddingToken) : Prop := {
  wt_unit : ∃ unit, units !! unitIndex t = Some unit ∧
    byteStart t = byte_offset (UnitText unit) (tok_start t) ∧
    byteEnd t = byte_offset (UnitText unit) (tok_end t);
  wt_range : tok_start t < tok_end t ≤ unit_runes (unitIndex t);
}.

(** Token [i]: the next token of the unit starts where it ends, the last one
    reaches the end of the unit, and units come in increasing order. *)
Record ok_at (tokens : list embeddingToken) (i : nat) (t : embeddingToken) : Prop := {
  oa_wf : wf_token t;
  oa_unitEnd : i < unitEnd t ≤ length tokens;
  oa_within : S i < unitEnd t → ∃ t', tokens !! S i = Some t' ∧ unitIndex t' = unitIndex t ∧
    unitEnd t' = unitEnd t ∧ tok_start t' = tok_end t;
  oa_last : S i = unitEnd t → tok_end t = unit_runes (unitIndex t) ∧
    ∀ t', tokens !! S i = Some t' → tok_start t' = 0 ∧ unitIndex t < unitIndex t';
}.
Definition ok_tokens (tokens : list embeddingToken) (start : nat) : Prop :=
  ∀ i t, start ≤ i → tokens !! i = Some t → ok_at tokens i t.

Lemma ok_tokens_mono tokens i j : ok_tokens tokens i → i ≤ j → ok_tokens tokens j.
Proof. intros Hok Hij k t Hk Ht. apply Hok; [lia|done]. Qed.

(** The tokens after [start] in its unit. *)
Lemma same_unit tokens start t i :
  ok_tokens tokens start → tokens !! start = Some t → start ≤ i < unitEnd t →
  ∃ t', tokens !! i = Some t' ∧ unitIndex t' = unitIndex t ∧ unitEnd t' = unitEnd t ∧
    tok_start t ≤ tok_start t' ∧ tok_end t ≤ tok_end t' ∧ (start < i → tok_end t ≤ tok_start t').
Proof.
  intros Hok Ht [Hi Hlt]. induction Hi as [|i Hi IH]; [exists t; split_and!; auto; lia|].
  destruct IH as (t' & Ht' & Hu & He & Hs1 & Hs2 & Hs3); [lia|].
  destruct (Hok i t' Hi Ht') as [Hwf Hue Hin _].
  destruct Hin as (t'' & Ht'' & Hu' & He' & Hs'); [lia|].
  destruct (Hok (S i) t'' ltac:(lia) Ht'') as [[_ Hr''] _ _ _]. destruct Hwf as [_ Hr'].
  exists t''. split_and!; [done|congruence|congruence|lia|lia|lia].
Qed.

Lemma head_range {A} (l : list A) s c : s < c → head (take (c - s) (drop s l)) = l !! s.
Proof.
  intros Hsc. rewrite head_lookup, lookup_take_lt, lookup_drop by lia. f_equal. lia.
Qed.

Lemma last_range {A} (l : list A) s c : s < c ≤ length l → last (take (c - s) (drop s l)) = l !! (c - 1).
Proof.
  intros Hsc. rewrite last_lookup, length_take, length_drop, lookup_take_lt, lookup_drop by lia.
  f_equal. lia.
Qed.

(** ** Inputs *)

(** An input is faithful to the evidence and within the limits. *)
Record input_ok (limits : generationTotals) (ordinal : nat) (x : GeneratedEmbeddingInput) : Prop := {
  io_unit : ∃ unit, units !! UnitIndex (SourceSpan x) = Some unit ∧
    InputHeadingPath x = HeadingPath unit ∧
    Content x = slice (UnitText unit) (byte_offset (UnitText unit) (CharStart (SourceSpan x)))
                      (byte_offset (UnitText unit) (CharEnd (SourceSpan x)));
  io_span : CharStart (SourceSpan x) < CharEnd (SourceSpan x) ≤ unit_runes (UnitIndex (SourceSpan x));
  io_rendered : Rendered x = EncodeDocument (ModelInput_ policy)
    (contextualizeDocumentInput (attachment policy) (Content x));
  io_checksum : Checksum x = sha256Hex (Rendered x);
  io_key : Key x = generatedInputKey ordinal (Checksum x);
  io_bytes : (Z.of_nat (slen (Content x)) <= contentBytes limits)%Z;
  io_rendered_bytes : (Z.of_nat (slen (Rendered x)) <= renderedBytes limits)%Z;
  io_tokens : ∃ bs, Tokenize (Content x) (contentTokens limits) = Ok bs ∧
    ContentTokens x = Z.of_nat (length bs) ∧ bs ≠ [] ∧
    partitions 0 (Z.of_nat (CharEnd (SourceSpan x) - CharStart (SourceSpan x))) bs;
  io_token_limit : (1 <= ContentTokens x <= contentTokens limits)%Z;
  io_rendered_tokens : (1 <= RenderedTokens x <= renderedTokens limits)%Z;
  io_truncated : Truncated x = true → TruncationPolicy (Chunk policy) ≠ TruncationPolicyReject;
}.

Lemma made_input_ok range limits ordinal made first final unit :
  made_from units policy range limits ordinal made first final unit →
  wf_token first → wf_token final → unitIndex final = unitIndex first →
  input_ok limits ordinal made.1 ∧
  partitions 0 (Z.of_nat (tok_end final - tok_start first)) made.2.
Proof.
  intros Hm [(unit1 & Hu1 & Hbs & _) Hr1] [(unit2 & Hu2 & _ & Hbe) Hr2] Huf.
  destruct Hm. rewrite Huf in *.
  assert (unit1 = unit) as -> by congruence. assert (unit2 = unit) as -> by congruence.
  unfold unit_runes in *. rewrite mf_unit in Hr1, Hr2.
  assert (RuneCountInString (Content made.1) = tok_end final - tok_start first) as Hrc.
  { rewrite mf_content, Hbs, Hbe. apply RuneCount_slice. lia. }
  rewrite Hrc in mf_boundaries. pose proof mf_boundaries as Hv.
  apply validateTokenBoundaries_iff in Hv as (Hn & Hl & Hp). split; [|done].
  constructor; rewrite ?mf_span; cbn [UnitIndex CharStart CharEnd]; auto.
  - exists unit. split_and!; [done|done|]. by rewrite mf_content, Hbs, Hbe.
  - unfold unit_runes. rewrite mf_unit. lia.
  - exists made.2. by split_and!.
  - rewrite mf_count. destruct made.2; simpl in *; [done|lia].
  - rewrite mf_truncated. done.
Qed.

Lemma input_ok_truncated limits ordinal x :
  input_ok limits ordinal x → TruncationPolicy (Chunk policy) ≠ TruncationPolicyReject →
  input_ok limits ordinal (mark_truncated x).
Proof. intros [] Hp. by constructor. Qed.

(** ** Fitting *)

Lemma tokenUntil_wf t e :
  wf_token t → tok_start t < e ≤ tok_end t →
  safe (tokenUntil units t e) (λ t', wf_token t' ∧ unitIndex t' = unitIndex t ∧
    tok_start t' = tok_start t ∧ tok_end t' = e).
Proof.
  intros [(unit & Hu & Hbs & Hbe) Hr] He. unfold tokenUntil. rewrite Hu. simpl.
  split; [|done]. constructor; cbn [unitIndex tok_start tok_end byteStart byteEnd]; [|lia].
  exists unit. split_and!; [done|done|]. rewrite Hbs, advanceRunes_offset. f_equal. lia.
Qed.

Lemma tokenFrom_wf t s :
  wf_token t → tok_start t ≤ s < tok_end t →
  safe (tokenFrom units t s) (λ t', wf_token t' ∧ unitIndex t' = unitIndex t ∧
    tok_start t' = s ∧ tok_end t' = tok_end t ∧ unitEnd t' = unitEnd t).
Proof.
  intros [(unit & Hu & Hbs & Hbe) Hr] He. unfold tokenFrom. rewrite Hu. simpl.
  split; [|done]. constructor; cbn [unitIndex tok_start tok_end byteStart byteEnd]; [|lia].
  exists unit. split_and!; [done| |done]. rewrite Hbs, advanceRunes_offset. f_equal. lia.
Qed.

(** A search over prefixes of [tokens[start:]] finds one in its range. *)
Lemma range_search_spec fuel probe low high :
  S high - low < fuel → 1 ≤ low → (∀ c, low ≤ c ≤ high → spec (probe c) (λ _, True)) →
  spec (binary_search fuel probe low high 0) (λ c, c ≠ 0 → low ≤ c ≤ high).
Proof.
  intros Hf Hl Hprobe.
  apply (binary_search_spec fuel probe low high 0 (λ c, low ≤ c ≤ high)); [done..| |done].
  intros c Hc. eapply spec_mono; [by apply Hprobe|]. done.
Qed.

Lemma maximalByteFit_spec tokens start end_ limits :
  end_ ≤ length tokens →
  spec (maximalByteFit units policy tokens start end_ limits) (λ c, c ≠ 0 → start < c ≤ end_).
Proof.
  intros Hend. unfold maximalByteFit. eapply spec_mono; [apply range_search_spec|].
  - unfold search_fuel. lia.
  - lia.
  - intros c Hc. eapply spec_bind; [apply token_range_spec; lia|].
    intros r _. apply fitsByteLimits_spec.
  - simpl. intros c Hc Hne. specialize (Hc Hne). lia.
Qed.

Lemma tokenFit_spec tokens start end_ limits ordinal :
  end_ ≤ length tokens →
  spec (tokenFit units policy tokens start end_ limits ordinal) (λ c, c ≠ 0 → start < c < end_).
Proof.
  intros Hend. unfold tokenFit.
  assert (∀ c, start + 1 ≤ c ≤ length tokens →
    spec (let* range := token_range tokens start c in try_make units policy range limits ordinal)
      (λ _, True)) as Hprobe.
  { intros c Hc. eapply spec_bind; [apply token_range_spec; lia|]. intros r _. apply try_make_spec. }
  destruct (monotonic policy).
  - eapply spec_mono; [apply range_search_spec|].
    + unfold search_fuel. lia.
    + lia.
    + intros c Hc. apply Hprobe. lia.
    + simpl. intros c Hc Hne. specialize (Hc Hne). lia.
  - set (lower := Nat.max _ _). assert (start + 1 ≤ lower) by (unfold lower; lia).
    eapply spec_bind.
    { apply (search_down_spec _ _ _ (λ c, lower ≤ c < end_)). intros c Hc.
      eapply spec_mono; [apply Hprobe; lia|]. intros; lia. }
    intros [c|] Hf.
    + apply spec_ret. specialize (Hf c eq_refl). lia.
    + case_match; [by apply spec_fail|by apply spec_ret].
Qed.
End tokens.
