(* ===== verification/ChunkFit.v ===== *)
(** * The fitted input and the next start

    [fit] returns an input that covers the tokens up to [fit_end], and
    [advance] keeps the token invariant while it moves the source rune cursor
    forward. *)
From S2P Require Import Prelude GoText Sha256 Runes AuditEncoding Identity ModelInput Chunking ChunkFacts ChunkTokens.

Section fit.
Context `{Tokenizer} `{Sha256}.
Context (units : list EvidenceUnit) (naturalEnds : list bool) (policy : InputPolicy).
Local Notation ok_tokens := (ok_tokens units).
Local Notation wf_token := (wf_token units).
Local Notation input_ok := (input_ok units policy).
Local Notation unit_runes := (unit_runes units).

(** What [fit] promises for the tokens from [start] to [end_]. *)
Record fit_ok (tokens : list embeddingToken) (start end_ : nat) (first : embeddingToken)
    (limits : generationTotals) (ordinal : nat) (f : fittedInput) : Prop := {
  fo_input : input_ok limits ordinal (fit_input f);
  fo_unit : UnitIndex (SourceSpan (fit_input f)) = unitIndex first;
  fo_start : CharStart (SourceSpan (fit_input f)) = tok_start first;
  fo_flag : Truncated (fit_input f) = fit_truncated f;
  fo_tokenized : Tokenize (Content (fit_input f)) (contentTokens limits) = Ok (contentBoundaries f);
  fo_partitions : partitions 0
    (Z.of_nat (CharEnd (SourceSpan (fit_input f)) - tok_start first)) (contentBoundaries f);
  fo_end : if fit_truncated f
    then fit_end f = S start ∧ CharEnd (SourceSpan (fit_input f)) < tok_end first
    else start < fit_end f ≤ end_ ∧ ∃ final, tokens !! (fit_end f - 1) = Some final ∧
      CharEnd (SourceSpan (fit_input f)) = tok_end final;
}.

Lemma truncatedTokenFit_spec low high prefix limits ordinal :
  1 ≤ low → (∀ c, low ≤ c ≤ high → spec (prefix c) (λ _, True)) →
  spec (truncatedTokenFit units policy low high prefix limits ordinal)
    (λ c, c ≠ 0 → low ≤ c ≤ high).
Proof.
  intros Hlow Hprefix. unfold truncatedTokenFit.
  assert (∀ c, low ≤ c ≤ high →
    spec (let* range := prefix c in try_make units policy range limits ordinal) (λ _, True)) as Hprobe.
  { intros c Hc. eapply spec_bind; [by apply Hprefix|]. intros r _. apply try_make_spec. }
  destruct (monotonic policy).
  - apply range_search_spec; [unfold search_fuel; lia|done|done].
  - eapply spec_bind.
    { apply (search_down_spec _ _ _ (λ c, low ≤ c ≤ high)). intros c Hc.
      eapply spec_mono; [apply Hprobe; lia|]. intros; lia. }
    intros [c|] Hf; apply spec_ret; [|done]. intros _. by apply Hf.
Qed.

(** [truncate] keeps a proper prefix of the token. *)
Lemma truncate_spec t limits ordinal :
  wf_token t →
  spec (truncate units policy t limits ordinal) (λ made, ∃ t' unit,
    made_from units policy [t'] limits ordinal made t' t' unit ∧ wf_token t' ∧
    unitIndex t' = unitIndex t ∧ tok_start t' = tok_start t ∧ tok_end t' < tok_end t).
Proof.
  intros Ht. unfold truncate. apply spec_check; [by split|]. intros _.
  assert (∀ e, tok_start t + 1 ≤ e ≤ tok_end t - 1 →
    safe (tokenUntil units t e) (λ t', wf_token t' ∧ unitIndex t' = unitIndex t ∧
      tok_start t' = tok_start t ∧ tok_end t' < tok_end t)) as Huntil.
  { intros e He. eapply safe_mono; [apply tokenUntil_wf; [done|lia]|].
    intros t' (? & ? & ? & ?). split_and!; [done..|lia]. }
  assert (∀ e, tok_start t + 1 ≤ e ≤ tok_end t - 1 →
    spec (let* range := (let* t' := lift (tokenUntil units t e) in ret [t']) in
          make units policy range limits ordinal) (λ made, ∃ t' unit,
      made_from units policy [t'] limits ordinal made t' t' unit ∧ wf_token t' ∧
      unitIndex t' = unitIndex t ∧ tok_start t' = tok_start t ∧ tok_end t' < tok_end t)) as Hmake.
  { intros e He. eapply spec_bind with (P := λ r, ∃ t', r = [t'] ∧ wf_token t' ∧
      unitIndex t' = unitIndex t ∧ tok_start t' = tok_start t ∧ tok_end t' < tok_end t).
    { eapply spec_bind; [by apply spec_lift, Huntil|]. intros t' Ht'. apply spec_ret. by exists t'. }
    intros r (t' & -> & Hwf & Hu & Hs & Hlt).
    eapply spec_mono; [apply make_spec|]. intros made (first & final & unit & Hm).
    pose proof (mf_first _ _ _ _ _ _ _ _ _ Hm) as Hf. pose proof (mf_final _ _ _ _ _ _ _ _ _ Hm) as Hl.
    simpl in Hf, Hl. simplify_eq. by exists first, unit. }
  eapply spec_bind.
  { unfold maximalTruncatedByteFit. apply range_search_spec; [unfold search_fuel; lia|lia|].
    intros c Hc. eapply spec_bind; [by apply spec_lift, Huntil|]. intros t' _. apply fitsByteLimits_spec. }
  intros byteEnd Hb. simpl in Hb. destruct (Nat.eqb_spec byteEnd 0); [by apply spec_fail|].
  specialize (Hb n). eapply spec_bind; [apply spec_attempt, Hmake, Hb|].
  intros [made|e] Hr; [by apply spec_ret|].
  destruct (fittingLimitError e); simpl; [|by apply spec_fail].
  eapply spec_bind.
  { apply truncatedTokenFit_spec; [lia|]. intros c Hc.
    eapply spec_bind; [apply spec_lift, Huntil; lia|]. intros t' _. by apply spec_ret. }
  intros best Hbest. simpl in Hbest. destruct (Nat.eqb_spec best 0); [by apply spec_fail|].
  apply Hmake. specialize (Hbest n0). lia.
Qed.

Lemma truncateOrReject_spec tokens start end_ first limits ordinal :
  ok_tokens tokens start → tokens !! start = Some first →
  spec (truncateOrReject units policy tokens start limits ordinal)
    (fit_ok tokens start end_ first limits ordinal).
Proof.
  intros Hok Hfirst. unfold truncateOrReject.
  destruct (String.eqb_spec (TruncationPolicy (Chunk policy)) TruncationPolicyReject);
    [by apply spec_fail|].
  rewrite Hfirst. eapply spec_bind with (P := λ t, t = first); [by apply spec_lift|]. intros ? ->.
  pose proof (oa_wf _ _ _ _ (Hok start first (le_n _) Hfirst)) as Hwf.
  eapply spec_bind; [by apply truncate_spec|].
  intros made (t' & unit & Hm & Ht' & Hu & Hs & He). apply spec_ret.
  destruct (made_input_ok _ _ _ _ _ _ _ _ _ Hm Ht' Ht' eq_refl) as [Hio Hp].
  pose proof (mf_span _ _ _ _ _ _ _ _ _ Hm) as Hspan.
  constructor; cbn [fit_input fit_end fit_truncated contentBoundaries mark_truncated SourceSpan Truncated Content];
    rewrite ?Hspan; cbn [UnitIndex CharStart CharEnd].
  - by apply input_ok_truncated.
  - done.
  - done.
  - done.
  - apply (mf_tokenized _ _ _ _ _ _ _ _ _ Hm).
  - by rewrite <- Hs.
  - done.
Qed.

(** An input over the tokens up to [c]. *)
Lemma made_fit_ok tokens start end_ first limits ordinal c made first' final unit :
  ok_tokens tokens start → tokens !! start = Some first → start < c ≤ end_ → end_ ≤ unitEnd first →
  made_from units policy (take (c - start) (drop start tokens)) limits ordinal made first' final unit →
  fit_ok tokens start end_ first limits ordinal (mkFitted made.1 made.2 c false).
Proof.
  intros Hok Hfirst Hc Hend Hm. destruct (Hok start first (le_n _) Hfirst) as [Hwf Hue _ _].
  pose proof (mf_first _ _ _ _ _ _ _ _ _ Hm) as Hf. rewrite head_range, Hfirst in Hf by lia.
  injection Hf as <-.
  pose proof (mf_final _ _ _ _ _ _ _ _ _ Hm) as Hl. rewrite last_range in Hl by lia.
  destruct (same_unit units tokens start first (c - 1) Hok Hfirst ltac:(lia))
    as (t' & Ht' & Hu & He & _).
  assert (t' = final) as -> by congruence.
  destruct (Hok (c - 1) final ltac:(lia) Hl) as [Hwf' _ _ _].
  destruct (made_input_ok _ _ _ _ _ _ _ _ _ Hm Hwf Hwf' Hu) as [Hio Hp].
  pose proof (mf_span _ _ _ _ _ _ _ _ _ Hm) as Hspan.
  constructor; cbn [fit_input fit_end fit_truncated contentBoundaries]; rewrite ?Hspan;
    cbn [UnitIndex CharStart CharEnd]; try done.
  - apply (mf_truncated _ _ _ _ _ _ _ _ _ Hm).
  - apply (mf_tokenized _ _ _ _ _ _ _ _ _ Hm).
  - split; [done|]. by exists final.
Qed.

Lemma try_candidates_spec tokens start end_ first limits ordinal candidates :
  ok_tokens tokens start → tokens !! start = Some first → end_ ≤ unitEnd first →
  Forall (λ c, start < c ≤ end_) candidates →
  spec (try_candidates units policy tokens start limits ordinal candidates)
    (λ found, ∀ f, found = Some f → fit_ok tokens start end_ first limits ordinal f).
Proof.
  intros Hok Hfirst Hend. destruct (Hok start first (le_n _) Hfirst) as [_ Hue _ _].
  induction candidates as [|c candidates IH]; intros Hcs; cbn [try_candidates]; [by apply spec_ret|].
  apply Forall_cons in Hcs as [Hc Hcs].
  eapply spec_bind; [apply token_range_spec; lia|]. intros r ->.
  eapply spec_bind; [apply spec_attempt, make_spec|]. intros [[input bs]|e] Hr.
  - apply spec_ret. intros f [= <-]. destruct Hr as (first' & final & unit & Hm).
    by eapply (made_fit_ok _ _ _ _ _ _ _ (input, bs)).
  - destruct (fittingLimitError e); simpl; [by apply IH|by apply spec_fail].
Qed.

Lemma fit_spec tokens start end_ first limits ordinal :
  ok_tokens tokens start → tokens !! start = Some first → length naturalEnds = S (length tokens) →
  start < end_ ≤ unitEnd first →
  spec (fit units naturalEnds policy tokens start end_ limits ordinal)
    (fit_ok tokens start end_ first limits ordinal).
Proof.
  intros Hok Hfirst Hnat Hend. destruct (Hok start first (le_n _) Hfirst) as [_ Hue _ _]. unfold fit.
  eapply spec_bind; [apply maximalByteFit_spec; lia|]. intros byteEnd Hb. simpl in Hb.
  destruct (Nat.eqb_spec byteEnd 0) as [|Hne]; [by apply truncateOrReject_spec|]. specialize (Hb Hne).
  eapply spec_bind; [apply spec_lift, preferNaturalFitEnd_safe; lia|]. intros preferred Hp.
  simpl in Hp.
  eapply spec_bind.
  { apply (try_candidates_spec tokens start end_ first); [done|done|lia|].
    apply Forall_cons. split; [lia|]. destruct (preferred =? byteEnd); repeat constructor; lia. }
  intros [f|] Hf; [by apply spec_ret, Hf|].
  eapply spec_bind; [apply tokenFit_spec; lia|]. intros best Hbest. simpl in Hbest.
  destruct (Nat.eqb_spec best 0) as [|Hne']; [by apply truncateOrReject_spec|]. specialize (Hbest Hne').
  eapply spec_bind; [apply token_range_spec; lia|]. intros r ->.
  eapply spec_bind; [apply make_spec|]. intros made (first' & final & unit & Hm).
  apply spec_ret. eapply made_fit_ok; [done|done| |lia|done]. lia.
Qed.

(** ** The source rune cursor *)

(** The runes of the tokens from [i] on. *)
Definition measure (tokens : list embeddingToken) (i : nat) : nat :=
  sum_list ((λ t, tok_end t - tok_start t) <$> drop i tokens).

Lemma measure_step tokens i t :
  tokens !! i = Some t → measure tokens i = tok_end t - tok_start t + measure tokens (S i).
Proof. intros Ht. unfold measure. by rewrite (drop_S _ _ _ Ht). Qed.

Lemma measure_le tokens i j : i ≤ j → measure tokens j ≤ measure tokens i.
Proof.
  intros Hij. unfold measure. replace j with (i + (j - i)) by lia.
  rewrite <- drop_drop. rewrite <- (take_drop (j - i) (drop i tokens)) at 2.
  rewrite fmap_app, sum_list_with_app. lia.
Qed.

Lemma measure_insert tokens i t : measure (<[i := t]> tokens) (S i) = measure tokens (S i).
Proof. unfold measure. by rewrite drop_insert_lt by lia. Qed.

(** Where the cursor stands after the input [x]: at the start of a later unit,
    behind a truncated token, at the end of [x], or at the first of its last
    [OverlapTokens] exact tokens. *)
Definition follows (limit : Z) (x : GeneratedEmbeddingInput) (u p : nat) : Prop :=
  (UnitIndex (SourceSpan x) < u ∧ p = 0 ∧
   (Truncated x = false → CharEnd (SourceSpan x) = unit_runes (UnitIndex (SourceSpan x))))
  ∨ (u = UnitIndex (SourceSpan x) ∧ CharStart (SourceSpan x) < p ∧
     if Truncated x then CharEnd (SourceSpan x) < p
     else if (OverlapTokens (Chunk policy) =? 0)%Z then p = CharEnd (SourceSpan x)
     else ∃ bs b, Tokenize (Content x) limit = Ok bs ∧
       bs !! (length bs - Z.to_nat (OverlapTokens (Chunk policy))) = Some b ∧
       p = CharStart (SourceSpan x) + Z.to_nat (tb_Start b) ∧ p < CharEnd (SourceSpan x)).

Record advanced (tokens : list embeddingToken) (start : nat) (f : fittedInput) (limit : Z)
    (next : nat * list embeddingToken) : Prop := {
  ad_ok : ok_tokens next.2 next.1;
  ad_length : length next.2 = length tokens;
  ad_measure : measure next.2 next.1 < measure tokens start;
  ad_le : next.1 ≤ fit_end f;
  ad_rest : ∀ i, fit_end f ≤ i → next.2 !! i = tokens !! i;
  ad_follows : ∀ t, next.2 !! next.1 = Some t → follows limit (fit_input f) (unitIndex t) (tok_start t);
}.

Lemma skip_covered_safe n tokens next desired :
  next + n ≤ length tokens →
  safe (skip_covered n tokens next desired) (λ r, next ≤ r ≤ next + n ∧
    (∀ j t, next ≤ j < r → tokens !! j = Some t → tok_end t ≤ desired) ∧
    (∀ t, r < next + n → tokens !! r = Some t → desired < tok_end t)).
Proof.
  revert next; induction n as [|n IH]; intros next Hn; cbn [skip_covered].
  { simpl. split_and!; [lia|lia|..]; intros; lia. }
  destruct (lookup_lt_is_Some_2 tokens next ltac:(lia)) as [t Ht]. rewrite Ht.
  cbn [from_lookup mbind result_bind]. destruct (Nat.leb_spec (tok_end t) desired) as [Hle|Hlt].
  - eapply safe_mono; [apply IH; lia|]. intros r (Hr & Hcov & Hnext). split_and!; [lia|lia|..].
    + intros j t' Hj Ht'. destruct (decide (j = next)) as [->|]; [by simplify_eq|].
      apply (Hcov j); [lia|done].
    + intros t' Hr'. apply Hnext. lia.
  - simpl. split_and!; [lia|lia|intros; lia|]. intros t' _ Ht'. by simplify_eq.
Qed.

(** The branch of [advance] without overlap. *)
Lemma advance_to_end tokens start end_ first limits ordinal f :
  ok_tokens tokens start → tokens !! start = Some first → end_ ≤ unitEnd first →
  fit_ok tokens start end_ first limits ordinal f →
  (fit_truncated f = true ∨ fit_end f = unitEnd first ∨ OverlapTokens (Chunk policy) = 0%Z) →
  advanced tokens start f (contentTokens limits) (fit_end f, tokens).
Proof.
  intros Hok Hfirst Hend Hf Hcase. destruct (Hok start first (le_n _) Hfirst) as [Hwf Hue _ _].
  assert (start < fit_end f ≤ unitEnd first ∧ ∃ final, tokens !! (fit_end f - 1) = Some final ∧
    if fit_truncated f then final = first ∧ CharEnd (SourceSpan (fit_input f)) < tok_end first
    else CharEnd (SourceSpan (fit_input f)) = tok_end final) as (Hle & final & Hfinal & Hce).
  { pose proof (fo_end _ _ _ _ _ _ _ Hf) as He. destruct (fit_truncated f).
    - destruct He as [-> He]. split; [lia|]. exists first. split; [|done]. by rewrite Nat.sub_succ, Nat.sub_0_r.
    - destruct He as [He (final & Hfi & Hce)]. split; [lia|]. by exists final. }
  destruct (same_unit units tokens start first (fit_end f - 1) Hok Hfirst ltac:(lia))
    as (final' & Hfinal' & Hu & Hue' & Hs & He & _).
  assert (final' = final) as -> by congruence.
  destruct (Hok (fit_end f - 1) final ltac:(lia) Hfinal) as [Hwf' Hue'' Hwithin Hlast].
  replace (S (fit_end f - 1)) with (fit_end f) in * by lia.
  pose proof (fo_unit _ _ _ _ _ _ _ Hf) as Hun. pose proof (fo_start _ _ _ _ _ _ _ Hf) as Hst.
  pose proof (fo_flag _ _ _ _ _ _ _ Hf) as Hfl.
  pose proof (wt_range _ _ Hwf) as Hr. pose proof (wt_range _ _ Hwf') as Hr'.
  constructor; cbn [fst snd].
  - by eapply ok_tokens_mono; [|apply Nat.lt_le_incl, Hle].
  - done.
  - rewrite (measure_step _ _ _ Hfirst). pose proof (measure_le tokens (S start) (fit_end f)). lia.
  - done.
  - done.
  - intros t Ht. unfold follows. rewrite Hun, Hst, Hfl.
    destruct (decide (fit_end f = unitEnd final)) as [Heq|Hneq].
    + left. destruct (Hlast Heq) as [Hru Hnext]. destruct (Hnext t Ht) as [H0' Hlt].
      rewrite Hu in *. split_and!; [done|done|]. intros Ht0. rewrite Ht0 in Hce. congruence.
    + right. destruct Hwithin as (t' & Ht' & Hu' & _ & Hs'); [lia|]. assert (t' = t) as -> by congruence.
      split_and!; [congruence|lia|]. destruct (fit_truncated f).
      * destruct Hce as [-> Hce]. lia.
      * destruct (Z.eqb_spec (OverlapTokens (Chunk policy)) 0) as [|Hov]; [lia|].
        exfalso. destruct Hcase as [|[|]]; [done|congruence|done].
Qed.

(** The branch with overlap. *)
Lemma advance_overlap tokens start end_ first limits ordinal f next t t' :
  ok_tokens tokens start → tokens !! start = Some first → end_ ≤ unitEnd first →
  fit_ok tokens start end_ first limits ordinal f → fit_truncated f = false →
  start ≤ next < fit_end f → tokens !! next = Some t →
  wf_token t' → unitIndex t' = unitIndex t → unitEnd t' = unitEnd t → tok_end t' = tok_end t →
  tok_start t ≤ tok_start t' → tok_start first < tok_start t' →
  follows (contentTokens limits) (fit_input f) (unitIndex t') (tok_start t') →
  advanced tokens start f (contentTokens limits) (next, <[next := t']> tokens).
Proof.
  intros Hok Hfirst Hend Hf Htr Hnext Ht Hwf Hu Hue He Hs1 Hs2 Hfol.
  pose proof (fo_end _ _ _ _ _ _ _ Hf) as Hfe. rewrite Htr in Hfe. destruct Hfe as [Hfe _].
  pose proof (lookup_lt_Some _ _ _ Ht) as Hlt.
  destruct (Hok next t ltac:(lia) Ht) as [Hwft Huet Hin Hla].
  pose proof (wt_range _ _ Hwf) as Hr. pose proof (wt_range _ _ Hwft) as Hrt.
  assert (∀ i, next < i → <[next := t']> tokens !! i = tokens !! i) as Hrest.
  { intros i Hi. rewrite list_lookup_insert_ne by lia. done. }
  constructor; cbn [fst snd].
  - intros i t0 Hi Ht0. destruct (decide (i = next)) as [->|Hne].
    + rewrite list_lookup_insert_eq in Ht0 by done. simplify_eq.
      constructor; rewrite ?length_insert, ?Hrest, ?Hue, ?Hu, ?He by lia; done.
    + rewrite Hrest in Ht0 by lia. destruct (Hok i t0 ltac:(lia) Ht0) as [? ? ? ?].
      constructor; rewrite ?length_insert, ?Hrest by lia; done.
  - by rewrite length_insert.
  - rewrite (measure_step _ next t') by (by rewrite list_lookup_insert_eq).
    rewrite measure_insert. destruct (decide (next = start)) as [->|Hne].
    + rewrite (measure_step _ _ _ Ht). simplify_eq. lia.
    + rewrite (measure_step _ _ _ Hfirst). pose proof (measure_le tokens (S start) next).
      pose proof (wt_range _ _ (oa_wf _ _ _ _ (Hok start first (le_n _) Hfirst))).
      rewrite (measure_step _ _ _ Ht) in *. lia.
  - lia.
  - intros i Hi. apply Hrest. lia.
  - intros t0. rewrite list_lookup_insert_eq by done. intros [= <-]. done.
Qed.

Lemma advance_safe tokens start end_ first limits ordinal f :
  ok_tokens tokens start → tokens !! start = Some first → end_ ≤ unitEnd first →
  (0 <= OverlapTokens (Chunk policy))%Z →
  fit_ok tokens start end_ first limits ordinal f →
  safe (advance units policy tokens start f) (advanced tokens start f (contentTokens limits)).
Proof.
  intros Hok Hfirst Hend Hov Hf. destruct (Hok start first (le_n _) Hfirst) as [Hwf Hue _ _].
  unfold advance. rewrite Hfirst. cbn [from_lookup mbind result_bind].
  destruct (_ || _) eqn:Hcase.
  { apply orb_true_iff in Hcase. rewrite orb_true_iff, Nat.eqb_eq, Z.eqb_eq in Hcase.
    simpl. eapply advance_to_end; [done..|]. naive_solver. }
  apply orb_false_iff in Hcase as [Hcase Hz%Z.eqb_neq].
  apply orb_false_iff in Hcase as [Htr Hne%Nat.eqb_neq].
  pose proof (fo_end _ _ _ _ _ _ _ Hf) as Hfe. rewrite Htr in Hfe.
  destruct Hfe as [Hfe (final & Hfinal & Hce)].
  pose proof (fo_partitions _ _ _ _ _ _ _ Hf) as Hp. pose proof (fo_start _ _ _ _ _ _ _ Hf) as Hst.
  apply safe_check_bind; [by split|]. rewrite Z.ltb_lt. intros Hcount.
  set (bs := contentBoundaries f) in *.
  destruct (lookup_lt_is_Some_2 bs (Z.to_nat (Z.of_nat (length bs) - OverlapTokens (Chunk policy))))
    as [b Hb]; [lia|].
  rewrite Hb. cbn [from_lookup mbind result_bind].
  pose proof (partitions_lookup _ _ _ _ _ Hp Hb) as Hbr.
  set (desired := CharStart (SourceSpan (fit_input f)) + Z.to_nat (tb_Start b)).
  assert (desired < tok_end final) as Hdf by (unfold desired; lia).
  apply safe_check_bind; [by split|]. rewrite Nat.ltb_lt. intros Hdes.
  pose proof (lookup_lt_Some _ _ _ Hfinal).
  eapply safe_bind; [apply skip_covered_safe; lia|].
  intros next (Hnext & Hcov & Hmin). simpl in Hnext.
  apply safe_check_bind; [by split|]. rewrite negb_true_iff, Nat.eqb_neq. intros Hnf.
  destruct (lookup_lt_is_Some_2 tokens next ltac:(lia)) as [t Ht]. rewrite Ht.
  cbn [from_lookup mbind result_bind]. specialize (Hmin t ltac:(lia) Ht).
  destruct (same_unit units tokens start first next Hok Hfirst ltac:(lia))
    as (t0 & Ht0 & Hu & Hue0 & Hs0 & _). assert (t0 = t) as -> by congruence.
  assert (tok_start t ≤ desired) as Hsd.
  { destruct (decide (next = start)) as [->|]; [simplify_eq; lia|].
    destruct (same_unit units tokens start first (next - 1) Hok Hfirst ltac:(lia))
      as (tp & Htp & _ & Huep & _).
    destruct (Hok (next - 1) tp ltac:(lia) Htp) as [_ _ Hin _].
    replace (S (next - 1)) with next in Hin by lia.
    destruct Hin as (t1 & Ht1 & _ & _ & Hs1); [lia|]. assert (t1 = t) as -> by congruence.
    specialize (Hcov (next - 1) tp ltac:(lia) Htp). lia. }
  pose proof (oa_wf _ _ _ _ (Hok next t ltac:(lia) Ht)) as Hwft.
  eapply safe_bind; [apply tokenFrom_wf; [done|lia]|].
  intros t' (Hwf' & Hu' & Hs' & He' & Hue'). simpl.
  apply (advance_overlap tokens start end_ first limits ordinal f next t t'); try done; try lia.
  unfold follows. right. rewrite (fo_flag _ _ _ _ _ _ _ Hf), Htr, Hs'.
  rewrite (proj2 (Z.eqb_neq _ _) Hz). split_and!.
  - rewrite Hu', Hu. by rewrite (fo_unit _ _ _ _ _ _ _ Hf).
  - rewrite Hst. done.
  - exists bs, b. split_and!; [apply (fo_tokenized _ _ _ _ _ _ _ Hf)| |done|by rewrite Hce].
    rewrite <- Hb. f_equal. lia.
Qed.
End fit.
