(* ===== verification/ChunkEvidence.v ===== *)
(** * Pre-tokenized evidence

    [tokenizeEvidence] never indexes out of range, and its tokens satisfy the
    invariant of [ChunkTokens]: they cut every unit into contiguous ranges
    whose byte offsets match their rune offsets.

    The invariant of the loop of [BuildEmbeddingInputs]: it ends within its
    fuel, and its inputs are faithful, in order, complete and within the
    aggregate limits. *)
From S2P Require Import Prelude GoText Sha256 Runes AuditEncoding Identity ModelInput Chunking ChunkFacts ChunkTokens ChunkFit.

Lemma update_app_r f tokens l k x :
  l !! k = Some x → update f (length tokens + k) (tokens ++ l) = Ok (tokens ++ alter f k l).
Proof.
  intros Hk. unfold update. rewrite lookup_app_r by lia.
  replace (length tokens + k - length tokens) with k by lia. by rewrite Hk, alter_app_r.
Qed.

Lemma lookup_app_offset {A} (l1 l2 : list A) k : (l1 ++ l2) !! (length l1 + k) = l2 !! k.
Proof. rewrite lookup_app_r by lia. f_equal. lia. Qed.

(** ** Byte offsets of one unit *)

Section unit.
Context (text : string) (index uend : nat) (bs : list TokenBoundary).
Context (Hparts : partitions 0 (Z.of_nat (RuneCountInString text)) bs).

Definition start_of (b : TokenBoundary) : nat := Z.to_nat (tb_Start b).
Definition end_of (b : TokenBoundary) : nat := Z.to_nat (tb_End b).

(** The tokens when the cursor is at token [c]. *)
Definition stage (c : nat) : list embeddingToken :=
  imap (λ j b, mkToken index (start_of b) (end_of b)
    (if decide (j ≤ c) then byte_offset text (start_of b) else 0)
    (if decide (j < c) then byte_offset text (end_of b) else 0) uend) bs.

(** The tokens with all their byte offsets. *)
Definition located : list embeddingToken :=
  (λ b, mkToken index (start_of b) (end_of b)
    (byte_offset text (start_of b)) (byte_offset text (end_of b)) uend) <$> bs.

Lemma boundary_next a z l k b :
  partitions a z l → l !! k = Some b →
  (tb_End b = z ∧ length l = S k) ∨ ((tb_End b < z)%Z ∧ ∃ b', l !! S k = Some b' ∧ tb_Start b' = tb_End b).
Proof.
  revert a k; induction l as [|b0 l IH]; intros a k; [done|]. simpl. intros (Hs & He & Hp) Hk.
  destruct k as [|k]; simpl in *; [|destruct (IH _ _ Hp Hk) as [[-> ->]|]; auto]. simplify_eq.
  destruct l as [|b1 l]; simpl in *; [by left|]. right. destruct Hp as (Hs1 & He1 & Hp1).
  apply partitions_le in Hp1. split; [lia|]. by exists b1.
Qed.

Lemma boundary_range k b :
  bs !! k = Some b → start_of b < end_of b ≤ RuneCountInString text ∧ (k = 0 → start_of b = 0).
Proof using Hparts.
  intros Hk. pose proof (partitions_lookup _ _ _ _ _ Hparts Hk). unfold start_of, end_of.
  split; [lia|]. intros ->. destruct bs as [|b0 l]; simpl in *; [done|]. simplify_eq. lia.
Qed.

Lemma stage_lookup c j :
  stage c !! j = (λ b, mkToken index (start_of b) (end_of b)
    (if decide (j ≤ c) then byte_offset text (start_of b) else 0)
    (if decide (j < c) then byte_offset text (end_of b) else 0) uend) <$> bs !! j.
Proof. unfold stage. by rewrite list_lookup_imap. Qed.

(** One round of the loop over the bytes. *)
Lemma locate_round tokens c r b :
  bs !! c = Some b → start_of b ≤ r ≤ end_of b → r < RuneCountInString text →
  ∃ c' b', bs !! c' = Some b' ∧ start_of b' ≤ S r ≤ end_of b' ∧
    locate_rune (tokens ++ stage c, r, length tokens + c) (byte_offset text r)
    = Ok (tokens ++ stage c', S r, length tokens + c').
Proof using Hparts.
  intros Hb Hr Hlt. unfold locate_rune.
  rewrite lookup_app_offset, stage_lookup, Hb.
  cbn [fmap option_fmap option_map from_lookup mbind result_bind tok_end].
  destruct (Nat.eqb_spec r (end_of b)) as [->|Hne].
  - destruct (boundary_next _ _ _ _ _ Hparts Hb) as [[He _]|[He (b' & Hb' & Hs')]];
      [unfold end_of in *; lia|].
    exists (S c), b'. pose proof (boundary_range _ _ Hb') as [? _].
    assert (start_of b' = end_of b) as Hse by (unfold start_of, end_of; lia).
    split_and!; [done|lia|lia|].
    erewrite update_app_r by (by rewrite stage_lookup, Hb). cbn [mbind result_bind].
    replace (S (length tokens + c)) with (length tokens + S c) by lia.
    erewrite update_app_r by (by rewrite list_lookup_alter_ne, stage_lookup, Hb' by lia).
    cbn [mbind result_bind]. do 4 f_equal. apply list_eq. intros j.
    rewrite stage_lookup. destruct (decide (j = S c)) as [->|].
    { rewrite list_lookup_alter_eq, list_lookup_alter_ne, stage_lookup, Hb' by lia. simpl.
      rewrite Hse. unfold set_byteStart. simpl. repeat case_decide; (lia || done). }
    rewrite list_lookup_alter_ne by lia. destruct (decide (j = c)) as [->|].
    { rewrite list_lookup_alter_eq, stage_lookup, Hb. simpl. unfold set_byteEnd. simpl.
      repeat case_decide; (lia || done). }
    rewrite list_lookup_alter_ne, stage_lookup by lia.
    destruct (bs !! j); simpl; [|done]. repeat case_decide; (lia || done).
  - exists c, b. split_and!; [done|lia|lia|done].
Qed.

Lemma locate_rounds tokens n r c b :
  bs !! c = Some b → start_of b ≤ r ≤ end_of b → r + n = RuneCountInString text →
  foldM locate_rune (tokens ++ stage c, r, length tokens + c) (byte_offset text <$> seq r n)
  = Ok (tokens ++ stage (length bs - 1), RuneCountInString text, length tokens + (length bs - 1)).
Proof using Hparts.
  revert r c b; induction n as [|n IH]; intros r c b Hb Hr Hn; cbn [seq fmap list_fmap foldM].
  - assert (c = length bs - 1) as ->.
    { destruct (boundary_next _ _ _ _ _ Hparts Hb) as [[_ ->]|[He _]]; [lia|].
      pose proof (partitions_lookup _ _ _ _ _ Hparts Hb). unfold end_of in Hr. lia. }
    repeat f_equal. lia.
  - destruct (locate_round tokens c r b Hb Hr ltac:(lia)) as (c' & b' & Hb' & Hr' & ->).
    cbn [mbind result_bind]. apply (IH (S r) c' b'); [done|done|lia].
Qed.

Lemma locate_unit tokens :
  bs ≠ [] →
  (foldM locate_rune
    (tokens ++ ((λ b, mkToken index (Z.to_nat (tb_Start b)) (Z.to_nat (tb_End b)) 0 0 uend) <$> bs), 0, length tokens)
    (range_offsets text))
  ≫= (λ st, update (set_byteEnd (slen text)) (length tokens + length bs - 1) st.1.1)
  = Ok (tokens ++ located).
Proof using Hparts.
  intros Hne. destruct (lookup_lt_is_Some_2 bs 0) as [b Hb]; [destruct bs; simpl in *; [done|lia]|].
  destruct (boundary_range _ _ Hb) as [Hr0 Hs0].
  replace ((λ b, mkToken index (Z.to_nat (tb_Start b)) (Z.to_nat (tb_End b)) 0 0 uend) <$> bs) with (stage 0).
  2:{ apply list_eq. intros j. rewrite stage_lookup, list_lookup_fmap.
      destruct (bs !! j) as [b'|] eqn:Hj; [|done]. simpl. f_equal. unfold start_of, end_of.
      repeat case_decide; try lia; [|done]. assert (j = 0) as -> by lia.
      destruct (boundary_range _ _ Hj) as [_ Hz]. unfold start_of in Hz.
      by rewrite Hz, byte_offset_0 by done. }
  unfold range_offsets. rewrite <- (Nat.add_0_r (length tokens)) at 1.
  rewrite (locate_rounds tokens _ 0 0 b Hb) by (rewrite ?Hs0 by done; lia).
  cbn [mbind result_bind fst]. destruct (lookup_lt_is_Some_2 bs (length bs - 1)) as [z Hz].
  { destruct bs; simpl in *; [done|lia]. }
  assert (0 < length bs) by (destruct bs; simpl in *; [done|lia]).
  replace (length tokens + length bs - 1) with (length tokens + (length bs - 1)) by lia.
  erewrite update_app_r by (by rewrite stage_lookup, Hz). do 2 f_equal.
  apply list_eq. intros j. unfold located. rewrite list_lookup_fmap.
  destruct (decide (j = length bs - 1)) as [->|].
  - rewrite list_lookup_alter_eq, stage_lookup, Hz. simpl. unfold set_byteEnd. simpl.
    destruct (boundary_next _ _ _ _ _ Hparts Hz) as [[He _]|[_ (b' & Hb' & _)]];
      [|apply lookup_lt_Some in Hb'; lia].
    assert (end_of z = RuneCountInString text) as Hez by (unfold end_of; lia).
    rewrite Hez, (byte_offset_all text (RuneCountInString text)) by lia.
    case_decide; [done|lia].
  - rewrite list_lookup_alter_ne, stage_lookup by lia.
    destruct (bs !! j) eqn:Hj; [|done]. apply lookup_lt_Some in Hj. simpl.
    repeat case_decide; (lia || done).
Qed.
End unit.

(** ** The evidence *)

Lemma partitions_cover a z bs q :
  partitions a z bs → (a <= q < z)%Z →
  ∃ k b, bs !! k = Some b ∧ (tb_Start b <= q < tb_End b)%Z.
Proof.
  revert a; induction bs as [|b bs IH]; intros a; simpl; [lia|]. intros (Hs & He & Hp) Hq.
  destruct (Z.lt_ge_cases q (tb_End b)); [exists 0, b; split; [done|lia]|].
  destruct (IH _ Hp ltac:(lia)) as (k & b' & Hk & Hb'). by exists (S k), b'.
Qed.

Lemma partitions_sum a z bs :
  (0 <= a)%Z → partitions a z bs →
  (Z.of_nat (sum_list ((λ b, end_of b - start_of b)%nat <$> bs)) = z - a)%Z.
Proof.
  unfold end_of, start_of. revert a; induction bs as [|b bs IH]; intros a Ha; simpl; [lia|].
  intros (Hs & He & Hp). specialize (IH (tb_End b) ltac:(lia) Hp).
  change (list_fmap _ _ ?f bs) with (f <$> bs). lia.
Qed.

Section evidence.
Context `{Tokenizer} (units : list EvidenceUnit).

(** The first [k] units are tokenized. *)
Record prefix_ok (k : nat) (st : list embeddingToken * list bool) : Prop := {
  po_ok : ok_tokens units st.1 0;
  po_natural : length st.2 = if decide (st.1 = []) then 0 else S (length st.1);
  po_index : ∀ i t, st.1 !! i = Some t → unitIndex t < k;
  po_cover : ∀ u p, u < k → p < unit_runes units u →
    ∃ i t, st.1 !! i = Some t ∧ unitIndex t = u ∧ tok_start t ≤ p < tok_end t;
  po_measure : measure st.1 0 = sum_list (RuneCountInString ∘ UnitText <$> take k units);
}.

Lemma located_lookup text index uend bs j t :
  located text index uend bs !! j = Some t →
  ∃ b, bs !! j = Some b ∧
    t = mkToken index (start_of b) (end_of b) (byte_offset text (start_of b)) (byte_offset text (end_of b)) uend.
Proof. unfold located. rewrite list_lookup_fmap. intros (b & ? & ?)%fmap_Some. by exists b. Qed.

Lemma located_ok tokens unit k bs :
  units !! k = Some unit → ok_tokens units tokens 0 →
  (∀ i t, tokens !! i = Some t → unitIndex t < k) →
  partitions 0 (Z.of_nat (RuneCountInString (UnitText unit))) bs →
  ok_tokens units (tokens ++ located (UnitText unit) k (length tokens + length bs) bs) 0.
Proof.
  intros Hunit Hok Hidx Hp i t _ Ht. set (l := located _ _ _ _) in *.
  assert (length l = length bs) as Hll by apply length_fmap.
  destruct (decide (i < length tokens)) as [Hi|Hi].
  - rewrite lookup_app_l in Ht by done. destruct (Hok i t ltac:(lia) Ht) as [Hwf Hue Hin Hla].
    constructor; [done|rewrite length_app; lia|..].
    + intros Hlt. destruct (Hin Hlt) as (t' & Ht' & ?). exists t'. split; [|done].
      by apply lookup_app_l_Some.
    + intros Heq. destruct (Hla Heq) as [Hr Hnext]. split; [done|]. intros t'.
      destruct (decide (S i < length tokens)) as [Hsi|Hsi].
      * rewrite lookup_app_l by done. apply Hnext.
      * replace (S i) with (length tokens + 0) by lia. rewrite lookup_app_offset.
        intros (b & Hb & ->)%located_lookup. cbn [tok_start unitIndex].
        destruct (boundary_range _ _ Hp _ _ Hb) as [_ Hz]. split; [auto|]. by eapply Hidx.
  - replace i with (length tokens + (i - length tokens)) in Ht by lia.
    rewrite lookup_app_offset in Ht. apply located_lookup in Ht as (b & Hb & ->).
    pose proof (lookup_lt_Some _ _ _ Hb) as Hlt. destruct (boundary_range _ _ Hp _ _ Hb) as [Hr _].
    assert (unit_runes units k = RuneCountInString (UnitText unit)) as Hur
      by (unfold unit_runes; by rewrite Hunit).
    constructor; cbn [unitIndex tok_start tok_end unitEnd byteStart byteEnd].
    + constructor; cbn [unitIndex tok_start tok_end byteStart byteEnd]; [by exists unit|lia].
    + rewrite length_app. lia.
    + intros Hin. destruct (boundary_next _ _ _ _ _ Hp Hb) as [[_ He]|[_ (b' & Hb' & Hs')]]; [lia|].
      eexists. replace (S i) with (length tokens + S (i - length tokens)) by lia.
      rewrite lookup_app_offset. unfold l, located. rewrite list_lookup_fmap, Hb'. cbn [fmap option_fmap option_map].
      split; [done|]. cbn [unitIndex unitEnd tok_start]. split_and!; [done|done|].
      unfold start_of, end_of. by rewrite Hs'.
    + intros Hla. destruct (boundary_next _ _ _ _ _ Hp Hb) as [[He _]|[_ (b' & Hb' & Hs')]].
      2:{ apply lookup_lt_Some in Hb'. lia. }
      split; [rewrite Hur; unfold end_of; lia|]. intros t' Ht'. apply lookup_lt_Some in Ht'.
      rewrite length_app in Ht'. lia.
Qed.

Lemma measure_app tokens l :
  measure (tokens ++ l) 0 = measure tokens 0 + measure l 0.
Proof. unfold measure. rewrite !drop_0, fmap_app, sum_list_with_app. done. Qed.

Lemma measure_located text index uend bs :
  partitions 0 (Z.of_nat (RuneCountInString text)) bs →
  measure (located text index uend bs) 0 = RuneCountInString text.
Proof.
  intros Hp. apply partitions_sum in Hp; [|done]. unfold measure, located.
  rewrite drop_0, <- list_fmap_compose. unfold compose. cbn [tok_end tok_start]. lia.
Qed.

Lemma sum_take_S k unit :
  units !! k = Some unit →
  sum_list (RuneCountInString ∘ UnitText <$> take (S k) units)
  = sum_list (RuneCountInString ∘ UnitText <$> take k units) + RuneCountInString (UnitText unit).
Proof.
  intros Hk. rewrite (take_S_r _ _ _ Hk), fmap_app, sum_list_with_app. simpl. lia.
Qed.

Lemma tokenize_unit_safe k unit st :
  units !! k = Some unit → prefix_ok k st →
  safe (tokenize_unit st (k, unit)) (prefix_ok (S k)).
Proof.
  intros Hunit Hst. destruct st as [tokens naturalEnds]. unfold tokenize_unit.
  assert (unit_runes units k = RuneCountInString (UnitText unit)) as Hur
    by (unfold unit_runes; by rewrite Hunit).
  destruct Hst as [Hok Hnat Hidx Hcov Hmeas]. cbn [fst snd] in *.
  destruct (Nat.eqb_spec (RuneCountInString (UnitText unit)) 0) as [Hz|Hnz].
  { simpl. constructor; cbn [fst snd]; [done|done|..].
    - intros i t Ht. specialize (Hidx i t Ht). lia.
    - intros u p Hu Hp. apply Hcov; [|done]. destruct (decide (u = k)) as [->|]; lia.
    - rewrite (sum_take_S _ _ Hunit), Hmeas. lia. }
  apply safe_check_bind; [by split|]. intros _.
  eapply safe_bind with (P := λ _, True). { destruct (Tokenize _ _) as [?|[]]; simpl; auto; by split. }
  intros bs _. eapply safe_bind; [apply validateTokenBoundaries_safe|]. intros u Hv. simpl in Hv. clear u.
  apply validateTokenBoundaries_iff in Hv as (Hne & _ & Hp).
  pose proof (locate_unit (UnitText unit) k (length tokens + length bs) bs Hp tokens Hne) as Hloc.
  apply bind_Ok_iff in Hloc as ([[tokens' r'] c'] & Hf & Hupd).
  rewrite Hf. cbn [mbind result_bind fst] in Hupd |- *. rewrite Hupd. cbn [mbind result_bind safe].
  assert (0 < length bs) as Hpos by (destruct bs; [done|simpl; lia]).
  assert (length (located (UnitText unit) k (length tokens + length bs) bs) = length bs) as Hll
    by apply length_fmap.
  constructor; cbn [fst snd].
  - by apply located_ok.
  - rewrite length_insert, length_app, length_take, length_app, length_replicate, length_fmap.
    rewrite decide_False by (intros [_ Hnil]%app_eq_nil; rewrite Hnil in Hll; simpl in Hll; lia).
    rewrite length_app, Hll, Hnat. case_decide as Htok; [subst; simpl; lia|lia].
  - intros i t Ht. apply lookup_app_Some in Ht as [Ht|[_ Ht]]; [specialize (Hidx i t Ht); lia|].
    apply located_lookup in Ht as (b & _ & ->). simpl. lia.
  - intros u p Hu Hpu. destruct (decide (u = k)) as [->|].
    + destruct (partitions_cover _ _ _ (Z.of_nat p) Hp ltac:(lia)) as (j & b & Hb & Hq).
      eexists (length tokens + j), _. rewrite lookup_app_offset. unfold located.
      rewrite list_lookup_fmap, Hb. cbn [fmap option_fmap option_map]. split; [done|].
      cbn [unitIndex tok_start tok_end]. unfold start_of, end_of. split; [done|lia].
    + destruct (Hcov u p ltac:(lia) Hpu) as (i & t & Ht & ?). exists i, t.
      split; [by apply lookup_app_l_Some|done].
  - rewrite measure_app, Hmeas, (measure_located _ _ _ _ Hp), (sum_take_S _ _ Hunit). done.
Qed.

Lemma prefix_ok_0 : prefix_ok 0 ([], []).
Proof.
  constructor; cbn [fst snd].
  - intros i t _ Ht. by rewrite lookup_nil in Ht.
  - by rewrite decide_True.
  - intros i t Ht. by rewrite lookup_nil in Ht.
  - intros u p Hu. lia.
  - done.
Qed.

Lemma tokenize_units_safe rest k st :
  (∀ j unit, rest !! j = Some unit → units !! (k + j) = Some unit) → prefix_ok k st →
  safe (foldM tokenize_unit st (zip (seq k (length rest)) rest)) (prefix_ok (k + length rest)).
Proof.
  revert k st; induction rest as [|unit rest IH]; intros k st Hrest Hst; cbn [length seq zip_with foldM zip].
  { simpl. by rewrite Nat.add_0_r. }
  eapply safe_bind; [apply tokenize_unit_safe; [|done]|].
  { rewrite <- (Nat.add_0_r k). by apply (Hrest 0). }
  intros st' Hst'. rewrite Nat.add_succ_r, <- Nat.add_succ_l. apply IH; [|done].
  intros j u Hj. rewrite Nat.add_succ_l, <- Nat.add_succ_r. by apply (Hrest (S j)).
Qed.

Lemma tokenizeEvidence_safe :
  safe (tokenizeEvidence units) (prefix_ok (length units)).
Proof. apply (tokenize_units_safe units 0); [done|apply prefix_ok_0]. Qed.
End evidence.

(** * The generation loop *)

(** ** Totals *)

Definition zsum (f : GeneratedEmbeddingInput → Z) (l : list GeneratedEmbeddingInput) : Z :=
  foldr (λ x acc, f x + acc)%Z 0%Z l.

Lemma zsum_snoc f l x : zsum f (l ++ [x]) = (zsum f l + f x)%Z.
Proof. unfold zsum. induction l as [|y l IH]; simpl; lia. Qed.

Definition content_size (x : GeneratedEmbeddingInput) : Z := Z.of_nat (slen (Content x)).
Definition rendered_size (x : GeneratedEmbeddingInput) : Z := Z.of_nat (slen (Rendered x)).

(** The totals are the sums over the inputs, and within the limits. *)
Record totals_ok (limit : generationTotals) (inputs : list GeneratedEmbeddingInput)
    (totals : generationTotals) : Prop := {
  to_sums : totals = mkTotals (zsum ContentTokens inputs) (zsum RenderedTokens inputs)
              (zsum content_size inputs) (zsum rendered_size inputs);
  to_ct : (0 <= contentTokens totals <= contentTokens limit)%Z;
  to_rt : (0 <= renderedTokens totals <= renderedTokens limit)%Z;
  to_cb : (0 <= contentBytes totals <= contentBytes limit)%Z;
  to_rb : (0 <= renderedBytes totals <= renderedBytes limit)%Z;
}.

Lemma totals_add_ok limit inputs totals x totals' :
  totals_ok limit inputs totals → totals_add totals x limit = Some totals' →
  totals_ok limit (inputs ++ [x]) totals'.
Proof.
  intros [Hs H1 H2 H3 H4]. unfold totals_add.
  destruct (_ && _) eqn:Hb; [|done]. intros [= <-].
  rewrite !andb_true_iff, !addWithinAggregate_iff in Hb. destruct Hb as [[[? ?] ?] ?].
  constructor; cbn [contentTokens renderedTokens contentBytes renderedBytes]; [|lia..].
  rewrite !zsum_snoc, Hs. done.
Qed.

Section generate.
Context `{Tokenizer} `{Sha256}.
Context (units : list EvidenceUnit) (naturalEnds : list bool) (policy : InputPolicy).
Context (limits : GenerationLimits).
Context (Hbudget : (0 < MaxTokens (Chunk policy))%Z) (Hoverlap : (0 <= OverlapTokens (Chunk policy))%Z).
Local Notation limit := (policyChunkLimits policy).

(** An input of the list covers rune [p] of unit [u]. *)
Definition covered (inputs : list GeneratedEmbeddingInput) (u p : nat) : Prop :=
  ∃ x, x ∈ inputs ∧ UnitIndex (SourceSpan x) = u ∧ CharStart (SourceSpan x) ≤ p < CharEnd (SourceSpan x).

(** What the loop appends when it starts at token [start] with [n] inputs. *)
Record appended (tokens : list embeddingToken) (start n : nat)
    (new : list GeneratedEmbeddingInput) : Prop := {
  ap_ok : ∀ k x, new !! k = Some x → input_ok units policy limit (n + k) x;
  ap_head : ∀ x, new !! 0 = Some x → ∃ t, tokens !! start = Some t ∧
    UnitIndex (SourceSpan x) = unitIndex t ∧ CharStart (SourceSpan x) = tok_start t;
  ap_next : ∀ k x y, new !! k = Some x → new !! S k = Some y →
    follows units policy (contentTokens limit) x (UnitIndex (SourceSpan y)) (CharStart (SourceSpan y));
  ap_cover : ∀ i t p, start ≤ i → tokens !! i = Some t → tok_start t ≤ p < tok_end t →
    covered new (unitIndex t) p ∨ Exists (λ x, Truncated x = true) new;
}.

Definition generated (tokens : list embeddingToken) (start : nat)
    (inputs : list GeneratedEmbeddingInput)
    (out : list GeneratedEmbeddingInput * generationTotals) : Prop :=
  ∃ new, out.1 = inputs ++ new ∧ appended tokens start (length inputs) new ∧
    totals_ok (limit_totals limits) out.1 out.2 ∧ (Z.of_nat (length out.1) <= MaxInputs limits)%Z.

Lemma appended_nil tokens start n : length tokens ≤ start → appended tokens start n [].
Proof.
  intros Hlen. constructor; [done|done|done|].
  intros i t p Hi Ht. apply lookup_lt_Some in Ht. lia.
Qed.

(** One more input in front. *)
Lemma appended_cons tokens start end_ first n f next new :
  ok_tokens units tokens start → tokens !! start = Some first → end_ ≤ unitEnd first →
  fit_ok units policy tokens start end_ first limit n f →
  advanced units policy tokens start f (contentTokens limit) next →
  appended next.2 next.1 (S n) new → appended tokens start n (fit_input f :: new).
Proof.
  intros Hok Hfirst Hend Hf Had Hnew. constructor.
  - intros [|k] x Hx; simpl in Hx.
    + simplify_eq. rewrite Nat.add_0_r. apply (fo_input _ _ _ _ _ _ _ _ _ Hf).
    + rewrite Nat.add_succ_r, <- Nat.add_succ_l. by apply (ap_ok _ _ _ _ Hnew).
  - intros x [= <-]. exists first. split; [done|].
    split; [apply (fo_unit _ _ _ _ _ _ _ _ _ Hf)|apply (fo_start _ _ _ _ _ _ _ _ _ Hf)].
  - intros [|k] x y Hx Hy; simpl in Hx, Hy; [|by eapply (ap_next _ _ _ _ Hnew k)].
    simplify_eq. destruct (ap_head _ _ _ _ Hnew y Hy) as (t & Ht & -> & ->).
    by apply (ad_follows _ _ _ _ _ _ _ Had).
  - intros i t p Hi Ht Hp. destruct (decide (fit_end f ≤ i)) as [Hge|Hlt].
    + rewrite <- (ad_rest _ _ _ _ _ _ _ Had) in Ht by done.
      pose proof (ad_le _ _ _ _ _ _ _ Had).
      destruct (ap_cover _ _ _ _ Hnew i t p ltac:(lia) Ht Hp) as [(x & Hx & ?)|Hx]; [left|right].
      * exists x. split; [by apply list_elem_of_further|done].
      * by apply Exists_cons_tl.
    + pose proof (fo_end _ _ _ _ _ _ _ _ _ Hf) as He. pose proof (fo_flag _ _ _ _ _ _ _ _ _ Hf) as Hfl.
      destruct (fit_truncated f) eqn:Htr; [right; by apply Exists_cons_hd|left].
      destruct He as [He (final & Hfinal & Hce)].
      destruct (same_unit units tokens start first i Hok Hfirst ltac:(lia)) as (t0 & Ht0 & Hu & Hue & Hs & _).
      assert (t0 = t) as -> by congruence.
      destruct (same_unit units tokens i t (fit_end f - 1) (ok_tokens_mono _ _ _ _ Hok Hi) Ht ltac:(lia))
        as (t1 & Ht1 & _ & _ & _ & He1 & _). assert (t1 = final) as -> by congruence.
      exists (fit_input f). split; [by apply list_elem_of_here|].
      rewrite (fo_unit _ _ _ _ _ _ _ _ _ Hf), (fo_start _ _ _ _ _ _ _ _ _ Hf), Hce. split; [done|lia].
Qed.

Lemma generate_spec fuel tokens start inputs totals :
  ok_tokens units tokens start → (start < length tokens → length naturalEnds = S (length tokens)) →
  measure tokens start < fuel → totals_ok (limit_totals limits) inputs totals →
  (Z.of_nat (length inputs) <= MaxInputs limits)%Z →
  spec (generate units naturalEnds policy fuel limits tokens start inputs totals)
    (generated tokens start inputs).
Proof using Hbudget Hoverlap.
  revert tokens start inputs totals. induction fuel as [|fuel IH]; intros tokens start inputs totals
    Hok Hnat Hfuel Htot Hlen; [lia|]. cbn [generate].
  destruct (tokens !! start) as [first|] eqn:Hfirst.
  2:{ apply spec_ret. exists []. rewrite app_nil_r. split_and!; [done| |done|done].
      apply appended_nil. by apply lookup_ge_None. }
  pose proof (lookup_lt_Some _ _ _ Hfirst) as Hlt. specialize (Hnat Hlt).
  destruct (Hok start first (le_n _) Hfirst) as [Hwf Hue _ _].
  apply spec_check; [by split|]. rewrite negb_true_iff, Z.eqb_neq. intros Hmax.
  eapply spec_bind; [apply spec_lift, chooseChunkEnd_safe; lia|]. intros end_ Hend. simpl in Hend.
  eapply spec_bind; [by apply fit_spec|]. intros f Hf.
  eapply spec_bind with (P := λ totals', totals_ok (limit_totals limits) (inputs ++ [fit_input f]) totals').
  { apply spec_lift. destruct (totals_add _ _ _) as [totals'|] eqn:Hadd; [|by split].
    by apply (totals_add_ok _ _ totals). }
  intros totals' Htot'.
  eapply spec_bind; [apply spec_lift; eapply advance_safe; [done|done|apply Hend|done|done]|].
  intros next Had. eapply spec_mono.
  - apply IH.
    + apply (ad_ok _ _ _ _ _ _ _ Had).
    + intros _. by rewrite (ad_length _ _ _ _ _ _ _ Had).
    + pose proof (ad_measure _ _ _ _ _ _ _ Had). lia.
    + done.
    + rewrite length_app. simpl. lia.
  - intros out (new & Hout & Hnew & Ht & Hl). exists (fit_input f :: new).
    rewrite <- app_assoc in Hout. split_and!; [done| |done|done].
    rewrite length_app, Nat.add_1_r in Hnew.
    eapply (appended_cons tokens start end_ first); [done|done|apply Hend|done..].
Qed.

End generate.

(** [derive_inputs] returns a complete list of faithful inputs or one of the
    errors of the code. *)
Lemma derive_inputs_safe `{Tokenizer} `{Sha256} units policy limits :
  (0 < MaxTokens (Chunk policy))%Z → (0 <= OverlapTokens (Chunk policy))%Z →
  (0 <= MaxInputs limits)%Z →
  (0 <= MaxTotalContentTokens limits)%Z → (0 <= MaxTotalRenderedTokens limits)%Z →
  (0 <= MaxTotalContentBytes limits)%Z → (0 <= MaxTotalRenderedBytes limits)%Z →
  (0 <= MaxFittingWorkTokens limits)%Z → (0 <= MaxFittingWorkBytes limits)%Z →
  safe (derive_inputs units policy limits) (λ out, ∃ tokens,
    appended units policy tokens 0 0 out.1 ∧
    (∀ u p, p < unit_runes units u →
      ∃ i t, tokens !! i = Some t ∧ unitIndex t = u ∧ tok_start t ≤ p < tok_end t) ∧
    totals_ok (limit_totals limits) out.1 out.2 ∧ (Z.of_nat (length out.1) <= MaxInputs limits)%Z).
Proof.
  intros Hmt Hov Hmi Hct Hrt Hcb Hrb Hwt Hwb. unfold derive_inputs, generate_inputs.
  eapply safe_bind; [apply tokenizeEvidence_safe|]. intros [tokens naturalEnds] [Hok Hnat _ Hcov Hmeas].
  cbn [fst snd] in *. rewrite take_ge in Hmeas by done.
  pose proof (generate_spec units naturalEnds policy limits Hmt Hov (S (evidence_runes units)) tokens 0 []
    zero_totals) as Hgen.
  destruct (λ H1 H2 H3 H4 H5, Hgen H1 H2 H3 H4 H5
    (mkWork (MaxFittingWorkTokens limits) (MaxFittingWorkBytes limits)) (conj Hwt Hwb)) as [Hs _].
  - done.
  - intros Hlt. rewrite Hnat. case_decide; [subst; simpl in Hlt; lia|done].
  - rewrite Hmeas. unfold evidence_runes. lia.
  - constructor; cbn; (done || lia).
  - simpl. lia.
  - eapply safe_mono; [exact Hs|]. intros out (new & Hout & Hnew & Ht & Hl). simpl in Hout, Hnew.
    rewrite Hout in *. exists tokens. split_and!; [done| |done|done].
    intros u p Hp. apply Hcov; [|done]. unfold unit_runes in Hp.
    destruct (units !! u) eqn:Hu; [by apply lookup_lt_Some in Hu|lia].
Qed.
