(* ===== verification/Generation.v ===== *)
(** * Sealed generations (document/generation.go)

    The value that [BuildEmbeddingInputs] returns, its validator, the check of
    its inputs against the evidence and its conversion to provider inputs.
    The canonical JSON encodings rest on [encoding/json/v2] and are
    parameters; checksums and fingerprints are their SHA-256 digests.  Of the
    checks of normalized evidence (document/evidence_codec.go) those of the
    units' texts and headings are modelled.

    The pieces of a built input satisfy the checks of the validator of stored
    generations: keys, digests, text and totals. *)
From S2P Require Import Prelude GoText Sha256 Runes AuditEncoding Identity ModelInput Chunking Names ChunkFacts ChunkTokens ChunkFit ChunkEvidence.

Definition EmbeddingInputGenerationVersion : Z := 1.
Definition maxEvidenceTextBytes : Z := 256 * 2 ^ 20.
Definition maxEvidenceUnits : nat := N.to_nat 100000.
Definition maxEvidenceUnitRunes : Z := 256 * 2 ^ 20.
Definition maxEvidenceHeadingDepth : nat := 64.
Definition maxEvidenceHeadingBytes : Z := 2 ^ 20.

(** The units and the recorded checksum of normalized evidence. *)
Record NormalizedEvidence := mkEvidence { ev_Checksum : string; Units : list EvidenceUnit }.

Record EmbeddingInputGeneration := mkGeneration {
  gen_Version : Z;
  gen_Checksum : string;
  PolicyFingerprint : string;
  EvidenceChecksum : string;
  gen_Chunk : EmbeddingChunkPolicy;
  ModelInputFingerprint : string;
  gen_LexicalEvidenceFingerprint : string;
  gen_MaxInputTokens : Z;
  gen_MaxInputBytes : Z;
  gen_AttachmentContext : option AttachmentContextSnapshot;
  Totals : generationTotals;
  Inputs : list GeneratedEmbeddingInput;
}.

Record inputPolicyIdentity := mkPolicyIdentity {
  pi_AttachmentContext : option AttachmentContextSnapshot;
  pi_Chunk : EmbeddingChunkPolicy;
  pi_LexicalEvidenceFingerprint : string;
  pi_MaxInputBytes : Z;
  pi_MaxInputTokens : Z;
  pi_ModelInputFingerprint : string;
}.

(** [canonical.Marshal] of the three other values and [json.Unmarshal] of a
    generation, unknown members rejected; [None] is an error.  [marshal_evidence]
    is [MarshalNormalizedEvidenceV1] behind the checks of texts and headings:
    the checks of the identities, locators, artifacts, regions, tables and
    omissions, and the encoding. *)
Class GenerationCodec := {
  marshal_evidence : NormalizedEvidence → option string;
  marshal_policy : inputPolicyIdentity → option string;
  marshal_generation : EmbeddingInputGeneration → option string;
  unmarshal_generation : string → option EmbeddingInputGeneration;
}.

Definition policyIdentity (g : EmbeddingInputGeneration) : inputPolicyIdentity :=
  mkPolicyIdentity (gen_AttachmentContext g) (gen_Chunk g) (gen_LexicalEvidenceFingerprint g)
    (gen_MaxInputBytes g) (gen_MaxInputTokens g) (ModelInputFingerprint g).

Definition with_policy_fingerprint (g : EmbeddingInputGeneration) (fp : string) :=
  mkGeneration (gen_Version g) (gen_Checksum g) fp (EvidenceChecksum g) (gen_Chunk g)
    (ModelInputFingerprint g) (gen_LexicalEvidenceFingerprint g) (gen_MaxInputTokens g)
    (gen_MaxInputBytes g) (gen_AttachmentContext g) (Totals g) (Inputs g).
Definition with_inputs (g : EmbeddingInputGeneration) (inputs : list GeneratedEmbeddingInput)
    (totals : generationTotals) :=
  mkGeneration (gen_Version g) (gen_Checksum g) (PolicyFingerprint g) (EvidenceChecksum g) (gen_Chunk g)
    (ModelInputFingerprint g) (gen_LexicalEvidenceFingerprint g) (gen_MaxInputTokens g)
    (gen_MaxInputBytes g) (gen_AttachmentContext g) totals inputs.
Definition with_checksum (g : EmbeddingInputGeneration) (checksum : string) :=
  mkGeneration (gen_Version g) checksum (PolicyFingerprint g) (EvidenceChecksum g) (gen_Chunk g)
    (ModelInputFingerprint g) (gen_LexicalEvidenceFingerprint g) (gen_MaxInputTokens g)
    (gen_MaxInputBytes g) (gen_AttachmentContext g) (Totals g) (Inputs g).

#[export] Instance generationTotals_eq_dec : EqDecision generationTotals.
Proof. solve_decision. Defined.

Section generation.
Context `{Normalizer} `{Tokenizer} `{Sha256} `{ContractCodec} `{GenerationCodec}.

(** *** Texts and headings of evidence *)

Definition CR : ascii := "013"%char.
Definition LF : ascii := "010"%char.

Definition validateEvidenceText (value : string) : result chunk_error () :=
  _ ← check (ValidString value && (Z.of_nat (slen value) <=? maxEvidenceTextBytes)%Z) ErrEvidence;
  check (negb (mem_byte NUL value)) ErrEvidence.

(** [strings.ReplaceAll] of "\r\n", then of "\r", by "\n". *)
Fixpoint crlf_to_lf (s : string) : string :=
  match s with
  | "" => ""
  | String a t =>
      match t with
      | String b t' =>
          if Ascii.eqb a CR && Ascii.eqb b LF then String LF (crlf_to_lf t') else String a (crlf_to_lf t)
      | "" => String a ""
      end
  end.
Fixpoint cr_to_lf (s : string) : string :=
  match s with
  | "" => ""
  | String a s => String (if Ascii.eqb a CR then LF else a) (cr_to_lf s)
  end.
Definition canonicalEvidenceString (value : string) : string := nfc (cr_to_lf (crlf_to_lf value)).

Definition validateHeadingPathLimits (remainingBytes : Z) (headingPath : list string) : result chunk_error Z :=
  _ ← check (length headingPath <=? maxEvidenceHeadingDepth)%nat ErrEvidence;
  foldM (λ remaining heading, _ ← check (Z.of_nat (slen heading) <=? remaining)%Z ErrEvidence;
                              Ok (remaining - Z.of_nat (slen heading))%Z) remainingBytes headingPath.

Definition validate_evidence_heading (heading : string) : result chunk_error () :=
  _ ← validateEvidenceText heading;
  check (String.eqb (canonicalEvidenceString heading) heading && negb (String.eqb heading "")) ErrEvidence.
Definition validate_evidence_unit (unit : EvidenceUnit) : result chunk_error () :=
  _ ← validateEvidenceText (UnitText unit);
  _ ← check (String.eqb (nfc (UnitText unit)) (UnitText unit) && negb (mem_byte CR (UnitText unit))) ErrEvidence;
  _ ← mapR validate_evidence_heading (HeadingPath unit);
  Ok ().
(** [validateNormalizedEvidenceV1], as far as it looks at texts and headings:
    one budget of heading bytes for the whole document. *)
Definition validateNormalizedEvidenceV1 (units : list EvidenceUnit) : result chunk_error () :=
  _ ← check ((1 <=? length units) && (length units <=? maxEvidenceUnits))%nat ErrEvidence;
  _ ← foldM validateHeadingPathLimits maxEvidenceHeadingBytes (HeadingPath <$> units);
  _ ← mapR validate_evidence_unit units;
  Ok ().

Definition evidence_checksum (evidence : NormalizedEvidence) : result chunk_error string :=
  _ ← validateNormalizedEvidenceV1 (Units evidence);
  encoded ← from_lookup (marshal_evidence evidence) ErrEvidence; Ok (sha256Hex encoded).
Definition inputPolicyFingerprint (identity : inputPolicyIdentity) : result chunk_error string :=
  encoded ← from_lookup (marshal_policy identity) ErrSealing; Ok (sha256Hex encoded).
Definition generationChecksum (g : EmbeddingInputGeneration) : result chunk_error string :=
  encoded ← from_lookup (marshal_generation (with_checksum g "")) ErrSealing; Ok (sha256Hex encoded).

(** [BuildEmbeddingInputs].  The tokenizer's identity is fixed, so the second
    comparison repeats the first. *)
Definition BuildEmbeddingInputs (evidence : NormalizedEvidence) (policy : InputPolicy)
    (limits : GenerationLimits) : result chunk_error EmbeddingInputGeneration :=
  _ ← validateInputPolicy policy;
  _ ← validateGenerationLimits limits;
  checksum ← evidence_checksum evidence;
  _ ← check (String.eqb checksum (ev_Checksum evidence)) ErrEvidence;
  let g := mkGeneration EmbeddingInputGenerationVersion "" "" (ev_Checksum evidence) (Chunk policy)
    (Fingerprint (ModelInput_ policy)) (LexicalEvidenceFingerprint policy) (MaxInputTokens policy)
    (MaxInputBytes policy) (AttachmentContext policy) zero_totals [] in
  pretokenized ← tokenizeEvidence (Units evidence);
  fp ← inputPolicyFingerprint (policyIdentity g);
  out ← generate_inputs (Units evidence) policy limits pretokenized;
  _ ← check (bool_decide (Tokenizer_Identity = declaredIdentity (Chunk policy))) ErrIdentityChanged;
  let g := with_inputs (with_policy_fingerprint g fp) out.1 out.2 in
  checksum ← generationChecksum g;
  Ok (with_checksum g checksum).

(** ** Validation *)

Definition valid_heading (heading : string) : bool :=
  negb (String.eqb heading "") && ValidString heading && negb (ContainsControl heading)
  && String.eqb (nfc heading) heading.

(** One round over the headings: the bytes that remain. *)
Definition spend_heading (remaining : Z) (heading : string) : result chunk_error Z :=
  _ ← check (valid_heading heading) ErrPolicy;
  _ ← check (Z.of_nat (slen heading) <=? remaining)%Z ErrPolicy;
  Ok (remaining - Z.of_nat (slen heading))%Z.

(** [validateEmbeddingInputAuxiliaries] for a rendition chunk with one span. *)
Definition validate_auxiliaries (headings : list string) (span : ChunkSpan) :
    result chunk_error () :=
  _ ← check (length headings <=? maxEvidenceHeadingDepth)%nat ErrPolicy;
  _ ← foldM spend_heading maxEvidenceHeadingBytes headings;
  _ ← check ((UnitIndex span <? maxEvidenceUnits)%nat && (CharStart span <? CharEnd span)%nat
             && (Z.of_nat (CharEnd span) <=? maxEvidenceUnitRunes)%Z) ErrPolicy;
  check (Z.of_nat (CharEnd span) - Z.of_nat (CharStart span) <=? maxEmbeddingInputBytes)%Z ErrPolicy.

Definition validateGeneratedInput (g : EmbeddingInputGeneration) (index : nat)
    (input : GeneratedEmbeddingInput) : result chunk_error () :=
  _ ← validateStableToken (Key input) 128;
  _ ← check (String.eqb (Key input) (generatedInputKey index (Checksum input))) ErrPolicy;
  _ ← check (negb (String.eqb (Content input) "") && negb (String.eqb (Rendered input) "")
             && ValidString (Content input) && ValidString (Rendered input)) ErrPolicy;
  _ ← check ((1 <=? ContentTokens input) && (ContentTokens input <=? MaxTokens (gen_Chunk g))
             && (1 <=? RenderedTokens input) && (RenderedTokens input <=? gen_MaxInputTokens g))%Z ErrPolicy;
  _ ← check (Z.of_nat (slen (Rendered input)) <=? gen_MaxInputBytes g)%Z ErrPolicy;
  _ ← check (String.eqb (sha256Hex (Rendered input)) (Checksum input)) ErrPolicy;
  validate_auxiliaries (InputHeadingPath input) (SourceSpan input).

Definition maximal_totals : generationTotals :=
  mkTotals maxGenerationTotalTokens maxGenerationTotalTokens maxGenerationTotalBytes
    maxGenerationTotalBytes.

(** The loop over the inputs: each is validated, then added to the totals. *)
Definition validate_input_step (g : EmbeddingInputGeneration) (st : nat * generationTotals)
    (input : GeneratedEmbeddingInput) : result chunk_error (nat * generationTotals) :=
  _ ← validateGeneratedInput g st.1 input;
  totals ← from_lookup (totals_add st.2 input maximal_totals) ErrAggregate;
  Ok (S st.1, totals).

Definition validateEmbeddingInputGeneration (g : EmbeddingInputGeneration) : result chunk_error () :=
  _ ← check (gen_Version g =? EmbeddingInputGenerationVersion)%Z ErrPolicy;
  _ ← mapR validateFingerprint [gen_Checksum g; PolicyFingerprint g; EvidenceChecksum g;
        gen_LexicalEvidenceFingerprint g; ModelInputFingerprint g];
  _ ← validateChunkPolicy (gen_Chunk g);
  _ ← validateProviderInputLimits (gen_MaxInputTokens g) (gen_MaxInputBytes g);
  _ ← match gen_AttachmentContext g with
      | Some snapshot => validateAttachmentContextSnapshot snapshot
      | None => Ok ()
      end;
  _ ← check (Z.of_nat (length (Inputs g)) <=? maxGeneratedInputs)%Z ErrPolicy;
  st ← foldM (validate_input_step g) (0%nat, zero_totals) (Inputs g);
  _ ← check (bool_decide (st.2 = Totals g)) ErrAggregate;
  fp ← inputPolicyFingerprint (policyIdentity g);
  _ ← check (String.eqb fp (PolicyFingerprint g)) ErrSealing;
  checksum ← generationChecksum g;
  check (String.eqb checksum (gen_Checksum g)) ErrSealing.

(** ** The encoded form *)

Definition maxGenerationEncodedBytes : Z := 16 * 2 ^ 30.

Definition MarshalEmbeddingInputGeneration (g : EmbeddingInputGeneration) : result chunk_error string :=
  _ ← validateEmbeddingInputGeneration g;
  from_lookup (marshal_generation g) ErrSealing.

(** [canonical.Decode]: only the exact canonical encoding is accepted. *)
Definition canonical_Decode (raw : string) : result chunk_error EmbeddingInputGeneration :=
  value ← from_lookup (unmarshal_generation raw) ErrSealing;
  encoded ← from_lookup (marshal_generation value) ErrSealing;
  _ ← check (String.eqb raw encoded) ErrSealing;
  Ok value.

Definition DecodeEmbeddingInputGeneration (data : string) (maxEncodedBytes maxInputs : Z) :
    result chunk_error EmbeddingInputGeneration :=
  _ ← check ((1 <=? maxEncodedBytes) && (maxEncodedBytes <=? maxGenerationEncodedBytes)
             && (Z.of_nat (slen data) <=? maxEncodedBytes))%Z ErrLimits;
  _ ← check ((1 <=? maxInputs) && (maxInputs <=? maxGeneratedInputs))%Z ErrLimits;
  g ← canonical_Decode data;
  _ ← check (Z.of_nat (length (Inputs g)) <=? maxInputs)%Z ErrLimits;
  _ ← validateEmbeddingInputGeneration g;
  Ok g.

(** ** The evidence *)

(** The body of the loop of [ValidateEvidence]. *)
Definition validate_source (units : list EvidenceUnit) (input : GeneratedEmbeddingInput) :
    result chunk_error () :=
  let span := SourceSpan input in
  unit ← from_lookup (units !! UnitIndex span) ErrEvidence;
  let runes := to_runes (UnitText unit) in
  _ ← check ((CharStart span <? CharEnd span)%nat && (CharEnd span <=? length runes)%nat
             && String.eqb (of_runes (take (CharEnd span - CharStart span) (drop (CharStart span) runes)))
                  (Content input)) ErrEvidence;
  check (bool_decide (InputHeadingPath input = HeadingPath unit)) ErrEvidence.

Definition ValidateEvidence (g : EmbeddingInputGeneration) (evidence : NormalizedEvidence) :
    result chunk_error () :=
  _ ← validateEmbeddingInputGeneration g;
  checksum ← evidence_checksum evidence;
  _ ← check (String.eqb checksum (EvidenceChecksum g)) ErrEvidence;
  _ ← mapR (validate_source (Units evidence)) (Inputs g);
  Ok ().

(** ** Provider inputs *)

(** The fields of [EmbeddingInput] that [ToEmbeddingInputs] fills; role and
    kind are the constants for document chunks. *)
Record EmbeddingInput := mkEmbeddingInput {
  ei_Key : string;
  ei_Text : string;
  ei_HeadingPath : list string;
  ei_SourceSpans : list ChunkSpan;
}.

Definition ToEmbeddingInputs (g : EmbeddingInputGeneration) (contract : ModelInputContract) :
    result chunk_error (list EmbeddingInput) :=
  _ ← as_policy_error (validateModelInputContract contract);
  _ ← check (String.eqb (Fingerprint contract) (ModelInputFingerprint g)) ErrPolicy;
  _ ← validateEmbeddingInputGeneration g;
  let snapshot := default no_attachment (gen_AttachmentContext g) in
  mapR (λ input,
      let contextualized := contextualizeDocumentInput snapshot (Content input) in
      _ ← check (String.eqb (EncodeDocument contract contextualized) (Rendered input)
                 && String.eqb (sha256Hex (Rendered input)) (Checksum input)) ErrPolicy;
      Ok (mkEmbeddingInput (Key input) contextualized (InputHeadingPath input) [SourceSpan input]))
    (Inputs g).
End generation.

(** * Facts about sealed generations *)

(** ** Digests *)

(** A check of all numbers below [k]. *)
Lemma forallb_below (P : N → bool) k n :
  forallb P (N.of_nat <$> seq 0 k) = true → (n < N.of_nat k)%N → P n = true.
Proof.
  rewrite forallb_forall. intros HP Hn. apply HP, list_elem_of_In, list_elem_of_fmap.
  exists (N.to_nat n). split; [lia|]. apply elem_of_seq. lia.
Qed.

Lemma hex_char_lower n : (n < 16)%N → is_lower_hex_byte (hex_char n) = true.
Proof. by apply (forallb_below (λ n, is_lower_hex_byte (hex_char n)) 16). Qed.

Lemma N_of_ascii_lt a : (N_of_ascii a < 256)%N.
Proof. apply N_ascii_bounded. Qed.

Lemma hex_encode_lower b : forallb is_lower_hex_byte (hex_encode b) = true.
Proof.
  induction b as [|a b IH]; cbn [hex_encode forallb]; [done|]. pose proof (N_of_ascii_lt a).
  rewrite !hex_char_lower, IH; [done|by apply N.mod_lt|apply N.Div0.div_lt_upper_bound; lia].
Qed.

Lemma slen_string_of_list l : slen (String.string_of_list_ascii l) = length l.
Proof. induction l as [|a l IH]; simpl; [done|by rewrite IH]. Qed.

Lemma bs_string_of_list l : bs (String.string_of_list_ascii l) = l.
Proof. apply String.list_ascii_of_string_of_list_ascii. Qed.

Lemma sha256Hex_IsSHA256Hex `{Sha256} value : IsSHA256Hex (sha256Hex value) = true.
Proof.
  unfold IsSHA256Hex, sha256Hex, isLowerHex.
  rewrite slen_string_of_list, length_hex_encode, Sum256_length, bs_string_of_list. apply hex_encode_lower.
Qed.

(** ** Keys *)

Definition key_char : ascii → bool := lower_id_char ["_"; "-"; "."]%char.

Lemma all_chars_list P l : all_chars P (String.string_of_list_ascii l) = forallb P l.
Proof. induction l as [|a l IH]; simpl; [done|by rewrite IH]. Qed.

Lemma all_chars_bs P s : all_chars P s = forallb P (bs s).
Proof. unfold bs. induction s as [|a s IH]; simpl; [done|by rewrite IH]. Qed.

Lemma lower_hex_key_char a : is_lower_hex_byte a = true → key_char a = true.
Proof. destruct a as [[] [] [] [] [] [] [] []]; vm_compute; done. Qed.

Lemma all_chars_stake P n s : all_chars P s = true → all_chars P (stake n s) = true.
Proof.
  revert s; induction n as [|n IH]; intros [|a s]; simpl; try done.
  intros [-> H]%andb_true_iff. by apply IH.
Qed.

Lemma pretty_N_go_key x s :
  all_chars key_char s = true →
  all_chars key_char (pretty_N_go x s) = true.
Proof.
  revert s. induction (N.lt_wf_0 x) as [x _ IH]; intros s Hs.
  destruct (decide (x = 0)%N) as [->|Hx]; [by rewrite pretty_N_go_0|].
  rewrite pretty_N_go_step by lia. apply IH; [apply N.div_lt; lia|]. cbn [all_chars].
  rewrite Hs, andb_true_r.
  by apply (forallb_below (λ n, key_char (pretty_N_char n)) 10), N.mod_lt.
Qed.

Lemma Itoa_key n k :
  (0 <= Z.of_nat n < 10 ^ Z.of_nat (S k))%Z →
  all_chars key_char (Itoa (Z.of_nat n)) = true ∧ slen (Itoa (Z.of_nat n)) ≤ S k.
Proof.
  intros Hn. split; [|by apply Itoa_length].
  unfold Itoa, pretty, pretty_Z. destruct (Z.of_nat n) as [|p|p] eqn:Hp; [done|..|lia].
  unfold pretty, pretty_positive, pretty, pretty_N. simpl. by apply pretty_N_go_key.
Qed.

Lemma generatedInputKey_stable `{Sha256} ordinal value :
  ordinal < N.to_nat 1000000 →
  validateStableToken (generatedInputKey ordinal (sha256Hex value)) 128 = Ok ().
Proof.
  intros Ho. pose proof (sha256Hex_IsSHA256Hex value) as Hhex. unfold IsSHA256Hex, isLowerHex in Hhex.
  apply andb_true_iff in Hhex as [_ Hhex].
  destruct (Itoa_key ordinal 5) as [Hk Hl]; [lia|].
  assert (all_chars key_char (sha256Hex value) = true) as Hs.
  { rewrite all_chars_bs. apply forallb_forall. intros a Ha. rewrite forallb_forall in Hhex.
    by apply lower_hex_key_char, Hhex. }
  unfold validateStableToken, generatedInputKey, pad6.
  replace (all_chars _ _) with true.
  2:{ symmetry. change (lower_id_char _) with key_char.
      rewrite !all_chars_app, all_chars_list, Hk, (all_chars_stake _ _ _ Hs).
      rewrite andb_true_r, !andb_true_iff. split_and!; try done.
      apply forallb_forall. intros a Ha.
      apply list_elem_of_In, elem_of_replicate in Ha as [-> _]. done. }
  replace (negb _ && _) with true; [done|]. symmetry. apply andb_true_iff. split; [done|].
  apply Nat.leb_le. rewrite !slen_app, slen_string_of_list, length_replicate, slen_stake.
  change (slen "chunk-") with 6. change (slen "-") with 1. lia.
Qed.

(** ** Text *)

Lemma contextualize_valid `{Normalizer} att content :
  (att = no_attachment ∨ validateAttachmentContextSnapshot att = Ok ()) → ValidString content = true →
  ValidString (contextualizeDocumentInput att content) = true.
Proof.
  intros Hatt Hc. unfold contextualizeDocumentInput. case_bool_decide; [done|].
  destruct Hatt as [|Hatt]; [done|]. unfold validateAttachmentContextSnapshot in Hatt.
  apply bind_Ok_iff in Hatt as (u & _ & Hatt). apply bind_Ok_iff in Hatt as (u' & Ht%check_Ok_iff & Hx%check_Ok_iff).
  rewrite !andb_true_iff in Ht, Hx. destruct Ht as [[[Ht _] _] _], Hx as [[[Hx _] _] _].
  assert (∀ label value, ValidString label = true → ValidString value = true →
    ValidString (if String.eqb value "" then "" else label +:+ value +:+ newline) = true) as Hfield.
  { intros label value Hl Hv. case_match; [done|]. by repeat apply ValidString_app. }
  repeat apply ValidString_app; try done; by apply Hfield.
Qed.

Lemma EncodeDocument_valid contract x :
  validateModelInputEncoder (Document contract) = Ok () → ValidString x = true →
  ValidString (EncodeDocument contract x) = true.
Proof.
  intros (pre & suf & _ & _ & Hp & Hs & Hr)%validateModelInputEncoder_split Hx.
  unfold EncodeDocument. rewrite Hr. by repeat apply ValidString_app.
Qed.

(** A heading that evidence may have, and what more the inputs ask of it. *)
Definition accepted_heading `{Normalizer} (heading : string) : Prop :=
  heading ≠ "" ∧ ValidString heading = true ∧ nfc heading = heading.
Definition plain_headings (headings : list string) : bool :=
  forallb (λ heading, negb (ContainsControl heading)) headings.

(** What the accepted units of evidence have in common. *)
Record accepted_unit `{Normalizer} (unit : EvidenceUnit) : Prop := {
  cu_text : ValidString (UnitText unit) = true;
  cu_runes : (Z.of_nat (RuneCountInString (UnitText unit)) <= maxEvidenceUnitRunes)%Z;
  cu_depth : length (HeadingPath unit) ≤ maxEvidenceHeadingDepth;
  cu_headings : Forall accepted_heading (HeadingPath unit);
  cu_heading_bytes : (Z.of_nat (sum_list (slen <$> HeadingPath unit)) <= maxEvidenceHeadingBytes)%Z;
}.

Lemma decode_length s : length (decode s) ≤ slen s.
Proof.
  induction s as [|s Hs Hsz IH] using decode_ind; [done|]. rewrite (decode_cons s Hs). cbn [length].
  rewrite slen_sdrop in IH. lia.
Qed.

Lemma heading_limits headings remaining rest :
  validateHeadingPathLimits remaining headings = Ok rest →
  length headings ≤ maxEvidenceHeadingDepth ∧
  (0 <= remaining → 0 <= rest)%Z ∧ rest = (remaining - Z.of_nat (sum_list (slen <$> headings)))%Z.
Proof.
  unfold validateHeadingPathLimits. intros (u & Hd%check_Ok_iff%Nat.leb_le & Hf)%bind_Ok_iff.
  split; [done|]. clear Hd. revert remaining Hf; induction headings as [|h headings IH]; intros remaining Hf.
  { injection Hf as <-. simpl. lia. }
  cbn [foldM] in Hf. apply bind_Ok_iff in Hf as (r & Hr & Hf). apply bind_Ok_iff in Hr as (u' & Hc%check_Ok_iff%Z.leb_le & [= <-]).
  apply IH in Hf as [Hp ->]. rewrite fmap_cons. cbn [sum_list foldr]. 
  change (sum_list_with id) with sum_list in *. split; [lia|]. simpl. lia.
Qed.

Lemma evidence_heading_ok `{Normalizer} heading :
  validate_evidence_heading heading = Ok () → accepted_heading heading.
Proof.
  unfold validate_evidence_heading, validateEvidenceText.
  intros (u & (u' & Hv%check_Ok_iff & _)%bind_Ok_iff & Hc%check_Ok_iff)%bind_Ok_iff.
  apply andb_true_iff in Hv as [Hv _]. apply andb_true_iff in Hc as [Hc%String.eqb_eq Hn%negb_true_iff].
  split_and!; [by apply String.eqb_neq|done|]. rewrite <- Hc. apply nfc_idem.
Qed.

Lemma accepted_units `{Normalizer} units :
  validateNormalizedEvidenceV1 units = Ok () →
  Forall accepted_unit units ∧ length units ≤ maxEvidenceUnits.
Proof.
  unfold validateNormalizedEvidenceV1. intros (u & Hl%check_Ok_iff & Hr)%bind_Ok_iff.
  apply andb_true_iff in Hl as [_ Hl%Nat.leb_le]. split; [|done].
  apply bind_Ok_iff in Hr as (rest & Hh & Hr). apply bind_Ok_iff in Hr as (us & Hu & _).
  assert (∀ remaining, (0 <= remaining <= maxEvidenceHeadingBytes)%Z →
    foldM validateHeadingPathLimits remaining (HeadingPath <$> units) = Ok rest →
    Forall (λ unit, length (HeadingPath unit) ≤ maxEvidenceHeadingDepth ∧
      (Z.of_nat (sum_list (slen <$> HeadingPath unit)) <= maxEvidenceHeadingBytes)%Z) units) as Hbytes.
  { clear. induction units as [|unit units IH]; intros remaining Hrem Hf; [constructor|].
    rewrite fmap_cons in Hf. cbn [foldM] in Hf. apply bind_Ok_iff in Hf as (r & (Hd & H0 & ->)%heading_limits & Hf).
    constructor; [split; [done|lia]|]. eapply IH; [|exact Hf]. lia. }
  specialize (Hbytes maxEvidenceHeadingBytes ltac:(unfold maxEvidenceHeadingBytes; lia) Hh). apply mapR_Forall2 in Hu.
  clear Hl Hh. induction Hu as [|unit [] units us Hx Hu IH]; [constructor|].
  apply Forall_cons in Hbytes as [[Hd Hb] Hbytes]. constructor; [|by apply IH]. clear IH.
  unfold validate_evidence_unit in Hx. apply bind_Ok_iff in Hx as (u1 & Ht & Hx).
  apply bind_Ok_iff in Hx as (u2 & _ & Hx). apply bind_Ok_iff in Hx as (u3 & Hx%mapR_Forall2 & _).
  unfold validateEvidenceText in Ht. apply bind_Ok_iff in Ht as (u4 & Ht%check_Ok_iff & _).
  apply andb_true_iff in Ht as [Ht Htl%Z.leb_le]. split; try done.
  - pose proof (decode_length (UnitText unit)). unfold RuneCountInString, maxEvidenceTextBytes, maxEvidenceUnitRunes in *. lia.
  - clear -Hx. induction Hx as [|h [] hs us Hh Hx IH]; [constructor|]. constructor; [by apply evidence_heading_ok|done].
Qed.

Lemma spend_heading_cases `{Normalizer} remaining h :
  accepted_heading h → (Z.of_nat (slen h) <= remaining)%Z →
  spend_heading remaining h =
  if negb (ContainsControl h) then Ok (remaining - Z.of_nat (slen h))%Z else Err ErrPolicy.
Proof.
  intros (Hn%String.eqb_neq & Hv & Hc) Hr%Z.leb_le. unfold spend_heading, valid_heading.
  rewrite Hn, Hv, Hc, String.eqb_refl, Hr. by destruct (ContainsControl h).
Qed.

Lemma spend_headings `{Normalizer} headings remaining :
  Forall accepted_heading headings →
  (Z.of_nat (sum_list (slen <$> headings)) <= remaining)%Z →
  (if plain_headings headings then ∃ r, foldM spend_heading remaining headings = Ok r
   else foldM spend_heading remaining headings = Err ErrPolicy).
Proof.
  intros Hv. revert remaining; induction Hv as [|h headings Hh Hv IH]; intros remaining Hr; [by eexists|].
  cbn [foldM plain_headings forallb]. rewrite fmap_cons in Hr. simpl in Hr.
  rewrite spend_heading_cases by (done || lia). destruct (negb _); cbn [andb mbind result_bind]; [|done].
  apply IH. change (list_fmap _ _ ?f headings) with (f <$> headings) in *. lia.
Qed.

Lemma auxiliaries_cases `{Normalizer} unit span :
  accepted_unit unit → UnitIndex span < maxEvidenceUnits →
  CharStart span < CharEnd span ≤ RuneCountInString (UnitText unit) →
  validate_auxiliaries (HeadingPath unit) span =
  if plain_headings (HeadingPath unit) then Ok () else Err ErrPolicy.
Proof.
  intros [_ Hr Hd Hh Hb] Hu [Hs He]. unfold validate_auxiliaries.
  rewrite (proj2 (Nat.leb_le _ _) Hd). cbn [check mbind result_bind].
  pose proof (spend_headings _ _ Hh Hb) as Hspend. destruct (plain_headings _); [|by rewrite Hspend].
  destruct Hspend as [r ->]. cbn [mbind result_bind].
  rewrite (proj2 (Nat.ltb_lt _ _) Hu), (proj2 (Nat.ltb_lt _ _) Hs).
  unfold maxEvidenceUnitRunes, maxEmbeddingInputBytes in *.
  rewrite !(proj2 (Z.leb_le _ _)) by lia. done.
Qed.

(** ** Totals *)

Definition totals_of (l : list GeneratedEmbeddingInput) : generationTotals :=
  mkTotals (zsum ContentTokens l) (zsum RenderedTokens l) (zsum content_size l) (zsum rendered_size l).

Lemma zsum_app f l k : zsum f (l ++ k) = (zsum f l + zsum f k)%Z.
Proof. unfold zsum. induction l as [|x l IH]; simpl; lia. Qed.

Lemma zsum_nonneg f l : Forall (λ x, 0 <= f x)%Z l → (0 <= zsum f l)%Z.
Proof. induction 1; unfold zsum in *; simpl; lia. Qed.

(** The sums stay within the maximum when the final ones do. *)
Lemma totals_add_prefix pre x rest :
  Forall (λ y, 0 <= ContentTokens y ∧ 0 <= RenderedTokens y)%Z (pre ++ x :: rest) →
  (contentTokens (totals_of (pre ++ x :: rest)) <= maxGenerationTotalTokens)%Z →
  (renderedTokens (totals_of (pre ++ x :: rest)) <= maxGenerationTotalTokens)%Z →
  (contentBytes (totals_of (pre ++ x :: rest)) <= maxGenerationTotalBytes)%Z →
  (renderedBytes (totals_of (pre ++ x :: rest)) <= maxGenerationTotalBytes)%Z →
  totals_add (totals_of pre) x maximal_totals = Some (totals_of (pre ++ [x])).
Proof.
  unfold totals_of. cbn [contentTokens renderedTokens contentBytes renderedBytes]. rewrite !zsum_app.
  intros Hall H1 H2 H3 H4.
  assert (∀ f, Forall (λ y, 0 <= f y)%Z (pre ++ x :: rest) →
    (0 <= zsum f pre ∧ 0 <= f x ∧ zsum f (x :: rest) = f x + zsum f rest ∧ 0 <= zsum f rest)%Z) as Hpos.
  { intros f [Hpre [Hx Hrest]%Forall_cons]%Forall_app.
    split_and!; [by apply zsum_nonneg|done|done|by apply zsum_nonneg]. }
  destruct (Hpos ContentTokens) as (? & ? & ? & ?).
  { eapply Forall_impl; [exact Hall|]. by intros ? [? _]. }
  destruct (Hpos RenderedTokens) as (? & ? & ? & ?).
  { eapply Forall_impl; [exact Hall|]. by intros ? [_ ?]. }
  destruct (Hpos content_size) as (? & ? & ? & ?).
  { apply Forall_true. intros y. unfold content_size. lia. }
  destruct (Hpos rendered_size) as (? & ? & ? & ?).
  { apply Forall_true. intros y. unfold rendered_size. lia. }
  assert (∀ f, zsum f [x] = f x) as Hone by (intros f; unfold zsum; simpl; lia).
  unfold totals_add, maximal_totals. cbn [contentTokens renderedTokens contentBytes renderedBytes].
  replace (_ && _) with true; [by rewrite !Hone|]. symmetry.
  fold (content_size x) (rendered_size x). rewrite !andb_true_iff, !addWithinAggregate_iff. lia.
Qed.

Lemma validate_inputs_fold `{Normalizer} `{Sha256} g pre rest :
  (∀ k x, rest !! k = Some x → validateGeneratedInput g (length pre + k) x =
     if plain_headings (InputHeadingPath x) then Ok () else Err ErrPolicy) →
  Forall (λ y, 0 <= ContentTokens y ∧ 0 <= RenderedTokens y)%Z (pre ++ rest) →
  (contentTokens (totals_of (pre ++ rest)) <= maxGenerationTotalTokens)%Z →
  (renderedTokens (totals_of (pre ++ rest)) <= maxGenerationTotalTokens)%Z →
  (contentBytes (totals_of (pre ++ rest)) <= maxGenerationTotalBytes)%Z →
  (renderedBytes (totals_of (pre ++ rest)) <= maxGenerationTotalBytes)%Z →
  foldM (validate_input_step g) (length pre, totals_of pre) rest
  = if forallb (λ x, plain_headings (InputHeadingPath x)) rest
    then Ok (length (pre ++ rest), totals_of (pre ++ rest)) else Err ErrPolicy.
Proof.
  revert pre; induction rest as [|x rest IH]; intros pre Hv Hall H1 H2 H3 H4.
  { simpl. by rewrite app_nil_r. }
  pose proof (Hv 0 x eq_refl) as Hx. rewrite Nat.add_0_r in Hx. cbn [forallb].
  destruct (plain_headings (InputHeadingPath x)); cbn [andb].
  2:{ assert (validate_input_step g (length pre, totals_of pre) x = Err ErrPolicy) as He
        by (unfold validate_input_step; cbn [fst snd]; by rewrite Hx).
      cbn [foldM]. by rewrite He. }
  assert (validate_input_step g (length pre, totals_of pre) x
    = Ok (S (length pre), totals_of (pre ++ [x]))) as Hstep.
  { unfold validate_input_step. cbn [fst snd]. rewrite Hx. cbn [mbind result_bind].
    by rewrite (totals_add_prefix pre x rest Hall H1 H2 H3 H4). }
  cbn [foldM]. rewrite Hstep. cbn [mbind result_bind].
  replace (S (length pre)) with (length (pre ++ [x])) by (rewrite length_app; simpl; lia).
  replace (pre ++ x :: rest) with ((pre ++ [x]) ++ rest) in * by by rewrite <- app_assoc.
  apply IH; [|done..]. intros k y Hk. rewrite length_app. simpl.
  rewrite <- Nat.add_assoc. by apply (Hv (S k)).
Qed.
