(* ===== verification/GenerationProps.v ===== *)
(** * Correctness of embedding input generation

    Chunking ends without an index out of range, loses no text, overlaps by
    exactly the declared tokens, respects every limit, and what it builds
    passes the validators of stored generations. *)
From S2P Require Import Prelude GoText Sha256 Names Runes AuditEncoding Identity ModelInput Chunking ChunkFacts ChunkTokens ChunkFit ChunkEvidence Generation.

(** ** Validated arguments *)

Section validated.
Context `{Normalizer} `{Tokenizer} `{Sha256} `{ContractCodec}.

Record policy_ok (policy : InputPolicy) : Prop := {
  pk_chunk : validateChunkPolicy (Chunk policy) = Ok ();
  pk_identity : Tokenizer_Identity = declaredIdentity (Chunk policy);
  pk_limits : validateProviderInputLimits (MaxInputTokens policy) (MaxInputBytes policy) = Ok ();
  pk_document : validateModelInputEncoder (Document (ModelInput_ policy)) = Ok ();
  pk_contract : validateModelInputContract (ModelInput_ policy) = Ok ();
  pk_lexical : validateFingerprint (LexicalEvidenceFingerprint policy) = Ok ();
  pk_attachment : match AttachmentContext policy with
    | Some snapshot => validateAttachmentContextSnapshot snapshot = Ok () | None => True end;
}.

Lemma validateInputPolicy_ok policy : validateInputPolicy policy = Ok () → policy_ok policy.
Proof.
  unfold validateInputPolicy. intros ([] & Hchunk & Hrest)%bind_Ok_iff.
  apply bind_Ok_iff in Hrest as (u & Hid%check_Ok_iff%bool_decide_eq_true & Hrest).
  apply bind_Ok_iff in Hrest as ([] & Hl & Hrest). apply bind_Ok_iff in Hrest as ([] & Hc & Hrest).
  apply bind_Ok_iff in Hrest as (u' & Hp%check_Ok_iff & Hrest).
  apply bind_Ok_iff in Hrest as ([] & Hf & Ha).
  assert (validateModelInputContract (ModelInput_ policy) = Ok ()) as Hc'.
  { unfold as_policy_error in Hc. by destruct (validateModelInputContract _) as [[]|]. }
  constructor; try done.
  - clear Hc. unfold validateModelInputContract in Hc'. apply bind_Ok_iff in Hc' as (u2 & Hm & _).
    unfold validateModelInputContractFields in Hm. apply bind_Ok_iff in Hm as (u3 & _ & Hm).
    apply negb_true_iff in Hp. rewrite Hp in Hm. apply bind_Ok_iff in Hm as (u4 & _ & Hm).
    apply bind_Ok_iff in Hm as (u5 & _ & Hm). apply bind_Ok_iff in Hm as ([] & Hd & _). done.
  - by destruct (AttachmentContext policy).
Qed.

Lemma chunk_policy_bounds policy :
  validateChunkPolicy policy = Ok () →
  (0 < MaxTokens policy ∧ 0 <= OverlapTokens policy < MaxTokens policy)%Z.
Proof.
  unfold validateChunkPolicy. intros (u & Hm%check_Ok_iff & Hrest)%bind_Ok_iff.
  apply bind_Ok_iff in Hrest as (u' & Ho%check_Ok_iff & _).
  rewrite !andb_true_iff, !Z.leb_le, !Z.ltb_lt in *. lia.
Qed.

Record limits_ok (limits : GenerationLimits) : Prop := {
  lk_inputs : (1 <= MaxInputs limits <= maxGeneratedInputs)%Z;
  lk_ct : (1 <= MaxTotalContentTokens limits <= maxGenerationTotalTokens)%Z;
  lk_rt : (1 <= MaxTotalRenderedTokens limits <= maxGenerationTotalTokens)%Z;
  lk_cb : (1 <= MaxTotalContentBytes limits <= maxGenerationTotalBytes)%Z;
  lk_rb : (1 <= MaxTotalRenderedBytes limits <= maxGenerationTotalBytes)%Z;
  lk_wt : (1 <= MaxFittingWorkTokens limits)%Z;
  lk_wb : (1 <= MaxFittingWorkBytes limits)%Z;
}.

Lemma validateGenerationLimits_ok limits : validateGenerationLimits limits = Ok () → limits_ok limits.
Proof.
  unfold validateGenerationLimits. intros (u & Hi%check_Ok_iff & Hall%check_Ok_iff)%bind_Ok_iff.
  cbn [forallb] in Hall. rewrite !andb_true_iff, !Z.leb_le in *.
  destruct Hall as (? & ? & ? & ? & [? _] & [? _] & _). by constructor.
Qed.

(** What the inputs of validated arguments satisfy. *)
Lemma derive_inputs_ok units policy limits :
  validateInputPolicy policy = Ok () → validateGenerationLimits limits = Ok () →
  safe (derive_inputs units policy limits) (λ out, ∃ tokens,
    appended units policy tokens 0 0 out.1 ∧
    (∀ u p, p < unit_runes units u →
      ∃ i t, tokens !! i = Some t ∧ unitIndex t = u ∧ tok_start t ≤ p < tok_end t) ∧
    totals_ok (limit_totals limits) out.1 out.2 ∧ (Z.of_nat (length out.1) <= MaxInputs limits)%Z).
Proof.
  intros Hp%validateInputPolicy_ok Hl%validateGenerationLimits_ok.
  destruct (chunk_policy_bounds _ (pk_chunk _ Hp)) as [Hm [Ho _]]. destruct Hl.
  apply derive_inputs_safe; lia.
Qed.
End validated.

Section properties.
Context `{Normalizer} `{Tokenizer} `{Sha256} `{ContractCodec}.
Context (units : list EvidenceUnit) (policy : InputPolicy) (limits : GenerationLimits).

(** C31: Generation always ends: with validated arguments, whatever the
    tokenizer answers, it returns its inputs or one of the errors of the code.
    The number of runes bounds the rounds of its loop, no binary search runs
    out of its interval and no slice is indexed out of range. *)
Theorem derive_inputs_total :
  validateInputPolicy policy = Ok () → validateGenerationLimits limits = Ok () →
  (∃ out, derive_inputs units policy limits = Ok out) ∨
  (∃ e, derive_inputs units policy limits = Err e ∧ e ≠ OutOfFuel ∧ e ≠ Panic).
Proof.
  intros Hp Hl. pose proof (derive_inputs_ok units policy limits Hp Hl) as Hs.
  destruct (derive_inputs units policy limits) as [out|e]; [left; by exists out|right].
  destruct Hs as [? ?]. by exists e.
Qed.

(** C30: No text is lost: when no input was truncated, and under the
    reject policy none ever is, every rune of every unit lies in the source
    span of some input. *)
Theorem derive_inputs_covers inputs totals :
  validateInputPolicy policy = Ok () → validateGenerationLimits limits = Ok () →
  derive_inputs units policy limits = Ok (inputs, totals) →
  (TruncationPolicy (Chunk policy) = TruncationPolicyReject →
     Forall (λ x, Truncated x = false) inputs) ∧
  (Forall (λ x, Truncated x = false) inputs →
   ∀ u unit p, units !! u = Some unit → p < RuneCountInString (UnitText unit) →
   ∃ x, x ∈ inputs ∧ UnitIndex (SourceSpan x) = u ∧
     CharStart (SourceSpan x) ≤ p < CharEnd (SourceSpan x)).
Proof.
  intros Hp Hl Hd. pose proof (derive_inputs_ok units policy limits Hp Hl) as Hs. rewrite Hd in Hs.
  destruct Hs as (tokens & Hap & Hcov & _). cbn [fst] in Hap. split.
  - intros Hr. apply Forall_lookup. intros k x Hx. destruct (Truncated x) eqn:Ht; [|done].
    by destruct (io_truncated _ _ _ _ _ (ap_ok _ _ _ _ _ _ Hap k x Hx) Ht).
  - intros Hnt u unit p Hu Hpr. destruct (Hcov u p) as (i & t & Ht & <- & Hr).
    { unfold unit_runes. by rewrite Hu. }
    destruct (ap_cover _ _ _ _ _ _ Hap i t p ltac:(lia) Ht Hr) as [|Hex]; [done|].
    apply Exists_exists in Hex as (x & Hx & Htr). rewrite Forall_forall in Hnt.
    specialize (Hnt x Hx). congruence.
Qed.

(** The order and the overlap of the chunks: the next input starts a later
    unit once the unit is finished; within a unit the source cursor strictly
    advances, to the end of the previous input without overlap, and otherwise
    to the start of the last [OverlapTokens] exact tokens of its content. *)
Theorem derive_inputs_ordered inputs totals k x y :
  validateInputPolicy policy = Ok () → validateGenerationLimits limits = Ok () →
  derive_inputs units policy limits = Ok (inputs, totals) →
  inputs !! k = Some x → inputs !! S k = Some y →
  (UnitIndex (SourceSpan x) < UnitIndex (SourceSpan y) ∧ CharStart (SourceSpan y) = 0) ∨
  (UnitIndex (SourceSpan y) = UnitIndex (SourceSpan x) ∧
   CharStart (SourceSpan x) < CharStart (SourceSpan y) ∧
   (Truncated x = false → OverlapTokens (Chunk policy) = 0%Z →
      CharStart (SourceSpan y) = CharEnd (SourceSpan x)) ∧
   (Truncated x = false → OverlapTokens (Chunk policy) ≠ 0%Z →
      CharStart (SourceSpan y) < CharEnd (SourceSpan x) ∧
      ∃ bs b, Tokenize (Content x) (MaxTokens (Chunk policy)) = Ok bs ∧
        bs !! (length bs - Z.to_nat (OverlapTokens (Chunk policy))) = Some b ∧
        CharStart (SourceSpan y) = CharStart (SourceSpan x) + Z.to_nat (tb_Start b))).
Proof.
  intros Hp Hl Hd Hx Hy. pose proof (derive_inputs_ok units policy limits Hp Hl) as Hs. rewrite Hd in Hs.
  destruct Hs as (tokens & Hap & _). cbn [fst] in Hap.
  destruct (ap_next _ _ _ _ _ _ Hap k x y Hx Hy) as [(? & ? & _)|(Hu & Hc & Hcase)]; [by left|right].
  split_and!; [done|done|..]; intros Ht Ho; rewrite Ht in Hcase.
  - apply Z.eqb_eq in Ho. by rewrite Ho in Hcase.
  - apply Z.eqb_neq in Ho. rewrite Ho in Hcase. destruct Hcase as (bs & b & ? & ? & ? & ?).
    split; [done|]. by exists bs, b.
Qed.

(** C32: Every limit holds: an input has between one and [MaxTokens] content
    tokens, at most [MaxInputTokens] rendered tokens and [MaxInputBytes]
    rendered bytes; there are at most [MaxInputs] inputs, and the reported
    totals are their sums, within the aggregate limits. *)
Theorem derive_inputs_bounds inputs totals :
  validateInputPolicy policy = Ok () → validateGenerationLimits limits = Ok () →
  derive_inputs units policy limits = Ok (inputs, totals) →
  Forall (λ x, (1 <= ContentTokens x <= MaxTokens (Chunk policy) ∧
    1 <= RenderedTokens x <= MaxInputTokens policy ∧
    Z.of_nat (slen (Rendered x)) <= MaxInputBytes policy)%Z) inputs ∧
  (Z.of_nat (length inputs) <= MaxInputs limits)%Z ∧
  totals = totals_of inputs ∧
  (contentTokens totals <= MaxTotalContentTokens limits ∧
   renderedTokens totals <= MaxTotalRenderedTokens limits ∧
   contentBytes totals <= MaxTotalContentBytes limits ∧
   renderedBytes totals <= MaxTotalRenderedBytes limits)%Z.
Proof.
  intros Hp Hl Hd. pose proof (derive_inputs_ok units policy limits Hp Hl) as Hs. rewrite Hd in Hs.
  destruct Hs as (tokens & Hap & _ & [Hsum H1' H2' H3' H4'] & Hlen).
  cbn [fst snd limit_totals contentTokens renderedTokens contentBytes renderedBytes] in *.
  split_and!; [|done|done|lia..]. apply Forall_lookup. intros k x Hx.
  pose proof (ap_ok _ _ _ _ _ _ Hap k x Hx) as [].
  unfold policyChunkLimits in *. cbn [contentTokens renderedTokens contentBytes renderedBytes] in *. lia.
Qed.
End properties.

(** ** The validators of stored generations *)

Section sealed.
Context `{Normalizer} `{Tokenizer} `{Sha256} `{ContractCodec} `{GenerationCodec}.

(** A generated input passes the check against the evidence, and
    [validateGeneratedInput] unless one of its headings has a control
    character. *)
Lemma built_input_valid units policy g k x :
  policy_ok policy → Forall accepted_unit units → length units ≤ maxEvidenceUnits →
  input_ok units policy (policyChunkLimits policy) k x → k < N.to_nat 1000000 →
  gen_Chunk g = Chunk policy → gen_MaxInputTokens g = MaxInputTokens policy →
  gen_MaxInputBytes g = MaxInputBytes policy →
  validateGeneratedInput g k x = (if plain_headings (InputHeadingPath x) then Ok () else Err ErrPolicy) ∧
  validate_source units x = Ok ().
Proof.
  intros Hpk Hcan Hlen [(unit & Hu & Hh & Hc) Hsp Hr Hcs Hkey _ Hrb _ Hct Hrt _] Hk Hgc Hgt Hgb.
  unfold unit_runes in Hsp. rewrite Hu in Hsp.
  pose proof (proj1 (Forall_lookup _ _) Hcan _ _ Hu) as Hcu. pose proof (cu_text _ Hcu) as Htext.
  unfold policyChunkLimits in *. cbn [contentTokens renderedTokens contentBytes renderedBytes] in *.
  assert (ValidString (Content x) = true) as Hvc.
  { rewrite Hc. apply ValidString_slice; [lia|done]. }
  assert (ValidString (Rendered x) = true) as Hvr.
  { rewrite Hr. apply EncodeDocument_valid; [apply (pk_document _ Hpk)|].
    apply contextualize_valid; [|done]. pose proof (pk_attachment _ Hpk) as Ha. unfold attachment.
    destruct (AttachmentContext policy); simpl; auto. }
  assert (0 < slen (Content x)) as Hpos.
  { rewrite Hc, slen_slice.
    - pose proof (byte_offset_lt (UnitText unit) (CharStart (SourceSpan x)) (CharEnd (SourceSpan x))). lia.
    - split; [apply byte_offset_le; lia|apply byte_offset_bound]. }
  assert (slen (Content x) ≤ slen (Rendered x)) as Hle.
  { rewrite Hr. destruct (validateModelInputEncoder_split _ (pk_document _ Hpk)) as (pre & suf & _ & _ & _ & _ & He).
    unfold EncodeDocument. rewrite He, contextualize_app, !slen_app. lia. }
  assert (∀ s, 0 < slen s → String.eqb s "" = false) as Hne by (intros [|a s]; simpl; [lia|done]).
  split.
  - unfold validateGeneratedInput. rewrite Hkey, Hcs, generatedInputKey_stable by done.
    cbn [mbind result_bind]. rewrite String.eqb_refl, Hvc, Hvr, !Hne by lia.
    cbn [negb andb check mbind result_bind]. rewrite Hgc, Hgt, Hgb.
    rewrite !(proj2 (Z.leb_le _ _)) by lia. cbn [andb check mbind result_bind].
    rewrite String.eqb_refl. cbn [check mbind result_bind]. rewrite Hh.
    apply auxiliaries_cases; [done| |lia]. pose proof (lookup_lt_Some _ _ _ Hu). lia.
  - unfold validate_source. rewrite Hu. cbn [from_lookup mbind result_bind].
    rewrite of_runes_slice by (done || lia). rewrite <- Hc, String.eqb_refl, Hh.
    unfold to_runes. rewrite length_fmap. fold (RuneCountInString (UnitText unit)).
    rewrite (proj2 (Nat.ltb_lt _ _)), (proj2 (Nat.leb_le _ _)) by lia. cbn [andb check mbind result_bind].
    by rewrite bool_decide_eq_true_2.
Qed.

Lemma mapR_Ok_unit {E A} (f : A → result E ()) l :
  Forall (λ x, f x = Ok ()) l → ∃ us, mapR f l = Ok us.
Proof.
  induction 1 as [|x l Hx Hl [us IH]]; [by eexists|]. simpl. rewrite Hx. simpl. rewrite IH. by eexists.
Qed.

Lemma mapR_Ok_map {E A B} (f : A → result E B) (h : A → B) l :
  Forall (λ x, f x = Ok (h x)) l → mapR f l = Ok (h <$> l).
Proof. induction 1 as [|x l Hx Hl IH]; simpl; [done|]. rewrite Hx. simpl. by rewrite IH. Qed.

(** What [BuildEmbeddingInputs] computed when it returns. *)
Lemma BuildEmbeddingInputs_inv evidence policy limits g :
  BuildEmbeddingInputs evidence policy limits = Ok g →
  validateInputPolicy policy = Ok () ∧ validateGenerationLimits limits = Ok () ∧
  evidence_checksum evidence = Ok (ev_Checksum evidence) ∧
  ∃ out fp sum, derive_inputs (Units evidence) policy limits = Ok out ∧
    g = mkGeneration EmbeddingInputGenerationVersion sum fp (ev_Checksum evidence) (Chunk policy)
          (Fingerprint (ModelInput_ policy)) (LexicalEvidenceFingerprint policy) (MaxInputTokens policy)
          (MaxInputBytes policy) (AttachmentContext policy) out.2 out.1 ∧
    inputPolicyFingerprint (policyIdentity g) = Ok fp ∧ generationChecksum g = Ok sum.
Proof.
  unfold BuildEmbeddingInputs. intros ([] & Hp & Hr)%bind_Ok_iff.
  apply bind_Ok_iff in Hr as ([] & Hl & Hr). apply bind_Ok_iff in Hr as (sum0 & Hs0 & Hr).
  apply bind_Ok_iff in Hr as (u & Hs1%check_Ok_iff%String.eqb_eq & Hr). subst sum0.
  apply bind_Ok_iff in Hr as (pre & Hpre & Hr). apply bind_Ok_iff in Hr as (fp & Hfp & Hr).
  apply bind_Ok_iff in Hr as (out & Hout & Hr). apply bind_Ok_iff in Hr as (u' & _ & Hr).
  apply bind_Ok_iff in Hr as (sum & Hsum & [= <-]). split_and!; [done|done|done|].
  exists out, fp, sum. split_and!; [|done|exact Hfp|exact Hsum].
  unfold derive_inputs. by rewrite Hpre.
Qed.

Lemma sealed_hex {E} (o : option string) (e : E) value :
  from_lookup o e ≫= (λ encoded, Ok (sha256Hex encoded)) = Ok value → IsSHA256Hex value = true.
Proof. destruct o; simpl; [|done]. intros [= <-]. apply sha256Hex_IsSHA256Hex. Qed.

Lemma contract_fingerprint_hex contract :
  validateModelInputContract contract = Ok () → IsSHA256Hex (Fingerprint contract) = true.
Proof.
  unfold validateModelInputContract. intros (u1 & _ & Hc)%bind_Ok_iff.
  apply bind_Ok_iff in Hc as (fp & Hfp & Hc).
  apply bind_Ok_iff in Hc as (u2 & ->%check_Ok_iff%String.eqb_eq & _). eapply sealed_hex. exact Hfp.
Qed.

(** The loop of the validator reproduces the totals, or stops at the first
    input whose headings it does not accept. *)
Lemma built_totals units policy limits tokens g (out : list GeneratedEmbeddingInput * generationTotals) :
  limits_ok limits → appended units policy tokens 0 0 out.1 →
  totals_ok (limit_totals limits) out.1 out.2 →
  (∀ k x, out.1 !! k = Some x →
     validateGeneratedInput g k x = if plain_headings (InputHeadingPath x) then Ok () else Err ErrPolicy) →
  foldM (validate_input_step g) (0%nat, zero_totals) out.1 =
  if forallb (λ x, plain_headings (InputHeadingPath x)) out.1 then Ok (length out.1, out.2) else Err ErrPolicy.
Proof.
  intros [] Hap [Hsums H1' H2' H3' H4'] Hin.
  cbn [limit_totals contentTokens renderedTokens contentBytes renderedBytes] in *.
  change out.2 with (snd out) in *. rewrite Hsums in *.
  apply (validate_inputs_fold g [] out.1); [exact Hin| |
    unfold totals_of, maxGenerationTotalTokens, maxGenerationTotalBytes in *;
    cbn [app contentTokens renderedTokens contentBytes renderedBytes] in *; lia..].
  apply Forall_lookup. intros k x Hx.
  pose proof (ap_ok _ _ _ _ _ _ Hap k x Hx) as Hio. destruct Hio. lia.
Qed.

(** What [BuildEmbeddingInputs] returns, seen by [validateEmbeddingInputGeneration]. *)
Lemma built_generation_valid evidence policy limits g :
  BuildEmbeddingInputs evidence policy limits = Ok g →
  validateEmbeddingInputGeneration g =
    (if forallb (λ x, plain_headings (InputHeadingPath x)) (Inputs g) then Ok () else Err ErrPolicy) ∧
  Forall (λ x, validate_source (Units evidence) x = Ok ()) (Inputs g) ∧
  Forall (λ x, Rendered x = EncodeDocument (ModelInput_ policy)
      (contextualizeDocumentInput (attachment policy) (Content x)) ∧
    Checksum x = sha256Hex (Rendered x)) (Inputs g).
Proof.
  intros Hb.
  destruct (BuildEmbeddingInputs_inv _ _ _ _ Hb) as (Hp & Hl & Hev & out & fp & sum & Hd & Hg & Hfp & Hsum).
  destruct (accepted_units (Units evidence)) as [Hcan Hlen].
  { unfold evidence_checksum in Hev. by apply bind_Ok_iff in Hev as ([] & Hev & _). }
  pose proof (derive_inputs_ok (Units evidence) _ _ Hp Hl) as Hs. rewrite Hd in Hs.
  destruct Hs as (tokens & Hap & _ & Htot & Hn).
  pose proof (validateInputPolicy_ok _ Hp) as Hpk. pose proof (validateGenerationLimits_ok _ Hl) as Hlk.
  assert (Inputs g = out.1 ∧ Totals g = out.2) as [Hgi Hgt] by (by rewrite Hg).
  assert (∀ k x, out.1 !! k = Some x →
    validateGeneratedInput g k x = (if plain_headings (InputHeadingPath x) then Ok () else Err ErrPolicy) ∧
    validate_source (Units evidence) x = Ok ()) as Hin.
  { intros k x Hx. eapply (built_input_valid _ policy); [done|done|done| | |by rewrite Hg..].
    - by apply (ap_ok _ _ _ _ _ _ Hap).
    - apply lookup_lt_Some in Hx. pose proof (lk_inputs _ Hlk). unfold maxGeneratedInputs in *. lia. }
  split_and!.
  - assert (foldM (validate_input_step g) (0%nat, zero_totals) (Inputs g) =
      if forallb (λ x, plain_headings (InputHeadingPath x)) (Inputs g) then Ok (length out.1, out.2)
      else Err ErrPolicy) as Hfold.
    { rewrite Hgi. eapply built_totals; [done|done|done|]. intros k x Hx. by apply Hin. }
    assert (Forall (λ v, validateFingerprint v = Ok ()) [gen_Checksum g; PolicyFingerprint g;
      EvidenceChecksum g; gen_LexicalEvidenceFingerprint g; ModelInputFingerprint g]) as Hfps.
    { rewrite Hg. cbn [gen_Checksum PolicyFingerprint EvidenceChecksum gen_LexicalEvidenceFingerprint
        ModelInputFingerprint].
      repeat apply Forall_cons_2; try apply Forall_nil_2; try apply check_Ok_iff; try (eapply sealed_hex; eassumption).
      - unfold evidence_checksum in Hev. apply bind_Ok_iff in Hev as (u & _ & Hev). eapply sealed_hex; exact Hev.
      - pose proof (pk_lexical _ Hpk) as Hx. by apply check_Ok_iff in Hx.
      - by apply contract_fingerprint_hex, (pk_contract _ Hpk). }
    destruct (mapR_Ok_unit _ _ Hfps) as [us Hus].
    unfold validateEmbeddingInputGeneration. rewrite Hus, Hfold, Hfp, Hsum, Hgt.
    replace (Z.of_nat (length (Inputs g))) with (Z.of_nat (length out.1)) by (by rewrite Hgi).
    assert (gen_Version g = EmbeddingInputGenerationVersion ∧ gen_Chunk g = Chunk policy ∧
      gen_MaxInputTokens g = MaxInputTokens policy ∧ gen_MaxInputBytes g = MaxInputBytes policy ∧
      gen_AttachmentContext g = AttachmentContext policy) as (-> & -> & -> & -> & ->) by (by rewrite Hg).
    rewrite Z.eqb_refl. cbn [check mbind result_bind].
    rewrite (pk_chunk _ Hpk). cbn [mbind result_bind]. rewrite (pk_limits _ Hpk). cbn [mbind result_bind].
    replace (match AttachmentContext policy with
      | Some snapshot => validateAttachmentContextSnapshot snapshot | None => Ok () end) with (Ok (E:=chunk_error) ()).
    2:{ pose proof (pk_attachment _ Hpk). by destruct (AttachmentContext policy). }
    cbn [mbind result_bind]. rewrite (proj2 (Z.leb_le _ _)) by (pose proof (lk_inputs _ Hlk); lia).
    cbn [check mbind result_bind]. destruct (forallb _ (Inputs g)); cbn [mbind result_bind snd]; [|done].
    rewrite bool_decide_eq_true_2 by done. cbn [check mbind result_bind].
    rewrite Hg. cbn [gen_Checksum PolicyFingerprint]. rewrite String.eqb_refl. cbn [check mbind result_bind].
    by rewrite String.eqb_refl.
  - rewrite Hgi. apply Forall_lookup. intros k x Hx. by apply (Hin k).
  - rewrite Hgi. apply Forall_lookup. intros k x Hx.
    pose proof (ap_ok _ _ _ _ _ _ Hap k x Hx) as Hio. by destruct Hio.
Qed.

(** C29: What is built is usable exactly when no heading of its inputs has a
    control character.  Then the generation passes the validator of stored
    generations and the check of every input against the evidence it names, and
    converts to provider inputs whose envelope is exactly the text whose
    checksum was recorded.  Evidence accepts such a heading - a tab, a line
    feed, a DEL - and the generation is built, but it is refused by its own
    validator, by the check against its evidence, by the encoder and by the
    conversion. *)
Theorem BuildEmbeddingInputs_accepted evidence policy limits g :
  BuildEmbeddingInputs evidence policy limits = Ok g →
  if forallb (λ x, plain_headings (InputHeadingPath x)) (Inputs g) then
    validateEmbeddingInputGeneration g = Ok () ∧
    ValidateEvidence g evidence = Ok () ∧
    ToEmbeddingInputs g (ModelInput_ policy) = Ok
      ((λ x, mkEmbeddingInput (Key x) (contextualizeDocumentInput (attachment policy) (Content x))
               (InputHeadingPath x) [SourceSpan x]) <$> Inputs g)
  else
    validateEmbeddingInputGeneration g = Err ErrPolicy ∧
    ValidateEvidence g evidence = Err ErrPolicy ∧
    MarshalEmbeddingInputGeneration g = Err ErrPolicy ∧
    ToEmbeddingInputs g (ModelInput_ policy) = Err ErrPolicy.
Proof.
  intros Hb. destruct (built_generation_valid _ _ _ _ Hb) as (Hv & Hsrc & Hren).
  destruct (BuildEmbeddingInputs_inv _ _ _ _ Hb) as (Hp & Hl & Hev & out & fp & sum & Hd & Hg & _).
  pose proof (validateInputPolicy_ok _ Hp) as Hpk.
  assert (ToEmbeddingInputs g (ModelInput_ policy) =
    (_ ← validateEmbeddingInputGeneration g;
     mapR (λ input,
       let contextualized := contextualizeDocumentInput (attachment policy) (Content input) in
       _ ← check (String.eqb (EncodeDocument (ModelInput_ policy) contextualized) (Rendered input)
                  && String.eqb (sha256Hex (Rendered input)) (Checksum input)) ErrPolicy;
       Ok (mkEmbeddingInput (Key input) contextualized (InputHeadingPath input) [SourceSpan input])) (Inputs g)))
    as Hto.
  { unfold ToEmbeddingInputs. rewrite (pk_contract _ Hpk). cbn [as_policy_error mbind result_bind].
    replace (ModelInputFingerprint g) with (Fingerprint (ModelInput_ policy)) by (by rewrite Hg).
    replace (default no_attachment (gen_AttachmentContext g)) with (attachment policy) by (by rewrite Hg).
    by rewrite String.eqb_refl. }
  rewrite Hto. unfold ValidateEvidence, MarshalEmbeddingInputGeneration. rewrite Hv.
  destruct (forallb _ (Inputs g)); cbn [mbind result_bind]; [|done]. split_and!; [done|..].
  - rewrite Hev. cbn [mbind result_bind].
    replace (EvidenceChecksum g) with (ev_Checksum evidence) by (by rewrite Hg).
    rewrite String.eqb_refl. cbn [check mbind result_bind].
    destruct (mapR_Ok_unit _ _ Hsrc) as [us ->]. done.
  - apply mapR_Ok_map. eapply Forall_impl; [exact Hren|]. intros x [Hr Hc].
    rewrite <- Hr, <- Hc, !String.eqb_refl. done.
Qed.
End sealed.

(** ** The encoded form *)

(** The encoded form is canonical: what is decoded was exactly the bytes that
    encoding the value gives, and the value is valid; conversely, when the JSON
    package reads back what it wrote, every valid generation is decoded from
    its encoding under sufficient bounds. *)
Theorem generation_encoding `{Normalizer} `{Sha256} `{GenerationCodec} g data maxBytes maxInputs :
  (DecodeEmbeddingInputGeneration data maxBytes maxInputs = Ok g →
   MarshalEmbeddingInputGeneration g = Ok data) ∧
  (MarshalEmbeddingInputGeneration g = Ok data → unmarshal_generation data = Some g →
   (1 <= maxBytes <= maxGenerationEncodedBytes)%Z → (Z.of_nat (slen data) <= maxBytes)%Z →
   (1 <= maxInputs <= maxGeneratedInputs)%Z → (Z.of_nat (length (Inputs g)) <= maxInputs)%Z →
   DecodeEmbeddingInputGeneration data maxBytes maxInputs = Ok g).
Proof.
  unfold DecodeEmbeddingInputGeneration, MarshalEmbeddingInputGeneration, canonical_Decode. split.
  - intros (u1 & _ & Hr)%bind_Ok_iff. apply bind_Ok_iff in Hr as (u2 & _ & Hr).
    apply bind_Ok_iff in Hr as (g' & Hdec & Hr). apply bind_Ok_iff in Hr as (u3 & _ & Hr).
    apply bind_Ok_iff in Hr as ([] & Hv & [= ->]). rewrite Hv. cbn [mbind result_bind].
    apply bind_Ok_iff in Hdec as (v & _ & Hr). apply bind_Ok_iff in Hr as (e & He & Hr).
    apply bind_Ok_iff in Hr as (u4 & ->%check_Ok_iff%String.eqb_eq & [= ->]). exact He.
  - intros ([] & Hv & Hm)%bind_Ok_iff Hu Hb Hd Hi Hn. apply from_lookup_Ok_iff in Hm.
    rewrite !(proj2 (Z.leb_le _ _)) by lia. cbn [andb check mbind result_bind].
    rewrite Hu. cbn [from_lookup mbind result_bind]. rewrite Hm. cbn [from_lookup mbind result_bind].
    rewrite String.eqb_refl. cbn [check mbind result_bind].
    rewrite (proj2 (Z.leb_le _ _)) by lia. cbn [check mbind result_bind]. by rewrite Hv.
Qed.

(** ** A sample generation

    Two units of text with a heading, an empty unit between them, chunks of at
    most six runes that overlap by two, and an attachment title.  Any total
    encodings show that the hypotheses can hold. *)
Module Sample.
#[local] Instance contract_codec : ContractCodec := λ c, Some (CompatibilityID c +:+ Template (Document c)).
#[local] Instance generation_codec : GenerationCodec := {|
  marshal_evidence e := Some (String.concat "," (UnitText <$> Units e));
  marshal_policy i := Some (pi_ModelInputFingerprint i);
  marshal_generation g := Some (String.concat "," (Checksum <$> Inputs g));
  unmarshal_generation _ := None;
|}.
#[local] Instance normalizer : Normalizer := ascii_normalizer.
#[local] Instance tokenizer : Tokenizer := RuneTokenizer.
#[local] Instance sha : Sha256 := fips_sha256.

Definition contract : ModelInputContract :=
  match NewModelInputContract (mkConfig "e5/v1" "" zero_encoder zero_encoder "") with
  | Ok c => c | Err _ => sample_contract end.
Definition digest : string := sha256Hex "context".
Definition policy : InputPolicy := mkInputPolicy
  (mkChunkPolicy digest "plain/v1" 6 2 "utf8-rune" "v1" TruncationPolicyReject)
  contract digest 1000 60 (Some (mkAttachment "Letter" "")).
Definition limits : GenerationLimits := mkLimits 100 1000 1000 10000 10000 100000 100000.
Definition units : list EvidenceUnit :=
  [mkUnit ["Intro"] "hello wide world" [mkRange 0 5] []; mkUnit [] "" [] []; mkUnit [] "abc" [] []].
Definition evidence : NormalizedEvidence := mkEvidence (sha256Hex "hello wide world,,abc") units.

Definition out := match derive_inputs units policy limits with Ok out => out | Err _ => ([], zero_totals) end.
Definition input (k : nat) : GeneratedEmbeddingInput :=
  default (mkInput "" "" "" 0 0 "" [] (mkSpan 0 0 0) false) (out.1 !! k).
Definition generation := BuildEmbeddingInputs evidence policy limits.

Lemma policy_valid : validateInputPolicy policy = Ok ().
Proof. vm_compute. reflexivity. Qed.
Lemma limits_valid : validateGenerationLimits limits = Ok ().
Proof. vm_compute. reflexivity. Qed.
Lemma derived : derive_inputs units policy limits = Ok (out.1, out.2).
Proof. vm_compute. reflexivity. Qed.
Lemma not_truncated : Forall (λ x, Truncated x = false) out.1.
Proof. vm_compute. repeat constructor. Qed.

(** The chunks: the second and third repeat two runes of the one before. *)
Example chunks : (λ x, (UnitIndex (SourceSpan x), Content x)) <$> out.1 =
  [(0, "hello"); (0, "lo wid"); (0, "ide wo"); (0, "world"); (2, "abc")].
Proof. vm_compute. reflexivity. Qed.

Example derive_inputs_total_witness :
  (∃ o, derive_inputs units policy limits = Ok o) ∨
  (∃ e, derive_inputs units policy limits = Err e ∧ e ≠ OutOfFuel ∧ e ≠ Panic).
Proof. exact (derive_inputs_total units policy limits policy_valid limits_valid). Defined.

Example derive_inputs_covers_witness :
  ∃ x, x ∈ out.1 ∧ UnitIndex (SourceSpan x) = 0 ∧ CharStart (SourceSpan x) ≤ 11 < CharEnd (SourceSpan x).
Proof.
  apply (proj2 (derive_inputs_covers units policy limits out.1 out.2 policy_valid limits_valid derived)
    not_truncated 0 (mkUnit ["Intro"] "hello wide world" [mkRange 0 5] [])); [reflexivity|].
  vm_compute. lia.
Defined.

Example derive_inputs_ordered_witness :
  CharStart (SourceSpan (input 1)) < CharEnd (SourceSpan (input 0)).
Proof.
  assert (out.1 !! 0 = Some (input 0)) as Hx by (vm_compute; reflexivity).
  assert (out.1 !! 1 = Some (input 1)) as Hy by (vm_compute; reflexivity).
  destruct (derive_inputs_ordered units policy limits out.1 out.2 0 (input 0) (input 1)
    policy_valid limits_valid derived Hx Hy) as [[Hu _]|(_ & _ & _ & Ho)].
  - exfalso. vm_compute in Hu. lia.
  - apply Ho; [reflexivity|discriminate].
Defined.

Example derive_inputs_bounds_witness :
  (Z.of_nat (length out.1) <= MaxInputs limits)%Z ∧ out.2 = totals_of out.1.
Proof.
  destruct (derive_inputs_bounds units policy limits out.1 out.2 policy_valid limits_valid derived)
    as (_ & Hn & Ht & _).
  exact (conj Hn Ht).
Defined.

Definition built : EmbeddingInputGeneration :=
  match generation with Ok g => g | Err _ =>
    mkGeneration 0 "" "" "" (Chunk policy) "" "" 0 0 None zero_totals [] end.
Lemma generation_built : BuildEmbeddingInputs evidence policy limits = Ok built.
Proof. vm_compute. reflexivity. Qed.

(** The same text under a heading with a tab in it. *)
Definition tabbed : list EvidenceUnit :=
  [mkUnit [String "I" (String "009" "o")] "hello wide world" [mkRange 0 5] []].
Definition tabbed_evidence : NormalizedEvidence := mkEvidence (sha256Hex "hello wide world") tabbed.
Definition tabbed_built : EmbeddingInputGeneration :=
  match BuildEmbeddingInputs tabbed_evidence policy limits with Ok g => g | Err _ => built end.
Lemma tabbed_generation_built : BuildEmbeddingInputs tabbed_evidence policy limits = Ok tabbed_built.
Proof. vm_compute. reflexivity. Qed.

Example BuildEmbeddingInputs_accepted_witness :
  (BuildEmbeddingInputs evidence policy limits = Ok built ∧
   validateEmbeddingInputGeneration built = Ok () ∧ ValidateEvidence built evidence = Ok ()) ∧
  (BuildEmbeddingInputs tabbed_evidence policy limits = Ok tabbed_built ∧
   MarshalEmbeddingInputGeneration tabbed_built = Err ErrPolicy).
Proof.
  pose proof (BuildEmbeddingInputs_accepted evidence policy limits built generation_built) as Hgood.
  pose proof (BuildEmbeddingInputs_accepted tabbed_evidence policy limits tabbed_built tabbed_generation_built) as Hbad.
  replace (forallb _ (Inputs built)) with true in Hgood by (vm_compute; reflexivity).
  replace (forallb _ (Inputs tabbed_built)) with false in Hbad by (vm_compute; reflexivity).
  destruct Hgood as (Hv & He & _), Hbad as (_ & _ & Hm & _).
  exact (conj (conj generation_built (conj Hv He)) (conj tabbed_generation_built Hm)).
Defined.
End Sample.
