(* ===== verification/LittleEndian.v ===== *)
(** * Little-endian framing

    [binary.LittleEndian] on byte slices, the bit patterns of [float32], and
    the widening of a [float32] to a [float64]. *)
From Stdlib Require Import Floats.SpecFloat.
From S2P Require Import Prelude GoText AuditEncoding.

(** ** Integers *)

(** [k] bytes of an unsigned value, least significant first. *)
Fixpoint le_bytes (k : nat) (n : Z) : bytes :=
  match k with
  | 0 => []
  | S k => ascii_of_N (Z.to_N (n mod 256)) :: le_bytes k (n / 256)
  end.
Fixpoint le_value (b : bytes) : Z :=
  match b with
  | [] => 0
  | a :: b => Z.of_N (N_of_ascii a) + 256 * le_value b
  end.

Definition AppendUint32 (value : Z) : bytes := le_bytes 4 value.
Definition AppendUint64 (value : Z) : bytes := le_bytes 8 value.

Definition of_bytes (b : bytes) : string := String.string_of_list_ascii b.

Lemma length_le_bytes k n : length (le_bytes k n) = k.
Proof. revert n; induction k as [|k IH]; intros n; simpl; [done|by rewrite IH]. Qed.

Lemma byte_value n : (0 <= n < 256)%Z → Z.of_N (N_of_ascii (ascii_of_N (Z.to_N n))) = n.
Proof. intros Hn. rewrite N_ascii_embedding by lia. lia. Qed.

Lemma le_value_bytes k n : (0 <= n < 256 ^ Z.of_nat k)%Z → le_value (le_bytes k n) = n.
Proof.
  revert n; induction k as [|k IH]; intros n Hn; [simpl in *; lia|].
  rewrite Nat2Z.inj_succ, Z.pow_succ_r in Hn by lia. cbn [le_bytes le_value].
  rewrite byte_value by (apply Z.mod_pos_bound; lia). rewrite IH.
  - pose proof (Z.div_mod n 256). lia.
  - split; [apply Z.div_pos; lia|apply Z.div_lt_upper_bound; lia].
Qed.

Lemma le_value_bounds b : (0 <= le_value b < 256 ^ Z.of_nat (length b))%Z.
Proof.
  induction b as [|a b IH]; [simpl; lia|]. cbn [le_value length].
  rewrite Nat2Z.inj_succ, Z.pow_succ_r by lia. pose proof (N_ascii_bounded a). lia.
Qed.

Lemma le_bytes_value b : le_bytes (length b) (le_value b) = b.
Proof.
  induction b as [|a b IH]; [done|]. cbn [le_value length le_bytes]. pose proof (N_ascii_bounded a).
  rewrite (Z.mul_comm 256), Z.mod_add, Z.div_add by lia. rewrite Z.mod_small, Z.div_small by lia.
  rewrite Z.add_0_l, IH. f_equal. rewrite N2Z.id. apply ascii_N_embedding.
Qed.

Lemma of_bytes_bs s : of_bytes (bs s) = s.
Proof. apply String.string_of_list_ascii_of_string. Qed.
Lemma bs_of_bytes b : bs (of_bytes b) = b.
Proof. apply String.list_ascii_of_string_of_list_ascii. Qed.
Lemma length_bs s : length (bs s) = slen s.
Proof. unfold bs. induction s as [|a s IH]; simpl; [done|by rewrite IH]. Qed.
Lemma slen_of_bytes b : slen (of_bytes b) = length b.
Proof. rewrite <- length_bs. by rewrite bs_of_bytes. Qed.

(** ** float32 *)

(** A [float32] is its bit pattern; [math.Float32bits] and its inverse do
    nothing. *)
Notation float32 := Z.
Definition is_float32 (b : float32) : Prop := (0 <= b < 2 ^ 32)%Z.

Definition f32_negative (b : float32) : bool := Z.testbit b 31.
Definition f32_exponent (b : float32) : Z := Z.land (Z.shiftr b 23) 255.
Definition f32_fraction (b : float32) : Z := Z.land b (2 ^ 23 - 1).

(** Neither infinite nor not a number. *)
Definition f32_finite (b : float32) : bool := negb (f32_exponent b =? 255)%Z.
(** [value == 0], which also holds of the negative zero. *)
Definition f32_is_zero (b : float32) : bool := (Z.land b (2 ^ 31 - 1) =? 0)%Z.
(** [if value == 0 { value = 0 }] *)
Definition f32_canonical (b : float32) : float32 := if f32_is_zero b then 0%Z else b.

(** [float64(value)] *)
Definition float64_of_float32 (b : float32) : spec_float :=
  let s := f32_negative b in
  if (f32_exponent b =? 255)%Z then
    if (f32_fraction b =? 0)%Z then S754_infinity s else S754_nan
  else
    let m := if (f32_exponent b =? 0)%Z then f32_fraction b else (f32_fraction b + 2 ^ 23)%Z in
    let e := if (f32_exponent b =? 0)%Z then (-149)%Z else (f32_exponent b - 150)%Z in
    binary_normalize 53 1024 (if s then - m else m)%Z e s.

(** [float32(value)] for a finite [value]: round to nearest, ties to even. *)
Definition f32_bits (x : spec_float) : float32 :=
  let sign (s : bool) : Z := if s then (2 ^ 31)%Z else 0%Z in
  match x with
  | S754_zero s => sign s
  | S754_infinity s => (sign s + Z.shiftl 255 23)%Z
  | S754_nan => 0x7FC00000%Z
  | S754_finite s m e =>
      (sign s + if (Z.pos m <? 2 ^ 23)%Z then Z.pos m else Z.shiftl (e + 150) 23 + (Z.pos m - 2 ^ 23))%Z
  end.
Definition float32_of_float64 (x : spec_float) : float32 :=
  match x with
  | S754_finite s m e => f32_bits (binary_round 24 128 s m e)
  | _ => f32_bits x
  end.

Example float32_one : float32_of_float64 (binary_normalize 53 1024 1 0 false) = 0x3F800000%Z.
Proof. reflexivity. Qed.
Example float32_tenth : float32_of_float64 (SFdiv 53 1024 (binary_normalize 53 1024 1 0 false)
  (binary_normalize 53 1024 10 0 false)) = 0x3DCCCCCD%Z.
Proof. reflexivity. Qed.
Example float32_smallest : float64_of_float32 1 = S754_finite false 4503599627370496 (-201).
Proof. reflexivity. Qed.

Lemma f32_canonical_idem b : f32_canonical (f32_canonical b) = f32_canonical b.
Proof. unfold f32_canonical at 2 3. destruct (f32_is_zero b) eqn:H; [done|]. unfold f32_canonical. by rewrite H. Qed.

(** A zero has neither exponent nor fraction. *)
Lemma f32_zero_parts b : f32_is_zero b = true → f32_exponent b = 0%Z ∧ f32_fraction b = 0%Z.
Proof.
  unfold f32_is_zero, f32_exponent, f32_fraction. intros Hz%Z.eqb_eq.
  assert (∀ n, (0 <= n < 31)%Z → Z.testbit b n = false) as Hbits.
  { intros n Hn. apply (f_equal (λ z, Z.testbit z n)) in Hz. rewrite Z.land_spec, Z.bits_0 in Hz.
    change (2 ^ 31 - 1)%Z with (Z.ones 31) in Hz. by rewrite Z.ones_spec_low, andb_true_r in Hz by lia. }
  split; apply Z.bits_inj'; intros n Hn; rewrite Z.land_spec, Z.bits_0.
  - rewrite Z.shiftr_spec by done. change 255%Z with (Z.ones 8). destruct (decide (n < 8)%Z).
    + by rewrite Hbits by lia.
    + rewrite Z.ones_spec_high by lia. apply andb_false_r.
  - change (2 ^ 23 - 1)%Z with (Z.ones 23). destruct (decide (n < 23)%Z).
    + by rewrite Hbits by lia.
    + rewrite Z.ones_spec_high by lia. apply andb_false_r.
Qed.

Lemma f32_canonical_finite b : f32_finite (f32_canonical b) = f32_finite b.
Proof.
  unfold f32_canonical. destruct (f32_is_zero b) eqn:H; [|done].
  apply f32_zero_parts in H as [He _]. unfold f32_finite. by rewrite He.
Qed.

Lemma f32_canonical_range b : is_float32 b → is_float32 (f32_canonical b).
Proof. unfold f32_canonical, is_float32. destruct (f32_is_zero b); lia. Qed.
