(* ===== verification/Heap.v ===== *)
(** * Binary heaps

    [container/heap] of Go's standard library over a slice, for a [Less] that
    compares elements: [Less(i, j)] is [worse (items[i]) (items[j])].  The
    operations permute the slice and keep every element at or below its
    parent, so the root is an extreme element. *)
From S2P Require Import Prelude.

Section heap.
Context {A : Type} (worse : A → A → bool).

Definition swap (l : list A) (i j : nat) : list A :=
  match l !! i, l !! j with
  | Some x, Some y => <[j := x]> (<[i := y]> l)
  | _, _ => l
  end.
Definition less (l : list A) (i j : nat) : bool :=
  match l !! i, l !! j with Some x, Some y => worse x y | _, _ => false end.

(** [heap.up]: the parent of [j] is [(j - 1) / 2]. *)
Fixpoint up (fuel : nat) (l : list A) (j : nat) : list A :=
  match fuel with
  | 0 => l
  | S fuel =>
      let i := (j - 1) / 2 in
      if (i =? j)%nat || negb (less l j i) then l else up fuel (swap l i j) i
  end.

(** [heap.down] within the first [n] elements. *)
Fixpoint down (fuel : nat) (l : list A) (i n : nat) : list A :=
  match fuel with
  | 0 => l
  | S fuel =>
      let j1 := 2 * i + 1 in
      if (n <=? j1)%nat then l
      else
        let j2 := j1 + 1 in
        let j := if (j2 <? n)%nat && less l j2 j1 then j2 else j1 in
        if negb (less l j i) then l else down fuel (swap l i j) j n
  end.

Definition heap_push (l : list A) (x : A) : list A := up (length l + 1) (l ++ [x]) (length l).
(** [items[0] = x; heap.Fix(h, 0)]: [up] does nothing at the root. *)
Definition heap_fix_root (l : list A) (x : A) : list A :=
  down (length l) (<[0 := x]> l) 0 (length l).
(** [heap.Pop]: the root goes last, the rest is repaired. *)
Definition heap_pop (l : list A) : option (A * list A) :=
  let n := length l - 1 in
  let l := down (length l) (swap l 0 n) 0 n in
  x ← last l; Some (x, take n l).

(** ** Order *)

Context (P : A → Prop).

(** [x] may stand above [y]. *)
Definition above (x y : A) : Prop := worse y x = false.

Context (worse_asymm : ∀ x y, P x → P y → worse x y = true → above x y).
Context (above_trans : ∀ x y z, P x → P y → P z → above x y → above y z → above x z).

Definition rel (l : list A) (i j : nat) : Prop := ∀ x y, l !! i = Some x → l !! j = Some y → above x y.
Definition child (i j : nat) : Prop := j = 2 * i + 1 ∨ j = 2 * i + 2.
Definition heap_within (l : list A) (n : nat) : Prop := ∀ p k, child p k → k < n → rel l p k.

Lemma above_refl x : P x → above x x.
Proof using worse_asymm. intros Hx. unfold above. destruct (worse x x) eqn:H; [|done]. pose proof (worse_asymm x x Hx Hx H) as Hxx. unfold above in Hxx. congruence. Qed.

Lemma rel_trans l i j k : Forall P l → is_Some (l !! j) → rel l i j → rel l j k → rel l i k.
Proof using above_trans.
  intros HP [y Hy] Hij Hjk x z Hx Hz. rewrite Forall_lookup in HP. apply (above_trans x y z); eauto.
Qed.

Lemma less_above l i j : Forall P l → less l i j = true → rel l i j.
Proof using worse_asymm.
  unfold less. intros HP Hl x y Hx Hy. rewrite Forall_lookup in HP. rewrite Hx, Hy in Hl. eauto.
Qed.

Lemma not_less_above l i j : less l i j = false → rel l j i.
Proof using. unfold less, above. intros Hl x y Hx Hy. by rewrite Hx, Hy in Hl. Qed.

(** ** Swapping *)

Lemma swap_lookup l i j k :
  i < length l → j < length l →
  swap l i j !! k = if decide (k = i) then l !! j else if decide (k = j) then l !! i else l !! k.
Proof using.
  intros Hi Hj. unfold swap. apply lookup_lt_is_Some in Hi as [x Hx], Hj as [y Hy]. rewrite Hx, Hy.
  assert (i < length l) by eauto using lookup_lt_Some. assert (j < length l) by eauto using lookup_lt_Some.
  destruct (decide (k = j)) as [->|Hkj].
  - rewrite list_lookup_insert_eq by (by rewrite length_insert). case_decide; [|done]. congruence.
  - rewrite list_lookup_insert_ne by done. case_decide as Hki; [|by rewrite list_lookup_insert_ne].
    subst. by rewrite list_lookup_insert_eq.
Qed.

Lemma swap_perm l i j : swap l i j ≡ₚ l.
Proof using.
  unfold swap. destruct (l !! i) as [x|] eqn:Hx; [|done]. destruct (l !! j) as [y|] eqn:Hy; [|done].
  by apply Permutation_insert_swap.
Qed.

Lemma swap_length l i j : length (swap l i j) = length l.
Proof using. by rewrite swap_perm. Qed.

(** ** Sifting *)

(** What [down] needs at [i]: order everywhere but below [i], and order between
    the parent and the children of [i]. *)
Definition order_but_below (l : list A) (n i : nat) : Prop :=
  (∀ p k, child p k → k < n → p ≠ i → rel l p k) ∧
  (∀ p k, child p i → child i k → k < n → rel l p k).

Lemma swap_rel l i j a b :
  i < length l → j < length l →
  rel (swap l i j) a b ↔
    rel l (if decide (a = i) then j else if decide (a = j) then i else a)
          (if decide (b = i) then j else if decide (b = j) then i else b).
Proof using.
  intros Hi Hj. unfold rel. rewrite !swap_lookup by done. by repeat case_decide.
Qed.

Lemma down_heap fuel l i n :
  n ≤ length l → Forall P l → n - i ≤ fuel → order_but_below l n i →
  heap_within (down fuel l i n) n.
Proof using worse_asymm above_trans.
  revert l i; induction fuel as [|fuel IH]; intros l i Hn HP Hf [H1 H2]; cbn [down].
  { intros p k Hc Hk. apply H1; [done|done|]. unfold child in Hc. lia. }
  destruct (Nat.leb_spec n (2 * i + 1)) as [Hleaf|Hj1].
  { intros p k Hc Hk. apply H1; [done|done|]. unfold child in Hc. lia. }
  set (j := if _ && _ then _ else _).
  assert (child i j ∧ j < n ∧ ∀ k, child i k → k < n → k ≠ j → rel l j k) as (Hij & Hjn & Hbest).
  { unfold j. destruct (Nat.ltb_spec (2 * i + 1 + 1) n) as [Hj2|Hj2]; cbn [andb].
    - destruct (less l (2 * i + 1 + 1) (2 * i + 1)) eqn:Hless.
      + split_and!; [unfold child; lia|lia|]. intros k Hk Hkn Hne. replace k with (2 * i + 1) by (unfold child in Hk; lia).
        by apply less_above.
      + split_and!; [unfold child; lia|lia|]. intros k Hk Hkn Hne. replace k with (2 * i + 1 + 1) by (unfold child in Hk; lia).
        by apply not_less_above.
    - split_and!; [unfold child; lia|lia|]. intros k Hk Hkn Hne. unfold child in Hk. lia. }
  clearbody j. assert (is_Some (l !! j)) as Hsj by (apply lookup_lt_is_Some; lia).
  destruct (less l j i) eqn:Hless; cbn [negb].
  2:{ apply not_less_above in Hless. intros p k Hc Hk. destruct (decide (p = i)) as [->|]; [|by apply H1].
      destruct (decide (k = j)) as [->|]; [done|]. by apply (rel_trans l i j k); [| |done|apply Hbest]. }
  apply less_above in Hless; [|done]. pose proof Hij as Hij'. unfold child in Hij'.
  apply IH; [by rewrite swap_length|by rewrite swap_perm|lia|]. split.
  - intros p k Hc Hk Hp. rewrite swap_rel by lia. pose proof Hc as Hc'. unfold child in Hc'.
    repeat case_decide; subst; try lia; auto.
  - intros p k Hc Hc' Hk. rewrite swap_rel by lia. assert (p = i) as -> by (unfold child in *; lia).
    unfold child in Hc'. repeat case_decide; subst; try lia. apply H1; [done|done|lia].
Qed.

Lemma down_perm fuel l i n : down fuel l i n ≡ₚ l.
Proof using.
  revert l i; induction fuel as [|fuel IH]; intros l i; cbn [down]; [done|].
  destruct (n <=? _)%nat; [done|]. destruct (negb _); [done|]. by rewrite IH, swap_perm.
Qed.

(** [down] stays within the first [n] elements. *)
Lemma down_beyond fuel l i n k : n ≤ length l → n ≤ k → down fuel l i n !! k = l !! k.
Proof using.
  revert l i; induction fuel as [|fuel IH]; intros l i Hn Hk; cbn [down]; [done|].
  destruct (Nat.leb_spec n (2 * i + 1)); [done|]. set (j := if _ && _ then _ else _).
  assert (i < n ∧ j < n) as [Hi Hj].
  { unfold j. destruct (Nat.ltb_spec (2 * i + 1 + 1) n); cbn [andb]; [destruct (less _ _ _)|]; lia. }
  destruct (negb _); [done|]. rewrite IH by (rewrite ?swap_length; lia).
  rewrite swap_lookup by lia. by rewrite !decide_False by lia.
Qed.

(** What [up] needs at [j]: order everywhere but above [j], and order between
    the parent and the children of [j]. *)
Definition order_but_above (l : list A) (j : nat) : Prop :=
  (∀ p k, child p k → k < length l → k ≠ j → rel l p k) ∧
  (∀ p k, child p j → child j k → k < length l → rel l p k).

Lemma parent_child j : 0 < j → child ((j - 1) / 2) j.
Proof using. intros Hj. unfold child. pose proof (Nat.div_mod (j - 1) 2). pose proof (Nat.mod_upper_bound (j - 1) 2). lia. Qed.

Lemma up_heap fuel l j :
  Forall P l → j < length l → j < fuel → order_but_above l j → heap_within (up fuel l j) (length l).
Proof using worse_asymm above_trans.
  revert l j; induction fuel as [|fuel IH]; intros l j HP Hj Hf [H1 H2]; [lia|]. cbn [up].
  destruct (decide (j = 0)) as [->|Hj0].
  { intros p k Hc Hk. apply H1; [done|done|]. unfold child in Hc. lia. }
  pose proof (parent_child j ltac:(lia)) as Hij. set (i := (j - 1) / 2) in *. clearbody i.
  pose proof Hij as Hij'. unfold child in Hij'.
  rewrite (proj2 (Nat.eqb_neq i j)) by lia. cbn [orb].
  assert (is_Some (l !! i)) as Hsi by (apply lookup_lt_is_Some; lia).
  destruct (less l j i) eqn:Hless; cbn [negb].
  2:{ apply not_less_above in Hless. intros p k Hc Hk. destruct (decide (k = j)) as [->|]; [|by apply H1].
      assert (p = i) as -> by (unfold child in Hc; lia). done. }
  apply less_above in Hless; [|done]. rewrite <- (swap_length l i j).
  apply IH; [by rewrite swap_perm|rewrite swap_length; lia|lia|]. split.
  - intros p k Hc Hk Hki. rewrite swap_length in Hk. rewrite swap_rel by lia.
    pose proof Hc as Hc'. unfold child in Hc'. repeat case_decide; subst; try lia; auto.
    apply (rel_trans l j i k); auto.
  - intros p k Hc Hc' Hk. rewrite swap_length in Hk. rewrite swap_rel by lia.
    pose proof Hc as Hc1. pose proof Hc' as Hc1'. unfold child in Hc1, Hc1'.
    assert (rel l p i) as Hpi by (apply H1; [done|lia|lia]).
    repeat case_decide; subst; try lia; [done|]. apply (rel_trans l p i k); auto.
Qed.

Lemma up_perm fuel l j : up fuel l j ≡ₚ l.
Proof using.
  revert l j; induction fuel as [|fuel IH]; intros l j; cbn [up]; [done|].
  destruct (_ || _); [done|]. by rewrite IH, swap_perm.
Qed.

(** ** The operations *)

Definition heap (l : list A) : Prop := heap_within l (length l).

Lemma heap_nil : heap [].
Proof using. intros p k _ Hk. simpl in Hk. lia. Qed.

(** Nothing in a heap stands above its root. *)
Lemma heap_root l x y : Forall P l → heap l → l !! 0 = Some x → y ∈ l → above x y.
Proof using worse_asymm above_trans.
  intros HP Hl Hx [k Hk]%list_elem_of_lookup. revert y Hk.
  induction k as [k IH] using lt_wf_ind; intros y Hk. destruct (decide (k = 0)) as [->|Hk0].
  { assert (y = x) as -> by congruence. apply above_refl. rewrite Forall_lookup in HP. eauto. }
  pose proof (parent_child k ltac:(lia)) as Hc. set (p := (k - 1) / 2) in *.
  assert (k < length l) by eauto using lookup_lt_Some.
  destruct (lookup_lt_is_Some_2 l p) as [z Hz]; [unfold child in Hc; lia|].
  rewrite Forall_lookup in HP. apply (above_trans x z y); eauto; [|by apply (Hl p k)].
  apply (IH p); [unfold child in Hc; lia|done].
Qed.

Lemma heap_push_spec l x : Forall P (l ++ [x]) → heap l → heap (heap_push l x) ∧ heap_push l x ≡ₚ x :: l.
Proof using worse_asymm above_trans.
  intros HP Hl. unfold heap_push.
  assert (up (length l + 1) (l ++ [x]) (length l) ≡ₚ x :: l) as Hperm by (rewrite up_perm; by rewrite Permutation_app_comm).
  split; [|done]. unfold heap.
  assert (length (up (length l + 1) (l ++ [x]) (length l)) = length (l ++ [x])) as -> by (by rewrite up_perm).
  apply up_heap; [done|rewrite length_app; simpl; lia|lia|].
  assert (∀ p k, child p k → k < length l → rel (l ++ [x]) p k) as Hrel.
  { intros p k Hc Hk a b Ha Hb. unfold child in Hc. rewrite lookup_app_l in Ha by lia.
    rewrite lookup_app_l in Hb by lia. by apply (Hl p k). }
  split.
  - intros p k Hc Hk Hne. rewrite length_app in Hk. simpl in Hk. apply Hrel; [done|lia].
  - intros p k Hc Hc' Hk. rewrite length_app in Hk. unfold child in Hc'. simpl in Hk. lia.
Qed.

Lemma heap_fix_root_spec l r x :
  Forall P (x :: r :: l) → heap (r :: l) → heap (heap_fix_root (r :: l) x) ∧ heap_fix_root (r :: l) x ≡ₚ x :: l.
Proof using worse_asymm above_trans.
  intros [Hx [Hr HP]%Forall_cons]%Forall_cons Hl. unfold heap_fix_root. cbn [list_insert insert].
  change (<[0:=x]> (r :: l)) with (x :: l).
  assert (down (length (r :: l)) (x :: l) 0 (length (r :: l)) ≡ₚ x :: l) as Hperm by apply down_perm.
  split; [|done]. unfold heap.
  assert (length (down (length (r :: l)) (x :: l) 0 (length (r :: l))) = length (x :: l)) as -> by (by rewrite Hperm).
  apply down_heap; [done|by constructor|simpl; lia|]. split.
  - intros p k Hc Hk Hp a b Ha Hb. unfold child in Hc. destruct p as [|p]; [done|]. destruct k as [|k]; [lia|].
    apply (Hl (S p) (S k)); [unfold child; lia|done|done|done].
  - intros p k Hc. unfold child in Hc. lia.
Qed.

Lemma heap_pop_spec l r :
  Forall P (r :: l) → heap (r :: l) →
  ∃ l', heap_pop (r :: l) = Some (r, l') ∧ heap l' ∧ l' ≡ₚ l.
Proof using worse_asymm above_trans.
  intros HP Hl. unfold heap_pop. cbn [length]. rewrite Nat.sub_1_r. cbn [Nat.pred].
  set (n := length l). set (s := swap (r :: l) 0 n). set (d := down (S n) s 0 n).
  assert (length s = S n) as Hls by (unfold s; by rewrite swap_length).
  assert (length d = S n) as Hld by (unfold d; by rewrite down_perm).
  assert (d !! n = Some r) as Hdn.
  { unfold d. rewrite down_beyond by lia. unfold s. rewrite swap_lookup by (simpl; lia).
    destruct (decide (n = 0)) as [->|]; [done|]. by rewrite decide_True by done. }
  assert (last d = Some r) as Hlast by (rewrite last_lookup, Hld; exact Hdn).
  rewrite Hlast. exists (take n d). split; [done|].
  assert (d ≡ₚ r :: l) as Hd by (unfold d, s; by rewrite down_perm, swap_perm).
  assert (d = take n d ++ [r]) as Hsplit.
  { rewrite <- (take_drop n d) at 1. f_equal. apply list_eq. intros [|i].
    - rewrite lookup_drop, Nat.add_0_r. done.
    - rewrite lookup_drop. apply lookup_ge_None_2. lia. }
  split.
  - unfold heap. rewrite length_take, Hld. intros p k Hc Hk a b Ha Hb.
    apply lookup_take_Some in Ha as [Ha Hpn], Hb as [Hb _].
    assert (heap_within d n) as Hheap; [|by apply (Hheap p k); [|lia|..]].
    apply down_heap; [lia|unfold s; by rewrite swap_perm|lia|]. split.
    + intros p' k' Hc' Hk' Hp'. unfold s. unfold child in Hc'. rewrite swap_rel by (simpl; lia).
      rewrite !decide_False by lia. apply Hl; [done|simpl; lia].
    + intros p' k' Hc'. unfold child in Hc'. lia.
  - apply (Permutation_cons_inv (a:=r)). rewrite <- Hd. rewrite Hsplit at 2. by rewrite Permutation_app_comm.
Qed.
End heap.
