(* ===== verification/VectorSet.v ===== *)
(** * Canonical vector sets (document/vector_set.go)

    The durable [vector-set/v1] payload of a set of embedding vectors: its
    construction from provider values, its validation, its encoding with the
    SHA-256 that names the set, and the decoder of untrusted payloads.  The
    framing puts the rows' identities first and the scalars after them. *)
From Stdlib Require Import Floats.SpecFloat.
From S2P Require Import Prelude GoText Sha256 AuditEncoding Identity ModelInput Chunking LittleEndian.

(** Every failure is an [errors.New] value without a sentinel;
    [VectorPanic] would be an index out of range. *)
Inductive vector_error := ErrVector | VectorPanic.
Notation vres := (result vector_error).

Definition vectorSetV1Magic : bytes := bs "vector-set/v1" ++ ["000"%char].
Definition vectorSetV1Domain : bytes := bs "docbank-vector-set/v1" ++ ["000"%char].
Definition vectorSetV1Version : Z := 1.
Definition maxVectorSetString : nat := Z.to_nat (2 ^ 16).
Definition maxVectorSetScalars : Z := 10000000.
Definition maxEmbeddingDimensions : Z := 1000000.
Definition maxEmbeddingBatchItems : Z := 10000.

Definition VectorMetricCosine : string := "cosine".
Definition VectorMetricDotProduct : string := "dot_product".
Definition VectorMetricL2 : string := "l2".
Definition VectorNormalizationNone : string := "none".
Definition VectorNormalizationUnitLength : string := "unit_length".

Definition IsValidVectorMetric (metric : string) : bool :=
  String.eqb metric VectorMetricCosine || String.eqb metric VectorMetricDotProduct
  || String.eqb metric VectorMetricL2.
Definition validVectorNormalization (value : string) : bool :=
  String.eqb value VectorNormalizationNone || String.eqb value VectorNormalizationUnitLength.

(** ** Sets *)

Record VectorSetV1 := mkVectorSet {
  VectorSpaceFingerprint : string;
  Metric : string;
  Normalization : string;
  Dimension : Z;
  InputKeys : list string;
  InputChecksums : list string;
  Vectors : list (list float32);
}.

Record VectorSetV1Input := mkVectorSetInput {
  vsi_VectorSpaceFingerprint : string;
  vsi_Metric : string;
  vsi_Normalization : string;
  vsi_Dimension : Z;
  vsi_InputKeys : list string;
  vsi_InputChecksums : list string;
  Values : list (list spec_float);
}.

Definition validateVectorSetKey (value : string) : vres () :=
  check (negb (String.eqb value "" || (maxVectorSetString <? slen value)%nat || negb (ValidString value)))
    ErrVector.

(** What the loops over rows share: the key is bounded, new, and the checksum a
    digest. *)
Definition check_identity (seen : gset string) (key checksum : string) : vres (gset string) :=
  _ ← validateVectorSetKey key;
  _ ← check (bool_decide (key ∉ seen)) ErrVector;
  _ ← check (IsSHA256Hex checksum) ErrVector;
  Ok ({[key]} ∪ seen).

(** The rows of a set by index; the lengths have been compared before. *)
Definition zip3 {A B C} (l : list A) (k : list B) (m : list C) : list (A * B * C) := zip (zip l k) m.

Definition check_row (dimension : Z) (seen : gset string) (row : string * string * list float32) :
    vres (gset string) :=
  let '(key, checksum, vector) := row in
  seen ← check_identity seen key checksum;
  _ ← check (Z.of_nat (length vector) =? dimension)%Z ErrVector;
  _ ← check (forallb f32_finite vector) ErrVector;
  Ok seen.

Definition validateVectorSetV1 (set : VectorSetV1) : vres () :=
  _ ← check (IsSHA256Hex (VectorSpaceFingerprint set)) ErrVector;
  _ ← check (IsValidVectorMetric (Metric set)) ErrVector;
  _ ← check (validVectorNormalization (Normalization set)) ErrVector;
  _ ← check ((1 <=? Dimension set) && (Dimension set <=? maxEmbeddingDimensions))%Z ErrVector;
  let rows := Z.of_nat (length (Vectors set)) in
  _ ← check (negb (rows =? 0)%Z && (rows <=? maxEmbeddingBatchItems)%Z
             && (length (InputKeys set) =? length (Vectors set))%nat
             && (length (InputChecksums set) =? length (Vectors set))%nat) ErrVector;
  _ ← check (rows * Dimension set <=? maxVectorSetScalars)%Z ErrVector;
  _ ← foldM (check_row (Dimension set)) ∅ (zip3 (InputKeys set) (InputChecksums set) (Vectors set));
  Ok ().

(** ** Construction *)

Definition float64_finite (x : spec_float) : bool :=
  match x with S754_zero _ | S754_finite _ _ _ => true | _ => false end.

Definition preflight_row (dimension : Z) (seen : gset string) (row : string * string * list spec_float) :
    vres (gset string) :=
  let '(key, checksum, values) := row in
  _ ← check (Z.of_nat (length values) =? dimension)%Z ErrVector;
  seen ← check_identity seen key checksum;
  _ ← check (forallb (λ v, float64_finite v && f32_finite (float32_of_float64 v)) values) ErrVector;
  Ok seen.

Definition preflightVectorSetInput (input : VectorSetV1Input) : vres () :=
  _ ← check (IsSHA256Hex (vsi_VectorSpaceFingerprint input)) ErrVector;
  _ ← check (IsValidVectorMetric (vsi_Metric input)) ErrVector;
  _ ← check (validVectorNormalization (vsi_Normalization input)) ErrVector;
  let rows := Z.of_nat (length (Values input)) in
  _ ← check ((1 <=? vsi_Dimension input) && (vsi_Dimension input <=? maxEmbeddingDimensions)
             && negb (rows =? 0) && (rows <=? maxEmbeddingBatchItems)
             && (Z.of_nat (length (vsi_InputKeys input)) =? rows)
             && (Z.of_nat (length (vsi_InputChecksums input)) =? rows)
             && (rows * vsi_Dimension input <=? maxVectorSetScalars))%Z ErrVector;
  _ ← foldM (preflight_row (vsi_Dimension input)) ∅
        (zip3 (vsi_InputKeys input) (vsi_InputChecksums input) (Values input));
  Ok ().

Definition quantize (value : spec_float) : vres float32 :=
  _ ← check (float64_finite value) ErrVector;
  let quantized := float32_of_float64 value in
  _ ← check (f32_finite quantized) ErrVector;
  Ok (f32_canonical quantized).

Definition NewVectorSetV1 (input : VectorSetV1Input) : vres VectorSetV1 :=
  _ ← preflightVectorSetInput input;
  vectors ← mapR (mapR quantize) (Values input);
  let set := mkVectorSet (vsi_VectorSpaceFingerprint input) (vsi_Metric input)
               (vsi_Normalization input) (vsi_Dimension input) (vsi_InputKeys input)
               (vsi_InputChecksums input) vectors in
  _ ← validateVectorSetV1 set;
  Ok set.

(** ** Encoding *)

Definition writeUint32 (value : Z) : bytes := AppendUint32 value.
Definition writeBoundedUint32 (value : Z) : vres bytes :=
  _ ← check ((0 <=? value) && (value <=? 2 ^ 32 - 1))%Z ErrVector;
  Ok (writeUint32 value).
Definition writeString (value : string) : vres bytes :=
  length ← writeBoundedUint32 (Z.of_nat (slen value));
  Ok (length ++ bs value).

Definition vectorSetChecksum `{Sha256} (encoded : bytes) : string :=
  sha256Hex (of_bytes (vectorSetV1Domain ++ encoded)).

Definition write_identity (row : string * string) : vres bytes :=
  key ← writeString row.1;
  checksum ← writeString row.2;
  Ok (key ++ checksum).

Definition write_scalars (vectors : list (list float32)) : bytes :=
  concat ((λ value, writeUint32 (f32_canonical value)) <$> concat vectors).

Definition EncodeVectorSetV1 `{Sha256} (set : VectorSetV1) : vres (bytes * string) :=
  _ ← validateVectorSetV1 set;
  header ← mapR writeString [VectorSpaceFingerprint set; Metric set; Normalization set];
  rows ← writeBoundedUint32 (Z.of_nat (length (Vectors set)));
  dimension ← writeBoundedUint32 (Dimension set);
  identities ← mapR write_identity (zip (InputKeys set) (InputChecksums set));
  let encoded := vectorSetV1Magic ++ writeUint32 vectorSetV1Version ++ concat header ++ rows
                 ++ dimension ++ concat identities ++ write_scalars (Vectors set) in
  Ok (encoded, vectorSetChecksum encoded).

(** ** Decoding *)

(** A reader is the bytes that remain. *)
Definition readUint32 (reader : bytes) : vres (Z * bytes) :=
  _ ← check (4 <=? length reader)%nat ErrVector;
  Ok (le_value (take 4 reader), drop 4 reader).

Definition readString (reader : bytes) : vres (string * bytes) :=
  '(length_, reader) ← readUint32 reader;
  _ ← check (negb ((length_ =? 0) || (Z.of_nat maxVectorSetString <? length_)
                   || (Z.of_nat (length reader) <? length_)))%Z ErrVector;
  let value := of_bytes (take (Z.to_nat length_) reader) in
  _ ← check (ValidString value) ErrVector;
  Ok (value, drop (Z.to_nat length_) reader).

(** One scalar: finite, and no negative zero. *)
Definition readScalar (reader : bytes) : vres (float32 * bytes) :=
  '(bits, reader) ← readUint32 reader;
  _ ← check (f32_finite bits) ErrVector;
  _ ← check (negb (f32_is_zero bits && negb (bits =? 0)%Z)) ErrVector;
  Ok (bits, reader).

(** [n] items in a row. *)
Fixpoint read_many {A} (read : bytes → vres (A * bytes)) (n : nat) (reader : bytes) :
    vres (list A * bytes) :=
  match n with
  | 0 => Ok ([], reader)
  | S n =>
      '(x, reader) ← read reader;
      '(xs, reader) ← read_many read n reader;
      Ok (x :: xs, reader)
  end.

Fixpoint preflight_identities (n : nat) (seen : gset string) (reader : bytes) : vres bytes :=
  match n with
  | 0 => Ok reader
  | S n =>
      '(key, reader) ← readString reader;
      '(checksum, reader) ← readString reader;
      seen ← check_identity seen key checksum;
      preflight_identities n seen reader
  end.

Definition preflightVectorMetadata (reader : bytes) (rows scalars : nat) : vres () :=
  reader ← preflight_identities rows ∅ reader;
  '(_, reader) ← read_many readScalar scalars reader;
  check (length reader =? 0)%nat ErrVector.

Definition readIdentity (reader : bytes) : vres (string * string * bytes) :=
  '(key, reader) ← readString reader;
  '(checksum, reader) ← readString reader;
  _ ← validateVectorSetKey key;
  _ ← check (IsSHA256Hex checksum) ErrVector;
  Ok (key, checksum, reader).

Record VectorBounds := mkVectorBounds { MaxRows : Z; MaxDimension : Z; MaxBytes : Z }.

Definition decodeVectorSetV1 (encoded : bytes) (bounds : VectorBounds) : vres VectorSetV1 :=
  _ ← check (bool_decide (take (length vectorSetV1Magic) encoded = vectorSetV1Magic)) ErrVector;
  let reader := drop (length vectorSetV1Magic) encoded in
  '(version, reader) ← readUint32 reader;
  _ ← check (version =? vectorSetV1Version)%Z ErrVector;
  '(space, reader) ← readString reader;
  '(metric, reader) ← readString reader;
  '(normalization, reader) ← readString reader;
  _ ← check (IsSHA256Hex space) ErrVector;
  _ ← check (IsValidVectorMetric metric && validVectorNormalization normalization) ErrVector;
  '(rows, reader) ← readUint32 reader;
  '(dimension, reader) ← readUint32 reader;
  _ ← check (negb ((rows =? 0) || (MaxRows bounds <? rows) || (maxEmbeddingBatchItems <? rows)))%Z ErrVector;
  _ ← check (negb ((dimension =? 0) || (MaxDimension bounds <? dimension)
                   || (maxEmbeddingDimensions <? dimension)))%Z ErrVector;
  _ ← check (rows * dimension <=? maxVectorSetScalars)%Z ErrVector;
  _ ← preflightVectorMetadata reader (Z.to_nat rows) (Z.to_nat (rows * dimension));
  '(identities, reader) ← read_many readIdentity (Z.to_nat rows) reader;
  '(vectors, reader) ← read_many (read_many readScalar (Z.to_nat dimension)) (Z.to_nat rows) reader;
  _ ← check (length reader =? 0)%nat ErrVector;
  let set := mkVectorSet space metric normalization dimension identities.*1 identities.*2 vectors in
  _ ← validateVectorSetV1 set;
  Ok set.

Definition DecodeVectorSetV1 `{Sha256} (encoded : bytes) (bounds : VectorBounds) :
    vres (VectorSetV1 * string) :=
  _ ← check ((1 <=? MaxRows bounds) && (1 <=? MaxDimension bounds) && (1 <=? MaxBytes bounds))%Z ErrVector;
  _ ← check (Z.of_nat (length encoded) <=? MaxBytes bounds)%Z ErrVector;
  set ← decodeVectorSetV1 encoded bounds;
  Ok (set, vectorSetChecksum encoded).
