(* ===== verification/VectorSetProps.v ===== *)
(** * Facts about the vector-set encoding

    Readers and writers that are inverse to each other, and the layout of a
    valid set.

    The layout of a valid set, and that encoder and decoder are the two
    directions of one correspondence. *)
From Stdlib Require Import Floats.SpecFloat.
From S2P Require Import Prelude GoText Sha256 AuditEncoding Identity ModelInput Chunking LittleEndian VectorSet.

(** ** Inverse readers *)

(** [read] accepts exactly the encodings of the values in [ok]. *)
Definition decodes {E A} (read : bytes → result E (A * bytes)) (enc : A → bytes) (ok : A → Prop) : Prop :=
  (∀ a r, ok a → read (enc a ++ r) = Ok (a, r)) ∧
  (∀ b a r, read b = Ok (a, r) → ok a ∧ b = enc a ++ r).

Definition uint32_ok (v : Z) : Prop := (0 <= v < 2 ^ 32)%Z.

Lemma readUint32_decodes : decodes readUint32 writeUint32 uint32_ok.
Proof.
  split.
  - intros v r Hv. unfold readUint32, writeUint32, AppendUint32.
    rewrite length_app, length_le_bytes. cbn [Nat.leb Nat.add check mbind result_bind].
    rewrite take_app_length', drop_app_length' by (by rewrite length_le_bytes).
    by rewrite le_value_bytes.
  - intros b v r. unfold readUint32. intros (u & Hl%check_Ok_iff%Nat.leb_le & [= <- <-])%bind_Ok_iff.
    assert (length (take 4 b) = 4) as H4 by (rewrite length_take; lia). split.
    + pose proof (le_value_bounds (take 4 b)) as Hb. rewrite H4 in Hb. exact Hb.
    + unfold writeUint32, AppendUint32. rewrite <- H4 at 1. by rewrite le_bytes_value, take_drop.
Qed.

(** The framing of a string. *)
Definition frame (s : string) : bytes := writeUint32 (Z.of_nat (slen s)) ++ bs s.
Definition string_ok (s : string) : Prop :=
  s ≠ "" ∧ slen s ≤ maxVectorSetString ∧ ValidString s = true.

Lemma writeString_frame s : slen s ≤ maxVectorSetString → writeString s = Ok (frame s).
Proof.
  intros Hs. unfold writeString, writeBoundedUint32, maxVectorSetString in *.
  rewrite (proj2 (Z.leb_le 0 _)), (proj2 (Z.leb_le _ (2 ^ 32 - 1))) by lia. done.
Qed.

Lemma string_nonempty s : s ≠ "" ↔ slen s ≠ 0.
Proof. destruct s; simpl; split; congruence. Qed.

Lemma readString_decodes : decodes readString frame string_ok.
Proof.
  split.
  - intros s r (Hne & Hl & Hv). apply string_nonempty in Hne. unfold readString, frame.
    rewrite <- app_assoc, (proj1 readUint32_decodes) by (unfold uint32_ok, maxVectorSetString in *; lia).
    cbn [mbind result_bind]. rewrite length_app, length_bs.
    rewrite (proj2 (Z.eqb_neq _ _)), (proj2 (Z.ltb_ge _ _)), (proj2 (Z.ltb_ge _ _)) by lia.
    cbn [orb negb check mbind result_bind]. rewrite Nat2Z.id.
    rewrite take_app_length', drop_app_length' by (by rewrite length_bs). by rewrite of_bytes_bs, Hv.
  - intros b s r. unfold readString. intros ([n b'] & Hn & H)%bind_Ok_iff.
    apply bind_Ok_iff in H as (u & Hc%check_Ok_iff & H). apply bind_Ok_iff in H as (u' & Hv%check_Ok_iff & [= <- <-]).
    apply (proj2 readUint32_decodes) in Hn as [Hn ->]. unfold uint32_ok in Hn.
    rewrite negb_true_iff, !orb_false_iff, Z.eqb_neq, !Z.ltb_ge in Hc. destruct Hc as [[H0 H1] H2].
    assert (length (take (Z.to_nat n) b') = Z.to_nat n) as Hl by (rewrite length_take; lia).
    unfold string_ok, frame. rewrite string_nonempty, slen_of_bytes, bs_of_bytes, Hl.
    split_and!; [lia|lia|done|]. rewrite Z2Nat.id, <- app_assoc, take_drop by lia. done.
Qed.

Lemma read_many_decodes {A} (read : bytes → vres (A * bytes)) enc ok n :
  decodes read enc ok →
  decodes (read_many read n) (λ l, concat (enc <$> l)) (λ l, length l = n ∧ Forall ok l).
Proof.
  intros [Hw Hr]. split.
  - intros l r [<- Hl]. induction Hl as [|a l Ha Hl IH]; [done|].
    cbn [fmap list_fmap concat length read_many]. rewrite <- app_assoc, Hw by done. cbn [mbind result_bind].
    by rewrite IH.
  - intros b l r. revert b l; induction n as [|n IH]; intros b l; cbn [read_many].
    { intros [= <- <-]. by repeat constructor. }
    intros ([a b1] & Ha & H)%bind_Ok_iff. apply bind_Ok_iff in H as ([l' b2] & Hl & [= <- <-]).
    apply Hr in Ha as [Ha ->]. apply IH in Hl as [[<- Hl] ->].
    split; [by repeat constructor|]. cbn [fmap list_fmap concat]. by rewrite <- app_assoc.
Qed.

(** A scalar as it is stored. *)
Definition scalar_ok (b : float32) : Prop :=
  is_float32 b ∧ f32_finite b = true ∧ f32_canonical b = b.

Lemma readScalar_decodes : decodes readScalar writeUint32 scalar_ok.
Proof.
  split.
  - intros b r (Hb & Hf & Hc). unfold readScalar. rewrite (proj1 readUint32_decodes) by done.
    cbn [mbind result_bind]. rewrite Hf. cbn [check mbind result_bind].
    unfold f32_canonical in Hc. destruct (f32_is_zero b); [by subst|done].
  - intros d b r. unfold readScalar. intros ([v d'] & Hv & H)%bind_Ok_iff.
    apply bind_Ok_iff in H as (u & Hf%check_Ok_iff & H). apply bind_Ok_iff in H as (u' & Hz%check_Ok_iff & [= <- <-]).
    apply (proj2 readUint32_decodes) in Hv as [Hv ->]. split; [|done]. split_and!; [done|done|].
    unfold f32_canonical. destruct (f32_is_zero v); [|done]. cbn in Hz. apply negb_true_iff, negb_false_iff in Hz.
    symmetry. by apply Z.eqb_eq.
Qed.

(** The identity of a row. *)
Definition frame2 (row : string * string) : bytes := frame row.1 ++ frame row.2.
Definition identity_ok (row : string * string) : Prop := string_ok row.1 ∧ IsSHA256Hex row.2 = true.

Lemma validateVectorSetKey_iff s : validateVectorSetKey s = Ok () ↔ string_ok s.
Proof.
  unfold validateVectorSetKey, string_ok. rewrite check_Ok_iff, negb_true_iff, !orb_false_iff, Nat.ltb_ge,
    negb_false_iff, String.eqb_neq. tauto.
Qed.

Lemma hex_byte_ascii a : is_lower_hex_byte a = true → is_ascii a = true.
Proof. destruct a as [[] [] [] [] [] [] [] []]; vm_compute; done. Qed.

Lemma digest_string_ok s : IsSHA256Hex s = true → string_ok s.
Proof.
  unfold IsSHA256Hex, isLowerHex. intros [Hl%Nat.eqb_eq Hh]%andb_true_iff. split_and!.
  - apply string_nonempty. lia.
  - unfold maxVectorSetString. lia.
  - apply all_ascii_valid. clear Hl. revert Hh. unfold bs. induction s as [|a s IH]; [done|]. simpl.
    intros [Ha Hs]%andb_true_iff. by rewrite hex_byte_ascii, IH.
Qed.

Lemma readIdentity_decodes : decodes readIdentity frame2 identity_ok.
Proof.
  split.
  - intros [key checksum] r [Hk Hc]. cbn in Hk, Hc. unfold readIdentity, frame2. cbn [fst snd].
    rewrite <- app_assoc, (proj1 readString_decodes) by done. cbn [mbind result_bind].
    rewrite (proj1 readString_decodes) by (by apply digest_string_ok). cbn [mbind result_bind].
    rewrite (proj2 (validateVectorSetKey_iff _)) by done. cbn [mbind result_bind]. by rewrite Hc.
  - intros b [key checksum] r. unfold readIdentity. intros ([k b1] & Hk & H)%bind_Ok_iff.
    apply bind_Ok_iff in H as ([c b2] & Hc & H). apply bind_Ok_iff in H as ([] & Hv%validateVectorSetKey_iff & H).
    apply bind_Ok_iff in H as (u & Hh%check_Ok_iff & [= <- <- <-]).
    apply (proj2 readString_decodes) in Hk as [_ ->], Hc as [_ ->].
    split; [done|]. unfold frame2. by rewrite <- app_assoc.
Qed.

(** ** Valid sets *)

Lemma forallb_Forall {A} (f : A → bool) l : forallb f l = true ↔ Forall (λ a, f a = true) l.
Proof.
  induction l as [|a l IH]; simpl; [by split|]. by rewrite andb_true_iff, Forall_cons, IH.
Qed.

Lemma check_identity_iff seen key checksum seen' :
  check_identity seen key checksum = Ok seen' ↔
  identity_ok (key, checksum) ∧ key ∉ seen ∧ seen' = {[key]} ∪ seen.
Proof.
  unfold check_identity, identity_ok. cbn [fst snd]. rewrite <- validateVectorSetKey_iff. split.
  - intros ([] & Hk & H)%bind_Ok_iff. apply bind_Ok_iff in H as (u & Hin%check_Ok_iff & H).
    apply bind_Ok_iff in H as (u' & Hc%check_Ok_iff & [= <-]). by apply bool_decide_eq_true in Hin.
  - intros ([Hk Hc] & Hin & ->). rewrite Hk. cbn [mbind result_bind].
    rewrite bool_decide_eq_true_2, Hc by done. done.
Qed.

Definition row_ok (dimension : Z) (row : string * string * list float32) : Prop :=
  identity_ok row.1 ∧ Z.of_nat (length row.2) = dimension ∧ Forall (λ b, f32_finite b = true) row.2.

Lemma check_row_iff dimension seen row seen' :
  check_row dimension seen row = Ok seen' ↔
  row_ok dimension row ∧ row.1.1 ∉ seen ∧ seen' = {[row.1.1]} ∪ seen.
Proof.
  destruct row as [[key checksum] vector]. unfold check_row, row_ok. cbn [fst snd]. split.
  - intros (s & Hs%check_identity_iff & H)%bind_Ok_iff. destruct Hs as (Hid & Hin & ->).
    apply bind_Ok_iff in H as (u & Hl%check_Ok_iff%Z.eqb_eq & H).
    apply bind_Ok_iff in H as (u' & Hf%check_Ok_iff & [= <-]).
    apply forallb_Forall in Hf. done.
  - intros ((Hid & Hl & Hf) & Hin & ->). rewrite (proj2 (check_identity_iff _ _ _ _)) by done.
    cbn [mbind result_bind]. rewrite (proj2 (Z.eqb_eq _ _)) by done. cbn [check mbind result_bind].
    apply forallb_Forall in Hf. by rewrite Hf.
Qed.

Lemma check_rows_iff dimension seen rows :
  (∃ seen', foldM (check_row dimension) seen rows = Ok seen') ↔
  Forall (row_ok dimension) rows ∧ NoDup (rows.*1.*1) ∧ Forall (λ k, k ∉ seen) (rows.*1.*1).
Proof.
  revert seen; induction rows as [|row rows IH]; intros seen; cbn [foldM fmap list_fmap].
  { split; [by repeat constructor|by eexists]. }
  rewrite NoDup_cons, !Forall_cons. split.
  - intros (s & (s1 & (Hrow & Hin & ->)%check_row_iff & Hs)%bind_Ok_iff).
    assert (∃ s', foldM (check_row dimension) ({[row.1.1]} ∪ seen) rows = Ok s') as Hex by eauto.
    apply IH in Hex as (Hrows & Hnd & Hseen). rewrite Forall_forall in Hseen.
    split_and!; try done.
    + intros Hk. specialize (Hseen _ Hk). set_solver.
    + apply Forall_forall. intros k Hk. specialize (Hseen _ Hk). set_solver.
  - intros ((Hrow & Hrows) & (Hni & Hnd) & (Hin & Hseen)).
    destruct (proj2 (IH ({[row.1.1]} ∪ seen))) as [s Hs].
    { split_and!; [done|done|]. rewrite Forall_forall in Hseen |- *. intros k Hk. specialize (Hseen _ Hk).
      set_solver. }
    exists s. apply bind_Ok_iff. exists ({[row.1.1]} ∪ seen). split; [|done].
    by apply check_row_iff.
Qed.

(** The rows' identities. *)
Definition identities (set : VectorSetV1) : list (string * string) := zip (InputKeys set) (InputChecksums set).

Record valid_set (set : VectorSetV1) : Prop := {
  vs_space : IsSHA256Hex (VectorSpaceFingerprint set) = true;
  vs_metric : IsValidVectorMetric (Metric set) = true;
  vs_normalization : validVectorNormalization (Normalization set) = true;
  vs_dimension : (1 <= Dimension set <= maxEmbeddingDimensions)%Z;
  vs_rows : (1 <= Z.of_nat (length (Vectors set)) <= maxEmbeddingBatchItems)%Z;
  vs_keys : length (InputKeys set) = length (Vectors set);
  vs_checksums : length (InputChecksums set) = length (Vectors set);
  vs_scalars : (Z.of_nat (length (Vectors set)) * Dimension set <= maxVectorSetScalars)%Z;
  vs_identities : Forall identity_ok (identities set);
  vs_unique : NoDup (InputKeys set);
  vs_vectors : Forall (λ v, Z.of_nat (length v) = Dimension set ∧ Forall (λ b, f32_finite b = true) v)
                 (Vectors set);
}.

Lemma zip3_split {A B C} (l : list A) (k : list B) (m : list C) :
  length l = length m → length k = length m →
  (zip3 l k m).*1 = zip l k ∧ (zip3 l k m).*2 = m ∧ (zip3 l k m).*1.*1 = l.
Proof.
  intros Hl Hk. unfold zip3. rewrite fst_zip, snd_zip by (rewrite length_zip; lia).
  by rewrite fst_zip by lia.
Qed.

Lemma validateVectorSetV1_iff set : validateVectorSetV1 set = Ok () ↔ valid_set set.
Proof.
  unfold validateVectorSetV1. split.
  - intros (u1 & H1%check_Ok_iff & H)%bind_Ok_iff. apply bind_Ok_iff in H as (u2 & H2%check_Ok_iff & H).
    apply bind_Ok_iff in H as (u3 & H3%check_Ok_iff & H). apply bind_Ok_iff in H as (u4 & H4%check_Ok_iff & H).
    apply bind_Ok_iff in H as (u5 & H5%check_Ok_iff & H). apply bind_Ok_iff in H as (u6 & H6%check_Ok_iff%Z.leb_le & H).
    apply bind_Ok_iff in H as (s & Hs & _).
    rewrite andb_true_iff, !Z.leb_le in H4.
    rewrite !andb_true_iff, negb_true_iff, Z.eqb_neq, Z.leb_le, !Nat.eqb_eq in H5.
    destruct H5 as [[[H5 H5'] Hk] Hc]. destruct (zip3_split _ _ _ Hk Hc) as (Hz1 & Hz2 & Hz3).
    destruct (proj1 (check_rows_iff _ _ _) (ex_intro _ s Hs)) as (Hrows & Hnd & _). rewrite Hz3 in Hnd.
    constructor; try done; try lia.
    + unfold identities. rewrite <- Hz1. apply Forall_fmap. eapply Forall_impl; [exact Hrows|]. by intros row [? _].
    + rewrite <- Hz2. apply Forall_fmap. eapply Forall_impl; [exact Hrows|]. by intros row [_ ?].
  - intros [H1 H2 H3 H4 H5 Hk Hc H6 Hid Hnd Hv]. rewrite H1, H2, H3. cbn [check mbind result_bind].
    rewrite !(proj2 (Z.leb_le _ _)) by lia. cbn [andb check mbind result_bind].
    rewrite (proj2 (Z.eqb_neq _ _)), (proj2 (Nat.eqb_eq _ _) Hk), (proj2 (Nat.eqb_eq _ _) Hc) by lia.
    cbn [negb andb check mbind result_bind].
    destruct (zip3_split _ _ _ Hk Hc) as (Hz1 & Hz2 & Hz3).
    destruct (proj2 (check_rows_iff (Dimension set) ∅ (zip3 (InputKeys set) (InputChecksums set) (Vectors set))))
      as [s ->]; [|done].
    rewrite Hz3. split_and!; [|done|by apply Forall_forall; intros k _; apply not_elem_of_empty].
    apply Forall_forall. intros row Hrow. rewrite Forall_forall in Hid. rewrite Forall_forall in Hv.
    apply (list_elem_of_fmap_2 fst) in Hrow as Hrow1. apply (list_elem_of_fmap_2 snd) in Hrow as Hrow2.
    rewrite Hz1 in Hrow1. rewrite Hz2 in Hrow2. split; [by apply Hid|by apply Hv].
Qed.

(** * Correctness of the vector-set encoding *)

(** ** The layout *)

Definition layout (set : VectorSetV1) : bytes :=
  vectorSetV1Magic ++ writeUint32 vectorSetV1Version
  ++ frame (VectorSpaceFingerprint set) ++ frame (Metric set) ++ frame (Normalization set)
  ++ writeUint32 (Z.of_nat (length (Vectors set))) ++ writeUint32 (Dimension set)
  ++ concat (frame2 <$> identities set) ++ concat (writeUint32 <$> concat (Vectors set)).

(** The set as it is stored, without negative zeros. *)
Definition canonical_set (set : VectorSetV1) : VectorSetV1 :=
  mkVectorSet (VectorSpaceFingerprint set) (Metric set) (Normalization set) (Dimension set)
    (InputKeys set) (InputChecksums set) (map (map f32_canonical) (Vectors set)).

Definition words (set : VectorSetV1) : Prop := Forall (Forall is_float32) (Vectors set).

Lemma metric_string_ok metric : IsValidVectorMetric metric = true → string_ok metric.
Proof.
  unfold IsValidVectorMetric. rewrite !orb_true_iff, !String.eqb_eq.
  intros [[-> | ->] | ->]; (split_and!; [done|by apply Nat.leb_le|done]).
Qed.

Lemma normalization_string_ok normalization :
  validVectorNormalization normalization = true → string_ok normalization.
Proof.
  unfold validVectorNormalization. rewrite !orb_true_iff, !String.eqb_eq.
  intros [-> | ->]; (split_and!; [done|by apply Nat.leb_le|done]).
Qed.

Lemma write_identities rows :
  Forall identity_ok rows → mapR write_identity rows = Ok (frame2 <$> rows).
Proof.
  intros Hrows. apply mapR_Forall2. apply Forall2_fmap_r, Forall_Forall2_diag.
  eapply Forall_impl; [exact Hrows|]. intros [key checksum] [Hk Hc]. unfold write_identity, frame2. cbn [fst snd] in *.
  rewrite !writeString_frame by (apply Hk || apply (digest_string_ok _ Hc)). done.
Qed.

Lemma EncodeVectorSetV1_layout `{Sha256} set :
  valid_set set →
  EncodeVectorSetV1 set = Ok (layout (canonical_set set), vectorSetChecksum (layout (canonical_set set))).
Proof.
  intros Hv. unfold EncodeVectorSetV1. rewrite (proj2 (validateVectorSetV1_iff set) Hv).
  cbn [mbind result_bind]. destruct Hv as [H1 H2 H3 H4 H5 Hk Hc H6 Hid Hnd Hvec].
  cbn [mapR]. rewrite !writeString_frame
    by (apply digest_string_ok in H1; apply metric_string_ok in H2; apply normalization_string_ok in H3;
        unfold string_ok in *; tauto).
  cbn [mapR mbind result_bind]. unfold writeBoundedUint32. unfold maxEmbeddingDimensions, maxEmbeddingBatchItems in *.
  rewrite !(proj2 (Z.leb_le _ _)) by lia. cbn [andb check mbind result_bind].
  fold (identities set). rewrite (write_identities _ Hid). cbn [mbind result_bind concat].
  unfold layout, canonical_set, write_scalars, identities. cbn [VectorSpaceFingerprint Metric Normalization Dimension
    InputKeys InputChecksums Vectors].
  rewrite length_map, app_nil_r, <- !app_assoc.
  replace (concat (map (map f32_canonical) (Vectors set))) with (f32_canonical <$> concat (Vectors set))
    by apply concat_map. rewrite <- list_fmap_compose. done.
Qed.

Lemma EncodeVectorSetV1_valid `{Sha256} set out : EncodeVectorSetV1 set = Ok out → valid_set set.
Proof. unfold EncodeVectorSetV1. intros ([] & Hv & _)%bind_Ok_iff. by apply validateVectorSetV1_iff. Qed.

(** ** Decoding a layout *)

(** A valid set without negative zeros, in words, is what the decoder returns. *)
Definition stored (set : VectorSetV1) : Prop := Forall (Forall scalar_ok) (Vectors set).

Definition within (bounds : VectorBounds) (set : VectorSetV1) : Prop :=
  (Z.of_nat (length (Vectors set)) <= MaxRows bounds)%Z ∧ (Dimension set <= MaxDimension bounds)%Z.

Lemma preflight_identities_frames rows seen r :
  Forall identity_ok rows → NoDup rows.*1 → Forall (λ k, k ∉ seen) rows.*1 →
  preflight_identities (length rows) seen (concat (frame2 <$> rows) ++ r) = Ok r.
Proof.
  revert seen; induction rows as [|[key checksum] rows IH]; intros seen Hid Hnd Hseen; [done|].
  apply Forall_cons in Hid as [[Hk Hc] Hid]. cbn [fmap list_fmap fst] in Hnd, Hseen.
  apply NoDup_cons in Hnd as [Hni Hnd]. apply Forall_cons in Hseen as [Hin Hseen].
  cbn [length preflight_identities fmap list_fmap concat]. unfold frame2 at 1. cbn [fst snd] in *.
  rewrite <- !app_assoc, (proj1 readString_decodes) by done. cbn [mbind result_bind].
  rewrite (proj1 readString_decodes) by (by apply digest_string_ok). cbn [mbind result_bind].
  rewrite (proj2 (check_identity_iff _ _ _ _)) by done. cbn [mbind result_bind].
  apply IH; [done|done|]. rewrite Forall_forall in Hseen. apply Forall_forall. intros k Hk'.
  specialize (Hseen _ Hk'). apply not_elem_of_union. split; [|done].
  rewrite elem_of_singleton. by intros ->.
Qed.

(** The vectors of a set, read row by row or scalar by scalar. *)
Lemma read_vectors_decodes rows dimension :
  decodes (read_many (read_many readScalar dimension) rows) (λ l, concat (writeUint32 <$> concat l))
    (λ l, length l = rows ∧ Forall (λ v, length v = dimension ∧ Forall scalar_ok v) l).
Proof.
  pose proof (read_many_decodes _ _ _ rows (read_many_decodes _ _ _ dimension readScalar_decodes)) as [Hw Hr].
  assert (∀ l : list (list float32),
    concat ((λ v, concat (writeUint32 <$> v)) <$> l) = concat (writeUint32 <$> concat l)) as Heq.
  { intros l. induction l as [|v l IH]; [done|]. cbn [fmap list_fmap concat].
    by rewrite fmap_app, concat_app, IH. }
  split.
  - intros l r Hl. rewrite <- Heq. by apply Hw.
  - intros b l r Hb. rewrite <- Heq. by apply Hr.
Qed.

Lemma identities_split set :
  valid_set set → (identities set).*1 = InputKeys set ∧ (identities set).*2 = InputChecksums set ∧
  length (identities set) = length (Vectors set).
Proof.
  intros [_ _ _ _ _ Hk Hc _ _ _ _]. unfold identities. rewrite fst_zip, snd_zip, length_zip by lia.
  split_and!; [done|done|lia].
Qed.

Lemma stored_rows set :
  valid_set set → stored set →
  Forall (λ v, length v = Z.to_nat (Dimension set) ∧ Forall scalar_ok v) (Vectors set).
Proof.
  intros [_ _ _ _ _ _ _ _ _ _ Hv] Hs. unfold stored in Hs. rewrite Forall_forall in Hs.
  rewrite Forall_forall in Hv. apply Forall_forall. intros v Hin. split; [|by apply Hs].
  destruct (Hv v Hin) as [Hl _]. lia.
Qed.

Lemma scalar_count (vectors : list (list float32)) (dimension : nat) :
  Forall (λ v, length v = dimension ∧ Forall scalar_ok v) vectors →
  length (concat vectors) = length vectors * dimension ∧ Forall scalar_ok (concat vectors).
Proof.
  induction 1 as [|v l [Hl Hv] Hrest [IH1 IH2]]; [by split|]. cbn [concat length]. rewrite length_app, IH1, Hl.
  split; [lia|]. by apply Forall_app.
Qed.

Lemma decodeVectorSetV1_layout set bounds :
  valid_set set → stored set → within bounds set → decodeVectorSetV1 (layout set) bounds = Ok set.
Proof.
  intros Hv Hs [Hb1 Hb2]. pose proof Hv as [H1 H2 H3 H4 H5 Hk Hc H6 Hid Hnd _].
  destruct (identities_split set Hv) as (Hi1 & Hi2 & Hil). pose proof (stored_rows set Hv Hs) as Hrows.
  destruct (scalar_count _ _ Hrows) as [Hcount Hscalars].
  pose proof (digest_string_ok _ H1). pose proof (metric_string_ok _ H2). pose proof (normalization_string_ok _ H3).
  unfold decodeVectorSetV1, layout, maxEmbeddingDimensions, maxEmbeddingBatchItems in *. rewrite take_app_length, drop_app_length, bool_decide_eq_true_2 by done.
  cbn [check mbind result_bind]. rewrite (proj1 readUint32_decodes) by done. cbn [mbind result_bind Z.eqb].
  change (vectorSetV1Version =? vectorSetV1Version)%Z with true. cbn [check mbind result_bind].
  rewrite !(proj1 readString_decodes) by done. cbn [mbind result_bind].
  rewrite (proj1 readString_decodes) by done. cbn [mbind result_bind].
  rewrite (proj1 readString_decodes) by done. cbn [mbind result_bind].
  rewrite H1, H2, H3. cbn [andb check mbind result_bind].
  rewrite (proj1 readUint32_decodes) by (unfold uint32_ok; lia). cbn [mbind result_bind].
  rewrite (proj1 readUint32_decodes) by (unfold uint32_ok; lia). cbn [mbind result_bind].
  rewrite !(proj2 (Z.eqb_neq _ _)), !(proj2 (Z.ltb_ge _ _)), (proj2 (Z.leb_le _ _)) by lia.
  cbn [orb negb check mbind result_bind].
  rewrite Nat2Z.id, Z2Nat.inj_mul, Nat2Z.id by lia.
  assert (∀ r, preflight_identities (length (Vectors set)) ∅ (concat (frame2 <$> identities set) ++ r) = Ok r)
    as Hpre.
  { intros r. rewrite <- Hil. apply preflight_identities_frames; [done|by rewrite Hi1|].
    apply Forall_forall. intros k _. apply not_elem_of_empty. }
  unfold preflightVectorMetadata. rewrite Hpre. cbn [mbind result_bind].
  pose proof (proj1 (read_many_decodes _ _ _ (length (Vectors set) * Z.to_nat (Dimension set)) readScalar_decodes)
    (concat (Vectors set)) [] (conj Hcount Hscalars)) as Hsc. cbv beta in Hsc. rewrite app_nil_r in Hsc.
  rewrite Hsc. cbn [mbind result_bind length Nat.eqb check].
  rewrite (proj1 (read_many_decodes _ _ _ (length (Vectors set)) readIdentity_decodes)) by done.
  cbn [mbind result_bind].
  pose proof (proj1 (read_vectors_decodes (length (Vectors set)) (Z.to_nat (Dimension set)))
    (Vectors set) [] (conj eq_refl Hrows)) as Hvs. cbv beta in Hvs. rewrite app_nil_r in Hvs.
  rewrite Hvs. cbn [mbind result_bind length Nat.eqb check]. rewrite Hi1, Hi2.
  assert (mkVectorSet (VectorSpaceFingerprint set) (Metric set) (Normalization set) (Dimension set)
    (InputKeys set) (InputChecksums set) (Vectors set) = set) as -> by (by destruct set).
  by rewrite (proj2 (validateVectorSetV1_iff set) Hv).
Qed.

Lemma decodeVectorSetV1_inv encoded bounds set :
  decodeVectorSetV1 encoded bounds = Ok set →
  valid_set set ∧ stored set ∧ within bounds set ∧ encoded = layout set.
Proof.
  unfold decodeVectorSetV1. intros (u1 & Hm%check_Ok_iff%bool_decide_eq_true & H)%bind_Ok_iff.
  apply bind_Ok_iff in H as ([version r1] & Hr1 & H). apply bind_Ok_iff in H as (u2 & Hver%check_Ok_iff%Z.eqb_eq & H).
  apply bind_Ok_iff in H as ([space r2] & Hr2 & H). apply bind_Ok_iff in H as ([metric r3] & Hr3 & H).
  apply bind_Ok_iff in H as ([normalization r4] & Hr4 & H).
  apply bind_Ok_iff in H as (u3 & _ & H). apply bind_Ok_iff in H as (u4 & _ & H).
  apply bind_Ok_iff in H as ([rows r5] & Hr5 & H). apply bind_Ok_iff in H as ([dimension r6] & Hr6 & H).
  apply bind_Ok_iff in H as (u5 & Hrows%check_Ok_iff & H). apply bind_Ok_iff in H as (u6 & Hdim%check_Ok_iff & H).
  apply bind_Ok_iff in H as (u7 & _ & H). apply bind_Ok_iff in H as (u8 & _ & H).
  apply bind_Ok_iff in H as ([ids r7] & Hr7 & H). apply bind_Ok_iff in H as ([vectors r8] & Hr8 & H).
  apply bind_Ok_iff in H as (u9 & Hend%check_Ok_iff%Nat.eqb_eq & H).
  apply bind_Ok_iff in H as ([] & Hv%validateVectorSetV1_iff & [= <-]).
  apply (proj2 readUint32_decodes) in Hr1 as [_ Hr1], Hr5 as [Hu5 ->], Hr6 as [Hu6 ->].
  apply (proj2 readString_decodes) in Hr2 as [_ ->], Hr3 as [_ ->], Hr4 as [_ ->].
  apply (proj2 (read_many_decodes _ _ _ _ readIdentity_decodes)) in Hr7 as [[Hlen _] ->].
  apply (proj2 (read_vectors_decodes _ _)) in Hr8 as [[Hvl Hvs] ->]. destruct r8 as [|]; [|done].
  unfold uint32_ok in *. rewrite negb_true_iff, !orb_false_iff, !Z.eqb_neq, !Z.ltb_ge in Hrows, Hdim.
  split_and!; [done| | |].
  - unfold stored. cbn [Vectors]. eapply Forall_impl; [exact Hvs|]. by intros v [_ ?].
  - unfold within. cbn [Vectors Dimension]. lia.
  - unfold layout, identities. cbn [VectorSpaceFingerprint Metric Normalization Dimension InputKeys InputChecksums Vectors].
    rewrite zip_fst_snd, Hvl, Z2Nat.id by lia. rewrite <- (take_drop (length vectorSetV1Magic) encoded), Hm, Hr1, Hver.
    by rewrite app_nil_r.
Qed.

(** ** Encoding and decoding *)

Lemma canonical_set_valid set : valid_set set → valid_set (canonical_set set).
Proof.
  intros [H1 H2 H3 H4 H5 Hk Hc H6 Hid Hnd Hv].
  constructor; cbn [canonical_set VectorSpaceFingerprint Metric Normalization Dimension InputKeys InputChecksums
    Vectors]; rewrite ?length_map; try done.
  apply Forall_fmap. eapply Forall_impl; [exact Hv|]. intros v [Hl Hf]. cbn. rewrite length_map.
  split; [done|]. apply Forall_fmap. eapply Forall_impl; [exact Hf|]. intros b Hb. cbn.
  by rewrite f32_canonical_finite.
Qed.

Lemma canonical_set_stored set : valid_set set → words set → stored (canonical_set set).
Proof.
  intros [_ _ _ _ _ _ _ _ _ _ Hv] Hw. unfold stored, words in *. cbn [canonical_set Vectors].
  apply Forall_fmap. rewrite Forall_forall in Hw. rewrite Forall_forall in Hv. apply Forall_forall.
  intros v Hin. destruct (Hv v Hin) as [_ Hf]. specialize (Hw v Hin). cbn. apply Forall_fmap.
  rewrite Forall_forall in Hw. rewrite Forall_forall in Hf. apply Forall_forall. intros b Hb. cbn.
  split_and!; [by apply f32_canonical_range, Hw|rewrite f32_canonical_finite; by apply Hf|
    apply f32_canonical_idem].
Qed.

Lemma canonical_set_id set : stored set → canonical_set set = set.
Proof.
  intros Hs. destruct set as [a b c d e f vectors]. unfold canonical_set, stored in *. cbn in *. f_equal.
  induction Hs as [|v l Hv Hs IH]; [done|]. cbn [map]. rewrite IH. f_equal. clear -Hv.
  induction Hv as [|x v (_ & _ & Hx) Hv IH]; [done|]. cbn [map]. by rewrite Hx, IH.
Qed.

(** C38: A stored vector set reads back as it was written: for every set the
    encoder accepts, decoding its bytes within bounds gives the set, its
    negative zeros turned into zeros, and the checksum that names it. *)
Theorem DecodeVectorSetV1_EncodeVectorSetV1 `{Sha256} set encoded id bounds :
  words set → EncodeVectorSetV1 set = Ok (encoded, id) → within bounds set →
  (Z.of_nat (length encoded) <= MaxBytes bounds)%Z →
  DecodeVectorSetV1 encoded bounds = Ok (canonical_set set, id).
Proof.
  intros Hw He [Hb1 Hb2] Hb3. pose proof (EncodeVectorSetV1_valid _ _ He) as Hv.
  rewrite (EncodeVectorSetV1_layout _ Hv) in He. injection He as <- <-.
  pose proof Hv as [_ _ _ Hd Hr _ _ _ _ _ _]. unfold DecodeVectorSetV1.
  assert (1 <= MaxBytes bounds)%Z.
  { unfold layout, vectorSetV1Magic in Hb3. rewrite !length_app in Hb3. cbn [length] in Hb3. lia. }
  rewrite !(proj2 (Z.leb_le _ _)) by lia. cbn [andb check mbind result_bind].
  rewrite decodeVectorSetV1_layout; [done|by apply canonical_set_valid|by apply canonical_set_stored|].
  unfold within. cbn [canonical_set Vectors Dimension]. by rewrite length_map.
Qed.

(** A vector set has one representation: bytes that decode are exactly the
    bytes that encoding the decoded set gives, with the same checksum; so no
    two payloads stand for one set. *)
Theorem EncodeVectorSetV1_DecodeVectorSetV1 `{Sha256} encoded bounds set id :
  DecodeVectorSetV1 encoded bounds = Ok (set, id) →
  EncodeVectorSetV1 set = Ok (encoded, id) ∧ within bounds set ∧
  (Z.of_nat (length encoded) <= MaxBytes bounds)%Z.
Proof.
  unfold DecodeVectorSetV1. intros (u & _ & Hd)%bind_Ok_iff.
  apply bind_Ok_iff in Hd as (u' & Hl%check_Ok_iff%Z.leb_le & Hd).
  apply bind_Ok_iff in Hd as (s & (Hv & Hs & Hw & ->)%decodeVectorSetV1_inv & [= -> <-]).
  split_and!; [|done|done]. by rewrite (EncodeVectorSetV1_layout _ Hv), (canonical_set_id _ Hs).
Qed.

(** ** Witnesses *)

Module StoredSet.

Definition digest : string := String.string_of_list_ascii (replicate 64 "a"%char).
Definition bounds : VectorBounds := mkVectorBounds 10 10 4096.
(** One row: one half and a negative zero. *)
Definition set : VectorSetV1 :=
  mkVectorSet digest VectorMetricCosine VectorNormalizationNone 2 ["k"] [digest]
    [[0x3F000000; 0x80000000]%Z].
Definition encoded : bytes := Eval vm_compute in layout (canonical_set set).
Definition id : string := Eval vm_compute in vectorSetChecksum encoded.

Lemma set_encoded : EncodeVectorSetV1 set = Ok (encoded, id).
Proof. vm_compute. reflexivity. Qed.
Lemma canonical_encoded : DecodeVectorSetV1 encoded bounds = Ok (canonical_set set, id).
Proof. vm_compute. reflexivity. Qed.
Lemma set_words : words set.
Proof. repeat constructor; vm_compute; discriminate || reflexivity. Qed.

Lemma DecodeVectorSetV1_EncodeVectorSetV1_witness :
  DecodeVectorSetV1 encoded bounds = Ok (canonical_set set, id).
Proof.
  refine (DecodeVectorSetV1_EncodeVectorSetV1 set encoded id bounds set_words set_encoded _ _).
  - split; vm_compute; discriminate.
  - vm_compute. discriminate.
Defined.

Lemma EncodeVectorSetV1_DecodeVectorSetV1_witness :
  EncodeVectorSetV1 (canonical_set set) = Ok (encoded, id).
Proof.
  exact (proj1 (EncodeVectorSetV1_DecodeVectorSetV1 encoded bounds (canonical_set set) id canonical_encoded)).
Defined.

End StoredSet.
