(* ===== verification/VectorIndex.v ===== *)
(** * The exact vector index (internal/vectorindex/generation.go)

    A disposable projection of canonical vector sets: built from the sets a
    manifest names, encoded with a header that frames its sections, opened
    again with every byte validated, and searched exhaustively.  A [uint64] is
    a [Z] below [2^64]; the additions and products that could overflow are the
    checked ones of the source. *)
From Stdlib Require Import Floats.SpecFloat.
From stdpp Require Import sorting.
From S2P Require Import Prelude GoText Sha256 AuditEncoding Identity ModelInput Chunking LittleEndian Heap VectorSet.

Inductive index_error := ErrIndex | IndexPanic.
Notation ires := (result index_error).

Definition generationDomain : bytes := bs "docbank-vector-index/v1" ++ ["000"%char].
Definition generationVersion : Z := 1.
Definition generationLayout : string := "exact-row-major-f32le/v1".
Definition generationChecksumBytes : Z := 32.
Definition maxIdentityBytes : Z := 2 ^ 16.
Definition defaultMaxRows : Z := 1000000.
Definition defaultMaxDimension : Z := 1048576.
Definition defaultMaxBytes : Z := 512 * 2 ^ 20.
Definition generationHeaderSize : Z := Z.of_nat (length generationDomain) + 4 + 4 + 8 * 6 + 4.

Record Manifest := mkManifest { Manifest_Checksum : string; SetIDs : list string }.
Record Options := mkOptions { opt_MaxRows : Z; opt_MaxDimension : Z; opt_MaxBytes : Z }.
Record RowIdentity := mkRow { SetID : string; InputKey : string; InputChecksum : string }.
#[export] Instance RowIdentity_eq_dec : EqDecision RowIdentity.
Proof. solve_decision. Defined.

Record Neighbor := mkNeighbor { nb_Row : RowIdentity; nb_Score : spec_float; nb_Distance : spec_float }.

Record generationSections := mkSections {
  metadataOffset : Z; metadataLength : Z; vectorOffset : Z; vectorLength : Z;
  checksumOffset : Z; totalLength : Z;
}.

(** [vectors] is the flat row-major array. *)
Record Generation := mkGeneration {
  g_manifest : Manifest;
  g_vectorSpaceID : string;
  g_metric : string;
  g_normalization : string;
  g_dimension : Z;
  g_rows : list RowIdentity;
  g_vectors : list float32;
  g_sections : generationSections;
}.

(** [data[i:j]].  Go panics when the bounds cross or lie behind the capacity;
    here already when they lie behind the length, so what does not panic here
    does not panic there, and reads no byte behind the slice. *)
Definition subslice {A} (data : list A) (i j : Z) : ires (list A) :=
  if ((0 <=? i) && (i <=? j) && (j <=? Z.of_nat (length data)))%Z
  then Ok (take (Z.to_nat (j - i)) (drop (Z.to_nat i) data)) else Err IndexPanic.

(** [generation.vector(row)] *)
Definition vector (g : Generation) (row : nat) : ires (list float32) :=
  let start := (Z.of_nat row * g_dimension g)%Z in
  subslice (g_vectors g) start (start + g_dimension g).

(** ** Checks *)

Definition validNormalization (normalization : string) : bool :=
  String.eqb normalization VectorNormalizationNone
  || String.eqb normalization VectorNormalizationUnitLength.
(** [validFingerprint] ranges over runes, of which only the sixty-four ASCII
    ones it accepts can fill the length. *)
Definition validFingerprint (value : string) : bool := IsSHA256Hex value.
Definition validIdentity (value : string) : bool :=
  negb (String.eqb value "") && (Z.of_nat (slen value) <=? maxIdentityBytes)%Z && ValidString value.

Definition normalizeOptions (options : Options) : ires Options :=
  _ ← check (negb ((opt_MaxRows options <? 0) || (opt_MaxDimension options <? 0)
                   || (opt_MaxBytes options <? 0)))%Z ErrIndex;
  let or_default (value default : Z) := if (value =? 0)%Z then default else value in
  let options := mkOptions (or_default (opt_MaxRows options) defaultMaxRows)
                   (or_default (opt_MaxDimension options) defaultMaxDimension)
                   (or_default (opt_MaxBytes options) defaultMaxBytes) in
  _ ← check (negb ((defaultMaxRows <? opt_MaxRows options)
                   || (defaultMaxDimension <? opt_MaxDimension options)
                   || (defaultMaxBytes <? opt_MaxBytes options)))%Z ErrIndex;
  Ok options.

Definition newline : ascii := "010"%char.
Definition manifestChecksum `{Sha256} (setIDs : list string) : string :=
  sha256Hex (of_bytes (concat ((λ setID, bs setID ++ [newline]) <$> setIDs))).

(** Strictly ascending as Go compares strings. *)
Definition string_lt (x y : string) : bool := bool_decide (String.le x y) && negb (String.eqb x y).

Fixpoint check_members (previous : option string) (setIDs : list string) : ires () :=
  match setIDs with
  | [] => Ok ()
  | setID :: rest =>
      _ ← check (validFingerprint setID) ErrIndex;
      _ ← check (match previous with Some p => string_lt p setID | None => true end) ErrIndex;
      check_members (Some setID) rest
  end.

Definition validateManifest `{Sha256} (manifest : Manifest) : ires () :=
  _ ← check (negb (length (SetIDs manifest) =? 0)%nat
             && (Z.of_nat (length (SetIDs manifest)) <=? defaultMaxRows)%Z) ErrIndex;
  _ ← check_members None (SetIDs manifest);
  check (validFingerprint (Manifest_Checksum manifest)
         && String.eqb (Manifest_Checksum manifest) (manifestChecksum (SetIDs manifest))) ErrIndex.

Definition NewManifest `{Sha256} (setIDs : list string) : ires Manifest :=
  let canonical := merge_sort String.le setIDs in
  let manifest := mkManifest (manifestChecksum canonical) canonical in
  _ ← validateManifest manifest;
  Ok manifest.

(** ** Metrics *)

Definition f64_add : spec_float → spec_float → spec_float := SFadd 53 1024.
Definition f64_sub : spec_float → spec_float → spec_float := SFsub 53 1024.
Definition f64_mul : spec_float → spec_float → spec_float := SFmul 53 1024.
Definition f64_div : spec_float → spec_float → spec_float := SFdiv 53 1024.
Definition f64_sqrt : spec_float → spec_float := SFsqrt 53 1024.
Definition f64_zero : spec_float := S754_zero false.
Definition f64_one : spec_float := binary_normalize 53 1024 1 0 false.
(** The constant [1e-4], rounded to the nearest float64. *)
Definition f64_tolerance : spec_float := S754_finite false 7378697629483821 (-66).

Example f64_tolerance_nearest :
  f64_tolerance = f64_div f64_one (binary_normalize 53 1024 10000 0 false).
Proof. reflexivity. Qed.

Definition square_sum (vector : list float32) : spec_float :=
  fold_left (λ sum value, f64_add sum (f64_mul (float64_of_float32 value) (float64_of_float32 value)))
    vector f64_zero.

Definition validateMetricVector (metric normalization : string) (vector : list float32) : ires () :=
  _ ← check (IsValidVectorMetric metric && validNormalization normalization) ErrIndex;
  _ ← check (forallb f32_finite vector) ErrIndex;
  let normSquared := square_sum vector in
  _ ← check (negb (String.eqb metric VectorMetricCosine && SFeqb normSquared f64_zero)) ErrIndex;
  check (negb (String.eqb normalization VectorNormalizationUnitLength
               && SFltb f64_tolerance (SFabs (f64_sub (f64_sqrt normSquared) f64_one)))) ErrIndex.

Definition products (left right : list float32) : list (spec_float * spec_float) :=
  zip_with (λ l r, (float64_of_float32 l, float64_of_float32 r)) left right.

Definition dot (left right : list float32) : spec_float :=
  fold_left (λ sum p, f64_add sum (f64_mul p.1 p.2)) (products left right) f64_zero.

Definition cosine (left right : list float32) : spec_float :=
  let '(dotProduct, leftNorm, rightNorm) :=
    fold_left (λ acc p,
      let '(d, l, r) := acc in
      (f64_add d (f64_mul p.1 p.2), f64_add l (f64_mul p.1 p.1), f64_add r (f64_mul p.2 p.2)))
      (products left right) (f64_zero, f64_zero, f64_zero) in
  f64_div dotProduct (f64_mul (f64_sqrt leftNorm) (f64_sqrt rightNorm)).

Definition euclidean (left right : list float32) : spec_float :=
  f64_sqrt (fold_left (λ sum p, let delta := f64_sub p.1 p.2 in f64_add sum (f64_mul delta delta))
              (products left right) f64_zero).

(** ** Sections *)

Definition checkedAdd (left right : Z) : option Z :=
  if (2 ^ 64 - 1 - right <? left)%Z then None else Some (left + right)%Z.

Definition checkedProduct (values : list Z) : option Z :=
  fold_left (λ result value,
    result ← result;
    if negb (value =? 0)%Z && ((2 ^ 64 - 1) / value <? result)%Z then None
    else Some (result * value)%Z) values (Some 1%Z).

(** Go computes all four sums before it looks at their flags; a failed one is
    zero in the next. *)
Definition computeSections (metadataLength rows dimension maxBytes : Z) : ires generationSections :=
  _ ← check ((1 <=? rows) && (rows <=? defaultMaxRows) && (1 <=? dimension)
             && (dimension <=? defaultMaxDimension))%Z ErrIndex;
  _ ← check ((1 <=? maxBytes) && (maxBytes <=? defaultMaxBytes))%Z ErrIndex;
  let vectorLength := checkedProduct [rows; dimension; 4%Z] in
  let vectorOffset := checkedAdd generationHeaderSize metadataLength in
  let checksumOffset := checkedAdd (default 0%Z vectorOffset) (default 0%Z vectorLength) in
  let totalLength := checkedAdd (default 0%Z checksumOffset) generationChecksumBytes in
  match vectorLength, vectorOffset, checksumOffset, totalLength with
  | Some vl, Some vo, Some co, Some total =>
      _ ← check (total <=? maxBytes)%Z ErrIndex;
      Ok (mkSections generationHeaderSize metadataLength vo vl co total)
  | _, _, _, _ => Err ErrIndex
  end.

Definition addFramedIdentityLength (total length_ : Z) : ires Z :=
  _ ← check ((1 <=? length_) && (length_ <=? maxIdentityBytes))%Z ErrIndex;
  framed ← from_lookup (checkedAdd 4 length_) ErrIndex;
  from_lookup (checkedAdd total framed) ErrIndex.

Definition addFramedStringLength (total : Z) (value : string) : ires Z :=
  _ ← check (validIdentity value) ErrIndex;
  addFramedIdentityLength total (Z.of_nat (slen value)).

(** ** Building *)

Record buildProjection := mkProjection {
  p_space : string; p_metric : string; p_normalization : string;
  p_dimension : Z; p_rowCount : Z; p_metadataLength : Z;
}.

(** One row of the preflight. *)
Definition preflight_index_row (set : VectorSetV1) (total : Z)
    (row : string * string * list float32) : ires Z :=
  let '(key, checksum, vector) := row in
  _ ← check (Z.of_nat (length vector) =? Dimension set)%Z ErrIndex;
  _ ← check (validIdentity key && validFingerprint checksum) ErrIndex;
  _ ← validateMetricVector (Metric set) (Normalization set) vector;
  total ← addFramedIdentityLength total 64;
  total ← addFramedStringLength total key;
  addFramedStringLength total checksum.

Definition preflight_set (bounds : Options) (first : bool) (projection : buildProjection)
    (set : VectorSetV1) : ires buildProjection :=
  _ ← check (validFingerprint (VectorSpaceFingerprint set) && IsValidVectorMetric (Metric set)
             && validNormalization (Normalization set)) ErrIndex;
  _ ← check ((1 <=? Dimension set) && (Dimension set <=? opt_MaxDimension bounds))%Z ErrIndex;
  let rows := length (Vectors set) in
  _ ← check (negb (rows =? 0)%nat && (length (InputKeys set) =? rows)%nat
             && (length (InputChecksums set) =? rows)%nat
             && (Z.of_nat rows <=? opt_MaxRows bounds - p_rowCount projection)%Z) ErrIndex;
  projection ← (if first then
                  Ok (mkProjection (VectorSpaceFingerprint set) (Metric set) (Normalization set)
                        (Dimension set) (p_rowCount projection) (p_metadataLength projection))
                else
                  _ ← check (String.eqb (VectorSpaceFingerprint set) (p_space projection)
                             && String.eqb (Metric set) (p_metric projection)
                             && String.eqb (Normalization set) (p_normalization projection)
                             && (Dimension set =? p_dimension projection)%Z) ErrIndex;
                  Ok projection);
  total ← foldM (preflight_index_row set) (p_metadataLength projection)
            (zip3 (InputKeys set) (InputChecksums set) (Vectors set));
  Ok (mkProjection (p_space projection) (p_metric projection) (p_normalization projection)
        (p_dimension projection) (p_rowCount projection + Z.of_nat rows) total).

Fixpoint preflight_sets (bounds : Options) (first : bool) (projection : buildProjection)
    (sets : list VectorSetV1) : ires buildProjection :=
  match sets with
  | [] => Ok projection
  | set :: sets =>
      projection ← preflight_set bounds first projection set;
      preflight_sets bounds false projection sets
  end.

Definition preflightBuildProjection (manifest : Manifest) (sets : list VectorSetV1) (bounds : Options) :
    ires (buildProjection * generationSections) :=
  projection ← preflight_sets bounds true (mkProjection "" "" "" 0 0 0) sets;
  _ ← check (negb (p_rowCount projection =? 0)%Z) ErrIndex;
  total ← foldM addFramedStringLength (p_metadataLength projection)
            [generationLayout; Manifest_Checksum manifest; p_space projection; p_metric projection;
             p_normalization projection];
  sections ← computeSections total (p_rowCount projection) (p_dimension projection) (opt_MaxBytes bounds);
  Ok (projection, sections).

(** [EncodeVectorSetV1] as this package calls it: only the identity is used. *)
Definition set_identity `{Sha256} (set : VectorSetV1) : ires string :=
  match EncodeVectorSetV1 set with Ok (_, id) => Ok id | Err _ => Err ErrIndex end.

Definition index_set `{Sha256} (byID : gmap string VectorSetV1) (set : VectorSetV1) :
    ires (gmap string VectorSetV1) :=
  id ← set_identity set;
  _ ← check (bool_decide (byID !! id = None)) ErrIndex;
  Ok (<[id := set]> byID).

(** The rows and scalars one member contributes. *)
Definition member_rows (setID : string) (set : VectorSetV1) : list RowIdentity :=
  zip_with (mkRow setID) (InputKeys set) (InputChecksums set).

Definition append_member (byID : gmap string VectorSetV1) (st : list RowIdentity * list float32)
    (setID : string) : ires (list RowIdentity * list float32) :=
  set ← from_lookup (byID !! setID) ErrIndex;
  Ok (st.1 ++ member_rows setID set, st.2 ++ concat (Vectors set)).

Definition BuildGeneration `{Sha256} (manifest : Manifest) (sets : list VectorSetV1) (options : Options) :
    ires Generation :=
  bounds ← normalizeOptions options;
  _ ← validateManifest manifest;
  _ ← check (length sets =? length (SetIDs manifest))%nat ErrIndex;
  '(projection, sections) ← preflightBuildProjection manifest sets bounds;
  byID ← foldM index_set ∅ sets;
  '(rows, vectors) ← foldM (append_member byID) ([], []) (SetIDs manifest);
  Ok (mkGeneration manifest (p_space projection) (p_metric projection) (p_normalization projection)
        (p_dimension projection) rows vectors sections).

(** ** Encoding *)

Definition generationChecksum `{Sha256} (data : bytes) : bytes := Sum256 (generationDomain ++ data).

(** [appendString]: the [uint32] conversion of the length wraps. *)
Definition appendString (value : string) : bytes :=
  AppendUint32 (Z.of_nat (slen value)) ++ bs value.

Definition row_strings (row : RowIdentity) : list string := [SetID row; InputKey row; InputChecksum row].

Definition index_metadata (g : Generation) : bytes :=
  concat (appendString <$> [generationLayout; Manifest_Checksum (g_manifest g); g_vectorSpaceID g;
                            g_metric g; g_normalization g])
  ++ concat (appendString <$> concat (row_strings <$> g_rows g)).

Definition encodeGeneration `{Sha256} (g : Generation) : bytes :=
  let s := g_sections g in
  let output :=
    generationDomain ++ AppendUint32 generationVersion ++ AppendUint32 generationHeaderSize
    ++ concat (AppendUint64 <$> [metadataOffset s; metadataLength s; vectorOffset s; vectorLength s;
                                 checksumOffset s; Z.of_nat (length (g_rows g))])
    ++ AppendUint32 (g_dimension g)
    ++ index_metadata g
    ++ concat ((λ value, AppendUint32 (f32_canonical value)) <$> g_vectors g) in
  output ++ generationChecksum output.

(** [nil] for a generation without rows. *)
Definition Bytes `{Sha256} (g : Generation) : bytes :=
  if (length (g_rows g) =? 0)%nat then [] else encodeGeneration g.

(** ** Decoding *)

(** [binary.LittleEndian.Uint32(data[i:])], and of eight bytes. *)
Definition read_word (bytes : Z) (data : list ascii) (i : Z) : ires Z :=
  word ← subslice data i (i + bytes); Ok (le_value word).

Definition decodeHeader `{Sha256} (encoded : bytes) : ires (generationSections * Z * Z) :=
  _ ← check (generationHeaderSize + generationChecksumBytes <=? Z.of_nat (length encoded))%Z ErrIndex;
  let domain := Z.of_nat (length generationDomain) in
  prefix ← subslice encoded 0 domain;
  _ ← check (bool_decide (prefix = generationDomain)) ErrIndex;
  header ← subslice encoded domain generationHeaderSize;
  version ← read_word 4 header 0;
  _ ← check (version =? generationVersion)%Z ErrIndex;
  size ← read_word 4 header 4;
  _ ← check (size =? generationHeaderSize)%Z ErrIndex;
  fields ← subslice header 8 (Z.of_nat (length header));
  rowCount ← read_word 8 fields 40;
  dimension ← read_word 4 fields 48;
  _ ← check (negb ((rowCount =? 0) || (defaultMaxRows <? rowCount) || (dimension =? 0)
                   || (defaultMaxDimension <? dimension)))%Z ErrIndex;
  metadataLen ← read_word 8 fields 8;
  sections ← computeSections metadataLen rowCount dimension defaultMaxBytes;
  _ ← check (negb (metadataLen =? 0)%Z) ErrIndex;
  f0 ← read_word 8 fields 0;
  f2 ← read_word 8 fields 16;
  f3 ← read_word 8 fields 24;
  f4 ← read_word 8 fields 32;
  _ ← check ((metadataOffset sections =? f0) && (vectorOffset sections =? f2)
             && (vectorLength sections =? f3) && (checksumOffset sections =? f4)
             && (totalLength sections =? Z.of_nat (length encoded)))%Z ErrIndex;
  body ← subslice encoded 0 (checksumOffset sections);
  stored ← subslice encoded (checksumOffset sections) (Z.of_nat (length encoded));
  _ ← check (bool_decide (generationChecksum body = stored)) ErrIndex;
  Ok (sections, rowCount, dimension).

Definition read_index_string (data : bytes) : ires (string * bytes) :=
  _ ← check (4 <=? length data)%nat ErrIndex;
  length_ ← read_word 4 data 0;
  data ← subslice data 4 (Z.of_nat (length data));
  _ ← check (negb ((length_ =? 0) || (maxIdentityBytes <? length_)
                   || (Z.of_nat (length data) <? length_)))%Z ErrIndex;
  value ← subslice data 0 length_;
  _ ← check (ValidString (of_bytes value)) ErrIndex;
  remaining ← subslice data length_ (Z.of_nat (length data));
  Ok (of_bytes value, remaining).

(** The loop over the rows: the logical rows seen, and the last set. *)
Record row_state := mkRowState {
  seenRows : gset (string * string);
  rs_setIDs : list string;
}.

Definition accept_row (st : row_state) (row : RowIdentity) : ires row_state :=
  _ ← check (bool_decide ((SetID row, InputKey row) ∉ seenRows st)) ErrIndex;
  let seenRows := {[(SetID row, InputKey row)]} ∪ seenRows st in
  match last (rs_setIDs st) with
  | Some previous =>
      if String.eqb previous (SetID row) then Ok (mkRowState seenRows (rs_setIDs st))
      else
        _ ← check (string_lt previous (SetID row)) ErrIndex;
        Ok (mkRowState seenRows (rs_setIDs st ++ [SetID row]))
  | None => Ok (mkRowState seenRows (rs_setIDs st ++ [SetID row]))
  end.

Definition read_row (data : bytes) : ires (RowIdentity * bytes) :=
  '(setID, data) ← read_index_string data;
  _ ← check (validFingerprint setID) ErrIndex;
  '(inputKey, data) ← read_index_string data;
  _ ← check (validIdentity inputKey) ErrIndex;
  '(inputChecksum, data) ← read_index_string data;
  _ ← check (validFingerprint inputChecksum) ErrIndex;
  Ok (mkRow setID inputKey inputChecksum, data).

Fixpoint read_rows (count : nat) (st : row_state) (data : bytes) :
    ires (list RowIdentity * row_state * bytes) :=
  match count with
  | 0 => Ok ([], st, data)
  | S count =>
      '(row, data) ← read_row data;
      st ← accept_row st row;
      '(rows, st, data) ← read_rows count st data;
      Ok (row :: rows, st, data)
  end.

Record index_description := mkDescription {
  d_checksum : string; d_space : string; d_metric : string; d_normalization : string;
}.

Definition read_checked (accepts : string → bool) (data : bytes) : ires (string * bytes) :=
  '(value, data) ← read_index_string data;
  _ ← check (accepts value) ErrIndex;
  Ok (value, data).

Definition decodeMetadata `{Sha256} (metadata : bytes) (rowCount dimension : Z)
    (sections : generationSections) : ires Generation :=
  '(_, data) ← read_checked (String.eqb generationLayout) metadata;
  '(manifestChecksumValue, data) ← read_checked validFingerprint data;
  '(space, data) ← read_checked validFingerprint data;
  '(metric, data) ← read_checked IsValidVectorMetric data;
  '(normalization, data) ← read_checked validNormalization data;
  '(rows, st, data) ← read_rows (Z.to_nat rowCount) (mkRowState ∅ []) data;
  _ ← check (length data =? 0)%nat ErrIndex;
  _ ← check (String.eqb (manifestChecksum (rs_setIDs st)) manifestChecksumValue) ErrIndex;
  Ok (mkGeneration (mkManifest manifestChecksumValue (rs_setIDs st)) space metric normalization
        dimension rows [] sections).

(** The scalars of the vector section, four bytes each. *)
Fixpoint read_scalars (count : nat) (encoded : bytes) : ires (list float32) :=
  match count with
  | 0 => Ok []
  | S count =>
      bits ← read_word 4 encoded 0;
      _ ← check (negb (negb (f32_finite bits) || (f32_is_zero bits && negb (bits =? 0)%Z))) ErrIndex;
      rest ← read_scalars count (drop 4 encoded);
      Ok (bits :: rest)
  end.

Definition with_vectors (g : Generation) (vectors : list float32) : Generation :=
  mkGeneration (g_manifest g) (g_vectorSpaceID g) (g_metric g) (g_normalization g) (g_dimension g)
    (g_rows g) vectors (g_sections g).

Definition decodeVectors (g : Generation) (encoded : bytes) : ires Generation :=
  vectors ← read_scalars (length encoded / 4) encoded;
  let g := with_vectors g vectors in
  _ ← mapR (λ index, v ← vector g index; validateMetricVector (g_metric g) (g_normalization g) v)
        (seq 0 (length (g_rows g)));
  Ok g.

(** The set of the rows from [start] to [end_]. *)
Definition source_set (g : Generation) (start end_ : nat) : ires VectorSetV1 :=
  let rows := take (end_ - start) (drop start (g_rows g)) in
  vectors ← mapR (vector g) (seq start (end_ - start));
  Ok (mkVectorSet (g_vectorSpaceID g) (g_metric g) (g_normalization g) (g_dimension g)
        (InputKey <$> rows) (InputChecksum <$> rows) vectors).

(** How many rows in a row belong to one set. *)
Fixpoint run_length (setID : string) (rows : list RowIdentity) : nat :=
  match rows with
  | row :: rows => if String.eqb (SetID row) setID then S (run_length setID rows) else 0
  | [] => 0
  end.

Fixpoint verify_from `{Sha256} (fuel : nat) (g : Generation) (start : nat) : ires () :=
  match fuel, g_rows g !! start with
  | _, None => Ok ()
  | 0, Some _ => Err IndexPanic
  | S fuel, Some row =>
      let end_ := start + 1 + run_length (SetID row) (drop (start + 1) (g_rows g)) in
      set ← source_set g start end_;
      id ← set_identity set;
      _ ← check (String.eqb id (SetID row)) ErrIndex;
      verify_from fuel g end_
  end.
(** Each round consumes a row. *)
Definition verifySourceSetIdentities `{Sha256} (g : Generation) : ires () :=
  verify_from (length (g_rows g)) g 0.

Definition decodeGeneration `{Sha256} (encoded : bytes) : ires Generation :=
  '(sections, rows, dimension) ← decodeHeader encoded;
  metadata ← subslice encoded (metadataOffset sections) (vectorOffset sections);
  g ← decodeMetadata metadata rows dimension sections;
  vectors ← subslice encoded (vectorOffset sections) (checksumOffset sections);
  g ← decodeVectors g vectors;
  _ ← verifySourceSetIdentities g;
  Ok g.

(** The reader holds the bytes of a file, [size] is what the caller believes
    it to be; a byte behind it, or one missing, is an error.  On a 64-bit
    platform [maxInt] bounds nothing below [defaultMaxBytes]. *)
Definition OpenGeneration `{Sha256} (data : bytes) (size : Z) : ires Generation :=
  _ ← check ((generationHeaderSize + generationChecksumBytes <=? size) && (size <=? defaultMaxBytes))%Z
        ErrIndex;
  _ ← check (Z.of_nat (length data) <=? size)%Z ErrIndex;
  _ ← check (size <=? Z.of_nat (length data))%Z ErrIndex;
  decodeGeneration data.

(** ** Searching *)

Definition compareIdentity (left right : RowIdentity) : comparison :=
  match String.compare (SetID left) (SetID right) with
  | Eq =>
      match String.compare (InputKey left) (InputKey right) with
      | Eq => String.compare (InputChecksum left) (InputChecksum right)
      | c => c
      end
  | c => c
  end.

Definition identity_before (left right : RowIdentity) : bool :=
  match compareIdentity left right with Lt => true | _ => false end.

Definition betterNeighbor (left right : Neighbor) (metric : string) : bool :=
  if String.eqb metric VectorMetricL2 then
    if negb (SFeqb (nb_Distance left) (nb_Distance right))
    then SFltb (nb_Distance left) (nb_Distance right)
    else identity_before (nb_Row left) (nb_Row right)
  else
    if negb (SFeqb (nb_Score left) (nb_Score right))
    then SFltb (nb_Score right) (nb_Score left)
    else identity_before (nb_Row left) (nb_Row right).

Definition neighbor_of (g : Generation) (query : list float32) (index : nat) (row : RowIdentity) : ires Neighbor :=
  if String.eqb (g_metric g) VectorMetricCosine then
    v ← vector g index; Ok (mkNeighbor row (cosine query v) f64_zero)
  else if String.eqb (g_metric g) VectorMetricDotProduct then
    v ← vector g index; Ok (mkNeighbor row (dot query v) f64_zero)
  else if String.eqb (g_metric g) VectorMetricL2 then
    v ← vector g index; Ok (mkNeighbor row f64_zero (euclidean query v))
  else Ok (mkNeighbor row f64_zero f64_zero).

(** The heap's [Less]: the worst neighbor is at the root. *)
Definition heap_less (metric : string) (left right : Neighbor) : bool := betterNeighbor right left metric.

Definition offer (metric : string) (k : nat) (items : list Neighbor) (neighbor : Neighbor) : list Neighbor :=
  if (length items <? k)%nat then heap_push (heap_less metric) items neighbor
  else
    match items with
    | root :: _ =>
        if betterNeighbor neighbor root metric then heap_fix_root (heap_less metric) items neighbor
        else items
    | [] => items
    end.

(** The result is filled from its end. *)
Fixpoint drain (metric : string) (k : nat) (items : list Neighbor) (result : list Neighbor) :
    option (list Neighbor) :=
  match k with
  | 0 => Some result
  | S k =>
      '(neighbor, items) ← heap_pop (heap_less metric) items;
      drain metric k items (neighbor :: result)
  end.

Definition Search (g : Generation) (query : list float32) (k : Z) : ires (list Neighbor) :=
  _ ← check (negb (length (g_rows g) =? 0)%nat) ErrIndex;
  _ ← check ((1 <=? k) && (k <=? Z.of_nat (length (g_rows g))))%Z ErrIndex;
  _ ← check (Z.of_nat (length query) =? g_dimension g)%Z ErrIndex;
  _ ← validateMetricVector (g_metric g) (g_normalization g) query;
  items ← foldM (λ items row, neighbor ← neighbor_of g query row.1 row.2;
                              Ok (offer (g_metric g) (Z.to_nat k) items neighbor))
            [] (imap pair (g_rows g));
  from_lookup (drain (g_metric g) (Z.to_nat k) items []) IndexPanic.

(** ** Shape *)

Record GenerationMetadata := mkGenerationMetadata {
  gm_Format : string; gm_Layout : string; gm_Manifest : Manifest; gm_VectorSpaceID : string;
  gm_Metric : string; gm_Normalization : string; gm_Dimension : Z; gm_RowCount : Z;
}.

Definition Metadata (g : Generation) : GenerationMetadata :=
  mkGenerationMetadata "docbank-vector-index/v1" generationLayout (g_manifest g) (g_vectorSpaceID g)
    (g_metric g) (g_normalization g) (g_dimension g) (Z.of_nat (length (g_rows g))).
