(* ===== verification/VectorSearch.v ===== *)
(** * Exhaustive search (internal/vectorindex/generation.go, Search)

    The bounded heap keeps the [k] best neighbors, and draining it gives them
    best first. *)
From Stdlib Require Import Floats.SpecFloat.
From stdpp Require Import sorting.
From S2P Require Import Prelude GoText LittleEndian Heap VectorSet VectorIndex.

(** ** The order of the measures *)

(** A [float64] other than NaN as a lexicographic key; both zeros have one. *)
Definition sf_rank (x : spec_float) : Z * (Z * Z) :=
  match x with
  | S754_infinity s => ((if s then -2 else 2)%Z, (0%Z, 0%Z))
  | S754_finite s m e => if s then ((-1)%Z, ((- e)%Z, Z.neg m)) else (1%Z, (e, Z.pos m))
  | S754_zero _ | S754_nan => (0%Z, (0%Z, 0%Z))
  end.
Definition rank_compare : Z * (Z * Z) → Z * (Z * Z) → comparison :=
  pair_compare Z.compare (pair_compare Z.compare Z.compare).

Lemma rank_compare_laws : cmp_laws (λ _, True) rank_compare.
Proof. apply pair_total_laws; [|apply pair_total_laws]; apply Z_compare_laws. Qed.
Lemma string_triple_laws :
  cmp_laws (λ _, True) (pair_compare String.compare (pair_compare String.compare String.compare)).
Proof. apply pair_total_laws; [|apply pair_total_laws]; apply string_compare_laws. Qed.

Lemma SFcompare_rank x y :
  x ≠ S754_nan → y ≠ S754_nan → SFcompare x y = Some (rank_compare (sf_rank x) (sf_rank y)).
Proof.
  intros Hx Hy. unfold rank_compare, pair_compare.
  destruct x as [s|s| |s m e], y as [s'|s'| |s' m' e']; try done; destruct s; try done; destruct s'; try done.
  cbn [SFcompare sf_rank fst snd]. change (-1 ?= -1)%Z with Eq. rewrite Z.compare_opp, (Z.compare_antisym e' e).
  destruct (e' ?= e)%Z; reflexivity.
Qed.

Definition measure (metric : string) (n : Neighbor) : spec_float :=
  if String.eqb metric VectorMetricL2 then nb_Distance n else nb_Score n.

Definition row_key (row : RowIdentity) : string * (string * string) :=
  (SetID row, (InputKey row, InputChecksum row)).
Definition neighbor_key (metric : string) (n : Neighbor) : (Z * (Z * Z)) * (string * (string * string)) :=
  (sf_rank (measure metric n), row_key (nb_Row n)).

(** The order [betterNeighbor] decides: [Lt] when the left one is better. *)
Definition neighbor_compare (metric : string) (x y : Neighbor) : comparison :=
  pair_compare (if String.eqb metric VectorMetricL2 then rank_compare else λ p q, rank_compare q p)
    (pair_compare String.compare (pair_compare String.compare String.compare))
    (neighbor_key metric x) (neighbor_key metric y).

Lemma compareIdentity_key x y :
  compareIdentity x y =
  pair_compare String.compare (pair_compare String.compare String.compare) (row_key x) (row_key y).
Proof. reflexivity. Qed.

Lemma betterNeighbor_compare metric x y :
  measure metric x ≠ S754_nan → measure metric y ≠ S754_nan →
  betterNeighbor x y metric = match neighbor_compare metric x y with Lt => true | _ => false end.
Proof.
  unfold betterNeighbor, neighbor_compare, neighbor_key, measure, identity_before, SFeqb, SFltb. intros Hx Hy.
  destruct (String.eqb metric VectorMetricL2); unfold pair_compare at 1; cbn [fst snd].
  - rewrite SFcompare_rank by done. destruct (rank_compare _ _); reflexivity.
  - rewrite !SFcompare_rank by done. rewrite <- compareIdentity_key.
    rewrite (cmp_flip _ _ rank_compare_laws (sf_rank (nb_Score x))) by done. destruct (rank_compare _ _); reflexivity.
Qed.

Section search.
Context (metric : string) (all : list Neighbor).
Context (all_measured : Forall (λ n, measure metric n ≠ S754_nan) all).
Context (rows_distinct : ∀ x y, x ∈ all → y ∈ all → nb_Row x = nb_Row y → x = y).

Let P (n : Neighbor) : Prop := n ∈ all.
Notation better x y := (betterNeighbor x y metric).

Lemma neighbor_compare_laws : cmp_laws P (neighbor_compare metric).
Proof using rows_distinct.
  apply (key_compare_laws (neighbor_key metric) (λ p, True)).
  - apply pair_total_laws; [|apply string_triple_laws].
    destruct (String.eqb metric VectorMetricL2); [|apply flip_compare_laws]; apply rank_compare_laws.
  - done.
  - intros x y Hx Hy Hkey. apply rows_distinct; [done..|].
    unfold neighbor_key, row_key in Hkey. destruct (nb_Row x), (nb_Row y). simpl in Hkey. congruence.
Qed.

Lemma better_spec x y : P x → P y →
  better x y = match neighbor_compare metric x y with Lt => true | _ => false end.
Proof using all_measured.
  rewrite Forall_forall in all_measured. intros Hx Hy. by apply betterNeighbor_compare; apply all_measured.
Qed.

Lemma better_total x y : P x → P y → x ≠ y → better y x = false → better x y = true.
Proof using all_measured rows_distinct.
  destruct neighbor_compare_laws as [_ He Hf _]. intros Hx Hy Hne. rewrite !better_spec by done.
  rewrite (Hf x y) by done. destruct (neighbor_compare metric x y) eqn:H; [|done|done].
  by apply He in H.
Qed.

Lemma better_asymm x y : P x → P y → better x y = true → better y x = false.
Proof using all_measured rows_distinct.
  destruct neighbor_compare_laws as [_ _ Hf _]. intros Hx Hy. rewrite !better_spec by done.
  rewrite (Hf x y) by done. by destruct (neighbor_compare metric x y).
Qed.

(** Not being better is transitive. *)
Lemma not_better_trans x y z :
  P x → P y → P z → better x y = false → better y z = false → better x z = false.
Proof using all_measured rows_distinct.
  destruct neighbor_compare_laws as [Hr He Hf Ht]. intros Hx Hy Hz. rewrite !better_spec by done.
  destruct (neighbor_compare metric x y) eqn:Hxy; [|done|].
  { apply He in Hxy as ->; [done..]. }
  destruct (neighbor_compare metric y z) eqn:Hyz; [|done|].
  { apply He in Hyz as ->; [by rewrite Hxy|done..]. }
  intros _ _. rewrite (Hf z x), (Ht z y x); try done.
  - by rewrite (Hf y z), Hyz.
  - by rewrite (Hf x y), Hxy.
Qed.

Notation heaped := (heap (heap_less metric)).

Lemma less_asymm x y : P x → P y → heap_less metric x y = true → above (heap_less metric) x y.
Proof using all_measured rows_distinct. unfold above, heap_less. intros. by apply better_asymm. Qed.

Lemma above_less_trans x y z : P x → P y → P z →
  above (heap_less metric) x y → above (heap_less metric) y z → above (heap_less metric) x z.
Proof using all_measured rows_distinct. unfold above, heap_less. intros. by eapply (not_better_trans x y z). Qed.

(** ** Offering *)

(** What holds of the kept items once [seen] have been offered. *)
Definition kept (k : nat) (seen items : list Neighbor) : Prop :=
  heaped items ∧
  ∃ rest, items ++ rest ≡ₚ seen ∧ length items = min k (length seen) ∧
    ∀ x y, x ∈ items → y ∈ rest → better y x = false.

Lemma offer_kept k seen items n :
  0 < k → Forall P (n :: seen) → kept k seen items → kept k (n :: seen) (offer metric k items n).
Proof using all_measured rows_distinct.
  intros Hk [Hn Hseen]%Forall_cons (Hheap & rest & Hperm & Hlen & Hbest). unfold offer.
  assert (Forall P (items ++ rest)) as [Hi Hr]%Forall_app by (by rewrite Hperm).
  pose proof (Permutation_length Hperm) as Hl. rewrite length_app in Hl.
  destruct (Nat.ltb_spec (length items) k) as [Hlt|Hge].
  - assert (rest = []) as -> by (destruct rest; [done|simpl in Hl; lia]). rewrite app_nil_r in *.
    destruct (heap_push_spec (heap_less metric) P less_asymm above_less_trans items n) as [Hh Hp];
      [apply Forall_app; split; [done|by repeat constructor]|done|].
    split; [done|]. exists []. rewrite app_nil_r. split_and!.
    + by rewrite Hp, Hperm.
    + rewrite Hp. simpl in *. lia.
    + by intros x y _ ?%elem_of_nil.
  - destruct items as [|root items]; [simpl in *; lia|]. apply Forall_cons in Hi as [Hroot Hi].
    assert (∀ x, x ∈ root :: items → better root x = false) as Hworst.
    { intros x Hx. apply (heap_root (heap_less metric) P less_asymm above_less_trans (root :: items) root x);
        [by constructor|done|done|done]. }
    destruct (better n root) eqn:Hbetter.
    + destruct (heap_fix_root_spec (heap_less metric) P less_asymm above_less_trans items root n) as [Hh Hp];
        [by repeat constructor|done|].
      split; [done|]. exists (root :: rest). split_and!.
      * rewrite Hp, <- Hperm. simpl. f_equiv. by rewrite Permutation_middle.
      * rewrite Hp. simpl in *. lia.
      * intros x y Hx Hy. rewrite Hp in Hx. apply elem_of_cons in Hx as [-> |Hx], Hy as [-> |Hy].
        -- by apply better_asymm.
        -- apply (not_better_trans y root n); [by eapply Forall_forall|done|done|by apply Hbest; [left|]|].
           by apply better_asymm.
        -- apply Hworst. by right.
        -- apply Hbest; [by right|done].
    + split; [done|]. exists (n :: rest). split_and!.
      * rewrite <- Hperm. by rewrite Permutation_middle.
      * simpl in *. lia.
      * intros x y Hx [-> |Hy]%elem_of_cons; [|by apply Hbest].
        apply (not_better_trans n root x); [done|done| |done|by apply Hworst].
        apply elem_of_cons in Hx as [-> |Hx]; [done|by eapply (proj1 (Forall_forall P items) Hi)].
Qed.

Lemma offers_kept k news seen items :
  0 < k → Forall P (news ++ seen) → kept k seen items →
  kept k (rev news ++ seen) (fold_left (offer metric k) news items).
Proof using all_measured rows_distinct.
  intros Hk. revert seen items; induction news as [|n news IH]; intros seen items HP Hkept; [done|].
  cbn [fold_left rev]. rewrite <- app_assoc. cbn [app] in *. apply IH.
  - eapply Permutation_Forall; [|exact HP]. by rewrite Permutation_middle.
  - apply offer_kept; [done| |done]. apply Forall_cons in HP as [HP1 HP]. apply Forall_app in HP as [_ HP].
    by constructor.
Qed.

(** ** Draining *)

Lemma drain_sorted k items result :
  length items = k → NoDup (items ++ result) → Forall P (items ++ result) → heaped items →
  StronglySorted (λ x y, better x y = true) result →
  (∀ x y, x ∈ items → y ∈ result → better x y = true) →
  ∃ sorted, drain metric k items result = Some (sorted ++ result) ∧ sorted ≡ₚ items ∧
    StronglySorted (λ x y, better x y = true) (sorted ++ result).
Proof using all_measured rows_distinct.
  revert items result; induction k as [|k IH]; intros items result Hlen Hnd HP Hheap Hsorted Hbest.
  { destruct items; [|done]. by exists []. }
  destruct items as [|root items]; [done|]. injection Hlen as Hlen. cbn [drain].
  rewrite <- app_comm_cons in HP, Hnd. apply Forall_cons in HP as [Hroot HP].
  pose proof HP as [HPi HPr]%Forall_app. apply NoDup_cons in Hnd as [Hnin Hnd].
  destruct (heap_pop_spec (heap_less metric) P less_asymm above_less_trans items root) as (items' & -> & Hh & Hp);
    [by constructor|done|].
  cbn [mbind option_bind]. destruct (IH items' (root :: result)) as (sorted & Hdrain & Hperm & Hs).
  - by rewrite Hp.
  - rewrite <- Permutation_middle, Hp. by constructor.
  - rewrite <- Permutation_middle, Hp. by constructor.
  - done.
  - constructor; [done|]. apply Forall_forall. intros y Hy. apply Hbest; [by left|done].
  - intros x y Hx Hy. rewrite Hp in Hx. apply elem_of_cons in Hy as [-> |Hy]; [|by apply Hbest; [right|]].
    apply better_total; [by apply (proj1 (Forall_forall P items) HPi)|done| |].
    + intros ->. apply Hnin. apply elem_of_app. by left.
    + apply (heap_root (heap_less metric) P less_asymm above_less_trans (root :: items) root x);
        [by constructor|done|done|by right].
  - exists (sorted ++ [root]). rewrite <- app_assoc. split_and!; [done| |done].
    rewrite Hperm, Hp. by rewrite Permutation_app_comm.
Qed.
End search.

(** The neighbor of every row; [Err] when a row's vector is not there. *)
Definition neighbors (g : Generation) (query : list float32) : ires (list Neighbor) :=
  mapR (λ row, neighbor_of g query row.1 row.2) (imap pair (g_rows g)).

Lemma neighbor_row g query i row n : neighbor_of g query i row = Ok n → nb_Row n = row.
Proof.
  unfold neighbor_of. repeat case_match; try (intros (v & _ & [= <-])%bind_Ok_iff; done). by intros [= <-].
Qed.

Lemma neighbors_rows g query all : neighbors g query = Ok all → nb_Row <$> all = g_rows g.
Proof.
  unfold neighbors. intros Hm%mapR_Forall2.
  assert (snd <$> imap pair (g_rows g) = g_rows g) as <-.
  { apply list_eq. intros i. rewrite list_lookup_fmap, list_lookup_imap. by destruct (g_rows g !! i). }
  induction Hm as [|[i row] n rows all Hn Hm IH]; [done|]. cbn. f_equal; [by eapply neighbor_row|done].
Qed.

Lemma neighbors_distinct g query all :
  NoDup (g_rows g) → neighbors g query = Ok all →
  NoDup all ∧ (∀ x y, x ∈ all → y ∈ all → nb_Row x = nb_Row y → x = y).
Proof.
  intros Hnd Hrows%neighbors_rows.
  split; [by apply (NoDup_fmap_1 nb_Row); rewrite Hrows|].
  intros x y (i & Hi)%list_elem_of_lookup (j & Hj)%list_elem_of_lookup Hxy.
  rewrite <- Hrows in Hnd.
  assert (i = j) as ->; [|congruence].
  apply (NoDup_lookup _ i j (nb_Row x) Hnd); rewrite list_lookup_fmap; [by rewrite Hi|by rewrite Hj, Hxy].
Qed.

(** The loop over the rows offers the neighbors one by one. *)
Lemma offer_rows g query k rows all items :
  mapR (λ row, neighbor_of g query row.1 row.2) rows = Ok all →
  foldM (λ items row, neighbor ← neighbor_of g query row.1 row.2;
                      Ok (offer (g_metric g) k items neighbor)) items rows =
  Ok (fold_left (offer (g_metric g) k) all items).
Proof.
  revert all items; induction rows as [|row rows IH]; intros all items; cbn [mapR foldM]; [by intros [= <-]|].
  intros (n & Hn & (ns & Hns & [= <-])%bind_Ok_iff)%bind_Ok_iff. rewrite Hn. cbn [mbind result_bind fold_left].
  by apply IH.
Qed.

(** Every neighbor is there when the vector section holds every row's. *)
Lemma neighbors_total g query :
  (0 <= g_dimension g)%Z →
  (Z.of_nat (length (g_rows g)) * g_dimension g <= Z.of_nat (length (g_vectors g)))%Z →
  ∃ all, neighbors g query = Ok all.
Proof.
  intros Hd Hv. unfold neighbors.
  assert (∀ rows, (∀ row, row ∈ rows → ∃ n, neighbor_of g query row.1 row.2 = Ok n) →
    ∃ all, mapR (λ row, neighbor_of g query row.1 row.2) rows = Ok all) as Hall.
  { induction rows as [|row rows IH]; intros Hr; [by eexists|]. cbn [mapR].
    destruct (Hr row) as [n ->]; [by left|]. destruct IH as [ns ->]; [intros; apply Hr; by right|].
    by eexists. }
  apply Hall. intros row (i & r & -> & Hi)%elem_of_lookup_imap. cbn [fst snd]. apply lookup_lt_Some in Hi.
  assert (∃ v, vector g i = Ok v) as [v Hvec].
  { unfold vector, subslice. rewrite !(proj2 (Z.leb_le _ _)) by nia. by eexists. }
  unfold neighbor_of. rewrite Hvec. repeat case_match; by eexists.
Qed.

(** C36: an exhaustive search returns exactly the [k] best rows, best first: the
    result and what is left out are together the neighbors of all rows, each
    returned neighbor is strictly better than the next ones and than each row
    left out, and ties of the measure are broken by the row's identity.  Rows
    are distinct, each has its vector, and no measure is NaN. *)
Theorem Search_returns_nearest g query k all :
  NoDup (g_rows g) → neighbors g query = Ok all →
  Forall (λ n, measure (g_metric g) n ≠ S754_nan) all →
  validateMetricVector (g_metric g) (g_normalization g) query = Ok () →
  Z.of_nat (length query) = g_dimension g →
  (1 <= k <= Z.of_nat (length (g_rows g)))%Z →
  ∃ result rest, Search g query k = Ok result ∧
    result ++ rest ≡ₚ all ∧ Z.of_nat (length result) = k ∧
    StronglySorted (λ x y, betterNeighbor x y (g_metric g) = true) result ∧
    (∀ x y, x ∈ result → y ∈ rest → betterNeighbor x y (g_metric g) = true).
Proof.
  intros Hnd Hall Hmeasured Hquery Hdim Hk.
  destruct (neighbors_distinct g query all Hnd Hall) as [Hnd' Hdistinct].
  pose proof (neighbors_rows _ _ _ Hall) as Hrows.
  pose proof (offer_rows g query (Z.to_nat k) _ all [] Hall) as Hoffer. set (metric := g_metric g) in *.
  assert (length all = length (g_rows g)) as Hlen by (by rewrite <- Hrows, length_fmap).
  destruct (offers_kept metric all Hmeasured Hdistinct (Z.to_nat k) all [] []) as (Hheap & rest & Hperm & Hli & Hbest).
  { lia. }
  { rewrite app_nil_r. by apply Forall_forall. }
  { split; [apply heap_nil|]. exists []. split_and!; [done|simpl; lia|by intros x y ?%elem_of_nil]. }
  rewrite app_nil_r in Hperm. set (items := fold_left _ all []) in *.
  assert (items ++ rest ≡ₚ all) as Hp by (rewrite Hperm; symmetry; apply Permutation_rev).
  rewrite app_nil_r, length_rev in Hli.
  assert (Forall (.∈ all) (items ++ rest)) as [Hi Hr]%Forall_app by (rewrite Hp; by apply Forall_forall).
  rewrite <- Hp in Hnd'. pose proof Hnd' as (Hndi & Hdis & Hndr)%NoDup_app.
  destruct (drain_sorted metric all Hmeasured Hdistinct (Z.to_nat k) items []) as (sorted & Hdrain & Hs & Hss).
  - rewrite Hli, Hlen. lia.
  - by rewrite app_nil_r.
  - by rewrite app_nil_r.
  - done.
  - constructor.
  - by intros x y _ ?%elem_of_nil.
  - rewrite app_nil_r in Hdrain, Hss. exists sorted, rest. split_and!; [| |rewrite Hs, Hli, Hlen; lia|done|].
    + unfold Search. fold metric. unfold check.
      destruct (Nat.eqb_spec (length (g_rows g)) 0) as [H0|_]; [lia|]. cbn [negb].
      rewrite (proj2 (Z.leb_le 1 k)), (proj2 (Z.leb_le k _)), (proj2 (Z.eqb_eq _ _)) by (done || lia).
      cbn -[Search drain items foldM imap]. rewrite Hquery. cbn -[drain items foldM imap]. rewrite Hoffer.
      cbn [mbind result_bind]. by rewrite Hdrain.
    + by rewrite Hs.
    + intros x y Hx Hy. rewrite Hs in Hx. rewrite Forall_forall in Hi, Hr.
      apply (better_total metric all Hmeasured Hdistinct); [auto|auto| |auto]. intros ->. by apply (Hdis y).
Qed.

(** Three rows under the dot product: the best two of them. *)
Module SmallSearch.
Definition one : float32 := 0x3F800000.
Definition two : float32 := 0x40000000.
Definition row (key : string) : RowIdentity := mkRow "set" key "sum".
Definition g : Generation :=
  mkGeneration (mkManifest "" []) "" VectorMetricDotProduct VectorNormalizationNone 2
    [row "a"; row "b"; row "c"] [one; 0%Z; two; one; one; 0%Z] (mkSections 0 0 0 0 0 0).

Definition all : list Neighbor :=
  Eval vm_compute in match neighbors g [one; one] with Ok all => all | Err _ => [] end.

Example Search_returns_nearest_witness :
  ∃ result rest, Search g [one; one] 2 = Ok result ∧
    result ++ rest ≡ₚ all ∧ Z.of_nat (length result) = 2%Z ∧
    StronglySorted (λ x y, betterNeighbor x y VectorMetricDotProduct = true) result ∧
    (∀ x y, x ∈ result → y ∈ rest → betterNeighbor x y VectorMetricDotProduct = true).
Proof.
  apply (Search_returns_nearest g [one; one] 2 all).
  - by apply (bool_decide_unpack _).
  - vm_compute. reflexivity.
  - vm_compute. repeat constructor; discriminate.
  - reflexivity.
  - reflexivity.
  - vm_compute. split; discriminate.
Defined.
Example Search_rows :
  match Search g [one; one] 2 with Ok n => map (λ n, InputKey (nb_Row n)) n | Err _ => [] end = ["b"; "a"].
Proof. reflexivity. Qed.
End SmallSearch.
