(* ===== verification/VectorIndexFacts.v ===== *)
(** * Facts about the index format

    Slices and words of a byte string, the readers of metadata and scalars with
    the writers they invert, and the arithmetic of the sections. *)
From Stdlib Require Import Floats.SpecFloat.
From S2P Require Import Prelude GoText Sha256 AuditEncoding Identity ModelInput Chunking LittleEndian Heap VectorSet VectorSetProps VectorIndex.

(** ** Slices *)

Lemma subslice_app {A} (pre mid post : list A) i j :
  i = Z.of_nat (length pre) → j = (i + Z.of_nat (length mid))%Z →
  subslice (pre ++ mid ++ post) i j = Ok mid.
Proof.
  intros -> ->. unfold subslice. rewrite !length_app, !(proj2 (Z.leb_le _ _)) by lia. cbn [andb].
  rewrite Nat2Z.id, drop_app_length.
  replace (Z.to_nat _) with (length mid) by lia. by rewrite take_app_length.
Qed.

Lemma subslice_inv {A} (data : list A) i j s :
  subslice data i j = Ok s →
  (0 <= i)%Z ∧ (j <= Z.of_nat (length data))%Z ∧ Z.of_nat (length s) = (j - i)%Z ∧
  data = take (Z.to_nat i) data ++ s ++ drop (Z.to_nat j) data.
Proof.
  unfold subslice. destruct (_ && _) eqn:Hb; [|done]. intros [= <-].
  rewrite !andb_true_iff, !Z.leb_le in Hb. destruct Hb as [[H1 H2] H3].
  split_and!; [done|done|rewrite length_take, length_drop; lia|].
  replace (drop (Z.to_nat j) data) with (drop (Z.to_nat (j - i)) (drop (Z.to_nat i) data))
    by (rewrite drop_drop; f_equal; lia).
  by rewrite !take_drop.
Qed.

Lemma subslice_eq {A} (data : list A) i j :
  (0 <= i <= j)%Z → (j <= Z.of_nat (length data))%Z →
  subslice data i j = Ok (take (Z.to_nat (j - i)) (drop (Z.to_nat i) data)).
Proof. intros Hi Hj. unfold subslice. by rewrite !(proj2 (Z.leb_le _ _)) by lia. Qed.

Lemma subslice_Ok {A} (data : list A) i j :
  (0 <= i <= j)%Z → (j <= Z.of_nat (length data))%Z → ∃ s, subslice data i j = Ok s.
Proof. intros Hi Hj. unfold subslice. rewrite !(proj2 (Z.leb_le _ _)) by lia. by eexists. Qed.

(** Two slices that meet, and a slice of a slice. *)
Lemma subslice_join {A} (data : list A) i j k a b :
  subslice data i j = Ok a → subslice data j k = Ok b → subslice data i k = Ok (a ++ b).
Proof.
  intros (Hi & Hj & Hla & Ha)%subslice_inv (Hj' & Hk & Hlb & Hb)%subslice_inv.
  rewrite (app_assoc _ a) in Ha.
  assert (data = (take (Z.to_nat i) data ++ a) ++ b ++ drop (Z.to_nat k) data) as Heq.
  { rewrite Hb at 1. f_equal. rewrite Ha at 1. rewrite take_app_length'; [done|].
    rewrite length_app, length_take. lia. }
  rewrite Heq, <- app_assoc. rewrite (app_assoc a). apply subslice_app; rewrite ?length_app, ?length_take; lia.
Qed.

Lemma subslice_all {A} (data : list A) s n : subslice data 0 n = Ok s → n = Z.of_nat (length data) → s = data.
Proof.
  intros (_ & _ & Hl & Hd)%subslice_inv ->. rewrite Nat2Z.id, drop_all, app_nil_r in Hd. by rewrite Hd.
Qed.

(** ** Words *)

Definition word_ok (k : nat) (v : Z) : Prop := (0 <= v < 256 ^ Z.of_nat k)%Z.

Lemma read_word_app k (pre post : bytes) i v :
  i = Z.of_nat (length pre) → word_ok k v →
  read_word (Z.of_nat k) (pre ++ le_bytes k v ++ post) i = Ok v.
Proof.
  intros Hi Hv. unfold read_word. rewrite (subslice_app _ _ _ i); [|done|by rewrite length_le_bytes].
  cbn [mbind result_bind]. by rewrite le_value_bytes.
Qed.

Lemma read_word_inv k data i v :
  read_word (Z.of_nat k) data i = Ok v → subslice data i (i + Z.of_nat k) = Ok (le_bytes k v) ∧ word_ok k v.
Proof.
  unfold read_word. intros (s & Hs & [= <-])%bind_Ok_iff. pose proof (subslice_inv _ _ _ _ Hs) as (_ & _ & Hl & _).
  assert (length s = k) as <- by lia. rewrite le_bytes_value. split; [done|apply le_value_bounds].
Qed.

Lemma read_word_no_panic k data i :
  (0 <= i)%Z → (i + Z.of_nat k <= Z.of_nat (length data))%Z → ∃ v, read_word (Z.of_nat k) data i = Ok v.
Proof.
  intros Hi Hl. unfold read_word. destruct (subslice_Ok data i (i + Z.of_nat k)) as [s ->]; [lia|done|].
  by eexists.
Qed.

(** ** Metadata *)

Lemma validIdentity_iff s : validIdentity s = true ↔ string_ok s.
Proof.
  unfold validIdentity, string_ok. rewrite !andb_true_iff, negb_true_iff, String.eqb_neq, Z.leb_le.
  unfold maxIdentityBytes, maxVectorSetString. intuition lia.
Qed.

Lemma appendString_frame s : appendString s = frame s.
Proof. done. Qed.

(** Behind its guards the reader never slices out of range: it reads the length
    and takes that many bytes. *)
Lemma read_index_string_eq data :
  read_index_string data =
  (_ ← check (4 <=? length data)%nat ErrIndex;
   let length_ := le_value (take 4 data) in
   let data := drop 4 data in
   _ ← check (negb ((length_ =? 0) || (maxIdentityBytes <? length_)
                    || (Z.of_nat (length data) <? length_)))%Z ErrIndex;
   let value := of_bytes (take (Z.to_nat length_) data) in
   _ ← check (ValidString value) ErrIndex;
   Ok (value, drop (Z.to_nat length_) data)).
Proof.
  unfold read_index_string. destruct (Nat.leb_spec 4 (length data)) as [H4|]; [|done]. cbn [check mbind result_bind].
  unfold read_word. rewrite (subslice_eq data 0), (subslice_eq data 4) by lia. cbn [mbind result_bind].
  change (Z.to_nat 0) with 0. rewrite drop_0. change (Z.to_nat (0 + 4 - 0)) with 4.
  change (Z.to_nat 4) with 4. rewrite take_ge by (rewrite length_drop; lia).
  set (n := le_value (take 4 data)). set (rest := drop 4 data).
  destruct (check _ ErrIndex) as [[]|e] eqn:Hc; cbn [mbind result_bind]; [|done]. apply check_Ok_iff in Hc.
  rewrite negb_true_iff, !orb_false_iff, Z.eqb_neq, !Z.ltb_ge in Hc. destruct Hc as [[H0 H1] H2].
  pose proof (le_value_bounds (take 4 data)) as Hb. fold n in Hb.
  rewrite (subslice_eq rest 0), (subslice_eq rest n) by lia. cbn [mbind result_bind].
  change (Z.to_nat 0) with 0. rewrite drop_0, Z.sub_0_r.
  destruct (check _ ErrIndex); cbn [mbind result_bind]; [|done].
  by rewrite (take_ge (drop (Z.to_nat n) rest)) by (rewrite length_drop; lia).
Qed.

Lemma read_index_string_decodes : decodes read_index_string appendString string_ok.
Proof.
  split.
  - intros s r (Hne & Hl & Hv). apply string_nonempty in Hne. rewrite read_index_string_eq. unfold appendString, AppendUint32. cbv zeta.
    unfold maxVectorSetString in Hl.
    rewrite check_bind_true by (rewrite !length_app, length_le_bytes; done).
    rewrite <- app_assoc, take_app_length', drop_app_length' by (by rewrite length_le_bytes).
    rewrite le_value_bytes by lia. unfold maxIdentityBytes. rewrite length_app, length_bs.
    rewrite check_bind_true by
      (rewrite (proj2 (Z.eqb_neq _ _)), !(proj2 (Z.ltb_ge _ _)) by lia; done).
    rewrite Nat2Z.id, take_app_length', drop_app_length' by (by rewrite length_bs).
    by rewrite of_bytes_bs, Hv.
  - intros b s r. rewrite read_index_string_eq. cbv zeta. intros [Hl%Nat.leb_le [Hc H]%check_bind_iff]%check_bind_iff.
    apply check_bind_iff in H as [Hv [= <- <-]].
    assert (length (take 4 b) = 4) as H4 by (rewrite length_take; lia).
    rewrite negb_true_iff, !orb_false_iff, Z.eqb_neq, !Z.ltb_ge in Hc. destruct Hc as [[H0 H1] H2].
    pose proof (le_value_bounds (take 4 b)) as Hb. rewrite H4 in Hb.
    set (n := le_value (take 4 b)) in *.
    assert (length (take (Z.to_nat n) (drop 4 b)) = Z.to_nat n) as Hln by (rewrite length_take; lia).
    unfold string_ok, appendString, maxVectorSetString. rewrite string_nonempty, slen_of_bytes, bs_of_bytes, Hln.
    unfold maxIdentityBytes in *. split_and!; [lia|lia|done|].
    rewrite Z2Nat.id, <- app_assoc, take_drop by lia. unfold AppendUint32, n.
    rewrite <- H4 at 1. by rewrite le_bytes_value, take_drop.
Qed.

Lemma read_checked_decodes accepts :
  decodes (read_checked accepts) appendString (λ s, string_ok s ∧ accepts s = true).
Proof.
  split.
  - intros s r [Hs Ha]. unfold read_checked. rewrite (proj1 read_index_string_decodes) by done.
    cbn [mbind result_bind]. by rewrite Ha.
  - intros b s r. unfold read_checked. intros ([s' r'] & Hr & H)%bind_Ok_iff.
    apply check_bind_iff in H as [Ha [= -> ->]]. by apply (proj2 read_index_string_decodes) in Hr as [? ->].
Qed.

Definition row_bytes (row : RowIdentity) : bytes := concat (appendString <$> row_strings row).
Definition row_sound (row : RowIdentity) : Prop :=
  IsSHA256Hex (SetID row) = true ∧ string_ok (InputKey row) ∧ IsSHA256Hex (InputChecksum row) = true.

Lemma read_row_decodes : decodes read_row row_bytes row_sound.
Proof.
  split.
  - intros [s k c] r (Hs & Hk & Hc). cbn in Hs, Hk, Hc. unfold read_row, row_bytes, row_strings. cbn [SetID InputKey InputChecksum].
    cbn [fmap list_fmap concat]. rewrite app_nil_r, <- !app_assoc.
    rewrite (proj1 read_index_string_decodes) by (by apply digest_string_ok). cbn [mbind result_bind].
    rewrite check_bind_true by done. rewrite (proj1 read_index_string_decodes) by done. cbn [mbind result_bind].
    rewrite check_bind_true by (by apply validIdentity_iff).
    rewrite (proj1 read_index_string_decodes) by (by apply digest_string_ok). cbn [mbind result_bind].
    by rewrite check_bind_true.
  - intros b [s k c] r. unfold read_row, row_bytes, row_strings, row_sound. cbn [SetID InputKey InputChecksum].
    intros ([s' b1] & H1 & H)%bind_Ok_iff. apply check_bind_iff in H as [Hs H].
    apply bind_Ok_iff in H as ([k' b2] & H2 & H). apply check_bind_iff in H as [Hk H].
    apply bind_Ok_iff in H as ([c' b3] & H3 & H). apply check_bind_iff in H as [Hc [= -> -> -> ->]].
    apply (proj2 read_index_string_decodes) in H1 as [_ ->], H2 as [? ->], H3 as [_ ->].
    split; [done|]. cbn [fmap list_fmap concat]. by rewrite app_nil_r, <- !app_assoc.
Qed.

Lemma read_rows_iff n st b rows st' r :
  read_rows n st b = Ok (rows, st', r) ↔
  length rows = n ∧ Forall row_sound rows ∧ foldM accept_row st rows = Ok st' ∧
  b = concat (row_bytes <$> rows) ++ r.
Proof.
  revert st b rows; induction n as [|n IH]; intros st b rows; cbn [read_rows].
  { split.
    - intros [= <- <- <-]. by split_and!.
    - intros (Hl & _ & Hf & ->). destruct rows; [|done]. by injection Hf as ->. }
  split.
  - intros ([row b1] & [Hrow ->]%(proj2 read_row_decodes) & H)%bind_Ok_iff.
    apply bind_Ok_iff in H as (st1 & Hst1 & H). apply bind_Ok_iff in H as ([[rows' st2] b2] & Hr & [= <- -> ->]).
    apply IH in Hr as (<- & Hs & Hf & ->). split_and!; [done|by constructor| |].
    + cbn [foldM]. by rewrite Hst1.
    + cbn [fmap list_fmap concat]. by rewrite <- app_assoc.
  - intros (Hl & Hs & Hf & ->). destruct rows as [|row rows]; [done|]. injection Hl as Hl.
    apply Forall_cons in Hs as [Hrow Hs]. cbn [foldM] in Hf. apply bind_Ok_iff in Hf as (st1 & Hst1 & Hf).
    cbn [fmap list_fmap concat]. rewrite <- app_assoc, (proj1 read_row_decodes) by done. cbn [mbind result_bind].
    rewrite Hst1. cbn [mbind result_bind].
    by rewrite (proj2 (IH st1 _ rows) (conj Hl (conj Hs (conj Hf eq_refl)))).
Qed.

(** ** Scalars *)

Lemma scalar_check bits :
  negb (negb (f32_finite bits) || (f32_is_zero bits && negb (bits =? 0)%Z)) = true ↔
  f32_finite bits = true ∧ f32_canonical bits = bits.
Proof.
  rewrite negb_true_iff, orb_false_iff, negb_false_iff. unfold f32_canonical.
  destruct (f32_is_zero bits); cbn [andb]; [|tauto]. rewrite negb_false_iff, Z.eqb_eq. naive_solver.
Qed.

Lemma read_scalars_iff n b vs :
  length b = 4 * n →
  read_scalars n b = Ok vs ↔
  length vs = n ∧ Forall scalar_ok vs ∧ b = concat (AppendUint32 <$> vs).
Proof.
  revert b vs; induction n as [|n IH]; intros b vs Hb; cbn [read_scalars].
  { destruct b; [|done]. split; [by intros [= <-]|]. by intros (Hl & _ & _); destruct vs. }
  assert (length (drop 4 b) = 4 * n) as Hd by (rewrite length_drop; lia). split.
  - intros (v & [Hs Hv]%(read_word_inv 4) & H)%bind_Ok_iff. apply check_bind_iff in H as [[Hf Hc]%scalar_check H].
    apply bind_Ok_iff in H as (vs' & (<- & Hok & Hb')%IH & [= <-]); [|done].
    apply subslice_inv in Hs as (_ & _ & _ & Heq). change (Z.to_nat (0 + Z.of_nat 4)) with 4 in Heq.
    change (take (Z.to_nat 0) b) with (@nil ascii) in Heq. cbn [app] in Heq. split_and!; [done|by constructor|].
    cbn [fmap list_fmap concat]. rewrite <- Hb'. exact Heq.
  - intros (Hl & Hok & ->). destruct vs as [|v vs]; [done|]. injection Hl as Hl.
    apply Forall_cons in Hok as [(Hv & Hf & Hc) Hok]. cbn [fmap list_fmap concat] in *.
    change (AppendUint32 v) with (le_bytes 4 v) in *. set (tail := concat _) in *.
    assert (length tail = 4 * n) as Htail by (rewrite length_app, length_le_bytes in Hb; lia).
    assert (read_word 4 (le_bytes 4 v ++ tail) 0 = Ok v) as -> by exact (read_word_app 4 [] tail 0 v eq_refl Hv).
    cbn [mbind result_bind]. rewrite check_bind_true by (by apply scalar_check).
    rewrite drop_app_length' by (by rewrite length_le_bytes).
    by rewrite (proj2 (IH tail vs Htail)).
Qed.
