(* ===== verification/VectorIndexOpen.v ===== *)
(** * Opening a generation

    What the decoder accepts is exactly the encodings of the sealed
    generations. *)
From Stdlib Require Import Floats.SpecFloat.
From S2P Require Import Prelude GoText Sha256 AuditEncoding Identity ModelInput Chunking LittleEndian Heap VectorSet VectorSetProps VectorIndex VectorIndexFacts.

(** ** Runs of words *)

Definition words_bytes (l : list (nat * Z)) : bytes := concat ((λ w, le_bytes w.1 w.2) <$> l).

Lemma words_bytes_app l1 l2 : words_bytes (l1 ++ l2) = words_bytes l1 ++ words_bytes l2.
Proof. unfold words_bytes. by rewrite fmap_app, concat_app. Qed.

Lemma length_words_bytes l : length (words_bytes l) = sum_list (fst <$> l).
Proof.
  unfold words_bytes. induction l as [|[k v] l IH]; [done|]. cbn [fmap list_fmap concat fst snd sum_list].
  rewrite length_app, length_le_bytes. by rewrite <- IH.
Qed.

Lemma read_words l1 k v l2 i :
  i = Z.of_nat (sum_list (fst <$> l1)) → word_ok k v →
  read_word (Z.of_nat k) (words_bytes (l1 ++ (k, v) :: l2)) i = Ok v.
Proof.
  intros -> Hv. rewrite words_bytes_app.
  change (words_bytes ((k, v) :: l2)) with (le_bytes k v ++ words_bytes l2).
  apply read_word_app; [by rewrite length_words_bytes|done].
Qed.

(** The words [l] are read from [data] at [i] on. *)
Fixpoint reads_at (data : bytes) (i : Z) (l : list (nat * Z)) : Prop :=
  match l with
  | [] => True
  | (k, v) :: l => read_word (Z.of_nat k) data i = Ok v ∧ reads_at data (i + Z.of_nat k) l
  end.

Lemma reads_at_words data i l :
  (0 <= i)%Z → reads_at data i l →
  drop (Z.to_nat i) data = words_bytes l ++ drop (Z.to_nat i + sum_list (fst <$> l)) data.
Proof.
  revert i; induction l as [|[k v] l IH]; intros i Hi Hr; cbn [reads_at] in Hr.
  { cbn. by rewrite Nat.add_0_r. }
  destruct Hr as [[Hs _]%read_word_inv Hr]. apply IH in Hr; [|lia].
  change (words_bytes ((k, v) :: l)) with (le_bytes k v ++ words_bytes l). cbn [fmap list_fmap fst sum_list].
  rewrite <- app_assoc. replace (Z.to_nat i + (k + sum_list (fst <$> l))) with
    (Z.to_nat (i + Z.of_nat k) + sum_list (fst <$> l)) by lia. rewrite <- Hr.
  apply subslice_inv in Hs as (_ & Hlen & _ & Hd). rewrite Hd at 1.
  rewrite drop_app_length'; [done|]. rewrite length_take. lia.
Qed.

Lemma reads_from_start data l :
  reads_at data 0 l → data = words_bytes l ++ drop (sum_list (fst <$> l)) data.
Proof. intros Hr%reads_at_words; [|done]. by rewrite drop_0 in Hr. Qed.

(** ** Sections *)

Definition sections_of (ml rows dimension : Z) : generationSections :=
  let h := generationHeaderSize in
  let v := (rows * dimension * 4)%Z in
  mkSections h ml (h + ml) v (h + ml + v) (h + ml + v + generationChecksumBytes).

Lemma generationHeaderSize_value : generationHeaderSize = 84%Z.
Proof. reflexivity. Qed.

Lemma checkedProduct_small r d :
  (1 <= r <= defaultMaxRows)%Z → (1 <= d <= defaultMaxDimension)%Z → checkedProduct [r; d; 4%Z] = Some (r * d * 4)%Z.
Proof.
  intros Hr Hd. unfold defaultMaxRows, defaultMaxDimension in *.
  assert (∀ v x, (1 <= v <= 2000000)%Z → (1 <= x <= 2000000000000)%Z → ((2 ^ 64 - 1) / v <? x)%Z = false) as Hdiv.
  { intros v x Hv Hx. apply Z.ltb_ge. apply Z.div_le_lower_bound; [lia|]. nia. }
  unfold checkedProduct. cbn [fold_left mbind option_bind].
  rewrite (Hdiv r 1%Z) by lia. rewrite andb_false_r. cbn [mbind option_bind].
  rewrite (Hdiv d (1 * r)%Z) by lia. rewrite andb_false_r. cbn [mbind option_bind].
  rewrite (Hdiv 4%Z (1 * r * d)%Z) by nia. rewrite andb_false_r. by rewrite Z.mul_1_l.
Qed.

Lemma computeSections_iff ml rows dimension mb s :
  (0 <= ml)%Z →
  computeSections ml rows dimension mb = Ok s ↔
  (1 <= rows <= defaultMaxRows)%Z ∧ (1 <= dimension <= defaultMaxDimension)%Z ∧ (1 <= mb <= defaultMaxBytes)%Z ∧
  (totalLength (sections_of ml rows dimension) <= mb)%Z ∧ s = sections_of ml rows dimension.
Proof.
  intros Hml. unfold computeSections. rewrite !check_bind_iff, !andb_true_iff, !Z.leb_le.
  assert (∀ P Q R : Prop, (P → Q ↔ R) → P ∧ Q ↔ P ∧ R) as Hcong by tauto.
  transitivity ((1 <= rows <= defaultMaxRows ∧ 1 <= dimension <= defaultMaxDimension) ∧
    1 <= mb <= defaultMaxBytes ∧
    (totalLength (sections_of ml rows dimension) <= mb)%Z ∧ s = sections_of ml rows dimension)%Z; [|tauto].
  transitivity ((1 <= rows <= defaultMaxRows ∧ 1 <= dimension <= defaultMaxDimension)%Z ∧
    (1 <= mb <= defaultMaxBytes)%Z ∧
    match checkedProduct [rows; dimension; 4%Z], checkedAdd generationHeaderSize ml,
      checkedAdd (default 0%Z (checkedAdd generationHeaderSize ml)) (default 0%Z (checkedProduct [rows; dimension; 4%Z])),
      checkedAdd (default 0%Z (checkedAdd (default 0%Z (checkedAdd generationHeaderSize ml)) (default 0%Z (checkedProduct [rows; dimension; 4%Z])))) generationChecksumBytes with
    | Some vl, Some vo, Some co, Some total =>
        (_ ← check (total <=? mb)%Z ErrIndex; Ok (mkSections generationHeaderSize ml vo vl co total))
    | _, _, _, _ => Err ErrIndex
    end = Ok s); [tauto|].
  apply Hcong. intros [Hr Hd]. apply Hcong. intros Hmb.
  rewrite (checkedProduct_small _ _ Hr Hd). unfold checkedAdd, sections_of. rewrite generationHeaderSize_value.
  unfold defaultMaxRows, defaultMaxDimension, defaultMaxBytes, generationChecksumBytes in *.
  assert (1 <= rows * dimension * 4 <= 5000000000000)%Z by nia. cbn [totalLength].
  destruct (Z.ltb_spec (2 ^ 64 - 1 - ml) 84) as [Ho|Ho]; cbn [from_option id].
  { split; [done|intros [? _]; lia]. }
  cbn [from_option id].
  destruct (Z.ltb_spec (2 ^ 64 - 1 - rows * dimension * 4) (84 + ml)) as [Ho2|Ho2].
  { split; [done|intros [? _]; lia]. }
  cbn [from_option id].
  destruct (Z.ltb_spec (2 ^ 64 - 1 - 32) (84 + ml + rows * dimension * 4)) as [Ho3|Ho3].
  { split; [done|intros [? _]; lia]. }
  rewrite check_bind_iff, Z.leb_le. naive_solver.
Qed.

(** ** The header *)

Definition field_words (s : generationSections) (rows dimension : Z) : list (nat * Z) :=
  [(8, metadataOffset s); (8, metadataLength s); (8, vectorOffset s); (8, vectorLength s);
   (8, checksumOffset s); (8, rows); (4, dimension)].
Definition header_words (s : generationSections) (rows dimension : Z) : list (nat * Z) :=
  [(4, generationVersion); (4, generationHeaderSize)] ++ field_words s rows dimension.

(** The bytes before the checksum. *)
Definition framed (s : generationSections) (rows dimension : Z) (body : bytes) : bytes :=
  generationDomain ++ words_bytes (header_words s rows dimension) ++ body.

Lemma framed_length s rows dimension body :
  Z.of_nat (length (framed s rows dimension body)) = (generationHeaderSize + Z.of_nat (length body))%Z.
Proof. unfold framed. rewrite !length_app, length_words_bytes. unfold generationHeaderSize. simpl. lia. Qed.

Definition well_framed (s : generationSections) (rows dimension : Z) (body : bytes) : Prop :=
  (0 < metadataLength s < 2 ^ 64)%Z ∧ computeSections (metadataLength s) rows dimension defaultMaxBytes = Ok s ∧
  checksumOffset s = (generationHeaderSize + Z.of_nat (length body))%Z.

Lemma well_framed_bounds s rows dimension body :
  well_framed s rows dimension body →
  (1 <= rows <= defaultMaxRows)%Z ∧ (1 <= dimension <= defaultMaxDimension)%Z ∧
  s = sections_of (metadataLength s) rows dimension ∧
  (totalLength (sections_of (metadataLength s) rows dimension) <= defaultMaxBytes)%Z.
Proof. intros (Hml & Hs & _). apply computeSections_iff in Hs; [tauto|lia]. Qed.

Lemma header_read s rows dimension :
  let header := words_bytes (header_words s rows dimension) in
  read_word 4 header 0 = Ok generationVersion ∧ read_word 4 header 4 = Ok generationHeaderSize ∧
  subslice header 8 (Z.of_nat (length header)) = Ok (words_bytes (field_words s rows dimension)).
Proof.
  unfold header_words. split_and!.
  - by apply (read_words [] 4).
  - by apply (read_words [_] 4).
  - rewrite words_bytes_app. rewrite <- (app_nil_r (words_bytes (field_words _ _ _))).
    apply subslice_app; [by rewrite length_words_bytes|]. rewrite app_nil_r, length_app, !length_words_bytes. simpl. lia.
Qed.

Lemma fields_read s rows dimension :
  Forall (λ w, word_ok w.1 w.2) (field_words s rows dimension) →
  let fields := words_bytes (field_words s rows dimension) in
  read_word 8 fields 0 = Ok (metadataOffset s) ∧ read_word 8 fields 8 = Ok (metadataLength s) ∧
  read_word 8 fields 16 = Ok (vectorOffset s) ∧ read_word 8 fields 24 = Ok (vectorLength s) ∧
  read_word 8 fields 32 = Ok (checksumOffset s) ∧ read_word 8 fields 40 = Ok rows ∧
  read_word 4 fields 48 = Ok dimension.
Proof.
  intros Hok. unfold field_words in *. rewrite !Forall_cons in Hok. destruct Hok as (H0 & H1 & H2 & H3 & H4 & H5 & H6 & _). split_and!.
  - by apply (read_words [] 8).
  - by apply (read_words [_] 8).
  - by apply (read_words [_; _] 8).
  - by apply (read_words [_; _; _] 8).
  - by apply (read_words [_; _; _; _] 8).
  - by apply (read_words [_; _; _; _; _] 8).
  - by apply (read_words [_; _; _; _; _; _] 4).
Qed.

Lemma decodeHeader_framed `{Sha256} s rows dimension body :
  well_framed s rows dimension body →
  let data := framed s rows dimension body in
  decodeHeader (data ++ generationChecksum data) = Ok (s, rows, dimension).
Proof.
  intros Hwf data. destruct (well_framed_bounds _ _ _ _ Hwf) as (Hr & Hd & Hs & Ht). destruct Hwf as (Hml & Hc & Hco).
  assert (length (generationChecksum data) = 32) as Hsum by apply Sum256_length.
  pose proof (framed_length s rows dimension body) as Hlen. fold data in Hlen.
  assert (Z.of_nat (length (data ++ generationChecksum data)) = totalLength s) as Htotal.
  { rewrite length_app, Nat2Z.inj_add, Hlen, Hsum, Hs. rewrite Hs in Hco. cbn [sections_of totalLength checksumOffset] in *.
    unfold generationChecksumBytes. lia. }
  set (encoded := data ++ generationChecksum data) in *.
  assert (encoded = generationDomain ++ words_bytes (header_words s rows dimension) ++ (body ++ generationChecksum data))
    as Heq by (unfold encoded, data at 1, framed; by rewrite <- !app_assoc).
  assert (subslice encoded 0 (Z.of_nat (length generationDomain)) = Ok generationDomain) as Hdomain
    by (rewrite Heq; by apply (subslice_app [])).
  assert (subslice encoded (Z.of_nat (length generationDomain)) generationHeaderSize =
    Ok (words_bytes (header_words s rows dimension))) as Hheader
    by (rewrite Heq; apply subslice_app; rewrite ?length_words_bytes; reflexivity).
  assert (subslice encoded 0 (checksumOffset s) = Ok data) as Hbody
    by (apply (subslice_app []); [done|lia]).
  assert (subslice encoded (checksumOffset s) (Z.of_nat (length encoded)) = Ok (generationChecksum data)) as Hstored.
  { unfold encoded at 1. rewrite <- (app_nil_r (generationChecksum data)) at 1. apply subslice_app; [lia|].
    rewrite Htotal. unfold encoded in Htotal. rewrite length_app in Htotal. lia. }
  unfold decodeHeader. rewrite generationHeaderSize_value in *.
  assert (0 <= metadataOffset s ∧ 0 <= vectorOffset s ∧ 0 <= vectorLength s ∧ 0 <= checksumOffset s
    ∧ totalLength s <= defaultMaxBytes ∧ checksumOffset s + 32 = totalLength s
    ∧ vectorOffset s <= checksumOffset s ∧ vectorLength s <= checksumOffset s
    ∧ metadataOffset s <= checksumOffset s)%Z as Hb.
  { rewrite Hs. unfold sections_of in *. rewrite generationHeaderSize_value in *. unfold generationChecksumBytes in *.
    cbn [metadataOffset vectorOffset vectorLength checksumOffset totalLength] in *. nia. }
  unfold defaultMaxRows, defaultMaxDimension, defaultMaxBytes in *.
  rewrite check_bind_true by (apply Z.leb_le; unfold generationChecksumBytes; lia).
  rewrite Hdomain. cbn [mbind result_bind]. rewrite check_bind_true by (by apply bool_decide_eq_true).
  rewrite Hheader. cbn [mbind result_bind].
  destruct (header_read s rows dimension) as (Hversion & Hsize & Hfields).
  rewrite Hversion. cbn [mbind result_bind]. rewrite check_bind_true by done.
  rewrite Hsize. cbn [mbind result_bind]. rewrite check_bind_true by done.
  rewrite Hfields. cbn [mbind result_bind].
  destruct (fields_read s rows dimension) as (Hw0 & Hw1 & Hw2 & Hw3 & Hw4 & Hw5 & Hw6);
    [repeat constructor; cbn [fst snd]; unfold word_ok; lia|].
  rewrite Hw5, Hw6. cbn [mbind result_bind].
  rewrite check_bind_true by
    (rewrite !(proj2 (Z.eqb_neq _ _)), !(proj2 (Z.ltb_ge _ _)) by lia; done).
  rewrite Hw1. cbn [mbind result_bind]. rewrite Hc. cbn [mbind result_bind].
  rewrite check_bind_true by (rewrite (proj2 (Z.eqb_neq _ _)) by lia; done).
  rewrite Hw0, Hw2, Hw3, Hw4. cbn [mbind result_bind].
  rewrite check_bind_true by (rewrite Htotal, !Z.eqb_refl; done).
  rewrite Hbody. cbn [mbind result_bind]. rewrite Hstored. cbn [mbind result_bind].
  by rewrite check_bind_true by (by apply bool_decide_eq_true).
Qed.

Lemma decodeHeader_inv `{Sha256} encoded s rows dimension :
  decodeHeader encoded = Ok (s, rows, dimension) →
  ∃ body, well_framed s rows dimension body ∧
    encoded = framed s rows dimension body ++ generationChecksum (framed s rows dimension body).
Proof.
  unfold decodeHeader. intros [_ H1]%check_bind_iff.
  apply bind_Ok_iff in H1 as (prefix & Hprefix & H1). apply check_bind_iff in H1 as [->%bool_decide_eq_true H1].
  apply bind_Ok_iff in H1 as (header & Hheader & H1).
  apply bind_Ok_iff in H1 as (version & Hversion & H1). apply check_bind_iff in H1 as [->%Z.eqb_eq H1].
  apply bind_Ok_iff in H1 as (size & Hsize & H1). apply check_bind_iff in H1 as [->%Z.eqb_eq H1].
  apply bind_Ok_iff in H1 as (fields & Hfields & H1).
  apply bind_Ok_iff in H1 as (rc & Hw5 & H1). apply bind_Ok_iff in H1 as (dim & Hw6 & H1).
  apply check_bind_iff in H1 as [_ H1].
  apply bind_Ok_iff in H1 as (ml & Hw1 & H1). apply bind_Ok_iff in H1 as (sections & Hs & H1).
  apply check_bind_iff in H1 as [Hml%negb_true_iff%Z.eqb_neq H1].
  apply bind_Ok_iff in H1 as (f0 & Hw0 & H1). apply bind_Ok_iff in H1 as (f2 & Hw2 & H1).
  apply bind_Ok_iff in H1 as (f3 & Hw3 & H1). apply bind_Ok_iff in H1 as (f4 & Hw4 & H1).
  apply check_bind_iff in H1 as [Hoffsets H1].
  apply bind_Ok_iff in H1 as (data & Hdata & H1). apply bind_Ok_iff in H1 as (stored & Hstored & H1).
  apply check_bind_iff in H1 as [Hsum%bool_decide_eq_true [= -> -> ->]].
  rewrite !andb_true_iff, !Z.eqb_eq in Hoffsets. destruct Hoffsets as [[[[<- <-] <-] <-] Htotal].
  pose proof (read_word_inv 8 _ _ _ Hw1) as [_ Hmlb]. unfold word_ok in Hmlb.
  pose proof (proj1 (computeSections_iff ml rows dimension defaultMaxBytes s ltac:(lia)) Hs) as (Hr & Hd & _ & Hmax & Hsec).
  assert (metadataLength s = ml) as Hmleq by (by rewrite Hsec). subst ml.
  (* the header is its words *)
  pose proof (subslice_inv _ _ _ _ Hheader) as (_ & _ & Hlh & _).
  pose proof (subslice_inv _ _ _ _ Hfields) as (_ & _ & Hlf & Hf).
  rewrite generationHeaderSize_value in Hlh. change (Z.of_nat (length generationDomain)) with 24%Z in *.
  assert (fields = words_bytes (field_words s rows dimension)) as ->.
  { rewrite (reads_from_start fields (field_words s rows dimension)) by (unfold field_words; by split_and!).
    rewrite drop_ge, app_nil_r; [done|]. simpl. lia. }
  assert (header = words_bytes (header_words s rows dimension)) as ->.
  { rewrite (reads_from_start header [(4, generationVersion); (4, generationHeaderSize)]) by by split_and!.
    unfold header_words. rewrite words_bytes_app. f_equal.
    rewrite Hf at 1. rewrite Nat2Z.id, drop_all, app_nil_r.
    apply drop_app_length'. rewrite length_take. change (8 = Nat.min (Z.to_nat 8) (length header)). lia. }
  assert (checksumOffset s = generationHeaderSize + metadataLength s + vectorLength s ∧ 0 <= vectorLength s)%Z as [Hco Hvl].
  { rewrite Hsec. cbn [sections_of checksumOffset metadataLength vectorLength]. nia. }
  pose proof (subslice_inv _ _ _ _ Hdata) as (_ & Hcol & _ & _).
  destruct (subslice_Ok encoded generationHeaderSize (checksumOffset s)) as [body Hbody]; [|done|].
  { rewrite generationHeaderSize_value in *. lia. }
  pose proof (subslice_join _ _ _ _ _ _ Hheader Hbody) as Hrest.
  pose proof (subslice_join _ _ _ _ _ _ Hprefix Hrest) as Hall.
  rewrite Hdata in Hall. apply Ok_inj in Hall.
  change (data = framed s rows dimension body) in Hall. subst data. exists body. split.
  - split_and!; [lia|lia|done|]. apply subslice_inv in Hbody as (_ & _ & Hlb & _). lia.
  - rewrite Hsum. symmetry. apply (subslice_all _ _ (Z.of_nat (length encoded))); [|done].
    by apply (subslice_join _ _ (checksumOffset s)).
Qed.

(** ** Metadata *)

(** What the metadata of a generation satisfies; [st] is the state of the row
    loop after the last row. *)
Record described `{Sha256} (g : Generation) (st : row_state) : Prop := {
  de_space : IsSHA256Hex (g_vectorSpaceID g) = true;
  de_metric : IsValidVectorMetric (g_metric g) = true;
  de_normalization : validNormalization (g_normalization g) = true;
  de_checksum : Manifest_Checksum (g_manifest g) = manifestChecksum (SetIDs (g_manifest g));
  de_digest : IsSHA256Hex (Manifest_Checksum (g_manifest g)) = true;
  de_sets : SetIDs (g_manifest g) = rs_setIDs st;
  de_rows : Forall row_sound (g_rows g);
  de_grouped : foldM accept_row (mkRowState ∅ []) (g_rows g) = Ok st;
}.

Lemma rows_bytes rows : concat (appendString <$> concat (row_strings <$> rows)) = concat (row_bytes <$> rows).
Proof.
  induction rows as [|row rows IH]; [done|]. cbn [fmap list_fmap concat].
  rewrite fmap_app, concat_app. by rewrite IH.
Qed.

Lemma index_metadata_bytes g :
  index_metadata g =
  appendString generationLayout ++ appendString (Manifest_Checksum (g_manifest g)) ++ appendString (g_vectorSpaceID g)
  ++ appendString (g_metric g) ++ appendString (g_normalization g) ++ concat (row_bytes <$> g_rows g).
Proof.
  unfold index_metadata. rewrite rows_bytes. cbn [fmap list_fmap concat]. by rewrite app_nil_r, <- !app_assoc.
Qed.

Lemma layout_string_ok : string_ok generationLayout.
Proof. split_and!; [done|by apply Nat.leb_le|done]. Qed.

Lemma decodeMetadata_described `{Sha256} g st rowCount :
  described g st → length (g_rows g) = Z.to_nat rowCount →
  decodeMetadata (index_metadata g) rowCount (g_dimension g) (g_sections g) = Ok (with_vectors g []).
Proof.
  intros [Hsp Hm Hn Hc Hdg Hsets Hrows Hgrouped] Hlen. unfold decodeMetadata. rewrite index_metadata_bytes.
  rewrite (proj1 (read_checked_decodes _)) by (split; [apply layout_string_ok|apply String.eqb_refl]).
  cbn [mbind result_bind].
  rewrite (proj1 (read_checked_decodes _)) by (by split; [apply digest_string_ok|]). cbn [mbind result_bind].
  rewrite (proj1 (read_checked_decodes _)) by (by split; [apply digest_string_ok|]). cbn [mbind result_bind].
  rewrite (proj1 (read_checked_decodes _)) by (by split; [apply metric_string_ok|]). cbn [mbind result_bind].
  rewrite (proj1 (read_checked_decodes _)) by (by split; [apply normalization_string_ok|]). cbn [mbind result_bind].
  rewrite <- (app_nil_r (concat _)), (proj2 (read_rows_iff _ _ _ (g_rows g) st [])) by by split_and!.
  cbn [mbind result_bind]. rewrite check_bind_true by done. rewrite <- Hsets, <- Hc.
  rewrite check_bind_true by apply String.eqb_refl. unfold with_vectors. do 2 f_equal.
  by destruct (g_manifest g).
Qed.

Lemma decodeMetadata_inv {sha : Sha256} md rowCount dimension sections g :
  decodeMetadata md rowCount dimension sections = Ok g →
  ∃ st, described g st ∧ md = index_metadata g ∧ length (g_rows g) = Z.to_nat rowCount ∧
    g_dimension g = dimension ∧ g_sections g = sections ∧ g_vectors g = [].
Proof.
  unfold decodeMetadata.
  intros ([l b1] & ([_ <-%String.eqb_eq] & ->)%(proj2 (read_checked_decodes _)) & H)%bind_Ok_iff.
  apply bind_Ok_iff in H as ([sum b2] & ([_ Hd] & ->)%(proj2 (read_checked_decodes _)) & H).
  apply bind_Ok_iff in H as ([space b3] & ([_ Hs] & ->)%(proj2 (read_checked_decodes _)) & H).
  apply bind_Ok_iff in H as ([metric b4] & ([_ Hm] & ->)%(proj2 (read_checked_decodes _)) & H).
  apply bind_Ok_iff in H as ([norm b5] & ([_ Hn] & ->)%(proj2 (read_checked_decodes _)) & H).
  apply bind_Ok_iff in H as ([[rows st] b6] & (Hl & Hrows & Hf & ->)%read_rows_iff & H).
  apply check_bind_iff in H as [Hend%Nat.eqb_eq H]. apply check_bind_iff in H as [<-%String.eqb_eq [= <-]].
  destruct b6; [|done]. exists st. split_and!; [by constructor| |done..].
  by rewrite index_metadata_bytes, app_nil_r.
Qed.

(** ** Vectors *)

Lemma mapR_units {E A} (f : A → result E ()) l :
  (∃ us, mapR f l = Ok us) ↔ Forall (λ x, f x = Ok ()) l.
Proof.
  induction l as [|x l IH]; cbn [mapR]; [by split; [constructor|eexists]|].
  rewrite Forall_cons, <- IH. split.
  - intros (us & ([] & Hx & H)%bind_Ok_iff). apply bind_Ok_iff in H as (us' & Hus & _). eauto.
  - intros [Hx [us Hus]]. rewrite Hx. cbn [mbind result_bind]. rewrite Hus. by eexists.
Qed.

(** Every row's vector passes the metric's checks. *)
Definition metric_vectors (g : Generation) : Prop :=
  Forall (λ index, (v ← vector g index; validateMetricVector (g_metric g) (g_normalization g) v) = Ok ())
    (seq 0 (length (g_rows g))).

Definition scalars_bytes (vectors : list float32) : bytes := concat (AppendUint32 <$> vectors).

Lemma length_scalars_bytes vectors : length (scalars_bytes vectors) = 4 * length vectors.
Proof.
  unfold scalars_bytes. induction vectors as [|v vectors IH]; [done|]. cbn [fmap list_fmap concat].
  rewrite length_app, IH. unfold AppendUint32. rewrite length_le_bytes. simpl. lia.
Qed.

Lemma decodeVectors_iff g b n g' :
  length b = 4 * n →
  decodeVectors g b = Ok g' ↔
  ∃ vs, g' = with_vectors g vs ∧ length vs = n ∧ Forall scalar_ok vs ∧ b = scalars_bytes vs ∧
    metric_vectors (with_vectors g vs).
Proof.
  intros Hb. unfold decodeVectors. replace (length b / 4) with n by (rewrite Hb, Nat.mul_comm, Nat.div_mul; done).
  split.
  - intros (vs & (Hl & Hs & Heq)%read_scalars_iff & H)%bind_Ok_iff; [|done].
    apply bind_Ok_iff in H as (us & Hus & [= <-]). exists vs. split_and!; try done.
    apply mapR_units. by eexists.
  - intros (vs & -> & Hl & Hs & Heq & Hm). rewrite (proj2 (read_scalars_iff n b vs Hb)) by done.
    cbn [mbind result_bind]. apply mapR_units in Hm as [us Hus]. cbn [with_vectors g_rows] in *.
    unfold with_vectors in *. cbn [g_metric g_normalization g_rows] in Hus. cbn [g_metric g_normalization]. by rewrite Hus.
Qed.

(** ** Sealed generations *)

Record sealed `{Sha256} (g : Generation) : Prop := {
  se_described : ∃ st, described g st;
  se_sections : computeSections (Z.of_nat (length (index_metadata g))) (Z.of_nat (length (g_rows g)))
                  (g_dimension g) defaultMaxBytes = Ok (g_sections g);
  se_scalars : Z.of_nat (length (g_vectors g)) = (Z.of_nat (length (g_rows g)) * g_dimension g)%Z;
  se_stored : Forall scalar_ok (g_vectors g);
  se_metric : metric_vectors g;
  se_identities : verifySourceSetIdentities g = Ok ();
}.

Lemma canonical_scalars vectors :
  Forall scalar_ok vectors → concat ((λ value, AppendUint32 (f32_canonical value)) <$> vectors) = scalars_bytes vectors.
Proof.
  unfold scalars_bytes. induction 1 as [|v vectors (_ & _ & Hv) Hs IH]; [done|].
  cbn [fmap list_fmap concat]. by rewrite Hv, IH.
Qed.

Definition generation_bytes (g : Generation) : bytes :=
  framed (g_sections g) (Z.of_nat (length (g_rows g))) (g_dimension g)
    (index_metadata g ++ concat ((λ value, AppendUint32 (f32_canonical value)) <$> g_vectors g)).

Lemma encodeGeneration_framed `{Sha256} g :
  encodeGeneration g = generation_bytes g ++ generationChecksum (generation_bytes g).
Proof.
  assert (generation_bytes g = generationDomain ++ AppendUint32 generationVersion ++ AppendUint32 generationHeaderSize
    ++ concat (AppendUint64 <$> [metadataOffset (g_sections g); metadataLength (g_sections g); vectorOffset (g_sections g);
         vectorLength (g_sections g); checksumOffset (g_sections g); Z.of_nat (length (g_rows g))])
    ++ AppendUint32 (g_dimension g) ++ index_metadata g
    ++ concat ((λ value, AppendUint32 (f32_canonical value)) <$> g_vectors g)) as Heq.
  { unfold generation_bytes, framed, words_bytes, header_words, field_words, AppendUint32, AppendUint64.
    cbn [app fmap list_fmap concat fst snd]. by rewrite ?app_nil_r, <- !app_assoc. }
  unfold encodeGeneration. by rewrite <- Heq.
Qed.

Lemma sealed_framed `{Sha256} g :
  sealed g →
  let body := index_metadata g ++ scalars_bytes (g_vectors g) in
  generation_bytes g = framed (g_sections g) (Z.of_nat (length (g_rows g))) (g_dimension g) body ∧
  well_framed (g_sections g) (Z.of_nat (length (g_rows g))) (g_dimension g) body ∧
  g_sections g = sections_of (Z.of_nat (length (index_metadata g))) (Z.of_nat (length (g_rows g))) (g_dimension g).
Proof.
  intros [_ Hs Hl Hst _ _] body. unfold generation_bytes. rewrite canonical_scalars by done. split; [done|].
  pose proof Hs as (Hr & Hd & _ & Ht & Hsec)%computeSections_iff; [|lia]. split; [|done].
  assert (length (index_metadata g) ≠ 0) as Hne.
  { rewrite index_metadata_bytes. unfold appendString at 1, AppendUint32. rewrite !length_app, length_le_bytes. lia. }
  unfold well_framed. rewrite Hsec. cbn [sections_of metadataLength checksumOffset totalLength] in *.
  rewrite generationHeaderSize_value in *. unfold defaultMaxBytes, generationChecksumBytes in *.
  split_and!; [nia|nia|by rewrite Hs, Hsec|]. unfold body. rewrite length_app, length_scalars_bytes. nia.
Qed.

Theorem decodeGeneration_sealed `{Sha256} g : sealed g → decodeGeneration (encodeGeneration g) = Ok g.
Proof.
  intros Hsealed. destruct (sealed_framed g Hsealed) as (Hbytes & Hwf & Hsec).
  destruct Hsealed as [[st Hd] Hs Hl Hst Hm Hid]. rewrite encodeGeneration_framed, Hbytes.
  unfold decodeGeneration. rewrite decodeHeader_framed by done. cbn [mbind result_bind].
  set (rows := Z.of_nat (length (g_rows g))) in *. set (data := framed _ _ _ _).
  assert (∃ pre, (∀ tail, data ++ tail = pre ++ index_metadata g ++ scalars_bytes (g_vectors g) ++ tail) ∧
    Z.of_nat (length pre) = generationHeaderSize) as (pre & Heq & Hpre).
  { exists (generationDomain ++ words_bytes (header_words (g_sections g) rows (g_dimension g))). split.
    - intros tail. unfold data, framed. by rewrite <- !app_assoc.
    - by rewrite length_app, length_words_bytes. }
  assert (metadataOffset (g_sections g) = generationHeaderSize) as Hmo by (by rewrite Hsec).
  assert (vectorOffset (g_sections g) = generationHeaderSize + Z.of_nat (length (index_metadata g)))%Z as Hvo
    by (by rewrite Hsec).
  assert (checksumOffset (g_sections g) = vectorOffset (g_sections g) + rows * g_dimension g * 4)%Z as Hco
    by (by rewrite Hsec).
  rewrite Heq, (subslice_app pre (index_metadata g) _ (metadataOffset _)) by lia. cbn [mbind result_bind].
  rewrite (decodeMetadata_described g st) by (done || (unfold rows; by rewrite Nat2Z.id)). cbn [mbind result_bind].
  rewrite (app_assoc _ (index_metadata g)).
  rewrite subslice_app by (rewrite ?length_app, ?length_scalars_bytes; lia).
  cbn [mbind result_bind].
  assert (with_vectors (with_vectors g []) (g_vectors g) = g) as Hg by (by destruct g).
  rewrite (proj2 (decodeVectors_iff (with_vectors g []) _ _ g (length_scalars_bytes _))).
  2:{ exists (g_vectors g). by rewrite Hg. }
  cbn [mbind result_bind]. by rewrite Hid.
Qed.

Theorem decodeGeneration_inv {sha : Sha256} b g : decodeGeneration b = Ok g → sealed g ∧ encodeGeneration g = b.
Proof.
  unfold decodeGeneration. intros ([[s rows] dimension] & (body & Hwf & Hb)%decodeHeader_inv & H)%bind_Ok_iff.
  destruct (well_framed_bounds _ _ _ _ Hwf) as (Hr & Hd & Hsec & Ht). pose proof Hwf as (Hml & Hs & Hco).
  apply bind_Ok_iff in H as (md & Hmd & H).
  apply bind_Ok_iff in H as (g1 & (st & Hdesc & -> & Hrows & Hdim & Hsections & Hnovec)%decodeMetadata_inv & H).
  apply bind_Ok_iff in H as (vecs & Hvecs & H).
  assert (length vecs = 4 * Z.to_nat (rows * dimension)) as Hlv.
  { apply subslice_inv in Hvecs as (_ & _ & Hlv & _). rewrite Hsec in Hlv. cbn [sections_of vectorOffset checksumOffset] in Hlv. nia. }
  apply bind_Ok_iff in H as (g2 & (vs & -> & Hvl & Hok & -> & Hmetric)%(decodeVectors_iff _ _ _ _ Hlv) & H).
  apply bind_Ok_iff in H as ([] & Hid & [= <-]).
  assert (metadataLength s = Z.of_nat (length (index_metadata g1))) as Hmll.
  { apply subslice_inv in Hmd as (_ & _ & Hlm & _). rewrite Hsec in Hlm. cbn [sections_of metadataOffset vectorOffset] in Hlm. lia. }
  split.
  - constructor; try done; cbn [with_vectors g_vectors g_rows g_dimension g_sections].
    + exists st. by destruct Hdesc.
    + change (index_metadata (with_vectors g1 vs)) with (index_metadata g1).
      rewrite <- Hmll, Hrows, Z2Nat.id, Hdim, Hsections by lia. done.
    + rewrite Hvl, Hrows, Hdim. rewrite !Z2Nat.id; nia.
  - rewrite encodeGeneration_framed. unfold generation_bytes. cbn [with_vectors g_vectors g_rows g_dimension g_sections].
    change (index_metadata (with_vectors g1 vs)) with (index_metadata g1).
    rewrite canonical_scalars, Hrows, Z2Nat.id, Hdim, Hsections by (done || lia).
    assert (body = index_metadata g1 ++ scalars_bytes vs) as <-; [|done].
    assert (metadataOffset s = generationHeaderSize) as Hmo by (by rewrite Hsec).
    pose proof (subslice_join _ _ _ _ _ _ Hmd Hvecs) as Hboth. rewrite Hmo, Hco, Hb in Hboth.
    unfold framed at 1 in Hboth. rewrite <- !app_assoc, (app_assoc generationDomain) in Hboth.
    rewrite subslice_app in Hboth; [by apply Ok_inj in Hboth| |done].
    by rewrite length_app, length_words_bytes.
Qed.

(** ** No index leaves its slice *)

Definition no_panic {A} (r : ires A) : Prop := r ≠ Err IndexPanic.

Lemma no_panic_Ok {A} (a : A) : no_panic (Ok a).
Proof. done. Qed.
Lemma no_panic_check b : no_panic (check b ErrIndex).
Proof. by destruct b. Qed.
Lemma no_panic_bind {A B} (r : ires A) (f : A → ires B) :
  no_panic r → (∀ a, r = Ok a → no_panic (f a)) → no_panic (r ≫= f).
Proof. unfold no_panic. destruct r as [a|e]; cbn; [by auto|]. intros Hr _. congruence. Qed.
Lemma no_panic_found {A} (r : ires A) : (∃ a, r = Ok a) → no_panic r.
Proof. by intros [a ->]. Qed.

Lemma no_panic_computeSections ml rows dimension mb : no_panic (computeSections ml rows dimension mb).
Proof.
  unfold computeSections. apply no_panic_bind; [apply no_panic_check|intros [] _].
  apply no_panic_bind; [apply no_panic_check|intros [] _].
  destruct (checkedProduct _); [|done]. destruct (checkedAdd _ ml); [|done].
  destruct (checkedAdd _ _); [|done]. destruct (checkedAdd _ _); [|done].
  apply no_panic_bind; [apply no_panic_check|]. by intros [] _.
Qed.

Lemma no_panic_decodeHeader `{Sha256} encoded : no_panic (decodeHeader encoded).
Proof.
  unfold decodeHeader. apply no_panic_bind; [apply no_panic_check|]. intros [] Hl%check_Ok_iff%Z.leb_le.
  rewrite generationHeaderSize_value in *. unfold generationChecksumBytes in Hl.
  change (Z.of_nat (length generationDomain)) with 24%Z.
  apply no_panic_bind; [apply no_panic_found, subslice_Ok; lia|]. intros prefix _.
  apply no_panic_bind; [apply no_panic_check|]. intros [] _.
  apply no_panic_bind; [apply no_panic_found, subslice_Ok; lia|].
  intros header (_ & _ & Hlh & _)%subslice_inv.
  apply no_panic_bind; [apply no_panic_found, (read_word_no_panic 4); lia|]. intros version _.
  apply no_panic_bind; [apply no_panic_check|]. intros [] _.
  apply no_panic_bind; [apply no_panic_found, (read_word_no_panic 4); lia|]. intros size _.
  apply no_panic_bind; [apply no_panic_check|]. intros [] _.
  apply no_panic_bind; [apply no_panic_found, subslice_Ok; lia|].
  intros fields (_ & _ & Hlf & _)%subslice_inv.
  apply no_panic_bind; [apply no_panic_found, (read_word_no_panic 8); lia|]. intros rc _.
  apply no_panic_bind; [apply no_panic_found, (read_word_no_panic 4); lia|]. intros dim _.
  apply no_panic_bind; [apply no_panic_check|]. intros [] _.
  apply no_panic_bind; [apply no_panic_found, (read_word_no_panic 8); lia|].
  intros ml [_ Hml]%(read_word_inv 8). unfold word_ok in Hml.
  apply no_panic_bind; [apply no_panic_computeSections|].
  intros s (Hr & Hd & _ & Hmax & Hs)%computeSections_iff; [|lia].
  apply no_panic_bind; [apply no_panic_check|]. intros [] _.
  apply no_panic_bind; [apply no_panic_found, (read_word_no_panic 8); lia|]. intros f0 _.
  apply no_panic_bind; [apply no_panic_found, (read_word_no_panic 8); lia|]. intros f2 _.
  apply no_panic_bind; [apply no_panic_found, (read_word_no_panic 8); lia|]. intros f3 _.
  apply no_panic_bind; [apply no_panic_found, (read_word_no_panic 8); lia|]. intros f4 _.
  apply no_panic_bind; [apply no_panic_check|]. intros [] Ht%check_Ok_iff.
  rewrite !andb_true_iff, !Z.eqb_eq in Ht. destruct Ht as [_ Ht].
  assert (0 <= checksumOffset s <= Z.of_nat (length encoded))%Z as Hco.
  { rewrite <- Ht, Hs. cbn [sections_of checksumOffset totalLength]. unfold generationChecksumBytes.
    rewrite generationHeaderSize_value. nia. }
  apply no_panic_bind; [apply no_panic_found, subslice_Ok; lia|]. intros body _.
  apply no_panic_bind; [apply no_panic_found, subslice_Ok; lia|]. intros stored _.
  apply no_panic_bind; [apply no_panic_check|]. by intros [] _.
Qed.


Lemma no_panic_read_index_string data : no_panic (read_index_string data).
Proof.
  rewrite read_index_string_eq. apply no_panic_bind; [apply no_panic_check|intros [] _].
  apply no_panic_bind; [apply no_panic_check|intros [] _]. apply no_panic_bind; [apply no_panic_check|]. by intros [] _.
Qed.

Lemma no_panic_read_checked accepts data : no_panic (read_checked accepts data).
Proof.
  unfold read_checked. apply no_panic_bind; [apply no_panic_read_index_string|intros [value rest] _].
  apply no_panic_bind; [apply no_panic_check|]. by intros [] _.
Qed.

Lemma no_panic_accept_row st row : no_panic (accept_row st row).
Proof.
  unfold accept_row. apply no_panic_bind; [apply no_panic_check|intros [] _].
  destruct (last _); [|done]. destruct (String.eqb _ _); [done|].
  apply no_panic_bind; [apply no_panic_check|]. by intros [] _.
Qed.

Lemma no_panic_read_rows n st data : no_panic (read_rows n st data).
Proof.
  revert st data; induction n as [|n IH]; intros st data; cbn [read_rows]; [done|].
  apply no_panic_bind; [|intros [row data'] _].
  - unfold read_row. do 2 (apply no_panic_bind; [apply no_panic_read_index_string|intros [? ?] _];
      apply no_panic_bind; [apply no_panic_check|intros [] _]).
    apply no_panic_bind; [apply no_panic_read_index_string|intros [? ?] _].
    apply no_panic_bind; [apply no_panic_check|]. by intros [] _.
  - apply no_panic_bind; [apply no_panic_accept_row|intros st' _].
    apply no_panic_bind; [apply IH|]. by intros [[? ?] ?] _.
Qed.

Lemma no_panic_decodeMetadata `{Sha256} md rows dimension s : no_panic (decodeMetadata md rows dimension s).
Proof.
  unfold decodeMetadata. do 5 (apply no_panic_bind; [apply no_panic_read_checked|intros [? ?] _]).
  apply no_panic_bind; [apply no_panic_read_rows|intros [[? ?] ?] _].
  do 2 (apply no_panic_bind; [apply no_panic_check|intros [] _]). done.
Qed.

Lemma no_panic_read_scalars n b : length b = 4 * n → no_panic (read_scalars n b).
Proof.
  revert b; induction n as [|n IH]; intros b Hb; cbn [read_scalars]; [done|].
  apply no_panic_bind; [apply no_panic_found, (read_word_no_panic 4); lia|intros v _].
  apply no_panic_bind; [apply no_panic_check|intros [] _].
  apply no_panic_bind; [apply IH; rewrite length_drop; lia|]. by intros vs _.
Qed.

Lemma no_panic_mapR {A B} (f : A → ires B) l : (∀ x, x ∈ l → no_panic (f x)) → no_panic (mapR f l).
Proof.
  induction l as [|x l IH]; intros Hf; cbn [mapR]; [done|].
  apply no_panic_bind; [apply Hf; by left|intros y _].
  apply no_panic_bind; [apply IH; intros; apply Hf; by right|]. by intros ys _.
Qed.

(** The vector section holds every row's vector. *)
Definition sized (g : Generation) : Prop :=
  (0 <= g_dimension g)%Z ∧
  Z.of_nat (length (g_vectors g)) = (Z.of_nat (length (g_rows g)) * g_dimension g)%Z.

Lemma no_panic_vector g row : sized g → row < length (g_rows g) → no_panic (vector g row).
Proof.
  intros [Hd Hl] Hr. unfold vector. apply no_panic_found, subslice_Ok; [nia|]. rewrite Hl. nia.
Qed.

Lemma run_length_le setID rows : run_length setID rows ≤ length rows.
Proof. induction rows as [|row rows IH]; simpl; [done|]. destruct (String.eqb _ _); lia. Qed.

Lemma no_panic_validateMetricVector metric normalization v : no_panic (validateMetricVector metric normalization v).
Proof.
  unfold validateMetricVector. do 3 (apply no_panic_bind; [apply no_panic_check|intros [] _]). apply no_panic_check.
Qed.

(** Every round starts behind the row it looked at, so the fuel is enough. *)
Lemma no_panic_verify_from `{Sha256} fuel g start :
  sized g → length (g_rows g) - start ≤ fuel → no_panic (verify_from fuel g start).
Proof.
  intros Hsized. revert start; induction fuel as [|fuel IH]; intros start Hf; cbn [verify_from].
  - destruct (g_rows g !! start) as [row|] eqn:Hrow; [|done]. apply lookup_lt_Some in Hrow. lia.
  - destruct (g_rows g !! start) as [row|] eqn:Hrow; [|done]. apply lookup_lt_Some in Hrow.
    set (n := run_length _ _).
    assert (start + 1 + n ≤ length (g_rows g)) as Hend.
    { pose proof (run_length_le (SetID row) (drop (start + 1) (g_rows g))) as Hn. rewrite length_drop in Hn. lia. }
    apply no_panic_bind; [|intros set _].
    { unfold source_set. apply no_panic_bind; [|by intros vs _]. apply no_panic_mapR.
      intros i Hi%elem_of_seq. apply no_panic_vector; [done|lia]. }
    apply no_panic_bind; [|intros id _].
    { unfold set_identity. by destruct (EncodeVectorSetV1 _) as [[? ?]|]. }
    apply no_panic_bind; [apply no_panic_check|intros [] _]. apply IH. lia.
Qed.

Lemma no_panic_decodeGeneration {sha : Sha256} encoded : no_panic (decodeGeneration encoded).
Proof.
  unfold decodeGeneration. apply no_panic_bind; [apply no_panic_decodeHeader|].
  intros [[s rows] dimension] (body & Hwf & ->)%decodeHeader_inv.
  destruct (well_framed_bounds _ _ _ _ Hwf) as (Hr & Hd & Hs & Ht). destruct Hwf as (Hml & _ & Hco).
  pose proof (framed_length s rows dimension body) as Hlen. set (data := framed _ _ _ _) in *.
  assert (vectorOffset s = generationHeaderSize + metadataLength s
    ∧ checksumOffset s = vectorOffset s + rows * dimension * 4 ∧ metadataOffset s = generationHeaderSize)%Z as (Hvo & Hco' & Hmo)
    by (rewrite Hs; done).
  rewrite generationHeaderSize_value in *.
  apply no_panic_bind; [apply no_panic_found, subslice_Ok; rewrite ?length_app; nia|intros md _].
  apply no_panic_bind; [apply no_panic_decodeMetadata|].
  intros g (st & _ & _ & Hlr & Hdim & _ & _)%decodeMetadata_inv.
  apply no_panic_bind; [apply no_panic_found, subslice_Ok; rewrite ?length_app; nia|].
  intros vecs (_ & _ & Hlv & _)%subslice_inv.
  assert (length vecs = 4 * Z.to_nat (rows * dimension)) as Hlv' by nia.
  assert (∀ vs, length vs = Z.to_nat (rows * dimension) → sized (with_vectors g vs)) as Hsized.
  { intros vs Hvs. split; cbn [with_vectors g_dimension g_vectors g_rows]; rewrite Hdim; [lia|].
    rewrite Hvs, Hlr. nia. }
  apply no_panic_bind; [|intros g' Hg'].
  - unfold decodeVectors. rewrite Hlv', Nat.mul_comm, Nat.div_mul by done.
    apply no_panic_bind; [by apply no_panic_read_scalars|].
    intros vs (Hvs & _ & _)%read_scalars_iff; [|done].
    apply no_panic_bind; [|by intros us _]. apply no_panic_mapR. intros i Hi%elem_of_seq.
    apply no_panic_bind; [apply no_panic_vector; [by apply Hsized|lia]|].
    intros v _. apply no_panic_validateMetricVector.
  - apply (decodeVectors_iff _ _ _ _ Hlv') in Hg' as (vs & -> & Hvs & _).
    apply no_panic_bind; [|by intros [] _]. apply no_panic_verify_from; [by apply Hsized|lia].
Qed.
