(* ===== verification/VectorIndexProps.v ===== *)
(** * Building a generation

    What a built generation consists of: the members of the manifest in its
    order, each with its rows and vectors.

    Built generations read back, stored ones have one representation, and
    untrusted bytes are refused without a panic. *)
From Stdlib Require Import Floats.SpecFloat.
From stdpp Require Import sorting.
From S2P Require Import Prelude GoText Sha256 AuditEncoding Identity ModelInput Chunking LittleEndian Heap VectorSet VectorSetProps VectorIndex VectorIndexFacts VectorIndexOpen.

(** ** Options and manifest *)

Lemma normalizeOptions_bounds options bounds :
  normalizeOptions options = Ok bounds →
  (opt_MaxRows bounds <= defaultMaxRows)%Z ∧ (opt_MaxDimension bounds <= defaultMaxDimension)%Z ∧
  (opt_MaxBytes bounds <= defaultMaxBytes)%Z.
Proof.
  unfold normalizeOptions. intros [_ [Hc [= <-]]%check_bind_iff]%check_bind_iff.
  rewrite negb_true_iff, !orb_false_iff, !Z.ltb_ge in Hc. tauto.
Qed.

Lemma string_lt_compare x y : string_lt x y = true ↔ String.compare x y = Lt.
Proof.
  unfold string_lt, String.le, String.leb. rewrite andb_true_iff, bool_decide_eq_true, negb_true_iff, String.eqb_neq.
  destruct (String.compare x y) eqn:Hc.
  - apply String.compare_eq_iff in Hc. naive_solver.
  - split; [done|]. intros _. split; [done|]. intros ->. by rewrite string_compare_refl in Hc.
  - naive_solver.
Qed.

(** The members ascend strictly. *)
Lemma check_members_sorted previous setIDs :
  check_members previous setIDs = Ok () →
  Forall (λ id, IsSHA256Hex id = true) setIDs ∧
  StronglySorted (λ x y, string_lt x y = true) (option_list previous ++ setIDs).
Proof.
  revert previous; induction setIDs as [|id rest IH]; intros previous; cbn [check_members].
  { intros _. split; [constructor|]. destruct previous; cbn; repeat constructor. }
  intros [Hid [Hlt Hrest]%check_bind_iff]%check_bind_iff. apply IH in Hrest as [Hids Hs].
  split; [by constructor|]. cbn [option_list app] in Hs. destruct previous as [p|]; [|exact Hs].
  cbn [option_list app]. constructor; [exact Hs|]. apply StronglySorted_inv in Hs as [_ Hall].
  constructor; [done|]. eapply Forall_impl; [exact Hall|]. intros y Hy. cbn beta in *.
  rewrite !string_lt_compare in *. by apply (cmp_trans _ _ string_compare_laws _ id).
Qed.

Lemma sorted_ids_distinct setIDs : StronglySorted (λ x y, string_lt x y = true) setIDs → NoDup setIDs.
Proof.
  induction 1 as [|id rest Hs IH Hall]; constructor; [|done]. intros Hin. rewrite Forall_forall in Hall.
  specialize (Hall _ Hin). apply string_lt_compare in Hall. by rewrite string_compare_refl in Hall.
Qed.

(** ** The preflight *)

(** The length of a framed string, and of the three of a row. *)
Definition framed_length_of (s : string) : Z := (4 + Z.of_nat (slen s))%Z.
Definition row_length (row : string * string * list float32) : Z :=
  (68 + framed_length_of row.1.1 + framed_length_of row.1.2)%Z.
Definition set_rows (set : VectorSetV1) : list (string * string * list float32) :=
  zip3 (InputKeys set) (InputChecksums set) (Vectors set).
Definition sum_Z (l : list Z) : Z := foldr Z.add 0%Z l.

Lemma sum_Z_app l1 l2 : sum_Z (l1 ++ l2) = (sum_Z l1 + sum_Z l2)%Z.
Proof. unfold sum_Z. rewrite foldr_app. induction l1 as [|x l1 IH]; cbn [foldr]; lia. Qed.

#[export] Instance sum_Z_perm : Proper ((≡ₚ) ==> (=)) sum_Z.
Proof. induction 1; cbn in *; unfold sum_Z in *; lia. Qed.

Lemma addFramedIdentityLength_Ok total n total' :
  addFramedIdentityLength total n = Ok total' → total' = (total + (4 + n))%Z.
Proof.
  unfold addFramedIdentityLength, checkedAdd. intros [_ H]%check_bind_iff.
  destruct (_ <? 4)%Z; [done|]. cbn [from_lookup mbind result_bind] in H. destruct (_ <? total)%Z; [done|].
  by injection H as <-.
Qed.

Lemma addFramedStringLength_Ok total s total' :
  addFramedStringLength total s = Ok total' → total' = (total + framed_length_of s)%Z.
Proof.
  unfold addFramedStringLength, framed_length_of. by intros [_ H%addFramedIdentityLength_Ok]%check_bind_iff.
Qed.

Record sound_row (set : VectorSetV1) (row : string * string * list float32) : Prop := {
  sr_length : Z.of_nat (length row.2) = Dimension set;
  sr_key : string_ok row.1.1;
  sr_checksum : IsSHA256Hex row.1.2 = true;
  sr_metric : validateMetricVector (Metric set) (Normalization set) row.2 = Ok ();
}.

Lemma preflight_index_row_Ok set total row total' :
  preflight_index_row set total row = Ok total' → sound_row set row ∧ total' = (total + row_length row)%Z.
Proof.
  destruct row as [[key checksum] vector]. unfold preflight_index_row, row_length. cbn [fst snd].
  intros [Hl%Z.eqb_eq [Hid H]%check_bind_iff]%check_bind_iff.
  apply andb_true_iff in Hid as [Hk%validIdentity_iff Hc].
  apply bind_Ok_iff in H as ([] & Hm & H). apply bind_Ok_iff in H as (t1 & ->%addFramedIdentityLength_Ok & H).
  apply bind_Ok_iff in H as (t2 & ->%addFramedStringLength_Ok & ->%addFramedStringLength_Ok).
  split; [by constructor|]. lia.
Qed.

Lemma preflight_rows_Ok set total rows total' :
  foldM (preflight_index_row set) total rows = Ok total' →
  Forall (sound_row set) rows ∧ total' = (total + sum_Z (row_length <$> rows))%Z.
Proof.
  revert total; induction rows as [|row rows IH]; intros total; cbn [foldM].
  { intros [= <-]. split; [constructor|]. cbn. lia. }
  intros (t & [Hrow ->]%preflight_index_row_Ok & [Hrows ->]%IH)%bind_Ok_iff.
  split; [by constructor|]. cbn [fmap list_fmap sum_Z foldr]. unfold sum_Z. lia.
Qed.

(** What the preflight establishes about a set. *)
Record sound_set (p : buildProjection) (set : VectorSetV1) : Prop := {
  ss_space : VectorSpaceFingerprint set = p_space p;
  ss_metric : Metric set = p_metric p;
  ss_normalization : Normalization set = p_normalization p;
  ss_dimension : Dimension set = p_dimension p;
  ss_valid : IsSHA256Hex (VectorSpaceFingerprint set) = true ∧ IsValidVectorMetric (Metric set) = true ∧
             validNormalization (Normalization set) = true ∧ (1 <= Dimension set)%Z;
  ss_nonempty : length (Vectors set) ≠ 0;
  ss_keys : length (InputKeys set) = length (Vectors set);
  ss_checksums : length (InputChecksums set) = length (Vectors set);
  ss_rows : Forall (sound_row set) (set_rows set);
}.

Definition same_space (p q : buildProjection) : Prop :=
  p_space p = p_space q ∧ p_metric p = p_metric q ∧ p_normalization p = p_normalization q ∧
  p_dimension p = p_dimension q.

Lemma preflight_set_Ok bounds first p set p' :
  preflight_set bounds first p set = Ok p' →
  (first = false → same_space p p') ∧ sound_set p' set ∧
  p_rowCount p' = (p_rowCount p + Z.of_nat (length (Vectors set)))%Z ∧
  p_metadataLength p' = (p_metadataLength p + sum_Z (row_length <$> set_rows set))%Z.
Proof.
  unfold preflight_set. intros [H1 [H2 [H3 H]%check_bind_iff]%check_bind_iff]%check_bind_iff.
  rewrite !andb_true_iff in H1. destruct H1 as [[Hsp Hm] Hn].
  rewrite andb_true_iff, !Z.leb_le in H2. rewrite !andb_true_iff, negb_true_iff, Nat.eqb_neq, !Nat.eqb_eq in H3.
  apply bind_Ok_iff in H as (q & Hq & H). apply bind_Ok_iff in H as (total & [Hrows ->]%preflight_rows_Ok & [= <-]).
  cbn [p_space p_metric p_normalization p_dimension p_rowCount p_metadataLength].
  assert ((first = false → q = p) ∧ same_space q (mkProjection (VectorSpaceFingerprint set) (Metric set)
    (Normalization set) (Dimension set) 0 0) ∧ p_rowCount q = p_rowCount p ∧ p_metadataLength q = p_metadataLength p)
    as (Hfirst & Hspace & Hrc & Hml).
  { destruct first; [by injection Hq as <-|]. apply check_bind_iff in Hq as [Hq [= <-]].
    rewrite !andb_true_iff, !String.eqb_eq, Z.eqb_eq in Hq. unfold same_space. cbn. intuition congruence. }
  destruct Hspace as (E1 & E2 & E3 & E4). cbn [p_space p_metric p_normalization p_dimension] in *.
  split_and!; [intros Hf; by rewrite (Hfirst Hf)| |by rewrite Hrc|by rewrite Hml].
  constructor; cbn [p_space p_metric p_normalization p_dimension]; try tauto; try done; by split_and!.
Qed.

Lemma sound_set_same_space p q set : same_space p q → sound_set p set → sound_set q set.
Proof. intros (E1 & E2 & E3 & E4) [? ? ? ? ? ? ? ? ?]. constructor; congruence || done. Qed.

Lemma preflight_sets_Ok bounds first p sets p' :
  preflight_sets bounds first p sets = Ok p' →
  (first = false → same_space p p') ∧ Forall (sound_set p') sets ∧
  p_rowCount p' = (p_rowCount p + sum_Z ((λ set, Z.of_nat (length (Vectors set))) <$> sets))%Z ∧
  p_metadataLength p' = (p_metadataLength p + sum_Z ((λ set, sum_Z (row_length <$> set_rows set)) <$> sets))%Z.
Proof.
  revert first p; induction sets as [|set sets IH]; intros first p; cbn [preflight_sets].
  { intros [= <-]. split_and!; [by repeat split|constructor|cbn; lia|cbn; lia]. }
  intros (q & (Hf & Hset & Hr & Hm)%preflight_set_Ok & (Hsame & Hsets & Hr' & Hm')%IH)%bind_Ok_iff.
  specialize (Hsame eq_refl). split_and!.
  - intros Hfalse. destruct (Hf Hfalse) as (? & ? & ? & ?), Hsame as (? & ? & ? & ?). unfold same_space. split_and!; congruence.
  - constructor; [|done]. by apply (sound_set_same_space q).
  - rewrite Hr', Hr. cbn [fmap list_fmap sum_Z foldr]. unfold sum_Z. lia.
  - rewrite Hm', Hm. cbn [fmap list_fmap sum_Z foldr]. unfold sum_Z. lia.
Qed.

(** ** The members *)

(** A member of the manifest with its set. *)
Notation part := (string * VectorSetV1)%type.

Lemma index_sets_Ok `{Sha256} byID sets byID' :
  foldM index_set byID sets = Ok byID' →
  ∃ ids, Forall2 (λ set id, set_identity set = Ok id) sets ids ∧ NoDup ids ∧
    (∀ id, id ∈ ids → byID !! id = None) ∧
    (∀ id set, byID' !! id = Some set → (id, set) ∈ zip ids sets ∨ byID !! id = Some set).
Proof.
  revert byID; induction sets as [|set sets IH]; intros byID; cbn [foldM].
  { intros [= <-]. exists []. split_and!; [constructor|constructor|by intros id ?%elem_of_nil|by right]. }
  unfold index_set at 1. intros (b1 & Hb1 & Hrest)%bind_Ok_iff.
  apply bind_Ok_iff in Hb1 as (id & Hid & Hb1). apply check_bind_iff in Hb1 as [Hnew%bool_decide_eq_true [= <-]].
  destruct (IH _ Hrest) as (ids & Hids & Hnd & Hfresh & Hlookup). exists (id :: ids). split_and!.
  - by constructor.
  - constructor; [|done]. intros Hin. specialize (Hfresh _ Hin). by rewrite lookup_insert_eq in Hfresh.
  - intros id' [-> |Hin]%elem_of_cons; [done|]. specialize (Hfresh _ Hin).
    destruct (decide (id' = id)) as [-> |Hne]; [by rewrite lookup_insert_eq in Hfresh|].
    by rewrite lookup_insert_ne in Hfresh.
  - intros id' set' [Hin|Hl]%Hlookup; [left; by right|].
    destruct (decide (id' = id)) as [-> |Hne].
    + rewrite lookup_insert_eq in Hl. injection Hl as ->. left. by left.
    + rewrite lookup_insert_ne in Hl by done. by right.
Qed.

Definition part_rows (p : part) : list RowIdentity := member_rows p.1 p.2.

Lemma append_members_Ok byID st setIDs st' :
  foldM (append_member byID) st setIDs = Ok st' →
  ∃ parts : list part, parts.*1 = setIDs ∧ Forall (λ p, byID !! p.1 = Some p.2) parts ∧
    st' = (st.1 ++ concat (part_rows <$> parts), st.2 ++ concat (concat ((λ p, Vectors p.2) <$> parts))).
Proof.
  revert st; induction setIDs as [|id setIDs IH]; intros st; cbn [foldM].
  { intros [= <-]. exists []. cbn. rewrite !app_nil_r. by destruct st. }
  unfold append_member at 1.
  intros (st1 & (set & Hset%from_lookup_Ok_iff & [= <-])%bind_Ok_iff & (parts & <- & Hparts & ->)%IH)%bind_Ok_iff.
  exists ((id, set) :: parts). split_and!; [done|by constructor|]. cbn [fst snd fmap list_fmap concat].
  by rewrite concat_app, <- !app_assoc.
Qed.

(** Every set is exactly one member. *)
Lemma members_are_sets `{Sha256} (parts : list part) ids sets :
  NoDup parts.*1 → length sets = length parts →
  Forall2 (λ set id, set_identity set = Ok id) sets ids → NoDup ids →
  Forall (λ p, p ∈ zip ids sets) parts →
  parts.*2 ≡ₚ sets ∧ Forall (λ p, set_identity p.2 = Ok p.1) parts.
Proof.
  intros Hnd Hlen Hids Hndi Hin. pose proof (Forall2_length _ _ _ Hids) as Hl.
  assert (parts ≡ₚ zip ids sets) as Hperm.
  { apply submseteq_length_Permutation.
    - apply NoDup_submseteq; [by apply NoDup_fmap_1 in Hnd|]. by apply Forall_forall.
    - rewrite length_zip. lia. }
  split.
  - rewrite Hperm, snd_zip by lia. done.
  - eapply Forall_impl; [exact Hin|]. intros [id set] Hz. cbn [fst snd].
    apply list_elem_of_lookup in Hz as [i Hz]. apply lookup_zip_Some in Hz as [Hi Hs].
    by apply (Forall2_lookup_lr _ _ _ i _ _ Hids).
Qed.

(** ** Rows *)

Lemma length_member_rows id set :
  length (InputKeys set) = length (Vectors set) → length (InputChecksums set) = length (Vectors set) →
  length (member_rows id set) = length (Vectors set).
Proof. intros Hk Hc. unfold member_rows. rewrite length_zip_with. lia. Qed.

Lemma member_rows_ids id set : Forall (λ row, SetID row = id) (member_rows id set).
Proof.
  apply Forall_forall. intros row Hin. unfold member_rows in Hin.
  by apply elem_of_lookup_zip_with in Hin as (i & k & c & -> & _).
Qed.

Lemma member_rows_fields id set :
  length (InputKeys set) = length (Vectors set) → length (InputChecksums set) = length (Vectors set) →
  InputKey <$> member_rows id set = InputKeys set ∧ InputChecksum <$> member_rows id set = InputChecksums set.
Proof.
  intros Hk Hc. unfold member_rows. rewrite (zip_with_zip (mkRow id)), <- !list_fmap_compose.
  pose proof (fst_zip (InputKeys set) (InputChecksums set) ltac:(lia)) as H1.
  pose proof (snd_zip (InputKeys set) (InputChecksums set) ltac:(lia)) as H2.
  split; [rewrite <- H1 at 2|rewrite <- H2 at 2]; apply list_fmap_ext; by intros _ [k c] _.
Qed.

(** ** Grouped rows pass the row loop *)

Definition seen_known (st : row_state) : Prop := ∀ x, x ∈ seenRows st → x.1 ∈ rs_setIDs st.

Lemma accept_same st id rows :
  last (rs_setIDs st) = Some id → Forall (λ row, SetID row = id) rows → NoDup (InputKey <$> rows) →
  (∀ row, row ∈ rows → (id, InputKey row) ∉ seenRows st) → seen_known st →
  ∃ st', foldM accept_row st rows = Ok st' ∧ rs_setIDs st' = rs_setIDs st ∧ seen_known st'.
Proof.
  revert st; induction rows as [|row rows IH]; intros st Hlast Hids Hnd Hfresh Hknown; [by exists st|].
  apply Forall_cons in Hids as [<- Hids]. cbn [fmap list_fmap] in Hnd. apply NoDup_cons in Hnd as [Hnin Hnd].
  assert (accept_row st row = Ok (mkRowState ({[(SetID row, InputKey row)]} ∪ seenRows st) (rs_setIDs st))) as Hrow.
  { unfold accept_row. rewrite check_bind_true by (apply bool_decide_eq_true, Hfresh; by left).
    by rewrite Hlast, String.eqb_refl. }
  cbn [foldM]. rewrite Hrow. cbn [mbind result_bind].
  apply (IH (mkRowState ({[(SetID row, InputKey row)]} ∪ seenRows st) (rs_setIDs st))); cbn [seenRows rs_setIDs]; try done.
  - intros row' Hin Hseen. apply elem_of_union in Hseen as [[= Hk]%elem_of_singleton|Hseen].
    + apply Hnin. rewrite <- Hk. by apply list_elem_of_fmap_2.
    + by apply (Hfresh row'); [right|].
  - intros x [->%elem_of_singleton|Hx]%elem_of_union; cbn [fst rs_setIDs]; [|by apply Hknown].
    apply last_Some in Hlast as [l ->]. apply elem_of_app. right. by left.
Qed.

Lemma accept_part st id rows :
  rows ≠ [] → (∀ x, x ∈ rs_setIDs st → string_lt x id = true) → Forall (λ row, SetID row = id) rows →
  NoDup (InputKey <$> rows) → seen_known st →
  ∃ st', foldM accept_row st rows = Ok st' ∧ rs_setIDs st' = rs_setIDs st ++ [id] ∧ seen_known st'.
Proof.
  intros Hne Hlt Hids Hnd Hknown. destruct rows as [|row rows]; [done|]. apply Forall_cons in Hids as [<- Hids].
  assert (SetID row ∉ rs_setIDs st) as Hnew.
  { intros Hin%Hlt%string_lt_compare. by rewrite string_compare_refl in Hin. }
  set (st1 := mkRowState ({[(SetID row, InputKey row)]} ∪ seenRows st) (rs_setIDs st ++ [SetID row])).
  assert (accept_row st row = Ok st1) as Hfirst.
  { unfold accept_row. rewrite check_bind_true by (apply bool_decide_eq_true; intros Hin; by apply Hnew, (Hknown _ Hin)).
    destruct (last (rs_setIDs st)) as [p|] eqn:Hlast; [|done].
    assert (p ∈ rs_setIDs st) as Hp by (apply last_Some in Hlast as [l ->]; apply elem_of_app; right; by left).
    destruct (String.eqb_spec p (SetID row)) as [->|_]; [done|]. by rewrite check_bind_true by (by apply Hlt). }
  cbn [foldM]. rewrite Hfirst. cbn [mbind result_bind]. cbn [fmap list_fmap] in Hnd. apply NoDup_cons in Hnd as [Hnin Hnd].
  apply (accept_same st1 (SetID row)); try done.
  - cbn [st1 rs_setIDs]. by rewrite last_snoc.
  - intros row' Hin [[= Hk]%elem_of_singleton|Hseen]%elem_of_union.
    + apply Hnin. rewrite <- Hk. by apply list_elem_of_fmap_2.
    + by apply Hnew, (Hknown _ Hseen).
  - intros x [->%elem_of_singleton|Hx]%elem_of_union; cbn [st1 rs_setIDs fst]; apply elem_of_app; [right; by left|].
    left. by apply Hknown.
Qed.

Lemma accept_parts st (parts : list part) :
  StronglySorted (λ x y, string_lt x y = true) (rs_setIDs st ++ parts.*1) →
  Forall (λ p, part_rows p ≠ [] ∧ NoDup (InputKey <$> part_rows p)) parts → seen_known st →
  ∃ st', foldM accept_row st (concat (part_rows <$> parts)) = Ok st' ∧ rs_setIDs st' = rs_setIDs st ++ parts.*1.
Proof.
  revert st; induction parts as [|p parts IH]; intros st Hs Hparts Hknown.
  { exists st. cbn. by rewrite app_nil_r. }
  apply Forall_cons in Hparts as [[Hne Hnd] Hparts]. cbn [fmap list_fmap concat]. rewrite foldM_app.
  destruct (accept_part st p.1 (part_rows p)) as (st1 & -> & Hst1 & Hk1); try done.
  { intros x Hx. apply StronglySorted_app in Hs as (Hlt & _ & _). apply Hlt; [done|by left]. }
  { apply member_rows_ids. }
  cbn [mbind result_bind]. cbn [fmap list_fmap] in Hs. rewrite cons_middle, app_assoc, <- Hst1 in Hs.
  destruct (IH st1 Hs Hparts Hk1) as (st' & -> & Heq). exists st'. split; [done|].
  by rewrite Heq, Hst1, <- app_assoc.
Qed.

(** ** Vectors *)

Definition all_vectors (parts : list part) : list (list float32) := concat ((λ p, Vectors p.2) <$> parts).

Lemma slice_concat {A} (vs : list (list A)) d i v :
  Forall (λ v, length v = d) vs → vs !! i = Some v → take d (drop (i * d) (concat vs)) = v.
Proof.
  revert i; induction vs as [|w vs IH]; intros i Hd Hi; [done|]. apply Forall_cons in Hd as [<- Hd].
  destruct i as [|i]; cbn [lookup list_lookup] in Hi.
  - injection Hi as ->. rewrite Nat.mul_0_l, drop_0. cbn [concat]. apply take_app_length.
  - cbn [concat]. rewrite Nat.mul_succ_l, Nat.add_comm, drop_app_add. by apply IH.
Qed.

(** The generation without negative zeros: what a stored one reads back as. *)
Definition canonical_generation (g : Generation) : Generation :=
  with_vectors g (map f32_canonical (g_vectors g)).

Lemma length_concat_rows {A} (vs : list (list A)) d :
  Forall (λ v, length v = d) vs → length (concat vs) = length vs * d.
Proof. induction 1 as [|v vs <- Hvs IH]; [done|]. cbn [concat length]. rewrite length_app, IH. lia. Qed.

(** The vector of a row is there when the section is made of such vectors. *)
Lemma vector_concat g vs i v :
  (0 <= g_dimension g)%Z → g_vectors g = concat vs →
  Forall (λ v, length v = Z.to_nat (g_dimension g)) vs → vs !! i = Some v → vector g i = Ok v.
Proof.
  intros H0 Hv Hd Hi. pose proof (lookup_lt_Some _ _ _ Hi). unfold vector.
  rewrite subslice_eq; [|nia|rewrite Hv, (length_concat_rows _ _ Hd); nia]. f_equal.
  replace (Z.to_nat (_ - _)) with (Z.to_nat (g_dimension g)) by lia.
  replace (Z.to_nat (_ * _)) with (i * Z.to_nat (g_dimension g)) by nia.
  rewrite Hv. by apply slice_concat.
Qed.

Lemma canonical_vectors g vs :
  (0 <= g_dimension g)%Z →
  g_vectors g = concat vs → Forall (λ v, length v = Z.to_nat (g_dimension g)) vs →
  vector (canonical_generation g) <$> seq 0 (length vs) = (λ v, Ok (map f32_canonical v)) <$> vs.
Proof.
  intros H0 Hv Hd. apply list_eq. intros i. rewrite !list_lookup_fmap.
  destruct (vs !! i) as [v|] eqn:Hi.
  - rewrite lookup_seq_lt by (by apply lookup_lt_Some in Hi). cbn. f_equal.
    apply (vector_concat _ (map f32_canonical <$> vs)); [done| | |by rewrite list_lookup_fmap, Hi].
    + cbn [canonical_generation with_vectors g_vectors]. by rewrite Hv, concat_map.
    + apply Forall_fmap. eapply Forall_impl; [exact Hd|]. intros w Hw. cbn. by rewrite length_map.
  - rewrite lookup_seq_ge by (by apply lookup_ge_None in Hi). done.
Qed.

Lemma square_canonical b :
  let x := float64_of_float32 (f32_canonical b) in let y := float64_of_float32 b in f64_mul x x = f64_mul y y.
Proof.
  unfold f32_canonical. destruct (f32_is_zero b) eqn:Hz; [|done]. unfold float64_of_float32.
  apply f32_zero_parts in Hz as [-> ->].
  by destruct (f32_negative b).
Qed.

Lemma square_sum_canonical v : square_sum (map f32_canonical v) = square_sum v.
Proof.
  unfold square_sum. generalize f64_zero. induction v as [|b v IH]; intros acc; [done|]. cbn [map fold_left].
  rewrite IH. f_equal. f_equal. apply square_canonical.
Qed.

Lemma validateMetricVector_canonical metric normalization v :
  validateMetricVector metric normalization (map f32_canonical v) = validateMetricVector metric normalization v.
Proof.
  unfold validateMetricVector. rewrite square_sum_canonical. f_equal.
  assert (forallb f32_finite (map f32_canonical v) = forallb f32_finite v) as ->; [|done].
  induction v as [|b v IH]; [done|]. cbn [map forallb]. by rewrite f32_canonical_finite, IH.
Qed.

(** ** Grouped rows pass the identity check *)

Definition part_sound (g : Generation) (p : part) : Prop :=
  length (Vectors p.2) ≠ 0 ∧ length (InputKeys p.2) = length (Vectors p.2) ∧
  length (InputChecksums p.2) = length (Vectors p.2) ∧
  g_vectorSpaceID g = VectorSpaceFingerprint p.2 ∧ g_metric g = Metric p.2 ∧
  g_normalization g = Normalization p.2 ∧ g_dimension g = Dimension p.2.

Lemma length_parts g (parts : list part) :
  Forall (part_sound g) parts → length (concat (part_rows <$> parts)) = length (all_vectors parts).
Proof.
  unfold all_vectors. induction 1 as [|p parts (_ & Hk & Hc & _) Hs IH]; [done|]. cbn [fmap list_fmap concat].
  rewrite !length_app, IH. unfold part_rows. by rewrite length_member_rows.
Qed.

Lemma run_length_part id rows rest :
  Forall (λ row, SetID row = id) rows →
  (∀ row, head rest = Some row → SetID row ≠ id) → run_length id (rows ++ rest) = length rows.
Proof.
  induction 1 as [|row rows <- Hrows IH]; intros Hrest; cbn [app length run_length].
  - destruct rest as [|row rest]; [done|]. cbn [run_length]. destruct (String.eqb_spec (SetID row) id) as [He|]; [|done].
    by destruct (Hrest row).
  - rewrite String.eqb_refl. by rewrite IH.
Qed.

Lemma head_parts g (parts : list part) row :
  Forall (part_sound g) parts → head (concat (part_rows <$> parts)) = Some row → SetID row ∈ parts.*1.
Proof.
  intros Hs Hrow. destruct Hs as [|p parts (Hne & Hk & Hc & _) Hs]; [done|]. cbn [fmap list_fmap concat] in *.
  apply elem_of_cons. left.
  pose proof (member_rows_ids p.1 p.2) as Hids. pose proof (length_member_rows p.1 p.2 Hk Hc) as Hl.
  unfold part_rows in Hrow at 1. destruct (member_rows p.1 p.2) as [|row' rows]; [simpl in Hl; lia|].
  cbn in Hrow. injection Hrow as ->. by apply Forall_cons in Hids as [-> _].
Qed.

Lemma mapR_all {A B C} (f : A → ires B) (h : C → B) l l' :
  f <$> l = (λ c, Ok (h c)) <$> l' → mapR f l = Ok (h <$> l').
Proof.
  revert l'; induction l as [|a l IH]; intros [|c l']; try done. cbn [fmap list_fmap mapR]. intros [= Ha Hl].
  rewrite Ha. cbn [mbind result_bind]. by rewrite (IH l' Hl).
Qed.

(** The set that the check cuts out is the canonical form of the member. *)
Lemma source_set_part g (before rest : list part) p :
  Forall (part_sound g) (before ++ p :: rest) →
  g_rows g = concat (part_rows <$> (before ++ p :: rest)) →
  vector g <$> seq 0 (length (g_rows g)) = (λ v, Ok (map f32_canonical v)) <$> all_vectors (before ++ p :: rest) →
  let start := length (concat (part_rows <$> before)) in
  source_set g start (start + length (Vectors p.2)) = Ok (canonical_set p.2).
Proof.
  intros Hs Hrows Hvec start. pose proof Hs as [Hb [Hp Hr]%Forall_cons]%Forall_app.
  destruct Hp as (Hne & Hk & Hc & E1 & E2 & E3 & E4).
  pose proof (length_member_rows p.1 p.2 Hk Hc) as Hl. destruct (member_rows_fields p.1 p.2 Hk Hc) as [Hmk Hmc].
  assert (take (length (Vectors p.2)) (drop start (g_rows g)) = part_rows p) as Htake.
  { rewrite Hrows, fmap_app, concat_app. cbn [fmap list_fmap concat]. unfold start. rewrite drop_app_length.
    apply take_app_length'. by unfold part_rows. }
  assert (start + length (Vectors p.2) ≤ length (g_rows g)) as Hle.
  { rewrite Hrows, fmap_app, concat_app, length_app. cbn [fmap list_fmap concat]. rewrite length_app.
    unfold part_rows at 2. rewrite Hl. fold start. lia. }
  assert (vector g <$> seq start (length (Vectors p.2)) = (λ v, Ok (map f32_canonical v)) <$> Vectors p.2) as Hv.
  { transitivity (take (length (Vectors p.2)) (drop start (vector g <$> seq 0 (length (g_rows g))))).
    - rewrite <- fmap_drop, <- fmap_take. f_equal. rewrite drop_seq, take_seq. f_equal. lia.
    - rewrite Hvec. unfold start. rewrite (length_parts g _ Hb). unfold all_vectors. rewrite fmap_app, concat_app.
      cbn [fmap list_fmap concat]. rewrite <- fmap_drop, drop_app_length, <- fmap_take, take_app_length. done. }
  unfold source_set, canonical_set. replace (start + length (Vectors p.2) - start) with (length (Vectors p.2)) by lia.
  rewrite (mapR_all _ _ _ _ Hv). cbn [mbind result_bind].
  rewrite Htake, E1, E2, E3, E4. unfold part_rows. by rewrite Hmk, Hmc.
Qed.

Lemma set_identity_canonical `{Sha256} set id : set_identity set = Ok id → set_identity (canonical_set set) = Ok id.
Proof.
  unfold set_identity. destruct (EncodeVectorSetV1 set) as [[enc id']|] eqn:He; [|done]. intros [= <-].
  pose proof (EncodeVectorSetV1_valid _ _ He) as Hv. rewrite (EncodeVectorSetV1_layout _ Hv) in He. injection He as <- <-.
  rewrite (EncodeVectorSetV1_layout _ (canonical_set_valid _ Hv)).
  assert (canonical_set (canonical_set set) = canonical_set set) as ->; [|done].
  unfold canonical_set. cbn. f_equal. rewrite map_map. apply map_ext. intros v. rewrite map_map. apply map_ext.
  apply f32_canonical_idem.
Qed.

Lemma verify_parts `{Sha256} g (before rest : list part) fuel :
  NoDup (before ++ rest).*1 → Forall (part_sound g) (before ++ rest) →
  g_rows g = concat (part_rows <$> (before ++ rest)) →
  vector g <$> seq 0 (length (g_rows g)) = (λ v, Ok (map f32_canonical v)) <$> all_vectors (before ++ rest) →
  Forall (λ p, set_identity p.2 = Ok p.1) rest →
  length (concat (part_rows <$> rest)) ≤ fuel →
  verify_from fuel g (length (concat (part_rows <$> before))) = Ok ().
Proof.
  revert before fuel; induction rest as [|p rest IH]; intros before fuel Hnd Hs Hrows Hvec Hids Hfuel.
  { rewrite app_nil_r in Hrows. assert (g_rows g !! length (concat (part_rows <$> before)) = None) as Hend
      by (apply lookup_ge_None; by rewrite Hrows).
    destruct fuel; cbn [verify_from]; by rewrite Hend. }
  apply Forall_cons in Hids as [Hid Hids]. pose proof Hs as [Hb [Hp Hr]%Forall_cons]%Forall_app.
  pose proof Hp as (Hne & Hk & Hc & _). pose proof (length_member_rows p.1 p.2 Hk Hc) as Hl.
  set (start := length (concat (part_rows <$> before))). cbn [fmap list_fmap concat] in Hfuel.
  rewrite length_app in Hfuel. unfold part_rows in Hfuel at 1. rewrite Hl in Hfuel.
  destruct fuel as [|fuel]; [lia|]. cbn [verify_from].
  assert (drop start (g_rows g) = part_rows p ++ concat (part_rows <$> rest)) as Hdrop.
  { rewrite Hrows, fmap_app, concat_app. cbn [fmap list_fmap concat]. apply drop_app_length. }
  unfold part_rows at 1 in Hdrop. pose proof (member_rows_ids p.1 p.2) as Hall.
  destruct (member_rows p.1 p.2) as [|row rows] eqn:Hmr; [simpl in Hl; lia|].
  assert (g_rows g !! start = Some row) as ->.
  { rewrite <- (Nat.add_0_r start), <- lookup_drop, Hdrop. done. }
  apply Forall_cons in Hall as [Hrow Hall].
  assert (drop (start + 1) (g_rows g) = rows ++ concat (part_rows <$> rest)) as ->.
  { rewrite <- drop_drop, Hdrop. done. }
  rewrite Hrow, run_length_part; [|done|].
  2:{ intros row' Hrow' He. rewrite fmap_app in Hnd. apply NoDup_app in Hnd as (_ & _ & Hnd).
      cbn [fmap list_fmap] in Hnd. apply NoDup_cons in Hnd as [Hnin _]. apply Hnin. rewrite <- He.
      by apply (head_parts g). }
  assert (start + 1 + length rows = start + length (Vectors p.2)) as -> by (simpl in Hl; lia).
  pose proof (source_set_part g before rest p Hs Hrows Hvec) as Hsource. cbv zeta in Hsource. fold start in Hsource.
  rewrite Hsource. cbn [mbind result_bind].
  rewrite (set_identity_canonical _ _ Hid). cbn [mbind result_bind]. rewrite check_bind_true by apply String.eqb_refl.
  replace (start + length (Vectors p.2)) with (length (concat (part_rows <$> (before ++ [p])))).
  2:{ rewrite fmap_app, concat_app, length_app. cbn [fmap list_fmap concat]. rewrite app_nil_r. unfold part_rows at 2.
      rewrite Hmr. fold start. lia. }
  assert ((before ++ [p]) ++ rest = before ++ p :: rest) as Heq by (by rewrite <- app_assoc).
  apply (IH (before ++ [p])); rewrite ?Heq; try done. lia.
Qed.

(** ** A built generation *)

(** What [BuildGeneration] puts together. *)
Record built `{Sha256} (manifest : Manifest) (sets : list VectorSetV1) (g : Generation) (parts : list part) : Prop := {
  bu_manifest : g_manifest g = manifest ∧ parts.*1 = SetIDs manifest ∧ validateManifest manifest = Ok ();
  bu_sets : parts.*2 ≡ₚ sets;
  bu_ids : Forall (λ p, set_identity p.2 = Ok p.1) parts;
  bu_rows : g_rows g = concat (part_rows <$> parts);
  bu_vectors : g_vectors g = concat (all_vectors parts);
  bu_parts : Forall (part_sound g) parts;
  bu_checked : Forall (λ p, Forall (sound_row p.2) (set_rows p.2)) parts;
  bu_space : IsSHA256Hex (g_vectorSpaceID g) = true ∧ IsValidVectorMetric (g_metric g) = true ∧
             validNormalization (g_normalization g) = true;
  bu_sections : ∃ mb, (mb <= defaultMaxBytes)%Z ∧
    computeSections (Z.of_nat (length (index_metadata g))) (Z.of_nat (length (g_rows g))) (g_dimension g) mb
      = Ok (g_sections g);
}.

Lemma manifest_ids `{Sha256} manifest :
  validateManifest manifest = Ok () →
  Forall (λ id, IsSHA256Hex id = true) (SetIDs manifest) ∧
  StronglySorted (λ x y, string_lt x y = true) (SetIDs manifest) ∧
  Manifest_Checksum manifest = manifestChecksum (SetIDs manifest) ∧
  IsSHA256Hex (Manifest_Checksum manifest) = true ∧ SetIDs manifest ≠ [].
Proof.
  unfold validateManifest. intros [Hne H1]%check_bind_iff.
  apply bind_Ok_iff in H1 as ([] & [Hids Hs]%check_members_sorted & [Hd Hc%String.eqb_eq]%check_Ok_iff%andb_true_iff).
  split_and!; [done|exact Hs|done|done|]. intros He. by rewrite He in Hne.
Qed.

(** The length of the rows' metadata is what the preflight adds up. *)
Lemma length_frame s : Z.of_nat (length (appendString s)) = framed_length_of s.
Proof. unfold appendString, AppendUint32, framed_length_of. rewrite length_app, length_le_bytes, length_bs. lia. Qed.

Lemma digest_length s : IsSHA256Hex s = true → slen s = 64.
Proof. unfold IsSHA256Hex, isLowerHex. by intros [Hl%Nat.eqb_eq _]%andb_true_iff. Qed.

Lemma length_part_rows id set :
  IsSHA256Hex id = true → length (InputKeys set) = length (Vectors set) →
  length (InputChecksums set) = length (Vectors set) →
  Z.of_nat (length (concat (row_bytes <$> member_rows id set))) = sum_Z (row_length <$> set_rows set).
Proof.
  intros Hid%digest_length Hk Hc. unfold member_rows, set_rows, zip3.
  revert Hk Hc. generalize (InputKeys set), (InputChecksums set), (Vectors set). intros ks cs vs.
  revert cs vs; induction ks as [|k ks IH]; intros [|c cs] [|v vs] Hk Hc; try done.
  injection Hk as Hk. injection Hc as Hc. cbn [zip_with fmap list_fmap concat sum_Z foldr].
  rewrite length_app, Nat2Z.inj_add. rewrite (IH cs vs Hk Hc).
  unfold row_bytes, row_strings, row_length. cbn [SetID InputKey InputChecksum fmap list_fmap concat fst snd].
  rewrite app_nil_r, !length_app, !Nat2Z.inj_add, !length_frame. unfold framed_length_of at 1. rewrite Hid.
  unfold sum_Z. lia.
Qed.

Lemma length_parts_bytes g (parts : list part) :
  Forall (λ id, IsSHA256Hex id = true) parts.*1 → Forall (part_sound g) parts →
  Z.of_nat (length (concat (row_bytes <$> concat (part_rows <$> parts)))) =
  sum_Z ((λ set, sum_Z (row_length <$> set_rows set)) <$> parts.*2).
Proof.
  intros Hids Hs. induction Hs as [|p parts (_ & Hk & Hc & _) Hs IH]; [done|].
  cbn [fmap list_fmap concat sum_Z foldr] in *. apply Forall_cons in Hids as [Hid Hids].
  rewrite fmap_app, concat_app, length_app, Nat2Z.inj_add, IH by done. unfold part_rows at 1.
  by rewrite length_part_rows.
Qed.

Lemma length_parts_rows (g : Generation) (parts : list part) :
  Forall (part_sound g) parts →
  Z.of_nat (length (concat (part_rows <$> parts))) =
  sum_Z ((λ set, Z.of_nat (length (Vectors set))) <$> parts.*2).
Proof.
  induction 1 as [|p parts (_ & Hk & Hc & _) Hs IH]; [done|]. cbn [fmap list_fmap concat sum_Z foldr].
  rewrite length_app, Nat2Z.inj_add, IH. unfold part_rows. by rewrite length_member_rows.
Qed.

Lemma length_index_metadata g :
  Z.of_nat (length (index_metadata g)) =
  (framed_length_of generationLayout + framed_length_of (Manifest_Checksum (g_manifest g))
   + framed_length_of (g_vectorSpaceID g) + framed_length_of (g_metric g) + framed_length_of (g_normalization g)
   + Z.of_nat (length (concat (row_bytes <$> g_rows g))))%Z.
Proof. rewrite index_metadata_bytes, !length_app, !Nat2Z.inj_add, !length_frame. lia. Qed.

Lemma foldM_framed total ss total' :
  foldM addFramedStringLength total ss = Ok total' → total' = (total + sum_Z (framed_length_of <$> ss))%Z.
Proof.
  revert total; induction ss as [|s ss IH]; intros total; cbn [foldM]; [intros [= <-]; cbn; lia|].
  intros (t & ->%addFramedStringLength_Ok & ->%IH)%bind_Ok_iff. cbn [fmap list_fmap sum_Z foldr]. unfold sum_Z. lia.
Qed.

Lemma sound_set_part `{Sha256} g p (q : part) :
  sound_set p q.2 → g_vectorSpaceID g = p_space p → g_metric g = p_metric p →
  g_normalization g = p_normalization p → g_dimension g = p_dimension p → part_sound g q.
Proof. intros [] ????. unfold part_sound. split_and!; congruence. Qed.

Theorem BuildGeneration_built {sha : Sha256} manifest sets options g :
  BuildGeneration manifest sets options = Ok g → ∃ parts, built manifest sets g parts.
Proof.
  unfold BuildGeneration. intros (bounds & (Hmr & Hmd & Hmb)%normalizeOptions_bounds & H)%bind_Ok_iff.
  apply bind_Ok_iff in H as ([] & Hman & H). apply check_bind_iff in H as [Hlen%Nat.eqb_eq H].
  apply bind_Ok_iff in H as ([p sections] & Hpre & H). apply bind_Ok_iff in H as (byID & HbyID & H).
  apply bind_Ok_iff in H as ([rows vectors] & (parts & Hids & Hparts & [= -> ->])%append_members_Ok & [= <-]).
  cbn [app] in *. destruct (manifest_ids manifest Hman) as (Hdig & Hsorted & Hsum & Hsumd & Hne).
  destruct (index_sets_Ok _ _ _ HbyID) as (ids & Hset_ids & Hnd & _ & Hlookup).
  assert (length parts = length (SetIDs manifest)) as Hlp by (by rewrite <- Hids, length_fmap).
  destruct (members_are_sets parts ids sets) as [Hperm Hpids]; [|by rewrite Hlp|done..| |].
  { rewrite Hids. by apply sorted_ids_distinct. }
  { eapply Forall_impl; [exact Hparts|]. intros [id set] [Hin|He]%Hlookup; [done|by rewrite lookup_empty in He]. }
  unfold preflightBuildProjection in Hpre.
  apply bind_Ok_iff in Hpre as (p' & (_ & Hsound & Hrc & Hml)%preflight_sets_Ok & Hpre).
  apply check_bind_iff in Hpre as [_ Hpre]. apply bind_Ok_iff in Hpre as (total & ->%foldM_framed & Hpre).
  apply bind_Ok_iff in Hpre as (s & Hs & [= -> ->]). cbn [p_rowCount p_metadataLength] in Hrc, Hml.
  set (g := mkGeneration _ _ _ _ _ _ _ _).
  assert (Forall (sound_set p) parts.*2) as Hsound' by (by rewrite Hperm).
  rewrite Forall_fmap in Hsound'.
  assert (Forall (part_sound g) parts) as Hps.
  { eapply Forall_impl; [exact Hsound'|]. intros q Hq. by apply (sound_set_part g p). }
  exists parts. constructor; try done.
  - eapply Forall_impl; [exact Hsound'|]. intros q Hq. apply Hq.
  - destruct Hsound' as [|q parts' Hq _]; [by cbn in Hids; rewrite <- Hids in Hne|].
    destruct Hq as [E1 E2 E3 E4 (V1 & V2 & V3 & _)]. cbn [g g_vectorSpaceID g_metric g_normalization].
    by rewrite <- E1, <- E2, <- E3.
  - exists (opt_MaxBytes bounds). split; [done|]. rewrite length_index_metadata. unfold g at 1 2 3 4 5 6 7.
    cbn [g_manifest g_vectorSpaceID g_metric g_normalization g_rows g_dimension g_sections].
    rewrite (length_parts_bytes g) by (by rewrite ?Hids). rewrite (length_parts_rows g) by done.
    change (g_sections g) with sections. rewrite Hperm, <- Hs, Hrc, Hml. f_equal. unfold sum_Z.
    cbn [fmap list_fmap foldr p_rowCount p_metadataLength]. lia.
Qed.

Lemma built_dimension `{Sha256} manifest sets g parts :
  built manifest sets g parts →
  Forall (λ v, length v = Z.to_nat (g_dimension g)) (all_vectors parts) ∧
  Forall (λ v, validateMetricVector (g_metric g) (g_normalization g) v = Ok ()) (all_vectors parts).
Proof.
  intros [_ _ _ _ _ Hparts Hchecked _ _]. rewrite <- Forall_and. unfold all_vectors.
  apply Forall_concat, Forall_fmap. rewrite Forall_forall in Hparts. rewrite Forall_forall in Hchecked.
  apply Forall_forall. intros p Hp. destruct (Hparts p Hp) as (_ & Hk & Hc & E1 & E2 & E3 & E4).
  specialize (Hchecked p Hp). cbn.
  destruct (zip3_split (InputKeys p.2) (InputChecksums p.2) (Vectors p.2) Hk Hc) as (_ & Hz & _).
  unfold set_rows in Hchecked. rewrite <- Hz. apply Forall_fmap. eapply Forall_impl; [exact Hchecked|].
  intros row [Hl _ _ Hm]. cbn. rewrite E2, E3, E4. split; [lia|done].
Qed.

Lemma part_row_sound (p : part) :
  IsSHA256Hex p.1 = true → length (InputKeys p.2) = length (Vectors p.2) →
  length (InputChecksums p.2) = length (Vectors p.2) →
  Forall (sound_row p.2) (set_rows p.2) → Forall row_sound (part_rows p).
Proof.
  intros Hid Hk Hc Hrows. unfold part_rows, member_rows, set_rows, zip3 in *.
  revert Hk Hc Hrows. generalize (InputKeys p.2), (InputChecksums p.2), (Vectors p.2). intros ks cs vs.
  revert cs vs; induction ks as [|k ks IH]; intros [|c cs] [|v vs] Hk Hc Hrows; try done.
  injection Hk as Hk. injection Hc as Hc. cbn [zip_with] in *. apply Forall_cons in Hrows as [Hrow Hrows].
  constructor; [|by apply (IH cs vs)]. destruct Hrow as [_ Hkey Hsum _]. by split_and!.
Qed.

(** Encoding canonicalizes, so it does not see the negative zeros. *)
Lemma encodeGeneration_canonical `{Sha256} g : encodeGeneration (canonical_generation g) = encodeGeneration g.
Proof.
  rewrite !encodeGeneration_framed. assert (generation_bytes (canonical_generation g) = generation_bytes g) as ->; [|done].
  unfold generation_bytes, canonical_generation. cbn [with_vectors g_sections g_rows g_dimension g_vectors].
  f_equal. f_equal. f_equal. rewrite <- list_fmap_compose. apply list_fmap_ext. intros _ v _. cbn.
  by rewrite f32_canonical_idem.
Qed.

Lemma canonical_scalar_ok g (parts : list part) :
  Forall (λ v, validateMetricVector (g_metric g) (g_normalization g) v = Ok ()) (all_vectors parts) →
  Forall words parts.*2 → Forall scalar_ok (map f32_canonical (concat (all_vectors parts))).
Proof.
  intros Hmetric Hw. apply Forall_fmap, Forall_concat.
  assert (Forall (Forall is_float32) (all_vectors parts)) as Hrange.
  { unfold all_vectors. apply Forall_concat, Forall_fmap. exact (proj1 (Forall_fmap snd words parts) Hw). }
  rewrite Forall_forall in Hmetric. rewrite Forall_forall in Hrange. apply Forall_forall. intros v Hv.
  specialize (Hmetric v Hv). specialize (Hrange v Hv). unfold validateMetricVector in Hmetric.
  apply check_bind_iff in Hmetric as [_ [Hf%forallb_Forall _]%check_bind_iff].
  rewrite Forall_forall in Hf. rewrite Forall_forall in Hrange. apply Forall_forall. intros b Hb. cbn.
  split_and!; [by apply f32_canonical_range, Hrange|rewrite f32_canonical_finite; by apply Hf|apply f32_canonical_idem].
Qed.

Lemma built_positive `{Sha256} manifest sets g parts :
  built manifest sets g parts → (0 <= g_dimension g)%Z.
Proof. intros []. destruct bu_sections0 as (mb & _ & (_ & Hd & _)%computeSections_iff); lia. Qed.

Theorem built_sealed `{Sha256} manifest sets g parts :
  built manifest sets g parts → Forall words sets → sealed (canonical_generation g).
Proof.
  intros Hb Hw. destruct (built_dimension _ _ _ _ Hb) as [Hdim Hmetric].
  pose proof (built_positive _ _ _ _ Hb) as Hd0.
  destruct Hb as [(Hm & Hids & Hman) Hperm Hpids Hrows Hvec Hparts Hchecked (Hsp & Hme & Hno) (mb & Hmb & Hs)].
  destruct (manifest_ids manifest Hman) as (Hdig & Hsorted & Hsum & Hsumd & Hne).
  pose proof (canonical_vectors g _ Hd0 Hvec Hdim) as Hcan.
  assert (length (g_rows g) = length (all_vectors parts)) as Hlen by (by rewrite Hrows, (length_parts g)).
  destruct (accept_parts (mkRowState ∅ []) parts) as (st & Hst & Hstids).
  { cbn [rs_setIDs app]. by rewrite Hids. }
  { rewrite Forall_forall in Hparts. rewrite Forall_forall in Hpids. apply Forall_forall. intros p Hp.
    destruct (Hparts p Hp) as (Hn & Hk & Hc & _). destruct (member_rows_fields p.1 p.2 Hk Hc) as [Hf _].
    split; [|unfold part_rows; rewrite Hf].
    - intros He. pose proof (length_member_rows p.1 p.2 Hk Hc) as Hl. unfold part_rows in He. by rewrite He in Hl.
    - specialize (Hpids p Hp). unfold set_identity in Hpids.
      destruct (EncodeVectorSetV1 p.2) as [[]|] eqn:He; [|done]. by apply EncodeVectorSetV1_valid in He as []. }
  { intros x []%elem_of_empty. }
  cbn [rs_setIDs app] in Hstids. constructor.
  - exists st. constructor; try done; cbn [canonical_generation with_vectors g_manifest g_rows]; rewrite ?Hm; try done.
    + by rewrite Hstids.
    + rewrite Hrows. apply Forall_concat, Forall_fmap. rewrite Forall_forall in Hparts. rewrite Forall_forall in Hchecked.
      apply Forall_forall. intros p Hp. destruct (Hparts p Hp) as (_ & Hk & Hc & _). apply part_row_sound; auto.
      rewrite <- Hids in Hdig. rewrite Forall_fmap, Forall_forall in Hdig. by apply Hdig.
    + by rewrite Hrows.
  - change (index_metadata (canonical_generation g)) with (index_metadata g).
    apply computeSections_iff in Hs as (H1 & H2 & H3 & H4 & H5); [|lia].
    apply computeSections_iff; [lia|]. cbn [canonical_generation with_vectors g_rows g_dimension g_sections].
    split_and!; unfold defaultMaxBytes in *; try done; lia.
  - cbn [canonical_generation with_vectors g_vectors g_rows g_dimension]. rewrite length_map, Hvec, Hlen.
    rewrite (length_concat_rows _ _ Hdim). apply computeSections_iff in Hs as (_ & H2 & _); [|lia]. nia.
  - cbn [canonical_generation with_vectors g_vectors]. rewrite Hvec. apply (canonical_scalar_ok g); [done|]. by rewrite Hperm.
  - unfold metric_vectors. cbn [canonical_generation with_vectors g_rows]. rewrite Hlen.
    apply (Forall_fmap (vector (canonical_generation g))
      (λ r, (v ← r; validateMetricVector (g_metric g) (g_normalization g) v) = Ok ())).
    rewrite Hcan. apply Forall_fmap. eapply Forall_impl; [exact Hmetric|]. intros v Hv. cbn.
    by rewrite validateMetricVector_canonical.
  - unfold verifySourceSetIdentities. apply (verify_parts (canonical_generation g) [] parts).
    + cbn [app]. rewrite Hids. by apply sorted_ids_distinct.
    + done.
    + done.
    + cbn [app]. cbn [canonical_generation with_vectors g_rows] in *. by rewrite Hlen.
    + done.
    + cbn [canonical_generation with_vectors g_rows]. by rewrite Hrows.
Qed.

(** * Correctness of the vector index *)

Lemma Bytes_encoded `{Sha256} g : g_rows g ≠ [] → Bytes g = encodeGeneration g.
Proof. intros Hne. unfold Bytes. by destruct (g_rows g). Qed.

Lemma sealed_size `{Sha256} g :
  sealed g → g_rows g ≠ [] ∧
  (generationHeaderSize + generationChecksumBytes <= Z.of_nat (length (encodeGeneration g)) <= defaultMaxBytes)%Z.
Proof.
  intros Hs. destruct (sealed_framed g Hs) as (Hbytes & Hwf & Hsec).
  destruct (well_framed_bounds _ _ _ _ Hwf) as (Hr & Hd & _ & Ht). destruct Hwf as (Hml & _ & Hco). split.
  { intros He. rewrite He in Hr. simpl in Hr. lia. }
  rewrite encodeGeneration_framed, Hbytes, length_app, Nat2Z.inj_add, framed_length, <- Hco.
  unfold generationChecksum. rewrite Sum256_length. rewrite Hsec in Hml, Hco, Ht |- *.
  cbn [sections_of metadataLength checksumOffset totalLength] in *.
  rewrite generationHeaderSize_value in *. unfold generationChecksumBytes in *. nia.
Qed.

(** C35: An index reads back as it was built: for every manifest, sets and limits
    that [BuildGeneration] accepts, opening the generation's bytes gives the
    generation, its negative zeros turned into zeros; so sections, row loop,
    vectors and the recomputed identities of the source sets all agree with
    what was built. *)
Theorem OpenGeneration_BuildGeneration `{Sha256} manifest sets options g :
  BuildGeneration manifest sets options = Ok g → Forall words sets →
  OpenGeneration (Bytes g) (Z.of_nat (length (Bytes g))) = Ok (canonical_generation g).
Proof.
  intros [parts Hb]%BuildGeneration_built Hw. pose proof (built_sealed _ _ _ _ Hb Hw) as Hs.
  destruct (sealed_size _ Hs) as [Hne Hsize]. rewrite Bytes_encoded by done.
  rewrite <- encodeGeneration_canonical. unfold OpenGeneration.
  rewrite check_bind_true by (rewrite andb_true_iff, !Z.leb_le; lia).
  rewrite !check_bind_true by (apply Z.leb_le; lia). by apply decodeGeneration_sealed.
Qed.

(** An index has one representation: bytes that open are exactly the bytes
    of the opened generation, and the size given was theirs. *)
Theorem Bytes_OpenGeneration `{Sha256} data size g :
  OpenGeneration data size = Ok g → Bytes g = data ∧ size = Z.of_nat (length data).
Proof.
  unfold OpenGeneration. intros [_ [H1%Z.leb_le [H2%Z.leb_le H3]%check_bind_iff]%check_bind_iff]%check_bind_iff.
  apply decodeGeneration_inv in H3 as [Hs <-]. destruct (sealed_size _ Hs) as [Hne _].
  split; [by apply Bytes_encoded|lia].
Qed.

(** C37: Opening untrusted bytes never panics: whatever the data and the size
    claimed for it, every slice and word the decoder takes - of the header, of
    the strings of the metadata and of the vector section - lies within the
    bytes, every row's vector lies within the scalars read, and the loop over
    the source sets ends. *)
Theorem OpenGeneration_never_panics `{Sha256} data size : OpenGeneration data size ≠ Err IndexPanic.
Proof.
  apply (no_panic_bind (check _ _)); [apply no_panic_check|intros [] _].
  do 2 (apply no_panic_bind; [apply no_panic_check|intros [] _]). apply no_panic_decodeGeneration.
Qed.

(** A built generation holds exactly the given sets: a permutation of them,
    one for each member of the manifest and in its order, each under the
    identity that its encoding has, with its rows and vectors unchanged and
    in order. *)
Theorem BuildGeneration_members `{Sha256} manifest sets options g :
  BuildGeneration manifest sets options = Ok g →
  ∃ members : list (string * VectorSetV1),
    members.*1 = SetIDs manifest ∧ members.*2 ≡ₚ sets ∧
    Forall (λ m, set_identity m.2 = Ok m.1) members ∧
    g_rows g = concat ((λ m, member_rows m.1 m.2) <$> members) ∧
    (∀ i v, concat ((λ m, Vectors m.2) <$> members) !! i = Some v → vector g i = Ok v).
Proof.
  intros [parts Hb]%BuildGeneration_built. destruct (built_dimension _ _ _ _ Hb) as [Hd _].
  pose proof (built_positive _ _ _ _ Hb) as H0.
  destruct Hb as [(_ & Hids & _) Hperm Hpids Hrows Hvec _ _ _ _]. exists parts. split_and!; try done.
  intros i v Hi. by apply (vector_concat _ _ _ _ H0 Hvec).
Qed.

(** ** Witnesses *)

Module StoredIndex.

Definition digest : string := String.string_of_list_ascii (replicate 64 "a"%char).
Definition set (key : string) (bits : Z) : VectorSetV1 :=
  mkVectorSet digest VectorMetricL2 VectorNormalizationNone 2 [key] [digest] [[bits; 0x80000000%Z]].
Definition sets : list VectorSetV1 := [set "k" 0x3F000000%Z; set "l" 0x40000000%Z].
Definition options : Options := mkOptions 0 0 0.
Definition manifest : Manifest :=
  Eval vm_compute in
    match mapR set_identity sets with
    | Ok ids => match NewManifest ids with Ok m => m | Err _ => mkManifest "" [] end
    | Err _ => mkManifest "" []
    end.
Definition index : Generation :=
  Eval vm_compute in
    match BuildGeneration manifest sets options with
    | Ok g => g
    | Err _ => mkGeneration manifest "" "" "" 0 [] [] (mkSections 0 0 0 0 0 0)
    end.

Lemma index_built : BuildGeneration manifest sets options = Ok index.
Proof. vm_compute. reflexivity. Qed.
Lemma sets_words : Forall words sets.
Proof. repeat constructor; vm_compute; discriminate || reflexivity. Qed.

Lemma OpenGeneration_BuildGeneration_witness :
  OpenGeneration (Bytes index) (Z.of_nat (length (Bytes index))) = Ok (canonical_generation index).
Proof. exact (OpenGeneration_BuildGeneration manifest sets options index index_built sets_words). Defined.

Lemma index_opened :
  OpenGeneration (Bytes index) (Z.of_nat (length (Bytes index))) = Ok (canonical_generation index).
Proof. vm_compute. reflexivity. Qed.

(** A file cut off inside the metadata, one whose last string claims more bytes
    than there are, and the empty one are refused, not read past their end. *)
Lemma OpenGeneration_never_panics_witness :
  OpenGeneration (take 160 (Bytes index)) 160 = Err ErrIndex ∧
  read_index_string (take 6 (appendString "abc")) = Err ErrIndex ∧
  OpenGeneration (take 160 (Bytes index)) 160 ≠ Err IndexPanic.
Proof.
  split; [vm_compute; reflexivity|]. split; [vm_compute; reflexivity|].
  exact (OpenGeneration_never_panics (take 160 (Bytes index)) 160).
Defined.

Lemma Bytes_OpenGeneration_witness :
  Bytes (canonical_generation index) = Bytes index ∧
  Z.of_nat (length (Bytes index)) = Z.of_nat (length (Bytes index)).
Proof. exact (Bytes_OpenGeneration _ _ _ index_opened). Defined.

Lemma BuildGeneration_members_witness :
  ∃ members : list (string * VectorSetV1),
    members.*1 = SetIDs manifest ∧ members.*2 ≡ₚ sets ∧
    Forall (λ m, set_identity m.2 = Ok m.1) members ∧
    g_rows index = concat ((λ m, member_rows m.1 m.2) <$> members) ∧
    (∀ i v, concat ((λ m, Vectors m.2) <$> members) !! i = Some v → vector index i = Ok v).
Proof. exact (BuildGeneration_members manifest sets options index index_built). Defined.

End StoredIndex.
