(* ===== verification/Fusion.v ===== *)
(** * Scoped candidates and rank fusion (document/embedding/retrieval.go)

    Collecting a bounded candidate set from a paged source, and combining a
    lexical and a semantic lane by reciprocal rank.  A [float64] is a
    [spec_float] of precision 53, computed with the IEEE 754 operations of the
    Standard Library; an [int] rank is a [Z] with the wrap-around of its one
    addition written out.

    Scores are sums of positive contributions and never not-a-number, so the
    comparison of the sort is a total order on candidates with distinct keys;
    and the two lanes fill the map with one candidate per key. *)
From Stdlib Require Import Floats.SpecFloat.
From stdpp Require Import sorting.
From S2P Require Import Prelude GoText.

(** ** float64 *)

Definition float64 : Type := spec_float.
Definition float64_of_int (z : Z) : float64 := binary_normalize 53 1024 z 0 false.
Definition float64_add : float64 → float64 → float64 := SFadd 53 1024.
Definition float64_div : float64 → float64 → float64 := SFdiv 53 1024.
Definition float64_zero : float64 := S754_zero false.
#[export] Instance spec_float_eq_dec : EqDecision spec_float.
Proof. solve_decision. Defined.

(** ** Policies and options *)

Definition DefaultCandidateLimit : Z := 100.
Definition MaxCandidateLimit : Z := 1000.
Definition DefaultReciprocalRankConstant : Z := 60.

Inductive fusion_error :=
  | ErrCandidateLimit | ErrPageSize | ErrMode | ErrSource | ErrPageOverrun | ErrEmptyPage
  | ErrEmptyKey | ErrRepeated | ErrCursor | ErrLane | ErrVectorSpace | ErrWrongLane | ErrIdentity
  | ErrPathDisagrees | FusionFuel.

Record RetrievalPolicy := mkRetrievalPolicy { lexicalLimit : Z; vectorLimit : Z }.

Definition valid_limit (limit : Z) : bool := ((1 <=? limit) && (limit <=? MaxCandidateLimit))%Z.

Definition NewRetrievalPolicy (lexical vector : Z) : result fusion_error RetrievalPolicy :=
  _ ← check (valid_limit lexical) ErrCandidateLimit;
  _ ← check (valid_limit vector) ErrCandidateLimit;
  Ok (mkRetrievalPolicy lexical vector).

Record SearchOptions := mkSearchOptions { opt_Mode : string; CandidateLimit : Z }.

Definition NormalizeSearchOptions (options : SearchOptions) : result fusion_error SearchOptions :=
  let mode := if bool_decide (opt_Mode options ∈ [""; "auto"]) then "lexical" else opt_Mode options in
  _ ← check (bool_decide (mode ∈ ["lexical"; "semantic"; "hybrid"])) ErrMode;
  let limit := if (CandidateLimit options =? 0)%Z then DefaultCandidateLimit else CandidateLimit options in
  _ ← check (valid_limit limit) ErrCandidateLimit;
  Ok (mkSearchOptions mode limit).

(** ** Collecting *)

(** [Provenance] values are carried along, never inspected. *)
Record Provenance := mkProvenance { prov_Kind : string; prov_Value : string }.
#[export] Instance Provenance_eq_dec : EqDecision Provenance.
Proof. solve_decision. Defined.

Record PageRequest := mkPageRequest { Cursor : string; req_Limit : nat }.
Record Candidate := mkCandidate { cand_Key : string; cand_Score : float64; cand_Provenance : list Provenance }.
Record CandidatePage := mkPage { Candidates : list Candidate; NextCursor : string; Exhausted : bool }.

Record RankedCandidate := mkRanked {
  rc_Key : string;
  Rank : Z;
  Score : float64;
  rc_Provenance : list Provenance;
}.
Record ScopedCandidates := mkScoped { scoped : list RankedCandidate; Truncated : bool }.

(** The interface: [None] is an error of the backend. *)
Class ScopedPageSource := SearchPage : PageRequest → option CandidatePage.

(** The loop over the candidates of one page. *)
Definition collect_candidate (st : gset string * list RankedCandidate) (candidate : Candidate) :
    result fusion_error (gset string * list RankedCandidate) :=
  let '(seen, collected) := st in
  _ ← check (negb (String.eqb (cand_Key candidate) "")) ErrEmptyKey;
  _ ← check (negb (bool_decide (cand_Key candidate ∈ seen))) ErrRepeated;
  Ok ({[cand_Key candidate]} ∪ seen,
      collected ++ [mkRanked (cand_Key candidate) (Z.of_nat (length collected) + 1)
                      (cand_Score candidate) (cand_Provenance candidate)]).

(** The loop over the pages; every page before the last adds a candidate, so
    [wanted] rounds are enough. *)
Fixpoint collect_pages `{ScopedPageSource} (fuel wanted pageSize : nat) (cursor : string)
    (seen : gset string) (collected : list RankedCandidate) :
    result fusion_error (list RankedCandidate) :=
  if (wanted <=? length collected)%nat then Ok collected
  else
    match fuel with
    | 0 => Err FusionFuel
    | S fuel =>
        let requestLimit := Nat.min pageSize (wanted - length collected) in
        page ← from_lookup (SearchPage (mkPageRequest cursor requestLimit)) ErrSource;
        _ ← check (length (Candidates page) <=? requestLimit)%nat ErrPageOverrun;
        _ ← check (negb ((length (Candidates page) =? 0)%nat && negb (Exhausted page))) ErrEmptyPage;
        st ← foldM collect_candidate (seen, collected) (Candidates page);
        if Exhausted page then Ok st.2
        else
          _ ← check (negb (String.eqb (NextCursor page) "" || String.eqb (NextCursor page) cursor))
                ErrCursor;
          collect_pages fuel wanted pageSize (NextCursor page) st.1 st.2
    end.

Definition CollectScopedCandidates `{ScopedPageSource} (candidateLimit pageSize : Z) :
    result fusion_error ScopedCandidates :=
  _ ← check (valid_limit candidateLimit) ErrCandidateLimit;
  _ ← check (valid_limit pageSize) ErrPageSize;
  let limit := Z.to_nat candidateLimit in
  let wanted := S limit in
  collected ← collect_pages wanted wanted (Z.to_nat pageSize) "" ∅ [];
  let truncated := (limit <? length collected)%nat in
  Ok (mkScoped (if truncated then take limit collected else collected) truncated).

Definition CollectLexical `{ScopedPageSource} (p : RetrievalPolicy) (pageSize : Z) :=
  CollectScopedCandidates (lexicalLimit p) pageSize.
Definition CollectSemantic `{ScopedPageSource} (p : RetrievalPolicy) (pageSize : Z) :=
  CollectScopedCandidates (vectorLimit p) pageSize.

(** ** Fusing *)

Record CandidateSignal := mkSignal {
  sig_Rank : Z;
  sig_Score : float64;
  sig_Provenance : list Provenance;
}.
Record FusedCandidate := mkFused {
  fc_Key : string;
  fc_Rank : Z;
  fc_Score : float64;
  Lexical : option CandidateSignal;
  Semantic : option CandidateSignal;
}.
Record FusedCandidates := mkFusedCandidates { fused : list FusedCandidate; fc_Truncated : bool }.

(** [1 / float64(DefaultReciprocalRankConstant+source.Rank)] *)
Definition contribution (rank : Z) : float64 :=
  float64_div (float64_of_int 1) (float64_of_int (int_add DefaultReciprocalRankConstant rank)).

Record lane_state := mkLaneState {
  byKey : gmap string FusedCandidate;
  seen : gset string;
  lastRank : Z;
}.

(** The loop body of [addFusionLane]. *)
Definition add_source (lexical : bool) (st : lane_state) (source : RankedCandidate) :
    result fusion_error lane_state :=
  _ ← check (negb (String.eqb (rc_Key source) "" || (Rank source <=? lastRank st)%Z
                   || bool_decide (rc_Key source ∈ seen st))) ErrLane;
  let candidate := default (mkFused (rc_Key source) 0 float64_zero None None)
                     (byKey st !! rc_Key source) in
  let signal := mkSignal (Rank source) (Score source) (rc_Provenance source) in
  let score := float64_add (fc_Score candidate) (contribution (Rank source)) in
  let candidate :=
    mkFused (fc_Key candidate) (fc_Rank candidate) score
      (if lexical then Some signal else Lexical candidate)
      (if lexical then Semantic candidate else Some signal) in
  Ok (mkLaneState (<[rc_Key source := candidate]> (byKey st)) ({[rc_Key source]} ∪ seen st)
        (Rank source)).

Definition addFusionLane (m : gmap string FusedCandidate) (candidates : list RankedCandidate)
    (lexical : bool) : result fusion_error (gmap string FusedCandidate) :=
  st ← foldM (add_source lexical) (mkLaneState m ∅ 0) candidates;
  Ok (byKey st).

(** The comparison of the sort: higher scores first, then smaller keys.  Go
    compares strings byte by byte. *)
Definition fused_le (left right : FusedCandidate) : Prop :=
  if SFltb (fc_Score right) (fc_Score left) then True
  else if SFltb (fc_Score left) (fc_Score right) then False
  else String.le (fc_Key left) (fc_Key right).
#[export] Instance fused_le_dec : RelDecision fused_le.
Proof. intros x y. unfold fused_le. repeat case_match; apply _. Defined.

Definition set_rank (index : nat) (c : FusedCandidate) : FusedCandidate :=
  mkFused (fc_Key c) (Z.of_nat index + 1) (fc_Score c) (Lexical c) (Semantic c).

(** Everything after the map is filled, for the order [entries] in which its
    range loop yields the values. *)
Definition rank_entries (entries : list FusedCandidate) (lexicalTruncated semanticTruncated : bool)
    (limit : nat) : FusedCandidates :=
  let candidates := imap set_rank (merge_sort fused_le entries) in
  mkFusedCandidates (if (limit <? length candidates)%nat then take limit candidates else candidates)
    (lexicalTruncated || semanticTruncated || (limit <? length candidates)%nat).

Definition FuseReciprocalRank (lexical semantic : ScopedCandidates)
    (range : gmap string FusedCandidate → list FusedCandidate) (candidateLimit : Z) :
    result fusion_error FusedCandidates :=
  _ ← check (valid_limit candidateLimit) ErrCandidateLimit;
  m ← addFusionLane ∅ (scoped lexical) true;
  m ← addFusionLane m (scoped semantic) false;
  Ok (rank_entries (range m) (Truncated lexical) (Truncated semantic) (Z.to_nat candidateLimit)).

(** * Facts about rank fusion *)

(** ** Non-negative floats *)

Definition nonneg (x : float64) : Prop :=
  match x with
  | S754_zero false | S754_infinity false | S754_finite false _ _ => True
  | _ => False
  end.

Lemma shr_1_nonneg r : (0 <= shr_m r)%Z → (0 <= shr_m (shr_1 r))%Z.
Proof. destruct r as [m r s]. destruct m as [|[p|p|]|p]; simpl; lia. Qed.

Lemma iter_pos_inv {A} (P : A → Prop) f n x :
  (∀ y, P y → P (f y)) → P x → P (SpecFloat.iter_pos f n x).
Proof. intros Hf. revert x; induction n as [n IH|n IH|]; intros x Hx; simpl; auto. Qed.

Lemma shr_fexp_nonneg prec emax m e l : (0 <= m)%Z → (0 <= shr_m (shr_fexp prec emax m e l).1)%Z.
Proof.
  intros Hm. unfold shr_fexp, shr.
  assert (0 <= shr_m (shr_record_of_loc m l))%Z by (destruct l as [|[]]; done).
  destruct (_ - e)%Z; simpl; [done| |done].
  apply (iter_pos_inv (λ r, (0 <= shr_m r)%Z)); [apply shr_1_nonneg|done].
Qed.

Lemma round_nearest_even_nonneg m l : (0 <= m)%Z → (0 <= round_nearest_even m l)%Z.
Proof. intros Hm. destruct l as [|[]]; simpl; try case_match; lia. Qed.

Lemma binary_round_aux_nonneg prec emax m e l :
  (0 <= m)%Z → nonneg (binary_round_aux prec emax false m e l).
Proof.
  intros Hm. unfold binary_round_aux.
  pose proof (shr_fexp_nonneg prec emax m e l Hm) as H1.
  destruct (shr_fexp prec emax m e l) as [r1 e1]. simpl in H1.
  pose proof (shr_fexp_nonneg prec emax (round_nearest_even (shr_m r1) (loc_of_shr_record r1)) e1 loc_Exact
    (round_nearest_even_nonneg _ _ H1)) as H2.
  destruct (shr_fexp prec emax _ e1 loc_Exact) as [r2 e2]. simpl in H2.
  destruct (shr_m r2); [done|by case_match|lia].
Qed.

Lemma binary_normalize_nonneg prec emax m e :
  (0 <= m)%Z → nonneg (binary_normalize prec emax m e false).
Proof.
  intros Hm. destruct m; [done| |lia]. simpl. unfold binary_round.
  destruct (shl_align _ _ _) as [mz ez]. by apply binary_round_aux_nonneg.
Qed.

Lemma float64_add_nonneg x y : nonneg x → nonneg y → nonneg (float64_add x y).
Proof.
  destruct x as [[]|[]| |[] mx ex], y as [[]|[]| |[] my ey]; try done. intros _ _.
  unfold float64_add, SFadd. apply binary_normalize_nonneg. simpl. lia.
Qed.

Lemma float64_one : float64_of_int 1 = S754_finite false 4503599627370496 (-52).
Proof. reflexivity. Qed.

Lemma contribution_nonneg rank :
  (0 < rank <= int_max - DefaultReciprocalRankConstant)%Z → nonneg (contribution rank).
Proof.
  intros Hr. unfold contribution, int_max, DefaultReciprocalRankConstant, int_add in *.
  rewrite Z.mod_small by lia.
  pose proof (binary_normalize_nonneg 53 1024 (60 + rank + 2 ^ 63 - 2 ^ 63) 0 ltac:(lia)) as Hn.
  unfold float64_of_int at 2. rewrite float64_one. unfold float64_div.
  destruct (binary_normalize _ _ _ _ _) as [[]|[]| |[] m e]; try done. cbn [SFdiv xorb].
  destruct (SFdiv_core_binary _ _ _ _ _ _) as [[mz ez] lz] eqn:Hc.
  apply binary_round_aux_nonneg. unfold SFdiv_core_binary in Hc.
  set (s := (-52 - e - _)%Z) in Hc. destruct (Z.div_eucl _ _) as [q r] eqn:Hq. injection Hc as <- _ _.
  match type of Hq with Z.div_eucl ?a ?b = _ => assert (q = a / b)%Z as -> by (unfold Z.div; by rewrite Hq) end.
  apply Z.div_pos; [|lia]. destruct s; [lia| |lia]. apply Z.shiftl_nonneg. lia.
Qed.

(** ** The comparison *)

Lemma SFltb_finite m1 e1 m2 e2 :
  SFltb (S754_finite false m1 e1) (S754_finite false m2 e2) = true ↔
  (e1 < e2 ∨ e1 = e2 ∧ Zpos m1 < Zpos m2)%Z.
Proof.
  unfold SFltb, SFcompare. destruct (Z.compare_spec e1 e2); [|split; [lia|done]|split; [done|lia]].
  change (Pos.compare_cont Eq m1 m2) with (Pos.compare m1 m2).
  destruct (Pos.compare_spec m1 m2); split; (done || lia).
Qed.

Ltac float_cases :=
  repeat match goal with
  | x : float64 |- _ => destruct x as [[]|[]| |[] ? ?]; try contradiction
  end;
  rewrite ?SFltb_finite; try (cbn; intuition (discriminate || congruence || lia)).

Lemma SFltb_asymm x y : nonneg x → nonneg y → SFltb x y = true → SFltb y x = true → False.
Proof. intros Hx Hy. float_cases. Qed.

Lemma SFltb_trans x y z :
  nonneg x → nonneg y → nonneg z → SFltb x y = true → SFltb y z = true → SFltb x z = true.
Proof. intros Hx Hy Hz. float_cases. Qed.

Lemma SFltb_cotrans x y z :
  nonneg x → nonneg y → nonneg z → SFltb x z = true → SFltb x y = true ∨ SFltb y z = true.
Proof. intros Hx Hy Hz. float_cases. Qed.

(** Higher scores first, and equal scores by a key: the two rankings of the
    program are this order for their keys. *)
Section score_order.
Context {K : Type} (key_le : relation K) `{!Total key_le, !Transitive key_le, !AntiSymm (=) key_le}.

Definition score_le (x y : float64 * K) : Prop :=
  if SFltb y.1 x.1 then True else if SFltb x.1 y.1 then False else key_le x.2 y.2.

Lemma score_le_total x y : score_le x y ∨ score_le y x.
Proof using Total0.
  unfold score_le. destruct (SFltb y.1 x.1), (SFltb x.1 y.1); auto.
Qed.

Lemma score_le_trans x y z :
  nonneg x.1 → nonneg y.1 → nonneg z.1 → score_le x y → score_le y z → score_le x z.
Proof using Transitive0.
  unfold score_le. intros Hx Hy Hz.
  destruct (SFltb y.1 x.1) eqn:Hyx.
  - intros _ Hle. destruct (SFltb_cotrans _ z.1 _ Hy Hz Hx Hyx) as [Hyz|Hzx].
    + destruct (SFltb z.1 y.1) eqn:Hzy.
      * by destruct (SFltb_asymm _ _ Hy Hz Hyz Hzy).
      * by rewrite Hyz in Hle.
    + by rewrite Hzx.
  - destruct (SFltb x.1 y.1) eqn:Hxy; [done|]. intros Hk1.
    destruct (SFltb z.1 y.1) eqn:Hzy.
    + intros _. destruct (SFltb_cotrans _ x.1 _ Hz Hx Hy Hzy) as [->|Hc]; [done|congruence].
    + destruct (SFltb y.1 z.1) eqn:Hyz; [done|]. intros Hk2.
      destruct (SFltb z.1 x.1) eqn:Hzx; [done|].
      destruct (SFltb x.1 z.1) eqn:Hxz.
      * destruct (SFltb_cotrans _ y.1 _ Hx Hy Hz Hxz); congruence.
      * by etrans.
Qed.

Lemma score_le_antisymm x y :
  nonneg x.1 → nonneg y.1 → score_le x y → score_le y x → x.2 = y.2.
Proof using AntiSymm0.
  unfold score_le. intros Hx Hy.
  destruct (SFltb y.1 x.1) eqn:Hyx, (SFltb x.1 y.1) eqn:Hxy; try done.
  - by destruct (SFltb_asymm _ _ Hx Hy Hxy Hyx).
  - apply (anti_symm key_le).
Qed.
End score_order.

Definition scored (c : FusedCandidate) : Prop := nonneg (fc_Score c).
Definition fused_key (c : FusedCandidate) : float64 * string := (fc_Score c, fc_Key c).

#[export] Instance fused_le_total : Total fused_le.
Proof. intros x y. apply (score_le_total String.le (fused_key x) (fused_key y)). Qed.

Lemma fused_le_trans x y z :
  scored x → scored y → scored z → fused_le x y → fused_le y z → fused_le x z.
Proof. apply (score_le_trans String.le (fused_key x) (fused_key y) (fused_key z)). Qed.

Lemma fused_le_antisymm x y :
  scored x → scored y → fused_le x y → fused_le y x → fc_Key x = fc_Key y.
Proof. apply (score_le_antisymm String.le (fused_key x) (fused_key y)). Qed.

(** Sorted lists are strongly sorted where the order is transitive. *)
Lemma Sorted_StronglySorted_on {A} (R : relation A) (P : A → Prop) l :
  (∀ x y z, P x → P y → P z → R x y → R y z → R x z) → Forall P l →
  Sorted R l → StronglySorted R l.
Proof.
  intros Htrans Hall Hs. induction Hs as [|x l Hs IH Hhd]; [constructor|].
  apply Forall_cons in Hall as [Hx Hall]. constructor; [by apply IH|].
  destruct Hhd as [|y l Hxy]; [constructor|]. apply Forall_cons in Hall as [Hy Hall].
  constructor; [done|]. specialize (IH ltac:(by constructor)). apply StronglySorted_inv in IH as [_ Hyl].
  rewrite Forall_forall in Hyl, Hall. apply Forall_forall. intros z Hz. eauto.
Qed.

Lemma merge_sort_fused l : Forall scored l → StronglySorted fused_le (merge_sort fused_le l).
Proof.
  intros Hl. apply (Sorted_StronglySorted_on _ scored); [apply fused_le_trans| |apply Sorted_merge_sort, _].
  by rewrite merge_sort_Permutation.
Qed.

Lemma merge_sort_unique l k :
  l ≡ₚ k → Forall scored l → NoDup (fc_Key <$> l) → merge_sort fused_le l = merge_sort fused_le k.
Proof.
  intros Hlk Hl Hnd. apply (StronglySorted_unique_strong fused_le).
  - intros x y. rewrite !merge_sort_Permutation, <- Hlk. intros Hx Hy Hxy Hyx.
    apply (NoDup_fmap_inj fc_Key l); try done. rewrite Forall_forall in Hl.
    apply fused_le_antisymm; auto.
  - by apply merge_sort_fused.
  - apply merge_sort_fused. by rewrite <- Hlk.
  - by rewrite !merge_sort_Permutation.
Qed.

(** ** Lanes *)

(** What [addFusionLane] accepts after [last], with the keys in [taken]. *)
Fixpoint lane_from (last : Z) (taken : gset string) (l : list RankedCandidate) : Prop :=
  match l with
  | [] => True
  | s :: l => rc_Key s ≠ "" ∧ (last < Rank s)%Z ∧ rc_Key s ∉ taken ∧
      lane_from (Rank s) ({[rc_Key s]} ∪ taken) l
  end.
Definition lane_ok (l : list RankedCandidate) : Prop := lane_from 0 ∅ l.

Definition lane_map (l : list RankedCandidate) : gmap string RankedCandidate :=
  list_to_map ((λ s, (rc_Key s, s)) <$> l).

Lemma lane_map_cons s l : lane_map (s :: l) = <[rc_Key s := s]> (lane_map l).
Proof. reflexivity. Qed.

(** The candidate of a key after one more source. *)
Definition extend (lexical : bool) (o : option FusedCandidate) (s : RankedCandidate) : FusedCandidate :=
  let candidate := default (mkFused (rc_Key s) 0 float64_zero None None) o in
  let signal := mkSignal (Rank s) (Score s) (rc_Provenance s) in
  mkFused (fc_Key candidate) (fc_Rank candidate)
    (float64_add (fc_Score candidate) (contribution (Rank s)))
    (if lexical then Some signal else Lexical candidate)
    (if lexical then Semantic candidate else Some signal).

Lemma lane_from_taken last taken l k : lane_from last taken l → k ∈ taken → lane_map l !! k = None.
Proof.
  revert last taken; induction l as [|s l IH]; intros last taken; simpl; [done|].
  intros (_ & _ & Hk & Hl) Hin. rewrite lane_map_cons.
  rewrite lookup_insert_ne by (intros <-; done). eapply IH; [exact Hl|]. set_solver.
Qed.

Definition source_ok (st : lane_state) (s : RankedCandidate) : Prop :=
  rc_Key s ≠ "" ∧ (lastRank st < Rank s)%Z ∧ rc_Key s ∉ seen st.

#[local] Instance source_ok_dec st s : Decision (source_ok st s).
Proof. unfold source_ok. apply _. Defined.

Lemma add_source_step lexical st s :
  (source_ok st s → add_source lexical st s =
     Ok (mkLaneState (<[rc_Key s := extend lexical (byKey st !! rc_Key s) s]> (byKey st))
           ({[rc_Key s]} ∪ seen st) (Rank s))) ∧
  (¬ source_ok st s → add_source lexical st s = Err ErrLane).
Proof.
  unfold add_source, source_ok. destruct (String.eqb_spec (rc_Key s) "") as [He|Hne]; [split; naive_solver|].
  destruct (Z.leb_spec (Rank s) (lastRank st)) as [Hr|Hr]; [split; [lia|done]|].
  case_bool_decide as Hin; split; naive_solver.
Qed.

Lemma fold_lane lexical l st :
  (lane_from (lastRank st) (seen st) l →
     ∃ st', foldM (add_source lexical) st l = Ok st' ∧
       ∀ k, byKey st' !! k = match lane_map l !! k with
                             | Some s => Some (extend lexical (byKey st !! k) s)
                             | None => byKey st !! k end) ∧
  (¬ lane_from (lastRank st) (seen st) l → foldM (add_source lexical) st l = Err ErrLane).
Proof.
  revert st; induction l as [|s l IH]; intros st; cbn [lane_from foldM]; [split; [by exists st|done]|].
  destruct (add_source_step lexical st s) as [Hok Hbad].
  destruct (decide (source_ok st s)) as [Hs|Hs]; [rewrite (Hok Hs)|rewrite (Hbad Hs)];
    cbn [mbind result_bind]; unfold source_ok in Hs.
  - set (st1 := mkLaneState _ _ _). destruct (IH st1) as [IH1 IH2]. cbn [lastRank seen] in *. split.
    + intros (_ & _ & _ & Hl). destruct (IH1 Hl) as (st' & Hf & Hk). exists st'. split; [done|].
      intros k. rewrite Hk, lane_map_cons.
      destruct (decide (k = rc_Key s)) as [->|Hne].
      * rewrite lookup_insert_eq.
        rewrite (lane_from_taken _ _ _ _ Hl) by set_solver. cbn [byKey st1]. by rewrite lookup_insert_eq.
      * rewrite lookup_insert_ne by done. cbn [byKey st1].
        by rewrite lookup_insert_ne by done.
    + intros Hn. apply IH2. naive_solver.
  - split; [naive_solver|done].
Qed.

Lemma addFusionLane_spec m l lexical :
  (lane_ok l → ∃ m', addFusionLane m l lexical = Ok m' ∧
     ∀ k, m' !! k = match lane_map l !! k with
                    | Some s => Some (extend lexical (m !! k) s) | None => m !! k end) ∧
  (¬ lane_ok l → addFusionLane m l lexical = Err ErrLane).
Proof.
  unfold addFusionLane. destruct (fold_lane lexical l (mkLaneState m ∅ 0)) as [H1 H2]. split.
  - intros Hl. destruct (H1 Hl) as (st & -> & Hk). by exists (byKey st).
  - intros Hl. by rewrite (H2 Hl).
Qed.

Lemma lane_map_Some l k s : lane_map l !! k = Some s → s ∈ l ∧ rc_Key s = k.
Proof.
  intros Hk. apply elem_of_list_to_map_2 in Hk. apply list_elem_of_fmap in Hk as (s' & [= -> ->] & Hin).
  done.
Qed.

#[export] Instance lane_from_dec last taken l : Decision (lane_from last taken l).
Proof. revert last taken; induction l; intros; simpl; apply _. Defined.
#[export] Instance lane_ok_dec l : Decision (lane_ok l).
Proof. apply lane_from_dec. Defined.

(** ** The fused candidate of a key *)

Definition signal_of (s : RankedCandidate) : CandidateSignal :=
  mkSignal (Rank s) (Score s) (rc_Provenance s).
Definition lane_score (score : float64) (o : option RankedCandidate) : float64 :=
  match o with Some s => float64_add score (contribution (Rank s)) | None => score end.

(** A key of either lane has one candidate, which keeps the signal of each lane
    and scores the sum of their contributions. *)
Definition fused_of (lexical semantic : list RankedCandidate) (k : string) : option FusedCandidate :=
  let l := lane_map lexical !! k in
  let s := lane_map semantic !! k in
  if bool_decide (l = None ∧ s = None) then None
  else Some (mkFused k 0 (lane_score (lane_score float64_zero l) s) (signal_of <$> l) (signal_of <$> s)).

Lemma lanes_fused lexical semantic m1 m2 :
  addFusionLane ∅ lexical true = Ok m1 → addFusionLane m1 semantic false = Ok m2 →
  lane_ok lexical ∧ lane_ok semantic ∧ ∀ k, m2 !! k = fused_of lexical semantic k.
Proof.
  intros H1 H2.
  destruct (decide (lane_ok lexical)) as [Hl|Hl].
  2:{ rewrite (proj2 (addFusionLane_spec ∅ lexical true) Hl) in H1. done. }
  destruct (decide (lane_ok semantic)) as [Hs|Hs].
  2:{ rewrite (proj2 (addFusionLane_spec m1 semantic false) Hs) in H2. done. }
  split_and!; [done|done|]. intros k.
  destruct (proj1 (addFusionLane_spec ∅ lexical true) Hl) as (m1' & H1' & Hk1).
  destruct (proj1 (addFusionLane_spec m1 semantic false) Hs) as (m2' & H2' & Hk2).
  assert (m1' = m1) as -> by congruence. assert (m2' = m2) as -> by congruence.
  rewrite Hk2, Hk1, lookup_empty. unfold fused_of.
  destruct (lane_map lexical !! k) as [l|] eqn:Hlk, (lane_map semantic !! k) as [s|] eqn:Hsk;
    [rewrite bool_decide_eq_false_2 by naive_solver..|by rewrite bool_decide_eq_true_2];
    unfold extend; simpl; try (apply lane_map_Some in Hlk as [_ Hlk]);
    try (apply lane_map_Some in Hsk as [_ Hsk]); by subst.
Qed.

(** Ranks that do not overflow. *)
Definition small_ranks (l : list RankedCandidate) : Prop :=
  Forall (λ s, (Rank s <= int_max - DefaultReciprocalRankConstant)%Z) l.

Lemma lane_from_positive last taken l s :
  (0 <= last)%Z → lane_from last taken l → s ∈ l → (0 < Rank s)%Z.
Proof.
  revert last taken; induction l as [|s0 l IH]; intros last taken H0; simpl; [by intros _ ?%not_elem_of_nil|].
  intros (_ & Hr & _ & Hl) [->|Hin]%elem_of_cons; [lia|]. eapply (IH (Rank s0)); [lia|done|done].
Qed.

Lemma lane_score_nonneg score l k :
  nonneg score → lane_ok l → small_ranks l → nonneg (lane_score score (lane_map l !! k)).
Proof.
  intros Hs Hl Hr. destruct (lane_map l !! k) as [s|] eqn:Hk; [|done]. simpl.
  apply lane_map_Some in Hk as [Hin _]. apply float64_add_nonneg; [done|]. apply contribution_nonneg.
  unfold small_ranks in Hr. rewrite Forall_forall in Hr. specialize (Hr s Hin).
  pose proof (lane_from_positive 0 ∅ l s ltac:(lia) Hl Hin). lia.
Qed.

Lemma fused_of_scored lexical semantic k c :
  lane_ok lexical → lane_ok semantic → small_ranks lexical → small_ranks semantic →
  fused_of lexical semantic k = Some c → scored c ∧ fc_Key c = k.
Proof.
  intros Hl Hs Hlr Hsr. unfold fused_of. case_bool_decide; [done|]. intros [= <-].
  split; [|done]. unfold scored. simpl. by repeat apply lane_score_nonneg.
Qed.

(** ** What is ranked *)

(** A range loop over a map yields every value once, in some order. *)
Definition map_range (range : gmap string FusedCandidate → list FusedCandidate) : Prop :=
  ∀ m, range m ≡ₚ (map_to_list m).*2.

Lemma map_values_in (m : gmap string FusedCandidate) c :
  c ∈ (map_to_list m).*2 ↔ ∃ k, m !! k = Some c.
Proof.
  rewrite list_elem_of_fmap. split.
  - intros ([k c'] & -> & Hin). exists k. by apply elem_of_map_to_list.
  - intros [k Hk]. exists (k, c). split; [done|]. by apply elem_of_map_to_list.
Qed.

Lemma map_values_keys (m : gmap string FusedCandidate) :
  (∀ k c, m !! k = Some c → fc_Key c = k) → fc_Key <$> (map_to_list m).*2 = (map_to_list m).*1.
Proof.
  intros Hm. rewrite <- list_fmap_compose. apply list_fmap_ext. intros i [k c] Hi.
  apply list_elem_of_lookup_2, elem_of_map_to_list in Hi. simpl. by apply Hm.
Qed.

(** What the two lanes and any range loop hand to the sort. *)
Lemma fusion_entries lexical semantic range m1 m2 :
  map_range range → small_ranks lexical → small_ranks semantic →
  addFusionLane ∅ lexical true = Ok m1 → addFusionLane m1 semantic false = Ok m2 →
  Forall scored (range m2) ∧ NoDup (fc_Key <$> range m2) ∧
  (∀ c, c ∈ range m2 ↔ ∃ k, fused_of lexical semantic k = Some c).
Proof.
  intros Hrange Hlr Hsr H1 H2. destruct (lanes_fused _ _ _ _ H1 H2) as (Hl & Hs & Hk).
  assert (∀ c, c ∈ range m2 ↔ ∃ k, fused_of lexical semantic k = Some c) as Hin.
  { intros c. rewrite (Hrange m2), map_values_in. by setoid_rewrite Hk. }
  split_and!; [| |done].
  - apply Forall_forall. intros c [k Hc]%Hin.
    by destruct (fused_of_scored _ _ _ _ Hl Hs Hlr Hsr Hc).
  - rewrite (Hrange m2), map_values_keys; [apply NoDup_fst_map_to_list|].
    intros k c. rewrite Hk. intros Hc. by destruct (fused_of_scored _ _ _ _ Hl Hs Hlr Hsr Hc).
Qed.

Lemma take_if {A} n (l : list A) : (if (n <? length l)%nat then take n l else l) = take n l.
Proof. destruct (Nat.ltb_spec n (length l)); [done|]. by rewrite take_ge. Qed.

(** ** Accepted lanes *)

Lemma lane_from_NoDup last taken l :
  lane_from last taken l → NoDup (rc_Key <$> l) ∧ ∀ k, k ∈ rc_Key <$> l → k ∉ taken.
Proof.
  revert last taken; induction l as [|s l IH]; intros last taken; simpl.
  { intros _. split; [constructor|]. by intros k ?%not_elem_of_nil. }
  intros (_ & _ & Hk & Hl). destruct (IH _ _ Hl) as [Hnd Hin]. split.
  - constructor; [|done]. intros Hs. specialize (Hin _ Hs). set_solver.
  - intros k [->|Hs]%elem_of_cons; [done|]. specialize (Hin _ Hs). set_solver.
Qed.

Lemma lane_from_length last taken l :
  lane_from last taken l → small_ranks l →
  (last + Z.of_nat (length l) <= Z.max last (int_max - DefaultReciprocalRankConstant))%Z.
Proof.
  revert last taken; induction l as [|s l IH]; intros last taken; simpl; [lia|].
  intros (_ & Hr & _ & Hl) [Hs Hsl]%Forall_cons. specialize (IH _ _ Hl Hsl). lia.
Qed.

(** ** All limits at once *)

(** Whether fusion fails does not depend on the limit, and the results for all
    limits are prefixes of one ranking. *)
Lemma FuseReciprocalRank_limits lexical semantic range :
  (∃ e, ∀ limit, valid_limit limit = true → FuseReciprocalRank lexical semantic range limit = Err e) ∨
  ∃ m1 m2, addFusionLane ∅ (scoped lexical) true = Ok m1 ∧
    addFusionLane m1 (scoped semantic) false = Ok m2 ∧
    ∀ limit, valid_limit limit = true → FuseReciprocalRank lexical semantic range limit =
      Ok (rank_entries (range m2) (Truncated lexical) (Truncated semantic) (Z.to_nat limit)).
Proof.
  unfold FuseReciprocalRank.
  destruct (addFusionLane ∅ (scoped lexical) true) as [m1|e] eqn:H1.
  2:{ left. exists e. intros limit ->. done. }
  destruct (addFusionLane m1 (scoped semantic) false) as [m2|e] eqn:H2.
  2:{ left. exists e. intros limit ->. cbn. by rewrite H2. }
  right. exists m1, m2. split_and!; [done|done|]. intros limit ->. cbn. by rewrite H2.
Qed.

(** A sorted list is determined by its members, when the order tells members
    apart. *)
Lemma merge_sort_is {A} (R : relation A) `{!RelDecision R, !Total R} (P : A → Prop) l s :
  (∀ x y z, P x → P y → P z → R x y → R y z → R x z) →
  (∀ x y, x ∈ l → y ∈ l → R x y → R y x → x = y) →
  Forall P l → s ≡ₚ l → StronglySorted R s → merge_sort R l = s.
Proof.
  intros Htrans Hanti Hl Hs Hss. apply (StronglySorted_unique_strong R).
  - intros x y. rewrite Hs, merge_sort_Permutation. apply Hanti.
  - apply (Sorted_StronglySorted_on _ P); [done| |apply Sorted_merge_sort, _].
    by rewrite merge_sort_Permutation.
  - done.
  - by rewrite merge_sort_Permutation.
Qed.

Lemma StronglySorted_fmap_on {A B} (R : relation A) (S : relation B) (f : A → B) l :
  (∀ x y, x ∈ l → y ∈ l → R x y → S (f x) (f y)) → StronglySorted R l → StronglySorted S (f <$> l).
Proof.
  intros Hf Hs. induction Hs as [|x l Hs IH Hx]; [constructor|]. rewrite fmap_cons. constructor.
  - apply IH. intros y z Hy Hz. apply Hf; by right.
  - apply Forall_fmap, Forall_forall. intros y Hy. rewrite Forall_forall in Hx.
    apply Hf; [by left|by right|by apply Hx].
Qed.

Lemma StronglySorted_lookup {A} (R : relation A) l i j x y :
  StronglySorted R l → i < j → l !! i = Some x → l !! j = Some y → R x y.
Proof.
  intros Hs. revert i j; induction Hs as [|a l Hs IH Ha]; intros i j Hij Hi Hj; [done|].
  destruct j as [|j]; [lia|]. destruct i as [|i].
  - injection Hi as <-. rewrite Forall_forall in Ha. by eapply Ha, list_elem_of_lookup_2.
  - eapply (IH i j); [lia|done|done].
Qed.
