(* ===== verification/FusionProps.v ===== *)
(** * Correctness of candidate collection and rank fusion *)
From Stdlib Require Import Floats.SpecFloat.
From stdpp Require Import sorting.
From S2P Require Import Prelude GoText Fusion.

(** ** Fusion *)

(** C34: Fusion is the merge by reciprocal rank: it fails exactly on a bad limit
    or an unordered or repeating lane; otherwise it ranks, by decreasing score
    and then by key, one candidate for each key of either lane, which keeps
    both signals and scores the sum of their contributions, and returns the
    first [limit] of them with accurate truncation. *)
Theorem FuseReciprocalRank_correct lexical semantic range limit :
  map_range range → small_ranks (scoped lexical) → small_ranks (scoped semantic) →
  (is_Ok (FuseReciprocalRank lexical semantic range limit) = true ↔
     (1 <= limit <= MaxCandidateLimit)%Z ∧ lane_ok (scoped lexical) ∧ lane_ok (scoped semantic)) ∧
  ∀ out, FuseReciprocalRank lexical semantic range limit = Ok out →
    ∃ ranking, StronglySorted fused_le ranking ∧ NoDup (fc_Key <$> ranking) ∧
      (∀ c, c ∈ ranking ↔ ∃ k, fused_of (scoped lexical) (scoped semantic) k = Some c) ∧
      fused out = take (Z.to_nat limit) (imap set_rank ranking) ∧
      fc_Truncated out = Truncated lexical || Truncated semantic || (Z.to_nat limit <? length ranking)%nat.
Proof.
  intros Hrange Hlr Hsr. split.
  - unfold FuseReciprocalRank, valid_limit.
    destruct (Z.leb_spec 1 limit); cbn [andb]; [|split; [done|lia]].
    destruct (Z.leb_spec limit MaxCandidateLimit); cbn [check mbind result_bind]; [|split; [done|lia]].
    destruct (decide (lane_ok (scoped lexical))) as [Hl|Hl].
    2:{ rewrite (proj2 (addFusionLane_spec _ _ true) Hl). split; [done|naive_solver]. }
    destruct (proj1 (addFusionLane_spec ∅ _ true) Hl) as (m1 & -> & _). cbn [mbind result_bind].
    destruct (decide (lane_ok (scoped semantic))) as [Hs|Hs].
    2:{ rewrite (proj2 (addFusionLane_spec _ _ false) Hs). split; [done|naive_solver]. }
    destruct (proj1 (addFusionLane_spec m1 _ false) Hs) as (m2 & -> & _). cbn. by split.
  - intros out. unfold FuseReciprocalRank. intros (u & _ & Hr)%bind_Ok_iff.
    apply bind_Ok_iff in Hr as (m1 & H1 & Hr). apply bind_Ok_iff in Hr as (m2 & H2 & [= <-]).
    destruct (fusion_entries _ _ range _ _ Hrange Hlr Hsr H1 H2) as (Hsc & Hnd & Hin).
    exists (merge_sort fused_le (range m2)). unfold rank_entries. cbn [fused fc_Truncated].
    rewrite take_if, length_imap. split_and!; [by apply merge_sort_fused| | |done|done].
    + by rewrite merge_sort_Permutation.
    + intros c. by rewrite merge_sort_Permutation.
Qed.

(** The order of Go's map iteration does not show: two runs that range
    over the candidate map in different orders return the same result. *)
Theorem FuseReciprocalRank_deterministic lexical semantic range range' limit :
  map_range range → map_range range' →
  small_ranks (scoped lexical) → small_ranks (scoped semantic) →
  FuseReciprocalRank lexical semantic range limit = FuseReciprocalRank lexical semantic range' limit.
Proof.
  intros Hr Hr' Hlr Hsr. unfold FuseReciprocalRank. destruct (check _ _); cbn [mbind result_bind]; [|done].
  destruct (addFusionLane ∅ _ true) as [m1|] eqn:H1; cbn [mbind result_bind]; [|done].
  destruct (addFusionLane m1 _ false) as [m2|] eqn:H2; cbn [mbind result_bind]; [|done].
  destruct (fusion_entries _ _ range _ _ Hr Hlr Hsr H1 H2) as (Hsc & Hnd & _).
  unfold rank_entries. rewrite (merge_sort_unique (range m2) (range' m2)); [done| |done|done].
  by rewrite (Hr m2), (Hr' m2).
Qed.

(** Within the candidate limit a better rank contributes strictly more. *)
Theorem contribution_decreasing rank :
  (1 <= rank < MaxCandidateLimit)%Z → SFltb (contribution (rank + 1)) (contribution rank) = true.
Proof.
  intros Hr. unfold MaxCandidateLimit in Hr.
  cut (forallb (λ n, SFltb (contribution (Z.of_nat n + 1)) (contribution (Z.of_nat n))) (seq 1 999) = true).
  - intros Hall. rewrite forallb_forall in Hall.
    specialize (Hall (Z.to_nat rank)). rewrite Z2Nat.id in Hall by lia. apply Hall.
    apply in_seq. lia.
  - vm_compute. reflexivity.
Qed.

(** ** Collecting *)

(** The ranking of a list by position. *)
Definition ranked (l : list Candidate) : list RankedCandidate :=
  imap (λ i c, mkRanked (cand_Key c) (Z.of_nat i + 1) (cand_Score c) (cand_Provenance c)) l.

(** A source that pages through [l]: a cursor stands for a position. *)
Definition pages_through `{ScopedPageSource} (l : list Candidate) (position : string → nat) : Prop :=
  position "" = 0 ∧
  ∀ cursor n, 1 ≤ n → position cursor ≤ length l → ∃ page,
    SearchPage (mkPageRequest cursor n) = Some page ∧
    length (Candidates page) ≤ n ∧
    Candidates page = take (length (Candidates page)) (drop (position cursor) l) ∧
    if Exhausted page then position cursor + length (Candidates page) = length l
    else 0 < length (Candidates page) ∧ NextCursor page ≠ "" ∧ NextCursor page ≠ cursor ∧
      position (NextCursor page) = position cursor + length (Candidates page).

Lemma ranked_snoc l c :
  ranked (l ++ [c]) = ranked l ++ [mkRanked (cand_Key c) (Z.of_nat (length l) + 1) (cand_Score c) (cand_Provenance c)].
Proof. unfold ranked. rewrite imap_app. simpl. by rewrite Nat.add_0_r. Qed.

Lemma take_ranked n l : take n (ranked l) = ranked (take n l).
Proof.
  apply list_eq. intros i. unfold ranked. destruct (decide (i < n)).
  - by rewrite lookup_take_lt, !list_lookup_imap, lookup_take_lt by done.
  - by rewrite lookup_take_ge, list_lookup_imap, lookup_take_ge by lia.
Qed.

Lemma length_ranked l : length (ranked l) = length l.
Proof. apply length_imap. Qed.

Lemma collect_page pre cs :
  Forall (λ c, cand_Key c ≠ "") cs → NoDup (cand_Key <$> (pre ++ cs)) →
  foldM collect_candidate (list_to_set (cand_Key <$> pre), ranked pre) cs
  = Ok (list_to_set (cand_Key <$> (pre ++ cs)), ranked (pre ++ cs)).
Proof.
  revert pre; induction cs as [|c cs IH]; intros pre Hne Hnd; [by rewrite app_nil_r|].
  apply Forall_cons in Hne as [Hc Hne].
  assert (collect_candidate (list_to_set (cand_Key <$> pre), ranked pre) c
    = Ok (list_to_set (cand_Key <$> (pre ++ [c])), ranked (pre ++ [c]))) as Hstep.
  { unfold collect_candidate. apply String.eqb_neq in Hc. rewrite Hc. cbn [negb check mbind result_bind].
    rewrite bool_decide_eq_false_2.
    - cbn [negb check mbind result_bind]. rewrite ranked_snoc, length_ranked, fmap_app. do 2 f_equal.
      rewrite list_to_set_app_L. simpl. set_solver.
    - rewrite elem_of_list_to_set. rewrite fmap_app, fmap_cons, NoDup_app in Hnd.
      destruct Hnd as (_ & Hd & _). intros Hin. apply (Hd _ Hin). by apply list_elem_of_here. }
  cbn [foldM]. rewrite Hstep. cbn [mbind result_bind].
  replace (pre ++ c :: cs) with ((pre ++ [c]) ++ cs) in * by by rewrite <- app_assoc.
  by apply IH.
Qed.

Lemma collect_pages_through `{ScopedPageSource} l position fuel wanted pageSize cursor :
  pages_through l position → Forall (λ c, cand_Key c ≠ "") l → NoDup (cand_Key <$> l) →
  1 ≤ pageSize → position cursor ≤ length l → wanted - position cursor ≤ fuel →
  position cursor ≤ wanted →
  collect_pages fuel wanted pageSize cursor (list_to_set (cand_Key <$> take (position cursor) l))
    (ranked (take (position cursor) l)) = Ok (ranked (take wanted l)).
Proof.
  intros Hp Hne Hnd Hps. revert cursor; induction fuel as [|fuel IH]; intros cursor Hpos Hfuel Hw;
    cbn [collect_pages]; rewrite length_ranked, length_take_le by done.
  { rewrite (proj2 (Nat.leb_le _ _)) by lia. by replace wanted with (position cursor) by lia. }
  destruct (Nat.leb_spec wanted (position cursor)); [by replace wanted with (position cursor) by lia|].
  destruct Hp as [Hp0 Hp]. set (n := Nat.min pageSize (wanted - position cursor)).
  destruct (Hp cursor n ltac:(lia) Hpos) as (page & Hs & Hlen & Hc & Hex). rewrite Hs.
  cbn [from_lookup mbind result_bind]. rewrite (proj2 (Nat.leb_le _ _) Hlen). cbn [check mbind result_bind].
  set (k := length (Candidates page)) in *.
  assert (take (position cursor) l ++ Candidates page = take (position cursor + k) l) as Happ.
  { rewrite Hc. apply take_take_drop. }
  rewrite collect_page; [|rewrite Hc; by apply Forall_take, Forall_drop|].
  2:{ rewrite Happ, fmap_take. rewrite <- (take_drop (position cursor + k) (cand_Key <$> l)) in Hnd.
      by apply NoDup_app in Hnd as [? _]. }
  rewrite Happ. destruct (Exhausted page).
  - rewrite andb_false_r. cbn [negb check mbind result_bind snd]. rewrite !take_ge by lia. done.
  - destruct Hex as (Hk & Hn1 & Hn2 & Hnext).
    rewrite (proj2 (Nat.eqb_neq _ _)) by lia. cbn [andb negb check mbind result_bind fst snd].
    apply String.eqb_neq in Hn1, Hn2. rewrite Hn1, Hn2. cbn [orb negb check mbind result_bind].
    rewrite <- Hnext. apply IH; [|lia|lia].
    rewrite Hnext. unfold k. rewrite Hc, length_take, length_drop. lia.
Qed.

(** Collecting from a source that pages through a list of distinct
    candidates returns the first [limit] of them, ranked from one, whatever the
    page size and however short its pages are, and reports truncation exactly
    when there are more. *)
Theorem CollectScopedCandidates_correct `{ScopedPageSource} l position limit pageSize :
  pages_through l position → Forall (λ c, cand_Key c ≠ "") l → NoDup (cand_Key <$> l) →
  (1 <= limit <= MaxCandidateLimit)%Z → (1 <= pageSize <= MaxCandidateLimit)%Z →
  CollectScopedCandidates limit pageSize =
    Ok (mkScoped (ranked (take (Z.to_nat limit) l)) (Z.to_nat limit <? length l)%nat).
Proof.
  intros Hp Hne Hnd Hl Hps. unfold CollectScopedCandidates, valid_limit.
  rewrite !(proj2 (Z.leb_le _ _)) by lia. cbn [andb check mbind result_bind].
  assert (collect_pages (S (Z.to_nat limit)) (S (Z.to_nat limit)) (Z.to_nat pageSize) "" ∅ []
    = Ok (ranked (take (S (Z.to_nat limit)) l))) as ->; cbn [mbind result_bind].
  { pose proof (proj1 Hp) as Hp0.
    pose proof (collect_pages_through l position (S (Z.to_nat limit)) (S (Z.to_nat limit)) (Z.to_nat pageSize) ""
      Hp Hne Hnd) as Hc. rewrite Hp0 in Hc. change (take 0 l) with (@nil Candidate) in Hc. apply Hc; lia. }
  rewrite length_ranked, length_take.
  destruct (Nat.ltb_spec (Z.to_nat limit) (length l)).
  - rewrite (proj2 (Nat.ltb_lt _ _)) by lia. rewrite take_ranked, take_take.
    by replace (Z.to_nat limit `min` S (Z.to_nat limit)) with (Z.to_nat limit) by lia.
  - rewrite (proj2 (Nat.ltb_ge _ _)) by lia. by rewrite !take_ge by lia.
Qed.

(** ** Any source *)

(** The candidates collected so far: distinct, with non-empty keys. *)
Definition collected_as (cs : list Candidate) (st : gset string * list RankedCandidate) : Prop :=
  st = (list_to_set (cand_Key <$> cs), ranked cs) ∧
  Forall (λ c, cand_Key c ≠ "") cs ∧ NoDup (cand_Key <$> cs).

Lemma collect_candidates_inv cs st page st' :
  collected_as cs st → foldM collect_candidate st page = Ok st' → collected_as (cs ++ page) st'.
Proof.
  revert cs st; induction page as [|c page IH]; intros cs st Hst; cbn [foldM].
  { intros [= <-]. by rewrite app_nil_r. }
  intros (st1 & H1 & H2)%bind_Ok_iff. replace (cs ++ c :: page) with ((cs ++ [c]) ++ page)
    by (by rewrite <- app_assoc).
  eapply IH; [|done]. destruct Hst as (-> & Hne & Hnd). unfold collect_candidate in H1.
  apply bind_Ok_iff in H1 as (u & Hc%check_Ok_iff & H1).
  apply bind_Ok_iff in H1 as (u' & Hin%check_Ok_iff & [= <-]).
  apply negb_true_iff, String.eqb_neq in Hc. apply negb_true_iff, bool_decide_eq_false in Hin.
  rewrite elem_of_list_to_set in Hin. split_and!.
  - rewrite ranked_snoc, length_ranked, fmap_app, list_to_set_app_L. f_equal. simpl. set_solver.
  - apply Forall_app. split; [done|]. by constructor.
  - rewrite fmap_app. apply NoDup_app. split_and!; [done| |apply NoDup_singleton].
    intros k Hk Hk'. apply list_elem_of_singleton in Hk'. by subst.
Qed.

Lemma collect_pages_inv `{ScopedPageSource} fuel wanted pageSize cursor seen collected cs :
  collected_as cs (seen, collected) → 1 ≤ pageSize → length cs ≤ wanted → wanted - length cs ≤ fuel →
  match collect_pages fuel wanted pageSize cursor seen collected with
  | Ok l => ∃ cs', l = ranked cs' ∧ Forall (λ c, cand_Key c ≠ "") cs' ∧ NoDup (cand_Key <$> cs') ∧
      length cs' ≤ wanted
  | Err e => e ≠ FusionFuel
  end.
Proof.
  revert cursor seen collected cs; induction fuel as [|fuel IH]; intros cursor seen collected cs Hcs Hps Hw Hf;
    pose proof Hcs as ([= -> ->] & Hne & Hnd); cbn [collect_pages]; rewrite length_ranked.
  { rewrite (proj2 (Nat.leb_le _ _)) by lia. by exists cs. }
  destruct (Nat.leb_spec wanted (length cs)); [by exists cs|].
  destruct (SearchPage _) as [page|]; cbn [from_lookup mbind result_bind]; [|done].
  destruct (Nat.leb_spec (length (Candidates page)) (Nat.min pageSize (wanted - length cs)));
    cbn [check mbind result_bind]; [|done].
  destruct (_ && _) eqn:Hempty; cbn [negb check mbind result_bind]; [done|].
  destruct (foldM _ _ _) as [st|e] eqn:Hfold; cbn [mbind result_bind].
  2:{ clear -Hfold. revert Hfold. generalize (list_to_set (C:=gset string) (cand_Key <$> cs), ranked cs).
      induction (Candidates page) as [|c l IH]; intros st; cbn [foldM]; [done|].
      intros [Hc|(st' & _ & Hl)]%bind_Err_iff; [|by eapply IH]. destruct st as [seen collected].
      unfold collect_candidate in Hc. apply bind_Err_iff in Hc as [[_ <-]%check_Err_iff|(_ & _ & Hc)]; [done|].
      by apply bind_Err_iff in Hc as [[_ <-]%check_Err_iff|(_ & _ & Hc)]. }
  pose proof (collect_candidates_inv _ _ _ _ Hcs Hfold) as Hst. destruct st as [seen' collected'].
  pose proof Hst as ([= -> ->] & Hne' & Hnd').
  assert (length (cs ++ Candidates page) ≤ wanted) as Hlen by (rewrite length_app; lia).
  destruct (Exhausted page); [by exists (cs ++ Candidates page)|].
  destruct (_ || _); cbn [negb check mbind result_bind]; [done|]. cbn [fst snd].
  eapply IH; [exact Hst|done|done|]. rewrite andb_true_r in Hempty. apply Nat.eqb_neq in Hempty.
  rewrite length_app. lia.
Qed.

Lemma ranked_lane_from n cs taken :
  Forall (λ c, cand_Key c ≠ "") cs → NoDup (cand_Key <$> cs) →
  (∀ c, c ∈ cs → cand_Key c ∉ taken) →
  lane_from (Z.of_nat n) taken
    (imap (λ i c, mkRanked (cand_Key c) (Z.of_nat (n + i) + 1) (cand_Score c) (cand_Provenance c)) cs).
Proof.
  revert n taken; induction cs as [|c cs IH]; intros n taken Hne Hnd Ht; [done|].
  apply Forall_cons in Hne as [Hc Hne]. rewrite fmap_cons in Hnd. apply NoDup_cons in Hnd as [Hni Hnd].
  cbn [imap]. simpl. rewrite Nat.add_0_r. split_and!; [done|lia|apply Ht, list_elem_of_here|].
  replace (Z.of_nat n + 1)%Z with (Z.of_nat (S n)) by lia.
  rewrite (imap_ext _ (λ i c, mkRanked (cand_Key c) (Z.of_nat (S n + i) + 1) (cand_Score c) (cand_Provenance c))).
  { apply IH; [done|done|]. intros c' Hc'. apply not_elem_of_union. split.
    - rewrite elem_of_singleton. intros Heq. apply Hni. rewrite <- Heq. by apply list_elem_of_fmap_2.
    - by apply Ht, list_elem_of_further. }
  intros i c' _. simpl. repeat f_equal. lia.
Qed.

Lemma ranked_lane_ok cs :
  Forall (λ c, cand_Key c ≠ "") cs → NoDup (cand_Key <$> cs) → lane_ok (ranked cs).
Proof. intros Hne Hnd. apply (ranked_lane_from 0 cs ∅ Hne Hnd). intros c _. apply not_elem_of_empty. Qed.

(** Collection always ends, whatever the source answers: it returns at most
    [limit] candidates with distinct non-empty keys and ranks from one, a lane
    that fusion accepts, or an error of the code. *)
Theorem CollectScopedCandidates_total `{ScopedPageSource} limit pageSize :
  match CollectScopedCandidates limit pageSize with
  | Ok out => ∃ cs, scoped out = ranked cs ∧ lane_ok (scoped out) ∧ small_ranks (scoped out) ∧
      (Z.of_nat (length (scoped out)) <= limit)%Z
  | Err e => e ≠ FusionFuel
  end.
Proof.
  unfold CollectScopedCandidates, valid_limit.
  destruct (Z.leb_spec 1 limit); cbn [andb check mbind result_bind]; [|done].
  destruct (Z.leb_spec limit MaxCandidateLimit) as [Hmax|]; cbn [andb check mbind result_bind]; [|done].
  destruct (Z.leb_spec 1 pageSize); cbn [andb check mbind result_bind]; [|done].
  destruct (Z.leb_spec pageSize MaxCandidateLimit); cbn [andb check mbind result_bind]; [|done].
  pose proof (collect_pages_inv (S (Z.to_nat limit)) (S (Z.to_nat limit)) (Z.to_nat pageSize) "" ∅ [] []) as Hc.
  destruct (collect_pages _ _ _ _ _ _) as [l|e]; cbn [mbind result_bind].
  2:{ apply Hc; [split_and!; [done|constructor|constructor]|lia|simpl; lia|simpl; lia]. }
  destruct Hc as (cs & -> & Hne & Hnd & Hlen);
    [split_and!; [done|constructor|constructor]|lia|simpl; lia|simpl; lia|].
  rewrite take_if, take_ranked. cbn [scoped]. set (k := Z.to_nat limit).
  assert (lane_ok (ranked (take k cs))) as Hok.
  { apply ranked_lane_ok; [by apply Forall_take|]. rewrite fmap_take.
    rewrite <- (take_drop k (cand_Key <$> cs)) in Hnd. by apply NoDup_app in Hnd as [? _]. }
  exists (take k cs). split_and!; [done|done| |rewrite length_ranked, length_take; lia].
  apply Forall_forall. intros s Hs. unfold ranked in Hs.
  apply elem_of_lookup_imap in Hs as (i & c & -> & Hi). apply lookup_lt_Some in Hi.
  rewrite length_take in Hi. unfold int_max, DefaultReciprocalRankConstant, MaxCandidateLimit in *. simpl. lia.
Qed.

(** ** The properties at work *)

Module Sample.

Definition candidate (k : string) (rank : Z) : RankedCandidate := mkRanked k rank float64_zero [].
Definition lexical : ScopedCandidates := mkScoped [candidate "a" 1; candidate "b" 2] false.
Definition semantic : ScopedCandidates := mkScoped [candidate "b" 1; candidate "c" 2] false.
Definition values (m : gmap string FusedCandidate) : list FusedCandidate := (map_to_list m).*2.
Definition backwards (m : gmap string FusedCandidate) : list FusedCandidate := reverse (values m).

Lemma values_range : map_range values.
Proof. by intros m. Qed.
Lemma backwards_range : map_range backwards.
Proof. intros m. apply reverse_Permutation. Qed.
Lemma lexical_small : small_ranks (scoped lexical).
Proof. by repeat constructor. Qed.
Lemma semantic_small : small_ranks (scoped semantic).
Proof. by repeat constructor. Qed.

(** "b" is in both lanes and comes first. *)
Lemma FuseReciprocalRank_correct_witness :
  lane_ok (scoped lexical) ∧ ∃ out ranking,
    FuseReciprocalRank lexical semantic values 2 = Ok out ∧
    StronglySorted fused_le ranking ∧ fused out = take 2 (imap set_rank ranking) ∧
    fc_Key <$> fused out = ["b"; "a"] ∧ fc_Truncated out = true.
Proof.
  destruct (FuseReciprocalRank_correct lexical semantic values 2 values_range lexical_small semantic_small)
    as [[Hok _] Hres].
  specialize (Hok ltac:(vm_compute; reflexivity)). destruct Hok as (_ & Hl & _). split; [exact Hl|].
  assert (match FuseReciprocalRank lexical semantic values 2 with
          | Ok o => fc_Key <$> fused o = ["b"; "a"] ∧ fc_Truncated o = true
          | Err _ => False end) as Hk by (vm_compute; done).
  destruct (FuseReciprocalRank lexical semantic values 2) as [out|e]; [|destruct Hk].
  destruct Hk as [Hk Ht]. destruct (Hres out eq_refl) as (ranking & Hs & _ & _ & Hf & _).
  exists out, ranking. repeat split; assumption.
Defined.

Lemma FuseReciprocalRank_deterministic_witness :
  FuseReciprocalRank lexical semantic values 2 = FuseReciprocalRank lexical semantic backwards 2.
Proof.
  exact (FuseReciprocalRank_deterministic lexical semantic values backwards 2 values_range backwards_range
           lexical_small semantic_small).
Defined.

(** A source of three candidates that gives them out one by one; a cursor is
    as long as the position it stands for. *)
Definition stock : list Candidate :=
  (λ k, mkCandidate k float64_zero []) <$> ["a"; "b"; "c"].
Definition cursor_at (n : nat) : string := String.string_of_list_ascii (replicate n "x"%char).
Instance one_by_one : ScopedPageSource := λ request,
  let p := slen (Cursor request) in
  Some (mkPage (take 1 (drop p stock)) (cursor_at (S p)) (2 <=? p)%nat).

Lemma slen_cursor_at n : slen (cursor_at n) = n.
Proof. induction n as [|n IH]; [done|]. exact (f_equal S IH). Qed.

Lemma one_by_one_pages : pages_through stock slen.
Proof.
  split; [done|]. intros cursor n Hn Hp. eexists. split; [reflexivity|]. cbn [Candidates Exhausted NextCursor Cursor].
  rewrite slen_cursor_at, length_take, length_drop. change (length stock) with 3 in *.
  split_and!; [lia| |].
  { destruct (decide (3 - slen cursor = 0)) as [H0|H0]; [rewrite H0, !drop_ge by (simpl; lia); done|].
    by rewrite Nat.min_l by lia. }
  destruct (Nat.leb_spec 2 (slen cursor)); [lia|]. split_and!; [lia| | |lia].
  - intros Heq%(f_equal slen). by rewrite slen_cursor_at in Heq.
  - intros Heq%(f_equal slen). rewrite slen_cursor_at in Heq. lia.
Qed.

Lemma CollectScopedCandidates_correct_witness :
  CollectScopedCandidates 2 2 = Ok (mkScoped (ranked (take 2 stock)) true).
Proof.
  refine (CollectScopedCandidates_correct stock slen 2 2 one_by_one_pages _ _ _ _).
  - by repeat constructor.
  - by apply (bool_decide_unpack _); vm_compute.
  - by vm_compute.
  - by vm_compute.
Defined.

End Sample.
