(* ===== verification/SearchText.v ===== *)
(** * Query text (internal/store/search.go)

    How free-form input becomes a full-text query, when a search needs one, and
    the bounded excerpt that explains a hit. *)
From S2P Require Import Prelude GoText Runes.

(** ** package strings, on runes *)

(** Three bytes of a UTF-8 sequence. *)
Definition utf8_3 (a b c : N) : string :=
  String (ascii_of_N a) (String (ascii_of_N b) (String (ascii_of_N c) "")).
Definition utf8_2 (a b : N) : string := String (ascii_of_N a) (String (ascii_of_N b) "").
Definition utf8_1 (a : N) : string := String (ascii_of_N a) "".

(** [unicode.IsSpace]: the white space of ASCII, U+0085, U+00A0, U+1680,
    U+2000..U+200A, U+2028, U+2029, U+202F, U+205F and U+3000. *)
Definition spaces : list string :=
  (utf8_1 <$> [9; 10; 11; 12; 13; 32]%N)
  ++ [utf8_2 0xC2 0x85; utf8_2 0xC2 0xA0; utf8_3 0xE1 0x9A 0x80]
  ++ (utf8_3 0xE2 0x80 <$> [0x80; 0x81; 0x82; 0x83; 0x84; 0x85; 0x86; 0x87; 0x88; 0x89; 0x8A;
                            0xA8; 0xA9; 0xAF]%N)
  ++ [utf8_3 0xE2 0x81 0x9F; utf8_3 0xE3 0x80 0x80].
Definition IsSpace (r : string) : bool := bool_decide (r ∈ spaces).

(** The bytes of each rune of a string with the rune they decode to. *)
Fixpoint pieces_fuel (fuel : nat) (s : string) : list (string * string) :=
  match fuel, s with
  | S fuel, String _ _ =>
      let r := DecodeRuneInString s in (stake r.2 s, r.1) :: pieces_fuel fuel (sdrop r.2 s)
  | _, _ => []
  end.
Definition pieces (s : string) : list (string * string) := pieces_fuel (slen s) s.

(** [strings.FieldsSeq]: the maximal runs of bytes between white space;
    [current] is the run being read. *)
Fixpoint fields_from (current : string) (ps : list (string * string)) : list string :=
  match ps with
  | [] => if String.eqb current "" then [] else [current]
  | (bytes, r) :: ps =>
      if IsSpace r then
        (if String.eqb current "" then [] else [current]) ++ fields_from "" ps
      else fields_from (current +:+ bytes) ps
  end.
Definition strings_Fields (s : string) : list string := fields_from "" (pieces s).

(** [strings.TrimSpace].  Trimming from the end decodes backwards; UTF-8
    synchronizes itself, so it finds the same runes. *)
Fixpoint drop_spaces (ps : list (string * string)) : list (string * string) :=
  match ps with
  | (bytes, r) :: ps' => if IsSpace r then drop_spaces ps' else ps
  | [] => []
  end.
Definition TrimSpace (s : string) : string :=
  String.concat "" (reverse (drop_spaces (reverse (drop_spaces (pieces s))))).*1.

(** ** The full-text query *)

Definition quote : ascii := "034"%char.

(** [strings.ReplaceAll] of a double quote by two. *)
Fixpoint double_quotes (s : string) : string :=
  match s with
  | "" => ""
  | String a s =>
      if Ascii.eqb a quote then String quote (String quote (double_quotes s))
      else String a (double_quotes s)
  end.

Definition fts_term (t : string) : string :=
  String quote (double_quotes t +:+ String quote "*").

Definition ftsQuery (input : string) : string :=
  Join (fts_term <$> strings_Fields input) " ".

(** The filters of a search. *)
Record ScopeOptions := mkScope {
  TagID : string;
  MIMEType : string;
  UnderNodeID : Z;
  ModifiedSince : string;
  ModifiedBefore : string;
  FilesOnly : bool;
}.
Definition no_scope : ScopeOptions := mkScope "" "" 0 "" "" false.

Definition SearchNeedsQuery (query : string) (opts : ScopeOptions) : bool :=
  String.eqb (ftsQuery query) "" && String.eqb (TagID opts) ""
  && String.eqb (ModifiedSince opts) "" && String.eqb (ModifiedBefore opts) "".

(** ** Excerpts *)

Definition maxExplainedSearchExcerptRunes : nat := 512.

Definition boundedExplainedSearchExcerpt (value : string) : string :=
  let runes := to_runes value in
  let runes :=
    if (maxExplainedSearchExcerptRunes <? length runes)%nat then
      let match_ := match list_find (λ r, r = utf8_1 1) runes with Some (i, _) => i | None => 0 end in
      let start := Nat.min (match_ - maxExplainedSearchExcerptRunes / 2)
                     (length runes - maxExplainedSearchExcerptRunes) in
      take maxExplainedSearchExcerptRunes (drop start runes)
    else runes in
  of_runes (filter (λ r, ¬ (r = utf8_1 1 ∨ r = utf8_1 2)) runes).

(** ** What a full-text query says *)

(** FTS5 reads a string literal up to its closing quote, two quotes in it
    standing for one; [*] after it asks for a prefix match. *)
Fixpoint read_literal (s : string) : option (string * string) :=
  match s with
  | String a s =>
      if Ascii.eqb a quote then
        match s with
        | String b s' =>
            if Ascii.eqb b quote then
              '(t, rest) ← read_literal s'; Some (String quote t, rest)
            else Some ("", s)
        | "" => Some ("", "")
        end
      else '(t, rest) ← read_literal s; Some (String a t, rest)
  | "" => None
  end.

(** The terms of a query that consists of quoted prefix terms only. *)
Fixpoint read_terms (fuel : nat) (s : string) : option (list string) :=
  match fuel, s with
  | S fuel, String a s =>
      if Ascii.eqb a quote then
        '(t, rest) ← read_literal s;
        match rest with
        | String "*" "" => Some [t]
        | String "*" (String " " rest) => ts ← read_terms fuel rest; Some (t :: ts)
        | _ => None
        end
      else None
  | _, _ => None
  end.
Definition read_query (s : string) : option (list string) :=
  if String.eqb s "" then Some [] else read_terms (slen s) s.

Lemma read_literal_double t rest :
  read_literal (double_quotes t +:+ String quote (String "*" rest)) = Some (t, String "*" rest).
Proof.
  induction t as [|a t IH]; [done|]. cbn [double_quotes].
  destruct (Ascii.eqb_spec a quote) as [->|Ha]; rewrite !sapp_cons; cbn [read_literal].
  - by rewrite !Ascii.eqb_refl, IH.
  - rewrite (proj2 (Ascii.eqb_neq _ _) Ha). by rewrite IH.
Qed.

Lemma Join_cons2 t u ts sep : Join (t :: u :: ts) sep = t +:+ sep +:+ Join (u :: ts) sep.
Proof. done. Qed.

Lemma read_terms_query ts fuel :
  ts ≠ [] → slen (Join (fts_term <$> ts) " ") ≤ fuel →
  read_terms fuel (Join (fts_term <$> ts) " ") = Some ts.
Proof.
  revert fuel; induction ts as [|t ts IH]; intros fuel Hne Hf; [done|].
  destruct ts as [|u ts].
  - destruct fuel as [|fuel]; [simpl in Hf; lia|]. cbn [fmap list_fmap Join String.concat].
    unfold fts_term. cbn [read_terms]. rewrite Ascii.eqb_refl, read_literal_double. done.
  - rewrite !fmap_cons, Join_cons2 in *. rewrite <- fmap_cons in *.
    unfold fts_term at 1 in Hf. unfold fts_term at 1.
    destruct fuel as [|fuel]; [simpl in Hf; lia|].
    rewrite !sapp_cons in *. cbn [read_terms]. rewrite Ascii.eqb_refl.
    rewrite <- !sapp_assoc in *. rewrite !sapp_cons in *. rewrite read_literal_double. cbn [mbind option_bind].
    set (rest := Join (fts_term <$> u :: ts) " ") in *. cbn [mbind option_bind].
    change ("" +:+ String " " ("" +:+ rest)) with (String " " rest). cbn iota beta.
    rewrite IH; [done|done|].
    change ("" +:+ String " " ("" +:+ rest)) with (String " " rest) in Hf.
    cbn [slen] in Hf. rewrite slen_app in Hf. cbn [slen] in Hf. lia.
Qed.

(** Fields are not empty, and white space does not occur in them. *)
Lemma fields_from_nonempty current ps :
  Forall (λ p, p.1 ≠ "") ps → Forall (λ t, t ≠ "") (fields_from current ps).
Proof.
  revert current; induction ps as [|[bytes r] ps IH]; intros current Hps; simpl.
  - destruct (String.eqb_spec current ""); by repeat constructor.
  - apply Forall_cons in Hps as [Hb Hps]. destruct (IsSpace r); [|by apply IH].
    apply Forall_app. split; [|by apply IH].
    destruct (String.eqb_spec current ""); by repeat constructor.
Qed.

Lemma pieces_nonempty s : Forall (λ p, p.1 ≠ "") (pieces s).
Proof.
  unfold pieces. generalize (slen s). intros n. revert s; induction n as [|n IH]; intros [|a s]; try constructor.
  - pose proof (DecodeRune_size a s) as Hsz. destruct (_.2); [lia|done].
  - apply IH.
Qed.

(** Input text cannot act as query syntax: whatever the input, the query
    reads back as the list of its words, each a quoted prefix term, and no word
    is empty. *)
Theorem ftsQuery_reads_back input :
  read_query (ftsQuery input) = Some (strings_Fields input) ∧
  Forall (λ t, t ≠ "") (strings_Fields input).
Proof.
  split; [|apply fields_from_nonempty, pieces_nonempty].
  unfold read_query, ftsQuery. destruct (strings_Fields input) as [|t ts] eqn:Hf; [done|].
  rewrite <- Hf. destruct (String.eqb_spec (Join (fts_term <$> strings_Fields input) " ") "") as [He|_].
  - rewrite Hf in He. destruct ts; discriminate He.
  - apply read_terms_query; [by rewrite Hf|done].
Qed.
