(* ===== verification/Retrieval.v ===== *)
(** * Hybrid retrieval (internal/retrieval/fusion.go, search.go)

    The lanes of a search over documents are fused through the shared
    reciprocal-rank fusion under ordinal string keys, and a report shows one
    page of the result.  What the semantic lane and the lexical search of the
    store answer is an interface; the query encoder and the vector index behind
    it are outside. *)
From Stdlib Require Import Floats.SpecFloat.
From stdpp Require Import sorting.
From S2P Require Import Prelude GoText Names Runes SearchText Fusion.

(** ** Data *)

Inductive Lane := LaneLexical | LaneSemantic.
#[export] Instance Lane_eq_dec : EqDecision Lane.
Proof. solve_decision. Defined.

Record DocumentIdentity := mkDocument { VaultID : string; NodeID : Z; ContentVersionID : string }.
#[export] Instance DocumentIdentity_eq_dec : EqDecision DocumentIdentity.
Proof. solve_decision. Defined.
#[export] Instance DocumentIdentity_countable : Countable DocumentIdentity.
Proof.
  refine (inj_countable' (λ d, (VaultID d, NodeID d, ContentVersionID d))
            (λ t, mkDocument t.1.1 t.1.2 t.2) _); by intros [].
Defined.

Record EvidenceReference := mkEvidenceReference {
  er_Kind : string; er_VaultID : string; er_NodeID : Z; er_NodeRevision : Z;
  er_ContentVersionID : string; er_VectorSpaceID : string; er_EmbeddingSetID : string;
  er_InputGenerationID : string; er_InputID : string; er_InputKind : string;
  er_BuildID : string; er_SegmentID : string; er_BlobHash : string;
}.

Record DocumentCandidate := mkDocumentCandidate {
  Document : DocumentIdentity;
  dc_Lane : Lane;
  dc_Rank : Z;
  dc_Score : float64;
  VectorSpaceID : string;
  Path : string;
  Excerpt : string;
  Evidence : list EvidenceReference;
}.

Record Contribution := mkContribution { con_Lane : Lane; con_Rank : Z; con_Value : float64 }.

Record SearchResult := mkSearchResult {
  res_Document : DocumentIdentity;
  res_Rank : Z;
  res_Score : float64;
  res_Path : string;
  res_Excerpt : string;
  LexicalRank : Z;
  SemanticRank : Z;
  res_Evidence : list EvidenceReference;
  Explanation : list Contribution;
}.

(** ** The lanes *)

Definition validateOneSemanticVectorSpace (candidates : list DocumentCandidate) :
    result fusion_error () :=
  _ ← foldM (λ vectorSpaceID candidate,
        _ ← check (negb (String.eqb (VectorSpaceID candidate) "")) ErrVectorSpace;
        _ ← check (String.eqb vectorSpaceID "" || String.eqb (VectorSpaceID candidate) vectorSpaceID)
              ErrVectorSpace;
        _ ← check (forallb (λ e, String.eqb (er_VectorSpaceID e) (VectorSpaceID candidate))
                     (Evidence candidate)) ErrVectorSpace;
        Ok (VectorSpaceID candidate)) "" candidates;
  Ok ().

(** The loop body of [addLane]. *)
Definition add_candidate (lane : Lane) (results : gmap DocumentIdentity SearchResult)
    (candidate : DocumentCandidate) : result fusion_error (gmap DocumentIdentity SearchResult) :=
  let identity := Document candidate in
  _ ← check (bool_decide (dc_Lane candidate = lane)) ErrWrongLane;
  _ ← check (negb (String.eqb (VaultID identity) "" || (NodeID identity <=? 0)%Z
                   || String.eqb (ContentVersionID identity) "")) ErrIdentity;
  result ← match results !! identity with
           | None => Ok (mkSearchResult identity 0 float64_zero (Path candidate) "" 0 0 [] [])
           | Some r =>
               _ ← check (negb (negb (String.eqb (res_Path r) "") && negb (String.eqb (Path candidate) "")
                                && negb (String.eqb (res_Path r) (Path candidate)))) ErrPathDisagrees;
               Ok (mkSearchResult (res_Document r) (res_Rank r) (res_Score r)
                     (if String.eqb (res_Path r) "" then Path candidate else res_Path r)
                     (res_Excerpt r) (LexicalRank r) (SemanticRank r) (res_Evidence r) (Explanation r))
           end;
  let lexical := bool_decide (lane = LaneLexical) in
  Ok (<[identity := mkSearchResult (res_Document result) (res_Rank result) (res_Score result)
         (res_Path result) (if lexical then Excerpt candidate else res_Excerpt result)
         (if lexical then dc_Rank candidate else LexicalRank result)
         (if lexical then SemanticRank result else dc_Rank candidate)
         (res_Evidence result ++ Evidence candidate) (Explanation result)]> results).

Definition addLane (results : gmap DocumentIdentity SearchResult) (candidates : list DocumentCandidate)
    (lane : Lane) : result fusion_error (gmap DocumentIdentity SearchResult) :=
  foldM (add_candidate lane) results candidates.

(** ** Fusing documents *)

(** [cmp.Or] of the three comparisons. *)
Definition identity_le (l r : DocumentIdentity) : Prop :=
  if decide (VaultID l = VaultID r) then
    if decide (NodeID l = NodeID r) then String.le (ContentVersionID l) (ContentVersionID r)
    else (NodeID l < NodeID r)%Z
  else String.le (VaultID l) (VaultID r).
#[export] Instance identity_le_dec : RelDecision identity_le.
Proof. intros l r. unfold identity_le. repeat case_decide; apply _. Defined.

(** [fmt.Sprintf("%020d", index)] *)
Definition ordinal_key (index : nat) : string := pad_zero 20 index.

Definition rankLane (keys : gmap DocumentIdentity string) (candidates : list DocumentCandidate) :
    ScopedCandidates :=
  mkScoped ((λ c, mkRanked (default "" (keys !! Document c)) (dc_Rank c) (dc_Score c) []) <$> candidates)
    false.

Definition contributions (c : FusedCandidate) : list Contribution :=
  let one lane (o : option CandidateSignal) :=
    match o with
    | Some s => [mkContribution lane (sig_Rank s) (contribution (sig_Rank s))]
    | None => []
    end in
  one LaneLexical (Lexical c) ++ one LaneSemantic (Semantic c).

(** The order of the two range loops is a parameter, as in [Fusion]; a fused
    key without metadata would be a nil dereference, [None]. *)
Class FusionRange := {
  range_documents : gmap DocumentIdentity SearchResult → list DocumentIdentity;
  range_fused : gmap string FusedCandidate → list FusedCandidate;
}.

(** The identities in the order of their ordinal keys. *)
Definition document_order `{FusionRange} (m : gmap DocumentIdentity SearchResult) :
    list DocumentIdentity := merge_sort identity_le (range_documents m).

Definition present (metadata : gmap string SearchResult) (c : FusedCandidate) : option SearchResult :=
  r ← metadata !! fc_Key c;
  Some (mkSearchResult (res_Document r) (fc_Rank c) (fc_Score c) (res_Path r) (res_Excerpt r)
          (LexicalRank r) (SemanticRank r) (res_Evidence r) (Explanation r ++ contributions c)).

Definition FuseDocuments `{FusionRange} (lexical semantic : list DocumentCandidate) (limit : Z) :
    result fusion_error (option (list SearchResult) * bool) :=
  _ ← validateOneSemanticVectorSpace semantic;
  m ← addLane ∅ lexical LaneLexical;
  m ← addLane m semantic LaneSemantic;
  let identities := document_order m in
  let keys := list_to_map (imap (λ i d, (d, ordinal_key i)) identities) in
  let metadata := list_to_map (omap id (imap (λ i d, r ← m !! d; Some (ordinal_key i, r)) identities)) in
  out ← FuseReciprocalRank (rankLane keys lexical) (rankLane keys semantic) range_fused limit;
  Ok (mapM (present metadata) (fused out), fc_Truncated out).

(** ** Reports *)

Definition pageSlice {A} (items : list A) (offset limit : nat) : list A * bool :=
  if (length items <=? offset)%nat then ([], false)
  else
    let end_ := Nat.min (length items) (offset + limit) in
    (take (end_ - offset) (drop offset items), (end_ <? length items)%nat).

Definition candidateWindow (offset limit : Z) : Z :=
  if ((MaxCandidateLimit <=? offset) || (MaxCandidateLimit - offset <=? limit))%Z then MaxCandidateLimit
  else (offset + limit + 1)%Z.

Inductive CoverageState := CoverageUnknown | CoverageComplete | CoverageIncomplete.
Record Coverage := mkCoverage {
  BindingRequired : bool;
  ScopedDocuments : Z;
  CompleteDocuments : Z;
  State : CoverageState;
}.
Definition unknown_coverage : Coverage := mkCoverage false 0 0 CoverageUnknown.

Inductive FallbackReason :=
  | FallbackSemanticNotConfigured | FallbackSemanticBindingAmbiguous
  | FallbackSemanticAuthorityUnavailable | FallbackQueryEncoderUnavailable.
(** [Applied] is that there is a reason. *)
Definition Fallback : Type := option FallbackReason.

Inductive SkippedReason :=
  | SkippedLexicalCandidateLimit | SkippedSemanticCandidateLimit | SkippedFinalCandidateLimit.

Inductive TraceCode := TraceLexicalCandidates | TraceSemanticCandidates | TraceFusedCandidates.
Record TraceEvent := mkTrace { Code : TraceCode; Count : nat }.

Notation ModeAuto := "auto".
Notation ModeLexical := "lexical".
Notation ModeSemantic := "semantic".
Notation ModeHybrid := "hybrid".

Record Report := mkReport {
  RequestedMode : string;
  ActualMode : string;
  rep_Coverage : Coverage;
  rep_Fallback : Fallback;
  SkippedReasons : list SkippedReason;
  Results : list SearchResult;
  rep_Limit : Z;
  rep_Offset : Z;
  NextOffset : Z;
  rep_Truncated : bool;
  Trace : list TraceEvent;
}.

(** The profile, binding and authorization of a query only reach the semantic
    lane. *)
Record Query := mkQuery {
  Text : string;
  q_Mode : string;
  q_Limit : Z;
  Offset : Z;
  Scope : ScopeOptions;
}.

Definition laneReport (requested actual : string) (coverage : Coverage)
    (candidates : list DocumentCandidate) (truncated : bool) (limit offset : Z) : Report :=
  let results :=
    (λ candidate,
      let c := contribution (dc_Rank candidate) in
      let lexical := bool_decide (dc_Lane candidate = LaneLexical) in
      mkSearchResult (Document candidate) (dc_Rank candidate) c (Path candidate) (Excerpt candidate)
        (if lexical then dc_Rank candidate else 0) (if lexical then 0 else dc_Rank candidate)
        (Evidence candidate) [mkContribution (dc_Lane candidate) (dc_Rank candidate) c]) <$> candidates in
  mkReport requested actual coverage None [] results limit offset
    (offset + Z.of_nat (length results)) truncated
    [mkTrace (if String.eqb actual ModeSemantic then TraceSemanticCandidates else TraceLexicalCandidates)
       (length results)].

Definition makeHybridReport `{FusionRange} (requested : string) (coverage : Coverage)
    (lexical semantic : list DocumentCandidate) (lexicalTruncated semanticTruncated : bool)
    (query : Query) : result fusion_error (option Report) :=
  let fusedLimit := candidateWindow (Offset query) (q_Limit query) in
  '(results, fusedTruncated) ← FuseDocuments lexical semantic fusedLimit;
  Ok (results ← results;
      let '(page, pageTruncated) :=
        pageSlice results (Z.to_nat (Offset query)) (Z.to_nat (q_Limit query)) in
      Some (mkReport requested ModeHybrid coverage None
              ((if lexicalTruncated then [SkippedLexicalCandidateLimit] else [])
               ++ (if semanticTruncated then [SkippedSemanticCandidateLimit] else [])
               ++ (if fusedTruncated && (fusedLimit =? MaxCandidateLimit)%Z
                   then [SkippedFinalCandidateLimit] else []))
              page (q_Limit query) (Offset query) (Offset query + Z.of_nat (length page))
              (pageTruncated || (fusedTruncated && (fusedLimit <? MaxCandidateLimit)%Z))
              [mkTrace TraceLexicalCandidates (length lexical);
               mkTrace TraceSemanticCandidates (length semantic);
               mkTrace TraceFusedCandidates (length page)])).

(** ** Queries *)

Inductive search_error :=
  | ErrFusion (e : fusion_error)
  | ErrQueryText | ErrSearchQueryRequired | ErrOffset
  | ErrUnavailable (reason : FallbackReason)
  | ErrRelease
  | ErrFilterUnsupported
  | ErrBackend
  | ErrNilResult.

Definition lift_fusion {A} (r : result fusion_error A) : result search_error A :=
  match r with Ok a => Ok a | Err e => Err (ErrFusion e) end.

Definition normalizeQuery (query : Query) : result search_error Query :=
  let text := TrimSpace (Text query) in
  options ← lift_fusion (NormalizeSearchOptions (mkSearchOptions (q_Mode query) (q_Limit query)));
  let mode := opt_Mode options in
  _ ← (if SearchNeedsQuery text no_scope then
         _ ← check (negb (String.eqb mode ModeSemantic || String.eqb mode ModeHybrid)) ErrQueryText;
         check (negb (SearchNeedsQuery text (Scope query))) ErrSearchQueryRequired
       else Ok ());
  _ ← check (0 <=? Offset query)%Z ErrOffset;
  Ok (mkQuery text mode (CandidateLimit options) (Offset query) (Scope query)).

(** ** Searching *)

(** One hit of the store's lexical search; a filter-only hit carries its name
    as excerpt and the evidence kind ["node_filter"]. *)
Record LexicalHit := mkHit {
  hit_NodeID : Z;
  hit_Revision : Z;
  hit_VersionID : string;
  hit_BlobHash : string;
  hit_Path : string;
  hit_Excerpt : string;
  hit_EvidenceKind : string;
  hit_BuildID : string;
  hit_SegmentID : string;
}.

(** What the searcher calls: the vault, the two lexical searches of the store
    ([None]: the backend has no filter pages; an inner [None]: it failed), and
    the semantic lane with its candidates, coverage, policy and truncation. *)
Class SearchBackend := {
  backend_VaultID : string;
  SearchPageWithOptions : option (string → Z → Z → ScopeOptions → option (list LexicalHit * bool));
  SearchExplainedLexicalCandidates :
    string → Z → Z → ScopeOptions → option (list LexicalHit * bool);
  semantic_lane : Query →
    result search_error (list DocumentCandidate * Coverage * RetrievalPolicy * bool);
}.

Definition lexical_candidate `{SearchBackend} (offset : Z) (index : nat) (hit : LexicalHit) :
    DocumentCandidate :=
  mkDocumentCandidate (mkDocument backend_VaultID (hit_NodeID hit) (hit_VersionID hit)) LaneLexical
    (offset + Z.of_nat index + 1) float64_zero "" (hit_Path hit) (hit_Excerpt hit)
    [mkEvidenceReference (hit_EvidenceKind hit) backend_VaultID (hit_NodeID hit) (hit_Revision hit)
       (hit_VersionID hit) "" "" "" "" "" (hit_BuildID hit) (hit_SegmentID hit) (hit_BlobHash hit)].

Definition collectLexical `{SearchBackend} (query : Query) :
    result search_error (list DocumentCandidate * bool) :=
  search ← (if SearchNeedsQuery (Text query) no_scope
            then from_lookup SearchPageWithOptions ErrFilterUnsupported
            else Ok SearchExplainedLexicalCandidates);
  '(hits, truncated) ← from_lookup (search (Text query) (q_Limit query) (Offset query) (Scope query))
                         ErrBackend;
  Ok (imap (lexical_candidate (Offset query)) hits, truncated).

Definition lexical `{SearchBackend} (query : Query) (requested : string) (coverage : Coverage) :
    result search_error Report :=
  '(candidates, truncated) ← collectLexical query;
  Ok (laneReport requested ModeLexical coverage candidates truncated (q_Limit query) (Offset query)).

Definition hybrid `{FusionRange} `{SearchBackend} (query : Query) (requested : string) :
    result search_error Report :=
  match semantic_lane query with
  | Err (ErrUnavailable reason) =>
      report ← lexical query requested unknown_coverage;
      Ok (mkReport (RequestedMode report) (ActualMode report) (rep_Coverage report) (Some reason)
            (SkippedReasons report) (Results report) (rep_Limit report) (rep_Offset report)
            (NextOffset report) (rep_Truncated report) (Trace report))
  | Err e => Err e
  | Ok (semantic, coverage, policy, semanticTruncated) =>
      let scope := Scope query in
      let lexicalQuery :=
        mkQuery (Text query) (q_Mode query) (lexicalLimit policy) 0
          (mkScope (TagID scope) (MIMEType scope) (UnderNodeID scope) (ModifiedSince scope)
             (ModifiedBefore scope) true) in
      '(lexical, lexicalTruncated) ← collectLexical lexicalQuery;
      report ← lift_fusion (makeHybridReport requested coverage lexical semantic lexicalTruncated
                              semanticTruncated query);
      from_lookup report ErrNilResult
  end.

(** The semantic mode shows one page of the lane. *)
Definition semantic_report (query : Query) (requested : string) (semantic : list DocumentCandidate)
    (coverage : Coverage) (truncated : bool) : Report :=
  let '(page, pageTruncated) :=
    pageSlice semantic (Z.to_nat (Offset query)) (Z.to_nat (q_Limit query)) in
  let window := candidateWindow (Offset query) (q_Limit query) in
  let report := laneReport requested ModeSemantic coverage page
                  (pageTruncated || (truncated && (window <? MaxCandidateLimit)%Z))
                  (q_Limit query) (Offset query) in
  mkReport (RequestedMode report) (ActualMode report) (rep_Coverage report) (rep_Fallback report)
    (if truncated && (window =? MaxCandidateLimit)%Z then [SkippedSemanticCandidateLimit] else [])
    (Results report) (rep_Limit report) (rep_Offset report) (NextOffset report)
    (rep_Truncated report) (Trace report).

Definition Search `{FusionRange} `{SearchBackend} (query : Query) : result search_error Report :=
  let requested := if String.eqb (q_Mode query) "" then ModeAuto else q_Mode query in
  query ← normalizeQuery query;
  if String.eqb (q_Mode query) ModeSemantic then
    '(semantic, coverage, _, truncated) ← semantic_lane query;
    Ok (semantic_report query requested semantic coverage truncated)
  else if String.eqb (q_Mode query) ModeHybrid then hybrid query requested
  else lexical query requested unknown_coverage.
