(* ===== verification/RetrievalProps.v ===== *)
(** * Facts about document retrieval

    A reference for the fusion of documents that needs no maps and no string
    keys, and that [FuseDocuments] computes it at every limit. *)
From Stdlib Require Import Floats.SpecFloat.
From stdpp Require Import sorting.
From S2P Require Import Prelude GoText Names Runes SearchText Fusion Retrieval.

(** ** The reference *)

Fixpoint find_doc (l : list DocumentCandidate) (d : DocumentIdentity) : option DocumentCandidate :=
  match l with
  | [] => None
  | c :: l => if decide (Document c = d) then Some c else find_doc l d
  end.

Definition add_score (score : float64) (o : option DocumentCandidate) : float64 :=
  match o with Some c => float64_add score (contribution (dc_Rank c)) | None => score end.
Definition explain (lane : Lane) (o : option DocumentCandidate) : list Contribution :=
  match o with
  | Some c => [mkContribution lane (dc_Rank c) (contribution (dc_Rank c))]
  | None => []
  end.

(** A document, with what each lane knows about it. *)
Definition describe (lexical semantic : list DocumentCandidate) (d : DocumentIdentity) : SearchResult :=
  let l := find_doc lexical d in
  let s := find_doc semantic d in
  let path := from_option Path "" l in
  mkSearchResult d 0 (add_score (add_score float64_zero l) s)
    (if String.eqb path "" then from_option Path "" s else path)
    (from_option Excerpt "" l) (from_option dc_Rank 0%Z l) (from_option dc_Rank 0%Z s)
    (from_option Evidence [] l ++ from_option Evidence [] s)
    (explain LaneLexical l ++ explain LaneSemantic s).

(** Higher scores first, then the order of identities. *)
Definition result_le (x y : SearchResult) : Prop :=
  if SFltb (res_Score y) (res_Score x) then True
  else if SFltb (res_Score x) (res_Score y) then False
  else identity_le (res_Document x) (res_Document y).
#[export] Instance result_le_dec : RelDecision result_le.
Proof. intros x y. unfold result_le. repeat case_match; apply _. Defined.

Definition set_result_rank (index : nat) (r : SearchResult) : SearchResult :=
  mkSearchResult (res_Document r) (Z.of_nat index + 1) (res_Score r) (res_Path r) (res_Excerpt r)
    (LexicalRank r) (SemanticRank r) (res_Evidence r) (Explanation r).

Definition reference (lexical semantic : list DocumentCandidate) : list SearchResult :=
  imap set_result_rank (merge_sort result_le
    (describe lexical semantic <$> remove_dups (Document <$> (lexical ++ semantic)))).

(** ** Identities *)

#[export] Instance identity_le_total : Total identity_le.
Proof.
  intros x y. unfold identity_le.
  destruct (decide (VaultID x = VaultID y)) as [Hv|Hv]; [rewrite (decide_True (P:=VaultID y = VaultID x)) by done|
    rewrite (decide_False (P:=VaultID y = VaultID x)) by congruence; apply String.le_total].
  destruct (decide (NodeID x = NodeID y)); [rewrite (decide_True (P:=NodeID y = NodeID x)) by done;
    apply String.le_total|rewrite (decide_False (P:=NodeID y = NodeID x)) by congruence; lia].
Qed.

Lemma string_le_ne (x y : string) : String.le x y → String.le y x → x ≠ y → False.
Proof. intros Hxy Hyx Hne. apply Hne. by apply (anti_symm String.le). Qed.

#[export] Instance identity_le_antisymm : AntiSymm (=) identity_le.
Proof.
  intros [v n c] [v' n' c']. unfold identity_le. cbn [VaultID NodeID ContentVersionID].
  repeat case_decide; subst; try congruence; intros Hxy Hyx; try lia.
  - f_equal. by apply (anti_symm String.le).
  - by destruct (string_le_ne _ _ Hxy Hyx).
Qed.

#[export] Instance identity_le_trans : Transitive identity_le.
Proof.
  intros [v1 n1 c1] [v2 n2 c2] [v3 n3 c3]. unfold identity_le. cbn [VaultID NodeID ContentVersionID].
  repeat case_decide; subst; try congruence; intros Hxy Hyz; try lia; try (by etrans).
  all: by destruct (string_le_ne _ _ Hxy Hyz).
Qed.

(** ** The lanes *)

Lemma find_doc_Some l d c : find_doc l d = Some c → c ∈ l ∧ Document c = d.
Proof.
  induction l as [|c' l IH]; simpl; [done|]. case_decide as Hd.
  - intros [= ->]. split; [apply list_elem_of_here|done].
  - intros [Hin ?]%IH. split; [by apply list_elem_of_further|done].
Qed.

Lemma find_doc_is_Some l d : is_Some (find_doc l d) ↔ d ∈ Document <$> l.
Proof.
  induction l as [|c l IH]; simpl; [split; [by intros []|by intros ?%not_elem_of_nil]|].
  rewrite elem_of_cons. case_decide as Hd; [split; [by left|by eexists]|].
  rewrite IH. split; [by right|]. intros [->|]; done.
Qed.

Lemma find_doc_None l d : find_doc l d = None ↔ d ∉ Document <$> l.
Proof. rewrite <- find_doc_is_Some. destruct (find_doc l d); split; naive_solver. Qed.

(** What a candidate adds to the result of its document. *)
Definition extend_result (lane : Lane) (o : option SearchResult) (c : DocumentCandidate) : SearchResult :=
  let r := default (mkSearchResult (Document c) 0 float64_zero "" "" 0 0 [] []) o in
  let lexical := bool_decide (lane = LaneLexical) in
  mkSearchResult (res_Document r) (res_Rank r) (res_Score r)
    (if String.eqb (res_Path r) "" then Path c else res_Path r)
    (if lexical then Excerpt c else res_Excerpt r)
    (if lexical then dc_Rank c else LexicalRank r)
    (if lexical then SemanticRank r else dc_Rank c)
    (res_Evidence r ++ Evidence c) (Explanation r).

Lemma add_candidate_Ok lane results c results' :
  add_candidate lane results c = Ok results' →
  results' = <[Document c := extend_result lane (results !! Document c) c]> results.
Proof.
  unfold add_candidate, extend_result. intros (u & _ & H)%bind_Ok_iff.
  apply bind_Ok_iff in H as (u' & _ & H). apply bind_Ok_iff in H as (r & Hr & [= <-]).
  destruct (results !! Document c) as [r0|].
  - apply bind_Ok_iff in Hr as (u'' & _ & [= <-]). done.
  - injection Hr as <-. done.
Qed.

Lemma addLane_lookup lane l results results' :
  NoDup (Document <$> l) → addLane results l lane = Ok results' →
  ∀ d, results' !! d = match find_doc l d with
                       | Some c => Some (extend_result lane (results !! d) c)
                       | None => results !! d end.
Proof.
  unfold addLane. revert results; induction l as [|c l IH]; intros results Hnd.
  { by intros [= <-]. }
  rewrite fmap_cons in Hnd. apply NoDup_cons in Hnd as [Hni Hnd]. cbn [foldM].
  intros (r1 & ->%add_candidate_Ok & Hf)%bind_Ok_iff d. rewrite (IH _ Hnd Hf d). cbn [find_doc].
  case_decide as Hd.
  - subst d. rewrite (proj2 (find_doc_None _ _) Hni). by rewrite lookup_insert_eq.
  - by rewrite lookup_insert_ne.
Qed.

(** The metadata of a document once both lanes are in. *)
Definition unscored (r : SearchResult) : SearchResult :=
  mkSearchResult (res_Document r) 0 float64_zero (res_Path r) (res_Excerpt r)
    (LexicalRank r) (SemanticRank r) (res_Evidence r) [].

Lemma addLanes_lookup lexical semantic m1 m2 :
  NoDup (Document <$> lexical) → NoDup (Document <$> semantic) →
  addLane ∅ lexical LaneLexical = Ok m1 → addLane m1 semantic LaneSemantic = Ok m2 →
  ∀ d, m2 !! d = if decide (d ∈ Document <$> (lexical ++ semantic))
                 then Some (unscored (describe lexical semantic d)) else None.
Proof.
  intros Hl Hs H1 H2 d. rewrite (addLane_lookup _ _ _ _ Hs H2), (addLane_lookup _ _ _ _ Hl H1), lookup_empty.
  assert (d ∈ Document <$> (lexical ++ semantic) ↔ is_Some (find_doc lexical d) ∨ is_Some (find_doc semantic d)) as Hd.
  { rewrite fmap_app, elem_of_app. by rewrite !find_doc_is_Some. }
  unfold unscored, describe. destruct (find_doc lexical d) as [l|] eqn:Hfl, (find_doc semantic d) as [s|] eqn:Hfs.
  4:{ rewrite decide_False; [done|]. rewrite Hd. intros [[]|[]]; done. }
  all: rewrite decide_True by (apply Hd; eauto); unfold extend_result; simpl;
    try (apply find_doc_Some in Hfl as [_ Hfl]); try (apply find_doc_Some in Hfs as [_ Hfs]); subst;
    rewrite ?app_nil_r; try done.
  by destruct (String.eqb_spec (Path l) "") as [->|].
Qed.

(** ** Ordinal keys *)

Section keys.
Context (ids : list DocumentIdentity) (Hnd : NoDup ids).

Definition ordinal_keys : gmap DocumentIdentity string :=
  list_to_map (imap (λ i d, (d, ordinal_key i)) ids).

Lemma ordinal_keys_lookup i d : ids !! i = Some d → ordinal_keys !! d = Some (ordinal_key i).
Proof using Hnd.
  intros Hi. apply elem_of_list_to_map_1'.
  - intros k (j & d' & [= <- ->] & Hj)%elem_of_lookup_imap. by rewrite (NoDup_lookup _ _ _ _ Hnd Hi Hj).
  - apply elem_of_lookup_imap. eauto.
Qed.

Lemma ordinal_keys_Some d k :
  ordinal_keys !! d = Some k → ∃ i, ids !! i = Some d ∧ k = ordinal_key i.
Proof using Hnd.
  intros (j & d' & [= <- ->] & Hj)%elem_of_list_to_map_2%elem_of_lookup_imap. eauto.
Qed.

Lemma ordinal_key_of d : d ∈ ids → ∃ i, ids !! i = Some d ∧ ordinal_keys !! d = Some (ordinal_key i).
Proof using Hnd. intros [i Hi]%list_elem_of_lookup. eauto using ordinal_keys_lookup. Qed.

(** Keys name documents. *)
Lemma ordinal_keys_inj d d' :
  d ∈ ids → d' ∈ ids → default "" (ordinal_keys !! d) = default "" (ordinal_keys !! d') → d = d'.
Proof using Hnd.
  intros (i & Hi & ->)%ordinal_key_of (j & Hj & ->)%ordinal_key_of. cbn [default].
  intros Heq%(inj (pad_zero 20)). congruence.
Qed.

Lemma metadata_lookup (m : gmap DocumentIdentity SearchResult) i d :
  ids !! i = Some d →
  (list_to_map (omap id (imap (λ i d, r ← m !! d; Some (ordinal_key i, r)) ids)) : gmap string _)
    !! ordinal_key i = m !! d.
Proof using.
  intros Hi. set (l := omap id _).
  assert (∀ k r, (k, r) ∈ l ↔ ∃ j d, ids !! j = Some d ∧ k = ordinal_key j ∧ m !! d = Some r) as Hin.
  { intros k r. unfold l. rewrite list_elem_of_omap. setoid_rewrite elem_of_lookup_imap. split.
    - intros (o & (j & d' & -> & Hj) & Ho). cbn in Ho. destruct (m !! d') as [r'|] eqn:Hm; [|done].
      injection Ho as <- <-. eauto 6.
    - intros (j & d' & Hj & -> & Hm). eexists. split; [by exists j, d'|]. cbn. by rewrite Hm. }
  destruct (m !! d) as [r|] eqn:Hm.
  - apply elem_of_list_to_map_1'; [|apply Hin; eauto 6].
    intros r' (j & d' & Hj & Hk & Hr)%Hin. apply (inj (pad_zero 20)) in Hk as <-. congruence.
  - apply not_elem_of_list_to_map_1. intros ([k r] & Hk & Hin')%list_elem_of_fmap. cbn in Hk. subst k.
    apply Hin in Hin' as (j & d' & Hj & Hk & Hr). apply (inj (pad_zero 20)) in Hk as <-. congruence.
Qed.

Definition key_of (d : DocumentIdentity) : string := default "" (ordinal_keys !! d).

Lemma key_of_index d : d ∈ ids → ∃ i, ids !! i = Some d ∧ key_of d = ordinal_key i.
Proof using Hnd. intros (i & Hi & Hk)%ordinal_key_of. exists i. split; [done|]. unfold key_of. by rewrite Hk. Qed.

Definition to_ranked (c : DocumentCandidate) : RankedCandidate :=
  mkRanked (key_of (Document c)) (dc_Rank c) (dc_Score c) [].

(** A lane looked up by key is the lane looked up by document. *)
Lemma rankLane_lookup l d :
  (∀ c, c ∈ l → Document c ∈ ids) → d ∈ ids →
  lane_map (scoped (rankLane ordinal_keys l)) !! key_of d = to_ranked <$> find_doc l d.
Proof using Hnd.
  intros Hl Hd. induction l as [|c l IH]; [done|]. cbn [rankLane scoped fmap list_fmap find_doc].
  rewrite lane_map_cons. cbn [rc_Key]. fold (key_of (Document c)).
  case_decide as Hc; [subst d; by rewrite lookup_insert_eq|].
  rewrite lookup_insert_ne; [apply IH; intros c' Hc'; apply Hl; by right|].
  intros Heq. apply Hc, ordinal_keys_inj; [apply Hl; by left|done|done].
Qed.
End keys.

(** ** Fusing documents is the reference *)

(** Range loops visit every entry once. *)
Class FusionRangeLaws `{FusionRange} := {
  range_documents_perm m : range_documents m ≡ₚ (map_to_list m).*1;
  range_fused_perm : map_range range_fused;
}.

Definition small_doc_ranks (l : list DocumentCandidate) : Prop :=
  Forall (λ c, (dc_Rank c <= int_max - DefaultReciprocalRankConstant)%Z) l.

Definition result_key (r : SearchResult) : float64 * DocumentIdentity := (res_Score r, res_Document r).
#[export] Instance result_le_total : Total result_le.
Proof. intros x y. apply (score_le_total identity_le (result_key x) (result_key y)). Qed.

Lemma result_le_trans x y z :
  nonneg (res_Score x) → nonneg (res_Score y) → nonneg (res_Score z) →
  result_le x y → result_le y z → result_le x z.
Proof. apply (score_le_trans identity_le (result_key x) (result_key y) (result_key z)). Qed.

Lemma result_le_antisymm x y :
  nonneg (res_Score x) → nonneg (res_Score y) → result_le x y → result_le y x →
  res_Document x = res_Document y.
Proof. apply (score_le_antisymm identity_le (result_key x) (result_key y)). Qed.

Lemma mapM_present metadata (g : FusedCandidate → SearchResult) l :
  (∀ c i, c ∈ l → present metadata (set_rank i c) = Some (set_result_rank i (g c))) →
  ∀ n, mapM (present metadata) (take n (imap set_rank l)) = Some (take n (imap set_result_rank (g <$> l))).
Proof.
  intros Hg n. apply mapM_Some, Forall2_take, Forall2_same_length_lookup. split.
  - by rewrite !length_imap, length_fmap.
  - intros i x y. rewrite !list_lookup_imap, list_lookup_fmap.
    destruct (l !! i) as [c|] eqn:Hc; [|done]. cbn. intros [= <-] [= <-].
    by apply Hg, list_elem_of_lookup_2 with i.
Qed.

Lemma addLane_domain lane l results results' d :
  addLane results l lane = Ok results' →
  is_Some (results' !! d) ↔ is_Some (results !! d) ∨ d ∈ Document <$> l.
Proof.
  unfold addLane. revert results; induction l as [|c l IH]; intros results.
  { intros [= <-]. rewrite fmap_nil. set_solver. }
  cbn [foldM]. intros (r1 & ->%add_candidate_Ok & Hf)%bind_Ok_iff. rewrite (IH _ Hf), fmap_cons, elem_of_cons.
  destruct (decide (d = Document c)) as [->|Hne].
  - rewrite lookup_insert_eq. naive_solver.
  - rewrite lookup_insert_ne by done. naive_solver.
Qed.

Section fusing.
Context `{FusionRangeLaws} (lexical semantic : list DocumentCandidate).
Context (Hlr : small_doc_ranks lexical) (Hsr : small_doc_ranks semantic).
Context (m1 m2 : gmap DocumentIdentity SearchResult).
Context (Hm1 : addLane ∅ lexical LaneLexical = Ok m1) (Hm2 : addLane m1 semantic LaneSemantic = Ok m2).

Let ids : list DocumentIdentity := document_order m2.
Let docs : list DocumentIdentity := Document <$> (lexical ++ semantic).
Let keys := ordinal_keys ids.
Let LL := rankLane keys lexical.
Let SS := rankLane keys semantic.

Lemma ids_perm : ids ≡ₚ (map_to_list m2).*1.
Proof using All. unfold ids, document_order. by rewrite merge_sort_Permutation, range_documents_perm. Qed.

Lemma ids_NoDup : NoDup ids.
Proof using All. rewrite ids_perm. apply NoDup_fst_map_to_list. Qed.

Lemma ids_elem d : d ∈ ids ↔ d ∈ docs.
Proof using All.
  rewrite ids_perm, list_elem_of_fmap. unfold docs. rewrite fmap_app, elem_of_app.
  transitivity (is_Some (m2 !! d)).
  - split.
    + intros ([d' r] & -> & Hr%elem_of_map_to_list). by exists r.
    + intros [r Hr]. exists (d, r). split; [done|]. by apply elem_of_map_to_list.
  - rewrite (addLane_domain _ _ _ _ d Hm2), (addLane_domain _ _ _ _ d Hm1), lookup_empty.
    split; [intros [[[? [=]]|]|]; auto|intros [|]; auto].
Qed.

Lemma lane_documents_NoDup l :
  lane_ok (scoped (rankLane keys l)) → NoDup (Document <$> l).
Proof using.
  intros [Hnd _]%lane_from_NoDup. cbn [rankLane scoped] in Hnd. rewrite <- list_fmap_compose in Hnd.
  apply (NoDup_fmap_1 (key_of ids)). by rewrite <- list_fmap_compose.
Qed.

Lemma small_ranks_lane l : small_doc_ranks l → small_ranks (scoped (rankLane keys l)).
Proof using. unfold small_doc_ranks, small_ranks. cbn [rankLane scoped]. by rewrite Forall_fmap. Qed.

Lemma ids_length : lane_ok (scoped LL) → lane_ok (scoped SS) → (Z.of_nat (length ids) < 10 ^ 20)%Z.
Proof using All.
  intros Hl%lane_from_length Hs%lane_from_length; [|by apply small_ranks_lane..].
  cbn [LL SS rankLane scoped] in Hl, Hs. rewrite length_fmap in Hl, Hs.
  assert (length ids ≤ length docs) as Hle.
  { apply submseteq_length, NoDup_submseteq; [apply ids_NoDup|]. intros d. apply ids_elem. }
  unfold docs in Hle. rewrite length_fmap, length_app in Hle.
  unfold int_max, DefaultReciprocalRankConstant in *. lia.
Qed.

(** The fused candidate of a document. *)
Definition candidate_of (d : DocumentIdentity) : FusedCandidate :=
  let l := find_doc lexical d in
  let s := find_doc semantic d in
  mkFused (key_of ids d) 0 (add_score (add_score float64_zero l) s)
    (signal_of <$> (to_ranked ids <$> l)) (signal_of <$> (to_ranked ids <$> s)).

Lemma lane_score_ranked score (o : option DocumentCandidate) :
  lane_score score (to_ranked ids <$> o) = add_score score o.
Proof using. by destruct o. Qed.

Lemma fused_of_document d :
  d ∈ ids → fused_of (scoped LL) (scoped SS) (key_of ids d) = Some (candidate_of d).
Proof using All.
  intros Hd. unfold fused_of, LL, SS, keys.
  assert (∀ c, c ∈ lexical → Document c ∈ ids) as Hl.
  { intros c Hc. apply ids_elem. unfold docs. rewrite fmap_app. apply elem_of_app. left.
    by apply list_elem_of_fmap_2. }
  assert (∀ c, c ∈ semantic → Document c ∈ ids) as Hs.
  { intros c Hc. apply ids_elem. unfold docs. rewrite fmap_app. apply elem_of_app. right.
    by apply list_elem_of_fmap_2. }
  rewrite !(rankLane_lookup ids ids_NoDup) by done.
  rewrite bool_decide_eq_false_2; [by rewrite !lane_score_ranked|].
  intros [Hfl%fmap_None Hfs%fmap_None]. apply find_doc_None in Hfl, Hfs.
  apply ids_elem in Hd. unfold docs in Hd. rewrite fmap_app, elem_of_app in Hd. tauto.
Qed.

Lemma fused_of_inv k c :
  fused_of (scoped LL) (scoped SS) k = Some c → ∃ d, d ∈ ids ∧ c = candidate_of d.
Proof using All.
  intros Hf. assert (∃ d, d ∈ ids ∧ k = key_of ids d) as (d & Hd & ->).
  { unfold fused_of in Hf. case_bool_decide as Hb; [done|].
    assert (∃ s, s ∈ scoped LL ++ scoped SS ∧ rc_Key s = k) as (s & Hs & <-).
    { destruct (lane_map (scoped LL) !! k) as [s|] eqn:Hl.
      - apply lane_map_Some in Hl as [Hin Hk]. exists s. split; [|done]. apply elem_of_app. by left.
      - destruct (lane_map (scoped SS) !! k) as [s|] eqn:Hs; [|tauto].
        apply lane_map_Some in Hs as [Hin Hk]. exists s. split; [|done]. apply elem_of_app. by right. }
    unfold LL, SS in Hs. cbn [rankLane scoped] in Hs. rewrite <- fmap_app in Hs.
    apply list_elem_of_fmap in Hs as (dc & -> & Hin). exists (Document dc). split; [|done].
    apply ids_elem. by apply list_elem_of_fmap_2. }
  exists d. split; [done|]. rewrite (fused_of_document d Hd) in Hf. congruence.
Qed.

Context (Hl : lane_ok (scoped LL)) (Hs : lane_ok (scoped SS)).

Lemma describe_scored d : d ∈ ids → nonneg (res_Score (describe lexical semantic d)).
Proof using All.
  intros Hd. destruct (fused_of_scored _ _ _ _ Hl Hs (small_ranks_lane _ Hlr) (small_ranks_lane _ Hsr)
    (fused_of_document d Hd)) as [Hsc _]. exact Hsc.
Qed.

(** The result of a fused candidate: the document its key numbers. *)
Definition document_of (c : FusedCandidate) : SearchResult :=
  describe lexical semantic
    (default (mkDocument "" 0 "") (ids !! Z.to_nat (default 0%Z (digits_from 0 (fc_Key c))))).

Lemma document_of_candidate d : d ∈ ids → document_of (candidate_of d) = describe lexical semantic d.
Proof using All.
  intros (i & Hi & Hk)%(key_of_index ids ids_NoDup). unfold document_of, candidate_of. cbn [fc_Key].
  rewrite Hk. unfold ordinal_key. rewrite digits_from_pad_zero.
  change (default 0%Z (Some ?z)) with z. by rewrite Nat2Z.id, Hi.
Qed.

Lemma present_candidate d i :
  d ∈ ids →
  present (list_to_map (omap id (imap (λ i d, r ← m2 !! d; Some (ordinal_key i, r)) ids)))
    (set_rank i (candidate_of d)) = Some (set_result_rank i (describe lexical semantic d)).
Proof using All.
  intros Hd. pose proof Hd as (j & Hj & Hk)%(key_of_index ids ids_NoDup).
  unfold present. cbn [set_rank candidate_of fc_Key]. rewrite Hk.
  rewrite (metadata_lookup ids m2 j d Hj).
  rewrite (addLanes_lookup lexical semantic m1 m2 (lane_documents_NoDup _ Hl) (lane_documents_NoDup _ Hs) Hm1 Hm2).
  rewrite decide_True by (by apply ids_elem). cbn. unfold set_result_rank, describe. cbn. f_equal. f_equal.
  unfold contributions. cbn. by destruct (find_doc lexical d), (find_doc semantic d).
Qed.

Lemma candidates_perm m1' m2' :
  addFusionLane ∅ (scoped LL) true = Ok m1' → addFusionLane m1' (scoped SS) false = Ok m2' →
  range_fused m2' ≡ₚ candidate_of <$> ids.
Proof using All.
  intros H1' H2'.
  destruct (fusion_entries _ _ range_fused _ _ range_fused_perm (small_ranks_lane _ Hlr)
    (small_ranks_lane _ Hsr) H1' H2') as (_ & Hnd & Hin).
  apply NoDup_Permutation.
  - by apply (NoDup_fmap_1 fc_Key).
  - apply (NoDup_fmap_1 fc_Key). rewrite <- list_fmap_compose. apply NoDup_fmap_2_strong; [|apply ids_NoDup].
    intros d d' Hd Hd'. cbn. by apply (ordinal_keys_inj ids ids_NoDup).
  - intros c. rewrite Hin. split.
    + intros (k & (d & Hd & ->)%fused_of_inv). by apply list_elem_of_fmap_2.
    + intros (d & -> & Hd)%list_elem_of_fmap. eexists. by apply fused_of_document.
Qed.

Lemma candidate_order d d' :
  d ∈ ids → d' ∈ ids → fused_le (candidate_of d) (candidate_of d') →
  result_le (describe lexical semantic d) (describe lexical semantic d').
Proof using All.
  intros Hd Hd'. unfold fused_le, result_le. cbn [candidate_of fc_Score fc_Key].
  change (res_Score (describe lexical semantic ?x))
    with (add_score (add_score float64_zero (find_doc lexical x)) (find_doc semantic x)).
  destruct (SFltb _ _); [done|]. destruct (SFltb _ _); [done|]. change (res_Document (describe _ _ ?x)) with x.
  destruct (key_of_index ids ids_NoDup d Hd) as (i & Hi & Hk).
  destruct (key_of_index ids ids_NoDup d' Hd') as (j & Hj & Hk').
  rewrite Hk, Hk'. pose proof (ids_length Hl Hs) as Hlen.
  pose proof (lookup_lt_Some _ _ _ Hi). pose proof (lookup_lt_Some _ _ _ Hj).
  intros Hle%(pad_zero_le 19); [|lia|lia].
  destruct (decide (i = j)) as [<-|Hne].
  - assert (d = d') as <- by congruence. by destruct (total identity_le d d).
  - eapply (StronglySorted_lookup identity_le ids i j); [|lia|done|done].
    apply StronglySorted_merge_sort; apply _.
Qed.

(** The ranking of the fused candidates shows the reference. *)
Lemma ranking_reference m1' m2' n :
  addFusionLane ∅ (scoped LL) true = Ok m1' → addFusionLane m1' (scoped SS) false = Ok m2' →
  mapM (present (list_to_map (omap id (imap (λ i d, r ← m2 !! d; Some (ordinal_key i, r)) ids))))
    (take n (imap set_rank (merge_sort fused_le (range_fused m2')))) =
  Some (take n (reference lexical semantic)).
Proof using All.
  intros H1' H2'. pose proof (candidates_perm _ _ H1' H2') as Hperm.
  destruct (fusion_entries _ _ range_fused _ _ range_fused_perm (small_ranks_lane _ Hlr)
    (small_ranks_lane _ Hsr) H1' H2') as (Hsc & _ & _).
  set (S := merge_sort fused_le (range_fused m2')).
  assert (∀ c, c ∈ S → ∃ d, d ∈ ids ∧ c = candidate_of d) as HS.
  { intros c. unfold S. rewrite merge_sort_Permutation, Hperm. intros (d & -> & Hd)%list_elem_of_fmap. eauto. }
  rewrite (mapM_present _ document_of).
  2:{ intros c i (d & Hd & ->)%HS. rewrite document_of_candidate by done. by apply present_candidate. }
  do 2 f_equal. unfold reference. fold docs. f_equal. symmetry.
  assert (ids ≡ₚ remove_dups docs) as Hdocs.
  { apply NoDup_Permutation; [apply ids_NoDup|apply NoDup_remove_dups|].
    intros d. by rewrite elem_of_remove_dups, ids_elem. }
  assert (∀ r, r ∈ describe lexical semantic <$> remove_dups docs → nonneg (res_Score r)) as Hnn.
  { intros r. rewrite <- Hdocs. intros (d & -> & Hd)%list_elem_of_fmap. by apply describe_scored. }
  apply (merge_sort_is _ (λ r, nonneg (res_Score r))).
  - apply result_le_trans.
  - intros x y Hx Hy Hxy Hyx.
    pose proof (result_le_antisymm x y (Hnn x Hx) (Hnn y Hy) Hxy Hyx) as Heq.
    apply list_elem_of_fmap in Hx as (dx & -> & _), Hy as (dy & -> & _). cbn in Heq. by subst.
  - by apply Forall_forall.
  - unfold S. rewrite merge_sort_Permutation, Hperm, <- Hdocs, <- list_fmap_compose.
    apply Permutation_refl'. apply list_fmap_ext. intros i d Hi. cbn. apply document_of_candidate.
    by eapply list_elem_of_lookup_2.
  - apply (StronglySorted_fmap_on fused_le); [|by apply merge_sort_fused].
    intros x y (d & Hd & ->)%HS (d' & Hd' & ->)%HS. rewrite !document_of_candidate by done.
    by apply candidate_order.
Qed.

Lemma reference_length m1' m2' :
  addFusionLane ∅ (scoped LL) true = Ok m1' → addFusionLane m1' (scoped SS) false = Ok m2' →
  length (imap set_rank (merge_sort fused_le (range_fused m2'))) = length (reference lexical semantic).
Proof using All.
  intros H1' H2'. pose proof (ranking_reference _ _ (length (imap set_rank (merge_sort fused_le (range_fused m2')))
    + length (reference lexical semantic)) H1' H2') as Hr.
  apply mapM_Some, Forall2_length in Hr. rewrite !take_ge in Hr by lia. done.
Qed.
End fusing.

(** Whether documents can be fused does not depend on the limit, and every limit
    shows a prefix of the reference. *)
Lemma FuseDocuments_limits `{FusionRangeLaws} lexical semantic :
  small_doc_ranks lexical → small_doc_ranks semantic →
  (∃ e, ∀ limit, valid_limit limit = true → FuseDocuments lexical semantic limit = Err e) ∨
  (∀ limit, valid_limit limit = true →
     FuseDocuments lexical semantic limit =
       Ok (Some (take (Z.to_nat limit) (reference lexical semantic)),
           (Z.to_nat limit <? length (reference lexical semantic))%nat)).
Proof.
  intros Hlr Hsr. unfold FuseDocuments.
  destruct (validateOneSemanticVectorSpace semantic) as [u|e]; [|left; by exists e].
  destruct (addLane ∅ lexical LaneLexical) as [m1|e] eqn:Hm1; [|left; by exists e].
  destruct (addLane m1 semantic LaneSemantic) as [m2|e] eqn:Hm2; [|left; exists e; cbn; by rewrite Hm2].
  cbn [mbind result_bind]. rewrite Hm2. cbn [mbind result_bind].
  set (metadata := list_to_map (omap _ _)). set (keys := list_to_map (imap _ _)).
  destruct (FuseReciprocalRank_limits (rankLane keys lexical) (rankLane keys semantic) range_fused)
    as [[e He]|(f1 & f2 & Hf1 & Hf2 & Hf)].
  { left. exists e. intros limit Hlimit. by rewrite He. }
  right. intros limit Hlimit. rewrite (Hf limit Hlimit). cbn [mbind result_bind].
  destruct (lanes_fused _ _ _ _ Hf1 Hf2) as (Hl & Hs & _).
  unfold rank_entries. cbn [fused fc_Truncated rankLane Truncated]. rewrite take_if.
  rewrite (ranking_reference lexical semantic Hlr Hsr m1 m2 Hm1 Hm2 Hl Hs f1 f2 _ Hf1 Hf2).
  by rewrite (reference_length lexical semantic Hlr Hsr m1 m2 Hm1 Hm2 Hl Hs f1 f2 Hf1 Hf2).
Qed.

Lemma reference_documents lexical semantic :
  res_Document <$> reference lexical semantic ≡ₚ remove_dups (Document <$> (lexical ++ semantic)).
Proof.
  unfold reference. rewrite fmap_imap.
  change (imap _ ?l) with (imap (const res_Document) l). rewrite imap_const, merge_sort_Permutation.
  by rewrite <- list_fmap_compose, list_fmap_id.
Qed.

(** ** Pages *)

Lemma pageSlice_spec {A} (items : list A) offset limit :
  pageSlice items offset limit = (take limit (drop offset items), (offset + limit <? length items)%nat && (offset <? length items)%nat).
Proof.
  unfold pageSlice. destruct (Nat.leb_spec (length items) offset).
  - rewrite drop_ge, take_nil by lia. by rewrite (proj2 (Nat.ltb_ge offset _)), andb_false_r by lia.
  - rewrite (proj2 (Nat.ltb_lt offset _)), andb_true_r by lia. f_equal.
    + destruct (decide (offset + limit ≤ length items)); [by f_equal; lia|].
      rewrite !take_ge; rewrite ?length_drop; (done || lia).
    + apply Bool.eq_iff_eq_true. rewrite !Nat.ltb_lt. lia.
Qed.

Lemma candidateWindow_valid offset limit :
  (0 <= offset)%Z → (1 <= limit <= MaxCandidateLimit)%Z →
  valid_limit (candidateWindow offset limit) = true ∧
  candidateWindow offset limit = Z.min MaxCandidateLimit (offset + limit + 1).
Proof.
  unfold candidateWindow, valid_limit, MaxCandidateLimit. intros Ho Hl.
  destruct (Z.leb_spec 1000 offset), (Z.leb_spec (1000 - offset) limit); cbn [orb];
    (split; [by rewrite (proj2 (Z.leb_le _ _)), (proj2 (Z.leb_le _ _)) by lia|lia]).
Qed.

(** * Correctness of document retrieval *)

(** C33: Fusing documents under ordinal string keys through maps computes the
    reference: one result per document of either lane with the evidence,
    ranks and explanation of both, by decreasing score and then by identity,
    node ids compared as numbers; no key lacks its metadata. *)
Theorem FuseDocuments_reference `{FusionRangeLaws} lexical semantic limit out :
  small_doc_ranks lexical → small_doc_ranks semantic → valid_limit limit = true →
  FuseDocuments lexical semantic limit = Ok out →
  out = (Some (take (Z.to_nat limit) (reference lexical semantic)),
         (Z.to_nat limit <? length (reference lexical semantic))%nat) ∧
  res_Document <$> reference lexical semantic ≡ₚ remove_dups (Document <$> (lexical ++ semantic)).
Proof.
  intros Hl Hs Hlimit Hok. split; [|apply reference_documents].
  destruct (FuseDocuments_limits lexical semantic Hl Hs) as [[e He]|He]; rewrite (He limit Hlimit) in Hok;
    [done|congruence].
Qed.

(** The pages of a hybrid search are cut from one ranking: whatever the
    window each page asks for, its results are the requested slice of the
    thousand best of the reference, the page says where the next one starts,
    and it is marked truncated exactly when more of them follow. *)
Theorem makeHybridReport_page `{FusionRangeLaws} requested coverage lexical semantic lt st query :
  small_doc_ranks lexical → small_doc_ranks semantic →
  (0 <= Offset query)%Z → (1 <= q_Limit query <= MaxCandidateLimit)%Z →
  match FuseDocuments lexical semantic MaxCandidateLimit with
  | Err e => makeHybridReport requested coverage lexical semantic lt st query = Err e
  | Ok _ =>
      let ranking := take 1000 (reference lexical semantic) in
      let offset := Z.to_nat (Offset query) in
      let limit := Z.to_nat (q_Limit query) in
      ∃ report, makeHybridReport requested coverage lexical semantic lt st query = Ok (Some report) ∧
        Results report = take limit (drop offset ranking) ∧
        NextOffset report = (Offset query + Z.of_nat (length (Results report)))%Z ∧
        rep_Truncated report = (offset + limit <? length ranking)%nat ∧
        (SkippedFinalCandidateLimit ∈ SkippedReasons report ↔
           999 ≤ offset + limit ∧ 1000 < length (reference lexical semantic))
  end.
Proof.
  intros Hl Hs Ho Hlimit. destruct (candidateWindow_valid _ _ Ho Hlimit) as [Hw Heq].
  unfold makeHybridReport.
  destruct (FuseDocuments_limits lexical semantic Hl Hs) as [[e He]|He];
    rewrite (He _ Hw), (He MaxCandidateLimit eq_refl); [done|].
  cbn [mbind result_bind option_bind]. rewrite pageSlice_spec, Heq.
  change (Z.to_nat MaxCandidateLimit) with 1000. unfold MaxCandidateLimit in *.
  set (full := reference lexical semantic). set (o := Z.to_nat (Offset query)).
  set (l := Z.to_nat (q_Limit query)).
  assert (Z.to_nat (Z.min 1000 (Offset query + q_Limit query + 1)) = Nat.min 1000 (o + l + 1)) as -> by lia.
  eexists. split; [done|]. cbn [Results NextOffset rep_Truncated SkippedReasons]. split_and!.
  - rewrite !take_drop_commute, !take_take. f_equal. f_equal. lia.
  - done.
  - rewrite !length_take. apply Bool.eq_iff_eq_true.
    rewrite orb_true_iff, !andb_true_iff, !Nat.ltb_lt, Z.ltb_lt. lia.
  - assert (SkippedFinalCandidateLimit ∉ (if lt then [SkippedLexicalCandidateLimit] else [])
      ++ (if st then [SkippedSemanticCandidateLimit] else [])) as Hno.
    { destruct lt, st; rewrite ?elem_of_app, ?list_elem_of_singleton; set_solver. }
    rewrite app_assoc, elem_of_app. destruct (_ && _) eqn:Hb.
    + apply andb_true_iff in Hb as [Hb1%Nat.ltb_lt Hb2%Z.eqb_eq].
      split; [intros _; lia|intros _; right; apply list_elem_of_here].
    + apply andb_false_iff in Hb. rewrite Nat.ltb_ge, Z.eqb_neq in Hb.
      split; [intros [|[]%not_elem_of_nil]; done|lia].
Qed.

(** ** The properties at work *)

Module Found.

Instance map_order : FusionRange := {|
  range_documents m := (map_to_list m).*1;
  range_fused m := (map_to_list m).*2;
|}.
Instance map_order_laws : FusionRangeLaws.
Proof. split; intros m; reflexivity. Qed.

(** Two documents, each best in one lane: node 9 comes before node 10. *)
Definition found (lane : Lane) (node : Z) : DocumentCandidate :=
  mkDocumentCandidate (mkDocument "vault" node "v") lane 1 float64_zero
    (if decide (lane = LaneSemantic) then "space" else "") "/doc" "" [].
Definition by_text : list DocumentCandidate := [found LaneLexical 10].
Definition by_meaning : list DocumentCandidate := [found LaneSemantic 9].

Lemma by_text_small : small_doc_ranks by_text.
Proof. by repeat constructor. Qed.
Lemma by_meaning_small : small_doc_ranks by_meaning.
Proof. by repeat constructor. Qed.

Lemma FuseDocuments_reference_witness :
  ∃ out, FuseDocuments by_text by_meaning 5 = Ok out ∧
    out = (Some (take 5 (reference by_text by_meaning)), false) ∧
    NodeID <$> (res_Document <$> reference by_text by_meaning) = [9; 10]%Z.
Proof.
  destruct (FuseDocuments by_text by_meaning 5) as [out|e] eqn:Hf;
    [|vm_compute in Hf; discriminate Hf].
  exists out. split; [reflexivity|].
  assert (NodeID <$> (res_Document <$> reference by_text by_meaning) = [9; 10]%Z) as Hr
    by (vm_compute; reflexivity).
  destruct (FuseDocuments_reference by_text by_meaning 5 out by_text_small by_meaning_small eq_refl Hf)
    as [Hout _].
  split; [|exact Hr]. rewrite Hout. vm_compute. reflexivity.
Defined.

Lemma makeHybridReport_page_witness :
  ∃ report,
    makeHybridReport "auto" unknown_coverage by_text by_meaning false false
      (mkQuery "q" "hybrid" 1 0 no_scope) = Ok (Some report) ∧
    Results report = take 1 (take 1000 (reference by_text by_meaning)) ∧
    rep_Truncated report = true.
Proof.
  pose proof (makeHybridReport_page "auto" unknown_coverage by_text by_meaning false false
    (mkQuery "q" "hybrid" 1 0 no_scope) by_text_small by_meaning_small
    ltac:(vm_compute; discriminate) ltac:(vm_compute; split; discriminate)) as Hpage.
  destruct (FuseDocuments by_text by_meaning MaxCandidateLimit) as [out|e] eqn:Hf;
    [|vm_compute in Hf; discriminate Hf].
  destruct Hpage as (report & Hok & Hres & _ & Ht & _). exists report.
  split; [exact Hok|]. split; [exact Hres|]. rewrite Ht. vm_compute. reflexivity.
Defined.

End Found.
