(* ===== verification/Jobs.v ===== *)
(** * Background jobs (internal/jobs/supervisor.go)

    A supervisor owns uniquely named goroutines.  Its mutex makes every method
    body one step of the system; goroutines end, and contexts are cancelled,
    between any two of them.  The job of the daemon is an argument: what its
    function returned, or that it panicked.

    The bound on stored error messages, and the life of a supervisor: what
    holds in every reachable state, that [Shutdown] returns only when nothing
    runs any more, and that it does return once the jobs have ended. *)
From stdpp Require Import sorting.
From stdpp Require Import sorting relations.
From S2P Require Import Prelude GoText Runes.

(** ** Error messages *)

Fixpoint in_ranges (rs : list (N * N)) (s : string) : bool :=
  match rs, s with
  | [], _ => true
  | (lo, hi) :: rs, String b s => (lo <=? N_of_ascii b)%N && (N_of_ascii b <=? hi)%N && in_ranges rs s
  | _ :: _, "" => false
  end.

(** The width [utf8.DecodeRuneInString] reports, [None] on an invalid start. *)
Definition rune_width (s : string) : option nat :=
  match s with
  | "" => None
  | String a r =>
      match utf8_start a with
      | Some rs => if in_ranges rs r then Some (S (length rs)) else None
      | None => None
      end
  end.

(** [strings.ToValidUTF8]: every run of invalid bytes becomes one [repl];
    [invalid] says that the byte before was invalid. *)
Fixpoint to_valid (repl : string) (fuel : nat) (invalid : bool) (s : string) : string :=
  match fuel, s with
  | 0, _ | _, "" => ""
  | S fuel, String _ _ =>
      match rune_width s with
      | Some w => stake w s +:+ to_valid repl fuel false (sdrop w s)
      | None => (if invalid then "" else repl) +:+ to_valid repl fuel true (sdrop 1 s)
      end
  end.
Definition ToValidUTF8 (s repl : string) : string := to_valid repl (slen s) false s.

(** U+FFFD *)
Definition replacement : string :=
  String (ascii_of_N 0xEF) (String (ascii_of_N 0xBF) (String (ascii_of_N 0xBD) "")).

Definition maxBytes : nat := 4096.

(** [for !utf8.ValidString(prefix) { prefix = prefix[:len(prefix)-1] }] *)
Fixpoint trim_prefix (n : nat) (prefix : string) : string :=
  if ValidString prefix then prefix
  else match n with
       | 0 => prefix
       | S n => trim_prefix n (stake n prefix)
       end.

Definition boundedError (err : string) : string :=
  let message := ToValidUTF8 err replacement in
  if (slen message <=? maxBytes)%nat then message
  else trim_prefix (maxBytes - 3) (stake (maxBytes - 3) message) +:+ "...".

(** ** State *)

Inductive job_error := ErrClosed | ErrDuplicate | ErrInvalid.

Inductive Status := StatusRunning | StatusCompleted | StatusFailed | StatusCancelled.
#[export] Instance Status_eq_dec : EqDecision Status.
Proof. solve_decision. Defined.

Record Snapshot := MkSnapshot {
  job_Name : string;
  job_Status : Status;
  StartedAt : string;
  FinishedAt : option string;
  job_Error : string;
}.

(** [ctx_err] is [ctx.Err() != nil]; [done_closed] counts the closings of
    [done], of which a second would panic; [once] is the state of [doneOnce];
    [live] lists the goroutines that have not returned. *)
Record Supervisor := MkSupervisor {
  ctx_err : bool;
  jobs : gmap string Snapshot;
  active : Z;
  stopping : bool;
  done_closed : nat;
  once : bool;
  live : list string;
}.

Definition New : Supervisor := MkSupervisor false ∅ 0 false 0 false [].

(** What a job's function did: it returned (an error is its text and whether it
    is [context.Canceled]), or it panicked. *)
Inductive run_outcome :=
  | Returned (err : option (string * bool))
  | Panicked (message : string).

(** ** Methods *)

Definition name_char (a : ascii) : bool :=
  let b := N_of_ascii a in
  ((97 <=? b) && (b <=? 122) || (48 <=? b) && (b <=? 57))%N || ContainsAny (String a "") ["-"; "_"; "."; ":"; "/"]%char.

(** A rune outside ASCII is unsupported, as is each of its bytes. *)
Definition validate (nm : string) (has_run : bool) : result job_error unit :=
  _ ← check has_run ErrInvalid;
  _ ← check (negb (String.eqb nm "") && (slen nm <=? 128)%nat) ErrInvalid;
  check (all_chars name_char nm) ErrInvalid.

Definition Start (nm : string) (has_run : bool) (now : string) (s : Supervisor) :
    Supervisor * result job_error unit :=
  match validate nm has_run with
  | Err e => (s, Err e)
  | Ok _ =>
      if stopping s || ctx_err s then (s, Err ErrClosed)
      else match jobs s !! nm with
      | Some _ => (s, Err ErrDuplicate)
      | None =>
          (MkSupervisor (ctx_err s) (<[nm := MkSnapshot nm StatusRunning now None ""]> (jobs s))
             (active s + 1) (stopping s) (done_closed s) (once s) (nm :: live s), Ok tt)
      end
  end.

(** [s.doneOnce.Do(func() { close(s.done) })] *)
Definition close_done (s : Supervisor) : Supervisor :=
  if once s then s
  else MkSupervisor (ctx_err s) (jobs s) (active s) (stopping s) (S (done_closed s)) true (live s).

(** The recovering [run]: the error handed to [finish]. *)
Definition run_error (o : run_outcome) : option (string * bool) :=
  match o with
  | Returned err => err
  | Panicked m => Some ("panic: " +:+ m, false)
  end.

Definition finished (s : Supervisor) (runErr : option (string * bool)) (now : string) (j : Snapshot) :
    Snapshot :=
  let mk status err := MkSnapshot (job_Name j) status (StartedAt j) (Some now) err in
  match runErr with
  | None => mk (if ctx_err s then StatusCancelled else StatusCompleted) (job_Error j)
  | Some (_, true) => mk StatusCancelled (job_Error j)
  | Some (m, false) => mk StatusFailed (boundedError m)
  end.

(** The end of one goroutine of [nm]: [run], then [finish], then it is gone. *)
Definition finish (nm : string) (o : run_outcome) (now : string) (s : Supervisor) : Supervisor :=
  let s := MkSupervisor (ctx_err s) (alter (finished s (run_error o) now) nm (jobs s)) (active s - 1)
             (stopping s) (done_closed s) (once s) (list_difference (live s) [nm]) in
  if stopping s && (active s =? 0)%Z then close_done s else s.

Definition Stop (s : Supervisor) : Supervisor :=
  let s := if negb (stopping s)
           then MkSupervisor true (jobs s) (active s) true (done_closed s) (once s) (live s) else s in
  if (active s =? 0)%Z then close_done s else s.

(** [Shutdown] returns nil once it finds [done] closed. *)
Definition Shutdown_returns (s : Supervisor) : bool := (0 <? done_closed s)%nat.

(** Sorted by name. *)
Definition snapshot_order (a b : Snapshot) : Prop := String.le (job_Name a) (job_Name b).
#[export] Instance snapshot_order_dec : RelDecision snapshot_order.
Proof. intros a b. unfold snapshot_order. apply _. Defined.
Definition TakeSnapshot (s : Supervisor) : list Snapshot :=
  merge_sort snapshot_order (snd <$> map_to_list (jobs s)).

(** ** The system *)

Inductive step : Supervisor → Supervisor → Prop :=
  | step_start nm has_run now s : step s (Start nm has_run now s).1
  | step_finish nm o now s : nm ∈ live s → step s (finish nm o now s)
  | step_stop s : step s (Stop s)
  | step_parent s :
      step s (MkSupervisor true (jobs s) (active s) (stopping s) (done_closed s) (once s) (live s)).

(** * Properties of background jobs *)

(** ** Runes *)

Lemma valid_ranges rs s : valid_from rs s = true ↔
  in_ranges rs s = true ∧ ValidString (sdrop (length rs) s) = true.
Proof.
  revert s; induction rs as [|[lo hi] rs IH]; intros s; [destruct s; cbn; unfold ValidString; naive_solver|].
  destruct s as [|b s]; cbn; [naive_solver|]. rewrite !andb_true_iff, IH. tauto.
Qed.

Lemma in_ranges_stake rs s : in_ranges rs s = true →
  valid_from rs (stake (length rs) s) = true ∧ (length rs ≤ slen s)%nat.
Proof.
  revert s; induction rs as [|[lo hi] rs IH]; intros s; [destruct s; cbn; split; (done || lia)|].
  destruct s as [|b s]; cbn; [done|]. intros [Hb Hr]%andb_true_iff. rewrite Hb.
  destruct (IH s Hr). split; [done|lia].
Qed.

Lemma rune_width_spec s w : rune_width s = Some w →
  (1 ≤ w ≤ slen s)%nat ∧ ValidString (stake w s) = true.
Proof.
  destruct s as [|a s]; [done|]. cbn. destruct (utf8_start a) as [rs|] eqn:Ha; [|done].
  destruct (in_ranges rs s) eqn:Hr; [|done]. intros [= <-].
  destruct (in_ranges_stake _ _ Hr) as [Hv Hl]. split; [cbn; lia|].
  cbn. unfold ValidString. cbn. by rewrite Ha.
Qed.

Lemma utf8_start_length a rs : utf8_start a = Some rs → (length rs ≤ 3)%nat.
Proof. unfold utf8_start. intros Hs. repeat case_match; simplify_eq; cbn; lia. Qed.

Lemma valid_rune s : ValidString s = true → s ≠ "" →
  ∃ w, rune_width s = Some w ∧ (w ≤ 4)%nat ∧ ValidString (sdrop w s) = true.
Proof.
  destruct s as [|a s]; [done|]. unfold ValidString at 1. cbn. intros Hv _.
  destruct (utf8_start a) as [rs|] eqn:Ha; [|done]. apply valid_ranges in Hv as [Hr Hv].
  rewrite Hr. exists (S (length rs)). pose proof (utf8_start_length _ _ Ha). split_and!; [done|lia|done].
Qed.

Lemma to_valid_valid repl fuel : ValidString repl = true → ∀ invalid s,
  ValidString (to_valid repl fuel invalid s) = true.
Proof.
  intros Hrepl. induction fuel as [|fuel IH]; intros invalid s; [done|]. cbn [to_valid].
  destruct s as [|a s]; [done|]. destruct (rune_width (String a s)) as [w|] eqn:Hw.
  - apply ValidString_app; [by apply rune_width_spec in Hw as [_ ?]|apply IH].
  - apply ValidString_app; [by destruct invalid|apply IH].
Qed.

Lemma to_valid_id repl fuel : ∀ invalid s,
  ValidString s = true → (slen s ≤ fuel)%nat → to_valid repl fuel invalid s = s.
Proof.
  induction fuel as [|fuel IH]; intros invalid s Hv Hf; [by destruct s; cbn in Hf; [|lia]|].
  cbn [to_valid]. destruct s as [|a s]; [done|].
  destruct (valid_rune (String a s) Hv) as (w & Hw & _ & Hd); [done|]. rewrite Hw.
  destruct (rune_width_spec _ _ Hw) as [Hl _]. rewrite IH.
  - apply stake_sdrop.
  - done.
  - rewrite slen_sdrop. lia.
Qed.

(** Cutting valid text leaves at most three bytes of a broken rune. *)
Lemma cut_near n : ∀ s i, (slen s ≤ n)%nat → ValidString s = true → (i ≤ slen s)%nat →
  ∃ j, (i - 3 ≤ j ≤ i)%nat ∧ ValidString (stake j s) = true.
Proof.
  induction n as [|n IH]; intros s i Hn Hv Hi.
  { exists 0. split; [lia|by destruct s]. }
  destruct (decide (s = "")) as [->|Hne]; [exists 0; cbn in *; split; [lia|done]|].
  destruct (valid_rune s Hv Hne) as (w & Hw & Hw4 & Hd).
  destruct (rune_width_spec _ _ Hw) as [Hl Hvw].
  destruct (decide (i < w)%nat) as [Hlt|Hge]; [exists 0; split; [lia|by destruct s]|].
  destruct (IH (sdrop w s) (i - w)%nat) as (j & Hj & Hvj); [rewrite slen_sdrop; lia|done|rewrite slen_sdrop; lia|].
  exists (w + j)%nat. split; [lia|].
  assert (stake (w + j) s = stake w s +:+ stake j (sdrop w s)) as ->; [|by apply ValidString_app].
  clear. revert s; induction w as [|w IHw]; intros s; [by destruct s|].
  destruct s as [|a s]; cbn; [by destruct j|]. by rewrite IHw.
Qed.

Lemma trim_prefix_spec n s j : (j ≤ n)%nat → ValidString (stake j s) = true →
  ∃ k, (j ≤ k ≤ n)%nat ∧ trim_prefix n (stake n s) = stake k s ∧ ValidString (stake k s) = true.
Proof.
  revert j; induction n as [|n IH]; intros j Hj Hv; cbn [trim_prefix].
  - exists 0. assert (j = 0)%nat as -> by lia. rewrite Hv. split_and!; [lia|lia|done|done].
  - destruct (ValidString (stake (S n) s)) eqn:Hs; [exists (S n); split_and!; done || lia|].
    assert (j ≠ S n) by congruence. destruct (IH j ltac:(lia) Hv) as (k & Hk & Heq & Hvk).
    exists k. rewrite stake_stake by lia. split_and!; [lia|lia|done|done].
Qed.

(** The error stored for a failed job is always valid UTF-8 of at most 4096
    bytes.  A valid message that fits is stored as it is; a longer one is cut
    at a rune boundary, with an ellipsis, losing no more than the six bytes this
    takes. *)
Theorem boundedError_bounds err :
  ValidString (boundedError err) = true ∧ (slen (boundedError err) ≤ 4096)%nat ∧
  (ValidString err = true → (slen err ≤ 4096)%nat → boundedError err = err) ∧
  ((4096 < slen (ToValidUTF8 err replacement))%nat → ∃ k,
     boundedError err = stake k (ToValidUTF8 err replacement) +:+ "..." ∧ (4090 ≤ k ≤ 4093)%nat).
Proof.
  unfold boundedError. set (m := ToValidUTF8 err replacement).
  assert (ValidString m = true) as Hm by by apply to_valid_valid.
  assert (ValidString err = true → m = err) as Hid by (intros Hv; by apply to_valid_id).
  clearbody m. change maxBytes with 4096%nat. destruct (Nat.leb_spec (slen m) 4096) as [Hle|Hgt].
  - split_and!; [done|done| |lia]. intros Hv _. by apply Hid.
  - destruct (cut_near (slen m) m (4096 - 3)) as (j & Hj & Hvj); [lia|done|lia|].
    destruct (trim_prefix_spec (4096 - 3) m j) as (k & Hk & -> & Hvk); [lia|done|].
    split_and!.
    + by apply ValidString_app.
    + rewrite slen_app, slen_stake. cbn. lia.
    + intros Hv Hl. rewrite (Hid Hv) in Hgt. lia.
    + intros _. exists k. split; [done|lia].
Qed.

(** ** The supervisor *)

Record sup_inv (s : Supervisor) : Prop := {
  si_active : active s = Z.of_nat (length (live s));
  si_nodup : NoDup (live s);
  si_live nm : nm ∈ live s ↔ ∃ j, jobs s !! nm = Some j ∧ job_Status j = StatusRunning;
  si_job nm j : jobs s !! nm = Some j → job_Name j = nm ∧ validate nm true = Ok tt ∧
    (FinishedAt j = None ↔ job_Status j = StatusRunning);
  si_stop : stopping s = true → ctx_err s = true;
  si_closed : done_closed s = if once s then 1 else 0;
  si_done : once s = true ↔ stopping s = true ∧ live s = [];
}.

Lemma New_inv : sup_inv New.
Proof.
  split; cbn; try done; try by intros *; rewrite lookup_empty.
  - constructor.
  - intros nm. split; [by intros ?%elem_of_nil|]. intros (j & Hj & _). by rewrite lookup_empty in Hj.
  - split; [done|by intros []].
Qed.

Lemma active_zero s : sup_inv s → (active s =? 0)%Z = bool_decide (live s = []).
Proof.
  intros Hi. rewrite (si_active _ Hi). destruct (live s) as [|x l]; [done|].
  rewrite bool_decide_eq_false_2 by done. apply Z.eqb_neq. cbn. lia.
Qed.

(** Everything but the closing of [done]. *)
Record sup_pre (s : Supervisor) : Prop := {
  sp_active : active s = Z.of_nat (length (live s));
  sp_nodup : NoDup (live s);
  sp_live nm : nm ∈ live s ↔ ∃ j, jobs s !! nm = Some j ∧ job_Status j = StatusRunning;
  sp_job nm j : jobs s !! nm = Some j → job_Name j = nm ∧ validate nm true = Ok tt ∧
    (FinishedAt j = None ↔ job_Status j = StatusRunning);
  sp_stop : stopping s = true → ctx_err s = true;
  sp_closed : done_closed s = if once s then 1 else 0;
  sp_once : once s = true → stopping s = true ∧ live s = [];
}.

Lemma settle s : sup_pre s → sup_inv (if stopping s && (active s =? 0)%Z then close_done s else s).
Proof.
  intros [Ha Hn Hl Hj Hs Hc Ho].
  assert ((active s =? 0)%Z = bool_decide (live s = [])) as ->.
  { rewrite Ha. destruct (live s) as [|x l]; [done|].
    rewrite bool_decide_eq_false_2 by done. apply Z.eqb_neq. cbn. lia. }
  destruct (stopping s && bool_decide (live s = [])) eqn:Hb.
  - apply andb_true_iff in Hb as [Hst Hlive%bool_decide_eq_true]. unfold close_done.
    destruct (once s) eqn:Hon; [|]; (split; cbn; [done|done|done|done|done| |]).
    + by rewrite Hc, Hon.
    + by rewrite Hon, Hst.
    + by rewrite Hc.
    + by rewrite Hst.
  - split; [done|done|done|done|done|done|]. split; [exact Ho|].
    intros [Hst Hlive]. rewrite Hst, bool_decide_eq_true_2 in Hb by done. done.
Qed.

Lemma sup_inv_pre s : sup_inv s → sup_pre s.
Proof. intros [? ? ? ? ? ? [? _]]. by split. Qed.

Lemma step_inv s s' : sup_inv s → step s s' → sup_inv s'.
Proof.
  intros Hi Hs. pose proof Hi as [Ha Hn Hl Hj Hst Hc Hd]. destruct Hs as [nm hr now s|nm o now s Hin|s|s].
  - unfold Start. destruct (validate nm hr) as [[]|] eqn:Hv; [|done].
    destruct (stopping s || ctx_err s) eqn:Hcl; [done|]. apply orb_false_iff in Hcl as [Hst' Hctx].
    destruct (jobs s !! nm) eqn:Hnm; [done|]. cbn. split; cbn.
    + lia.
    + apply NoDup_cons. split; [|done]. intros (j & ? & _)%Hl. congruence.
    + intros m. rewrite elem_of_cons, Hl. split.
      * intros [->|(j & ? & ?)]; [eexists; split; [by apply lookup_insert_eq|done]|].
        exists j. rewrite lookup_insert_ne; [done|congruence].
      * intros (j & [[<- <-]|[_ ?]]%lookup_insert_Some & ?); [by left|right; eauto].
    + intros m j [[<- <-]|[_ ?]]%lookup_insert_Some; [|by apply Hj]. split_and!; [done| |done].
      revert Hv. unfold validate. by destruct hr.
    + done.
    + done.
    + rewrite Hd, Hst'. split; [by intros [? _]|by intros [_ ?]].
  - unfold finish. cbv zeta. cbn [stopping active].
    set (s1 := MkSupervisor _ _ _ _ _ _ _).
    apply (settle s1). subst s1. split; cbn.
    + rewrite Ha. pose proof Hin as Hp.
      apply list_elem_of_split in Hp as (l1 & l2 & Heq). rewrite Heq in Hn |- *.
      apply NoDup_app in Hn as (Hn1 & Hdis & [Hni Hn2]%NoDup_cons).
      assert (∀ l, nm ∉ l → list_difference l [nm] = l) as Hsame.
      { clear. induction l as [|x l IH]; [done|]. intros [Hne Hl]%not_elem_of_cons. cbn.
        case_decide as Hx; [apply list_elem_of_singleton in Hx; congruence|]. by rewrite IH. }
      assert (list_difference (l1 ++ nm :: l2) [nm] = l1 ++ l2) as ->.
      { assert (∀ a b, list_difference (a ++ b) [nm] = list_difference a [nm] ++ list_difference b [nm]) as Happ.
        { clear. induction a as [|x a IH]; intros b; [done|]. cbn. case_decide; [done|]. cbn. by rewrite IH. }
        rewrite Happ, Hsame by (intros H; apply (Hdis nm H); by left). f_equal. cbn.
        case_decide as Hx; [by apply Hsame|]. destruct Hx. by left. }
      rewrite !length_app. cbn. lia.
    + by apply NoDup_list_difference.
    + intros m. rewrite list_elem_of_difference, Hl, list_elem_of_singleton. split.
      * intros [(j & Hm & Hr) Hne]. exists j. by rewrite lookup_alter_ne.
      * intros (j & Hm & Hr). destruct (decide (m = nm)) as [->|Hne].
        -- exfalso. rewrite lookup_alter_eq in Hm. destruct (jobs s !! nm); [|done].
           injection Hm as <-. revert Hr. unfold finished. repeat case_match; done.
        -- rewrite lookup_alter_ne in Hm by done. eauto.
    + intros m j Hm. destruct (decide (m = nm)) as [->|Hne].
      * rewrite lookup_alter_eq in Hm. destruct (jobs s !! nm) as [j0|] eqn:Hj0; [|done].
        injection Hm as <-. destruct (Hj _ _ Hj0) as (? & ? & _).
        unfold finished. repeat case_match; done.
      * rewrite lookup_alter_ne in Hm by done. by apply Hj.
    + done.
    + done.
    + intros [? Hnil]%Hd. rewrite Hnil in Hin. by apply elem_of_nil in Hin.
  - unfold Stop. set (s1 := if negb (stopping s) then _ else s).
    assert (stopping s1 = true) as Hs1 by (subst s1; by destruct (stopping s) eqn:?; cbn).
    assert (sup_pre s1) as Hp1.
    { subst s1. apply sup_inv_pre in Hi. destruct (stopping s) eqn:Hs; cbn; [done|].
      destruct Hi as [? ? ? ? ? ? Ho]. split; cbn; try done. intros [? _]%Ho. congruence. }
    pose proof (settle s1 Hp1) as Hset. by rewrite Hs1 in Hset.
  - split; cbn; done.
Qed.

Lemma steps_inv s s' : sup_inv s → rtc step s s' → sup_inv s'.
Proof. intros Hi Hs. induction Hs; [done|]. eauto using step_inv. Qed.

(** ** Reserved names, and the end *)

Lemma step_jobs s s' nm j : sup_inv s → step s s' → jobs s !! nm = Some j →
  ∃ j', jobs s' !! nm = Some j' ∧ StartedAt j' = StartedAt j ∧
    (job_Status j ≠ StatusRunning → j' = j).
Proof.
  intros Hi Hs Hj. destruct Hs as [m hr now s|m o now s Hin|s|s].
  - unfold Start. destruct (validate _ _); [|by exists j]. destruct (_ || _); [by exists j|].
    destruct (jobs s !! m) eqn:Hm; [by exists j|]. cbn. exists j.
    rewrite lookup_insert_ne; [done|congruence].
  - assert (jobs (finish m o now s) = alter (finished s (run_error o) now) m (jobs s)) as ->.
    { unfold finish, close_done. cbn. by repeat case_match. }
    destruct (decide (m = nm)) as [->|Hne]; [|exists j; by rewrite lookup_alter_ne].
    rewrite lookup_alter_eq, Hj. eexists. split; [done|]. split.
    + unfold finished. by repeat case_match.
    + intros Hnr. apply (si_live _ Hi) in Hin as (j0 & Hj0 & ?). congruence.
  - assert (jobs (Stop s) = jobs s) as -> by (unfold Stop, close_done; by repeat case_match).
    by exists j.
  - by exists j.
Qed.

Lemma ended_step s s' : sup_inv s → once s = true → step s s' → jobs s' = jobs s ∧ once s' = true.
Proof.
  intros Hi Ho Hs. destruct (proj1 (si_done _ Hi) Ho) as [Hst Hlive].
  destruct Hs as [m hr now s|m o now s Hin|s|s].
  - unfold Start. destruct (validate _ _); [|done]. by rewrite Hst.
  - rewrite Hlive in Hin. by apply elem_of_nil in Hin.
  - unfold Stop, close_done. rewrite Hst. cbn. rewrite Ho. by destruct (_ =? _)%Z.
  - done.
Qed.

(** C40: once [Shutdown] returns nil, no job runs and none ever will: the
    channel has been closed exactly once, every registered job has a terminal
    status, and no later call starts a job or changes what [Snapshot] reports. *)
Theorem Shutdown_is_final s s' :
  rtc step New s → Shutdown_returns s = true → rtc step s s' →
  live s' = [] ∧ jobs s' = jobs s ∧ done_closed s' = 1 ∧ TakeSnapshot s' = TakeSnapshot s ∧
  ∀ nm j, jobs s' !! nm = Some j → job_Status j ≠ StatusRunning ∧ FinishedAt j ≠ None.
Proof.
  intros Hs Hret Hs'. pose proof (steps_inv _ _ New_inv Hs) as Hi.
  assert (once s = true) as Ho.
  { unfold Shutdown_returns in Hret. rewrite (si_closed _ Hi) in Hret. by destruct (once s). }
  assert (jobs s' = jobs s ∧ once s' = true) as [Hj Ho'].
  { clear Hret Hs. induction Hs' as [|s s1 s2 Hstep _ IH]; [done|].
    destruct (ended_step _ _ Hi Ho Hstep) as [<- Ho1]. apply IH; [by eapply step_inv|done]. }
  pose proof (steps_inv _ _ Hi Hs') as Hi'. destruct (proj1 (si_done _ Hi') Ho') as [_ Hlive].
  split_and!; try done.
  - by rewrite (si_closed _ Hi'), Ho'.
  - unfold TakeSnapshot. by rewrite Hj.
  - intros nm j Hnm. assert (job_Status j ≠ StatusRunning) as Hr.
    { intros Hr. assert (nm ∈ live s') as Hin by (apply (si_live _ Hi'); eauto).
      rewrite Hlive in Hin. by apply elem_of_nil in Hin. }
    split; [done|]. intros Hf. by apply Hr, (si_job _ Hi' nm j).
Qed.

Lemma Stop_live s : live (Stop s) = live s ∧ stopping (Stop s) = true.
Proof.
  unfold Stop, close_done. destruct (stopping s) eqn:Hs; cbn; repeat case_match; cbn; done.
Qed.

Lemma finish_live nm o now s :
  live (finish nm o now s) = list_difference (live s) [nm] ∧
  stopping (finish nm o now s) = stopping s.
Proof. unfold finish, close_done. cbn. by repeat case_match. Qed.

Definition end_job (s : Supervisor) (e : string * run_outcome * string) : Supervisor :=
  finish e.1.1 e.1.2 e.2 s.

Lemma end_all endings : ∀ s, sup_inv s → stopping s = true → endings.*1.*1 ≡ₚ live s →
  rtc step s (foldl end_job s endings) ∧ Shutdown_returns (foldl end_job s endings) = true.
Proof.
  induction endings as [|[[nm o] now] endings IH]; intros s Hi Hst Hp; cbn [foldl].
  { split; [done|]. apply Permutation_nil_l in Hp. unfold Shutdown_returns.
    rewrite (si_closed _ Hi), (proj2 (si_done _ Hi)); [done|]. split; [done|]. exact (eq_sym Hp). }
  cbn in Hp. assert (nm ∈ live s) as Hin by (rewrite <- Hp; by left).
  destruct (finish_live nm o now s) as [Hl Hs].
  assert (step s (finish nm o now s)) as Hstep by by constructor.
  destruct (IH (end_job s (nm, o, now))) as [Hrun Hret]; [by eapply step_inv|unfold end_job; cbn; by rewrite Hs| |].
  - unfold end_job. cbn. rewrite Hl. pose proof (si_nodup _ Hi) as Hn. rewrite <- Hp in Hn.
    apply NoDup_cons in Hn as [Hni Hn]. apply NoDup_Permutation; [done|apply NoDup_list_difference, Hi|].
    intros x. rewrite list_elem_of_difference, list_elem_of_singleton, <- Hp, elem_of_cons.
    split; [|tauto]. intros Hx. split; [by right|]. by intros ->.
  - split; [|done]. eapply rtc_l; [exact Hstep|exact Hrun].
Qed.

(** [Shutdown] does return.  In any reachable state, after [Stop], however
    the remaining jobs end and in whatever order (with a result, an error or a
    panic), [done] is closed when the last one has ended. *)
Theorem Shutdown_completes s endings :
  rtc step New s → endings.*1.*1 ≡ₚ live s →
  rtc step s (foldl end_job (Stop s) endings) ∧
  Shutdown_returns (foldl end_job (Stop s) endings) = true.
Proof.
  intros Hs Hp. pose proof (steps_inv _ _ New_inv Hs) as Hi.
  destruct (Stop_live s) as [Hl Hst].
  destruct (end_all endings (Stop s)) as [Hrun Hret]; [|done|by rewrite Hl|].
  - eapply step_inv; [done|constructor].
  - split; [|done]. eapply rtc_l; [constructor|done].
Qed.

(** ** At work *)

(** Two jobs, of which one panics after [Stop]. *)
Definition two_jobs : Supervisor := (Start "scan" true "t2" (Start "index" true "t1" New).1).1.
Definition two_endings : list (string * run_outcome * string) :=
  [("index", Panicked "boom", "t3"); ("scan", Returned None, "t4")].
Definition all_ended : Supervisor := foldl end_job (Stop two_jobs) two_endings.

Lemma two_jobs_reached : rtc step New two_jobs.
Proof. eapply rtc_l; [apply (step_start "index" true "t1")|]. eapply rtc_l; [apply (step_start "scan" true "t2")|]. done. Qed.

Lemma two_endings_live : two_endings.*1.*1 ≡ₚ live two_jobs.
Proof. vm_compute. apply perm_swap. Qed.

Lemma all_ended_reached : rtc step New all_ended.
Proof.
  etrans; [apply two_jobs_reached|]. unfold all_ended.
  eapply rtc_l; [apply (step_stop two_jobs)|].
  eapply rtc_l; [apply (step_finish "index" (Panicked "boom") "t3"); vm_compute; right; left|].
  eapply rtc_l; [apply (step_finish "scan" (Returned None) "t4"); vm_compute; left|]. done.
Qed.

Lemma Shutdown_completes_witness :
  Shutdown_returns all_ended = true ∧
  (job_Error <$> TakeSnapshot all_ended) = ["panic: boom"; ""].
Proof.
  split; [exact (proj2 (Shutdown_completes two_jobs two_endings two_jobs_reached two_endings_live))|].
  vm_compute. reflexivity.
Defined.

Lemma Shutdown_is_final_witness :
  live all_ended = [] ∧ (job_Status <$> TakeSnapshot all_ended) = [StatusFailed; StatusCancelled].
Proof.
  split.
  - exact (proj1 (Shutdown_is_final all_ended all_ended all_ended_reached
      ltac:(vm_compute; reflexivity) (rtc_refl _ _))).
  - vm_compute. reflexivity.
Defined.
