(* ===== verification/JsonText.v ===== *)
(** * JSON strings

    What [json.Marshal] of [encoding/json/v2] writes for valid UTF-8 strings
    and for slices of them, and that distinct values have distinct texts. *)
From S2P Require Import Prelude GoText AuditEncoding Identity LittleEndian.

Definition json_quote : ascii := "034"%char.
Definition json_backslash : ascii := "\"%char.

(** The escape of one byte; bytes from 0x20 on stand for themselves. *)
Definition json_escape (a : ascii) : bytes :=
  let n := N_of_ascii a in
  if (n =? 34)%N || (n =? 92)%N then [json_backslash; a]
  else if (n =? 8)%N then [json_backslash; "b"%char]
  else if (n =? 9)%N then [json_backslash; "t"%char]
  else if (n =? 10)%N then [json_backslash; "n"%char]
  else if (n =? 12)%N then [json_backslash; "f"%char]
  else if (n =? 13)%N then [json_backslash; "r"%char]
  else if (n <? 32)%N then
    [json_backslash; "u"%char; "0"%char; "0"%char; hex_char (n / 16); hex_char (n mod 16)]
  else [a].

Definition json_string (s : string) : bytes := json_quote :: concat (json_escape <$> bs s) ++ [json_quote].

Fixpoint json_items (l : list string) : bytes :=
  match l with
  | [] => []
  | [s] => json_string s
  | s :: l => json_string s ++ ","%char :: json_items l
  end.
(** [json.Marshal] of a non-nil [[]string]. *)
Definition json_strings (l : list string) : string := of_bytes ("["%char :: json_items l ++ ["]"%char]).

Example json_strings_sample : bs (json_strings ["a"; "b"]) = bs "[" ++ json_string "a" ++ bs "," ++ json_string "b" ++ bs "]".
Proof. reflexivity. Qed.

(** ** Reading back *)

Definition json_unescape (b : bytes) : option (ascii * bytes) :=
  match b with
  | [] => None
  | x :: b =>
      if Ascii.eqb x json_backslash then
        match b with
        | "b"%char :: b => Some ("008"%char, b)
        | "t"%char :: b => Some ("009"%char, b)
        | "n"%char :: b => Some ("010"%char, b)
        | "f"%char :: b => Some ("012"%char, b)
        | "r"%char :: b => Some ("013"%char, b)
        | "u"%char :: _ :: _ :: h :: l :: b =>
            match hex_value h, hex_value l with
            | Some h, Some l => Some (ascii_of_N (16 * h + l), b)
            | _, _ => None
            end
        | y :: b => Some (y, b)
        | [] => None
        end
      else Some (x, b)
  end.

Lemma json_unescape_escape a r : json_unescape (json_escape a ++ r) = Some (a, r).
Proof. destruct a as [[] [] [] [] [] [] [] []]; reflexivity. Qed.

Lemma json_escape_head a r : ∃ x t, json_escape a ++ r = x :: t ∧ x ≠ json_quote.
Proof. destruct a as [[] [] [] [] [] [] [] []]; cbn; eexists _, _; split; (reflexivity || discriminate). Qed.

(** A quoted string ends where its first bare quote is. *)
Lemma json_string_inj s s' r r' : json_string s ++ r = json_string s' ++ r' → s = s' ∧ r = r'.
Proof.
  unfold json_string. cbn [app]. intros H. injection H as H. rewrite <- !app_assoc in H. cbn [app] in H.
  assert (∀ b b', concat (json_escape <$> b) ++ json_quote :: r = concat (json_escape <$> b') ++ json_quote :: r' →
    b = b' ∧ r = r') as Hinj.
  { clear. induction b as [|a b IH]; intros [|a' b'] H; cbn [fmap list_fmap concat app] in H.
    - by injection H as ->.
    - rewrite <- app_assoc in H. destruct (json_escape_head a' (concat (json_escape <$> b') ++ json_quote :: r'))
        as (x & t & Ht & Hx). rewrite Ht in H. by injection H as <- _.
    - rewrite <- app_assoc in H. destruct (json_escape_head a (concat (json_escape <$> b) ++ json_quote :: r))
        as (x & t & Ht & Hx). rewrite Ht in H. by injection H as -> _.
    - rewrite <- !app_assoc in H. apply (f_equal json_unescape) in H. rewrite !json_unescape_escape in H.
      injection H as <- H. apply IH in H as [-> ->]. done. }
  apply Hinj in H as [H ->]. split; [|done]. by rewrite <- (of_bytes_bs s), H, of_bytes_bs.
Qed.

Lemma json_items_inj l l' r r' :
  json_items l ++ "]"%char :: r = json_items l' ++ "]"%char :: r' → l = l' ∧ r = r'.
Proof.
  assert (∀ s b, json_string s ++ b = json_quote :: concat (json_escape <$> bs s) ++ [json_quote] ++ b) as Hhead.
  { intros s b. unfold json_string. cbn [app]. by rewrite <- app_assoc. }
  revert l'; induction l as [|s l IH]; intros [|s' l'] H.
  - by injection H as ->.
  - exfalso. destruct l'; cbn [json_items] in H; [|rewrite <- app_assoc in H]; rewrite Hhead in H; discriminate.
  - exfalso. destruct l; cbn [json_items] in H; [|rewrite <- app_assoc in H]; rewrite Hhead in H; discriminate.
  - destruct l as [|t l], l' as [|t' l'].
    + cbn [json_items] in H. apply json_string_inj in H as [-> H]. by injection H as ->.
    + cbn [json_items] in H. rewrite <- app_assoc in H. by apply json_string_inj in H as [_ ?].
    + cbn [json_items] in H. rewrite <- app_assoc in H. by apply json_string_inj in H as [_ ?].
    + change (json_items (s :: t :: l)) with (json_string s ++ ","%char :: json_items (t :: l)) in H.
      change (json_items (s' :: t' :: l')) with (json_string s' ++ ","%char :: json_items (t' :: l')) in H.
      rewrite <- !app_assoc in H. apply json_string_inj in H as [-> H]. injection H as H.
      change (json_items (t :: l) ++ "]"%char :: r = json_items (t' :: l') ++ "]"%char :: r') in H.
      apply IH in H as [[= -> ->] ->]. done.
Qed.

#[export] Instance json_strings_inj : Inj (=) (=) json_strings.
Proof.
  intros l l' H. unfold json_strings in H. apply (f_equal bs) in H. rewrite !bs_of_bytes in H.
  injection H as H. by apply json_items_inj in H as [-> _].
Qed.
