(* ===== verification/Consent.v ===== *)
(** * Processing consent (internal/store/consent.go)

    Grants of provider access, the revocation fence of a principal and scope,
    and the check made before every provider operation and again when its
    result is published.  An instant is a [Z] of nanoseconds: the storage
    layout is fixed-width UTC with nanoseconds, so for years of four digits
    text order is time order and reading back loses nothing.  The identifier
    that [newUUIDv4] draws and the clock are arguments.

    What the fence query and the grant scan return, what an operation leaves
    in the tables, and the invariant of the tables: no grant carries a fence
    that its scope has not reached. *)
From stdpp Require Import sorting.
From S2P Require Import Prelude GoText SearchText AuditEncoding Identity Chunking JsonText.

Inductive consent_error :=
  | ErrProcessingConsentRequired
  | ErrProcessingConsentExpired
  | ErrProcessingConsentRevoked
  | ErrConsentOther.
#[export] Instance consent_error_eq_dec : EqDecision consent_error.
Proof. solve_decision. Defined.
Notation cres := (result consent_error).

(** ** Requests *)

Record ProviderOperationAuthorization := mkAuthorization {
  GrantID : string; ProcessingIncarnationID : string; RevocationFence : Z; AuthorizedAt : Z;
}.
Record ProviderOperationAuthorizationRequest := mkAuthorizationRequest {
  Principal : string; Scope : string; ProfileFingerprint : string; DisclosureFingerprint : string;
  InputClasses : list string; RetainedArtifactClasses : list string;
  PriorAuthorization : option ProviderOperationAuthorization;
}.
Record ProcessingConsentGrantRequest := mkGrantRequest {
  gr_request : ProviderOperationAuthorizationRequest; gr_ExpiresAt : option Z;
}.

(** The strings of a [normalizedConsentAuthority] that the tables are searched
    by, and its class lists. *)
Record normalizedConsentAuthority := mkAuthority {
  ca_principal : string; ca_scope : string; ca_profile : string; ca_disclosure : string;
  ca_inputs : list string; ca_retained : list string; ca_inputsJSON : string; ca_retainedJSON : string;
}.

Definition normalizeConsentLabel (value : string) : cres string :=
  _ ← check (negb (negb (ValidString value) || String.eqb value "" || (256 <? slen value)%nat
                   || negb (String.eqb (TrimSpace value) value))) ErrConsentOther;
  Ok value.

(** [slices.Compact]: runs of equal elements become one. *)
Fixpoint Compact (l : list string) : list string :=
  match l with
  | x :: ((y :: _) as l) => if String.eqb x y then Compact l else x :: Compact l
  | l => l
  end.

Definition valid_class (value : string) : bool :=
  negb (negb (ValidString value) || String.eqb value "" || (128 <? slen value)%nat
        || negb (String.eqb (TrimSpace value) value)).

Definition normalizeConsentClasses (values : list string) (required : bool) : cres (list string * string) :=
  _ ← check (negb ((required && (length values =? 0)%nat) || (64 <? length values)%nat)) ErrConsentOther;
  _ ← check (forallb valid_class values) ErrConsentOther;
  let result := Compact (merge_sort String.le values) in
  Ok (result, json_strings result).

(** [strings.ToLower] and [hex.DecodeString] together accept exactly the
    lower-case digests. *)
Definition validateCatalogSHA256 (value : string) : cres () := check (IsSHA256Hex value) ErrConsentOther.

Definition normalizeConsentAuthority (request : ProviderOperationAuthorizationRequest) :
    cres normalizedConsentAuthority :=
  principal ← normalizeConsentLabel (Principal request);
  scope ← normalizeConsentLabel (Scope request);
  _ ← validateCatalogSHA256 (ProfileFingerprint request);
  _ ← validateCatalogSHA256 (DisclosureFingerprint request);
  '(inputs, inputsJSON) ← normalizeConsentClasses (InputClasses request) true;
  '(retained, retainedJSON) ← normalizeConsentClasses (RetainedArtifactClasses request) false;
  Ok (mkAuthority principal scope (ProfileFingerprint request) (DisclosureFingerprint request)
        inputs retained inputsJSON retainedJSON).

(** ** Tables *)

Record grant_row := mkGrantRow {
  g_vault : string; g_incarnation : string; g_principal : string; g_scope : string;
  g_profile : string; g_disclosure : string; g_inputs : string; g_retained : string;
  g_fence : Z; g_issued : Z; g_expires : option Z;
}.
Record revocation_row := mkRevocationRow {
  r_vault : string; r_incarnation : string; r_principal : string; r_scope : string;
  r_fence : Z; r_revoked : Z;
}.
(** [incarnations] is [processing_incarnations], [current] the singleton pointer. *)
Record consent_db := mkConsentDb {
  incarnations : gmap string Z;
  current_incarnation : option string;
  grants : gmap string grant_row;
  revocations : gmap string revocation_row;
}.

Definition with_grants (d : consent_db) (g : gmap string grant_row) : consent_db :=
  mkConsentDb (incarnations d) (current_incarnation d) g (revocations d).
Definition with_revocations (d : consent_db) (r : gmap string revocation_row) : consent_db :=
  mkConsentDb (incarnations d) (current_incarnation d) (grants d) r.

Definition ensureProcessingIncarnationTx (d : consent_db) (id : string) (now : Z) : cres consent_db :=
  match current_incarnation d with
  | Some _ => Ok d
  | None =>
      _ ← check (bool_decide (incarnations d !! id = None)) ErrConsentOther;
      Ok (mkConsentDb (<[id := now]> (incarnations d)) (Some id) (grants d) (revocations d))
  end.

Definition currentProcessingIncarnationIDTx (d : consent_db) : cres string :=
  from_lookup (current_incarnation d) ErrConsentOther.

Definition CurrentProcessingIncarnation (d : consent_db) : cres (string * Z) :=
  id ← currentProcessingIncarnationIDTx d;
  created ← from_lookup (incarnations d !! id) ErrConsentOther;
  Ok (id, created).

Definition in_scope (vault incarnation principal scope : string) (r : revocation_row) : bool :=
  String.eqb (r_vault r) vault && String.eqb (r_incarnation r) incarnation
  && String.eqb (r_principal r) principal && String.eqb (r_scope r) scope.

(** [SELECT COALESCE(MAX(fence),0)]; fences are positive. *)
Definition consentRevocationFenceTx (d : consent_db) (vault incarnation principal scope : string) : Z :=
  foldr Z.max 0%Z (r_fence <$> filter (λ r, in_scope vault incarnation principal scope r = true)
                                  (map_to_list (revocations d)).*2).

Definition with_authority (a : normalizedConsentAuthority) (vault incarnation : string) (fence issued : Z)
    (expires : option Z) : grant_row :=
  mkGrantRow vault incarnation (ca_principal a) (ca_scope a) (ca_profile a) (ca_disclosure a)
    (ca_inputsJSON a) (ca_retainedJSON a) fence issued expires.

Definition insert_grant (d : consent_db) (id : string) (g : grant_row) : cres consent_db :=
  _ ← check (bool_decide (grants d !! id = None) && (0 <=? g_fence g)%Z) ErrConsentOther;
  Ok (with_grants d (<[id := g]> (grants d))).

Definition GrantConsent (vault : string) (request : ProcessingConsentGrantRequest) (id : string) (now : Z)
    (d : consent_db) : cres (consent_db * (string * grant_row)) :=
  authority ← normalizeConsentAuthority (gr_request request);
  incarnation ← currentProcessingIncarnationIDTx d;
  let fence := consentRevocationFenceTx d vault incarnation (ca_principal authority) (ca_scope authority) in
  let grant := with_authority authority vault incarnation fence now (gr_ExpiresAt request) in
  d ← insert_grant d id grant;
  Ok (d, (id, grant)).

(** The columns a grant is searched by. *)
Definition covers (a : normalizedConsentAuthority) (vault incarnation : string) (g : grant_row) : bool :=
  String.eqb (g_vault g) vault && String.eqb (g_incarnation g) incarnation
  && String.eqb (g_principal g) (ca_principal a) && String.eqb (g_scope g) (ca_scope a)
  && String.eqb (g_profile g) (ca_profile a) && String.eqb (g_disclosure g) (ca_disclosure a)
  && String.eqb (g_inputs g) (ca_inputsJSON a) && String.eqb (g_retained g) (ca_retainedJSON a).

Definition EnsureInitialConsent (vault : string) (request : ProcessingConsentGrantRequest) (id : string)
    (now : Z) (d : consent_db) : cres (consent_db * ()) :=
  authority ← normalizeConsentAuthority (gr_request request);
  incarnation ← currentProcessingIncarnationIDTx d;
  let fence := consentRevocationFenceTx d vault incarnation (ca_principal authority) (ca_scope authority) in
  _ ← check (fence =? 0)%Z ErrProcessingConsentRevoked;
  let standing := filter (λ g, covers authority vault incarnation g && (g_fence g =? 0)%Z
                                 && bool_decide (g_expires g = None) = true) (map_to_list (grants d)).*2 in
  if (length standing =? 0)%nat then
    d ← insert_grant d id (with_authority authority vault incarnation 0 now None);
    Ok (d, ())
  else Ok (d, ()).

Definition insert_revocation (d : consent_db) (id : string) (r : revocation_row) : cres consent_db :=
  _ ← check (bool_decide (revocations d !! id = None) && (0 <? r_fence r)%Z) ErrConsentOther;
  _ ← check (forallb (λ q, negb (in_scope (r_vault r) (r_incarnation r) (r_principal r) (r_scope r) q
                                 && (r_fence q =? r_fence r)%Z)) (map_to_list (revocations d)).*2) ErrConsentOther;
  Ok (with_revocations d (<[id := r]> (revocations d))).

Definition RevokeConsent (vault principal scope id : string) (now : Z) (d : consent_db) :
    cres (consent_db * (string * revocation_row)) :=
  principal ← normalizeConsentLabel principal;
  scope ← normalizeConsentLabel scope;
  incarnation ← currentProcessingIncarnationIDTx d;
  let prior := consentRevocationFenceTx d vault incarnation principal scope in
  let revocation := mkRevocationRow vault incarnation principal scope (int_add prior 1) now in
  d ← insert_revocation d id revocation;
  Ok (d, (id, revocation)).

(** ** Authorization *)

(** [ORDER BY issued_at DESC,grant_id DESC] *)
Definition newest_first (p q : string * grant_row) : Prop :=
  (g_issued q.2 < g_issued p.2)%Z ∨ (g_issued q.2 = g_issued p.2 ∧ String.le q.1 p.1).
#[export] Instance newest_first_dec p q : Decision (newest_first p q).
Proof. unfold newest_first. apply _. Defined.

Definition named (prior : option ProviderOperationAuthorization) (id : string) : bool :=
  match prior with Some p => String.eqb id (GrantID p) | None => true end.

Definition candidate_grants (d : consent_db) (a : normalizedConsentAuthority) (vault incarnation : string)
    (prior : option ProviderOperationAuthorization) : list (string * grant_row) :=
  merge_sort newest_first
    (filter (λ p, covers a vault incarnation p.2 && named prior p.1 = true) (map_to_list (grants d))).

Definition expired (now : Z) (g : grant_row) : bool :=
  match g_expires g with Some expiry => negb (now <? expiry)%Z | None => false end.

(** The loop over the rows. *)
Fixpoint scan_grants (incarnation : string) (fence now : Z) (foundCurrentFence foundRevoked : bool)
    (rows : list (string * grant_row)) : cres ProviderOperationAuthorization :=
  match rows with
  | [] =>
      if foundCurrentFence then Err ErrProcessingConsentExpired
      else if foundRevoked then Err ErrProcessingConsentRevoked
      else Err ErrProcessingConsentRequired
  | (id, g) :: rows =>
      if negb (g_fence g =? fence)%Z then scan_grants incarnation fence now foundCurrentFence true rows
      else if expired now g then scan_grants incarnation fence now true foundRevoked rows
      else Ok (mkAuthorization id incarnation fence now)
  end.

Definition prior_current (incarnation : string) (fence : Z) (prior : option ProviderOperationAuthorization) : bool :=
  match prior with
  | Some p => String.eqb (ProcessingIncarnationID p) incarnation && (RevocationFence p =? fence)%Z
  | None => true
  end.

Definition authorizeProviderOperationTx (d : consent_db) (vault : string)
    (request : ProviderOperationAuthorizationRequest) (now : Z) : cres ProviderOperationAuthorization :=
  authority ← normalizeConsentAuthority request;
  incarnation ← currentProcessingIncarnationIDTx d;
  let fence := consentRevocationFenceTx d vault incarnation (ca_principal authority) (ca_scope authority) in
  _ ← check (prior_current incarnation fence (PriorAuthorization request)) ErrProcessingConsentRevoked;
  scan_grants incarnation fence now false false
    (candidate_grants d authority vault incarnation (PriorAuthorization request)).

Definition AuthorizeProviderOperation (d : consent_db) (vault : string)
    (request : ProviderOperationAuthorizationRequest) (now : Z) : cres ProviderOperationAuthorization :=
  _ ← check (bool_decide (PriorAuthorization request = None)) ErrConsentOther;
  authorizeProviderOperationTx d vault request now.

(** * Facts of processing consent *)

(** ** Decided predicates *)

Lemma eqb_iff (s t : string) : String.eqb s t = true ↔ s = t.
Proof. apply String.eqb_eq. Qed.

Lemma in_scope_iff v i p s r :
  in_scope v i p s r = true ↔ r_vault r = v ∧ r_incarnation r = i ∧ r_principal r = p ∧ r_scope r = s.
Proof. unfold in_scope. rewrite !andb_true_iff, !eqb_iff. tauto. Qed.

Lemma covers_with_authority a v i fence issued expires :
  covers a v i (with_authority a v i fence issued expires) = true.
Proof. unfold covers, with_authority; cbn. by rewrite !String.eqb_refl. Qed.

Lemma covers_scope a v i g :
  covers a v i g = true → g_vault g = v ∧ g_incarnation g = i ∧ g_principal g = ca_principal a ∧ g_scope g = ca_scope a.
Proof. unfold covers. rewrite !andb_true_iff, !eqb_iff. tauto. Qed.

Lemma normalizeConsentLabel_Ok s t : normalizeConsentLabel s = Ok t → t = s.
Proof. unfold normalizeConsentLabel. intros H. by res_inv. Qed.

Lemma normalizeConsentAuthority_labels request a :
  normalizeConsentAuthority request = Ok a → ca_principal a = Principal request ∧ ca_scope a = Scope request.
Proof.
  unfold normalizeConsentAuthority. intros H.
  repeat (res_inv1 || case_match); subst; cbn. split; by apply normalizeConsentLabel_Ok.
Qed.

Lemma normalizeConsentAuthority_prior request prior :
  normalizeConsentAuthority (mkAuthorizationRequest (Principal request) (Scope request) (ProfileFingerprint request)
    (DisclosureFingerprint request) (InputClasses request) (RetainedArtifactClasses request) prior) =
  normalizeConsentAuthority request.
Proof. done. Qed.

(** ** Classes *)

Lemma elem_of_Compact x l : x ∈ Compact l ↔ x ∈ l.
Proof.
  induction l as [|y l IH]; [done|]. destruct l as [|z l]; [done|].
  change (Compact (y :: z :: l)) with (if String.eqb y z then Compact (z :: l) else y :: Compact (z :: l)).
  destruct (String.eqb y z) eqn:He.
  - apply eqb_iff in He as ->. rewrite IH. set_solver.
  - rewrite !(elem_of_cons _ x y), IH. done.
Qed.

Lemma Compact_sorted l : StronglySorted String.le l → StronglySorted String.le (Compact l) ∧ NoDup (Compact l).
Proof.
  induction 1 as [|x l Hs IH Hall]; [by split; constructor|]. destruct l as [|y l].
  { split; [by repeat constructor|apply NoDup_singleton]. }
  change (Compact (x :: y :: l)) with (if String.eqb x y then Compact (y :: l) else x :: Compact (y :: l)).
  destruct (String.eqb x y) eqn:He; [done|]. destruct IH as [IHs IHn]. split.
  - constructor; [done|]. apply Forall_forall. intros z Hz. rewrite elem_of_Compact in Hz. exact (proj1 (Forall_forall _ _) Hall z Hz).
  - constructor; [|done]. rewrite elem_of_Compact. intros Hx. apply String.eqb_neq in He. apply He.
    apply (anti_symm String.le); [by apply (Forall_inv Hall)|].
    apply elem_of_cons in Hx as [->|Hx]; [done|]. apply StronglySorted_inv in Hs as [_ Hs].
    exact (proj1 (Forall_forall _ _) Hs x Hx).
Qed.

(** The stored classes of a request are its set of classes, in order. *)
Lemma normalizeConsentClasses_Ok l required r j :
  normalizeConsentClasses l required = Ok (r, j) →
  j = json_strings r ∧ StronglySorted String.le r ∧ NoDup r ∧ (∀ x, x ∈ r ↔ x ∈ l).
Proof.
  unfold normalizeConsentClasses. intros H. repeat res_inv1. injection H as <- <-.
  destruct (Compact_sorted (merge_sort String.le l)) as [Hs Hn]; [apply StronglySorted_merge_sort; apply _|].
  split_and!; try done. intros x. by rewrite elem_of_Compact, merge_sort_Permutation.
Qed.

Lemma sorted_nodup_eq (l l' : list string) :
  StronglySorted String.le l → StronglySorted String.le l' → NoDup l → NoDup l' → (∀ x, x ∈ l ↔ x ∈ l') → l = l'.
Proof.
  intros Hs Hs' Hn Hn' H. apply (StronglySorted_unique String.le); [done..|]. by apply NoDup_Permutation.
Qed.

(** ** The fence *)

Section fence.
Context (d : consent_db) (v i p s : string).
Notation fence := (consentRevocationFenceTx d v i p s).

Lemma fence_nonneg : (0 ≤ fence)%Z.
Proof using.
  clear. unfold consentRevocationFenceTx. induction (r_fence <$> _) as [|z l IH]; cbn; lia.
Qed.

Lemma fence_bounds id r : revocations d !! id = Some r → in_scope v i p s r = true → (r_fence r ≤ fence)%Z.
Proof using.
  intros Hr Hs. unfold consentRevocationFenceTx.
  assert (r_fence r ∈ r_fence <$> filter (λ r, in_scope v i p s r = true) (map_to_list (revocations d)).*2) as Hin.
  { apply list_elem_of_fmap_2, list_elem_of_filter. split; [done|].
    apply (list_elem_of_fmap_2 snd _ (id, r)). by apply elem_of_map_to_list. }
  induction Hin as [|z w l Hin IH]; cbn; lia.
Qed.

Lemma fence_le n :
  (0 ≤ n)%Z → (∀ id r, revocations d !! id = Some r → in_scope v i p s r = true → (r_fence r ≤ n)%Z) → (fence ≤ n)%Z.
Proof using.
  intros Hn H. unfold consentRevocationFenceTx.
  assert (Forall (λ z, (z ≤ n)%Z)
    (r_fence <$> filter (λ r, in_scope v i p s r = true) (map_to_list (revocations d)).*2)) as HF.
  { apply Forall_forall. intros z (r & -> & [Hs Hr]%list_elem_of_filter)%list_elem_of_fmap.
    apply list_elem_of_fmap in Hr as ([id r'] & -> & Hr). apply elem_of_map_to_list in Hr. eauto. }
  induction HF; cbn; lia.
Qed.
End fence.

Lemma fence_ext d d' v i p s :
  revocations d = revocations d' → consentRevocationFenceTx d v i p s = consentRevocationFenceTx d' v i p s.
Proof. unfold consentRevocationFenceTx. by intros ->. Qed.

Lemma fence_mono d d' v i p s :
  revocations d ⊆ revocations d' → (consentRevocationFenceTx d v i p s ≤ consentRevocationFenceTx d' v i p s)%Z.
Proof.
  intros Hsub. apply fence_le; [apply fence_nonneg|]. intros id r Hr Hs.
  eapply fence_bounds; [|done]. by eapply lookup_weaken.
Qed.

(** A new revocation is the fence of its scope and moves no other. *)
Lemma fence_insert d id r v i p s :
  revocations d !! id = None →
  consentRevocationFenceTx (with_revocations d (<[id := r]> (revocations d))) v i p s =
  if in_scope v i p s r then Z.max (r_fence r) (consentRevocationFenceTx d v i p s) else consentRevocationFenceTx d v i p s.
Proof.
  intros Hnone. set (d' := with_revocations d _).
  assert (consentRevocationFenceTx d v i p s ≤ consentRevocationFenceTx d' v i p s)%Z as Hmono
    by (apply fence_mono; by apply insert_subseteq).
  destruct (in_scope v i p s r) eqn:Hs; apply Z.le_antisymm.
  - apply fence_le; [pose proof (fence_nonneg d v i p s); lia|]. intros id' r' Hr Hs'.
    cbn in Hr. apply lookup_insert_Some in Hr as [[<- <-]|[_ Hr]]; [lia|].
    pose proof (fence_bounds d v i p s id' r' Hr Hs'). lia.
  - apply Z.max_lub; [|done]. apply (fence_bounds d' v i p s id r); [|done]. apply lookup_insert_eq.
  - apply fence_le; [apply fence_nonneg|]. intros id' r' Hr Hs'.
    cbn in Hr. apply lookup_insert_Some in Hr as [[<- <-]|[_ Hr]]; [congruence|]. by eapply fence_bounds.
  - done.
Qed.

(** ** The candidate rows *)

Lemma newest_first_total : Total newest_first.
Proof.
  intros [i g] [j h]. unfold newest_first; cbn.
  destruct (Z.lt_trichotomy (g_issued g) (g_issued h)) as [?|[->|?]]; [by right; left| |by left; left].
  destruct (total String.le j i) as [?|?]; [left|right]; right; auto.
Qed.

Lemma newest_first_trans : Transitive newest_first.
Proof.
  intros [i g] [j h] [k e]; unfold newest_first; cbn. intros [?|[-> Hij]] [?|[-> Hjk]].
  - left; lia.
  - by left.
  - by left.
  - right. split; [done|]. by transitivity j.
Qed.

Definition candidate (d : consent_db) (a : normalizedConsentAuthority) (v i : string)
    (prior : option ProviderOperationAuthorization) (id : string) (g : grant_row) : Prop :=
  grants d !! id = Some g ∧ covers a v i g = true ∧ named prior id = true.

Lemma elem_of_candidate_grants d a v i prior id g :
  (id, g) ∈ candidate_grants d a v i prior ↔ candidate d a v i prior id g.
Proof.
  unfold candidate_grants, candidate. rewrite merge_sort_Permutation, list_elem_of_filter; cbn.
  rewrite andb_true_iff, elem_of_map_to_list. tauto.
Qed.

Lemma candidate_grants_sorted d a v i prior : StronglySorted newest_first (candidate_grants d a v i prior).
Proof. apply StronglySorted_merge_sort; [apply newest_first_trans|apply newest_first_total]. Qed.

(** The scan stops at the first row under the fence that has not expired, and
    otherwise reports the strongest reason it met. *)
Lemma scan_grants_Ok i fence now b1 b2 rows auth :
  StronglySorted newest_first rows →
  scan_grants i fence now b1 b2 rows = Ok auth ↔
  ∃ g, auth = mkAuthorization (GrantID auth) i fence now ∧ (GrantID auth, g) ∈ rows ∧
    g_fence g = fence ∧ expired now g = false ∧
    (∀ p, p ∈ rows → g_fence p.2 = fence → expired now p.2 = false → (GrantID auth, g) = p ∨ newest_first (GrantID auth, g) p) ∧
    scan_grants i fence now b1 b2 rows = Ok auth.
Proof.
  intros Hs. split; [|by intros (g & H); apply H].
  revert b1 b2; induction Hs as [|[id g] rows Hs IH Hall]; intros b1 b2 H; cbn in H |- *.
  { by destruct b1, b2. }
  destruct (g_fence g =? fence)%Z eqn:Hf; cbn in H |- *.
  - destruct (expired now g) eqn:He.
    + destruct (IH _ _ H) as (h & Ha & Hin & Hh & Hne & Hmin & _). exists h. repeat split_and; try done; [by right|].
      intros p [->|Hp]%elem_of_cons ? ?; [cbn in *; congruence|]. by apply Hmin.
    + res_inv. cbn. exists g. apply Z.eqb_eq in Hf. repeat split_and; try done; [by left|].
      intros p [->|Hp]%elem_of_cons ? ?; [by left|]. right. by apply (proj1 (Forall_forall _ _) Hall).
  - destruct (IH _ _ H) as (h & Ha & Hin & Hh & Hne & Hmin & _). exists h. repeat split_and; try done; [by right|].
    apply Z.eqb_neq in Hf. intros p [->|Hp]%elem_of_cons ? ?; [cbn in *; congruence|]. by apply Hmin.
Qed.

Lemma scan_grants_Err i fence now b1 b2 rows e :
  scan_grants i fence now b1 b2 rows = Err e →
  (∀ p, p ∈ rows → g_fence p.2 = fence → expired now p.2 = true) ∧
  (e = ErrProcessingConsentExpired ∧ (b1 = true ∨ ∃ p, p ∈ rows ∧ g_fence p.2 = fence)
   ∨ e = ErrProcessingConsentRevoked ∧ b1 = false ∧ (∀ p, p ∈ rows → g_fence p.2 ≠ fence) ∧ (b2 = true ∨ ∃ p, p ∈ rows)
   ∨ e = ErrProcessingConsentRequired ∧ b1 = false ∧ b2 = false ∧ rows = []).
Proof.
  revert b1 b2; induction rows as [|[id g] rows IH]; intros b1 b2 H; cbn in H.
  { split; [by intros ? ?%elem_of_nil|]. destruct b1, b2; res_inv; auto 10.
    - right; left. repeat split_and; auto. by intros ? ?%elem_of_nil. }
  destruct (g_fence g =? fence)%Z eqn:Hf; cbn in H.
  - apply Z.eqb_eq in Hf. destruct (expired now g) eqn:He; [|done]. apply IH in H as [Hall H]. split.
    { intros p [->|Hp]%elem_of_cons ?; [done|auto]. }
    left. destruct H as [[-> _]|[(_ & ? & _)|(_ & ? & _)]]; [|done..].
    split; [done|]. right. exists (id, g). split; [by left|done].
  - apply Z.eqb_neq in Hf. apply IH in H as [Hall H]. split.
    { intros p [->|Hp]%elem_of_cons ?; [cbn in *; congruence|auto]. }
    destruct H as [[-> [?|(p & ? & ?)]]|[(-> & ? & Hne & _)|(_ & _ & ? & _)]]; [..|done].
    + by left; split; [|left].
    + left. split; [done|]. right. exists p. split; [by right|done].
    + right; left. repeat split_and; try done.
      * intros p [->|Hp]%elem_of_cons; [done|auto].
      * right. exists (id, g). by left.
Qed.

(** ** What an operation does *)

Lemma insert_grant_Ok d id g d' :
  insert_grant d id g = Ok d' → d' = with_grants d (<[id := g]> (grants d)) ∧ grants d !! id = None.
Proof.
  unfold insert_grant. intros H. res_inv. apply andb_true_iff in H0 as [H0%bool_decide_eq_true _]. done.
Qed.

Lemma insert_grant_fresh d id g :
  grants d !! id = None → (0 ≤ g_fence g)%Z → insert_grant d id g = Ok (with_grants d (<[id := g]> (grants d))).
Proof.
  intros Hn Hf. unfold insert_grant. rewrite check_bind_true; [done|].
  rewrite bool_decide_eq_true_2 by done. by apply Z.leb_le in Hf as ->.
Qed.

(** The tables of a vault: a revocation carries a positive 64-bit fence, and a
    grant a fence that its scope has reached. *)
Definition int64_max : Z := 2 ^ 63 - 1.
Record consent_ok (d : consent_db) : Prop := mkConsentOk {
  ok_fences : ∀ id r, revocations d !! id = Some r → (0 < r_fence r ≤ int64_max)%Z;
  ok_grants : ∀ id g, grants d !! id = Some g →
    (0 ≤ g_fence g ≤ consentRevocationFenceTx d (g_vault g) (g_incarnation g) (g_principal g) (g_scope g))%Z;
}.

Lemma fence_le_max d v i p s : consent_ok d → (consentRevocationFenceTx d v i p s ≤ int64_max)%Z.
Proof. intros Hok. apply fence_le; [done|]. intros id r Hr _. by apply (ok_fences d Hok id). Qed.

Lemma int_add_succ z : (0 ≤ z ≤ int64_max)%Z → (0 < int_add z 1)%Z → int_add z 1 = (z + 1)%Z ∧ (z + 1 ≤ int64_max)%Z.
Proof.
  unfold int_add, int64_max. intros Hz. destruct (decide (z = 2 ^ 63 - 1)%Z) as [->|Hne]; [done|].
  rewrite Z.mod_small by lia. lia.
Qed.

Lemma GrantConsent_Ok v request id now d d' res :
  GrantConsent v request id now d = Ok (d', res) →
  ∃ a i, let g := with_authority a v i (consentRevocationFenceTx d v i (ca_principal a) (ca_scope a)) now
                    (gr_ExpiresAt request) in
    normalizeConsentAuthority (gr_request request) = Ok a ∧ current_incarnation d = Some i ∧
    grants d !! id = None ∧ res = (id, g) ∧ d' = with_grants d (<[id := g]> (grants d)).
Proof.
  unfold GrantConsent, currentProcessingIncarnationIDTx. intros H. res_inv.
  apply insert_grant_Ok in H2 as [-> Hn]. injection H as <- <-. eauto 10.
Qed.

Lemma EnsureInitialConsent_Ok v request id now d d' u :
  EnsureInitialConsent v request id now d = Ok (d', u) →
  ∃ a i, normalizeConsentAuthority (gr_request request) = Ok a ∧ current_incarnation d = Some i ∧
    consentRevocationFenceTx d v i (ca_principal a) (ca_scope a) = 0%Z ∧
    (d' = d ∧ (∃ id' g, grants d !! id' = Some g ∧ covers a v i g = true ∧ g_fence g = 0%Z ∧ g_expires g = None)
     ∨ grants d !! id = None ∧ d' = with_grants d (<[id := with_authority a v i 0 now None]> (grants d))).
Proof.
  unfold EnsureInitialConsent, currentProcessingIncarnationIDTx. intros H. res_inv.
  apply Z.eqb_eq in H2. exists a, a0. repeat split_and; try done.
  destruct (length _ =? 0)%nat eqn:Hl; res_inv.
  - right. apply insert_grant_Ok in H3 as [-> ?]. injection H as <- _. by split.
  - left. injection H as <- _. split; [done|]. apply Nat.eqb_neq in Hl.
    destruct (filter _ _) as [|g l] eqn:Hfl; [done|]. assert (g ∈ g :: l) as Hin by left.
    rewrite <- Hfl in Hin. apply list_elem_of_filter in Hin as [Hg Hin].
    rewrite !andb_true_iff, Z.eqb_eq, bool_decide_eq_true in Hg. destruct Hg as [[? ?] ?].
    apply list_elem_of_fmap in Hin as ([id' g'] & -> & Hin). apply elem_of_map_to_list in Hin. eauto 10.
Qed.

Lemma RevokeConsent_Ok v p s id now d d' res :
  consent_ok d → RevokeConsent v p s id now d = Ok (d', res) →
  ∃ i, let r := mkRevocationRow v i p s (consentRevocationFenceTx d v i p s + 1) now in
    current_incarnation d = Some i ∧ res = (id, r) ∧ revocations d !! id = None ∧ (r_fence r ≤ int64_max)%Z ∧
    d' = with_revocations d (<[id := r]> (revocations d)).
Proof.
  intros Hok. unfold RevokeConsent, insert_revocation, currentProcessingIncarnationIDTx.
  intros H. repeat res_inv1. apply normalizeConsentLabel_Ok in H0 as ->. apply normalizeConsentLabel_Ok in H1 as ->.
  rename select (_ && (0 <? _)%Z = true) into Hn. apply andb_true_iff in Hn as [Hn%bool_decide_eq_true Hf%Z.ltb_lt]. cbn [r_fence] in Hf.
  apply int_add_succ in Hf as [Heq Hmax]; [|split; [apply fence_nonneg|by apply fence_le_max]].
  rename select (with_revocations _ _ = _) into Hd. rewrite <- Hd in *. simplify_eq. eexists. cbn. by rewrite Heq.
Qed.

(** ** The commands, and what they preserve *)

Inductive consent_op :=
  | OpGrant (request : ProcessingConsentGrantRequest) (id : string) (now : Z)
  | OpEnsure (request : ProcessingConsentGrantRequest) (id : string) (now : Z)
  | OpRevoke (principal scope id : string) (now : Z)
  | OpIncarnation (id : string) (now : Z).

(** A command that fails rolls its transaction back. *)
Definition consent_step (v : string) (d : consent_db) (op : consent_op) : consent_db :=
  match op with
  | OpGrant request id now => match GrantConsent v request id now d with Ok (d', _) => d' | Err _ => d end
  | OpEnsure request id now => match EnsureInitialConsent v request id now d with Ok (d', _) => d' | Err _ => d end
  | OpRevoke p s id now => match RevokeConsent v p s id now d with Ok (d', _) => d' | Err _ => d end
  | OpIncarnation id now => match ensureProcessingIncarnationTx d id now with Ok d' => d' | Err _ => d end
  end.
Definition consent_run (v : string) : consent_db → list consent_op → consent_db := foldl (consent_step v).

(** What never goes back: rows are kept and the current incarnation stays. *)
Record consent_grows (d d' : consent_db) : Prop := mkGrows {
  gr_grants : grants d ⊆ grants d';
  gr_revocations : revocations d ⊆ revocations d';
  gr_current : ∀ i, current_incarnation d = Some i → current_incarnation d' = Some i;
}.
#[export] Instance consent_grows_preorder : PreOrder consent_grows.
Proof.
  split; [done|]. intros d1 d2 d3 [] []. split; [by etrans|by etrans|auto].
Qed.

Lemma with_grants_grows d id g : grants d !! id = None → consent_grows d (with_grants d (<[id := g]> (grants d))).
Proof. intros. split; cbn; [by apply insert_subseteq|done|done]. Qed.

Lemma with_grants_ok d id g :
  consent_ok d →
  (0 ≤ g_fence g ≤ consentRevocationFenceTx d (g_vault g) (g_incarnation g) (g_principal g) (g_scope g))%Z →
  consent_ok (with_grants d (<[id := g]> (grants d))).
Proof.
  intros [Hf Hg] Hnew. split; [exact Hf|]. cbn. intros id' g' [[<- <-]|[_ ?]]%lookup_insert_Some; [done|].
  by apply (Hg id').
Qed.

Lemma with_revocations_ok d id r :
  consent_ok d → revocations d !! id = None → (0 < r_fence r ≤ int64_max)%Z →
  consent_ok (with_revocations d (<[id := r]> (revocations d))).
Proof.
  intros [Hf Hg] Hn Hr. split; cbn.
  - intros id' r' [[<- <-]|[_ ?]]%lookup_insert_Some; [done|]. by apply (Hf id').
  - intros id' g' Hg'. specialize (Hg id' g' Hg'). split; [lia|]. etrans; [apply Hg|].
    apply fence_mono. by apply insert_subseteq.
Qed.

Lemma consent_step_ok v d op : consent_ok d → consent_ok (consent_step v d op) ∧ consent_grows d (consent_step v d op).
Proof.
  intros Hok. destruct op as [request id now|request id now|p s id now|id now]; cbn.
  - destruct (GrantConsent _ _ _ _ _) as [[d' res]|] eqn:H; [|done].
    apply GrantConsent_Ok in H as (a & i & Ha & Hi & Hn & -> & ->). split; [|by apply with_grants_grows].
    apply with_grants_ok; [done|]. cbn. split; [apply fence_nonneg|done].
  - destruct (EnsureInitialConsent _ _ _ _ _) as [[d' res]|] eqn:H; [|done].
    apply EnsureInitialConsent_Ok in H as (a & i & Ha & Hi & Hz & [[-> _]|[Hn ->]]); [done|].
    split; [|by apply with_grants_grows]. apply with_grants_ok; [done|]. cbn. split; [done|apply fence_nonneg].
  - destruct (RevokeConsent _ _ _ _ _ _) as [[d' res]|] eqn:H; [|done].
    apply (RevokeConsent_Ok _ _ _ _ _ _ _ _ Hok) in H as (i & Hi & -> & Hn & Hmax & ->).
    pose proof (fence_nonneg d v i p s). split.
    + apply with_revocations_ok; [done..|]. cbn in Hmax |- *. lia.
    + split; cbn; [done|by apply insert_subseteq|done].
  - unfold ensureProcessingIncarnationTx. destruct (current_incarnation d) as [i|] eqn:Hc; [done|].
    destruct (mbind _ _) as [d'|] eqn:H; [|done]. res_inv. split; [by destruct Hok|].
    split; cbn; [done|done|congruence].
Qed.

Lemma consent_run_ok v ops d : consent_ok d → consent_ok (consent_run v d ops) ∧ consent_grows d (consent_run v d ops).
Proof.
  revert d; induction ops as [|op ops IH]; intros d Hok; [done|].
  destruct (consent_step_ok v d op Hok) as [Hok' Hg]. destruct (IH _ Hok') as [Hok'' Hg'].
  split; [exact Hok''|]. by etrans.
Qed.
