(* ===== verification/ConsentProps.v ===== *)
(** * Theorems of processing consent

    The authorization check decides between its four outcomes exactly, a
    revocation is final for the authority it supersedes, and the initial
    consent of a policy authorizes it until then.

    The reader-writer mutex of a store (store.go) that orders consent
    revocation against provider calls: [BeginRenditionProviderEgress]
    (rendition_jobs.go) and [BeginEmbeddingProviderEgress] (embedding_jobs.go)
    authorize under its read side and return the open fence, [Close] releases
    it once, and [RevokeConsent] and [EnsureInitialConsent] (consent.go) run
    under its write side.  [GrantConsent] takes no side. *)
From stdpp Require Import sorting.
From S2P Require Import Prelude GoText AuditEncoding Identity JsonText Consent.

(** The grants that the request may rely on at [now]. *)
Definition usable (d : consent_db) (a : normalizedConsentAuthority) (v i : string)
    (prior : option ProviderOperationAuthorization) (now : Z) (id : string) (g : grant_row) : Prop :=
  candidate d a v i prior id g ∧ g_fence g = consentRevocationFenceTx d v i (ca_principal a) (ca_scope a) ∧
  expired now g = false.

Lemma authorize_unfold d v request now a i :
  normalizeConsentAuthority request = Ok a → current_incarnation d = Some i →
  authorizeProviderOperationTx d v request now =
  let fence := consentRevocationFenceTx d v i (ca_principal a) (ca_scope a) in
  if prior_current i fence (PriorAuthorization request) then
    scan_grants i fence now false false (candidate_grants d a v i (PriorAuthorization request))
  else Err ErrProcessingConsentRevoked.
Proof.
  intros Ha Hi. unfold authorizeProviderOperationTx, currentProcessingIncarnationIDTx. rewrite Ha, Hi. cbn.
  by destruct (prior_current _ _ _).
Qed.

(** What a successful check found. *)
Lemma authorize_Ok d v request now auth :
  authorizeProviderOperationTx d v request now = Ok auth →
  ∃ a i g, normalizeConsentAuthority request = Ok a ∧ current_incarnation d = Some i ∧
    let fence := consentRevocationFenceTx d v i (ca_principal a) (ca_scope a) in
    prior_current i fence (PriorAuthorization request) = true ∧
    auth = mkAuthorization (GrantID auth) i fence now ∧
    usable d a v i (PriorAuthorization request) now (GrantID auth) g ∧
    (∀ id g', usable d a v i (PriorAuthorization request) now id g' →
      (GrantID auth, g) = (id, g') ∨ newest_first (GrantID auth, g) (id, g')).
Proof.
  intros H. destruct (normalizeConsentAuthority request) as [a|] eqn:Ha;
    [|unfold authorizeProviderOperationTx in H; rewrite Ha in H; discriminate].
  destruct (current_incarnation d) as [i|] eqn:Hi;
    [|unfold authorizeProviderOperationTx, currentProcessingIncarnationIDTx in H; rewrite Ha, Hi in H; discriminate].
  rewrite (authorize_unfold d v request now a i Ha Hi) in H. cbn in H.
  destruct (prior_current _ _ _) eqn:Hp; [|done].
  apply scan_grants_Ok in H as (g & Hauth & Hin & Hf & He & Hmin & _); [|apply candidate_grants_sorted].
  apply elem_of_candidate_grants in Hin. exists a, i, g. cbv zeta. split_and!; try done.
  intros id g' (Hc & Hf' & He'). apply (Hmin (id, g')); [by apply elem_of_candidate_grants|done|done].
Qed.

(** C17: The authorization check decides its four outcomes exactly.  For a well
    formed request under a current incarnation it returns the newest grant that
    names the same authority, carries the scope's current fence and has not
    expired; it answers expired when grants of the current fence exist but all
    have run out, revoked when a prior authorization is of another incarnation
    or fence, or when every matching grant is of another fence, and required
    when no grant matches. *)
Theorem authorizeProviderOperationTx_decides d v request now a i :
  normalizeConsentAuthority request = Ok a → current_incarnation d = Some i →
  let prior := PriorAuthorization request in
  let fence := consentRevocationFenceTx d v i (ca_principal a) (ca_scope a) in
  match authorizeProviderOperationTx d v request now with
  | Ok auth =>
      prior_current i fence prior = true ∧ auth = mkAuthorization (GrantID auth) i fence now ∧
      ∃ g, usable d a v i prior now (GrantID auth) g ∧
        ∀ id g', usable d a v i prior now id g' →
          (GrantID auth, g) = (id, g') ∨ newest_first (GrantID auth, g) (id, g')
  | Err ErrProcessingConsentExpired =>
      prior_current i fence prior = true ∧
      (∃ id g, candidate d a v i prior id g ∧ g_fence g = fence) ∧
      (∀ id g, candidate d a v i prior id g → g_fence g = fence → expired now g = true)
  | Err ErrProcessingConsentRevoked =>
      prior_current i fence prior = false ∨
      (∃ id g, candidate d a v i prior id g) ∧ (∀ id g, candidate d a v i prior id g → g_fence g ≠ fence)
  | Err ErrProcessingConsentRequired =>
      prior_current i fence prior = true ∧ ∀ id g, ¬ candidate d a v i prior id g
  | Err ErrConsentOther => False
  end.
Proof.
  intros Ha Hi prior fence. destruct (authorizeProviderOperationTx d v request now) as [auth|e] eqn:H.
  { apply authorize_Ok in H as (a' & i' & g & Ha' & Hi' & H). rewrite Ha in Ha'. rewrite Hi in Hi'. simplify_eq.
    destruct H as (? & ? & ? & ?). eauto 10. }
  rewrite (authorize_unfold d v request now a i Ha Hi) in H. cbn in H. fold fence prior in H.
  destruct (prior_current i fence prior) eqn:Hp; [|res_inv; by left].
  apply scan_grants_Err in H as [Hall H].
  assert (∀ id g, candidate d a v i prior id g → (id, g) ∈ candidate_grants d a v i prior) as Hin
    by (intros; by apply elem_of_candidate_grants).
  assert (∀ p, p ∈ candidate_grants d a v i prior → ∃ id g, p = (id, g) ∧ candidate d a v i prior id g) as Hout
    by (intros [id g] ?; exists id, g; by rewrite <- elem_of_candidate_grants).
  destruct H as [[-> [?|(p & Hp' & ?)]]|[(-> & _ & Hne & [?|(p & Hp')])|(-> & _ & _ & Hnil)]]; try done.
  - apply Hout in Hp' as (id & g & -> & ?). split_and!; [done|eauto|]. intros id' g' ?%Hin. by apply (Hall (id', g')).
  - apply Hout in Hp' as (id & g & -> & ?). right. split; [eauto|]. intros id' g' ?%Hin. by apply (Hne (id', g')).
  - split; [done|]. intros id g Hc%Hin. rewrite Hnil in Hc. by apply elem_of_nil in Hc.
Qed.

(** The class columns that a grant is matched by name a set exactly: two
    well formed class lists are stored as the same text if and only if they
    have the same members, in whatever order and however often. *)
Theorem normalizeConsentClasses_identity l l' required required' r r' j j' :
  normalizeConsentClasses l required = Ok (r, j) → normalizeConsentClasses l' required' = Ok (r', j') →
  j = j' ↔ ∀ x, x ∈ l ↔ x ∈ l'.
Proof.
  intros (-> & Hs & Hn & Hin)%normalizeConsentClasses_Ok (-> & Hs' & Hn' & Hin')%normalizeConsentClasses_Ok.
  split.
  - intros ->%(inj json_strings) x. by rewrite <- Hin, <- Hin'.
  - intros H. f_equal. apply sorted_nodup_eq; [done..|]. intros x. by rewrite Hin, Hin'.
Qed.

Lemma normalizeConsentClasses_identity_witness :
  json_strings ["a"; "b"] = json_strings ["a"; "b"] ↔ ∀ x : string, x ∈ ["b"; "a"; "b"] ↔ x ∈ ["a"; "b"].
Proof. apply (normalizeConsentClasses_identity ["b"; "a"; "b"] ["a"; "b"] true true ["a"; "b"] ["a"; "b"]); vm_compute; reflexivity. Defined.

(** ** A sample vault *)

Definition sample_digest : string := "0123456789abcdef0123456789abcdef0123456789abcdef0123456789abcdef".
Definition sample_request : ProviderOperationAuthorizationRequest :=
  mkAuthorizationRequest "renditions" "local" sample_digest sample_digest ["original_file"]
    ["sanitized_markdown"; "normalized_evidence"; "normalized_evidence"] None.
Definition sample_authority : normalizedConsentAuthority :=
  mkAuthority "renditions" "local" sample_digest sample_digest ["original_file"]
    ["normalized_evidence"; "sanitized_markdown"] (json_strings ["original_file"])
    (json_strings ["normalized_evidence"; "sanitized_markdown"]).
Definition sample_vault : consent_db := mkConsentDb {["incarnation" := 0%Z]} (Some "incarnation") ∅ ∅.
Definition sample_granted : consent_db :=
  consent_run "vault" sample_vault
    [OpGrant (mkGrantRequest sample_request (Some 50%Z)) "first" 10; OpGrant (mkGrantRequest sample_request None) "second" 20].

Lemma consent_ok_empty incs current : consent_ok (mkConsentDb incs current ∅ ∅).
Proof. by split. Qed.
Lemma sample_granted_ok : consent_ok sample_granted.
Proof. apply consent_run_ok, consent_ok_empty. Qed.

Example sample_classes_compact : normalizeConsentAuthority sample_request = Ok sample_authority.
Proof. vm_compute. reflexivity. Qed.
(** An expired grant is passed over, and the newest is preferred. *)
Example sample_newest : ∃ auth,
  authorizeProviderOperationTx sample_granted "vault" sample_request 60 = Ok auth ∧ GrantID auth = "second".
Proof. eexists. split; vm_compute; reflexivity. Qed.
Example sample_expired :
  authorizeProviderOperationTx (consent_run "vault" sample_vault [OpGrant (mkGrantRequest sample_request (Some 50%Z)) "first" 10])
    "vault" sample_request 50 = Err ErrProcessingConsentExpired.
Proof. vm_compute. reflexivity. Qed.
Example sample_required : authorizeProviderOperationTx sample_vault "vault" sample_request 50 = Err ErrProcessingConsentRequired.
Proof. vm_compute. reflexivity. Qed.

Lemma authorizeProviderOperationTx_decides_witness :
  ∃ g, usable sample_granted sample_authority "vault" "incarnation" None 60 "second" g.
Proof.
  assert (normalizeConsentAuthority sample_request = Ok sample_authority) as Ha by (vm_compute; reflexivity).
  assert (current_incarnation sample_granted = Some "incarnation") as Hi by (vm_compute; reflexivity).
  pose proof (authorizeProviderOperationTx_decides sample_granted "vault" sample_request 60 _ _ Ha Hi) as H.
  assert (authorizeProviderOperationTx sample_granted "vault" sample_request 60 =
    Ok (mkAuthorization "second" "incarnation" 0 60)) as Hok by (vm_compute; reflexivity).
  rewrite Hok in H. destruct H as (_ & _ & g & Hg & _). exists g. exact Hg.
Defined.

(** ** Revocation *)

Definition with_prior (request : ProviderOperationAuthorizationRequest) (prior : option ProviderOperationAuthorization) :
    ProviderOperationAuthorizationRequest :=
  mkAuthorizationRequest (Principal request) (Scope request) (ProfileFingerprint request)
    (DisclosureFingerprint request) (InputClasses request) (RetainedArtifactClasses request) prior.

Lemma revoked_prior_refused d v request now a i auth :
  normalizeConsentAuthority request = Ok a → current_incarnation d = Some i →
  (RevocationFence auth < consentRevocationFenceTx d v i (ca_principal a) (ca_scope a))%Z →
  authorizeProviderOperationTx d v (with_prior request (Some auth)) now = Err ErrProcessingConsentRevoked.
Proof.
  intros Ha Hi Hlt. rewrite (authorize_unfold d v (with_prior request (Some auth)) now a i Ha Hi). cbn.
  assert ((RevocationFence auth =? consentRevocationFenceTx d v i (ca_principal a) (ca_scope a))%Z = false) as ->
    by (apply Z.eqb_neq; lia).
  by rewrite andb_false_r.
Qed.

(** What a revocation leaves: the fence of the scope is above every fence that
    it replaces, and every grant of the scope that exists is below it. *)
Lemma RevokeConsent_raises v p s id now d d' res i :
  consent_ok d → RevokeConsent v p s id now d = Ok (d', res) → current_incarnation d = Some i →
  consent_ok d' ∧ consent_grows d d' ∧ grants d' = grants d ∧
  (consentRevocationFenceTx d v i p s < consentRevocationFenceTx d' v i p s)%Z ∧
  ∀ id' g, grants d' !! id' = Some g → g_vault g = v → g_incarnation g = i → g_principal g = p → g_scope g = s →
    (g_fence g < consentRevocationFenceTx d' v i p s)%Z.
Proof.
  intros Hok H Hi. pose proof (consent_step_ok v d (OpRevoke p s id now) Hok) as [Hok' Hg]. cbn in Hok', Hg.
  rewrite H in Hok', Hg. split; [done|]. split; [done|].
  apply (RevokeConsent_Ok _ _ _ _ _ _ _ _ Hok) in H as (i' & Hi' & -> & Hn & _ & ->).
  assert (i' = i) as -> by congruence.
  assert (consentRevocationFenceTx d v i p s < consentRevocationFenceTx
    (with_revocations d (<[id:=mkRevocationRow v i p s (consentRevocationFenceTx d v i p s + 1) now]> (revocations d))) v i p s)%Z as Hlt.
  { rewrite fence_insert by done. assert (in_scope v i p s (mkRevocationRow v i p s
      (consentRevocationFenceTx d v i p s + 1) now) = true) as -> by by apply in_scope_iff. cbn. lia. }
  split_and!; [done..|]. intros id' g Hgr <- <- <- <-. pose proof (ok_grants d Hok id' g Hgr). lia.
Qed.

(** C18: A revocation is final.  Once a revocation of its principal and scope
    has committed, an authorization obtained before it is refused as revoked
    in every later state, whatever is granted, ensured or revoked in between;
    and any later authorization of the scope rests on a grant issued after the
    revocation. *)
Theorem revocation_is_final v d request now auth ops rid at_ d' res ops' later :
  consent_ok d →
  authorizeProviderOperationTx d v request now = Ok auth →
  RevokeConsent v (Principal request) (Scope request) rid at_ (consent_run v d ops) = Ok (d', res) →
  authorizeProviderOperationTx (consent_run v d' ops') v (with_prior request (Some auth)) later
    = Err ErrProcessingConsentRevoked ∧
  (∀ auth', authorizeProviderOperationTx (consent_run v d' ops') v request later = Ok auth' →
    grants d' !! GrantID auth' = None).
Proof.
  intros Hok Hauth Hrev. apply authorize_Ok in Hauth as (a & i & g & Ha & Hi & _ & -> & _).
  destruct (normalizeConsentAuthority_labels request a Ha) as [Hp Hs].
  destruct (consent_run_ok v ops d Hok) as [Hok1 Hg1].
  destruct (RevokeConsent_raises _ _ _ _ _ _ _ _ i Hok1 Hrev) as (Hok2 & Hg2 & Hgr & Hlt & Hold);
    [by apply (gr_current _ _ Hg1)|].
  destruct (consent_run_ok v ops' d' Hok2) as [Hok3 Hg3].
  assert (current_incarnation (consent_run v d' ops') = Some i) as Hi3
    by (apply (gr_current _ _ Hg3), (gr_current _ _ Hg2), (gr_current _ _ Hg1), Hi).
  pose proof (fence_mono d _ v i (ca_principal a) (ca_scope a) (gr_revocations _ _ Hg1)).
  pose proof (fence_mono d' _ v i (ca_principal a) (ca_scope a) (gr_revocations _ _ Hg3)).
  rewrite <- Hp, <- Hs in Hlt, Hold. split.
  - eapply revoked_prior_refused; [done..|]. cbn. lia.
  - intros auth' (a' & i' & g' & Ha' & Hi' & _ & _ & ((Hin & Hcov & _) & Hf & _) & _)%authorize_Ok.
    rewrite Ha in Ha'. apply Ok_inj in Ha' as <-. assert (i' = i) as -> by congruence.
    destruct (grants d' !! GrantID auth') as [g''|] eqn:Hg''; [|done]. exfalso.
    pose proof (lookup_weaken _ _ _ _ Hg'' (gr_grants _ _ Hg3)) as Hin'. rewrite Hin in Hin'. simplify_eq.
    apply covers_scope in Hcov as (? & ? & ? & ?).
    enough (g_fence g'' < consentRevocationFenceTx d' v i (ca_principal a) (ca_scope a))%Z by lia.
    by apply (Hold _ _ Hg'').
Qed.

Lemma revocation_is_final_witness :
  authorizeProviderOperationTx
    (consent_run "vault" (consent_step "vault" sample_granted (OpRevoke "renditions" "local" "stop" 70))
       [OpGrant (mkGrantRequest sample_request None) "third" 80])
    "vault" (with_prior sample_request (Some (mkAuthorization "second" "incarnation" 0 60))) 90
  = Err ErrProcessingConsentRevoked.
Proof.
  assert (authorizeProviderOperationTx sample_granted "vault" sample_request 60 =
    Ok (mkAuthorization "second" "incarnation" 0 60)) as Hauth by (vm_compute; reflexivity).
  assert (RevokeConsent "vault" "renditions" "local" "stop" 70 (consent_run "vault" sample_granted []) =
    Ok (consent_step "vault" sample_granted (OpRevoke "renditions" "local" "stop" 70),
        ("stop", mkRevocationRow "vault" "incarnation" "renditions" "local" 1 70))) as Hrev by (vm_compute; reflexivity).
  exact (proj1 (revocation_is_final "vault" sample_granted sample_request 60 _ [] "stop" 70 _ _
    [OpGrant (mkGrantRequest sample_request None) "third" 80] 90 sample_granted_ok Hauth Hrev)).
Defined.

(** ** The consent of a configured policy *)

Definition revokes (request : ProviderOperationAuthorizationRequest) (op : consent_op) : bool :=
  match op with
  | OpRevoke p s _ _ => String.eqb p (Principal request) && String.eqb s (Scope request)
  | _ => false
  end.

Lemma consent_step_fence v request op d i :
  consent_ok d → revokes request op = false →
  consentRevocationFenceTx (consent_step v d op) v i (Principal request) (Scope request)
  = consentRevocationFenceTx d v i (Principal request) (Scope request).
Proof.
  intros Hok Hr. destruct op as [q id t|q id t|p s id t|id t]; cbn.
  - destruct (GrantConsent _ _ _ _ _) as [[d' res]|] eqn:H; [|done].
    by apply GrantConsent_Ok in H as (? & ? & _ & _ & _ & _ & ->).
  - destruct (EnsureInitialConsent _ _ _ _ _) as [[d' res]|] eqn:H; [|done].
    by apply EnsureInitialConsent_Ok in H as (? & ? & _ & _ & _ & [[-> _]|[_ ->]]).
  - destruct (RevokeConsent _ _ _ _ _ _) as [[d' res]|] eqn:H; [|done].
    apply (RevokeConsent_Ok _ _ _ _ _ _ _ _ Hok) in H as (j & _ & _ & Hn & _ & ->).
    rewrite fence_insert by done. destruct (in_scope _ _ _ _ _) eqn:Hs; [|done]. exfalso.
    apply in_scope_iff in Hs as (_ & _ & Hp & Hs). cbn in Hr, Hp, Hs. subst. by rewrite !String.eqb_refl in Hr.
  - unfold ensureProcessingIncarnationTx. destruct (current_incarnation d); [done|].
    destruct (mbind _ _) as [d'|] eqn:H; [|done]. by res_inv.
Qed.

Lemma consent_run_fence v request ops d i :
  consent_ok d → forallb (λ op, negb (revokes request op)) ops = true →
  consentRevocationFenceTx (consent_run v d ops) v i (Principal request) (Scope request)
  = consentRevocationFenceTx d v i (Principal request) (Scope request).
Proof.
  revert d; induction ops as [|op ops IH]; intros d Hok H; [done|].
  cbn in H. apply andb_true_iff in H as [Hr%negb_true_iff H]. cbn [consent_run foldl].
  etrans; [apply IH; [by apply consent_step_ok|done]|]. by apply consent_step_fence.
Qed.

(** A grant that never expires authorizes its own authority while its fence stands. *)
Lemma standing_grant_authorizes d v request a i id g now :
  normalizeConsentAuthority request = Ok a → current_incarnation d = Some i → PriorAuthorization request = None →
  grants d !! id = Some g → covers a v i g = true → g_expires g = None →
  g_fence g = consentRevocationFenceTx d v i (ca_principal a) (ca_scope a) →
  ∃ auth, AuthorizeProviderOperation d v request now = Ok auth.
Proof.
  intros Ha Hi Hp Hg Hc He Hf. unfold AuthorizeProviderOperation. rewrite bool_decide_eq_true_2 by done. cbn.
  assert (candidate d a v i (PriorAuthorization request) id g) as Hcand by (rewrite Hp; done).
  rewrite (authorize_unfold d v request now a i Ha Hi). cbn. rewrite Hp. cbn. rewrite <- Hp.
  destruct (scan_grants _ _ _ _ _ _) as [auth|e] eqn:Hscan; [by exists auth|]. exfalso.
  apply scan_grants_Err in Hscan as [Hall _]. apply elem_of_candidate_grants in Hcand.
  specialize (Hall _ Hcand Hf). cbn in Hall. unfold expired in Hall. by rewrite He in Hall.
Qed.

(** C19: The consent of a configured policy holds until it is revoked.  After
    [EnsureInitialConsent] succeeds, ensuring it again changes nothing, and
    the same authority is authorized at every instant in every state that
    later commands reach, as long as none of them revokes its scope. *)
Theorem EnsureInitialConsent_authorizes v request id now d d' ops id' t t' :
  consent_ok d → PriorAuthorization (gr_request request) = None →
  EnsureInitialConsent v request id now d = Ok (d', ()) →
  forallb (λ op, negb (revokes (gr_request request) op)) ops = true →
  EnsureInitialConsent v request id' t (consent_run v d' ops) = Ok (consent_run v d' ops, ()) ∧
  ∃ auth, AuthorizeProviderOperation (consent_run v d' ops) v (gr_request request) t' = Ok auth.
Proof.
  intros Hok Hp Hens Hops. assert (consent_ok d') as Hok'.
  { pose proof (consent_step_ok v d (OpEnsure request id now) Hok) as [H _]. cbn in H. by rewrite Hens in H. }
  apply EnsureInitialConsent_Ok in Hens as (a & i & Ha & Hi & Hz & Hcase).
  destruct (normalizeConsentAuthority_labels _ a Ha) as [Hpa Hsa].
  assert (∃ gid g, grants d' !! gid = Some g ∧ covers a v i g = true ∧ g_fence g = 0%Z ∧ g_expires g = None)
    as (gid & g & Hg & Hc & Hf & He).
  { destruct Hcase as [[-> H]|[Hn ->]]; [exact H|]. eexists id, _. cbn. rewrite lookup_insert_eq.
    split; [done|]. split; [apply covers_with_authority|done]. }
  assert (current_incarnation d' = Some i) as Hi' by (by destruct Hcase as [[-> _]|[_ ->]]).
  assert (consentRevocationFenceTx d' v i (ca_principal a) (ca_scope a) = 0%Z) as Hz'
    by (by destruct Hcase as [[-> _]|[_ ->]]).
  destruct (consent_run_ok v ops d' Hok') as [_ Hgrow]. pose proof (gr_current _ _ Hgrow i Hi') as Hi3.
  pose proof (lookup_weaken _ _ _ _ Hg (gr_grants _ _ Hgrow)) as Hg3.
  pose proof (consent_run_fence v (gr_request request) ops d' i Hok' Hops) as Hz3.
  rewrite <- Hpa, <- Hsa, Hz' in Hz3. split.
  - unfold EnsureInitialConsent, currentProcessingIncarnationIDTx. rewrite Ha, Hi3. cbn. rewrite Hz3. cbn.
    destruct (length _ =? 0)%nat eqn:Hl; [|done]. exfalso. apply Nat.eqb_eq in Hl.
    apply nil_length_inv in Hl. assert (g ∈ @nil grant_row) as Hin; [|by apply elem_of_nil in Hin].
    rewrite <- Hl. apply list_elem_of_filter. split; [by rewrite Hc, Hf, He|].
    apply (list_elem_of_fmap_2 snd _ (gid, g)). by apply elem_of_map_to_list.
  - eapply standing_grant_authorizes; [done..|]. by rewrite Hf, Hz3.
Qed.

Lemma EnsureInitialConsent_authorizes_witness :
  ∃ auth, AuthorizeProviderOperation
    (consent_run "vault" (consent_step "vault" sample_vault (OpEnsure (mkGrantRequest sample_request None) "policy" 10))
       [OpRevoke "renditions" "elsewhere" "other" 20]) "vault" sample_request 30 = Ok auth.
Proof.
  assert (EnsureInitialConsent "vault" (mkGrantRequest sample_request None) "policy" 10 sample_vault =
    Ok (consent_step "vault" sample_vault (OpEnsure (mkGrantRequest sample_request None) "policy" 10), ())) as Hens
    by (vm_compute; reflexivity).
  exact (proj2 (EnsureInitialConsent_authorizes "vault" (mkGrantRequest sample_request None) "policy" 10 sample_vault _
    [OpRevoke "renditions" "elsewhere" "other" 20] "again" 25 30 (consent_ok_empty _ _) eq_refl Hens eq_refl)).
Defined.

(** * The provider egress fence *)

(** [eg_open] holds the read locks: [None] between [RLock] and the commit of
    the authorizing transaction, then the receipt that the caller holds.  A
    fence is named by its address. *)
Record egress_state := mkEgress {
  eg_db : consent_db;
  eg_open : gmap nat (option (ProviderOperationAuthorizationRequest * ProviderOperationAuthorization));
  eg_writer : bool;
}.

Inductive egress_step (v : string) : egress_state → egress_state → Prop :=
  | egress_rlock d open k :
      open !! k = None →
      egress_step v (mkEgress d open false) (mkEgress d (<[k := None]> open) false)
  | egress_authorize d open w k request now auth :
      open !! k = Some None → authorizeProviderOperationTx d v request now = Ok auth →
      egress_step v (mkEgress d open w) (mkEgress d (<[k := Some (request, auth)]> open) w)
  | egress_close d open w k held :
      open !! k = Some held →
      egress_step v (mkEgress d open w) (mkEgress d (delete k open) w)
  | egress_grant d open w request id now :
      egress_step v (mkEgress d open w) (mkEgress (consent_step v d (OpGrant request id now)) open w)
  | egress_lock d :
      egress_step v (mkEgress d ∅ false) (mkEgress d ∅ true)
  | egress_revoke d open p s id now :
      egress_step v (mkEgress d open true) (mkEgress (consent_step v d (OpRevoke p s id now)) open true)
  | egress_ensure d open request id now :
      egress_step v (mkEgress d open true) (mkEgress (consent_step v d (OpEnsure request id now)) open true)
  | egress_unlock d open :
      egress_step v (mkEgress d open true) (mkEgress d open false).

(** The receipt is current: its grant stands under the present fence. *)
Definition receipt_current (v : string) (d : consent_db) (request : ProviderOperationAuthorizationRequest)
    (auth : ProviderOperationAuthorization) (g : grant_row) : Prop :=
  ∃ a i, normalizeConsentAuthority request = Ok a ∧ current_incarnation d = Some i ∧
    ProcessingIncarnationID auth = i ∧
    RevocationFence auth = consentRevocationFenceTx d v i (ca_principal a) (ca_scope a) ∧
    grants d !! GrantID auth = Some g ∧ covers a v i g = true ∧ g_fence g = RevocationFence auth.

Lemma receipt_current_grows v d d' request auth g :
  consent_grows d d' → revocations d' = revocations d →
  receipt_current v d request auth g → receipt_current v d' request auth g.
Proof.
  intros Hg Hr (a & i & Ha & Hi & Hin & Hf & Hgr & Hc & Hgf). exists a, i.
  rewrite (fence_ext d' d) by done. repeat split_and; try done; [by apply (gr_current _ _ Hg)|].
  eapply lookup_weaken; [done|apply Hg].
Qed.

(** Checked again against the receipt, the authority depends on the expiry of
    its grant alone. *)
Lemma receipt_current_decides v d request auth g later :
  receipt_current v d request auth g →
  authorizeProviderOperationTx d v (with_prior request (Some auth)) later =
  if expired later g then Err ErrProcessingConsentExpired
  else Ok (mkAuthorization (GrantID auth) (ProcessingIncarnationID auth) (RevocationFence auth) later).
Proof.
  intros (a & i & Ha & Hi & Hin & Hf & Hgr & Hc & Hgf).
  rewrite (authorize_unfold d v (with_prior request (Some auth)) later a i Ha Hi). cbn. rewrite <- Hf.
  rewrite Hin, String.eqb_refl, Z.eqb_refl. cbn.
  assert ((GrantID auth, g) ∈ candidate_grants d a v i (Some auth)) as Hcand.
  { apply elem_of_candidate_grants. split; [done|]. split; [done|]. apply String.eqb_refl. }
  destruct (scan_grants _ _ _ _ _ _) as [auth'|e] eqn:Hscan.
  - apply scan_grants_Ok in Hscan as (g' & Hauth & Hin' & _ & He & _); [|apply candidate_grants_sorted].
    apply elem_of_candidate_grants in Hin' as (Hgr' & _ & Hn%eqb_iff). rewrite Hauth, Hn.
    rewrite Hn in Hgr'. simplify_eq. by rewrite He.
  - apply scan_grants_Err in Hscan as [Hall Hscan]. pose proof (Hall _ Hcand Hgf) as He. cbn in He. rewrite He.
    destruct Hscan as [[-> _]|[(_ & _ & Hne & _)|(_ & _ & _ & Hnil)]]; [done| |].
    + by destruct (Hne _ Hcand).
    + rewrite Hnil in Hcand. by apply elem_of_nil in Hcand.
Qed.

(** The lock excludes a writer from open fences, and every receipt is current. *)
Record egress_inv (v : string) (s : egress_state) : Prop := mkEgressInv {
  ei_ok : consent_ok (eg_db s);
  ei_excl : eg_writer s = true → eg_open s = ∅;
  ei_current : ∀ k request auth, eg_open s !! k = Some (Some (request, auth)) →
    ∃ g, receipt_current v (eg_db s) request auth g;
}.

Lemma authorize_receipt_current v d request now auth :
  authorizeProviderOperationTx d v request now = Ok auth → ∃ g, receipt_current v d request auth g.
Proof.
  intros (a & i & g & Ha & Hi & _ & -> & ((Hg & Hc & _) & Hf & _) & _)%authorize_Ok.
  exists g, a, i. done.
Qed.

Lemma egress_step_inv v s s' : egress_step v s s' → egress_inv v s → egress_inv v s'.
Proof.
  intros Hstep [Hok Hex Hcur]. destruct Hstep; cbn in *.
  - split; cbn; [done|done|]. intros k' q au [[_ ?]|[_ ?]]%lookup_insert_Some; [done|eauto].
  - assert (w = false) as -> by (destruct w; [specialize (Hex eq_refl); by simplify_map_eq|done]).
    split; cbn; [done|done|]. intros k' q au [[_ ?]|[_ ?]]%lookup_insert_Some; [|eauto].
    simplify_eq. by eapply authorize_receipt_current.
  - split; cbn; [done| |].
    + intros Hw. rewrite (Hex Hw). apply delete_empty.
    + intros k' q au [_ ?]%lookup_delete_Some. eauto.
  - destruct (consent_step_ok v d (OpGrant request id now) Hok) as [Hok' Hg]. split; [done|done|].
    intros k q au Hk. destruct (Hcur k q au Hk) as [g Hc]. exists g. eapply receipt_current_grows; [exact Hg| |done].
    cbn. destruct (GrantConsent _ _ _ _ _) as [[d' res]|] eqn:H; [|done].
    by apply GrantConsent_Ok in H as (? & ? & _ & _ & _ & _ & ->).
  - by split.
  - split; [by apply (consent_step_ok v d (OpRevoke p s id now))|done|]. by rewrite (Hex eq_refl).
  - split; [by apply (consent_step_ok v d (OpEnsure request id now))|done|]. by rewrite (Hex eq_refl).
  - split; [done|done|]. by rewrite (Hex eq_refl).
Qed.

(** While a provider call holds its egress fence no revocation commits.  In
    every state that a store reaches from unlocked, a fence that has been
    handed out excludes the writer, and re-checking its receipt at any instant
    succeeds with the same grant, or answers expired when that grant has run
    out; it is never revoked. *)
Theorem open_egress_stays_authorized v d s k request auth :
  consent_ok d → rtc (egress_step v) (mkEgress d ∅ false) s →
  eg_open s !! k = Some (Some (request, auth)) →
  eg_writer s = false ∧
  ∃ g, grants (eg_db s) !! GrantID auth = Some g ∧
    ∀ later, authorizeProviderOperationTx (eg_db s) v (with_prior request (Some auth)) later =
      if expired later g then Err ErrProcessingConsentExpired
      else Ok (mkAuthorization (GrantID auth) (ProcessingIncarnationID auth) (RevocationFence auth) later).
Proof.
  intros Hok Hrun Hk. assert (egress_inv v s) as [_ Hex Hcur].
  { assert (egress_inv v (mkEgress d ∅ false)) as H0 by by split.
    clear Hk. induction Hrun; [done|]. eauto using egress_step_inv. }
  split.
  - destruct (eg_writer s); [|done]. specialize (Hex eq_refl). by rewrite Hex, lookup_empty in Hk.
  - destruct (Hcur k request auth Hk) as [g Hg]. exists g. split.
    + by destruct Hg as (? & ? & _ & _ & _ & _ & ? & _).
    + intros later. by apply receipt_current_decides.
Qed.

Lemma open_egress_stays_authorized_witness :
  ∃ g, ∀ later, authorizeProviderOperationTx sample_granted "vault"
      (with_prior sample_request (Some (mkAuthorization "second" "incarnation" 0 60))) later =
    if expired later g then Err ErrProcessingConsentExpired
    else Ok (mkAuthorization "second" "incarnation" 0 later).
Proof.
  assert (rtc (egress_step "vault") (mkEgress sample_granted ∅ false)
    (mkEgress sample_granted (<[1 := Some (sample_request, mkAuthorization "second" "incarnation" 0 60)]> (<[1 := None]> ∅)) false))
    as Hrun.
  { eapply rtc_l; [by apply (egress_rlock _ _ ∅ 1)|]. apply rtc_once.
    eapply egress_authorize; [apply lookup_insert_eq|]. vm_compute. reflexivity. }
  destruct (open_egress_stays_authorized "vault" sample_granted _ 1 _ _ sample_granted_ok Hrun (lookup_insert_eq _ _ _))
    as (_ & g & _ & Hg).
  exists g. exact Hg.
Defined.
