(* ===== verification/Rendition.v ===== *)
(** * Rendition jobs: states, policies and identities

    The durable vocabulary of internal/store/rendition_jobs.go (states,
    phases, failure codes, the validators of stored values), the captured
    artifact policy of processing_catalog.go, the digests that name a shared
    build, a waiter and an attachment, and the purge suppressions of
    derivative_suppression.go.  [RenditionContracts] is what the queue asks of
    the document package: canonical execution identities and the decoded
    profile.

    The rows that keep immutable builds and generations reachable, each under
    a fencing token: recording, renewal and release, and the job roots of
    rendition_jobs.go. *)
From stdpp Require Import sorting.
From S2P Require Import Prelude GoText SearchText AuditEncoding Identity LittleEndian Sha256 ModelInput Chunking JsonText Consent.

(** ** States *)

Inductive RenditionJobState :=
  | RenditionJobQueued | RenditionJobRunning | RenditionJobRetryWait
  | RenditionJobOperatorRequired | RenditionJobFailed | RenditionJobCompleted.
Inductive RenditionJobPhase :=
  | RenditionPhaseQueued | RenditionPhaseProvider | RenditionPhaseBuildStaged
  | RenditionPhaseGenerationStaged | RenditionPhasePublished.
Inductive RenditionFailureCode :=
  | RenditionFailureTransient | RenditionFailureTerminal | RenditionFailureAmbiguous
  | RenditionFailureConsent | RenditionFailureStaleAuthority.
Inductive waiter_state := WaiterWaiting | WaiterPublished | WaiterRejected.
#[export] Instance RenditionJobState_eq_dec : EqDecision RenditionJobState.
Proof. solve_decision. Defined.
#[export] Instance RenditionJobPhase_eq_dec : EqDecision RenditionJobPhase.
Proof. solve_decision. Defined.
#[export] Instance RenditionFailureCode_eq_dec : EqDecision RenditionFailureCode.
Proof. solve_decision. Defined.
#[export] Instance waiter_state_eq_dec : EqDecision waiter_state.
Proof. solve_decision. Defined.

(** [ErrRenditionJoin] is [errors.Join]; [ErrRenditionConsent] carries an error
    of the consent checks. *)
Inductive rendition_error :=
  | ErrRenditionJobLeaseHeld | ErrRenditionJobFenced | ErrRenditionJobOperatorRequired
  | ErrRenditionJobTerminal | ErrRenditionJobStaleAuthority | ErrRenditionJobWaiterReselected
  | ErrRenditionNotFound | ErrCurrentRenditionRootFenced
  | ErrRenditionBuildConflict | ErrLexicalGenerationStale
  | ErrRenditionConsent (e : consent_error)
  | ErrRenditionJoin (e1 e2 : rendition_error)
  | ErrRenditionOther.
#[export] Instance rendition_error_eq_dec : EqDecision rendition_error.
Proof. solve_decision. Defined.
Notation rres := (result rendition_error).

Definition with_consent {A} (m : cres A) : rres A :=
  match m with Ok a => Ok a | Err e => Err (ErrRenditionConsent e) end.
(** The three consent errors that reject a waiter. *)
Definition refuses_consent (e : rendition_error) : bool :=
  match e with
  | ErrRenditionConsent (ErrProcessingConsentRequired | ErrProcessingConsentExpired | ErrProcessingConsentRevoked) => true
  | _ => false
  end.

Definition validRenditionJobStatePhase (state : RenditionJobState) (phase : RenditionJobPhase) : bool :=
  match phase, state with
  | RenditionPhaseQueued,
    (RenditionJobQueued | RenditionJobRunning | RenditionJobRetryWait | RenditionJobFailed) => true
  | RenditionPhaseProvider,
    (RenditionJobQueued | RenditionJobRunning | RenditionJobRetryWait | RenditionJobOperatorRequired
    | RenditionJobFailed) => true
  | (RenditionPhaseBuildStaged | RenditionPhaseGenerationStaged),
    (RenditionJobQueued | RenditionJobRunning | RenditionJobRetryWait | RenditionJobFailed) => true
  | RenditionPhasePublished, RenditionJobCompleted => true
  | _, _ => false
  end.

Definition renditionJobProviderBoundaryAmbiguous (phase : RenditionJobPhase) (providerStarted hasResumeHandle : bool) : bool :=
  providerStarted && negb hasResumeHandle && negb (bool_decide (phase = RenditionPhaseBuildStaged))
  && negb (bool_decide (phase = RenditionPhaseGenerationStaged)).

Definition validRenditionWorkerOwner (value : string) : bool :=
  ValidString value && (1 <=? slen value)%nat && (slen value <=? 128)%nat && String.eqb (TrimSpace value) value.

Definition resume_byte (a : ascii) : bool :=
  let n := N_of_ascii a in
  ((97 <=? n) && (n <=? 122) || (65 <=? n) && (n <=? 90) || (48 <=? n) && (n <=? 57))%N
  || existsb (Ascii.eqb a) (bs "-._~").
(** A byte above 127 starts or continues a rune above 127, or decodes to U+FFFD. *)
Definition validRenditionResumeHandle (value : string) : bool :=
  (1 <=? slen value)%nat && (slen value <=? 512)%nat && forallb resume_byte (bs value).

Definition RenditionInputOriginalFile : string := "original_file".
Definition validateRenditionWaiterInputClasses (inputs : list string) : bool :=
  bool_decide (inputs = [RenditionInputOriginalFile]).

(** ** Captured artifact policy *)

Record capturedArtifactRoleV1 := mkArtifactRole { cr_MaxCount : Z; cr_MinCount : Z; cr_Role : string }.
#[export] Instance capturedArtifactRoleV1_eq_dec : EqDecision capturedArtifactRoleV1.
Proof. solve_decision. Defined.

Definition maxRenditionArtifacts : Z := 1024.
Definition catalogArtifactNormalizedEvidence : string := "normalized_evidence".
Definition catalogArtifactSanitizedMarkdown : string := "sanitized_markdown".
Definition EvidenceArtifactMarkdown : string := "provider_markdown".
Definition persistedRenditionArtifactRoles : list string :=
  [catalogArtifactNormalizedEvidence; catalogArtifactSanitizedMarkdown; "provider_image"; EvidenceArtifactMarkdown;
   "structured_evidence"; "provider_transcript"].
Definition validCapturedArtifactRole (role : string) : bool := bool_decide (role ∈ persistedRenditionArtifactRoles).

Definition role_le (r q : capturedArtifactRoleV1) : Prop := String.le (cr_Role r) (cr_Role q).
#[export] Instance role_le_dec r q : Decision (role_le r q).
Proof. unfold role_le. apply _. Defined.

(** The loop over the decoded roles: the accepted ones and the total maximum. *)
Definition admit_role (acc : list capturedArtifactRoleV1 * Z) (role : capturedArtifactRoleV1) :
    rres (list capturedArtifactRoleV1 * Z) :=
  let '(roles, total) := acc in
  _ ← check (validCapturedArtifactRole (cr_Role role)) ErrRenditionOther;
  _ ← check (bool_decide (cr_Role role ∉ cr_Role <$> roles)) ErrRenditionOther;
  _ ← check (negb ((cr_MinCount role <? 0) || (cr_MaxCount role <? cr_MinCount role)
                   || (maxRenditionArtifacts <? cr_MaxCount role))%Z) ErrRenditionOther;
  _ ← check (total + cr_MaxCount role <=? maxRenditionArtifacts)%Z ErrRenditionOther;
  Ok (roles ++ [role], (total + cr_MaxCount role)%Z).

(** From the decoded JSON on: its roles, sorted. *)
Definition normalizeCapturedArtifactPolicyV1 (version : Z) (wire : list capturedArtifactRoleV1) :
    rres (list capturedArtifactRoleV1) :=
  _ ← check (version =? 1)%Z ErrRenditionOther;
  _ ← check (Z.of_nat (length wire) <=? maxRenditionArtifacts)%Z ErrRenditionOther;
  '(roles, _) ← foldM admit_role ([], 0%Z) wire;
  Ok (merge_sort role_le roles).

(** Its canonical JSON. *)
Definition role_json (r : capturedArtifactRoleV1) : bytes :=
  bs "{" ++ json_string "max_count" ++ bs ":" ++ bs (Itoa (cr_MaxCount r)) ++ bs "," ++ json_string "min_count"
  ++ bs ":" ++ bs (Itoa (cr_MinCount r)) ++ bs "," ++ json_string "role" ++ bs ":" ++ json_string (cr_Role r) ++ bs "}".
Fixpoint roles_json (l : list capturedArtifactRoleV1) : bytes :=
  match l with
  | [] => []
  | [r] => role_json r
  | r :: l => role_json r ++ bs "," ++ roles_json l
  end.
Definition policy_json (l : list capturedArtifactRoleV1) : string :=
  of_bytes (bs "{" ++ json_string "roles" ++ bs ":[" ++ roles_json l ++ bs "]," ++ json_string "version" ++ bs ":1}").

Definition retainedRoles (policy : list capturedArtifactRoleV1) : list string :=
  merge_sort String.le (cr_Role <$> filter (λ r, (0 < cr_MaxCount r)%Z) policy).

(** [policy.cardinalities[role]] *)
Definition cardinality (policy : list capturedArtifactRoleV1) (role : string) : capturedArtifactRoleV1 :=
  default (mkArtifactRole 0 0 "") (head (filter (λ r, cr_Role r = role) policy)).

(** ** Profiles *)

Record ProcessingProfileRecord := mkProfileRecord {
  pp_Fingerprint : string; pp_CanonicalProfile : string; pp_RenditionRequestFingerprint : string;
  pp_EvidenceLexicalFingerprint : string; pp_RetentionDisclosureFingerprint : string;
  pp_AttachmentPolicyFingerprint : string; pp_ConsentFingerprint : string;
  pp_RenditionDisclosureFingerprint : string; pp_TrustBoundary : string;
}.
#[export] Instance ProcessingProfileRecord_eq_dec : EqDecision ProcessingProfileRecord.
Proof. solve_decision. Defined.

(** What the queue reads of a decoded profile with a rendition binding. *)
Record executable_profile := mkExecutable {
  ep_RequestedArtifacts : list string; ep_RetainProviderMarkdown : bool;
  ep_RetainSanitizedMarkdown : bool; ep_RetainTypedArtifacts : bool;
}.

Definition renditionProfileRetainsArtifact (profile : executable_profile) (role : string) : bool :=
  if negb (bool_decide (role ∈ ep_RequestedArtifacts profile)) then false
  else if String.eqb role EvidenceArtifactMarkdown then ep_RetainProviderMarkdown profile
  else ep_RetainTypedArtifacts profile.

Definition deterministic_ok (policy : list capturedArtifactRoleV1) (role : string) (count : Z) : bool :=
  negb ((count <? cr_MinCount (cardinality policy role)) || (cr_MaxCount (cardinality policy role) <? count))%Z.

Definition validateCapturedArtifactPolicyForProfile (policy : list capturedArtifactRoleV1)
    (profile : executable_profile) : rres () :=
  let sanitizedMarkdownCount := if ep_RetainSanitizedMarkdown profile then 1%Z else 0%Z in
  _ ← check (deterministic_ok policy catalogArtifactNormalizedEvidence 1) ErrRenditionOther;
  _ ← check (deterministic_ok policy catalogArtifactSanitizedMarkdown sanitizedMarkdownCount) ErrRenditionOther;
  _ ← check (forallb (λ r, String.eqb (cr_Role r) catalogArtifactNormalizedEvidence
                           || String.eqb (cr_Role r) catalogArtifactSanitizedMarkdown
                           || negb ((0 <? cr_MaxCount r)%Z && negb (renditionProfileRetainsArtifact profile (cr_Role r))))
                     policy) ErrRenditionOther;
  check (forallb (λ role, negb (renditionProfileRetainsArtifact profile role
                                && (cr_MaxCount (cardinality policy role) =? 0)%Z)) (ep_RequestedArtifacts profile))
    ErrRenditionOther.

(** What the document package provides: an execution identity and a sealed
    snapshot of one, their canonical JSON, the digest of the identity, and the
    profile behind its canonical JSON. *)
Class RenditionContracts := {
  execution_identity : Type;
  execution_snapshot : Type;
  ex_UploadSHA256 : execution_identity → string;
  ex_SourceSHA256 : execution_identity → string;
  CanonicalRenditionExecutionIdentityV1 : execution_identity → option (string * string);
  ParseRenditionExecutionIdentityV1 : string → option execution_identity;
  CanonicalRenditionExecutionSnapshotV1 : execution_snapshot → option string;
  ParseRenditionExecutionSnapshotV1 : string → option execution_snapshot;
  snapshot_identity : execution_snapshot → execution_identity;
  decode_profile : string → option executable_profile;
  ValidateRenditionExecutionProfileV1 : execution_identity → string → bool;
  normalizeProcessingProfileRecord : ProcessingProfileRecord → option ProcessingProfileRecord;
}.

(** ** Digests *)

Definition zero_byte : string := String "000"%char EmptyString.

Section digests.
Context `{Sha256}.

Definition digestCatalogJSON (value : string) : string := sha256Hex value.

Definition renditionSharedBuildID (vaultID source rendition evidence capturedPolicy : string) : string :=
  sha256Hex ("docbank:rendition-build:v3" +:+ zero_byte +:+ vaultID +:+ zero_byte +:+ source +:+ zero_byte
    +:+ rendition +:+ zero_byte +:+ evidence +:+ zero_byte +:+ capturedPolicy).

Definition renditionScopedID (kind : string) (parts : list string) : string :=
  sha256Hex (foldl (λ s part, s +:+ zero_byte +:+ part) ("docbank:rendition-" +:+ kind +:+ ":v1") parts).

(** ** Purge suppressions *)

Definition derivativeBuildSuppressionProfile : string :=
  "82ec12973fbb63f07fc8996d46be5bb922672fa7d3cc26fa2735b3a1fd3389ef".
Definition derivativeAttachmentSuppressionScope (contentVersionID profileFingerprint : string) : string :=
  sha256Hex ("docbank:derivative-attachment-suppression:v1" +:+ zero_byte +:+ contentVersionID +:+ zero_byte
    +:+ profileFingerprint).

(** [active] rows of [derivative_purge_suppressions]: source, profile or scope, build. *)
Notation suppressions := (gset (string * string * string)).

Definition derivativeBuildSuppressedTx (active : suppressions) (sourceSHA256 buildID : string) : bool :=
  bool_decide ((sourceSHA256, derivativeBuildSuppressionProfile, buildID) ∈ active).

Definition derivativeAttachmentSuppressedTx (active : suppressions)
    (sourceSHA256 contentVersionID profileFingerprint buildID : string) : bool :=
  bool_decide ((sourceSHA256, derivativeAttachmentSuppressionScope contentVersionID profileFingerprint, buildID) ∈ active)
  || bool_decide ((sourceSHA256, derivativeBuildSuppressionProfile, buildID) ∈ active).
End digests.

(** * Current rendition roots (internal/store/gc.go *)

Inductive CurrentRenditionRootKind :=
  | RenditionRootAttachment | RenditionRootHead | RenditionRootRetention | RenditionRootAudit
  | RenditionRootJob | RenditionRootReaderLease | RenditionRootWorkerLease | RenditionRootBackupPin.
Inductive CurrentRenditionTargetKind :=
  | RenditionRootBuild | RenditionRootLexicalGeneration | RenditionRootEmbeddingSet
  | RenditionRootEmbeddingGeneration | RenditionRootEmbeddingVectorSet | RenditionRootEmbeddingPayload.
#[export] Instance CurrentRenditionRootKind_eq_dec : EqDecision CurrentRenditionRootKind.
Proof. solve_decision. Defined.
#[export] Instance CurrentRenditionTargetKind_eq_dec : EqDecision CurrentRenditionTargetKind.
Proof. solve_decision. Defined.

(** Instants are in nanoseconds; an absent expiry is the empty string. *)
Record CurrentRenditionRoot := mkRoot {
  rt_ID : string; rt_Kind : CurrentRenditionRootKind; rt_TargetKind : CurrentRenditionTargetKind;
  rt_TargetID : string; rt_FencingToken : Z; rt_RecordedAt : Z; rt_ExpiresAt : option Z;
}.
#[export] Instance CurrentRenditionRoot_eq_dec : EqDecision CurrentRenditionRoot.
Proof. solve_decision. Defined.

(** A row is active exactly when it has not been released. *)
Record root_row := mkRootRow { rr_root : CurrentRenditionRoot; rr_active : bool }.
Notation root_table := (gmap string root_row).

Definition maxCatalogIdentifierBytes : nat := 1024.

Definition is_lease (kind : CurrentRenditionRootKind) : bool :=
  match kind with RenditionRootReaderLease | RenditionRootWorkerLease => true | _ => false end.

Definition validateCurrentRenditionRoot (root : CurrentRenditionRoot) : rres () :=
  _ ← check (negb (String.eqb (rt_ID root) "" || (maxCatalogIdentifierBytes <? slen (rt_ID root))%nat
                   || String.eqb (rt_TargetID root) "" || (maxCatalogIdentifierBytes <? slen (rt_TargetID root))%nat
                   || (rt_FencingToken root <=? 0)%Z)) ErrRenditionOther;
  _ ← check (Bool.eqb (is_lease (rt_Kind root)) (bool_decide (is_Some (rt_ExpiresAt root)))) ErrRenditionOther;
  check (negb (bool_decide (rt_Kind root = RenditionRootJob)
               && negb (bool_decide (rt_TargetKind root ∈ [RenditionRootBuild; RenditionRootLexicalGeneration]))))
    ErrRenditionOther.

(** [present] answers the query of [requireCurrentRenditionTargetTx]. *)
Definition putCurrentRenditionRootTx (present : CurrentRenditionTargetKind → string → bool)
    (roots : root_table) (root : CurrentRenditionRoot) : rres root_table :=
  match roots !! rt_ID root with
  | Some (mkRootRow stored storedActive) =>
      _ ← check (negb (rt_FencingToken root <? rt_FencingToken stored)%Z) ErrCurrentRenditionRootFenced;
      if (rt_FencingToken root =? rt_FencingToken stored)%Z then
        _ ← check storedActive ErrCurrentRenditionRootFenced;
        _ ← check (bool_decide (root = stored)) ErrCurrentRenditionRootFenced;
        Ok roots
      else
        _ ← check (present (rt_TargetKind root) (rt_TargetID root)) ErrRenditionNotFound;
        Ok (<[rt_ID root := mkRootRow root true]> roots)
  | None =>
      _ ← check (present (rt_TargetKind root) (rt_TargetID root)) ErrRenditionNotFound;
      _ ← check (0 <? rt_FencingToken root)%Z ErrRenditionOther;
      Ok (<[rt_ID root := mkRootRow root true]> roots)
  end.

Definition PutCurrentRenditionRoot (present : CurrentRenditionTargetKind → string → bool)
    (roots : root_table) (root : CurrentRenditionRoot) : rres root_table :=
  _ ← validateCurrentRenditionRoot root; putCurrentRenditionRootTx present roots root.

(** [UPDATE current_rendition_roots SET active=0 WHERE root_id=? AND
    fencing_token=? AND active=1] *)
Definition release_root (roots : root_table) (id : string) (token : Z) : root_table :=
  match roots !! id with
  | Some (mkRootRow stored true) =>
      if (rt_FencingToken stored =? token)%Z then <[id := mkRootRow stored false]> roots else roots
  | _ => roots
  end.

Definition ReleaseCurrentRenditionRoot (roots : root_table) (rootID : string) (fencingToken : Z) :
    rres (root_table * bool) :=
  _ ← check (negb (String.eqb rootID "" || (maxCatalogIdentifierBytes <? slen rootID)%nat || (fencingToken <=? 0)%Z))
    ErrRenditionOther;
  let roots' := release_root roots rootID fencingToken in
  Ok (roots', match roots !! rootID with
              | Some (mkRootRow stored true) => (rt_FencingToken stored =? fencingToken)%Z
              | _ => false
              end).

(** ** Job roots *)

Definition renditionJobRootID (kind jobID : string) : string := "rendition_job_" +:+ kind +:+ "_" +:+ jobID.

Definition build_root (jobID target : string) (token at_ : Z) : CurrentRenditionRoot :=
  mkRoot (renditionJobRootID "build" jobID) RenditionRootJob RenditionRootBuild target token at_ None.
Definition generation_root (jobID target : string) (token at_ : Z) : CurrentRenditionRoot :=
  mkRoot (renditionJobRootID "generation" jobID) RenditionRootJob RenditionRootLexicalGeneration target token at_ None.

Definition same_authority (root stored : CurrentRenditionRoot) : bool :=
  (rt_FencingToken stored =? rt_FencingToken root)%Z && bool_decide (rt_Kind stored = rt_Kind root)
  && bool_decide (rt_TargetKind stored = rt_TargetKind root) && String.eqb (rt_TargetID stored) (rt_TargetID root).

Definition putRenditionJobRootTx (present : CurrentRenditionTargetKind → string → bool)
    (roots : root_table) (root : CurrentRenditionRoot) : rres root_table :=
  match roots !! rt_ID root with
  | Some (mkRootRow stored active) =>
      if active && same_authority root stored then Ok roots else putCurrentRenditionRootTx present roots root
  | None => putCurrentRenditionRootTx present roots root
  end.

Definition refreshRenditionJobRootsTx (present : CurrentRenditionTargetKind → string → bool)
    (roots : root_table) (jobID : string) (phase : RenditionJobPhase) (generationID : option string)
    (epoch at_ : Z) : rres root_table :=
  match phase with
  | RenditionPhaseBuildStaged => putCurrentRenditionRootTx present roots (build_root jobID jobID epoch at_)
  | RenditionPhaseGenerationStaged =>
      roots ← putCurrentRenditionRootTx present roots (build_root jobID jobID epoch at_);
      generation ← from_lookup generationID ErrRenditionOther;
      putCurrentRenditionRootTx present roots (generation_root jobID generation epoch at_)
  | _ => Ok roots
  end.

Definition release_job_roots (roots : root_table) (jobID : string) (epoch : Z) : root_table :=
  release_root (release_root roots (renditionJobRootID "build" jobID) epoch) (renditionJobRootID "generation" jobID) epoch.

(** [COALESCE((SELECT MAX(fencing_token) … WHERE root_id IN (?,?)),0)] *)
Definition root_token (roots : root_table) (id : string) : Z :=
  match roots !! id with Some row => rt_FencingToken (rr_root row) | None => 0 end.
Definition job_root_token (roots : root_table) (jobID : string) : Z :=
  Z.max (root_token roots (renditionJobRootID "build" jobID)) (root_token roots (renditionJobRootID "generation" jobID)).
