(* ===== verification/RenditionRows.v ===== *)
(** * Rendition job rows

    The tables of the rendition queue (schema.sql) and the [SET] clause of
    every statement that changes a job (rendition_jobs.go), as functions on
    rows.  Owner and expiry of a lease are written and cleared together, and
    so are the three columns of an authorization.  Instants are nanoseconds;
    an epoch is incremented by ones and stays far below 2^63. *)
From S2P Require Import Prelude GoText SearchText AuditEncoding Identity Chunking Consent Rendition.

(** ** Rows *)

(** The columns that no statement changes. *)
Record job_identity := mkJobIdentity {
  ji_vault : string; ji_source : string; ji_rendition : string; ji_evidence : string; ji_policy : string;
  ji_execution : string; ji_execution_json : string; ji_captured : list capturedArtifactRoleV1; ji_created : Z;
}.
(** [j_claim] is owner and lease expiry; [j_authorization] grant, incarnation
    and revocation fence. *)
Record job_row := mkJob {
  j_identity : job_identity; j_snapshot : option string; j_state : RenditionJobState; j_phase : RenditionJobPhase;
  j_claim : option (string * Z); j_epoch : Z; j_available : Z; j_started : bool; j_attempts : Z;
  j_handle : option string; j_selected : option string; j_authorization : option (string * string * Z);
  j_generation : option string; j_failure : option RenditionFailureCode; j_updated : Z;
}.
#[export] Instance job_identity_eq_dec : EqDecision job_identity.
Proof. solve_decision. Defined.

Definition set_snapshot (v : option string) (j : job_row) : job_row :=
  mkJob (j_identity j) v (j_state j) (j_phase j) (j_claim j) (j_epoch j) (j_available j) (j_started j)
    (j_attempts j) (j_handle j) (j_selected j) (j_authorization j) (j_generation j) (j_failure j)
    (j_updated j).
Definition set_state (v : RenditionJobState) (j : job_row) : job_row :=
  mkJob (j_identity j) (j_snapshot j) v (j_phase j) (j_claim j) (j_epoch j) (j_available j) (j_started j)
    (j_attempts j) (j_handle j) (j_selected j) (j_authorization j) (j_generation j) (j_failure j)
    (j_updated j).
Definition set_phase (v : RenditionJobPhase) (j : job_row) : job_row :=
  mkJob (j_identity j) (j_snapshot j) (j_state j) v (j_claim j) (j_epoch j) (j_available j) (j_started j)
    (j_attempts j) (j_handle j) (j_selected j) (j_authorization j) (j_generation j) (j_failure j)
    (j_updated j).
Definition set_claim (v : option (string * Z)) (j : job_row) : job_row :=
  mkJob (j_identity j) (j_snapshot j) (j_state j) (j_phase j) v (j_epoch j) (j_available j) (j_started j)
    (j_attempts j) (j_handle j) (j_selected j) (j_authorization j) (j_generation j) (j_failure j)
    (j_updated j).
Definition set_epoch (v : Z) (j : job_row) : job_row :=
  mkJob (j_identity j) (j_snapshot j) (j_state j) (j_phase j) (j_claim j) v (j_available j) (j_started j)
    (j_attempts j) (j_handle j) (j_selected j) (j_authorization j) (j_generation j) (j_failure j)
    (j_updated j).
Definition set_available (v : Z) (j : job_row) : job_row :=
  mkJob (j_identity j) (j_snapshot j) (j_state j) (j_phase j) (j_claim j) (j_epoch j) v (j_started j)
    (j_attempts j) (j_handle j) (j_selected j) (j_authorization j) (j_generation j) (j_failure j)
    (j_updated j).
Definition set_started (v : bool) (j : job_row) : job_row :=
  mkJob (j_identity j) (j_snapshot j) (j_state j) (j_phase j) (j_claim j) (j_epoch j) (j_available j) v
    (j_attempts j) (j_handle j) (j_selected j) (j_authorization j) (j_generation j) (j_failure j)
    (j_updated j).
Definition set_attempts (v : Z) (j : job_row) : job_row :=
  mkJob (j_identity j) (j_snapshot j) (j_state j) (j_phase j) (j_claim j) (j_epoch j) (j_available j)
    (j_started j) v (j_handle j) (j_selected j) (j_authorization j) (j_generation j) (j_failure j)
    (j_updated j).
Definition set_handle (v : option string) (j : job_row) : job_row :=
  mkJob (j_identity j) (j_snapshot j) (j_state j) (j_phase j) (j_claim j) (j_epoch j) (j_available j)
    (j_started j) (j_attempts j) v (j_selected j) (j_authorization j) (j_generation j) (j_failure j)
    (j_updated j).
Definition set_selected (v : option string) (j : job_row) : job_row :=
  mkJob (j_identity j) (j_snapshot j) (j_state j) (j_phase j) (j_claim j) (j_epoch j) (j_available j)
    (j_started j) (j_attempts j) (j_handle j) v (j_authorization j) (j_generation j) (j_failure j)
    (j_updated j).
Definition set_authorization (v : option (string * string * Z)) (j : job_row) : job_row :=
  mkJob (j_identity j) (j_snapshot j) (j_state j) (j_phase j) (j_claim j) (j_epoch j) (j_available j)
    (j_started j) (j_attempts j) (j_handle j) (j_selected j) v (j_generation j) (j_failure j) (j_updated j).
Definition set_generation (v : option string) (j : job_row) : job_row :=
  mkJob (j_identity j) (j_snapshot j) (j_state j) (j_phase j) (j_claim j) (j_epoch j) (j_available j)
    (j_started j) (j_attempts j) (j_handle j) (j_selected j) (j_authorization j) v (j_failure j)
    (j_updated j).
Definition set_failure (v : option RenditionFailureCode) (j : job_row) : job_row :=
  mkJob (j_identity j) (j_snapshot j) (j_state j) (j_phase j) (j_claim j) (j_epoch j) (j_available j)
    (j_started j) (j_attempts j) (j_handle j) (j_selected j) (j_authorization j) (j_generation j) v
    (j_updated j).
Definition set_updated (v : Z) (j : job_row) : job_row :=
  mkJob (j_identity j) (j_snapshot j) (j_state j) (j_phase j) (j_claim j) (j_epoch j) (j_available j)
    (j_started j) (j_attempts j) (j_handle j) (j_selected j) (j_authorization j) (j_generation j)
    (j_failure j) v.

Record waiter_row := mkWaiter {
  w_job : string; w_version : string; w_profile : string; w_principal : string; w_scope : string;
  w_disclosure : string; w_inputs : list string; w_retained : list string; w_state : waiter_state;
  w_attachment : string; w_created : Z; w_updated : Z;
}.
Definition set_waiter_state (v : waiter_state) (at_ : Z) (w : waiter_row) : waiter_row :=
  mkWaiter (w_job w) (w_version w) (w_profile w) (w_principal w) (w_scope w) (w_disclosure w) (w_inputs w)
    (w_retained w) v (w_attachment w) (w_created w) at_.

(** ** Statements *)

Notation "j '▷' f" := (f j) (at level 63, left associativity, only parsing).

Definition new_job (identity : job_identity) (now : Z) : job_row :=
  mkJob identity None RenditionJobQueued RenditionPhaseQueued None 0 now false 0 None None None None None now.

Definition clear_authority (j : job_row) : job_row := j ▷ set_selected None ▷ set_authorization None.

(** Enqueue: a safe authority failure is reopened. *)
Definition reopens_safe (j : job_row) : bool :=
  bool_decide (j_state j = RenditionJobFailed)
  && bool_decide (j_phase j ∈ [RenditionPhaseQueued; RenditionPhaseBuildStaged; RenditionPhaseGenerationStaged])
  && bool_decide (j_failure j ∈ [Some RenditionFailureConsent; Some RenditionFailureStaleAuthority]).
Definition reopen_safe (now : Z) (j : job_row) : job_row :=
  if reopens_safe j then
    j ▷ set_state RenditionJobQueued ▷ set_claim None ▷ set_available now ▷ set_started false ▷ set_handle None
      ▷ clear_authority ▷ set_failure None ▷ set_updated now
  else j.
Definition reopens_resume (j : job_row) : bool :=
  bool_decide (j_state j = RenditionJobFailed) && bool_decide (j_phase j = RenditionPhaseProvider)
  && bool_decide (is_Some (j_handle j)) && bool_decide (is_Some (j_snapshot j))
  && bool_decide (j_failure j ∈ [Some RenditionFailureConsent; Some RenditionFailureStaleAuthority]).
Definition reopen_resume (now : Z) (j : job_row) : job_row :=
  if reopens_resume j then
    j ▷ set_state RenditionJobQueued ▷ set_claim None ▷ set_available now ▷ clear_authority ▷ set_failure None
      ▷ set_updated now
  else j.
(** Enqueue: an existing build is reused, or the job of a collected one restarted. *)
Definition requeued (phase : RenditionJobPhase) (now : Z) (j : job_row) : job_row :=
  j ▷ set_state RenditionJobQueued ▷ set_phase phase ▷ set_claim None ▷ set_epoch (j_epoch j + 1) ▷ set_available now
    ▷ set_started false ▷ set_handle None ▷ clear_authority ▷ set_generation None ▷ set_failure None ▷ set_updated now.
Definition reusable (j : job_row) : bool := bool_decide (j_state j ∈ [RenditionJobQueued; RenditionJobCompleted]).
Definition restart_collected (now : Z) (j : job_row) : job_row :=
  if bool_decide (j_state j = RenditionJobCompleted) then requeued RenditionPhaseQueued now j else j.

(** Claim: quarantine of an ambiguous call, and the new lease. *)
Definition quarantine_row (at_ : Z) (j : job_row) : job_row :=
  j ▷ set_state RenditionJobOperatorRequired ▷ set_claim None ▷ set_failure (Some RenditionFailureAmbiguous)
    ▷ set_updated at_.
Definition claim_row (owner : string) (expires at_ : Z) (j : job_row) : job_row :=
  j ▷ set_state RenditionJobRunning ▷ set_claim (Some (owner, expires)) ▷ set_epoch (j_epoch j + 1) ▷ set_failure None
    ▷ set_updated at_.
Definition renew_row (owner : string) (expires at_ : Z) (j : job_row) : job_row :=
  j ▷ set_claim (Some (owner, expires)) ▷ set_updated at_.

Definition sealed (a : ProviderOperationAuthorization) : string * string * Z :=
  (GrantID a, ProcessingIncarnationID a, RevocationFence a).
Definition select_row (waiterID : string) (a : ProviderOperationAuthorization) (at_ : Z) (j : job_row) : job_row :=
  j ▷ set_selected (Some waiterID) ▷ set_authorization (Some (sealed a)) ▷ set_updated at_.
(** Provider start: the waiter was reselected, or the call may go out. *)
Definition reselect_row (waiterID : string) (a : ProviderOperationAuthorization) (at_ : Z) (j : job_row) : job_row :=
  j ▷ set_state RenditionJobQueued ▷ set_claim None ▷ set_epoch (j_epoch j + 1) ▷ set_available at_
    ▷ set_selected (Some waiterID) ▷ set_authorization (Some (sealed a)) ▷ set_failure None ▷ set_updated at_.
Definition begin_row (snapshot : option string) (waiterID : string) (a : ProviderOperationAuthorization) (at_ : Z)
    (j : job_row) : job_row :=
  j ▷ set_phase RenditionPhaseProvider ▷ set_started true
    ▷ set_attempts (j_attempts j + (if bool_decide (is_Some snapshot) then 1 else 0))
    ▷ set_snapshot (match j_snapshot j with Some s => Some s | None => snapshot end) ▷ select_row waiterID a at_.
Definition checkpoint_row (handle : string) (at_ : Z) (j : job_row) : job_row :=
  j ▷ set_handle (Some handle) ▷ set_updated at_.

(** Retry: [abandoned] is [phase='provider' AND provider_resume_handle IS NULL]. *)
Definition abandoned (j : job_row) : bool :=
  bool_decide (j_phase j = RenditionPhaseProvider) && bool_decide (j_handle j = None).
Definition keeps_started (j : job_row) : bool :=
  bool_decide (j_phase j ∈ [RenditionPhaseBuildStaged; RenditionPhaseGenerationStaged])
  || bool_decide (j_phase j = RenditionPhaseProvider) && bool_decide (is_Some (j_handle j)).
Definition retry_row (availableAt at_ : Z) (j : job_row) : job_row :=
  let kept := if abandoned j then j ▷ set_phase RenditionPhaseQueued ▷ set_snapshot None ▷ clear_authority else j in
  kept ▷ set_state RenditionJobRetryWait ▷ set_claim None ▷ set_available availableAt
    ▷ set_started (if keeps_started j then j_started j else false)
    ▷ set_failure (Some RenditionFailureTransient) ▷ set_updated at_.

(** Terminal states. *)
Definition finish_row (state : RenditionJobState) (code : RenditionFailureCode) (at_ : Z) (j : job_row) : job_row :=
  j ▷ set_state state ▷ set_claim None ▷ set_failure (Some code) ▷ set_updated at_.
Definition orphan_row (at_ : Z) (j : job_row) : job_row :=
  j ▷ set_phase RenditionPhaseQueued ▷ set_started false ▷ set_handle None ▷ set_snapshot None ▷ clear_authority
    ▷ set_generation None ▷ set_updated at_.
Definition build_staged_row (at_ : Z) (j : job_row) : job_row :=
  j ▷ set_phase RenditionPhaseBuildStaged ▷ set_updated at_.
Definition generation_staged_row (generation : string) (at_ : Z) (j : job_row) : job_row :=
  j ▷ set_phase RenditionPhaseGenerationStaged ▷ set_generation (Some generation) ▷ set_updated at_.
Definition complete_row (at_ : Z) (j : job_row) : job_row :=
  j ▷ set_state RenditionJobCompleted ▷ set_phase RenditionPhasePublished ▷ set_claim None ▷ clear_authority
    ▷ set_failure None ▷ set_updated at_.

(** ** Deletion of waiters (rendition_delete.go) *)

(** The selected waiter is gone: a finished job loses its authority. *)
Definition clear_deleted_row (at_ : Z) (j : job_row) : job_row := j ▷ clear_authority ▷ set_updated at_.
(** A provider call that nobody may take the result of. *)
Definition lost_call_row (at_ : Z) (j : job_row) : job_row :=
  j ▷ set_state RenditionJobOperatorRequired ▷ set_claim None ▷ clear_authority
    ▷ set_failure (Some RenditionFailureAmbiguous) ▷ set_updated at_.
Definition provider_called (j : job_row) : bool := bool_decide (j_phase j = RenditionPhaseProvider) && j_started j.
(** No waiter waits: the [CASE]s of one statement. *)
Definition orphaned_row (at_ : Z) (j : job_row) : job_row :=
  if provider_called j then lost_call_row at_ j
  else j ▷ set_state RenditionJobFailed ▷ set_phase RenditionPhaseQueued ▷ set_claim None ▷ clear_authority
         ▷ set_started false ▷ set_handle None ▷ set_snapshot None ▷ set_generation None
         ▷ set_failure (Some RenditionFailureStaleAuthority) ▷ set_updated at_.
(** Others wait: the job is queued again where it stands. *)
Definition requeue_remaining_row (at_ : Z) (j : job_row) : job_row :=
  j ▷ set_state RenditionJobQueued ▷ set_claim None ▷ set_epoch (j_epoch j + 1) ▷ set_available at_ ▷ clear_authority
    ▷ set_failure None ▷ set_updated at_.
(** A failed job that an enqueue could not reopen. *)
Definition closed_failure (j : job_row) : bool :=
  let safeFailure := bool_decide (j_failure j ∈ [Some RenditionFailureConsent; Some RenditionFailureStaleAuthority]) in
  let safePhase := bool_decide (j_phase j ∈ [RenditionPhaseQueued; RenditionPhaseBuildStaged; RenditionPhaseGenerationStaged])
    || bool_decide (j_phase j = RenditionPhaseProvider)
       && (bool_decide (is_Some (j_handle j)) && bool_decide (is_Some (j_snapshot j))) in
  bool_decide (j_state j = RenditionJobFailed) && (negb safeFailure || negb safePhase).

(** ** The stored form *)

(** The conditions of [validateMetadataRenditionJob] (processing_metadata.go)
    on the state of an exported job.  Its checks of digests, UUIDs and
    timestamps are about the text of the columns and are left out. *)
Definition validateMetadataRenditionJob (j : job_row) : bool :=
  let has {A} (o : option A) := match o with Some _ => true | None => false end in
  let is_state s := bool_decide (j_state j = s) in
  let is_phase p := bool_decide (j_phase j = p) in
  negb ((j_epoch j <? 0)%Z || (j_attempts j <? 0)%Z)
  && negb (j_started j && negb (has (j_snapshot j)) || has (j_handle j) && negb (has (j_snapshot j))
           || negb (Bool.eqb (is_state RenditionJobRunning) (has (j_claim j))))
  && match j_claim j with Some (owner, _) => validRenditionWorkerOwner owner | None => true end
  && match j_handle j with Some handle => validRenditionResumeHandle handle | None => true end
  && match j_authorization j with Some (_, _, fence) => negb (fence <? 0)%Z | None => true end
  && validRenditionJobStatePhase (j_state j) (j_phase j)
  && negb (is_state RenditionJobOperatorRequired
           && negb (bool_decide (j_failure j = Some RenditionFailureAmbiguous)))
  && negb (is_phase RenditionPhaseProvider && negb (has (j_handle j))
           && (is_state RenditionJobQueued || is_state RenditionJobRetryWait
               || is_state RenditionJobRunning && negb (j_started j)))
  && negb (is_phase RenditionPhaseQueued && (j_started j || has (j_snapshot j) || has (j_handle j))
           || is_phase RenditionPhaseProvider && (negb (j_started j) || negb (has (j_snapshot j)))).
