(* ===== verification/RenditionJobs.v ===== *)
(** * The rendition job queue (internal/store/rendition_jobs.go)

    Every command of the queue as one transaction over its tables.  A
    transaction that fails is rolled back; one that commits may still report
    an error to its caller (a quarantined job, a reselected waiter), so a body
    returns the committed tables with the answer.  [RenditionCatalog] is what
    the queue asks of the rendition catalog and the lexical index
    (processing_catalog.go, search.go); clocks are arguments. *)
From stdpp Require Import sorting.
From S2P Require Import Prelude GoText SearchText AuditEncoding Identity Sha256 ModelInput Chunking JsonText Consent Rendition RenditionRows.

(** ** The catalog interface *)

Record build_identity := mkBuildIdentity {
  bi_vault : string; bi_source : string; bi_rendition : string; bi_evidence : string; bi_policy : string;
}.
(** One attachment with its head. *)
Record renditionPublicationPair := mkPair {
  pb_attachment : string; pb_version : string; pb_build : string; pb_profile : ProcessingProfileRecord; pb_at : Z;
}.
Definition head_key (p : renditionPublicationPair) : string * string := (pb_version p, pp_Fingerprint (pb_profile p)).

(** What a publication reads beside the catalog: the vault, the blob of each
    content version, the stored profiles, the active purge suppressions, and the
    lexical generations that a root, a job or a reader still holds. *)
Record publication_env := mkEnv {
  pe_vault : string; pe_versions : gmap string string; pe_profiles : gmap string ProcessingProfileRecord;
  pe_suppressed : gset (string * string * string); pe_held : string → bool;
}.

Class RenditionCatalog := {
  catalog : Type;
  build_record : Type;
  normalizeRenditionBuildRecord : build_record → option build_record;
  br_ID : build_record → string;
  br_identity : build_record → build_identity;
  (** [ErrRenditionNotFound] when there is no such build. *)
  loadRenditionBuild : catalog → string → rres build_identity;
  target_present : catalog → CurrentRenditionTargetKind → string → bool;
  rendition_heads : catalog → gmap (string * string) string;
  attachment_build : catalog → string → option string;
  (** [stageRenditionBuildTx] after its suppression check. *)
  insert_build : catalog → build_record → rres catalog;
  stageLexicalGenerationTx : catalog → string → rres (catalog * string);
  publishRenditionAttachmentsAndLexicalHeadsTx :
    catalog → publication_env → list renditionPublicationPair → string → rres catalog;
  (** Heads, attachments and embeddings of deleted content versions go. *)
  delete_version_authority : catalog → list string → catalog;
}.

Definition keeps `{RenditionCatalog} (c c' : catalog) : Prop :=
  ∀ kind id, target_present c kind id = true → target_present c' kind id = true.
(** What the queue relies on. *)
Class RenditionCatalogLaws `{RenditionCatalog} := {
  load_present c id b : loadRenditionBuild c id = Ok b → target_present c RenditionRootBuild id = true;
  insert_build_Ok c b c' : insert_build c b = Ok c' →
    keeps c c' ∧ target_present c' RenditionRootBuild (br_ID b) = true;
  stage_generation_Ok c g c' g' : stageLexicalGenerationTx c g = Ok (c', g') →
    g' = g ∧ keeps c c' ∧ target_present c' RenditionRootLexicalGeneration g' = true;
  (** Superseded generations that nothing holds are collected. *)
  publish_Ok c env pairs g c' : publishRenditionAttachmentsAndLexicalHeadsTx c env pairs g = Ok c' →
    (∀ kind id, (kind = RenditionRootLexicalGeneration → pe_held env id = true) →
      target_present c kind id = true → target_present c' kind id = true) ∧
    rendition_heads c' = foldl (λ h p, <[head_key p := pb_attachment p]> h) (rendition_heads c) pairs;
  delete_keeps c versions : keeps c (delete_version_authority c versions);
}.

(** ** Values *)

Record RenditionJob := mkJobView {
  rj_ID : string; rj_SourceSHA256 : string; rj_RenditionRequestFingerprint : string;
  rj_EvidenceLexicalFingerprint : string; rj_CapturedArtifactPolicyFingerprint : string;
  rj_ExecutionIdentityFingerprint : string; rj_State : RenditionJobState; rj_Phase : RenditionJobPhase;
  rj_ClaimEpoch : Z; rj_ProviderAttempts : Z; rj_FailureCode : option RenditionFailureCode;
  rj_WaiterCount : nat; rj_PublishedWaiterCount : nat;
}.
Record RenditionJobWaiter := mkWaiterView {
  rw_ID : string; rw_JobID : string; rw_ContentVersionID : string; rw_ProfileFingerprint : string;
  rw_AttachmentID : string; rw_State : waiter_state;
}.
(** The empty handle is no handle. *)
Record RenditionJobClaim := mkClaim {
  cl_JobID : string; cl_Owner : string; cl_Epoch : Z; cl_ProviderAttempts : Z; cl_LeaseExpires : Z;
  cl_Phase : RenditionJobPhase; cl_ResumeHandle : string;
}.
Record RenditionJobPublication := mkPublication {
  pu_JobID : string; pu_LexicalGenerationID : string; pu_PublishedWaiterCount : nat; pu_RejectedWaiterCount : nat;
}.

Section queue.
Context `{Sha256} `{RenditionContracts} `{RenditionCatalog} (vault : string).

(** The captured policy is its decoded roles and version. *)
Record RenditionJobRequest := mkJobRequest {
  rq_ContentVersionID : string; rq_Profile : ProcessingProfileRecord;
  rq_PolicyVersion : Z; rq_PolicyRoles : list capturedArtifactRoleV1;
  rq_ExecutionIdentity : execution_identity; rq_Authorization : ProviderOperationAuthorizationRequest;
}.
Record RenditionJobWork := mkWork {
  wk_VaultID : string; wk_Job : RenditionJob; wk_Waiter : RenditionJobWaiter; wk_Profile : ProcessingProfileRecord;
  wk_CapturedArtifactPolicy : list capturedArtifactRoleV1; wk_ExecutionIdentity : execution_identity;
  wk_ExecutionSnapshot : option execution_snapshot;
}.

(** [rd_versions] is the blob of each content version. *)
Record rendition_db := mkRdb {
  rd_jobs : gmap string job_row; rd_waiters : gmap string waiter_row; rd_roots : root_table;
  rd_consent : consent_db; rd_profiles : gmap string ProcessingProfileRecord; rd_versions : gmap string string;
  rd_suppressed : gset (string * string * string); rd_catalog : catalog;
}.
Definition with_jobs (d : rendition_db) v : rendition_db :=
  mkRdb v (rd_waiters d) (rd_roots d) (rd_consent d) (rd_profiles d) (rd_versions d) (rd_suppressed d) (rd_catalog d).
Definition with_waiters (d : rendition_db) v : rendition_db :=
  mkRdb (rd_jobs d) v (rd_roots d) (rd_consent d) (rd_profiles d) (rd_versions d) (rd_suppressed d) (rd_catalog d).
Definition with_roots (d : rendition_db) v : rendition_db :=
  mkRdb (rd_jobs d) (rd_waiters d) v (rd_consent d) (rd_profiles d) (rd_versions d) (rd_suppressed d) (rd_catalog d).
Definition with_profiles (d : rendition_db) v : rendition_db :=
  mkRdb (rd_jobs d) (rd_waiters d) (rd_roots d) (rd_consent d) v (rd_versions d) (rd_suppressed d) (rd_catalog d).
Definition with_catalog (d : rendition_db) v : rendition_db :=
  mkRdb (rd_jobs d) (rd_waiters d) (rd_roots d) (rd_consent d) (rd_profiles d) (rd_versions d) (rd_suppressed d) v.

Definition set_job (id : string) (j : job_row) (d : rendition_db) : rendition_db := with_jobs d (<[id := j]> (rd_jobs d)).
Definition mark_waiter (state : waiter_state) (at_ : Z) (d : rendition_db) (id : string) : rendition_db :=
  with_waiters d (alter (set_waiter_state state at_) id (rd_waiters d)).

(** [withStorageTx] *)
Definition run_tx {A} (d : rendition_db) (body : rres (rendition_db * rres A)) : rendition_db * rres A :=
  match body with Ok (d', answer) => (d', answer) | Err e => (d, Err e) end.

(** ** Reading *)

Definition job_waiters (d : rendition_db) (jobID : string) : list (string * waiter_row) :=
  filter (λ p, w_job p.2 = jobID) (map_to_list (rd_waiters d)).

Definition job_view (d : rendition_db) (id : string) (j : job_row) : RenditionJob :=
  mkJobView id (ji_source (j_identity j)) (ji_rendition (j_identity j)) (ji_evidence (j_identity j))
    (ji_policy (j_identity j)) (ji_execution (j_identity j)) (j_state j) (j_phase j) (j_epoch j) (j_attempts j)
    (j_failure j) (length (job_waiters d id))
    (length (filter (λ p, w_state p.2 = WaiterPublished) (job_waiters d id))).
Definition loadRenditionJobTx (d : rendition_db) (id : string) : rres RenditionJob :=
  job_view d id <$> from_lookup (rd_jobs d !! id) ErrRenditionNotFound.
Definition waiter_view (id : string) (w : waiter_row) : RenditionJobWaiter :=
  mkWaiterView id (w_job w) (w_version w) (w_profile w) (w_attachment w) (w_state w).
Definition loadRenditionJobWaiterTx (d : rendition_db) (id : string) : rres RenditionJobWaiter :=
  waiter_view id <$> from_lookup (rd_waiters d !! id) ErrRenditionNotFound.
Definition RenditionJobByID (d : rendition_db) (id : string) : rres RenditionJob :=
  _ ← check (IsSHA256Hex id) ErrRenditionNotFound; loadRenditionJobTx d id.

(** The row that the claim still holds at [at_]. *)
Definition requireRenditionClaimTx (d : rendition_db) (claim : RenditionJobClaim) (at_ : Z) : rres job_row :=
  _ ← check (negb (String.eqb (cl_JobID claim) "" || String.eqb (cl_Owner claim) "" || (cl_Epoch claim <=? 0)%Z))
    ErrRenditionJobFenced;
  j ← from_lookup (rd_jobs d !! cl_JobID claim) ErrRenditionJobFenced;
  '(owner, expiry) ← from_lookup (j_claim j) ErrRenditionJobFenced;
  _ ← check (bool_decide (j_state j = RenditionJobRunning) && String.eqb owner (cl_Owner claim)
             && (j_epoch j =? cl_Epoch claim)%Z && (at_ <? expiry)%Z) ErrRenditionJobFenced;
  Ok j.

(** The authority a waiting waiter asks for, if it still fits the job. *)
Definition renditionWaiterAuthorizationTx (d : rendition_db) (jobID : string) (j : job_row) (waiterID : string) :
    rres ProviderOperationAuthorizationRequest :=
  w ← from_lookup (rd_waiters d !! waiterID) ErrRenditionNotFound;
  _ ← check (String.eqb (w_job w) jobID && bool_decide (w_state w = WaiterWaiting)) ErrRenditionNotFound;
  source ← from_lookup (rd_versions d !! w_version w) ErrRenditionNotFound;
  profile ← from_lookup (rd_profiles d !! w_profile w) ErrRenditionNotFound;
  _ ← check (String.eqb source (ji_source (j_identity j))
             && String.eqb (pp_RenditionRequestFingerprint profile) (ji_rendition (j_identity j))
             && String.eqb (pp_EvidenceLexicalFingerprint profile) (ji_evidence (j_identity j)))
    ErrRenditionJobStaleAuthority;
  _ ← check (validateRenditionWaiterInputClasses (w_inputs w)) ErrRenditionJobStaleAuthority;
  _ ← check (bool_decide (w_retained w = retainedRoles (ji_captured (j_identity j)))) ErrRenditionJobStaleAuthority;
  Ok (mkAuthorizationRequest (w_principal w) (w_scope w) (w_profile w) (w_disclosure w) (w_inputs w) (w_retained w) None).

Definition renditionWaitingIDsTx (d : rendition_db) (jobID : string) : list string :=
  merge_sort String.le (filter (λ p, w_state p.2 = WaiterWaiting) (job_waiters d jobID)).*1.

Definition authorize (d : rendition_db) (request : ProviderOperationAuthorizationRequest) (now : Z) :
    rres ProviderOperationAuthorization :=
  with_consent (authorizeProviderOperationTx (rd_consent d) vault request now).
Definition prior_request (request : ProviderOperationAuthorizationRequest) (authorization : option (string * string * Z)) :
    ProviderOperationAuthorizationRequest :=
  mkAuthorizationRequest (Principal request) (Scope request) (ProfileFingerprint request)
    (DisclosureFingerprint request) (InputClasses request) (RetainedArtifactClasses request)
    ('(grant, incarnation, fence) ← authorization; Some (mkAuthorization grant incarnation fence 0)).

(** ** Waiter selection *)

(** The loop over the waiting waiters: the first that is still authorized; the
    ones before it are rejected. *)
Fixpoint select_from (j : job_row) (jobID : string) (at_ : Z) (sawStale : bool) (ids : list string) (d : rendition_db) :
    rendition_db * rres (string * ProviderOperationAuthorization) :=
  match ids with
  | [] => (d, Err (if sawStale then ErrRenditionJobStaleAuthority else ErrRenditionConsent ErrProcessingConsentRequired))
  | id :: ids =>
      match (request ← renditionWaiterAuthorizationTx d jobID j id; authorize d request at_) with
      | Ok authorization => (d, Ok (id, authorization))
      | Err e =>
          let stale := bool_decide (e = ErrRenditionJobStaleAuthority) in
          if stale || refuses_consent e then
            select_from j jobID at_ (sawStale || stale) ids (mark_waiter WaiterRejected at_ d id)
          else (d, Err e)
      end
  end.
Definition selectRenditionJobWaiterTx (d : rendition_db) (jobID : string) (j : job_row) (at_ : Z) :
    rendition_db * rres (string * ProviderOperationAuthorization) :=
  select_from j jobID at_ false (renditionWaitingIDsTx d jobID) d.

(** ** Enqueue *)

Definition ensureProcessingProfileTx (d : rendition_db) (record : ProcessingProfileRecord) : rres rendition_db :=
  match rd_profiles d !! pp_Fingerprint record with
  | Some stored => _ ← check (bool_decide (stored = record)) ErrRenditionOther; Ok d
  | None => Ok (with_profiles d (<[pp_Fingerprint record := record]> (rd_profiles d)))
  end.

(** What the request has been checked to be before the transaction starts. *)
Record enqueue_input := mkEnqueue {
  eq_profile : ProcessingProfileRecord; eq_policy : list capturedArtifactRoleV1; eq_executionJSON : string;
  eq_executionFingerprint : string; eq_authority : normalizedConsentAuthority;
}.
Definition check_enqueue (request : RenditionJobRequest) : rres enqueue_input :=
  profile ← from_lookup (normalizeProcessingProfileRecord (rq_Profile request)) ErrRenditionOther;
  policy ← normalizeCapturedArtifactPolicyV1 (rq_PolicyVersion request) (rq_PolicyRoles request);
  '(executionJSON, executionFingerprint) ←
    from_lookup (CanonicalRenditionExecutionIdentityV1 (rq_ExecutionIdentity request)) ErrRenditionOther;
  executable ← from_lookup (decode_profile (pp_CanonicalProfile profile)) ErrRenditionOther;
  _ ← check (ValidateRenditionExecutionProfileV1 (rq_ExecutionIdentity request) (pp_CanonicalProfile profile)) ErrRenditionOther;
  _ ← validateCapturedArtifactPolicyForProfile policy executable;
  authority ← with_consent (normalizeConsentAuthority (rq_Authorization request));
  _ ← check (String.eqb (ca_profile authority) (pp_Fingerprint profile)
             && String.eqb (ca_disclosure authority) (pp_RenditionDisclosureFingerprint profile)) ErrRenditionOther;
  _ ← check (validateRenditionWaiterInputClasses (ca_inputs authority)) ErrRenditionOther;
  _ ← check (bool_decide (ca_retained authority = retainedRoles policy)) ErrRenditionOther;
  _ ← check (bool_decide (PriorAuthorization (rq_Authorization request) = None)) ErrRenditionOther;
  _ ← check (is_Ok (validateUUIDv4 (rq_ContentVersionID request))) ErrRenditionNotFound;
  Ok (mkEnqueue profile policy executionJSON executionFingerprint authority).

Definition job_id (source : string) (i : enqueue_input) : string :=
  renditionSharedBuildID vault source (pp_RenditionRequestFingerprint (eq_profile i))
    (pp_EvidenceLexicalFingerprint (eq_profile i)) (digestCatalogJSON (policy_json (eq_policy i))).
Definition job_identity_of (source : string) (i : enqueue_input) (now : Z) : job_identity :=
  mkJobIdentity vault source (pp_RenditionRequestFingerprint (eq_profile i)) (pp_EvidenceLexicalFingerprint (eq_profile i))
    (digestCatalogJSON (policy_json (eq_policy i))) (eq_executionFingerprint i) (eq_executionJSON i) (eq_policy i) now.
(** [INSERT … ON CONFLICT(job_id) DO NOTHING] *)
Definition insert_job (id : string) (identity : job_identity) (now : Z) (d : rendition_db) : rendition_db :=
  match rd_jobs d !! id with Some _ => d | None => set_job id (new_job identity now) d end.

Definition waiter_id (jobID version : string) (i : enqueue_input) : string :=
  renditionScopedID "waiter" [jobID; version; pp_Fingerprint (eq_profile i); ca_principal (eq_authority i);
    ca_scope (eq_authority i); ca_disclosure (eq_authority i); ca_inputsJSON (eq_authority i); ca_retainedJSON (eq_authority i)].
Definition attachment_id (jobID version profile : string) : string := renditionScopedID "attachment" [jobID; version; profile].
Definition join_waiter (id jobID version : string) (i : enqueue_input) (now : Z) (d : rendition_db) : rendition_db :=
  with_waiters d (<[id :=
    match rd_waiters d !! id with
    | Some w => set_waiter_state WaiterWaiting now w
    | None =>
        mkWaiter jobID version (pp_Fingerprint (eq_profile i)) (ca_principal (eq_authority i)) (ca_scope (eq_authority i))
          (ca_disclosure (eq_authority i)) (ca_inputs (eq_authority i)) (ca_retained (eq_authority i)) WaiterWaiting
          (attachment_id jobID version (pp_Fingerprint (eq_profile i))) now now
    end]> (rd_waiters d)).

Definition already_active (d : rendition_db) (jobID version profile attachment : string) : bool :=
  bool_decide (rendition_heads (rd_catalog d) !! (version, profile) = Some attachment)
  && bool_decide (attachment_build (rd_catalog d) attachment = Some jobID).

(** A build that exists is reused under a new epoch; the job of one that has
    been collected starts again. *)
Definition reuse_or_restart (jobID source : string) (i : enqueue_input) (now : Z) (d : rendition_db) : rres rendition_db :=
  j ← from_lookup (rd_jobs d !! jobID) ErrRenditionNotFound;
  match loadRenditionBuild (rd_catalog d) jobID with
  | Ok build =>
      _ ← check (String.eqb (bi_source build) source
                 && String.eqb (bi_rendition build) (pp_RenditionRequestFingerprint (eq_profile i))
                 && String.eqb (bi_evidence build) (pp_EvidenceLexicalFingerprint (eq_profile i))
                 && String.eqb (bi_policy build) (digestCatalogJSON (policy_json (eq_policy i)))) ErrRenditionOther;
      if reusable j then
        let j' := requeued RenditionPhaseBuildStaged now j in
        roots ← putCurrentRenditionRootTx (target_present (rd_catalog d)) (rd_roots d)
                  (build_root jobID jobID (j_epoch j') now);
        Ok (with_roots (set_job jobID j' d) roots)
      else Ok d
  | Err ErrRenditionNotFound => Ok (set_job jobID (restart_collected now j) d)
  | Err e => Err e
  end.

Definition EnqueueRenditionJob (request : RenditionJobRequest) (now : Z) (d : rendition_db) :
    rendition_db * rres (RenditionJob * RenditionJobWaiter) :=
  run_tx d (
    i ← check_enqueue request;
    let version := rq_ContentVersionID request in
    source ← from_lookup (rd_versions d !! version) ErrRenditionNotFound;
    d ← ensureProcessingProfileTx d (eq_profile i);
    let jobID := job_id source i in
    _ ← check (String.eqb (ex_UploadSHA256 (rq_ExecutionIdentity request)) source
               && String.eqb (ex_SourceSHA256 (rq_ExecutionIdentity request)) source) ErrRenditionOther;
    _ ← check (negb (derivativeBuildSuppressedTx (rd_suppressed d) source jobID
                     || derivativeAttachmentSuppressedTx (rd_suppressed d) source version (pp_Fingerprint (eq_profile i)) jobID))
      ErrRenditionJobStaleAuthority;
    _ ← authorize d (rq_Authorization request) now;
    let d := insert_job jobID (job_identity_of source i now) now d in
    j ← from_lookup (rd_jobs d !! jobID) ErrRenditionOther;
    _ ← check (String.eqb (ji_execution (j_identity j)) (eq_executionFingerprint i)) ErrRenditionOther;
    let j := set_epoch (Z.max (j_epoch j) (job_root_token (rd_roots d) jobID)) j in
    let j := reopen_resume now (reopen_safe now j) in
    let d := set_job jobID j d in
    _ ← check (negb (bool_decide (j_state j = RenditionJobOperatorRequired))) ErrRenditionJobOperatorRequired;
    _ ← check (negb (bool_decide (j_state j = RenditionJobFailed))) ErrRenditionJobTerminal;
    let waiterID := waiter_id jobID version i in
    let d := join_waiter waiterID jobID version i now d in
    d ← (if already_active d jobID version (pp_Fingerprint (eq_profile i))
              (attachment_id jobID version (pp_Fingerprint (eq_profile i)))
         then Ok (mark_waiter WaiterPublished now d waiterID)
         else reuse_or_restart jobID source i now d);
    job ← loadRenditionJobTx d jobID;
    waiter ← loadRenditionJobWaiterTx d waiterID;
    Ok (d, Ok (job, waiter))).

(** ** Claims *)

Definition second : Z := 1000000000.
Definition valid_lease (lease : Z) : bool := ((second <=? lease) && (lease <=? 3600 * second))%Z.

(** What a running job's lease says at [at_]: held, or expired with or without
    an ambiguous provider call. *)
Definition expired_ambiguous (j : job_row) (at_ : Z) : rres bool :=
  if bool_decide (j_state j = RenditionJobRunning) then
    '(_, expiry) ← from_lookup (j_claim j) ErrRenditionOther;
    _ ← check (negb (at_ <? expiry)%Z) ErrRenditionJobLeaseHeld;
    Ok (renditionJobProviderBoundaryAmbiguous (j_phase j) (j_started j) (bool_decide (is_Some (j_handle j))))
  else Ok false.

Definition ClaimRenditionJob (jobID owner : string) (at_ lease : Z) (d : rendition_db) :
    rendition_db * rres RenditionJobClaim :=
  run_tx d (
    _ ← check (IsSHA256Hex jobID) ErrRenditionOther;
    _ ← check (validRenditionWorkerOwner owner) ErrRenditionOther;
    _ ← check (valid_lease lease) ErrRenditionOther;
    j ← from_lookup (rd_jobs d !! jobID) ErrRenditionNotFound;
    if bool_decide (j_state j = RenditionJobOperatorRequired) then Ok (d, Err ErrRenditionJobOperatorRequired) else
    _ ← check (negb (bool_decide (j_state j ∈ [RenditionJobCompleted; RenditionJobFailed]))) ErrRenditionJobTerminal;
    ambiguous ← expired_ambiguous j at_;
    if (ambiguous : bool) then Ok (set_job jobID (quarantine_row at_ j) d, Err ErrRenditionJobOperatorRequired) else
    _ ← check (negb (at_ <? j_available j)%Z) ErrRenditionJobLeaseHeld;
    let j' := claim_row owner (at_ + lease) at_ j in
    roots ← refreshRenditionJobRootsTx (target_present (rd_catalog d)) (rd_roots d) jobID (j_phase j) (j_generation j)
              (j_epoch j') at_;
    Ok (with_roots (set_job jobID j' d) roots,
        Ok (mkClaim jobID owner (j_epoch j') (j_attempts j) (at_ + lease) (j_phase j) (default "" (j_handle j))))).

Definition claimable (at_ : Z) (j : job_row) : bool :=
  bool_decide (j_state j ∈ [RenditionJobQueued; RenditionJobRetryWait]) && (j_available j <=? at_)%Z
  || bool_decide (j_state j = RenditionJobRunning)
     && match j_claim j with Some (_, expiry) => (expiry <=? at_)%Z | None => false end.
Definition available_order (p q : string * job_row) : Prop :=
  (j_available p.2 < j_available q.2)%Z ∨ (j_available p.2 = j_available q.2 ∧ String.le p.1 q.1).
#[export] Instance available_order_dec p q : Decision (available_order p q).
Proof. unfold available_order. apply _. Defined.
Definition claim_candidates (at_ : Z) (d : rendition_db) : list string :=
  take 64 (merge_sort available_order (filter (λ p, claimable at_ p.2 = true) (map_to_list (rd_jobs d)))).*1.

(** The loop over the candidates, each claimed in its own transaction. *)
Fixpoint claim_scan (owner : string) (at_ lease : Z) (ids : list string) (d : rendition_db) :
    rendition_db * rres (option RenditionJobClaim) :=
  match ids with
  | [] => (d, Ok None)
  | id :: ids =>
      match ClaimRenditionJob id owner at_ lease d with
      | (d, Ok claim) => (d, Ok (Some claim))
      | (d, Err e) =>
          if bool_decide (e ∈ [ErrRenditionJobLeaseHeld; ErrRenditionJobOperatorRequired; ErrRenditionJobTerminal;
                               ErrRenditionNotFound])
          then claim_scan owner at_ lease ids d else (d, Err e)
      end
  end.
Definition ClaimNextRenditionJob (owner : string) (at_ lease : Z) (d : rendition_db) :
    rendition_db * rres (option RenditionJobClaim) :=
  claim_scan owner at_ lease (claim_candidates at_ d) d.

Definition RenewRenditionJobClaim (claim : RenditionJobClaim) (at_ lease : Z) (d : rendition_db) :
    rendition_db * rres RenditionJobClaim :=
  run_tx d (
    _ ← check (valid_lease lease) ErrRenditionOther;
    j ← requireRenditionClaimTx d claim at_;
    Ok (set_job (cl_JobID claim) (renew_row (cl_Owner claim) (at_ + lease) at_ j) d,
        Ok (mkClaim (cl_JobID claim) (cl_Owner claim) (cl_Epoch claim) (cl_ProviderAttempts claim) (at_ + lease) (j_phase j)
              (cl_ResumeHandle claim)))).

(** ** Work *)

Definition RenditionJobWorkByClaim (claim : RenditionJobClaim) (at_ : Z) (d : rendition_db) :
    rendition_db * rres RenditionJobWork :=
  run_tx d (
    j ← requireRenditionClaimTx d claim at_;
    let id := cl_JobID claim in
    let job := job_view d id j in
    identity ← from_lookup (ParseRenditionExecutionIdentityV1 (ji_execution_json (j_identity j))) ErrRenditionOther;
    snapshot ← (match j_snapshot j with
                | Some text => Some <$> from_lookup (ParseRenditionExecutionSnapshotV1 text) ErrRenditionOther
                | None => Ok None
                end);
    let work d waiterID :=
      (waiter ← loadRenditionJobWaiterTx d waiterID;
       profile ← from_lookup (rd_profiles d !! rw_ProfileFingerprint waiter) ErrRenditionNotFound;
       _ ← renditionWaiterAuthorizationTx d id j waiterID;
       Ok (d, Ok (mkWork vault job waiter profile (ji_captured (j_identity j)) identity snapshot))) in
    match j_selected j with
    | Some waiterID => work d waiterID
    | None =>
        match selectRenditionJobWaiterTx d id j at_ with
        | (d, Ok (waiterID, authorization)) => work (set_job id (select_row waiterID authorization at_ j) d) waiterID
        | (d, Err e) => Ok (d, Err e)
        end
    end).

(** ** The provider boundary *)

(** [UPDATE … SET state='rejected' WHERE waiter_id=? AND job_id=? AND state='waiting'] *)
Definition reject_waiting (waiterID jobID : string) (at_ : Z) (d : rendition_db) : rendition_db :=
  match rd_waiters d !! waiterID with
  | Some w => if String.eqb (w_job w) jobID && bool_decide (w_state w = WaiterWaiting)
              then mark_waiter WaiterRejected at_ d waiterID else d
  | None => d
  end.

Definition sealed_snapshot (snapshot : option execution_snapshot) : rres (option (string * string)) :=
  match snapshot with
  | None => Ok None
  | Some s =>
      text ← from_lookup (CanonicalRenditionExecutionSnapshotV1 s) ErrRenditionOther;
      '(_, fingerprint) ← from_lookup (CanonicalRenditionExecutionIdentityV1 (snapshot_identity s)) ErrRenditionOther;
      Ok (Some (text, fingerprint))
  end.
(** A snapshot must be of this build and the one already sealed; without one
    there must be a sealed call to resume. *)
Definition check_snapshot (j : job_row) (sealing : option (string * string)) : rres () :=
  match sealing with
  | Some (text, fingerprint) =>
      _ ← check (String.eqb fingerprint (ji_execution (j_identity j))) ErrRenditionOther;
      check (bool_decide (j_snapshot j ∈ [None; Some text])) ErrRenditionOther
  | None => check (bool_decide (is_Some (j_snapshot j)) && bool_decide (is_Some (j_handle j))) ErrRenditionOther
  end.

Definition BeginRenditionProvider (claim : RenditionJobClaim) (waiterID : string) (at_ : Z)
    (snapshot : option execution_snapshot) (d : rendition_db) : rendition_db * rres ProviderOperationAuthorization :=
  run_tx d (
    sealing ← sealed_snapshot snapshot;
    j ← requireRenditionClaimTx d claim at_;
    let id := cl_JobID claim in
    let request := renditionWaiterAuthorizationTx d id j waiterID in
    _ ← (match request with
         | Err e => check (bool_decide (e = ErrRenditionJobStaleAuthority)) e
         | Ok _ => Ok ()
         end);
    _ ← check_snapshot j sealing;
    _ ← check (bool_decide (j_selected j ∈ [None; Some waiterID])) ErrRenditionOther;
    match (request ← request; authorize d (prior_request request (j_authorization j)) at_) with
    | Ok authorization =>
        Ok (set_job id (begin_row (fst <$> sealing) waiterID authorization at_ j) d, Ok authorization)
    | Err e =>
        if refuses_consent e || bool_decide (e = ErrRenditionJobStaleAuthority) then
          match selectRenditionJobWaiterTx (reject_waiting waiterID id at_ d) id j at_ with
          | (d, Ok (next, authorization)) =>
              Ok (set_job id (reselect_row next authorization at_ j) d, Err ErrRenditionJobWaiterReselected)
          | (d, Err selectErr) =>
              _ ← check (bool_decide (selectErr ∈ [ErrRenditionConsent ErrProcessingConsentRequired;
                                                   ErrRenditionJobStaleAuthority])) selectErr;
              Ok (d, Err (ErrRenditionJoin e selectErr))
          end
        else Err e
    end).

Definition CheckpointRenditionProvider (claim : RenditionJobClaim) (handle : string) (at_ : Z) (d : rendition_db) :
    rendition_db * rres () :=
  run_tx d (
    _ ← check (validRenditionResumeHandle handle) ErrRenditionOther;
    j ← requireRenditionClaimTx d claim at_;
    _ ← check (bool_decide (j_phase j = RenditionPhaseProvider)) ErrRenditionOther;
    Ok (set_job (cl_JobID claim) (checkpoint_row handle at_ j) d, Ok ())).

(** ** Ends of a claim *)

Definition MarkRenditionJobRetry (claim : RenditionJobClaim) (code : RenditionFailureCode) (at_ availableAt : Z)
    (d : rendition_db) : rendition_db * rres () :=
  run_tx d (
    _ ← check (bool_decide (code = RenditionFailureTransient)) ErrRenditionOther;
    _ ← check (negb (availableAt <? at_)%Z) ErrRenditionOther;
    j ← requireRenditionClaimTx d claim at_;
    Ok (set_job (cl_JobID claim) (retry_row availableAt at_ j) d, Ok ())).

Definition has_waiting (d : rendition_db) (jobID : string) : bool :=
  negb (length (filter (λ p, w_state p.2 = WaiterWaiting) (job_waiters d jobID)) =? 0)%nat.
Definition reopenable_staged (state : RenditionJobState) (code : RenditionFailureCode) (j : job_row) : bool :=
  bool_decide (state = RenditionJobFailed)
  && bool_decide (code ∈ [RenditionFailureConsent; RenditionFailureStaleAuthority])
  && bool_decide (j_phase j ∈ [RenditionPhaseBuildStaged; RenditionPhaseGenerationStaged]).

Definition finishRenditionJobClaim (claim : RenditionJobClaim) (at_ : Z) (state : RenditionJobState)
    (code : RenditionFailureCode) (d : rendition_db) : rendition_db * rres () :=
  run_tx d (
    j ← requireRenditionClaimTx d claim at_;
    let id := cl_JobID claim in
    let reopenableStaged := reopenable_staged state code j in
    let j' := finish_row state code at_ j in
    if reopenableStaged && has_waiting d id then Ok (set_job id j' d, Ok ()) else
    let j' := if reopenableStaged then orphan_row at_ j' else j' in
    Ok (with_roots (set_job id j' d) (release_job_roots (rd_roots d) id (cl_Epoch claim)), Ok ())).

Definition MarkRenditionJobOperatorRequired (claim : RenditionJobClaim) (at_ : Z) (d : rendition_db) : rendition_db * rres () :=
  finishRenditionJobClaim claim at_ RenditionJobOperatorRequired RenditionFailureAmbiguous d.
Definition MarkRenditionJobFailed (claim : RenditionJobClaim) (code : RenditionFailureCode) (at_ : Z) (d : rendition_db) :
    rendition_db * rres () :=
  if bool_decide (code ∈ [RenditionFailureTerminal; RenditionFailureConsent; RenditionFailureStaleAuthority])
  then finishRenditionJobClaim claim at_ RenditionJobFailed code d else (d, Err ErrRenditionOther).

(** ** Staging *)

Definition stageRenditionBuildTx (d : rendition_db) (record : build_record) : rres catalog :=
  _ ← check (negb (derivativeBuildSuppressedTx (rd_suppressed d) (bi_source (br_identity record)) (br_ID record)))
    ErrRenditionOther;
  insert_build (rd_catalog d) record.

Definition StageRenditionJobBuild (claim : RenditionJobClaim) (record : build_record) (at_ : Z) (d : rendition_db) :
    rendition_db * rres () :=
  run_tx d (
    normalized ← from_lookup (normalizeRenditionBuildRecord record) ErrRenditionOther;
    let build := br_identity normalized in
    let id := cl_JobID claim in
    _ ← check (String.eqb (bi_vault build) vault && String.eqb (br_ID normalized) id) ErrRenditionOther;
    j ← requireRenditionClaimTx d claim at_;
    _ ← check (bool_decide (j_phase j ∈ [RenditionPhaseProvider; RenditionPhaseBuildStaged])) ErrRenditionOther;
    _ ← check (String.eqb (bi_source build) (ji_source (j_identity j))
               && String.eqb (bi_rendition build) (ji_rendition (j_identity j))
               && String.eqb (bi_evidence build) (ji_evidence (j_identity j))
               && String.eqb (bi_policy build) (ji_policy (j_identity j))) ErrRenditionOther;
    c ← stageRenditionBuildTx d normalized;
    roots ← putRenditionJobRootTx (target_present c) (rd_roots d) (build_root id (br_ID normalized) (cl_Epoch claim) at_);
    Ok (with_roots (with_catalog (set_job id (build_staged_row at_ j) d) c) roots, Ok ())).

(** [UPDATE current_rendition_roots SET target_id=?,recorded_at=? …]; no row is an error. *)
Definition retarget_generation_root (roots : root_table) (id target : string) (epoch at_ : Z) : rres root_table :=
  match roots !! renditionJobRootID "generation" id with
  | Some (mkRootRow stored true) =>
      _ ← check (bool_decide (rt_Kind stored = RenditionRootJob)
                 && bool_decide (rt_TargetKind stored = RenditionRootLexicalGeneration)
                 && (rt_FencingToken stored =? epoch)%Z) ErrRenditionJobFenced;
      Ok (<[renditionJobRootID "generation" id :=
            mkRootRow (mkRoot (rt_ID stored) (rt_Kind stored) (rt_TargetKind stored) target (rt_FencingToken stored) at_
              (rt_ExpiresAt stored)) true]> roots)
  | _ => Err ErrRenditionJobFenced
  end.

Definition StageRenditionJobGeneration (claim : RenditionJobClaim) (generationID : string) (at_ : Z) (d : rendition_db) :
    rendition_db * rres string :=
  run_tx d (
    _ ← check (IsSHA256Hex generationID) ErrRenditionOther;
    j ← requireRenditionClaimTx d claim at_;
    let id := cl_JobID claim in
    _ ← check (bool_decide (j_phase j ∈ [RenditionPhaseBuildStaged; RenditionPhaseGenerationStaged])) ErrRenditionOther;
    '(c, generation) ← stageLexicalGenerationTx (rd_catalog d) generationID;
    roots ← (if bool_decide (j_phase j = RenditionPhaseGenerationStaged)
             then retarget_generation_root (rd_roots d) id generation (cl_Epoch claim) at_
             else putRenditionJobRootTx (target_present c) (rd_roots d) (generation_root id generation (cl_Epoch claim) at_));
    Ok (with_roots (with_catalog (set_job id (generation_staged_row generation at_ j) d) c) roots, Ok generation)).

(** ** Publication *)

(** The loop over the waiting waiters: the authorized ones with their profiles,
    and the rejected ones. *)
Fixpoint split_waiters (d : rendition_db) (id : string) (j : job_row) (at_ : Z) (ids : list string) :
    rres (list (RenditionJobWaiter * ProcessingProfileRecord) * list string) :=
  match ids with
  | [] => Ok ([], [])
  | waiterID :: ids =>
      match (request ← renditionWaiterAuthorizationTx d id j waiterID; authorize d request at_) with
      | Ok _ =>
          waiter ← loadRenditionJobWaiterTx d waiterID;
          profile ← from_lookup (rd_profiles d !! rw_ProfileFingerprint waiter) ErrRenditionNotFound;
          '(authorized, rejected) ← split_waiters d id j at_ ids;
          Ok ((waiter, profile) :: authorized, rejected)
      | Err e =>
          if bool_decide (e = ErrRenditionJobStaleAuthority) || refuses_consent e then
            '(authorized, rejected) ← split_waiters d id j at_ ids;
            Ok (authorized, waiterID :: rejected)
          else Err e
      end
  end.

Definition pair_of (id : string) (at_ : Z) (authority : RenditionJobWaiter * ProcessingProfileRecord) : renditionPublicationPair :=
  mkPair (rw_AttachmentID authority.1) (rw_ContentVersionID authority.1) id authority.2 at_.

(** The clock and the pins of live readers ([lexicalGenerationReaders]). *)
Record lexical_readers := mkReaders { lr_now : Z; lr_pinned : gset string }.
(** A superseded generation is kept for an active root, a job or a reader. *)
Definition roots_hold (now : Z) (roots : root_table) (generationID : string) : bool :=
  existsb (λ p, rr_active p.2 && bool_decide (rt_TargetKind (rr_root p.2) = RenditionRootLexicalGeneration)
                && String.eqb (rt_TargetID (rr_root p.2)) generationID
                && match rt_ExpiresAt (rr_root p.2) with Some expiry => (now <? expiry)%Z | None => true end)
          (map_to_list roots).
Definition held_generation (readers : lexical_readers) (d : rendition_db) (generationID : string) : bool :=
  roots_hold (lr_now readers) (rd_roots d) generationID
  || existsb (λ p, bool_decide (j_generation p.2 = Some generationID)) (map_to_list (rd_jobs d))
  || bool_decide (generationID ∈ lr_pinned readers).
Definition env_of (readers : lexical_readers) (d : rendition_db) : publication_env :=
  mkEnv vault (rd_versions d) (rd_profiles d) (rd_suppressed d) (held_generation readers d).

Definition PublishRenditionJob (readers : lexical_readers) (claim : RenditionJobClaim) (at_ : Z) (d : rendition_db) :
    rendition_db * rres RenditionJobPublication :=
  run_tx d (
    j ← requireRenditionClaimTx d claim at_;
    let id := cl_JobID claim in
    _ ← check (bool_decide (j_phase j = RenditionPhaseGenerationStaged)) ErrRenditionOther;
    generationID ← from_lookup (j_generation j) ErrRenditionOther;
    _ ← (if j_started j then
           selected ← from_lookup (j_selected j) ErrRenditionOther;
           _ ← check (bool_decide (is_Some (j_authorization j))) ErrRenditionOther;
           request ← renditionWaiterAuthorizationTx d id j selected;
           _ ← authorize d (prior_request request (j_authorization j)) at_;
           Ok ()
         else Ok ());
    '(authorized, rejected) ← split_waiters d id j at_ (renditionWaitingIDsTx d id);
    _ ← check (negb (length authorized =? 0)%nat) (ErrRenditionConsent ErrProcessingConsentRequired);
    c ← publishRenditionAttachmentsAndLexicalHeadsTx (rd_catalog d) (env_of readers d) (pair_of id at_ <$> authorized)
          generationID;
    let d := foldl (mark_waiter WaiterPublished at_) (with_catalog d c) (rw_ID ∘ fst <$> authorized) in
    let d := foldl (mark_waiter WaiterRejected at_) d rejected in
    Ok (with_roots (set_job id (complete_row at_ j) d) (release_job_roots (rd_roots d) id (cl_Epoch claim)),
        Ok (mkPublication id generationID (length authorized) (length rejected)))).
End queue.
