(* ===== verification/RenditionRowFacts.v ===== *)
(** * Facts of rendition job rows and roots

    What the validator of stored jobs says as propositions, and that every
    statement keeps it, under the condition that the statement's place in the
    protocol gives.  [restarted] excuses one thing: a queued job that an
    enqueue restarted over a sealed snapshot still has it.

    What recording, renewing and releasing a root leaves in the table, and
    the condition a job puts on its two roots: no token is ahead of the job's
    epoch, and staged work that is still wanted stays rooted, unless
    [unrooted] excuses a job whose last waiter was deleted. *)
From S2P Require Import Prelude GoText SearchText AuditEncoding Identity Chunking Consent Rendition RenditionRows.

Section rows.
Context (restarted : Prop).

Record row_ok (j : job_row) : Prop := mkRowOk {
  ro_epoch : (0 ≤ j_epoch j)%Z;
  ro_attempts : (0 ≤ j_attempts j)%Z;
  ro_started : j_started j = true → is_Some (j_snapshot j);
  ro_sealed : is_Some (j_handle j) → is_Some (j_snapshot j);
  ro_claim : j_state j = RenditionJobRunning ↔ is_Some (j_claim j);
  ro_owner : ∀ owner expiry, j_claim j = Some (owner, expiry) → validRenditionWorkerOwner owner = true;
  ro_handle : ∀ handle, j_handle j = Some handle → validRenditionResumeHandle handle = true;
  ro_fence : ∀ grant incarnation fence, j_authorization j = Some (grant, incarnation, fence) → (0 ≤ fence)%Z;
  ro_phase : validRenditionJobStatePhase (j_state j) (j_phase j) = true;
  ro_ambiguous : j_state j = RenditionJobOperatorRequired → j_failure j = Some RenditionFailureAmbiguous;
  ro_resume : j_phase j = RenditionPhaseProvider → j_handle j = None →
    j_state j ≠ RenditionJobQueued ∧ j_state j ≠ RenditionJobRetryWait;
  ro_queued : j_phase j = RenditionPhaseQueued → j_started j = false ∧ (j_snapshot j = None ∨ restarted) ∧ j_handle j = None;
  ro_provider : j_phase j = RenditionPhaseProvider → j_started j = true ∧ is_Some (j_snapshot j);
}.

(** ** Statements keep the row *)

Ltac row_cases :=
  match goal with
  | H : row_ok ?j |- _ => destruct H; destruct j; cbn in *
  end;
  split; cbn in *; try done; try lia; try (by intros; subst; eauto); try (by split; [intros ?; subst|intros [? ?]]);
  try congruence; try (intros; destruct_and?; eauto; congruence); try (intros; subst; intuition congruence);
  try (by intros ??? [= _ _ <-]).

Lemma new_job_ok identity now : row_ok (new_job identity now).
Proof. split; cbn; try done; naive_solver. Qed.

Lemma set_epoch_ok e j : row_ok j → (j_epoch j ≤ e)%Z → row_ok (set_epoch e j).
Proof. intros Hj He. row_cases. Qed.

Lemma reopens_safe_iff j : reopens_safe j = true ↔
  j_state j = RenditionJobFailed ∧
  (j_phase j = RenditionPhaseQueued ∨ j_phase j = RenditionPhaseBuildStaged ∨ j_phase j = RenditionPhaseGenerationStaged) ∧
  (j_failure j = Some RenditionFailureConsent ∨ j_failure j = Some RenditionFailureStaleAuthority).
Proof. unfold reopens_safe. rewrite !andb_true_iff, !bool_decide_eq_true. set_solver. Qed.

Lemma reopen_safe_ok now j : row_ok j → row_ok (reopen_safe now j).
Proof.
  intros Hj. unfold reopen_safe. destruct (reopens_safe j) eqn:Hr; [|done].
  apply reopens_safe_iff in Hr as (Hs & Hp & Hf). row_cases.
  all: by destruct Hp as [-> | [-> | ->]].
Qed.

Lemma reopens_resume_iff j : reopens_resume j = true ↔
  j_state j = RenditionJobFailed ∧ j_phase j = RenditionPhaseProvider ∧ is_Some (j_handle j) ∧ is_Some (j_snapshot j) ∧
  (j_failure j = Some RenditionFailureConsent ∨ j_failure j = Some RenditionFailureStaleAuthority).
Proof. unfold reopens_resume. rewrite !andb_true_iff, !bool_decide_eq_true. set_solver. Qed.

Lemma reopen_resume_ok now j : row_ok j → row_ok (reopen_resume now j).
Proof.
  intros Hj. unfold reopen_resume. destruct (reopens_resume j) eqn:Hr; [|done].
  apply reopens_resume_iff in Hr as (Hs & Hp & [h Hh] & Hsn & Hf). row_cases. all: by subst.
Qed.

Lemma requeued_staged_ok now j : row_ok j → row_ok (requeued RenditionPhaseBuildStaged now j).
Proof. intros Hj. row_cases. Qed.

(** A completed job starts again as a new one, apart from its sealed snapshot. *)
Lemma requeued_queued_ok now j : row_ok j → j_snapshot j = None ∨ restarted → row_ok (requeued RenditionPhaseQueued now j).
Proof. intros Hj Hs. row_cases. Qed.
Lemma quarantine_row_ok at_ j : row_ok j → j_phase j = RenditionPhaseProvider → row_ok (quarantine_row at_ j).
Proof. intros Hj Hp. row_cases. all: by subst. Qed.

Definition live_state (s : RenditionJobState) : Prop :=
  s = RenditionJobQueued ∨ s = RenditionJobRunning ∨ s = RenditionJobRetryWait.

Lemma claim_row_ok owner expires at_ j :
  row_ok j → live_state (j_state j) → validRenditionWorkerOwner owner = true → row_ok (claim_row owner expires at_ j).
Proof.
  intros Hj Hs Ho. row_cases.
  all: by destruct Hs as [-> | [-> | ->]], j_phase.
Qed.

Lemma renew_row_ok owner expires at_ j :
  row_ok j → j_state j = RenditionJobRunning → validRenditionWorkerOwner owner = true →
  row_ok (renew_row owner expires at_ j).
Proof. intros Hj Hs Ho. row_cases. Qed.

Lemma select_row_ok waiterID a at_ j : row_ok j → (0 ≤ RevocationFence a)%Z → row_ok (select_row waiterID a at_ j).
Proof. intros Hj Ha. row_cases. Qed.

Lemma reselect_row_ok waiterID a at_ j :
  row_ok j → (0 ≤ RevocationFence a)%Z → j_state j = RenditionJobRunning →
  j_phase j = RenditionPhaseQueued ∨ j_phase j = RenditionPhaseProvider ∧ is_Some (j_handle j) →
  row_ok (reselect_row waiterID a at_ j).
Proof.
  intros Hj Ha Hs Hp. row_cases.
  all: by destruct Hp as [-> | [-> [? ->]]].
Qed.

Lemma begin_row_ok snapshot waiterID a at_ j :
  row_ok j → (0 ≤ RevocationFence a)%Z → j_state j = RenditionJobRunning → is_Some snapshot ∨ is_Some (j_snapshot j) →
  row_ok (begin_row snapshot waiterID a at_ j).
Proof.
  intros Hj Ha Hs Hsn. row_cases.
  all: first [case_bool_decide; lia | by subst | by destruct j_snapshot, Hsn as [?|[? ?]]].
Qed.

Lemma checkpoint_row_ok handle at_ j :
  row_ok j → j_phase j = RenditionPhaseProvider → validRenditionResumeHandle handle = true →
  row_ok (checkpoint_row handle at_ j).
Proof. intros Hj Hp Hh. row_cases. all: by subst. Qed.

Lemma retry_row_ok availableAt at_ j : row_ok j → j_state j = RenditionJobRunning → row_ok (retry_row availableAt at_ j).
Proof.
  intros Hj Hs. unfold retry_row, abandoned, keeps_started. destruct Hj, j; cbn in *; subst.
  destruct j_phase, j_handle; cbn in *; split; cbn in *; try done; try lia; naive_solver.
Qed.

Lemma finish_failed_ok code at_ j : row_ok j → j_state j = RenditionJobRunning → row_ok (finish_row RenditionJobFailed code at_ j).
Proof. intros Hj Hs. row_cases. all: subst; by destruct j_phase. Qed.

Lemma finish_operator_ok at_ j :
  row_ok j → j_phase j = RenditionPhaseProvider →
  row_ok (finish_row RenditionJobOperatorRequired RenditionFailureAmbiguous at_ j).
Proof. intros Hj Hp. row_cases. all: by subst. Qed.

Lemma orphan_row_ok at_ j : row_ok j → j_state j = RenditionJobFailed → row_ok (orphan_row at_ j).
Proof. intros Hj Hs. row_cases. all: by subst. Qed.

Lemma build_staged_row_ok at_ j : row_ok j → j_state j = RenditionJobRunning → row_ok (build_staged_row at_ j).
Proof. intros Hj Hs. row_cases. all: by subst. Qed.

Lemma generation_staged_row_ok generation at_ j :
  row_ok j → j_state j = RenditionJobRunning → row_ok (generation_staged_row generation at_ j).
Proof. intros Hj Hs. row_cases. all: by subst. Qed.

Lemma complete_row_ok at_ j : row_ok j → row_ok (complete_row at_ j).
Proof. intros Hj. row_cases. Qed.

(** *** Deletion of waiters *)

Lemma clear_deleted_row_ok at_ j : row_ok j → row_ok (clear_deleted_row at_ j).
Proof. intros Hj. row_cases. Qed.

Lemma lost_call_row_ok at_ j : row_ok j → j_phase j = RenditionPhaseProvider → row_ok (lost_call_row at_ j).
Proof. intros Hj Hp. row_cases. all: by subst. Qed.

Lemma provider_called_iff j : provider_called j = true ↔ j_phase j = RenditionPhaseProvider ∧ j_started j = true.
Proof. unfold provider_called. by rewrite andb_true_iff, bool_decide_eq_true. Qed.

Lemma orphaned_row_ok at_ j : row_ok j → row_ok (orphaned_row at_ j).
Proof.
  intros Hj. unfold orphaned_row. destruct (provider_called j) eqn:Hp.
  - apply provider_called_iff in Hp as [Hp _]. by apply lost_call_row_ok.
  - row_cases.
Qed.

Lemma closed_failure_iff j : closed_failure j = true ↔ j_state j = RenditionJobFailed ∧
  ¬ ((j_failure j = Some RenditionFailureConsent ∨ j_failure j = Some RenditionFailureStaleAuthority) ∧
     (j_phase j = RenditionPhaseQueued ∨ j_phase j = RenditionPhaseBuildStaged ∨ j_phase j = RenditionPhaseGenerationStaged
      ∨ j_phase j = RenditionPhaseProvider ∧ is_Some (j_handle j) ∧ is_Some (j_snapshot j))).
Proof.
  unfold closed_failure. rewrite andb_true_iff, bool_decide_eq_true, <- negb_andb, negb_true_iff, <- not_true_iff_false.
  apply and_iff_compat_l, not_iff_compat. rewrite !andb_true_iff, !orb_true_iff, !andb_true_iff, !bool_decide_eq_true.
  set_solver.
Qed.

(** Whatever is queued again from the provider phase has a call to resume. *)
Lemma requeue_remaining_row_ok at_ j :
  row_ok j → closed_failure j = false → live_state (j_state j) ∨ j_state j = RenditionJobFailed →
  ¬ (j_state j = RenditionJobRunning ∧ provider_called j = true) → row_ok (requeue_remaining_row at_ j).
Proof.
  intros Hj Hc Hs Hrun. rewrite provider_called_iff in Hrun. apply not_true_iff_false in Hc. rewrite closed_failure_iff in Hc.
  row_cases.
  - destruct j_phase; try done. by destruct Hs as [[-> | [-> | ->]] | ->].
  - intros -> Hh. exfalso. destruct (ro_provider0 eq_refl) as [Hst _]. destruct (ro_resume0 eq_refl Hh) as [Hnq Hnr].
    destruct Hs as [[?|[?|?]]|Hs]; [done|by apply Hrun|done|]. apply Hc. split; [done|]. subst j_handle. intros (_ & [?|[?|[?|(_ & [? ?] & _)]]]); congruence.
Qed.
End rows.
Arguments ro_epoch {_} _ _. Arguments ro_queued {_} _ _. Arguments ro_owner {_} _ _. Arguments ro_phase {_} _ _.
Arguments ro_provider {_} _ _. Arguments ro_resume {_} _ _. Arguments ro_fence {_} _ _.

(** ** The validator *)

Lemma validateMetadataRenditionJob_iff j : validateMetadataRenditionJob j = true ↔ row_ok False j.
Proof.
  destruct j as [identity snapshot state phase claim epoch available started attempts handle selected authorization
    generation failure updated].
  unfold validateMetadataRenditionJob; cbn. split.
  - rewrite !andb_true_iff. intros ((((((((H1 & H2) & H3) & H4) & Hf) & H5) & H6) & H7) & H8).
    apply negb_true_iff, orb_false_iff in H1 as [H1%Z.ltb_ge H1'%Z.ltb_ge].
    split; cbn in *; try done.
    + intros ->. destruct snapshot; [done|]. by destruct handle, claim as [[]|], state.
    + destruct snapshot; [done|]. destruct handle; [by destruct started, claim as [[]|], state|]. by intros [? ?].
    + destruct state, claim as [[? ?]|], started, snapshot, handle; cbn in *; try done; split; try done; by intros [? ?].
    + by intros ?? ->.
    + by intros ? ->.
    + intros ??? ->. by apply negb_true_iff, Z.ltb_ge in Hf.
    + intros ->. by apply negb_true_iff, negb_false_iff, bool_decide_eq_true in H6.
    + intros -> ->. by destruct state.
    + intros ->. destruct started, snapshot, handle; try done. split_and!; try done. by left.
    + intros ->. by destruct started, snapshot.
  - intros [H1 H2 H3 H4 H5 H6 H7 Hf H8 H9 H10 H11 H12]; cbn in *. rewrite !andb_true_iff. split_and!; try done.
    + by rewrite (proj2 (Z.ltb_ge _ _) H1), (proj2 (Z.ltb_ge _ _) H2).
    + destruct started, snapshot, handle; cbn in *;
        try (by destruct (H3 eq_refl)); try (by destruct H4);
        (destruct claim as [c|]; [rewrite (proj2 H5) by done|rewrite bool_decide_eq_false_2 by (intros Hs; by destruct (proj1 H5 Hs))]; done).
    + destruct claim as [[owner expiry]|]; [by eapply H6|done].
    + destruct handle; [by apply H7|done].
    + destruct authorization as [[[grant incarnation] fence]|]; [|done]. apply negb_true_iff, Z.ltb_ge. by eapply Hf.
    + apply negb_true_iff. destruct state; cbn; try done. rewrite H9 by done. done.
    + apply negb_true_iff. destruct (decide (phase = RenditionPhaseProvider)) as [->|?];
        [|by rewrite bool_decide_eq_false_2]. destruct handle; [by rewrite andb_false_r|].
      destruct (H10 eq_refl eq_refl) as [? ?]. destruct (H12 eq_refl) as [-> _]. by destruct state.
    + apply negb_true_iff, orb_false_iff. split.
      * destruct (decide (phase = RenditionPhaseQueued)) as [->|?]; [|by rewrite bool_decide_eq_false_2].
        by destruct (H11 eq_refl) as (-> & [-> | []] & ->).
      * destruct (decide (phase = RenditionPhaseProvider)) as [->|?]; [|by rewrite bool_decide_eq_false_2].
        by destruct (H12 eq_refl) as (-> & [? ->]).
Qed.

(** A stored row passes the validator, but for the snapshot of a restarted job. *)
Lemma row_ok_valid restarted j :
  row_ok restarted j → validateMetadataRenditionJob j = true ∨
    restarted ∧ j_phase j = RenditionPhaseQueued ∧ is_Some (j_snapshot j) ∧ validateMetadataRenditionJob (set_snapshot None j) = true.
Proof.
  intros Hj. rewrite !validateMetadataRenditionJob_iff. destruct (decide (j_phase j = RenditionPhaseQueued)) as [Hq|Hq].
  - destruct (ro_queued _ Hj Hq) as (Hst & Hsn & Hh). destruct (j_snapshot j) as [text|] eqn:Htext.
    + destruct Hsn as [?|Hr]; [done|]. right. split_and!; try done. destruct Hj, j; cbn in *; subst.
      split; cbn in *; try done; naive_solver.
    + left. destruct Hj; split; try done. intros _. split_and!; [done|by left|done].
  - left. destruct Hj; by split.
Qed.

Lemma requeued_queued_refused now j snapshot :
  j_snapshot j = Some snapshot → validateMetadataRenditionJob (requeued RenditionPhaseQueued now j) = false.
Proof.
  intros Hs. apply not_true_iff_false. rewrite validateMetadataRenditionJob_iff. intros Hok.
  destruct (ro_queued _ Hok eq_refl) as (_ & [Hn|[]] & _). cbn in Hn. congruence.
Qed.


(** * Roots *)

(** ** Names *)

Notation build_id id := (renditionJobRootID "build" id).
Notation generation_id id := (renditionJobRootID "generation" id).

Lemma build_id_inj id id' : build_id id = build_id id' → id = id'.
Proof. unfold renditionJobRootID. intros H. by repeat apply (inj (String.append _)) in H. Qed.
Lemma generation_id_inj id id' : generation_id id = generation_id id' → id = id'.
Proof. unfold renditionJobRootID. intros H. by repeat apply (inj (String.append _)) in H. Qed.
Lemma build_generation_ne id id' : build_id id ≠ generation_id id'.
Proof. unfold renditionJobRootID. intros H. apply (inj (String.append _)) in H. discriminate. Qed.

(** The rows of other jobs are those under other names. *)
Definition other_root (id rid : string) : Prop := rid ≠ build_id id ∧ rid ≠ generation_id id.
Lemma other_root_of id id' : id ≠ id' → other_root id (build_id id') ∧ other_root id (generation_id id').
Proof.
  intros Hne. split; split.
  - by intros ->%build_id_inj.
  - apply build_generation_ne.
  - intros He. by apply (build_generation_ne id id').
  - by intros ->%generation_id_inj.
Qed.

(** ** Recording *)

Definition only_root (roots roots' : root_table) (rid : string) : Prop := ∀ r, r ≠ rid → roots' !! r = roots !! r.

Lemma putCurrentRenditionRootTx_Ok present roots root roots' :
  putCurrentRenditionRootTx present roots root = Ok roots' →
  roots' !! rt_ID root = Some (mkRootRow root true) ∧ only_root roots roots' (rt_ID root) ∧
  (root_token roots (rt_ID root) ≤ rt_FencingToken root)%Z ∧
  (present (rt_TargetKind root) (rt_TargetID root) = true ∨ roots' = roots).
Proof.
  unfold putCurrentRenditionRootTx, root_token, only_root.
  destruct (roots !! rt_ID root) as [[stored active]|] eqn:Hl; intros Hput; cbn [rr_root]; repeat res_inv1.
  - apply negb_true_iff, Z.ltb_ge in H. destruct (_ =? _)%Z eqn:He; repeat res_inv1.
    + apply bool_decide_eq_true in H1 as ->. subst. split_and!; try done. by right.
    + subst. split_and!; [by rewrite lookup_insert_eq|intros; by rewrite lookup_insert_ne|lia|by left].
  - apply Z.ltb_lt in H0. subst. split_and!; [by rewrite lookup_insert_eq|intros; by rewrite lookup_insert_ne|lia|by left].
Qed.

(** The authority that a row gives: its kind, target and token. *)
Definition rooted (roots : root_table) (rid : string) (kind : CurrentRenditionTargetKind) (target : string) : Prop :=
  ∃ row, roots !! rid = Some row ∧ rr_active row = true ∧ rt_Kind (rr_root row) = RenditionRootJob ∧
    rt_TargetKind (rr_root row) = kind ∧ rt_TargetID (rr_root row) = target.

Lemma put_rooted present roots root roots' :
  putCurrentRenditionRootTx present roots root = Ok roots' → rt_Kind root = RenditionRootJob →
  rooted roots' (rt_ID root) (rt_TargetKind root) (rt_TargetID root) ∧ root_token roots' (rt_ID root) = rt_FencingToken root ∧
  only_root roots roots' (rt_ID root) ∧ (root_token roots (rt_ID root) ≤ rt_FencingToken root)%Z.
Proof.
  intros (Hl & Ho & Ht & _)%putCurrentRenditionRootTx_Ok Hk. split_and!; try done.
  - by eexists.
  - unfold root_token. by rewrite Hl.
Qed.

Lemma putRenditionJobRootTx_Ok present roots root roots' :
  putRenditionJobRootTx present roots root = Ok roots' → rt_Kind root = RenditionRootJob →
  rooted roots' (rt_ID root) (rt_TargetKind root) (rt_TargetID root) ∧ root_token roots' (rt_ID root) = rt_FencingToken root ∧
  only_root roots roots' (rt_ID root) ∧ (root_token roots (rt_ID root) ≤ rt_FencingToken root)%Z.
Proof.
  unfold putRenditionJobRootTx. destruct (roots !! rt_ID root) as [[stored active]|] eqn:Hl; [|by apply put_rooted].
  destruct (active && same_authority root stored) eqn:Hs; [|by apply put_rooted].
  intros [= <-] Hk. unfold same_authority in Hs. rewrite !andb_true_iff, Z.eqb_eq, !bool_decide_eq_true, String.eqb_eq in Hs.
  destruct Hs as (-> & ((Ht & Hk') & Htk) & Hti). split_and!; try done.
  - exists (mkRootRow stored true). split_and!; try done. by rewrite <- Hk.
  - unfold root_token. by rewrite Hl.
  - unfold root_token. rewrite Hl. cbn. lia.
Qed.

(** ** Releasing *)

Lemma release_root_only roots rid token : only_root roots (release_root roots rid token) rid.
Proof.
  intros r Hr. unfold release_root. destruct (roots !! rid) as [[stored []]|]; [|done..].
  destruct (_ =? _)%Z; [by rewrite lookup_insert_ne|done].
Qed.

Lemma release_root_token roots rid token r : root_token (release_root roots rid token) r = root_token roots r.
Proof.
  unfold root_token. destruct (decide (r = rid)) as [->|Hne]; [|by rewrite release_root_only].
  unfold release_root. destruct (roots !! rid) as [[stored []]|] eqn:Hl; [|by rewrite Hl..].
  destruct (_ =? _)%Z; [by rewrite lookup_insert_eq|by rewrite Hl].
Qed.

Lemma release_root_active roots rid token r row :
  release_root roots rid token !! r = Some row → rr_active row = true → roots !! r = Some row.
Proof.
  unfold release_root. destruct (roots !! rid) as [[stored []]|] eqn:Hl; [|done..].
  destruct (_ =? _)%Z; [|done]. intros [[<- <-]|[_ ?]]%lookup_insert_Some; [done|done].
Qed.

Lemma release_job_roots_only roots id epoch rid : other_root id rid → release_job_roots roots id epoch !! rid = roots !! rid.
Proof. intros [Hb Hg]. unfold release_job_roots. by rewrite !release_root_only. Qed.
Lemma release_job_roots_token roots id epoch r : root_token (release_job_roots roots id epoch) r = root_token roots r.
Proof. unfold release_job_roots. by rewrite !release_root_token. Qed.
Lemma release_job_roots_active roots id epoch r row :
  release_job_roots roots id epoch !! r = Some row → rr_active row = true → roots !! r = Some row.
Proof. intros Hl Ha. unfold release_job_roots in Hl. eauto using release_root_active. Qed.

(** ** The roots of a job *)

Definition reopenable_code (c : option RenditionFailureCode) : Prop :=
  c = Some RenditionFailureConsent ∨ c = Some RenditionFailureStaleAuthority.
(** Work that a worker may still be given. *)
Definition wanted (j : job_row) : Prop :=
  live_state (j_state j) ∨ j_state j = RenditionJobFailed ∧ reopenable_code (j_failure j).
Definition staged (p : RenditionJobPhase) : Prop := p = RenditionPhaseBuildStaged ∨ p = RenditionPhaseGenerationStaged.

Lemma job_root_token_ext roots roots' id :
  root_token roots' (build_id id) = root_token roots (build_id id) →
  root_token roots' (generation_id id) = root_token roots (generation_id id) →
  job_root_token roots' id = job_root_token roots id.
Proof. unfold job_root_token. by intros -> ->. Qed.

Lemma rooted_other roots roots' rid kind target : roots' !! rid = roots !! rid → rooted roots rid kind target → rooted roots' rid kind target.
Proof. unfold rooted. by intros ->. Qed.

Section job_roots.
Context (unrooted : Prop).

Record job_roots_ok (roots : root_table) (id : string) (j : job_row) : Prop := mkJobRootsOk {
  jr_token : (job_root_token roots id ≤ j_epoch j)%Z;
  jr_build : wanted j → staged (j_phase j) → unrooted ∨ rooted roots (build_id id) RenditionRootBuild id;
  jr_generation : wanted j → j_phase j = RenditionPhaseGenerationStaged →
    unrooted ∨ ∃ g, j_generation j = Some g ∧ rooted roots (generation_id id) RenditionRootLexicalGeneration g;
}.

Lemma job_roots_ok_other roots roots' id id' j :
  (∀ rid, other_root id rid → roots' !! rid = roots !! rid) → id ≠ id' → job_roots_ok roots id' j → job_roots_ok roots' id' j.
Proof.
  intros Ho Hne [Ht Hb Hg]. destruct (other_root_of id id' Hne) as [H1 H2]. split.
  - rewrite (job_root_token_ext roots); [done|unfold root_token; by rewrite Ho..].
  - intros Hw Hs. destruct (Hb Hw Hs) as [?|Hr]; [by left|right]. eapply rooted_other; [by apply Ho|done].
  - intros Hw Hs. destruct (Hg Hw Hs) as [?|(g & Hgn & Hr)]; [by left|right]. exists g. split; [done|]. eapply rooted_other; [by apply Ho|done].
Qed.

(** A statement that touches no root. *)
Lemma job_roots_ok_mono roots id j j' :
  job_roots_ok roots id j → (j_epoch j ≤ j_epoch j')%Z →
  (wanted j' → staged (j_phase j') → wanted j ∧ j_phase j' = j_phase j ∧ j_generation j' = j_generation j) →
  job_roots_ok roots id j'.
Proof.
  intros [Ht Hb Hg] He Hw. split; [lia| |].
  - intros Hw' Hs'. destruct (Hw Hw' Hs') as (? & Hp & _). apply Hb; [done|]. by rewrite <- Hp.
  - intros Hw' Hs'. destruct (Hw Hw' (or_intror Hs')) as (? & Hp & ->). apply Hg; [done|]. by rewrite <- Hp.
Qed.

Lemma job_roots_ok_release roots id j epoch :
  (job_root_token roots id ≤ j_epoch j)%Z → (wanted j → staged (j_phase j) → False) →
  job_roots_ok (release_job_roots roots id epoch) id j.
Proof.
  intros Ht Hn. split.
  - rewrite (job_root_token_ext roots); [done|apply release_job_roots_token..].
  - intros Hw Hs. by destruct (Hn Hw Hs).
  - intros Hw Hs. by destruct (Hn Hw (or_intror Hs)).
Qed.
End job_roots.
Arguments jr_token {_ _ _ _} _. Arguments jr_build {_ _ _ _} _ _ _. Arguments jr_generation {_ _ _ _} _ _ _.

Lemma job_root_token_put roots roots' id rid token :
  rid = build_id id ∨ rid = generation_id id →
  only_root roots roots' rid → root_token roots' rid = token → (root_token roots rid ≤ token)%Z →
  (job_root_token roots' id ≤ Z.max (job_root_token roots id) token)%Z.
Proof.
  intros Hr Ho Ht Hle. unfold job_root_token. pose proof (build_generation_ne id id) as Hne.
  assert (∀ r, r ≠ rid → root_token roots' r = root_token roots r) as Hr' by (intros; unfold root_token; by rewrite Ho).
  destruct Hr as [-> | ->].
  - rewrite (Hr' (generation_id id)) by done. lia.
  - rewrite (Hr' (build_id id)) by done. lia.
Qed.

Lemma refreshRenditionJobRootsTx_Ok present roots id phase generation epoch at_ roots' :
  refreshRenditionJobRootsTx present roots id phase generation epoch at_ = Ok roots' →
  (∀ rid, other_root id rid → roots' !! rid = roots !! rid) ∧
  (job_root_token roots' id ≤ Z.max (job_root_token roots id) epoch)%Z ∧
  (staged phase → rooted roots' (build_id id) RenditionRootBuild id) ∧
  (phase = RenditionPhaseGenerationStaged →
    ∃ g, generation = Some g ∧ rooted roots' (generation_id id) RenditionRootLexicalGeneration g).
Proof.
  unfold refreshRenditionJobRootsTx. intros Hr.
  destruct phase; try (injection Hr as <-; split_and!; [done|lia|by intros [|]|done]).
  - apply put_rooted in Hr as (Hb & Ht & Ho & Hle); [|done]. cbn in *. split_and!; try done.
    + intros rid [? _]. by apply Ho.
    + eapply job_root_token_put; [by left|done..].
  - repeat res_inv1. apply put_rooted in H as (Hb & Ht & Ho & Hle); [|done].
    apply put_rooted in Hr as (Hb' & Ht' & Ho' & Hle'); [|done]. cbn in *. split_and!.
    + intros rid [? ?]. rewrite Ho' by done. by apply Ho.
    + etrans; [eapply job_root_token_put; [by right|done..]|].
      pose proof (job_root_token_put roots _ id _ _ (or_introl eq_refl) Ho Ht Hle). lia.
    + intros _. eapply rooted_other; [|exact Hb]. apply Ho', build_generation_ne.
    + intros _. eauto.
Qed.

(** ** Presence *)

(** An active root has no expiry and names something that is there; a job's
    roots are released, they do not lapse. *)
Definition present_ok (present : CurrentRenditionTargetKind → string → bool) (roots : root_table) : Prop :=
  ∀ rid row, roots !! rid = Some row → rr_active row = true →
    rt_ExpiresAt (rr_root row) = None ∧ present (rt_TargetKind (rr_root row)) (rt_TargetID (rr_root row)) = true.

Lemma put_present present roots root roots' :
  putCurrentRenditionRootTx present roots root = Ok roots' → rt_ExpiresAt root = None →
  present_ok present roots → present_ok present roots'.
Proof.
  intros (Hl & Ho & _ & Hp)%putCurrentRenditionRootTx_Ok He Hok rid row Hr Ha.
  destruct (decide (rid = rt_ID root)) as [->|Hne]; [|rewrite Ho in Hr by done; by apply (Hok rid)].
  destruct Hp as [Hp | ->]; [|by apply (Hok (rt_ID root))]. rewrite Hl in Hr. by injection Hr as <-.
Qed.

Lemma put_job_present present roots root roots' :
  putRenditionJobRootTx present roots root = Ok roots' → rt_ExpiresAt root = None →
  present_ok present roots → present_ok present roots'.
Proof.
  unfold putRenditionJobRootTx. destruct (roots !! _) as [[stored active]|]; [|by apply put_present].
  destruct (_ && _); [by intros [= <-]|by apply put_present].
Qed.

Lemma refresh_present present roots id phase generation epoch at_ roots' :
  refreshRenditionJobRootsTx present roots id phase generation epoch at_ = Ok roots' →
  present_ok present roots → present_ok present roots'.
Proof.
  unfold refreshRenditionJobRootsTx. destruct phase; try (by intros [= <-]); [intros Hr; by apply (put_present _ _ _ _ Hr)|].
  intros Hr Hok. repeat res_inv1. eapply put_present; [exact Hr|done|]. by eapply put_present.
Qed.

Lemma release_present present roots id epoch : present_ok present roots → present_ok present (release_job_roots roots id epoch).
Proof. intros Hok rid row Hl Ha. eapply (Hok rid); [|done]. by eapply release_job_roots_active. Qed.

(** What is there still is, as far as the roots ask. *)
Lemma present_ok_weaken (p q : CurrentRenditionTargetKind → string → bool) roots :
  (∀ rid row, roots !! rid = Some row → rr_active row = true → rt_ExpiresAt (rr_root row) = None →
    p (rt_TargetKind (rr_root row)) (rt_TargetID (rr_root row)) = true →
    q (rt_TargetKind (rr_root row)) (rt_TargetID (rr_root row)) = true) →
  present_ok p roots → present_ok q roots.
Proof. intros Hpq Hok rid row Hl Ha. destruct (Hok rid row Hl Ha) as [He Hp]. split; [done|]. exact (Hpq rid row Hl Ha He Hp). Qed.
