(* ===== verification/RenditionJobFacts.v ===== *)
(** * The invariant of the rendition queue

    Every stored job passes the validator of exported jobs, no root token is
    ahead of its job, staged work that is still wanted stays rooted, active
    roots name what the catalog holds, and a waiter's attachment is the one
    its identity determines; every command keeps it.  Two sets of jobs are
    excused: those [restarted] over a sealed snapshot, and those that the
    deletion of their last waiter left [unrooted]. *)
From stdpp Require Import sorting.
From S2P Require Import Prelude GoText SearchText AuditEncoding Identity Sha256 ModelInput Chunking JsonText Consent Rendition RenditionRows RenditionRowFacts RenditionJobs.

Section facts.
Context `{Sha256} `{RenditionContracts} `{RenditionCatalog} `{!RenditionCatalogLaws} (vault : string).
Context (restarted unrooted : string → Prop).

Definition waiter_ok (w : waiter_row) : Prop := w_attachment w = attachment_id (w_job w) (w_version w) (w_profile w).
Definition waiters_ok (ws : gmap string waiter_row) : Prop := ∀ id w, ws !! id = Some w → waiter_ok w.
Definition job_ok (roots : root_table) (id : string) (j : job_row) : Prop :=
  row_ok (restarted id) j ∧ job_roots_ok (unrooted id) roots id j.

Record rdb_ok (d : rendition_db) : Prop := mkRdbOk {
  db_jobs : ∀ id j, rd_jobs d !! id = Some j → job_ok (rd_roots d) id j;
  db_present : present_ok (target_present (rd_catalog d)) (rd_roots d);
  db_waiters : waiters_ok (rd_waiters d);
}.

(** A command replaces one job and touches no other job's roots. *)
Lemma rdb_ok_update d d' id j :
  rdb_ok d → rd_jobs d' = <[id := j]> (rd_jobs d) →
  (∀ rid, other_root id rid → rd_roots d' !! rid = rd_roots d !! rid) →
  job_ok (rd_roots d') id j → present_ok (target_present (rd_catalog d')) (rd_roots d') → waiters_ok (rd_waiters d') →
  rdb_ok d'.
Proof.
  intros [Hj _ _] Hjobs Hother Hok Hp Hw. split; [|done..]. intros id' j' Hl. rewrite Hjobs in Hl.
  apply lookup_insert_Some in Hl as [[<- <-]|[Hne Hl]]; [done|]. destruct (Hj id' j' Hl) as [Hrow Hroots].
  split; [done|]. by eapply job_roots_ok_other.
Qed.

(** The common case: rows change, roots and catalog do not. *)
Lemma rdb_ok_set_job d id j :
  rdb_ok d → job_ok (rd_roots d) id j → rdb_ok (set_job id j d).
Proof. intros Hd Hj. eapply rdb_ok_update; [exact Hd|done|done|done|apply Hd|apply Hd]. Qed.

Lemma run_tx_inv {A} (P : rendition_db → Prop) d (body : rres (rendition_db * rres A)) :
  P d → (∀ d' a, body = Ok (d', a) → P d') → P (run_tx d body).1.
Proof. intros Hd Hb. destruct body as [[d' a]|e]; cbn; [by eapply Hb|done]. Qed.

(** ** Claims *)

Lemma requireRenditionClaimTx_Ok d claim at_ j :
  requireRenditionClaimTx d claim at_ = Ok j →
  ∃ expiry, rd_jobs d !! cl_JobID claim = Some j ∧ j_state j = RenditionJobRunning ∧ j_claim j = Some (cl_Owner claim, expiry) ∧
    j_epoch j = cl_Epoch claim ∧ (at_ < expiry)%Z.
Proof.
  unfold requireRenditionClaimTx. intros Hc. repeat res_inv1. destruct a1 as [owner expiry]. repeat res_inv1.
  rename select (_ && _ = true) into Ha.
  rewrite !andb_true_iff, bool_decide_eq_true, String.eqb_eq, Z.eqb_eq, Z.ltb_lt in Ha. subst.
  destruct Ha as (((? & ->) & ?) & ?). eauto 10.
Qed.

(** ** Waiters *)

Definition only_waiters (d d' : rendition_db) : Prop :=
  d' = with_waiters d (rd_waiters d') ∧ (waiters_ok (rd_waiters d) → waiters_ok (rd_waiters d')).

#[export] Instance only_waiters_preorder : PreOrder only_waiters.
Proof.
  split; [by intros []|]. intros d1 d2 d3 [H12 Hw12] [H23 Hw23]. split; [|auto].
  rewrite H12 in H23. exact H23.
Qed.

Lemma waiters_ok_alter state at_ ws id : waiters_ok ws → waiters_ok (alter (set_waiter_state state at_) id ws).
Proof.
  intros Hw id' w Hl. destruct (decide (id = id')) as [<-|Hne].
  - rewrite lookup_alter_eq in Hl. apply fmap_Some in Hl as (w' & Hl & ->). exact (Hw id w' Hl).
  - rewrite lookup_alter_ne in Hl by done. by apply (Hw id').
Qed.

Lemma mark_waiter_only state at_ d id : only_waiters d (mark_waiter state at_ d id).
Proof. split; [done|]. apply waiters_ok_alter. Qed.

Lemma select_from_only j jobID at_ stale ids d d' r :
  select_from vault j jobID at_ stale ids d = (d', r) → only_waiters d d'.
Proof.
  revert stale d; induction ids as [|id ids IH]; intros stale d Hs; cbn in Hs.
  { by injection Hs as <- _. }
  destruct (mbind _ _) as [a|e]; [by injection Hs as <- _|].
  destruct (_ || _); [|by injection Hs as <- _]. etrans; [apply mark_waiter_only|by eapply IH].
Qed.

(** A fence is a maximum of fences, at least zero. *)
Lemma scan_grants_fence incarnation fence now found revoked rows a :
  scan_grants incarnation fence now found revoked rows = Ok a → RevocationFence a = fence.
Proof.
  revert found revoked; induction rows as [|[id g] rows IH]; intros found revoked; cbn; [by repeat case_match|].
  destruct (negb _); [apply IH|]. destruct (expired now g); [apply IH|]. by intros [= <-].
Qed.
Lemma authorize_fence d request now a : authorize vault d request now = Ok a → (0 ≤ RevocationFence a)%Z.
Proof.
  unfold authorize, with_consent. destruct (authorizeProviderOperationTx _ _ _ _) as [a'|e] eqn:Ha; [|done]. intros [= ->].
  unfold authorizeProviderOperationTx in Ha. do 2 res_inv1. cbv zeta in Ha. res_inv1. apply scan_grants_fence in Ha as ->.
  apply fence_nonneg.
Qed.
Lemma select_from_fence j jobID at_ stale ids d d' id a :
  select_from vault j jobID at_ stale ids d = (d', Ok (id, a)) → (0 ≤ RevocationFence a)%Z.
Proof.
  revert stale d; induction ids as [|wid ids IH]; intros stale d Hs; cbn in Hs; [done|].
  destruct (mbind _ _) as [a'|e] eqn:Ha.
  - injection Hs as <- <- <-. res_inv1. by eapply authorize_fence.
  - destruct (_ || _); [by eapply IH|done].
Qed.

Lemma only_waiters_rdb_ok d d' : only_waiters d d' → rdb_ok d → rdb_ok d'.
Proof.
  intros [He Hw] [Hj Hp Hok]. specialize (Hw Hok). rewrite He. split; [exact Hj|exact Hp|exact Hw].
Qed.

Lemma only_waiters_eq d d' : only_waiters d d' →
  rd_jobs d' = rd_jobs d ∧ rd_roots d' = rd_roots d ∧ rd_catalog d' = rd_catalog d ∧ rd_consent d' = rd_consent d.
Proof. intros [He _]. by rewrite He. Qed.

Lemma fold_mark_only state at_ ids d : only_waiters d (foldl (mark_waiter state at_) d ids).
Proof.
  revert d; induction ids as [|id ids IH]; intros d; [done|]. cbn. etrans; [apply mark_waiter_only|apply IH].
Qed.

(** ** Commands *)

Lemma job_ok_at d id j : rdb_ok d → rd_jobs d !! id = Some j → job_ok (rd_roots d) id j.
Proof. intros Hd. apply (db_jobs d Hd). Qed.

(** A job whose statement leaves the roots alone. *)
Lemma job_ok_mono roots id j j' :
  job_ok roots id j → row_ok (restarted id) j' → (j_epoch j ≤ j_epoch j')%Z →
  (wanted j' → staged (j_phase j') → wanted j ∧ j_phase j' = j_phase j ∧ j_generation j' = j_generation j) →
  job_ok roots id j'.
Proof. intros [_ Hr] Hrow He Hw. split; [done|]. by eapply job_roots_ok_mono. Qed.

Lemma running_wanted j : j_state j = RenditionJobRunning → wanted j.
Proof. intros Hs. left. by right; left. Qed.

Lemma ambiguous_provider R j :
  row_ok R j → j_state j = RenditionJobRunning →
  renditionJobProviderBoundaryAmbiguous (j_phase j) (j_started j) (bool_decide (is_Some (j_handle j))) = true →
  j_phase j = RenditionPhaseProvider ∧ j_handle j = None ∧ j_started j = true.
Proof.
  intros Hrow Hs Ha. unfold renditionJobProviderBoundaryAmbiguous in Ha.
  rewrite !andb_true_iff, !negb_true_iff, !bool_decide_eq_false in Ha. destruct Ha as (((Hst & Hh) & Hb) & Hg).
  apply eq_None_not_Some in Hh. destruct (j_phase j) eqn:Hp; [|done..|].
  - destruct (ro_queued _ Hrow Hp) as (Hst' & _). congruence.
  - pose proof (ro_phase _ Hrow) as Hv. by rewrite Hs, Hp in Hv.
Qed.

(** What never goes back: a job keeps its identity, its epoch never
    decreases, and a job that requires its operator is not touched. *)
Definition row_grows (j j' : job_row) : Prop :=
  j_identity j' = j_identity j ∧ (j_epoch j ≤ j_epoch j')%Z ∧ (j_state j = RenditionJobOperatorRequired → j' = j).
Definition jobs_grow (d d' : rendition_db) : Prop :=
  ∀ id j, rd_jobs d !! id = Some j → ∃ j', rd_jobs d' !! id = Some j' ∧ row_grows j j'.
#[export] Instance jobs_grow_preorder : PreOrder jobs_grow.
Proof.
  split; [intros d id j Hj; exists j; done|]. intros d1 d2 d3 H12 H23 id j Hj.
  destruct (H12 id j Hj) as (j2 & Hj2 & Hi & He & Ho). destruct (H23 id j2 Hj2) as (j3 & Hj3 & Hi' & He' & Ho').
  exists j3. split; [done|]. split_and!; [congruence|lia|]. intros Hs. specialize (Ho Hs). subst. auto.
Qed.

Lemma jobs_grow_eq d d' : rd_jobs d' = rd_jobs d → jobs_grow d d'.
Proof. intros He id j Hj. exists j. by rewrite He. Qed.

Lemma jobs_grow_update d d' id j j' :
  rd_jobs d !! id = Some j → rd_jobs d' = <[id := j']> (rd_jobs d) → row_grows j j' → jobs_grow d d'.
Proof.
  intros Hj Hd Hg id' j0 Hj0. rewrite Hd. destruct (decide (id = id')) as [<-|Hne].
  - rewrite lookup_insert_eq. simplify_eq. eauto.
  - rewrite lookup_insert_ne by done. by exists j0.
Qed.

Lemma row_grows_running j j' :
  j_state j = RenditionJobRunning → j_identity j' = j_identity j → (j_epoch j ≤ j_epoch j')%Z → row_grows j j'.
Proof. intros Hs Hi He. split_and!; [done|done|congruence]. Qed.

(** A command, as a function of the tables, keeps what may be kept under [guard]. *)
Definition sound (guard : rendition_db → Prop) (f : rendition_db → rendition_db) : Prop :=
  ∀ d, jobs_grow d (f d) ∧ (rdb_ok d → guard d → rdb_ok (f d)).
Notation always := (λ _ : rendition_db, True).

Lemma run_tx_sound {A} guard (body : rendition_db → rres (rendition_db * rres A)) :
  (∀ d d' a, body d = Ok (d', a) → jobs_grow d d' ∧ (rdb_ok d → guard d → rdb_ok d')) →
  sound guard (λ d, (run_tx d (body d)).1).
Proof. intros Hb d. apply run_tx_inv; [done|]. intros d' a. apply Hb. Qed.

(** *** Claims *)

(** The three ends of a claim. *)
Inductive claim_outcome (id owner : string) (at_ lease : Z) (d : rendition_db) : rendition_db → rres RenditionJobClaim → Prop :=
  | claim_refused e : claim_outcome id owner at_ lease d d (Err e)
  | claim_quarantined j holder expiry :
      rd_jobs d !! id = Some j → j_state j = RenditionJobRunning → j_claim j = Some (holder, expiry) → (expiry ≤ at_)%Z →
      renditionJobProviderBoundaryAmbiguous (j_phase j) (j_started j) (bool_decide (is_Some (j_handle j))) = true →
      claim_outcome id owner at_ lease d (set_job id (quarantine_row at_ j) d) (Err ErrRenditionJobOperatorRequired)
  | claim_granted j roots :
      rd_jobs d !! id = Some j → live_state (j_state j) → validRenditionWorkerOwner owner = true →
      (∀ holder expiry, j_claim j = Some (holder, expiry) → j_state j = RenditionJobRunning → (expiry ≤ at_)%Z) →
      refreshRenditionJobRootsTx (target_present (rd_catalog d)) (rd_roots d) id (j_phase j) (j_generation j)
        (j_epoch j + 1) at_ = Ok roots →
      claim_outcome id owner at_ lease d (with_roots (set_job id (claim_row owner (at_ + lease) at_ j) d) roots)
        (Ok (mkClaim id owner (j_epoch j + 1) (j_attempts j) (at_ + lease) (j_phase j) (default "" (j_handle j)))).

Lemma live_state_dec s :
  s ≠ RenditionJobOperatorRequired → s ∉ [RenditionJobCompleted; RenditionJobFailed] → live_state s.
Proof.
  clear. unfold live_state. destruct s; intros; try done; try (by auto); set_solver. Qed.

Lemma ClaimRenditionJob_outcome id owner at_ lease d :
  claim_outcome id owner at_ lease d (ClaimRenditionJob id owner at_ lease d).1 (ClaimRenditionJob id owner at_ lease d).2.
Proof.
  unfold ClaimRenditionJob, run_tx. destruct (mbind _ _) as [[d' r]|e] eqn:Hb; [|apply claim_refused].
  repeat res_inv1. rename a2 into j. rename select (rd_jobs _ !! _ = _) into Hj.
  case_bool_decide as Hop; [injection Hb as <- <-; apply claim_refused|]. repeat res_inv1.
  rename select (negb (bool_decide (_ ∈ _)) = true) into Hterm. apply negb_true_iff, bool_decide_eq_false in Hterm.
  rename select (expired_ambiguous _ _ = _) into Hexp. unfold expired_ambiguous in Hexp.
  destruct a3.
  - injection Hb as <- <-. case_bool_decide as Hrun; repeat res_inv1; [|discriminate]. destruct a3 as [holder expiry]. repeat res_inv1.
    rename select (negb (_ <? _)%Z = true) into Hx. apply negb_true_iff, Z.ltb_ge in Hx.
    by eapply claim_quarantined.
  - repeat res_inv1. injection Hb as <- <-. cbn. apply claim_granted; try done.
    + by apply live_state_dec.
    + intros holder expiry Hc Hrun. rewrite bool_decide_eq_true_2, Hc in Hexp by done. cbn in Hexp. repeat res_inv1.
      rename select (negb (_ <? expiry)%Z = true) into Hx. by apply negb_true_iff, Z.ltb_ge in Hx.
Qed.

Lemma wanted_live j : live_state (j_state j) → wanted j.
Proof. by left. Qed.

Lemma ClaimRenditionJob_sound id owner at_ lease : sound always (λ d, (ClaimRenditionJob id owner at_ lease d).1).
Proof.
  intros d. destruct (ClaimRenditionJob_outcome id owner at_ lease d)
    as [e|j holder expiry Hj Hs Hc Hx Ha|j roots Hj Hs Ho Hx Hr]; [by split| |].
  - split.
    + eapply jobs_grow_update; [done..|]. by apply row_grows_running.
    + intros Hd _. pose proof (job_ok_at d id j Hd Hj) as [Hrow Hroots].
      destruct (ambiguous_provider _ j Hrow Hs Ha) as (Hp & _). apply rdb_ok_set_job; [done|].
      eapply job_ok_mono; [done|by apply quarantine_row_ok|done|].
      intros [Hw|[Hw _]]; cbn in Hw; [by destruct Hw as [?|[?|?]]|done].
  - split.
    + eapply jobs_grow_update; [done..|]. split_and!; [done|cbn; lia|]. intros Hs'. by destruct Hs as [?|[?|?]]; congruence.
    + intros Hd _. pose proof (job_ok_at d id j Hd Hj) as [Hrow Hroots].
      pose proof (refreshRenditionJobRootsTx_Ok _ _ _ _ _ _ _ _ Hr) as (Hother & Ht & Hb & Hg).
      pose proof (jr_token Hroots). eapply rdb_ok_update; [exact Hd|done|done| | |apply Hd].
      * split; [by apply claim_row_ok|]. split; cbn; [lia|auto..].
      * eapply refresh_present; [done|apply Hd].
Qed.

Lemma claim_scan_sound owner at_ lease ids : sound always (λ d, (claim_scan owner at_ lease ids d).1).
Proof.
  induction ids as [|id ids IH]; intros d; [by split|]. cbn.
  destruct (ClaimRenditionJob_sound id owner at_ lease d) as [Hg Hok].
  destruct (ClaimRenditionJob id owner at_ lease d) as [d1 [claim|e]]; cbn in *; [done|].
  case_bool_decide; cbn; [|done]. destruct (IH d1) as [Hg' Hok']. split; [by etrans|auto].
Qed.

Lemma ClaimNextRenditionJob_sound owner at_ lease : sound always (λ d, (ClaimNextRenditionJob owner at_ lease d).1).
Proof. intros d. apply claim_scan_sound. Qed.

(** A command under a claim that only rewrites its row. *)
Lemma set_claimed_sound guard d claim at_ j j' :
  requireRenditionClaimTx d claim at_ = Ok j → j_identity j' = j_identity j → (j_epoch j ≤ j_epoch j')%Z →
  (rdb_ok d → guard d → row_ok (restarted (cl_JobID claim)) j → row_ok (restarted (cl_JobID claim)) j' ∧
    (wanted j' → staged (j_phase j') → j_phase j' = j_phase j ∧ j_generation j' = j_generation j)) →
  jobs_grow d (set_job (cl_JobID claim) j' d) ∧ (rdb_ok d → guard d → rdb_ok (set_job (cl_JobID claim) j' d)).
Proof.
  intros (expiry & Hj & Hs & _)%requireRenditionClaimTx_Ok Hi He Hok. split.
  - eapply jobs_grow_update; [done..|]. by apply row_grows_running.
  - intros Hd Hguard. pose proof (job_ok_at d _ j Hd Hj) as Hjok. destruct (Hok Hd Hguard (proj1 Hjok)) as [Hrow Hw].
    apply rdb_ok_set_job; [done|]. eapply job_ok_mono; [done..|]. intros Hw' Hst.
    split; [by apply running_wanted|auto].
Qed.

Lemma RenewRenditionJobClaim_sound claim at_ lease : sound always (λ d, (RenewRenditionJobClaim claim at_ lease d).1).
Proof.
  apply run_tx_sound. intros d d' r Hb. repeat res_inv1. injection Hb as <- _.
  rename select (requireRenditionClaimTx _ _ _ = _) into Hc. eapply (set_claimed_sound always); [done|done|done|].
  intros _ _ Hrow. apply requireRenditionClaimTx_Ok in Hc as (expiry & _ & Hs & Hcl & _). split; [|done].
  apply renew_row_ok; [done..|]. by eapply (ro_owner _ Hrow).
Qed.

Lemma RenditionJobWorkByClaim_sound claim at_ : sound always (λ d, (RenditionJobWorkByClaim vault claim at_ d).1).
Proof.
  apply run_tx_sound. intros d d' r Hb. res_inv1. rename a into j, H3 into Hc. cbv zeta in Hb.
  do 2 res_inv1. destruct (j_selected j) as [waiterID|]; [repeat res_inv1; by injection Hb as <- _|].
  destruct (selectRenditionJobWaiterTx _ _ _ _ _) as [d1 [[waiterID authorization]|e]] eqn:Hsel;
    apply select_from_only in Hsel as Hw; try apply select_from_fence in Hsel; pose proof (only_waiters_eq d d1 Hw) as (Hjobs & Hroots & Hcat & _).
  - repeat res_inv1. injection Hb as <- _.
    destruct (set_claimed_sound always d claim at_ j (select_row waiterID authorization at_ j) Hc) as [Hg Hok];
      [done|done|intros _ _ Hrow; split; [by apply select_row_ok|done]|]. split.
    + etrans; [exact Hg|]. apply jobs_grow_eq. cbn. by rewrite Hjobs.
    + intros Hd _. destruct (Hok Hd I) as [Hj Hp _]. destruct (only_waiters_rdb_ok d d1 Hw Hd) as [_ _ Hws].
      split; cbn in *; [by rewrite Hjobs, Hroots|by rewrite Hcat, Hroots|done].
  - injection Hb as <- _. split; [by apply jobs_grow_eq|]. intros Hd _. by eapply only_waiters_rdb_ok.
Qed.

(** A statement on the claimed job after a change of waiters. *)
Lemma set_claimed_after_waiters (guard : rendition_db → Prop) d d1 claim (j' : job_row) :
  only_waiters d d1 →
  jobs_grow d (set_job (cl_JobID claim) j' d) ∧ (rdb_ok d → guard d → rdb_ok (set_job (cl_JobID claim) j' d)) →
  jobs_grow d (set_job (cl_JobID claim) j' d1) ∧ (rdb_ok d → guard d → rdb_ok (set_job (cl_JobID claim) j' d1)).
Proof.
  intros Hw [Hg Hok]. pose proof (only_waiters_eq d d1 Hw) as (Hjobs & Hroots & Hcat & _). split.
  - etrans; [exact Hg|]. apply jobs_grow_eq. cbn. by rewrite Hjobs.
  - intros Hd Hguard. destruct (Hok Hd Hguard) as [Hj Hp _]. destruct (only_waiters_rdb_ok d d1 Hw Hd) as [_ _ Hws].
    split; cbn in *; [by rewrite Hjobs, Hroots|by rewrite Hcat, Hroots|done].
Qed.

Lemma reject_waiting_only waiterID id at_ d : only_waiters d (reject_waiting waiterID id at_ d).
Proof.
  unfold reject_waiting. destruct (rd_waiters d !! waiterID); [|done]. destruct (_ && _); [apply mark_waiter_only|done].
Qed.

(** *** The provider boundary *)

(** A worker starts a provider call once under a claim: on a fresh job, or to
    resume a call that left a handle (rendition_worker.go). *)
Definition starts_fresh_or_resumes (claim : RenditionJobClaim) (d : rendition_db) : Prop :=
  ∀ j, rd_jobs d !! cl_JobID claim = Some j →
    j_phase j = RenditionPhaseQueued ∨ j_phase j = RenditionPhaseProvider ∧ is_Some (j_handle j).

Lemma check_snapshot_sealed j sealing :
  check_snapshot j sealing = Ok () → is_Some (fst <$> sealing) ∨ is_Some (j_snapshot j).
Proof.
  unfold check_snapshot. destruct sealing as [[text fingerprint]|]; intros Hc; repeat res_inv1; [left; by eexists|].
  apply andb_true_iff in Hc as [?%bool_decide_eq_true _]. by right.
Qed.

Lemma BeginRenditionProvider_sound claim waiterID at_ snapshot :
  sound (starts_fresh_or_resumes claim) (λ d, (BeginRenditionProvider vault claim waiterID at_ snapshot d).1).
Proof.
  apply run_tx_sound. intros d d' r Hb. res_inv1. res_inv1. cbv zeta in Hb. do 3 res_inv1.
  rename a into sealing, a0 into j. rename select (requireRenditionClaimTx _ _ _ = _) into Hc.
  rename select (check_snapshot _ _ = _) into Hsn. destruct a2. apply check_snapshot_sealed in Hsn.
  pose proof (requireRenditionClaimTx_Ok d claim at_ j Hc) as (expiry & Hj & Hs & _).
  destruct (mbind _ _) as [authorization|e] eqn:Hau.
  - injection Hb as <- _. eapply set_claimed_sound; [done|done|done|]. intros _ _ Hrow.
    split; [apply begin_row_ok; try done|by intros _ [|]]. res_inv1. by eapply authorize_fence.
  - destruct (_ || _); [|done].
    destruct (selectRenditionJobWaiterTx _ _ _ _ _) as [d1 [[next authorization]|selectErr]] eqn:Hsel;
      pose proof (select_from_only _ _ _ _ _ _ _ _ Hsel) as Hsel'; try apply select_from_fence in Hsel;
      assert (only_waiters d d1) as Hw by (etrans; [apply reject_waiting_only|exact Hsel']).
    + injection Hb as <- _. eapply set_claimed_after_waiters; [done|]. eapply set_claimed_sound; [done|done|cbn; lia|].
      intros _ Hguard Hrow. specialize (Hguard j Hj). split; [by apply reselect_row_ok|done].
    + repeat res_inv1. injection Hb as <- _. split; [by apply jobs_grow_eq, (only_waiters_eq d d1)|].
      intros Hd _. by eapply only_waiters_rdb_ok.
Qed.

Lemma CheckpointRenditionProvider_sound claim handle at_ :
  sound always (λ d, (CheckpointRenditionProvider claim handle at_ d).1).
Proof.
  apply run_tx_sound. intros d d' r Hb. repeat res_inv1. injection Hb as <- _.
  rename select (bool_decide _ = true) into Hp. apply bool_decide_eq_true in Hp.
  eapply (set_claimed_sound always); [done|done|done|]. intros _ _ Hrow. split; [by apply checkpoint_row_ok|done].
Qed.

Lemma MarkRenditionJobRetry_sound claim code at_ availableAt :
  sound always (λ d, (MarkRenditionJobRetry claim code at_ availableAt d).1).
Proof.
  apply run_tx_sound. intros d d' r Hb. repeat res_inv1. injection Hb as <- _.
  rename select (requireRenditionClaimTx _ _ _ = _) into Hc.
  pose proof (requireRenditionClaimTx_Ok d claim at_ _ Hc) as (expiry & Hj & Hs & _).
  eapply (set_claimed_sound always); [done| | |].
  - unfold retry_row. by destruct (abandoned _).
  - unfold retry_row. by destruct (abandoned _).
  - intros _ _ Hrow. split; [by apply retry_row_ok|]. unfold retry_row, abandoned.
    destruct (bool_decide _ && _) eqn:Ha; [|done]. by intros _ [|].
Qed.

(** *** Terminal states *)

Lemma reopenable_staged_iff state code j : reopenable_staged state code j = true ↔
  state = RenditionJobFailed ∧ reopenable_code (Some code) ∧ staged (j_phase j).
Proof.
  clear. unfold reopenable_staged, reopenable_code, staged. rewrite !andb_true_iff, !bool_decide_eq_true.
  split; [intros [[? ?] ?]; set_solver|]. intros (? & [[= ->]|[= ->]] & [-> | ->]); set_solver.
Qed.

Lemma finishRenditionJobClaim_sound guard claim at_ state code :
  (∀ d j, guard d → rd_jobs d !! cl_JobID claim = Some j → row_ok (restarted (cl_JobID claim)) j → j_state j = RenditionJobRunning →
    row_ok (restarted (cl_JobID claim)) (finish_row state code at_ j)) →
  state = RenditionJobFailed ∨ state = RenditionJobOperatorRequired →
  sound guard (λ d, (finishRenditionJobClaim claim at_ state code d).1).
Proof.
  intros Hrow' Hstate. apply run_tx_sound. intros d d' r Hb. res_inv1. cbv zeta in Hb. rename a into j.
  rename select (requireRenditionClaimTx _ _ _ = _) into Hc.
  pose proof (requireRenditionClaimTx_Ok d claim at_ j Hc) as (expiry & Hj & Hs & _ & He & _).
  destruct (reopenable_staged state code j) eqn:Hre; cbn [andb] in Hb.
  - pose proof (proj1 (reopenable_staged_iff _ _ _) Hre) as (-> & Hcode & Hst).
    destruct (has_waiting d (cl_JobID claim)); injection Hb as <- _.
    + eapply set_claimed_sound; [done|done|done|]. intros Hd Hguard Hrow. split; [by eapply Hrow'|done].
    + split; [eapply jobs_grow_update; [done..|]; by apply row_grows_running|].
      intros Hd Hguard. pose proof (job_ok_at d _ j Hd Hj) as [Hrow Hroots].
      eapply rdb_ok_update; [exact Hd|done| | | |apply Hd]; cbn.
      * intros rid Hr. by apply release_job_roots_only.
      * split; [by apply orphan_row_ok; [eapply Hrow'|]|].
        apply job_roots_ok_release; [apply Hroots|]. by intros _ [|].
      * apply release_present, Hd.
  - injection Hb as <- _. split; [eapply jobs_grow_update; [done..|]; by apply row_grows_running|].
    intros Hd Hguard. pose proof (job_ok_at d _ j Hd Hj) as [Hrow Hroots].
    eapply rdb_ok_update; [exact Hd|done| | | |apply Hd]; cbn.
    + intros rid Hr. by apply release_job_roots_only.
    + split; [by eapply Hrow'|]. apply job_roots_ok_release; [apply Hroots|].
      intros [Hw|[Hw Hcode]] Hst; cbn in *.
      * destruct Hstate as [-> | ->]; by destruct Hw as [|[|]].
      * apply not_true_iff_false in Hre. apply Hre, reopenable_staged_iff. done.
    + apply release_present, Hd.
Qed.

(** A worker asks for its operator only about a provider call. *)
Definition at_provider (claim : RenditionJobClaim) (d : rendition_db) : Prop :=
  ∀ j, rd_jobs d !! cl_JobID claim = Some j → j_phase j = RenditionPhaseProvider.

Lemma MarkRenditionJobOperatorRequired_sound claim at_ :
  sound (at_provider claim) (λ d, (MarkRenditionJobOperatorRequired claim at_ d).1).
Proof.
  apply finishRenditionJobClaim_sound; [|by right]. intros d j Hguard Hj Hrow Hs. by apply finish_operator_ok; [|apply Hguard].
Qed.

Lemma MarkRenditionJobFailed_sound claim code at_ : sound always (λ d, (MarkRenditionJobFailed claim code at_ d).1).
Proof.
  intros d. unfold MarkRenditionJobFailed. case_bool_decide; [|done].
  apply (finishRenditionJobClaim_sound always); [|by left]. intros d' j _ Hj Hrow Hs. by apply finish_failed_ok.
Qed.

(** *** Staging *)

Lemma StageRenditionJobBuild_sound claim record at_ : sound always (λ d, (StageRenditionJobBuild vault claim record at_ d).1).
Proof.
  apply run_tx_sound. intros d d' r Hb. res_inv1. cbv zeta in Hb. repeat res_inv1. injection Hb as <- _.
  rename select (requireRenditionClaimTx _ _ _ = _) into Hc. rename select (stageRenditionBuildTx _ _ = _) into Hst.
  rename select (putRenditionJobRootTx _ _ _ = _) into Hput.
  rename select (String.eqb (bi_vault _) _ && _ = true) into Hid. apply andb_true_iff in Hid as [_ Hid%eqb_iff].
  pose proof (requireRenditionClaimTx_Ok d claim at_ _ Hc) as (expiry & Hj & Hs & _ & He & _).
  unfold stageRenditionBuildTx in Hst. repeat res_inv1. apply insert_build_Ok in Hst as [Hkeep Hpres].
  rename select catalog into c. split; [eapply jobs_grow_update; [done..|]; by apply row_grows_running|].
  intros Hd _. pose proof (job_ok_at d _ _ Hd Hj) as [Hrow Hroots]. pose proof (jr_token Hroots).
  assert (present_ok (target_present c) (rd_roots d)) as Hpo by (eapply present_ok_weaken; [intros; by apply Hkeep|apply Hd]).
  pose proof (putRenditionJobRootTx_Ok _ _ _ _ Hput eq_refl) as (Hb & Ht & Ho & Hle). cbn in *. rewrite Hid in *.
  eapply rdb_ok_update; [exact Hd|done| | | |apply Hd]; cbn.
  - intros rid [? _]. by apply Ho.
  - split; [by apply build_staged_row_ok|]. split; [|by right|done].
    etrans; [eapply job_root_token_put; [by left|done..]|]. cbn. lia.
  - by eapply put_job_present.
Qed.

Lemma retarget_generation_root_Ok roots id target epoch at_ roots' :
  retarget_generation_root roots id target epoch at_ = Ok roots' →
  rooted roots' (generation_id id) RenditionRootLexicalGeneration target ∧
  root_token roots' (generation_id id) = root_token roots (generation_id id) ∧ only_root roots roots' (generation_id id) ∧
  (∀ present, present RenditionRootLexicalGeneration target = true → present_ok present roots → present_ok present roots').
Proof.
  unfold retarget_generation_root. destruct (roots !! _) as [[stored []]|] eqn:Hl; intros Hr; repeat res_inv1; subst; [|done..].
  rename select (_ && _ = true) into Hk. rewrite !andb_true_iff, !bool_decide_eq_true in Hk. destruct Hk as [[Hk Htk] _].
  split_and!.
  - eexists. rewrite lookup_insert_eq. split; [done|]. done.
  - unfold root_token. by rewrite lookup_insert_eq, Hl.
  - intros r Hne. by rewrite lookup_insert_ne.
  - intros present Hp Hok rid row. intros [[<- <-]|[_ ?]]%lookup_insert_Some; [|by apply (Hok rid)].
    intros _. split; [by apply (Hok _ _ Hl)|cbn; by rewrite Htk].
Qed.

Lemma StageRenditionJobGeneration_sound claim generationID at_ :
  sound always (λ d, (StageRenditionJobGeneration claim generationID at_ d).1).
Proof.
  apply run_tx_sound. intros d d' r Hb. do 2 res_inv1. cbv zeta in Hb. do 2 res_inv1. destruct a2 as [c generation]. res_inv1.
  injection Hb as <- _. rename a0 into j, a2 into roots'.
  rename select (requireRenditionClaimTx _ _ _ = _) into Hc. rename select (stageLexicalGenerationTx _ _ = _) into Hst.
  rename select (_ = Ok roots') into Hput.
  rename select (check (bool_decide _) _ = _) into Hph. apply check_Ok_iff, bool_decide_eq_true in Hph.
  pose proof (requireRenditionClaimTx_Ok d claim at_ _ Hc) as (expiry & Hj & Hs & _ & He & _).
  apply stage_generation_Ok in Hst as (-> & Hkeep & Hpres).
  split; [eapply jobs_grow_update; [done..|]; by apply row_grows_running|].
  intros Hd _. pose proof (job_ok_at d _ _ Hd Hj) as [Hrow Hroots]. pose proof (jr_token Hroots).
  assert (present_ok (target_present c) (rd_roots d)) as Hpo by (eapply present_ok_weaken; [intros; by apply Hkeep|apply Hd]).
  assert (staged (j_phase j)) as Hstaged by (unfold staged; set_solver).
  pose proof (jr_build Hroots (running_wanted j Hs) Hstaged) as Hbuild.
  assert (rooted roots' (generation_id (cl_JobID claim)) RenditionRootLexicalGeneration generationID ∧
    (job_root_token roots' (cl_JobID claim) ≤ j_epoch j)%Z ∧ only_root (rd_roots d) roots' (generation_id (cl_JobID claim)) ∧
    present_ok (target_present c) roots') as (Hg & Ht & Ho & Hpo').
  { case_bool_decide.
    - apply retarget_generation_root_Ok in Hput as (Hg & Ht & Ho & Hp). split_and!; try done; [|by apply Hp].
      unfold job_root_token in *. rewrite Ht.
      assert (root_token roots' (build_id (cl_JobID claim)) = root_token (rd_roots d) (build_id (cl_JobID claim))) as ->; [|done].
      unfold root_token. by rewrite Ho by apply build_generation_ne.
    - pose proof (put_job_present _ _ _ _ Hput eq_refl Hpo). apply putRenditionJobRootTx_Ok in Hput as (Hg & Ht & Ho & Hle); [|done].
      cbn in *. split_and!; try done. etrans; [eapply job_root_token_put; [by right|done..]|]. cbn. lia. }
  eapply rdb_ok_update; [exact Hd|done| | |exact Hpo'|apply Hd]; cbn.
  - intros rid [_ ?]. by apply Ho.
  - split; [by apply generation_staged_row_ok|]. split; [done| |].
    + intros _ _. destruct Hbuild as [?|Hbuild]; [by left|right]. eapply rooted_other; [apply Ho, build_generation_ne|done].
    + intros _ _. right. eauto.
Qed.

(** *** Publication *)

(** The generation of an active root that does not expire is held. *)
Lemma rooted_held readers d rid row :
  rd_roots d !! rid = Some row → rr_active row = true → rt_ExpiresAt (rr_root row) = None →
  rt_TargetKind (rr_root row) = RenditionRootLexicalGeneration →
  held_generation readers d (rt_TargetID (rr_root row)) = true.
Proof.
  intros Hl Ha He Hk. unfold held_generation. apply orb_true_iff. left. apply orb_true_iff. left.
  apply existsb_exists. exists (rid, row). split; [by apply list_elem_of_In, elem_of_map_to_list|]. cbn.
  by rewrite Ha, He, Hk, String.eqb_refl.
Qed.

Lemma PublishRenditionJob_sound readers claim at_ : sound always (λ d, (PublishRenditionJob vault readers claim at_ d).1).
Proof.
  apply run_tx_sound. intros d d' r Hb. res_inv1. cbv zeta in Hb. do 3 res_inv1. res_inv1. destruct a3 as [authorized rejected].
  do 2 res_inv1. injection Hb as <- _. rename a into j. rename select (requireRenditionClaimTx _ _ _ = _) into Hc.
  rename select catalog into c. rename select (_ = Ok c) into Hpub.
  pose proof (requireRenditionClaimTx_Ok d claim at_ _ Hc) as (expiry & Hj & Hs & _).
  apply publish_Ok in Hpub as [Hkeep _].
  set (d1 := foldl (mark_waiter WaiterRejected at_) _ rejected).
  assert (only_waiters (with_catalog d c) d1) as Hw by (etrans; [apply fold_mark_only|apply fold_mark_only]).
  pose proof (only_waiters_eq _ _ Hw) as (Hjobs & Hroots & Hcat & _). cbn in Hjobs, Hroots, Hcat.
  assert (rd_jobs (set_job (cl_JobID claim) (complete_row at_ j) d1) = <[cl_JobID claim := complete_row at_ j]> (rd_jobs d))
    as Hd' by (cbn; by rewrite Hjobs).
  split; [eapply jobs_grow_update; [done|exact Hd'|by apply row_grows_running]|].
  intros Hd _. pose proof (job_ok_at d _ _ Hd Hj) as [Hrow Hro].
  eapply rdb_ok_update; [exact Hd|exact Hd'| | | |]; cbn; rewrite ?Hcat, ?Hroots.
  - intros rid Hr. by apply release_job_roots_only.
  - split; [by apply complete_row_ok|]. apply job_roots_ok_release; [apply Hro|]. by intros _ [|].
  - apply release_present. eapply present_ok_weaken; [|apply Hd]. intros rid row Hl Ha He. apply Hkeep. intros Hk. cbn.
    by eapply rooted_held.
  - apply Hw, Hd.
Qed.

(** *** Enqueue *)

(** Between two states a completed job whose build was collected has been
    queued again over its sealed snapshot. *)
Definition sealed_restart (d d' : rendition_db) (id : string) : Prop :=
  ∃ j j', rd_jobs d !! id = Some j ∧ j_state j = RenditionJobCompleted ∧ is_Some (j_snapshot j) ∧
    loadRenditionBuild (rd_catalog d) id = Err ErrRenditionNotFound ∧
    rd_jobs d' !! id = Some j' ∧ j_state j' = RenditionJobQueued ∧ j_snapshot j' = j_snapshot j.

Lemma jobs_grow_insert d d' id j' :
  (∀ j, rd_jobs d !! id = Some j → row_grows j j') → rd_jobs d' = <[id := j']> (rd_jobs d) → jobs_grow d d'.
Proof.
  intros Hg He id' j Hj. rewrite He. destruct (decide (id = id')) as [<-|Hne].
  - rewrite lookup_insert_eq. eauto.
  - rewrite lookup_insert_ne by done. by exists j.
Qed.

(** What reopening a failed job leaves of it. *)
Lemma reopen_shape now j :
  let j' := reopen_resume now (reopen_safe now j) in
  j_identity j' = j_identity j ∧ j_epoch j' = j_epoch j ∧ j_phase j' = j_phase j ∧ j_generation j' = j_generation j ∧
  j_snapshot j' = j_snapshot j ∧ (j_state j' = j_state j ∨ j_state j = RenditionJobFailed ∧ j_state j' = RenditionJobQueued) ∧
  (wanted j' → wanted j) ∧ (∀ R, row_ok R j → row_ok R j').
Proof.
  cbv zeta. split_and!; unfold reopen_resume, reopen_safe.
  1-5: by repeat case_match.
  - destruct (reopens_safe j) eqn:Hs.
    + apply reopens_safe_iff in Hs as [Hs _]. case_match; by right.
    + case_match; [|by left]. right. rename select (reopens_resume j = true) into Hr. by apply reopens_resume_iff in Hr as [Hr _].
  - destruct (reopens_safe j) eqn:Hs.
    + intros _. apply reopens_safe_iff in Hs as (Hs & _ & Hf). by right.
    + case_match; [|done]. intros _. rename select (reopens_resume j = true) into Hr.
      apply reopens_resume_iff in Hr as (Hr & _ & _ & _ & Hf). by right.
  - intros R Hrow. apply reopen_resume_ok, reopen_safe_ok, Hrow.
Qed.

(** The last step of an enqueue. *)
Lemma reuse_or_restart_cases jobID source i now d d' j :
  rd_jobs d !! jobID = Some j → reuse_or_restart jobID source i now d = Ok d' →
  (loadRenditionBuild (rd_catalog d) jobID ≠ Err ErrRenditionNotFound ∧ d' = d)
  ∨ (∃ roots build, loadRenditionBuild (rd_catalog d) jobID = Ok build ∧ reusable j = true ∧
      putCurrentRenditionRootTx (target_present (rd_catalog d)) (rd_roots d) (build_root jobID jobID (j_epoch j + 1) now) = Ok roots ∧
      d' = with_roots (set_job jobID (requeued RenditionPhaseBuildStaged now j) d) roots)
  ∨ (loadRenditionBuild (rd_catalog d) jobID = Err ErrRenditionNotFound ∧ d' = set_job jobID (restart_collected now j) d).
Proof.
  unfold reuse_or_restart. intros -> Hr. cbn in Hr. destruct (loadRenditionBuild _ _) as [build|[]] eqn:Hl; try done.
  - res_inv1. destruct (reusable j) eqn:Hre; [|injection Hr as <-; by left].
    res_inv1. injection Hr as <-. right; left. eauto 10.
  - injection Hr as <-. by right; right.
Qed.

Lemma ensureProcessingProfileTx_Ok d record d' :
  ensureProcessingProfileTx d record = Ok d' →
  rd_jobs d' = rd_jobs d ∧ rd_waiters d' = rd_waiters d ∧ rd_roots d' = rd_roots d ∧ rd_catalog d' = rd_catalog d.
Proof.
  unfold ensureProcessingProfileTx. destruct (rd_profiles d !! _); intros He; repeat res_inv1; by subst.
Qed.

Lemma join_waiter_ok id jobID version i now d : waiters_ok (rd_waiters d) → waiters_ok (rd_waiters (join_waiter id jobID version i now d)).
Proof.
  intros Hw id' w. cbn. intros [[<- <-]|[_ Hl]]%lookup_insert_Some; [|by apply (Hw id')].
  destruct (rd_waiters d !! id) as [w|] eqn:Hl; [exact (Hw id w Hl)|done].
Qed.

(** Everything an enqueue that commits did, up to its last step. *)
Record enqueued (request : RenditionJobRequest) (now : Z) (d d' : rendition_db) (answer : rres (RenditionJob * RenditionJobWaiter)) : Prop := mkEnqueued {
  en_shape : ∃ i source j0 d3,
    let id := job_id vault source i in
    let j := reopen_resume now (reopen_safe now (set_epoch (Z.max (j_epoch j0) (job_root_token (rd_roots d) id)) j0)) in
    (rd_jobs d !! id = Some j0 ∨ rd_jobs d !! id = None ∧ j0 = new_job (job_identity_of vault source i now) now) ∧
    j_state j ≠ RenditionJobOperatorRequired ∧ j_state j ≠ RenditionJobFailed ∧
    rd_jobs d3 = <[id := j]> (rd_jobs d) ∧ rd_roots d3 = rd_roots d ∧ rd_catalog d3 = rd_catalog d ∧
    (waiters_ok (rd_waiters d) → waiters_ok (rd_waiters d3)) ∧
    (already_active d3 id (rq_ContentVersionID request) (pp_Fingerprint (eq_profile i))
       (attachment_id id (rq_ContentVersionID request) (pp_Fingerprint (eq_profile i))) = true ∧ only_waiters d3 d'
     ∨ already_active d3 id (rq_ContentVersionID request) (pp_Fingerprint (eq_profile i))
         (attachment_id id (rq_ContentVersionID request) (pp_Fingerprint (eq_profile i))) = false ∧
       reuse_or_restart id source i now d3 = Ok d') ∧
    ∃ job waiter, answer = Ok (job, waiter) ∧ rj_ID job = id ∧ loadRenditionJobTx d' id = Ok job;
}.

Lemma insert_job_spec id identity now d :
  rd_roots (insert_job id identity now d) = rd_roots d ∧ rd_catalog (insert_job id identity now d) = rd_catalog d ∧
  rd_waiters (insert_job id identity now d) = rd_waiters d ∧
  (∀ j, <[id := j]> (rd_jobs (insert_job id identity now d)) = <[id := j]> (rd_jobs d)) ∧
  (∀ j, rd_jobs (insert_job id identity now d) !! id = Some j →
    rd_jobs d !! id = Some j ∨ rd_jobs d !! id = None ∧ j = new_job identity now).
Proof.
  unfold insert_job. destruct (rd_jobs d !! id) eqn:Hl; cbn.
  - split_and!; try done. rewrite Hl. by left.
  - split_and!; try done; [intros; by rewrite insert_insert_eq|]. intros j. rewrite lookup_insert_eq. intros [= <-]. by right.
Qed.

Lemma EnqueueRenditionJob_enqueued request now d d' answer :
  EnqueueRenditionJob vault request now d = (d', answer) →
  enqueued request now d d' answer ∨ d' = d ∧ is_Ok answer = false.
Proof.
  unfold EnqueueRenditionJob, run_tx. destruct (mbind _ _) as [[d1 a]|e] eqn:Hb; intros [= <- <-]; [left|by right].
  res_inv1. cbv zeta in Hb. repeat res_inv1. injection Hb as <- <-.
  rename a0 into i, a1 into source, a2 into d2, a6 into j0, a10 into d4, a11 into job, a12 into waiter.
  rename select (ensureProcessingProfileTx _ _ = _) into Hp. rename select (rd_jobs _ !! _ = Some j0) into Hj0.
  rename select (_ = Ok d4) into Hlast. rename select (loadRenditionJobTx _ _ = _) into Hjob.
  apply ensureProcessingProfileTx_Ok in Hp as (Hpj & Hpw & Hpr & Hpc).
  pose proof (insert_job_spec (job_id vault source i) (job_identity_of vault source i now) now d2) as (Hir & Hic & Hiw & Hii & Hil).
  apply Hil in Hj0. rewrite Hir, Hpr, ?Hpj in *.
  set (j := reopen_resume now _) in *.
  set (d3 := join_waiter _ _ _ _ _ _) in *.
  split. exists i, source, j0, d3. cbv zeta. fold j. split_and!.
  - done.
  - rename select (negb (bool_decide (_ = RenditionJobOperatorRequired)) = true) into Hn.
    by apply negb_true_iff, bool_decide_eq_false in Hn.
  - rename select (negb (bool_decide (_ = RenditionJobFailed)) = true) into Hn.
    by apply negb_true_iff, bool_decide_eq_false in Hn.
  - unfold d3. cbn. by rewrite Hii.
  - unfold d3. cbn. by rewrite ?Hir, ?Hpr.
  - unfold d3. cbn. by rewrite Hic, Hpc.
  - intros Hw. apply join_waiter_ok. cbn. by rewrite Hiw, Hpw.
  - destruct (already_active _ _ _ _ _); [left|by right]. injection Hlast as <-. split; [done|apply mark_waiter_only].
  - exists job, waiter. split_and!; [done| |done]. unfold loadRenditionJobTx in Hjob. repeat res_inv1. by subst.
Qed.

(** The row after its epoch is synchronized and a safe failure reopened. *)
Lemma synced_ok d id identity now j0 :
  rdb_ok d → rd_jobs d !! id = Some j0 ∨ rd_jobs d !! id = None ∧ j0 = new_job identity now →
  job_ok (rd_roots d) id (reopen_resume now (reopen_safe now (set_epoch (Z.max (j_epoch j0) (job_root_token (rd_roots d) id)) j0))).
Proof.
  intros Hd Hj0. set (j1 := set_epoch _ j0).
  destruct (reopen_shape now j1) as (_ & Hep & Hph & Hgen & _ & _ & Hwant & Hrow).
  assert (job_ok (rd_roots d) id j1) as [Hr1 Ho1].
  { destruct Hj0 as [Hj0|[_ ->]].
    - destruct (job_ok_at d id j0 Hd Hj0) as [Hr Ho]. split; [apply set_epoch_ok; [done|lia]|].
      eapply job_roots_ok_mono; [done|cbn; lia|done].
    - split; [apply set_epoch_ok; [apply new_job_ok|cbn; lia]|]. split; cbn; [lia|by intros _ [|]|done]. }
  split; [by apply Hrow|]. eapply job_roots_ok_mono; [done|lia|auto].
Qed.

Lemma EnqueueRenditionJob_sound request now :
  sound (λ d, ∀ id, sealed_restart d (EnqueueRenditionJob vault request now d).1 id → restarted id)
    (λ d, (EnqueueRenditionJob vault request now d).1).
Proof.
  intros d. destruct (EnqueueRenditionJob vault request now d) as [d' answer] eqn:He. cbn.
  apply EnqueueRenditionJob_enqueued in He as [[(i & source & j0 & d3 & He)]|[-> _]]; [|done]. cbv zeta in He.
  destruct He as (Hj0 & Hno & Hnf & Hjobs & Hroots & Hcat & Hws & Hlast & _).
  set (id := job_id vault source i) in *. set (j1 := set_epoch _ j0) in *. set (j := reopen_resume now (reopen_safe now j1)) in *.
  destruct (reopen_shape now j1) as (Hid & Hep & Hph & Hgen & Hsn & Hst & Hwant & Hrow). fold j in Hid, Hep, Hph, Hgen, Hsn, Hst, Hwant, Hrow.
  assert (∀ j', rd_jobs d !! id = Some j' → j' = j0 ∧ j_state j' ≠ RenditionJobOperatorRequired) as Hold.
  { intros j' Hj'. destruct Hj0 as [Hj0|[Hj0 _]]; [|congruence]. split; [congruence|]. assert (j' = j0) as -> by congruence.
    destruct Hst as [Hst|[Hst _]]; [|by cbn in Hst; congruence]. cbn in Hst. congruence. }
  assert (∀ jf, j_identity jf = j_identity j0 → (j_epoch j0 ≤ j_epoch jf)%Z → rd_jobs d' = <[id := jf]> (rd_jobs d) → jobs_grow d d') as Hgrow.
  { intros jf Hi Hle Hd'. eapply jobs_grow_insert; [|exact Hd']. intros j' Hj'. destruct (Hold j' Hj') as [-> ?]. by split_and!. }
  pose proof (λ Hd, synced_ok d id (job_identity_of vault source i now) now j0 Hd Hj0) as Hjok. fold j1 in Hjok. fold j in Hjok.
  assert (j_epoch j0 ≤ j_epoch j)%Z as Hle by (rewrite Hep; cbn; lia).
  destruct Hlast as [[_ Hw]|[_ Hlast]].
  { pose proof (only_waiters_eq d3 d' Hw) as (Hwj & Hwr & Hwc & _). rewrite Hjobs in Hwj. split; [by eapply Hgrow|].
    intros Hd _. eapply rdb_ok_update; [exact Hd|exact Hwj| | | |]; rewrite ?Hwr, ?Hwc, ?Hroots, ?Hcat; [done|by apply Hjok|apply Hd|].
    apply Hw, Hws, Hd. }
  apply reuse_or_restart_cases with (j := j) in Hlast; [|rewrite Hjobs; apply lookup_insert_eq].
  destruct Hlast as [[_ ->]|[(roots & build & _ & Hre & Hput & ->)|[Hnone ->]]].
  - split; [by eapply Hgrow|]. intros Hd _. eapply rdb_ok_update; [exact Hd|exact Hjobs| | | |]; rewrite ?Hroots, ?Hcat;
      [done|by apply Hjok|apply Hd|apply Hws, Hd].
  - assert (rd_jobs (with_roots (set_job id (requeued RenditionPhaseBuildStaged now j) d3) roots)
      = <[id := requeued RenditionPhaseBuildStaged now j]> (rd_jobs d)) as Hd' by (cbn; by rewrite Hjobs, insert_insert_eq).
    split; [eapply Hgrow; [| |exact Hd']; cbn; [by rewrite Hid|lia]|].
    intros Hd _. rewrite Hroots, Hcat in Hput. pose proof (put_rooted _ _ _ _ Hput eq_refl) as (Hb & Ht & Ho & Hlt). cbn in *.
    destruct (Hjok Hd) as [Hrj Hoj]. pose proof (jr_token Hoj).
    eapply rdb_ok_update; [exact Hd|exact Hd'| | | |]; cbn; rewrite ?Hcat.
    + intros rid [? _]. by apply Ho.
    + split; [by apply requeued_staged_ok|]. split; cbn; [|by right|done].
      etrans; [eapply job_root_token_put; [by left|done..]|]. lia.
    + eapply put_present; [done|done|apply Hd].
    + apply Hws, Hd.
  - assert (rd_jobs (set_job id (restart_collected now j) d3) = <[id := restart_collected now j]> (rd_jobs d)) as Hd'
      by (cbn; by rewrite Hjobs, insert_insert_eq).
    split.
    { eapply Hgrow; [| |exact Hd']; unfold restart_collected; case_bool_decide; cbn; first [done | by rewrite Hid | lia]. }
    intros Hd Hguard. destruct (Hjok Hd) as [Hrj Hoj].
    eapply rdb_ok_update; [exact Hd|exact Hd'| | | |]; cbn; rewrite ?Hroots, ?Hcat; [done| |apply Hd|apply Hws, Hd].
    unfold restart_collected. case_bool_decide as Hcomp; [|done]. split.
    + apply requeued_queued_ok; [done|]. destruct (j_snapshot j) as [text|] eqn:Htext; [right|by left].
      destruct Hj0 as [Hj0|[_ ->]]; [|done]. apply (Hguard id). exists j0, (restart_collected now j).
      split_and!; [done| | |by rewrite <- Hcat| | |]; cbn in Hst, Hsn.
      * destruct Hst as [Hst|[_ Hst]]; congruence.
      * by rewrite <- Hsn.
      * rewrite Hd'. apply lookup_insert_eq.
      * unfold restart_collected. by rewrite bool_decide_eq_true_2.
      * unfold restart_collected. rewrite bool_decide_eq_true_2 by done. cbn. congruence.
    + split; cbn; [pose proof (jr_token Hoj); lia|by intros _ [|]|done].
Qed.
End facts.
