(* ===== verification/RenditionDelete.v ===== *)
(** * Deletion of rendition waiters (internal/store/rendition_delete.go)

    When content versions are deleted for good, or derivatives are purged, the
    waiters of the rendition queue that asked for them go.  Work whose selected
    waiter went is given to another one, queued again or fenced; the roots of
    jobs that nobody waits for are dropped, and jobs without any waiter are
    deleted, except where a provider call is unaccounted for.  What this does
    to the invariant of the queue. *)
From stdpp Require Import sorting.
From S2P Require Import Prelude GoText SearchText AuditEncoding Identity Sha256 ModelInput Chunking JsonText Consent Rendition RenditionRows RenditionRowFacts RenditionJobs RenditionJobFacts.

Definition by_job_id {A} (p q : string * A) : Prop := String.le p.1 q.1.
#[export] Instance by_job_id_dec {A} (p q : string * A) : Decision (by_job_id p q).
Proof. unfold by_job_id. apply _. Defined.

(** The selectors of a purge. *)
Record purge_selectors := mkSelectors {
  ps_versions : gset string; ps_attachments : gset string; ps_builds : gset string; ps_all : bool;
}.
(** Source, profile or attachment scope, and build. *)
Notation derivativePurgeSuppression := (string * string * string)%type.

Section deletion.
Context `{Sha256} `{RenditionContracts} `{RenditionCatalog} (vault : string).

(** ** Reconciliation *)

(** [selected_waiter_id IS NOT NULL AND NOT EXISTS(SELECT 1 FROM rendition_job_waiters …)] *)
Definition selection_deleted (d : rendition_db) (j : job_row) : bool :=
  match j_selected j with Some waiterID => bool_decide (rd_waiters d !! waiterID = None) | None => false end.
Definition clear_terminal (at_ : Z) (d : rendition_db) : rendition_db :=
  with_jobs d ((λ j, if bool_decide (j_state j ∈ [RenditionJobCompleted; RenditionJobOperatorRequired]) && selection_deleted d j
                     then clear_deleted_row at_ j else j) <$> rd_jobs d).
Definition affected_jobs (d : rendition_db) : list (string * job_row) :=
  merge_sort by_job_id (filter (λ p,
    bool_decide (j_state p.2 ∈ [RenditionJobQueued; RenditionJobRunning; RenditionJobRetryWait; RenditionJobFailed])
    && selection_deleted d p.2 = true) (map_to_list (rd_jobs d))).

(** One turn of the loop over the affected jobs, as they were read. *)
Definition reconcile_job (at_ : Z) (d : rendition_db) (p : string * job_row) : rres rendition_db :=
  let '(id, affectedJob) := p in
  job ← from_lookup (rd_jobs d !! id) ErrRenditionNotFound;
  if closed_failure affectedJob then Ok (set_job id (clear_deleted_row at_ job) d) else
  if negb (has_waiting d id) then Ok (set_job id (orphaned_row at_ job) d) else
  if bool_decide (j_state affectedJob = RenditionJobRunning) && provider_called affectedJob then
    match selectRenditionJobWaiterTx vault d id job at_ with
    | (d, Ok (waiterID, authorization)) => Ok (set_job id (select_row waiterID authorization at_ job) d)
    | (d, Err selectErr) =>
        _ ← check (bool_decide (selectErr ∈ [ErrRenditionConsent ErrProcessingConsentRequired; ErrRenditionJobStaleAuthority]))
              selectErr;
        Ok (set_job id (lost_call_row at_ job) d)
    end
  else
    roots ← refreshRenditionJobRootsTx (target_present (rd_catalog d)) (rd_roots d) id (j_phase affectedJob)
              (j_generation job) (j_epoch job + 1) at_;
    Ok (with_roots (set_job id (requeue_remaining_row at_ job) d) roots).

(** A root of a job of some kind that no waiter waits for. *)
Definition idle_root (d : rendition_db) (kind : job_row → bool) (rid : string) : bool :=
  existsb (λ p, (String.eqb rid (renditionJobRootID "build" p.1) || String.eqb rid (renditionJobRootID "generation" p.1))
                && kind p.2 && negb (has_waiting d p.1)) (map_to_list (rd_jobs d)).
Definition not_quarantined (j : job_row) : bool := negb (bool_decide (j_state j = RenditionJobOperatorRequired)).
Definition release_idle_roots (d : rendition_db) : rendition_db :=
  with_roots d (map_imap (λ rid row, Some (if rr_active row && idle_root d (λ _, true) rid
                                           then mkRootRow (rr_root row) false else row)) (rd_roots d)).
Definition drop_idle_roots (d : rendition_db) : rendition_db :=
  with_roots d (filter (λ p, idle_root d not_quarantined p.1 = false) (rd_roots d)).
Definition drop_idle_jobs (d : rendition_db) : rendition_db :=
  with_jobs d (filter (λ p, not_quarantined p.2 && (length (job_waiters d p.1) =? 0)%nat = false) (rd_jobs d)).

Definition reconcileRenditionJobsAfterWaiterDeletionTx (at_ : Z) (d : rendition_db) : rres rendition_db :=
  let d := clear_terminal at_ d in
  d ← foldM (reconcile_job at_) d (affected_jobs d);
  Ok (drop_idle_jobs (drop_idle_roots (release_idle_roots d))).

(** ** Deletion of content versions *)

Definition deleteRenditionAuthorityForVersionsTx (versionIDs : list string) (at_ : Z) (d : rendition_db) : rres rendition_db :=
  match versionIDs with
  | [] => Ok d
  | _ =>
      let d := with_catalog d (delete_version_authority (rd_catalog d) versionIDs) in
      let d := with_waiters d (filter (λ p, w_version p.2 ∉ versionIDs) (rd_waiters d)) in
      reconcileRenditionJobsAfterWaiterDeletionTx at_ d
  end.

(** ** Purge *)

(** The [LEFT JOIN] of jobs and waiters, in its order. *)
Definition purge_rows (d : rendition_db) : list (string * job_row * option (string * waiter_row)) :=
  p ← merge_sort by_job_id (map_to_list (rd_jobs d));
  match merge_sort by_job_id (job_waiters d p.1) with
  | [] => [(p, None)]
  | waiters => (λ w, (p, Some w)) <$> waiters
  end.
Definition selects_job (q : purge_selectors) (jobID : string) : bool := ps_all q || bool_decide (jobID ∈ ps_builds q).
Definition selects_waiter (q : purge_selectors) (jobID : string) (w : waiter_row) : bool :=
  selects_job q jobID || bool_decide (w_version w ∈ ps_versions q) || bool_decide (w_attachment w ∈ ps_attachments q).
(** The suppression that a matching row asks for. *)
Definition purge_scope (q : purge_selectors) (row : string * job_row * option (string * waiter_row)) :
    option derivativePurgeSuppression :=
  let '(id, j, waiter) := row in
  let source := ji_source (j_identity j) in
  if selects_job q id then Some (source, derivativeBuildSuppressionProfile, id)
  else '(_, w) ← waiter;
       if selects_waiter q id w then Some (source, derivativeAttachmentSuppressionScope (w_version w) (w_profile w), id) else None.
Definition purged_waiter (q : purge_selectors) (row : string * job_row * option (string * waiter_row)) : option string :=
  '(waiterID, w) ← row.2; if selects_waiter q row.1.1 w then Some waiterID else None.

Definition purgeRenditionJobWaitersTx (q : purge_selectors) (purgedAt : Z) (d : rendition_db) :
    rres (rendition_db * list derivativePurgeSuppression) :=
  let scopes := omap (purge_scope q) (purge_rows d) in
  let waiterIDs := omap (purged_waiter q) (purge_rows d) in
  let d := with_waiters d (filter (λ p, p.1 ∉ waiterIDs) (rd_waiters d)) in
  d ← (if (length scopes =? 0)%nat then Ok d else reconcileRenditionJobsAfterWaiterDeletionTx purgedAt d);
  Ok (d, foldl (λ seen scope, if decide (scope ∈ seen) then seen else seen ++ [scope]) [] scopes).
End deletion.

(** * Facts *)

Section deletion_facts.
Context `{Sha256} `{RenditionContracts} `{RenditionCatalog} `{!RenditionCatalogLaws} (vault : string).
Context (restarted unrooted : string → Prop).
Notation rdb_ok := (rdb_ok restarted unrooted).
Notation job_ok := (job_ok restarted unrooted).

(** ** What happens to one job *)

(** A job that is still there keeps its identity and never gets a smaller
    epoch; one that requires its operator loses at most its authority. *)
Definition cleared (j j' : job_row) : Prop := j' = j ∨ ∃ at_, j' = clear_deleted_row at_ j.
Definition row_survives (j j' : job_row) : Prop :=
  j_identity j' = j_identity j ∧ (j_epoch j ≤ j_epoch j')%Z ∧ (j_state j = RenditionJobOperatorRequired → cleared j j').
#[export] Instance cleared_preorder : PreOrder cleared.
Proof.
  split; [by left|]. intros j1 j2 j3 [-> | [t ->]] [-> | [t' ->]]; [by left|right; by eexists|right; by eexists|]. right. exists t'. by destruct j1.
Qed.
#[export] Instance row_survives_preorder : PreOrder row_survives.
Proof.
  split; [intros j; split_and!; [done|lia|by left]|]. intros j1 j2 j3 (Hi & He & Ho) (Hi' & He' & Ho').
  split_and!; [congruence|lia|]. intros Hs. specialize (Ho Hs). etrans; [exact Ho|]. apply Ho'.
  destruct Ho as [-> | [t ->]]; [done|by destruct j1].
Qed.
Lemma row_grows_survives j j' : row_grows j j' → row_survives j j'.
Proof. intros (? & ? & Ho). split_and!; [done..|]. intros Hs. left. by apply Ho. Qed.

Definition jobs_survive (d d' : rendition_db) : Prop :=
  ∀ id j, rd_jobs d !! id = Some j → ∃ j', rd_jobs d' !! id = Some j' ∧ row_survives j j'.
#[export] Instance jobs_survive_preorder : PreOrder jobs_survive.
Proof.
  split; [intros d id j Hj; exists j; done|]. intros d1 d2 d3 H12 H23 id j Hj.
  destruct (H12 id j Hj) as (j2 & Hj2 & Hs). destruct (H23 id j2 Hj2) as (j3 & Hj3 & Hs').
  exists j3. split; [done|]. by etrans.
Qed.
Lemma jobs_grow_survive d d' : jobs_grow d d' → jobs_survive d d'.
Proof. intros Hg id j Hj. destruct (Hg id j Hj) as (j' & Hj' & Hr). eauto using row_grows_survives. Qed.

(** ** The steps of a reconciliation *)

Lemma has_waiting_waiters d d' id : rd_waiters d' = rd_waiters d → has_waiting d' id = has_waiting d id.
Proof. intros Hw. unfold has_waiting, job_waiters. by rewrite Hw. Qed.

Lemma clear_terminal_sound at_ d :
  jobs_survive d (clear_terminal at_ d) ∧ (rdb_ok d → rdb_ok (clear_terminal at_ d)) ∧
  rd_waiters (clear_terminal at_ d) = rd_waiters d ∧ rd_catalog (clear_terminal at_ d) = rd_catalog d.
Proof.
  split_and!; try done.
  - intros id j Hj. cbn. rewrite lookup_fmap, Hj. eexists. split; [done|]. case_match; [|done].
    split_and!; [by destruct j|by destruct j|]. intros _. right. by eexists.
  - intros [Hj Hp Hw]. split; [|done..]. intros id j Hl. cbn in Hl. rewrite lookup_fmap in Hl.
    apply fmap_Some in Hl as (j0 & Hl & ->). destruct (Hj id j0 Hl) as [Hrow Hroots]. case_match; [|done].
    split; [by apply clear_deleted_row_ok|]. eapply job_roots_ok_mono; [exact Hroots|done|done].
Qed.

(** A turn rewrites the job that was read, and touches no other job. *)
Lemma reconcile_job_sound at_ d id j d' :
  reconcile_job vault at_ d (id, j) = Ok d' → rd_jobs d !! id = Some j →
  j_state j ∈ [RenditionJobQueued; RenditionJobRunning; RenditionJobRetryWait; RenditionJobFailed] →
  rd_catalog d' = rd_catalog d ∧ (rdb_ok d → rdb_ok d') ∧
  ∃ j', rd_jobs d' = <[id := j']> (rd_jobs d) ∧ row_survives j j'.
Proof.
  intros Hr Hj Hstate.
  assert (j_state j = RenditionJobOperatorRequired → False) as Hno by (intros Hs; rewrite Hs in Hstate; set_solver).
  assert (∀ d1 j', only_waiters d d1 → j_identity j' = j_identity j → (j_epoch j ≤ j_epoch j')%Z →
    (row_ok (restarted id) j → row_ok (restarted id) j') → (wanted j' → staged (j_phase j') → False) →
    rd_catalog (set_job id j' d1) = rd_catalog d ∧ (rdb_ok d → rdb_ok (set_job id j' d1)) ∧
    ∃ j2, rd_jobs (set_job id j' d1) = <[id := j2]> (rd_jobs d) ∧ row_survives j j2) as Hset.
  { intros d1 j' Hw Hi He Hrow Hun. pose proof (only_waiters_eq d d1 Hw) as (Hjobs & Hroots & Hcat & _).
    split_and!; [done| |exists j'; cbn; rewrite Hjobs; split; [done|]; split_and!; [done..|by intros]]. intros Hd. destruct (job_ok_at _ _ d id j Hd Hj) as [Hjr Hjro].
    apply rdb_ok_set_job; [by eapply only_waiters_rdb_ok|]. rewrite Hroots. split; [by apply Hrow|].
    eapply job_roots_ok_mono; [exact Hjro|done|]. intros Hw' Hs'. by destruct (Hun Hw' Hs'). }
  unfold reconcile_job in Hr. rewrite Hj in Hr. cbn [from_lookup mbind result_bind] in Hr.
  destruct (closed_failure j) eqn:Hcf.
  { injection Hr as <-. apply Hset; [done..|by apply clear_deleted_row_ok|].
    apply closed_failure_iff in Hcf as [Hs Hn]. intros [Hw|[_ Hw]] Hst; cbn in *.
    - rewrite Hs in Hw. by destruct Hw as [?|[?|?]].
    - apply Hn. destruct Hst as [?|?]; auto 6. }
  destruct (has_waiting d id) eqn:Hwait; cbn [negb] in Hr.
  2:{ injection Hr as <-. unfold orphaned_row. apply Hset; [done|by case_match|by case_match|by apply orphaned_row_ok|].
      case_match; [|by intros _ [|]]. intros [[?|[?|?]]|[? _]] _; done. }
  destruct (_ && _) eqn:Hcall in Hr.
  - apply andb_true_iff in Hcall as [Hrun%bool_decide_eq_true Hcalled]. pose proof Hcalled as [Hp _]%provider_called_iff.
    destruct (selectRenditionJobWaiterTx _ _ _ _ _) as [d1 [[waiterID authorization]|e]] eqn:Hsel;
      pose proof Hsel as Hw; apply select_from_only in Hw; try apply select_from_fence in Hsel.
    + injection Hr as <-. apply Hset; [done..|by intros; apply select_row_ok|]. intros _ [?|?]; cbn in *; congruence.
    + res_inv1. injection Hr as <-. apply Hset; [done..|by intros; apply lost_call_row_ok|]. intros [[?|[?|?]]|[? _]]; done.
  - res_inv1. injection Hr as <-. rename a into roots. rename select (refreshRenditionJobRootsTx _ _ _ _ _ _ _ = _) into Href.
    pose proof (refreshRenditionJobRootsTx_Ok _ _ _ _ _ _ _ _ Href) as (Hother & Ht & Hb & Hg).
    split_and!; [done| |exists (requeue_remaining_row at_ j); split; [done|]; split_and!; cbn; [done|lia|by intros]].
    intros Hd. destruct (job_ok_at _ _ d id j Hd Hj) as [Hjr Hjro]. pose proof (jr_token Hjro).
    eapply rdb_ok_update; [exact Hd|done|done| | |apply Hd].
    + split.
      * apply requeue_remaining_row_ok; [done..| |].
        -- rewrite !elem_of_cons in Hstate. unfold live_state. set_solver.
        -- intros [Hs Hc]. rewrite Hs, Hc in Hcall. by rewrite bool_decide_eq_true_2 in Hcall.
      * split; cbn; [lia| |]; intros _ Hs; right; auto.
    + eapply refresh_present; [done|apply Hd].
Qed.
Lemma reconcile_jobs_sound at_ l d d' :
  foldM (reconcile_job vault at_) d l = Ok d' → NoDup l.*1 →
  (∀ p, p ∈ l → rd_jobs d !! p.1 = Some p.2 ∧
    j_state p.2 ∈ [RenditionJobQueued; RenditionJobRunning; RenditionJobRetryWait; RenditionJobFailed]) →
  rd_catalog d' = rd_catalog d ∧ (rdb_ok d → rdb_ok d') ∧ jobs_survive d d'.
Proof.
  revert d; induction l as [|[id j] l IH]; intros d Hf Hn Hl; cbn [foldM] in Hf; [by injection Hf as <-|].
  apply bind_Ok_iff in Hf as (d1 & Hr & Hf). destruct (Hl (id, j)) as [Hj Hs]; [by left|]. cbn in Hj, Hs.
  destruct (reconcile_job_sound at_ d id j d1 Hr Hj Hs) as (Hc1 & Hok1 & j' & Hjobs & Hsurv).
  rewrite fmap_cons in Hn. apply NoDup_cons in Hn as [Hid Hn]. destruct (IH d1 Hf Hn) as (Hc & Hok & Hsurv').
  { intros p Hp. destruct (Hl p) as [Hpj ?]; [by right|]. split; [|done]. rewrite Hjobs, lookup_insert_ne; [done|].
    cbn. intros He. apply Hid. cbn. rewrite He. by apply list_elem_of_fmap_2. }
  split_and!; [congruence|auto|]. etrans; [|exact Hsurv']. intros id0 j0 Hj0. rewrite Hjobs. destruct (decide (id = id0)) as [<-|Hne].
  - rewrite lookup_insert_eq. simplify_eq. eauto.
  - rewrite lookup_insert_ne by done. by exists j0.
Qed.

Lemma affected_jobs_spec d :
  NoDup (affected_jobs d).*1 ∧ ∀ p, p ∈ affected_jobs d → rd_jobs d !! p.1 = Some p.2 ∧
    j_state p.2 ∈ [RenditionJobQueued; RenditionJobRunning; RenditionJobRetryWait; RenditionJobFailed].
Proof.
  unfold affected_jobs. split.
  - rewrite merge_sort_Permutation. eapply sublist_NoDup; [apply (NoDup_fst_map_to_list (rd_jobs d))|].
    apply fmap_sublist, sublist_filter.
  - intros [id j]. rewrite merge_sort_Permutation. intros [Hs Hin%elem_of_map_to_list]%list_elem_of_filter.
    apply andb_true_iff in Hs as [Hs%bool_decide_eq_true _]. done.
Qed.

(** ** What is dropped *)

Lemma idle_root_waiting d kind id rid :
  has_waiting d id = true → rid = build_id id ∨ rid = generation_id id → idle_root d kind rid = false.
Proof.
  intros Hw Hr. apply not_true_iff_false. unfold idle_root. rewrite existsb_exists.
  intros ([id' j] & _ & ((Hrid & _)%andb_true_iff & Hn)%andb_true_iff). cbn in *.
  assert (id' = id) as ->; [|by rewrite Hw in Hn]. apply orb_true_iff in Hrid as [He%String.eqb_eq|He%String.eqb_eq]; subst rid.
  - destruct Hr as [He|He]; [by apply build_id_inj in He|by apply build_generation_ne in He].
  - destruct Hr as [He|He]; [by symmetry in He; apply build_generation_ne in He|by apply generation_id_inj in He].
Qed.

Lemma dropped_roots d :
  let d' := drop_idle_roots (release_idle_roots d) in
  (∀ rid row', rd_roots d' !! rid = Some row' → ∃ row, rd_roots d !! rid = Some row ∧ rr_root row' = rr_root row ∧
    (rr_active row' = true → rr_active row = true)) ∧
  (∀ id rid, has_waiting d id = true → rid = build_id id ∨ rid = generation_id id → rd_roots d' !! rid = rd_roots d !! rid).
Proof.
  cbv zeta. split.
  - intros rid row' [Hl _]%map_lookup_filter_Some. cbn in Hl. rewrite map_lookup_imap in Hl.
    destruct (rd_roots d !! rid) as [row|]; [|done]. cbn in Hl. injection Hl as <-. exists row. split; [done|].
    by case_match; split.
  - intros id rid Hw Hr.
    assert (∀ d0 kind, rd_waiters d0 = rd_waiters d → idle_root d0 kind rid = false) as Hi.
    { intros d0 kind Hws. eapply idle_root_waiting; [|exact Hr]. by rewrite (has_waiting_waiters d). }
    unfold drop_idle_roots. cbn. destruct (rd_roots d !! rid) as [row|] eqn:Hrow.
    + apply map_lookup_filter_Some. split; [|by apply Hi]. rewrite map_lookup_imap, Hrow. cbn.
      by rewrite Hi, andb_false_r.
    + apply map_lookup_filter_None. left. by rewrite map_lookup_imap, Hrow.
Qed.

(** A job with staged work that a worker may be given and nobody waits for. *)
Definition left_unrooted (d : rendition_db) (id : string) : Prop :=
  ∃ j, rd_jobs d !! id = Some j ∧ wanted j ∧ staged (j_phase j) ∧ has_waiting d id = false.

Lemma drop_idle_sound d :
  let d' := drop_idle_jobs (drop_idle_roots (release_idle_roots d)) in
  (∀ id j, rd_jobs d' !! id = Some j → rd_jobs d !! id = Some j) ∧
  (∀ id j, rd_jobs d !! id = Some j → rd_jobs d' !! id = Some j ∨ rd_jobs d' !! id = None ∧ j_state j ≠ RenditionJobOperatorRequired) ∧
  (rdb_ok d → (∀ id, left_unrooted d' id → unrooted id) → rdb_ok d').
Proof.
  cbv zeta. set (d1 := drop_idle_roots (release_idle_roots d)). set (d' := drop_idle_jobs d1).
  assert (∀ id j, rd_jobs d' !! id = Some j → rd_jobs d !! id = Some j) as Hback by (by intros id j [Hl _]%map_lookup_filter_Some).
  split_and!; [exact Hback| |].
  - intros id j Hj. destruct (not_quarantined j && (length (job_waiters d1 id) =? 0)%nat) eqn:Hd.
    + right. split; [|apply andb_true_iff in Hd as [Hq _]; by apply negb_true_iff, bool_decide_eq_false in Hq].
      apply map_lookup_filter_None. right. intros j0 Hj0. assert (j0 = j) as -> by (cbn in Hj0; congruence). cbn. by rewrite Hd.
    + left. by apply map_lookup_filter_Some.
  - intros [Hj Hp Hw] Hun. destruct (dropped_roots d) as [Hroots Hkept]. fold d1 in Hroots, Hkept.
    split; [| |exact Hw].
    + intros id j Hl. pose proof (Hback id j Hl) as Hl0. destruct (Hj id j Hl0) as [Hrow [Ht Hb Hg]].
      split; [exact Hrow|]. change (rd_roots d') with (rd_roots d1). pose proof (ro_epoch _ Hrow) as He.
      assert (∀ rid, (root_token (rd_roots d1) rid ≤ Z.max 0 (root_token (rd_roots d) rid))%Z) as Htok.
      { intros rid. unfold root_token at 1. destruct (rd_roots d1 !! rid) as [row'|] eqn:Hrow'; [|lia].
        destruct (Hroots rid row' Hrow') as (row & Hl' & -> & _). unfold root_token. rewrite Hl'. lia. }
      split.
      * unfold job_root_token in *. pose proof (Htok (build_id id)). pose proof (Htok (generation_id id)). lia.
      * intros Hwant Hst. destruct (has_waiting d id) eqn:Hwait; [|left; apply Hun; by exists j].
        destruct (Hb Hwant Hst) as [?|Hr]; [by left|right]. eapply rooted_other; [|exact Hr]. apply (Hkept id); auto.
      * intros Hwant Hst. destruct (has_waiting d id) eqn:Hwait; [|left; apply Hun; exists j; split_and!; try done; by right].
        destruct (Hg Hwant Hst) as [?|(g & Hgn & Hr)]; [by left|right]. exists g. split; [done|].
        eapply rooted_other; [|exact Hr]. apply (Hkept id); auto.
    + intros rid row' Hl Ha. destruct (Hroots rid row' Hl) as (row & Hl' & -> & Hact). by apply (Hp rid), Hact.
Qed.

(** ** A reconciliation *)

(** What a deletion does to a job: it survives, or it is gone and was not
    quarantined. *)
Definition jobs_survive_or_go (d d' : rendition_db) : Prop :=
  ∀ id j, rd_jobs d !! id = Some j →
    (∃ j', rd_jobs d' !! id = Some j' ∧ row_survives j j')
    ∨ rd_jobs d' !! id = None ∧ j_state j ≠ RenditionJobOperatorRequired.

Lemma reconcile_sound at_ d d' :
  reconcileRenditionJobsAfterWaiterDeletionTx vault at_ d = Ok d' →
  rd_catalog d' = rd_catalog d ∧ jobs_survive_or_go d d' ∧
  (rdb_ok d → (∀ id, left_unrooted d' id → unrooted id) → rdb_ok d').
Proof.
  unfold reconcileRenditionJobsAfterWaiterDeletionTx. intros Hr. cbv zeta in Hr. res_inv1. injection Hr as <-. rename a into d2.
  rename select (foldM _ _ _ = _) into Hf.
  destruct (clear_terminal_sound at_ d) as (Hs1 & Hok1 & Hw1 & Hc1). destruct (affected_jobs_spec (clear_terminal at_ d)) as [Hn Hl].
  destruct (reconcile_jobs_sound at_ _ _ d2 Hf Hn Hl) as (Hc2 & Hok2 & Hs2).
  destruct (drop_idle_sound d2) as (Hback & Hdrop & Hok3). split_and!.
  - cbn. by rewrite Hc2.
  - intros id j Hj. destruct (Hs1 id j Hj) as (j1 & Hj1 & Hr1). destruct (Hs2 id j1 Hj1) as (j2 & Hj2 & Hr2).
    assert (row_survives j j2) as Hr12 by (by etrans). destruct (Hdrop id j2 Hj2) as [?|[? Hq]]; [left; eauto|right]. split; [done|].
    intros Hs. apply Hq. destruct Hr12 as (_ & _ & Ho). destruct (Ho Hs) as [-> | [t ->]]; [done|by destruct j].
  - intros Hd Hun. apply Hok3; [by apply Hok2, Hok1|exact Hun].
Qed.

(** ** The two deletions *)

Lemma rdb_ok_fewer_waiters d (P : string * waiter_row → Prop) `{∀ p, Decision (P p)} :
  rdb_ok d → rdb_ok (with_waiters d (filter P (rd_waiters d))).
Proof. intros [Hj Hp Hw]. split; [done..|]. intros id w [Hl _]%map_lookup_filter_Some. by apply (Hw id). Qed.

Lemma jobs_survive_or_go_eq d d' : rd_jobs d' = rd_jobs d → jobs_survive_or_go d d'.
Proof. intros He id j Hj. left. exists j. by rewrite He. Qed.

Lemma delete_versions_sound versions at_ d d' :
  deleteRenditionAuthorityForVersionsTx vault versions at_ d = Ok d' →
  (rd_catalog d' = rd_catalog d ∨ rd_catalog d' = delete_version_authority (rd_catalog d) versions) ∧ jobs_survive_or_go d d' ∧
  (rdb_ok d → (∀ id, left_unrooted d' id → unrooted id) → rdb_ok d').
Proof.
  unfold deleteRenditionAuthorityForVersionsTx. destruct versions as [|v versions].
  { intros [= <-]. split_and!; [by left|by apply jobs_survive_or_go_eq|done]. }
  cbv zeta. intros (Hc & Hs & Hok)%reconcile_sound. split_and!; [by right|exact Hs|].
  intros Hd. apply Hok. apply (rdb_ok_fewer_waiters (with_catalog d _)). destruct Hd as [Hj Hp Hw]. split; [done| |done].
  eapply present_ok_weaken; [|exact Hp]. intros rid row _ _ _. apply delete_keeps.
Qed.

Lemma purge_sound q at_ d d' scopes :
  purgeRenditionJobWaitersTx vault q at_ d = Ok (d', scopes) →
  rd_catalog d' = rd_catalog d ∧ jobs_survive_or_go d d' ∧
  (rdb_ok d → (∀ id, left_unrooted d' id → unrooted id) → rdb_ok d').
Proof.
  unfold purgeRenditionJobWaitersTx. intros Hp. cbv zeta in Hp. res_inv1. injection Hp as <- _.
  rename select ((if (_ : bool) then _ else _) = _) into Hr. destruct (_ =? 0)%nat.
  - injection Hr as <-. split_and!; [done|by apply jobs_survive_or_go_eq|]. intros Hd _. by apply rdb_ok_fewer_waiters.
  - apply reconcile_sound in Hr as (Hc & Hs & Hok). split_and!; [exact Hc|exact Hs|]. intros Hd. by apply Hok, rdb_ok_fewer_waiters.
Qed.
End deletion_facts.
