(* ===== verification/RenditionExample.v ===== *)
(** * A sample rendition queue

    Concrete contracts and a concrete catalog, which satisfy the laws that the
    queue relies on, and one job taken from its request to its publication. *)
From S2P Require Import Prelude GoText SearchText AuditEncoding Identity Sha256 ModelInput Chunking JsonText Consent ConsentProps Rendition RenditionRows RenditionRowFacts RenditionJobs RenditionJobFacts.

#[local] Existing Instance fips_sha256.

(** An execution identity is its source, a snapshot that and the instant of its
    authorization. *)
Definition sample_contracts : RenditionContracts := {|
  execution_identity := string;
  execution_snapshot := string * Z;
  ex_UploadSHA256 := id;
  ex_SourceSHA256 := id;
  CanonicalRenditionExecutionIdentityV1 := λ s, Some (s, sha256Hex s);
  ParseRenditionExecutionIdentityV1 := Some;
  CanonicalRenditionExecutionSnapshotV1 := λ p, Some (p.1 +:+ "@" +:+ Itoa p.2);
  ParseRenditionExecutionSnapshotV1 := λ s, Some (s, 0%Z);
  snapshot_identity := fst;
  decode_profile := λ _, Some (mkExecutable [] false false false);
  ValidateRenditionExecutionProfileV1 := λ _ _, true;
  normalizeProcessingProfileRecord := Some;
|}.
#[local] Existing Instance sample_contracts.

Record sample_tables := mkSampleTables {
  sc_builds : gmap string build_identity; sc_generations : gset string;
  sc_heads : gmap (string * string) string; sc_attachments : gmap string string;
}.
Definition sample_present (c : sample_tables) (kind : CurrentRenditionTargetKind) (id : string) : bool :=
  match kind with
  | RenditionRootBuild => bool_decide (is_Some (sc_builds c !! id))
  | RenditionRootLexicalGeneration => bool_decide (id ∈ sc_generations c)
  | _ => false
  end.
Definition sample_publish (c : sample_tables) (env : publication_env) (pairs : list renditionPublicationPair) (g : string) : rres sample_tables :=
  _ ← check (bool_decide (g ∈ sc_generations c)) ErrRenditionNotFound;
  Ok (mkSampleTables (sc_builds c) (sc_generations c)
        (foldl (λ h p, <[head_key p := pb_attachment p]> h) (sc_heads c) pairs)
        (foldl (λ a p, <[pb_attachment p := pb_build p]> a) (sc_attachments c) pairs)).
Definition sample_catalog : RenditionCatalog := {|
  catalog := sample_tables;
  build_record := string * build_identity;
  normalizeRenditionBuildRecord := Some;
  br_ID := fst;
  br_identity := snd;
  loadRenditionBuild c id := from_lookup (sc_builds c !! id) ErrRenditionNotFound;
  target_present := sample_present;
  rendition_heads := sc_heads;
  attachment_build c a := sc_attachments c !! a;
  insert_build c b := Ok (mkSampleTables (<[b.1 := b.2]> (sc_builds c)) (sc_generations c) (sc_heads c) (sc_attachments c));
  stageLexicalGenerationTx c g := Ok (mkSampleTables (sc_builds c) ({[g]} ∪ sc_generations c) (sc_heads c) (sc_attachments c), g);
  publishRenditionAttachmentsAndLexicalHeadsTx := sample_publish;
  delete_version_authority c versions :=
    mkSampleTables (sc_builds c) (sc_generations c) (filter (λ p, p.1.1 ∉ versions) (sc_heads c)) (sc_attachments c);
|}.
#[local] Existing Instance sample_catalog.

Lemma sample_catalog_laws : RenditionCatalogLaws.
Proof.
  split; cbn.
  - intros c id b. by intros [= ->]%from_lookup_Ok_iff.
  - intros c [id b] c' [= <-]. split; [|cbn; rewrite lookup_insert_eq; by apply bool_decide_eq_true].
    intros [] id'; cbn; try done. rewrite !bool_decide_eq_true. intros ?. apply lookup_insert_is_Some'. by right.
  - intros c g c' g' [= <- <-]. split_and!; [done| |cbn; apply bool_decide_eq_true; set_solver].
    intros [] id'; cbn; try done. rewrite !bool_decide_eq_true. set_solver.
  - intros c env pairs g c' Hp. unfold sample_publish in Hp. res_inv1. injection Hp as <-. split; [|done]. by intros [] id'.
  - by intros c versions [] id.
Qed.
#[local] Existing Instance sample_catalog_laws.

(** ** One job *)

Definition sample_source : string := "fedcba9876543210fedcba9876543210fedcba9876543210fedcba9876543210".
Definition sample_generation : string := "00112233445566778899aabbccddeeff00112233445566778899aabbccddeeff".
Definition sample_version : string := "11111111-1111-4111-8111-111111111111".
Definition sample_profile : ProcessingProfileRecord :=
  mkProfileRecord sample_digest "{}" "rendition" "evidence" "retention" "attachment" "consent" sample_digest "local".
Definition sample_authorization : ProviderOperationAuthorizationRequest :=
  mkAuthorizationRequest "renditions" "local" sample_digest sample_digest [RenditionInputOriginalFile]
    [catalogArtifactNormalizedEvidence] None.
Definition sample_job_request : RenditionJobRequest :=
  mkJobRequest sample_version sample_profile 1 [mkArtifactRole 1 1 catalogArtifactNormalizedEvidence] sample_source
    sample_authorization.
Definition sample_consent : consent_db :=
  consent_step "vault" sample_vault (OpGrant (mkGrantRequest sample_authorization None) "grant" 5).
Definition sample_start : rendition_db :=
  mkRdb ∅ ∅ ∅ sample_consent ∅
    {[sample_version := sample_source]} ∅ (mkSampleTables ∅ ∅ ∅ ∅).

Definition sample_queued : rendition_db := (EnqueueRenditionJob "vault" sample_job_request 10 sample_start).1.
Definition sample_job : RenditionJob * RenditionJobWaiter :=
  match (EnqueueRenditionJob "vault" sample_job_request 10 sample_start).2 with
  | Ok p => p
  | Err _ => (mkJobView "" "" "" "" "" "" RenditionJobFailed RenditionPhaseQueued 0 0 None 0 0,
              mkWaiterView "" "" "" "" "" WaiterRejected)
  end.
Definition sample_id : string := Eval vm_compute in rj_ID sample_job.1.
Definition sample_waiter : string := Eval vm_compute in rw_ID sample_job.2.
Definition minute : Z := 60 * second.
Definition sample_claim : RenditionJobClaim := mkClaim sample_id "worker" 1 0 (20 + minute) RenditionPhaseQueued "".
Definition sample_build : build_record :=
  (sample_id, mkBuildIdentity "vault" sample_source "rendition" "evidence"
                (digestCatalogJSON (policy_json [mkArtifactRole 1 1 catalogArtifactNormalizedEvidence]))).

Definition sample_readers : lexical_readers := mkReaders 0 ∅.

(** A worker's claim on a queued job is a fresh start. *)
Lemma fresh_start claim d :
  j_phase <$> rd_jobs d !! cl_JobID claim = Some RenditionPhaseQueued → starts_fresh_or_resumes claim d.
Proof. intros (j & Hj & Hp)%fmap_Some j' Hj'. left. congruence. Qed.
