(* ===== verification/RenditionProps.v ===== *)
(** * Theorems of the rendition queue

    A machine whose steps are the commands of the queue, the two deletions,
    the commands of consent and the collector; what holds in every state it reaches, what a claim, a
    quarantine and a publication guarantee, and what the restart of a
    collected job does. *)
From stdpp Require Import sorting.
From S2P Require Import Prelude GoText SearchText AuditEncoding Identity Sha256 ModelInput Chunking JsonText Consent Rendition RenditionRows RenditionRowFacts RenditionJobs RenditionJobFacts RenditionDelete ConsentProps RenditionExample.

Section machine.
Context `{Sha256} `{RenditionContracts} `{RenditionCatalog} `{!RenditionCatalogLaws} (vault : string).

(** ** Steps *)

Inductive rendition_op :=
  | ROEnqueue (request : RenditionJobRequest) (now : Z)
  | ROClaim (id owner : string) (at_ lease : Z)
  | ROClaimNext (owner : string) (at_ lease : Z)
  | RORenew (claim : RenditionJobClaim) (at_ lease : Z)
  | ROWork (claim : RenditionJobClaim) (at_ : Z)
  | ROBegin (claim : RenditionJobClaim) (waiterID : string) (at_ : Z) (snapshot : option execution_snapshot)
  | ROCheckpoint (claim : RenditionJobClaim) (handle : string) (at_ : Z)
  | RORetry (claim : RenditionJobClaim) (code : RenditionFailureCode) (at_ availableAt : Z)
  | ROOperator (claim : RenditionJobClaim) (at_ : Z)
  | ROFailed (claim : RenditionJobClaim) (code : RenditionFailureCode) (at_ : Z)
  | ROBuild (claim : RenditionJobClaim) (record : build_record) (at_ : Z)
  | ROGeneration (claim : RenditionJobClaim) (generationID : string) (at_ : Z)
  | ROPublish (readers : lexical_readers) (claim : RenditionJobClaim) (at_ : Z)
  | ROConsent (op : consent_op)
  | ROVersion (id blob : string)
  | RODeleteVersions (versionIDs : list string) (at_ : Z)
  | ROPurge (q : purge_selectors) (at_ : Z)
  | ROCollect (c : catalog).

Definition rendition_step (d : rendition_db) (op : rendition_op) : rendition_db :=
  match op with
  | ROEnqueue request now => (EnqueueRenditionJob vault request now d).1
  | ROClaim id owner at_ lease => (ClaimRenditionJob id owner at_ lease d).1
  | ROClaimNext owner at_ lease => (ClaimNextRenditionJob owner at_ lease d).1
  | RORenew claim at_ lease => (RenewRenditionJobClaim claim at_ lease d).1
  | ROWork claim at_ => (RenditionJobWorkByClaim vault claim at_ d).1
  | ROBegin claim waiterID at_ snapshot => (BeginRenditionProvider vault claim waiterID at_ snapshot d).1
  | ROCheckpoint claim handle at_ => (CheckpointRenditionProvider claim handle at_ d).1
  | RORetry claim code at_ availableAt => (MarkRenditionJobRetry claim code at_ availableAt d).1
  | ROOperator claim at_ => (MarkRenditionJobOperatorRequired claim at_ d).1
  | ROFailed claim code at_ => (MarkRenditionJobFailed claim code at_ d).1
  | ROBuild claim record at_ => (StageRenditionJobBuild vault claim record at_ d).1
  | ROGeneration claim generationID at_ => (StageRenditionJobGeneration claim generationID at_ d).1
  | ROPublish readers claim at_ => (PublishRenditionJob vault readers claim at_ d).1
  | ROConsent op =>
      mkRdb (rd_jobs d) (rd_waiters d) (rd_roots d) (consent_step vault (rd_consent d) op) (rd_profiles d) (rd_versions d)
        (rd_suppressed d) (rd_catalog d)
  | ROVersion id blob =>
      mkRdb (rd_jobs d) (rd_waiters d) (rd_roots d) (rd_consent d) (rd_profiles d)
        (match rd_versions d !! id with Some _ => rd_versions d | None => <[id := blob]> (rd_versions d) end)
        (rd_suppressed d) (rd_catalog d)
  | RODeleteVersions versionIDs at_ =>
      match deleteRenditionAuthorityForVersionsTx vault versionIDs at_ d with
      | Ok d => mkRdb (rd_jobs d) (rd_waiters d) (rd_roots d) (rd_consent d) (rd_profiles d)
                  (filter (λ p, p.1 ∉ versionIDs) (rd_versions d)) (rd_suppressed d) (rd_catalog d)
      | Err _ => d
      end
  | ROPurge q at_ =>
      match purgeRenditionJobWaitersTx vault q at_ d with
      | Ok (d, scopes) => mkRdb (rd_jobs d) (rd_waiters d) (rd_roots d) (rd_consent d) (rd_profiles d) (rd_versions d)
                            (list_to_set scopes ∪ rd_suppressed d) (rd_catalog d)
      | Err _ => d
      end
  | ROCollect c => with_catalog d c
  end.
Definition rendition_run : rendition_db → list rendition_op → rendition_db := foldl rendition_step.

(** The discipline of the callers: a worker starts a provider call on a fresh
    job or to resume one and asks for its operator about such a call
    (rendition_worker.go), and the collector keeps what active roots name
    (gc.go). *)
Definition names_present (c : catalog) (roots : root_table) : Prop :=
  ∀ rid row, roots !! rid = Some row → rr_active row = true →
    target_present c (rt_TargetKind (rr_root row)) (rt_TargetID (rr_root row)) = true.
Definition disciplined (d : rendition_db) (op : rendition_op) : Prop :=
  match op with
  | ROBegin claim _ _ _ => starts_fresh_or_resumes claim d
  | ROOperator claim _ => at_provider claim d
  | ROCollect c => names_present c (rd_roots d)
  | _ => True
  end.
Fixpoint disciplined_run (d : rendition_db) (ops : list rendition_op) : Prop :=
  match ops with
  | [] => True
  | op :: ops => disciplined d op ∧ disciplined_run (rendition_step d op) ops
  end.

(** Some step of a run did something. *)
Fixpoint happened (P : rendition_db → rendition_op → Prop) (d : rendition_db) (ops : list rendition_op) : Prop :=
  match ops with
  | [] => False
  | op :: ops => P d op ∨ happened P (rendition_step d op) ops
  end.
Definition is_deletion (op : rendition_op) : bool :=
  match op with RODeleteVersions _ _ | ROPurge _ _ => true | _ => false end.
(** An enqueue queued the completed job of a collected build again, over the
    snapshot that the collected call was sealed with. *)
Definition restarts_sealed (id : string) (d : rendition_db) (op : rendition_op) : Prop :=
  match op with ROEnqueue _ _ => sealed_restart d (rendition_step d op) id | _ => False end.
(** A deletion took the last waiting waiter of a job that had staged work and
    left the job, without its roots, to be claimed. *)
Definition unroots (id : string) (d : rendition_db) (op : rendition_op) : Prop :=
  is_deletion op = true ∧ left_unrooted (rendition_step d op) id.

Ltac grows L all := first [by apply (L all all) | by apply (L vault all all)].
Lemma rendition_step_grows d op : is_deletion op = false → jobs_grow d (rendition_step d op).
Proof.
  intros Hop. pose (all := λ _ : string, True). destruct op; cbn in Hop |- *; try done.
  - grows EnqueueRenditionJob_sound all.
  - grows ClaimRenditionJob_sound all.
  - grows ClaimNextRenditionJob_sound all.
  - grows RenewRenditionJobClaim_sound all.
  - grows RenditionJobWorkByClaim_sound all.
  - grows BeginRenditionProvider_sound all.
  - grows CheckpointRenditionProvider_sound all.
  - grows MarkRenditionJobRetry_sound all.
  - grows MarkRenditionJobOperatorRequired_sound all.
  - grows MarkRenditionJobFailed_sound all.
  - grows StageRenditionJobBuild_sound all.
  - grows StageRenditionJobGeneration_sound all.
  - grows PublishRenditionJob_sound all.
  - by apply jobs_grow_eq.
  - by apply jobs_grow_eq.
  - by apply jobs_grow_eq.
Qed.

Lemma rendition_step_survives d op : jobs_survive_or_go d (rendition_step d op).
Proof.
  destruct (is_deletion op) eqn:Hop.
  - destruct op; try done; cbn.
    + destruct (deleteRenditionAuthorityForVersionsTx _ _ _ _) as [d'|e] eqn:Hd; [|by apply jobs_survive_or_go_eq].
      by apply (delete_versions_sound vault (λ _, True) (λ _, True)) in Hd as (_ & ? & _).
    + destruct (purgeRenditionJobWaitersTx _ _ _ _) as [[d' scopes]|e] eqn:Hd; [|by apply jobs_survive_or_go_eq].
      by apply (purge_sound vault (λ _, True) (λ _, True)) in Hd as (_ & ? & _).
  - intros id j Hj. left. by apply (jobs_grow_survive _ _ (rendition_step_grows d op Hop)).
Qed.

Lemma rendition_step_ok restarted unrooted d op :
  rdb_ok restarted unrooted d → disciplined d op → (∀ id, restarts_sealed id d op → restarted id) →
  (∀ id, unroots id d op → unrooted id) → rdb_ok restarted unrooted (rendition_step d op).
Proof.
  intros Hd Hop Hre Hun. destruct op; cbn in Hop |- *.
  - by apply EnqueueRenditionJob_sound.
  - by apply ClaimRenditionJob_sound.
  - by apply ClaimNextRenditionJob_sound.
  - by apply RenewRenditionJobClaim_sound.
  - by apply RenditionJobWorkByClaim_sound.
  - by apply BeginRenditionProvider_sound.
  - by apply CheckpointRenditionProvider_sound.
  - by apply MarkRenditionJobRetry_sound.
  - by apply MarkRenditionJobOperatorRequired_sound.
  - by apply MarkRenditionJobFailed_sound.
  - by apply StageRenditionJobBuild_sound.
  - by apply StageRenditionJobGeneration_sound.
  - by apply PublishRenditionJob_sound.
  - by destruct Hd.
  - by destruct Hd.
  - unfold unroots in Hun. cbn in Hun.
    destruct (deleteRenditionAuthorityForVersionsTx _ _ _ _) as [d'|e] eqn:Hx; [|done].
    apply (delete_versions_sound vault restarted unrooted) in Hx as (_ & _ & Hok).
    assert (rdb_ok restarted unrooted d') as [Hj Hp Hw] by (apply Hok; [done|]; intros id Hl; apply Hun; by split). by split.
  - unfold unroots in Hun. cbn in Hun.
    destruct (purgeRenditionJobWaitersTx _ _ _ _) as [[d' scopes]|e] eqn:Hx; [|done].
    apply (purge_sound vault restarted unrooted) in Hx as (_ & _ & Hok).
    assert (rdb_ok restarted unrooted d') as [Hj Hp Hw] by (apply Hok; [done|]; intros id Hl; apply Hun; by split). by split.
  - destruct Hd as [Hj Hp Hw]. split; [done| |done].
    intros rid row Hl Ha. split; [by apply (Hp rid)|by apply (Hop rid)].
Qed.

Lemma rendition_run_ok restarted unrooted ops d :
  rdb_ok restarted unrooted d → disciplined_run d ops → (∀ id, happened (restarts_sealed id) d ops → restarted id) →
  (∀ id, happened (unroots id) d ops → unrooted id) → rdb_ok restarted unrooted (rendition_run d ops).
Proof.
  revert d; induction ops as [|op ops IH]; intros d Hd; [done|]. intros [Hop Hops] Hre Hun. cbn.
  apply IH; [|done|intros; apply Hre; by right|intros; apply Hun; by right].
  apply rendition_step_ok; [done..|intros; apply Hre; by left|intros; apply Hun; by left].
Qed.

(** No job yet, whatever the other tables hold. *)
Definition no_jobs (d : rendition_db) : Prop := rd_jobs d = ∅ ∧ rd_waiters d = ∅ ∧ rd_roots d = ∅.
Lemma no_jobs_ok restarted unrooted d : no_jobs d → rdb_ok restarted unrooted d.
Proof. intros (Hj & Hw & Hr). split; by rewrite ?Hj, ?Hw, ?Hr. Qed.


(** ** Fencing *)

Definition op_claim (op : rendition_op) : option RenditionJobClaim :=
  match op with
  | RORenew claim _ _ | ROWork claim _ | ROBegin claim _ _ _ | ROCheckpoint claim _ _ | RORetry claim _ _ _
  | ROOperator claim _ | ROFailed claim _ _ | ROBuild claim _ _ | ROGeneration claim _ _ | ROPublish _ claim _ => Some claim
  | _ => None
  end.

Lemma run_tx_fails {A} d (body : rres (rendition_db * rres A)) :
  (∀ d' a, body = Ok (d', a) → False) → (run_tx d body).1 = d.
Proof. intros Hf. destruct body as [[d' a]|e]; [by destruct (Hf d' a)|done]. Qed.

Ltac fenced Hfen :=
  apply run_tx_fails; intros ?? Hb; cbv zeta in Hb; repeat res_inv1;
  match goal with Hc : requireRenditionClaimTx _ _ ?t = Ok _ |- _ => by rewrite (Hfen t) in Hc end.

(** Without its claim no command does anything. *)
Lemma fenced_changes_nothing d op claim :
  op_claim op = Some claim → (∀ t, requireRenditionClaimTx d claim t = Err ErrRenditionJobFenced) → rendition_step d op = d.
Proof.
  intros Hop Hfen. destruct op; cbn in Hop |- *; try done; injection Hop as ->; try (fenced Hfen).
  - unfold MarkRenditionJobFailed. case_bool_decide; [fenced Hfen|done].
Qed.

Lemma requireRenditionClaimTx_old d claim t :
  (∀ j, rd_jobs d !! cl_JobID claim = Some j → j_epoch j ≠ cl_Epoch claim) →
  requireRenditionClaimTx d claim t = Err ErrRenditionJobFenced.
Proof.
  intros Hne. unfold requireRenditionClaimTx. destruct (negb _); [|done]. cbn.
  destruct (rd_jobs d !! cl_JobID claim) as [j|] eqn:Hj; [|done]. cbn.
  destruct (j_claim j) as [[owner expiry]|]; [|done]. cbn.
  destruct (j_epoch j =? cl_Epoch claim)%Z eqn:He; [|by rewrite andb_false_r].
  apply Z.eqb_eq in He. by destruct (Hne j eq_refl).
Qed.

Lemma ClaimRenditionJob_granted id owner at_ lease d d' claim :
  ClaimRenditionJob id owner at_ lease d = (d', Ok claim) →
  ∃ j, rd_jobs d !! id = Some j ∧ cl_JobID claim = id ∧ cl_Epoch claim = (j_epoch j + 1)%Z ∧
    rd_jobs d' !! id = Some (claim_row owner (at_ + lease) at_ j).
Proof.
  intros He. pose proof (ClaimRenditionJob_outcome id owner at_ lease d) as Ho. rewrite He in Ho. cbn in Ho.
  inversion Ho; subst. eexists. cbn. rewrite lookup_insert_eq. done.
Qed.

(** The row of a job is there after every step of a run. *)
Fixpoint stays (id : string) (d : rendition_db) (ops : list rendition_op) : Prop :=
  match ops with
  | [] => True
  | op :: ops => is_Some (rd_jobs (rendition_step d op) !! id) ∧ stays id (rendition_step d op) ops
  end.
Lemma stays_epoch id d ops j :
  stays id d ops → rd_jobs d !! id = Some j →
  ∃ j', rd_jobs (rendition_run d ops) !! id = Some j' ∧ (j_epoch j ≤ j_epoch j')%Z.
Proof.
  revert d j; induction ops as [|op ops IH]; intros d j Hs Hj; [exists j; split; [done|lia]|]. destruct Hs as [Hhere Hs]. cbn.
  destruct (rendition_step_survives d op id j Hj) as [(j1 & Hj1 & _ & He & _)|[Hn _]]; [|rewrite Hn in Hhere; by destruct Hhere].
  destruct (IH _ j1 Hs Hj1) as (j' & Hj' & He'). exists j'. split; [exact Hj'|lia].
Qed.

(** C15: A superseded claim is fenced off for as long as its job exists.  Once
    another claim on the job has been granted, whatever runs before or after
    it short of deleting the job, the older claim fails its check at every
    instant and no command given under it changes anything. *)
Theorem superseded_claim_is_fenced id o1 t1 l1 d0 d1 c1 ops1 o2 t2 l2 d3 c2 ops2 :
  ClaimRenditionJob id o1 t1 l1 d0 = (d1, Ok c1) → stays id d1 ops1 →
  ClaimRenditionJob id o2 t2 l2 (rendition_run d1 ops1) = (d3, Ok c2) → stays id d3 ops2 →
  let d := rendition_run d3 ops2 in
  (cl_Epoch c1 < cl_Epoch c2)%Z ∧
  (∀ t, requireRenditionClaimTx d c1 t = Err ErrRenditionJobFenced) ∧
  (∀ op, op_claim op = Some c1 → rendition_step d op = d).
Proof.
  intros (j1 & _ & Hid1 & He1 & Hj1)%ClaimRenditionJob_granted Hs1 (j2 & Hj2 & _ & He2 & Hj3)%ClaimRenditionJob_granted Hs2 d.
  destruct (stays_epoch id d1 ops1 _ Hs1 Hj1) as (j2' & Hj2' & Hle). cbn in Hle.
  assert (j2' = j2) as -> by congruence. destruct (stays_epoch id d3 ops2 _ Hs2 Hj3) as (j4 & Hj4 & Hle4).
  cbn in Hle4. assert (∀ t, requireRenditionClaimTx d c1 t = Err ErrRenditionJobFenced) as Hfen.
  { intros t. apply requireRenditionClaimTx_old. intros j Hj. rewrite Hid1 in Hj. fold d in Hj4.
    assert (j = j4) as -> by congruence. lia. }
  split_and!; [lia|done|]. intros op Hop. by eapply fenced_changes_nothing.
Qed.

(** ** Ambiguous provider calls *)

(** A quarantined job is there for good: a deletion clears its authority,
    nothing else changes it. *)
Lemma quarantined_stays ops d id j :
  rd_jobs d !! id = Some j → j_state j = RenditionJobOperatorRequired →
  ∃ j', rd_jobs (rendition_run d ops) !! id = Some j' ∧ cleared j j' ∧
    ((∀ op, op ∈ ops → is_deletion op = false) → j' = j).
Proof.
  revert d j; induction ops as [|op ops IH]; intros d j Hj Hs; [exists j; split_and!; [done|by left|done]|]. cbn.
  destruct (rendition_step_survives d op id j Hj) as [(j1 & Hj1 & _ & _ & Ho)|[_ ?]]; [|done]. specialize (Ho Hs).
  assert (j_state j1 = RenditionJobOperatorRequired) as Hs1 by (destruct Ho as [-> | [t ->]]; [done|by destruct j]).
  destruct (IH _ j1 Hj1 Hs1) as (j' & Hj' & Hc & Heq). exists j'. split_and!; [exact Hj'|by etrans|].
  intros Hops. rewrite Heq by (intros op' Hin; apply Hops; by right).
  destruct (rendition_step_grows d op (Hops op (list_elem_of_here op ops)) id j Hj) as (j1' & Hj1' & _ & _ & Hsame).
  rewrite <- (Hsame Hs). congruence.
Qed.

(** C16: An ambiguous provider call is never repeated.  When the lease of a job
    ends after a call has started and before a handle was recorded, the next
    claim is refused and the job quarantined; from then on no command changes
    the job, a deletion of waiters takes at most its authority, and no claim
    on it is granted. *)
Theorem ambiguous_call_is_quarantined id j holder expiry owner t lease d ops :
  rd_jobs d !! id = Some j → j_state j = RenditionJobRunning → j_claim j = Some (holder, expiry) → (expiry ≤ t)%Z →
  j_phase j = RenditionPhaseProvider → j_started j = true → j_handle j = None →
  IsSHA256Hex id = true → validRenditionWorkerOwner owner = true → valid_lease lease = true →
  (ClaimRenditionJob id owner t lease d).2 = Err ErrRenditionJobOperatorRequired ∧
  let d' := rendition_run (ClaimRenditionJob id owner t lease d).1 ops in
  (∃ j', rd_jobs d' !! id = Some j' ∧ cleared (quarantine_row t j) j' ∧
    ((∀ op, op ∈ ops → is_deletion op = false) → j' = quarantine_row t j)) ∧
  ∀ owner' t' lease', is_Ok (ClaimRenditionJob id owner' t' lease' d').2 = false ∧
    (ClaimRenditionJob id owner' t' lease' d').1 = d'.
Proof.
  intros Hj Hs Hc Hx Hp Hst Hh Hid Ho Hl.
  assert (ClaimRenditionJob id owner t lease d = (set_job id (quarantine_row t j) d, Err ErrRenditionJobOperatorRequired)) as Hq.
  { unfold ClaimRenditionJob. rewrite Hid, Ho, Hl, Hj. cbn. rewrite Hs. cbn. unfold expired_ambiguous. rewrite Hs, Hc. cbn.
    rewrite (proj2 (Z.ltb_ge _ _) Hx). cbn. unfold renditionJobProviderBoundaryAmbiguous. by rewrite Hp, Hst, Hh. }
  rewrite Hq. cbn [fst snd]. split; [done|]. set (d' := rendition_run _ ops).
  destruct (quarantined_stays ops (set_job id (quarantine_row t j) d) id (quarantine_row t j)) as (j' & Hj' & Hclr & Heq);
    [apply lookup_insert_eq|done|]. fold d' in Hj'.
  split; [by exists j'|]. intros owner' t' lease'. pose proof (ClaimRenditionJob_outcome id owner' t' lease' d') as Hout.
  assert (j_state j' = RenditionJobOperatorRequired) as Hs' by (by destruct Hclr as [-> | [? ->]]).
  inversion Hout; [done| |]; exfalso; rename select (rd_jobs d' !! id = _) into Hl'; rewrite Hj' in Hl';
    injection Hl' as <-; [congruence|rename select (live_state _) into Hlive; destruct Hlive as [|[|]]; congruence].
Qed.

(** ** Jobs without roots *)

(** A queued job whose staged build was collected can neither be claimed nor
    started again by another request. *)
Lemma unrooted_job_is_stuck d id j :
  rd_jobs d !! id = Some j → j_state j = RenditionJobQueued → j_phase j = RenditionPhaseBuildStaged →
  (job_root_token (rd_roots d) id ≤ j_epoch j)%Z → target_present (rd_catalog d) RenditionRootBuild id = false →
  (∀ owner t lease, (ClaimRenditionJob id owner t lease d).1 = d ∧ is_Ok (ClaimRenditionJob id owner t lease d).2 = false) ∧
  ∀ request now d' job waiter, EnqueueRenditionJob vault request now d = (d', Ok (job, waiter)) → rj_ID job = id →
    ∃ j', rd_jobs d' !! id = Some j' ∧ j_state j' = RenditionJobQueued ∧ j_phase j' = RenditionPhaseBuildStaged ∧
      rd_catalog d' = rd_catalog d.
Proof.
  intros Hj Hs Hp Ht Hn. split.
  - intros owner t lease. destruct (ClaimRenditionJob_outcome id owner t lease d) as [e|j0 ? ? Hj0 Hs0|j0 roots Hj0 _ _ _ Hr]; [done| |].
    + assert (j0 = j) as -> by congruence. congruence.
    + exfalso. assert (j0 = j) as -> by congruence. rewrite Hp in Hr. cbn in Hr.
      apply putCurrentRenditionRootTx_Ok in Hr as (Hl & _ & _ & [Hpr| ->]); cbn in *; [congruence|].
      unfold job_root_token, root_token in Ht. rewrite Hl in Ht. cbn in Ht. lia.
  - intros request now d' job waiter He Hid. destruct (EnqueueRenditionJob_enqueued _ _ _ _ _ _ He) as [[Hen]|[_ ?]]; [|done].
    destruct Hen as (i & source & j0 & d3 & Hj0 & _ & _ & Hjobs & _ & Hcat & _ & Hlast & job' & waiter' & [= <- <-] & Hid' & _).
    rewrite Hid' in Hid. rewrite Hid in *. assert (j0 = j) as -> by (destruct Hj0 as [?|[? _]]; congruence).
    set (j1 := reopen_resume now _) in *.
    destruct (reopen_shape now (set_epoch (Z.max (j_epoch j) (job_root_token (rd_roots d) id)) j)) as (_ & _ & Hp1 & _ & _ & Hs1 & _).
    fold j1 in Hp1, Hs1. cbn in Hp1, Hs1. assert (j_state j1 = RenditionJobQueued) as Hq by (destruct Hs1 as [?|[? ?]]; congruence).
    destruct Hlast as [[_ Hw]|[_ Hre]].
    + pose proof (only_waiters_eq d3 d' Hw) as (-> & _ & -> & _). exists j1. rewrite Hjobs, lookup_insert_eq. split_and!; congruence.
    + apply reuse_or_restart_cases with (j := j1) in Hre; [|rewrite Hjobs; apply lookup_insert_eq].
      destruct Hre as [[_ ->]|[(roots & build & Hb & _)|[_ ->]]].
      * exists j1. rewrite Hjobs, lookup_insert_eq. split_and!; congruence.
      * apply load_present in Hb. congruence.
      * exists j1. cbn. rewrite lookup_insert_eq. unfold restart_collected. rewrite bool_decide_eq_false_2 by congruence.
        split_and!; congruence.
Qed.
End machine.

(** ** The sample job *)

#[local] Existing Instance fips_sha256.
#[local] Existing Instance sample_contracts.
#[local] Existing Instance sample_catalog.
#[local] Existing Instance sample_catalog_laws.

Definition sample_ops : list rendition_op :=
  [ROEnqueue sample_job_request 10; ROClaim sample_id "worker" 20 minute; ROWork sample_claim 30;
   ROBegin sample_claim sample_waiter 40 (Some (sample_source, 35%Z)); ROBuild sample_claim sample_build 50;
   ROGeneration sample_claim sample_generation 60].
Notation sample_staged := (rendition_run "vault" sample_start sample_ops).

Lemma sample_ops_disciplined : disciplined_run "vault" sample_start sample_ops.
Proof.
  do 3 (split; [exact I|]). split; [apply fresh_start; vm_compute; reflexivity|]. do 2 (split; [exact I|]). exact I.
Qed.

Lemma no_unrooting id ops d : forallb (λ op, negb (is_deletion op)) ops = true → ¬ happened "vault" (unroots "vault" id) d ops.
Proof.
  revert d; induction ops as [|op ops IH]; intros d Hops; [by intros []|]. cbn in Hops. apply andb_true_iff in Hops as [Hop Hops].
  intros [[Hd _]|Hh]; [by rewrite Hd in Hop|by eapply IH].
Qed.

Notation sample_claimed := (ClaimRenditionJob sample_id "worker" 20 minute sample_queued).
Notation sample_reclaimed := (ClaimRenditionJob sample_id "other" (20 + 2 * minute) minute sample_claimed.1).
Lemma superseded_claim_is_fenced_witness : (PublishRenditionJob "vault" sample_readers sample_claim 30 sample_reclaimed.1).1 = sample_reclaimed.1.
Proof.
  assert (sample_claimed.2 = Ok sample_claim) as H1 by (vm_compute; reflexivity).
  assert (sample_reclaimed.2 = Ok (mkClaim sample_id "other" 2 0 (20 + 3 * minute) RenditionPhaseQueued "")) as H2
    by (vm_compute; reflexivity).
  destruct sample_claimed as [d1 r1] eqn:E1. cbn [fst snd] in H1, H2 |- *. subst r1.
  destruct (ClaimRenditionJob _ "other" _ _ _) as [d3 r3] eqn:E2. cbn [fst snd] in H2 |- *. subst r3.
  exact (proj2 (proj2 (superseded_claim_is_fenced "vault" sample_id "worker" 20 minute sample_queued d1 sample_claim []
    "other" (20 + 2 * minute) minute d3 _ [] E1 I E2 I)) (ROPublish sample_readers sample_claim 30) eq_refl).
Defined.

Notation sample_provider := (rendition_run "vault" sample_start (take 4 sample_ops)).
Lemma ambiguous_call_is_quarantined_witness :
  (ClaimRenditionJob sample_id "other" (20 + 2 * minute) minute sample_provider).2 = Err ErrRenditionJobOperatorRequired.
Proof.
  destruct (rd_jobs sample_provider !! sample_id) as [j|] eqn:Hj; [|vm_compute in Hj; discriminate].
  assert ((λ j, (j_state j, j_claim j, j_phase j, j_started j, j_handle j)) <$> rd_jobs sample_provider !! sample_id =
    Some (RenditionJobRunning, Some ("worker", 20 + minute)%Z, RenditionPhaseProvider, true, None)) as Hs by (vm_compute; reflexivity).
  rewrite Hj in Hs. apply (inj Some) in Hs. injection Hs as H1 H2 H3 H4 H5.
  refine (proj1 (ambiguous_call_is_quarantined "vault" sample_id j "worker" (20 + minute) "other" (20 + 2 * minute) minute
    sample_provider [] Hj H1 H2 _ H3 H4 H5 _ _ _)); [vm_compute; discriminate|vm_compute; reflexivity..].
Defined.

(** ** After a deletion *)

Definition other_version : string := "33333333-3333-4333-8333-333333333333".
Definition request_for (version : string) (authorization : ProviderOperationAuthorizationRequest) : RenditionJobRequest :=
  mkJobRequest version sample_profile 1 [mkArtifactRole 1 1 catalogArtifactNormalizedEvidence] sample_source authorization.

(** The epochs of a deleted job begin again.  The claim that was superseded
    passes its check once the same owner has claimed the job anew. *)
Definition recreated_ops : list rendition_op :=
  [ROEnqueue sample_job_request 10; ROVersion other_version sample_source; ROClaim sample_id "worker" 20 minute;
   ROClaim sample_id "other" (20 + 2 * minute) minute; RODeleteVersions [sample_version] (20 + 3 * minute);
   ROEnqueue (request_for other_version sample_authorization) (20 + 3 * minute); ROClaim sample_id "worker" (20 + 3 * minute) minute].
Example superseded_claim_passes_again :
  let check n := is_Ok (requireRenditionClaimTx (rendition_run "vault" sample_start (take n recreated_ops)) sample_claim (21 + 3 * minute)) in
  (check 4%nat, bool_decide (is_Some (rd_jobs (rendition_run "vault" sample_start (take 5 recreated_ops)) !! sample_id)), check 7%nat)
  = (false, false, true).
Proof. vm_compute. reflexivity. Qed.

(** A job is published to one waiter and refuses another, and is queued again
    for a third; then the versions of the first and the third are deleted and
    the build that nothing names any longer is collected.  What is left is a
    job that is stuck ([unrooted_job_is_stuck]). *)
Definition guest_version : string := "44444444-4444-4444-8444-444444444444".
Definition guest_authorization : ProviderOperationAuthorizationRequest :=
  mkAuthorizationRequest "guest" "local" sample_digest sample_digest [RenditionInputOriginalFile]
    [catalogArtifactNormalizedEvidence] None.
Definition stuck_ops : list rendition_op :=
  [ROVersion other_version sample_source; ROVersion guest_version sample_source;
   ROConsent (OpGrant (mkGrantRequest guest_authorization None) "guest grant" 6);
   ROEnqueue (request_for guest_version guest_authorization) 9] ++ sample_ops ++
  [ROConsent (OpRevoke "guest" "local" "revocation" 65); ROPublish sample_readers sample_claim 70;
   ROEnqueue (request_for other_version sample_authorization) 80; RODeleteVersions [sample_version; other_version] 90;
   ROCollect (mkSampleTables ∅ ∅ ∅ ∅)].
Example deletion_leaves_a_stuck_job :
  let d := rendition_run "vault" sample_start stuck_ops in
  ((λ j, (j_state j, j_phase j)) <$> rd_jobs d !! sample_id, bool_decide (rd_roots d = ∅), has_waiting d sample_id,
   target_present (rd_catalog d) RenditionRootBuild sample_id)
  = (Some (RenditionJobQueued, RenditionPhaseBuildStaged), true, false, false).
Proof. vm_compute. reflexivity. Qed.
