(* ===== verification/RenditionPublish.v ===== *)
(** * Publication and restart of rendition jobs

    What a publication decides for every waiter of the job, and what the
    restart of a completed job whose build was collected leaves behind. *)
From stdpp Require Import sorting.
From S2P Require Import Prelude GoText SearchText AuditEncoding Identity Sha256 ModelInput Chunking JsonText Consent Rendition RenditionRows RenditionRowFacts RenditionJobs RenditionJobFacts RenditionDelete ConsentProps RenditionExample RenditionProps.

Section publication.
Context `{Sha256} `{RenditionContracts} `{RenditionCatalog} `{!RenditionCatalogLaws} (vault : string).

(** ** Waiting waiters *)

Lemma elem_of_renditionWaitingIDsTx d id wid :
  wid ∈ renditionWaitingIDsTx d id ↔ ∃ w, rd_waiters d !! wid = Some w ∧ w_job w = id ∧ w_state w = WaiterWaiting.
Proof.
  unfold renditionWaitingIDsTx, job_waiters. rewrite merge_sort_Permutation. split.
  - intros ([wid' w] & -> & [Hs [Hj Hw%elem_of_map_to_list]%list_elem_of_filter]%list_elem_of_filter)%list_elem_of_fmap.
    cbn in *. eauto.
  - intros (w & Hw & Hj & Hs). apply (list_elem_of_fmap_2 fst _ (wid, w)). apply list_elem_of_filter. split; [done|].
    apply list_elem_of_filter. split; [done|]. by apply elem_of_map_to_list.
Qed.

(** A waiter that may be published at [at_]. *)
Definition authorized_now (d : rendition_db) (id : string) (j : job_row) (at_ : Z) (wid : string) : Prop :=
  ∃ request authorization, renditionWaiterAuthorizationTx d id j wid = Ok request ∧
    authorize vault d request at_ = Ok authorization.

Lemma authorized_now_iff d id j at_ wid :
  authorized_now d id j at_ wid ↔
  ∃ a, (request ← renditionWaiterAuthorizationTx d id j wid; authorize vault d request at_) = Ok a.
Proof.
  split.
  - intros (request & a & Hr & Ha). exists a. by rewrite Hr.
  - intros (a & Ha). res_inv1. by eexists _, _.
Qed.

Lemma renditionWaiterAuthorizationTx_job d id j wid request :
  renditionWaiterAuthorizationTx d id j wid = Ok request →
  ∃ w, rd_waiters d !! wid = Some w ∧ w_job w = id ∧ w_state w = WaiterWaiting.
Proof.
  unfold renditionWaiterAuthorizationTx. intros Hr. do 2 res_inv1. rename select (check _ _ = _) into Hc.
  apply check_Ok_iff, andb_true_iff in Hc as [Hj%eqb_iff Hs%bool_decide_eq_true]. rename select (from_lookup _ _ = _) into Hw.
  apply from_lookup_Ok_iff in Hw. eauto.
Qed.

(** Every waiting waiter is either authorized or rejected. *)
Lemma split_waiters_spec d id j at_ ids authorized rejected :
  split_waiters vault d id j at_ ids = Ok (authorized, rejected) →
  (∀ wid, wid ∈ ids → (authorized_now d id j at_ wid ∧ wid ∈ rw_ID ∘ fst <$> authorized)
    ∨ (¬ authorized_now d id j at_ wid ∧ wid ∈ rejected)) ∧
  (∀ a, a ∈ authorized → ∃ wid w, a.1 = waiter_view wid w ∧ wid ∈ ids ∧ rd_waiters d !! wid = Some w ∧
    rd_profiles d !! w_profile w = Some a.2 ∧ authorized_now d id j at_ wid) ∧
  (∀ wid, wid ∈ rejected → ¬ authorized_now d id j at_ wid).
Proof.
  revert authorized rejected; induction ids as [|wid ids IH]; intros authorized rejected Hs; cbn in Hs.
  { injection Hs as <- <-. split_and!; intros ? Hin; by apply elem_of_nil in Hin. }
  destruct (mbind _ _) as [a|e] eqn:Ha in Hs.
  - assert (authorized_now d id j at_ wid) as Hnow by (apply authorized_now_iff; eauto). clear Ha.
    repeat res_inv1. destruct a2 as [authorized' rejected']. injection Hs as <- <-.
    rename select (loadRenditionJobWaiterTx _ _ = _) into Hw. rename select (rd_profiles _ !! _ = _) into Hp.
    rename select (split_waiters _ _ _ _ _ _ = _) into Hrec. apply IH in Hrec as (H1' & H2' & H3').
    unfold loadRenditionJobWaiterTx in Hw. repeat res_inv1. subst. rename select waiter_row into w. cbn in Hp.
    split_and!; [| |exact H3'].
    + intros wid' [->|Hin]%elem_of_cons; [left; split; [done|]; cbn; by left|].
      destruct (H1' wid' Hin) as [[? ?]|?]; [left; split; [done|]; cbn; by right|by right].
    + intros a' [->|Hin]%elem_of_cons; [exists wid, w; cbn; split_and!; try done; by left|].
      destruct (H2' a' Hin) as (wid' & w' & ? & ? & ? & ? & ?). exists wid', w'. split_and!; try done. by right.
  - destruct (_ || _) eqn:Hok; [|done]. res_inv1. destruct a as [authorized' rejected']. injection Hs as <- <-.
    rename select (split_waiters _ _ _ _ _ _ = _) into Hrec. apply IH in Hrec as (H1' & H2' & H3').
    assert (¬ authorized_now d id j at_ wid) as Hnot.
    { intros (a & Hb)%authorized_now_iff. rewrite Ha in Hb. discriminate. }
    split_and!.
    + intros wid' [->|Hin]%elem_of_cons; [right; split; [done|by left]|].
      destruct (H1' wid' Hin) as [?|[? ?]]; [by left|right; split; [done|by right]].
    + intros a' Hin. destruct (H2' a' Hin) as (wid' & w' & ? & ? & ? & ? & ?). exists wid', w'. split_and!; try done. by right.
    + intros wid' [->|Hin]%elem_of_cons; [done|auto].
Qed.

Lemma fold_mark_lookup state at_ ids d wid :
  rd_waiters (foldl (mark_waiter state at_) d ids) !! wid =
  if bool_decide (wid ∈ ids) then set_waiter_state state at_ <$> rd_waiters d !! wid else rd_waiters d !! wid.
Proof.
  revert d; induction ids as [|id ids IH]; intros d; [done|]. cbn [foldl]. rewrite IH. cbn.
  destruct (decide (id = wid)) as [->|Hne].
  - rewrite lookup_alter_eq. rewrite (bool_decide_eq_true_2 (wid ∈ wid :: ids)) by left.
    destruct (rd_waiters d !! wid); by case_bool_decide.
  - rewrite lookup_alter_ne by done. assert (wid ∈ id :: ids ↔ wid ∈ ids) as Hiff by set_solver.
    by rewrite (bool_decide_ext _ _ Hiff).
Qed.

(** ** Heads *)

Lemma fold_heads (pairs : list renditionPublicationPair) (h : gmap (string * string) string) k :
  (∃ p, p ∈ pairs ∧ head_key p = k ∧ foldl (λ h p, <[head_key p := pb_attachment p]> h) h pairs !! k = Some (pb_attachment p))
  ∨ (∀ p, p ∈ pairs → head_key p ≠ k) ∧ foldl (λ h p, <[head_key p := pb_attachment p]> h) h pairs !! k = h !! k.
Proof.
  revert h; induction pairs as [|p pairs IH]; intros h; cbn.
  { right. split; [|done]. by intros ? ?%elem_of_nil. }
  destruct (IH (<[head_key p := pb_attachment p]> h)) as [(q & Hq & Hk & Hl)|[Hn Hl]].
  - left. exists q. split_and!; [by right|done|done].
  - rewrite Hl. destruct (decide (head_key p = k)) as [<-|Hne].
    + left. exists p. rewrite lookup_insert_eq. split_and!; [by left|done|done].
    + right. rewrite lookup_insert_ne by done. split; [|done]. by intros q [->|Hq]%elem_of_cons; [|apply Hn].
Qed.

(** A profile row is stored under its fingerprint, its primary key. *)
Definition profiles_ok (d : rendition_db) : Prop :=
  ∀ fingerprint profile, rd_profiles d !! fingerprint = Some profile → pp_Fingerprint profile = fingerprint.

(** ** What a committed publication consists of *)

Record published (readers : lexical_readers) (claim : RenditionJobClaim) (at_ : Z) (d d' : rendition_db) (p : RenditionJobPublication) : Prop := mkPublished {
  pb_shape : ∃ j c authorized rejected,
    requireRenditionClaimTx d claim at_ = Ok j ∧ j_phase j = RenditionPhaseGenerationStaged ∧
    j_generation j = Some (pu_LexicalGenerationID p) ∧
    (j_started j = true → ∃ wid request authorization, j_selected j = Some wid ∧ is_Some (j_authorization j) ∧
      renditionWaiterAuthorizationTx d (cl_JobID claim) j wid = Ok request ∧
      authorize vault d (prior_request request (j_authorization j)) at_ = Ok authorization) ∧
    split_waiters vault d (cl_JobID claim) j at_ (renditionWaitingIDsTx d (cl_JobID claim)) = Ok (authorized, rejected) ∧
    authorized ≠ [] ∧
    publishRenditionAttachmentsAndLexicalHeadsTx (rd_catalog d) (env_of vault readers d)
      (pair_of (cl_JobID claim) at_ <$> authorized) (pu_LexicalGenerationID p) = Ok c ∧
    p = mkPublication (cl_JobID claim) (pu_LexicalGenerationID p) (length authorized) (length rejected) ∧
    d' = with_roots (set_job (cl_JobID claim) (complete_row at_ j)
           (foldl (mark_waiter WaiterRejected at_)
             (foldl (mark_waiter WaiterPublished at_) (with_catalog d c) (rw_ID ∘ fst <$> authorized)) rejected))
           (release_job_roots (rd_roots d) (cl_JobID claim) (cl_Epoch claim));
}.

Lemma PublishRenditionJob_published readers claim at_ d d' answer :
  PublishRenditionJob vault readers claim at_ d = (d', answer) →
  match answer with Err _ => d' = d | Ok p => published readers claim at_ d d' p end.
Proof.
  unfold PublishRenditionJob, run_tx.
  destruct (mbind _ _) as [[d1 a]|e] eqn:Hb; [|by intros [= <- <-]]. intros [= <- <-].
  res_inv1. cbv zeta in Hb. do 3 res_inv1. res_inv1. destruct a4 as [authorized rejected].
  do 2 res_inv1. injection Hb as <- <-. constructor. rename a0 into j.
  rename select (check (negb (length authorized =? 0)%nat) _ = _) into Hsome.
  rename select (check (bool_decide (j_phase j = _)) _ = _) into Hphase.
  rename select (from_lookup (j_generation j) _ = _) into Hgen.
  apply check_Ok_iff, bool_decide_eq_true in Hphase. apply from_lookup_Ok_iff in Hgen.
  eexists j, _, authorized, rejected. split_and!; try done.
  - intros Hst. rename select ((if j_started j then _ else _) = _) into Hs. rewrite Hst in Hs.
    do 2 res_inv1. rename select (check (bool_decide (is_Some _)) _ = _) into Ha.
    do 2 res_inv1. apply check_Ok_iff, bool_decide_eq_true in Ha.
    rename select (from_lookup (j_selected j) _ = _) into Hsel. apply from_lookup_Ok_iff in Hsel.
    by eexists _, _, _.
  - intros ->. by apply check_Ok_iff in Hsome.
  - do 2 f_equal. destruct (only_waiters_eq _ _ (fold_mark_only WaiterRejected at_ rejected
      (foldl (mark_waiter WaiterPublished at_) (with_catalog d a5) (rw_ID ∘ fst <$> authorized)))) as (_ & -> & _).
    by destruct (only_waiters_eq _ _ (fold_mark_only WaiterPublished at_ (rw_ID ∘ fst <$> authorized) (with_catalog d a5)))
      as (_ & -> & _).
Qed.

(** The tables after the waiters of a publication have been marked. *)
Lemma marked_tables at_ d c ids rejected :
  let d1 := foldl (mark_waiter WaiterRejected at_) (foldl (mark_waiter WaiterPublished at_) (with_catalog d c) ids) rejected in
  rd_jobs d1 = rd_jobs d ∧ rd_catalog d1 = c ∧
  ∀ wid w, rd_waiters d !! wid = Some w →
    (wid ∈ rejected → wid ∉ ids → rd_waiters d1 !! wid = Some (set_waiter_state WaiterRejected at_ w)) ∧
    (wid ∈ ids → wid ∉ rejected → rd_waiters d1 !! wid = Some (set_waiter_state WaiterPublished at_ w)).
Proof.
  cbv zeta. destruct (only_waiters_eq _ _ (fold_mark_only WaiterRejected at_ rejected
      (foldl (mark_waiter WaiterPublished at_) (with_catalog d c) ids))) as (-> & _ & -> & _).
  destruct (only_waiters_eq _ _ (fold_mark_only WaiterPublished at_ ids (with_catalog d c))) as (-> & _ & -> & _).
  split_and!; [done..|]. intros wid w Hw. rewrite !fold_mark_lookup. cbn. rewrite Hw.
  split; intros Hin Hout; rewrite (bool_decide_eq_true_2 _ Hin), (bool_decide_eq_false_2 _ Hout); done.
Qed.

(** The heads after a publication: the attachments of the authorized waiters. *)
Lemma published_heads d env c id at_ authorized g :
  publishRenditionAttachmentsAndLexicalHeadsTx (rd_catalog d) env (pair_of id at_ <$> authorized) g = Ok c →
  rendition_heads c = foldl (λ h p, <[head_key p := pb_attachment p]> h) (rendition_heads (rd_catalog d)) (pair_of id at_ <$> authorized).
Proof. by intros [_ ?]%publish_Ok. Qed.

(** C6: A publication is all or nothing and rests on authority that holds at
    that instant.  If it fails, nothing changes.  If it succeeds, the claim
    and, where a provider was called, the very grant of that call are still
    good; every waiter of the job is decided by its own consent: an authorized
    one is published and the head of its version and profile is its
    attachment, another is rejected; no other head moves, at least one waiter
    is published and the job is completed. *)
Theorem PublishRenditionJob_decides readers claim at_ d d' answer :
  profiles_ok d → waiters_ok (rd_waiters d) → PublishRenditionJob vault readers claim at_ d = (d', answer) →
  let id := cl_JobID claim in
  match answer with
  | Err _ => d' = d
  | Ok p =>
      ∃ j, requireRenditionClaimTx d claim at_ = Ok j ∧ j_phase j = RenditionPhaseGenerationStaged ∧
        j_generation j = Some (pu_LexicalGenerationID p) ∧
        (j_started j = true → ∃ wid request authorization, j_selected j = Some wid ∧ is_Some (j_authorization j) ∧
          renditionWaiterAuthorizationTx d id j wid = Ok request ∧
          authorize vault d (prior_request request (j_authorization j)) at_ = Ok authorization) ∧
        (∀ wid w, rd_waiters d !! wid = Some w → w_job w = id → w_state w = WaiterWaiting →
          (authorized_now d id j at_ wid ∧ rd_waiters d' !! wid = Some (set_waiter_state WaiterPublished at_ w) ∧
             rendition_heads (rd_catalog d') !! (w_version w, w_profile w) = Some (w_attachment w))
          ∨ (¬ authorized_now d id j at_ wid ∧ rd_waiters d' !! wid = Some (set_waiter_state WaiterRejected at_ w))) ∧
        (∀ k, rendition_heads (rd_catalog d') !! k ≠ rendition_heads (rd_catalog d) !! k →
          ∃ wid w, authorized_now d id j at_ wid ∧ rd_waiters d !! wid = Some w ∧ k = (w_version w, w_profile w)) ∧
        (∃ wid, authorized_now d id j at_ wid) ∧
        rd_jobs d' = <[id := complete_row at_ j]> (rd_jobs d)
  end.
Proof.
  intros Hprof Hwok He id. apply PublishRenditionJob_published in He. destruct answer as [p|e]; [|done].
  destruct He as [(j & c & authorized & rejected & Hc & Hp & Hg & Hst & Hsplit & Hsome & Hpub & _ & ->)].
  apply split_waiters_spec in Hsplit as (Hall & Hauth & Hrej). apply published_heads in Hpub as Hheads.
  destruct (marked_tables at_ d c (rw_ID ∘ fst <$> authorized) rejected) as (Hjobs & Hcat & Hmark). fold id in Hall, Hauth, Hrej, Hheads.
  assert (∀ q, q ∈ pair_of id at_ <$> authorized → ∃ wid w, authorized_now d id j at_ wid ∧ rd_waiters d !! wid = Some w ∧
    w_job w = id ∧ head_key q = (w_version w, w_profile w) ∧ pb_attachment q = w_attachment w) as Hpairs.
  { intros q (a & -> & (wid & w & Hv & _ & Hw & Hpr & Hnow)%Hauth)%list_elem_of_fmap. exists wid, w.
    pose proof Hnow as (request & ? & (w' & Hw' & Hj & _)%renditionWaiterAuthorizationTx_job & _).
    unfold head_key, pair_of. cbn. rewrite Hv. cbn. rewrite (Hprof _ _ Hpr). simplify_eq. split_and!; done. }
  assert (∀ wid, wid ∈ rw_ID ∘ fst <$> authorized → authorized_now d id j at_ wid) as Hids.
  { intros wid (a & -> & (wid' & w & Hv & _ & _ & _ & Hnow)%Hauth)%list_elem_of_fmap. cbn. by rewrite Hv. }
  exists j. split_and!; try done.
  - intros wid w Hw Hj Hs. destruct (Hmark wid w Hw) as [Hmr Hmp].
    assert (wid ∈ renditionWaitingIDsTx d id) as Hin by (apply elem_of_renditionWaitingIDsTx; eauto).
    destruct (Hall wid Hin) as [[Hnow Hpub']|[Hnot Hrej']].
    + left. split_and!; [done|apply Hmp; [done|by intros ?%Hrej]|]. cbn. rewrite Hcat, Hheads.
      destruct (fold_heads (pair_of id at_ <$> authorized) (rendition_heads (rd_catalog d)) (w_version w, w_profile w))
        as [(q & Hq & Hk & ->)|[Hno _]].
      * destruct (Hpairs q Hq) as (wid' & w' & _ & Hw' & Hj' & Hk' & ->). rewrite Hk in Hk'. injection Hk' as Hv Hf.
        rewrite (Hwok _ _ Hw), (Hwok _ _ Hw'). by rewrite Hj, Hj', Hv, Hf.
      * exfalso. apply list_elem_of_fmap in Hpub' as (a & Ha & Hina). apply (Hno (pair_of id at_ a)); [by apply list_elem_of_fmap_2|].
        destruct (Hauth a Hina) as (wid' & w' & Hv & _ & Hw' & Hpr & _). unfold head_key, pair_of. cbn in Ha |- *.
        rewrite Hv in Ha |- *. cbn in Ha |- *. subst wid'. simplify_eq. by rewrite (Hprof _ _ Hpr).
    + right. split; [done|]. apply Hmr; [done|]. by intros ?%Hids.
  - intros k. cbn. rewrite Hcat, Hheads. intros Hk.
    destruct (fold_heads (pair_of id at_ <$> authorized) (rendition_heads (rd_catalog d)) k) as [(q & Hq & <- & _)|[_ Heq]]; [|done].
    destruct (Hpairs q Hq) as (wid & w & ? & ? & _ & -> & _). eauto.
  - destruct authorized as [|a authorized]; [done|]. exists (rw_ID a.1). apply Hids. cbn. by left.
  - cbn. by rewrite Hjobs.
Qed.

(** ** Restart of a collected build *)

(** A sealed snapshot is final while it is stored. *)
Lemma sealed_snapshot_refuses claim waiterID at_ s text fresh d j :
  rd_jobs d !! cl_JobID claim = Some j → j_snapshot j = Some text → CanonicalRenditionExecutionSnapshotV1 s = Some fresh →
  fresh ≠ text → ∃ e, BeginRenditionProvider vault claim waiterID at_ (Some s) d = (d, Err e).
Proof.
  intros Hj Hs Hf Hne. destruct (BeginRenditionProvider vault claim waiterID at_ (Some s) d) as [d' a] eqn:Hb.
  unfold BeginRenditionProvider, run_tx in Hb. destruct (mbind _ _) as [[d1 r]|e] eqn:Hm; [exfalso|injection Hb as <- <-; eauto].
  clear Hb. res_inv1. rename select (sealed_snapshot _ = _) into Hseal. unfold sealed_snapshot in Hseal.
  rewrite Hf in Hseal. cbn in Hseal.
  destruct (CanonicalRenditionExecutionIdentityV1 _) as [[identity fingerprint]|]; [|done]. injection Hseal as <-. cbv zeta in Hm. do 3 res_inv1.
  rename select (requireRenditionClaimTx _ _ _ = _) into Hr. apply requireRenditionClaimTx_Ok in Hr as (? & Hr & _).
  rename select (check_snapshot _ _ = _) into Hcs. unfold check_snapshot in Hcs. do 2 res_inv1.
  apply check_Ok_iff, bool_decide_eq_true in Hcs. assert (a0 = j) as -> by congruence.
  rewrite Hs in Hcs. apply elem_of_cons in Hcs as [?|Hcs%list_elem_of_singleton]; [done|congruence].
Qed.

(** C20: The restart of a completed job whose build was collected does not
    start it afresh.  The job is queued with nothing started, but it keeps the
    snapshot that the collected call was sealed with: the row is not one that
    an export accepts, and the worker that claims it next cannot seal another
    snapshot. *)
Theorem restart_keeps_sealed_snapshot request now d d' job waiter j text :
  EnqueueRenditionJob vault request now d = (d', Ok (job, waiter)) →
  rd_jobs d !! rj_ID job = Some j → j_state j = RenditionJobCompleted → j_snapshot j = Some text →
  loadRenditionBuild (rd_catalog d) (rj_ID job) = Err ErrRenditionNotFound →
  (∀ a, attachment_build (rd_catalog d) a ≠ Some (rj_ID job)) →
  (∃ j', rd_jobs d' !! rj_ID job = Some j' ∧ j_state j' = RenditionJobQueued ∧ j_phase j' = RenditionPhaseQueued ∧
    j_started j' = false ∧ j_handle j' = None ∧ j_snapshot j' = Some text ∧ validateMetadataRenditionJob j' = false) ∧
  ∀ owner t lease d1 claim s fresh waiterID at_, ClaimRenditionJob (rj_ID job) owner t lease d' = (d1, Ok claim) →
    CanonicalRenditionExecutionSnapshotV1 s = Some fresh → fresh ≠ text →
    ∃ e, BeginRenditionProvider vault claim waiterID at_ (Some s) d1 = (d1, Err e).
Proof.
  intros He Hj Hcomp Hs Hnone Hna. destruct (EnqueueRenditionJob_enqueued _ _ _ _ _ _ He) as [[Hen]|[_ ?]]; [|done].
  destruct Hen as (i & source & j0 & d3 & Hj0 & _ & _ & Hjobs & _ & Hcat & _ & Hlast & job' & waiter' & [= <- <-] & Hid & _).
  rewrite Hid in *. set (id := job_id vault source i) in *. assert (j0 = j) as -> by (destruct Hj0 as [?|[? _]]; congruence).
  destruct Hlast as [[Hact _]|[_ Hre]].
  { exfalso. unfold already_active in Hact. apply andb_true_iff in Hact as [_ Hact%bool_decide_eq_true]. rewrite Hcat in Hact. by eapply Hna. }
  set (j1 := reopen_resume now _) in *. assert (j_state j1 = RenditionJobCompleted ∧ j_snapshot j1 = Some text) as [Hc1 Hs1].
  { unfold j1. destruct (reopen_shape now (set_epoch (Z.max (j_epoch j) (job_root_token (rd_roots d) id)) j))
      as (_ & _ & _ & _ & Hsn & [Hst|[Hst _]] & _); cbn in Hst; [|congruence]. split; [by rewrite Hst|by rewrite Hsn]. }
  unfold reuse_or_restart in Hre. rewrite Hjobs, lookup_insert_eq, Hcat, Hnone in Hre. cbn in Hre. injection Hre as <-.
  unfold restart_collected. rewrite (bool_decide_eq_true_2 _ Hc1).
  assert (rd_jobs (set_job id (requeued RenditionPhaseQueued now j1) d3) !! id = Some (requeued RenditionPhaseQueued now j1)) as Hl
    by (cbn; apply lookup_insert_eq).
  split; [eexists; split_and!; try done; by eapply requeued_queued_refused|].
  intros owner t lease d1 claim s fresh waiterID at_ (j2 & Hj2 & Hcl & _ & Hd1)%ClaimRenditionJob_granted Hf Hne.
  rewrite Hl in Hj2. injection Hj2 as <-. eapply sealed_snapshot_refuses; [by rewrite Hcl| |done..]. exact Hs1.
Qed.
End publication.

(** ** The sample job *)

#[local] Existing Instance fips_sha256.
#[local] Existing Instance sample_contracts.
#[local] Existing Instance sample_catalog.
#[local] Existing Instance sample_catalog_laws.

Lemma sample_staged_ok : profiles_ok sample_staged ∧ waiters_ok (rd_waiters sample_staged).
Proof.
  split.
  - assert (rd_profiles sample_staged = {[sample_digest := sample_profile]}) as Hp by (vm_compute; reflexivity).
    intros fingerprint profile. rewrite Hp. by intros [<- <-]%lookup_singleton_Some.
  - apply (db_waiters (λ _, True) (λ _, True)), (rendition_run_ok "vault"); [by apply no_jobs_ok|apply sample_ops_disciplined|done..].
Qed.

Notation sample_published := (PublishRenditionJob "vault" sample_readers sample_claim 70 sample_staged).
Lemma PublishRenditionJob_decides_witness :
  ∃ wid, authorized_now "vault" sample_staged sample_id
    (default (new_job (mkJobIdentity "" "" "" "" "" "" "" [] 0) 0) (rd_jobs sample_staged !! sample_id)) 70 wid.
Proof.
  assert (sample_published.2 = Ok (mkPublication sample_id sample_generation 1 0)) as Hp by (vm_compute; reflexivity).
  destruct sample_published as [d' r] eqn:He. cbn [snd] in Hp. subst r.
  destruct (PublishRenditionJob_decides "vault" sample_readers sample_claim 70 sample_staged d' _ (proj1 sample_staged_ok)
    (proj2 sample_staged_ok) He) as (j & Hc & _ & _ & _ & _ & _ & Hex & _).
  apply requireRenditionClaimTx_Ok in Hc as (? & Hj & _). change (cl_JobID sample_claim) with sample_id in Hj.
  rewrite Hj. exact Hex.
Defined.

(** The published job after the collector has removed its build. *)
Notation sample_collected := (with_catalog sample_published.1 (mkSampleTables ∅ ∅ ∅ ∅)).
Lemma restart_keeps_sealed_snapshot_witness :
  ∃ j', rd_jobs (EnqueueRenditionJob "vault" sample_job_request 80 sample_collected).1 !! sample_id = Some j' ∧
    j_state j' = RenditionJobQueued ∧ validateMetadataRenditionJob j' = false.
Proof.
  destruct (rd_jobs sample_collected !! sample_id) as [j|] eqn:Hj; [|vm_compute in Hj; discriminate].
  assert ((λ j, (j_state j, j_snapshot j)) <$> rd_jobs sample_collected !! sample_id =
    Some (RenditionJobCompleted, Some (sample_source +:+ "@35"))) as Hs by (vm_compute; reflexivity).
  rewrite Hj in Hs. apply (inj Some) in Hs. injection Hs as H1 H2.
  destruct (EnqueueRenditionJob "vault" sample_job_request 80 sample_collected) as [d' [[job waiter]|e]] eqn:He;
    [|apply (f_equal snd) in He; vm_compute in He; discriminate].
  assert (rj_ID job = sample_id) as Hid.
  { assert ((λ p, rj_ID p.1) <$> (EnqueueRenditionJob "vault" sample_job_request 80 sample_collected).2 = Ok sample_id) as Hi
      by (vm_compute; reflexivity). rewrite He in Hi. by injection Hi. }
  rewrite <- Hid in Hj |- *.
  destruct (restart_keeps_sealed_snapshot "vault" sample_job_request 80 sample_collected d' job waiter j _ He Hj H1 H2)
    as [(j' & Hj' & Hq & _ & _ & _ & _ & Hv) _]; [reflexivity|intros a; discriminate|]. exists j'. split; [exact Hj'|split; [exact Hq|exact Hv]].
Defined.
