(* ===== verification/RenditionBuild.v ===== *)
(** * Rendition builds (internal/store/processing_catalog.go)

    The immutable build aggregate with its artifacts, units and lexical
    segments: its validation, the tables it is kept in (schema.sql), staging
    and loading.  A JSON column is the value it encodes; what the JSON library
    and the document package do with a raw text is in [CatalogDocuments].
    Times are text, as stored. *)
From stdpp Require Import sorting.
From S2P Require Import Prelude GoText Sha256 Runes SearchText AuditEncoding AuditRegistry Names Tables Identity Blobs Ingest ModelInput Chunking JsonText Consent Rendition.

(** ** Records *)

Inductive RenditionArtifactState := RenditionArtifactPending | RenditionArtifactVerified.
#[export] Instance RenditionArtifactState_eq_dec : EqDecision RenditionArtifactState.
Proof. solve_decision. Defined.

Record RenditionArtifactRecord := mkArtifactRecord {
  ra_ID : string; ra_Role : string; ra_BlobHash : string; ra_MD5 : string; ra_Size : Z; ra_Checksum : string;
  ra_State : RenditionArtifactState;
}.
Record EvidenceLocatorV1 := mkLocator {
  el_End : Z; el_IndexOrigin : string; el_Kind : string; el_Name : string; el_Start : Z;
}.
Record RenditionUnitRecord := mkUnitRecord {
  ru_ID : string; ru_EvidenceUnitID : string; ru_Order : Z; ru_Checksum : string; ru_HeadingPath : list string;
  ru_Locator : EvidenceLocatorV1;
}.
Record RenditionLexicalSegmentRecord := mkSegmentRecord {
  rs_ID : string; rs_UnitID : string; rs_Order : Z; rs_CharStart : Z; rs_CharEnd : Z; rs_Checksum : string;
  rs_Text : string;
}.
#[export] Instance RenditionArtifactRecord_eq_dec : EqDecision RenditionArtifactRecord.
Proof. solve_decision. Defined.
#[export] Instance EvidenceLocatorV1_eq_dec : EqDecision EvidenceLocatorV1.
Proof. solve_decision. Defined.
#[export] Instance RenditionUnitRecord_eq_dec : EqDecision RenditionUnitRecord.
Proof. solve_decision. Defined.
#[export] Instance RenditionLexicalSegmentRecord_eq_dec : EqDecision RenditionLexicalSegmentRecord.
Proof. solve_decision. Defined.

(** What identifies and describes a build, apart from its children.  The
    captured policy is its decoded version and roles. *)
Record build_header := mkHeader {
  bh_VaultID : string; bh_SourceSHA256 : string; bh_RenditionRequestFingerprint : string;
  bh_EvidenceLexicalFingerprint : string; bh_CapturedArtifactPolicyFingerprint : string;
  bh_PolicyVersion : Z; bh_PolicyRoles : list capturedArtifactRoleV1; bh_AuthorizationChecksum : string;
  bh_ProviderOperationID : string; bh_ProviderReceipt : string; bh_EvidenceChecksum : string;
  bh_RenditionChecksum : string; bh_MarkdownChecksum : string; bh_Completeness : string; bh_PartialSuccess : bool;
  bh_Truncated : bool; bh_Warnings : list string; bh_CompletedAt : string; bh_DeclaredArtifactCount : Z;
}.
#[export] Instance build_header_eq_dec : EqDecision build_header.
Proof. solve_decision. Defined.
Record RenditionBuildRecord := mkBuild {
  rb_ID : string; rb_Header : build_header; rb_Artifacts : list RenditionArtifactRecord;
  rb_Units : list RenditionUnitRecord; rb_LexicalSegments : list RenditionLexicalSegmentRecord;
}.
#[export] Instance RenditionBuildRecord_eq_dec : EqDecision RenditionBuildRecord.
Proof. solve_decision. Defined.

(** ** Limits *)

Definition maxRenditionUnits : Z := 100000.
Definition maxRenditionLexicalSegments : Z := 1000000.
Definition maxRenditionWarnings : Z := 256.
Definition maxRenditionHeadingDepth : nat := 64.
Definition maxCatalogProviderOpBytes : nat := 4096.
Definition maxCatalogWarningBytes : nat := 4096.
Definition maxCatalogHeadingBytes : nat := 4096.
Definition maxCatalogLocatorJSONBytes : nat := 8192.
Definition maxProviderReceiptJSONBytes : N := 1048576.
Definition maxLexicalSegmentRunes : N := 1048576.
Definition maxLexicalSegmentTextBytes : N := 4194304.
Definition maxWarningsJSONBytes : N := 2097152.
Definition maxCatalogJSONBytes : N := 2097152.
Definition maxCatalogLocatorCoordinate : Z := 1000000000000000.
Definition legacyPlainTextProvider : string := "plain-text/legacy-v1".

Definition byte_len (s : string) : N := N.of_nat (slen s).

(** ** Validation *)

(** The JSON canonicalization of [jsontext] ([Canonicalize], RFC 8785) with
    what the catalog relies on, and the two component fingerprints of
    [legacyPlainTextProfile]. *)
Class CatalogDocuments := {
  canonicalize : string → option string;
  canonicalize_idem s t : canonicalize s = Some t → canonicalize t = Some t;
  canonicalize_nonempty s t : canonicalize s = Some t → t ≠ "";
  legacyPlainTextProfile : option (string * string);
}.

Definition with_store {A} (m : res A) : rres A :=
  match m with Ok a => Ok a | Err ErrNotFound => Err ErrRenditionNotFound | Err _ => Err ErrRenditionOther end.

Section validation.
Context `{Normalizer} `{Sha256} `{CatalogDocuments}.

Definition validateCatalogUTF8 (value : string) (maxBytes : N) (allowEmpty : bool) : rres () :=
  check (negb (negb allowEmpty && String.eqb value "" || negb (ValidString value) || (maxBytes <? byte_len value)%N))
    ErrRenditionOther.
Definition carriage_return : ascii := "013"%char.
Definition IsNormalString (s : string) : bool := String.eqb (nfc s) s.
Definition validateCatalogHeading (value : string) : rres () :=
  _ ← validateCatalogUTF8 value (N.of_nat maxCatalogHeadingBytes) false;
  check (IsNormalString value && negb (bool_decide (carriage_return ∈ bs value))) ErrRenditionOther.

Definition unindexed_kinds : list string := ["generic"; "message"; "section"].
Definition indexed_kinds : list string := ["line"; "page"; "record"; "sheet"; "slide"; "spine"].
Definition single_unit_kinds : list string := ["page"; "sheet"; "slide"; "spine"].
Definition validateCatalogLocatorV1 (locator : EvidenceLocatorV1) : rres () :=
  _ ← (if String.eqb (el_Name locator) "" then Ok () else
       _ ← validateCatalogUTF8 (el_Name locator) (N.of_nat maxCatalogIdentifierBytes) false;
       check (negb (String.eqb (TrimSpace (el_Name locator)) "") && IsNormalString (el_Name locator)
              && negb (bool_decide (carriage_return ∈ bs (el_Name locator)))) ErrRenditionOther);
  if bool_decide (el_Kind locator ∈ unindexed_kinds) then
    check (String.eqb (el_IndexOrigin locator) "none" && (el_Start locator =? 0)%Z && (el_End locator =? 0)%Z) ErrRenditionOther
  else
    _ ← check (bool_decide (el_Kind locator ∈ indexed_kinds)) ErrRenditionOther;
    _ ← check (String.eqb (el_IndexOrigin locator) "zero" || String.eqb (el_IndexOrigin locator) "one") ErrRenditionOther;
    let minimum := if String.eqb (el_IndexOrigin locator) "one" then 1%Z else 0%Z in
    _ ← check (negb ((el_Start locator <? minimum) || (el_End locator <? el_Start locator)
                     || (maxCatalogLocatorCoordinate <? el_End locator))%Z) ErrRenditionOther;
    _ ← check (negb (bool_decide (el_Kind locator ∈ single_unit_kinds) && negb (el_End locator =? el_Start locator)%Z))
      ErrRenditionOther;
    check (negb (String.eqb (el_Kind locator) "sheet" && String.eqb (TrimSpace (el_Name locator)) "")) ErrRenditionOther.

(** [json.Marshal] of a locator; an empty name is left out. *)
Definition locator_json (l : EvidenceLocatorV1) : bytes :=
  bs "{" ++ json_string "end" ++ bs ":" ++ bs (Itoa (el_End l)) ++ bs "," ++ json_string "index_origin" ++ bs ":"
  ++ json_string (el_IndexOrigin l) ++ bs "," ++ json_string "kind" ++ bs ":" ++ json_string (el_Kind l)
  ++ (if String.eqb (el_Name l) "" then [] else bs "," ++ json_string "name" ++ bs ":" ++ json_string (el_Name l))
  ++ bs "," ++ json_string "start" ++ bs ":" ++ bs (Itoa (el_Start l)) ++ bs "}".

Definition canonicalCatalogJSON (raw : string) : rres string :=
  _ ← check (negb (String.eqb raw "") && (byte_len raw <=? maxCatalogJSONBytes)%N) ErrRenditionOther;
  from_lookup (canonicalize raw) ErrRenditionOther.

Definition validateLegacyProviderOperationIdentity (providerOperationID rendition evidence : string) : rres () :=
  if negb (String.eqb providerOperationID legacyPlainTextProvider) then Ok () else
  '(legacyRendition, legacyEvidence) ← from_lookup legacyPlainTextProfile ErrRenditionOther;
  check (String.eqb rendition legacyRendition && String.eqb evidence legacyEvidence) ErrRenditionOther.

Definition catalog_digest (value : string) : rres () := with_consent (validateCatalogSHA256 value).
Definition catalog_id (value : string) : rres () := validateCatalogUTF8 value (N.of_nat maxCatalogIdentifierBytes) false.

(** The checks of the header; its policy and receipt in canonical form. *)
Definition normalize_header (id : string) (h : build_header) : rres build_header :=
  _ ← catalog_digest id;
  _ ← mapM catalog_digest [bh_SourceSHA256 h; bh_RenditionRequestFingerprint h; bh_EvidenceLexicalFingerprint h;
        bh_CapturedArtifactPolicyFingerprint h; bh_AuthorizationChecksum h; bh_EvidenceChecksum h;
        bh_RenditionChecksum h; bh_MarkdownChecksum h];
  _ ← check (is_Ok (validateUUIDv4 (bh_VaultID h))) ErrRenditionOther;
  _ ← validateCatalogUTF8 (bh_ProviderOperationID h) (N.of_nat maxCatalogProviderOpBytes) false;
  _ ← validateLegacyProviderOperationIdentity (bh_ProviderOperationID h) (bh_RenditionRequestFingerprint h)
        (bh_EvidenceLexicalFingerprint h);
  _ ← with_store (validateMetadataTime (bh_CompletedAt h));
  _ ← check (bool_decide (bh_Completeness h ∈ ["complete"; "partial"; "degraded_provenance"])) ErrRenditionOther;
  policy ← normalizeCapturedArtifactPolicyV1 (bh_PolicyVersion h) (bh_PolicyRoles h);
  _ ← check (String.eqb (digestCatalogJSON (policy_json policy)) (bh_CapturedArtifactPolicyFingerprint h)) ErrRenditionOther;
  receipt ← canonicalCatalogJSON (bh_ProviderReceipt h);
  _ ← check (byte_len receipt <=? maxProviderReceiptJSONBytes)%N ErrRenditionOther;
  _ ← check (Z.of_nat (length (bh_Warnings h)) <=? maxRenditionWarnings)%Z ErrRenditionOther;
  _ ← mapM (λ w, validateCatalogUTF8 w (N.of_nat maxCatalogWarningBytes) true) (bh_Warnings h);
  _ ← check (byte_len (json_strings (bh_Warnings h)) <=? maxWarningsJSONBytes)%N ErrRenditionOther;
  _ ← check ((0 <=? bh_DeclaredArtifactCount h) && (bh_DeclaredArtifactCount h <=? maxRenditionArtifacts))%Z ErrRenditionOther;
  Ok (mkHeader (bh_VaultID h) (bh_SourceSHA256 h) (bh_RenditionRequestFingerprint h) (bh_EvidenceLexicalFingerprint h)
        (bh_CapturedArtifactPolicyFingerprint h) 1 policy (bh_AuthorizationChecksum h) (bh_ProviderOperationID h) receipt
        (bh_EvidenceChecksum h) (bh_RenditionChecksum h) (bh_MarkdownChecksum h) (bh_Completeness h) (bh_PartialSuccess h)
        (bh_Truncated h) (bh_Warnings h) (bh_CompletedAt h) (bh_DeclaredArtifactCount h)).

Definition role_count (role : string) (l : list RenditionArtifactRecord) : Z :=
  Z.of_nat (length (filter (λ a, ra_Role a = role) l)).
(** The final loop over the policy's cardinalities. *)
Definition counts_ok (policy : list capturedArtifactRoleV1) (l : list RenditionArtifactRecord) : bool :=
  forallb (λ r, (cr_MinCount r <=? role_count (cr_Role r) l)%Z && (role_count (cr_Role r) l <=? cr_MaxCount r)%Z) policy.
(** One turn of the loop over the sorted artifacts. *)
Definition admit_artifact (policy : list capturedArtifactRoleV1) (seen : list RenditionArtifactRecord)
    (a : RenditionArtifactRecord) : rres (list RenditionArtifactRecord) :=
  _ ← catalog_id (ra_ID a);
  _ ← validateCatalogUTF8 (ra_Role a) 64 false;
  _ ← check (bool_decide (ra_ID a ∉ ra_ID <$> seen)) ErrRenditionOther;
  _ ← check (bool_decide (ra_Role a ∈ cr_Role <$> policy)) ErrRenditionOther;
  _ ← check (role_count (ra_Role a) seen + 1 <=? cr_MaxCount (cardinality policy (ra_Role a)))%Z ErrRenditionOther;
  _ ← check (0 <=? ra_Size a)%Z ErrRenditionOther;
  _ ← catalog_digest (ra_BlobHash a);
  _ ← check (String.eqb (ra_Checksum a) (ra_BlobHash a)) ErrRenditionOther;
  _ ← check (bool_decide (ra_State a = RenditionArtifactVerified)) ErrRenditionOther;
  Ok (seen ++ [a]).

Definition admit_unit (seen : list RenditionUnitRecord) (u : RenditionUnitRecord) : rres (list RenditionUnitRecord) :=
  _ ← check (ru_Order u =? Z.of_nat (length seen))%Z ErrRenditionOther;
  _ ← catalog_id (ru_ID u);
  _ ← catalog_id (ru_EvidenceUnitID u);
  _ ← catalog_digest (ru_Checksum u);
  _ ← check (bool_decide (ru_ID u ∉ ru_ID <$> seen)) ErrRenditionOther;
  _ ← check (length (ru_HeadingPath u) <=? maxRenditionHeadingDepth)%nat ErrRenditionOther;
  _ ← mapM validateCatalogHeading (ru_HeadingPath u);
  _ ← validateCatalogLocatorV1 (ru_Locator u);
  _ ← check (length (locator_json (ru_Locator u)) <=? maxCatalogLocatorJSONBytes)%nat ErrRenditionOther;
  Ok (seen ++ [u]).

Definition admit_segment (units : list RenditionUnitRecord) (seen : list RenditionLexicalSegmentRecord)
    (s : RenditionLexicalSegmentRecord) : rres (list RenditionLexicalSegmentRecord) :=
  _ ← check ((rs_Order s =? Z.of_nat (length seen)) && (0 <=? rs_CharStart s) && (rs_CharStart s <=? rs_CharEnd s)
             && (rs_CharEnd s - rs_CharStart s =? Z.of_nat (RuneCountInString (rs_Text s))))%Z ErrRenditionOther;
  _ ← catalog_id (rs_ID s);
  _ ← catalog_id (rs_UnitID s);
  _ ← validateCatalogUTF8 (rs_Text s) maxLexicalSegmentTextBytes true;
  _ ← check (N.of_nat (RuneCountInString (rs_Text s)) <=? maxLexicalSegmentRunes)%N ErrRenditionOther;
  _ ← check (bool_decide (rs_UnitID s ∈ ru_ID <$> units)) ErrRenditionOther;
  _ ← check (bool_decide (rs_ID s ∉ rs_ID <$> seen)) ErrRenditionOther;
  _ ← catalog_digest (rs_Checksum s);
  Ok (seen ++ [s]).

Definition artifact_le (a b : RenditionArtifactRecord) : Prop := String.le (ra_ID a) (ra_ID b).
#[export] Instance artifact_le_dec a b : Decision (artifact_le a b).
Proof. unfold artifact_le. apply _. Defined.

Definition normalizeRenditionBuildRecord (record : RenditionBuildRecord) : rres RenditionBuildRecord :=
  _ ← check ((Z.of_nat (length (rb_Artifacts record)) <=? maxRenditionArtifacts)
             && (Z.of_nat (length (rb_Units record)) <=? maxRenditionUnits)
             && (Z.of_nat (length (rb_LexicalSegments record)) <=? maxRenditionLexicalSegments))%Z ErrRenditionOther;
  header ← normalize_header (rb_ID record) (rb_Header record);
  let artifacts := merge_sort artifact_le (rb_Artifacts record) in
  _ ← check (bh_DeclaredArtifactCount header =? Z.of_nat (length artifacts))%Z ErrRenditionOther;
  _ ← foldM (admit_artifact (bh_PolicyRoles header)) [] artifacts;
  _ ← check (counts_ok (bh_PolicyRoles header) artifacts) ErrRenditionOther;
  _ ← foldM admit_unit [] (rb_Units record);
  _ ← foldM (admit_segment (rb_Units record)) [] (rb_LexicalSegments record);
  Ok (mkBuild (rb_ID record) header artifacts (rb_Units record) (rb_LexicalSegments record)).
End validation.

(** ** Tables *)

(** A row of [rendition_builds]: its header and the declared numbers of units
    and segments.  The child tables are keyed by build and child; an artifact
    row has neither MD5 nor state. *)
Record build_row := mkBuildRow { bw_Header : build_header; bw_Units : Z; bw_Segments : Z }.
Record rendition_tables := mkTables {
  rc_storage : Blobs.catalog;
  rc_blob_staging : gset string;
  rc_builds : gmap string build_row;
  rc_artifacts : gmap (string * string) RenditionArtifactRecord;
  rc_units : gmap (string * string) RenditionUnitRecord;
  rc_segments : gmap (string * string) RenditionLexicalSegmentRecord;
}.
Definition with_builds (c : rendition_tables) v : rendition_tables :=
  mkTables (rc_storage c) (rc_blob_staging c) v (rc_artifacts c) (rc_units c) (rc_segments c).
Definition with_artifacts (c : rendition_tables) v : rendition_tables :=
  mkTables (rc_storage c) (rc_blob_staging c) (rc_builds c) v (rc_units c) (rc_segments c).
Definition with_units (c : rendition_tables) v : rendition_tables :=
  mkTables (rc_storage c) (rc_blob_staging c) (rc_builds c) (rc_artifacts c) v (rc_segments c).
Definition with_segments (c : rendition_tables) v : rendition_tables :=
  mkTables (rc_storage c) (rc_blob_staging c) (rc_builds c) (rc_artifacts c) (rc_units c) v.
Definition with_blob_staging (c : rendition_tables) v : rendition_tables :=
  mkTables (rc_storage c) v (rc_builds c) (rc_artifacts c) (rc_units c) (rc_segments c).

(** The rows of one build in a child table. *)
Definition children {A} (table : gmap (string * string) A) (buildID : string) : list A :=
  (filter (λ p, p.1.1 = buildID) (map_to_list table)).*2.
(** [INSERT] of a child: its key, and its unique order where it has one, are
    free, and the rows it references are there. *)
Definition insert_child {A} (references : bool) (clash : A → bool) (buildID childID : string) (row : A)
    (table : gmap (string * string) A) : rres (gmap (string * string) A) :=
  _ ← check references ErrRenditionOther;
  _ ← check (bool_decide (table !! (buildID, childID) = None)) ErrRenditionOther;
  _ ← check (negb (existsb clash (children table buildID))) ErrRenditionOther;
  Ok (<[(buildID, childID) := row]> table).

Definition set_md5 (md5 : string) (a : RenditionArtifactRecord) : RenditionArtifactRecord :=
  mkArtifactRecord (ra_ID a) (ra_Role a) (ra_BlobHash a) md5 (ra_Size a) (ra_Checksum a) (ra_State a).
Definition artifact_row (a : RenditionArtifactRecord) : RenditionArtifactRecord :=
  mkArtifactRecord (ra_ID a) (ra_Role a) (ra_BlobHash a) "" (ra_Size a) (ra_Checksum a) RenditionArtifactVerified.

Definition unit_le (u v : RenditionUnitRecord) : Prop :=
  (ru_Order u < ru_Order v)%Z ∨ (ru_Order u = ru_Order v ∧ String.le (ru_ID u) (ru_ID v)).
#[export] Instance unit_le_dec u v : Decision (unit_le u v).
Proof. unfold unit_le. apply _. Defined.
Definition segment_le (s t : RenditionLexicalSegmentRecord) : Prop :=
  (rs_Order s < rs_Order t)%Z ∨ (rs_Order s = rs_Order t ∧ String.le (rs_ID s) (rs_ID t)).
#[export] Instance segment_le_dec s t : Decision (segment_le s t).
Proof. unfold segment_le. apply _. Defined.

(** ** Staging and loading *)

Section staging.
Context `{Normalizer} `{Sha256} `{CatalogDocuments}.

Definition insert_artifact (c : rendition_tables) (buildID : string) (a : RenditionArtifactRecord) : rres rendition_tables :=
  with_artifacts c <$> insert_child
    (bool_decide (is_Some (rc_builds c !! buildID)) && bool_decide (is_Some (blobs (rc_storage c) !! ra_BlobHash a)))
    (λ _, false) buildID (ra_ID a) (artifact_row a) (rc_artifacts c).
Definition insert_unit (c : rendition_tables) (buildID : string) (u : RenditionUnitRecord) : rres rendition_tables :=
  with_units c <$> insert_child (bool_decide (is_Some (rc_builds c !! buildID))) (λ v, ru_Order v =? ru_Order u)%Z
    buildID (ru_ID u) u (rc_units c).
Definition insert_segment (c : rendition_tables) (buildID : string) (s : RenditionLexicalSegmentRecord) : rres rendition_tables :=
  with_segments c <$> insert_child (bool_decide (is_Some (rc_units c !! (buildID, rs_UnitID s)))) (λ t, rs_Order t =? rs_Order s)%Z
    buildID (rs_ID s) s (rc_segments c).
Definition insertRenditionBuildChildrenTx (c : rendition_tables) (b : RenditionBuildRecord) : rres rendition_tables :=
  c ← foldM (λ c, insert_artifact c (rb_ID b)) c (rb_Artifacts b);
  c ← foldM (λ c, insert_unit c (rb_ID b)) c (rb_Units b);
  foldM (λ c, insert_segment c (rb_ID b)) c (rb_LexicalSegments b).

Definition require_blob (c : rendition_tables) (hash : string) : rres Z :=
  size ← from_lookup (blobs (rc_storage c) !! hash) ErrRenditionNotFound;
  _ ← with_store (requirePhysicalAuthorityTx (rc_storage c) hash);
  Ok size.
Definition validateRenditionBuildBlobAuthorityTx (c : rendition_tables) (b : RenditionBuildRecord) : rres () :=
  _ ← require_blob c (bh_SourceSHA256 (rb_Header b));
  _ ← mapM (λ a, size ← require_blob c (ra_BlobHash a); check (size =? ra_Size a)%Z ErrRenditionOther) (rb_Artifacts b);
  Ok ().

(** The counts of the rows of a build against the declared ones. *)
Definition validateRenditionBuildStateTx (c : rendition_tables) (buildID : string) : rres () :=
  row ← from_lookup (rc_builds c !! buildID) ErrRenditionNotFound;
  let count {A} (l : list A) := Z.of_nat (length l) in
  let artifacts := children (rc_artifacts c) buildID in
  let valid := filter (λ a, blobs (rc_storage c) !! ra_BlobHash a = Some (ra_Size a) ∧ ra_Checksum a = ra_BlobHash a) artifacts in
  _ ← check ((count artifacts =? bh_DeclaredArtifactCount (bw_Header row))
             && (count valid =? bh_DeclaredArtifactCount (bw_Header row)))%Z ErrRenditionOther;
  _ ← check (count (children (rc_units c) buildID) =? bw_Units row)%Z ErrRenditionOther;
  check (count (children (rc_segments c) buildID) =? bw_Segments row)%Z ErrRenditionOther.

Definition blob_md5 (c : rendition_tables) (hash : string) : string := default "" (checksums (tables (rc_storage c)) !! hash).
Definition hydrate (c : rendition_tables) (a : RenditionArtifactRecord) : RenditionArtifactRecord :=
  set_md5 (blob_md5 c (ra_BlobHash a)) a.

Definition loadRenditionBuild (c : rendition_tables) (buildID : string) : rres RenditionBuildRecord :=
  row ← from_lookup (rc_builds c !! buildID) ErrRenditionNotFound;
  let within n limit := ((0 <=? n) && (n <=? limit))%Z in
  _ ← check (within (bh_DeclaredArtifactCount (bw_Header row)) maxRenditionArtifacts
             && within (bw_Units row) maxRenditionUnits && within (bw_Segments row) maxRenditionLexicalSegments) ErrRenditionOther;
  let artifacts := hydrate c <$> merge_sort artifact_le (children (rc_artifacts c) buildID) in
  let units := merge_sort unit_le (children (rc_units c) buildID) in
  let segments := merge_sort segment_le (children (rc_segments c) buildID) in
  _ ← check ((Z.of_nat (length artifacts) <=? maxRenditionArtifacts) && (Z.of_nat (length units) <=? maxRenditionUnits)
             && (Z.of_nat (length segments) <=? maxRenditionLexicalSegments))%Z ErrRenditionOther;
  normalizeRenditionBuildRecord (mkBuild buildID (bw_Header row) artifacts units segments).

Definition without_md5 (b : RenditionBuildRecord) : RenditionBuildRecord :=
  mkBuild (rb_ID b) (rb_Header b) (set_md5 "" <$> rb_Artifacts b) (rb_Units b) (rb_LexicalSegments b).
Definition renditionBuildDeclarationEqual (first second : RenditionBuildRecord) : bool :=
  bool_decide (without_md5 first = without_md5 second).

(** [UNIQUE(vault_uid,source_sha256,…)] *)
Definition header_identity (h : build_header) : string * string * string * string * string :=
  (bh_VaultID h, bh_SourceSHA256 h, bh_RenditionRequestFingerprint h, bh_EvidenceLexicalFingerprint h,
   bh_CapturedArtifactPolicyFingerprint h).
Definition identity_taken (c : rendition_tables) (h : build_header) : bool :=
  existsb (λ p, bool_decide (header_identity (bw_Header p.2) = header_identity h)) (map_to_list (rc_builds c)).

(** [stageRenditionBuildTx] after its suppression check. *)
Definition insert_build (c : rendition_tables) (b : RenditionBuildRecord) : rres rendition_tables :=
  _ ← validateRenditionBuildBlobAuthorityTx c b;
  let c := with_blob_staging c (rc_blob_staging c ∖ list_to_set (ra_BlobHash <$> rb_Artifacts b)) in
  if bool_decide (rc_builds c !! rb_ID b = None) && negb (identity_taken c (rb_Header b)) then
    let c := with_builds c (<[rb_ID b := mkBuildRow (rb_Header b) (Z.of_nat (length (rb_Units b)))
                                           (Z.of_nat (length (rb_LexicalSegments b)))]> (rc_builds c)) in
    c ← insertRenditionBuildChildrenTx c b;
    _ ← validateRenditionBuildStateTx c (rb_ID b);
    Ok c
  else
    match loadRenditionBuild c (rb_ID b) with
    | Err ErrRenditionNotFound =>
        Err (if identity_taken c (rb_Header b) then ErrRenditionBuildConflict else ErrRenditionNotFound)
    | Err e => Err e
    | Ok stored =>
        _ ← check (renditionBuildDeclarationEqual stored b) ErrRenditionBuildConflict;
        _ ← validateRenditionBuildStateTx c (rb_ID b);
        Ok c
    end.

Definition stageRenditionBuildTx (c : rendition_tables) (suppressed : gset (string * string * string))
    (b : RenditionBuildRecord) : rres rendition_tables :=
  _ ← check (negb (derivativeBuildSuppressedTx suppressed (bh_SourceSHA256 (rb_Header b)) (rb_ID b))) ErrRenditionOther;
  insert_build c b.

Definition StageRenditionBuild (vaultID : string) (c : rendition_tables) (suppressed : gset (string * string * string))
    (record : RenditionBuildRecord) : rres rendition_tables :=
  b ← normalizeRenditionBuildRecord record;
  _ ← check (String.eqb (bh_VaultID (rb_Header b)) vaultID) ErrRenditionOther;
  stageRenditionBuildTx c suppressed b.

Definition RenditionBuildByID (c : rendition_tables) (id : string) : rres RenditionBuildRecord :=
  _ ← check (IsSHA256Hex id) ErrRenditionNotFound;
  record ← loadRenditionBuild c id;
  _ ← validateRenditionBuildStateTx c id;
  Ok record.

(** Catalog authority for the bytes of an artifact; the mark says that no build
    has them yet. *)
Definition RecordRenditionBlob `{Kit} (c : rendition_tables) (hash : string) (size : Z) (physical : BlobPhysical)
    (generation : string) : rres rendition_tables :=
  storage ← with_store (EnsureBlobTx (rc_storage c) hash size [physical] generation);
  Ok (mkTables storage (if Created physical then {[hash]} ∪ rc_blob_staging c else rc_blob_staging c)
        (rc_builds c) (rc_artifacts c) (rc_units c) (rc_segments c)).

(** ** Text pages *)

Record RenditionTextPage := mkTextPage {
  tp_BuildID : string; tp_SourceSHA256 : string; tp_Completeness : string; tp_BuildTruncated : bool;
  tp_Segments : list RenditionLexicalSegmentRecord; tp_Total : Z; tp_Limit : Z; tp_Offset : Z;
}.
Definition RenditionText (c : rendition_tables) (buildID : string) (limit offset : Z) : rres RenditionTextPage :=
  _ ← check (IsSHA256Hex buildID) ErrRenditionNotFound;
  _ ← check ((1 <=? limit) && (limit <=? 100))%Z ErrRenditionOther;
  _ ← check (0 <=? offset)%Z ErrRenditionOther;
  _ ← validateRenditionBuildStateTx c buildID;
  row ← from_lookup (rc_builds c !! buildID) ErrRenditionOther;
  Ok (mkTextPage buildID (bh_SourceSHA256 (bw_Header row)) (bh_Completeness (bw_Header row)) (bh_Truncated (bw_Header row))
        (take (Z.to_nat limit) (drop (Z.to_nat offset) (merge_sort segment_le (children (rc_segments c) buildID))))
        (bw_Segments row) limit offset).
End staging.
