(* ===== verification/RenditionBuildFacts.v ===== *)
(** * Facts of rendition builds

    Normalization is idempotent, a staged build loads as it was staged, staging
    changes no other build, and a build that may be staged is. *)
From stdpp Require Import sorting.
From S2P Require Import Prelude GoText Sha256 Runes SearchText AuditEncoding AuditRegistry Names Tables Identity Blobs Ingest ModelInput Chunking JsonText Consent Rendition RenditionBuild.

(** ** Sorting *)

Section sorting.
Context {A : Type} (R : relation A) `{∀ x y, Decision (R x y)} `{!Transitive R} `{!Total R}.

Lemma merge_sort_perm_eq l1 l2 :
  (∀ x y, x ∈ l1 → y ∈ l1 → R x y → R y x → x = y) → l1 ≡ₚ l2 → merge_sort R l1 = merge_sort R l2.
Proof.
  intros Ha Hp. apply (StronglySorted_unique_strong R).
  - intros x y Hx Hy. apply Ha; [by rewrite <- (merge_sort_Permutation R l1)|by rewrite Hp, <- (merge_sort_Permutation R l2)].
  - apply StronglySorted_merge_sort; apply _.
  - apply StronglySorted_merge_sort; apply _.
  - by rewrite !merge_sort_Permutation.
Qed.

Lemma merge_sort_sorted l :
  (∀ x y, x ∈ l → y ∈ l → R x y → R y x → x = y) → StronglySorted R l → merge_sort R l = l.
Proof.
  intros Ha Hs. apply (StronglySorted_unique_strong R); [|apply StronglySorted_merge_sort; apply _|done|apply merge_sort_Permutation].
  intros x y Hx Hy. apply Ha; [|done]. by rewrite <- (merge_sort_Permutation R l).
Qed.
End sorting.

Lemma StronglySorted_fmap_iff {A B} (f : A → B) (R : relation A) (S : relation B) l :
  (∀ x y, R x y → S (f x) (f y)) → StronglySorted R l → StronglySorted S (f <$> l).
Proof.
  intros Hf. induction 1 as [|x l Hs IH Hx]; cbn; constructor; [done|].
  apply Forall_fmap. eapply Forall_impl; [exact Hx|]. intros y. apply Hf.
Qed.

#[export] Instance artifact_le_trans : Transitive artifact_le.
Proof. intros a b c. unfold artifact_le. apply transitivity. Qed.
#[export] Instance artifact_le_total : Total artifact_le.
Proof. intros a b. unfold artifact_le. apply (total String.le). Qed.
#[export] Instance unit_le_trans : Transitive unit_le.
Proof. intros a b c [?|[? ?]] [?|[? ?]]; [left; lia..|]. right. split; [lia|]. by etrans. Qed.
#[export] Instance unit_le_total : Total unit_le.
Proof.
  intros a b. unfold unit_le. destruct (Z.lt_trichotomy (ru_Order a) (ru_Order b)) as [?|[He|?]]; [by left; left| |by right; left].
  destruct (total String.le (ru_ID a) (ru_ID b)); [by left; right|right; right; done].
Qed.
#[export] Instance segment_le_trans : Transitive segment_le.
Proof. intros a b c [?|[? ?]] [?|[? ?]]; [left; lia..|]. right. split; [lia|]. by etrans. Qed.
#[export] Instance segment_le_total : Total segment_le.
Proof.
  intros a b. unfold segment_le. destruct (Z.lt_trichotomy (rs_Order a) (rs_Order b)) as [?|[He|?]]; [by left; left| |by right; left].
  destruct (total String.le (rs_ID a) (rs_ID b)); [by left; right|right; right; done].
Qed.
#[export] Instance role_le_trans : Transitive role_le.
Proof. intros a b c. unfold role_le. apply transitivity. Qed.
#[export] Instance role_le_total : Total role_le.
Proof. intros a b. unfold role_le. apply (total String.le). Qed.

(** ** Captured policies *)

Definition role_ok (r : capturedArtifactRoleV1) : Prop :=
  validCapturedArtifactRole (cr_Role r) = true ∧ (0 ≤ cr_MinCount r ≤ cr_MaxCount r)%Z ∧ (cr_MaxCount r ≤ maxRenditionArtifacts)%Z.
Fixpoint max_total (l : list capturedArtifactRoleV1) : Z :=
  match l with [] => 0 | r :: l => cr_MaxCount r + max_total l end.

Lemma max_total_nonneg l : Forall role_ok l → (0 ≤ max_total l)%Z.
Proof. induction 1 as [|r l (_ & ? & _) _ IH]; cbn; lia. Qed.
Lemma max_total_perm l l' : l ≡ₚ l' → max_total l = max_total l'.
Proof. induction 1; cbn; lia. Qed.

(** The loop accepts exactly distinct roles in range whose maxima fit together. *)
Lemma admit_roles_iff l acc t acc' t' :
  NoDup (cr_Role <$> acc) →
  foldM admit_role (acc, t) l = Ok (acc', t') ↔
  acc' = acc ++ l ∧ t' = (t + max_total l)%Z ∧ Forall role_ok l ∧ NoDup (cr_Role <$> acc ++ l) ∧
  (l ≠ [] → (t' ≤ maxRenditionArtifacts)%Z).
Proof.
  revert acc t. induction l as [|r l IH]; intros acc t Hn; cbn [foldM].
  { cbn. rewrite !app_nil_r. split; [intros [= <- <-]; split_and!; try done; lia|intros (-> & -> & _); f_equal; f_equal; lia]. }
  assert (admit_role (acc, t) r = Ok (acc ++ [r], t + cr_MaxCount r)%Z ↔
    role_ok r ∧ cr_Role r ∉ cr_Role <$> acc ∧ (t + cr_MaxCount r ≤ maxRenditionArtifacts)%Z) as Hstep.
  { unfold admit_role, role_ok. rewrite !check_bind_iff, bool_decide_eq_true, negb_true_iff, !orb_false_iff, !Z.ltb_ge, Z.leb_le.
    split; [intros (? & ? & [[? ?] ?] & ? & _); split_and!; try done; lia|intros ((? & [? ?] & ?) & ? & ?); split_and!; done]. }
  destruct (admit_role (acc, t) r) as [[acc1 t1]|e] eqn:Hr; cbn [mbind result_bind].
  2:{ split; [discriminate|]. intros (-> & -> & Hok & Hnd & Hle). exfalso. assert (Err e = Ok (acc ++ [r], t + cr_MaxCount r)%Z); [|discriminate].
      apply Hstep. apply Forall_cons in Hok as [Hok1 Hok]. pose proof (max_total_nonneg l Hok). cbn in Hle.
      specialize (Hle ltac:(done)). split_and!; [done| |lia]. rewrite fmap_app in Hnd. apply NoDup_app in Hnd as (_ & Hd & _).
      intros Hin. apply (Hd _ Hin). cbn. by left. }
  assert (acc1 = acc ++ [r] ∧ t1 = (t + cr_MaxCount r)%Z) as [-> ->].
  { unfold admit_role in Hr. repeat res_inv1. by injection Hr as <- <-. }
  destruct (proj1 Hstep eq_refl) as (Hok1 & Hni & Hle1).
  rewrite IH; [|rewrite fmap_app; apply NoDup_app; split_and!; [done| |apply NoDup_singleton];
    intros x Hx ->%list_elem_of_singleton; done].
  rewrite <- (assoc_L (++)). cbn [app max_total].
  split.
  - intros (-> & -> & Hok & Hnd & Hle). split_and!; [done|lia|by constructor|done|]. intros _.
    destruct l as [|r' l]; [cbn; lia|by apply Hle].
  - intros (-> & -> & [_ Hok]%Forall_cons & Hnd & Hle). split_and!; [done|lia|done|done|]. intros _. by apply Hle.
Qed.

Lemma normalize_policy_idem v wire p :
  normalizeCapturedArtifactPolicyV1 v wire = Ok p → normalizeCapturedArtifactPolicyV1 1 p = Ok p.
Proof.
  unfold normalizeCapturedArtifactPolicyV1. intros Hn. do 3 res_inv1. destruct a1 as [roles total]. injection Hn as <-.
  rename select (foldM _ _ _ = _) into Hf. apply admit_roles_iff in Hf as (-> & -> & Hok & Hnd & Hle); [|constructor].
  cbn [app] in *. cbn. assert (merge_sort role_le wire ≡ₚ wire) as Hp by apply merge_sort_Permutation.
  rename select (check (Z.of_nat _ <=? _)%Z _ = _) into Hlen. apply check_Ok_iff in Hlen.
  rewrite (Permutation_length Hp), Hlen. cbn.
  rewrite (proj2 (admit_roles_iff (merge_sort role_le wire) [] 0 (merge_sort role_le wire) (max_total wire) (NoDup_nil_2))).
  - cbn. f_equal. apply (merge_sort_sorted role_le); [|apply StronglySorted_merge_sort; apply _].
    intros x y Hx Hy H1 H2. eapply (NoDup_fmap_inj cr_Role); [|exact Hx|exact Hy|by apply (anti_symm String.le)].
    by rewrite Hp.
  - split_and!; [done|by rewrite (max_total_perm _ _ Hp)|by rewrite Hp|by rewrite Hp|].
    intros Hne. apply Hle. intros ->. by apply Hne.
Qed.

(** ** Normalization *)

Section normalization.
Context `{Normalizer} `{Sha256} `{CatalogDocuments}.

(** Takes the steps of a chain whose outcomes are hypotheses. *)
Ltac res_step :=
  match goal with
  | H : ?m = Ok _ |- context [mbind _ ?m] => rewrite H; cbn [mbind result_bind]
  | H : ?b = true |- context [check ?b ?e] => rewrite (check_bind_true b e _ H)
  end.

Lemma canonicalCatalogJSON_idem raw t :
  canonicalCatalogJSON raw = Ok t → (byte_len t ≤ maxCatalogJSONBytes)%N → canonicalCatalogJSON t = Ok t.
Proof.
  unfold canonicalCatalogJSON. intros Hc Hl. repeat res_inv1.
  rewrite (proj2 (String.eqb_neq t EmptyString)) by (by eapply canonicalize_nonempty). apply N.leb_le in Hl. rewrite Hl.
  cbn. by erewrite canonicalize_idem.
Qed.

Lemma normalize_header_idem id h h' : normalize_header id h = Ok h' → normalize_header id h' = Ok h'.
Proof.
  unfold normalize_header. intros Hn. repeat res_inv1. subst h'.
  cbn [bh_VaultID bh_SourceSHA256 bh_RenditionRequestFingerprint bh_EvidenceLexicalFingerprint
    bh_CapturedArtifactPolicyFingerprint bh_PolicyVersion bh_PolicyRoles bh_AuthorizationChecksum bh_ProviderOperationID
    bh_ProviderReceipt bh_EvidenceChecksum bh_RenditionChecksum bh_MarkdownChecksum bh_Completeness bh_PartialSuccess
    bh_Truncated bh_Warnings bh_CompletedAt bh_DeclaredArtifactCount].
  rename select (normalizeCapturedArtifactPolicyV1 _ _ = _) into Hp. apply normalize_policy_idem in Hp.
  rename select (canonicalCatalogJSON _ = _) into Hj. rename select ((byte_len _ <=? maxProviderReceiptJSONBytes)%N = true) into Hl.
  apply canonicalCatalogJSON_idem in Hj; [|apply N.leb_le in Hl; etrans; [exact Hl|by vm_compute]].
  repeat res_step. done.
Qed.

(** ** Loops that admit one element at a time *)

Lemma foldM_snoc {A} (f : list A → A → rres (list A)) l :
  (∀ seen a r, f seen a = Ok r → r = seen ++ [a]) →
  ∀ acc r, foldM f acc l = Ok r → r = acc ++ l ∧ ∀ i a, l !! i = Some a → f (acc ++ take i l) a = Ok (acc ++ take i l ++ [a]).
Proof.
  intros Hf. induction l as [|x l IH]; intros acc r; cbn [foldM].
  { intros [= <-]. rewrite app_nil_r. split; [done|]. intros i a. by rewrite lookup_nil. }
  intros (r1 & Hx & (-> & Hr)%IH)%bind_Ok_iff. pose proof (Hf _ _ _ Hx) as ->. rewrite <- (assoc_L (++)). split; [done|].
  intros [|i] a; cbn [take lookup list_lookup]; [intros [= <-]; by rewrite app_nil_r|]. intros Ha%Hr. by rewrite <- !(assoc_L (++)) in Ha.
Qed.

Lemma admit_artifact_snoc p seen a r : admit_artifact p seen a = Ok r → r = seen ++ [a].
Proof. unfold admit_artifact. intros Ha. repeat res_inv1. done. Qed.
Lemma admit_unit_snoc seen u r : admit_unit seen u = Ok r → r = seen ++ [u].
Proof. unfold admit_unit. intros Ha. repeat res_inv1. done. Qed.
Lemma admit_segment_snoc us seen s r : admit_segment us seen s = Ok r → r = seen ++ [s].
Proof. unfold admit_segment. intros Ha. repeat res_inv1. done. Qed.

(** Elements of a list that differ from everything before them. *)
Lemma NoDup_by_prefix {A K} (key : A → K) l :
  (∀ i a, l !! i = Some a → key a ∉ key <$> take i l) → NoDup (key <$> l).
Proof.
  intros Hk. apply NoDup_alt. intros i j k Hi Hj. rewrite list_lookup_fmap in Hi, Hj.
  destruct (l !! i) as [a|] eqn:Ha; [|done]. destruct (l !! j) as [b|] eqn:Hb; [|done]. cbn in Hi, Hj. simplify_eq.
  assert (∀ i j a b, l !! i = Some a → l !! j = Some b → i < j → key a ≠ key b) as Hlt.
  { intros i' j' a' b' Ha' Hb' Hlt He. apply (Hk _ _ Hb'). rewrite <- He. apply list_elem_of_fmap_2.
    apply list_elem_of_lookup. exists i'. by rewrite lookup_take_lt. }
  destruct (Nat.lt_trichotomy i j) as [?|[?|?]]; [|done|]; exfalso; by eapply Hlt; [| |eassumption|].
Qed.

Lemma admitted_artifacts p l r :
  foldM (admit_artifact p) [] l = Ok r → NoDup (ra_ID <$> l) ∧
  ∀ a, a ∈ l → ra_Checksum a = ra_BlobHash a ∧ ra_State a = RenditionArtifactVerified.
Proof.
  intros (_ & Hl)%(foldM_snoc _ _ (admit_artifact_snoc p)). split.
  - apply NoDup_by_prefix. intros i a Ha%Hl. unfold admit_artifact in Ha. repeat res_inv1.
    by rename select (bool_decide (ra_ID _ ∉ _) = true) into Hn; apply bool_decide_eq_true in Hn.
  - intros a [i Ha%Hl]%list_elem_of_lookup. unfold admit_artifact in Ha. repeat res_inv1.
    rename select (String.eqb _ _ = true) into He. apply String.eqb_eq in He.
    rename select (bool_decide (_ = RenditionArtifactVerified) = true) into Hs. by apply bool_decide_eq_true in Hs.
Qed.
Lemma admitted_units l r :
  foldM admit_unit [] l = Ok r → NoDup (ru_ID <$> l) ∧ ∀ i u, l !! i = Some u → ru_Order u = Z.of_nat i.
Proof.
  intros (_ & Hl)%(foldM_snoc _ _ admit_unit_snoc). split.
  - apply NoDup_by_prefix. intros i a Ha%Hl. unfold admit_unit in Ha. repeat res_inv1.
    by rename select (bool_decide (_ ∉ _) = true) into Hn; apply bool_decide_eq_true in Hn.
  - intros i u Hu. pose proof (lookup_lt_Some _ _ _ Hu). apply Hl in Hu. unfold admit_unit in Hu. repeat res_inv1.
    rename select ((_ =? _)%Z = true) into Ho. apply Z.eqb_eq in Ho. cbn in Ho. rewrite length_take in Ho. lia.
Qed.
Lemma admitted_segments us l r :
  foldM (admit_segment us) [] l = Ok r → NoDup (rs_ID <$> l) ∧ (∀ i s, l !! i = Some s → rs_Order s = Z.of_nat i) ∧
  ∀ s, s ∈ l → rs_UnitID s ∈ ru_ID <$> us.
Proof.
  intros (_ & Hl)%(foldM_snoc _ _ (admit_segment_snoc us)). split_and!.
  - apply NoDup_by_prefix. intros i a Ha%Hl. unfold admit_segment in Ha. repeat res_inv1.
    by rename select (bool_decide (rs_ID _ ∉ _) = true) into Hn; apply bool_decide_eq_true in Hn.
  - intros i u Hu. pose proof (lookup_lt_Some _ _ _ Hu). apply Hl in Hu. unfold admit_segment in Hu. repeat res_inv1.
    rename select (_ && _ = true) into Ho. rewrite !andb_true_iff, Z.eqb_eq in Ho. cbn in Ho. rewrite length_take in Ho. lia.
  - intros s [i Hs%Hl]%list_elem_of_lookup. unfold admit_segment in Hs. repeat res_inv1.
    by rename select (bool_decide (rs_UnitID _ ∈ _) = true) into Hn; apply bool_decide_eq_true in Hn.
Qed.

(** ** Checksums that were hydrated after publication *)

Definition rehashed (md5 : string → string) (a : RenditionArtifactRecord) : RenditionArtifactRecord :=
  set_md5 (md5 (ra_BlobHash a)) a.
Definition rehashed_build (md5 : string → string) (b : RenditionBuildRecord) : RenditionBuildRecord :=
  mkBuild (rb_ID b) (rb_Header b) (rehashed md5 <$> rb_Artifacts b) (rb_Units b) (rb_LexicalSegments b).

Lemma rehashed_field {A} (field : RenditionArtifactRecord → A) md5 (l : list RenditionArtifactRecord) :
  (∀ m a, field (set_md5 m a) = field a) → field <$> (rehashed md5 <$> l) = field <$> l.
Proof. intros Hf. rewrite <- list_fmap_compose. apply list_fmap_ext. intros ? a _. apply Hf. Qed.
Lemma role_count_rehashed md5 role l : role_count role (rehashed md5 <$> l) = role_count role l.
Proof.
  unfold role_count. f_equal. induction l as [|a l IH]; [done|]. rewrite fmap_cons, !filter_cons. cbn [rehashed set_md5 ra_Role].
  case_decide; cbn; by rewrite IH.
Qed.
Lemma counts_ok_rehashed md5 p l : counts_ok p (rehashed md5 <$> l) = counts_ok p l.
Proof. unfold counts_ok. induction p as [|r p IH]; cbn; [done|]. by rewrite role_count_rehashed, IH. Qed.
Lemma admit_artifact_rehashed md5 p (seen : list RenditionArtifactRecord) a :
  admit_artifact p (rehashed md5 <$> seen) (rehashed md5 a) = (λ l : list RenditionArtifactRecord, rehashed md5 <$> l) <$> admit_artifact p seen a.
Proof.
  unfold admit_artifact. cbn [rehashed set_md5 ra_ID ra_Role ra_BlobHash ra_Size ra_Checksum ra_State].
  rewrite (rehashed_field ra_ID) by done. rewrite role_count_rehashed.
  repeat (match goal with |- mbind _ ?m = _ => destruct m; [|done] end; cbn [mbind result_bind]).
  cbn. by rewrite fmap_app.
Qed.
Lemma admit_artifacts_rehashed md5 p (l acc : list RenditionArtifactRecord) :
  foldM (admit_artifact p) (rehashed md5 <$> acc) (rehashed md5 <$> l) = (λ l : list RenditionArtifactRecord, rehashed md5 <$> l) <$> foldM (admit_artifact p) acc l.
Proof.
  revert acc; induction l as [|a l IH]; intros acc; [done|]. cbn [foldM fmap list_fmap].
  rewrite admit_artifact_rehashed. destruct (admit_artifact p acc a) as [acc'|e]; [apply IH|done].
Qed.

(** A build that normalization has accepted. *)
Definition normalized (b : RenditionBuildRecord) : Prop := ∃ r, normalizeRenditionBuildRecord r = Ok b.

Lemma artifact_le_rehashed md5 a a' : artifact_le a a' → artifact_le (rehashed md5 a) (rehashed md5 a').
Proof. done. Qed.

(** Normalizing a normalized build changes nothing, with any checksums. *)
Lemma normalize_rehashed md5 r b :
  normalizeRenditionBuildRecord r = Ok b → normalizeRenditionBuildRecord (rehashed_build md5 b) = Ok (rehashed_build md5 b).
Proof.
  unfold normalizeRenditionBuildRecord. intros Hn. do 7 res_inv1. injection Hn as <-.
  cbn [rehashed_build rb_ID rb_Header rb_Artifacts rb_Units rb_LexicalSegments].
  rename select (normalize_header _ _ = _) into Hh. apply normalize_header_idem in Hh.
  rename select (foldM (admit_artifact _) _ _ = _) into Ha. pose proof (admitted_artifacts _ _ _ Ha) as [Hnd _].
  set (artifacts := merge_sort artifact_le (rb_Artifacts r)) in *.
  assert (length artifacts = length (rb_Artifacts r)) as Hlen by apply Permutation_length, merge_sort_Permutation.
  assert (merge_sort artifact_le (rehashed md5 <$> artifacts) = rehashed md5 <$> artifacts) as Hsort.
  { apply (merge_sort_sorted artifact_le).
    - intros x y Hx Hy H1' H2'. eapply (NoDup_fmap_inj ra_ID); [|exact Hx|exact Hy|by apply (anti_symm String.le)].
      by rewrite (rehashed_field ra_ID).
    - eapply StronglySorted_fmap_iff; [apply artifact_le_rehashed|]. apply StronglySorted_merge_sort; apply _. }
  rewrite Hsort, !length_fmap, Hlen. rewrite Hlen in *.
  pose proof (admit_artifacts_rehashed md5 (bh_PolicyRoles a0) artifacts []) as Hre. rewrite Ha in Hre. cbn [fmap list_fmap result_fmap] in Hre.
  do 4 res_step. rewrite counts_ok_rehashed. by repeat res_step.
Qed.
End normalization.

(** ** Child tables *)

Section children.
Context {A : Type} (key : A → string).
Implicit Types (t : gmap (string * string) A) (b k : string) (a : A).

Lemma elem_of_children t b a : a ∈ children t b ↔ ∃ k, t !! (b, k) = Some a.
Proof.
  unfold children. rewrite list_elem_of_fmap. split.
  - intros ([[b' k] a'] & -> & [Hb Hin%elem_of_map_to_list]%list_elem_of_filter). cbn in *. subst. eauto.
  - intros (k & Hk). exists ((b, k), a). split; [done|]. apply list_elem_of_filter. split; [done|]. by apply elem_of_map_to_list.
Qed.

Lemma children_insert t b k a : t !! (b, k) = None → children (<[(b, k) := a]> t) b ≡ₚ a :: children t b.
Proof.
  intros Hn. unfold children. rewrite map_to_list_insert by done. rewrite filter_cons_True by done. done.
Qed.
Lemma children_insert_ne t b b' k a : b ≠ b' → t !! (b', k) = None → children (<[(b', k) := a]> t) b ≡ₚ children t b.
Proof.
  intros Hne Hn. unfold children. rewrite map_to_list_insert by done. rewrite filter_cons_False; [done|]. cbn. congruence.
Qed.

(** The key of a row is the one it is stored under, and its build exists. *)
Definition keyed {B} (builds : gmap string B) t : Prop :=
  ∀ b k a, t !! (b, k) = Some a → key a = k ∧ is_Some (builds !! b).

Lemma keyed_NoDup {B} (builds : gmap string B) t b : keyed builds t → NoDup (key <$> children t b).
Proof.
  intros Hk. unfold children. rewrite <- list_fmap_compose.
  assert (NoDup (filter (λ p, p.1.1 = b) (map_to_list t)).*1) as Hnd
    by apply NoDup_fmap_filter, NoDup_fst_map_to_list.
  replace ((key ∘ snd) <$> filter (λ p, p.1.1 = b) (map_to_list t)) with (snd <$> (filter (λ p, p.1.1 = b) (map_to_list t)).*1).
  - apply NoDup_fmap_2_strong; [|done]. intros [b1 k1] [b2 k2] H1' H2' Hs. cbn in Hs. subst k2.
    apply list_elem_of_fmap in H1' as ([[b1' k1'] x] & [= <- <-] & [H1' _]%list_elem_of_filter).
    apply list_elem_of_fmap in H2' as ([[b2' k2'] y] & [= <- <-] & [H2' _]%list_elem_of_filter). cbn in *. congruence.
  - rewrite <- list_fmap_compose. apply list_fmap_ext. intros i [[b1 k1] a] Hi.
    apply list_elem_of_lookup_2, list_elem_of_filter in Hi as [_ Hi%elem_of_map_to_list]. cbn. by apply Hk in Hi as [-> _].
Qed.

Lemma keyed_absent {B} (builds : gmap string B) t b k : keyed builds t → builds !! b = None → t !! (b, k) = None.
Proof. intros Hk Hb. destruct (t !! (b, k)) as [a|] eqn:Ha; [|done]. apply Hk in Ha as [_ [? ?]]. congruence. Qed.
Lemma keyed_no_children {B} (builds : gmap string B) t b : keyed builds t → builds !! b = None → children t b = [].
Proof.
  intros Hk Hb. destruct (children t b) as [|a l] eqn:Hc; [done|exfalso].
  assert (a ∈ children t b) as (k & Ha)%elem_of_children by (rewrite Hc; left). by rewrite (keyed_absent builds) in Ha.
Qed.

(** Inserting the distinct children of a build that has none. *)
Lemma insert_children refs (clash : A → A → bool) (row : A → A) b l t :
  (∀ a, a ∈ l → refs a = true) → NoDup (key <$> l) → (∀ a, a ∈ l → t !! (b, key a) = None) →
  (∀ i j a a', l !! i = Some a → l !! j = Some a' → i ≠ j → clash a' (row a) = false) →
  (∀ a v, a ∈ l → v ∈ children t b → clash a v = false) →
  ∃ t', foldM (λ t a, insert_child (refs a) (clash a) b (key a) (row a) t) t l = Ok t' ∧
    children t' b ≡ₚ (row <$> l) ++ children t b ∧
    (∀ b', b' ≠ b → children t' b' ≡ₚ children t b') ∧
    (∀ b' k a, t' !! (b', k) = Some a → t !! (b', k) = Some a ∨ (b' = b ∧ ∃ a0, a0 ∈ l ∧ k = key a0 ∧ a = row a0)) ∧
    (∀ b' k a, t !! (b', k) = Some a → t' !! (b', k) = Some a) ∧
    (∀ a, a ∈ l → t' !! (b, key a) = Some (row a)).
Proof.
  revert t; induction l as [|a l IH]; intros t Hr Hnd Hnone Hpair Hpre; cbn [foldM].
  { exists t. split_and!; try done; [|by intros ? ?%elem_of_nil]. intros ? ? ? ?. by left. }
  rewrite fmap_cons in Hnd. apply NoDup_cons in Hnd as [Hni Hnd].
  assert (t !! (b, key a) = None) as Ha by (apply Hnone; left).
  assert (∀ a', a' ∈ l → key a' ≠ key a) as Hkne by (intros a' Hin He; apply Hni; rewrite <- He; by apply list_elem_of_fmap_2).
  assert (insert_child (refs a) (clash a) b (key a) (row a) t = Ok (<[(b, key a) := row a]> t)) as ->.
  { unfold insert_child. rewrite (Hr a) by left. rewrite bool_decide_eq_true_2 by done. cbn.
    replace (existsb (clash a) (children t b)) with false; [done|]. symmetry. apply not_true_iff_false.
    intros (v & Hv & Hc)%existsb_exists. rewrite (Hpre a v) in Hc; [done|left|by apply list_elem_of_In]. }
  cbn [mbind result_bind].
  destruct (IH (<[(b, key a) := row a]> t)) as (t' & -> & Hc & Hother & Hback & Hkeep & Hnew).
  - intros a' Hin. apply Hr. by right.
  - done.
  - intros a' Hin. rewrite lookup_insert_ne; [apply Hnone; by right|]. intros [= He]. symmetry in He. by apply (Hkne a').
  - intros i j x y Hi Hj Hij. by apply (Hpair (S i) (S j)); [..|lia].
  - intros x v Hx. rewrite children_insert by done. intros [->|Hv]%elem_of_cons; [|apply Hpre; [by right|done]].
    apply list_elem_of_lookup in Hx as [j Hj]. by apply (Hpair 0 (S j) a x).
  - exists t'. split_and!; [done|..].
    + rewrite Hc, children_insert, fmap_cons by done. symmetry. apply Permutation_middle.
    + intros b' Hb'. rewrite Hother by done. by apply children_insert_ne.
    + intros b' k x [Hl|(-> & a0 & Hin & -> & ->)]%Hback.
      * apply lookup_insert_Some in Hl as [[[= <- <-] <-]|[_ Hl]]; [right; split; [done|]; exists a; split_and!; [left|done..]|by left].
      * right. split; [done|]. exists a0. split_and!; [by right|done..].
    + intros b' k x Hx. apply Hkeep. rewrite lookup_insert_ne; [done|]. intros [= <- <-]. congruence.
    + intros x [->|Hx]%elem_of_cons; [apply Hkeep; by rewrite lookup_insert_eq|by apply Hnew].
Qed.
End children.

(** Elements numbered by their position are sorted by their number. *)
Lemma numbered_sorted {A} (number : A → Z) (R : relation A) n l :
  (∀ a b, (number a < number b)%Z → R a b) → (∀ i a, l !! i = Some a → number a = (n + Z.of_nat i)%Z) → StronglySorted R l.
Proof.
  intros HR. revert n; induction l as [|a l IH]; intros n Hn; constructor.
  - apply (IH (n + 1)%Z). intros i b Hb. rewrite (Hn (S i) b Hb). lia.
  - apply Forall_lookup. intros i b Hb. apply HR. rewrite (Hn 0%nat a), (Hn (S i) b) by done. lia.
Qed.
Lemma numbered_distinct {A} (number : A → Z) (l : list A) :
  (∀ i a, l !! i = Some a → number a = Z.of_nat i) →
  ∀ i j a b, l !! i = Some a → l !! j = Some b → i ≠ j → (number a =? number b)%Z = false.
Proof. intros Hn i j a b Ha Hb Hij. apply Z.eqb_neq. rewrite (Hn _ _ Ha), (Hn _ _ Hb). lia. Qed.

(** ** Tables *)

Section tables.
Context `{Normalizer} `{Sha256} `{CatalogDocuments}.
Implicit Types (c : rendition_tables) (b : RenditionBuildRecord).

Definition row_of (b : RenditionBuildRecord) : build_row :=
  mkBuildRow (rb_Header b) (Z.of_nat (length (rb_Units b))) (Z.of_nat (length (rb_LexicalSegments b))).
(** The tables hold exactly the children of [b], and its blobs. *)
Record holds (c : rendition_tables) (b : RenditionBuildRecord) : Prop := mkHolds {
  ho_row : rc_builds c !! rb_ID b = Some (row_of b);
  ho_artifacts : children (rc_artifacts c) (rb_ID b) ≡ₚ artifact_row <$> rb_Artifacts b;
  ho_units : children (rc_units c) (rb_ID b) ≡ₚ rb_Units b;
  ho_segments : children (rc_segments c) (rb_ID b) ≡ₚ rb_LexicalSegments b;
  ho_blobs : ∀ a, a ∈ rb_Artifacts b → blobs (rc_storage c) !! ra_BlobHash a = Some (ra_Size a);
}.
(** Every stored build is the complete row set of a normalized build. *)
Record tables_ok (c : rendition_tables) : Prop := mkTablesOk {
  to_artifacts : keyed ra_ID (rc_builds c) (rc_artifacts c);
  to_units : keyed ru_ID (rc_builds c) (rc_units c);
  to_segments : keyed rs_ID (rc_builds c) (rc_segments c);
  to_builds id : is_Some (rc_builds c !! id) → ∃ b, rb_ID b = id ∧ normalized b ∧ holds c b;
}.

Record normal (b : RenditionBuildRecord) : Prop := mkNormal {
  no_artifacts : NoDup (ra_ID <$> rb_Artifacts b);
  no_sorted : StronglySorted artifact_le (rb_Artifacts b);
  no_artifact a : a ∈ rb_Artifacts b → ra_Checksum a = ra_BlobHash a ∧ ra_State a = RenditionArtifactVerified;
  no_units : NoDup (ru_ID <$> rb_Units b);
  no_unit i u : rb_Units b !! i = Some u → ru_Order u = Z.of_nat i;
  no_segments : NoDup (rs_ID <$> rb_LexicalSegments b);
  no_segment i s : rb_LexicalSegments b !! i = Some s → rs_Order s = Z.of_nat i;
  no_unit_of s : s ∈ rb_LexicalSegments b → rs_UnitID s ∈ ru_ID <$> rb_Units b;
  no_declared : bh_DeclaredArtifactCount (rb_Header b) = Z.of_nat (length (rb_Artifacts b));
  no_limits : (Z.of_nat (length (rb_Artifacts b)) <= maxRenditionArtifacts ∧ Z.of_nat (length (rb_Units b)) <= maxRenditionUnits
    ∧ Z.of_nat (length (rb_LexicalSegments b)) <= maxRenditionLexicalSegments)%Z;
}.
Lemma normalized_normal b : normalized b → normal b.
Proof.
  intros [r Hn]. unfold normalizeRenditionBuildRecord in Hn. do 7 res_inv1. injection Hn as <-.
  rename select (foldM (admit_artifact _) _ _ = _) into Ha. apply admitted_artifacts in Ha as [Ha1 Ha2].
  rename select (foldM admit_unit _ _ = _) into Hu. apply admitted_units in Hu as [Hu1 Hu2].
  rename select (foldM (admit_segment _) _ _ = _) into Hs. apply admitted_segments in Hs as (Hs1 & Hs2 & Hs3).
  repeat res_inv1. rename select ((_ && _) = true) into Hl. rewrite !andb_true_iff, !Z.leb_le in Hl.
  rename select ((bh_DeclaredArtifactCount _ =? _)%Z = true) into Hd. apply Z.eqb_eq in Hd.
  split; cbn; try done.
  - apply StronglySorted_merge_sort; apply _.
  - rewrite merge_sort_Permutation. tauto.
Qed.

Lemma sorted_artifacts b l :
  normal b → l ≡ₚ artifact_row <$> rb_Artifacts b → merge_sort artifact_le l = artifact_row <$> rb_Artifacts b.
Proof.
  intros Hn Hp.
  assert (NoDup (ra_ID <$> (artifact_row <$> rb_Artifacts b))) as Hnd.
  { rewrite <- list_fmap_compose. apply no_artifacts, Hn. }
  assert (∀ l', l' ≡ₚ artifact_row <$> rb_Artifacts b → ∀ x y, x ∈ l' → y ∈ l' → artifact_le x y → artifact_le y x → x = y) as Hanti.
  { intros l' Hl x y Hx Hy H1' H2'. rewrite Hl in Hx, Hy. eapply (NoDup_fmap_inj ra_ID); [exact Hnd|done..|by apply (anti_symm String.le)]. }
  rewrite (merge_sort_perm_eq artifact_le _ _ (Hanti l Hp) Hp). apply (merge_sort_sorted artifact_le); [by apply Hanti|].
  eapply StronglySorted_fmap_iff; [|apply no_sorted, Hn]. done.
Qed.
Lemma sorted_units b l : normal b → l ≡ₚ rb_Units b → merge_sort unit_le l = rb_Units b.
Proof.
  intros Hn Hp.
  assert (∀ l', l' ≡ₚ rb_Units b → ∀ x y, x ∈ l' → y ∈ l' → unit_le x y → unit_le y x → x = y) as Hanti.
  { intros l' Hl x y Hx Hy [?|[? ?]] [?|[? ?]]; try lia. rewrite Hl in Hx, Hy.
    eapply (NoDup_fmap_inj ru_ID); [apply no_units, Hn|done..|by apply (anti_symm String.le)]. }
  rewrite (merge_sort_perm_eq unit_le _ _ (Hanti l Hp) Hp). apply (merge_sort_sorted unit_le); [by apply Hanti|].
  apply (numbered_sorted ru_Order unit_le 0); [by left|]. apply no_unit, Hn.
Qed.
Lemma sorted_segments b l : normal b → l ≡ₚ rb_LexicalSegments b → merge_sort segment_le l = rb_LexicalSegments b.
Proof.
  intros Hn Hp.
  assert (∀ l', l' ≡ₚ rb_LexicalSegments b → ∀ x y, x ∈ l' → y ∈ l' → segment_le x y → segment_le y x → x = y) as Hanti.
  { intros l' Hl x y Hx Hy [?|[? ?]] [?|[? ?]]; try lia. rewrite Hl in Hx, Hy.
    eapply (NoDup_fmap_inj rs_ID); [apply no_segments, Hn|done..|by apply (anti_symm String.le)]. }
  rewrite (merge_sort_perm_eq segment_le _ _ (Hanti l Hp) Hp). apply (merge_sort_sorted segment_le); [by apply Hanti|].
  apply (numbered_sorted rs_Order segment_le 0); [by left|]. apply no_segment, Hn.
Qed.

(** What is held loads, with the checksums of the blob catalog. *)
Lemma load_holds c b : normalized b → holds c b → loadRenditionBuild c (rb_ID b) = Ok (rehashed_build (blob_md5 c) b).
Proof.
  intros Hno Hh. pose proof (normalized_normal b Hno) as Hn. destruct Hno as [r Hr]. unfold loadRenditionBuild.
  rewrite (ho_row _ _ Hh). cbn [from_lookup mbind result_bind row_of bw_Header bw_Units bw_Segments].
  rewrite (sorted_artifacts b _ Hn (ho_artifacts _ _ Hh)), (sorted_units b _ Hn (ho_units _ _ Hh)),
    (sorted_segments b _ Hn (ho_segments _ _ Hh)).
  rewrite !length_fmap, (no_declared _ Hn). destruct (no_limits _ Hn) as (? & ? & ?).
  rewrite check_bind_true by (rewrite !andb_true_iff, !Z.leb_le; lia).
  rewrite check_bind_true by (rewrite !andb_true_iff, !Z.leb_le; lia).
  rewrite <- (normalize_rehashed (blob_md5 c) r b Hr). f_equal. unfold rehashed_build. f_equal. rewrite <- list_fmap_compose.
  apply list_fmap_ext. intros i a Ha%list_elem_of_lookup_2. destruct (no_artifact _ Hn a Ha) as [_ Hs].
  unfold compose, hydrate, rehashed, set_md5, artifact_row. cbn. by rewrite Hs.
Qed.

Lemma state_holds c b : normalized b → holds c b → validateRenditionBuildStateTx c (rb_ID b) = Ok ().
Proof.
  intros Hn%normalized_normal Hh. unfold validateRenditionBuildStateTx. rewrite (ho_row _ _ Hh).
  cbn [from_lookup mbind result_bind row_of bw_Header bw_Units bw_Segments]. cbv zeta.
  assert (filter (λ a, blobs (rc_storage c) !! ra_BlobHash a = Some (ra_Size a) ∧ ra_Checksum a = ra_BlobHash a)
    (children (rc_artifacts c) (rb_ID b)) = children (rc_artifacts c) (rb_ID b)) as ->.
  { apply list_filter_id. intros a Ha. rewrite (ho_artifacts _ _ Hh) in Ha.
    apply list_elem_of_fmap in Ha as (a' & -> & Ha). cbn. split; [by apply (ho_blobs _ _ Hh)|by apply (no_artifact _ Hn)]. }
  rewrite (Permutation_length (ho_artifacts _ _ Hh)), (Permutation_length (ho_units _ _ Hh)),
    (Permutation_length (ho_segments _ _ Hh)), length_fmap, (no_declared _ Hn).
  by rewrite !Z.eqb_refl.
Qed.

(** ** Staging *)

Lemma mapM_Ok_Forall {A B E} (f : A → result E B) l r : mapM f l = Ok r → ∀ a, a ∈ l → ∃ x, f a = Ok x.
Proof.
  revert r; induction l as [|x l IH]; intros r Hm a Ha; [by apply elem_of_nil in Ha|]. cbn in Hm. do 2 res_inv1.
  apply elem_of_cons in Ha as [->|Ha]; eauto.
Qed.

Definition artifact_refs c (buildID : string) (a : RenditionArtifactRecord) : bool :=
  bool_decide (is_Some (rc_builds c !! buildID)) && bool_decide (is_Some (blobs (rc_storage c) !! ra_BlobHash a)).
Lemma foldM_with {A B C E} (w : A → B) (f : B → C → result E B) (g : A → C → result E A) l t :
  (∀ t x, f (w t) x = w <$> g t x) → foldM f (w t) l = w <$> foldM g t l.
Proof.
  intros Hf. revert t; induction l as [|x l IH]; intros t; [done|]. cbn [foldM]. rewrite Hf.
  destruct (g t x) as [t'|e]; [exact (IH t')|done].
Qed.
Lemma insert_artifacts_at c id l t :
  foldM (λ c, insert_artifact c id) (with_artifacts c t) l =
  with_artifacts c <$> foldM (λ t a, insert_child (artifact_refs c id a) (λ _, false) id (ra_ID a) (artifact_row a) t) t l.
Proof.
  apply (foldM_with (with_artifacts c)). intros t' a. unfold insert_artifact.
  reflexivity.
Qed.
Lemma insert_units_at c id l t :
  foldM (λ c, insert_unit c id) (with_units c t) l =
  with_units c <$> foldM (λ t u, insert_child (bool_decide (is_Some (rc_builds c !! id))) (λ v, ru_Order v =? ru_Order u)%Z
    id (ru_ID u) u t) t l.
Proof.
  apply (foldM_with (with_units c)). intros t' u. unfold insert_unit.
  reflexivity.
Qed.
Lemma insert_segments_at c id l t :
  foldM (λ c, insert_segment c id) (with_segments c t) l =
  with_segments c <$> foldM (λ t s, insert_child (bool_decide (is_Some (rc_units c !! (id, rs_UnitID s))))
    (λ v, rs_Order v =? rs_Order s)%Z id (rs_ID s) s t) t l.
Proof.
  apply (foldM_with (with_segments c)). intros t' s. unfold insert_segment.
  reflexivity.
Qed.

(** What a staged build leaves of the tables. *)
Record staged (c : rendition_tables) (b : RenditionBuildRecord) (c' : rendition_tables) : Prop := mkStaged {
  st_storage : rc_storage c' = rc_storage c;
  st_builds : rc_builds c' = <[rb_ID b := row_of b]> (rc_builds c);
  st_others id : id ≠ rb_ID b →
    children (rc_artifacts c') id ≡ₚ children (rc_artifacts c) id ∧
    children (rc_units c') id ≡ₚ children (rc_units c) id ∧
    children (rc_segments c') id ≡ₚ children (rc_segments c) id;
  st_holds : holds c' b;
  st_ok : tables_ok c';
}.

Lemma with_artifacts_id c : with_artifacts c (rc_artifacts c) = c.
Proof. by destruct c. Qed.
Lemma with_units_id c : with_units c (rc_units c) = c.
Proof. by destruct c. Qed.
Lemma with_segments_id c : with_segments c (rc_segments c) = c.
Proof. by destruct c. Qed.

Lemma keyed_insert {A} (key : A → string) (builds : gmap string build_row) (row : build_row) (id : string)
    (t t' : gmap (string * string) A) (l : list A) (f : A → A) :
  keyed key builds t → (∀ a, key (f a) = key a) →
  (∀ (i k : string) a, t' !! (i, k) = Some a → t !! (i, k) = Some a ∨ (i = id ∧ ∃ a0, a0 ∈ l ∧ k = key a0 ∧ a = f a0)) →
  keyed key (<[id := row]> builds) t'.
Proof.
  intros Hk Hf Ht b' k a [[? ?]%Hk|(-> & a0 & _ & -> & ->)]%Ht.
  - split; [done|]. apply lookup_insert_is_Some'. by right.
  - split; [apply Hf|]. rewrite lookup_insert_eq. by eexists.
Qed.

Lemma authority_sizes c b :
  validateRenditionBuildBlobAuthorityTx c b = Ok () →
  ∀ x, x ∈ rb_Artifacts b → blobs (rc_storage c) !! ra_BlobHash x = Some (ra_Size x).
Proof.
  unfold validateRenditionBuildBlobAuthorityTx. intros Hv x Hx. do 2 res_inv1.
  rename select (mapM _ _ = _) into Hm. destruct (mapM_Ok_Forall _ _ _ Hm x Hx) as (u & Hu).
  apply bind_Ok_iff in Hu as (size & Hs & He%check_Ok_iff%Z.eqb_eq). unfold require_blob in Hs. repeat res_inv1. by simplify_eq.
Qed.

(** The children of a new build are inserted. *)
Lemma insert_children_new c b :
  tables_ok c → normalized b → rc_builds c !! rb_ID b = None →
  (∀ x, x ∈ rb_Artifacts b → blobs (rc_storage c) !! ra_BlobHash x = Some (ra_Size x)) →
  ∃ ta tu ts, insertRenditionBuildChildrenTx (with_builds c (<[rb_ID b := row_of b]> (rc_builds c))) b =
      Ok (with_segments (with_units (with_artifacts (with_builds c (<[rb_ID b := row_of b]> (rc_builds c))) ta) tu) ts) ∧
    staged c b (with_segments (with_units (with_artifacts (with_builds c (<[rb_ID b := row_of b]> (rc_builds c))) ta) tu) ts).
Proof.
  intros Hok Hno Hnew Hsizes. pose proof (normalized_normal b Hno) as Hn. set (c0 := with_builds c _).
  destruct (insert_children ra_ID (artifact_refs c0 (rb_ID b)) (λ _ _, false) artifact_row (rb_ID b) (rb_Artifacts b) (rc_artifacts c))
    as (ta & Hta & Hca & Hoa & Hba & _ & _).
  { intros x Hx. unfold artifact_refs. cbn. rewrite lookup_insert_eq, (Hsizes x Hx). by rewrite !bool_decide_eq_true_2. }
  { apply (no_artifacts _ Hn). }
  { intros x _. eapply keyed_absent; [apply (to_artifacts _ Hok)|done]. }
  { done. } { done. }
  set (c1 := with_artifacts c0 ta).
  destruct (insert_children ru_ID (λ _, bool_decide (is_Some (rc_builds c1 !! rb_ID b))) (λ u v, ru_Order v =? ru_Order u)%Z (λ u, u)
    (rb_ID b) (rb_Units b) (rc_units c)) as (tu & Htu & Hcu & Hou & Hbu & _ & Hnu).
  { intros u _. cbn. rewrite lookup_insert_eq. by apply bool_decide_eq_true_2. }
  { apply (no_units _ Hn). }
  { intros u _. eapply keyed_absent; [apply (to_units _ Hok)|done]. }
  { intros i j u v Hi Hj Hij. exact (numbered_distinct ru_Order _ (no_unit _ Hn) i j u v Hi Hj Hij). }
  { intros u v _. rewrite (keyed_no_children ru_ID (rc_builds c)) by (try apply (to_units _ Hok); done). by intros ?%elem_of_nil. }
  set (c2 := with_units c1 tu).
  destruct (insert_children rs_ID (λ s, bool_decide (is_Some (rc_units c2 !! (rb_ID b, rs_UnitID s))))
    (λ s v, rs_Order v =? rs_Order s)%Z (λ s, s) (rb_ID b) (rb_LexicalSegments b) (rc_segments c)) as (ts & Hts & Hcs & Hos & Hbs & _ & _).
  { intros s Hs. cbn. apply (no_unit_of _ Hn), list_elem_of_fmap in Hs as (u & -> & Hu).
    rewrite (Hnu u Hu). by apply bool_decide_eq_true_2. }
  { apply (no_segments _ Hn). }
  { intros s _. eapply keyed_absent; [apply (to_segments _ Hok)|done]. }
  { intros i j u v Hi Hj Hij. exact (numbered_distinct rs_Order _ (no_segment _ Hn) i j u v Hi Hj Hij). }
  { intros u v _. rewrite (keyed_no_children rs_ID (rc_builds c)) by (try apply (to_segments _ Hok); done). by intros ?%elem_of_nil. }
  exists ta, tu, ts. split.
  - unfold insertRenditionBuildChildrenTx. rewrite <- (with_artifacts_id c0) at 1. rewrite insert_artifacts_at.
    change (rc_artifacts c0) with (rc_artifacts c). rewrite Hta. cbn [fmap result_fmap mbind result_bind]. fold c1.
    rewrite <- (with_units_id c1) at 1. rewrite insert_units_at. change (rc_units c1) with (rc_units c).
    rewrite Htu. cbn [fmap result_fmap mbind result_bind]. fold c2.
    rewrite <- (with_segments_id c2) at 1. rewrite insert_segments_at. change (rc_segments c2) with (rc_segments c).
    by rewrite Hts.
  - rewrite (keyed_no_children ra_ID (rc_builds c) (rc_artifacts c)), app_nil_r in Hca by (try apply (to_artifacts _ Hok); done).
    rewrite (keyed_no_children ru_ID (rc_builds c) (rc_units c)), app_nil_r, list_fmap_id in Hcu by (try apply (to_units _ Hok); done).
    rewrite (keyed_no_children rs_ID (rc_builds c) (rc_segments c)), app_nil_r, list_fmap_id in Hcs by (try apply (to_segments _ Hok); done).
    assert (holds (with_segments c2 ts) b) as Hh by (split; [apply lookup_insert_eq|done..]).
    split; [done|done|by intros id Hid; split_and!; [apply Hoa|apply Hou|apply Hos]|done|].
    split.
    + by apply (keyed_insert ra_ID _ _ (rb_ID b) (rc_artifacts c) ta (rb_Artifacts b) artifact_row); [apply (to_artifacts _ Hok)|..].
    + by apply (keyed_insert ru_ID _ _ (rb_ID b) (rc_units c) tu (rb_Units b) (λ u, u)); [apply (to_units _ Hok)|..].
    + by apply (keyed_insert rs_ID _ _ (rb_ID b) (rc_segments c) ts (rb_LexicalSegments b) (λ s, s)); [apply (to_segments _ Hok)|..].
    + intros id Hid. destruct (decide (id = rb_ID b)) as [->|Hne]; [by exists b|].
      cbn in Hid. rewrite lookup_insert_ne in Hid by done.
      destruct (to_builds _ Hok id Hid) as (b' & <- & Hno' & [? ? ? ? ?]). exists b'. split_and!; [done..|].
      split; cbn; [by rewrite lookup_insert_ne|by rewrite Hoa|by rewrite Hou|by rewrite Hos|done].
Qed.

(** The blob staging marks are not part of a build. *)
Lemma holds_staging c m b : holds c b → holds (with_blob_staging c m) b.
Proof. by intros [? ? ? ? ?]. Qed.
Lemma tables_ok_staging c m : tables_ok c → tables_ok (with_blob_staging c m).
Proof.
  intros [? ? ? Hb]. split; [done..|]. intros id Hid. destruct (Hb id Hid) as (b & <- & ? & [? ? ? ? ?]).
  exists b. split_and!; [done..|]. by apply holds_staging.
Qed.

(** A new build whose blobs are all there is staged. *)
Lemma insert_build_new c b :
  tables_ok c → normalized b → rc_builds c !! rb_ID b = None → identity_taken c (rb_Header b) = false →
  validateRenditionBuildBlobAuthorityTx c b = Ok () → ∃ c', insert_build c b = Ok c' ∧ staged c b c'.
Proof.
  intros Hok Hno Hnew Hid Hblobs. unfold insert_build. rewrite Hblobs. cbn [mbind result_bind]. cbv zeta.
  rewrite bool_decide_eq_true_2 by exact Hnew. change (identity_taken (with_blob_staging c _) _) with (identity_taken c (rb_Header b)).
  rewrite Hid. cbn [negb andb]. set (c0 := with_blob_staging c _).
  destruct (insert_children_new c0 b) as (ta & tu & ts & Hi & Hs).
  { by apply tables_ok_staging. } { done. } { done. } { by apply (authority_sizes c). }
  fold (row_of b). rewrite Hi. cbn [mbind result_bind]. destruct Hs as [? ? ? Hh ?].
  rewrite (state_holds _ _ Hno Hh). eexists. split; [done|]. by split.
Qed.

(** A build that is there already is staged again when it is the same one. *)
Lemma insert_build_present c b stored :
  is_Some (rc_builds c !! rb_ID b) → loadRenditionBuild c (rb_ID b) = Ok stored → validateRenditionBuildBlobAuthorityTx c b = Ok () →
  validateRenditionBuildStateTx c (rb_ID b) = Ok () →
  insert_build c b = (if renditionBuildDeclarationEqual stored b
                      then Ok (with_blob_staging c (rc_blob_staging c ∖ list_to_set (ra_BlobHash <$> rb_Artifacts b)))
                      else Err ErrRenditionBuildConflict).
Proof.
  intros [row Hrow] Hl Hb Hs. unfold insert_build. rewrite Hb. cbn [mbind result_bind]. cbv zeta.
  rewrite bool_decide_eq_false_2 by (cbn; congruence). cbn [andb].
  change (loadRenditionBuild (with_blob_staging c _) (rb_ID b)) with (loadRenditionBuild c (rb_ID b)). rewrite Hl.
  change (validateRenditionBuildStateTx (with_blob_staging c _) (rb_ID b)) with (validateRenditionBuildStateTx c (rb_ID b)). rewrite Hs.
  by destruct (renditionBuildDeclarationEqual stored b).
Qed.

(** ** What staging does *)

Lemma rehashed_declared md5 b0 b :
  renditionBuildDeclarationEqual (rehashed_build md5 b0) b = true → rehashed_build md5 b0 = rehashed_build md5 b.
Proof.
  intros He%bool_decide_eq_true. unfold without_md5, rehashed_build in *. cbn in He. injection He as -> -> Ha -> ->. f_equal.
  assert (∀ l : list RenditionArtifactRecord, rehashed md5 <$> (set_md5 "" <$> l) = rehashed md5 <$> l) as Hr.
  { intros l. rewrite <- list_fmap_compose. apply list_fmap_ext. by intros ? []. }
  rewrite <- (Hr (rb_Artifacts b)), <- Ha, !Hr, <- list_fmap_compose. apply list_fmap_ext. by intros ? [].
Qed.

Lemma staged_holds c b c' b0 : staged c b c' → rb_ID b0 ≠ rb_ID b → holds c b0 → holds c' b0.
Proof.
  intros Hs Hne [Hr ? ? ? ?]. destruct (st_others _ _ _ Hs (rb_ID b0) Hne) as (Ha & Hu & Hg).
  split; [rewrite (st_builds _ _ _ Hs); by rewrite lookup_insert_ne|by rewrite Ha|by rewrite Hu|by rewrite Hg|].
  by rewrite (st_storage _ _ _ Hs).
Qed.
Lemma staged_same_load c b c' id :
  tables_ok c → staged c b c' → id ≠ rb_ID b →
  loadRenditionBuild c' id = loadRenditionBuild c id ∧ validateRenditionBuildStateTx c' id = validateRenditionBuildStateTx c id.
Proof.
  intros Hok Hs Hne. assert (rc_builds c' !! id = rc_builds c !! id) as Hl by (rewrite (st_builds _ _ _ Hs); by apply lookup_insert_ne).
  destruct (rc_builds c !! id) as [row|] eqn:Hrow.
  - assert (is_Some (rc_builds c !! id)) as Hin by (rewrite Hrow; by eexists).
    destruct (to_builds _ Hok id Hin) as (b0 & <- & Hno & Hh).
    pose proof (staged_holds c b c' b0 Hs Hne Hh) as Hh'.
    rewrite (load_holds c b0 Hno Hh), (load_holds c' b0 Hno Hh'), (state_holds c b0 Hno Hh), (state_holds c' b0 Hno Hh').
    unfold blob_md5. by rewrite (st_storage _ _ _ Hs).
  - unfold loadRenditionBuild, validateRenditionBuildStateTx. by rewrite Hl, Hrow.
Qed.

(** Every way an insertion of a normalized build ends. *)
Lemma insert_build_cases c b :
  tables_ok c → normalized b →
  match insert_build c b with
  | Ok c' =>
      (rc_builds c !! rb_ID b = None ∨ ∃ m, c' = with_blob_staging c m) ∧
      tables_ok c' ∧ rc_storage c' = rc_storage c ∧ rc_builds c' = <[rb_ID b := row_of b]> (rc_builds c) ∧
      loadRenditionBuild c' (rb_ID b) = Ok (rehashed_build (blob_md5 c) b) ∧
      validateRenditionBuildStateTx c' (rb_ID b) = Ok () ∧
      (∀ id, id ≠ rb_ID b → loadRenditionBuild c' id = loadRenditionBuild c id ∧
        validateRenditionBuildStateTx c' id = validateRenditionBuildStateTx c id) ∧
      ∀ b0, holds c b0 → rb_ID b0 ≠ rb_ID b → holds c' b0
  | Err e => (∃ e', validateRenditionBuildBlobAuthorityTx c b = Err e' ∧ e = e') ∨
      (e = ErrRenditionBuildConflict ∧ validateRenditionBuildBlobAuthorityTx c b = Ok () ∧
       match rc_builds c !! rb_ID b with
       | Some _ => ∃ stored, loadRenditionBuild c (rb_ID b) = Ok stored ∧ renditionBuildDeclarationEqual stored b = false
       | None => identity_taken c (rb_Header b) = true
       end)
  end.
Proof.
  intros Hok Hno. destruct (validateRenditionBuildBlobAuthorityTx c b) as [[]|e] eqn:Hv.
  2:{ unfold insert_build. rewrite Hv. left. by exists e. }
  destruct (rc_builds c !! rb_ID b) as [row|] eqn:Hrow.
  - assert (is_Some (rc_builds c !! rb_ID b)) as Hin by (rewrite Hrow; by eexists).
    destruct (to_builds _ Hok _ Hin) as (b0 & Hid & Hno0 & Hh0). pose proof (load_holds c b0 Hno0 Hh0) as Hl.
    pose proof (state_holds c b0 Hno0 Hh0) as Hs. rewrite Hid in Hl, Hs. rewrite (insert_build_present c b _ Hin Hl Hv Hs).
    destruct (renditionBuildDeclarationEqual _ b) eqn:Hd.
    + apply rehashed_declared in Hd. rewrite Hd in Hl.
      assert (rc_builds c !! rb_ID b = Some (row_of b)) as Hr.
      { pose proof (ho_row _ _ Hh0) as Hr. rewrite Hid in Hr. rewrite Hr. unfold row_of. unfold rehashed_build in Hd. by injection Hd as _ -> _ -> ->. }
      split_and!; [right; by eexists|by apply tables_ok_staging|done| |done|done|done|].
      * cbn. symmetry. by apply insert_id.
      * intros b1 ? _. by apply holds_staging.
    + right. split_and!; [done..|]. by eexists.
  - destruct (identity_taken c (rb_Header b)) eqn:Hi.
    + unfold insert_build. rewrite Hv. cbn [mbind result_bind]. cbv zeta.
      rewrite bool_decide_eq_true_2 by exact Hrow. change (identity_taken (with_blob_staging c _) _) with (identity_taken c (rb_Header b)).
      rewrite Hi. cbn [negb andb]. unfold loadRenditionBuild at 1. cbn [with_blob_staging rc_builds]. rewrite Hrow. cbn. by right.
    + destruct (insert_build_new c b Hok Hno Hrow Hi Hv) as (c' & -> & Hs). pose proof Hs as [Hst Hb Ho Hh Hok'].
      split_and!; [by left|done..| |by apply state_holds| |].
      * rewrite (load_holds c' b Hno Hh). unfold blob_md5. by rewrite Hst.
      * intros id Hne. by apply (staged_same_load c b c' id Hok Hs Hne).
      * intros b0 ? ?. by eapply staged_holds.
Qed.

Lemma normalized_digest r b : normalizeRenditionBuildRecord r = Ok b → IsSHA256Hex (rb_ID b) = true.
Proof.
  unfold normalizeRenditionBuildRecord. intros Hn. do 2 res_inv1.
  assert (rb_ID b = rb_ID r) as ->.
  { repeat res_inv1. by subst b. }
  rename select (normalize_header _ _ = _) into Hh. unfold normalize_header in Hh. apply bind_Ok_iff in Hh as ([] & Hd & _). unfold catalog_digest, validateCatalogSHA256 in Hd.
  destruct (check _ _) eqn:Hc in Hd; [by apply check_Ok_iff in Hc|done].
Qed.

(** Why staging a normalized build is refused, in the order of the checks:
    another vault, a purge suppression of the source or the build, a blob that
    is not there at its size, and a stored build in conflict - one of the same
    name with another declaration, or one of the same identity with another
    name. *)
Definition stored_conflict (c : rendition_tables) (b : RenditionBuildRecord) : bool :=
  match rc_builds c !! rb_ID b with
  | Some _ => match RenditionBuildByID c (rb_ID b) with
              | Ok stored => negb (renditionBuildDeclarationEqual stored b)
              | Err _ => true
              end
  | None => identity_taken c (rb_Header b)
  end.
Definition stage_refusal (vault : string) (c : rendition_tables) (suppressed : gset (string * string * string))
    (b : RenditionBuildRecord) : option rendition_error :=
  if negb (String.eqb (bh_VaultID (rb_Header b)) vault) then Some ErrRenditionOther
  else if derivativeBuildSuppressedTx suppressed (bh_SourceSHA256 (rb_Header b)) (rb_ID b) then Some ErrRenditionOther
  else match validateRenditionBuildBlobAuthorityTx c b with
       | Err e => Some e
       | Ok _ => if stored_conflict c b then Some ErrRenditionBuildConflict else None
       end.

Lemma loaded_by_id c b row :
  tables_ok c → normalized b → rc_builds c !! rb_ID b = Some row → IsSHA256Hex (rb_ID b) = true →
  RenditionBuildByID c (rb_ID b) = loadRenditionBuild c (rb_ID b).
Proof.
  intros Hok Hno Hrow Hd. destruct (to_builds _ Hok (rb_ID b)) as (b0 & Hid & Hno0 & Hh0); [by rewrite Hrow|].
  pose proof (state_holds c b0 Hno0 Hh0) as Hs. rewrite Hid in Hs. unfold RenditionBuildByID. rewrite Hd. cbn [check mbind result_bind].
  destruct (loadRenditionBuild c (rb_ID b)); cbn [mbind result_bind]; [by rewrite Hs|done].
Qed.

Lemma insert_build_admits c b c' :
  insert_build c b = Ok c' →
  validateRenditionBuildBlobAuthorityTx c b = Ok () ∧
  match rc_builds c !! rb_ID b with
  | Some _ => ∃ stored, loadRenditionBuild c (rb_ID b) = Ok stored ∧ renditionBuildDeclarationEqual stored b = true
  | None => identity_taken c (rb_Header b) = false
  end.
Proof.
  unfold insert_build. destruct (validateRenditionBuildBlobAuthorityTx c b) as [[]|e]; [|done]. cbn [mbind result_bind].
  cbv zeta. set (c1 := with_blob_staging c _). intros Hi. split; [done|].
  change (rc_builds c1) with (rc_builds c) in Hi. change (identity_taken c1 _) with (identity_taken c (rb_Header b)) in Hi.
  change (loadRenditionBuild c1 (rb_ID b)) with (loadRenditionBuild c (rb_ID b)) in Hi.
  destruct (rc_builds c !! rb_ID b) as [row|] eqn:Hrow.
  - rewrite bool_decide_eq_false_2 in Hi by done. cbn [andb] in Hi.
    destruct (loadRenditionBuild c (rb_ID b)) as [stored|[]]; try done.
    exists stored. split; [done|]. apply bind_Ok_iff in Hi as (u & Hc & _). by apply check_Ok_iff in Hc.
  - rewrite bool_decide_eq_true_2 in Hi by done. cbn [andb] in Hi. destruct (identity_taken c (rb_Header b)) eqn:Ht; [|done].
    cbn [negb] in Hi. unfold loadRenditionBuild at 1 in Hi. rewrite Hrow in Hi. done.
Qed.

(** C14: Staging a normalized build is refused exactly for the reasons
    [stage_refusal] names - another vault, a purge suppression, missing or
    differently sized blobs, a conflict with a stored build - and with that
    error.  Otherwise the build is read back as it was declared, with the
    checksums of its blobs, no other build is affected and the tables stay
    complete. *)
Theorem StageRenditionBuild_roundtrip vault c suppressed record b :
  tables_ok c → normalizeRenditionBuildRecord record = Ok b →
  match stage_refusal vault c suppressed b with
  | Some e => StageRenditionBuild vault c suppressed record = Err e
  | None => ∃ c', StageRenditionBuild vault c suppressed record = Ok c' ∧ tables_ok c' ∧
      RenditionBuildByID c' (rb_ID b) = Ok (rehashed_build (blob_md5 c) b) ∧
      ∀ id, id ≠ rb_ID b → RenditionBuildByID c' id = RenditionBuildByID c id
  end.
Proof.
  intros Hok Hn. pose proof (normalized_digest _ _ Hn) as Hd. assert (normalized b) as Hno by by eexists.
  unfold stage_refusal, stored_conflict, StageRenditionBuild. rewrite Hn. cbn [mbind result_bind].
  destruct (String.eqb _ vault); cbn [negb check mbind result_bind]; [|done].
  unfold stageRenditionBuildTx. destruct (derivativeBuildSuppressedTx _ _ _); cbn [negb check mbind result_bind]; [done|].
  pose proof (insert_build_cases c b Hok Hno) as Hc. destruct (insert_build c b) as [c'|e] eqn:Hi.
  - destruct (insert_build_admits _ _ _ Hi) as [-> Hfree].
    assert (match rc_builds c !! rb_ID b with
      | Some _ => match RenditionBuildByID c (rb_ID b) with
                  | Ok stored => negb (renditionBuildDeclarationEqual stored b) | Err _ => true end
      | None => identity_taken c (rb_Header b) end = false) as ->.
    { destruct (rc_builds c !! rb_ID b) as [row|] eqn:Hrow; [|done]. destruct Hfree as (stored & Hl & He).
      by rewrite (loaded_by_id c b row Hok Hno Hrow Hd), Hl, He. }
    destruct Hc as (_ & Hok' & _ & _ & Hl & Hs & Ho & _). exists c'. split_and!; [done|done| |].
    + unfold RenditionBuildByID. rewrite Hd, Hl. cbn. by rewrite Hs.
    + intros id Hne. unfold RenditionBuildByID. by destruct (Ho id Hne) as [-> ->].
  - destruct Hc as [(e' & -> & ->)|(-> & -> & Hc)]; [done|].
    destruct (rc_builds c !! rb_ID b) as [row|] eqn:Hrow; [|by rewrite Hc]. destruct Hc as (stored & Hl & He).
    by rewrite (loaded_by_id c b row Hok Hno Hrow Hd), Hl, He.
Qed.
End tables.
