(* ===== verification/Lexical.v ===== *)
(** * Lexical generations and rendition heads (internal/store/search.go)

    The full-text projection of the staged builds.  A generation is an
    immutable set of builds with the digest of their text; the text of a build
    is indexed once, for all generations that contain it.  A publication moves
    rendition heads and the lexical head together, supersedes the generation
    before and collects the ones that nothing reads.

    Instants are in nanoseconds.  The FTS5 table mirrors the index by triggers,
    so a match is a predicate on the text of an index row. *)
From stdpp Require Import sorting.
From S2P Require Import Prelude GoText Sha256 SearchText AuditEncoding Names Tables Tree Identity Blobs ModelInput Chunking JsonText Consent Rendition RenditionBuild.

(** ** Records and tables *)

Record RenditionAttachmentRecord := mkAttachment {
  at_ID : string; at_VaultID : string; at_ContentVersionID : string; at_BuildID : string;
  at_Profile : ProcessingProfileRecord; at_AttachedAt : Z;
}.
Record RenditionHeadRecord := mkHeadRecord {
  hd_ContentVersionID : string; hd_ProcessingProfileFingerprint : string; hd_AttachmentID : string; hd_PublishedAt : Z;
}.
Record LexicalGeneration := mkGeneration {
  lg_ID : string; lg_SegmentCount : Z; lg_ManifestDigest : string; lg_BuildCount : Z; lg_BuildDigest : string;
}.
Record lexicalManifestRow := mkManifestRow { lm_buildID : string; lm_segmentID : string; lm_text : string }.
#[export] Instance RenditionAttachmentRecord_eq_dec : EqDecision RenditionAttachmentRecord.
Proof. solve_decision. Defined.
#[export] Instance lexicalManifestRow_eq_dec : EqDecision lexicalManifestRow.
Proof. solve_decision. Defined.

(** A row of [rendition_attachments]; the columns copied from the profile are
    [ar_policies]. *)
Record attachment_row := mkAttachmentRow {
  ar_VaultID : string; ar_ContentVersionID : string; ar_BuildID : string; ar_ProfileFingerprint : string;
  ar_policies : list string; ar_AttachedAt : Z;
}.
Record generation_row := mkGenerationRow { gw_segments : Z; gw_builds : Z }.

(** What a publication sees of the embedding tables: the attachment that the
    input generation of a set was cut from, if it has one; the set of each head
    and the attachment of each failure, which may be empty, under version,
    profile, binding and input kind; and the content version of each set. *)
Record embedding_tables := mkEmbeddingTables {
  et_set_attachments : gmap string string;
  et_heads : gmap (string * string * string * string) string;
  et_failures : gmap (string * string * string * string) string;
  et_set_versions : gmap string string;
}.

Record lexical_tables := mkLexical {
  lt_tables : rendition_tables;
  lt_attachments : gmap string attachment_row;
  lt_heads : gmap (string * string) (string * Z);
  lt_index : gmap (string * string) string;
  lt_generations : gmap string generation_row;
  lt_manifests : gmap string (string * string);
  lt_members : gset (string * string);
  lt_head : option string;
  lt_superseded : gset string;
  lt_embedding : embedding_tables;
}.
Definition with_rendition_tables (c : lexical_tables) v : lexical_tables :=
  mkLexical v (lt_attachments c) (lt_heads c) (lt_index c) (lt_generations c) (lt_manifests c) (lt_members c) (lt_head c) (lt_superseded c) (lt_embedding c).
Definition with_attachments (c : lexical_tables) v : lexical_tables :=
  mkLexical (lt_tables c) v (lt_heads c) (lt_index c) (lt_generations c) (lt_manifests c) (lt_members c) (lt_head c) (lt_superseded c) (lt_embedding c).
Definition with_heads (c : lexical_tables) v : lexical_tables :=
  mkLexical (lt_tables c) (lt_attachments c) v (lt_index c) (lt_generations c) (lt_manifests c) (lt_members c) (lt_head c) (lt_superseded c) (lt_embedding c).
Definition with_index (c : lexical_tables) v : lexical_tables :=
  mkLexical (lt_tables c) (lt_attachments c) (lt_heads c) v (lt_generations c) (lt_manifests c) (lt_members c) (lt_head c) (lt_superseded c) (lt_embedding c).
Definition with_generations (c : lexical_tables) v : lexical_tables :=
  mkLexical (lt_tables c) (lt_attachments c) (lt_heads c) (lt_index c) v (lt_manifests c) (lt_members c) (lt_head c) (lt_superseded c) (lt_embedding c).
Definition with_manifests (c : lexical_tables) v : lexical_tables :=
  mkLexical (lt_tables c) (lt_attachments c) (lt_heads c) (lt_index c) (lt_generations c) v (lt_members c) (lt_head c) (lt_superseded c) (lt_embedding c).
Definition with_members (c : lexical_tables) v : lexical_tables :=
  mkLexical (lt_tables c) (lt_attachments c) (lt_heads c) (lt_index c) (lt_generations c) (lt_manifests c) v (lt_head c) (lt_superseded c) (lt_embedding c).
Definition with_head (c : lexical_tables) v : lexical_tables :=
  mkLexical (lt_tables c) (lt_attachments c) (lt_heads c) (lt_index c) (lt_generations c) (lt_manifests c) (lt_members c) v (lt_superseded c) (lt_embedding c).
Definition with_superseded (c : lexical_tables) v : lexical_tables :=
  mkLexical (lt_tables c) (lt_attachments c) (lt_heads c) (lt_index c) (lt_generations c) (lt_manifests c) (lt_members c) (lt_head c) v (lt_embedding c).
Definition with_embedding (c : lexical_tables) v : lexical_tables :=
  mkLexical (lt_tables c) (lt_attachments c) (lt_heads c) (lt_index c) (lt_generations c) (lt_manifests c) (lt_members c) (lt_head c) (lt_superseded c) v.

(** ** Manifests *)

Definition manifest_fields (r : lexicalManifestRow) : list string := [lm_buildID r; lm_segmentID r; lm_text r].
Definition manifest_le (r q : lexicalManifestRow) : Prop :=
  if decide (lm_buildID r = lm_buildID q) then
    if decide (lm_segmentID r = lm_segmentID q) then String.le (lm_text r) (lm_text q)
    else String.le (lm_segmentID r) (lm_segmentID q)
  else String.le (lm_buildID r) (lm_buildID q).
#[export] Instance manifest_le_dec r q : Decision (manifest_le r q).
Proof. unfold manifest_le. repeat case_decide; apply _. Defined.

(** A field written as its length, a colon and its bytes. *)
Definition counted (field : string) : string := Itoa (Z.of_nat (slen field)) +:+ ":" +:+ field.
Definition counted_fields (fields : list string) : string := foldr (λ f s, counted f +:+ s) "" fields.

(** The table of profiles belongs to the caller's transaction as well;
    [lexicalGenerationReaders] of one store counts by generation. *)
Notation profile_table := (gmap string ProcessingProfileRecord).
Notation reader_counts := (gmap string Z).
Notation publication_pair := (RenditionAttachmentRecord * RenditionHeadRecord)%type.

Section lexical.
Context `{Normalizer} `{Sha256} `{CatalogDocuments} `{RenditionContracts}.

Definition lexicalManifestDigest (rows : list lexicalManifestRow) : string :=
  sha256Hex (counted_fields (mjoin (manifest_fields <$> merge_sort manifest_le rows))).
Definition lexicalBuildDigest (buildIDs : list string) : string :=
  sha256Hex (counted_fields (merge_sort String.le buildIDs)).
Definition lexicalReplacementGenerationID (rows : list lexicalManifestRow) (buildIDs : list string) : string :=
  sha256Hex ("docbank-lexical-gc-replacement/v1" +:+ zero_byte +:+ lexicalManifestDigest rows +:+ lexicalBuildDigest buildIDs).

Definition lexicalCatalogBuildIDsTx (c : lexical_tables) : list string :=
  merge_sort String.le (map_to_list (rc_builds (lt_tables c))).*1.

(** The segments of the given builds in the order of the query, each with the
    provider operation of its build. *)
Definition segment_stream (c : lexical_tables) (buildIDs : list string) : list (lexicalManifestRow * string) :=
  b ← buildIDs;
  match rc_builds (lt_tables c) !! b with
  | None => []
  | Some row => (λ s, (mkManifestRow b (rs_ID s) (rs_Text s), bh_ProviderOperationID (bw_Header row)))
                  <$> merge_sort segment_le (children (rc_segments (lt_tables c)) b)
  end.
(** One turn of the scan; the rows read so far in reverse.  The segments of a
    legacy build are one row. *)
Definition scan_segment (result : list lexicalManifestRow) (p : lexicalManifestRow * string) : list lexicalManifestRow :=
  match result with
  | last :: rest =>
      if String.eqb p.2 legacyPlainTextProvider && String.eqb (lm_buildID last) (lm_buildID p.1)
      then mkManifestRow (lm_buildID last) (lm_segmentID last) (lm_text last +:+ lm_text p.1) :: rest
      else p.1 :: result
  | [] => [p.1]
  end.
(** No build selects every one. *)
Definition readCatalogLexicalManifestRowsTx (c : lexical_tables) (buildID : option string) : list lexicalManifestRow :=
  reverse (foldl scan_segment [] (segment_stream c (match buildID with Some b => [b] | None => lexicalCatalogBuildIDsTx c end))).

(** The join of the members of a generation with the index. *)
Definition index_rows (c : lexical_tables) : list lexicalManifestRow :=
  (λ p : string * string * string, mkManifestRow p.1.1 p.1.2 p.2) <$> map_to_list (lt_index c).
Definition readLexicalManifestRowsTx (c : lexical_tables) (generationID : string) (buildID : option string) : list lexicalManifestRow :=
  filter (λ r, (generationID, lm_buildID r) ∈ lt_members c ∧ buildID ∈ [None; Some (lm_buildID r)])
    (index_rows c).
Definition lexicalGenerationBuildIDsTx (c : lexical_tables) (generationID : string) : list string :=
  merge_sort String.le (filter (λ p, p.1 = generationID) (elements (lt_members c))).*2.

Definition loadAndValidateLexicalGenerationTx (c : lexical_tables) (generationID : string) : rres LexicalGeneration :=
  row ← from_lookup (lt_generations c !! generationID) ErrRenditionNotFound;
  let segments := readLexicalManifestRowsTx c generationID None in
  let buildIDs := lexicalGenerationBuildIDsTx c generationID in
  '(manifestDigest, buildDigest) ← from_lookup (lt_manifests c !! generationID) ErrRenditionOther;
  _ ← check ((Z.of_nat (length segments) =? gw_segments row)%Z && (Z.of_nat (length buildIDs) =? gw_builds row)%Z
             && String.eqb (lexicalManifestDigest segments) manifestDigest
             && String.eqb (lexicalBuildDigest buildIDs) buildDigest) ErrRenditionOther;
  Ok (mkGeneration generationID (gw_segments row) manifestDigest (gw_builds row) buildDigest).

(** ** Staging a generation *)

Definition indexed_build (index : gmap (string * string) string) (buildID : string) : bool :=
  existsb (λ p, String.eqb p.1.1 buildID) (map_to_list index).
(** One turn of the loop over the segments, with the builds already looked up. *)
Definition index_segment (c : lexical_tables) (acc : gmap (string * string) string * gmap string bool) (r : lexicalManifestRow) :
    rres (gmap (string * string) string * gmap string bool) :=
  let '(index, indexed) := acc in
  let '(done, indexed) := match indexed !! lm_buildID r with
                          | Some done => (done, indexed)
                          | None => let done := indexed_build index (lm_buildID r) in (done, <[lm_buildID r := done]> indexed)
                          end in
  if (done : bool) then Ok (index, indexed) else
  _ ← check (bool_decide (is_Some (rc_builds (lt_tables c) !! lm_buildID r))) ErrRenditionOther;
  _ ← check (bool_decide (index !! (lm_buildID r, lm_segmentID r) = None)) ErrRenditionOther;
  Ok (<[(lm_buildID r, lm_segmentID r) := lm_text r]> index, indexed).
Definition indexLexicalSegmentsTx (c : lexical_tables) (segments : list lexicalManifestRow) : rres lexical_tables :=
  '(index, _) ← foldM (index_segment c) (lt_index c, ∅) segments; Ok (with_index c index).

(** [INSERT INTO rendition_lexical_generation_builds]: the build is there, the
    pair is not. *)
Definition insert_member (generationID : string) (c : lexical_tables) (buildID : string) : rres lexical_tables :=
  _ ← check (bool_decide (is_Some (rc_builds (lt_tables c) !! buildID))) ErrRenditionOther;
  _ ← check (bool_decide ((generationID, buildID) ∉ lt_members c)) ErrRenditionOther;
  Ok (with_members c ({[(generationID, buildID)]} ∪ lt_members c)).

Definition stageLexicalGenerationRowsTx (c : lexical_tables) (generationID : string) (segments : list lexicalManifestRow)
    (buildIDs : list string) : rres (lexical_tables * LexicalGeneration) :=
  match loadAndValidateLexicalGenerationTx c generationID with
  | Ok stored => Ok (c, stored)
  | Err ErrRenditionNotFound =>
      let c := with_generations c (<[generationID := mkGenerationRow (Z.of_nat (length segments)) (Z.of_nat (length buildIDs))]>
                                     (lt_generations c)) in
      c ← foldM (insert_member generationID) c buildIDs;
      c ← indexLexicalSegmentsTx c segments;
      _ ← check (bool_decide (lt_manifests c !! generationID = None)) ErrRenditionOther;
      let c := with_manifests c (<[generationID := (lexicalManifestDigest segments, lexicalBuildDigest buildIDs)]> (lt_manifests c)) in
      generation ← loadAndValidateLexicalGenerationTx c generationID;
      Ok (c, generation)
  | Err e => Err e
  end.
Definition stageLexicalGenerationTx (c : lexical_tables) (generationID : string) : rres (lexical_tables * LexicalGeneration) :=
  stageLexicalGenerationRowsTx c generationID (readCatalogLexicalManifestRowsTx c None) (lexicalCatalogBuildIDsTx c).
(** The generation that replaces one without the excluded builds; none, when
    no build is left. *)
Definition stageLexicalGenerationExcludingTx (c : lexical_tables) (excluded : gset string) :
    rres (lexical_tables * option LexicalGeneration) :=
  let segments := filter (λ r, lm_buildID r ∉ excluded) (readCatalogLexicalManifestRowsTx c None) in
  let buildIDs := filter (λ b, b ∉ excluded) (lexicalCatalogBuildIDsTx c) in
  if (length buildIDs =? 0)%nat then Ok (c, None) else
  '(c, generation) ← stageLexicalGenerationRowsTx c (lexicalReplacementGenerationID segments buildIDs) segments buildIDs;
  Ok (c, Some generation).
Definition StageLexicalGeneration (c : lexical_tables) (generationID : string) : rres (lexical_tables * LexicalGeneration) :=
  _ ← catalog_digest generationID; stageLexicalGenerationTx c generationID.

(** [requireCurrentRenditionTargetTx] *)
Definition lexical_target (c : lexical_tables) (kind : CurrentRenditionTargetKind) (id : string) : bool :=
  match kind with
  | RenditionRootBuild => bool_decide (is_Some (rc_builds (lt_tables c) !! id))
  | RenditionRootLexicalGeneration => bool_decide (is_Some (lt_generations c !! id))
  | _ => false
  end.
Definition StageRenditionBuildWithRoot (vaultID : string) (c : lexical_tables) (roots : root_table)
    (suppressed : gset (string * string * string)) (record : RenditionBuildRecord) (root : CurrentRenditionRoot) :
    rres (lexical_tables * root_table) :=
  b ← RenditionBuild.normalizeRenditionBuildRecord record;
  _ ← check (String.eqb (bh_VaultID (rb_Header b)) vaultID) ErrRenditionOther;
  _ ← validateCurrentRenditionRoot root;
  _ ← check (bool_decide (rt_TargetKind root = RenditionRootBuild) && String.eqb (rt_TargetID root) (rb_ID b)) ErrRenditionOther;
  t ← stageRenditionBuildTx (lt_tables c) suppressed b;
  let c := with_rendition_tables c t in
  roots ← putCurrentRenditionRootTx (lexical_target c) roots root;
  Ok (c, roots).
Definition StageLexicalGenerationWithRoot (c : lexical_tables) (roots : root_table) (generationID : string)
    (root : CurrentRenditionRoot) : rres (lexical_tables * root_table * LexicalGeneration) :=
  _ ← catalog_digest generationID;
  _ ← validateCurrentRenditionRoot root;
  _ ← check (bool_decide (rt_TargetKind root = RenditionRootLexicalGeneration) && String.eqb (rt_TargetID root) generationID)
    ErrRenditionOther;
  '(c, generation) ← stageLexicalGenerationTx c generationID;
  roots ← putCurrentRenditionRootTx (lexical_target c) roots root;
  Ok (c, roots, generation).

(** ** The lexical head *)

Definition readActiveLexicalGeneration (c : lexical_tables) : rres LexicalGeneration :=
  generationID ← from_lookup (lt_head c) ErrRenditionNotFound;
  row ← from_lookup (lt_generations c !! generationID) ErrRenditionNotFound;
  '(manifestDigest, buildDigest) ← from_lookup (lt_manifests c !! generationID) ErrRenditionNotFound;
  Ok (mkGeneration generationID (gw_segments row) manifestDigest (gw_builds row) buildDigest).

(** The two deletions and what they cascade to. *)
Definition delete_generation (c : lexical_tables) (generationID : string) : lexical_tables :=
  let c := with_manifests c (delete generationID (lt_manifests c)) in
  let c := with_generations c (delete generationID (lt_generations c)) in
  let c := with_members c (filter (λ p, p.1 ≠ generationID) (lt_members c)) in
  with_superseded c (lt_superseded c ∖ {[generationID]}).
Definition member_build (members : gset (string * string)) (buildID : string) : bool :=
  existsb (λ p, String.eqb p.2 buildID) (elements members).
(** [held] says of a generation that an active root, a job or a reader has it. *)
Definition collectSupersededLexicalGenerationsTx (c : lexical_tables) (held : string → bool) : lexical_tables * nat :=
  let candidates := filter (λ g, lt_head c ≠ Some g ∧ held g = false) (merge_sort String.le (elements (lt_superseded c))) in
  if (length candidates =? 0)%nat then (c, 0%nat) else
  let c := foldl delete_generation c candidates in
  (with_index c (filter (λ p, member_build (lt_members c) p.1.1 = true) (lt_index c)), length candidates).
Definition publishLexicalHeadTx (c : lexical_tables) (held : string → bool) (generationID : string) : lexical_tables :=
  let previous := default "" (lt_head c) in
  let c := with_head c (Some generationID) in
  let c := if negb (String.eqb previous "") && negb (String.eqb previous generationID)
           then with_superseded c ({[previous]} ∪ lt_superseded c) else c in
  (collectSupersededLexicalGenerationsTx c held).1.

(** ** Readers *)

Record LexicalGenerationLease := mkLease { ll_Generation : LexicalGeneration; ll_released : bool }.
Definition acquireLexicalGeneration (c : lexical_tables) (readers : reader_counts) : rres (reader_counts * LexicalGenerationLease) :=
  generation ← readActiveLexicalGeneration c;
  Ok (<[lg_ID generation := (default 0 (readers !! lg_ID generation) + 1)%Z]> readers, mkLease generation false).
Definition Release (readers : reader_counts) (lease : LexicalGenerationLease) : reader_counts * LexicalGenerationLease :=
  if ll_released lease then (readers, lease) else
  let id := lg_ID (ll_Generation lease) in
  let count := (default 0 (readers !! id) - 1)%Z in
  (if (count =? 0)%Z then delete id readers else <[id := count]> readers, mkLease (ll_Generation lease) true).
Definition root_count_le (p q : string * Z) : Prop := String.le p.1 q.1.
#[export] Instance root_count_le_dec p q : Decision (root_count_le p q).
Proof. unfold root_count_le. apply _. Defined.
Definition LeasedLexicalGenerationRoots (readers : reader_counts) : list (string * Z) :=
  merge_sort root_count_le (map_to_list readers).
Definition pinnedLexicalGenerationIDs (readers : reader_counts) : gset string :=
  dom (filter (λ p, (0 < p.2)%Z) readers).

(** ** Profiles and attachments *)

Definition loadProcessingProfile (profiles : profile_table) (fingerprint : string) : rres ProcessingProfileRecord :=
  record ← from_lookup (profiles !! fingerprint) ErrRenditionNotFound;
  from_lookup (normalizeProcessingProfileRecord record) ErrRenditionOther.
Definition ensureProcessingProfileTx (profiles : profile_table) (record : ProcessingProfileRecord) : rres profile_table :=
  match profiles !! pp_Fingerprint record with
  | None => Ok (<[pp_Fingerprint record := record]> profiles)
  | Some _ =>
      stored ← loadProcessingProfile profiles (pp_Fingerprint record);
      _ ← check (bool_decide (stored = record)) ErrRenditionOther;
      Ok profiles
  end.
Definition loadRenditionAttachment (c : lexical_tables) (profiles : profile_table) (attachmentID : string) :
    rres RenditionAttachmentRecord :=
  row ← from_lookup (lt_attachments c !! attachmentID) ErrRenditionNotFound;
  profile ← loadProcessingProfile profiles (ar_ProfileFingerprint row);
  Ok (mkAttachment attachmentID (ar_VaultID row) (ar_ContentVersionID row) (ar_BuildID row) profile (ar_AttachedAt row)).

Definition normalizeRenditionAttachmentRecord (record : RenditionAttachmentRecord) : rres RenditionAttachmentRecord :=
  _ ← catalog_digest (at_ID record);
  _ ← catalog_digest (at_BuildID record);
  _ ← check (is_Ok (validateUUIDv4 (at_VaultID record))) ErrRenditionOther;
  _ ← check (is_Ok (validateUUIDv4 (at_ContentVersionID record))) ErrRenditionOther;
  profile ← from_lookup (normalizeProcessingProfileRecord (at_Profile record)) ErrRenditionOther;
  Ok (mkAttachment (at_ID record) (at_VaultID record) (at_ContentVersionID record) (at_BuildID record) profile (at_AttachedAt record)).
Definition validateRenditionHeadRecord (record : RenditionHeadRecord) : rres () :=
  _ ← check (is_Ok (validateUUIDv4 (hd_ContentVersionID record))) ErrRenditionOther;
  _ ← catalog_digest (hd_ProcessingProfileFingerprint record);
  catalog_digest (hd_AttachmentID record).

Definition artifact_allowed (profile : executable_profile) (role : string) : bool :=
  String.eqb role catalogArtifactNormalizedEvidence
  || String.eqb role catalogArtifactSanitizedMarkdown && ep_RetainSanitizedMarkdown profile
  || String.eqb role EvidenceArtifactMarkdown
     && bool_decide (role ∈ ep_RequestedArtifacts profile) && ep_RetainProviderMarkdown profile
  || bool_decide (role ∈ ["provider_image"; "structured_evidence"; "provider_transcript"])
     && bool_decide (role ∈ ep_RequestedArtifacts profile) && ep_RetainTypedArtifacts profile.
Definition validateRenditionArtifactRolesForProfile (record : ProcessingProfileRecord) (build : RenditionBuildRecord) : rres () :=
  profile ← from_lookup (decode_profile (pp_CanonicalProfile record)) ErrRenditionOther;
  check (forallb (λ a, artifact_allowed profile (ra_Role a)) (rb_Artifacts build)) ErrRenditionOther.

Definition policies_of (p : ProcessingProfileRecord) : list string :=
  [pp_RetentionDisclosureFingerprint p; pp_AttachmentPolicyFingerprint p; pp_ConsentFingerprint p;
   pp_RenditionDisclosureFingerprint p; pp_TrustBoundary p].
Definition row_of_attachment (a : RenditionAttachmentRecord) : attachment_row :=
  mkAttachmentRow (at_VaultID a) (at_ContentVersionID a) (at_BuildID a) (pp_Fingerprint (at_Profile a))
    (policies_of (at_Profile a)) (at_AttachedAt a).
(** The primary key and [UNIQUE(content_version_id,profile_fingerprint,build_id)]. *)
Definition attachment_taken (c : lexical_tables) (a : RenditionAttachmentRecord) : bool :=
  bool_decide (is_Some (lt_attachments c !! at_ID a))
  || existsb (λ p, String.eqb (ar_ContentVersionID p.2) (at_ContentVersionID a)
                   && String.eqb (ar_ProfileFingerprint p.2) (pp_Fingerprint (at_Profile a))
                   && String.eqb (ar_BuildID p.2) (at_BuildID a)) (map_to_list (lt_attachments c)).
(** The foreign keys of an attachment, its version apart (which the caller has
    read), and of a head. *)
Definition attachment_references (c : lexical_tables) (profiles : profile_table) (a : RenditionAttachmentRecord) : bool :=
  match rc_builds (lt_tables c) !! at_BuildID a with
  | Some row => String.eqb (bh_VaultID (bw_Header row)) (at_VaultID a)
  | None => false
  end && bool_decide (is_Some (profiles !! pp_Fingerprint (at_Profile a))).
Definition head_references (c : lexical_tables) (head : RenditionHeadRecord) : bool :=
  match lt_attachments c !! hd_AttachmentID head with
  | Some row => String.eqb (ar_ContentVersionID row) (hd_ContentVersionID head)
                && String.eqb (ar_ProfileFingerprint row) (hd_ProcessingProfileFingerprint head)
  | None => false
  end.
(** Whether a row under a key belongs to the version and profile of a head. *)
Definition of_head (head : RenditionHeadRecord) (key : string * string * string * string) : bool :=
  String.eqb key.1.1.1 (hd_ContentVersionID head) && String.eqb key.1.1.2 (hd_ProcessingProfileFingerprint head).
(** The two deletions: embedding heads whose set was cut from another attachment
    than the head's, failures recorded for another one. *)
Definition revoke_stale (t : embedding_tables) (head : RenditionHeadRecord) : embedding_tables :=
  mkEmbeddingTables (et_set_attachments t)
    (filter (λ p, negb (of_head head p.1 && match et_set_attachments t !! p.2 with
                                            | Some a => negb (String.eqb a (hd_AttachmentID head))
                                            | None => false
                                            end) = true) (et_heads t))
    (filter (λ p, negb (of_head head p.1 && negb (String.eqb p.2 "") && negb (String.eqb p.2 (hd_AttachmentID head))) = true)
       (et_failures t))
    (et_set_versions t).
Definition insertRenditionAttachmentAndHeadTx (c : lexical_tables) (profiles : profile_table)
    (a : RenditionAttachmentRecord) (head : RenditionHeadRecord) : rres lexical_tables :=
  c ← (if attachment_taken c a then
         stored ← loadRenditionAttachment c profiles (at_ID a);
         _ ← check (bool_decide (stored = mkAttachment (at_ID a) (at_VaultID a) (at_ContentVersionID a) (at_BuildID a)
                                            (at_Profile a) (at_AttachedAt stored))) ErrRenditionOther;
         Ok c
       else
         _ ← check (attachment_references c profiles a) ErrRenditionOther;
         Ok (with_attachments c (<[at_ID a := row_of_attachment a]> (lt_attachments c))));
  _ ← check (head_references c head) ErrRenditionOther;
  let c := with_heads c (<[(hd_ContentVersionID head, hd_ProcessingProfileFingerprint head) :=
                           (hd_AttachmentID head, hd_PublishedAt head)]> (lt_heads c)) in
  Ok (with_embedding c (revoke_stale (lt_embedding c) head)).

(** ** Publication *)

(** What a publication reads beside these tables. *)
Record lexical_env := mkLexicalEnv {
  le_vault : string; le_versions : gmap string string; le_suppressed : gset (string * string * string);
  le_held : string → bool; le_consent : consent_db; le_now : Z;
}.
Record providerPublicationAuthorization := mkPublicationAuthorization {
  pa_consent : ProviderOperationAuthorizationRequest; pa_operationChecksum : string; pa_inputClass : string;
  pa_sourceSHA256 : string; pa_renditionRequestFingerprint : string;
}.

Definition same_manifest (rows expected : list lexicalManifestRow) : bool :=
  (length rows =? length expected)%nat && String.eqb (lexicalManifestDigest rows) (lexicalManifestDigest expected).
Definition validateRenditionPublicationTx (e : lexical_env) (c : lexical_tables) (a : RenditionAttachmentRecord)
    (generationID : string) (authorization : option providerPublicationAuthorization) : rres RenditionBuildRecord :=
  build ← loadRenditionBuild (lt_tables c) (at_BuildID a);
  let h := rb_Header build in
  _ ← check (String.eqb (bh_VaultID h) (at_VaultID a)) ErrRenditionOther;
  _ ← check (String.eqb (bh_RenditionRequestFingerprint h) (pp_RenditionRequestFingerprint (at_Profile a))
             && String.eqb (bh_EvidenceLexicalFingerprint h) (pp_EvidenceLexicalFingerprint (at_Profile a))) ErrRenditionOther;
  _ ← check (match authorization with
             | Some p => String.eqb (pa_operationChecksum p) (bh_AuthorizationChecksum h)
                         && String.eqb (pa_sourceSHA256 p) (bh_SourceSHA256 h)
                         && String.eqb (pa_renditionRequestFingerprint p) (bh_RenditionRequestFingerprint h)
             | None => true
             end) ErrRenditionOther;
  _ ← validateRenditionArtifactRolesForProfile (at_Profile a) build;
  source ← from_lookup (le_versions e !! at_ContentVersionID a) ErrRenditionNotFound;
  _ ← check (String.eqb source (bh_SourceSHA256 h)) ErrRenditionOther;
  _ ← check (negb (derivativeAttachmentSuppressedTx (le_suppressed e) (bh_SourceSHA256 h) (at_ContentVersionID a)
                     (pp_Fingerprint (at_Profile a)) (rb_ID build))) ErrRenditionOther;
  _ ← validateRenditionBuildStateTx (lt_tables c) (rb_ID build);
  _ ← check (bool_decide ((generationID, rb_ID build) ∈ lt_members c)) ErrRenditionOther;
  _ ← check (same_manifest (readLexicalManifestRowsTx c generationID (Some (rb_ID build)))
               (readCatalogLexicalManifestRowsTx c (Some (rb_ID build)))) ErrRenditionOther;
  Ok build.

(** [slices.Compact] of the sorted roles. *)
Definition retained_roles (build : RenditionBuildRecord) : list string :=
  Compact (merge_sort String.le (ra_Role <$> rb_Artifacts build)).
Definition authorizeRenditionPublicationTx (e : lexical_env) (build : RenditionBuildRecord) (p : providerPublicationAuthorization) :
    rres () :=
  authority ← with_consent (normalizeConsentAuthority (pa_consent p));
  _ ← check (bool_decide (ca_inputs authority = [pa_inputClass p])) ErrRenditionOther;
  _ ← check (bool_decide (ca_retained authority = retained_roles build)) ErrRenditionOther;
  _ ← with_consent (authorizeProviderOperationTx (le_consent e) (le_vault e) (pa_consent p) (le_now e));
  Ok ().

Definition currentRenditionHeadBuildIDsTx (c : lexical_tables) : list string :=
  merge_sort String.le (remove_dups (omap (λ p, ar_BuildID <$> lt_attachments c !! p.2.1) (map_to_list (lt_heads c)))).
Definition validateLexicalGenerationCoversCurrentHeadsTx (c : lexical_tables) (generationID : string) : rres () :=
  let generationBuildIDs := lexicalGenerationBuildIDsTx c generationID in
  foldM (λ _ buildID,
    _ ← check (bool_decide (buildID ∈ generationBuildIDs)) ErrLexicalGenerationStale;
    check (same_manifest (readLexicalManifestRowsTx c generationID (Some buildID))
             (readCatalogLexicalManifestRowsTx c (Some buildID))) ErrRenditionOther) () (currentRenditionHeadBuildIDsTx c).

Definition head_resolves (a : RenditionAttachmentRecord) (head : RenditionHeadRecord) : bool :=
  String.eqb (hd_ContentVersionID head) (at_ContentVersionID a)
  && String.eqb (hd_ProcessingProfileFingerprint head) (pp_Fingerprint (at_Profile a))
  && String.eqb (hd_AttachmentID head) (at_ID a).
(** One turn of the loop over the pairs. *)
Definition publish_pair (e : lexical_env) (generationID : string) (authorization : option providerPublicationAuthorization)
    (acc : lexical_tables * profile_table) (pair : publication_pair) : rres (lexical_tables * profile_table) :=
  let '(c, profiles) := acc in
  normalized ← normalizeRenditionAttachmentRecord pair.1;
  _ ← validateRenditionHeadRecord pair.2;
  _ ← check (head_resolves normalized pair.2) ErrRenditionOther;
  profiles ← ensureProcessingProfileTx profiles (at_Profile normalized);
  build ← validateRenditionPublicationTx e c normalized generationID authorization;
  _ ← (match authorization with Some p => authorizeRenditionPublicationTx e build p | None => Ok () end);
  c ← insertRenditionAttachmentAndHeadTx c profiles normalized pair.2;
  Ok (c, profiles).
Definition publishRenditionAttachmentsAndLexicalHeadsTx (e : lexical_env) (c : lexical_tables) (profiles : profile_table)
    (pairs : list publication_pair) (generationID : string) (authorization : option providerPublicationAuthorization) :
    rres (lexical_tables * profile_table) :=
  _ ← check (negb (length pairs =? 0)%nat) ErrRenditionOther;
  _ ← catalog_digest generationID;
  '(c, profiles) ← foldM (publish_pair e generationID authorization) (c, profiles) pairs;
  _ ← loadAndValidateLexicalGenerationTx c generationID;
  _ ← validateLexicalGenerationCoversCurrentHeadsTx c generationID;
  Ok (publishLexicalHeadTx c (le_held e) generationID, profiles).

Definition publishRenditionAndLexicalHeads (e : lexical_env) (c : lexical_tables) (profiles : profile_table)
    (attachment : RenditionAttachmentRecord) (head : RenditionHeadRecord) (generationID : string)
    (authorization : option providerPublicationAuthorization) : rres (lexical_tables * profile_table) :=
  normalized ← normalizeRenditionAttachmentRecord attachment;
  _ ← validateRenditionHeadRecord head;
  _ ← catalog_digest generationID;
  _ ← check (head_resolves normalized head) ErrRenditionOther;
  _ ← check (String.eqb (at_VaultID normalized) (le_vault e)) ErrRenditionOther;
  _ ← check (match authorization with
             | Some p => String.eqb (ProfileFingerprint (pa_consent p)) (pp_Fingerprint (at_Profile normalized))
                         && String.eqb (DisclosureFingerprint (pa_consent p)) (pp_RenditionDisclosureFingerprint (at_Profile normalized))
             | None => true
             end) ErrRenditionOther;
  publishRenditionAttachmentsAndLexicalHeadsTx e c profiles [(normalized, head)] generationID authorization.
Definition PublishRenditionAndLexicalHeads (e : lexical_env) (c : lexical_tables) (profiles : profile_table)
    (attachment : RenditionAttachmentRecord) (head : RenditionHeadRecord) (generationID : string) :
    rres (lexical_tables * profile_table) :=
  publishRenditionAndLexicalHeads e c profiles attachment head generationID None.
(** The fields of the operation that the publication compares, and its
    fingerprint, when it has one. *)
Definition PublishAuthorizedRenditionAndLexicalHeads (e : lexical_env) (c : lexical_tables) (profiles : profile_table)
    (attachment : RenditionAttachmentRecord) (head : RenditionHeadRecord) (generationID : string)
    (authorization : ProviderOperationAuthorizationRequest) (fingerprint : option string)
    (inputKind sourceSHA256 renditionRequestFingerprint : string) : rres (lexical_tables * profile_table) :=
  _ ← check (bool_decide (is_Some (PriorAuthorization authorization))) (ErrRenditionConsent ErrProcessingConsentRequired);
  operationChecksum ← from_lookup fingerprint ErrRenditionOther;
  publishRenditionAndLexicalHeads e c profiles attachment head generationID
    (Some (mkPublicationAuthorization authorization operationChecksum inputKind sourceSHA256 renditionRequestFingerprint)).

(** ** Deletion of content versions (rendition_delete.go) *)

(** The heads of the versions, then their sets; their failures go with the
    rows of the versions.  The jobs of embeddings and their roots are not among
    these tables. *)
Definition deleteEmbeddingAuthorityForVersionsTx (t : embedding_tables) (versionIDs : list string) : embedding_tables :=
  mkEmbeddingTables
    (filter (λ p, match et_set_versions t !! p.1 with Some v => bool_decide (v ∈ versionIDs) | None => false end = false)
       (et_set_attachments t))
    (filter (λ p, p.1.1.1.1 ∉ versionIDs) (et_heads t)) (filter (λ p, p.1.1.1.1 ∉ versionIDs) (et_failures t))
    (filter (λ p, p.2 ∉ versionIDs) (et_set_versions t)).
(** What [deleteRenditionAuthorityForVersionsTx] deletes from these tables. *)
Definition delete_versions (c : lexical_tables) (versionIDs : list string) : lexical_tables :=
  let c := with_embedding c (deleteEmbeddingAuthorityForVersionsTx (lt_embedding c) versionIDs) in
  let c := with_heads c (filter (λ p, p.1.1 ∉ versionIDs) (lt_heads c)) in
  with_attachments c (filter (λ p, ar_ContentVersionID p.2 ∉ versionIDs) (lt_attachments c)).

(** ** Reading *)

Record RenditionView := mkView {
  vw_Head : RenditionHeadRecord; vw_Attachment : RenditionAttachmentRecord; vw_Build : RenditionBuildRecord;
}.
Definition ActiveRendition (c : lexical_tables) (profiles : profile_table) (contentVersionID fingerprint : string) :
    rres RenditionView :=
  _ ← check (is_Ok (validateUUIDv4 contentVersionID)) ErrRenditionNotFound;
  _ ← check (IsSHA256Hex fingerprint) ErrRenditionNotFound;
  '(attachmentID, publishedAt) ← from_lookup (lt_heads c !! (contentVersionID, fingerprint)) ErrRenditionNotFound;
  attachment ← loadRenditionAttachment c profiles attachmentID;
  build ← loadRenditionBuild (lt_tables c) (at_BuildID attachment);
  _ ← validateRenditionArtifactRolesForProfile (at_Profile attachment) build;
  Ok (mkView (mkHeadRecord contentVersionID fingerprint attachmentID publishedAt) attachment build).

(** ** Search *)

(** [nodeFrom] joined with the filters ([searchFilterSQL]). *)
Definition lower_byte (a : ascii) : ascii :=
  let n := N_of_ascii a in if ((65 <=? n) && (n <=? 90))%N then ascii_of_N (n + 32) else a.
Fixpoint drop_blanks (l : list ascii) : list ascii :=
  match l with a :: l' => if Ascii.eqb a " "%char then drop_blanks l' else l | [] => [] end.
Fixpoint before_semicolon (l : list ascii) : list ascii :=
  match l with a :: l => if Ascii.eqb a ";"%char then [] else a :: before_semicolon l | [] => [] end.
(** [lower(trim(CASE WHEN instr(mime,';')=0 THEN mime ELSE substr(…) END))] *)
Definition mime_base (mime : string) : string :=
  String.string_of_list_ascii (lower_byte <$> reverse (drop_blanks (reverse (drop_blanks (before_semicolon (bs mime)))))).
(** The recursive query below a directory. *)
Definition descendants (d : db) (id : Z) : list Z :=
  descend (λ _, true) (nodes d) (S (size (nodes d))) (select (λ r, bool_decide (parent_id r = Some id)) (nodes d)).
Definition search_filter (d : db) (opts : ScopeOptions) (id : Z) (r : node_row) : bool :=
  (negb (FilesOnly opts) || bool_decide (kind r = file))
  && (String.eqb (TagID opts) "" || bool_decide ((id, TagID opts) ∈ node_tags d))
  && (String.eqb (MIMEType opts) ""
      || match (cv ← current_version d id r; v_mime_type cv) with
         | Some mime => String.eqb (mime_base mime) (MIMEType opts)
         | None => false
         end)
  && ((UnderNodeID opts =? 0)%Z || bool_decide (id ∈ descendants d (UnderNodeID opts)))
  && (String.eqb (ModifiedSince opts) "" || bool_decide (String.le (ModifiedSince opts) (modified_at r)))
  && (String.eqb (ModifiedBefore opts) "" || negb (bool_decide (String.le (ModifiedBefore opts) (modified_at r)))).

(** The text cache of the time before the first publication: [content_fts] by
    blob and extractor, and [text_searchable_versions]. *)
Record text_cache := mkCache { tc_rows : gmap (string * string) string; tc_searchable : gset string }.
(** What FTS5 answers to one query: the texts that match, and the ranks of a
    node's name, a row of the index and a row of the text cache, as integers in
    the order of the ranks. *)
Record fts_query := mkQuery {
  fq_matches : string → bool; fq_name_rank : Z → Z; fq_row_rank : string * string → Z; fq_cache_rank : string * string → Z;
}.
(** [ORDER BY rank, n.name, n.id] *)
Definition hit_order (rank : Z * node_row → Z) (p q : Z * node_row) : Prop :=
  (rank p < rank q)%Z ∨ rank p = rank q ∧ (name p.2 ≠ name q.2 ∧ String.le (name p.2) (name q.2)
                                            ∨ name p.2 = name q.2 ∧ (p.1 ≤ q.1)%Z).
#[export] Instance hit_order_dec rank p q : Decision (hit_order rank p q).
Proof. unfold hit_order. apply _. Defined.

Definition name_hits (q : fts_query) (d : db) (opts : ScopeOptions) : list (Z * node_row) :=
  merge_sort (hit_order (λ p, fq_name_rank q p.1))
    (filter (λ p, fq_matches q (name p.2) && is_live p.2 && search_filter d opts p.1 p.2 = true) (map_to_list (nodes d))).

(** The join of the index with attachments and heads, in a generation. *)
Definition matched_rows (c : lexical_tables) (generationID : string) (matches : string → bool) : list (string * lexicalManifestRow) :=
  p ← map_to_list (lt_attachments c);
  let a := p.2 in
  if bool_decide (fst <$> lt_heads c !! (ar_ContentVersionID a, ar_ProfileFingerprint a) = Some p.1)
  then (pair (ar_ContentVersionID a)) <$> filter (λ r, lm_buildID r = ar_BuildID a ∧ matches (lm_text r) = true
                                                     ∧ (generationID, lm_buildID r) ∈ lt_members c) (index_rows c)
  else [].
(** The ranks of what matches in the current version of a node: rows of the
    index that its heads lead to in a generation, or rows of the text cache
    where there is no generation yet. *)
Definition content_ranks (q : fts_query) (d : db) (c : lexical_tables) (cache : text_cache) (generationID : option string)
    (p : Z * node_row) : list Z :=
  match current_version_id p.2, current_version d p.1 p.2 with
  | Some v, Some cv =>
      match generationID with
      | Some g => (λ m, fq_row_rank q (lm_buildID m.2, lm_segmentID m.2)) <$>
                    filter (λ m, m.1 = v) (matched_rows c g (fq_matches q))
      | None =>
          if bool_decide (v ∈ tc_searchable cache)
          then (λ e, fq_cache_rank q e.1) <$>
                 filter (λ e, e.1.1 = v_blob_hash cv ∧ fq_matches q e.2 = true) (map_to_list (tc_rows cache))
          else []
      end
  | _, _ => []
  end.
(** [MIN(rank)] *)
Definition best_rank (ranks : list Z) : Z := match ranks with [] => 0 | rank :: ranks => foldl Z.min rank ranks end.
Definition content_hit (q : fts_query) (d : db) (c : lexical_tables) (cache : text_cache) (generationID : option string)
    (opts : ScopeOptions) (p : Z * node_row) : bool :=
  negb (length (content_ranks q d c cache generationID p) =? 0)%nat && is_live p.2 && negb (fq_matches q (name p.2))
  && search_filter d opts p.1 p.2.
Definition content_hits (q : fts_query) (d : db) (c : lexical_tables) (cache : text_cache) (generationID : option string)
    (opts : ScopeOptions) : list (Z * node_row) :=
  merge_sort (hit_order (λ p, best_rank (content_ranks q d c cache generationID p)))
    (filter (λ p, content_hit q d c cache generationID opts p = true) (map_to_list (nodes d))).

Inductive search_match := SearchMatchName | SearchMatchContent | SearchMatchFilter.
Record SearchHit := mkHit { sh_Node : Node; sh_Path : string; sh_Match : search_match }.
Definition scanSearchRows (d : db) (match_ : search_match) (rows : list (Z * node_row)) : list SearchHit :=
  (λ p, mkHit (scanNode d p.1 p.2) "" match_) <$> rows.
Definition addSearchPaths (d : db) (hits : list SearchHit) : rres (list SearchHit) :=
  foldM (λ done h, match Path d (ID (sh_Node h)) with
                   | Ok p => Ok (done ++ [mkHit (sh_Node h) p (sh_Match h)])
                   | Err _ => Err ErrRenditionNotFound
                   end) [] hits.
(** From the normalized options of a query with words on; what is read is one
    state of the tables. *)
Definition SearchPageWithOptions (q : fts_query) (d : db) (c : lexical_tables) (cache : text_cache) (limit offset : Z)
    (opts : ScopeOptions) : rres (list SearchHit * bool) :=
  let limit := if (limit <=? 0)%Z then 50%Z else limit in
  _ ← check (negb (offset <? 0)%Z) ErrRenditionOther;
  let nameHits := scanSearchRows d SearchMatchName (page (limit + 1) offset (name_hits q d opts)) in
  if (limit <? Z.of_nat (length nameHits))%Z then
    hits ← addSearchPaths d (take (Z.to_nat limit) nameHits);
    Ok (hits, true)
  else
    let nameCount := if (0 <? offset)%Z && (length nameHits =? 0)%nat then Z.of_nat (length (name_hits q d opts))
                     else (offset + Z.of_nat (length nameHits))%Z in
    let remaining := (limit + 1 - Z.of_nat (length nameHits))%Z in
    let contentOffset := Z.max 0 (offset - nameCount) in
    generationID ← (match readActiveLexicalGeneration c with
                    | Ok generation => Ok (Some (lg_ID generation))
                    | Err ErrRenditionNotFound => Ok None
                    | Err e => Err e
                    end);
    let contentHits :=
      scanSearchRows d SearchMatchContent (page remaining contentOffset (content_hits q d c cache generationID opts)) in
    let hits := nameHits ++ contentHits in
    let truncated := (limit <? Z.of_nat (length hits))%Z in
    hits ← addSearchPaths d (if (truncated : bool) then take (Z.to_nat limit) hits else hits);
    Ok (hits, truncated).
End lexical.
