(* ===== verification/LexicalFacts.v ===== *)
(** * Facts of lexical generations

    Manifests determine their rows, the rows of the catalog by build, and the
    invariant of the lexical tables with its preservation by staging,
    publication and collection. *)
From stdpp Require Import sorting.
From S2P Require Import Prelude GoText Sha256 SearchText AuditEncoding Names Tables Identity Blobs ModelInput Chunking JsonText Consent Rendition RenditionBuild RenditionBuildFacts Lexical.

(** ** Order of manifest rows *)

#[export] Instance manifest_le_total : Total manifest_le.
Proof.
  intros r q. unfold manifest_le. repeat case_decide; try congruence; apply (total String.le).
Qed.
#[export] Instance manifest_le_trans : Transitive manifest_le.
Proof.
  intros [b1 s1 t1] [b2 s2 t2] [b3 s3 t3]. unfold manifest_le. cbn. repeat case_decide; intros Hx Hy; subst;
    first [congruence | by etrans | exfalso; match goal with E : _ ≠ _ |- _ => apply E; by apply (anti_symm String.le) end | idtac].
Qed.
#[export] Instance manifest_le_antisym : AntiSymm (=) manifest_le.
Proof.
  intros [b s t] [b' s' t']. unfold manifest_le. cbn. repeat case_decide; try congruence; intros Hx Hy; subst;
    first [f_equal; by apply (anti_symm String.le) | exfalso; match goal with E : _ ≠ _ |- _ => apply E; by apply (anti_symm String.le) end].
Qed.

Lemma manifest_sort_perm rows rows' : rows ≡ₚ rows' → merge_sort manifest_le rows = merge_sort manifest_le rows'.
Proof. apply (merge_sort_perm_eq manifest_le). intros x y _ _. apply (anti_symm manifest_le). Qed.
Lemma string_sort_perm l l' : l ≡ₚ l' → merge_sort String.le l = merge_sort String.le l'.
Proof. apply (merge_sort_perm_eq String.le). intros x y _ _. apply (anti_symm String.le). Qed.

(** ** Counted fields *)

Lemma digits_colon d d' s s' :
  all_chars is_digit_char d = true → all_chars is_digit_char d' = true →
  d +:+ ":" +:+ s = d' +:+ ":" +:+ s' → d = d' ∧ s = s'.
Proof.
  revert d'; induction d as [|a d IH]; intros [|a' d'] Hd Hd' He; cbn in *.
  - by injection He.
  - injection He as <- _. by vm_compute in Hd'.
  - injection He as -> _. by vm_compute in Hd.
  - injection He as <- He. apply andb_true_iff in Hd as [_ Hd], Hd' as [_ Hd']. by destruct (IH d' Hd Hd' He) as [-> ->].
Qed.

Lemma sapp_eq_length s1 s2 t1 t2 : slen s1 = slen s2 → s1 +:+ t1 = s2 +:+ t2 → s1 = s2 ∧ t1 = t2.
Proof.
  revert s2; induction s1 as [|a s1 IH]; intros [|b s2] Hl He; cbn in *; try done.
  injection He as <- He. injection Hl as Hl. by destruct (IH s2 Hl He) as [-> ->].
Qed.

Lemma counted_fields_inj fields fields' : counted_fields fields = counted_fields fields' → fields = fields'.
Proof.
  revert fields'; induction fields as [|f fields IH]; intros [|f' fields']; cbn; unfold counted; rewrite <- ?sapp_assoc.
  - done.
  - intros He. destruct (Itoa_head (Z.of_nat (slen f')) ltac:(lia)) as (? & ? & _ & Hi). by rewrite Hi in He.
  - intros He. destruct (Itoa_head (Z.of_nat (slen f)) ltac:(lia)) as (? & ? & _ & Hi). by rewrite Hi in He.
  - intros [Hi He]%digits_colon; [|apply Itoa_digits; lia..]. apply (inj Itoa), (inj Z.of_nat) in Hi.
    apply sapp_eq_length in He as [-> He]; [|done]. f_equal. by apply IH.
Qed.

Lemma manifest_fields_inj rows rows' :
  mjoin (manifest_fields <$> rows) = mjoin (manifest_fields <$> rows') → rows = rows'.
Proof.
  revert rows'; induction rows as [|[b s t] rows IH]; intros [|[b' s' t'] rows']; cbn; try done.
  intros [= -> -> -> He]. f_equal. by apply IH.
Qed.

Section digests.
Context `{Sha256}.

(** The text that is hashed. *)
Definition manifest_text (rows : list lexicalManifestRow) : string :=
  counted_fields (mjoin (manifest_fields <$> merge_sort manifest_le rows)).
Lemma manifest_text_perm rows rows' : manifest_text rows = manifest_text rows' → rows ≡ₚ rows'.
Proof.
  intros He%counted_fields_inj%manifest_fields_inj. by rewrite <- (merge_sort_Permutation manifest_le rows), He, merge_sort_Permutation.
Qed.

(** A manifest digest stands for the rows of a generation, in any order:
    equal rows have equal digests, and rows with equal digests are the same
    unless the two hashed texts, which then differ, collide. *)
Theorem lexicalManifestDigest_exact rows rows' :
  (rows ≡ₚ rows' → lexicalManifestDigest rows = lexicalManifestDigest rows') ∧
  (lexicalManifestDigest rows = lexicalManifestDigest rows' →
   rows ≡ₚ rows' ∨ (manifest_text rows ≠ manifest_text rows' ∧ sha256Hex (manifest_text rows) = sha256Hex (manifest_text rows'))).
Proof.
  split.
  - intros Hp. unfold lexicalManifestDigest. by rewrite (manifest_sort_perm _ _ Hp).
  - intros He. destruct (decide (manifest_text rows = manifest_text rows')) as [Hm|Hm]; [left; by apply manifest_text_perm|by right].
Qed.
Lemma manifest_digest_perm rows rows' : rows ≡ₚ rows' → lexicalManifestDigest rows = lexicalManifestDigest rows'.
Proof. intros Hp. unfold lexicalManifestDigest. by rewrite (manifest_sort_perm _ _ Hp). Qed.
End digests.

(** ** Rows by build *)

Lemma list_filter_none {A} (P : A → Prop) `{∀ x, Decision (P x)} (l : list A) : (∀ x, x ∈ l → ¬ P x) → filter P l = [].
Proof.
  induction l as [|x l IH]; intros Hl; [done|]. rewrite filter_cons_False by (apply Hl; left). apply IH. intros y Hy. apply Hl. by right.
Qed.
Lemma filter_disjoint_perm {A} (P Q R : A → Prop) `{∀ x, Decision (P x), ∀ x, Decision (Q x), ∀ x, Decision (R x)} (l : list A) :
  (∀ x, R x ↔ P x ∨ Q x) → (∀ x, P x → ¬ Q x) → filter R l ≡ₚ filter P l ++ filter Q l.
Proof.
  intros HR HPQ. induction l as [|x l IH]; [done|]. rewrite !filter_cons.
  destruct (decide (P x)) as [Hp|Hp].
  - rewrite decide_True by (apply HR; by left). rewrite decide_False by auto. cbn. by rewrite IH.
  - destruct (decide (Q x)) as [Hq|Hq].
    + rewrite decide_True by (apply HR; by right). rewrite IH. apply Permutation_middle.
    + rewrite decide_False by (rewrite HR; tauto). exact IH.
Qed.
Lemma filter_by_key {A K} `{EqDecision K} (key : A → K) (ids : list K) (l : list A) :
  NoDup ids → filter (λ x, key x ∈ ids) l ≡ₚ mjoin ((λ i, filter (λ x, key x = i) l) <$> ids).
Proof.
  induction ids as [|i ids IH]; intros Hn.
  { cbn. induction l as [|x l IHl]; [done|]. rewrite filter_cons_False; [done|]. by intros ?%elem_of_nil. }
  apply NoDup_cons in Hn as [Hi Hn]. cbn. rewrite <- IH by done. apply filter_disjoint_perm.
  - intros x. apply elem_of_cons.
  - by intros x ->.
Qed.
Lemma mjoin_perm {A K} (f g : K → list A) ids : (∀ i, i ∈ ids → f i ≡ₚ g i) → mjoin (f <$> ids) ≡ₚ mjoin (g <$> ids).
Proof.
  induction ids as [|i ids IH]; intros Hf; [done|]. cbn. rewrite (Hf i) by left. rewrite IH; [done|]. intros j Hj. apply Hf. by right.
Qed.

Lemma scan_segment_build b l :
  (∀ p, p ∈ l → lm_buildID p.1 = b) → ∀ r, r ∈ foldl scan_segment [] l → lm_buildID r = b.
Proof.
  induction l as [|p l IH] using rev_ind; intros Hl; cbn; [by intros ? ?%elem_of_nil|]. rewrite foldl_app. cbn.
  assert (∀ r, r ∈ foldl scan_segment [] l → lm_buildID r = b) as IH' by (apply IH; intros q Hq; apply Hl; set_solver).
  assert (lm_buildID p.1 = b) as Hp by (apply Hl; set_solver). intros r.
  destruct (foldl scan_segment [] l) as [|last rest]; cbn; [by intros ->%list_elem_of_singleton|].
  destruct (_ && _); intros [->|Hr]%elem_of_cons; cbn; [apply IH'; left|apply IH'; by right|done|by apply IH'].
Qed.
Lemma scan_segment_nil l : foldl scan_segment [] l = [] → l = [].
Proof.
  destruct l as [|p l _] using rev_ind; [done|]. rewrite foldl_app. cbn. unfold scan_segment at 1.
  destruct (foldl scan_segment [] l); [done|]. by destruct (_ && _).
Qed.
(** Rows of another build are left alone. *)
Lemma scan_segment_frame b acc l :
  (∀ p, p ∈ l → lm_buildID p.1 = b) → (∀ r rest, acc = r :: rest → lm_buildID r ≠ b) →
  foldl scan_segment acc l = foldl scan_segment [] l ++ acc.
Proof.
  intros Hl Hacc. induction l as [|p l IH] using rev_ind; [done|]. rewrite !foldl_app. cbn.
  rewrite IH by (intros q Hq; apply Hl; set_solver).
  assert (lm_buildID p.1 = b) as Hp by (apply Hl; set_solver).
  destruct (foldl scan_segment [] l) as [|last rest] eqn:He; cbn [app].
  - destruct acc as [|r rest]; [done|]. unfold scan_segment. rewrite (proj2 (String.eqb_neq (lm_buildID r) (lm_buildID p.1))).
    + by rewrite andb_false_r.
    + rewrite Hp. by eapply Hacc.
  - unfold scan_segment. by destruct (_ && _).
Qed.
Lemma scan_segment_ids l : lm_segmentID <$> reverse (foldl scan_segment [] l) `sublist_of` lm_segmentID ∘ fst <$> l.
Proof.
  induction l as [|p l IH] using rev_ind; [done|]. rewrite foldl_app, fmap_app. cbn [foldl].
  destruct (foldl scan_segment [] l) as [|last rest].
  - apply sublist_inserts_l. reflexivity.
  - rewrite reverse_cons, fmap_app in IH. unfold scan_segment. destruct (_ && _); rewrite !reverse_cons, !fmap_app.
    + by apply sublist_inserts_r.
    + by apply sublist_app.
Qed.
Section rows.
Context `{Normalizer} `{Sha256} `{CatalogDocuments}.
Implicit Types c : lexical_tables.

Notation rows_of c b := (readCatalogLexicalManifestRowsTx c (Some b)).
Definition index_of c (b : string) : list lexicalManifestRow := filter (λ r, lm_buildID r = b) (index_rows c).

Lemma segment_stream_cons c b ids : segment_stream c (b :: ids) = segment_stream c [b] ++ segment_stream c ids.
Proof. unfold segment_stream. cbn. by rewrite app_nil_r. Qed.
Lemma segment_stream_build c b p : p ∈ segment_stream c [b] → lm_buildID p.1 = b.
Proof.
  unfold segment_stream. cbn. rewrite app_nil_r. destruct (rc_builds _ !! b); [|by intros ?%elem_of_nil].
  by intros (s & -> & _)%list_elem_of_fmap.
Qed.
Lemma rows_of_build c b r : r ∈ rows_of c b → lm_buildID r = b.
Proof.
  unfold readCatalogLexicalManifestRowsTx. rewrite elem_of_reverse. apply scan_segment_build. intros p. apply segment_stream_build.
Qed.

(** The scan of all builds is the scan of each. *)
Lemma scan_all c ids :
  NoDup ids → reverse (foldl scan_segment [] (segment_stream c ids)) = mjoin ((λ b, rows_of c b) <$> ids).
Proof.
  assert (∀ acc ids, NoDup ids → (∀ r rest, acc = r :: rest → lm_buildID r ∉ ids) →
    reverse (foldl scan_segment acc (segment_stream c ids)) = reverse acc ++ mjoin ((λ b, rows_of c b) <$> ids)) as Hgen.
  { intros acc ids'. revert acc. induction ids' as [|b ids' IH]; intros acc Hn Hacc; [cbn; by rewrite app_nil_r|].
    apply NoDup_cons in Hn as [Hb Hn]. rewrite segment_stream_cons, foldl_app.
    rewrite (scan_segment_frame b acc); [|apply segment_stream_build|intros r rest Hr He; apply (Hacc r rest Hr); rewrite He; left].
    rewrite IH; [|done|].
    - rewrite reverse_app, <- (assoc_L (++)). reflexivity.
    - intros r rest Hr Hin. destruct (foldl scan_segment [] (segment_stream c [b])) as [|r' rest'] eqn:He; cbn in Hr.
      + apply (Hacc r rest Hr). by right.
      + injection Hr as -> _. apply Hb. rewrite <- (scan_segment_build b (segment_stream c [b]) (segment_stream_build c b) r); [done|].
        rewrite He. left. }
  intros Hn. rewrite Hgen; [done..|]. by intros.
Qed.

Lemma catalog_builds_spec c : NoDup (lexicalCatalogBuildIDsTx c) ∧ ∀ b, b ∈ lexicalCatalogBuildIDsTx c ↔ is_Some (rc_builds (lt_tables c) !! b).
Proof.
  unfold lexicalCatalogBuildIDsTx. split.
  - rewrite merge_sort_Permutation. apply NoDup_fst_map_to_list.
  - intros b. rewrite merge_sort_Permutation, list_elem_of_fmap. split.
    + intros ([b' row] & -> & Hin%elem_of_map_to_list). by eexists.
    + intros [row Hrow]. exists (b, row). split; [done|]. by apply elem_of_map_to_list.
Qed.
Lemma catalog_rows_all c : readCatalogLexicalManifestRowsTx c None = mjoin ((λ b, rows_of c b) <$> lexicalCatalogBuildIDsTx c).
Proof. apply scan_all, catalog_builds_spec. Qed.

(** ** The rows of a held build *)

Definition build_rows (b : RenditionBuildRecord) : list lexicalManifestRow :=
  reverse (foldl scan_segment [] ((λ s, (mkManifestRow (rb_ID b) (rs_ID s) (rs_Text s), bh_ProviderOperationID (rb_Header b)))
    <$> rb_LexicalSegments b)).
Lemma rows_of_held c b : normalized b → holds (lt_tables c) b → rows_of c (rb_ID b) = build_rows b.
Proof.
  intros Hn%normalized_normal Hh. unfold readCatalogLexicalManifestRowsTx, build_rows, segment_stream. cbn.
  rewrite (ho_row _ _ Hh), app_nil_r. cbn [row_of bw_Header]. by rewrite (sorted_segments b _ Hn (ho_segments _ _ Hh)).
Qed.
Lemma rows_of_absent c b : rc_builds (lt_tables c) !! b = None → rows_of c b = [].
Proof. intros Hb. unfold readCatalogLexicalManifestRowsTx, segment_stream. cbn. by rewrite Hb. Qed.
Lemma build_rows_NoDup b : normalized b → NoDup (lm_segmentID <$> build_rows b).
Proof.
  intros Hn%normalized_normal. eapply sublist_NoDup; [|apply scan_segment_ids].
  rewrite <- list_fmap_compose. apply (no_segments _ Hn).
Qed.

Lemma elem_of_index_rows c r : r ∈ index_rows c ↔ lt_index c !! (lm_buildID r, lm_segmentID r) = Some (lm_text r).
Proof.
  unfold index_rows. rewrite list_elem_of_fmap. split.
  - intros ([[b k] t] & -> & Hin%elem_of_map_to_list). done.
  - intros Hl. exists (lm_buildID r, lm_segmentID r, lm_text r). split; [by destruct r|]. by apply elem_of_map_to_list.
Qed.

Lemma generation_builds_spec c g :
  NoDup (lexicalGenerationBuildIDsTx c g) ∧ ∀ b, b ∈ lexicalGenerationBuildIDsTx c g ↔ (g, b) ∈ lt_members c.
Proof.
  unfold lexicalGenerationBuildIDsTx. split.
  - rewrite merge_sort_Permutation. apply NoDup_fmap_2_strong.
    + intros [g1 b1] [g2 b2] [Hg1 _]%list_elem_of_filter [Hg2 _]%list_elem_of_filter Hb. cbn in *. congruence.
    + apply NoDup_filter, NoDup_elements.
  - intros b. rewrite merge_sort_Permutation, list_elem_of_fmap. split.
    + intros ([g' b'] & -> & [Hg Hin%elem_of_elements]%list_elem_of_filter). cbn in *. by subst.
    + intros Hin. exists (g, b). split; [done|]. apply list_elem_of_filter. split; [done|]. by apply elem_of_elements.
Qed.

(** The rows of a generation are the index rows of its builds. *)
Lemma generation_rows c g :
  readLexicalManifestRowsTx c g None ≡ₚ mjoin (index_of c <$> lexicalGenerationBuildIDsTx c g).
Proof.
  destruct (generation_builds_spec c g) as [Hn Hin]. unfold readLexicalManifestRowsTx, index_of.
  rewrite <- (filter_by_key lm_buildID) by done. erewrite list_filter_iff; [done|]. intros r. cbn. rewrite Hin.
  split; [by intros [? _]|intros ?; split; [done|left]].
Qed.
Lemma generation_build_rows c g b :
  (g, b) ∈ lt_members c → readLexicalManifestRowsTx c g (Some b) = index_of c b.
Proof.
  intros Hm. unfold readLexicalManifestRowsTx, index_of. apply list_filter_iff. intros r. cbn. split.
  - intros [_ Hb]. apply elem_of_cons in Hb as [?|Hb%list_elem_of_singleton]; congruence.
  - intros <-. split; [done|]. right; left.
Qed.
End rows.
Notation rows_of c b := (readCatalogLexicalManifestRowsTx c (Some b)).

(** ** Indexing *)

Section indexing.
Context `{Normalizer} `{Sha256} `{CatalogDocuments}.
Implicit Types (c : lexical_tables) (index : gmap (string * string) string).

Definition entries index : list lexicalManifestRow :=
  (λ p : string * string * string, mkManifestRow p.1.1 p.1.2 p.2) <$> map_to_list index.
Definition entries_of index (b : string) : list lexicalManifestRow := filter (λ r, lm_buildID r = b) (entries index).

Lemma elem_of_entries index r : r ∈ entries index ↔ index !! (lm_buildID r, lm_segmentID r) = Some (lm_text r).
Proof.
  unfold entries. rewrite list_elem_of_fmap. split.
  - intros ([[b k] t] & -> & Hin%elem_of_map_to_list). done.
  - intros Hl. exists (lm_buildID r, lm_segmentID r, lm_text r). split; [by destruct r|]. by apply elem_of_map_to_list.
Qed.
Lemma entries_insert index r :
  index !! (lm_buildID r, lm_segmentID r) = None →
  entries (<[(lm_buildID r, lm_segmentID r) := lm_text r]> index) ≡ₚ r :: entries index.
Proof. intros Hn. unfold entries. rewrite map_to_list_insert by done. cbn. by destruct r. Qed.
Lemma indexed_build_iff index b : indexed_build index b = true ↔ entries_of index b ≠ [].
Proof.
  unfold indexed_build, entries_of, entries. rewrite existsb_exists. split.
  - intros ([[b' k] t] & Hin%list_elem_of_In & Hb%String.eqb_eq) He. cbn in Hb. subst b'.
    apply (elem_of_nil (mkManifestRow b k t)). rewrite <- He. apply list_elem_of_filter. split; [done|].
    apply list_elem_of_fmap. by exists (b, k, t).
  - intros He. destruct (filter _ _) as [|r l] eqn:Hf; [done|]. assert (r ∈ r :: l) as Hr by left. rewrite <- Hf in Hr.
    apply list_elem_of_filter in Hr as [Hb ([[b' k] t] & -> & Hin)%list_elem_of_fmap]. exists (b', k, t). split; [by apply list_elem_of_In|].
    by apply String.eqb_eq.
Qed.

Lemma index_known_done c index memo b l :
  memo !! b = Some true → (∀ r, r ∈ l → lm_buildID r = b) → foldM (index_segment c) (index, memo) l = Ok (index, memo).
Proof.
  intros Hm. induction l as [|r l IH]; intros Hl; [done|]. cbn [foldM].
  assert (index_segment c (index, memo) r = Ok (index, memo)) as ->.
  { unfold index_segment. by rewrite (Hl r), Hm by left. }
  apply IH. intros q Hq. apply Hl. by right.
Qed.
Lemma index_known_new c index memo b l :
  memo !! b = Some false → (∀ r, r ∈ l → lm_buildID r = b) → is_Some (rc_builds (lt_tables c) !! b) →
  NoDup (lm_segmentID <$> l) → (∀ r, r ∈ l → index !! (b, lm_segmentID r) = None) →
  ∃ index', foldM (index_segment c) (index, memo) l = Ok (index', memo) ∧ entries index' ≡ₚ l ++ entries index.
Proof.
  intros Hm. revert index; induction l as [|r l IH]; intros index Hl Hb Hn Hfree; [by exists index|]. cbn [foldM].
  assert (index !! (lm_buildID r, lm_segmentID r) = None) as Hr by (rewrite (Hl r) by left; apply Hfree; left).
  assert (index_segment c (index, memo) r = Ok (<[(lm_buildID r, lm_segmentID r) := lm_text r]> index, memo)) as ->.
  { unfold index_segment. rewrite (Hl r) in * by left. rewrite Hm. rewrite bool_decide_eq_true_2 by done.
    cbn. by rewrite bool_decide_eq_true_2. }
  cbn [mbind result_bind]. rewrite fmap_cons in Hn. apply NoDup_cons in Hn as [Hni Hn].
  destruct (IH (<[(lm_buildID r, lm_segmentID r) := lm_text r]> index)) as (index' & Hf & He); [|done|done| |].
  - intros q Hq. apply Hl. by right.
  - intros q Hq. rewrite lookup_insert_ne; [apply Hfree; by right|]. intros [= _ Hs]. apply Hni. rewrite Hs. by apply list_elem_of_fmap_2.
  - exists index'. split; [done|]. rewrite He, entries_insert by done. symmetry. apply Permutation_middle.
Qed.

(** The rows of one build, met for the first time. *)
Lemma index_group c index memo b l :
  memo !! b = None → (∀ r, r ∈ l → lm_buildID r = b) → is_Some (rc_builds (lt_tables c) !! b) → NoDup (lm_segmentID <$> l) →
  ∃ index' memo', foldM (index_segment c) (index, memo) l = Ok (index', memo') ∧
    (∀ b', b' ≠ b → memo' !! b' = memo !! b') ∧
    (∀ b', b' ≠ b → entries_of index' b' ≡ₚ entries_of index b') ∧
    (entries_of index b = [] → entries_of index' b ≡ₚ l) ∧ (entries_of index b ≠ [] → index' = index).
Proof.
  intros Hm Hl Hb Hn. destruct l as [|r l].
  { exists index, memo. split_and!; try done. by intros ->. }
  assert (foldM (index_segment c) (index, memo) (r :: l) =
    foldM (index_segment c) (index, <[b := indexed_build index b]> memo) (r :: l)) as ->.
  { cbn [foldM]. f_equal. unfold index_segment. by rewrite (Hl r), Hm, lookup_insert_eq by left. }
  destruct (indexed_build index b) eqn:Hi.
  - exists index, (<[b := true]> memo). apply indexed_build_iff in Hi as Hne. split_and!; [|by intros; apply lookup_insert_ne|done..].
    apply (index_known_done c _ _ b); [apply lookup_insert_eq|done].
  - assert (entries_of index b = []) as He.
    { destruct (entries_of index b) eqn:He; [done|]. exfalso. assert (indexed_build index b = true); [|congruence].
      apply indexed_build_iff. by rewrite He. }
    destruct (index_known_new c index (<[b := false]> memo) b (r :: l)) as (index' & Hf & Hp); [apply lookup_insert_eq|done..| |].
    + intros q Hq. destruct (index !! (b, lm_segmentID q)) as [t|] eqn:Ht; [exfalso|done].
      apply (elem_of_nil (mkManifestRow b (lm_segmentID q) t)). rewrite <- He. apply list_elem_of_filter. split; [done|].
      by apply elem_of_entries.
    + exists index', (<[b := false]> memo). split_and!; [done|by intros; apply lookup_insert_ne| | |done].
      * intros b' Hne. unfold entries_of. rewrite Hp, filter_app.
        assert (filter (λ q, lm_buildID q = b') (r :: l) = []) as ->; [|done].
        apply list_filter_none. intros q Hq Hb'. apply Hne. rewrite <- Hb'. by apply Hl.
      * intros _. unfold entries_of in *. rewrite Hp, filter_app, He, app_nil_r.
        rewrite list_filter_id; [done|]. exact Hl.
Qed.

(** Indexing the rows of distinct builds leaves each indexed exactly. *)
Lemma index_builds c ids index memo :
  NoDup ids → (∀ b, b ∈ ids → memo !! b = None ∧ is_Some (rc_builds (lt_tables c) !! b) ∧ NoDup (lm_segmentID <$> rows_of c b)
    ∧ (entries_of index b = [] ∨ entries_of index b ≡ₚ rows_of c b)) →
  ∃ index' memo', foldM (index_segment c) (index, memo) (mjoin ((λ b, rows_of c b) <$> ids)) = Ok (index', memo') ∧
    (∀ b, b ∈ ids → entries_of index' b ≡ₚ rows_of c b) ∧ (∀ b, b ∉ ids → entries_of index' b ≡ₚ entries_of index b).
Proof.
  revert index memo; induction ids as [|b ids IH]; intros index memo Hn Hids.
  { exists index, memo. split_and!; [done|by intros ? ?%elem_of_nil|done]. }
  apply NoDup_cons in Hn as [Hb Hn]. destruct (Hids b) as (Hm & Hbuild & Hnd & Hidx); [left|].
  change (mjoin ((λ b, rows_of c b) <$> b :: ids)) with (rows_of c b ++ mjoin ((λ b, rows_of c b) <$> ids)). rewrite foldM_app.
  destruct (index_group c index memo b (rows_of c b) Hm (rows_of_build c b) Hbuild Hnd) as (i1 & m1 & -> & Hm1 & Ho1 & He1 & Hs1).
  cbn [mbind result_bind]. destruct (IH i1 m1 Hn) as (i2 & m2 & Hf & Hin & Hout).
  - intros b' Hb'. assert (b' ≠ b) as Hne by (by intros ->). destruct (Hids b') as (? & ? & ? & Hi); [by right|].
    split_and!; [by rewrite Hm1|done..|]. destruct Hi as [Hi|Hi]; [left|right; by rewrite Ho1].
    apply Permutation_nil_r. by rewrite Ho1, Hi.
  - exists i2, m2. split_and!; [done|..].
    + intros b' [->|Hb']%elem_of_cons; [|by apply Hin]. rewrite Hout by done.
      destruct (decide (entries_of index b = [])) as [He|He]; [by apply He1|]. rewrite (Hs1 He). by destruct Hidx.
    + intros b' Hb'. apply not_elem_of_cons in Hb' as [Hne Hb']. rewrite Hout by done. by apply Ho1.
Qed.
End indexing.

(** ** The invariant *)

Section invariant.
Context `{Normalizer} `{Sha256} `{CatalogDocuments} `{RenditionContracts}.
Implicit Types c : lexical_tables.

Definition expected_rows c (g : string) : list lexicalManifestRow :=
  mjoin ((λ b, rows_of c b) <$> lexicalGenerationBuildIDsTx c g).
(** A generation is recorded with the counts and the digests of what the
    catalog has for its builds. *)
Definition recorded c (g : string) (row : generation_row) : Prop :=
  row = mkGenerationRow (Z.of_nat (length (expected_rows c g))) (Z.of_nat (length (lexicalGenerationBuildIDsTx c g))) ∧
  lt_manifests c !! g = Some (lexicalManifestDigest (expected_rows c g), lexicalBuildDigest (lexicalGenerationBuildIDsTx c g)).

(** The foreign keys of the lexical tables, and: what is indexed of a build is
    what the catalog has of it, and a generation has its builds indexed and is
    recorded. *)
Record lexical_core c : Prop := mkLexicalCore {
  lo_tables : tables_ok (lt_tables c);
  lo_indexed b : entries_of (lt_index c) b = [] ∨ is_Some (rc_builds (lt_tables c) !! b) ∧ entries_of (lt_index c) b ≡ₚ rows_of c b;
  lo_members g b : (g, b) ∈ lt_members c →
    is_Some (lt_generations c !! g) ∧ is_Some (rc_builds (lt_tables c) !! b) ∧ entries_of (lt_index c) b ≡ₚ rows_of c b;
  lo_recorded g row : lt_generations c !! g = Some row → recorded c g row;
  lo_manifests g : is_Some (lt_manifests c !! g) → is_Some (lt_generations c !! g);
  lo_head g : lt_head c = Some g → is_Some (lt_generations c !! g);
  lo_superseded g : g ∈ lt_superseded c → is_Some (lt_generations c !! g);
  lo_heads k a t : lt_heads c !! k = Some (a, t) →
    ∃ row, lt_attachments c !! a = Some row ∧ k = (ar_ContentVersionID row, ar_ProfileFingerprint row);
  lo_attachments a row : lt_attachments c !! a = Some row → is_Some (rc_builds (lt_tables c) !! ar_BuildID row);
}.
(** A generation contains the builds of all rendition heads. *)
Definition covers c (g : string) : Prop :=
  ∀ k a t row, lt_heads c !! k = Some (a, t) → lt_attachments c !! a = Some row → (g, ar_BuildID row) ∈ lt_members c.
(** With it: the lexical head covers every rendition head. *)
Definition lexical_ok c : Prop :=
  lexical_core c ∧ match lt_head c with Some g => covers c g | None => lt_heads c = ∅ end.

Lemma stored_build c b :
  lexical_core c → is_Some (rc_builds (lt_tables c) !! b) → ∃ b0, rb_ID b0 = b ∧ normalized b0 ∧ holds (lt_tables c) b0 ∧ rows_of c b = build_rows b0.
Proof.
  intros Hok Hb. destruct (to_builds _ (lo_tables _ Hok) b Hb) as (b0 & <- & Hn & Hh). exists b0. split_and!; [done..|].
  by apply rows_of_held.
Qed.

(** What a generation reads is what the catalog has for its builds. *)
Lemma generation_rows_expected c g : lexical_core c → readLexicalManifestRowsTx c g None ≡ₚ expected_rows c g.
Proof.
  intros Hok. rewrite generation_rows. apply mjoin_perm. intros b Hb%generation_builds_spec.
  by destruct (lo_members _ Hok g b Hb) as (_ & _ & ?).
Qed.
Lemma load_recorded c g row :
  recorded c g row → lt_generations c !! g = Some row → readLexicalManifestRowsTx c g None ≡ₚ expected_rows c g →
  loadAndValidateLexicalGenerationTx c g = Ok (mkGeneration g (gw_segments row) (lexicalManifestDigest (expected_rows c g))
    (gw_builds row) (lexicalBuildDigest (lexicalGenerationBuildIDsTx c g))).
Proof.
  intros [-> Hm] Hg Hp. unfold loadAndValidateLexicalGenerationTx. rewrite Hg, Hm. cbn [from_lookup mbind result_bind gw_segments gw_builds].
  rewrite check_bind_true; [done|]. by rewrite (manifest_digest_perm _ _ Hp), (Permutation_length Hp), !Z.eqb_refl, !String.eqb_refl.
Qed.
Lemma load_generation c g row :
  lexical_core c → lt_generations c !! g = Some row →
  loadAndValidateLexicalGenerationTx c g = Ok (mkGeneration g (gw_segments row) (lexicalManifestDigest (expected_rows c g))
    (gw_builds row) (lexicalBuildDigest (lexicalGenerationBuildIDsTx c g))).
Proof. intros Hok Hg. apply load_recorded; [by apply (lo_recorded _ Hok)|done|by apply generation_rows_expected]. Qed.

(** ** Staging a build *)

Lemma insert_build_rows c b t' :
  lexical_core c → normalized b → insert_build (lt_tables c) b = Ok t' →
  tables_ok t' ∧ rc_storage t' = rc_storage (lt_tables c) ∧
  (∀ id, is_Some (rc_builds (lt_tables c) !! id) → is_Some (rc_builds t' !! id) ∧ rows_of (with_rendition_tables c t') id = rows_of c id) ∧
  is_Some (rc_builds t' !! rb_ID b).
Proof.
  intros Hok Hno Hi. pose proof (insert_build_cases _ _ (lo_tables _ Hok) Hno) as Hc. rewrite Hi in Hc.
  destruct Hc as (Hnew & Hok' & Hst & Hb & _ & _ & _ & Ho). split_and!; [done..| |by rewrite Hb, lookup_insert_eq].
  intros id Hid. split; [rewrite Hb; apply lookup_insert_is_Some'; by right|].
  destruct Hnew as [Hnew|[m ->]]; [|done]. assert (id ≠ rb_ID b) as Hne by (intros ->; rewrite Hnew in Hid; by destruct Hid).
  destruct (stored_build c id Hok Hid) as (b0 & <- & Hn0 & Hh0 & ->). apply rows_of_held; [done|]. by apply Ho.
Qed.

Lemma expected_rows_ext c c' g :
  lexicalGenerationBuildIDsTx c' g = lexicalGenerationBuildIDsTx c g →
  (∀ b, (g, b) ∈ lt_members c → rows_of c' b = rows_of c b) → expected_rows c' g = expected_rows c g.
Proof.
  intros Hids Hrows. unfold expected_rows. rewrite Hids. f_equal. apply list_fmap_ext. intros i b Hb%list_elem_of_lookup_2.
  by apply Hrows, generation_builds_spec.
Qed.
Lemma recorded_ext c c' g row :
  lexicalGenerationBuildIDsTx c' g = lexicalGenerationBuildIDsTx c g →
  (∀ b, (g, b) ∈ lt_members c → rows_of c' b = rows_of c b) → lt_manifests c' !! g = lt_manifests c !! g →
  recorded c g row → recorded c' g row.
Proof. intros Hids Hrows Hm. unfold recorded. by rewrite (expected_rows_ext c c' g Hids Hrows), Hids, Hm. Qed.

Lemma insert_build_core c b t' :
  lexical_core c → normalized b → insert_build (lt_tables c) b = Ok t' → lexical_core (with_rendition_tables c t').
Proof.
  intros Hok Hno Hi. destruct (insert_build_rows c b t' Hok Hno Hi) as (Hok' & _ & Hkeep & _).
  split; try apply Hok.
  - done.
  - intros id. destruct (lo_indexed _ Hok id) as [?|[Hb Hp]]; [by left|right].
    destruct (Hkeep id Hb) as [? Hr]. split; [done|]. by rewrite Hr.
  - intros g id (Hg & Hb & Hp)%(lo_members _ Hok). destruct (Hkeep id Hb) as [? Hr]. split_and!; [done..|]. by rewrite Hr.
  - intros g row Hg%(lo_recorded _ Hok). apply (recorded_ext c); [done| |done|exact Hg].
    intros id (_ & Hb & _)%(lo_members _ Hok). by apply Hkeep.
  - intros a row Ha%(lo_attachments _ Hok). by apply Hkeep.
Qed.

(** ** Staging a generation *)

Lemma insert_members c g ids :
  NoDup ids → (∀ b, b ∈ ids → is_Some (rc_builds (lt_tables c) !! b) ∧ (g, b) ∉ lt_members c) →
  foldM (insert_member g) c ids = Ok (with_members c (list_to_set ((λ b, (g, b)) <$> ids) ∪ lt_members c)).
Proof.
  revert c; induction ids as [|b ids IH]; intros c Hn Hids; cbn [foldM].
  { cbn. rewrite (left_id_L ∅ (∪)). by destruct c. }
  apply NoDup_cons in Hn as [Hb Hn]. destruct (Hids b) as [Hbuild Hm]; [left|].
  assert (insert_member g c b = Ok (with_members c ({[(g, b)]} ∪ lt_members c))) as ->.
  { unfold insert_member. by rewrite !check_bind_true by (by apply bool_decide_eq_true). }
  cbn [mbind result_bind].
  rewrite IH; [|done|].
  - cbn. do 2 f_equal. set_solver.
  - intros b' Hb'. destruct (Hids b') as [? ?]; [by right|]. split; [done|]. cbn. set_solver.
Qed.

Lemma generation_builds_perm c g ids :
  NoDup ids → (∀ b, (g, b) ∈ lt_members c ↔ b ∈ ids) → lexicalGenerationBuildIDsTx c g ≡ₚ ids.
Proof.
  intros Hn Hm. destruct (generation_builds_spec c g) as [Hn' Hin]. apply NoDup_Permutation; [done..|]. intros b. by rewrite Hin, Hm.
Qed.
Lemma generation_builds_ext c c' g :
  (∀ b, (g, b) ∈ lt_members c' ↔ (g, b) ∈ lt_members c) → lexicalGenerationBuildIDsTx c' g = lexicalGenerationBuildIDsTx c g.
Proof.
  intros Hm. destruct (generation_builds_spec c g) as [Hn Hin].
  assert (lexicalGenerationBuildIDsTx c' g ≡ₚ lexicalGenerationBuildIDsTx c g) as Hp.
  { apply generation_builds_perm; [done|]. intros b. by rewrite Hm, Hin. }
  unfold lexicalGenerationBuildIDsTx in *. apply string_sort_perm. by rewrite !merge_sort_Permutation in Hp.
Qed.

(** A new generation of distinct stored builds is staged: it has exactly these
    builds, each indexed exactly, and nothing else is changed. *)
Lemma stage_rows_new c g ids :
  lexical_core c → lt_generations c !! g = None → NoDup ids → (∀ b, b ∈ ids → is_Some (rc_builds (lt_tables c) !! b)) →
  ∃ c' generation, stageLexicalGenerationRowsTx c g (mjoin ((λ b, rows_of c b) <$> ids)) ids = Ok (c', generation) ∧
    lg_ID generation = g ∧ lexical_core c' ∧ (∀ b, (g, b) ∈ lt_members c' ↔ b ∈ ids) ∧ lt_members c ⊆ lt_members c' ∧
    lt_tables c' = lt_tables c ∧ lt_attachments c' = lt_attachments c ∧ lt_heads c' = lt_heads c ∧ lt_head c' = lt_head c ∧
    lt_superseded c' = lt_superseded c ∧ (∀ g', is_Some (lt_generations c' !! g') ↔ g' = g ∨ is_Some (lt_generations c !! g')).
Proof.
  intros Hok Hg Hn Hids. set (rows := mjoin _).
  assert (∀ b, (g, b) ∉ lt_members c) as Hfresh.
  { intros b (Hs & _)%(lo_members _ Hok). rewrite Hg in Hs. by destruct Hs. }
  unfold stageLexicalGenerationRowsTx. unfold loadAndValidateLexicalGenerationTx at 1. rewrite Hg. cbn [from_lookup mbind result_bind].
  set (row := mkGenerationRow _ _). set (c1 := with_generations c _).
  rewrite (insert_members c1 g ids Hn) by (intros b Hb; split; [by apply Hids|apply Hfresh]). cbn [mbind result_bind].
  set (c2 := with_members c1 _). unfold indexLexicalSegmentsTx.
  destruct (index_builds c2 ids (lt_index c2) ∅ Hn) as (index & memo & Hf & Hin & Hout).
  { intros b Hb. split_and!; [done|by apply Hids| |].
    - destruct (stored_build c b Hok (Hids b Hb)) as (b0 & <- & Hn0 & _ & Hr). change (rows_of c2 (rb_ID b0)) with (rows_of c (rb_ID b0)).
      rewrite Hr. by apply build_rows_NoDup.
    - destruct (lo_indexed _ Hok b) as [?|[_ ?]]; [by left|by right]. }
  change (foldM (index_segment c2) (lt_index c2, ∅) rows = Ok (index, memo)) in Hf. rewrite Hf. cbn [mbind result_bind].
  set (c3 := with_index c2 index).
  rewrite check_bind_true.
  2:{ apply bool_decide_eq_true. destruct (lt_manifests c3 !! g) eqn:Hm; [|done]. exfalso.
      assert (is_Some (lt_generations c !! g)) as Hs by (apply (lo_manifests _ Hok); change (lt_manifests c) with (lt_manifests c3); by rewrite Hm).
      rewrite Hg in Hs. by destruct Hs. }
  cbn [mbind result_bind]. set (c4 := with_manifests c3 _).
  assert (∀ b, rows_of c4 b = rows_of c b) as Hrows by done.
  assert (∀ g' b, (g', b) ∈ lt_members c4 ↔ (g' = g ∧ b ∈ ids) ∨ (g', b) ∈ lt_members c) as Hmem.
  { intros g' b. cbn. rewrite elem_of_union, elem_of_list_to_set, list_elem_of_fmap. split; [intros [(b' & [= -> ->] & ?)|?]; eauto|].
    intros [[-> ?]|?]; [left; eauto|by right]. }
  assert (∀ b, entries_of index b = [] ∨ is_Some (rc_builds (lt_tables c) !! b) ∧ entries_of index b ≡ₚ rows_of c b) as Hidx.
  { intros b. destruct (decide (b ∈ ids)) as [Hb|Hb]; [right; split; [by apply Hids|by apply (Hin b)]|].
    destruct (lo_indexed _ Hok b) as [He|[Hs Hp]].
    - left. apply Permutation_nil_r. rewrite (Hout b Hb). cbn. by rewrite He.
    - right. split; [done|]. by rewrite (Hout b Hb). }
  assert (∀ g' b, (g', b) ∈ lt_members c4 → is_Some (rc_builds (lt_tables c) !! b) ∧ entries_of index b ≡ₚ rows_of c b) as Hexact.
  { intros g' b [[-> Hb]|Hb]%Hmem; [split; [by apply Hids|by apply (Hin b)]|]. destruct (lo_members _ Hok g' b Hb) as (_ & Hs & Hp).
    split; [done|]. destruct (decide (b ∈ ids)) as [Hi|Hi]; [by apply (Hin b)|by rewrite (Hout b Hi)]. }
  assert (lexicalGenerationBuildIDsTx c4 g ≡ₚ ids) as Hperm.
  { apply generation_builds_perm; [done|]. intros b. rewrite Hmem. split; [intros [[_ ?]|?%Hfresh]; done|by left]. }
  assert (expected_rows c4 g ≡ₚ rows) as Hexp by (unfold expected_rows, rows; by rewrite Hperm).
  assert (recorded c4 g row) as Hrec.
  { split; [unfold row; by rewrite (Permutation_length Hexp), (Permutation_length Hperm)|].
    cbn. rewrite lookup_insert_eq. unfold lexicalBuildDigest. by rewrite (manifest_digest_perm _ _ Hexp), (string_sort_perm _ _ Hperm). }
  assert (lt_generations c4 !! g = Some row) as Hgen by apply lookup_insert_eq.
  rewrite (load_recorded c4 g row Hrec Hgen).
  2:{ rewrite generation_rows. apply mjoin_perm. intros b Hb%generation_builds_spec. by apply Hexact in Hb as [_ ?]. }
  eexists c4, _. split; [reflexivity|]. split; [done|]. split; [|split_and!; try done].
  - split; try apply Hok.
    + exact Hidx.
    + intros g' b Hm. destruct (Hexact g' b Hm) as [Hb Hp]. split_and!; [|done..].
      apply Hmem in Hm as [[-> _]|Hm]; [by rewrite Hgen|]. destruct (lo_members _ Hok g' b Hm) as (Hs & _). apply lookup_insert_is_Some'. by right.
    + intros g' row' Hr. destruct (decide (g' = g)) as [->|Hne]; [by rewrite Hgen in Hr; injection Hr as <-|].
      assert (lt_generations c !! g' = Some row') as Hr' by (rewrite <- Hr; symmetry; apply lookup_insert_ne; by symmetry).
      apply (recorded_ext c); [| |cbn; by apply lookup_insert_ne|by apply (lo_recorded _ Hok)].
      * apply generation_builds_ext. intros b. rewrite Hmem. split; [intros [[? _]|?]; done|by right].
      * done.
    + intros g' Hs. cbn in Hs. apply lookup_insert_is_Some in Hs as [<-|[_ Hs]]; [by rewrite Hgen|].
      apply lookup_insert_is_Some'. right. by apply (lo_manifests _ Hok).
    + intros g' Hs%(lo_head _ Hok). apply lookup_insert_is_Some'. by right.
    + intros g' Hs%(lo_superseded _ Hok). apply lookup_insert_is_Some'. by right.
  - intros b. rewrite Hmem. split; [intros [[_ ?]|?%Hfresh]; done|by left].
  - intros [g' b] Hm. apply Hmem. by right.
  - intros g'. split.
    + intros Hs. cbn in Hs. apply lookup_insert_is_Some in Hs as [->|[_ ?]]; [by left|by right].
    + intros Hs. apply lookup_insert_is_Some'. by destruct Hs as [->|?]; [left|right].
Qed.

Lemma lexical_ok_grow c c' :
  lexical_ok c → lexical_core c' → lt_heads c' = lt_heads c → lt_attachments c' = lt_attachments c → lt_head c' = lt_head c →
  lt_members c ⊆ lt_members c' → lexical_ok c'.
Proof.
  intros [_ Hok] Hcore Hh Ha Hg Hm. split; [done|]. rewrite Hg. destruct (lt_head c); [|by rewrite Hh].
  intros k a t row. rewrite Hh, Ha. intros ? ?. apply Hm. by eapply Hok.
Qed.
End invariant.
