(* ===== verification/LexicalProps.v ===== *)
(** * Theorems of lexical generations

    Staging is exact and total on complete tables, collection takes only what
    nothing holds, a publication covers every rendition head, a search returns one
    page of exactly what matches, and every run keeps the catalog complete. *)
From stdpp Require Import sorting.
From S2P Require Import Prelude GoText Sha256 SearchText AuditEncoding Names Tables Tree Listing Identity Blobs ModelInput Chunking JsonText Consent Rendition RenditionBuild RenditionBuildFacts Lexical LexicalFacts.

Section lexical_props.
Context `{Normalizer} `{Sha256} `{CatalogDocuments} `{RenditionContracts}.
Implicit Types c : lexical_tables.

(** ** Collection *)

Record deleted c (l : list string) c' : Prop := mkDeleted {
  dl_tables : lt_tables c' = lt_tables c;
  dl_attachments : lt_attachments c' = lt_attachments c;
  dl_heads : lt_heads c' = lt_heads c;
  dl_head : lt_head c' = lt_head c;
  dl_generations g : lt_generations c' !! g = if decide (g ∈ l) then None else lt_generations c !! g;
  dl_manifests g : lt_manifests c' !! g = if decide (g ∈ l) then None else lt_manifests c !! g;
  dl_members g b : (g, b) ∈ lt_members c' ↔ (g, b) ∈ lt_members c ∧ g ∉ l;
  dl_superseded g : g ∈ lt_superseded c' ↔ g ∈ lt_superseded c ∧ g ∉ l;
  dl_embedding : lt_embedding c' = lt_embedding c;
}.

Lemma delete_generations c l : deleted c l (foldl delete_generation c l) ∧ lt_index (foldl delete_generation c l) = lt_index c.
Proof.
  induction l as [|g l IH] using rev_ind.
  { split; [|done]. split; try done; intros; try (rewrite decide_False by (by intros ?%elem_of_nil); done).
    - split; [intros ?; split; [done|by intros ?%elem_of_nil]|by intros []].
    - split; [intros ?; split; [done|by intros ?%elem_of_nil]|by intros []]. }
  rewrite foldl_app. cbn [foldl]. destruct IH as [[Ht Ha Hh Hd Hg Hm Hb Hs He] Hi]. split; [|exact Hi].
  assert (∀ g', g' ∈ l ++ [g] ↔ g' = g ∨ g' ∈ l) as Hin by set_solver.
  split; try done; cbn.
  - intros g'. destruct (decide (g' = g)) as [->|Hne].
    + rewrite lookup_delete_eq, decide_True; [done|]. apply Hin. by left.
    + rewrite lookup_delete_ne, Hg by done. apply decide_ext. rewrite Hin. tauto.
  - intros g'. destruct (decide (g' = g)) as [->|Hne].
    + rewrite lookup_delete_eq, decide_True; [done|]. apply Hin. by left.
    + rewrite lookup_delete_ne, Hm by done. apply decide_ext. rewrite Hin. tauto.
  - intros g' b. rewrite elem_of_filter, Hb, Hin. cbn. tauto.
  - intros g'. rewrite elem_of_difference, elem_of_singleton, Hs, Hin. tauto.
Qed.

Lemma entries_NoDup index : NoDup (entries index).
Proof.
  unfold entries. apply NoDup_fmap_2; [|apply NoDup_map_to_list]. intros [[b k] t] [[b' k'] t'] He. cbn in He. congruence.
Qed.
Lemma entries_of_kept (P : string → bool) index b :
  entries_of (filter (λ p : string * string * string, P p.1.1 = true) index) b ≡ₚ (if P b then entries_of index b else []).
Proof.
  unfold entries_of. apply NoDup_Permutation.
  - apply NoDup_filter, entries_NoDup.
  - destruct (P b); [apply NoDup_filter, entries_NoDup|apply NoDup_nil_2].
  - intros r. rewrite list_elem_of_filter, elem_of_entries, map_lookup_filter_Some. cbn. split.
    + intros (<- & Hl & ->). apply list_elem_of_filter. split; [done|]. by apply elem_of_entries.
    + destruct (P b) eqn:Hp; [|by intros ?%elem_of_nil]. intros [<- Hr%elem_of_entries]%list_elem_of_filter. done.
Qed.
Lemma member_build_iff members b : member_build members b = true ↔ ∃ g, (g, b) ∈ members.
Proof.
  unfold member_build. rewrite existsb_exists. split.
  - intros ([g b'] & Hin%list_elem_of_In%elem_of_elements & He%String.eqb_eq). cbn in He. subst. eauto.
  - intros [g Hg]. exists (g, b). split; [by apply list_elem_of_In, elem_of_elements|]. by apply String.eqb_eq.
Qed.

(** What may be collected. *)
Definition collectable c (held : string → bool) (g : string) : Prop := g ∈ lt_superseded c ∧ lt_head c ≠ Some g ∧ held g = false.
#[local] Instance collectable_dec c held g : Decision (collectable c held g).
Proof. unfold collectable. apply _. Defined.

Lemma collected c held :
  let c' := (collectSupersededLexicalGenerationsTx c held).1 in
  ∃ l, (∀ g, g ∈ l ↔ collectable c held g) ∧ deleted c l c' ∧
    (∀ b, entries_of (lt_index c') b = [] ∨ entries_of (lt_index c') b ≡ₚ entries_of (lt_index c) b) ∧
    (∀ g b, (g, b) ∈ lt_members c' → entries_of (lt_index c') b ≡ₚ entries_of (lt_index c) b).
Proof.
  cbv zeta. unfold collectSupersededLexicalGenerationsTx. set (l := filter _ _).
  assert (∀ g, g ∈ l ↔ collectable c held g) as Hl.
  { intros g. unfold l, collectable. rewrite list_elem_of_filter, merge_sort_Permutation, elem_of_elements. tauto. }
  exists l. split; [exact Hl|]. destruct (delete_generations c l) as [Hd Hi]. destruct (length l =? 0)%nat eqn:He; cbn [fst].
  - apply Nat.eqb_eq, nil_length_inv in He. rewrite He in Hd |- *. cbn [foldl] in Hd. split_and!; [done|by intros; right|done].
  - destruct Hd as [Ht Ha Hh Hd Hg Hm Hb Hs]. split_and!; [by split|..].
    + intros b. cbn. rewrite Hi. set (P := member_build _). pose proof (entries_of_kept P (lt_index c) b) as Hk.
      destruct (P b); [by right|left]. by apply Permutation_nil_r.
    + intros g b Hgb. cbn. rewrite Hi. set (P := member_build _). pose proof (entries_of_kept P (lt_index c) b) as Hk.
      assert (P b = true) as HP by (apply member_build_iff; by exists g). by rewrite HP in Hk.
Qed.

Lemma rows_of_tables c c' b : lt_tables c' = lt_tables c → rows_of c' b = rows_of c b.
Proof. intros Ht. unfold readCatalogLexicalManifestRowsTx, segment_stream. by rewrite Ht. Qed.

Lemma collect_core c held : lexical_core c → lexical_core (collectSupersededLexicalGenerationsTx c held).1.
Proof.
  intros Hok. destruct (collected c held) as (l & Hl & [Ht Ha Hh Hd Hg Hm Hb Hs] & Hidx & Hkeep).
  set (c' := (collectSupersededLexicalGenerationsTx c held).1) in *.
  assert (∀ b, rows_of c' b = rows_of c b) as Hrows by (intros b; by apply rows_of_tables).
  assert (∀ g, g ∉ l → is_Some (lt_generations c !! g) → is_Some (lt_generations c' !! g)) as Halive
    by (intros g Hni; rewrite Hg; by rewrite decide_False).
  split.
  - rewrite Ht. apply (lo_tables _ Hok).
  - intros b. destruct (Hidx b) as [?|Hp]; [by left|]. destruct (lo_indexed _ Hok b) as [He|[? He]].
    + left. apply Permutation_nil_r. by rewrite Hp, He.
    + right. rewrite Ht, Hrows. split; [done|]. by rewrite Hp.
  - intros g b Hgb. pose proof (Hkeep g b Hgb) as Hp. apply Hb in Hgb as [Hgb Hni]. destruct (lo_members _ Hok g b Hgb) as (? & ? & ?).
    rewrite Ht, Hrows, Hp. split_and!; [by apply Halive|done..].
  - intros g row. rewrite Hg. case_decide as Hni; [done|]. intros Hr%(lo_recorded _ Hok).
    apply (recorded_ext c); [|done|by rewrite Hm, decide_False|done]. apply generation_builds_ext. intros b. rewrite Hb. tauto.
  - intros g. rewrite Hm, Hg. case_decide; [done|]. apply (lo_manifests _ Hok).
  - intros g. rewrite Hd. intros Hhead. apply Halive; [|by apply (lo_head _ Hok)]. intros Hin%Hl. by destruct Hin as (_ & ? & _).
  - intros g [Hin Hni]%Hs. apply Halive; [done|]. by apply (lo_superseded _ Hok).
  - rewrite Hh, Ha. apply (lo_heads _ Hok).
  - rewrite Ha, Ht. apply (lo_attachments _ Hok).
Qed.

(** ** The lexical head *)

(** The tables before the collection of a publication. *)
Definition headed c (g : string) : lexical_tables :=
  let c' := with_head c (Some g) in
  if negb (String.eqb (default "" (lt_head c)) "") && negb (String.eqb (default "" (lt_head c)) g)
  then with_superseded c' ({[default "" (lt_head c)]} ∪ lt_superseded c') else c'.
Lemma publish_head_eq c held g : publishLexicalHeadTx c held g = (collectSupersededLexicalGenerationsTx (headed c g) held).1.
Proof. done. Qed.

Lemma headed_fields c g :
  lt_tables (headed c g) = lt_tables c ∧ lt_attachments (headed c g) = lt_attachments c ∧ lt_heads (headed c g) = lt_heads c ∧
  lt_index (headed c g) = lt_index c ∧ lt_generations (headed c g) = lt_generations c ∧ lt_manifests (headed c g) = lt_manifests c ∧
  lt_members (headed c g) = lt_members c ∧ lt_head (headed c g) = Some g ∧
  (∀ g', g' ∈ lt_superseded (headed c g) → g' ∈ lt_superseded c ∨ lt_head c = Some g').
Proof.
  unfold headed. destruct (lt_head c) as [p|]; cbn; [|split_and!; try done; tauto].
  destruct (negb (String.eqb p "") && negb (String.eqb p g)); cbn; split_and!; try done; [set_solver|tauto].
Qed.
Lemma headed_core c g : lexical_core c → is_Some (lt_generations c !! g) → lexical_core (headed c g).
Proof.
  intros Hok Hg. destruct (headed_fields c g) as (Ht & Ha & Hh & Hi & Hgen & Hm & Hb & Hd & Hs).
  assert (∀ b, rows_of (headed c g) b = rows_of c b) as Hrows by (intros b; by apply rows_of_tables).
  split.
  - rewrite Ht. apply (lo_tables _ Hok).
  - intros b. rewrite Hi, Ht, Hrows. apply (lo_indexed _ Hok).
  - intros g' b. rewrite Hb, Hgen, Hi, Ht, Hrows. apply (lo_members _ Hok).
  - intros g' row. rewrite Hgen. intros Hr%(lo_recorded _ Hok). apply (recorded_ext c); [|done|by rewrite Hm|done].
    apply generation_builds_ext. by rewrite Hb.
  - intros g'. rewrite Hm, Hgen. apply (lo_manifests _ Hok).
  - intros g'. rewrite Hd, Hgen. by intros [= <-].
  - intros g'. rewrite Hgen. intros [?|?]%Hs; [by apply (lo_superseded _ Hok)|by apply (lo_head _ Hok)].
  - rewrite Hh, Ha. apply (lo_heads _ Hok).
  - rewrite Ha, Ht. apply (lo_attachments _ Hok).
Qed.

(** A head moved to a covering generation. *)
Lemma publish_head_ok c held g :
  lexical_core c → is_Some (lt_generations c !! g) → covers c g → let c' := publishLexicalHeadTx c held g in
  lexical_ok c' ∧ lt_head c' = Some g ∧ lt_tables c' = lt_tables c ∧ lt_heads c' = lt_heads c ∧ lt_attachments c' = lt_attachments c ∧
  (∀ g', is_Some (lt_generations c' !! g') ↔ is_Some (lt_generations c !! g') ∧ ¬ collectable (headed c g) held g') ∧
  (∀ g' b, (g', b) ∈ lt_members c' ↔ (g', b) ∈ lt_members c ∧ ¬ collectable (headed c g) held g').
Proof.
  intros Hok Hg Hcov. cbv zeta. rewrite publish_head_eq. pose proof (headed_core c g Hok Hg) as Hok'.
  pose proof (collect_core (headed c g) held Hok') as Hok''.
  destruct (collected (headed c g) held) as (l & Hl & [Ht Ha Hh Hd Hgen Hm Hb Hs] & _ & _).
  destruct (headed_fields c g) as (Ht' & Ha' & Hh' & _ & Hgen' & _ & Hb' & Hd' & _).
  set (c' := (collectSupersededLexicalGenerationsTx (headed c g) held).1) in *.
  rewrite Ht, Ht', Hh, Hh', Ha, Ha', Hd, Hd'. split_and!; try done.
  - split; [done|]. rewrite Hd, Hd'. intros k a t row. rewrite Hh, Hh', Ha, Ha'. intros H1' H2'. apply Hb. rewrite Hb'.
    split; [by eapply Hcov|]. intros (_ & Hne & _)%Hl. by rewrite Hd' in Hne.
  - intros g'. rewrite Hgen, Hgen'. case_decide as Hin; rewrite Hl in Hin; [|tauto]. split; [by intros [? ?]|by intros [_ ?]].
  - intros g' b. rewrite Hb, Hb', Hl. done.
Qed.

(** ** Publication *)

(** What the loop over the pairs changes. *)
Record grown c c' : Prop := mkGrown {
  gr_eq : c' = with_embedding (with_heads (with_attachments c (lt_attachments c')) (lt_heads c')) (lt_embedding c');
  gr_core : lexical_core c';
}.
Lemma grown_refl c : lexical_core c → grown c c.
Proof. intros Hok. split; [by destruct c|done]. Qed.
Lemma grown_trans c1 c2 c3 : grown c1 c2 → grown c2 c3 → grown c1 c3.
Proof. intros [H1' _] [H2' ?]. split; [|done]. rewrite H2' at 1. by rewrite H1' at 1. Qed.

Lemma insert_attachment_grown c profiles a head c' :
  lexical_core c → insertRenditionAttachmentAndHeadTx c profiles a head = Ok c' →
  grown c c' ∧ lt_heads c' = <[(hd_ContentVersionID head, hd_ProcessingProfileFingerprint head) :=
    (hd_AttachmentID head, hd_PublishedAt head)]> (lt_heads c).
Proof.
  intros Hok. unfold insertRenditionAttachmentAndHeadTx. intros Hi. do 2 res_inv1. injection Hi as <-.
  rename select (check (head_references _ _) _ = _) into Hhr. apply check_Ok_iff in Hhr. rename a0 into c1.
  assert (grown c c1 ∧ lt_heads c1 = lt_heads c) as [[Heq Hcore] Hheads].
  { rename select ((if attachment_taken c a then _ else _) = _) into Ht. destruct (attachment_taken c a) eqn:Htaken.
    - repeat res_inv1. subst c1. split; [by apply grown_refl|done].
    - repeat res_inv1. subst c1. split; [|done]. split; [by destruct c|].
      unfold attachment_taken in Htaken. apply orb_false_iff in Htaken as [Hfree%bool_decide_eq_false _].
      split; try apply Hok.
      + intros k a' t Hk. destruct (lo_heads _ Hok k a' t Hk) as (row & Hrow & ->). exists row. split; [|done]. cbn.
        rewrite lookup_insert_ne; [done|]. intros He. apply Hfree. rewrite He, Hrow. by eexists.
      + intros a' row Hrow. cbn in Hrow. apply lookup_insert_Some in Hrow as [[<- <-]|[_ Hrow]]; [|by apply (lo_attachments _ Hok a')].
        cbn. rename select (attachment_references _ _ _ = true) into Href. unfold attachment_references in Href.
        destruct (rc_builds (lt_tables c) !! at_BuildID a); [by eexists|done]. }
  unfold head_references in Hhr. destruct (lt_attachments c1 !! hd_AttachmentID head) as [row|] eqn:Hrow; [|done].
  apply andb_true_iff in Hhr as [Hv%String.eqb_eq Hp%String.eqb_eq]. split; [|cbn; by rewrite Hheads].
  split; [rewrite Heq at 1; done|]. split; try apply Hcore. intros k a' t Hk. cbn in Hk.
  apply lookup_insert_Some in Hk as [[<- [= <- <-]]|[_ Hk]]; [|by apply (lo_heads _ Hcore k a' t)].
  exists row. by rewrite Hv, Hp.
Qed.

(** An attachment that was inserted, or was there, has the build it names. *)
Definition built c (a build : string) : Prop := ∃ row, lt_attachments c !! a = Some row ∧ ar_BuildID row = build.
(** What any step of the loop over the pairs changes. *)
Record moved c c' : Prop := mkMoved {
  mv_tables : lt_tables c' = lt_tables c;
  mv_generations : lt_generations c' = lt_generations c;
  mv_members : lt_members c' = lt_members c;
  mv_attachments : lt_attachments c ⊆ lt_attachments c';
}.
Lemma insert_attachment_moved c profiles a head c' :
  insertRenditionAttachmentAndHeadTx c profiles a head = Ok c' →
  moved c c' ∧ built c' (at_ID a) (at_BuildID a) ∧
  lt_heads c' = <[(hd_ContentVersionID head, hd_ProcessingProfileFingerprint head) :=
    (hd_AttachmentID head, hd_PublishedAt head)]> (lt_heads c).
Proof.
  unfold insertRenditionAttachmentAndHeadTx. intros Hi. do 2 res_inv1. injection Hi as <-. rename a0 into c1.
  rename select ((if attachment_taken c a then _ else _) = _) into Ht. destruct (attachment_taken c a) eqn:Htaken.
  - do 2 res_inv1. injection Ht as <-. rename select (loadRenditionAttachment _ _ _ = _) into Hl. unfold loadRenditionAttachment in Hl.
    do 2 res_inv1. injection Hl as <-. rename select (from_lookup _ _ = _) into Hrow. apply from_lookup_Ok_iff in Hrow.
    rename select (check (bool_decide (_ = _)) _ = _) into He. apply check_Ok_iff, bool_decide_eq_true in He. injection He as _ _ Hb _.
    split_and!; [done| |done]. by eexists.
  - res_inv1. injection Ht as <-. unfold attachment_taken in Htaken. apply orb_false_iff in Htaken as [Hfree%bool_decide_eq_false _].
    split_and!; [|eexists; split; [apply lookup_insert_eq|done]|done]. split; try done. apply insert_subseteq.
    destruct (lt_attachments c !! at_ID a) eqn:Ha; [|done]. exfalso. apply Hfree. by eexists.
Qed.

Definition pair_head (pair : publication_pair) : string * string :=
  (hd_ContentVersionID pair.2, hd_ProcessingProfileFingerprint pair.2).
Definition move_head (heads : gmap (string * string) (string * Z)) (pair : publication_pair) : gmap (string * string) (string * Z) :=
  <[pair_head pair := (hd_AttachmentID pair.2, hd_PublishedAt pair.2)]> heads.

Lemma publish_pair_grown e g authorization c profiles pair c' profiles' :
  lexical_core c → publish_pair e g authorization (c, profiles) pair = Ok (c', profiles') →
  grown c c' ∧ lt_heads c' = move_head (lt_heads c) pair.
Proof.
  intros Hok Hp. unfold publish_pair in Hp. do 7 res_inv1. injection Hp as <- <-.
  rename select (insertRenditionAttachmentAndHeadTx _ _ _ _ = _) into Hi. by apply insert_attachment_grown in Hi.
Qed.
Lemma publish_pair_moved e g authorization c profiles pair c' profiles' :
  publish_pair e g authorization (c, profiles) pair = Ok (c', profiles') →
  moved c c' ∧ built c' (hd_AttachmentID pair.2) (at_BuildID pair.1) ∧ lt_heads c' = move_head (lt_heads c) pair.
Proof.
  intros Hp. unfold publish_pair in Hp. do 7 res_inv1. injection Hp as <- <-.
  rename select (insertRenditionAttachmentAndHeadTx _ _ _ _ = _) into Hi. apply insert_attachment_moved in Hi as (Hm & Hb & Hh).
  split_and!; [done| |done]. rename select (normalizeRenditionAttachmentRecord _ = _) into Hn. unfold normalizeRenditionAttachmentRecord in Hn.
  repeat res_inv1. subst. rename select (head_resolves _ _ = true) into Hr. unfold head_resolves in Hr.
  rewrite !andb_true_iff, !String.eqb_eq in Hr. cbn in Hr, Hb. by destruct Hr as [_ ->].
Qed.
Lemma publish_pairs_moved e g authorization pairs c profiles c' profiles' :
  foldM (publish_pair e g authorization) (c, profiles) pairs = Ok (c', profiles') →
  moved c c' ∧ (∀ pair, pair ∈ pairs → built c' (hd_AttachmentID pair.2) (at_BuildID pair.1)) ∧
  lt_heads c' = foldl move_head (lt_heads c) pairs.
Proof.
  revert c profiles; induction pairs as [|pair pairs IH]; intros c profiles Hf; cbn [foldM] in Hf.
  { injection Hf as <- <-. split_and!; [done|by intros ? ?%elem_of_nil|done]. }
  apply bind_Ok_iff in Hf as ([c1 p1] & Hp & Hf). apply publish_pair_moved in Hp as ([? ? ? Ha] & (row & Hrow & Hb) & Hh).
  destruct (IH c1 p1 Hf) as ([? ? ? Ha'] & Hb' & Hh'). split_and!.
  - split; [congruence..|by etrans].
  - intros q [->|Hq]%elem_of_cons; [|by apply Hb']. exists row. split; [by eapply lookup_weaken|done].
  - cbn [foldl]. by rewrite <- Hh.
Qed.
Lemma publish_pairs_grown e g authorization pairs c profiles c' profiles' :
  lexical_core c → foldM (publish_pair e g authorization) (c, profiles) pairs = Ok (c', profiles') →
  grown c c' ∧ lt_heads c' = foldl move_head (lt_heads c) pairs.
Proof.
  revert c profiles; induction pairs as [|pair pairs IH]; intros c profiles Hok Hf; cbn [foldM] in Hf.
  { injection Hf as <- <-. split; [by apply grown_refl|done]. }
  apply bind_Ok_iff in Hf as ([c1 p1] & Hp & Hf). apply publish_pair_grown in Hp as [Hg Hh]; [|done].
  destruct (IH c1 p1 (gr_core _ _ Hg) Hf) as [Hg' Hh']. split; [by eapply grown_trans|]. cbn [foldl]. by rewrite <- Hh.
Qed.
Lemma grown_fields c c' :
  grown c c' → lt_tables c' = lt_tables c ∧ lt_generations c' = lt_generations c ∧ lt_members c' = lt_members c ∧ lt_head c' = lt_head c.
Proof. intros [Heq _]. by rewrite Heq. Qed.

Lemma foldM_unit {A} (f : A → rres ()) l : foldM (λ _ x, f x) () l = Ok () ↔ ∀ x, x ∈ l → f x = Ok ().
Proof.
  induction l as [|x l IH]; cbn [foldM]; [split; [by intros _ ? ?%elem_of_nil|done]|].
  rewrite bind_Ok_iff. setoid_rewrite elem_of_cons. split.
  - intros ([] & Hx & Hl) y [->|Hy]; [done|]. by apply IH.
  - intros Hl. exists (). split; [apply Hl; by left|]. apply IH. intros y Hy. apply Hl. by right.
Qed.
Lemma foldM_unit_Err {A} (f : A → rres ()) l e :
  (∀ x, x ∈ l → f x = Ok () ∨ f x = Err e) → (∃ x, x ∈ l ∧ f x = Err e) → foldM (λ _ x, f x) () l = Err e.
Proof.
  induction l as [|x l IH]; intros Hall (y & Hy & Hf); [by apply elem_of_nil in Hy|]. cbn [foldM].
  destruct (Hall x) as [Hx|Hx]; [left| |by rewrite Hx]. rewrite Hx. cbn. apply IH; [intros z Hz; apply Hall; by right|].
  apply elem_of_cons in Hy as [->|Hy]; [congruence|eauto].
Qed.

Lemma elem_of_head_builds c b :
  b ∈ currentRenditionHeadBuildIDsTx c ↔
  ∃ k a t row, lt_heads c !! k = Some (a, t) ∧ lt_attachments c !! a = Some row ∧ b = ar_BuildID row.
Proof.
  unfold currentRenditionHeadBuildIDsTx. rewrite merge_sort_Permutation, elem_of_remove_dups, list_elem_of_omap. split.
  - intros ([k [a t]] & Hin%elem_of_map_to_list & (row & Hr & Hb)%fmap_Some). cbn in Hr. by exists k, a, t, row.
  - intros (k & a & t & row & Hk & Ha & ->). exists (k, (a, t)). split; [by apply elem_of_map_to_list|]. cbn. by rewrite Ha.
Qed.
Lemma covers_iff c g : covers c g ↔ ∀ b, b ∈ currentRenditionHeadBuildIDsTx c → (g, b) ∈ lt_members c.
Proof.
  split.
  - intros Hc b (k & a & t & row & Hk & Ha & ->)%elem_of_head_builds. by eapply Hc.
  - intros Hc k a t row Hk Ha. apply Hc, elem_of_head_builds. by exists k, a, t, row.
Qed.
#[local] Instance covers_dec c g : Decision (covers c g).
Proof.
  refine (cast_if (decide (Forall (λ b, (g, b) ∈ lt_members c) (currentRenditionHeadBuildIDsTx c))));
    by rewrite covers_iff, <- Forall_forall.
Defined.

(** On complete tables only coverage can fail. *)
Lemma validate_covers c g :
  lexical_core c →
  validateLexicalGenerationCoversCurrentHeadsTx c g = if decide (covers c g) then Ok () else Err ErrLexicalGenerationStale.
Proof.
  intros Hok. unfold validateLexicalGenerationCoversCurrentHeadsTx.
  set (f := λ b, _ ← check (bool_decide (b ∈ lexicalGenerationBuildIDsTx c g)) ErrLexicalGenerationStale;
    check (same_manifest (readLexicalManifestRowsTx c g (Some b)) (rows_of c b)) ErrRenditionOther).
  assert (∀ b, f b = if decide ((g, b) ∈ lt_members c) then Ok () else Err ErrLexicalGenerationStale) as Hf.
  { intros b. unfold f. rewrite (bool_decide_ext _ _ (proj2 (generation_builds_spec c g) b)). case_decide as Hm.
    - rewrite bool_decide_eq_true_2 by done. cbn [check mbind result_bind]. rewrite generation_build_rows by done.
      destruct (lo_members _ Hok g b Hm) as (_ & _ & Hp). change (index_of c b) with (entries_of (lt_index c) b).
      unfold same_manifest. by rewrite (manifest_digest_perm _ _ Hp), (Permutation_length Hp), Nat.eqb_refl, String.eqb_refl.
    - by rewrite bool_decide_eq_false_2 by done. }
  change (foldM (λ _ b, f b) () (currentRenditionHeadBuildIDsTx c) =
    if decide (covers c g) then Ok () else Err ErrLexicalGenerationStale).
  case_decide as Hc; rewrite covers_iff in Hc.
  - apply foldM_unit. intros b Hb. rewrite Hf, decide_True; [done|by apply Hc].
  - apply foldM_unit_Err; [intros b _; rewrite Hf; case_decide; [by left|by right]|].
    rewrite <- Forall_forall in Hc. apply not_Forall_Exists in Hc; [|apply _].
    apply Exists_exists in Hc as (b & Hb & Hm). exists b. split; [done|]. rewrite Hf. by rewrite decide_False.
Qed.

Lemma published_generation e g authorization pairs c profiles c' profiles' :
  lexical_core c → pairs ≠ [] → foldM (publish_pair e g authorization) (c, profiles) pairs = Ok (c', profiles') →
  is_Some (lt_generations c !! g).
Proof.
  intros Hok Hne Hf. destruct pairs as [|pair pairs]; [done|]. cbn [foldM] in Hf.
  apply bind_Ok_iff in Hf as ([c1 p1] & Hp & _). unfold publish_pair in Hp. do 7 res_inv1.
  rename select (validateRenditionPublicationTx _ _ _ _ _ = _) into Hv. unfold validateRenditionPublicationTx in Hv. cbv zeta in Hv.
  repeat res_inv1. rename select (bool_decide ((_, _) ∈ _) = true) into Hm. apply bool_decide_eq_true in Hm.
  by apply (lo_members _ Hok) in Hm as [? _].
Qed.

(** A publication leaves the embedding heads that are not stale. *)
Lemma revoked_heads t heads k set :
  et_heads (foldl revoke_stale t heads) !! k = Some set ↔
  et_heads t !! k = Some set ∧
  ∀ head a, head ∈ heads → of_head head k = true → et_set_attachments t !! set = Some a → a = hd_AttachmentID head.
Proof.
  revert t; induction heads as [|head heads IH]; intros t; cbn [foldl].
  { split; [|by intros []]. intros Hk. split; [done|]. by intros ? ? ?%elem_of_nil. }
  rewrite IH. cbn [revoke_stale et_heads et_set_attachments]. rewrite map_lookup_filter_Some. cbn.
  rewrite negb_true_iff, andb_false_iff. split.
  - intros [[Hk Hno] Hall]. split; [done|]. intros h a [->|Hh]%elem_of_cons Hof Ha; [|by eapply Hall].
    rewrite Ha in Hno. destruct Hno as [?|Hno]; [congruence|]. by apply negb_false_iff, String.eqb_eq in Hno.
  - intros [Hk Hall]. split; [|intros h a Hh; apply Hall; by right]. split; [done|].
    destruct (of_head head k) eqn:Hof; [right|by left]. destruct (et_set_attachments t !! set) as [a|] eqn:Ha; [|done].
    apply negb_false_iff, String.eqb_eq. eapply Hall; [by left|done..].
Qed.
Lemma publish_pairs_embedding e g authorization pairs c profiles c' profiles' :
  foldM (publish_pair e g authorization) (c, profiles) pairs = Ok (c', profiles') →
  lt_embedding c' = foldl revoke_stale (lt_embedding c) pairs.*2.
Proof.
  revert c profiles; induction pairs as [|pair pairs IH]; intros c profiles Hf; cbn [foldM] in Hf; [by injection Hf as <- _|].
  apply bind_Ok_iff in Hf as ([c1 p1] & Hp & Hf). rewrite (IH c1 p1 Hf). cbn. f_equal.
  unfold publish_pair in Hp. do 7 res_inv1. injection Hp as <- _. rename select (insertRenditionAttachmentAndHeadTx _ _ _ _ = _) into Hi.
  unfold insertRenditionAttachmentAndHeadTx in Hi. do 2 res_inv1. injection Hi as <-. cbn. f_equal.
  rename select ((if attachment_taken _ _ then _ else _) = _) into Ht. destruct (attachment_taken _ _); repeat res_inv1; by subst.
Qed.
Lemma publish_head_embedding c held g : lt_embedding (publishLexicalHeadTx c held g) = lt_embedding c.
Proof.
  rewrite publish_head_eq. destruct (collected (headed c g) held) as (l & _ & Hd & _). rewrite (dl_embedding _ _ _ Hd).
  unfold headed. by destruct (_ && _).
Qed.

(** C8: Once the attachments and heads of a publication are admissible, one
    thing decides it: whether the generation has the builds of all rendition
    heads.  If one is missing, the publication fails as stale.  If not, the
    generation becomes the lexical head, the heads are moved as asked, the
    generation covers every rendition head, of the generations exactly those
    disappear that are superseded and that nothing holds, and of the embedding
    heads exactly those that belong to a published version and profile and were
    cut from another attachment than the one published. *)
Theorem publication_decides e c profiles pairs g authorization c1 profiles1 :
  lexical_ok c → pairs ≠ [] → IsSHA256Hex g = true →
  foldM (publish_pair e g authorization) (c, profiles) pairs = Ok (c1, profiles1) →
  match publishRenditionAttachmentsAndLexicalHeadsTx e c profiles pairs g authorization with
  | Err error => error = ErrLexicalGenerationStale ∧ ¬ covers c1 g
  | Ok (c', profiles') =>
      profiles' = profiles1 ∧ lexical_ok c' ∧ lt_head c' = Some g ∧ covers c' g ∧
      lt_heads c' = foldl move_head (lt_heads c) pairs ∧
      (∀ g', is_Some (lt_generations c' !! g') ↔ is_Some (lt_generations c !! g') ∧ ¬ collectable (headed c1 g) (le_held e) g') ∧
      ∀ k set, et_heads (lt_embedding c') !! k = Some set ↔ et_heads (lt_embedding c) !! k = Some set ∧
        ∀ head a, head ∈ pairs.*2 → of_head head k = true → et_set_attachments (lt_embedding c) !! set = Some a → a = hd_AttachmentID head
  end.
Proof.
  intros [Hok _] Hne Hd Hf. pose proof (published_generation _ _ _ _ _ _ _ _ Hok Hne Hf) as Hgen.
  pose proof (publish_pairs_grown _ _ _ _ _ _ _ _ Hok Hf) as [Hg Hh]. destruct (grown_fields _ _ Hg) as (_ & Hgens & _ & _).
  pose proof (gr_core _ _ Hg) as Hok1. unfold publishRenditionAttachmentsAndLexicalHeadsTx.
  rewrite check_bind_true by (destruct pairs; done). unfold catalog_digest, validateCatalogSHA256. rewrite Hd. cbn [check with_consent mbind result_bind].
  rewrite Hf. cbn [mbind result_bind]. destruct Hgen as [row Hrow]. rewrite <- Hgens in Hrow.
  rewrite (load_generation c1 g row Hok1 Hrow). cbn [mbind result_bind]. rewrite (validate_covers c1 g Hok1).
  case_decide as Hc; [|done]. cbn [mbind result_bind].
  destruct (publish_head_ok c1 (le_held e) g Hok1) as (Hok' & Hhead & _ & Hheads & _ & Hg' & _); [by rewrite Hrow|done|].
  split_and!; [done..| | | |].
  - destruct Hok' as [_ Hcov]. by rewrite Hhead in Hcov.
  - by rewrite Hheads.
  - intros g'. by rewrite Hg', Hgens.
  - intros k set. rewrite publish_head_embedding, (publish_pairs_embedding _ _ _ _ _ _ _ _ Hf). apply revoked_heads.
Qed.

(** ** Staging *)

Lemma stage_present c g row segments ids :
  lexical_core c → lt_generations c !! g = Some row → ∃ generation,
  stageLexicalGenerationRowsTx c g segments ids = Ok (c, generation) ∧ lg_ID generation = g.
Proof.
  intros Hok Hg. unfold stageLexicalGenerationRowsTx. rewrite (load_generation c g row Hok Hg). by eexists.
Qed.

Lemma stage_generation_ok c g c' generation :
  lexical_ok c → stageLexicalGenerationTx c g = Ok (c', generation) → lexical_ok c'.
Proof.
  intros Hok Hs. pose proof Hok as [Hcore _]. unfold stageLexicalGenerationTx in Hs. rewrite catalog_rows_all in Hs.
  destruct (lt_generations c !! g) as [row|] eqn:Hg.
  - destruct (stage_present c g row (mjoin ((λ b, rows_of c b) <$> lexicalCatalogBuildIDsTx c)) (lexicalCatalogBuildIDsTx c) Hcore Hg)
      as (? & Hp & _). rewrite Hp in Hs. by injection Hs as <- <-.
  - destruct (catalog_builds_spec c) as [Hn Hin].
    destruct (stage_rows_new c g (lexicalCatalogBuildIDsTx c) Hcore Hg Hn) as (c2 & ? & Hp & _ & Hcore' & _ & Hsub & Ht & Ha & Hh & Hd & _);
      [intros b; by rewrite Hin|]. rewrite Hp in Hs. injection Hs as <- <-. by apply (lexical_ok_grow c).
Qed.

Lemma stage_generation_tables c g c' generation :
  lexical_core c → stageLexicalGenerationTx c g = Ok (c', generation) → lt_tables c' = lt_tables c.
Proof.
  intros Hcore Hs. unfold stageLexicalGenerationTx in Hs. rewrite catalog_rows_all in Hs.
  destruct (lt_generations c !! g) as [row|] eqn:Hg.
  - destruct (stage_present c g row (mjoin ((λ b, rows_of c b) <$> lexicalCatalogBuildIDsTx c)) (lexicalCatalogBuildIDsTx c) Hcore Hg)
      as (? & Hp & _). rewrite Hp in Hs. by injection Hs as <- <-.
  - destruct (catalog_builds_spec c) as [Hn Hin].
    destruct (stage_rows_new c g (lexicalCatalogBuildIDsTx c) Hcore Hg Hn) as (c2 & ? & Hp & _ & _ & _ & _ & Ht & _);
      [intros b; by rewrite Hin|]. rewrite Hp in Hs. by injection Hs as <- <-.
Qed.

(** C13: Staging a generation always succeeds.  A generation that is there is
    left as it is; a new one has every build that is stored.  Either way, what
    it reads of each of its builds is what the catalog has of it, and nothing
    that is published changes. *)
Theorem stageLexicalGenerationTx_exact c g :
  lexical_ok c → ∃ c' generation, stageLexicalGenerationTx c g = Ok (c', generation) ∧ lg_ID generation = g ∧ lexical_ok c' ∧
    loadAndValidateLexicalGenerationTx c' g = Ok generation ∧
    (is_Some (lt_generations c !! g) → c' = c) ∧
    (lt_generations c !! g = None → ∀ b, (g, b) ∈ lt_members c' ↔ is_Some (rc_builds (lt_tables c) !! b)) ∧
    (∀ b, (g, b) ∈ lt_members c' → readLexicalManifestRowsTx c' g (Some b) ≡ₚ rows_of c b) ∧
    lt_tables c' = lt_tables c ∧ lt_heads c' = lt_heads c ∧ lt_attachments c' = lt_attachments c ∧ lt_head c' = lt_head c.
Proof.
  intros Hok. pose proof Hok as [Hcore _]. unfold stageLexicalGenerationTx. rewrite catalog_rows_all.
  destruct (lt_generations c !! g) as [row|] eqn:Hg.
  - pose proof (load_generation c g row Hcore Hg) as Hl. unfold stageLexicalGenerationRowsTx. rewrite Hl.
    eexists c, _. split; [reflexivity|]. split_and!; try done. intros b Hb. rewrite generation_build_rows by done.
    by destruct (lo_members _ Hcore g b Hb) as (_ & _ & ?).
  - destruct (catalog_builds_spec c) as [Hn Hin].
    destruct (stage_rows_new c g (lexicalCatalogBuildIDsTx c) Hcore Hg Hn) as
      (c' & generation & Hs & Hid & Hcore' & Hmem & Hsub & Ht & Ha & Hh & Hd & _ & Hgens); [intros b; by rewrite Hin|].
    exists c', generation. split_and!; try done.
    + by apply (lexical_ok_grow c).
    + destruct (proj2 (Hgens g) (or_introl eq_refl)) as [row Hrow].
      unfold stageLexicalGenerationRowsTx in Hs. unfold loadAndValidateLexicalGenerationTx at 1 in Hs. rewrite Hg in Hs.
      cbn [from_lookup mbind result_bind] in Hs. repeat res_inv1. injection Hs as <- <-. done.
    + intros _ b. by rewrite Hmem, Hin.
    + intros b Hb. rewrite generation_build_rows by done. destruct (lo_members _ Hcore' g b Hb) as (_ & _ & Hp).
      change (index_of c' b) with (entries_of (lt_index c') b). by rewrite Hp, (rows_of_tables c c' b Ht).
Qed.

(** ** Search *)

(** The rows that the content search joins: those that match, of the builds in
    the catalog that have a head, each under the version of the head. *)
Lemma elem_of_matched_rows c g matches v r :
  lexical_ok c → lt_head c = Some g →
  (v, r) ∈ matched_rows c g matches ↔
  ∃ p a t row, lt_heads c !! (v, p) = Some (a, t) ∧ lt_attachments c !! a = Some row ∧ r ∈ rows_of c (ar_BuildID row) ∧
    matches (lm_text r) = true.
Proof.
  intros Hlex Hg. pose proof Hlex as [Hok Hcov]. rewrite Hg in Hcov. unfold matched_rows. split.
  - intros Hin. apply list_elem_of_bind in Hin as ([a row] & Hin & Ha%elem_of_map_to_list). cbn in Hin.
    case_bool_decide as Hh; [|by apply elem_of_nil in Hin].
    apply list_elem_of_fmap in Hin as (r' & [= -> ->] & [(Hb & Hmatch & Hmem) Hr]%list_elem_of_filter).
    apply fmap_Some in Hh as ([a' t] & Hh & Ha'). cbn in Ha'. subst a'.
    exists (ar_ProfileFingerprint row), a, t, row. split_and!; try done.
    rewrite Hb in Hmem. destruct (lo_members _ Hok g _ Hmem) as (_ & _ & Hp). rewrite <- Hp.
    apply list_elem_of_filter. by split.
  - intros (p & a & t & row & Hh & Ha & Hr & Hmatch). destruct (lo_heads _ Hok _ _ _ Hh) as (row' & Ha' & [= -> ->]).
    assert (row' = row) as -> by congruence.
    apply list_elem_of_bind. exists (a, row). split; [|by apply elem_of_map_to_list]. cbn. rewrite Hh. cbn.
    rewrite bool_decide_eq_true_2 by done. apply list_elem_of_fmap. exists r. split; [done|].
    pose proof (Hcov _ _ _ _ Hh Ha) as Hmem. destruct (lo_members _ Hok g _ Hmem) as (_ & _ & Hp). rewrite <- Hp in Hr.
    apply list_elem_of_filter in Hr as [Hb Hr]. apply list_elem_of_filter. by rewrite Hb.
Qed.
(** A row of one of the version's heads, or of its blob in the text cache,
    matches. *)
Definition content_matches (q : fts_query) c (cache : text_cache) (v : string) (cv : version_row) : Prop :=
  match lt_head c with
  | Some _ => ∃ p a t row x, lt_heads c !! (v, p) = Some (a, t) ∧ lt_attachments c !! a = Some row ∧ x ∈ rows_of c (ar_BuildID row) ∧
      fq_matches q (lm_text x) = true
  | None => v ∈ tc_searchable cache ∧
      ∃ extractor text, tc_rows cache !! (v_blob_hash cv, extractor) = Some text ∧ fq_matches q text = true
  end.
Lemma content_ranks_iff q d c cache i r :
  lexical_ok c → content_ranks q d c cache (lt_head c) (i, r) ≠ [] ↔
  ∃ v cv, current_version_id r = Some v ∧ current_version d i r = Some cv ∧ content_matches q c cache v cv.
Proof.
  intros Hok. unfold content_ranks, content_matches. cbn [fst snd].
  destruct (current_version_id r) as [v|] eqn:Hv; [|split; [done|by intros (? & ? & ? & _)]].
  destruct (current_version d i r) as [cv|]; [|split; [done|by intros (? & ? & _ & ? & _)]].
  assert (∀ A B (f : A → B) l, f <$> l ≠ [] ↔ ∃ x, x ∈ l) as Hne.
  { intros A B f [|x l]; split; try done; [by intros [? ?%elem_of_nil]|]. intros _. exists x. by left. }
  destruct (lt_head c) as [g|] eqn:Hg.
  - rewrite Hne. setoid_rewrite list_elem_of_filter. split.
    + intros ([v' x] & Hv' & (p & a & t & row & Hin)%(elem_of_matched_rows c g _ _ _ Hok Hg)). cbn in Hv'. subst v'.
      exists v, cv. split_and!; [done..|]. by exists p, a, t, row, x.
    + intros (? & ? & [= <-] & _ & p & a & t & row & x & Hin). exists (v, x). split; [done|].
      apply (elem_of_matched_rows c g _ _ _ Hok Hg). by exists p, a, t, row.
  - case_bool_decide as Hs; [|split; [done|by intros (? & ? & [= <-] & _ & ? & _)]].
    rewrite Hne. setoid_rewrite list_elem_of_filter. split.
    + intros ([[h e] text] & [Hh Hm] & Hin%elem_of_map_to_list). cbn in Hh, Hm. subst h. exists v, cv. split_and!; [done..|]. by exists e, text.
    + intros (? & ? & [= <-] & [= <-] & _ & e & text & Hin & Hm). exists ((v_blob_hash cv, e), text). split; [done|].
      by apply elem_of_map_to_list.
Qed.

#[export] Instance hit_order_total rank : Total (hit_order rank).
Proof.
  intros p q. unfold hit_order. destruct (Z.lt_trichotomy (rank p) (rank q)) as [?|[He|?]]; [by left; left| |by right; left].
  rewrite He. destruct (decide (name p.2 = name q.2)) as [Hn|Hn].
  - rewrite Hn. destruct (Z.le_ge_cases p.1 q.1); [left|right]; right; (split; [done|by right]).
  - destruct (total String.le (name p.2) (name q.2)); [left|right]; right; (split; [done|left; split; [congruence|done]]).
Qed.
#[export] Instance hit_order_trans rank : Transitive (hit_order rank).
Proof.
  intros p q r. unfold hit_order. intros [?|[He Hpq]] [?|[He' Hqr]]; [left; lia..|].
  right. split; [congruence|]. destruct Hpq as [[Hn Hl]|[Hn Hl]], Hqr as [[Hn' Hl']|[Hn' Hl']].
  - left. split; [|by etrans]. intros Hx. apply Hn. rewrite Hx in Hl |- *. by apply (anti_symm String.le).
  - left. by rewrite <- Hn'.
  - left. by rewrite Hn.
  - right. split; [congruence|lia].
Qed.

Lemma elem_of_name_hits q d opts i r :
  (i, r) ∈ name_hits q d opts ↔
  nodes d !! i = Some r ∧ trashed_at r = None ∧ fq_matches q (name r) = true ∧ search_filter d opts i r = true.
Proof.
  unfold name_hits. rewrite merge_sort_Permutation, list_elem_of_filter, elem_of_map_to_list. cbn.
  rewrite !andb_true_iff. unfold is_live. rewrite bool_decide_eq_true. tauto.
Qed.
(** A content hit: a live node that its name does not find, which passes the
    filters, and whose current version matches. *)
Lemma elem_of_content_hits q d c cache opts i r :
  lexical_ok c → (i, r) ∈ content_hits q d c cache (lt_head c) opts ↔
  nodes d !! i = Some r ∧ trashed_at r = None ∧ fq_matches q (name r) = false ∧ search_filter d opts i r = true ∧
  ∃ v cv, current_version_id r = Some v ∧ current_version d i r = Some cv ∧ content_matches q c cache v cv.
Proof.
  intros Hok. unfold content_hits. rewrite merge_sort_Permutation, list_elem_of_filter, elem_of_map_to_list. unfold content_hit. cbn [fst snd].
  rewrite !andb_true_iff. unfold is_live. rewrite bool_decide_eq_true, !negb_true_iff, Nat.eqb_neq, length_zero_iff_nil, content_ranks_iff by done.
  tauto.
Qed.

Lemma page_all {A} (l : list A) limit offset :
  (0 ≤ limit)%Z → (0 ≤ offset)%Z → Z.of_nat (length (page limit offset l)) = Z.max 0 (Z.min limit (Z.of_nat (length l) - offset)).
Proof. intros Hl Ho. unfold page. rewrite length_take, length_drop. lia. Qed.

(** The two partitions are one list: what a page leaves of its limit after the
    names is taken from the contents, at the offset that the names leave. *)
Lemma page_partitions {A} (names contents : list A) limit offset :
  (0 < limit)%Z → (0 ≤ offset)%Z →
  let nameHits := page (limit + 1) offset names in
  let n := Z.of_nat (length nameHits) in
  let nameCount := if (0 <? offset)%Z && (length nameHits =? 0)%nat then Z.of_nat (length names) else (offset + n)%Z in
  let hits := nameHits ++ page (limit + 1 - n) (Z.max 0 (offset - nameCount)) contents in
  page limit offset (names ++ contents) = (if (limit <? n)%Z then take (Z.to_nat limit) nameHits else take (Z.to_nat limit) hits) ∧
  bool_decide (offset + limit < Z.of_nat (length (names ++ contents)))%Z =
    (if (limit <? n)%Z then true else (limit <? Z.of_nat (length hits))%Z).
Proof.
  intros Hl Ho nameHits n nameCount hits. pose proof (page_all names (limit + 1) offset ltac:(lia) Ho) as Hn.
  fold nameHits in Hn. fold n in Hn. rewrite length_app. destruct (limit <? n)%Z eqn:Hb.
  - apply Z.ltb_lt in Hb. split; [|apply bool_decide_eq_true; lia].
    unfold page, nameHits, page. rewrite drop_app_le by lia. rewrite take_app_le by (rewrite length_drop; lia).
    rewrite take_take. f_equal. lia.
  - apply Z.ltb_ge in Hb.
    assert (nameHits = drop (Z.to_nat offset) names) as Hd by (unfold nameHits, page; apply take_ge; rewrite length_drop; lia).
    assert (Z.max 0 (offset - nameCount) = Z.max 0 (offset - Z.of_nat (length names)))%Z as Hc.
    { unfold nameCount. destruct ((0 <? offset)%Z && (length nameHits =? 0)%nat) eqn:Hz; [done|].
      apply andb_false_iff in Hz as [Hz%Z.ltb_ge|Hz%Nat.eqb_neq]; unfold n in *; lia. }
    unfold hits. rewrite Hc. clear nameCount hits Hc. set (off := Z.max 0 _).
    assert (drop (Z.to_nat offset) (names ++ contents) = nameHits ++ drop (Z.to_nat off) contents) as Hall.
    { rewrite drop_app, Hd. do 2 f_equal. lia. }
    split.
    + unfold page at 1. rewrite Hall. unfold page. rewrite !take_app, take_take. do 2 f_equal. unfold n in *. lia.
    + rewrite length_app, !Nat2Z.inj_add, (page_all contents) by lia. fold n.
      destruct (Z.ltb_spec limit (n + Z.max 0 (Z.min (limit + 1 - n) (Z.of_nat (length contents) - off)))).
      * apply bool_decide_eq_true. lia.
      * apply bool_decide_eq_false. lia.
Qed.

(** The generation that a search reads. *)
Lemma serving_generation c :
  lexical_ok c →
  (match readActiveLexicalGeneration c with
   | Ok generation => Ok (Some (lg_ID generation))
   | Err ErrRenditionNotFound => Ok None
   | Err e => Err e
   end) = Ok (lt_head c).
Proof.
  intros [Hok _]. unfold readActiveLexicalGeneration. destruct (lt_head c) as [g|] eqn:Hg; [|done].
  destruct (lo_head _ Hok g Hg) as [row Hrow]. destruct (lo_recorded _ Hok g row Hrow) as [_ Hm]. cbn. rewrite Hrow. cbn. by rewrite Hm.
Qed.

Lemma page_has {A} (l : list A) limit (k : nat) x : (0 < limit)%Z → l !! k = Some x → x ∈ page limit (Z.of_nat k) l.
Proof.
  intros Hl Hk. unfold page. rewrite Nat2Z.id, (drop_S _ _ _ Hk). destruct (Z.to_nat limit) eqn:He; [lia|]. cbn. by left.
Qed.
(** A node as a hit. *)
Definition found (d : db) (match_ : search_match) (p : Z * node_row) : SearchHit :=
  mkHit (scanNode d p.1 p.2) (pathOf d p.1) match_.
(** All hits of a query in their order. *)
Definition all_hits (q : fts_query) (d : db) c cache (opts : ScopeOptions) : list SearchHit :=
  (found d SearchMatchName <$> name_hits q d opts) ++
  (found d SearchMatchContent <$> content_hits q d c cache (lt_head c) opts).

Definition set_path (d : db) (h : SearchHit) : SearchHit := mkHit (sh_Node h) (pathOf d (ID (sh_Node h))) (sh_Match h).
Lemma add_paths d hits :
  (∀ h, h ∈ hits → is_Some (nodes d !! ID (sh_Node h))) → addSearchPaths d hits = Ok (set_path d <$> hits).
Proof.
  intros Hn. unfold addSearchPaths. match goal with |- foldM ?f _ _ = _ => set (step := f) end.
  enough (∀ acc, foldM step acc hits = Ok (acc ++ (set_path d <$> hits))) as He by apply (He []).
  induction hits as [|h hits IH]; intros acc; cbn [foldM fmap list_fmap]; [by rewrite app_nil_r|].
  assert (step acc h = Ok (acc ++ [set_path d h])) as ->.
  { destruct (Hn h) as [r Hr]; [by left|]. unfold step, Path, nodeByIDTx. by rewrite Hr. }
  cbn [mbind result_bind]. rewrite IH by (intros h' ?; apply Hn; by right). by rewrite <- (assoc_L (++)).
Qed.
Lemma scanned_paths d match_ l : set_path d <$> scanSearchRows d match_ l = found d match_ <$> l.
Proof. unfold scanSearchRows. rewrite <- list_fmap_compose. by apply list_fmap_ext. Qed.

Lemma search_page_all q d c cache limit offset opts :
  lexical_ok c → (0 < limit)%Z → (0 ≤ offset)%Z →
  SearchPageWithOptions q d c cache limit offset opts =
  Ok (page limit offset (all_hits q d c cache opts), bool_decide (offset + limit < Z.of_nat (length (all_hits q d c cache opts)))%Z).
Proof.
  intros Hok Hl Ho. set (names := scanSearchRows d SearchMatchName (name_hits q d opts)).
  set (contents := scanSearchRows d SearchMatchContent (content_hits q d c cache (lt_head c) opts)).
  assert (all_hits q d c cache opts = set_path d <$> (names ++ contents)) as ->.
  { rewrite fmap_app. unfold names, contents. by rewrite !scanned_paths. }
  assert (addSearchPaths d (page limit offset (names ++ contents)) = Ok (page limit offset (set_path d <$> (names ++ contents)))) as Hp.
  { rewrite <- fmap_page. apply add_paths. intros h Hh. unfold page in Hh. apply elem_of_take in Hh as (k & Hk & _).
    rewrite lookup_drop in Hk. apply list_elem_of_lookup_2 in Hk.
    apply elem_of_app in Hk as [([i r] & -> & Hin)%list_elem_of_fmap|([i r] & -> & Hin)%list_elem_of_fmap]; cbn.
    - apply elem_of_name_hits in Hin as (-> & _). by eexists.
    - apply elem_of_content_hits in Hin as (-> & _); [by eexists|done]. }
  rewrite length_fmap. destruct (page_partitions names contents limit offset Hl Ho) as [Hpage Htrunc].
  unfold SearchPageWithOptions. rewrite (proj2 (Z.leb_gt _ _)) by lia. rewrite (proj2 (Z.ltb_ge _ _) Ho). cbn [negb check mbind result_bind].
  rewrite (serving_generation c Hok). cbn [mbind result_bind]. cbv zeta. unfold scanSearchRows. rewrite !fmap_page.
  fold (scanSearchRows d SearchMatchName (name_hits q d opts)). fold names.
  fold (scanSearchRows d SearchMatchContent (content_hits q d c cache (lt_head c) opts)). fold contents.
  assert (length (name_hits q d opts) = length names) as -> by (unfold names, scanSearchRows; by rewrite length_fmap).
  rewrite Hpage in Hp. rewrite Htrunc. clear Hpage Htrunc.
  match goal with |- context [page (limit + 1) offset names ++ ?l] => set (hits := page (limit + 1) offset names ++ l) in * end.
  destruct (limit <? Z.of_nat (length (page (limit + 1) offset names)))%Z; [by rewrite Hp|].
  destruct (Z.ltb_spec limit (Z.of_nat (length hits))) as [_|Hfew]; [by rewrite Hp|].
  rewrite take_ge in Hp by lia. by rewrite Hp.
Qed.

(** C12: A search returns exactly one page of one list.  The list has first the
    live nodes whose name matches and that pass the filters, then the other
    live nodes that pass them and whose current version matches: a row in the
    catalog, of a build that heads the version, matches, or, as long as nothing
    has been published, a row of the version's blob in the text cache, if the
    version is searchable.  So trashed nodes, historical versions and builds
    without a head find nothing, and neither does the text cache once there is
    a lexical head.  Names come in the order of their rank, contents in the
    order of their best rank, both then by name and id; no node comes twice,
    every hit has its node and path, and the page is reported as truncated
    exactly when hits remain after it. *)
Theorem SearchPageWithOptions_exact q d c cache limit offset opts :
  lexical_ok c → (0 < limit)%Z → (0 ≤ offset)%Z →
  let names := name_hits q d opts in let contents := content_hits q d c cache (lt_head c) opts in
  let all := (found d SearchMatchName <$> names) ++ (found d SearchMatchContent <$> contents) in
  SearchPageWithOptions q d c cache limit offset opts =
    Ok (page limit offset all, bool_decide (offset + limit < Z.of_nat (length all))%Z) ∧
  (∀ i r, (i, r) ∈ names ↔
    nodes d !! i = Some r ∧ trashed_at r = None ∧ fq_matches q (name r) = true ∧ search_filter d opts i r = true) ∧
  (∀ i r, (i, r) ∈ contents ↔
    nodes d !! i = Some r ∧ trashed_at r = None ∧ fq_matches q (name r) = false ∧ search_filter d opts i r = true ∧
    ∃ v cv, current_version_id r = Some v ∧ current_version d i r = Some cv ∧
      match lt_head c with
      | Some _ => ∃ p a t row x, lt_heads c !! (v, p) = Some (a, t) ∧ lt_attachments c !! a = Some row ∧
          x ∈ rows_of c (ar_BuildID row) ∧ fq_matches q (lm_text x) = true
      | None => v ∈ tc_searchable cache ∧
          ∃ extractor text, tc_rows cache !! (v_blob_hash cv, extractor) = Some text ∧ fq_matches q text = true
      end) ∧
  Sorted (hit_order (λ p, fq_name_rank q p.1)) names ∧
  Sorted (hit_order (λ p, best_rank (content_ranks q d c cache (lt_head c) p))) contents ∧
  NoDup (names ++ contents).*1.
Proof.
  intros Hok Hl Ho names contents all. split_and!.
  - by apply search_page_all.
  - intros i r. apply elem_of_name_hits.
  - intros i r. by apply elem_of_content_hits.
  - unfold names, name_hits. apply Sorted_merge_sort, _.
  - unfold contents, content_hits. apply Sorted_merge_sort, _.
  - assert (∀ P (HP : ∀ p, Decision (P p)) R (HR : RelDecision R), NoDup (merge_sort R (filter P (map_to_list (nodes d)))).*1) as Hnd.
    { intros P HP R HR. rewrite merge_sort_Permutation. eapply sublist_NoDup; [apply (NoDup_fst_map_to_list (nodes d))|].
      apply fmap_sublist, sublist_filter. }
    rewrite fmap_app. apply NoDup_app. split_and!; [apply Hnd| |apply Hnd].
    intros i ([i1 r1] & -> & H1')%list_elem_of_fmap ([i2 r2] & He & H2')%list_elem_of_fmap. cbn in He. subst i2.
    apply elem_of_name_hits in H1' as (? & _ & ? & _). apply elem_of_content_hits in H2' as (? & _ & ? & _); [congruence|done].
Qed.

(** ** The machine of all operations *)

Lemma record_blob_storage `{Kit} t hash size physical generation t' :
  RecordRenditionBlob t hash size physical generation = Ok t' →
  blobs (rc_storage t) ⊆ blobs (rc_storage t') ∧
  ∃ s m, t' = mkTables s m (rc_builds t) (rc_artifacts t) (rc_units t) (rc_segments t).
Proof.
  unfold RecordRenditionBlob. intros Hr. res_inv1. injection Hr as <-. split; [|by eexists _, _]. cbn.
  rename select (with_store _ = _) into He. unfold with_store in He.
  destruct (EnsureBlobTx _ _ _ _ _) as [s|e] eqn:Hs; [injection He as <-|by destruct e].
  apply EnsureBlobTx_shape in Hs as (p & cs & _ & Hb & _ & _ & _ & Hs). cbv zeta in Hs.
  assert (blobs s = <[hash := size]> (blobs (rc_storage t))) as ->.
  { destruct Hs as [[-> _]| ->]; [done|]. unfold loose_written. done. }
  destruct Hb as [Hb|Hb]; [by apply insert_subseteq|by rewrite insert_id].
Qed.

Lemma record_blob_core `{Kit} c hash size physical generation t' :
  lexical_core c → RecordRenditionBlob (lt_tables c) hash size physical generation = Ok t' → lexical_core (with_rendition_tables c t').
Proof.
  intros Hok Hr. apply record_blob_storage in Hr as (Hsub & s & m & ->). cbn in Hsub.
  split; try apply Hok. destruct (lo_tables _ Hok) as [? ? ? Hb]. split; [done..|]. intros id Hid.
  destruct (Hb id Hid) as (b & <- & Hn & [? ? ? ? Hbl]). exists b. split_and!; [done..|]. split; [done..|].
  intros a Ha. eapply lookup_weaken; [by apply Hbl|done].
Qed.

Lemma stage_excluding_core c excluded c' o :
  lexical_core c → stageLexicalGenerationExcludingTx c excluded = Ok (c', o) →
  lexical_core c' ∧ lt_tables c' = lt_tables c ∧ lt_heads c' = lt_heads c ∧ lt_attachments c' = lt_attachments c ∧
  lt_head c' = lt_head c ∧ lt_members c ⊆ lt_members c'.
Proof.
  intros Hok. unfold stageLexicalGenerationExcludingTx. set (ids := filter (λ b, b ∉ excluded) _).
  assert (filter (λ r, lm_buildID r ∉ excluded) (readCatalogLexicalManifestRowsTx c None) = mjoin ((λ b, rows_of c b) <$> ids)) as ->.
  { rewrite catalog_rows_all. unfold ids. induction (lexicalCatalogBuildIDsTx c) as [|b l IH]; [done|].
    change (mjoin ((λ b, rows_of c b) <$> b :: l)) with (rows_of c b ++ mjoin ((λ b, rows_of c b) <$> l)).
    rewrite filter_app, IH, filter_cons. case_decide as Hb.
    - rewrite list_filter_id; [done|]. by intros r ->%rows_of_build.
    - rewrite list_filter_none; [done|]. intros r ->%rows_of_build. tauto. }
  destruct (length ids =? 0)%nat; [intros [= <- <-]; done|]. set (g := lexicalReplacementGenerationID _ _). intros Hs.
  apply bind_Ok_iff in Hs as ([c1 generation] & Hs & [= <- <-]). destruct (lt_generations c !! g) as [row|] eqn:Hg.
  - destruct (stage_present c g row (mjoin ((λ b, rows_of c b) <$> ids)) ids Hok Hg) as (? & Hp & _).
    rewrite Hp in Hs. by injection Hs as <- <-.
  - destruct (catalog_builds_spec c) as [Hn Hin].
    destruct (stage_rows_new c g ids Hok Hg) as (c2 & gen2 & Hp & _ & Hcore & _ & Hsub & Ht & Ha & Hh & Hd & _).
    + by apply NoDup_filter.
    + intros b [_ Hb]%list_elem_of_filter. by apply Hin.
    + rewrite Hp in Hs. by injection Hs as <- <-.
Qed.

(** What a deletion of versions leaves. *)
Lemma delete_versions_ok c versionIDs : lexical_ok c → lexical_ok (delete_versions c versionIDs).
Proof.
  intros [Hok Hcov]. split.
  - split; try apply Hok.
    + intros [v p] a t [Hh Hv]%map_lookup_filter_Some. destruct (lo_heads _ Hok _ _ _ Hh) as (row & Ha & He). exists row. split; [|done].
      apply map_lookup_filter_Some. split; [done|]. cbn in Hv |- *. by injection He as -> _.
    + intros a row [Ha _]%map_lookup_filter_Some. by apply (lo_attachments _ Hok a).
  - cbn. destruct (lt_head c) as [g|].
    + intros k a t row [Hh _]%map_lookup_filter_Some [Ha _]%map_lookup_filter_Some. by apply (Hcov k a t).
    + rewrite Hcov. apply map_filter_empty.
Qed.

Inductive lexical_op :=
  | OpRecordBlob (hash : string) (size : Z) (physical : BlobPhysical) (generation : string)
  | OpStageBuild (vaultID : string) (suppressed : gset (string * string * string)) (record : RenditionBuildRecord)
  | OpStageGeneration (generationID : string)
  | OpStageExcluding (excluded : gset string)
  | OpPublish (e : lexical_env) (profiles : profile_table) (pairs : list publication_pair) (generationID : string)
      (authorization : option providerPublicationAuthorization)
  | OpDeleteVersions (versionIDs : list string).
(** A transaction that fails changes nothing. *)
Definition lexical_step `{Kit} c (op : lexical_op) : lexical_tables :=
  let commit {A} (r : rres A) (f : A → lexical_tables) := match r with Ok a => f a | Err _ => c end in
  match op with
  | OpRecordBlob hash size physical generation =>
      commit (RecordRenditionBlob (lt_tables c) hash size physical generation) (with_rendition_tables c)
  | OpStageBuild vaultID suppressed record =>
      commit (StageRenditionBuild vaultID (lt_tables c) suppressed record) (with_rendition_tables c)
  | OpStageGeneration g => commit (StageLexicalGeneration c g) fst
  | OpStageExcluding excluded => commit (stageLexicalGenerationExcludingTx c excluded) fst
  | OpPublish e profiles pairs g authorization =>
      commit (publishRenditionAttachmentsAndLexicalHeadsTx e c profiles pairs g authorization) fst
  | OpDeleteVersions versionIDs => delete_versions c versionIDs
  end.

Lemma publish_ok e c profiles pairs g authorization c' profiles' :
  lexical_core c → publishRenditionAttachmentsAndLexicalHeadsTx e c profiles pairs g authorization = Ok (c', profiles') →
  lexical_ok c'.
Proof.
  intros Hok. unfold publishRenditionAttachmentsAndLexicalHeadsTx. intros Hp. do 2 res_inv1.
  apply bind_Ok_iff in Hp as ([c1 p1] & Hf & Hp). apply publish_pairs_grown in Hf as [Hg _]; [|done].
  pose proof (gr_core _ _ Hg) as Hok1. do 2 res_inv1. injection Hp as <- <-.
  rename select (validateLexicalGenerationCoversCurrentHeadsTx _ _ = _) into Hc. rewrite validate_covers in Hc by done.
  rename select (loadAndValidateLexicalGenerationTx _ _ = _) into Hl. unfold loadAndValidateLexicalGenerationTx in Hl. res_inv1.
  rename select (from_lookup (lt_generations _ !! _) _ = _) into Hgen. apply from_lookup_Ok_iff in Hgen.
  case_decide as Hcov; [|done]. apply publish_head_ok; [done|by rewrite Hgen|done].
Qed.

Lemma lexical_step_ok `{Kit} c op : lexical_ok c → lexical_ok (lexical_step c op).
Proof.
  intros Hok. pose proof Hok as [Hcore _]. destruct op as [hash size physical generation|vault sup record|g|excluded|e profiles pairs g auth|vs]; cbn.
  - destruct (RecordRenditionBlob _ _ _ _ _) as [t|] eqn:Hr; [|done]. apply (lexical_ok_grow c); try done. by eapply record_blob_core.
  - destruct (StageRenditionBuild _ _ _ _) as [t|] eqn:Hs; [|done]. apply (lexical_ok_grow c); try done.
    unfold StageRenditionBuild, stageRenditionBuildTx in Hs. repeat res_inv1.
    eapply insert_build_core; [done| |exact Hs]. by eexists.
  - destruct (StageLexicalGeneration c g) as [[c' gen]|] eqn:Hs; [|done]. cbn. unfold StageLexicalGeneration in Hs. res_inv1.
    by eapply stage_generation_ok.
  - destruct (stageLexicalGenerationExcludingTx c excluded) as [[c' o]|] eqn:Hs; [|done]. cbn.
    apply stage_excluding_core in Hs as (Hcore' & Ht & Hh & Ha & Hd & Hsub); [|done]. by apply (lexical_ok_grow c).
  - destruct (publishRenditionAttachmentsAndLexicalHeadsTx _ _ _ _ _ _) as [[c' p']|] eqn:Hp; [|done]. cbn. by eapply publish_ok.
  - by apply delete_versions_ok.
Qed.

(** *** Builds through a run *)

Lemma publish_tables e c profiles pairs g authorization c' profiles' :
  publishRenditionAttachmentsAndLexicalHeadsTx e c profiles pairs g authorization = Ok (c', profiles') → lt_tables c' = lt_tables c.
Proof.
  unfold publishRenditionAttachmentsAndLexicalHeadsTx. intros Hp. do 2 res_inv1.
  apply bind_Ok_iff in Hp as ([c1 p1] & Hf & Hp). apply publish_pairs_moved in Hf as ([Ht _ _ _] & _ & _).
  do 2 res_inv1. injection Hp as <- <-. rewrite publish_head_eq.
  destruct (collected (headed c1 g) (le_held e)) as (l & _ & [Ht' _ _ _ _ _ _ _ _] & _).
  destruct (headed_fields c1 g) as (Ht2 & _). by rewrite Ht', Ht2.
Qed.
(** Blobs and builds apart, no operation changes the tables of the builds. *)
Lemma lexical_step_tables `{Kit} c op :
  lexical_core c → lt_tables (lexical_step c op) = lt_tables c ∨
  match op with
  | OpRecordBlob hash size physical generation =>
      ∃ t, lexical_step c op = with_rendition_tables c t ∧ RecordRenditionBlob (lt_tables c) hash size physical generation = Ok t
  | OpStageBuild vaultID suppressed record =>
      ∃ t, lexical_step c op = with_rendition_tables c t ∧ StageRenditionBuild vaultID (lt_tables c) suppressed record = Ok t
  | _ => False
  end.
Proof.
  intros Hok. destruct op as [hash size physical generation|vault sup record|g|excluded|e profiles pairs g auth|vs]; cbn.
  - destruct (RecordRenditionBlob _ _ _ _ _) as [t|] eqn:Hr; [right; by eexists|by left].
  - destruct (StageRenditionBuild _ _ _ _) as [t|] eqn:Hs; [right; by eexists|by left].
  - left. destruct (StageLexicalGeneration c g) as [[c' gen]|] eqn:Hs; [|done]. cbn. unfold StageLexicalGeneration in Hs. res_inv1.
    by eapply stage_generation_tables.
  - left. destruct (stageLexicalGenerationExcludingTx c excluded) as [[c' o]|] eqn:Hs; [|done]. cbn.
    by apply stage_excluding_core in Hs as (_ & ? & _).
  - left. destruct (publishRenditionAttachmentsAndLexicalHeadsTx _ _ _ _ _ _) as [[c' p']|] eqn:Hp; [|done]. cbn. by eapply publish_tables.
  - by left.
Qed.

Lemma rehashed_twice m m' b : rehashed_build m (rehashed_build m' b) = rehashed_build m b.
Proof.
  unfold rehashed_build. cbn. f_equal. rewrite <- list_fmap_compose. apply list_fmap_ext. by intros ? [].
Qed.
Lemma staging_holds (rt : rendition_tables) vault suppressed record b t :
  tables_ok rt → normalizeRenditionBuildRecord record = Ok b → StageRenditionBuild vault rt suppressed record = Ok t →
  rc_builds t = <[rb_ID b := row_of b]> (rc_builds rt) ∧ (∀ b0, holds rt b0 → holds t b0) ∧
  ∃ b0, holds t b0 ∧ normalized b0 ∧ rb_ID b0 = rb_ID b ∧ ∀ m, rehashed_build m b0 = rehashed_build m b.
Proof.
  intros Hok Hn Hs. assert (normalized b) as Hno by by eexists. unfold StageRenditionBuild in Hs. rewrite Hn in Hs.
  cbn [mbind result_bind] in Hs. unfold stageRenditionBuildTx in Hs. do 2 res_inv1.
  pose proof (insert_build_cases rt b Hok Hno) as Hc. rewrite Hs in Hc. destruct Hc as (Hnew & Hok' & Hst & Hb & Hl & _ & _ & Ho).
  split_and!; [done| |].
  - intros b0 Hh. destruct Hnew as [Hnew|[m ->]]; [|by apply holds_staging]. apply Ho; [done|].
    intros He. pose proof (ho_row _ _ Hh) as Hr. rewrite He in Hr. congruence.
  - destruct (to_builds _ Hok' (rb_ID b)) as (b0 & Hid & Hn0 & Hh); [by rewrite Hb, lookup_insert_eq|].
    exists b0. split_and!; [done..|]. intros m. pose proof (load_holds t b0 Hn0 Hh) as Hl'. rewrite Hid, Hl in Hl'.
    assert (rehashed_build (blob_md5 rt) b = rehashed_build (blob_md5 t) b0) as He by congruence.
    by rewrite <- (rehashed_twice m (blob_md5 t) b0), <- He, rehashed_twice.
Qed.
Lemma holds_step `{Kit} c op b0 : lexical_core c → holds (lt_tables c) b0 → holds (lt_tables (lexical_step c op)) b0.
Proof.
  intros Hok Hh. destruct (lexical_step_tables c op Hok) as [->|Hc]; [done|]. destruct op; try done.
  - destruct Hc as (t & -> & Hr). apply record_blob_storage in Hr as (Hsub & s & m & ->). destruct Hh as [? ? ? ? Hbl].
    split; [done..|]. intros a Ha. eapply lookup_weaken; [by apply Hbl|done].
  - destruct Hc as (t & -> & Hs). pose proof Hs as Hs'. unfold StageRenditionBuild in Hs'. res_inv1.
    rename select (normalizeRenditionBuildRecord _ = _) into Hn. by apply (staging_holds _ _ _ _ _ _ (lo_tables _ Hok) Hn Hs).
Qed.

(** Tables without a build. *)
Definition no_lexical (storage : Blobs.catalog) (embedding : embedding_tables) : lexical_tables :=
  mkLexical (mkTables storage ∅ ∅ ∅ ∅ ∅) ∅ ∅ ∅ ∅ ∅ ∅ None ∅ embedding.
Lemma no_lexical_ok storage embedding : lexical_ok (no_lexical storage embedding).
Proof.
  split; [|done]. split.
  - split; [intros ? ? ? Hl|intros ? ? ? Hl|intros ? ? ? Hl|intros ? [? Hl]]; done.
  - intros b. by left.
  - intros g b Hm. set_solver.
  - intros g row Hl. done.
  - intros g [? Hl]. done.
  - done.
  - intros g Hg. set_solver.
  - intros k a t Hl. done.
  - intros a row Hl. done.
Qed.
Lemma lexical_run_ok `{Kit} c ops : lexical_ok c → lexical_ok (foldl lexical_step c ops).
Proof. revert c; induction ops as [|op ops IH]; intros c Hok; [done|]. cbn. by apply IH, lexical_step_ok. Qed.

(** A run staged a build. *)
Definition staged_in `{Kit} c ops (b : RenditionBuildRecord) : Prop :=
  ∃ ops1 vaultID suppressed record ops2 t, ops = ops1 ++ OpStageBuild vaultID suppressed record :: ops2 ∧
    normalizeRenditionBuildRecord record = Ok b ∧
    StageRenditionBuild vaultID (lt_tables (foldl lexical_step c ops1)) suppressed record = Ok t.

Lemma staged_in_snoc `{Kit} c ops op b : staged_in c ops b → staged_in c (ops ++ [op]) b.
Proof.
  intros (ops1 & vault & sup & record & ops2 & t & -> & ? & ?). exists ops1, vault, sup, record, (ops2 ++ [op]), t.
  by rewrite <- (assoc_L (++)).
Qed.
(** The staged builds are held, and they are all that is stored. *)
Lemma run_holds `{Kit} c ops :
  lexical_ok c → rc_builds (lt_tables c) = ∅ → let c' := foldl lexical_step c ops in
  (∀ b, staged_in c ops b → ∃ b0, holds (lt_tables c') b0 ∧ normalized b0 ∧ rb_ID b0 = rb_ID b ∧
    ∀ m, rehashed_build m b0 = rehashed_build m b) ∧
  ∀ id, is_Some (rc_builds (lt_tables c') !! id) → ∃ b, rb_ID b = id ∧ staged_in c ops b.
Proof.
  intros Hok He. induction ops as [|op ops [IHs IHb]] using rev_ind; cbn zeta.
  { split; [by intros b ([] & ? & ? & ? & ? & ? & ? & _)|]. cbn. rewrite He. by intros id []. }
  rewrite foldl_app. cbn [foldl]. pose proof (lexical_run_ok c ops Hok) as [Hcore _]. split.
  - intros b (ops1 & vault & sup & record & ops2 & t & Hops & Hn & Hs). induction ops2 as [|op2 ops2 _] using rev_ind.
    + apply app_inj_tail in Hops as [-> ->]. destruct (staging_holds _ _ _ _ _ _ (lo_tables _ Hcore) Hn Hs) as (_ & _ & b0 & Hh & Hrest).
      exists b0. split; [|done]. cbn [lexical_step]. by rewrite Hs.
    + rewrite app_comm_cons, (assoc_L (++)) in Hops. apply app_inj_tail in Hops as [-> ->].
      destruct (IHs b) as (b0 & Hh & Hrest); [by exists ops1, vault, sup, record, ops2, t|].
      exists b0. split; [|done]. by apply holds_step.
  - intros id Hid. set (c1 := foldl lexical_step c ops) in *.
    assert (is_Some (rc_builds (lt_tables c1) !! id) → ∃ b, rb_ID b = id ∧ staged_in c (ops ++ [op]) b) as Hold.
    { intros (b & ? & ?)%IHb. exists b. split; [done|]. by apply staged_in_snoc. }
    destruct (lexical_step_tables c1 op Hcore) as [Ht|Hc]; [rewrite Ht in Hid; by apply Hold|]. destruct op as [hash size physical generation|vault sup record| | | |]; try done.
    + destruct Hc as (t & Hstep & Hr). rewrite Hstep in Hid. apply record_blob_storage in Hr as (_ & s & m & ->). by apply Hold.
    + destruct Hc as (t & Hstep & Hs). rewrite Hstep in Hid. pose proof Hs as Hs'. unfold StageRenditionBuild in Hs'. res_inv1.
      rename select (normalizeRenditionBuildRecord _ = _) into Hn.
      destruct (staging_holds _ _ _ _ _ _ (lo_tables _ Hcore) Hn Hs) as (Hb & _ & _). cbn in Hid. rewrite Hb in Hid.
      destruct (decide (rb_ID a = id)) as [<-|Hne]; [|rewrite lookup_insert_ne in Hid by done; by apply Hold].
      exists a. split; [done|]. by exists ops, vault, sup, record, [], t.
Qed.

(** C9: Whatever is recorded, staged, published, collected and deleted,
    starting from an empty catalog: every build that was staged loads as it was
    declared, with the checksums of its blobs, and nothing else is stored; the
    index has each build completely or not at all; every generation validates
    and reads, of each of its builds, exactly what the catalog has of it; and
    the lexical head, once there is one, is a generation that has the builds of
    all rendition heads, while without one no rendition is published. *)
Theorem reachable_lexical_tables `{Kit} storage embedding ops :
  let c := foldl lexical_step (no_lexical storage embedding) ops in
  (∀ b, staged_in (no_lexical storage embedding) ops b →
     loadRenditionBuild (lt_tables c) (rb_ID b) = Ok (rehashed_build (blob_md5 (lt_tables c)) b)) ∧
  (∀ id, is_Some (rc_builds (lt_tables c) !! id) → ∃ b, rb_ID b = id ∧ staged_in (no_lexical storage embedding) ops b) ∧
  (∀ b, entries_of (lt_index c) b = [] ∨ is_Some (rc_builds (lt_tables c) !! b) ∧ entries_of (lt_index c) b ≡ₚ rows_of c b) ∧
  (∀ g, is_Some (lt_generations c !! g) → (∃ generation, loadAndValidateLexicalGenerationTx c g = Ok generation) ∧
     ∀ b, (g, b) ∈ lt_members c → readLexicalManifestRowsTx c g (Some b) ≡ₚ rows_of c b) ∧
  match lt_head c with
  | Some g => is_Some (lt_generations c !! g) ∧ covers c g
  | None => lt_heads c = ∅
  end.
Proof.
  cbv zeta. pose proof (no_lexical_ok storage embedding) as Hno. destruct (run_holds _ ops Hno eq_refl) as [Hs Hb].
  destruct (lexical_run_ok _ ops Hno) as [Hok Hcov].
  set (c := foldl lexical_step (no_lexical storage embedding) ops) in *. split_and!.
  - intros b (b0 & Hh & Hn & <- & Hr)%Hs. by rewrite (load_holds _ _ Hn Hh), Hr.
  - done.
  - apply (lo_indexed _ Hok).
  - intros g [row Hg]. split; [eexists; by apply load_generation|]. intros b Hgb. rewrite generation_build_rows by done.
    by destruct (lo_members _ Hok g b Hgb) as (_ & _ & ?).
  - destruct (lt_head c) as [g|] eqn:Hd; [|done]. split; [by apply (lo_head _ Hok)|done].
Qed.
End lexical_props.
