(* ===== verification/LexicalReaders.v ===== *)
(** * Readers of lexical generations (internal/store/search.go)

    Leases and publications interleaved.  A standalone lease pins its
    generation inside a write transaction, so it is one step among the
    transactions of the catalog; a publication collects with the pins of the
    moment.  What is leased stays as it was read. *)
From stdpp Require Import sorting.
From S2P Require Import Prelude GoText Sha256 SearchText AuditEncoding Names Tables Identity Blobs ModelInput Chunking JsonText Consent Rendition RenditionBuild RenditionBuildFacts Lexical LexicalFacts LexicalProps.

Section readers.
Context `{Normalizer} `{Sha256} `{CatalogDocuments} `{RenditionContracts} `{Kit}.
Implicit Types c : lexical_tables.

(** ** What a step keeps of a generation *)

Record kept c c' (g : string) : Prop := mkKept {
  kp_members b : (g, b) ∈ lt_members c' ↔ (g, b) ∈ lt_members c;
  kp_rows b : (g, b) ∈ lt_members c → rows_of c' b = rows_of c b;
  kp_generation : is_Some (lt_generations c' !! g);
}.

Lemma kept_loads c c' g :
  lexical_core c → lexical_core c' → is_Some (lt_generations c !! g) → kept c c' g →
  loadAndValidateLexicalGenerationTx c' g = loadAndValidateLexicalGenerationTx c g ∧
  readLexicalManifestRowsTx c' g None ≡ₚ readLexicalManifestRowsTx c g None.
Proof.
  intros Hok Hok' [row Hrow] [Hm Hr [row' Hrow']]. pose proof (generation_builds_ext c c' g Hm) as Hids.
  pose proof (expected_rows_ext c c' g Hids Hr) as Hexp.
  rewrite (load_generation c g row), (load_generation c' g row') by done. rewrite Hids, Hexp.
  assert (row' = row) as ->.
  { destruct (lo_recorded _ Hok g row Hrow) as [-> _]. destruct (lo_recorded _ Hok' g row' Hrow') as [-> _]. by rewrite Hids, Hexp. }
  split; [done|]. by rewrite !generation_rows_expected, Hexp.
Qed.

Lemma kept_tables c c' g :
  is_Some (lt_generations c !! g) → lt_members c' = lt_members c → lt_generations c' = lt_generations c →
  (∀ b, (g, b) ∈ lt_members c → rows_of c' b = rows_of c b) → kept c c' g.
Proof. intros Hg Hm Hgen Hr. split; [by rewrite Hm|done|by rewrite Hgen]. Qed.

(** Staging adds at most one generation, a new one. *)
Lemma stage_rows_kept c g segments ids c' generation g' :
  is_Some (lt_generations c !! g') → stageLexicalGenerationRowsTx c g segments ids = Ok (c', generation) → kept c c' g'.
Proof.
  intros Hg'. unfold stageLexicalGenerationRowsTx. intros Hs.
  assert (is_Some (lt_generations c !! g) ∨ lt_generations c !! g = None) as [Hg|Hg] by (destruct (lt_generations c !! g); eauto).
  { destruct (loadAndValidateLexicalGenerationTx c g) as [stored|e] eqn:Hl; [injection Hs as <- <-; by split|].
    destruct e; try done. unfold loadAndValidateLexicalGenerationTx in Hl. destruct Hg as [row Hg]. rewrite Hg in Hl.
    cbn [from_lookup mbind result_bind] in Hl. destruct (lt_manifests c !! g) as [[? ?]|]; [|done]. cbn [from_lookup mbind result_bind] in Hl.
    cbv zeta in Hl. destruct (_ && _) in Hl; done. }
  assert (g' ≠ g) as Hne by (intros ->; destruct Hg'; congruence).
  destruct (loadAndValidateLexicalGenerationTx c g) as [stored|e] eqn:Hl; [injection Hs as <- <-; by split|].
  destruct e; try done. cbv zeta in Hs. res_inv1. res_inv1. do 2 res_inv1. injection Hs as <- <-.
  rename select (indexLexicalSegmentsTx _ _ = _) into Hi. unfold indexLexicalSegmentsTx in Hi.
  apply bind_Ok_iff in Hi as ([index memo] & _ & [= <-]).
  rename select (foldM (insert_member g) _ _ = _) into Hm.
  eapply (foldM_inv (λ x, lt_tables x = lt_tables c ∧ lt_generations x = <[g := _]> (lt_generations c) ∧
    ∀ b, (g', b) ∈ lt_members x ↔ (g', b) ∈ lt_members c)) in Hm as (Ht & Hgens & Hmem);
    [| |by split_and!].
  - split; cbn; [exact Hmem|intros b _; by apply rows_of_tables|by rewrite Hgens, lookup_insert_ne].
  - intros x b x' _ (<- & <- & Hmem) Hx. unfold insert_member in Hx. repeat res_inv1. subst. split_and!; [done..|].
    intros b'. cbn. rewrite <- Hmem, elem_of_union, elem_of_singleton. split; [|by right]. by intros [[= ? _]|?].
Qed.

Lemma publish_kept e c profiles pairs g authorization c' profiles' g' :
  lexical_core c → le_held e g' = true → is_Some (lt_generations c !! g') →
  publishRenditionAttachmentsAndLexicalHeadsTx e c profiles pairs g authorization = Ok (c', profiles') → kept c c' g'.
Proof.
  intros Hok Hheld Hg'. unfold publishRenditionAttachmentsAndLexicalHeadsTx. intros Hp. do 2 res_inv1.
  apply bind_Ok_iff in Hp as ([c1 p1] & Hf & Hp). apply publish_pairs_moved in Hf as ([Ht Hgen Hm _] & _ & _).
  do 2 res_inv1. injection Hp as <- <-. rewrite publish_head_eq.
  destruct (collected (headed c1 g) (le_held e)) as (l & Hl & [Ht' _ _ _ Hgen' _ Hm' _ _] & _).
  destruct (headed_fields c1 g) as (Ht2 & _ & _ & _ & Hgen2 & _ & Hm2 & _).
  assert (g' ∉ l) as Hni by (rewrite Hl; intros (_ & _ & ?); congruence). split.
  - intros b. rewrite Hm', Hm2, Hm. tauto.
  - intros b _. apply rows_of_tables. by rewrite Ht', Ht2, Ht.
  - by rewrite Hgen', decide_False, Hgen2, Hgen by done.
Qed.

(** A publication of the machine holds what a predicate says. *)
Definition holds_for (P : string → Prop) (op : lexical_op) : Prop :=
  match op with OpPublish e _ _ _ _ => ∀ g, P g → le_held e g = true | _ => True end.
Lemma lexical_step_kept c op g :
  lexical_core c → is_Some (lt_generations c !! g) → holds_for (λ g', g' = g) op → kept c (lexical_step c op) g.
Proof.
  intros Hok Hg Hholds.
  assert (kept c c g) as Hrefl by (by split).
  destruct op as [hash size physical generation|vault sup record|g'|excluded|e profiles pairs g' auth|vs]; cbn.
  - destruct (RecordRenditionBlob _ _ _ _ _) as [t|] eqn:Hr; [|done]. apply record_blob_storage in Hr as (_ & s & m & ->). by split.
  - destruct (StageRenditionBuild _ _ _ _) as [t|] eqn:Hs; [|done]. unfold StageRenditionBuild, stageRenditionBuildTx in Hs.
    repeat res_inv1. apply insert_build_rows in Hs as (_ & _ & Hrows & _); [|done|by eexists]. apply kept_tables; try done.
    intros b Hb. apply Hrows. by destruct (lo_members _ Hok g b Hb) as (_ & ? & _).
  - destruct (StageLexicalGeneration c g') as [[c' gen]|] eqn:Hs; [|done]. cbn. unfold StageLexicalGeneration in Hs. res_inv1.
    by eapply stage_rows_kept.
  - destruct (stageLexicalGenerationExcludingTx c excluded) as [[c' o]|] eqn:Hs; [|done]. cbn.
    unfold stageLexicalGenerationExcludingTx in Hs. cbv zeta in Hs. case_match; [by injection Hs as <- _|].
    apply bind_Ok_iff in Hs as ([c1 generation] & Hs & [= <- <-]). by eapply stage_rows_kept.
  - destruct (publishRenditionAttachmentsAndLexicalHeadsTx _ _ _ _ _ _) as [[c' p']|] eqn:Hp; [|done]. cbn.
    eapply publish_kept; [done| |done|exact Hp]. by apply Hholds.
  - by split.
Qed.

(** ** Leases *)

Lemma active_loads c generation :
  lexical_core c → readActiveLexicalGeneration c = Ok generation →
  is_Some (lt_generations c !! lg_ID generation) ∧ loadAndValidateLexicalGenerationTx c (lg_ID generation) = Ok generation.
Proof.
  intros Hok Ha. unfold readActiveLexicalGeneration in Ha. do 2 res_inv1. apply bind_Ok_iff in Ha as ([md bd] & Hm & [= <-]). cbn [lg_ID].
  rename select (from_lookup (lt_generations _ !! _) _ = _) into Hg. apply from_lookup_Ok_iff in Hg, Hm. split; [by rewrite Hg|].
  rewrite (load_generation c _ _ Hok Hg). destruct (lo_recorded _ Hok _ _ Hg) as [_ Hr]. congruence.
Qed.

(** The tables, the readers of the process, and every lease handed out so far
    with the text it saw when it was taken. *)
Record reader_state := mkReaderState {
  sr_tables : lexical_tables; sr_readers : reader_counts; sr_leases : list (LexicalGenerationLease * list lexicalManifestRow);
}.
Inductive reader_op := RdCatalog (op : lexical_op) | RdAcquire | RdRelease (i : nat).

(** A publication holds what is pinned, beside what else it is told to hold. *)
Definition pinning (readers : reader_counts) (op : lexical_op) : lexical_op :=
  match op with
  | OpPublish e profiles pairs g authorization =>
      OpPublish (mkLexicalEnv (le_vault e) (le_versions e) (le_suppressed e)
                   (λ g', le_held e g' || bool_decide (g' ∈ pinnedLexicalGenerationIDs readers)) (le_consent e) (le_now e))
        profiles pairs g authorization
  | _ => op
  end.
Definition reader_step (s : reader_state) (op : reader_op) : reader_state :=
  match op with
  | RdCatalog op => mkReaderState (lexical_step (sr_tables s) (pinning (sr_readers s) op)) (sr_readers s) (sr_leases s)
  | RdAcquire =>
      match acquireLexicalGeneration (sr_tables s) (sr_readers s) with
      | Ok (readers, lease) =>
          mkReaderState (sr_tables s) readers
            (sr_leases s ++ [(lease, readLexicalManifestRowsTx (sr_tables s) (lg_ID (ll_Generation lease)) None)])
      | Err _ => s
      end
  | RdRelease i =>
      match sr_leases s !! i with
      | Some (lease, rows) =>
          let '(readers, lease') := Release (sr_readers s) lease in
          mkReaderState (sr_tables s) readers (<[i := (lease', rows)]> (sr_leases s))
      | None => s
      end
  end.

(** The leases of a generation that have not been released. *)
Definition open_on (g : string) (l : LexicalGenerationLease * list lexicalManifestRow) : Prop :=
  ll_released l.1 = false ∧ lg_ID (ll_Generation l.1) = g.
#[local] Instance open_on_dec g l : Decision (open_on g l).
Proof. unfold open_on. apply _. Defined.
Definition open_leases (leases : list (LexicalGenerationLease * list lexicalManifestRow)) (g : string) : nat :=
  length (filter (open_on g) leases).
Definition counted_as (readers : reader_counts) (g : string) (n : nat) : Prop :=
  readers !! g = match n with O => None | _ => Some (Z.of_nat n) end.

Record readers_ok (s : reader_state) : Prop := mkReadersOk {
  ro_tables : lexical_ok (sr_tables s);
  ro_counts g : counted_as (sr_readers s) g (open_leases (sr_leases s) g);
  ro_leases i lease rows : sr_leases s !! i = Some (lease, rows) → ll_released lease = false →
    is_Some (lt_generations (sr_tables s) !! lg_ID (ll_Generation lease)) ∧
    loadAndValidateLexicalGenerationTx (sr_tables s) (lg_ID (ll_Generation lease)) = Ok (ll_Generation lease) ∧
    readLexicalManifestRowsTx (sr_tables s) (lg_ID (ll_Generation lease)) None ≡ₚ rows;
}.

Lemma pinned_iff readers g : g ∈ pinnedLexicalGenerationIDs readers ↔ ∃ n, readers !! g = Some n ∧ (0 < n)%Z.
Proof.
  unfold pinnedLexicalGenerationIDs. rewrite elem_of_dom. split.
  - intros [n Hn]. apply map_lookup_filter_Some in Hn as [? ?]. by exists n.
  - intros (n & Hn & Hp). exists n. by apply map_lookup_filter_Some.
Qed.
Lemma open_pinned s i lease rows :
  readers_ok s → sr_leases s !! i = Some (lease, rows) → ll_released lease = false →
  lg_ID (ll_Generation lease) ∈ pinnedLexicalGenerationIDs (sr_readers s).
Proof.
  intros Hok Hi Ho. apply pinned_iff. pose proof (ro_counts _ Hok (lg_ID (ll_Generation lease))) as Hc.
  unfold counted_as in Hc. destruct (open_leases (sr_leases s) (lg_ID (ll_Generation lease))) as [|n] eqn:Hn.
  - exfalso. unfold open_leases in Hn. apply nil_length_inv in Hn. eapply (not_elem_of_nil (lease, rows)). rewrite <- Hn.
    apply list_elem_of_filter. split; [done|]. by eapply list_elem_of_lookup_2.
  - rewrite Hc. eexists. split; [done|lia].
Qed.

Lemma lexical_step_reads s op :
  readers_ok s → readers_ok (reader_step s (RdCatalog op)).
Proof.
  intros Hok. pose proof (ro_tables _ Hok) as [Hcore _]. split; cbn [reader_step sr_tables sr_readers sr_leases].
  - apply lexical_step_ok, Hok.
  - apply (ro_counts _ Hok).
  - intros i lease rows Hi Ho. destruct (ro_leases _ Hok i lease rows Hi Ho) as (Hg & Hl & Hr).
    assert (kept (sr_tables s) (lexical_step (sr_tables s) (pinning (sr_readers s) op)) (lg_ID (ll_Generation lease))) as Hk.
    { apply lexical_step_kept; [done..|]. destruct op; try done. cbn. intros g ->. apply orb_true_iff. right.
      apply bool_decide_eq_true. by eapply open_pinned. }
    pose proof (lexical_step_ok (sr_tables s) (pinning (sr_readers s) op) (ro_tables _ Hok)) as [Hcore' _].
    destruct (kept_loads _ _ _ Hcore Hcore' Hg Hk) as [-> Hrows]. split_and!; [apply Hk|done|]. by rewrite Hrows.
Qed.

Lemma acquire_reads s : readers_ok s → readers_ok (reader_step s RdAcquire).
Proof.
  intros Hok. cbn [reader_step]. unfold acquireLexicalGeneration.
  destruct (readActiveLexicalGeneration (sr_tables s)) as [generation|] eqn:Ha; [|done]. cbn [mbind result_bind].
  pose proof (ro_tables _ Hok) as [Hcore _]. apply active_loads in Ha as [Hg Hl]; [|done].
  split; cbn [sr_tables sr_readers sr_leases ll_Generation].
  - apply Hok.
  - intros g. pose proof (ro_counts _ Hok g) as Hc. unfold counted_as, open_leases in *. rewrite filter_app, length_app.
    rewrite filter_cons, filter_nil. cbn [fst]. destruct (decide (lg_ID generation = g)) as [<-|Hne].
    + rewrite decide_True by done. rewrite lookup_insert_eq, Hc. cbn [length]. rewrite Nat.add_1_r.
      destruct (length _); cbn [default id]; f_equal; lia.
    + rewrite decide_False by (by intros [_ ?]). rewrite lookup_insert_ne by done. cbn [length]. by rewrite Nat.add_0_r.
  - intros i lease rows Hi Ho. apply lookup_app_Some in Hi as [Hi|[_ Hi]]; [by eapply (ro_leases _ Hok)|].
    apply list_lookup_singleton_Some in Hi as [_ [= <- <-]]. done.
Qed.

Lemma release_reads s i : readers_ok s → readers_ok (reader_step s (RdRelease i)).
Proof.
  intros Hok. cbn [reader_step]. destruct (sr_leases s !! i) as [[lease rows]|] eqn:Hi; [|done]. unfold Release.
  destruct (ll_released lease) eqn:Ho.
  { rewrite list_insert_id by done. by destruct s. }
  set (id := lg_ID (ll_Generation lease)). split; cbn [sr_tables sr_readers sr_leases].
  - apply Hok.
  - intros g. pose proof (ro_counts _ Hok g) as Hc. unfold counted_as, open_leases in *.
    rewrite <- (take_drop_middle _ _ _ Hi) in Hc. rewrite insert_take_drop by (by eapply lookup_lt_Some).
    rewrite filter_app, length_app, filter_cons in Hc |- *. rewrite (decide_False (P := open_on g (mkLease _ true, rows))) by (by intros []).
    destruct (decide (id = g)) as [Hg|Hne].
    + rewrite decide_True in Hc by done. cbn [length] in Hc. rewrite Nat.add_succ_r in Hc. rewrite Hg, Hc. cbn [default]; unfold Datatypes.id.
      set (n := (length _ + length _)%nat) in *. rewrite Nat2Z.inj_succ, Z.sub_1_r, Z.pred_succ.
      destruct n; [exact (lookup_delete_eq _ _)|exact (lookup_insert_eq _ _ _)].
    + rewrite decide_False in Hc by (by intros [_ ?]). rewrite <- Hc.
      destruct (_ =? 0)%Z; [by rewrite lookup_delete_ne|by rewrite lookup_insert_ne].
  - intros j lease' rows' Hj Ho'. destruct (decide (i = j)) as [<-|Hne].
    + rewrite list_lookup_insert_eq in Hj by (by eapply lookup_lt_Some). by injection Hj as <- _.
    + rewrite list_lookup_insert_ne in Hj by done. by eapply (ro_leases _ Hok).
Qed.

Lemma reader_run_ok s ops : readers_ok s → readers_ok (foldl reader_step s ops).
Proof.
  revert s; induction ops as [|op ops IH]; intros s Hok; [done|]. cbn [foldl]. apply IH.
  destruct op; [by apply lexical_step_reads|by apply acquire_reads|by apply release_reads].
Qed.
Definition no_readers storage embedding : reader_state := mkReaderState (no_lexical storage embedding) ∅ [].
Lemma no_readers_ok storage embedding : readers_ok (no_readers storage embedding).
Proof. split; [apply no_lexical_ok|done|by intros i lease rows]. Qed.

(** C10: A leased generation is kept.  However leases, releases and the
    transactions of the catalog interleave, a lease that has not been released
    finds its generation with the counts, the digests and the text it had when
    the lease was taken; and the roots that the store reports are exactly the
    generations with such leases, each with their number, so that releasing one
    lease twice frees nobody else's. *)
Theorem leased_generation_is_kept storage embedding ops :
  let s := foldl reader_step (no_readers storage embedding) ops in
  (∀ i lease rows, sr_leases s !! i = Some (lease, rows) → ll_released lease = false →
     loadAndValidateLexicalGenerationTx (sr_tables s) (lg_ID (ll_Generation lease)) = Ok (ll_Generation lease) ∧
     readLexicalManifestRowsTx (sr_tables s) (lg_ID (ll_Generation lease)) None ≡ₚ rows) ∧
  (∀ g n, (g, n) ∈ LeasedLexicalGenerationRoots (sr_readers s) ↔ (0 < n)%Z ∧ n = Z.of_nat (open_leases (sr_leases s) g)).
Proof.
  cbv zeta. pose proof (reader_run_ok _ ops (no_readers_ok storage embedding)) as Hok. set (s := foldl reader_step _ ops) in *. split.
  - intros i lease rows Hi Ho. by destruct (ro_leases _ Hok i lease rows Hi Ho) as (_ & ? & ?).
  - intros g n. unfold LeasedLexicalGenerationRoots. rewrite merge_sort_Permutation, elem_of_map_to_list.
    rewrite (ro_counts _ Hok g). destruct (open_leases (sr_leases s) g) as [|k]; [split; [done|lia]|].
    split; [intros [= <-]; lia|]. by intros [_ ->].
Qed.
End readers.
