(* ===== verification/LexicalQueue.v ===== *)
(** * The lexical catalog under the rendition queue

    The tables of [Lexical] implement the interface that the queue is proved
    against; with them, what a job publishes is found by the content search. *)
From stdpp Require Import sorting.
From S2P Require Import Prelude GoText Sha256 SearchText AuditEncoding Names Tables Tree Identity Blobs ModelInput Chunking JsonText Consent Rendition RenditionRows RenditionRowFacts RenditionJobs RenditionJobFacts RenditionDelete ConsentProps RenditionExample RenditionProps RenditionPublish.
From S2P Require Import RenditionBuild RenditionBuildFacts Lexical LexicalFacts LexicalProps LexicalReaders.

Section instance.
Context `{Normalizer} `{Sha256} `{CatalogDocuments} `{RenditionContracts}.

Definition header_build_identity (h : build_header) : build_identity :=
  mkBuildIdentity (bh_VaultID h) (bh_SourceSHA256 h) (bh_RenditionRequestFingerprint h) (bh_EvidenceLexicalFingerprint h)
    (bh_CapturedArtifactPolicyFingerprint h).
(** The attachment and the head of a pair. *)
Definition records_of (vault : string) (p : renditionPublicationPair) : publication_pair :=
  (mkAttachment (pb_attachment p) vault (pb_version p) (pb_build p) (pb_profile p) (pb_at p),
   mkHeadRecord (pb_version p) (pp_Fingerprint (pb_profile p)) (pb_attachment p) (pb_at p)).
(** Publications of the queue carry no provider authorization of their own: the
    queue has checked the consent of every waiter. *)
Definition lexical_env_of (env : publication_env) : lexical_env :=
  mkLexicalEnv (pe_vault env) (pe_versions env) (pe_suppressed env) (pe_held env) (mkConsentDb ∅ None ∅ ∅) 0.

#[local] Instance lexical_catalog : RenditionCatalog := {|
  catalog := lexical_tables;
  build_record := RenditionBuildRecord;
  RenditionJobs.normalizeRenditionBuildRecord r :=
    match normalizeRenditionBuildRecord r with Ok b => Some b | Err _ => None end;
  br_ID := rb_ID;
  br_identity b := header_build_identity (rb_Header b);
  RenditionJobs.loadRenditionBuild c id := (header_build_identity ∘ rb_Header) <$> loadRenditionBuild (lt_tables c) id;
  target_present := lexical_target;
  rendition_heads c := fst <$> lt_heads c;
  attachment_build c a := ar_BuildID <$> lt_attachments c !! a;
  RenditionJobs.insert_build c b := with_rendition_tables c <$> insert_build (lt_tables c) b;
  RenditionJobs.stageLexicalGenerationTx c g := prod_map id lg_ID <$> stageLexicalGenerationTx c g;
  RenditionJobs.publishRenditionAttachmentsAndLexicalHeadsTx c env pairs g :=
    fst <$> publishRenditionAttachmentsAndLexicalHeadsTx (lexical_env_of env) c (pe_profiles env)
              (records_of (pe_vault env) <$> pairs) g None;
  delete_version_authority := delete_versions;
|}.

(** ** The laws *)

Lemma children_builds c b c' : insertRenditionBuildChildrenTx c b = Ok c' → rc_builds c' = rc_builds c.
Proof.
  unfold insertRenditionBuildChildrenTx. intros Hi.
  apply bind_Ok_iff in Hi as (c1 & H1' & (c2 & H2' & H3')%bind_Ok_iff).
  assert (rc_builds c1 = rc_builds c) as He1.
  { eapply (foldM_inv (λ x, rc_builds x = rc_builds c)); [|exact eq_refl|exact H1']. intros x a x' _ <- Hx. unfold insert_artifact in Hx.
    res_inv1. by subst. }
  assert (rc_builds c2 = rc_builds c1) as He2.
  { eapply (foldM_inv (λ x, rc_builds x = rc_builds c1)); [|exact eq_refl|exact H2']. intros x a x' _ <- Hx. unfold insert_unit in Hx.
    res_inv1. by subst. }
  rewrite <- He1, <- He2. eapply (foldM_inv (λ x, rc_builds x = rc_builds c2)); [|exact eq_refl|exact H3'].
  intros x a x' _ <- Hx. unfold insert_segment in Hx. res_inv1. by subst.
Qed.

Lemma insert_build_keeps c b c' :
  insert_build c b = Ok c' →
  (∀ id, is_Some (rc_builds c !! id) → is_Some (rc_builds c' !! id)) ∧ is_Some (rc_builds c' !! rb_ID b).
Proof.
  unfold insert_build. intros Hi. res_inv1. cbv zeta in Hi. case_match.
  - repeat res_inv1. subst. rename select (insertRenditionBuildChildrenTx _ _ = _) into Hc. apply children_builds in Hc. rewrite Hc. cbn.
    split; [|by rewrite lookup_insert_eq]. intros id Hid. apply lookup_insert_is_Some'. by right.
  - destruct (loadRenditionBuild _ _) as [stored|e] eqn:Hl in Hi; [|by destruct e]. repeat res_inv1. subst. cbn. split; [done|].
    unfold loadRenditionBuild in Hl. res_inv1. rename select (from_lookup _ _ = _) into Hb. apply from_lookup_Ok_iff in Hb.
    cbn in Hb. by rewrite Hb.
Qed.

Lemma stage_generation_keeps c g c' generation :
  stageLexicalGenerationTx c g = Ok (c', generation) →
  lg_ID generation = g ∧ lt_tables c' = lt_tables c ∧ is_Some (lt_generations c' !! g) ∧
  (∀ g', is_Some (lt_generations c !! g') → is_Some (lt_generations c' !! g')).
Proof.
  assert (∀ x generation, loadAndValidateLexicalGenerationTx x g = Ok generation → lg_ID generation = g ∧ is_Some (lt_generations x !! g)) as Hload.
  { intros x gen Hl. unfold loadAndValidateLexicalGenerationTx in Hl. cbv zeta in Hl. res_inv1.
    rename select (from_lookup _ _ = _) into Hr. apply from_lookup_Ok_iff in Hr. rewrite Hr.
    apply bind_Ok_iff in Hl as ([? ?] & _ & (? & _ & [= <-])%bind_Ok_iff). by split. }
  unfold stageLexicalGenerationTx, stageLexicalGenerationRowsTx. intros Hs.
  destruct (loadAndValidateLexicalGenerationTx c g) as [stored|e] eqn:Hl.
  { injection Hs as <- <-. by destruct (Hload c stored Hl). }
  destruct e; try done. cbv zeta in Hs. res_inv1. res_inv1. do 2 res_inv1. injection Hs as <- <-.
  rename select (loadAndValidateLexicalGenerationTx _ _ = _) into Hnew. apply Hload in Hnew as [Hid Hg]. split; [done|].
  rename select (indexLexicalSegmentsTx _ _ = _) into Hi. unfold indexLexicalSegmentsTx in Hi.
  apply bind_Ok_iff in Hi as ([index memo] & _ & [= <-]).
  rename select (foldM (insert_member g) _ _ = _) into Hm.
  eapply (foldM_inv (λ x, lt_tables x = lt_tables c ∧ lt_generations x = <[g := _]> (lt_generations c))) in Hm as [Ht Hgens];
    [|intros x b x' _ [<- <-] Hx; unfold insert_member in Hx; repeat res_inv1; by subst|by split].
  split_and!; [exact Ht|exact Hg|]. intros g' Hg'. cbn. rewrite Hgens. apply lookup_insert_is_Some'. by right.
Qed.

Lemma moved_heads (vault : string) (pairs : list renditionPublicationPair) (h : gmap (string * string) (string * Z)) :
  fst <$> foldl move_head h (records_of vault <$> pairs) = foldl (λ h p, <[head_key p := pb_attachment p]> h) (fst <$> h) pairs.
Proof. revert h; induction pairs as [|p pairs IH]; intros h; [done|]. cbn. rewrite IH. unfold move_head. by rewrite fmap_insert. Qed.

Lemma publish_head_keeps c held g :
  lt_tables (publishLexicalHeadTx c held g) = lt_tables c ∧ lt_heads (publishLexicalHeadTx c held g) = lt_heads c ∧
  ∀ g', held g' = true → is_Some (lt_generations c !! g') → is_Some (lt_generations (publishLexicalHeadTx c held g) !! g').
Proof.
  rewrite publish_head_eq. destruct (collected (headed c g) held) as (l & Hl & [Ht _ Hh _ Hgen _ _ _] & _).
  destruct (headed_fields c g) as (Ht' & _ & Hh' & _ & Hgen' & _). rewrite Ht, Ht', Hh, Hh'. split_and!; [done..|].
  intros g' Hheld Hg'. rewrite Hgen, Hgen', decide_False; [done|]. rewrite Hl. intros (_ & _ & ?). congruence.
Qed.

(** The tables of the store keep every law that the queue relies on. *)
#[local] Instance lexical_catalog_laws : RenditionCatalogLaws.
Proof.
  split; cbn.
  - intros c id b Hl. res_inv1. rename select (loadRenditionBuild _ _ = _) into Hb. unfold loadRenditionBuild in Hb. res_inv1.
    rename select (from_lookup _ _ = _) into Hr. apply from_lookup_Ok_iff in Hr. apply bool_decide_eq_true. by rewrite Hr.
  - intros c b c' Hi. res_inv1. subst. rename select (insert_build _ _ = _) into Hb. apply insert_build_keeps in Hb as [Hk Hp].
    split; [|by apply bool_decide_eq_true]. intros [] id; cbn; try done. rewrite !bool_decide_eq_true. apply Hk.
  - intros c g c' g' Hs. res_inv1. destruct a as [c1 gen]. injection Hs as -> ->.
    rename select (stageLexicalGenerationTx _ _ = _) into Hst. apply stage_generation_keeps in Hst as (-> & Ht & Hg & Hk).
    split_and!; [done| |by apply bool_decide_eq_true]. intros [] id; cbn; try done; rewrite !bool_decide_eq_true; [by rewrite Ht|apply Hk].
  - intros c env pairs g c' Hp. res_inv1. destruct a as [c1 p1]. cbn in Hp. subst c1.
    rename select (publishRenditionAttachmentsAndLexicalHeadsTx _ _ _ _ _ _ = _) into Hpub.
    unfold publishRenditionAttachmentsAndLexicalHeadsTx in Hpub. do 2 res_inv1. apply bind_Ok_iff in Hpub as ([c2 p2] & Hf & Hpub).
    do 2 res_inv1. injection Hpub as <- <-. apply publish_pairs_moved in Hf as ([Ht Hg _ _] & _ & Hh).
    destruct (publish_head_keeps c2 (pe_held env) g) as (Ht' & Hh' & Hk). split; [|by rewrite Hh', Hh, moved_heads].
    intros [] id Hheld; cbn; try done; rewrite !bool_decide_eq_true; [by rewrite Ht', Ht|]. intros Hid. apply Hk; [by apply Hheld|by rewrite Hg].
  - by intros c versions [] id.
Qed.

Lemma queue_insert_ok (c : lexical_tables) r b c' :
  lexical_ok c → normalizeRenditionBuildRecord r = Ok b → RenditionJobs.insert_build c b = Ok c' → lexical_ok c'.
Proof.
  intros Hok Hn Hi. cbn in Hi. res_inv1. subst. apply (lexical_ok_grow c); try done.
  eapply insert_build_core; [apply Hok|by eexists|done].
Qed.
Lemma queue_stage_ok (c : lexical_tables) g c' g' :
  lexical_ok c → RenditionJobs.stageLexicalGenerationTx c g = Ok (c', g') → lexical_ok c'.
Proof.
  intros Hok Hs. cbn in Hs. res_inv1. destruct a as [c1 gen]. injection Hs as -> ->. by eapply stage_generation_ok.
Qed.
Lemma queue_publish (c : lexical_tables) env pairs g c' :
  lexical_ok c → RenditionJobs.publishRenditionAttachmentsAndLexicalHeadsTx c env pairs g = Ok c' →
  lexical_ok c' ∧ lt_head c' = Some g ∧ lt_tables c' = lt_tables c ∧
  (∀ p, p ∈ pairs → built c' (pb_attachment p) (pb_build p)) ∧
  fst <$> lt_heads c' = foldl (λ h p, <[head_key p := pb_attachment p]> h) (fst <$> lt_heads c) pairs.
Proof.
  intros Hok Hp. cbn in Hp. res_inv1. destruct a as [c1 p1]. cbn in Hp. subst c1.
  rename select (publishRenditionAttachmentsAndLexicalHeadsTx _ _ _ _ _ _ = _) into Hpub.
  pose proof (publish_ok _ _ _ _ _ _ _ _ (proj1 Hok) Hpub) as Hok'.
  unfold publishRenditionAttachmentsAndLexicalHeadsTx in Hpub. do 2 res_inv1. apply bind_Ok_iff in Hpub as ([c2 p2] & Hf & Hpub).
  do 2 res_inv1. injection Hpub as <- <-. apply publish_pairs_moved in Hf as ([Ht _ _ _] & Hb & Hh).
  rewrite publish_head_eq in *. destruct (collected (headed c2 g) (pe_held env)) as (l & _ & [Ht' Ha' Hh' Hd' _ _ _ _] & _).
  destruct (headed_fields c2 g) as (Ht2 & Ha2 & Hh2 & _ & _ & _ & _ & Hd2 & _). split_and!; [done|by rewrite Hd'|congruence| |].
  - intros p Hp. unfold built. rewrite Ha', Ha2. apply (Hb (records_of (pe_vault env) p)). by apply list_elem_of_fmap_2.
  - by rewrite Hh', Hh2, Hh, moved_heads.
Qed.

(** ** The queue keeps the tables complete *)

Context (vault : string).

Lemma claim_catalog id owner at_ lease d : rd_catalog (ClaimRenditionJob id owner at_ lease d).1 = rd_catalog d.
Proof. by destruct (ClaimRenditionJob_outcome id owner at_ lease d). Qed.

Lemma claim_scan_catalog owner at_ lease ids d : rd_catalog (claim_scan owner at_ lease ids d).1 = rd_catalog d.
Proof.
  revert d; induction ids as [|id ids IH]; intros d; [done|]. cbn. pose proof (claim_catalog id owner at_ lease d) as Hc.
  destruct (ClaimRenditionJob id owner at_ lease d) as [d1 [claim|e]]; cbn in *; [done|]. case_bool_decide; cbn; [by rewrite IH|done].
Qed.

Lemma finish_catalog claim at_ state code d : rd_catalog (finishRenditionJobClaim claim at_ state code d).1 = rd_catalog d.
Proof.
  apply (run_tx_inv (λ d', rd_catalog d' = rd_catalog d)); [done|]. intros d' a Hb. res_inv1. cbv zeta in Hb.
  case_match; by injection Hb as <- _.
Qed.

Lemma enqueue_catalog request now d : rd_catalog (EnqueueRenditionJob vault request now d).1 = rd_catalog d.
Proof.
  destruct (EnqueueRenditionJob vault request now d) as [d' answer] eqn:He. cbn.
  apply EnqueueRenditionJob_enqueued in He as [[(i & source & j0 & d3 & _ & _ & _ & Hj & _ & Hc & _ & Hlast & _)]|[-> _]]; [|done].
  destruct Hlast as [[_ Hw]|[_ Hr]]; [by rewrite (proj1 (proj2 (proj2 (only_waiters_eq _ _ Hw))))|].
  eapply reuse_or_restart_cases in Hr as [[_ ->]|[(? & ? & _ & _ & _ & ->)|[_ ->]]]; [done..|]. by rewrite Hj, lookup_insert_eq.
Qed.

Lemma work_catalog claim at_ d : rd_catalog (RenditionJobWorkByClaim vault claim at_ d).1 = rd_catalog d.
Proof.
  apply (run_tx_inv (λ d', rd_catalog d' = rd_catalog d)); [done|]. intros d' a Hb. res_inv1. cbv zeta in Hb. do 2 res_inv1.
  destruct (j_selected _) as [waiterID|]; [repeat res_inv1; by injection Hb as <- _|].
  destruct (selectRenditionJobWaiterTx _ _ _ _ _) as [d1 [[waiterID authorization]|e]] eqn:Hsel;
    apply select_from_only in Hsel as (_ & _ & Hc & _)%only_waiters_eq; repeat res_inv1; by injection Hb as <- _.
Qed.

Lemma begin_catalog claim waiterID at_ snapshot d : rd_catalog (BeginRenditionProvider vault claim waiterID at_ snapshot d).1 = rd_catalog d.
Proof.
  apply (run_tx_inv (λ d', rd_catalog d' = rd_catalog d)); [done|]. intros d' a Hb. do 2 res_inv1. cbv zeta in Hb. do 3 res_inv1.
  destruct (mbind _ _); [by injection Hb as <- _|]. destruct (_ || _); [|done].
  destruct (selectRenditionJobWaiterTx _ _ _ _ _) as [d1 [[next authorization]|selectErr]] eqn:Hsel;
    apply select_from_only in Hsel as (_ & _ & Hc & _)%only_waiters_eq;
    pose proof (only_waiters_eq _ _ (reject_waiting_only waiterID (cl_JobID claim) at_ d)) as (_ & _ & Hc' & _); rewrite <- Hc', <- Hc;
    repeat res_inv1; by injection Hb as <- _.
Qed.

(** Only staging, publication, deletion and collection touch the catalog; the
    first three never leave it incomplete. *)
Lemma queue_step_ok d op :
  lexical_ok (rd_catalog d) → (∀ c, op = ROCollect c → lexical_ok c) → lexical_ok (rd_catalog (rendition_step vault d op)).
Proof.
  intros Hok Hcollect. destruct op; cbn [rendition_step]; try exact Hok.
  - by rewrite enqueue_catalog.
  - by rewrite claim_catalog.
  - unfold ClaimNextRenditionJob. by rewrite claim_scan_catalog.
  - apply (run_tx_inv (λ d' : @rendition_db lexical_catalog, lexical_ok (rd_catalog d'))); [done|]. intros d' a Hb. repeat res_inv1. by injection Hb as <- _.
  - by rewrite work_catalog.
  - by rewrite begin_catalog.
  - apply (run_tx_inv (λ d' : @rendition_db lexical_catalog, lexical_ok (rd_catalog d'))); [done|]. intros d' a Hb. repeat res_inv1. by injection Hb as <- _.
  - apply (run_tx_inv (λ d' : @rendition_db lexical_catalog, lexical_ok (rd_catalog d'))); [done|]. intros d' a Hb. repeat res_inv1. by injection Hb as <- _.
  - unfold MarkRenditionJobOperatorRequired. by rewrite finish_catalog.
  - unfold MarkRenditionJobFailed. case_bool_decide; [by rewrite finish_catalog|done].
  - apply (run_tx_inv (λ d' : @rendition_db lexical_catalog, lexical_ok (rd_catalog d'))); [done|]. intros d' a Hb. res_inv1. cbv zeta in Hb. repeat res_inv1.
    injection Hb as <- _. cbn [rd_catalog with_roots with_catalog]. rename select (_ = Some _) into Hn.
    cbn in Hn. destruct (normalizeRenditionBuildRecord record) eqn:Hr; [|done]. injection Hn as ->.
    rename select (RenditionJobs.stageRenditionBuildTx _ _ = _) into Hs. unfold RenditionJobs.stageRenditionBuildTx in Hs. res_inv1.
    by eapply queue_insert_ok.
  - apply (run_tx_inv (λ d' : @rendition_db lexical_catalog, lexical_ok (rd_catalog d'))); [done|]. intros d' a Hb. do 2 res_inv1. cbv zeta in Hb. do 2 res_inv1.
    rename select (RenditionJobs.stageLexicalGenerationTx _ _ = _) into Hs.
    destruct_and?. case_match. res_inv1. injection Hb as <- _. cbn [rd_catalog with_roots with_catalog]. by eapply queue_stage_ok.
  - destruct (PublishRenditionJob vault readers claim at_ d) as [d' [p|e]] eqn:Hp; cbn [fst].
    + apply PublishRenditionJob_published in Hp.
      destruct Hp as [(j & c & authorized & rejected & _ & _ & _ & _ & _ & _ & Hc & _ & ->)].
      apply queue_publish in Hc as (Hok' & _); [|done]. cbn.
      by destruct (marked_tables at_ d c (rw_ID ∘ fst <$> authorized) rejected) as (_ & -> & _).
    + apply PublishRenditionJob_published in Hp. by subst.
  - destruct (deleteRenditionAuthorityForVersionsTx _ _ _ _) as [d'|e] eqn:Hd; [|done]. cbn.
    apply (delete_versions_sound vault (λ _, True) (λ _, True)) in Hd as ([-> | ->] & _); [done|]. by apply delete_versions_ok.
  - destruct (purgeRenditionJobWaitersTx _ _ _ _) as [[d' scopes]|e] eqn:Hd; [|done]. cbn.
    by apply (purge_sound vault (λ _, True) (λ _, True)) in Hd as (-> & _).
  - by apply Hcollect.
Qed.

Lemma queue_run_ok d ops :
  lexical_ok (rd_catalog d) → (∀ c, ROCollect c ∈ ops → lexical_ok c) → lexical_ok (rd_catalog (rendition_run vault d ops)).
Proof.
  revert d; induction ops as [|op ops IH]; intros d Hok Hcollect; [done|]. cbn. apply IH.
  - apply queue_step_ok; [done|]. intros c ->. apply Hcollect. by left.
  - intros c Hc. apply Hcollect. by right.
Qed.

(** C11: The tables of the store implement the catalog that the rendition queue
    is proved against.  They keep its laws: what is loaded, inserted or staged
    is present, nothing that is held disappears, and a publication moves
    exactly the heads it is asked to; and through every run of the queue they
    stay complete, with the lexical head covering all rendition heads, if what
    the collector leaves is. *)
Theorem lexical_catalog_refines :
  RenditionCatalogLaws ∧
  (∀ (d : rendition_db) ops, lexical_ok (rd_catalog d) → (∀ c, ROCollect c ∈ ops → lexical_ok c) →
     lexical_ok (rd_catalog (rendition_run vault d ops))).
Proof. split; [apply lexical_catalog_laws|apply queue_run_ok]. Qed.

(** ** From a job to the search *)

(** A waiter that a publication leaves published was authorized. *)
Lemma published_authorized d c ids rejected at_ wid w w' :
  rd_waiters d !! wid = Some w → w_state w = WaiterWaiting →
  rd_waiters (foldl (mark_waiter WaiterRejected at_) (foldl (mark_waiter WaiterPublished at_) (with_catalog d c) ids) rejected) !! wid = Some w' →
  w_state w' = WaiterPublished → wid ∈ ids.
Proof.
  intros Hw Hwait. rewrite !fold_mark_lookup. cbn. rewrite Hw. destruct (bool_decide (wid ∈ rejected)); cbn.
  - case_bool_decide; cbn; intros [= <-]; done.
  - case_bool_decide as Hin; cbn; intros [= <-]; [done|]. by rewrite Hwait.
Qed.

(** What a publication leaves of the job of a waiter that it has published: a
    head of the waiter's version, on the build of the job. *)
Lemma published_head readers claim at_ d d' p wid w w' :
  lexical_ok (rd_catalog d) → PublishRenditionJob vault readers claim at_ d = (d', Ok p) →
  rd_waiters d !! wid = Some w → w_state w = WaiterWaiting → rd_waiters d' !! wid = Some w' → w_state w' = WaiterPublished →
  lexical_ok (rd_catalog d') ∧ lt_head (rd_catalog d') = Some (pu_LexicalGenerationID p) ∧
  ∃ profile a t row, lt_heads (rd_catalog d') !! (w_version w, profile) = Some (a, t) ∧
    lt_attachments (rd_catalog d') !! a = Some row ∧ rows_of (rd_catalog d') (ar_BuildID row) = rows_of (rd_catalog d) (cl_JobID claim).
Proof.
  intros Hok He Hw Hwait Hw' Hpub. apply PublishRenditionJob_published in He.
  destruct He as [(j & c & authorized & rejected & _ & _ & _ & _ & Hsplit & _ & Hc & _ & ->)].
  apply split_waiters_spec in Hsplit as (_ & Hauth & _). apply queue_publish in Hc as (Hok' & Hhead & Ht & Hb & Hheads); [|done].
  assert (rd_catalog (with_roots (set_job (cl_JobID claim) (complete_row at_ j)
    (foldl (mark_waiter WaiterRejected at_) (foldl (mark_waiter WaiterPublished at_) (with_catalog d c) (rw_ID ∘ fst <$> authorized)) rejected))
    (release_job_roots (rd_roots d) (cl_JobID claim) (cl_Epoch claim))) = c) as ->.
  { cbn. by destruct (marked_tables at_ d c (rw_ID ∘ fst <$> authorized) rejected) as (_ & -> & _). }
  split_and!; [done..|]. change (rd_waiters _ !! wid = Some w') with (rd_waiters (foldl (mark_waiter WaiterRejected at_)
    (foldl (mark_waiter WaiterPublished at_) (with_catalog d c) (rw_ID ∘ fst <$> authorized)) rejected) !! wid = Some w') in Hw'.
  pose proof (published_authorized d c _ _ at_ wid w w' Hw Hwait Hw' Hpub) as (a & Ha & Hin)%list_elem_of_fmap.
  destruct (Hauth a Hin) as (wid' & w1 & Hv & _ & Hw1 & _ & _). cbn in Ha. rewrite Hv in Ha. cbn in Ha. subst wid'.
  assert (w1 = w) as -> by congruence. set (pq := pair_of (cl_JobID claim) at_ a).
  assert (pq ∈ pair_of (cl_JobID claim) at_ <$> authorized) as Hq by by apply list_elem_of_fmap_2.
  destruct (fold_heads (pair_of (cl_JobID claim) at_ <$> authorized) (fst <$> lt_heads (rd_catalog d)) (head_key pq))
    as [(q' & Hq' & Hk & Hl)|[Hno _]]; [|exfalso; by apply (Hno pq)].
  destruct (Hb q' Hq') as (row & Hrow & Hbuild). rewrite <- Hheads in Hl. rewrite lookup_fmap in Hl.
  apply fmap_Some in Hl as ([a' t] & Hl & Ha'). cbn in Ha'. subst a'.
  apply list_elem_of_fmap in Hq' as (a1 & -> & _).
  assert (head_key pq = (w_version w, pp_Fingerprint (pb_profile pq))) as Hkey by (unfold head_key, pq, pair_of; cbn; by rewrite Hv).
  rewrite Hkey in Hl. exists (pp_Fingerprint (pb_profile pq)), (pb_attachment (pair_of (cl_JobID claim) at_ a1)), t, row.
  split_and!; [exact Hl|exact Hrow|].
  rewrite Hbuild. change (pb_build (pair_of (cl_JobID claim) at_ a1)) with (cl_JobID claim). by apply rows_of_tables.
Qed.

(** C7: What a job publishes is found.  After a publication, the generation of
    the job is the lexical head, and for every waiter that the publication has
    published, a live node whose current version is the waiter's, and which
    passes the filters of a search, is on a page of the search for any query
    that matches a row of the job's build: as a name match, if the query
    matches the node's name as well, and else as a content match.  The nodes
    may be those of any state of the tree. *)
Theorem published_job_is_found readers claim at_ d d' p wid w w' r q (tree : db) cache limit opts i row :
  lexical_ok (rd_catalog d) → PublishRenditionJob vault readers claim at_ d = (d', Ok p) →
  rd_waiters d !! wid = Some w → w_state w = WaiterWaiting → rd_waiters d' !! wid = Some w' → w_state w' = WaiterPublished →
  r ∈ rows_of (rd_catalog d) (cl_JobID claim) → fq_matches q (lm_text r) = true →
  nodes tree !! i = Some row → trashed_at row = None → current_version_id row = Some (w_version w) →
  is_Some (current_version tree i row) → search_filter tree opts i row = true → (0 < limit)%Z →
  lt_head (rd_catalog d') = Some (pu_LexicalGenerationID p) ∧
  ∃ offset hits truncated, (0 ≤ offset)%Z ∧
    SearchPageWithOptions q tree (rd_catalog d') cache limit offset opts = Ok (hits, truncated) ∧
    mkHit (scanNode tree i row) (pathOf tree i) (if fq_matches q (name row) then SearchMatchName else SearchMatchContent) ∈ hits.
Proof.
  intros Hok He Hw Hwait Hw' Hpub Hr Hmatch Hi Hlive Hcur [cv Hcv] Hf Hlimit.
  destruct (published_head readers claim at_ d d' p wid w w' Hok He Hw Hwait Hw' Hpub) as (Hok' & Hhead & profile & a & t & arow & Hl & Ha & Hrows).
  split; [exact Hhead|].
  assert (found tree (if fq_matches q (name row) then SearchMatchName else SearchMatchContent) (i, row)
    ∈ all_hits q tree (rd_catalog d') cache opts) as [k Hk]%list_elem_of_lookup.
  { unfold all_hits. apply elem_of_app. destruct (fq_matches q (name row)) eqn:Hn; [left|right]; apply list_elem_of_fmap_2.
    - by apply elem_of_name_hits.
    - apply elem_of_content_hits; [exact Hok'|]. split_and!; try done. exists (w_version w), cv. split_and!; try done.
      unfold content_matches. rewrite Hhead. exists profile, a, t, arow, r. by rewrite Hrows. }
  eexists (Z.of_nat k), _, _. split_and!; [lia|apply search_page_all; [exact Hok'|exact Hlimit|lia]|].
  by eapply page_has.
Qed.
End instance.

(** ** A sample *)

#[local] Existing Instance fips_sha256.
#[local] Existing Instance sample_contracts.
#[local] Existing Instance lexical_catalog.
#[local] Instance sample_normalizer : Normalizer := ascii_normalizer.
#[local] Instance sample_kit : Kit := {| parses_hash := λ _, true; canonical_hash := λ _, true; BlobCompressed := 1 |}.
(** Canonical JSON is the only JSON of the sample. *)
#[local] Instance sample_documents : CatalogDocuments.
Proof.
  refine {| canonicalize := λ s, if String.eqb s "" then None else Some s; legacyPlainTextProfile := None |}.
  - intros s t. destruct (String.eqb s "") eqn:He; [done|]. intros [= <-]. by rewrite He.
  - intros s t. destruct (String.eqb s "") eqn:He; [done|]. intros [= <-]. by apply String.eqb_neq in He.
Defined.

Definition uuid_vault : string := "22222222-2222-4222-8222-222222222222".
Definition sample_roles : list capturedArtifactRoleV1 := [mkArtifactRole 1 1 catalogArtifactNormalizedEvidence].
Definition sample_evidence : string := "aaaabbbbccccddddeeeeffff0000111122223333444455556666777788889999".
Definition lexical_profile : ProcessingProfileRecord :=
  mkProfileRecord sample_digest "{}" sample_evidence sample_source "retention" "attachment" "consent" sample_digest "local".
Definition lexical_request : RenditionJobRequest :=
  mkJobRequest sample_version lexical_profile 1 sample_roles sample_source sample_authorization.

Definition lexical_header : build_header :=
  mkHeader uuid_vault sample_source sample_evidence sample_source (digestCatalogJSON (policy_json sample_roles)) 1 sample_roles
    sample_digest "operation" "{}" sample_digest sample_digest sample_digest "complete" false false []
    "2024-05-06T07:08:09.000000000Z" 1.
Definition lexical_job_id : string :=
  Eval vm_compute in renditionSharedBuildID uuid_vault sample_source sample_evidence sample_source
    (digestCatalogJSON (policy_json sample_roles)).
Definition lexical_build : RenditionBuildRecord :=
  mkBuild lexical_job_id lexical_header
    [mkArtifactRecord "evidence" catalogArtifactNormalizedEvidence sample_evidence "" 7 sample_evidence RenditionArtifactVerified]
    [mkUnitRecord "unit" "page" 0 sample_digest ["Title"] (mkLocator 1 "one" "page" "" 1)]
    [mkSegmentRecord "second" "unit" 0 0 5 sample_digest "hello"; mkSegmentRecord "first" "unit" 1 5 11 sample_digest " world"].

Definition sample_blobs : list lexical_op :=
  [OpRecordBlob sample_source 12 (MkPhysical "zstd" 3 true "" true) "g1";
   OpRecordBlob sample_evidence 7 (MkPhysical "zstd" 3 true "d41d8cd98f00b204e9800998ecf8427e" true) "g2"].
Definition sample_embedding : embedding_tables :=
  mkEmbeddingTables {["set" := "another attachment"]} {[(sample_version, pp_Fingerprint lexical_profile, "binding", "chunk") := "set"]} ∅
    {["set" := sample_version]}.
Notation sample_stored := (foldl lexical_step (no_lexical demo_catalog sample_embedding) sample_blobs).
Example sample_normalizes : normalizeRenditionBuildRecord lexical_build = Ok lexical_build.
Proof. vm_compute. reflexivity. Qed.
Notation sample_built := (foldl lexical_step sample_stored [OpStageBuild uuid_vault ∅ lexical_build]).
Example sample_build_staged : is_Ok (RenditionBuildByID (lt_tables sample_built) lexical_job_id) = true.
Proof. vm_compute. reflexivity. Qed.

Lemma sample_stored_ok : lexical_ok sample_stored.
Proof. apply lexical_run_ok, no_lexical_ok. Qed.

Lemma StageRenditionBuild_roundtrip_witness :
  ∃ c', StageRenditionBuild uuid_vault (lt_tables sample_stored) ∅ lexical_build = Ok c' ∧
    RenditionBuildByID c' lexical_job_id = Ok (rehashed_build (blob_md5 (lt_tables sample_stored)) lexical_build).
Proof.
  assert (bool_decide (stage_refusal uuid_vault (lt_tables sample_stored) ∅ lexical_build = None) = true) as Hok
    by (vm_compute; reflexivity).
  apply bool_decide_eq_true in Hok.
  pose proof (StageRenditionBuild_roundtrip uuid_vault (lt_tables sample_stored) ∅ lexical_build lexical_build
    (lo_tables _ (proj1 sample_stored_ok)) sample_normalizes) as Hs.
  rewrite Hok in Hs. destruct Hs as (c' & Hs & _ & Hr & _). exists c'. split; [exact Hs|exact Hr].
Defined.

Lemma sample_built_ok : lexical_ok sample_built.
Proof. exact (lexical_run_ok sample_stored [OpStageBuild uuid_vault ∅ lexical_build] sample_stored_ok). Qed.
Lemma lexicalManifestDigest_exact_witness :
  lexicalManifestDigest [mkManifestRow "b" "2" "y"; mkManifestRow "b" "1" "x"] =
  lexicalManifestDigest [mkManifestRow "b" "1" "x"; mkManifestRow "b" "2" "y"].
Proof. apply (proj1 (lexicalManifestDigest_exact _ _)). apply perm_swap. Defined.

Lemma stageLexicalGenerationTx_exact_witness :
  ∃ c' generation, stageLexicalGenerationTx sample_built sample_generation = Ok (c', generation) ∧
    (sample_generation, lexical_job_id) ∈ lt_members c'.
Proof.
  destruct (stageLexicalGenerationTx_exact sample_built sample_generation sample_built_ok)
    as (c' & generation & Hs & _ & _ & _ & _ & Hm & _).
  assert (bool_decide (is_Some (rc_builds (lt_tables sample_built) !! lexical_job_id)) = true) as Hb by (vm_compute; reflexivity).
  apply bool_decide_eq_true in Hb. exists c', generation. split; [exact Hs|]. apply Hm; [vm_compute; reflexivity|exact Hb].
Defined.

(** *** One job *)

Definition lexical_consent : consent_db :=
  consent_step uuid_vault sample_vault (OpGrant (mkGrantRequest sample_authorization None) "grant" 5).
Notation lexical_start :=
  (@mkRdb lexical_catalog ∅ ∅ ∅ lexical_consent ∅ {[sample_version := sample_source]} ∅ sample_stored).
Definition lexical_claim : RenditionJobClaim := mkClaim lexical_job_id "worker" 1 0 (20 + minute) RenditionPhaseQueued "".
Definition lexical_waiter : string :=
  Eval vm_compute in match (EnqueueRenditionJob uuid_vault lexical_request 10 lexical_start).2 with
                     | Ok p => rw_ID p.2
                     | Err _ => ""
                     end.
Definition lexical_ops : list rendition_op :=
  [ROEnqueue lexical_request 10; ROClaim lexical_job_id "worker" 20 minute; ROWork lexical_claim 30;
   ROBegin lexical_claim lexical_waiter 40 (Some (sample_source, 35%Z)); ROBuild lexical_claim lexical_build 50;
   ROGeneration lexical_claim sample_generation 60].
Notation lexical_staged := (rendition_run uuid_vault lexical_start lexical_ops).
Notation lexical_published := (PublishRenditionJob uuid_vault sample_readers lexical_claim 70 lexical_staged).

Example lexical_publishes : lexical_published.2 = Ok (mkPublication lexical_job_id sample_generation 1 0).
Proof. vm_compute. reflexivity. Qed.
Example lexical_finds :
  matched_rows (rd_catalog lexical_published.1) sample_generation (String.eqb " world") =
  [(sample_version, mkManifestRow lexical_job_id "first" " world")].
Proof. vm_compute. reflexivity. Qed.

Notation sample_lexical :=
  (foldl lexical_step sample_stored [OpStageBuild uuid_vault ∅ lexical_build; OpStageGeneration sample_generation]).
Lemma sample_lexical_ok : lexical_ok sample_lexical.
Proof.
  exact (lexical_run_ok sample_stored [OpStageBuild uuid_vault ∅ lexical_build; OpStageGeneration sample_generation] sample_stored_ok).
Qed.

Lemma lexical_ops_collect_nothing c : ROCollect c ∉ lexical_ops.
Proof.
  intros Hc. apply list_elem_of_In in Hc. unfold lexical_ops in Hc. cbn [List.In] in Hc.
  repeat (destruct Hc as [Hc|Hc]; [discriminate Hc|]). exact Hc.
Qed.
Lemma lexical_catalog_refines_witness : lexical_ok (rd_catalog lexical_staged).
Proof.
  refine (proj2 (lexical_catalog_refines uuid_vault) lexical_start lexical_ops sample_stored_ok _).
  intros c Hc. by destruct (lexical_ops_collect_nothing c Hc).
Defined.
Lemma lexical_staged_ok : lexical_ok (rd_catalog lexical_staged).
Proof.
  refine (queue_run_ok uuid_vault lexical_start lexical_ops sample_stored_ok _).
  intros c Hc. by destruct (lexical_ops_collect_nothing c Hc).
Qed.

(** The tree of the sample: a directory whose name is a word of the document,
    the document, and a document in the trash. *)
Definition sample_node (parent : option Z) (label : string) (k : node_kind) (version trashed : option string) : node_row :=
  MkNodeRow parent label k version 1 "2024-05-06T07:08:09.000000000Z" "2024-05-06T07:08:09.000000000Z" trashed None None.
Definition sample_document : node_row := sample_node (Some 1%Z) "letter" file (Some sample_version) None.
Definition sample_tree : db :=
  MkDb {[1%Z := sample_node None "" dir None None; 2%Z := sample_document;
         3%Z := sample_node (Some 1%Z) "hello" dir None None;
         4%Z := sample_node (Some 1%Z) "hello" file (Some "old") (Some "2024-05-06T07:08:09.000000000Z")]} 4
    {[sample_version := MkVersionRow 2 sample_source 12 (Some "text/plain; charset=utf-8") "2024-05-06T07:08:09.000000000Z" 1 "operation" content_create None]}
    ∅ ∅ ∅ false.
(** A query whose word is a whole text. *)
Definition sample_query (word : string) : fts_query := mkQuery (String.eqb word) (λ i, i) (λ _, 0%Z) (λ _, 0%Z).
(** A text cache that knows the document by another text. *)
Definition sample_cache : text_cache := mkCache {[(sample_source, "text/plain") := "greeting"]} {[sample_version]}.
Definition text_files : ScopeOptions := mkScope "" "text/plain" 1 "" "" true.

Lemma published_job_is_found_witness :
  ∃ offset hits truncated,
    SearchPageWithOptions (sample_query " world") sample_tree (rd_catalog lexical_published.1) sample_cache 10 offset text_files =
      Ok (hits, truncated) ∧ mkHit (scanNode sample_tree 2 sample_document) "/letter" SearchMatchContent ∈ hits.
Proof.
  pose proof lexical_publishes as Hp. destruct lexical_published as [d' answer] eqn:He. cbn [fst snd] in Hp |- *. subst answer.
  pose proof lexical_staged_ok as Hok.
  destruct (rd_waiters lexical_staged !! lexical_waiter) as [w|] eqn:Hw; [|vm_compute in Hw; discriminate].
  assert ((λ w, (w_state w, w_version w)) <$> rd_waiters lexical_staged !! lexical_waiter = Some (WaiterWaiting, sample_version)) as Hs
    by (vm_compute; reflexivity).
  rewrite Hw in Hs. apply (inj Some) in Hs. injection Hs as Hwait Hversion.
  assert (w_state <$> rd_waiters lexical_published.1 !! lexical_waiter = Some WaiterPublished) as Hs' by (vm_compute; reflexivity).
  rewrite He in Hs'. cbn [fst] in Hs'. apply fmap_Some in Hs' as (w' & Hw' & Hpub).
  assert (bool_decide (mkManifestRow lexical_job_id "first" " world" ∈ rows_of (rd_catalog lexical_staged) lexical_job_id) = true) as Hr
    by (vm_compute; reflexivity).
  apply bool_decide_eq_true in Hr.
  assert (current_version_id sample_document = Some (w_version w)) as Hcur by (by rewrite Hversion).
  assert (bool_decide (is_Some (current_version sample_tree 2 sample_document)) = true) as Hcv by (vm_compute; reflexivity).
  apply bool_decide_eq_true in Hcv.
  assert (search_filter sample_tree text_files 2 sample_document = true) as Hf by (vm_compute; reflexivity).
  destruct (published_job_is_found uuid_vault sample_readers lexical_claim 70 lexical_staged d' _ lexical_waiter w w'
    (mkManifestRow lexical_job_id "first" " world") (sample_query " world") sample_tree sample_cache 10 text_files 2 sample_document
    Hok He Hw Hwait Hw' (eq_sym Hpub) Hr eq_refl eq_refl eq_refl Hcur Hcv Hf eq_refl) as (_ & offset & hits & truncated & _ & Hsearch & Hin).
  exists offset, hits, truncated. split; [exact Hsearch|exact Hin].
Defined.

Definition sample_env : lexical_env :=
  mkLexicalEnv uuid_vault {[sample_version := sample_source]} ∅ (λ _, false) (mkConsentDb ∅ None ∅ ∅) 0.
Definition sample_attachment : string := sample_digest.
Definition sample_pairs : list publication_pair :=
  [records_of uuid_vault (mkPair sample_attachment sample_version lexical_job_id lexical_profile 70)].
Notation sample_loop := (foldM (publish_pair sample_env sample_generation None) (sample_lexical, ∅) sample_pairs).
Lemma cons_ne_nil {A} (x : A) l : x :: l ≠ [].
Proof. done. Qed.
Lemma publication_decides_witness :
  ∃ c' profiles', publishRenditionAttachmentsAndLexicalHeadsTx sample_env sample_lexical ∅ sample_pairs sample_generation None = Ok (c', profiles') ∧
    lt_head c' = Some sample_generation.
Proof.
  assert (is_Ok sample_loop = true) as Hl by (vm_compute; reflexivity).
  assert (is_Ok (publishRenditionAttachmentsAndLexicalHeadsTx sample_env sample_lexical ∅ sample_pairs sample_generation None) = true) as Hp
    by (vm_compute; reflexivity).
  destruct sample_loop as [[c1 profiles1]|e] eqn:He; [|discriminate Hl].
  pose proof (publication_decides sample_env sample_lexical ∅ sample_pairs sample_generation None c1 profiles1 sample_lexical_ok
    (@cons_ne_nil _ _ _) eq_refl He) as Hd.
  destruct (publishRenditionAttachmentsAndLexicalHeadsTx _ _ _ _ _ _) as [[c' profiles']|e]; [|discriminate Hp].
  exists c', profiles'. split; [reflexivity|]. exact (proj1 (proj2 (proj2 Hd))).
Defined.

Notation sample_publication := (foldl lexical_step sample_lexical [OpPublish sample_env ∅ sample_pairs sample_generation None]).
(** The sample publication revokes the embedding head of another attachment. *)
Example sample_revokes : bool_decide (et_heads (lt_embedding sample_lexical) = ∅) = false ∧
  bool_decide (et_heads (lt_embedding sample_publication) = ∅) = true.
Proof. split; vm_compute; reflexivity. Qed.
Lemma SearchPageWithOptions_exact_witness :
  SearchPageWithOptions (sample_query "hello") sample_tree sample_publication sample_cache 10 0 no_scope =
    Ok ([mkHit (scanNode sample_tree 3 (sample_node (Some 1%Z) "hello" dir None None)) "/hello" SearchMatchName;
         mkHit (scanNode sample_tree 2 sample_document) "/letter" SearchMatchContent], false) ∧
  NoDup (name_hits (sample_query "hello") sample_tree no_scope ++
         content_hits (sample_query "hello") sample_tree sample_publication sample_cache (lt_head sample_publication) no_scope).*1.
Proof.
  destruct (SearchPageWithOptions_exact (sample_query "hello") sample_tree sample_publication sample_cache 10 0 no_scope
    (lexical_run_ok sample_lexical [OpPublish sample_env ∅ sample_pairs sample_generation None] sample_lexical_ok) eq_refl (Z.le_refl 0)) as (Hs & _ & _ & _ & _ & Hn).
  split; [|exact Hn]. rewrite Hs. vm_compute. reflexivity.
Defined.
(** The text cache serves before the first publication and not after it, and
    a deleted version is not found. *)
Example text_cache_serves_first :
  let hits c := default [] (match SearchPageWithOptions (sample_query "greeting") sample_tree c sample_cache 10 0 no_scope with
                            | Ok p => Some (sh_Path <$> p.1) | Err _ => None end) in
  (hits sample_stored, hits sample_publication) = (["/letter"], []).
Proof. vm_compute. reflexivity. Qed.
Example deleted_version_is_not_found :
  content_hits (sample_query "hello") sample_tree (lexical_step sample_publication (OpDeleteVersions [sample_version])) sample_cache
    (Some sample_generation) no_scope = [].
Proof. vm_compute. reflexivity. Qed.

(** *** One reader *)

Definition next_generation : string := sample_digest.
Definition sample_publish (g : string) : reader_op := RdCatalog (OpPublish sample_env ∅ sample_pairs g None).
(** A reader leases the first generation; the second one takes its place. *)
Definition leased_run : list reader_op :=
  (RdCatalog <$> sample_blobs) ++
  [RdCatalog (OpStageBuild uuid_vault ∅ lexical_build); RdCatalog (OpStageGeneration sample_generation);
   sample_publish sample_generation; RdAcquire; RdCatalog (OpStageGeneration next_generation); sample_publish next_generation].
Notation sample_leased ops := (foldl reader_step (no_readers demo_catalog sample_embedding) ops).

Example reader_keeps_generation :
  let s := sample_leased leased_run in
  (lt_head (sr_tables s), LeasedLexicalGenerationRoots (sr_readers s), bool_decide (is_Some (lt_generations (sr_tables s) !! sample_generation)))
  = (Some next_generation, [(sample_generation, 1%Z)], true).
Proof. vm_compute. reflexivity. Qed.
(** Once it has released the lease, however often, the next publication
    collects the generation. *)
Example released_generation_is_collected :
  let s := sample_leased (leased_run ++ [RdRelease 0; RdRelease 0; sample_publish next_generation]) in
  (LeasedLexicalGenerationRoots (sr_readers s), bool_decide (is_Some (lt_generations (sr_tables s) !! sample_generation))) = ([], false).
Proof. vm_compute. reflexivity. Qed.
Lemma leased_generation_is_kept_witness :
  let s := sample_leased leased_run in
  ∃ lease rows, sr_leases s !! 0%nat = Some (lease, rows) ∧ rows ≠ [] ∧
    loadAndValidateLexicalGenerationTx (sr_tables s) (lg_ID (ll_Generation lease)) = Ok (ll_Generation lease) ∧
    readLexicalManifestRowsTx (sr_tables s) (lg_ID (ll_Generation lease)) None ≡ₚ rows.
Proof.
  cbv zeta. pose proof (proj1 (leased_generation_is_kept demo_catalog sample_embedding leased_run) 0%nat) as Hkept. cbv zeta in Hkept.
  assert ((λ l : LexicalGenerationLease * list lexicalManifestRow, (ll_released l.1, length l.2)) <$>
    sr_leases (sample_leased leased_run) !! 0%nat = Some (false, 2%nat)) as Hl by (vm_compute; reflexivity).
  destruct (sr_leases (sample_leased leased_run) !! 0%nat) as [[lease rows]|]; [|discriminate Hl].
  apply (inj Some) in Hl. injection Hl as Ho Hlen. exists lease, rows. split; [reflexivity|]. split; [intros ->; discriminate Hlen|].
  exact (Hkept lease rows eq_refl Ho).
Defined.
